(* ===== verification/_CoqProject ===== *)
-Q . S2P
Prelude.v
Locks.v
Mq.v
Sched.v
Timer.v
Handle.v
Text.v
Module.v
Server.v
Delivery.v
Command.v
Lifecycle.v
Dispatch.v
Boot.v
Netpack.v
PackStream.v
NetpackProofs.v
WsNetpack.v
WsFrames.v
WsNetpackProofs.v
WsHandshake.v
Databuffer.v
Hashid.v
Gate.v
GateProofs.v
GateInv.v
GateNode.v
Harbor.v
HarborProofs.v
HarborLink.v
HarborNames.v
HarborErrors.v
HarborInv.v
Seri.v
SeriProofs.v
Socket.v
SocketProofs.v
SocketInv.v
SocketSafe.v
SocketRun.v
SocketStream.v
SocketNode.v
Threads.v
ThreadsNode.v
Des.v
DesProofs.v
Crypt.v
CryptProofs.v
Sha1.v
Sha1Proofs.v
SprotoPack.v
SprotoPackProofs.v
SprotoSchema.v
SprotoSchemaProofs.v
SprotoCodec.v
SprotoCodecProofs.v
SprotoArrays.v
SprotoFields.v
SprotoDecode.v
Lsproto.v
LsprotoEncode.v
LsprotoDecode.v
Cluster.v
ClusterProofs.v
Stm.v
StmProofs.v
Sharedata.v
SharedataFill.v
SharedataProofs.v
SharedataNext.v
Multicast.v
Bson.v
BsonWrite.v
BsonRead.v
BsonUtf8.v
BsonEnds.v
