(* ===== verification/Prelude.v ===== *)
(** * The jsmjServer verification development

    jsmjServer is a game server on skynet, an actor framework in C: services
    exchange messages through queues, a few worker threads run the services whose
    queues are not empty, a timer, a socket and a monitor thread serve them, and
    the game logic itself is Lua.  This library models the C of the framework
    ([src/skynet/skynet-src], [service-src] and [lualib-src]) and proves what it
    promises.  A C function is a Gallina function under the same name; memory is
    explicit where code shares it; everything the language leaves undefined, a
    failed [assert] and a read outside an array included, is a [Fault], so that
    its absence is a theorem.

    ** The parts, and the files that model them

    - [Prelude] (this file): outcomes of C code, machine integers, arrays,
      buffers, loops, integers in memory, and the lemmas and tactics all files
      share (hint database [ends], tactics [inv_ok] and [ending]).
    - [Locks]: [spinlock.h] and [rwlock.h], one step per access to the lock word.
    - [Mq]: [skynet_mq.c]; [Mq.Ring] is the ring of one queue, [Mq.Global] the list
      of queues that have messages, [Mq.Fifo] the refinement to a list.  [Sched]
      interleaves pushes, pops and rounds of the workers as a step relation.
    - [Timer]: [skynet_timer.c], the wheel, and its refinement to a list of
      deadlines.  [Handle]: [skynet_handle.c], slots and names.
    - [Text]: the C strings and the number formats the code reads and prints.
      [Module]: [skynet_module.c].
    - [Server]: [skynet_server.c] (contexts, sending, dispatching), with
      [skynet_harbor.c], [skynet_error.c] and [skynet_monitor.c], on a [node], the
      state of all components; [Delivery] proves sending and retiring, [Command]
      has the text commands, [skynet_env.c], [skynet_log.c] and the start of a
      node, [Lifecycle] launching and stopping, [Dispatch] a worker's round, and
      [Boot] a concrete node that is the witness of these theorems.
    - [Socket]: [socket_server.c] with [socket_epoll.h]: every state of every
      socket, the requests of the services, the loop of the socket thread.  System
      calls take their answers from a script, so that a theorem about all scripts
      is one about every behaviour of the kernel.  [SocketProofs] has the frames
      and the termination, [SocketInv], [SocketSafe] and [SocketRun] the invariant
      and its preservation by every request, event and call, [SocketStream] the
      bytes of a connection.  [SocketNode]: [skynet_socket.c], the socket server
      beside the services of a node.
    - [Threads]: [skynet_start.c], the four kinds of threads as a labelled step
      relation over [struct monitor], its mutex and its condition variable, against
      the interface [Engine]; [ThreadsNode] makes the node an instance of it.
    - [Databuffer], [Hashid], [Gate]: [service-src/databuffer.h], [hashid.h] and
      [service_gate.c], the service that owns the clients' connections;
      [GateProofs] and [GateInv] for a gate against recorded calls, [GateNode] for
      a gate on a node.
    - [Harbor]: [service-src/service_harbor.c], the service that carries messages
      between nodes.  [HarborProofs] has its queues, headers and input,
      [HarborLink] two nodes that talk to each other, [HarborNames] the global
      names, [HarborInv] the invariant of its reachable states, [HarborErrors]
      the cases in which it fails.
    - [Netpack], [NetpackProofs]: [lua-netpack.c], packets for Lua; [WsNetpack]:
      [lua-websocketnetpack.c], frames of websocket clients, with the parser that
      specifies them in [WsFrames], [WsNetpackProofs] for the frames and
      [WsHandshake] for the request before them.  Both libraries keep the same
      queue and table ([Netpack], for any kind of record); [PackStream] proves what
      they share, and that what holds for one chunk holds for the streams of many
      connections, against the interface [Splitter], of which each is an instance.
    - [Seri], [SeriProofs]: [lua-seri.c], serialisation of Lua values.
    - [Des], [DesProofs], [Crypt], [CryptProofs]: [lua-crypt.c]; [Sha1],
      [Sha1Proofs]: [lsha1.c].
    - sproto, the format of the clients' messages ([lualib-src/sproto]):
      [SprotoPack] and [SprotoPackProofs] for the packing of zeros,
      [SprotoSchema] and [SprotoSchemaProofs] for schemas, the pool they live in
      and the searches, [SprotoCodec] for [sproto_encode] and [sproto_decode] with
      their callbacks as parameters; [SprotoCodecProofs], [SprotoArrays] and
      [SprotoFields] show what is written, [SprotoDecode] what is read back;
      [Lsproto] is [lsproto.c], [LsprotoEncode] and [LsprotoDecode] the messages of
      Lua tables.

    - [Cluster], [ClusterProofs]: [lua-cluster.c], requests and responses between
      clusters, with the part of [service/clusterd.lua] that collects the packets of a
      request.  [Stm], [StmProofs]: [lua-stm.c], messages a writer shares with
      readers on other threads, as a step relation with explicit memory.
    - [Sharedata]: [lua-sharedata.c], configuration tables all services read.
      [SharedataFill] shows how a Lua table is laid out in an array and in chains
      of slots, [SharedataProofs] what is found in it, [SharedataNext] how its keys
      are enumerated.  [Multicast]: [lua-multicast.c], a message that is counted down
      by its receivers.
    - [Bson]: [lua-bson.c], documents of the database.  [BsonWrite] shows the bytes
      that are written, [BsonRead] that they are read back, [BsonUtf8] which texts
      are taken, [BsonEnds] that reading ends whatever the bytes are.

    ** What the theorems show

    - The framework: a message pushed to a live service is in its queue, once and
      in order, and is handled ([Mq.Fifo.ring_refines_fifo], [Sched.scheduler_safe],
      [Sched.scheduler_no_lost_wakeup], [Delivery.send_local_delivers],
      [Dispatch.worker_round]); a retired service gets no more messages and what
      was left in its queue is reported to the senders; a timeout fires at its
      tick; handles and names behave as maps; launching gives a fresh handle;
      stopping the node retires every service whose handle is not 0.
    - The threads: what [sleep] counts, that no sleeping worker is missed, and that
      after [quit] every interleaving ends.
    - The network: no state the socket server reaches with callers that keep to
      [call_ok] (known ids, no low priority) fails an assertion or touches memory it
      does not own; what a service sends on a TCP connection is
      what the kernel gets, whole and in order; events reach the owner of the
      socket; the gate cuts the byte stream into packets, wherever the pieces end,
      and hands each that is not empty to its agent.
    - Messages between nodes: what a node sends to another, before, during and
      after the handshake, arrives there once and in order; a global name leads to
      the service that announced it last.
    - Shared memory: in all interleavings, readers of a shared message get what was
      published, whole and in order, and nothing is freed too early or never,
      as long as readers are released one at a time (two at once can free the object under
      each other, [StmProofs.reader_releases_race]).  A shared table
      whose integer keys fit 32 bits answers like the Lua table it was made from, and
      its keys are visited once each.  A message
      for many is freed when, and only when, the last of them has read it.
    - The libraries: decoding undoes encoding (serialised values, packets, requests
      between clusters, documents of the database, base64, hexadecimal text, DES, packed strings, sproto
      messages), only well-formed
      schemas are loaded, SHA-1 and HMAC are the standard ones, two sides of a key
      exchange agree.
    - What an event is allowed to be is part of the theorem ([call_ok], [content_ok],
      [event_ok], [wf_value], [plain], [clean]); a message whose type does not fit what
      it points to is the fault [Mistyped].
    - Where the code does not do what it means to, a theorem states the behaviour
      it has (names in [aborts], [leaks], [crashes], [underruns] and the like).

    ** Bounds and fuel

    A loop that is not structural has fuel, and the amount is computed from the
    state: the number of messages, requests, events and answers left for the
    socket loop ([poll_work]), the bytes left of a text, 64 steps for 64 bits, the
    slots of a table.  That it is enough is a theorem ([poll_ends] and the lemmas
    [ends_...]) or part of the theorem that states the result.  Integers keep the
    width of the source ([u8], [u16], [u32], [u64], [i32]); signed overflow is a
    fault, but for [message_count] of a context, a statistic that is taken to wrap.  Hypotheses such as "less than 2^30 messages in a queue" are the sizes
    at which an [int] of the source would overflow.

    ** What is not modelled

    - Third-party code: Lua, jemalloc, lpeg, md5, lua-cjson with its number
      conversions.  The allocator never fails and gives fresh blocks, as
      [skynet_malloc] does (it aborts otherwise).
    - The game logic in Lua.  What a service's callback does is an argument of the
      theorems, with what they need of it as a hypothesis.
    - Bindings that only move values between the Lua stack and functions modelled
      here ([lua-skynet.c], [lua-socket.c], ...), and the parts of the modelled
      libraries that register functions.
    - The kernel, [dlopen], the clock and [random]: arguments.
    - Weak memory: the steps of threads are those of sequential consistency, and
      [__sync_lock_test_and_set] and [__sync_lock_release] are full barriers.
    - Interleavings inside a call of the socket server: a call of a service and a turn of
      the socket thread are one step each, [reserve_id] included.
    - The release of shared tables ([delete_tbl]), which are trees here.
    - Not yet: [lua-mongo.c], [lua-websocket.c] and its client. *)

From stdpp Require Import base numbers list gmap strings.
From Stdlib Require Import ZArith Lia.


#[local] Open Scope Z_scope.

(** ** Outcomes of C code

    A C function either returns, or it raises an error of Lua, or it runs into
    something the language leaves undefined or the program itself aborts on.
    Every partial operation of the model returns an [outcome], so that "this
    assertion never fails" and "this array is never read out of bounds" are
    theorems. *)

Inductive fault :=
  | AssertFailed      (** [assert] of a false condition *)
  | NullPointer       (** a dereference of [NULL] *)
  | DanglingPointer   (** a dereference of an object that is not live *)
  | OutOfBounds       (** an array access outside the array *)
  | Uninitialised     (** a read of memory that was never written *)
  | Mistyped          (** memory read as a struct or a text that it does not hold *)
  | SignedOverflow    (** arithmetic on [int] that leaves its range *)
  | Exited            (** the program called [exit] or [abort] *)
  | NoAnswer          (** the script of system call results does not fit the run *)
  | LuaError (msg : string) (** [luaL_error] left the C code *)
  | OutOfFuel.        (** the bound on a loop was too small *)

Inductive outcome (A : Type) :=
  | Ok (a : A)
  | Fault (f : fault).
Arguments Ok {_} _.
Arguments Fault {_} _.

#[global] Instance outcome_ret : MRet outcome := fun _ a => Ok a.
#[global] Instance outcome_bind : MBind outcome :=
  fun _ _ k m => match m with Ok a => k a | Fault f => Fault f end.
#[global] Instance fault_eq_dec : EqDecision fault.
Proof. solve_decision. Defined.

Definition c_assert (b : bool) : outcome unit :=
  if b then Ok tt else Fault AssertFailed.

Definition deref {A} (o : option A) : outcome A :=
  match o with Some a => Ok a | None => Fault DanglingPointer end.

Definition init_read {A} (o : option A) : outcome A :=
  match o with Some a => Ok a | None => Fault Uninitialised end.

(** Inversion of a [bind] that returned. *)
Lemma bind_Ok {A B} (m : outcome A) (k : A -> outcome B) b :
  (m ≫= k) = Ok b -> exists a, m = Ok a /\ k a = Ok b.
Proof. destruct m as [a|f]; [intros H; by exists a | done]. Qed.

Lemma bind_ret {A B} (a : A) (k : A -> outcome B) : (Ok a ≫= k) = k a.
Proof. done. Qed.

Lemma bind_assoc {A B C} (m : outcome A) (f : A -> outcome B) (k : B -> outcome C) :
  ((m ≫= f) ≫= k) = (m ≫= fun a => f a ≫= k).
Proof. by destruct m. Qed.

Lemma bind_ext {A B} (m : outcome A) (f f' : A -> outcome B) :
  (forall a, f a = f' a) -> (m ≫= f) = (m ≫= f').
Proof. intros E. destruct m; [apply E|done]. Qed.

(** [inv_ok] decomposes every hypothesis of the form [_ ≫= _ = Ok _]. *)
Ltac inv_ok :=
  repeat match goal with
  | H : (_ ≫= _) = Ok _ |- _ =>
      let a := fresh "r" in let E := fresh "E" in
      apply bind_Ok in H as (a & E & H)
  | H : mret _ = Ok _ |- _ => unfold mret, outcome_ret in H
  | H : Ok _ = Ok _ |- _ => injection H as H; subst
  | H : Fault _ = Ok _ |- _ => discriminate H
  | H : c_assert ?b = Ok _ |- _ =>
      unfold c_assert in H; destruct b eqn:?; [| discriminate H]
  | H : deref ?o = Ok _ |- _ =>
      unfold deref in H; destruct o eqn:?; [| discriminate H]
  end.

(** ** Machine integers *)

Definition u8 (z : Z) : Z := z mod 2^8.
Definition u16 (z : Z) : Z := z mod 2^16.
Definition u32 (z : Z) : Z := z mod 2^32.
Definition u64 (z : Z) : Z := z mod 2^64.
(** Conversion to [int32_t]: two's complement, as gcc does it. *)
Definition i32 (z : Z) : Z := (z + 2^31) mod 2^32 - 2^31.

Lemma i32_small z : 0 <= z < 2^31 -> i32 z = z.
Proof. intros Hz. unfold i32. rewrite Z.mod_small by lia. lia. Qed.

Definition INT_MAX : Z := 2^31 - 1.
Definition is_int (z : Z) : bool := (- 2^31 <=? z) && (z <? 2^31).
Definition is_u32 (z : Z) : Prop := 0 <= z < 2^32.

Lemma u32_range z : is_u32 (u32 z).
Proof. unfold is_u32, u32. apply Z.mod_pos_bound. lia. Qed.

(** The result of an arithmetic operation on [int]. *)
Definition c_int (z : Z) : outcome Z :=
  if is_int z then Ok z else Fault SignedOverflow.

Lemma c_int_ok z : - 2^31 <= z < 2^31 -> c_int z = Ok z.
Proof.
  intros. unfold c_int, is_int.
  destruct (Z.leb_spec (-2^31) z), (Z.ltb_spec z (2^31)); try lia. done.
Qed.

(** ** Arrays

    A C array is a list; every access checks its index. *)

Definition arr_get {A} (l : list A) (i : Z) : outcome A :=
  if i <? 0 then Fault OutOfBounds
  else match l !! Z.to_nat i with Some a => Ok a | None => Fault OutOfBounds end.

Definition arr_set {A} (l : list A) (i : Z) (a : A) : outcome (list A) :=
  if (i <? 0) || (Z.of_nat (length l) <=? i) then Fault OutOfBounds
  else Ok (<[Z.to_nat i := a]> l).

Lemma arr_get_ok {A} (l : list A) i a :
  0 <= i -> l !! Z.to_nat i = Some a -> arr_get l i = Ok a.
Proof.
  intros Hi Hl. unfold arr_get.
  destruct (Z.ltb_spec i 0); [lia|]. by rewrite Hl.
Qed.

Lemma arr_get_inv {A} (l : list A) i a :
  arr_get l i = Ok a -> 0 <= i /\ l !! Z.to_nat i = Some a.
Proof.
  unfold arr_get. destruct (Z.ltb_spec i 0); [done|].
  destruct (l !! Z.to_nat i) eqn:E; [|done]. intros [= ->]. done.
Qed.

Lemma arr_set_ok {A} (l : list A) i a :
  0 <= i < Z.of_nat (length l) -> arr_set l i a = Ok (<[Z.to_nat i := a]> l).
Proof.
  intros Hi. unfold arr_set.
  destruct (Z.ltb_spec i 0); [lia|].
  destruct (Z.leb_spec (Z.of_nat (length l)) i); [lia|]. done.
Qed.

(** ** Loops

    [for_loop n i body s] runs [body i], [body (i+1)], ... [n] times, the
    [for (i = i0; i < i0 + n; i++)] of the source. *)

Fixpoint for_loop {St} (n : nat) (i : Z) (body : Z -> St -> outcome St) (s : St)
    : outcome St :=
  match n with
  | O => Ok s
  | S n => s' ← body i s; for_loop n (i + 1) body s'
  end.

(** The invariant rule: if [inv] holds before, and every iteration returns and
    keeps it, the loop returns in a state that has it. *)
Lemma for_loop_inv {St} (inv : Z -> St -> Prop) body n :
  forall i s,
  inv i s ->
  (forall j s, i <= j < i + Z.of_nat n -> inv j s ->
     exists s', body j s = Ok s' /\ inv (j + 1) s') ->
  exists s', for_loop n i body s = Ok s' /\ inv (i + Z.of_nat n) s'.
Proof.
  induction n as [|n IH]; intros i s Hi Hbody; cbn [for_loop].
  - exists s. split; [done|]. by rewrite Z.add_0_r.
  - destruct (Hbody i s) as (s1 & -> & H1); [lia|done|]. rewrite bind_ret.
    destruct (IH (i+1) s1) as (s2 & -> & H2); [done| |].
    + intros j s' Hj. apply Hbody. lia.
    + exists s2. split; [done|].
      by replace (i + Z.of_nat (S n)) with (i + 1 + Z.of_nat n) by lia.
Qed.

(** ** Masks and shifts

    The source masks with [2^k - 1]; the proofs speak of [mod] and [/]. *)

Lemma land_mask x k : 0 <= k -> Z.land x (2^k - 1) = x mod 2^k.
Proof.
  intros. replace (2^k - 1) with (Z.ones k) by (rewrite Z.ones_equiv; lia).
  by apply Z.land_ones.
Qed.

Lemma land_mask_range x k : 0 <= k -> 0 <= Z.land x (2^k - 1) < 2^k.
Proof. intros. rewrite land_mask by done. apply Z.mod_pos_bound. lia. Qed.

(** [x | mask == y | mask] compares the bits above the mask. *)
Lemma lor_mask_eqb x y k : 0 <= k ->
  (Z.lor x (2^k - 1) =? Z.lor y (2^k - 1)) = (x / 2^k =? y / 2^k).
Proof.
  intros Hk. replace (2^k - 1) with (Z.ones k) by (rewrite Z.ones_equiv; lia).
  apply eq_true_iff_eq. rewrite !Z.eqb_eq, <- !Z.shiftr_div_pow2 by done.
  split; intros H.
  - apply (f_equal (fun z => Z.shiftr z k)) in H.
    rewrite !Z.shiftr_lor in H.
    replace (Z.shiftr (Z.ones k) k) with 0 in H; [by rewrite !Z.lor_0_r in H|].
    rewrite Z.shiftr_div_pow2, Z.ones_equiv by done. symmetry. apply Z.div_small. lia.
  - apply Z.bits_inj'. intros n Hn. rewrite !Z.lor_spec.
    destruct (Z.lt_ge_cases n k).
    + by rewrite Z.ones_spec_low, !orb_true_r by lia.
    + apply (f_equal (fun z => Z.testbit z (n - k))) in H.
      rewrite !Z.shiftr_spec in H by lia. replace (n - k + k) with n in H by lia.
      by rewrite H.
Qed.

(** ** Lists *)

Lemma filter_all {A} (P : A -> Prop) `{!forall x, Decision (P x)} (l : list A) :
  (forall x, x ∈ l -> P x) -> filter P l = l.
Proof.
  induction l as [|x l IH]; intros Hall; [done|].
  rewrite filter_cons_True by (apply Hall; set_solver). f_equal. apply IH. set_solver.
Qed.

(** [a | (b << k)] is a sum when [a] fits below bit [k]. *)
Lemma lor_disjoint a b k : 0 <= k -> 0 <= a < 2^k -> Z.lor a (b * 2^k) = a + b * 2^k.
Proof.
  intros Hk Ha. pose proof (Z.add_lor_land a (b * 2^k)) as H.
  replace (Z.land a (b * 2^k)) with 0 in H; [lia|]. symmetry.
  apply Z.bits_inj'. intros n Hn. rewrite Z.land_spec, Z.bits_0.
  destruct (Z.lt_ge_cases n k).
  - by rewrite Z.mul_pow2_bits_low, andb_false_r by lia.
  - destruct (Z.eq_dec a 0) as [->|]; [by rewrite Z.bits_0|].
    rewrite (Z.bits_above_log2 a n); [done|lia|].
    apply Z.log2_lt_pow2; [lia|].
    apply Z.lt_le_trans with (2^k); [lia|]. apply Z.pow_le_mono_r; lia.
Qed.

Lemma shiftl_lor a b k : 0 <= k -> 0 <= b < 2^k -> Z.lor (Z.shiftl a k) b = a * 2^k + b.
Proof.
  intros Hk Hb. rewrite Z.shiftl_mul_pow2, Z.lor_comm, lor_disjoint by done. lia.
Qed.

(** The bytes of a word put together again. *)
Lemma word_of_bytes v : 0 <= v < 2^32 ->
  Z.lor (Z.lor (Z.lor (Z.shiftl (v / 2^24 mod 256) 24) (Z.shiftl (v / 2^16 mod 256) 16))
    (Z.shiftl (v / 256 mod 256) 8)) (v mod 256) = v.
Proof.
  intros Hv.
  assert (Hd : forall x, x = x / 256 * 256 + x mod 256) by (intros x; pose proof (Z.div_mod x 256); lia).
  assert (Hm : forall x, 0 <= x mod 256 < 256) by (intros x; apply Z.mod_pos_bound; lia).
  pose proof (Hm (v / 2^24)). pose proof (Hm (v / 2^16)). pose proof (Hm (v / 256)). pose proof (Hm v).
  assert (E2 : v / 2^16 = v / 256 / 256) by (rewrite Z.div_div by lia; done).
  assert (E3 : v / 2^24 = v / 256 / 256 / 256) by (rewrite !Z.div_div by lia; done).
  set (b0 := v / 2^24 mod 256) in *. set (b1 := v / 2^16 mod 256) in *.
  set (b2 := v / 256 mod 256) in *. set (b3 := v mod 256) in *.
  rewrite <- !Z.lor_assoc.
  rewrite (shiftl_lor b2 b3 8) by lia.
  rewrite (shiftl_lor b1 _ 16) by lia. rewrite (shiftl_lor b0 _ 24) by lia.
  assert (Eb0 : b0 = v / 256 / 256 / 256).
  { subst b0. rewrite E3. apply Z.mod_small. rewrite !Z.div_div by lia.
    split; [apply Z.div_pos|apply Z.div_lt_upper_bound]; lia. }
  subst b1 b2 b3. rewrite Eb0, E2. pose proof (Hd v). pose proof (Hd (v / 256)). pose proof (Hd (v / 256 / 256)). lia.
Qed.

(** ** Buffers *)

(** [memcpy] of [bytes] into [buf] at offset [off]. *)
Definition mem_write {A} (buf : list A) (off : Z) (bytes : list A) : outcome (list A) :=
  if (off <? 0) || (Z.of_nat (length buf) <? off + Z.of_nat (length bytes))
  then Fault OutOfBounds
  else Ok (take (Z.to_nat off) buf ++ bytes ++ drop (Z.to_nat off + length bytes) buf).

Lemma mem_write_ok {A} (a b c bytes : list A) :
  length b = length bytes ->
  mem_write (a ++ b ++ c) (Z.of_nat (length a)) bytes = Ok (a ++ bytes ++ c).
Proof.
  intros Hl. unfold mem_write. rewrite !length_app.
  destruct (Z.ltb_spec (Z.of_nat (length a)) 0); [lia|].
  destruct (Z.ltb_spec (Z.of_nat (length a + (length b + length c)))
              (Z.of_nat (length a) + Z.of_nat (length bytes))); [lia|]. cbn [orb].
  rewrite Nat2Z.id, take_app_length, <- Hl.
  rewrite (app_assoc a b c), <- length_app, drop_app_length. done.
Qed.

(** [size] bytes of [buf] from offset [off]. *)
Definition mem_read {A} (buf : list A) (off size : Z) : outcome (list A) :=
  if (off <? 0) || (size <? 0) || (Z.of_nat (length buf) <? off + size)
  then Fault OutOfBounds
  else Ok (take (Z.to_nat size) (drop (Z.to_nat off) buf)).

Lemma mem_read_ok {A} (a b c : list A) :
  mem_read (a ++ b ++ c) (Z.of_nat (length a)) (Z.of_nat (length b)) = Ok b.
Proof.
  unfold mem_read. rewrite !length_app.
  destruct (Z.ltb_spec (Z.of_nat (length a)) 0); [lia|].
  destruct (Z.ltb_spec (Z.of_nat (length b)) 0); [lia|].
  destruct (Z.ltb_spec (Z.of_nat (length a + (length b + length c)))
              (Z.of_nat (length a) + Z.of_nat (length b))); [lia|]. cbn [orb].
  by rewrite !Nat2Z.id, drop_app_length, take_app_length.
Qed.

Lemma mem_read_inv {A} (buf : list A) off size b :
  mem_read buf off size = Ok b ->
  exists a c, buf = a ++ b ++ c /\ Z.of_nat (length a) = off /\ Z.of_nat (length b) = size.
Proof.
  unfold mem_read.
  destruct (Z.ltb_spec off 0); [done|]. destruct (Z.ltb_spec size 0); [done|].
  destruct (Z.ltb_spec (Z.of_nat (length buf)) (off + size)); [done|].
  cbn [orb]. intros [= <-].
  exists (take (Z.to_nat off) buf), (drop (Z.to_nat size) (drop (Z.to_nat off) buf)).
  rewrite !take_drop, !length_take, length_drop. split; [done|]. lia.
Qed.

(** A list cut into pieces of [k] elements, and what is left. *)
Lemma chunks {A} k (l : list A) : (0 < k)%nat ->
  exists bs rest, l = concat bs ++ rest /\ Forall (fun b => length b = k) bs /\ (length rest < k)%nat.
Proof.
  intros Hk. induction l as [l IH] using (induction_ltof1 _ (@length A)). unfold ltof in IH.
  destruct (Nat.lt_ge_cases (length l) k) as [Hlt|Hge]; [by exists [], l|].
  destruct (IH (drop k l)) as (bs & rest & E & HF & Hr); [rewrite length_drop; lia|].
  exists (take k l :: bs), rest. cbn [concat]. rewrite <- app_assoc, <- E, take_drop. split; [done|].
  split; [|done]. constructor; [|done]. rewrite length_take. lia.
Qed.

Lemma length_chunks {A} k (bs : list (list A)) : Forall (fun b => length b = k) bs -> length (concat bs) = (k * length bs)%nat.
Proof. induction 1 as [|b bs Hb _ IH]; [cbn; lia|]. cbn [concat]. rewrite length_app, Hb, IH. cbn [length]. lia. Qed.

(** ** Integers in memory *)

(** The [n] low bytes of [v], least significant first. *)
Fixpoint to_le (n : nat) (v : Z) : list Z :=
  match n with
  | O => []
  | S n => v mod 256 :: to_le n (v / 256)
  end.

Fixpoint of_le (bs : list Z) : Z :=
  match bs with
  | [] => 0
  | b :: bs => b + 256 * of_le bs
  end.

Lemma le_length n : forall v, length (to_le n v) = n.
Proof. induction n as [|n IH]; intros v; [done|]. cbn. by rewrite IH. Qed.

Lemma of_le_le n : forall v, of_le (to_le n v) = v mod 256 ^ Z.of_nat n.
Proof.
  induction n as [|n IH]; intros v.
  - cbn. by rewrite Z.mod_1_r.
  - cbn [to_le of_le]. rewrite IH, Nat2Z.inj_succ, Z.pow_succ_r by lia.
    rewrite (Z.rem_mul_r v 256) by lia. done.
Qed.

Lemma to_le_app n k : forall v, to_le (n + k) v = to_le n v ++ to_le k (v / 256 ^ Z.of_nat n).
Proof.
  induction n as [|n IH]; intros v; [cbn; by rewrite Z.div_1_r|]. cbn [Nat.add to_le app]. rewrite IH, Z.div_div by lia.
  do 4 f_equal. rewrite Nat2Z.inj_succ, Z.pow_succ_r by lia. done.
Qed.

Lemma to_le_of_le bs : Forall (fun b => 0 <= b < 256) bs -> to_le (length bs) (of_le bs) = bs.
Proof.
  induction 1 as [|b bs Hb _ IH]; [done|]. cbn [length to_le of_le].
  rewrite (Z.mul_comm 256), Z.mod_add, Z.mod_small, Z.div_add, Z.div_small, Z.add_0_l by lia. by rewrite IH.
Qed.

(** ** Runs that meet no fault of the program

    [safe P m]: [m] returns a result with [P], or the script of answers of the
    system does not fit the run. *)
Definition safe {A} (P : A -> Prop) (m : outcome A) : Prop :=
  match m with Ok a => P a | Fault f => f = NoAnswer end.

Lemma safe_then {A B} (P : A -> Prop) (Q : B -> Prop) m k :
  safe P m -> (forall a, P a -> safe Q (k a)) -> safe Q (m ≫= k).
Proof. destruct m; cbn; eauto. Qed.

Lemma safe_mono {A} (P Q : A -> Prop) m : safe P m -> (forall a, P a -> Q a) -> safe Q m.
Proof. destruct m; cbn; eauto. Qed.

Lemma safe_assert {A} (b : bool) (k : unit -> outcome A) P : b = true -> safe P (k tt) -> safe P (c_assert b ≫= k).
Proof. by intros ->. Qed.

(** All of a buffer. *)
Lemma read_whole {A} (msg : list A) : mem_read msg 0 (Z.of_nat (length msg)) = Ok msg.
Proof. pose proof (mem_read_ok [] msg []) as E. cbn [app length] in E. by rewrite app_nil_r in E. Qed.

(** A buffer of which every cell was written. *)
Lemma mapM_init (l : list Z) : mapM init_read (Some <$> l) = Ok l.
Proof. induction l as [|x l IH]; [done|]. cbn [fmap list_fmap mapM]. cbn. by rewrite IH. Qed.

Lemma byte_of v k : 0 <= k -> Z.land (Z.shiftr v k) 255 = v / 2 ^ k mod 256.
Proof. intros. rewrite Z.shiftr_div_pow2 by done. exact (land_mask (v / 2^k) 8 ltac:(lia)). Qed.

(** ** Sums over a list *)

Definition sumZ {A} (f : A -> Z) (l : list A) : Z := foldr (fun x a => f x + a) 0 l.

Lemma sumZ_app {A} (f : A -> Z) l k : sumZ f (l ++ k) = sumZ f l + sumZ f k.
Proof. induction l as [|x l IH]; [done|]. cbn [app sumZ foldr]. unfold sumZ in *. lia. Qed.

Lemma sumZ_insert {A} (f : A -> Z) l : forall i x y, l !! i = Some x -> sumZ f (<[i := y]> l) = sumZ f l - f x + f y.
Proof.
  induction l as [|z l IH]; intros i x y E; [done|]. destruct i as [|i]; cbn [insert list_insert sumZ foldr].
  - injection E as ->. lia.
  - change (foldr (fun x a => f x + a) 0 (<[i := y]> l)) with (sumZ f (<[i := y]> l)). rewrite (IH i x y E). unfold sumZ. lia.
Qed.

Lemma sumZ_pos {A} (f : A -> Z) l : (forall x, 0 <= f x) -> 0 <= sumZ f l.
Proof. intros Hf. induction l as [|x l IH]; [done|]. cbn [sumZ foldr]. specialize (Hf x). unfold sumZ in *. lia. Qed.

Lemma sumZ_ge {A} (f : A -> Z) l i x : (forall x, 0 <= f x) -> l !! i = Some x -> f x <= sumZ f l.
Proof.
  intros Hf. revert i. induction l as [|z l IH]; intros i E; [done|]. pose proof (sumZ_pos f l Hf). pose proof (Hf z). cbn [sumZ foldr]. fold (sumZ f l).
  destruct i as [|i]; [injection E as ->; lia|]. specialize (IH i E). lia.
Qed.

Lemma sumZ_rest {A} (f : A -> Z) l i x j y : (forall x, 0 <= f x) -> l !! i = Some x -> sumZ f l <= f x -> l !! j = Some y -> j <> i -> f y = 0.
Proof.
  intros Hf Ei Hs Ej Hne. assert (E2 : <[i := y]> l !! j = Some y) by (by rewrite list_lookup_insert_ne).
  pose proof (sumZ_insert f l i x y Ei). pose proof (Hf y). assert (f y + f y <= sumZ f (<[i := y]> l)); [|lia].
  clear -Hf Ei E2 Hne Ej. revert i j Ei E2 Hne Ej. induction l as [|z l IH]; intros i j Ei E2 Hne Ej; [done|].
  pose proof (Hf z). destruct i as [|i], j as [|j]; cbn [insert list_insert] in *; cbn [sumZ foldr]; fold (sumZ f l); [done| | |].
  - pose proof (sumZ_ge f l j y Hf Ej). lia.
  - injection Ej as ->. change (foldr (fun x a => f x + a) 0 (<[i := y]> l)) with (sumZ f (<[i := y]> l)).
    assert (E3 : <[i := y]> l !! i = Some y) by (apply list_lookup_insert_eq; by eapply lookup_lt_Some). pose proof (sumZ_ge f _ i y Hf E3). lia.
  - change (foldr (fun x a => f x + a) 0 (<[i := y]> l)) with (sumZ f (<[i := y]> l)). specialize (IH i j Ei E2 ltac:(lia) Ej). lia.
Qed.

(** ** Loops that come to an end

    [ends m]: the bound on the loops of [m] was large enough. *)
Definition ends {A} (m : outcome A) : Prop := m <> Fault OutOfFuel.

Lemma ends_ok {A} (a : A) : ends (Ok a).
Proof. done. Qed.
Lemma ends_bind {A B} (m : outcome A) (k : A -> outcome B) : ends m -> (forall a, m = Ok a -> ends (k a)) -> ends (m ≫= k).
Proof. destruct m as [a|f]; intros Hm Hk; [by apply (Hk a)|]. intros [= ->]. by apply Hm. Qed.
Lemma ends_assert b : ends (c_assert b).
Proof. by destruct b. Qed.
Lemma ends_read {A} (b : list A) o n : ends (mem_read b o n).
Proof. unfold mem_read. by destruct (_ || _). Qed.
Lemma ends_write {A} (b : list A) o c : ends (mem_write b o c).
Proof. unfold mem_write. by destruct (_ || _). Qed.
Lemma ends_get {A} (b : list A) i : ends (arr_get b i).
Proof. unfold arr_get. destruct (_ <? _); [done|]. by destruct (_ !! _). Qed.
Lemma ends_int z : ends (c_int z).
Proof. unfold c_int. by destruct (is_int z). Qed.

Create HintDb ends discriminated.
#[export] Hint Resolve ends_ok ends_assert ends_read ends_write ends_get ends_int : ends.

(** [ending] follows the code down to the calls known to end. *)
Ltac ending :=
  repeat (cbv zeta; first
  [ solve [eauto with ends nocore]
  | done
  | apply ends_bind; [|intros ? ?]
  | match goal with |- ends (match ?x with _ => _ end) => destruct x eqn:? end ]).
