(* ===== verification/Locks.v ===== *)
(** * The locks ([skynet-src/spinlock.h], [skynet-src/rwlock.h])

    The lock words and the program counters of any number of threads, one step
    per access to the lock word.  The threads interleave step by step on memory that
    is sequentially consistent: the model takes every [__sync] operation for a full
    barrier, as on x86 (for other machines gcc promises only an acquire barrier for
    [__sync_lock_test_and_set] and a release barrier for [__sync_lock_release]).  The
    counter of the readers has no width here; it never exceeds the number of threads
    ([readers_bounded]).  The operations of the other files are single functions because what is proved
    here lets a lock holder run alone. *)

From S2P Require Import Prelude.
From stdpp Require Import base numbers list.
From Stdlib Require Import ZArith Lia.
#[local] Open Scope Z_scope.

(** How many threads are at a program counter in [P]. *)
Fixpoint at_pc {A} (P : A -> bool) (pcs : list A) : Z :=
  match pcs with
  | [] => 0
  | p :: pcs => Z.b2z (P p) + at_pc P pcs
  end.

Lemma at_pc_insert {A} (P : A -> bool) pcs i p q :
  pcs !! i = Some p ->
  at_pc P (<[i := q]> pcs) = at_pc P pcs - Z.b2z (P p) + Z.b2z (P q).
Proof.
  revert i. induction pcs as [|x pcs IH]; intros [|i] Hi; [done..| |].
  - injection Hi as ->. cbn. lia.
  - change (at_pc P (<[S i := q]> (x :: pcs))) with (Z.b2z (P x) + at_pc P (<[i := q]> pcs)).
    rewrite (IH i Hi). cbn. lia.
Qed.

Lemma at_pc_nonneg {A} (P : A -> bool) pcs : 0 <= at_pc P pcs.
Proof. induction pcs as [|x pcs IH]; cbn; [done|]. destruct (P x); cbn; lia. Qed.

Lemma at_pc_mono {A} (P Q : A -> bool) pcs :
  (forall p, P p = true -> Q p = true) -> at_pc P pcs <= at_pc Q pcs.
Proof.
  intros H. induction pcs as [|x pcs IH]; cbn; [done|].
  destruct (P x) eqn:E; [rewrite (H _ E); cbn; lia|]. destruct (Q x); cbn; lia.
Qed.

(** ** Spinlock *)
Module Spin.

Inductive pc :=
  | Idle      (** outside *)
  | Acquire   (** in [spinlock_lock], before its next [__sync_lock_test_and_set] *)
  | Holding.  (** between [spinlock_lock] and [spinlock_unlock] *)

Definition spinlock_init : Z := 0.

(** [__sync_lock_test_and_set(&lock->lock, 1)]: the old value and the new word. *)
Definition test_and_set (lock : Z) : Z * Z := (lock, 1).

(** One iteration of [while (__sync_lock_test_and_set(&lock->lock,1)) {}]. *)
Definition spinlock_lock (lock : Z) : pc * Z :=
  let '(old, lock) := test_and_set lock in
  (if negb (old =? 0) then Acquire else Holding, lock).

Definition spinlock_trylock (lock : Z) : bool * Z :=
  let '(old, lock) := test_and_set lock in (old =? 0, lock).

Definition spinlock_unlock (lock : Z) : Z := 0.

(** [Try] goes straight to [spinlock_trylock]. *)
Inductive step : Z * list pc -> Z * list pc -> Prop :=
  | step_enter lock pcs i :
      pcs !! i = Some Idle -> step (lock, pcs) (lock, <[i := Acquire]> pcs)
  | step_lock lock pcs i p lock' :
      pcs !! i = Some Acquire -> spinlock_lock lock = (p, lock') ->
      step (lock, pcs) (lock', <[i := p]> pcs)
  | step_try lock pcs i ok lock' :
      pcs !! i = Some Idle -> spinlock_trylock lock = (ok, lock') ->
      step (lock, pcs) (lock', <[i := if ok then Holding else Idle]> pcs)
  | step_unlock lock pcs i :
      pcs !! i = Some Holding ->
      step (lock, pcs) (spinlock_unlock lock, <[i := Idle]> pcs).

Inductive reachable (n : nat) : Z * list pc -> Prop :=
  | reach_init : reachable n (spinlock_init, replicate n Idle)
  | reach_step st st' : reachable n st -> step st st' -> reachable n st'.

Definition holding (p : pc) : bool := match p with Holding => true | _ => false end.

Definition inv (st : Z * list pc) : Prop :=
  (st.1 = 0 \/ st.1 = 1) /\ at_pc holding st.2 = st.1.

Lemma spin_step_inv st st' : step st st' -> inv st -> inv st'.
Proof.
  unfold inv. destruct 1 as [lock pcs i Hi|lock pcs i p lock' Hi E|lock pcs i ok lock' Hi E|lock pcs i Hi];
    cbn; intros [Hl Hh]; rewrite (at_pc_insert _ _ _ _ _ Hi).
  - cbn. lia.
  - unfold spinlock_lock in E. cbn in E. injection E as <- <-.
    destruct (Z.eqb_spec lock 0); cbn; lia.
  - unfold spinlock_trylock in E. cbn in E. injection E as <- <-.
    destruct (Z.eqb_spec lock 0); cbn; lia.
  - pose proof (at_pc_nonneg holding (<[i := Idle]> pcs)) as H.
    rewrite (at_pc_insert _ _ _ _ _ Hi) in H. unfold spinlock_unlock. cbn in *. lia.
Qed.

Lemma spin_reachable_inv n st : reachable n st -> inv st.
Proof.
  induction 1; [|by eapply spin_step_inv]. split; [by left|].
  induction n as [|n IH]; cbn in *; [done|lia].
Qed.

End Spin.

(** ** Readers-writer lock *)
Module RW.

Record rwlock := RWLock { write : Z; read : Z }.

Definition rwlock_init : rwlock := RWLock 0 0.

Inductive pc :=
  | Idle
  | RWait    (** [rwlock_rlock], at [while (lock->write)] *)
  | RInc     (** before [__sync_add_and_fetch(&lock->read,1)] *)
  | RCheck   (** at [if (lock->write)] *)
  | RUndo    (** before [__sync_sub_and_fetch(&lock->read,1)], to try again *)
  | Reading
  | WWait    (** [rwlock_wlock], at [__sync_lock_test_and_set(&lock->write,1)] *)
  | WDrain   (** at [while (lock->read)] *)
  | Writing.

Inductive request := WantRead | WantWrite.

(** What a thread does next; at [Idle] it calls the operation it wants, at
    [Reading] and [Writing] it unlocks. *)
Definition next (want : request) (p : pc) (l : rwlock) : pc * rwlock :=
  match p with
  | Idle => (match want with WantRead => RWait | WantWrite => WWait end, l)
  | RWait => (if negb (write l =? 0) then RWait else RInc, l)
  | RInc => (RCheck, RWLock (write l) (read l + 1))
  | RCheck => (if negb (write l =? 0) then RUndo else Reading, l)
  | RUndo => (RWait, RWLock (write l) (read l - 1))
  | Reading => (Idle, RWLock (write l) (read l - 1))
  | WWait => (if negb (write l =? 0) then WWait else WDrain, RWLock 1 (read l))
  | WDrain => (if negb (read l =? 0) then WDrain else Writing, l)
  | Writing => (Idle, RWLock 0 (read l))
  end.

Inductive step : rwlock * list pc -> rwlock * list pc -> Prop :=
  | step_thread l pcs i p want p' l' :
      pcs !! i = Some p -> next want p l = (p', l') ->
      step (l, pcs) (l', <[i := p']> pcs).

Inductive reachable (n : nat) : rwlock * list pc -> Prop :=
  | reach_init : reachable n (rwlock_init, replicate n Idle)
  | reach_step st st' : reachable n st -> step st st' -> reachable n st'.

(** The threads that have set [write], and those counted in [read]. *)
Definition has_write (p : pc) : bool := match p with WDrain | Writing => true | _ => false end.
Definition counted (p : pc) : bool :=
  match p with RCheck | RUndo | Reading => true | _ => false end.
Definition reading (p : pc) : bool := match p with Reading => true | _ => false end.
Definition writing (p : pc) : bool := match p with Writing => true | _ => false end.

Record inv (st : rwlock * list pc) : Prop := {
  inv_word : write st.1 = 0 \/ write st.1 = 1;
  inv_write : at_pc has_write st.2 = write st.1;
  inv_read : at_pc counted st.2 = read st.1;
  inv_excl : at_pc writing st.2 = 0 \/ at_pc reading st.2 = 0
}.

Lemma rw_init_inv n : inv (rwlock_init, replicate n Idle).
Proof.
  assert (H : forall P : pc -> bool, P Idle = false -> at_pc P (replicate n Idle) = 0).
  { intros P HP. induction n as [|n IH]; cbn; [done|]. by rewrite HP, IH. }
  split; cbn; rewrite ?H; auto.
Qed.

Lemma rw_step_inv st st' : step st st' -> inv st -> inv st'.
Proof.
  intros [l pcs i p want p' l' Hi E] [Hw Hhw Hr Hx]; cbn in *.
  pose proof (at_pc_nonneg writing pcs) as N1. pose proof (at_pc_nonneg reading pcs) as N2.
  assert (M1 : at_pc writing pcs <= at_pc has_write pcs) by (apply at_pc_mono; by intros []).
  assert (M2 : at_pc reading pcs <= at_pc counted pcs) by (apply at_pc_mono; by intros []).
  (* the thread that moves is itself counted *)
  pose proof (fun P => at_pc_nonneg P (<[i := Idle]> pcs)) as N.
  assert (Nw := N writing). assert (Nr := N reading). assert (Nh := N has_write).
  assert (Nc := N counted). clear N.
  rewrite (at_pc_insert _ _ _ _ _ Hi) in Nw. rewrite (at_pc_insert _ _ _ _ _ Hi) in Nr.
  rewrite (at_pc_insert _ _ _ _ _ Hi) in Nh. rewrite (at_pc_insert _ _ _ _ _ Hi) in Nc.
  destruct p; cbn in E; try (destruct want; cbn in E); injection E as <- <-;
    repeat match goal with |- context [?a =? 0] => destruct (Z.eqb_spec a 0) end; cbn in *;
    (split; cbn; rewrite ?(at_pc_insert _ _ _ _ _ Hi); cbn; lia).
Qed.

Lemma rw_reachable_inv n st : reachable n st -> inv st.
Proof. induction 1; [apply rw_init_inv|by eapply rw_step_inv]. Qed.

Lemma at_pc_length {A} (P : A -> bool) pcs : at_pc P pcs <= Z.of_nat (length pcs).
Proof. induction pcs as [|x pcs IH]; cbn [at_pc length]; [done|]. destruct (P x); cbn [Z.b2z]; lia. Qed.

(** With fewer than 2^31 threads the [int read] of the source cannot overflow. *)
Lemma readers_bounded n st : reachable n st -> 0 <= read st.1 <= Z.of_nat n.
Proof.
  intros H. assert (Hl : length st.2 = n).
  { induction H as [|st st' _ IH Hs]; [apply length_replicate|]. destruct Hs. cbn in *. by rewrite length_insert. }
  apply rw_reachable_inv in H as [_ _ Hr _]. pose proof (at_pc_length counted st.2). pose proof (at_pc_nonneg counted st.2). lia.
Qed.

End RW.

(** ** Properties *)

(** C8.  The readers-writer lock: whatever the threads do and however their steps
    interleave, at most one holds it for writing, and while one does none holds
    it for reading. *)
Theorem rwlock_exclusion n st :
  RW.reachable n st ->
  at_pc RW.writing st.2 <= 1 /\ (at_pc RW.writing st.2 = 1 -> at_pc RW.reading st.2 = 0).
Proof.
  intros [Hw Hhw _ Hx]%RW.rw_reachable_inv.
  assert (at_pc RW.writing st.2 <= at_pc RW.has_write st.2) by (apply at_pc_mono; by intros []).
  lia.
Qed.

(** A reader that counted itself while a writer was draining steps back. *)
Lemma rwlock_exclusion_witness :
  at_pc RW.writing [RW.Writing; RW.RUndo] <= 1 /\
  (at_pc RW.writing [RW.Writing; RW.RUndo] = 1 -> at_pc RW.reading [RW.Writing; RW.RUndo] = 0).
Proof.
  apply (rwlock_exclusion 2 (RW.RWLock 1 1, [RW.Writing; RW.RUndo])).
  assert (step : forall l pcs l' pcs' i want,
    RW.reachable 2 (l, pcs) ->
    match pcs !! i with
    | Some p => let '(p', l1) := RW.next want p l in l1 = l' /\ <[i := p']> pcs = pcs'
    | None => False
    end -> RW.reachable 2 (l', pcs')).
  { intros l pcs l' pcs' i want Hr Hs. eapply RW.reach_step; [exact Hr|].
    destruct (pcs !! i) as [p|] eqn:Hp; [|done]. destruct (RW.next want p l) as [p' l1] eqn:En.
    destruct Hs as [<- <-]. by econstructor. }
  apply (step (RW.RWLock 1 1) [RW.Writing; RW.RCheck] _ _ 1%nat RW.WantRead); [|done].
  apply (step (RW.RWLock 1 0) [RW.Writing; RW.RInc] _ _ 1%nat RW.WantRead); [|done].
  apply (step (RW.RWLock 1 0) [RW.WDrain; RW.RInc] _ _ 0%nat RW.WantWrite); [|done].
  apply (step (RW.RWLock 0 0) [RW.WWait; RW.RInc] _ _ 0%nat RW.WantWrite); [|done].
  apply (step (RW.RWLock 0 0) [RW.WWait; RW.RWait] _ _ 1%nat RW.WantRead); [|done].
  apply (step (RW.RWLock 0 0) [RW.WWait; RW.Idle] _ _ 1%nat RW.WantRead); [|done].
  apply (step (RW.RWLock 0 0) [RW.Idle; RW.Idle] _ _ 0%nat RW.WantWrite); [|done].
  apply (RW.reach_init 2).
Defined.

(** The spinlock: in every reachable state at most one thread holds it, and
    [spinlock_trylock] succeeds exactly when none does. *)
Theorem spinlock_exclusion n st :
  Spin.reachable n st ->
  at_pc Spin.holding st.2 <= 1 /\
  ((Spin.spinlock_trylock st.1).1 = true <-> at_pc Spin.holding st.2 = 0).
Proof.
  intros [Hl ->]%Spin.spin_reachable_inv. unfold Spin.spinlock_trylock; cbn.
  rewrite Z.eqb_eq. lia.
Qed.

Lemma spinlock_exclusion_witness :
  at_pc Spin.holding [Spin.Acquire; Spin.Holding] <= 1 /\
  ((Spin.spinlock_trylock 1).1 = true <-> at_pc Spin.holding [Spin.Acquire; Spin.Holding] = 0).
Proof.
  apply (spinlock_exclusion 2 (1, [Spin.Acquire; Spin.Holding])).
  eapply Spin.reach_step; [|apply (Spin.step_enter 1 [Spin.Idle; Spin.Holding] 0); done].
  eapply Spin.reach_step;
    [|apply (Spin.step_try 0 [Spin.Idle; Spin.Idle] 1 true 1); done].
  apply (Spin.reach_init 2).
Defined.
