(* ===== verification/Mq.v ===== *)
(** * Message queues ([skynet-src/skynet_mq.c], [skynet_mq.h])

    One [message_queue] per service, a ring buffer that doubles when it fills;
    one [global_queue] that links, through the intrusive [next] pointers, the
    queues a worker thread should look at.  [Ring] models the operations on one
    queue, [Global] those on the linked list.  Every operation of the source
    runs under the queue's spinlock, so it is one atomic function here. *)

From S2P Require Import Prelude.
From stdpp Require Import base numbers list gmap.
From Stdlib Require Import ZArith Lia.
#[local] Open Scope Z_scope.

(** Addresses of heap objects; [NULL] is [None]. *)
Abbreviation loc := positive.

Definition DEFAULT_QUEUE_SIZE : Z := 64.
Definition MQ_IN_GLOBAL : Z := 1.
Definition MQ_OVERLOAD : Z := 1024.

Record skynet_message := Msg {
  source : Z;
  session : Z;
  data : option loc;
  sz : Z
}.

Record message_queue := MQ {
  mq_handle : Z;
  mq_cap : Z;
  mq_head : Z;
  mq_tail : Z;
  mq_release : Z;
  mq_in_global : Z;
  mq_overload : Z;
  mq_overload_threshold : Z;
  mq_queue : list (option skynet_message);   (** [None]: never written *)
  mq_next : option loc
}.

Record global_queue := GQ { gq_head : option loc; gq_tail : option loc }.

Definition set_indices (h t : Z) (q : message_queue) : message_queue :=
  MQ (mq_handle q) (mq_cap q) h t (mq_release q) (mq_in_global q)
     (mq_overload q) (mq_overload_threshold q) (mq_queue q) (mq_next q).
Definition set_in_global (g : Z) (q : message_queue) : message_queue :=
  MQ (mq_handle q) (mq_cap q) (mq_head q) (mq_tail q) (mq_release q) g
     (mq_overload q) (mq_overload_threshold q) (mq_queue q) (mq_next q).
Definition set_overload (o th : Z) (q : message_queue) : message_queue :=
  MQ (mq_handle q) (mq_cap q) (mq_head q) (mq_tail q) (mq_release q)
     (mq_in_global q) o th (mq_queue q) (mq_next q).
Definition set_buffer (c : Z) (b : list (option skynet_message))
    (q : message_queue) : message_queue :=
  MQ (mq_handle q) c (mq_head q) (mq_tail q) (mq_release q) (mq_in_global q)
     (mq_overload q) (mq_overload_threshold q) b (mq_next q).
Definition set_release (r : Z) (q : message_queue) : message_queue :=
  MQ (mq_handle q) (mq_cap q) (mq_head q) (mq_tail q) r (mq_in_global q)
     (mq_overload q) (mq_overload_threshold q) (mq_queue q) (mq_next q).
Definition set_next (n : option loc) (q : message_queue) : message_queue :=
  MQ (mq_handle q) (mq_cap q) (mq_head q) (mq_tail q) (mq_release q)
     (mq_in_global q) (mq_overload q) (mq_overload_threshold q) (mq_queue q) n.

(** ** One queue *)
Module Ring.

(** The object [skynet_mq_create] returns. *)
Definition new_queue (handle : Z) : message_queue :=
  MQ handle DEFAULT_QUEUE_SIZE 0 0 0 MQ_IN_GLOBAL 0 MQ_OVERLOAD
     (replicate (Z.to_nat DEFAULT_QUEUE_SIZE) None) None.

Definition skynet_mq_length (q : message_queue) : Z :=
  if mq_head q <=? mq_tail q then mq_tail q - mq_head q
  else mq_tail q + mq_cap q - mq_head q.

Definition skynet_mq_overload (q : message_queue) : Z * message_queue :=
  if mq_overload q =? 0 then (0, q)
  else (mq_overload q, set_overload 0 (mq_overload_threshold q) q).

(** [while (length > q->overload_threshold) ...] *)
Fixpoint overload_loop (fuel : nat) (length : Z) (q : message_queue)
    : outcome message_queue :=
  match fuel with
  | O => Fault OutOfFuel
  | S fuel =>
      if mq_overload_threshold q <? length then
        th ← c_int (mq_overload_threshold q * 2);
        overload_loop fuel length (set_overload length th q)
      else Ok q
  end.

(** The threshold is at least 1 and doubles: 32 rounds exceed any [int]. *)
Definition overload_fuel : nat := 33.

(** [None] is the return value 1, [Some m] the value 0 with [*message = m]. *)
Definition skynet_mq_pop (q : message_queue)
    : outcome (option skynet_message * message_queue) :=
  if negb (mq_head q =? mq_tail q) then
    cell ← arr_get (mq_queue q) (mq_head q);
    m ← init_read cell;
    let head := mq_head q + 1 in
    let head := if mq_cap q <=? head then 0 else head in
    let length := mq_tail q - head in
    let length := if length <? 0 then length + mq_cap q else length in
    q' ← overload_loop overload_fuel length (set_indices head (mq_tail q) q);
    Ok (Some m, q')
  else
    Ok (None, set_in_global 0 (set_overload (mq_overload q) MQ_OVERLOAD q)).

Definition expand_queue (q : message_queue) : outcome message_queue :=
  new_queue ← for_loop (Z.to_nat (mq_cap q)) 0
    (fun i buf =>
       k ← c_int (mq_head q + i);
       cell ← arr_get (mq_queue q) (k mod mq_cap q);
       arr_set buf i cell)
    (replicate (Z.to_nat (mq_cap q * 2)) None);
  cap ← c_int (mq_cap q * 2);
  Ok (set_buffer cap new_queue (set_indices 0 (mq_cap q) q)).

(** The part of [skynet_mq_push] that touches the queue itself; [Global.skynet_mq_push]
    adds the push on the global list. *)
Definition enqueue (q : message_queue) (message : skynet_message)
    : outcome message_queue :=
  buf ← arr_set (mq_queue q) (mq_tail q) (Some message);
  let tail := mq_tail q + 1 in
  let tail := if mq_cap q <=? tail then 0 else tail in
  let q1 := set_indices (mq_head q) tail (set_buffer (mq_cap q) buf q) in
  if mq_head q1 =? mq_tail q1 then expand_queue q1 else Ok q1.

(** *** The queue as a list

    [mq_repr q l]: the ring buffer [q] holds exactly the messages [l], oldest
    first, and its indices and capacity are consistent. *)
Record mq_repr (q : message_queue) (l : list skynet_message) : Prop := {
  repr_cap : exists k, 6 <= k <= 30 /\ mq_cap q = 2^k;
  repr_buf : Z.of_nat (length (mq_queue q)) = mq_cap q;
  repr_head : 0 <= mq_head q < mq_cap q;
  repr_room : Z.of_nat (length l) < mq_cap q;
  repr_tail : mq_tail q = (mq_head q + Z.of_nat (length l)) mod mq_cap q;
  repr_slots : forall i m, l !! i = Some m ->
    mq_queue q !! Z.to_nat ((mq_head q + Z.of_nat i) mod mq_cap q) = Some (Some m);
  repr_threshold : 0 < mq_overload_threshold q
}.

(** *** Arithmetic of the ring *)

Lemma mod_ring h i c :
  0 <= h < c -> 0 <= i <= c ->
  (h + i) mod c = if h + i <? c then h + i else h + i - c.
Proof.
  intros Hh Hi. destruct (Z.ltb_spec (h + i) c).
  - apply Z.mod_small; lia.
  - symmetry. apply (Z.mod_unique _ _ 1); lia.
Qed.

Ltac ring_mod :=
  repeat match goal with
  | |- context [ (?h + ?i) mod ?c ] => rewrite (mod_ring h i c) by lia
  | |- context [ ?a <? ?b ] => destruct (Z.ltb_spec a b)
  | |- context [ ?a <=? ?b ] => destruct (Z.leb_spec a b)
  | |- context [ ?a =? ?b ] => destruct (Z.eqb_spec a b)
  end.

Lemma repr_cap_bounds q l : mq_repr q l -> 64 <= mq_cap q <= 2^30.
Proof.
  intros [(k & Hk & ->) _ _ _ _ _ _]. split.
  - change 64 with (2^6). apply Z.pow_le_mono_r; lia.
  - apply Z.pow_le_mono_r; lia.
Qed.

(** A power of two below 2^30 can be doubled within [int]. *)
Lemma pow2_double k c : 6 <= k <= 30 -> c = 2^k -> c < 2^30 ->
  exists k', 6 <= k' <= 30 /\ c * 2 = 2^k'.
Proof.
  intros Hk -> Hc. exists (k + 1).
  destruct (Z.eq_dec k 30) as [->|]; [lia|].
  split; [lia|]. rewrite Z.pow_add_r by lia. lia.
Qed.

Lemma empty_iff q l : mq_repr q l -> (mq_head q =? mq_tail q) = true <-> l = [].
Proof.
  intros R. pose proof (repr_room _ _ R). pose proof (repr_head _ _ R).
  rewrite (repr_tail _ _ R).
  destruct l as [|m l]; cbn [length]; [|cbn [length] in *]; ring_mod;
    (split; [intros|intros]; (done || lia || auto)).
Qed.

(** *** The overload threshold *)

(** What the loop computes: nothing when the length is within the threshold,
    otherwise the length is recorded and the threshold doubles just past it. *)
Definition overload_spec (len : Z) (q q' : message_queue) : Prop :=
  (len <= mq_overload_threshold q -> q' = q) /\
  (mq_overload_threshold q < len -> exists th,
     q' = set_overload len th q /\ len <= th < 2 * len).

Lemma overload_loop_ok fuel len : forall q,
  0 < mq_overload_threshold q -> len < 2^30 ->
  len <= mq_overload_threshold q * 2 ^ Z.of_nat fuel ->
  exists q', overload_loop (S fuel) len q = Ok q' /\ overload_spec len q q'.
Proof.
  induction fuel as [|fuel IH]; intros q Hth Hlen Hf.
  - cbn. destruct (Z.ltb_spec (mq_overload_threshold q) len); [lia|].
    exists q. split; [done|]. split; [done|lia].
  - remember (S fuel) as f eqn:Ef. cbn [overload_loop].
    destruct (Z.ltb_spec (mq_overload_threshold q) len) as [Hlt|Hge].
    + rewrite c_int_ok by lia. rewrite bind_ret. subst f.
      edestruct (IH (set_overload len (mq_overload_threshold q * 2) q))
        as (q' & -> & Hq'); cbn [mq_overload_threshold set_overload]; [lia|lia| |].
      { rewrite Nat2Z.inj_succ, Z.pow_succ_r in Hf by lia. lia. }
      exists q'. split; [done|]. split; [lia|]. intros _.
      destruct Hq' as [Hle Hgt]; cbn [mq_overload_threshold set_overload] in *.
      destruct (Z.le_gt_cases len (mq_overload_threshold q * 2)).
      * rewrite Hle by done. eexists. split; [done|lia].
      * destruct Hgt as (th & -> & Hth'); [lia|]. exists th. split; [done|lia].
    + exists q. split; [done|]. split; [done|lia].
Qed.

Lemma overload_loop_total len q :
  0 < mq_overload_threshold q -> len < 2^30 ->
  exists q', overload_loop overload_fuel len q = Ok q' /\ overload_spec len q q'.
Proof.
  intros Hth Hlen. apply overload_loop_ok; [done..|].
  change (Z.of_nat 32) with 32. lia.
Qed.

(** The overload bookkeeping does not touch what [mq_repr] speaks about. *)
Lemma mq_repr_overload q q' len l :
  overload_spec len q q' -> 0 < len \/ len <= mq_overload_threshold q ->
  mq_repr q l -> mq_repr q' l.
Proof.
  intros [Hle Hgt] Hlen R.
  destruct (Z.le_gt_cases len (mq_overload_threshold q)) as [H|H].
  - by rewrite Hle.
  - destruct Hgt as (th & -> & Hth); [lia|].
    destruct R as [? ? ? ? ? ? ?]; split; cbn in *; (done || lia).
Qed.

(** *** The operations, on the list the queue represents *)

Lemma new_queue_repr handle : mq_repr (new_queue handle) [].
Proof.
  split; try (done || (cbn; lia)). by exists 6.
Qed.

Lemma length_repr q l :
  mq_repr q l -> skynet_mq_length q = Z.of_nat (length l).
Proof.
  intros R. pose proof (repr_room _ _ R). pose proof (repr_head _ _ R).
  unfold skynet_mq_length. rewrite (repr_tail _ _ R). ring_mod; lia.
Qed.

(** A ring holds one list. *)
Lemma mq_repr_inj q l l' : mq_repr q l -> mq_repr q l' -> l = l'.
Proof.
  intros R R'. assert (length l = length l') as El.
  { apply Nat2Z.inj. by rewrite <- (length_repr q l R), <- (length_repr q l' R'). }
  apply list_eq. intros i. destruct (decide (i < length l)%nat) as [Hi|Hi].
  - destruct (lookup_lt_is_Some_2 l i) as [m Hm]; [done|].
    destruct (lookup_lt_is_Some_2 l' i) as [m' Hm']; [lia|].
    pose proof (repr_slots _ _ R i m Hm). pose proof (repr_slots _ _ R' i m' Hm'). congruence.
  - rewrite !lookup_ge_None_2 by lia. done.
Qed.

Lemma pop_nonempty q m l :
  mq_repr q (m :: l) ->
  exists q1 q', skynet_mq_pop q = Ok (Some m, q') /\ mq_repr q' l /\
    q1 = set_indices (mq_head q') (mq_tail q') q /\
    overload_spec (Z.of_nat (length l)) q1 q'.
Proof.
  intros R. pose proof (repr_room _ _ R) as Hroom. pose proof (repr_head _ _ R) as Hhd.
  pose proof (repr_cap_bounds _ _ R) as Hcap.
  pose proof (repr_slots _ _ R 0%nat m eq_refl) as Hslot.
  rewrite Z.add_0_r, Z.mod_small in Hslot by lia.
  assert ((mq_head q =? mq_tail q) = false) as Hne.
  { apply not_true_is_false. rewrite (empty_iff _ _ R). done. }
  unfold skynet_mq_pop. rewrite Hne. cbn [negb].
  rewrite (arr_get_ok _ _ _ (proj1 Hhd) Hslot), bind_ret. cbn [init_read]. rewrite bind_ret.
  set (hd := if mq_cap q <=? mq_head q + 1 then 0 else mq_head q + 1).
  cbn [length] in Hroom. pose proof (repr_tail _ _ R) as Htl. cbn [length] in Htl.
  assert (Hhd' : hd = (mq_head q + 1) mod mq_cap q) by (subst hd; ring_mod; lia).
  assert (Hhdr : 0 <= hd < mq_cap q) by (rewrite Hhd'; apply Z.mod_pos_bound; lia).
  assert (Htl' : mq_tail q = (hd + Z.of_nat (length l)) mod mq_cap q).
  { rewrite Htl, Hhd', Zplus_mod_idemp_l. f_equal. lia. }
  assert (Hlen : (if mq_tail q - hd <? 0 then mq_tail q - hd + mq_cap q else mq_tail q - hd)
                 = Z.of_nat (length l)).
  { rewrite Htl'. ring_mod; lia. }
  rewrite Hlen.
  set (q1 := set_indices hd (mq_tail q) q).
  assert (R1 : mq_repr q1 l).
  { destruct R; split; cbn; try (done || lia).
    intros i x Hi. rewrite Hhd', Zplus_mod_idemp_l.
    specialize (repr_slots0 (S i) x Hi).
    by replace (mq_head q + 1 + Z.of_nat i) with (mq_head q + Z.of_nat (S i)) by lia. }
  destruct (overload_loop_total (Z.of_nat (length l)) q1) as (q' & -> & Ho).
  { apply R1. } { lia. }
  exists (set_indices (mq_head q') (mq_tail q') q), q'. rewrite bind_ret.
  assert (set_indices (mq_head q') (mq_tail q') q = q1) as Eq1.
  { destruct Ho as [Hle Hgt]. destruct (Z.le_gt_cases (Z.of_nat (length l)) (mq_overload_threshold q1)).
    - by rewrite Hle.
    - destruct Hgt as (th & -> & _); [lia|]. done. }
  split_and!; [done| |done|by rewrite Eq1].
  eapply mq_repr_overload; [done| |done].
  pose proof (repr_threshold _ _ R1). lia.
Qed.

Lemma pop_empty q :
  mq_repr q [] ->
  let q' := set_in_global 0 (set_overload (mq_overload q) MQ_OVERLOAD q) in
  skynet_mq_pop q = Ok (None, q') /\ mq_repr q' [].
Proof.
  intros R. unfold skynet_mq_pop. rewrite (proj2 (empty_iff _ _ R) eq_refl). cbn [negb].
  split; [done|]. destruct R; split; cbn in *; (done || lia).
Qed.

(** The copy loop of [expand_queue] moves cell [(head+i) % cap] to cell [i]. *)
Lemma expand_queue_ok q :
  0 < mq_cap q -> mq_cap q * 2 <= 2^30 ->
  Z.of_nat (length (mq_queue q)) = mq_cap q -> 0 <= mq_head q < mq_cap q ->
  exists buf, expand_queue q
      = Ok (set_buffer (mq_cap q * 2) buf (set_indices 0 (mq_cap q) q)) /\
    Z.of_nat (length buf) = mq_cap q * 2 /\
    forall i, 0 <= i < mq_cap q ->
      buf !! Z.to_nat i = mq_queue q !! Z.to_nat ((mq_head q + i) mod mq_cap q).
Proof.
  intros Hc Hc2 Hlen Hhd. unfold expand_queue.
  edestruct (for_loop_inv (fun i (buf : list (option skynet_message)) =>
      Z.of_nat (length buf) = mq_cap q * 2 /\
      forall j, 0 <= j < i ->
        buf !! Z.to_nat j = mq_queue q !! Z.to_nat ((mq_head q + j) mod mq_cap q)))
    as (buf & -> & Hbl & Hbuf).
  - split; [rewrite length_replicate; lia|]. intros j Hj; lia.
  - intros j buf Hj [Hbl Hbuf]. rewrite c_int_ok by lia. rewrite bind_ret.
    assert (0 <= (mq_head q + j) mod mq_cap q < mq_cap q) as Hr
      by (apply Z.mod_pos_bound; lia).
    destruct (lookup_lt_is_Some_2 (mq_queue q) (Z.to_nat ((mq_head q + j) mod mq_cap q)))
      as [c Hcell]; [lia|].
    rewrite (arr_get_ok _ _ _ (proj1 Hr) Hcell), bind_ret, arr_set_ok by lia.
    eexists. split; [done|]. split; [by rewrite length_insert|].
    intros i Hi. destruct (Z.eq_dec i j) as [->|].
    + rewrite Hcell. apply list_lookup_insert_eq. lia.
    + rewrite list_lookup_insert_ne by lia. apply Hbuf. lia.
  - rewrite bind_ret, c_int_ok by lia. exists buf. split; [done|].
    split; [done|]. intros i Hi. apply Hbuf. lia.
Qed.

Lemma enqueue_repr q l m :
  mq_repr q l -> Z.of_nat (length l) + 1 < 2^30 ->
  exists q', enqueue q m = Ok q' /\ mq_repr q' (l ++ [m]) /\
    mq_in_global q' = mq_in_global q /\ mq_next q' = mq_next q /\
    mq_release q' = mq_release q /\ mq_handle q' = mq_handle q.
Proof.
  intros R Hbig. pose proof (repr_room _ _ R) as Hroom. pose proof (repr_head _ _ R) as Hhd.
  pose proof (repr_cap_bounds _ _ R) as Hcap. pose proof (repr_buf _ _ R) as Hbuf.
  pose proof (repr_tail _ _ R) as Htl.
  assert (Htr : 0 <= mq_tail q < mq_cap q) by (rewrite Htl; apply Z.mod_pos_bound; lia).
  unfold enqueue. rewrite arr_set_ok by lia. rewrite bind_ret.
  set (tl := if mq_cap q <=? mq_tail q + 1 then 0 else mq_tail q + 1).
  assert (Htl1 : tl = (mq_head q + (Z.of_nat (length l) + 1)) mod mq_cap q).
  { rewrite Z.add_assoc, <- Zplus_mod_idemp_l, <- Htl. subst tl. ring_mod; lia. }
  set (buf := <[Z.to_nat (mq_tail q) := Some m]> (mq_queue q)).
  assert (Hslots : forall i x, (l ++ [m]) !! i = Some x ->
    buf !! Z.to_nat ((mq_head q + Z.of_nat i) mod mq_cap q) = Some (Some x)).
  { intros i x Hi. subst buf. pose proof (lookup_lt_Some _ _ _ Hi) as Hlt.
    rewrite length_app in Hlt; cbn in Hlt.
    destruct (decide (i = length l)) as [->|Hne].
    - rewrite <- Htl, list_lookup_insert_eq by lia.
      rewrite lookup_app_r, Nat.sub_diag in Hi by lia. by inversion Hi.
    - rewrite lookup_app_l in Hi by lia.
      rewrite list_lookup_insert_ne; [by apply (repr_slots _ _ R)|].
      rewrite Htl. ring_mod; lia. }
  cbn [mq_head mq_tail set_indices set_buffer].
  destruct (Z.eqb_spec (mq_head q) tl) as [Hfull|Hfree].
  - (* the ring is full: it doubles *)
    assert (Hlen : Z.of_nat (length l) + 1 = mq_cap q).
    { revert Hfull. rewrite Htl1. ring_mod; lia. }
    destruct (repr_cap _ _ R) as (k & Hk & Ek).
    destruct (pow2_double k (mq_cap q)) as (k' & Hk' & Ek'); [done|done|lia|].
    assert (mq_cap q * 2 <= 2^30) by (rewrite Ek'; apply Z.pow_le_mono_r; lia).
    set (q1 := set_indices (mq_head q) tl (set_buffer (mq_cap q) buf q)).
    destruct (expand_queue_ok q1) as (buf' & -> & Hbl & Hcp); cbn; try (done || lia).
    { subst buf. rewrite length_insert. lia. }
    eexists. split; [done|]. split; [|done].
    split; cbn -[Z.mul]; try (done || lia || apply R).
    + eauto.
    + rewrite length_app; cbn. lia.
    + rewrite length_app; cbn. rewrite Z.mod_small; lia.
    + intros i x Hi. pose proof (lookup_lt_Some _ _ _ Hi) as Hlt.
      rewrite length_app in Hlt; cbn in Hlt.
      rewrite Z.add_0_l, Z.mod_small, Hcp by (cbn; lia). by apply Hslots.
  - eexists. split; [done|]. split; [|done].
    split; cbn; try (done || lia || apply R).
    + subst buf. by rewrite length_insert.
    + rewrite length_app; cbn. revert Hfree. rewrite Htl1. ring_mod; lia.
    + rewrite length_app; cbn. rewrite Htl1. f_equal. lia.
Qed.

End Ring.

(** ** The heap of queues and the global list *)

Record mqstate := MS { mqs : gmap loc message_queue; Q : global_queue }.

(** What another component must provide for [skynet_mq_release] to run its
    callback in that component's state: a queue heap inside a larger world. *)
Class MqWorld (X : Type) := {
  get_mqs : X -> mqstate;
  put_mqs : mqstate -> X -> X;
  get_put_mqs : forall s x, get_mqs (put_mqs s x) = s
}.

#[global] Instance mqstate_world : MqWorld mqstate :=
  {| get_mqs := fun s => s; put_mqs := fun s _ => s; get_put_mqs := fun _ _ => eq_refl |}.

Module Global.
Import Ring.

Definition skynet_mq_init : mqstate := MS ∅ (GQ None None).

Definition skynet_globalmq_push (queue : loc) (s : mqstate) : outcome mqstate :=
  mq ← deref (mqs s !! queue);
  _ ← c_assert (bool_decide (mq_next mq = None));
  match gq_tail (Q s) with
  | Some t =>
      tq ← deref (mqs s !! t);
      Ok (MS (<[t := set_next (Some queue) tq]> (mqs s))
             (GQ (gq_head (Q s)) (Some queue)))
  | None => Ok (MS (mqs s) (GQ (Some queue) (Some queue)))
  end.

Definition skynet_globalmq_pop (s : mqstate) : outcome (option loc * mqstate) :=
  match gq_head (Q s) with
  | None => Ok (None, s)
  | Some p =>
      mq ← deref (mqs s !! p);
      gq ← match mq_next mq with
           | None =>
               _ ← c_assert (bool_decide (gq_tail (Q s) = Some p));
               Ok (GQ None None)
           | Some n => Ok (GQ (Some n) (gq_tail (Q s)))
           end;
      Ok (Some p, MS (<[p := set_next None mq]> (mqs s)) gq)
  end.

(** [skynet_malloc] returns an address that is not in use. *)
Definition skynet_mq_create (handle : Z) (s : mqstate) : loc * mqstate :=
  let p := fresh (dom (mqs s)) in
  (p, MS (<[p := new_queue handle]> (mqs s)) (Q s)).

Definition skynet_mq_push (q : loc) (message : skynet_message) (s : mqstate)
    : outcome mqstate :=
  mq ← deref (mqs s !! q);
  mq' ← enqueue mq message;
  if mq_in_global mq' =? 0 then
    skynet_globalmq_push q (MS (<[q := set_in_global MQ_IN_GLOBAL mq']> (mqs s)) (Q s))
  else Ok (MS (<[q := mq']> (mqs s)) (Q s)).

Definition mq_pop (q : loc) (s : mqstate) : outcome (option skynet_message * mqstate) :=
  mq ← deref (mqs s !! q);
  '(r, mq') ← skynet_mq_pop mq;
  Ok (r, MS (<[q := mq']> (mqs s)) (Q s)).

Definition skynet_mq_mark_release (q : loc) (s : mqstate) : outcome mqstate :=
  mq ← deref (mqs s !! q);
  _ ← c_assert (mq_release mq =? 0);
  let mq' := set_release 1 mq in
  let s' := MS (<[q := mq']> (mqs s)) (Q s) in
  if negb (mq_in_global mq' =? MQ_IN_GLOBAL) then skynet_globalmq_push q s' else Ok s'.

Definition _release (q : loc) (s : mqstate) : outcome mqstate :=
  mq ← deref (mqs s !! q);
  _ ← c_assert (bool_decide (mq_next mq = None));
  Ok (MS (delete q (mqs s)) (Q s)).

Section Release.
  Context {X : Type} `{MqWorld X}.
  Variable drop_func : skynet_message -> X -> outcome X.

Fixpoint _drop_queue (fuel : nat) (q : loc) (x : X) : outcome X :=
    match fuel with
    | O => Fault OutOfFuel
    | S fuel =>
        '(r, s) ← mq_pop q (get_mqs x);
        let x := put_mqs s x in
        match r with
        | Some msg => x ← drop_func msg x; _drop_queue fuel q x
        | None => s ← _release q (get_mqs x); Ok (put_mqs s x)
        end
    end.

Definition skynet_mq_release (fuel : nat) (q : loc) (x : X) : outcome X :=
    mq ← deref (mqs (get_mqs x) !! q);
    if negb (mq_release mq =? 0) then _drop_queue fuel q x
    else s ← skynet_globalmq_push q (get_mqs x); Ok (put_mqs s x).
End Release.

(** *** The linked list as a list of addresses *)

Fixpoint chain (m : gmap loc message_queue) (start : option loc) (l : list loc) : Prop :=
  match l with
  | [] => start = None
  | p :: l => start = Some p /\ exists mq, m !! p = Some mq /\ chain m (mq_next mq) l
  end.

(** [gq_repr s l]: following [head] and the [next] pointers visits exactly [l],
    [tail] is its last element, and a queue outside [l] has a null [next]. *)
Record gq_repr (s : mqstate) (l : list loc) : Prop := {
  gq_chain : chain (mqs s) (gq_head (Q s)) l;
  gq_last : gq_tail (Q s) = last l;
  gq_nodup : NoDup l;
  gq_out : forall p mq, mqs s !! p = Some mq -> p ∉ l -> mq_next mq = None
}.

Lemma chain_insert_out m start l p mq :
  p ∉ l -> chain (<[p := mq]> m) start l <-> chain m start l.
Proof.
  revert start. induction l as [|x l IH]; intros start Hp; [done|].
  apply not_elem_of_cons in Hp as [Hne Hp]. cbn.
  rewrite lookup_insert_ne by done. setoid_rewrite IH; done.
Qed.

Lemma chain_insert_same m start l p mq mq' :
  m !! p = Some mq -> mq_next mq' = mq_next mq ->
  chain m start l -> chain (<[p := mq']> m) start l.
Proof.
  intros Hp Hn. revert start. induction l as [|x l IH]; intros start; [done|].
  intros (-> & y & Hy & Hc). split; [done|]. destruct (decide (p = x)) as [->|].
  - exists mq'. rewrite lookup_insert_eq. split; [done|]. rewrite Hn.
    simplify_eq. auto.
  - exists y. rewrite lookup_insert_ne by done. auto.
Qed.

Lemma chain_live m start l p : chain m start l -> p ∈ l -> is_Some (m !! p).
Proof.
  revert start. induction l as [|x l IH]; intros start; [by intros _ ?%elem_of_nil|].
  intros (_ & y & Hy & Hc) [->|Hp]%elem_of_cons; eauto.
Qed.

(** Linking [q] behind the last element extends the chain by [q]. *)
Lemma chain_snoc m start l t tq q mq :
  chain m start l -> NoDup l -> last l = Some t -> m !! t = Some tq ->
  m !! q = Some mq -> mq_next mq = None -> q ∉ l ->
  chain (<[t := set_next (Some q) tq]> m) start (l ++ [q]).
Proof.
  intros Hc Hnd Hl Ht Hq Hqn Hni. revert start Hc.
  induction l as [|x l IH]; intros start; [done|].
  intros (-> & y & Hy & Hc). apply NoDup_cons in Hnd as [Hx Hnd].
  apply not_elem_of_cons in Hni as [Hqx Hni]. split; [done|].
  destruct l as [|x' l].
  - cbn in Hl. simplify_eq. exists (set_next (Some q) tq).
    rewrite lookup_insert_eq. split; [done|]. cbn. split; [done|].
    exists mq. rewrite lookup_insert_ne by done. done.
  - cbn in Hl. assert (t ∈ x' :: l) as Htl by (apply last_Some_elem_of; done).
    exists y. rewrite lookup_insert_ne by set_solver. split; [done|].
    apply IH; done.
Qed.

Lemma skynet_mq_init_repr : gq_repr skynet_mq_init [].
Proof. split; cbn; [done|done|constructor|by intros p mq ?%lookup_empty_Some]. Qed.

Lemma globalmq_push_repr s l q mq :
  gq_repr s l -> mqs s !! q = Some mq -> q ∉ l ->
  exists s', skynet_globalmq_push q s = Ok s' /\ gq_repr s' (l ++ [q]) /\
    forall p, exists n, mqs s' !! p = set_next n <$> mqs s !! p.
Proof.
  intros [Hc Hl Hnd Ho] Hq Hni. pose proof (Ho _ _ Hq Hni) as Hn.
  assert (Hid : forall p, exists n, mqs s !! p = set_next n <$> mqs s !! p).
  { intros p. destruct (mqs s !! p) as [y|]; [exists (mq_next y); by destruct y|by exists None]. }
  unfold skynet_globalmq_push. rewrite Hq. cbn [deref]. rewrite bind_ret.
  rewrite bool_decide_true by done. cbn [c_assert]. rewrite bind_ret.
  destruct l as [|x l] using rev_ind; [|clear IHl].
  - rewrite Hl. eexists. split; [done|]. split; [|done]. split; cbn; [eauto|done| |].
    + by apply NoDup_singleton.
    + intros p y Hy _. apply (Ho p y Hy), not_elem_of_nil.
  - rewrite last_snoc in Hl. rewrite Hl.
    destruct (chain_live _ _ _ x Hc) as [tq Ht]; [set_solver|].
    rewrite Ht. cbn [deref]. rewrite bind_ret. eexists. split; [done|].
    split; [|intros p; cbn; destruct (decide (x = p)) as [->|];
             [exists (Some q); by rewrite lookup_insert_eq, Ht|by rewrite lookup_insert_ne]].
    split; cbn.
    + eapply chain_snoc; eauto. apply last_snoc.
    + by rewrite last_snoc.
    + apply NoDup_app. split; [done|]. split; [set_solver|apply NoDup_singleton].
    + intros p y. destruct (decide (p = x)) as [->|]; [set_solver|].
      rewrite lookup_insert_ne by done. intros Hy Hp. apply (Ho p y Hy). set_solver.
Qed.

Lemma globalmq_pop_repr s l :
  gq_repr s l ->
  match l with
  | [] => skynet_globalmq_pop s = Ok (None, s)
  | p :: l' => exists s', skynet_globalmq_pop s = Ok (Some p, s') /\ gq_repr s' l' /\
      forall x, exists n, mqs s' !! x = set_next n <$> mqs s !! x
  end.
Proof.
  intros [Hc Hl Hnd Ho]. unfold skynet_globalmq_pop. destruct l as [|p l].
  { by rewrite Hc. }
  destruct Hc as (-> & mq & Hp & Hc). rewrite Hp. cbn [deref]. rewrite bind_ret.
  apply NoDup_cons in Hnd as [Hx Hnd].
  assert (Hid : forall x, exists n,
    <[p:=set_next None mq]> (mqs s) !! x = set_next n <$> mqs s !! x).
  { intros x. destruct (decide (p = x)) as [->|].
    - exists None. by rewrite lookup_insert_eq, Hp.
    - rewrite lookup_insert_ne by done. destruct (mqs s !! x) as [y|];
        [exists (mq_next y); by destruct y|by exists None]. }
  assert (Hout : forall x y, <[p:=set_next None mq]> (mqs s) !! x = Some y -> x ∉ l ->
    mq_next y = None).
  { intros x y. destruct (decide (p = x)) as [->|].
    - rewrite lookup_insert_eq. by intros [= <-] _.
    - rewrite lookup_insert_ne by done. intros Hy Hni. apply (Ho x y Hy). set_solver. }
  destruct l as [|p' l].
  - cbn in Hc, Hl. rewrite Hc, Hl, bool_decide_true by done. cbn.
    eexists. split; [done|]. split; [|done]. by split.
  - destruct Hc as (En & mq' & Hp' & Hc). rewrite En. cbn.
    eexists. split; [done|]. split; [|done]. split; [|done|done|done].
    cbn. rewrite lookup_insert_ne by set_solver.
    split; [done|]. exists mq'. split; [done|]. apply chain_insert_out; set_solver.
Qed.

(** Updating a queue in place, its [next] aside, keeps the list. *)
Lemma gq_repr_update s l p mq mq' :
  gq_repr s l -> mqs s !! p = Some mq -> mq_next mq' = mq_next mq ->
  gq_repr (MS (<[p := mq']> (mqs s)) (Q s)) l.
Proof.
  intros [Hc Hl Hnd Ho] Hp Hn. split; [by eapply chain_insert_same|done|done|].
  intros x y. cbn. destruct (decide (p = x)) as [->|].
  - rewrite lookup_insert_eq. intros [= <-] Hni. rewrite Hn. eauto.
  - rewrite lookup_insert_ne by done. eauto.
Qed.

Lemma mq_repr_next q l n : mq_repr q l -> mq_repr (set_next n q) l.
Proof. by intros []. Qed.

Lemma next_same (o : option message_queue) : exists nx, o = set_next nx <$> o.
Proof. destruct o as [y|]; [exists (mq_next y); by destruct y|by exists None]. Qed.

(** Linking a queue changes nothing but [next] pointers. *)
Lemma globalmq_push_next q s s' :
  skynet_globalmq_push q s = Ok s' ->
  forall p, exists nx, mqs s' !! p = set_next nx <$> mqs s !! p.
Proof.
  unfold skynet_globalmq_push. intros E p. inv_ok. destruct (gq_tail (Q s)) as [t|]; inv_ok; cbn.
  - destruct (decide (t = p)) as [->|].
    + rewrite lookup_insert_eq. match goal with Ht : mqs s !! p = Some _ |- _ => rewrite Ht end.
      by eexists.
    + rewrite lookup_insert_ne by done. apply next_same.
  - apply next_same.
Qed.

Lemma pop_preserves q r q' :
  skynet_mq_pop q = Ok (r, q') ->
  mq_next q' = mq_next q /\ mq_release q' = mq_release q /\ mq_handle q' = mq_handle q /\
  (is_Some r -> mq_in_global q' = mq_in_global q).
Proof.
  assert (Hov : forall fuel len q q', overload_loop fuel len q = Ok q' ->
    mq_next q' = mq_next q /\ mq_release q' = mq_release q /\ mq_handle q' = mq_handle q /\
    mq_in_global q' = mq_in_global q).
  { induction fuel as [|fuel IH]; intros len x x'; cbn; [done|].
    destruct (_ <? _); [|by intros [= <-]]. intros H. inv_ok.
    apply IH in H. by destruct H as (-> & -> & -> & ->). }
  unfold skynet_mq_pop. destruct (negb _); intros H; inv_ok; [|cbn; naive_solver].
  match goal with H : overload_loop _ _ _ = _ |- _ => apply Hov in H end. naive_solver.
Qed.

End Global.

(** ** The ring buffer implements a FIFO queue *)
Module Fifo.
Import Ring.

(** A call: [Some m] pushes [m], [None] pops. *)
Definition call : Type := option skynet_message.

(** The results of the pops, and the queue at the end. *)
Fixpoint ring_run (q : message_queue) (calls : list call)
    : outcome (list (option skynet_message) * message_queue) :=
  match calls with
  | [] => Ok ([], q)
  | Some m :: calls => q' ← enqueue q m; ring_run q' calls
  | None :: calls =>
      '(r, q') ← skynet_mq_pop q;
      '(rs, q'') ← ring_run q' calls;
      Ok (r :: rs, q'')
  end.

(** The specification: a list, pushed at its end and popped at its head. *)
Fixpoint fifo_run (l : list skynet_message) (calls : list call)
    : list (option skynet_message) * list skynet_message :=
  match calls with
  | [] => ([], l)
  | Some m :: calls => fifo_run (l ++ [m]) calls
  | None :: calls =>
      let '(rs, l') := fifo_run (tail l) calls in (head l :: rs, l')
  end.

Lemma ring_run_simulates calls : forall q l,
  mq_repr q l -> Z.of_nat (length l + length calls) < 2^30 ->
  exists q', ring_run q calls = Ok ((fifo_run l calls).1, q') /\
    mq_repr q' (fifo_run l calls).2.
Proof.
  induction calls as [|[m|] calls IH]; intros q l R Hlen; cbn [ring_run fifo_run].
  - by exists q.
  - cbn [length] in Hlen.
    destruct (enqueue_repr q l m R) as (q1 & -> & R1 & _); [lia|]. rewrite bind_ret.
    apply IH; [done|]. rewrite length_app; cbn. lia.
  - cbn [length] in Hlen.
    assert (exists q1, skynet_mq_pop q = Ok (head l, q1) /\ mq_repr q1 (tail l))
      as (q1 & -> & R1).
    { destruct l as [|m l].
      - destruct (pop_empty q R). eauto.
      - destruct (pop_nonempty q m l R) as (_ & q1 & ? & ? & _). eauto. }
    rewrite bind_ret. destruct (IH q1 (tail l) R1) as (q2 & -> & R2).
    { destruct l; cbn in *; lia. }
    rewrite bind_ret. destruct (fifo_run (tail l) calls) as [rs l'] eqn:E.
    by exists q2.
Qed.

(** C3.  The ring buffer refines a FIFO list: any sequence of pushes and pops on
    a fresh queue runs without a fault, however often the buffer wraps and
    doubles, gives the results the list gives, and [skynet_mq_length] is the
    number of messages left. *)
Theorem ring_refines_fifo handle calls :
  Z.of_nat (length calls) < 2^30 ->
  let '(results, rest) := fifo_run [] calls in
  exists q, ring_run (new_queue handle) calls = Ok (results, q) /\
    mq_repr q rest /\ skynet_mq_length q = Z.of_nat (length rest).
Proof.
  intros Hlen.
  destruct (ring_run_simulates calls (new_queue handle) [] (new_queue_repr handle) Hlen)
    as (q & E & R).
  destruct (fifo_run [] calls) as [rs l]. exists q.
  split; [done|]. split; [done|]. by apply length_repr.
Qed.

(** A buffer that wraps around and doubles twice. *)
Definition busy_calls : list call :=
  let m i := Msg 1 i None 0 in
  (Some ∘ m <$> seqZ 0 60) ++ replicate 50 None ++ (Some ∘ m <$> seqZ 60 200) ++ replicate 215 None.

Lemma ring_refines_fifo_witness :
  Z.of_nat (length busy_calls) < 2^30 /\
  let '(results, rest) := fifo_run [] busy_calls in
  exists q, ring_run (new_queue 1) busy_calls = Ok (results, q) /\
    mq_repr q rest /\ skynet_mq_length q = Z.of_nat (length rest).
Proof. split; [by vm_compute|]. apply (ring_refines_fifo 1 busy_calls). by vm_compute. Defined.

(** Overload reporting: after a pop that leaves [n] messages the threshold
    is at least [n]; if it was exceeded, [n] is the overload the next
    [skynet_mq_overload] reports (once), and an empty pop resets the threshold. *)
Theorem pop_overload q m l :
  mq_repr q (m :: l) ->
  let n := Z.of_nat (length l) in
  exists q', skynet_mq_pop q = Ok (Some m, q') /\
    n <= mq_overload_threshold q' /\
    (mq_overload_threshold q < n ->
       (skynet_mq_overload q').1 = n /\ mq_overload_threshold q' < 2 * n /\
       (skynet_mq_overload (skynet_mq_overload q').2).1 = 0) /\
    (n <= mq_overload_threshold q -> mq_overload q' = mq_overload q).
Proof.
  intros R n. destruct (pop_nonempty q m l R) as (q1 & q' & Hp & _ & Eq1 & [Hle Hgt]).
  exists q'. split; [done|].
  assert (Et : mq_overload_threshold q1 = mq_overload_threshold q) by by rewrite Eq1.
  destruct (Z.le_gt_cases n (mq_overload_threshold q)) as [H|H].
  - rewrite Hle in * by lia. split; [lia|]. split; [lia|]. by rewrite Eq1.
  - destruct Hgt as (th & -> & Hth); [lia|]. cbn. split; [lia|]. split; [|lia].
    pose proof (repr_threshold _ _ R). intros _. unfold skynet_mq_overload; cbn.
    fold n. destruct (Z.eqb_spec n 0); [lia|]. cbn. split; [done|]. split; [lia|done].
Qed.

(** 1100 pushes on a fresh queue: one over the threshold of 1024 after the pop. *)
Definition crowded_queue : message_queue :=
  match ring_run (new_queue 1) ((fun i => Some (Msg 1 i None 0)) <$> seqZ 0 1100) with
  | Ok (_, q) => q
  | Fault _ => new_queue 1
  end.
Definition crowd : list skynet_message := (fun i => Msg 1 i None 0) <$> seqZ 0 1100.

Lemma crowded_repr : mq_repr crowded_queue crowd.
Proof.
  destruct (ring_run_simulates ((fun i => Some (Msg 1 i None 0)) <$> seqZ 0 1100)
    (new_queue 1) [] (new_queue_repr 1)) as (q & E & R); [by vm_compute|].
  unfold crowded_queue. rewrite E.
  replace crowd with (fifo_run [] ((fun i => Some (Msg 1 i None 0)) <$> seqZ 0 1100)).2;
    [done|]. by vm_compute.
Qed.

Lemma pop_overload_witness : exists q',
  skynet_mq_pop crowded_queue = Ok (Some (Msg 1 0 None 0), q') /\
  (skynet_mq_overload q').1 = 1099.
Proof.
  destruct (pop_overload crowded_queue (Msg 1 0 None 0) (tail crowd)) as (q' & Hp & _ & H & _).
  - apply crowded_repr.
  - exists q'. split; [exact Hp|]. apply H. by vm_compute.
Defined.
End Fifo.
