(* ===== verification/Sched.v ===== *)
(** * The scheduling protocol of the queues

    Worker threads, timers, sockets and services call the operations of
    [skynet_mq.c] in any order.  What they may call when is fixed by
    [skynet_server.c]: a queue is pushed to only while its context is alive, is
    popped from only by the worker that took it off the global list, and so on.
    This file states those rules as a transition system over the operations of
    [Mq.v] and proves what the [in_global] flag is for: a queue is never linked
    twice, no assertion of the module fails, and a queue with messages in it is
    always either on the global list or in the hands of a worker. *)

From S2P Require Import Prelude Mq.
From stdpp Require Import base numbers list gmap.
From Stdlib Require Import ZArith Lia.
#[local] Open Scope Z_scope.
Import Ring Global.

(** ** Releasing a queue reports every message left in it *)
Section DropQueue.
  Context {X : Type} `{MqWorld X}.
  Variable drop_func : skynet_message -> X -> outcome X.
  (** [R dn x]: in world [x], [dn] is what was handed to the callback so far. *)
  Variable R : list skynet_message -> X -> Prop.
  Hypothesis drop_ok : forall m x dn, R dn x ->
    exists x', drop_func m x = Ok x' /\ get_mqs x' = get_mqs x /\ R (dn ++ [m]) x'.
  Hypothesis put_ok : forall s x dn, R dn x -> R dn (put_mqs s x).

Lemma drop_queue_ok q items : forall x mq dn fuel,
    mqs (get_mqs x) !! q = Some mq -> mq_repr mq items -> mq_next mq = None ->
    R dn x -> (length items < fuel)%nat ->
    exists x', _drop_queue drop_func fuel q x = Ok x' /\ R (dn ++ items) x' /\
      get_mqs x' = MS (delete q (mqs (get_mqs x))) (Q (get_mqs x)).
  Proof.
    induction items as [|m items IH]; intros x mq dn fuel Hq Hr Hn HR Hf;
      (destruct fuel as [|fuel]; [lia|]); cbn [_drop_queue]; unfold mq_pop;
      rewrite Hq; cbn [deref]; rewrite bind_ret.
    - destruct (pop_empty _ Hr) as [-> _]. cbn -[set_in_global set_overload].
      rewrite !get_put_mqs. unfold _release. cbn [mqs]. rewrite lookup_insert_eq.
      cbn [deref]. rewrite bind_ret. cbn [mq_next set_in_global set_overload].
      rewrite Hn, bool_decide_true by done. cbn.
      eexists. split; [done|]. rewrite get_put_mqs, delete_insert_eq, app_nil_r. auto.
    - destruct (pop_nonempty _ _ _ Hr) as (_ & mq' & Hp & Hr' & _).
      pose proof (pop_preserves _ _ _ Hp) as (Hn' & _). rewrite Hp. cbn.
      set (s1 := MS _ _).
      destruct (drop_ok m (put_mqs s1 x) dn) as (x1 & -> & Hg & HR1); [auto|]. cbn.
      rewrite get_put_mqs in Hg.
      destruct (IH x1 mq' (dn ++ [m]) fuel) as (x2 & -> & HR2 & Hg2);
        [by rewrite Hg; cbn; rewrite lookup_insert_eq|done|congruence|done|cbn in Hf; lia|].
      exists x2. split; [done|]. rewrite <- app_assoc in HR2. split; [done|].
      rewrite Hg2, Hg. cbn. by rewrite delete_insert_eq.
  Qed.
End DropQueue.

(** ** The transition system *)

Record sched := Sched { sc_mq : mqstate; sc_owned : gset loc }.

Inductive op :=
  | Create (handle : Z)                  (** [skynet_context_new]: [skynet_mq_create] *)
  | Push (q : loc) (m : skynet_message)  (** [skynet_context_push] *)
  | Take                                 (** a worker: [skynet_globalmq_pop] *)
  | Dispatch (q : loc)                   (** a worker: [skynet_mq_pop] on the queue it holds *)
  | Requeue (q : loc)                    (** a worker, [skynet_context_new]: [skynet_globalmq_push] *)
  | MarkRelease (q : loc)                (** [delete_context] *)
  | Reap (q : loc).                      (** a worker whose [skynet_handle_grab] failed *)

Definition discard (m : skynet_message) (s : mqstate) : outcome mqstate := Ok s.

Definition exec (o : op) (st : sched) : outcome sched :=
  let s := sc_mq st in let O := sc_owned st in
  match o with
  | Create h => let '(p, s') := skynet_mq_create h s in Ok (Sched s' ({[p]} ∪ O))
  | Push q m => s' ← skynet_mq_push q m s; Ok (Sched s' O)
  | Take =>
      '(r, s') ← skynet_globalmq_pop s;
      Ok (Sched s' (match r with Some p => {[p]} ∪ O | None => O end))
  | Dispatch q =>
      '(r, s') ← mq_pop q s;
      Ok (Sched s' (match r with Some _ => O | None => O ∖ {[q]} end))
  | Requeue q => s' ← skynet_globalmq_push q s; Ok (Sched s' (O ∖ {[q]}))
  | MarkRelease q => s' ← skynet_mq_mark_release q s; Ok (Sched s' O)
  | Reap q =>
      mq ← deref (mqs s !! q);
      s' ← skynet_mq_release discard (S (Z.to_nat (skynet_mq_length mq))) q s;
      Ok (Sched s' (O ∖ {[q]}))
  end.

(** When [skynet_server.c] makes each call: a sender or a dispatching worker holds
    a reference, so the context was not deleted and [release] is still 0. *)
Definition alive (s : mqstate) (q : loc) : bool :=
  match mqs s !! q with Some mq => mq_release mq =? 0 | None => false end.
Definition has_room (s : mqstate) (q : loc) : bool :=
  match mqs s !! q with Some mq => skynet_mq_length mq + 1 <? 2^30 | None => false end.

Definition enabled (o : op) (st : sched) : bool :=
  match o with
  | Create _ | Take => true
  | Push q _ => alive (sc_mq st) q && has_room (sc_mq st) q
  | Dispatch q => bool_decide (q ∈ sc_owned st) && alive (sc_mq st) q
  | Requeue q | Reap q => bool_decide (q ∈ sc_owned st)
  | MarkRelease q => alive (sc_mq st) q
  end.

Inductive reachable : sched -> Prop :=
  | reach_init : reachable (Sched skynet_mq_init ∅)
  | reach_step st o st' :
      reachable st -> enabled o st = true -> exec o st = Ok st' -> reachable st'.

(** ** The invariant *)

(** One queue, given whether it is on the global list or held by a worker. *)
Definition queue_ok (busy : bool) (mq : message_queue) : Prop :=
  exists items, mq_repr mq items /\
    if mq_release mq =? 0
    then (mq_in_global mq = 1 /\ busy = true) \/
         (mq_in_global mq = 0 /\ busy = false /\ items = [])
    else busy = true.

Definition busy_in (l : list loc) (O : gset loc) (p : loc) : bool :=
  bool_decide (p ∈ l) || bool_decide (p ∈ O).

Record inv (st : sched) (l : list loc) : Prop := {
  inv_list : gq_repr (sc_mq st) l;
  inv_disj : forall p, p ∈ l -> p ∉ sc_owned st;
  inv_owned : forall p, p ∈ sc_owned st -> is_Some (mqs (sc_mq st) !! p);
  inv_queue : forall p mq, mqs (sc_mq st) !! p = Some mq ->
    queue_ok (busy_in l (sc_owned st) p) mq
}.

Lemma queue_ok_next b mq n : queue_ok b mq -> queue_ok b (set_next n mq).
Proof. intros (items & Hr & H). exists items. split; [by apply mq_repr_next|done]. Qed.

Lemma busy_true l O p : busy_in l O p = true <-> p ∈ l \/ p ∈ O.
Proof. unfold busy_in. rewrite orb_true_iff, !bool_decide_eq_true. done. Qed.
Lemma busy_false l O p : busy_in l O p = false <-> (p ∉ l) /\ (p ∉ O).
Proof. unfold busy_in. rewrite orb_false_iff, !bool_decide_eq_false. done. Qed.
Lemma busy_ext l O l' O' p :
  ((p ∈ l \/ p ∈ O) <-> (p ∈ l' \/ p ∈ O')) -> busy_in l O p = busy_in l' O' p.
Proof. intros H. apply eq_true_iff_eq. by rewrite !busy_true. Qed.

(** Changing only [next] pointers and moving queues between the list and the
    workers keeps the per-queue invariant. *)
Lemma inv_queue_move s s' l O l' O' :
  (forall p, exists n, mqs s' !! p = set_next n <$> mqs s !! p) ->
  (forall p, p ∈ l \/ p ∈ O <-> p ∈ l' \/ p ∈ O') ->
  (forall p mq, mqs s !! p = Some mq -> queue_ok (busy_in l O p) mq) ->
  forall p mq, mqs s' !! p = Some mq -> queue_ok (busy_in l' O' p) mq.
Proof.
  intros Hn Hb H p mq Hp. destruct (Hn p) as [n En]. rewrite Hp in En.
  destruct (mqs s !! p) as [mq0|] eqn:E0; [|done]. injection En as ->.
  apply queue_ok_next. rewrite <- (busy_ext l O l' O' p) by done. eauto.
Qed.

Lemma live_move (s s' : mqstate) p :
  (forall p, exists n, mqs s' !! p = set_next n <$> mqs s !! p) ->
  is_Some (mqs s !! p) -> is_Some (mqs s' !! p).
Proof. intros Hn [x Hx]. destruct (Hn p) as [n ->]. rewrite Hx. by eexists. Qed.

(** ** Every enabled step returns and keeps the invariant *)

(** A global push moves an owned queue to the end of the list. *)
Lemma inv_push_owned s O l p :
  inv (Sched s O) l -> p ∈ O ->
  exists s', skynet_globalmq_push p s = Ok s' /\ inv (Sched s' (O ∖ {[p]})) (l ++ [p]).
Proof.
  intros [Hl Hd Ho Hq] Hp; cbn in *. destruct (Ho p Hp) as [mq Hmq].
  assert (p ∉ l) by (intros ?; by eapply Hd).
  destruct (globalmq_push_repr s l p mq) as (s' & -> & Hl' & Hn); [done..|].
  exists s'. split; [done|]. split; cbn; [done| | |].
  - intros x [Hx|?%list_elem_of_singleton]%elem_of_app; [|set_solver].
    pose proof (Hd x Hx). set_solver.
  - intros x Hx. eapply live_move; [done|]. apply Ho. set_solver.
  - eapply inv_queue_move; [done| |exact Hq]. intros x.
    destruct (decide (x = p)) as [->|]; set_solver.
Qed.

Lemma step_create h st l :
  inv st l -> exists st', exec (Create h) st = Ok st' /\ inv st' l.
Proof.
  destruct st as [s O]. intros [Hl Hd Ho Hq]; cbn in *.
  set (p := fresh (dom (mqs s))).
  assert (Hp : mqs s !! p = None) by (apply not_elem_of_dom, is_fresh).
  assert (Hpl : p ∉ l).
  { intros Hin. destruct (chain_live _ _ _ p (gq_chain _ _ Hl) Hin). congruence. }
  eexists. split; [done|]. split; cbn.
  - destruct Hl as [Hc Hla Hnd Hout]. split; cbn; [by apply chain_insert_out|done|done|].
    intros x mq. destruct (decide (p = x)) as [<-|].
    + rewrite lookup_insert_eq. by intros [= <-].
    + rewrite lookup_insert_ne by done. eauto.
  - set_solver.
  - intros x Hx. destruct (decide (p = x)) as [<-|].
    + rewrite lookup_insert_eq. by eexists.
    + rewrite lookup_insert_ne by done. apply Ho. set_solver.
  - intros x mq. destruct (decide (p = x)) as [<-|].
    + rewrite lookup_insert_eq. intros [= <-]. exists []. split; [apply new_queue_repr|].
      cbn. left. split; [done|]. apply busy_true. set_solver.
    + rewrite lookup_insert_ne by done. intros Hx.
      rewrite <- (busy_ext l O l ({[p]} ∪ O) x) by set_solver. eauto.
Qed.

Lemma step_take st l :
  inv st l -> exists st' l', exec Take st = Ok st' /\ inv st' l'.
Proof.
  destruct st as [s O]. intros [Hl Hd Ho Hq]; cbn in *.
  pose proof (globalmq_pop_repr s l Hl) as H. destruct l as [|p l].
  { rewrite H. cbn. eexists _, []. split; [done|]. by split. }
  destruct H as (s' & -> & Hl' & Hn). cbn. eexists _, l. split; [done|].
  destruct (NoDup_cons p l) as [[Hpl _] _]; [by apply (gq_nodup _ _ Hl)|].
  split; cbn; [done| | |].
  - intros x Hx. assert (x ∉ O) by (apply Hd; set_solver). set_solver.
  - intros x [->%elem_of_singleton|Hx]%elem_of_union; (eapply live_move; [done|]).
    + eapply chain_live; [apply Hl|]. set_solver.
    + eauto.
  - eapply inv_queue_move; [done| |exact Hq]. set_solver.
Qed.

(** Replacing one queue by another with the same [next] pointer. *)
Lemma inv_update s O l p mq mq' O' :
  inv (Sched s O) l -> mqs s !! p = Some mq -> mq_next mq' = mq_next mq ->
  O' ⊆ O -> (forall x, x ≠ p -> x ∈ O -> x ∈ O') ->
  queue_ok (busy_in l O' p) mq' ->
  inv (Sched (MS (<[p := mq']> (mqs s)) (Q s)) O') l.
Proof.
  intros [Hl Hd Ho Hq] Hp Hn HO HO' Hok; cbn in *. split; cbn.
  - by eapply gq_repr_update.
  - set_solver.
  - intros x Hx. destruct (decide (p = x)) as [<-|].
    + rewrite lookup_insert_eq. by eexists.
    + rewrite lookup_insert_ne by done. apply Ho. set_solver.
  - intros x y. destruct (decide (p = x)) as [<-|].
    + rewrite lookup_insert_eq. by intros [= <-].
    + rewrite lookup_insert_ne by done. intros Hx.
      rewrite (busy_ext l O' l O x) by set_solver. eauto.
Qed.

(** Linking a queue that no worker holds: it becomes the last of the list. *)
Lemma inv_push_idle s O l p mq mq' :
  inv (Sched s O) l -> mqs s !! p = Some mq -> p ∉ l -> p ∉ O ->
  mq_next mq' = mq_next mq -> queue_ok true mq' ->
  exists s', skynet_globalmq_push p (MS (<[p := mq']> (mqs s)) (Q s)) = Ok s' /\
    inv (Sched s' O) (l ++ [p]).
Proof.
  intros [Hl Hd Ho Hq] Hp Hpl HpO Hn Hok; cbn in *.
  assert (Hl1 := gq_repr_update _ _ _ _ _ Hl Hp Hn).
  destruct (globalmq_push_repr _ l p mq' Hl1) as (s' & -> & Hl' & Hn');
    [by cbn; rewrite lookup_insert_eq|done|].
  exists s'. split; [done|]. split; cbn; [done| | |].
  - intros x [Hx| ->%list_elem_of_singleton]%elem_of_app; eauto.
  - intros x Hx. eapply live_move; [done|]. cbn.
    rewrite lookup_insert_ne by set_solver. eauto.
  - intros x y Hy. destruct (Hn' x) as [n En]. rewrite Hy in En. cbn in En.
    destruct (decide (p = x)) as [<-|].
    + rewrite lookup_insert_eq in En. injection En as ->. apply queue_ok_next.
      replace (busy_in _ _ _) with true; [done|]. symmetry. apply busy_true. set_solver.
    + rewrite lookup_insert_ne in En by done.
      destruct (mqs s !! x) as [y0|] eqn:E0; [|done]. injection En as ->.
      apply queue_ok_next. rewrite (busy_ext _ _ l O x) by set_solver. eauto.
Qed.

Lemma alive_inv s q : alive s q = true -> exists mq, mqs s !! q = Some mq /\ mq_release mq = 0.
Proof.
  unfold alive. destruct (mqs s !! q) as [mq|]; [|done].
  intros H%Z.eqb_eq. by exists mq.
Qed.

Lemma step_push q m st l :
  inv st l -> enabled (Push q m) st = true ->
  exists st' l', exec (Push q m) st = Ok st' /\ inv st' l'.
Proof.
  destruct st as [s O]. intros I [Ha Hr]%andb_true_iff; cbn in *.
  apply alive_inv in Ha as (mq & Hq & Hrel). unfold has_room in Hr. rewrite Hq in Hr.
  destruct (inv_queue _ _ I q mq Hq) as (items & Hrepr & Hok); cbn in Hok.
  rewrite (length_repr _ _ Hrepr) in Hr. apply Z.ltb_lt in Hr.
  rewrite Hrel in Hok. cbn in Hok.
  destruct (enqueue_repr mq items m Hrepr Hr) as (mq' & Eq & Hrepr' & Hg & Hn & Hrel' & _).
  unfold skynet_mq_push. rewrite Hq. cbn [deref]. rewrite bind_ret, Eq, bind_ret, Hg.
  destruct Hok as [[Hg1 Hb]|(Hg0 & Hb & ->)].
  - rewrite Hg1. cbn. eexists _, l. split; [done|].
    eapply inv_update; [done|done|congruence|done|done|].
    exists (items ++ [m]). split; [done|]. rewrite Hrel', Hrel. cbn. left. by rewrite Hg.
  - rewrite Hg0. cbn. apply busy_false in Hb as [Hbl HbO].
    edestruct (inv_push_idle s O l q mq (set_in_global MQ_IN_GLOBAL mq'))
      as (s' & -> & I'); [done..| | |].
    + cbn. congruence.
    + exists ([] ++ [m]). split; [by destruct Hrepr'|]. cbn. rewrite Hrel', Hrel. cbn. by left.
    + eauto.
Qed.

Lemma step_dispatch q st l :
  inv st l -> enabled (Dispatch q) st = true ->
  exists st' l', exec (Dispatch q) st = Ok st' /\ inv st' l'.
Proof.
  destruct st as [s O]. intros I [HqO Ha]%andb_true_iff; cbn in *.
  apply bool_decide_eq_true in HqO. apply alive_inv in Ha as (mq & Hq & Hrel).
  destruct (inv_queue _ _ I q mq Hq) as (items & Hrepr & Hok); cbn in Hok.
  rewrite Hrel in Hok. cbn in Hok.
  assert (Hb : busy_in l O q = true) by (apply busy_true; by right).
  assert (Hql : q ∉ l) by (intros ?; by eapply (inv_disj _ _ I)).
  destruct Hok as [[Hg _]|(_ & ? & _)]; [|congruence].
  unfold mq_pop. rewrite Hq. cbn [deref]. rewrite bind_ret.
  destruct items as [|m items].
  - destruct (pop_empty _ Hrepr) as [-> Hrepr']. cbn -[set_in_global set_overload].
    eexists _, l. split; [done|]. eapply inv_update; [done|done|done|set_solver|set_solver|].
    exists []. split; [done|]. cbn. rewrite Hrel. cbn. right.
    split; [done|]. split; [|done]. apply busy_false. set_solver.
  - destruct (pop_nonempty _ _ _ Hrepr) as (_ & mq' & Hp & Hrepr' & _).
    pose proof (pop_preserves _ _ _ Hp) as (Hn & Hrel' & _ & Hg').
    rewrite Hp. cbn. eexists _, l. split; [done|].
    eapply inv_update; [done|done|done|done|done|].
    exists items. split; [done|]. rewrite Hrel', Hrel. cbn. left. by rewrite Hg'.
Qed.

Lemma step_mark q st l :
  inv st l -> enabled (MarkRelease q) st = true ->
  exists st' l', exec (MarkRelease q) st = Ok st' /\ inv st' l'.
Proof.
  destruct st as [s O]. intros I Ha; cbn in *. apply alive_inv in Ha as (mq & Hq & Hrel).
  destruct (inv_queue _ _ I q mq Hq) as (items & Hrepr & Hok); cbn in Hok.
  unfold skynet_mq_mark_release. rewrite Hq. cbn [deref]. rewrite bind_ret, Hrel in *.
  cbn in Hok |- *. assert (Hrepr' : mq_repr (set_release 1 mq) items) by by destruct Hrepr.
  destruct Hok as [[Hg Hb]|(Hg & Hb & ->)].
  - rewrite Hg. cbn. eexists _, l. split; [done|].
    eapply inv_update; [done|done|done|done|done|]. by exists items.
  - rewrite Hg. cbn. apply busy_false in Hb as [Hbl HbO].
    edestruct (inv_push_idle s O l q mq (set_release 1 mq)) as (s' & -> & I');
      [done..|by exists []|]. eauto.
Qed.

Lemma step_reap q st l :
  inv st l -> enabled (Reap q) st = true ->
  exists st' l', exec (Reap q) st = Ok st' /\ inv st' l'.
Proof.
  destruct st as [s O]. intros I HqO%bool_decide_eq_true; cbn in HqO.
  destruct (inv_owned _ _ I q HqO) as [mq Hq]; cbn in Hq.
  destruct (inv_queue _ _ I q mq Hq) as (items & Hrepr & _).
  assert (Hql : q ∉ l) by (intros ?; by eapply (inv_disj _ _ I)).
  cbn [exec sc_mq sc_owned]. unfold skynet_mq_release. cbn [get_mqs mqstate_world].
  rewrite Hq. cbn [deref]. rewrite !bind_ret. destruct (mq_release mq =? 0) eqn:Erel.
  - destruct (inv_push_owned s O l q I HqO) as (s' & -> & I').
    eexists _, _. split; [done|]. exact I'.
  - cbn [negb]. edestruct (drop_queue_ok discard (fun _ (_ : mqstate) => True))
      as (s' & -> & _ & Hg); try done.
    + intros. eexists. done.
    + apply (gq_out _ _ (inv_list _ _ I) q); done.
    + rewrite (length_repr _ _ Hrepr). lia.
    + eexists _, l. split; [done|]. cbn in Hg. rewrite Hg.
      destruct I as [Hl Hd Ho Hqs]; cbn in *. split; cbn.
      * destruct Hl as [Hc Hla Hnd Hout]. split; cbn; [|done|done|].
        -- apply (chain_insert_out _ _ _ q mq) in Hc; [|done].
           by rewrite <- insert_delete_eq, chain_insert_out in Hc.
        -- intros x y [_ Hx]%lookup_delete_Some. eauto.
      * set_solver.
      * intros x Hx. rewrite lookup_delete_ne by set_solver. apply Ho. set_solver.
      * intros x y [Hne Hx]%lookup_delete_Some.
        rewrite (busy_ext l _ l O x) by set_solver. eauto.
Qed.

Lemma step_ok o st l :
  inv st l -> enabled o st = true -> exists st' l', exec o st = Ok st' /\ inv st' l'.
Proof.
  intros I He. destruct o.
  - destruct (step_create handle st l I) as (st' & ? & ?); eauto.
  - by eapply step_push.
  - by eapply step_take.
  - by eapply step_dispatch.
  - destruct st as [s O]. apply bool_decide_eq_true in He.
    destruct (inv_push_owned s O l q I He) as (s' & E & I'). cbn. rewrite E. eauto.
  - by eapply step_mark.
  - by eapply step_reap.
Qed.

Lemma reachable_inv st : reachable st -> exists l, inv st l.
Proof.
  induction 1 as [|st o st' _ [l I] He Hx].
  - exists []. split; cbn; [apply skynet_mq_init_repr|set_solver|set_solver|].
    by intros p mq ?%lookup_empty_Some.
  - destruct (step_ok o st l I He) as (st'' & l' & Hx' & I'). rewrite Hx in Hx'.
    injection Hx' as <-. eauto.
Qed.

(** ** Properties *)

(** C1.  No assertion of the queue module fails and no freed or null queue is
    touched: in every state reachable under the calling rules, every operation
    the rules allow returns. *)
Theorem scheduler_safe st o :
  reachable st -> enabled o st = true -> exists st', exec o st = Ok st'.
Proof.
  intros [l I]%reachable_inv He.
  destruct (step_ok o st l I He) as (st' & _ & H & _). eauto.
Qed.

(** C2.  No lost wakeup: in every reachable state the [next] pointers spell a
    duplicate-free list of queues, disjoint from the queues the workers hold,
    and every live queue that has a message in it is on that list or held by a
    worker; a queue whose context was deleted is too, until it is freed. *)
Theorem scheduler_no_lost_wakeup st :
  reachable st ->
  exists l, gq_repr (sc_mq st) l /\ NoDup l /\
    (forall p, p ∈ l -> p ∉ sc_owned st) /\
    forall p mq, mqs (sc_mq st) !! p = Some mq ->
      skynet_mq_length mq ≠ 0 \/ mq_release mq ≠ 0 ->
      p ∈ l \/ p ∈ sc_owned st.
Proof.
  intros [l I]%reachable_inv. exists l. split; [apply I|].
  split; [apply (inv_list _ _ I)|]. split; [apply I|].
  intros p mq Hp H. apply busy_true.
  destruct (inv_queue _ _ I p mq Hp) as (items & Hr & Hok).
  rewrite (length_repr _ _ Hr) in H.
  destruct (Z.eqb_spec (mq_release mq) 0); [|done].
  destruct Hok as [[_ Hb]|(_ & _ & ->)]; [done|]. cbn in H. lia.
Qed.

(** A run: two services start, one receives two messages and is dispatched once. *)
Definition sample_ops : list op :=
  [Create 1; Requeue 1; Create 2; Requeue 2; Take; Dispatch 1;
   Push 1 (Msg 2 7 None 0); Push 1 (Msg 2 8 None 0); Take; Dispatch 2; Take; Dispatch 1].

Definition exec_all (ops : list op) (st : sched) : outcome sched :=
  foldl (fun r o => st ← r;
           if enabled o st then exec o st else Fault AssertFailed) (Ok st) ops.

Lemma foldl_fault ops f :
  foldl (fun r o => st ← r; if enabled o st then exec o st else Fault AssertFailed)
    (Fault f) ops = Fault f.
Proof. by induction ops. Qed.

Lemma exec_all_reachable ops : forall st st',
  reachable st -> exec_all ops st = Ok st' -> reachable st'.
Proof.
  induction ops as [|o ops IH]; intros st st' Hr; cbn; [by intros [= <-]|].
  destruct (enabled o st) eqn:He; [|by rewrite foldl_fault].
  destruct (exec o st) as [st1|] eqn:E1; [|by rewrite foldl_fault].
  apply IH. by eapply reach_step.
Qed.

Definition sample : sched :=
  match exec_all sample_ops (Sched skynet_mq_init ∅) with
  | Ok st => st
  | Fault _ => Sched skynet_mq_init ∅
  end.

Lemma sample_reachable : reachable sample.
Proof.
  apply (exec_all_reachable sample_ops (Sched skynet_mq_init ∅)); [constructor|].
  by vm_compute.
Qed.

Lemma scheduler_safe_witness :
  enabled (MarkRelease 1) sample = true /\ exists st', exec (MarkRelease 1) sample = Ok st'.
Proof.
  split; [by vm_compute|].
  apply (scheduler_safe sample (MarkRelease 1) sample_reachable). by vm_compute.
Defined.

Lemma scheduler_no_lost_wakeup_witness : exists l,
  gq_repr (sc_mq sample) l /\
  forall mq, mqs (sc_mq sample) !! 1%positive = Some mq ->
    skynet_mq_length mq ≠ 0 -> 1%positive ∈ l \/ 1%positive ∈ sc_owned sample.
Proof.
  destruct (scheduler_no_lost_wakeup sample sample_reachable) as (l & Hg & _ & _ & H).
  exists l. split; [exact Hg|]. intros mq Hmq Hne. apply (H 1%positive mq Hmq). by left.
Defined.

(** ** Releasing a dead queue *)

(** A world that records what the callback was given. *)
#[global] Instance log_world : MqWorld (mqstate * list skynet_message) :=
  {| get_mqs := fst; put_mqs := fun s x => (s, x.2); get_put_mqs := fun _ _ => eq_refl |}.

Definition record_drop (m : skynet_message) (x : mqstate * list skynet_message)
    : outcome (mqstate * list skynet_message) := Ok (x.1, x.2 ++ [m]).

(** [skynet_mq_release] on a queue marked for release hands every message
    left in it to the callback exactly once, oldest first, and then frees the
    queue, leaving every other queue and the global list alone; on a queue that
    is not marked it drops nothing and links the queue again. *)
Theorem release_reports_every_message s log l q mq items :
  gq_repr s l -> q ∉ l -> mqs s !! q = Some mq -> mq_repr mq items ->
  if mq_release mq =? 0
  then exists s', skynet_mq_release record_drop (S (length items)) q (s, log) = Ok (s', log) /\
         gq_repr s' (l ++ [q])
  else skynet_mq_release record_drop (S (length items)) q (s, log)
         = Ok (MS (delete q (mqs s)) (Q s), log ++ items).
Proof.
  intros Hg Hl Hq Hr. pose proof (gq_out _ _ Hg q mq Hq Hl) as Hn.
  unfold skynet_mq_release; cbn [get_mqs log_world fst]. rewrite Hq. cbn [deref].
  rewrite bind_ret. destruct (mq_release mq =? 0); cbn [negb].
  - destruct (globalmq_push_repr s l q mq Hg Hq Hl) as (s' & -> & Hg' & _).
    by exists s'.
  - edestruct (drop_queue_ok record_drop (fun dn (x : mqstate * list skynet_message) => x.2 = dn)
      ltac:(intros m x dn <-; by eexists) ltac:(done) q items (s, log) mq log)
      as ([s' log'] & -> & Hlog & Hs); [done|done|done|done|lia|].
    cbn in Hs, Hlog. by rewrite Hs, Hlog.
Qed.

(** A dead queue with two messages in it. *)
Definition dead_queue : message_queue :=
  match Fifo.ring_run (new_queue 9) [Some (Msg 1 1 None 0); Some (Msg 1 2 None 0)] with
  | Ok (_, q) => set_release 1 q
  | Fault _ => new_queue 9
  end.

Lemma dead_queue_repr : mq_repr dead_queue [Msg 1 1 None 0; Msg 1 2 None 0].
Proof.
  destruct (Fifo.ring_run_simulates [Some (Msg 1 1 None 0); Some (Msg 1 2 None 0)]
    (new_queue 9) [] (new_queue_repr 9)) as (q & E & R); [by vm_compute|].
  unfold dead_queue. rewrite E. by destruct R.
Qed.

Lemma release_reports_witness :
  skynet_mq_release record_drop 3 5 (MS {[5%positive := dead_queue]} (GQ None None), [])
    = Ok (MS ∅ (GQ None None), [Msg 1 1 None 0; Msg 1 2 None 0]).
Proof.
  assert (Hg : gq_repr (MS {[5%positive := dead_queue]} (GQ None None)) []).
  { split; [done|done|constructor|].
    cbn [mqs]. intros p mq [<- <-]%lookup_singleton_Some _. by vm_compute. }
  pose proof (release_reports_every_message _ [] [] 5%positive dead_queue _ Hg
    (not_elem_of_nil _) (lookup_singleton_eq _ _) dead_queue_repr) as H.
  replace (mq_release dead_queue =? 0) with false in H by by vm_compute.
  refine (eq_trans H _). by vm_compute.
Defined.
