(* ===== verification/Timer.v ===== *)
(** * The timer wheel ([skynet-src/skynet_timer.c])

    Five arrays of lists: [near] holds the timers of the current block of 256
    ticks, [t[0]] .. [t[3]] those of ever larger blocks, and a list of [t] is
    redistributed ("cascades") when its block begins.  [Wheel] models the code;
    [Spec] is the obvious timer, a list of pending nodes in the order they were
    added, and the refinement theorem says that the wheel behaves as the list.

    A [link_list] is the list of its nodes in link order: [link] appends and
    [link_clear] empties it and returns the chain. *)

From S2P Require Import Prelude Mq.
From stdpp Require Import base numbers list gmap.
From Stdlib Require Import ZArith Lia.
#[local] Open Scope Z_scope.

Definition TIME_NEAR_SHIFT : Z := 8.
Definition TIME_NEAR : Z := Z.shiftl 1 TIME_NEAR_SHIFT.
Definition TIME_LEVEL_SHIFT : Z := 6.
Definition TIME_LEVEL : Z := Z.shiftl 1 TIME_LEVEL_SHIFT.
Definition TIME_NEAR_MASK : Z := TIME_NEAR - 1.
Definition TIME_LEVEL_MASK : Z := TIME_LEVEL - 1.

(** [MESSAGE_TYPE_SHIFT] is [(sizeof(size_t)-1) * 8] on a 64-bit machine. *)
Definition MESSAGE_TYPE_SHIFT : Z := 56.
Definition PTYPE_RESPONSE : Z := 1.

Record timer_event := Event { te_handle : Z; te_session : Z }.
Record timer_node := Node { expire : Z; event : timer_event }.
Abbreviation link_list := (list timer_node).

Record timer := Timer {
  near : list link_list;
  t : list (list link_list);
  time : Z;
  starttime : Z;
  current : Z;
  current_point : Z
}.

Definition set_near (n : list link_list) (T : timer) : timer :=
  Timer n (t T) (time T) (starttime T) (current T) (current_point T).
Definition set_t (x : list (list link_list)) (T : timer) : timer :=
  Timer (near T) x (time T) (starttime T) (current T) (current_point T).
Definition set_time (x : Z) (T : timer) : timer :=
  Timer (near T) (t T) x (starttime T) (current T) (current_point T).
Definition set_clock (st c cp : Z) (T : timer) : timer :=
  Timer (near T) (t T) (time T) st c cp.

Module Wheel.

Definition link_clear (list : link_list) : link_list * link_list := (list, []).
Definition link (list : link_list) (node : timer_node) : link_list := list ++ [node].

(** [for (i=0;i<3;i++)] of [add_node]: the first level whose block holds both times. *)
Fixpoint find_level (n : nat) (i mask time current_time : Z) : Z :=
  match n with
  | O => i
  | S n =>
      if Z.lor time (mask - 1) =? Z.lor current_time (mask - 1) then i
      else find_level n (i + 1) (u32 (Z.shiftl mask TIME_LEVEL_SHIFT)) time current_time
  end.

Definition add_node (T : timer) (node : timer_node) : outcome timer :=
  let tm := expire node in
  let current_time := time T in
  if Z.lor tm TIME_NEAR_MASK =? Z.lor current_time TIME_NEAR_MASK then
    let j := Z.land tm TIME_NEAR_MASK in
    l ← arr_get (near T) j;
    n ← arr_set (near T) j (link l node);
    Ok (set_near n T)
  else
    let i := find_level 3 0 (Z.shiftl TIME_NEAR TIME_LEVEL_SHIFT) tm current_time in
    let j := Z.land (Z.shiftr tm (TIME_NEAR_SHIFT + i * TIME_LEVEL_SHIFT)) TIME_LEVEL_MASK in
    row ← arr_get (t T) i;
    l ← arr_get row j;
    row' ← arr_set row j (link l node);
    t' ← arr_set (t T) i row';
    Ok (set_t t' T).

(** [tm] is the [int] argument [time]; the sum is [uint32_t] arithmetic. *)
Definition timer_add (T : timer) (arg : timer_event) (tm : Z) : outcome timer :=
  add_node T (Node (u32 (tm + time T)) arg).

Fixpoint add_nodes (T : timer) (l : list timer_node) : outcome timer :=
  match l with
  | [] => Ok T
  | n :: l => T' ← add_node T n; add_nodes T' l
  end.

Definition move_list (T : timer) (level idx : Z) : outcome timer :=
  row ← arr_get (t T) level;
  l ← arr_get row idx;
  let '(current, cleared) := link_clear l in
  row' ← arr_set row idx cleared;
  t' ← arr_set (t T) level row';
  add_nodes (set_t t' T) current.

(** [while ((ct & (mask-1))==0)] of [timer_shift]; [mask] is an [int]. *)
Fixpoint shift_loop (fuel : nat) (T : timer) (ct mask tm i : Z) : outcome timer :=
  match fuel with
  | O => Fault OutOfFuel
  | S fuel =>
      if Z.land ct (mask - 1) =? 0 then
        let idx := Z.land tm TIME_LEVEL_MASK in
        if negb (idx =? 0) then move_list T i idx
        else
          mask' ← c_int (Z.shiftl mask TIME_LEVEL_SHIFT);
          shift_loop fuel T ct mask' (Z.shiftr tm TIME_LEVEL_SHIFT) (i + 1)
      else Ok T
  end.

(** A non-zero 32-bit tick count stops the loop within the four levels. *)
Definition shift_fuel : nat := 4.

Definition timer_shift (T : timer) : outcome timer :=
  let ct := u32 (time T + 1) in
  let T := set_time ct T in
  if ct =? 0 then move_list T 3 0
  else shift_loop shift_fuel T ct TIME_NEAR (Z.shiftr ct TIME_NEAR_SHIFT) 0.

(** The messages [dispatch_list] pushes: destination handle and message. *)
Definition timeout_message (e : timer_event) : Z * skynet_message :=
  (te_handle e, Msg 0 (te_session e) None (Z.shiftl PTYPE_RESPONSE MESSAGE_TYPE_SHIFT)).
Definition dispatch_list (current : list timer_node) : list (Z * skynet_message) :=
  (fun n => timeout_message (event n)) <$> current.

(** [timer_add] calls of other threads. *)
Definition request : Type := timer_event * Z.
Fixpoint add_all (T : timer) (rs : list request) : outcome timer :=
  match rs with
  | [] => Ok T
  | (e, d) :: rs => T' ← timer_add T e d; add_all T' rs
  end.

(** [timer_execute] lets go of the lock while it dispatches: [others] are the
    calls other threads make in each such window. *)
Fixpoint timer_execute (fuel : nat) (others : list (list request)) (T : timer)
    : outcome (list (Z * skynet_message) * timer) :=
  match fuel with
  | O => Fault OutOfFuel
  | S fuel =>
      let idx := Z.land (time T) TIME_NEAR_MASK in
      l ← arr_get (near T) idx;
      match l with
      | [] => Ok ([], T)
      | _ =>
          let '(current, cleared) := link_clear l in
          n ← arr_set (near T) idx cleared;
          let out := dispatch_list current in
          T ← add_all (set_near n T) (default [] (head others));
          '(out', T) ← timer_execute fuel (tail others) T;
          Ok (out ++ out', T)
      end
  end.

(** One round to dispatch and one to see the empty list. *)
Definition execute_fuel : nat := 2.

Definition timer_update (T : timer) (before after : list (list request))
    : outcome (list (Z * skynet_message) * timer) :=
  '(out1, T) ← timer_execute execute_fuel before T;
  T ← timer_shift T;
  '(out2, T) ← timer_execute execute_fuel after T;
  Ok (out1 ++ out2, T).

Definition timer_create_timer : timer :=
  Timer (replicate (Z.to_nat TIME_NEAR) [])
        (replicate 4 (replicate (Z.to_nat TIME_LEVEL) [])) 0 0 0 0.

(** [sec], [cs] and [now] are what [systime] and [gettime] read from the clocks. *)
Definition skynet_timer_init (sec cs now : Z) : timer :=
  set_clock sec cs now timer_create_timer.

(** [Some m]: the timeout is due at once and [m] is pushed; [None]: it was added. *)
Definition skynet_timeout (T : timer) (handle tm session : Z)
    : outcome (option (Z * skynet_message) * timer) :=
  if tm <=? 0 then Ok (Some (timeout_message (Event handle session)), T)
  else T' ← timer_add T (Event handle session) tm; Ok (None, T').

Fixpoint update_times (n : nat) (T : timer) : outcome (list (Z * skynet_message) * timer) :=
  match n with
  | O => Ok ([], T)
  | S n =>
      '(out, T) ← timer_update T [] [];
      '(outs, T) ← update_times n T;
      Ok (out ++ outs, T)
  end.

(** [cp] is [gettime()]; the loop bound [diff] is a [uint32_t], and comparing it
    with the [int] index converts the index. *)
Definition skynet_updatetime (cp : Z) (T : timer)
    : outcome (list (Z * skynet_message) * timer) :=
  if cp <? current_point T then
    Ok ([], set_clock (starttime T) (current T) cp T)
  else if negb (cp =? current_point T) then
    let diff := u32 (cp - current_point T) in
    let T := set_clock (starttime T) (u64 (current T + diff)) cp T in
    update_times (Z.to_nat diff) T
  else Ok ([], T).

Definition skynet_starttime (T : timer) : Z := starttime T.
Definition skynet_now (T : timer) : Z := current T.

End Wheel.

(** ** Where the wheel keeps a node *)

Inductive slot := Near (j : nat) | Level (i j : nat).
#[global] Instance slot_eq_dec : EqDecision slot.
Proof. solve_decision. Defined.

Definition place (now e : Z) : slot :=
  if e / 2^8 =? now / 2^8 then Near (Z.to_nat (e mod 2^8))
  else if e / 2^14 =? now / 2^14 then Level 0 (Z.to_nat ((e / 2^8) mod 2^6))
  else if e / 2^20 =? now / 2^20 then Level 1 (Z.to_nat ((e / 2^14) mod 2^6))
  else if e / 2^26 =? now / 2^26 then Level 2 (Z.to_nat ((e / 2^20) mod 2^6))
  else Level 3 (Z.to_nat ((e / 2^26) mod 2^6)).

Definition slot_valid (s : slot) : Prop :=
  match s with Near j => (j < 256)%nat | Level i j => (i < 4)%nat /\ (j < 64)%nat end.

Definition slot_get (T : timer) (s : slot) : link_list :=
  match s with
  | Near j => default [] (near T !! j)
  | Level i j => default [] (t T !! i ≫= fun row => row !! j)
  end.

Definition slot_put (T : timer) (s : slot) (l : link_list) : timer :=
  match s with
  | Near j => set_near (<[j := l]> (near T)) T
  | Level i j => set_t (alter (fun row => <[j := l]> row) i (t T)) T
  end.

(** The arrays have the sizes the source declares. *)
Record wheel_wf (T : timer) : Prop := {
  wf_near : length (near T) = 256%nat;
  wf_t : length (t T) = 4%nat;
  wf_rows : forall i row, t T !! i = Some row -> length row = 64%nat;
  wf_time : is_u32 (time T)
}.

Lemma place_valid now e : slot_valid (place now e).
Proof.
  unfold place.
  pose proof (Z.mod_pos_bound e (2^8)). pose proof (Z.mod_pos_bound (e / 2^8) (2^6)).
  pose proof (Z.mod_pos_bound (e / 2^14) (2^6)). pose proof (Z.mod_pos_bound (e / 2^20) (2^6)).
  pose proof (Z.mod_pos_bound (e / 2^26) (2^6)).
  repeat case_match; cbn [slot_valid]; lia.
Qed.

Lemma slot_get_put T s s' l : wheel_wf T -> slot_valid s ->
  slot_get (slot_put T s l) s' = if decide (s = s') then l else slot_get T s'.
Proof.
  intros [Hn Ht Hr _] Hv. destruct s as [j|i j], s' as [j'|i' j'];
    cbn [slot_get slot_put slot_valid near t set_near set_t] in *.
  - destruct (decide _) as [[= <-]|Hne].
    + by rewrite list_lookup_insert_eq by lia.
    + rewrite list_lookup_insert_ne; [done|]. intros ->. done.
  - done.
  - done.
  - destruct Hv as [Hi Hj]. destruct (lookup_lt_is_Some_2 (t T) i) as [row Hrow]; [lia|].
    pose proof (Hr i row Hrow). destruct (decide (i = i')) as [<-|Hii].
    + rewrite list_lookup_alter_eq, Hrow. cbn. destruct (decide _) as [[= <-]|Hne].
      * by rewrite list_lookup_insert_eq by lia.
      * rewrite list_lookup_insert_ne; [done|]. intros ->. done.
    + rewrite list_lookup_alter_ne by done. rewrite decide_False by congruence. done.
Qed.

Lemma slot_put_wf T s l : wheel_wf T -> wheel_wf (slot_put T s l).
Proof.
  intros [Hn Ht Hr Hu]. destruct s as [j|i j]; split; cbn; try done.
  - by rewrite length_insert.
  - by rewrite length_alter.
  - intros k row. destruct (decide (i = k)) as [<-|].
    + rewrite list_lookup_alter_eq. destruct (t T !! i) as [r|] eqn:E; [|done].
      intros [= <-]. rewrite length_insert. eauto.
    + rewrite list_lookup_alter_ne by done. eauto.
Qed.

Lemma slot_put_time T s l : time (slot_put T s l) = time T.
Proof. by destruct s. Qed.

(** Reading and writing one cell of [t]. *)
Lemma level_cell T i j l :
  wheel_wf T -> 0 <= i < 4 -> 0 <= j < 64 ->
  exists row, arr_get (t T) i = Ok row /\
    arr_get row j = Ok (slot_get T (Level (Z.to_nat i) (Z.to_nat j))) /\
    exists row', arr_set row j l = Ok row' /\
    exists t', arr_set (t T) i row' = Ok t' /\
      set_t t' T = slot_put T (Level (Z.to_nat i) (Z.to_nat j)) l.
Proof.
  intros W Hi Hj. destruct (lookup_lt_is_Some_2 (t T) (Z.to_nat i)) as [row Hrow].
  { rewrite (wf_t _ W). lia. }
  pose proof (wf_rows _ W _ _ Hrow) as Hl.
  destruct (lookup_lt_is_Some_2 row (Z.to_nat j)) as [c Hc]; [lia|].
  exists row. split; [by apply arr_get_ok; [lia|]|].
  split; [apply arr_get_ok; [lia|]; cbn; by rewrite Hrow; cbn; rewrite Hc|].
  eexists. split; [apply arr_set_ok; lia|].
  eexists. split; [apply arr_set_ok; rewrite (wf_t _ W); lia|].
  cbn. f_equal. apply list_eq. intros k. destruct (decide (Z.to_nat i = k)) as [<-|].
  - rewrite list_lookup_insert_eq, list_lookup_alter_eq, Hrow by (rewrite (wf_t _ W); lia). done.
  - by rewrite list_lookup_insert_ne, list_lookup_alter_ne.
Qed.

Lemma near_cell T j l :
  wheel_wf T -> 0 <= j < 256 ->
  arr_get (near T) j = Ok (slot_get T (Near (Z.to_nat j))) /\
  exists n, arr_set (near T) j l = Ok n /\ set_near n T = slot_put T (Near (Z.to_nat j)) l.
Proof.
  intros W Hj. destruct (lookup_lt_is_Some_2 (near T) (Z.to_nat j)) as [c Hc].
  { rewrite (wf_near _ W). lia. }
  split; [apply arr_get_ok; [lia|]; cbn; by rewrite Hc|].
  eexists. split; [apply arr_set_ok; rewrite (wf_near _ W); lia|done].
Qed.

Import Wheel.

Lemma find_level_spec e now :
  find_level 3 0 (Z.shiftl TIME_NEAR TIME_LEVEL_SHIFT) e now =
  if e / 2^14 =? now / 2^14 then 0
  else if e / 2^20 =? now / 2^20 then 1
  else if e / 2^26 =? now / 2^26 then 2 else 3.
Proof.
  cbn [find_level].
  change (Z.shiftl TIME_NEAR TIME_LEVEL_SHIFT) with (2^14).
  change (u32 (Z.shiftl (2^14) TIME_LEVEL_SHIFT)) with (2^20).
  change (u32 (Z.shiftl (2^20) TIME_LEVEL_SHIFT)) with (2^26).
  by rewrite !lor_mask_eqb by lia.
Qed.

(** [add_node] appends the node to the list [place] names. *)
Lemma add_node_spec T n :
  wheel_wf T ->
  let s := place (time T) (expire n) in
  add_node T n = Ok (slot_put T s (slot_get T s ++ [n])).
Proof.
  intros W. unfold add_node, place, link.
  change TIME_NEAR_MASK with (2^8 - 1). change TIME_LEVEL_MASK with (2^6 - 1).
  rewrite lor_mask_eqb, find_level_spec by lia.
  destruct (expire n / 2^8 =? time T / 2^8).
  - rewrite land_mask by lia.
    destruct (near_cell T (expire n mod 2^8)
      (slot_get T (Near (Z.to_nat (expire n mod 2^8))) ++ [n]) W) as (-> & nr & E & Ep).
    { apply (Z.mod_pos_bound (expire n) 256). lia. }
    rewrite bind_ret, E. cbn. by f_equal.
  - assert (forall i k, 0 <= i < 4 -> k = 8 + 6 * i ->
      let j := Z.land (Z.shiftr (expire n) (TIME_NEAR_SHIFT + i * TIME_LEVEL_SHIFT)) (2^6-1) in
      let s := Level (Z.to_nat i) (Z.to_nat ((expire n / 2^k) mod 2^6)) in
      (row ← arr_get (t T) i; l ← arr_get row j; row' ← arr_set row j (l ++ [n]);
       t' ← arr_set (t T) i row'; Ok (set_t t' T)) = Ok (slot_put T s (slot_get T s ++ [n])))
      as Hcell.
    { intros i k Hi -> j s. subst j s. rewrite land_mask, Z.shiftr_div_pow2
        by (unfold TIME_NEAR_SHIFT, TIME_LEVEL_SHIFT; lia).
      replace (TIME_NEAR_SHIFT + i * TIME_LEVEL_SHIFT) with (8 + 6 * i)
        by (unfold TIME_NEAR_SHIFT, TIME_LEVEL_SHIFT; lia).
      set (j := (expire n / 2^(8 + 6 * i)) mod 2^6).
      destruct (level_cell T i j (slot_get T (Level (Z.to_nat i) (Z.to_nat j)) ++ [n]) W Hi)
        as (row & -> & H1 & row' & H2 & t' & H3 & H4).
      { apply (Z.mod_pos_bound _ 64). lia. }
      rewrite bind_ret, H1, bind_ret, H2, bind_ret, H3, bind_ret. by f_equal. }
    repeat case_match; (eapply Hcell; lia).
Qed.

(** ** What a tick moves *)

(** The list that cascades when the tick count becomes [ct]. *)
Definition cascade (ct : Z) : option slot :=
  if ct =? 0 then Some (Level 3 0)
  else if negb (ct mod 2^8 =? 0) then None
  else if negb ((ct / 2^8) mod 2^6 =? 0) then Some (Level 0 (Z.to_nat ((ct / 2^8) mod 2^6)))
  else if negb ((ct / 2^14) mod 2^6 =? 0) then Some (Level 1 (Z.to_nat ((ct / 2^14) mod 2^6)))
  else if negb ((ct / 2^20) mod 2^6 =? 0) then Some (Level 2 (Z.to_nat ((ct / 2^20) mod 2^6)))
  else Some (Level 3 (Z.to_nat ((ct / 2^26) mod 2^6))).

(** [e] is due at least one tick after [now], within the range of an [int]. *)
Definition due_later (now e : Z) : Prop :=
  is_u32 e /\ 1 <= u32 (e - now) < 2^31.

Lemma place_ext now now' e :
  (forall k, k = 8 \/ k = 14 \/ k = 20 \/ k = 26 ->
     (e / 2^k =? now' / 2^k) = (e / 2^k =? now / 2^k)) ->
  place now' e = place now e.
Proof. intros H. unfold place. by rewrite !H by lia. Qed.

(** A block boundary separates [now] from a later [e]. *)
Lemma block_boundary now e m :
  0 < m -> now mod m = m - 1 -> now < e \/ e + m < now -> e / m <> now / m.
Proof.
  intros Hm Hnow He Heq.
  pose proof (Z.div_mod now m). pose proof (Z.div_mod e m).
  pose proof (Z.mod_pos_bound e m). rewrite Heq in *. lia.
Qed.

Lemma div_coarser a b k k' : 0 <= k <= k' -> a / 2^k = b / 2^k -> a / 2^k' = b / 2^k'.
Proof.
  intros Hk H. replace k' with (k + (k' - k)) by lia. rewrite Z.pow_add_r by lia.
  rewrite <- !Z.div_div by lia. by rewrite H.
Qed.

Lemma mod_coarser a k k' : 0 <= k <= k' -> a mod 2^k' = 0 -> a mod 2^k = 0.
Proof.
  intros Hk [q Hq]%Z.mod_divide; [|lia]. apply Z.mod_divide; [lia|].
  exists (q * 2^(k' - k)). rewrite Hq, <- Z.mul_assoc, <- Z.pow_add_r by lia.
  do 2 f_equal. lia.
Qed.

(** The digit above a block is zero exactly when the next block begins too. *)
Lemma mod_digit a k : 0 <= k -> a mod 2^k = 0 ->
  a mod 2^(k+6) = 0 <-> (a / 2^k) mod 2^6 = 0.
Proof.
  intros Hk H. rewrite Z.pow_add_r, Z.rem_mul_r, H by lia.
  pose proof (Z.pow_pos_nonneg 2 k). rewrite Z.add_0_l, Z.mul_eq_0. lia.
Qed.

(** Within a block the quotient does not move; at its end it moves by one. *)
Lemma div_tick now m : 0 < m -> (now + 1) mod m <> 0 -> (now + 1) / m = now / m.
Proof.
  intros Hm H. pose proof (Z.div_mod now m). pose proof (Z.mod_pos_bound now m).
  assert (now mod m <> m - 1) as Hne.
  { intros E. apply H. rewrite <- Z.add_mod_idemp_l, E by lia.
    replace (m - 1 + 1) with m by lia. apply Z_mod_same_full. }
  symmetry. apply (Z.div_unique _ _ _ (now mod m + 1)); lia.
Qed.

Lemma mod_tick now m : 0 < m -> (now + 1) mod m = 0 -> now mod m = m - 1.
Proof.
  intros Hm H. apply Z.mod_divide in H as [q Hq]; [|lia].
  symmetry. apply (Z.mod_unique _ _ (q - 1)); lia.
Qed.

Lemma u32_later now e :
  is_u32 now -> due_later now e -> now < e \/ e + 2^31 < now.
Proof.
  unfold due_later, is_u32, u32. intros Hn [He Hd].
  destruct (Z.lt_ge_cases now e); [by left|]. right.
  destruct (Z.eq_dec e now) as [->|]; [rewrite Z.sub_diag, Z.mod_0_l in Hd by lia; lia|].
  rewrite <- (Z_mod_plus_full _ 1), Z.mod_small in Hd by lia. lia.
Qed.

(** The exponents of the blocks and the level that covers each. *)
Definition block_level (K : Z) (i : nat) : Prop :=
  (K = 8 /\ i = 0%nat) \/ (K = 14 /\ i = 1%nat) \/ (K = 20 /\ i = 2%nat) \/ (K = 26 /\ i = 3%nat).

(** A node of the block that begins is in the list that cascades. *)
Lemma place_cascading now ct e K i :
  block_level K i ->
  (forall k, 0 <= k <= K -> e / 2^k <> now / 2^k) ->
  (K < 26 -> ct / 2^(K+6) = now / 2^(K+6)) ->
  e / 2^K = ct / 2^K ->
  place now e = Level i (Z.to_nat ((ct / 2^K) mod 2^6)).
Proof.
  intros HK Hlow Hup He.
  assert (Hup' : K < 26 -> e / 2^(K+6) = now / 2^(K+6)).
  { intros HK'. rewrite <- Hup by done. apply (div_coarser _ _ K); [|done].
    unfold block_level in HK. lia. }
  assert (Hf : forall k, 0 <= k <= K -> (e / 2^k =? now / 2^k) = false).
  { intros k Hk. by apply Z.eqb_neq, Hlow. }
  rewrite <- He. unfold place.
  destruct HK as [[-> ->]|[[-> ->]|[[-> ->]|[-> ->]]]]; rewrite !Hf by lia;
    [..|done]; specialize (Hup' ltac:(lia)); apply Z.eqb_eq in Hup';
    vm_compute (_ + 6) in Hup'; by rewrite Hup'.
Qed.

(** The quotients that decide [place] do not change with a tick at which the
    block of exponent [K] begins, the cascading list aside. *)
Lemma place_block_tick now e K i :
  block_level K i -> now < e \/ e + 2^31 < now ->
  (now + 1) mod 2^K = 0 -> (K < 26 -> (now + 1) mod 2^(K+6) <> 0) ->
  place now e <> Level i (Z.to_nat (((now + 1) / 2^K) mod 2^6)) ->
  place (now + 1) e = place now e.
Proof.
  intros HK He Hm Hup Hne.
  assert (HKr : 0 <= K <= 26) by (unfold block_level in HK; lia).
  assert (Hlow : forall k, 0 <= k <= K -> e / 2^k <> now / 2^k).
  { intros k Hk. assert (0 < 2^k <= 2^26) by
      (split; [lia|apply Z.pow_le_mono_r; lia]).
    apply block_boundary; [lia| |lia]. apply mod_tick; [lia|].
    by apply (mod_coarser _ k K). }
  assert (Hsame : forall k, K + 6 <= k -> k <= 26 -> (now + 1) / 2^k = now / 2^k).
  { intros k Hk Hk'. apply div_tick; [lia|]. intros Hz. apply Hup; [lia|].
    apply (mod_coarser _ (K + 6) k); [lia|done]. }
  apply place_ext. intros k Hk.
  destruct (Z.le_gt_cases k K) as [Hle|Hgt].
  - rewrite (proj2 (Z.eqb_neq _ (now / 2^k)) (Hlow k ltac:(lia))).
    apply Z.eqb_neq. intros Hek. apply Hne. apply (place_cascading now (now + 1)); [done..| |].
    + intros HK'. apply Hsame; unfold block_level in HK; lia.
    + apply (div_coarser _ _ k); [lia|done].
  - rewrite Hsame; [done| |lia]. unfold block_level in HK. lia.
Qed.

(** A node stays where it is unless its list is the one that cascades. *)
Lemma place_tick now e :
  is_u32 now -> due_later now e ->
  cascade (u32 (now + 1)) <> Some (place now e) -> place (u32 (now + 1)) e = place now e.
Proof.
  intros Hn He Hc. pose proof (u32_later now e Hn He) as Hed.
  destruct He as [He _]. unfold is_u32, u32 in *.
  destruct (Z.eq_dec (now + 1) (2^32)) as [Hw|Hw].
  - (* the counter wraps to 0 *)
    rewrite Hw in *. change (2^32 mod 2^32) with 0 in *.
    assert (Hfar : forall k, 0 <= k <= 26 -> (e / 2^k =? now / 2^k) = false).
    { intros k Hk. assert (0 < 2^k <= 2^26) by (split; [lia|apply Z.pow_le_mono_r; lia]).
      apply Z.eqb_neq, block_boundary; [lia| |lia]. apply mod_tick; [lia|]. rewrite Hw.
      apply (mod_coarser _ k 32); [lia|done]. }
    assert (e / 2^26 <> 0) as H26.
    { intros H0. apply Hc. unfold place. rewrite !Hfar by lia. by rewrite H0. }
    apply place_ext. intros k Hk. rewrite Hfar by lia.
    apply Z.eqb_neq. intros H0. apply H26.
    rewrite (div_coarser e 0 k 26); [done|lia|done].
  - rewrite Z.mod_small in * by lia. unfold cascade in Hc.
    destruct (Z.eqb_spec (now + 1) 0); [lia|].
    destruct (Z.eqb_spec ((now + 1) mod 2^8) 0) as [H8|H8]; cbn [negb] in Hc.
    2:{ apply place_ext. intros k Hk. rewrite div_tick; [done|lia|].
        intros Hz. apply H8, (mod_coarser _ 8 k); [lia|done]. }
    pose proof (mod_digit (now + 1) 8 ltac:(lia) H8) as D8.
    destruct (Z.eqb_spec (((now + 1) / 2^8) mod 2^6) 0) as [H14|H14]; cbn [negb] in Hc.
    2:{ apply (place_block_tick now e 8 0); try (done || congruence).
        - unfold block_level; lia.
        - by rewrite D8. }
    rewrite <- D8 in H14. pose proof (mod_digit (now + 1) 14 ltac:(lia) H14) as D14.
    destruct (Z.eqb_spec (((now + 1) / 2^14) mod 2^6) 0) as [H20|H20]; cbn [negb] in Hc.
    2:{ apply (place_block_tick now e 14 1); try (done || congruence).
        - unfold block_level; lia.
        - by rewrite D14. }
    rewrite <- D14 in H20. pose proof (mod_digit (now + 1) 20 ltac:(lia) H20) as D20.
    destruct (Z.eqb_spec (((now + 1) / 2^20) mod 2^6) 0) as [H26|H26]; cbn [negb] in Hc.
    2:{ apply (place_block_tick now e 20 2); try (done || congruence).
        - unfold block_level; lia.
        - by rewrite D20. }
    rewrite <- D20 in H26.
    apply (place_block_tick now e 26 3); try (done || congruence).
    unfold block_level; lia.
Qed.

(** ** The operations on the lists of the wheel *)

(** Everything but the lists and the tick count. *)
Definition clock (T : timer) : Z * Z * Z := (starttime T, current T, current_point T).

Lemma slot_put_clock T s l : clock (slot_put T s l) = clock T.
Proof. by destruct s. Qed.

Lemma add_nodes_spec l : forall T, wheel_wf T ->
  exists T', add_nodes T l = Ok T' /\ wheel_wf T' /\ time T' = time T /\ clock T' = clock T /\
    forall s, slot_get T' s
      = slot_get T s ++ filter (fun n => place (time T) (expire n) = s) l.
Proof.
  induction l as [|n l IH]; intros T W; cbn [add_nodes].
  { exists T. split_and!; try done. intros s. by rewrite filter_nil, app_nil_r. }
  rewrite add_node_spec, bind_ret by done. set (p := place _ _).
  destruct (IH (slot_put T p (slot_get T p ++ [n]))) as (T' & -> & W' & Ht & Hc & Hs).
  { by apply slot_put_wf. }
  exists T'. rewrite slot_put_time, slot_put_clock in *. split_and!; try done.
  intros s. rewrite Hs, slot_get_put by (done || apply place_valid).
  rewrite filter_cons. fold p.
  destruct (decide (p = s)) as [<-|]; [by rewrite <- app_assoc|done].
Qed.

Lemma move_list_spec T i j :
  wheel_wf T -> 0 <= i < 4 -> 0 <= j < 64 ->
  let s0 := Level (Z.to_nat i) (Z.to_nat j) in
  exists T', move_list T i j = Ok T' /\ wheel_wf T' /\ time T' = time T /\ clock T' = clock T /\
    forall s, slot_get T' s
      = (if decide (s0 = s) then [] else slot_get T s)
        ++ filter (fun n => place (time T) (expire n) = s) (slot_get T s0).
Proof.
  intros W Hi Hj s0. unfold move_list, link_clear.
  destruct (level_cell T i j [] W Hi Hj) as (row & -> & H1 & row' & H2 & t' & H3 & H4).
  rewrite bind_ret, H1, bind_ret, H2, bind_ret, H3, bind_ret, H4. fold s0.
  destruct (add_nodes_spec (slot_get T s0) (slot_put T s0 [])) as (T' & -> & W' & Ht & Hc & Hs).
  { by apply slot_put_wf. }
  exists T'. rewrite slot_put_time, slot_put_clock in *. split_and!; try done.
  intros s. rewrite Hs, slot_get_put by (done || (cbn; lia)). done.
Qed.

(** The loop of [timer_shift] stops at the list [cascade] names. *)
Lemma timer_shift_cascade T :
  is_u32 (time T) ->
  let ct := u32 (time T + 1) in
  timer_shift T =
    match cascade ct with
    | Some (Level i j) => move_list (set_time ct T) (Z.of_nat i) (Z.of_nat j)
    | _ => Ok (set_time ct T)
    end.
Proof.
  intros Hu ct. unfold timer_shift, cascade. fold ct.
  assert (Hct : is_u32 ct) by apply u32_range. unfold is_u32 in *.
  destruct (Z.eqb_spec ct 0) as [|Hne]; [done|].
  set (T' := set_time ct T). unfold shift_fuel. cbn [shift_loop].
  change (TIME_NEAR - 1) with (2^8 - 1). change TIME_LEVEL_MASK with (2^6 - 1).
  change (c_int (Z.shiftl TIME_NEAR TIME_LEVEL_SHIFT)) with (Ok (2^14)).
  rewrite bind_ret. change (c_int (Z.shiftl (2^14) TIME_LEVEL_SHIFT)) with (Ok (2^20)).
  rewrite bind_ret. change (c_int (Z.shiftl (2^20) TIME_LEVEL_SHIFT)) with (Ok (2^26)).
  rewrite bind_ret. rewrite !Z.shiftr_shiftr by (unfold TIME_LEVEL_SHIFT; lia).
  change (TIME_NEAR_SHIFT + TIME_LEVEL_SHIFT) with 14.
  change (14 + TIME_LEVEL_SHIFT) with 20. change (20 + TIME_LEVEL_SHIFT) with 26.
  change TIME_NEAR_SHIFT with 8.
  rewrite !Z.shiftr_div_pow2, !land_mask by lia.
  assert (Hdig : forall k, 0 <= (ct / 2^k) mod 2^6) by (intros; apply Z.mod_pos_bound; lia).
  destruct (Z.eqb_spec (ct mod 2^8) 0) as [H8|]; [|done]. cbn [negb].
  pose proof (mod_digit ct 8 ltac:(lia) H8) as D8.
  destruct (Z.eqb_spec ((ct / 2^8) mod 2^6) 0) as [H14|]; cbn [negb];
    [|by rewrite Z2Nat.id by apply Hdig].
  rewrite <- D8 in H14. change (8 + 6) with 14 in H14. rewrite H14. cbn [Z.eqb].
  pose proof (mod_digit ct 14 ltac:(lia) H14) as D14.
  destruct (Z.eqb_spec ((ct / 2^14) mod 2^6) 0) as [H20|]; cbn [negb];
    [|by rewrite Z2Nat.id by apply Hdig].
  rewrite <- D14 in H20. change (14 + 6) with 20 in H20. rewrite H20. cbn [Z.eqb].
  pose proof (mod_digit ct 20 ltac:(lia) H20) as D20.
  destruct (Z.eqb_spec ((ct / 2^20) mod 2^6) 0) as [H26|]; cbn [negb];
    [|by rewrite Z2Nat.id by apply Hdig].
  rewrite <- D20 in H26. change (20 + 6) with 26 in H26. rewrite H26. cbn [Z.eqb].
  destruct (Z.eqb_spec ((ct / 2^26) mod 2^6) 0) as [H32|]; cbn [negb].
  - exfalso. apply Hne. pose proof (Z.div_mod ct (2^26)).
    rewrite Z.mod_small in H32; lia.
  - by rewrite Z2Nat.id by apply Hdig.
Qed.

(** ** The timer as a list *)
Module Spec.

(** The nodes due at tick [e], in order. *)
Definition fires (e : Z) (P : list timer_node) : list timer_node :=
  filter (fun n => expire n = e) P.

Definition add (now : Z) (P : list timer_node) (r : request) : list timer_node :=
  P ++ [Node (u32 (r.2 + now)) r.1].

(** Dispatch what is due now, then take the requests that arrive meanwhile. *)
Definition execute (others : list (list request)) (now : Z) (P : list timer_node)
    : list (Z * skynet_message) * list timer_node :=
  match fires now P with
  | [] => ([], P)
  | due => (dispatch_list due,
            foldl (add now) (filter (fun n => expire n <> now) P) (default [] (head others)))
  end.

Definition update (now : Z) (P : list timer_node) (before after : list (list request))
    : list (Z * skynet_message) * list timer_node :=
  let '(out1, P1) := execute before now P in
  let '(out2, P2) := execute after (u32 (now + 1)) P1 in
  (out1 ++ out2, P2).

End Spec.
Import Spec.

(** The delays a caller may ask for: positive [int]s. *)
Definition valid_request (r : request) : Prop := 0 < r.2 < 2^31.

(** [wheel_rel T P]: for every expiry [e], the nodes of [P] due at [e] are, in
    the same order, the nodes due at [e] of the list [place] names, and no other
    list has any. *)
Record wheel_rel (T : timer) (P : list timer_node) : Prop := {
  wr_wf : wheel_wf T;
  wr_slots : forall s e, fires e (slot_get T s)
    = if decide (place (time T) e = s) then fires e P else [];
  wr_due : forall n, n ∈ P -> is_u32 (expire n) /\ u32 (expire n - time T) < 2^31
}.

Lemma fires_app e l1 l2 : fires e (l1 ++ l2) = fires e l1 ++ fires e l2.
Proof. apply filter_app. Qed.

Lemma fires_one e n : fires e [n] = if decide (expire n = e) then [n] else [].
Proof. unfold fires. rewrite filter_cons, filter_nil. done. Qed.

(** A filter that agrees on the nodes due at [e] keeps or drops all of them. *)
Lemma fires_filter_keep (Pr : timer_node -> Prop) `{!forall n, Decision (Pr n)} e l :
  (forall n, expire n = e -> Pr n) -> fires e (filter Pr l) = fires e l.
Proof.
  intros Hp. unfold fires. rewrite list_filter_filter. apply list_filter_iff.
  intros n. split; [by intros [? _]|auto].
Qed.

Lemma fires_filter_drop (Pr : timer_node -> Prop) `{!forall n, Decision (Pr n)} e l :
  (forall n, expire n = e -> ~ Pr n) -> fires e (filter Pr l) = [].
Proof.
  intros Hp. unfold fires. rewrite list_filter_filter.
  induction l as [|n l IH]; [done|]. rewrite filter_cons, decide_False; [done|].
  intros [He Hn]. by eapply Hp.
Qed.

Lemma fires_nil_iff e l : fires e l = [] <-> forall n, n ∈ l -> expire n <> e.
Proof.
  unfold fires. split.
  - intros H n Hn He. apply (not_elem_of_nil n). rewrite <- H.
    by apply list_elem_of_filter.
  - intros H. destruct (filter _ l) as [|n r] eqn:E; [done|].
    assert (n ∈ filter (fun n => expire n = e) l) as [? ?]%list_elem_of_filter
      by (rewrite E; set_solver).
    by destruct (H n).
Qed.

Lemma create_rel : wheel_rel timer_create_timer [].
Proof.
  assert (Hs : forall s, slot_get timer_create_timer s = []).
  { intros [j|i j]; cbn [slot_get near t timer_create_timer].
    - by destruct (replicate _ _ !! j) as [l|] eqn:E; [apply lookup_replicate in E as [-> _]|].
    - destruct (replicate 4 _ !! i) as [row|] eqn:E; [|done].
      apply lookup_replicate in E as [-> _]. cbn.
      by destruct (_ !! j) as [l|] eqn:E; [apply lookup_replicate in E as [-> _]|]. }
  split.
  - split; [done|done| |done].
    intros i row [-> _]%lookup_replicate. done.
  - intros s e. rewrite Hs. by destruct (decide _).
  - by intros n ?%elem_of_nil.
Qed.

Lemma timer_add_rel T P r :
  wheel_rel T P -> valid_request r ->
  exists T', timer_add T r.1 r.2 = Ok T' /\ wheel_rel T' (add (time T) P r) /\
    time T' = time T /\ clock T' = clock T.
Proof.
  intros [W Hs Hd] Hr. unfold timer_add. rewrite add_node_spec by done.
  set (n := Node _ _). set (p := place _ _). eexists. split; [done|].
  rewrite slot_put_time, slot_put_clock. split_and!; try done.
  split; [by apply slot_put_wf| |]; rewrite slot_put_time.
  - intros s e. rewrite slot_get_put by (done || apply place_valid).
    unfold add. fold n. rewrite fires_app, fires_one.
    destruct (decide (p = s)) as [<-|Hne].
    + rewrite fires_app, Hs, fires_one. destruct (decide (expire n = e)) as [<-|].
      * by rewrite !decide_True by done.
      * rewrite !app_nil_r. done.
    + rewrite Hs. destruct (decide (place (time T) e = s)) as [<-|]; [|done].
      rewrite decide_False; [by rewrite app_nil_r|]. intros <-. done.
  - intros x [Hx| ->%list_elem_of_singleton]%elem_of_app; [by apply Hd|].
    subst n; cbn [expire]. split; [apply u32_range|].
    unfold u32. rewrite Zminus_mod_idemp_l.
    replace (r.2 + time T - time T) with r.2 by lia.
    unfold valid_request in Hr. rewrite Z.mod_small; lia.
Qed.

Lemma add_all_rel rs : forall T P,
  wheel_rel T P -> Forall valid_request rs ->
  exists T', add_all T rs = Ok T' /\ wheel_rel T' (foldl (add (time T)) P rs) /\
    time T' = time T /\ clock T' = clock T.
Proof.
  induction rs as [|[e d] rs IH]; intros T P R Hv; cbn [add_all foldl].
  { by exists T. }
  apply Forall_cons in Hv as [H1 Hv].
  destruct (timer_add_rel T P (e, d) R H1) as (T1 & E & R1 & Ht & Hc). cbn [fst snd] in E.
  rewrite E, bind_ret. destruct (IH T1 _ R1 Hv) as (T2 & -> & R2 & Ht2 & Hc2).
  exists T2. rewrite Ht in *. rewrite Hc in Hc2. done.
Qed.

(** The list at the current index is exactly what is due now. *)
Lemma due_slot T P :
  wheel_rel T P -> slot_get T (Near (Z.to_nat (time T mod 2^8))) = fires (time T) P.
Proof.
  intros [W Hs Hd]. set (s := Near _).
  assert (Hp : place (time T) (time T) = s) by (unfold place; by rewrite Z.eqb_refl).
  pose proof (Hs s (time T)) as H. rewrite decide_True in H by done. rewrite <- H.
  unfold fires. symmetry. apply filter_all. intros n Hn.
  destruct (decide (place (time T) (expire n) = s)) as [E|Hne].
  - revert E. unfold place, s. pose proof (Z.mod_pos_bound (expire n) (2^8)).
    pose proof (Z.mod_pos_bound (time T) (2^8)).
    destruct (Z.eqb_spec (expire n / 2^8) (time T / 2^8)) as [Eq|];
      [|by repeat case_match].
    intros [= Em]. rewrite (Z.div_mod (expire n) (2^8)), (Z.div_mod (time T) (2^8)) by lia.
    rewrite Eq. f_equal. lia.
  - exfalso. pose proof (Hs s (expire n)) as H'. rewrite decide_False in H' by done.
    rewrite fires_nil_iff in H'. by apply (H' n).
Qed.

Lemma clear_due_rel T P :
  wheel_rel T P ->
  wheel_rel (slot_put T (Near (Z.to_nat (time T mod 2^8))) [])
            (filter (fun n => expire n <> time T) P).
Proof.
  intros R. destruct (R) as [W Hs Hd]. set (s0 := Near _).
  assert (Hp : place (time T) (time T) = s0) by (unfold place; by rewrite Z.eqb_refl).
  assert (Hv : slot_valid s0) by (rewrite <- Hp; apply place_valid).
  split; [by apply slot_put_wf| |]; rewrite slot_put_time.
  - intros s e. rewrite slot_get_put by done.
    destruct (decide (s0 = s)) as [<-|Hne].
    + destruct (decide (place (time T) e = s0)) as [E|]; [|done].
      destruct (decide (e = time T)) as [->|Hne].
      { symmetry. apply fires_filter_drop. auto. }
      rewrite fires_filter_keep by congruence.
      (* only the current tick lives in the current list *)
      pose proof (Hs s0 e) as H. rewrite decide_True in H by done. rewrite <- H.
      pose proof (due_slot T P R) as Hds. fold s0 in Hds. rewrite Hds. symmetry.
      apply fires_nil_iff. intros n [? _]%list_elem_of_filter. congruence.
    + rewrite Hs. destruct (decide (place (time T) e = s)) as [E|]; [|done].
      rewrite fires_filter_keep; [done|]. intros n <- En. rewrite En in E. congruence.
  - intros n [_ Hn]%list_elem_of_filter. by apply Hd.
Qed.

(** Requests that arrive now are due later. *)
Lemma add_not_due now P rs :
  is_u32 now -> Forall valid_request rs -> fires now P = [] ->
  fires now (foldl (add now) P rs) = [].
Proof.
  intros Hn. revert P. induction rs as [|r rs IH]; intros P Hv HP; [done|].
  apply Forall_cons in Hv as [H1 Hv]. cbn. apply IH; [done|].
  unfold add. rewrite fires_app, HP, fires_one. rewrite decide_False; [done|].
  cbn. intros E. unfold valid_request, u32, is_u32 in *.
  destruct (Z.lt_ge_cases (r.2 + now) (2^32)).
  - rewrite Z.mod_small in E; lia.
  - rewrite <- (Z_mod_plus_full _ (-1)), Z.mod_small in E; lia.
Qed.

Lemma timer_execute_rel T P others :
  wheel_rel T P -> Forall (Forall valid_request) others ->
  let '(out, P') := execute others (time T) P in
  exists T', timer_execute execute_fuel others T = Ok (out, T') /\ wheel_rel T' P' /\
    time T' = time T /\ clock T' = clock T /\ fires (time T) P' = [].
Proof.
  intros R Hv. destruct (wr_wf _ _ R) as [_ _ _ Hu].
  unfold execute_fuel. cbn [timer_execute].
  change TIME_NEAR_MASK with (2^8 - 1). rewrite land_mask by lia.
  assert (Hr : forall x, 0 <= x mod 2^8 < 256) by (intros; apply (Z.mod_pos_bound x 256); lia).
  destruct (near_cell T (time T mod 2^8) [] (wr_wf _ _ R) (Hr _)) as (-> & nr & E & Ep).
  rewrite bind_ret, (due_slot T P R). unfold execute.
  destruct (fires (time T) P) as [|n due] eqn:Ef.
  { by exists T. }
  unfold link_clear. rewrite E, bind_ret, Ep.
  destruct (add_all_rel (default [] (head others)) _ _ (clear_due_rel T P R))
    as (T1 & -> & R1 & Ht & Hc).
  { destruct others as [|o os]; [done|]. by apply Forall_cons in Hv as [? _]. }
  rewrite bind_ret, slot_put_time, slot_put_clock in *.
  set (P1 := foldl _ _ _) in *.
  assert (Hnone : fires (time T) P1 = []).
  { apply add_not_due; [done| |].
    - destruct others as [|o os]; [done|]. by apply Forall_cons in Hv as [? _].
    - apply fires_nil_iff. by intros x [? _]%list_elem_of_filter. }
  rewrite land_mask by lia.
  destruct (near_cell T1 (time T1 mod 2^8) [] (wr_wf _ _ R1) (Hr _)) as (-> & _).
  rewrite bind_ret, (due_slot T1 P1 R1), Ht, Hnone. cbn [bind_ret].
  exists T1. rewrite bind_ret, app_nil_r. done.
Qed.

Lemma timer_shift_rel T P :
  wheel_rel T P -> fires (time T) P = [] ->
  exists T', timer_shift T = Ok T' /\ wheel_rel T' P /\
    time T' = u32 (time T + 1) /\ clock T' = clock T.
Proof.
  intros [W Hs Hd] Hnow. set (ct := u32 (time T + 1)).
  assert (Hlater : forall n, n ∈ P -> due_later (time T) (expire n)).
  { intros n Hn. destruct (Hd n Hn) as [Hu Hlt]. split; [done|]. split; [|done].
    rewrite fires_nil_iff in Hnow. specialize (Hnow n Hn).
    pose proof (wf_time _ W). unfold is_u32, u32 in *.
    destruct (Z.eq_dec ((expire n - time T) mod 2^32) 0) as [E|];
      [|pose proof (Z.mod_pos_bound (expire n - time T) (2^32)); lia].
    apply Z.mod_divide in E as [q Hq]; [|lia]. nia. }
  assert (Hd' : forall n, n ∈ P -> is_u32 (expire n) /\ u32 (expire n - ct) < 2^31).
  { intros n Hn. split; [by apply Hd|]. destruct (Hlater n Hn) as [_ H].
    unfold ct, u32 in *. rewrite Zminus_mod_idemp_r.
    replace (expire n - (time T + 1)) with ((expire n - time T) - 1) by lia.
    rewrite <- Zminus_mod_idemp_l, Z.mod_small; lia. }
  assert (W1 : wheel_wf (set_time ct T)) by (destruct W; split; try done; apply u32_range).
  assert (Hmove : forall e, fires e P <> [] -> cascade ct <> Some (place (time T) e) ->
    place ct e = place (time T) e).
  { intros e He. apply place_tick; [apply W|].
    destruct (fires e P) as [|n r] eqn:E; [done|].
    assert (n ∈ fires e P) as [<- Hn]%list_elem_of_filter by (rewrite E; set_solver). auto. }
  rewrite timer_shift_cascade by apply W. fold ct.
  destruct (cascade ct) as [[j|i j]|] eqn:Ec.
  - exfalso. unfold cascade in Ec. repeat case_match; done.
  - assert (Hij : 0 <= Z.of_nat i < 4 /\ 0 <= Z.of_nat j < 64).
    { unfold cascade in Ec.
      assert (Hm : forall x, Z.of_nat (Z.to_nat (x mod 2^6)) < 64)
        by (intros x; pose proof (Z.mod_pos_bound x (2^6)); lia).
      repeat case_match; simplify_eq; split; try lia; split; try lia; apply Hm. }
    destruct (move_list_spec (set_time ct T) (Z.of_nat i) (Z.of_nat j) W1)
      as (T' & -> & W' & Ht & Hc & Hs'); [lia..|].
    rewrite !Nat2Z.id in Hs'. exists T'. split_and!; try done.
    split; [done| |by rewrite Ht]. intros s e. rewrite Hs', fires_app, Ht.
    cbn [time set_time]. set (s0 := Level i j) in *.
    assert (Hg : forall s, slot_get (set_time ct T) s = slot_get T s) by by intros [].
    rewrite !Hg.
    assert (fires e (filter (fun n => place ct (expire n) = s) (slot_get T s0))
      = if decide (place ct e = s) then fires e (slot_get T s0) else []) as ->.
    { destruct (decide (place ct e = s)) as [E|E].
      - apply fires_filter_keep. by intros n ->.
      - apply fires_filter_drop. by intros n ->. }
    rewrite Hs. destruct (decide (fires e P = [])) as [E0|E0].
    { rewrite E0. repeat case_decide; rewrite ?Hs, ?E0; by repeat case_decide. }
    specialize (Hmove e E0).
    destruct (decide (s0 = s)) as [<-|Hss].
    + cbn. destruct (decide (place (time T) e = s0)); [done|].
      rewrite Hmove by congruence. by destruct (decide _).
    + rewrite Hs. destruct (decide (place (time T) e = s0)) as [E1|E1].
      * rewrite decide_False by congruence. done.
      * rewrite Hmove by congruence. destruct (decide _); by rewrite ?app_nil_r.
  - exists (set_time ct T). split_and!; try done. split; [done| |done].
    intros s e. cbn [time set_time].
    replace (slot_get (set_time ct T) s) with (slot_get T s) by by destruct s.
    rewrite Hs. destruct (decide (fires e P = [])) as [E0|E0].
    { rewrite E0. by repeat case_decide. }
    by rewrite (Hmove e E0).
Qed.

Lemma timer_update_rel T P before after :
  wheel_rel T P ->
  Forall (Forall valid_request) before -> Forall (Forall valid_request) after ->
  let '(out, P') := update (time T) P before after in
  exists T', timer_update T before after = Ok (out, T') /\ wheel_rel T' P' /\
    time T' = u32 (time T + 1) /\ clock T' = clock T /\ fires (time T') P' = [].
Proof.
  intros R Hb Ha. unfold update, timer_update.
  pose proof (timer_execute_rel T P before R Hb) as H.
  destruct (execute before (time T) P) as [out1 P1].
  destruct H as (T1 & -> & R1 & Ht1 & Hc1 & Hn1). rewrite bind_ret, <- Ht1 in *.
  destruct (timer_shift_rel T1 P1 R1 Hn1) as (T2 & -> & R2 & Ht2 & Hc2). rewrite bind_ret.
  pose proof (timer_execute_rel T2 P1 after R2 Ha) as H. rewrite Ht2 in H.
  destruct (execute after (u32 (time T1 + 1)) P1) as [out2 P2].
  destruct H as (T3 & -> & R3 & Ht3 & Hc3 & Hn3). rewrite bind_ret.
  exists T3. rewrite Ht3. split_and!; try done. congruence.
Qed.

(** ** Sequences of calls *)

Inductive call :=
  | CallAdd (r : request)
  | CallUpdate (before after : list (list request)).

Definition valid_call (c : call) : Prop :=
  match c with
  | CallAdd r => valid_request r
  | CallUpdate b a => Forall (Forall valid_request) b /\ Forall (Forall valid_request) a
  end.

(** What each update dispatched, in order. *)
Fixpoint wheel_run (T : timer) (calls : list call)
    : outcome (list (list (Z * skynet_message)) * timer) :=
  match calls with
  | [] => Ok ([], T)
  | CallAdd r :: calls => T ← timer_add T r.1 r.2; wheel_run T calls
  | CallUpdate b a :: calls =>
      '(out, T) ← timer_update T b a;
      '(outs, T) ← wheel_run T calls;
      Ok (out :: outs, T)
  end.

Fixpoint list_run (now : Z) (P : list timer_node) (calls : list call)
    : list (list (Z * skynet_message)) * list timer_node :=
  match calls with
  | [] => ([], P)
  | CallAdd r :: calls => list_run now (Spec.add now P r) calls
  | CallUpdate b a :: calls =>
      let '(out, P) := Spec.update now P b a in
      let '(outs, P) := list_run (u32 (now + 1)) P calls in
      (out :: outs, P)
  end.

Lemma wheel_run_rel calls : forall T P,
  wheel_rel T P -> Forall valid_call calls ->
  exists T', wheel_run T calls = Ok ((list_run (time T) P calls).1, T') /\
    wheel_rel T' (list_run (time T) P calls).2.
Proof.
  induction calls as [|[r|b a] calls IH]; intros T P R Hv; cbn [wheel_run list_run].
  - by exists T.
  - apply Forall_cons in Hv as [H1 Hv].
    destruct (timer_add_rel T P r R H1) as (T1 & -> & R1 & Ht & _).
    rewrite bind_ret, <- Ht in *. by apply IH.
  - apply Forall_cons in Hv as [[Hb Ha] Hv].
    pose proof (timer_update_rel T P b a R Hb Ha) as H.
    destruct (update (time T) P b a) as [out P1].
    destruct H as (T1 & -> & R1 & Ht & _). rewrite bind_ret, <- Ht.
    destruct (IH T1 P1 R1 Hv) as (T2 & -> & R2). rewrite bind_ret.
    destruct (list_run (time T1) P1 calls). by exists T2.
Qed.

(** Undisturbed updates: the k-th dispatches what is due k ticks from now. *)
Lemma list_run_updates n : forall now P,
  is_u32 now -> fires now P = [] -> Z.of_nat n < 2^32 ->
  length (list_run now P (replicate n (CallUpdate [] []))).1 = n /\
  forall k out, (list_run now P (replicate n (CallUpdate [] []))).1 !! k = Some out ->
    out = dispatch_list (fires (u32 (now + Z.of_nat k + 1)) P).
Proof.
  induction n as [|n IH]; intros now P Hu Hnow Hn; cbn [replicate list_run]; [done|].
  unfold update, execute at 1 3. rewrite Hnow.
  set (now' := u32 (now + 1)).
  assert (exists P', execute [] now' P = (dispatch_list (fires now' P), P') /\
    forall e, fires e P' = if decide (e = now') then [] else fires e P) as (P' & Ex & HP').
  { unfold execute. destruct (fires now' P) as [|x due] eqn:E.
    - exists P. split; [done|]. intros e. by destruct (decide (e = now')) as [->|].
    - eexists. split; [done|]. intros e. cbn. destruct (decide (e = now')) as [->|].
      + apply fires_filter_drop. auto.
      + apply fires_filter_keep. congruence. }
  rewrite Ex. specialize (IH now' P' (u32_range _)).
  destruct IH as [Hl Ho]; [by rewrite HP', decide_True|lia|].
  destruct (list_run now' P' _) as [outs P2]. cbn [fst length] in *.
  split; [by rewrite Hl|]. intros [|k] out Hk.
  - injection Hk as <-. subst now'. by rewrite Z.add_0_r.
  - apply Ho in Hk as Hk'. rewrite HP', decide_False in Hk'.
    + rewrite Hk'. do 2 f_equal. unfold now', u32.
      rewrite <- Z.add_assoc, Zplus_mod_idemp_l. f_equal. lia.
    + pose proof (lookup_lt_Some _ _ _ Hk) as Hlt. cbn in Hlt. unfold now', u32.
      rewrite <- Z.add_assoc, Zplus_mod_idemp_l. intros Eq.
      apply (f_equal (fun z => (z - (now + 1)) mod 2^32)) in Eq.
      rewrite !Zminus_mod_idemp_l, Z.sub_diag in Eq.
      replace (now + 1 + (Z.of_nat k + 1) - (now + 1)) with (Z.of_nat k + 1) in Eq by lia.
      rewrite Z.mod_small, Z.mod_0_l in Eq; lia.
Qed.

(** The wheel a node starts with, at any tick count. *)
Lemma empty_rel T :
  near T = near timer_create_timer -> t T = t timer_create_timer -> is_u32 (time T) ->
  wheel_rel T [].
Proof.
  intros Hn Ht Hu. destruct create_rel as [[W1 W2 W3 _] Hs _].
  assert (Hg : forall s, slot_get T s = slot_get timer_create_timer s)
    by (intros [j|i j]; unfold slot_get; by rewrite ?Hn, ?Ht).
  split.
  - split; [by rewrite Hn|by rewrite Ht|rewrite Ht; exact W3|done].
  - intros s e. rewrite Hg, Hs. by repeat case_decide.
  - by intros n ?%elem_of_nil.
Qed.

Lemma init_rel sec cs now : wheel_rel (skynet_timer_init sec cs now) [].
Proof. by apply empty_rel. Qed.

(** ** Properties *)

(** C4.  The hierarchical wheel refines the list of pending timers: for every
    sequence of [timer_add] and [timer_update] calls, with any calls of other
    threads while [timer_execute] has let go of the lock, the wheel runs without
    a fault and every update dispatches exactly what the list timer dispatches,
    in the same order, also across the wrap-around of the 32-bit tick count. *)
Theorem wheel_refines_list sec cs now calls :
  Forall valid_call calls ->
  exists T', wheel_run (skynet_timer_init sec cs now) calls = Ok ((list_run 0 [] calls).1, T') /\
    wheel_rel T' (list_run 0 [] calls).2.
Proof. apply (wheel_run_rel calls (skynet_timer_init sec cs now) []), init_rel. Qed.

(** Timers one tick, one block and one level away, one asked for by another
    thread while the first is dispatched; the update count crosses two blocks. *)
Definition sample_calls : list call :=
  CallAdd (Event 1 10, 1) :: CallAdd (Event 2 20, 300) :: CallAdd (Event 3 30, 600)
  :: CallAdd (Event 4 40, 300)
  :: CallUpdate [] [[(Event 5 50, 299)]] :: replicate 599 (CallUpdate [] []).

Lemma sample_calls_valid : Forall valid_call sample_calls.
Proof.
  unfold sample_calls.
  do 4 (apply Forall_cons_2; [unfold valid_call, valid_request; cbn [snd]; lia|]).
  apply Forall_cons_2; [|by apply Forall_replicate].
  split; repeat constructor; cbn; lia.
Qed.

Lemma wheel_refines_list_witness :
  Forall valid_call sample_calls /\
  exists T' outs, wheel_run (skynet_timer_init 0 0 0) sample_calls = Ok (outs, T') /\
    outs !! 299%nat = Some (timeout_message <$> [Event 2 20; Event 4 40; Event 5 50]) /\
    outs !! 599%nat = Some [timeout_message (Event 3 30)].
Proof.
  split; [exact sample_calls_valid|].
  destruct (wheel_refines_list 0 0 0 sample_calls sample_calls_valid) as (T' & E & _).
  exists T', (list_run 0 [] sample_calls).1. split; [exact E|].
  split; vm_compute; reflexivity.
Defined.

(** C5.  A timeout fires on time and once: if nothing is due now, an event is added
    with a delay of [n] ticks and [n + m] updates follow during which no other timer is
    added, the k-th of them dispatches what it would have dispatched anyway, followed,
    exactly when k = n, by the event: no update before the n-th and none of the [m]
    after it has it.  The run is shorter than the 2^32 ticks after which the count is
    back where it was. *)
Theorem timeout_fires_on_time T P e n m :
  wheel_rel T P -> fires (time T) P = [] -> 0 < Z.of_nat n < 2^31 -> Z.of_nat n + Z.of_nat m < 2^32 ->
  exists outs T',
    wheel_run T (CallAdd (e, Z.of_nat n) :: replicate (n + m) (CallUpdate [] [])) = Ok (outs, T') /\
    length outs = (n + m)%nat /\
    forall k out, outs !! k = Some out ->
      out = dispatch_list (fires (u32 (time T + Z.of_nat k + 1)) P)
            ++ (if decide (S k = n) then [timeout_message e] else []).
Proof.
  intros R Hnow Hn Hm. pose proof (wf_time _ (wr_wf _ _ R)) as Hu.
  destruct (wheel_run_rel (CallAdd (e, Z.of_nat n) :: replicate (n + m) (CallUpdate [] [])) T P R)
    as (T' & E & _).
  { constructor; [done|]. apply Forall_replicate. done. }
  cbn [list_run] in E. eexists _, T'. split; [exact E|].
  destruct (list_run_updates (n + m) (time T) (Spec.add (time T) P (e, Z.of_nat n))) as [Hl Ho];
    [done| |lia|].
  { apply (add_not_due _ P [(e, Z.of_nat n)]); [done|by constructor|done]. }
  split; [done|]. intros k out Hk. pose proof (lookup_lt_Some _ _ _ Hk) as Hlt.
  rewrite Hl in Hlt. apply Ho in Hk. rewrite Hk. unfold Spec.add. rewrite fires_app, fires_one.
  cbn [expire fst snd]. unfold dispatch_list. rewrite fmap_app. f_equal.
  destruct (decide (S k = n)) as [<-|Hne].
  - rewrite decide_True; [done|]. f_equal. lia.
  - rewrite decide_False; [done|]. unfold u32. intros Eq.
    apply (f_equal (fun z => (z - time T) mod 2^32)) in Eq.
    rewrite !Zminus_mod_idemp_l in Eq.
    replace (Z.of_nat n + time T - time T) with (Z.of_nat n) in Eq by lia.
    replace (time T + Z.of_nat k + 1 - time T) with (Z.of_nat k + 1) in Eq by lia.
    rewrite !Z.mod_small in Eq; lia.
Qed.

(** A delay of ten ticks starting three before the tick count wraps, and three
    hundred more updates. *)
Lemma timeout_fires_on_time_witness :
  exists outs T',
    wheel_run (set_time (2^32 - 3) timer_create_timer)
      (CallAdd (Event 7 77, 10) :: replicate 310 (CallUpdate [] [])) = Ok (outs, T') /\
    outs !! 8%nat = Some [] /\ outs !! 9%nat = Some [timeout_message (Event 7 77)] /\ outs !! 10%nat = Some [] /\
    outs !! 265%nat = Some [].
Proof.
  destruct (timeout_fires_on_time (set_time (2^32 - 3) timer_create_timer) [] (Event 7 77) 10 300)
    as (outs & T' & E & Hl & H).
  - by apply empty_rel.
  - done.
  - lia.
  - lia.
  - exists outs, T'. split; [exact E|].
    assert (Hk : forall k, (k < 310)%nat -> outs !! k = Some (dispatch_list (fires (u32 (2^32 - 3 + Z.of_nat k + 1)) []) ++ (if decide (S k = 10%nat) then [timeout_message (Event 7 77)] else []))).
    { intros k Hk. destruct (lookup_lt_is_Some_2 outs k) as [o Eo]; [rewrite Hl; exact Hk|]. rewrite Eo. f_equal. exact (H k o Eo). }
    rewrite !Hk by lia. vm_compute. repeat split.
Defined.

(** Running [n] updates in a row. *)
Lemma update_times_rel n : forall T P,
  wheel_rel T P ->
  exists out T', update_times n T = Ok (out, T') /\
    (exists P', wheel_rel T' P') /\ time T' = u32 (time T + Z.of_nat n) /\ clock T' = clock T /\
    out = concat (list_run (time T) P (replicate n (CallUpdate [] []))).1.
Proof.
  induction n as [|n IH]; intros T P R; cbn [update_times replicate list_run].
  - exists [], T. split_and!; try done; [by exists P|].
    pose proof (wf_time _ (wr_wf _ _ R)). unfold is_u32, u32 in *.
    rewrite Z.add_0_r, Z.mod_small; lia.
  - pose proof (timer_update_rel T P [] [] R) as H.
    destruct (update (time T) P [] []) as [out P1].
    destruct H as (T1 & -> & R1 & Ht & Hc & _); [done..|]. rewrite bind_ret.
    destruct (IH T1 P1 R1) as (outs & T2 & -> & R2 & Ht2 & Hc2 & Ho). rewrite bind_ret.
    exists (out ++ outs), T2. rewrite <- Ht.
    destruct (list_run (time T1) P1 _) as [rs P2]. cbn in Ho |- *.
    split_and!; try done; [|congruence|by rewrite Ho].
    rewrite Ht2, Ht. unfold u32. rewrite Zplus_mod_idemp_l. f_equal. lia.
Qed.

(** [skynet_updatetime] keeps wall time and ticks together: when the
    monotonic clock has advanced by [diff] centiseconds it runs exactly [diff]
    ticks, delivering what is due in each, and advances [skynet_now] by [diff];
    when the clock went backwards it only records the new reading. *)
Theorem updatetime_runs_elapsed_ticks T P cp :
  wheel_rel T P -> 0 <= current_point T -> 0 <= current T ->
  cp - current_point T < 2^32 -> current T + (cp - current_point T) < 2^64 ->
  exists out T', skynet_updatetime cp T = Ok (out, T') /\ current_point T' = cp /\
    (exists P', wheel_rel T' P') /\ skynet_starttime T' = skynet_starttime T /\
    if cp <? current_point T
    then out = [] /\ skynet_now T' = skynet_now T /\ time T' = time T
    else let diff := cp - current_point T in
      out = concat (list_run (time T) P (replicate (Z.to_nat diff) (CallUpdate [] []))).1 /\
      skynet_now T' = skynet_now T + diff /\ time T' = u32 (time T + diff).
Proof.
  intros R Hcp Hcur Hdiff Hbig. unfold skynet_updatetime, skynet_now, skynet_starttime.
  assert (Hset : forall a b c, wheel_rel (set_clock a b c T) P).
  { intros a b c. destruct R as [[? ? ? ?] Hs Hd]. split; [by split| |done].
    intros s e. rewrite <- Hs. by destruct s. }
  pose proof (wf_time _ (wr_wf _ _ R)) as Hu. unfold is_u32 in Hu.
  destruct (Z.ltb_spec cp (current_point T)).
  { eexists [], _. split; [done|]. split_and!; try done. by exists P. }
  assert (Hd : u32 (cp - current_point T) = cp - current_point T)
    by (apply Z.mod_small; lia).
  destruct (Z.eqb_spec cp (current_point T)) as [->|Hne]; cbn [negb].
  - eexists [], T. split; [done|]. rewrite Z.sub_diag, !Z.add_0_r. cbn.
    split_and!; try done; [by exists P|]. unfold u32. rewrite Z.mod_small; lia.
  - rewrite Hd. destruct (update_times_rel (Z.to_nat (cp - current_point T)) _ P (Hset
      (starttime T) (u64 (current T + (cp - current_point T))) cp))
      as (out & T' & -> & R' & Ht & Hc & Ho).
    exists out, T'. split; [done|]. injection Hc as H1 H2 H3. cbn in *.
    split_and!; try done.
    + rewrite H2. unfold u64. rewrite Z.mod_small; lia.
    + rewrite Ht, Z2Nat.id by lia. done.
Qed.

Lemma updatetime_witness :
  exists out T', skynet_updatetime 1005 (skynet_timer_init 5 50 1000) = Ok (out, T') /\
    skynet_now T' = 55 /\ time T' = 5.
Proof.
  destruct (updatetime_runs_elapsed_ticks (skynet_timer_init 5 50 1000) [] 1005)
    as (out & T' & E & _ & _ & _ & H).
  - apply init_rel.
  - done.
  - done.
  - done.
  - done.
  - exists out, T'. split; [exact E|]. destruct H as (_ & H1 & H2).
    split; [rewrite H1|rewrite H2]; vm_compute; reflexivity.
Defined.
