(* ===== verification/Handle.v ===== *)
(** * The handle table ([skynet-src/skynet_handle.c])

    [slot] is an open-addressed table of contexts indexed by the low bits of
    their handle, doubled when a probe finds no free slot; [name] is an array of
    names kept sorted for binary search.  [Slots] models the first, [Names] the
    second.  Each operation runs under the table's lock.

    The table stores context pointers and reads a context's handle through
    [skynet_context_handle], so the operations take that reading as an argument
    [hd : loc -> Z]. *)

From S2P Require Import Prelude Mq.
From stdpp Require Import base numbers list gmap sorting.
From Stdlib Require Import ZArith Lia.
#[local] Open Scope Z_scope.

Definition DEFAULT_SLOT_SIZE : Z := 4.
Definition MAX_SLOT_SIZE : Z := 0x40000000.
Definition HANDLE_MASK : Z := 0xffffff.
Definition HANDLE_REMOTE_SHIFT : Z := 24.

(** A C string: its bytes, without the terminator. *)
Abbreviation cstr := (list Z).

Fixpoint strcmp (a b : cstr) : Z :=
  match a, b with
  | [], [] => 0
  | [], _ :: _ => -1
  | _ :: _, [] => 1
  | x :: a, y :: b => if x <? y then -1 else if y <? x then 1 else strcmp a b
  end.

Record handle_name := HN { hn_name : cstr; hn_handle : Z }.

Record handle_storage := HS {
  harbor : Z;
  handle_index : Z;
  slot_size : Z;
  slot : list (option loc);
  name_cap : Z;
  name_count : Z;
  name : list (option handle_name)   (** [None]: never written *)
}.

Definition set_slots (hi size : Z) (sl : list (option loc)) (s : handle_storage)
    : handle_storage :=
  HS (harbor s) hi size sl (name_cap s) (name_count s) (name s).
Definition set_names (cap count : Z) (n : list (option handle_name)) (s : handle_storage)
    : handle_storage :=
  HS (harbor s) (handle_index s) (slot_size s) (slot s) cap count n.

Definition skynet_handle_init (hb : Z) : handle_storage :=
  HS (u32 (Z.shiftl (Z.land hb 0xff) HANDLE_REMOTE_SHIFT)) 1 DEFAULT_SLOT_SIZE
     (replicate (Z.to_nat DEFAULT_SLOT_SIZE) None) 2 0 (replicate 2 None).

Module Slots.
Section WithHandles.
Variable hd : loc -> Z.

(** The inner [for] of [skynet_handle_register]: the first handle, from [i] on,
    whose slot is free. *)
Fixpoint probe (n : nat) (i : Z) (s : handle_storage) : outcome (option (Z * Z)) :=
  match n with
  | O => Ok None
  | S n =>
      let handle := Z.land (u32 (i + handle_index s)) HANDLE_MASK in
      let hash := Z.land handle (slot_size s - 1) in
      c ← arr_get (slot s) hash;
      match c with
      | None => Ok (Some (handle, hash))
      | Some _ => probe n (i + 1) s
      end
  end.

(** Moving the context of slot [i] to the doubled table. *)
Definition rehash (s : handle_storage) (i : Z) (new_slot : list (option loc))
    : outcome (list (option loc)) :=
  c ← arr_get (slot s) i;
  match c with
  | None => Fault NullPointer
  | Some c =>
      let hash := Z.land (hd c) (slot_size s * 2 - 1) in
      old ← arr_get new_slot hash;
      _ ← c_assert (bool_decide (old = None));
      arr_set new_slot hash (Some c)
  end.

(** The doubling of the table. *)
Definition grow (s : handle_storage) : outcome handle_storage :=
  _ ← c_assert (slot_size s * 2 - 1 <=? HANDLE_MASK);
  new_slot ← for_loop (Z.to_nat (slot_size s)) 0 (rehash s)
    (replicate (Z.to_nat (slot_size s * 2)) None);
  Ok (set_slots (handle_index s) (slot_size s * 2) new_slot s).

(** [for (;;)]: probe, else double and probe again. *)
Fixpoint register_loop (fuel : nat) (ctx : loc) (s : handle_storage)
    : outcome (Z * handle_storage) :=
  match fuel with
  | O => Fault OutOfFuel
  | S fuel =>
      r ← probe (Z.to_nat (slot_size s)) 0 s;
      match r with
      | Some (handle, hash) =>
          sl ← arr_set (slot s) hash (Some ctx);
          Ok (Z.lor handle (harbor s), set_slots (u32 (handle + 1)) (slot_size s) sl s)
      | None => s' ← grow s; register_loop fuel ctx s'
      end
  end.

(** A doubled table has free slots: two rounds are enough. *)
Definition skynet_handle_register (ctx : loc) (s : handle_storage)
    : outcome (Z * handle_storage) :=
  register_loop 2 ctx s.

(** [skynet_handle_grab] without the reference count, which [Server.v] adds. *)
Definition handle_lookup (handle : Z) (s : handle_storage) : outcome (option loc) :=
  let hash := Z.land handle (slot_size s - 1) in
  c ← arr_get (slot s) hash;
  match c with
  | Some ctx => Ok (if hd ctx =? handle then Some ctx else None)
  | None => Ok None
  end.

End WithHandles.
End Slots.

Module Names.

(** The [while (begin<=end)] shared by [skynet_handle_findname] and
    [_insert_name]: [inl h] when the name is found, [inr begin] otherwise. *)
Fixpoint search (fuel : nat) (nm : cstr) (bg en : Z) (s : handle_storage)
    : outcome (Z + Z) :=
  match fuel with
  | O => Fault OutOfFuel
  | S fuel =>
      if bg <=? en then
        sum ← c_int (bg + en);
        let mid := sum ÷ 2 in
        cell ← arr_get (name s) mid;
        n ← init_read cell;
        let c := strcmp (hn_name n) nm in
        if c =? 0 then Ok (inl (hn_handle n))
        else if c <? 0 then search fuel nm (mid + 1) en s
        else search fuel nm bg (mid - 1) s
      else Ok (inr bg)
  end.

(** Each round halves the interval, which has at most [name_count] elements. *)
Definition search_fuel (s : handle_storage) : nat := S (Z.to_nat (name_count s)).

Definition skynet_handle_findname (nm : cstr) (s : handle_storage) : outcome Z :=
  r ← search (search_fuel s) nm 0 (name_count s - 1) s;
  Ok (match r with inl h => h | inr _ => 0 end).

Definition _insert_name_before (nm : cstr) (handle before : Z) (s : handle_storage)
    : outcome handle_storage :=
  '(cap, arr) ←
    (if name_cap s <=? name_count s then
       cap ← c_int (name_cap s * 2);
       _ ← c_assert (cap <=? MAX_SLOT_SIZE);
       n ← for_loop (Z.to_nat before) 0
             (fun i n => x ← arr_get (name s) i; arr_set n i x)
             (replicate (Z.to_nat cap) None);
       n ← for_loop (Z.to_nat (name_count s - before)) before
             (fun i n => x ← arr_get (name s) i; arr_set n (i + 1) x) n;
       Ok (cap, n)
     else
       n ← for_loop (Z.to_nat (name_count s - before)) 0
             (fun k n => let i := name_count s - k in
                x ← arr_get n (i - 1); arr_set n i x) (name s);
       Ok (name_cap s, n));
  arr' ← arr_set arr before (Some (HN nm handle));
  Ok (set_names cap (name_count s + 1) arr' s).

(** [None] is the null result: the name is taken. *)
Definition _insert_name (nm : cstr) (handle : Z) (s : handle_storage)
    : outcome (option cstr * handle_storage) :=
  r ← search (search_fuel s) nm 0 (name_count s - 1) s;
  match r with
  | inl _ => Ok (None, s)
  | inr bg => s' ← _insert_name_before nm handle bg s; Ok (Some nm, s')
  end.

Definition skynet_handle_namehandle (handle : Z) (nm : cstr) (s : handle_storage)
    : outcome (option cstr * handle_storage) :=
  _insert_name nm handle s.

(** The compaction loop of [skynet_handle_retire]: the state is [j] and the array. *)
Definition drop_names (handle : Z) (s : handle_storage) : outcome handle_storage :=
  '(j, arr) ← for_loop (Z.to_nat (name_count s)) 0
    (fun i '(j, arr) =>
       cell ← arr_get arr i;
       n ← init_read cell;
       if hn_handle n =? handle then Ok (j, arr)
       else arr' ← (if negb (i =? j) then arr_set arr j (Some n) else Ok arr);
            Ok (j + 1, arr'))
    (0, name s);
  Ok (set_names (name_cap s) j arr s).

End Names.

(** The context to release, if the handle was live, and the table without it. *)
Definition skynet_handle_retire (hd : loc -> Z) (handle : Z) (s : handle_storage)
    : outcome (option loc * handle_storage) :=
  let hash := Z.land handle (slot_size s - 1) in
  c ← arr_get (slot s) hash;
  match c with
  | Some ctx =>
      if hd ctx =? handle then
        sl ← arr_set (slot s) hash None;
        s' ← Names.drop_names handle (set_slots (handle_index s) (slot_size s) sl s);
        Ok (Some ctx, s')
      else Ok (None, s)
  | None => Ok (None, s)
  end.

(** ** Correctness of the slots *)
Section SlotsCorrect.
Import Slots.

(** [holds s c]: some slot of the table points to the context [c]. *)
Definition holds (s : handle_storage) (c : loc) : Prop :=
  exists i, slot s !! i = Some (Some c).

(** The table is a power of two, every context sits in the slot its handle
    hashes to, and all handles carry the number of this node. *)
Record slots_wf (hd : loc -> Z) (s : handle_storage) : Prop := {
  sw_size : exists k, 2 <= k <= 24 /\ slot_size s = 2^k;
  sw_len : Z.of_nat (length (slot s)) = slot_size s;
  sw_index : 0 <= handle_index s <= 2^24;
  sw_harbor : exists b, 0 <= b < 2^8 /\ harbor s = b * 2^24;
  sw_cell : forall i c, slot s !! i = Some (Some c) ->
    Z.of_nat i = hd c mod slot_size s /\ harbor s <= hd c < harbor s + 2^24
}.

Lemma size_bounds hd s : slots_wf hd s -> 4 <= slot_size s <= 2^24.
Proof.
  intros [(k & Hk & ->) _ _ _ _]. split; [change 4 with (2^2)|]; apply Z.pow_le_mono_r; lia.
Qed.

Lemma land_size hd s h : slots_wf hd s -> Z.land h (slot_size s - 1) = h mod slot_size s.
Proof. intros [(k & Hk & ->) _ _ _ _]. apply land_mask. lia. Qed.

(** The table size divides the handle space. *)
Lemma mod_mask_size hd s x : slots_wf hd s -> (x mod 2^24) mod slot_size s = x mod slot_size s.
Proof.
  intros [(k & Hk & ->) _ _ _ _]. apply Z.mod_mod_divide.
  exists (2^(24 - k)). rewrite <- Z.pow_add_r by lia. f_equal. lia.
Qed.

Lemma read_slot hd s h : slots_wf hd s ->
  exists c, slot s !! Z.to_nat (h mod slot_size s) = Some c /\
            arr_get (slot s) (h mod slot_size s) = Ok c.
Proof.
  intros W. pose proof (size_bounds _ _ W). pose proof (sw_len _ _ W).
  pose proof (Z.mod_pos_bound h (slot_size s)).
  destruct (lookup_lt_is_Some_2 (slot s) (Z.to_nat (h mod slot_size s))) as [c Hc]; [lia|].
  exists c. split; [done|]. apply arr_get_ok; [lia|done].
Qed.

(** Two contexts whose handles hash alike are the same. *)
Lemma holds_inj hd s c c' : slots_wf hd s -> holds s c -> holds s c' ->
  hd c mod slot_size s = hd c' mod slot_size s -> c = c'.
Proof.
  intros W [i Hi] [j Hj] E. destruct (sw_cell _ _ W _ _ Hi) as [Ei _].
  destruct (sw_cell _ _ W _ _ Hj) as [Ej _].
  assert (i = j) as -> by lia. congruence.
Qed.

(** What a lookup finds is the context the table holds under that handle. *)
Lemma lookup_spec hd s h : slots_wf hd s ->
  exists r, handle_lookup hd h s = Ok r /\ forall c, r = Some c <-> holds s c /\ hd c = h.
Proof.
  intros W. unfold handle_lookup. rewrite (land_size hd s) by done.
  destruct (read_slot hd s h W) as (c & Hc & ->). rewrite bind_ret.
  pose proof (Z.mod_pos_bound h (slot_size s)). pose proof (size_bounds _ _ W).
  destruct c as [c|].
  - eexists. split; [done|]. intros c'. destruct (Z.eqb_spec (hd c) h) as [E|E].
    + split; [intros [= <-]; split; [by eexists|done]|].
      intros [Hh Eh]. f_equal. apply (holds_inj hd s); [done|by eexists|done|congruence].
    + split; [done|]. intros [[i Hi] Eh]. exfalso. apply E.
      destruct (sw_cell _ _ W _ _ Hi) as [Ei _]. rewrite Eh in Ei.
      replace i with (Z.to_nat (h mod slot_size s)) in Hi by lia. congruence.
  - exists None. split; [done|]. intros c'. split; [done|]. intros [[i Hi] Eh].
    destruct (sw_cell _ _ W _ _ Hi) as [Ei _]. rewrite Eh in Ei.
    replace i with (Z.to_nat (h mod slot_size s)) in Hi by lia. congruence.
Qed.

Lemma lookup_ext hd hd' s s' h : slots_wf hd s -> slots_wf hd' s' ->
  (forall c, holds s c /\ hd c = h <-> holds s' c /\ hd' c = h) ->
  handle_lookup hd h s = handle_lookup hd' h s'.
Proof.
  intros W W' H. destruct (lookup_spec hd s h W) as (r & -> & Hr).
  destruct (lookup_spec hd' s' h W') as (r' & -> & Hr'). f_equal.
  apply option_eq. intros c. by rewrite Hr, Hr'.
Qed.

(** The probe visits the residues from [i + handle_index] on. *)
Lemma probe_spec hd s n : forall i, slots_wf hd s -> 0 <= i -> i + Z.of_nat n <= slot_size s ->
  exists r, probe n i s = Ok r /\
  match r with
  | Some (h, hash) => 0 <= h < 2^24 /\ hash = h mod slot_size s /\
      slot s !! Z.to_nat hash = Some None
  | None => forall j, i <= j < i + Z.of_nat n -> exists c,
      slot s !! Z.to_nat ((j + handle_index s) mod slot_size s) = Some (Some c)
  end.
Proof.
  induction n as [|n IH]; intros i W Hi Hn; cbn [probe].
  { exists None. split; [done|]. intros; lia. }
  pose proof (size_bounds _ _ W). pose proof (sw_index _ _ W).
  change HANDLE_MASK with (2^24 - 1). rewrite land_mask, (land_size hd s) by (done || lia).
  assert (u32 (i + handle_index s) = i + handle_index s) as -> by (apply Z.mod_small; lia).
  destruct (read_slot hd s ((i + handle_index s) mod 2^24) W) as (c & Hc & ->).
  rewrite bind_ret. destruct c as [c|].
  - destruct (IH (i + 1) W) as (r & -> & Hr); [lia..|]. exists r. split; [done|].
    destruct r as [[h hash]|]; [done|]. intros j Hj.
    destruct (Z.eq_dec j i) as [->|]; [|apply Hr; lia].
    exists c. by rewrite (mod_mask_size hd s) in Hc.
  - eexists. split; [done|]. cbn. split; [apply Z.mod_pos_bound; lia|done].
Qed.

(** A probe of the whole table fails only when it is full. *)
Lemma probe_full hd s : slots_wf hd s ->
  probe (Z.to_nat (slot_size s)) 0 s = Ok None -> forall i, slot s !! i <> Some None.
Proof.
  intros W Hp i Hi. pose proof (size_bounds _ _ W). pose proof (sw_len _ _ W).
  destruct (probe_spec hd s (Z.to_nat (slot_size s)) 0 W) as (r & E & Hr); [lia..|].
  rewrite Hp in E. injection E as <-.
  pose proof (lookup_lt_Some _ _ _ Hi).
  pose proof (Z.mod_pos_bound (Z.of_nat i - handle_index s) (slot_size s)).
  destruct (Hr ((Z.of_nat i - handle_index s) mod slot_size s)) as [c Hc]; [lia|].
  rewrite Zplus_mod_idemp_l, Z.sub_add, Z.mod_small, Nat2Z.id in Hc by lia. congruence.
Qed.

(** The state of the copy loop of [grow] after [i] slots. *)
Definition copied (hd : loc -> Z) (s : handle_storage) (i : Z) (new : list (option loc)) : Prop :=
  Z.of_nat (length new) = slot_size s * 2 /\
  (forall j c, Z.of_nat j < i -> slot s !! j = Some (Some c) ->
     new !! Z.to_nat (hd c mod (slot_size s * 2)) = Some (Some c)) /\
  (forall m c, new !! m = Some (Some c) ->
     Z.of_nat m = hd c mod (slot_size s * 2) /\
     exists j, Z.of_nat j < i /\ slot s !! j = Some (Some c)).

Lemma mod_double x n : 0 < n -> (x mod (n * 2)) mod n = x mod n.
Proof. intros. apply Z.mod_mod_divide. exists 2. lia. Qed.

Lemma grow_step hd s i new :
  slots_wf hd s -> slot_size s < 2^24 -> 0 <= i < slot_size s -> copied hd s i new ->
  (forall k, slot s !! k <> Some None) ->
  exists new', rehash hd s i new = Ok new' /\ copied hd s (i + 1) new'.
Proof.
  intros W Hmax Hi (Hlen & Hcp & Hsrc) Hfull. unfold rehash. pose proof (size_bounds _ _ W) as Hb.
  pose proof (sw_len _ _ W) as Hl.
  destruct (lookup_lt_is_Some_2 (slot s) (Z.to_nat i)) as [[c|] Hc]; [lia| |by apply Hfull in Hc].
  rewrite (arr_get_ok _ _ _ (proj1 Hi) Hc), bind_ret.
  assert (Hland : Z.land (hd c) (slot_size s * 2 - 1) = hd c mod (slot_size s * 2)).
  { destruct (sw_size _ _ W) as (k & Hk & ->).
    replace (2^k * 2) with (2^(k+1)) by (rewrite Z.pow_add_r; lia). apply land_mask. lia. }
  cbv zeta. rewrite Hland. clear Hland.
  pose proof (Z.mod_pos_bound (hd c) (slot_size s * 2)) as Hr.
  destruct (lookup_lt_is_Some_2 new (Z.to_nat (hd c mod (slot_size s * 2)))) as [o Ho]; [lia|].
  rewrite (arr_get_ok _ _ _ (proj1 (Hr ltac:(lia))) Ho), bind_ret.
  assert (o = None) as ->.
  { destruct o as [c'|]; [|done]. exfalso. destruct (Hsrc _ _ Ho) as (Hm & j & Hj & Hjc).
    assert (c = c') as <-.
    { apply (holds_inj hd s); [done|by eexists|by eexists|].
      rewrite <- (mod_double (hd c)), <- (mod_double (hd c')) by lia. f_equal. lia. }
    destruct (sw_cell _ _ W _ _ Hjc) as [E1 _]. destruct (sw_cell _ _ W _ _ Hc) as [E2 _]. lia. }
  rewrite bool_decide_true by done. cbn [c_assert]. rewrite bind_ret.
  rewrite arr_set_ok by lia. eexists. split; [done|]. split; [by rewrite length_insert|]. split.
  - intros j x Hj Hx. destruct (decide (j = Z.to_nat i)) as [->|].
    + assert (x = c) as -> by congruence. apply list_lookup_insert_eq. lia.
    + assert (Hold := Hcp j x ltac:(lia) Hx). rewrite list_lookup_insert_ne; [done|].
      intros E. rewrite E in Ho. congruence.
  - intros m x. destruct (decide (m = Z.to_nat (hd c mod (slot_size s * 2)))) as [->|].
    + rewrite list_lookup_insert_eq by lia. intros [= <-]. split; [lia|].
      exists (Z.to_nat i). split; [lia|done].
    + rewrite list_lookup_insert_ne by done. intros Hm.
      destruct (Hsrc m x Hm) as (? & j & ? & ?). split; [done|]. exists j. split; [lia|done].
Qed.

(** Doubling a full table keeps its contexts and frees a slot. *)
Lemma grow_spec hd s :
  slots_wf hd s -> slot_size s < 2^24 -> (forall i, slot s !! i <> Some None) ->
  exists s', grow hd s = Ok s' /\ slots_wf hd s' /\ harbor s' = harbor s /\
    (forall c, holds s' c <-> holds s c) /\ (exists i, slot s' !! i = Some None) /\
    name_cap s' = name_cap s /\ name_count s' = name_count s /\ name s' = name s.
Proof.
  intros W Hmax Hfull. pose proof (size_bounds _ _ W) as Hb. pose proof (sw_len _ _ W) as Hl.
  destruct (sw_size _ _ W) as (k & Hk & Ek).
  assert (Hk24 : k < 24) by (destruct (Z.eq_dec k 24) as [->|]; lia).
  assert (Hsz : slot_size s * 2 = 2^(k+1)) by (rewrite Z.pow_add_r; lia).
  assert (Hle : slot_size s * 2 <= 2^24) by (rewrite Hsz; apply Z.pow_le_mono_r; lia).
  unfold grow. change HANDLE_MASK with (2^24 - 1).
  destruct (Z.leb_spec (slot_size s * 2 - 1) (2^24 - 1)); [|lia]. cbn [c_assert].
  rewrite bind_ret.
  destruct (for_loop_inv (copied hd s) (rehash hd s) (Z.to_nat (slot_size s)) 0
    (replicate (Z.to_nat (slot_size s * 2)) None))
    as (new & -> & Hlen & Hcp & Hsrc).
  { split; [rewrite length_replicate; lia|]. split; [intros; lia|].
    by intros m c [? _]%lookup_replicate. }
  { intros j x Hj Hc. apply grow_step; [done|done|lia|done|done]. }
  rewrite bind_ret. eexists. split; [done|].
  assert (Hholds : forall c, (exists i, new !! i = Some (Some c)) <-> holds s c).
  { intros c. split.
    - intros [i Hi]. destruct (Hsrc i c Hi) as (_ & j & _ & Hj). by exists j.
    - intros [j Hj]. eexists. eapply Hcp; [|done].
      pose proof (lookup_lt_Some _ _ _ Hj). lia. }
  split; [|split; [done|split; [exact Hholds|split; [|done]]]].
  - split; cbn.
    + exists (k + 1). split; [lia|done].
    + done.
    + apply W.
    + apply W.
    + intros i c Hi. destruct (Hsrc i c Hi) as (Hm & j & _ & Hj). split; [done|].
      by apply (sw_cell _ _ W j).
  - (* the first slot splits in two, and its context is in only one of them *)
    cbn. destruct (lookup_lt_is_Some_2 new 0%nat) as [[c|] H0]; [lia| |by exists 0%nat].
    destruct (lookup_lt_is_Some_2 new (Z.to_nat (slot_size s))) as [[c'|] H1]; [lia| |by eexists].
    exfalso. destruct (Hsrc _ _ H0) as (E0 & _). destruct (Hsrc _ _ H1) as (E1 & _).
    assert (c = c') as <-; [|lia].
    apply (holds_inj hd s); [done|apply Hholds; by eexists|apply Hholds; by eexists|].
    rewrite <- (mod_double (hd c)), <- (mod_double (hd c')) by lia.
    rewrite <- E0, <- E1, Z2Nat.id, Z_mod_same_full by lia. apply Z.mod_0_l. lia.
Qed.

(** Reading handles after [ctx->handle = h]. *)
Definition assign (hd : loc -> Z) (ctx : loc) (h : Z) : loc -> Z :=
  fun c => if decide (c = ctx) then h else hd c.

Lemma register_free hd s ctx fuel :
  slots_wf hd s -> ~ holds s ctx -> (exists i, slot s !! i = Some None) ->
  exists h s', register_loop hd (S fuel) ctx s = Ok (h, s') /\
    slots_wf (assign hd ctx h) s' /\ (forall c, holds s' c <-> c = ctx \/ holds s c) /\
    (forall c, holds s c -> hd c <> h) /\ harbor s <= h < harbor s + 2^24 /\
    name_cap s' = name_cap s /\ name_count s' = name_count s /\ name s' = name s.
Proof.
  intros W Hctx [i0 Hi0]. pose proof (size_bounds _ _ W) as Hb. pose proof (sw_len _ _ W) as Hl.
  cbn [register_loop].
  destruct (probe_spec hd s (Z.to_nat (slot_size s)) 0 W) as (r & Ep & Hr); [lia..|].
  destruct r as [[h hash]|]; [|by destruct (probe_full hd s W Ep i0)].
  rewrite Ep, bind_ret. destruct Hr as (Hh & -> & Hfree).
  pose proof (Z.mod_pos_bound h (slot_size s)) as Hm.
  rewrite arr_set_ok by lia. rewrite bind_ret. destruct (sw_harbor _ _ W) as (b & Hbr & Eb).
  rewrite Eb, lor_disjoint, <- Eb by lia.
  eexists _, _. split; [done|].
  assert (Hmod : (h + harbor s) mod slot_size s = h mod slot_size s).
  { rewrite <- (mod_mask_size hd s (h + harbor s)), Eb, Z_mod_plus_full by done.
    by apply (mod_mask_size hd s). }
  assert (Hnew : forall j c, <[Z.to_nat (h mod slot_size s) := Some ctx]> (slot s) !! j = Some (Some c) <->
    (c = ctx /\ j = Z.to_nat (h mod slot_size s)) \/ slot s !! j = Some (Some c)).
  { intros j c. destruct (decide (j = Z.to_nat (h mod slot_size s))) as [->|].
    - rewrite list_lookup_insert_eq by lia. rewrite Hfree. naive_solver.
    - rewrite list_lookup_insert_ne by done. naive_solver. }
  assert (Hne : forall j c, slot s !! j = Some (Some c) -> c <> ctx).
  { intros j c Hj ->. apply Hctx. by exists j. }
  split_and!; try done.
  - split; cbn [slot_size slot handle_index harbor set_slots]; try apply W.
    + by rewrite length_insert.
    + unfold u32. rewrite Z.mod_small; lia.
    + intros j c [[-> ->]|Hj]%Hnew; unfold assign.
      * rewrite decide_True by done. split; lia.
      * rewrite decide_False by eauto. by apply (sw_cell _ _ W).
  - intros c. unfold holds; cbn. setoid_rewrite Hnew. naive_solver.
  - intros c [j Hj] E. destruct (sw_cell _ _ W _ _ Hj) as [Ej _].
    rewrite E, Hmod in Ej. replace j with (Z.to_nat (h mod slot_size s)) in Hj by lia. congruence.
  - lia.
  - lia.
Qed.

Lemma register_spec hd s ctx :
  slots_wf hd s -> ~ holds s ctx ->
  slot_size s < 2^24 \/ (exists i, slot s !! i = Some None) ->
  exists h s', skynet_handle_register hd ctx s = Ok (h, s') /\
    slots_wf (assign hd ctx h) s' /\ (forall c, holds s' c <-> c = ctx \/ holds s c) /\
    (forall c, holds s c -> hd c <> h) /\ harbor s <= h < harbor s + 2^24 /\
    name_cap s' = name_cap s /\ name_count s' = name_count s /\ name s' = name s.
Proof.
  intros W Hctx Hroom. unfold skynet_handle_register.
  destruct (probe_spec hd s (Z.to_nat (slot_size s)) 0 W) as (r & Ep & Hr);
    [lia|pose proof (size_bounds _ _ W); lia|].
  destruct r as [[h hash]|].
  { apply register_free; [done|done|]. eexists. apply Hr. }
  pose proof (probe_full hd s W Ep) as Hfull.
  destruct Hroom as [Hroom|[i Hi]]; [|by destruct (Hfull i)].
  destruct (grow_spec hd s W Hroom Hfull) as (s1 & Eg & W1 & Hh & Hho & Hfree & Hn).
  remember 1%nat as n1 eqn:En. cbn [register_loop]. rewrite Ep, bind_ret, Eg, bind_ret, En.
  destruct (register_free hd s1 ctx 0 W1) as (h & s2 & E2 & W2 & Hho2 & Hfr & Hr2 & Hn2);
    [by rewrite Hho|done|].
  exists h, s2. rewrite Hh in Hr2. split; [done|]. split; [done|].
  split; [intros c; by rewrite Hho2, Hho|].
  split; [intros c Hc; by apply Hfr, Hho|]. split; [done|].
  destruct Hn as (? & ? & ?), Hn2 as (? & ? & ?). split_and!; congruence.
Qed.

(** ** Properties of the slots *)

(** C6.  Registering a context gives it a handle no live context has, with this
    node's number in its high bits, under which it is found from then on (once
    the caller has stored it); every other handle resolves as before, also when
    the table had to double. *)
Theorem register_then_grab hd s ctx :
  slots_wf hd s -> ~ holds s ctx ->
  slot_size s < 2^24 \/ (exists i, slot s !! i = Some None) ->
  exists h s', skynet_handle_register hd ctx s = Ok (h, s') /\
    let hd' := assign hd ctx h in
    slots_wf hd' s' /\ Z.land h (Z.lnot HANDLE_MASK) = harbor s /\
    handle_lookup hd h s = Ok None /\
    handle_lookup hd' h s' = Ok (Some ctx) /\
    forall h', h' <> h -> handle_lookup hd' h' s' = handle_lookup hd h' s.
Proof.
  intros W Hctx Hroom.
  destruct (register_spec hd s ctx W Hctx Hroom) as (h & s' & E & W' & Hho & Hfr & Hr & _).
  exists h, s'. split; [done|]. cbv zeta. split; [done|].
  assert (Ha : forall c, holds s c -> assign hd ctx h c = hd c).
  { intros c Hc. unfold assign. rewrite decide_False; [done|]. by intros ->. }
  assert (Hctx' : assign hd ctx h ctx = h) by (unfold assign; by rewrite decide_True).
  split_and!.
  - destruct (sw_harbor _ _ W) as (b & Hb & Eb).
    replace h with (h - harbor s + b * 2^24) by lia.
    change (Z.lnot HANDLE_MASK) with (Z.lnot (Z.ones 24)).
    rewrite <- Z.ldiff_land, Z.ldiff_ones_r by lia.
    rewrite Z.shiftl_mul_pow2, Z.shiftr_div_pow2, Z.div_add, Z.div_small by lia. lia.
  - destruct (lookup_spec hd s h W) as ([c|] & -> & Hc); [|done].
    destruct (proj1 (Hc c) eq_refl) as [Hh Eh]. by destruct (Hfr c).
  - destruct (lookup_spec _ s' h W') as (r & -> & Hc). f_equal. apply Hc.
    split; [|done]. apply Hho. by left.
  - intros h' Hne. symmetry. apply lookup_ext; [done|done|]. intros c. rewrite Hho.
    split.
    + intros [Hc E']. rewrite Ha by done. auto.
    + intros [[->|Hc] E']; [congruence|]. rewrite Ha in E' by done. auto.
Qed.
End SlotsCorrect.

(** A full table of four: the next registration doubles it. *)
Definition full_table : handle_storage :=
  HS 0 5 4 [Some 4%positive; Some 1%positive; Some 2%positive; Some 3%positive]
     2 0 [None; None].

Lemma full_table_wf : slots_wf Zpos full_table.
Proof.
  split.
  - by exists 2.
  - done.
  - cbn; lia.
  - by exists 0.
  - intros [|[|[|[|i]]]] c; cbn; intros [= <-]; done.
Qed.

Lemma register_then_grab_witness : exists h s',
  Slots.skynet_handle_register Zpos 9 full_table = Ok (h, s') /\
  Slots.handle_lookup (assign Zpos 9 h) h s' = Ok (Some 9%positive).
Proof.
  destruct (register_then_grab Zpos full_table 9) as (h & s' & E & _ & _ & _ & H & _).
  - exact full_table_wf.
  - intros [[|[|[|[|i]]]] Hi]; by cbn in Hi.
  - left. done.
  - exists h, s'. split; [exact E|exact H].
Defined.

(** ** Correctness of the names *)

Lemma strcmp_eq a : forall b, strcmp a b = 0 <-> a = b.
Proof.
  induction a as [|x a IH]; intros [|y b]; cbn; try (split; [lia|done]); [done|].
  destruct (Z.ltb_spec x y), (Z.ltb_spec y x); try (split; [lia|intros [= ? ?]; lia]).
  rewrite IH. assert (x = y) as -> by lia. naive_solver.
Qed.

Lemma strcmp_refl a : strcmp a a = 0.
Proof. by apply strcmp_eq. Qed.

Lemma strcmp_opp a : forall b, strcmp b a = - strcmp a b.
Proof.
  induction a as [|x a IH]; intros [|y b]; cbn; try done.
  destruct (Z.ltb_spec x y), (Z.ltb_spec y x); (lia || done || apply IH).
Qed.

Lemma strcmp_trans a : forall b c, strcmp a b < 0 -> strcmp b c < 0 -> strcmp a c < 0.
Proof.
  induction a as [|x a IH]; intros [|y b] [|z c]; cbn; try lia.
  destruct (Z.ltb_spec x y), (Z.ltb_spec y x), (Z.ltb_spec y z), (Z.ltb_spec z y),
    (Z.ltb_spec x z), (Z.ltb_spec z x); try lia. eauto.
Qed.

Definition before (x y : handle_name) : Prop := strcmp (hn_name x) (hn_name y) < 0.

(** [names_repr s l]: the first [name_count] cells of the array are [l], strictly
    sorted by name. *)
Record names_repr (s : handle_storage) (l : list handle_name) : Prop := {
  nr_cap : exists k, 1 <= k <= 30 /\ name_cap s = 2^k;
  nr_len : Z.of_nat (length (name s)) = name_cap s;
  nr_count : name_count s = Z.of_nat (length l);
  nr_room : name_count s <= name_cap s;
  nr_cells : forall i x, l !! i = Some x -> name s !! i = Some (Some x);
  nr_sorted : StronglySorted before l
}.

Lemma sorted_lookup {A} (R : relation A) l i j x y :
  StronglySorted R l -> (i < j)%nat -> l !! i = Some x -> l !! j = Some y -> R x y.
Proof.
  intros Hs Hij Hi Hj. rewrite <- (take_drop (S i) l) in Hs.
  apply (StronglySorted_app_1_elem_of _ _ _ x y Hs).
  - apply list_elem_of_lookup. exists i. by rewrite lookup_take_lt by lia.
  - apply list_elem_of_lookup. exists (j - S i)%nat. rewrite lookup_drop.
    by replace (S i + (j - S i))%nat with j by lia.
Qed.

Lemma sorted_filter {A} (R : relation A) (P : A -> Prop) `{!forall x, Decision (P x)} l :
  StronglySorted R l -> StronglySorted R (filter P l).
Proof.
  induction 1 as [|x l Hs IH Hf]; [constructor|]. rewrite filter_cons.
  destruct (decide (P x)); [|done]. constructor; [done|].
  rewrite Forall_forall in *. intros y [_ Hy]%list_elem_of_filter. auto.
Qed.

Lemma names_sorted s l i j x y : names_repr s l -> (i < j)%nat ->
  l !! i = Some x -> l !! j = Some y -> before x y.
Proof. intros R. apply sorted_lookup, R. Qed.

(** What the table promises: a finite map from names to handles. *)
Definition names_map (l : list handle_name) : gmap cstr Z :=
  list_to_map ((fun x => (hn_name x, hn_handle x)) <$> l).

Lemma sorted_nodup s l : names_repr s l -> NoDup (hn_name <$> l).
Proof.
  intros R. apply NoDup_alt. intros i j a Hi Hj.
  apply list_lookup_fmap_Some in Hi as (x & -> & Hx).
  apply list_lookup_fmap_Some in Hj as (y & E & Hy).
  destruct (Nat.lt_total i j) as [Hlt|[->|Hlt]]; [|done|];
    pose proof (names_sorted s l _ _ _ _ R Hlt ltac:(eassumption) ltac:(eassumption)) as Hb;
    unfold before in Hb; rewrite E, strcmp_refl in Hb; lia.
Qed.

Lemma names_map_lookup s l nm h :
  names_repr s l -> names_map l !! nm = Some h <-> HN nm h ∈ l.
Proof.
  intros R. unfold names_map. rewrite <- elem_of_list_to_map.
  - rewrite list_elem_of_fmap. split.
    + intros ([n' h'] & [= -> ->] & Hx). done.
    + intros Hx. by exists (HN nm h).
  - rewrite <- list_fmap_compose. apply (sorted_nodup s l R).
Qed.

Section NamesCorrect.
Import Names.

(** The binary search keeps everything left of [bg] below the name and everything
    right of [en] above it. *)
Lemma search_spec s l nm : names_repr s l -> forall fuel bg en,
  0 <= bg -> bg <= en + 1 -> en < Z.of_nat (length l) -> en - bg + 1 < Z.of_nat fuel ->
  (forall i x, l !! i = Some x -> Z.of_nat i < bg -> strcmp (hn_name x) nm < 0) ->
  (forall i x, l !! i = Some x -> en < Z.of_nat i -> 0 < strcmp (hn_name x) nm) ->
  exists r, search fuel nm bg en s = Ok r /\
  match r with
  | inl h => HN nm h ∈ l
  | inr p => 0 <= p <= Z.of_nat (length l) /\
      (forall i x, l !! i = Some x -> Z.of_nat i < p -> strcmp (hn_name x) nm < 0) /\
      (forall i x, l !! i = Some x -> p <= Z.of_nat i -> 0 < strcmp (hn_name x) nm)
  end.
Proof.
  intros R. assert (Hmax : Z.of_nat (length l) <= 2^30).
  { pose proof (nr_room _ _ R). pose proof (nr_count _ _ R).
    destruct (nr_cap _ _ R) as (k & Hk & Ek).
    assert (2^k <= 2^30) by (apply Z.pow_le_mono_r; lia). lia. }
  induction fuel as [|fuel IH]; intros bg en Hb Hbe Hen Hf Hlo Hhi; [lia|].
  cbn [search]. destruct (Z.leb_spec bg en) as [Hle|Hgt].
  2:{ exists (inr bg). split; [done|]. split; [lia|]. split; [done|].
      intros i x Hi Hp. apply (Hhi i x Hi). lia. }
  rewrite c_int_ok by lia. rewrite bind_ret, Z.quot_div_nonneg by lia.
  set (mid := (bg + en) / 2).
  assert (Hmid : bg <= mid <= en) by (unfold mid; split; [apply Z.div_le_lower_bound|
    apply Z.div_le_upper_bound]; lia).
  destruct (lookup_lt_is_Some_2 l (Z.to_nat mid)) as [x Hx]; [lia|].
  rewrite (arr_get_ok (name s) mid (Some x)) by (lia || by apply (nr_cells _ _ R)).
  rewrite bind_ret. cbn [init_read]. rewrite bind_ret.
  destruct (Z.eqb_spec (strcmp (hn_name x) nm) 0) as [E|Hne].
  { eexists. split; [done|]. cbn. apply strcmp_eq in E. rewrite <- E.
    apply list_elem_of_lookup. exists (Z.to_nat mid). by destruct x. }
  destruct (Z.ltb_spec (strcmp (hn_name x) nm) 0) as [Hlt|Hge].
  - apply IH; try lia; [|done]. intros i y Hi Hlt'.
    destruct (decide (i = Z.to_nat mid)) as [->|]; [congruence|].
    apply strcmp_trans with (hn_name x); [|done]. by apply (names_sorted s l i (Z.to_nat mid)); [done|lia|..].
  - apply IH; try lia; [done|]. intros i y Hi Hlt'.
    destruct (decide (i = Z.to_nat mid)) as [->|];
      [assert (y = x) as -> by congruence; lia|].
    assert (Hb' : before x y) by by apply (names_sorted s l (Z.to_nat mid) i); [done|lia|..].
    unfold before in Hb'. rewrite strcmp_opp.
    assert (strcmp nm (hn_name y) < 0); [|lia].
    apply strcmp_trans with (hn_name x); [|done]. rewrite strcmp_opp. lia.
Qed.

Lemma search_all s l nm : names_repr s l ->
  exists r, search (search_fuel s) nm 0 (name_count s - 1) s = Ok r /\
  match r with
  | inl h => names_map l !! nm = Some h
  | inr p => names_map l !! nm = None /\ 0 <= p <= Z.of_nat (length l) /\
      (forall i x, l !! i = Some x -> Z.of_nat i < p -> strcmp (hn_name x) nm < 0) /\
      (forall i x, l !! i = Some x -> p <= Z.of_nat i -> 0 < strcmp (hn_name x) nm)
  end.
Proof.
  intros R. pose proof (nr_count _ _ R) as Hc.
  destruct (search_spec s l nm R (search_fuel s) 0 (name_count s - 1)) as (r & E & Hr);
    unfold search_fuel; try lia.
  { intros i x Hi. pose proof (lookup_lt_Some _ _ _ Hi). lia. }
  exists r. split; [done|]. destruct r as [h|p]; [by apply (names_map_lookup s l)|].
  split; [|done]. destruct Hr as (_ & Hlo & Hhi).
  apply eq_None_not_Some. intros [h Hh]. apply (names_map_lookup s l) in Hh; [|done].
  apply list_elem_of_lookup in Hh as [i Hi].
  destruct (Z.lt_ge_cases (Z.of_nat i) p) as [H|H];
    [apply (Hlo _ _ Hi) in H|apply (Hhi _ _ Hi) in H]; cbn in H; rewrite strcmp_refl in H; lia.
Qed.

(** *** Making room *)

(** The array after the loops of [_insert_name_before]: cells from [p] on moved up. *)
Definition shifted (old : list (option handle_name)) (p count : Z)
    (new : list (option handle_name)) : Prop :=
  (forall j, Z.of_nat j < p -> new !! j = old !! j) /\
  (forall j, p <= Z.of_nat j < count -> new !! S j = old !! j).

Lemma copy_low (old new : list (option handle_name)) p :
  0 <= p <= Z.of_nat (length old) -> p <= Z.of_nat (length new) ->
  exists new', for_loop (Z.to_nat p) 0 (fun i n => x ← arr_get old i; arr_set n i x) new = Ok new' /\
    length new' = length new /\ forall j, Z.of_nat j < p -> new' !! j = old !! j.
Proof.
  intros Hp Hnew.
  edestruct (for_loop_inv (fun i (n : list (option handle_name)) =>
    length n = length new /\ forall j, Z.of_nat j < i -> n !! j = old !! j))
    as (n & -> & Hl & Hn).
  - split; [done|lia].
  - intros i n Hi [Hl Hn]. destruct (lookup_lt_is_Some_2 old (Z.to_nat i)) as [x Hx]; [lia|].
    rewrite (arr_get_ok old i x ltac:(lia) Hx), bind_ret, arr_set_ok by lia.
    eexists. split; [done|]. split; [by rewrite length_insert|]. intros j Hj.
    destruct (decide (j = Z.to_nat i)) as [->|].
    + rewrite list_lookup_insert_eq by lia. done.
    + rewrite list_lookup_insert_ne by lia. apply Hn. lia.
  - exists n. split; [done|]. split; [done|]. intros j Hj. apply Hn. lia.
Qed.

Lemma copy_high (old new : list (option handle_name)) p count :
  0 <= p <= count -> count <= Z.of_nat (length old) -> count < Z.of_nat (length new) ->
  (forall j, Z.of_nat j < p -> new !! j = old !! j) ->
  exists new', for_loop (Z.to_nat (count - p)) p
      (fun i n => x ← arr_get old i; arr_set n (i + 1) x) new = Ok new' /\
    length new' = length new /\ shifted old p count new'.
Proof.
  intros Hp Hold Hnew Hlow.
  edestruct (for_loop_inv (fun i (n : list (option handle_name)) =>
    length n = length new /\ shifted old p i n)) as (n & -> & Hl & Hn).
  - split; [done|]. split; [done|lia].
  - intros i n Hi (Hl & Hlo & Hhi). destruct (lookup_lt_is_Some_2 old (Z.to_nat i)) as [x Hx]; [lia|].
    rewrite (arr_get_ok old i x ltac:(lia) Hx), bind_ret, arr_set_ok by lia.
    eexists. split; [done|]. split; [by rewrite length_insert|]. split; intros j Hj.
    + rewrite list_lookup_insert_ne by lia. by apply Hlo.
    + destruct (decide (j = Z.to_nat i)) as [->|].
      * replace (S (Z.to_nat i)) with (Z.to_nat (i + 1)) by lia.
        rewrite list_lookup_insert_eq by lia. done.
      * rewrite list_lookup_insert_ne by lia. apply Hhi. lia.
  - exists n. split; [done|]. split; [done|]. by replace count with (p + Z.of_nat (Z.to_nat (count - p))) by lia.
Qed.

Lemma shift_up (old : list (option handle_name)) p count :
  0 <= p <= count -> count < Z.of_nat (length old) ->
  exists new', for_loop (Z.to_nat (count - p)) 0
      (fun k n => x ← arr_get n (count - k - 1); arr_set n (count - k) x) old = Ok new' /\
    length new' = length old /\ shifted old p count new'.
Proof.
  intros Hp Hlen.
  edestruct (for_loop_inv (fun k (n : list (option handle_name)) =>
    length n = length old /\ shifted old (count - k) count n)) as (n & -> & Hl & Hn).
  - split; [done|]. split; [done|lia].
  - intros k n Hk (Hl & Hlo & Hhi).
    destruct (lookup_lt_is_Some_2 n (Z.to_nat (count - k - 1))) as [x Hx]; [lia|].
    rewrite (arr_get_ok n (count - k - 1) x ltac:(lia) Hx), bind_ret, arr_set_ok by lia.
    eexists. split; [done|]. split; [by rewrite length_insert|]. split; intros j Hj.
    + rewrite list_lookup_insert_ne by lia. apply Hlo. lia.
    + destruct (decide (j = Z.to_nat (count - k - 1))) as [->|].
      * replace (S (Z.to_nat (count - k - 1))) with (Z.to_nat (count - k)) by lia.
        rewrite list_lookup_insert_eq by lia. rewrite <- Hx. apply Hlo. lia.
      * rewrite list_lookup_insert_ne by lia. apply Hhi. lia.
  - exists n. split; [done|]. split; [done|].
    by replace p with (count - (0 + Z.of_nat (Z.to_nat (count - p)))) by lia.
Qed.

Lemma insert_name_before_spec s l nm h p :
  names_repr s l -> Z.of_nat (length l) < 2^30 -> 0 <= p <= Z.of_nat (length l) ->
  exists cap arr, _insert_name_before nm h p s = Ok (set_names cap (name_count s + 1) arr s) /\
    (exists k, 1 <= k <= 30 /\ cap = 2^k) /\ Z.of_nat (length arr) = cap /\
    name_count s < cap /\
    arr !! Z.to_nat p = Some (Some (HN nm h)) /\
    (forall j, Z.of_nat j < p -> arr !! j = name s !! j) /\
    (forall j, p <= Z.of_nat j < name_count s -> arr !! S j = name s !! j).
Proof.
  intros R Hbig Hp. pose proof (nr_count _ _ R) as Hc. pose proof (nr_room _ _ R) as Hr.
  pose proof (nr_len _ _ R) as Hl. destruct (nr_cap _ _ R) as (k & Hk & Ek).
  assert (Hfin : forall cap arr, Z.of_nat (length arr) = cap -> name_count s < cap ->
    (exists k, 1 <= k <= 30 /\ cap = 2^k) -> shifted (name s) p (name_count s) arr ->
    exists cap' arr', ('(cap, arr) ← Ok (cap, arr);
        arr' ← arr_set arr p (Some (HN nm h)); Ok (set_names cap (name_count s + 1) arr' s))
      = Ok (set_names cap' (name_count s + 1) arr' s) /\
    (exists k, 1 <= k <= 30 /\ cap' = 2^k) /\ Z.of_nat (length arr') = cap' /\
    name_count s < cap' /\ arr' !! Z.to_nat p = Some (Some (HN nm h)) /\
    (forall j, Z.of_nat j < p -> arr' !! j = name s !! j) /\
    (forall j, p <= Z.of_nat j < name_count s -> arr' !! S j = name s !! j)).
  { intros cap arr Ha Hcap Hpow [Hlo Hhi]. rewrite bind_ret, arr_set_ok by lia. rewrite bind_ret.
    eexists _, _. split; [done|]. split; [done|]. rewrite length_insert. split; [done|].
    split; [done|]. split; [apply list_lookup_insert_eq; lia|].
    split; intros j Hj; rewrite list_lookup_insert_ne by lia; auto. }
  unfold _insert_name_before. cbv zeta. destruct (Z.leb_spec (name_cap s) (name_count s)) as [Hfull|Hfree].
  - assert (Hk29 : k < 30) by (destruct (Z.eq_dec k 30) as [->|]; lia).
    assert (E2 : name_cap s * 2 = 2^(k+1)) by (rewrite Z.pow_add_r; lia).
    assert (Hle : name_cap s * 2 <= 2^30) by (rewrite E2; apply Z.pow_le_mono_r; lia).
    assert (Hpos : 0 < name_cap s) by (rewrite Ek; lia).
    rewrite c_int_ok, bind_ret by lia. change MAX_SLOT_SIZE with (2^30).
    destruct (Z.leb_spec (name_cap s * 2) (2^30)); [|lia]. cbn [c_assert]. rewrite bind_ret.
    destruct (copy_low (name s) (replicate (Z.to_nat (name_cap s * 2)) None) p)
      as (n1 & -> & Hl1 & Hn1); [lia|rewrite length_replicate; lia|].
    rewrite length_replicate in Hl1. rewrite bind_ret.
    destruct (copy_high (name s) n1 p (name_count s)) as (n2 & -> & Hl2 & Hn2); [lia..|done|].
    rewrite bind_ret. apply Hfin; [lia|lia| |done]. exists (k + 1). split; [lia|done].
  - destruct (shift_up (name s) p (name_count s)) as (n2 & -> & Hl2 & Hn2); [lia..|].
    rewrite bind_ret. apply Hfin; [lia|lia| |done]. by exists k.
Qed.

(** The sorted list with the new name at its place. *)
Lemma insert_name_repr s l nm h p :
  names_repr s l -> Z.of_nat (length l) < 2^30 -> 0 <= p <= Z.of_nat (length l) ->
  (forall i x, l !! i = Some x -> Z.of_nat i < p -> strcmp (hn_name x) nm < 0) ->
  (forall i x, l !! i = Some x -> p <= Z.of_nat i -> 0 < strcmp (hn_name x) nm) ->
  exists s', _insert_name_before nm h p s = Ok s' /\
    names_repr s' (take (Z.to_nat p) l ++ HN nm h :: drop (Z.to_nat p) l) /\
    (harbor s', handle_index s', slot_size s', slot s') = (harbor s, handle_index s, slot_size s, slot s).
Proof.
  intros R Hbig Hp Hlo Hhi. pose proof (nr_count _ _ R) as Hc.
  destruct (insert_name_before_spec s l nm h p R Hbig Hp)
    as (cap & arr & -> & Hcap & Hlen & Hroom & Hat & Hbelow & Habove).
  eexists. split; [done|]. split; [|done].
  split; cbn [name_cap name_count name set_names]; try done.
  - rewrite length_app. cbn. rewrite length_take, length_drop. lia.
  - lia.
  - intros i x Hi. destruct (Nat.lt_total i (Z.to_nat p)) as [Hl|[->|Hg]].
    + rewrite Hbelow by lia. apply (nr_cells _ _ R).
      rewrite lookup_app_l, lookup_take_lt in Hi; [done|lia|rewrite length_take; lia].
    + rewrite Hat. rewrite lookup_app_r in Hi by (rewrite length_take; lia).
      rewrite length_take, Nat.min_l, Nat.sub_diag in Hi by lia. by inversion Hi.
    + destruct i as [|i]; [lia|].
      rewrite lookup_app_r in Hi by (rewrite length_take; lia).
      rewrite length_take, Nat.min_l, Nat.sub_succ_l in Hi by lia.
      change (drop (Z.to_nat p) l !! (i - Z.to_nat p)%nat = Some x) in Hi.
      rewrite lookup_drop in Hi. replace (Z.to_nat p + (i - Z.to_nat p))%nat with i in Hi by lia.
      pose proof (lookup_lt_Some _ _ _ Hi). rewrite Habove by lia. by apply (nr_cells _ _ R).
  - pose proof (nr_sorted _ _ R) as Hs. rewrite <- (take_drop (Z.to_nat p) l) in Hs.
    apply StronglySorted_app in Hs as (Hx & H1 & H2). apply StronglySorted_app_2; [|done|].
    + intros x1 x2 Hx1 [->|Hx2]%elem_of_cons; [|by apply Hx].
      apply list_elem_of_lookup in Hx1 as [i Hi]. apply lookup_take_Some in Hi as [Hi ?].
      unfold before. cbn. apply (Hlo i); [done|lia].
    + apply StronglySorted_cons. split; [|done]. apply Forall_forall. intros x Hx'.
      apply list_elem_of_lookup in Hx' as [i Hi]. rewrite lookup_drop in Hi.
      unfold before. rewrite strcmp_opp. apply Hhi in Hi; [cbn|]; lia.
Qed.

(** C7.  The sorted name array implements a finite map: [skynet_handle_findname]
    is the lookup (0 for an unknown name), and [skynet_handle_namehandle] refuses
    a name that is taken and otherwise adds exactly that binding. *)
Theorem names_are_a_map s l handle nm :
  names_repr s l -> Z.of_nat (length l) < 2^30 ->
  skynet_handle_findname nm s = Ok (default 0 (names_map l !! nm)) /\
  match names_map l !! nm with
  | Some _ => skynet_handle_namehandle handle nm s = Ok (None, s)
  | None => exists s' l', skynet_handle_namehandle handle nm s = Ok (Some nm, s') /\
      names_repr s' l' /\ names_map l' = <[nm := handle]> (names_map l) /\
      skynet_handle_findname nm s' = Ok handle
  end.
Proof.
  intros R Hbig. unfold skynet_handle_findname at 1, skynet_handle_namehandle, _insert_name.
  destruct (search_all s l nm R) as (r & -> & Hr). rewrite !bind_ret.
  destruct r as [h|p]; [by rewrite Hr|]. destruct Hr as (Hn & Hp & Hlo & Hhi). rewrite Hn.
  split; [done|].
  destruct (insert_name_repr s l nm handle p R Hbig Hp Hlo Hhi) as (s' & -> & R' & _).
  rewrite bind_ret. eexists s', _. split; [done|]. split; [exact R'|].
  assert (Hm : names_map (take (Z.to_nat p) l ++ HN nm handle :: drop (Z.to_nat p) l)
    = <[nm := handle]> (names_map l)).
  { apply map_eq. intros k. apply option_eq. intros v.
    rewrite (names_map_lookup s' _ _ _ R'), elem_of_app, elem_of_cons.
    rewrite lookup_insert_Some, (names_map_lookup s l _ _ R).
    rewrite <- (take_drop (Z.to_nat p) l) at 3. rewrite elem_of_app. split.
    - intros [H|[[= -> ->]|H]]; [|by left|]; right; (split; [|tauto]); intros <-;
        assert (names_map l !! nm = Some v) as Hc; try congruence;
        apply (names_map_lookup s l _ _ R); rewrite <- (take_drop (Z.to_nat p) l);
        apply elem_of_app; tauto.
    - intros [[-> ->]|[_ [H|H]]]; tauto. }
  split; [done|]. unfold skynet_handle_findname.
  destruct (search_all s' _ nm R') as (r & -> & Hr). rewrite bind_ret, Hm, lookup_insert_eq in *.
  destruct r as [h|q]; [congruence|]. by destruct Hr.
Qed.

(** *** Dropping the names of a handle *)

Lemma drop_names_spec s l h :
  names_repr s l ->
  exists s', drop_names h s = Ok s' /\
    names_repr s' (filter (fun x => hn_handle x <> h) l) /\
    (harbor s', handle_index s', slot_size s', slot s') = (harbor s, handle_index s, slot_size s, slot s).
Proof.
  intros R. pose proof (nr_count _ _ R) as Hc. pose proof (nr_room _ _ R) as Hroom.
  pose proof (nr_len _ _ R) as Hlen. unfold drop_names.
  set (kept i := filter (fun x => hn_handle x <> h) (take (Z.to_nat i) l)).
  assert (Hkl : forall i, 0 <= i -> Z.of_nat (length (kept i)) <= i).
  { intros i Hi. unfold kept. pose proof (length_filter (fun x => hn_handle x <> h) (take (Z.to_nat i) l)) as H.
    rewrite length_take in H. lia. }
  edestruct (for_loop_inv (fun i '(j, arr) =>
      j = Z.of_nat (length (kept i)) /\ length arr = length (name s) /\
      (forall m x, kept i !! m = Some x -> arr !! m = Some (Some x)) /\
      (forall m, i <= Z.of_nat m -> arr !! m = name s !! m)))
    as ([j arr] & -> & -> & Hal & Hkeep & _).
  - unfold kept. cbn. split_and!; done.
  - intros i [j arr] Hi (Hj & Hal & Hkeep & Hrest).
    destruct (lookup_lt_is_Some_2 l (Z.to_nat i)) as [x Hx]; [lia|].
    assert (Hcell : arr !! Z.to_nat i = Some (Some x)).
    { rewrite Hrest by lia. by apply (nr_cells _ _ R). }
    rewrite (arr_get_ok arr i (Some x) ltac:(lia) Hcell), bind_ret. cbn [init_read].
    rewrite bind_ret.
    assert (Hnext : kept (i + 1) = kept i ++ (if decide (hn_handle x <> h) then [x] else [])).
    { unfold kept. replace (Z.to_nat (i + 1)) with (S (Z.to_nat i)) by lia.
      rewrite (take_S_r l (Z.to_nat i) x) by done. by rewrite filter_app, filter_cons, filter_nil. }
    pose proof (Hkl i ltac:(lia)) as Hki. rewrite Hnext.
    destruct (Z.eqb_spec (hn_handle x) h) as [E|E].
    + rewrite decide_False, app_nil_r by (intros ?; done).
      eexists. split; [done|]. split_and!; [done|done|done|]. intros m Hm. apply Hrest. lia.
    + rewrite decide_True by done.
      assert (exists arr', (if negb (i =? j) then arr_set arr j (Some x) else Ok arr) = Ok arr' /\
        length arr' = length arr /\ arr' !! Z.to_nat j = Some (Some x) /\
        forall m, m <> Z.to_nat j -> arr' !! m = arr !! m) as (arr' & -> & Hl' & Hj' & Ho').
      { destruct (Z.eqb_spec i j) as [<-|]; cbn [negb]; [by exists arr|].
        rewrite arr_set_ok by lia. eexists. split; [done|]. split; [by rewrite length_insert|].
        split; [apply list_lookup_insert_eq; lia|]. intros m Hm. by rewrite list_lookup_insert_ne. }
      rewrite bind_ret. eexists. split; [done|]. split_and!.
      * rewrite length_app. cbn. lia.
      * lia.
      * intros m y Hm. destruct (decide (m = Z.to_nat j)) as [->|Hne].
        -- rewrite lookup_app_r in Hm by lia. rewrite Hj, Nat2Z.id, Nat.sub_diag in Hm.
           injection Hm as <-. by rewrite Hj'.
        -- rewrite Ho' by done. apply Hkeep. pose proof (lookup_lt_Some _ _ _ Hm) as Hlt.
           rewrite length_app in Hlt. cbn in Hlt. rewrite lookup_app_l in Hm by lia. done.
      * intros m Hm. rewrite Ho' by lia. apply Hrest. lia.
  - rewrite bind_ret. eexists. split; [done|]. split; [|done].
    assert (Ek : kept (0 + Z.of_nat (Z.to_nat (name_count s))) = filter (fun x => hn_handle x <> h) l).
    { unfold kept. rewrite take_ge by lia. done. }
    rewrite Ek in *. split; cbn [name_cap name_count name set_names].
    + apply (nr_cap _ _ R).
    + lia.
    + done.
    + pose proof (length_filter (fun x => hn_handle x <> h) l). lia.
    + done.
    + apply sorted_filter, R.
Qed.
End NamesCorrect.

(** Two names, and a third to add. *)
Definition two_names : handle_storage :=
  HS 0 1 4 (replicate 4 None) 2 2 [Some (HN [97] 1); Some (HN [99; 100] 2)].

Lemma two_names_repr : names_repr two_names [HN [97] 1; HN [99; 100] 2].
Proof.
  split; cbn; try done.
  - by exists 1.
  - intros [|[|i]] x; by intros [= <-].
  - repeat constructor.
Qed.

Lemma names_are_a_map_witness : exists s' l',
  Names.skynet_handle_namehandle 7 [98] two_names = Ok (Some [98], s') /\
  names_repr s' l' /\ Names.skynet_handle_findname [98] s' = Ok 7.
Proof.
  destruct (names_are_a_map two_names _ 7 [98] two_names_repr) as [_ H]; [done|].
  replace (names_map _ !! [98]) with (@None Z) in H by by vm_compute.
  destruct H as (s' & l' & H1 & H2 & _ & H3). exists s', l'.
  split; [exact H1|]. split; [exact H2|exact H3].
Defined.

Section RetireCorrect.
Import Slots.

Lemma slots_wf_names hd s s' :
  (harbor s', handle_index s', slot_size s', slot s') = (harbor s, handle_index s, slot_size s, slot s) ->
  slots_wf hd s -> slots_wf hd s'.
Proof.
  intros [= E1 E2 E3 E4] [? ? ? ? ?]. split; rewrite ?E1, ?E2, ?E3, ?E4; done.
Qed.

(** Clearing the slot of [h]. *)
Lemma clear_slot_wf hd s h c :
  slots_wf hd s -> slot s !! Z.to_nat (h mod slot_size s) = Some (Some c) ->
  let s' := set_slots (handle_index s) (slot_size s)
              (<[Z.to_nat (h mod slot_size s) := None]> (slot s)) s in
  slots_wf hd s' /\ forall x, holds s' x <-> holds s x /\ x <> c.
Proof.
  intros W Hc s'. pose proof (lookup_lt_Some _ _ _ Hc) as Hlt.
  assert (Hnew : forall i x, slot s' !! i = Some (Some x) <-> slot s !! i = Some (Some x) /\
    i <> Z.to_nat (h mod slot_size s)).
  { intros i x. cbn. destruct (decide (i = Z.to_nat (h mod slot_size s))) as [->|].
    - rewrite list_lookup_insert_eq by done. naive_solver.
    - rewrite list_lookup_insert_ne by done. naive_solver. }
  split.
  - destruct (W) as [W1 W2 W3 W4 W5]. split; cbn [slot_size harbor handle_index set_slots]; try done.
    + cbn. by rewrite length_insert.
    + intros i x [Hx _]%Hnew. by apply W5.
  - intros x. split.
    + intros [i Hi]. apply Hnew in Hi as [Hi Hne]. split; [by exists i|]. intros ->.
      destruct (sw_cell _ _ W _ _ Hi) as [E1 _]. destruct (sw_cell _ _ W _ _ Hc) as [E2 _]. lia.
    + intros [[i Hi] Hne]. exists i. apply Hnew. split; [done|]. intros ->. congruence.
Qed.

Lemma retire_spec hd s l h :
  slots_wf hd s -> names_repr s l ->
  exists r s' l', skynet_handle_retire hd h s = Ok (r, s') /\
    handle_lookup hd h s = Ok r /\ slots_wf hd s' /\ names_repr s' l' /\
    (r = None -> s' = s) /\ (forall c, holds s' c <-> holds s c /\ r <> Some c) /\ slot_size s' = slot_size s /\
    (forall h', handle_lookup hd h' s' = if decide (h' = h) then Ok None else handle_lookup hd h' s) /\
    forall nm, names_map l' !! nm
      = (v ← names_map l !! nm; if decide (is_Some r /\ v = h) then None else Some v).
Proof.
  intros W R. unfold skynet_handle_retire, handle_lookup at 1.
  rewrite (land_size hd s) by done. destruct (read_slot hd s h W) as (o & Ho & ->).
  rewrite !bind_ret.
  assert (Hsame : forall r, r = None -> handle_lookup hd h s = Ok None ->
    exists r' s' l', Ok (r, s) = Ok (r', s') /\ Ok (@None loc) = Ok r' /\ slots_wf hd s' /\
      names_repr s' l' /\ (r' = None -> s' = s) /\ (forall c, holds s' c <-> holds s c /\ r' <> Some c) /\ slot_size s' = slot_size s /\
      (forall h', handle_lookup hd h' s' = if decide (h' = h) then Ok None else handle_lookup hd h' s) /\
      forall nm, names_map l' !! nm
        = (v ← names_map l !! nm; if decide (is_Some r' /\ v = h) then None else Some v)).
  { intros r -> Hl. exists None, s, l. split_and!; try done.
    - intros c. by split; [intros ?|intros [? _]].
    - intros h'. by destruct (decide (h' = h)) as [->|].
    - intros nm. destruct (names_map l !! nm) as [v|]; cbn; [|done].
      rewrite decide_False; [done|]. intros [[? ?] _]. done. }
  assert (Hlk : handle_lookup hd h s =
    match o with Some ctx => Ok (if hd ctx =? h then Some ctx else None) | None => Ok None end).
  { unfold handle_lookup. rewrite (land_size hd s) by done.
    destruct (read_slot hd s h W) as (o' & Ho' & ->). rewrite bind_ret. by assert (o' = o) as -> by congruence. }
  destruct o as [c|]; [|by apply Hsame].
  destruct (Z.eqb_spec (hd c) h) as [Eh|Hne]; [|by apply Hsame].
  pose proof (lookup_lt_Some _ _ _ Ho) as Hlt. pose proof (size_bounds _ _ W).
  pose proof (Z.mod_pos_bound h (slot_size s)).
  rewrite arr_set_ok by lia. rewrite bind_ret.
  destruct (clear_slot_wf hd s h c W Ho) as [W1 Hho]. set (s1 := set_slots _ _ _ s) in *.
  assert (R1 : names_repr s1 l) by (destruct R; split; done).
  destruct (drop_names_spec s1 l h R1) as (s2 & -> & R2 & E2). rewrite bind_ret.
  assert (W2 : slots_wf hd s2) by by apply (slots_wf_names hd s1).
  exists (Some c), s2, (filter (fun x => hn_handle x <> h) l). assert (Hh2 : forall x, holds s2 x <-> holds s x /\ x <> c).
  { intros x. rewrite <- Hho. unfold holds. injection E2 as _ _ _ ->. done. }
  split_and!; try done.
  - intros x. rewrite Hh2. naive_solver.
  - by injection E2.
  - intros h'. destruct (decide (h' = h)) as [->|Hh'].
    + destruct (lookup_spec hd s2 h W2) as ([x|] & -> & Hx); [|done].
      destruct (proj1 (Hx x) eq_refl) as [[Hsx Hxc]%Hh2 Ex]. exfalso. apply Hxc.
      apply (holds_inj hd s); [done|done|by eexists|congruence].
    + apply lookup_ext; [done|done|]. intros x. rewrite Hh2. naive_solver.
  - intros nm. apply option_eq. intros v. rewrite (names_map_lookup s2 _ _ _ R2), list_elem_of_filter.
    cbn [hn_handle]. rewrite bind_Some. setoid_rewrite (names_map_lookup s l _ _ R). split.
    + intros [Hv Hin]. exists v. split; [done|]. rewrite decide_False; [done|]. by intros [_ ?].
    + intros (v' & Hin & E). destruct (decide _) as [|Hd]; [done|]. injection E as ->.
      split; [|done]. intros ->. apply Hd. split; [by eexists|done].
Qed.

(** Retiring a handle returns the context it named (for the caller to
    release), makes that handle resolve to nothing, removes exactly the names
    bound to it, and leaves every other handle and name alone; retiring a handle
    that is not live changes nothing. *)
Theorem retire_removes_handle_and_names hd s l h :
  slots_wf hd s -> names_repr s l ->
  exists r s' l', skynet_handle_retire hd h s = Ok (r, s') /\
    handle_lookup hd h s = Ok r /\ slots_wf hd s' /\ names_repr s' l' /\
    (r = None -> s' = s) /\
    (forall h', handle_lookup hd h' s' = if decide (h' = h) then Ok None else handle_lookup hd h' s) /\
    forall nm, names_map l' !! nm
      = (v ← names_map l !! nm; if decide (is_Some r /\ v = h) then None else Some v).
Proof.
  intros W R. destruct (retire_spec hd s l h W R) as (r & s' & l' & E & El & W' & R' & Hn & _ & _ & H).
  destruct H as [H1 H2]. exists r, s', l'. split_and!; done.
Qed.
End RetireCorrect.

Lemma full_table_names : names_repr full_table [].
Proof. split; cbn; try done; [by exists 1|constructor]. Qed.

Lemma retire_witness : exists s', skynet_handle_retire Zpos 2 full_table = Ok (Some 2%positive, s') /\
  Slots.handle_lookup Zpos 2 s' = Ok None /\
  Slots.handle_lookup Zpos 3 s' = Ok (Some 3%positive).
Proof.
  destruct (retire_removes_handle_and_names Zpos full_table [] 2 full_table_wf full_table_names)
    as (r & s' & l' & E & Hr & _ & _ & _ & H & _).
  exists s'. assert (r = Some 2%positive) as -> by (vm_compute in Hr; congruence).
  split; [exact E|]. rewrite !H. split; [reflexivity|]. vm_compute. reflexivity.
Defined.

(** ** Two corner cases of registration *)

Section Corner.
Import Slots.

(** A service that is launched and killed [n] times. *)
Fixpoint relaunch (n : nat) (s : handle_storage) : outcome handle_storage :=
  match n with
  | O => Ok s
  | S n =>
      '(h, s) ← skynet_handle_register Zpos 1 s;
      '(_, s) ← skynet_handle_retire (assign Zpos 1 h) h s;
      relaunch n s
  end.

Definition idle_table (index : Z) : handle_storage :=
  HS 0 index 4 (replicate 4 None) 2 0 (replicate 2 None).

Lemma relaunch_once index : 1 <= index < 2^24 ->
  exists s, skynet_handle_register Zpos 1 (idle_table index) = Ok (index, s) /\
    skynet_handle_retire (assign Zpos 1 index) index s
      = Ok (Some 1%positive, idle_table (index + 1)).
Proof.
  intros Hi. set (m := index mod 2^2).
  assert (Hm : m = 0 \/ m = 1 \/ m = 2 \/ m = 3)
    by (pose proof (Z.mod_pos_bound index (2^2)); lia).
  assert (Hland : Z.land index (4 - 1) = m) by (apply (land_mask index 2); lia).
  assert (Hget : arr_get (replicate 4 (@None loc)) m = Ok None)
    by by destruct Hm as [->|[->|[->| ->]]].
  assert (exists sl, arr_set (replicate 4 None) m (Some 1%positive) = Ok sl /\
    arr_get sl m = Ok (Some 1%positive) /\ arr_set sl m None = Ok (replicate 4 None))
    as (sl & Hset & Hget' & Hset').
  { destruct Hm as [->|[->|[->| ->]]]; eexists; (split; [reflexivity|]); done. }
  assert (Hmask : Z.land (u32 (0 + index)) HANDLE_MASK = index).
  { change HANDLE_MASK with (2^24 - 1). rewrite land_mask by lia. unfold u32.
    rewrite Z.add_0_l, (Z.mod_small index (2^32)), Z.mod_small by lia. done. }
  exists (set_slots (index + 1) 4 sl (idle_table index)). split.
  - unfold skynet_handle_register.
    cbn [register_loop idle_table slot_size]. change (Z.to_nat 4) with 4%nat.
    cbn [probe idle_table slot_size handle_index slot harbor].
    rewrite Hmask, Hland, Hget, !bind_ret, Hset, bind_ret, Z.lor_0_r.
    do 3 f_equal. apply Z.mod_small. lia.
  - unfold skynet_handle_retire. cbn [slot_size set_slots slot].
    rewrite Hland, Hget', bind_ret.
    replace (assign Zpos 1 index 1%positive) with index by done.
    rewrite Z.eqb_refl, Hset', bind_ret. reflexivity.
Qed.

(** The handle index is not brought back past 0 when it leaves the 24-bit handle
    space: after enough launches a service is given handle 0, which
    [skynet_handle_init] means to reserve and [skynet_send] does not deliver to. *)
Theorem register_can_return_zero : exists n s s',
  relaunch n (skynet_handle_init 0) = Ok s /\ skynet_handle_register Zpos 1 s = Ok (0, s').
Proof.
  assert (H : forall n index, 1 <= index -> index + Z.of_nat n <= 2^24 ->
    relaunch n (idle_table index) = Ok (idle_table (index + Z.of_nat n))).
  { induction n as [|n IH]; intros index H1 H2.
    - cbn. by rewrite Z.add_0_r.
    - cbn [relaunch]. destruct (relaunch_once index) as (s & -> & E); [lia|].
      rewrite bind_ret, E, bind_ret, IH by lia. do 2 f_equal. lia. }
  assert (exists k, k = 2^24 - 1) as [k Hk] by by eexists.
  exists (Z.to_nat k), (idle_table (1 + k)).
  eexists. split.
  - change (skynet_handle_init 0) with (idle_table 1).
    rewrite H by lia. rewrite Z2Nat.id by lia. reflexivity.
  - rewrite Hk. vm_compute. reflexivity.
Qed.

(** The three contexts 1, 2, 3 have their handles; context 4 was registered as
    handle 4 and its creator has not stored the handle yet. *)
Definition handles_before (c : loc) : Z := if decide (c = 4%positive) then 0 else Zpos c.

(** If another thread registers a context at that moment and the table doubles,
    [grow] rehashes context 4 under handle 0: once the handle is stored, looking
    it up finds nothing. *)
Theorem grow_before_handle_is_stored :
  exists h s', skynet_handle_register handles_before 5 full_table = Ok (h, s') /\
    handle_lookup Zpos 4 full_table = Ok (Some 4%positive) /\
    handle_lookup (assign Zpos 5 h) 4 s' = Ok None.
Proof. eexists _, _. split; [vm_compute; reflexivity|]. split; vm_compute; reflexivity. Qed.

End Corner.
