(* ===== verification/Text.v ===== *)
(** * C strings and the number formats of the server

    Strings are lists of byte values without the terminator.  The formats are the
    ones [skynet_server.c] uses: [%x], [%d], [%u], the fixed-width hexadecimal of
    [id_to_hex], and [strtoul]/[strtol] to read them back. *)

From S2P Require Import Prelude Mq Handle.
From stdpp Require Import base numbers list.
From Stdlib Require Import ZArith Lia Ascii String.
#[local] Open Scope Z_scope.
#[local] Open Scope list_scope.

Fixpoint str (s : string) : cstr :=
  match s with
  | EmptyString => []
  | String a s => Z.of_N (N_of_ascii a) :: str s
  end.

Definition lower_digit (d : Z) : Z := if d <? 10 then 48 + d else 87 + d.
Definition upper_digit (d : Z) : Z := if d <? 10 then 48 + d else 55 + d.

(** The digits of [n] in base [b], most significant first, at least one. *)
Fixpoint digits (fuel : nat) (b n : Z) (acc : list Z) : list Z :=
  match fuel with
  | O => acc
  | S fuel =>
      let acc := n mod b :: acc in
      if n <? b then acc else digits fuel b (n / b) acc
  end.

(** 64 digits are enough for any machine integer in any base. *)
Definition print_base (b n : Z) : list Z := digits 64 b n [].

(** [%x] of a [uint32_t] *)
Definition fmt_x (n : Z) : cstr := lower_digit <$> print_base 16 n.
(** [%u] *)
Definition fmt_u (n : Z) : cstr := (fun d => 48 + d) <$> print_base 10 n.
(** [%d] *)
Definition fmt_d (n : Z) : cstr := if n <? 0 then 45 :: fmt_u (- n) else fmt_u n.

(** The value of a digit character in a base up to 16. *)
Definition digit_value (c : Z) : option Z :=
  if (48 <=? c) && (c <=? 57) then Some (c - 48)
  else if (97 <=? c) && (c <=? 102) then Some (c - 87)
  else if (65 <=? c) && (c <=? 70) then Some (c - 55)
  else None.

(** The longest run of digits of base [b], folded into [acc]. *)
Fixpoint read_digits (b : Z) (s : cstr) (acc : Z) : Z :=
  match s with
  | c :: s' =>
      match digit_value c with
      | Some d => if d <? b then read_digits b s' (acc * b + d) else acc
      | None => acc
      end
  | [] => acc
  end.

Definition is_space (c : Z) : bool := (c =? 32) || ((9 <=? c) && (c <=? 13)).
Fixpoint skip_spaces (s : cstr) : cstr :=
  match s with c :: s' => if is_space c then skip_spaces s' else s | [] => [] end.

(** An optional sign: 45 is [-], 43 is [+]. *)
Definition read_sign (s : cstr) : bool * cstr :=
  match s with
  | c :: s' => if c =? 45 then (true, s') else if c =? 43 then (false, s') else (false, s)
  | [] => (false, [])
  end.

(** The "0x" prefix [strtoul] skips in base 16, when a digit follows it. *)
Definition skip_0x (s : cstr) : cstr :=
  match s with
  | z :: x :: d :: s' =>
      if (z =? 48) && ((x =? 120) || (x =? 88)) && bool_decide (is_Some (digit_value d)) then d :: s' else s
  | _ => s
  end.

Definition ULONG_MAX : Z := 2^64 - 1.

(** [strtoul(s, NULL, 16)] on a 64-bit machine, saturating at [ULONG_MAX]. *)
Definition strtoul16 (s : cstr) : Z :=
  let s := skip_spaces s in
  let '(neg, s) := read_sign s in
  let v := read_digits 16 (skip_0x s) 0 in
  if ULONG_MAX <? v then ULONG_MAX else if neg then u64 (- v) else v.

(** [(int)strtol(s, NULL, 10)] *)
Definition strtol10 (s : cstr) : Z :=
  let s := skip_spaces s in
  let '(neg, s) := read_sign s in
  let v := read_digits 10 s 0 in
  let v := if neg then Z.max (- v) (- 2^63) else Z.min v (2^63 - 1) in
  i32 v.

(** [(int)strtol(s, NULL, 0)]: the base follows from the prefix. *)
Definition strtol0 (s : cstr) : Z :=
  let s := skip_spaces s in
  let '(neg, s) := read_sign s in
  let v := if bool_decide (skip_0x s = s) then
             match s with
             | c :: _ => if c =? 48 then read_digits 8 s 0 else read_digits 10 s 0
             | [] => 0
             end
           else read_digits 16 (skip_0x s) 0 in
  let v := if neg then Z.max (- v) (- 2^63) else Z.min v (2^63 - 1) in
  i32 v.

(** One [%s] of [sscanf]: the next word and the rest; [None] at the end of input. *)
Fixpoint take_word (s : cstr) : cstr * cstr :=
  match s with
  | c :: s' => if is_space c then ([], s) else let '(w, r) := take_word s' in (c :: w, r)
  | [] => ([], [])
  end.
Definition scan_word (s : cstr) : option cstr * cstr :=
  match take_word (skip_spaces s) with
  | ([], r) => (None, r)
  | (w, r) => (Some w, r)
  end.

(** [strsep] with the delimiters [p]: the piece, and the rest behind the
    delimiter ([None] when there was none). *)
Fixpoint strsep (p : Z -> bool) (s : cstr) : cstr * option cstr :=
  match s with
  | c :: s' => if p c then ([], Some s') else let '(w, r) := strsep p s' in (c :: w, r)
  | [] => ([], None)
  end.

(** [%02x] and [%08x] *)
Definition pad_x (width : nat) (v : Z) : cstr :=
  let s := fmt_x v in replicate (width - List.length s) 48 ++ s.

(** [id_to_hex]: a colon and eight upper-case digits. *)
Definition id_to_hex (id : Z) : cstr :=
  58 :: ((fun i => upper_digit (Z.land (Z.shiftr id ((7 - i) * 4)) 0xf)) <$> seqZ 0 8).

(** ** Reading back what was printed *)

Lemma digit_value_upper d : 0 <= d < 16 -> digit_value (upper_digit d) = Some d.
Proof.
  intros Hd. unfold upper_digit, digit_value.
  destruct (Z.ltb_spec d 10);
    repeat match goal with |- context [?a <=? ?b] => destruct (Z.leb_spec a b); try lia end;
    cbn; f_equal; lia.
Qed.

Lemma digit_value_lower d : 0 <= d < 16 -> digit_value (lower_digit d) = Some d.
Proof.
  intros Hd. unfold lower_digit, digit_value.
  destruct (Z.ltb_spec d 10);
    repeat match goal with |- context [?a <=? ?b] => destruct (Z.leb_spec a b); try lia end;
    cbn; f_equal; lia.
Qed.

(** Reading digits is evaluation by Horner's rule. *)
Definition horner (b : Z) (ds : list Z) (acc : Z) : Z := foldl (fun a d => a * b + d) acc ds.

Lemma read_digits_map (f : Z -> Z) b ds acc :
  b <= 16 -> (forall d, 0 <= d < b -> digit_value (f d) = Some d) ->
  Forall (fun d => 0 <= d < b) ds -> read_digits b (f <$> ds) acc = horner b ds acc.
Proof.
  intros Hb Hf Hds. revert acc. induction Hds as [|d ds Hd _ IH]; intros acc; [done|].
  cbn. rewrite (Hf d Hd). destruct (Z.ltb_spec d b); [apply IH|lia].
Qed.

Lemma digits_spec b fuel : 2 <= b -> forall n acc, 0 <= n < b ^ Z.of_nat fuel ->
  Forall (fun d => 0 <= d < b) acc ->
  Forall (fun d => 0 <= d < b) (digits fuel b n acc) /\
  (0 < Z.of_nat fuel -> horner b (digits fuel b n acc) 0 = horner b acc n).
Proof.
  intros Hb. induction fuel as [|fuel IH]; intros n acc Hn Hacc; cbn [digits]; [done|].
  assert (Hm : 0 <= n mod b < b) by (apply Z.mod_pos_bound; lia).
  destruct (Z.ltb_spec n b).
  - split; [by constructor|]. intros _. cbn. by rewrite Z.mod_small by lia.
  - destruct (IH (n / b) (n mod b :: acc)) as [H1 H2].
    + split; [apply Z.div_pos; lia|]. apply Z.div_lt_upper_bound; [lia|].
      rewrite Nat2Z.inj_succ, Z.pow_succ_r in Hn by lia. lia.
    + by constructor.
    + split; [done|]. intros _. rewrite H2.
      * cbn. f_equal. rewrite Z.mul_comm, <- Z.div_mod by lia. done.
      * destruct fuel; [cbn in Hn; lia|lia].
Qed.

Lemma print_read b (f : Z -> Z) n :
  2 <= b <= 16 -> (forall d, 0 <= d < b -> digit_value (f d) = Some d) -> 0 <= n < 2^64 ->
  read_digits b (f <$> print_base b n) 0 = n.
Proof.
  intros Hb Hf Hn. unfold print_base.
  assert (2^64 <= b^64) by (apply Z.pow_le_mono_l; lia).
  destruct (digits_spec b 64 ltac:(lia) n []) as [H1 H2]; [cbn; lia|constructor|].
  rewrite read_digits_map by (done || lia). rewrite H2; [done|lia].
Qed.

Lemma digit_value_range c d : digit_value c = Some d ->
  48 <= c <= 57 \/ 97 <= c <= 102 \/ 65 <= c <= 70.
Proof.
  unfold digit_value.
  destruct (Z.leb_spec 48 c), (Z.leb_spec c 57), (Z.leb_spec 97 c), (Z.leb_spec c 102),
    (Z.leb_spec 65 c), (Z.leb_spec c 70); cbn; intros; (done || lia).
Qed.

(** On a string of digits, the white space, sign and prefix rules do not apply. *)
Lemma strtoul16_digits s :
  Forall (fun c => is_Some (digit_value c)) s -> read_digits 16 s 0 <= ULONG_MAX ->
  strtoul16 s = read_digits 16 s 0.
Proof.
  intros Hs Hv. unfold strtoul16.
  assert (Hsk : skip_spaces s = s).
  { destruct s as [|c s]; [done|]. apply Forall_cons in Hs as [[d Hd] _].
    apply digit_value_range in Hd. cbn. unfold is_space.
    destruct (Z.eqb_spec c 32); [lia|].
    destruct (Z.leb_spec 9 c), (Z.leb_spec c 13); cbn; (lia || done). }
  rewrite Hsk.
  assert (Hsg : read_sign s = (false, s)).
  { destruct s as [|c s]; [done|]. apply Forall_cons in Hs as [[d Hd] _].
    apply digit_value_range in Hd. unfold read_sign.
    destruct (Z.eqb_spec c 45), (Z.eqb_spec c 43); (lia || done). }
  rewrite Hsg.
  assert (Hx : skip_0x s = s).
  { destruct s as [|c [|x [|d s]]]; try done.
    apply Forall_cons in Hs as [_ Hs]. apply Forall_cons in Hs as [[e He] _].
    apply digit_value_range in He. unfold skip_0x.
    destruct (Z.eqb_spec x 120), (Z.eqb_spec x 88); try lia. by rewrite andb_false_r. }
  rewrite Hx. destruct (Z.ltb_spec ULONG_MAX (read_digits 16 s 0)); [lia|done].
Qed.

Lemma Forall_digit (f : Z -> Z) b ds :
  (forall d, 0 <= d < b -> digit_value (f d) = Some d) ->
  Forall (fun d => 0 <= d < b) ds -> Forall (fun c => is_Some (digit_value c)) (f <$> ds).
Proof.
  intros Hf Hds. apply Forall_fmap. eapply Forall_impl; [exact Hds|]. intros d Hd.
  cbn. rewrite (Hf d Hd). by eexists.
Qed.

Lemma strtoul16_fmt_x n : 0 <= n < 2^32 -> strtoul16 (fmt_x n) = n.
Proof.
  intros Hn. unfold fmt_x.
  assert (Hp := print_read 16 lower_digit n ltac:(lia) digit_value_lower ltac:(lia)).
  rewrite strtoul16_digits; [done| |rewrite Hp; unfold ULONG_MAX; lia].
  apply (Forall_digit _ 16 _ digit_value_lower).
  apply (digits_spec 16 64); [lia| |constructor]. split; [lia|].
  apply Z.lt_le_trans with (2^64); [lia|]. apply Z.pow_le_mono_l. lia.
Qed.

(** The eight nibbles of a 32-bit id spell it. *)
Lemma strtoul16_id_to_hex id : 0 <= id < 2^32 -> strtoul16 (tail (id_to_hex id)) = id.
Proof.
  intros Hid. unfold id_to_hex. cbn [tail].
  set (nib i := Z.land (Z.shiftr id ((7 - i) * 4)) 0xf).
  replace (_ <$> seqZ 0 8) with (upper_digit <$> (nib <$> seqZ 0 8))
    by by rewrite <- list_fmap_compose.
  assert (Hr : Forall (fun d => 0 <= d < 16) (nib <$> seqZ 0 8)).
  { apply Forall_fmap, Forall_true. intros i. unfold nib; cbn. apply (land_mask_range _ 4). lia. }
  assert (Hv : read_digits 16 (upper_digit <$> (nib <$> seqZ 0 8)) 0 = id).
  { rewrite (read_digits_map _ 16) by (done || lia || apply digit_value_upper).
    assert (Hn : forall i, 0 <= i < 8 -> nib i = (id / 16^(7 - i)) mod 16).
    { intros i Hi. unfold nib. change 15 with (2^4 - 1). rewrite land_mask by lia.
      rewrite Z.shiftr_div_pow2 by lia. do 2 f_equal.
      change 16 with (2^4). rewrite <- Z.pow_mul_r by lia. f_equal. lia. }
    change (seqZ 0 8) with [0; 1; 2; 3; 4; 5; 6; 7]. cbn [fmap list_fmap].
    rewrite !Hn by lia. unfold horner. cbn [foldl].
    assert (Hst : forall k, 0 <= k -> id / 16^k = id / 16^(k + 1) * 16 + (id / 16^k) mod 16).
    { intros k Hk. rewrite Z.pow_add_r, <- Z.div_div by lia. change (16^1) with 16.
      rewrite Z.mul_comm. apply Z.div_mod. lia. }
    pose proof (Hst 0 ltac:(lia)). pose proof (Hst 1 ltac:(lia)). pose proof (Hst 2 ltac:(lia)).
    pose proof (Hst 3 ltac:(lia)). pose proof (Hst 4 ltac:(lia)). pose proof (Hst 5 ltac:(lia)).
    pose proof (Hst 6 ltac:(lia)). pose proof (Hst 7 ltac:(lia)).
    assert (Htop : id / 16^(7 + 1) = 0) by (apply Z.div_small; cbn; lia).
    assert (Hbot : id / 16^0 = id) by (rewrite Z.pow_0_r; apply Z.div_1_r).
    rewrite Htop, Hbot in *.
    repeat match goal with
    | H : context [id / 16^(?a + ?b)] |- _ =>
        let c := eval vm_compute in (a + b) in change (id / 16^(a + b)) with (id / 16^c) in H
    | |- context [id / 16^(?a - ?b)] =>
        let c := eval vm_compute in (a - b) in change (id / 16^(a - b)) with (id / 16^c)
    end. rewrite Hbot. lia. }
  rewrite strtoul16_digits; [done| |rewrite Hv; unfold ULONG_MAX; lia].
  by apply (Forall_digit _ 16 _ digit_value_upper).
Qed.
