(* ===== verification/Module.v ===== *)
(** * Service modules ([skynet-src/skynet_module.c], [skynet_module.h])

    The table of loaded service libraries.  The dynamic loader is outside the
    program: [dlopen] and [dlsym] are arguments.  A function pointer is a number;
    [None] is [NULL]. *)

From S2P Require Import Prelude Mq Handle Text.
From stdpp Require Import base numbers list gmap.
From Stdlib Require Import ZArith Lia String.
#[local] Open Scope Z_scope.
#[local] Open Scope list_scope.

Definition MAX_MODULE_TYPE : Z := 32.

Record skynet_module := Mod {
  m_name : cstr;
  m_module : Z;
  m_create : option Z;
  m_init : option Z;
  m_release : option Z;
  m_signal : option Z
}.

(** [m] has [MAX_MODULE_TYPE] entries; [None]: never written. *)
Record modules := Modules { m_count : Z; m_path : cstr; m_m : list (option skynet_module) }.

Definition skynet_module_init (path : cstr) : modules :=
  Modules 0 path (replicate (Z.to_nat MAX_MODULE_TYPE) None).

(** [s[i]] of a string; the terminator may be read. *)
Definition char_at (s : cstr) (i : Z) : outcome Z :=
  if i =? Z.of_nat (List.length s) then Ok 0 else arr_get s i.

(** The string a buffer holds: its bytes up to a terminator, which must be there. *)
Fixpoint c_string (buf : list Z) : outcome cstr :=
  match buf with
  | [] => Fault OutOfBounds
  | b :: buf => if b =? 0 then Ok [] else s ← c_string buf; Ok (b :: s)
  end.

(** The offset of [strchr(s, c)], or the length where the code goes to the end. *)
Fixpoint index_of (c : Z) (s : cstr) : Z :=
  match s with
  | [] => 0
  | b :: s => if b =? c then 0 else 1 + index_of c s
  end.

(** [while ( *path == ';') path++] (59 is a semicolon, 63 a question mark) *)
Fixpoint skip_semicolons (path : cstr) : cstr :=
  match path with
  | c :: path' => if c =? 59 then skip_semicolons path' else path
  | [] => []
  end.

(** [for (i=0;path[i]!='?' && i < len ;i++) tmp[i] = path[i];] *)
Fixpoint copy_template (fuel : nat) (i len : Z) (path : cstr) (tmp : list Z)
    : outcome (Z * list Z) :=
  match fuel with
  | O => Fault OutOfFuel
  | S fuel =>
      c ← char_at path i;
      if negb (c =? 63) && (i <? len) then
        tmp ← arr_set tmp i c;
        copy_template fuel (i + 1) len path tmp
      else Ok (i, tmp)
  end.

(** The file name for the template at the head of [path], of length [len]. *)
Definition expand_template (sz len : Z) (path name : cstr) : outcome cstr :=
  '(i, tmp) ← copy_template (S (List.length path)) 0 len path (replicate (Z.to_nat sz) 0);
  tmp ← mem_write tmp i name;
  c ← char_at path i;
  if c =? 63 then
    rest ← mem_read path (i + 1) (len - i - 1);
    tmp ← mem_write tmp (i + Z.of_nat (List.length name)) rest;
    c_string tmp
  else Fault Exited.

Section Loader.
Variable dlopen : cstr -> option Z.
Variable dlsym : Z -> cstr -> option Z.

(** The [do ... while (dl == NULL)] of [_try_open]; each round consumes at least
    one byte of the path. *)
Fixpoint try_open_loop (fuel : nat) (sz : Z) (path name : cstr) : outcome (option Z) :=
  match fuel with
  | O => Fault OutOfFuel
  | S fuel =>
      let path := skip_semicolons path in
      match path with
      | [] => Ok None
      | _ =>
          let len := index_of 59 path in
          file ← expand_template sz len path name;
          match dlopen file with
          | Some dl => Ok (Some dl)
          | None => try_open_loop fuel sz (drop (Z.to_nat len) path) name
          end
      end
  end.

Definition _try_open (path name : cstr) : outcome (option Z) :=
  let sz := Z.of_nat (List.length path) + Z.of_nat (List.length name) in
  try_open_loop (S (List.length path)) sz path name.

(** The index of the entry with this name. *)
Fixpoint query_loop (n : nat) (i : Z) (name : cstr) (M : modules) : outcome (option Z) :=
  match n with
  | O => Ok None
  | S n =>
      e ← arr_get (m_m M) i;
      m ← init_read e;
      if strcmp (m_name m) name =? 0 then Ok (Some i) else query_loop n (i + 1) name M
  end.

Definition _query (name : cstr) (M : modules) : outcome (option Z) :=
  query_loop (Z.to_nat (m_count M)) 0 name M.

(** The part of [tmp] after its last dot (46). *)
Fixpoint after_last_dot (s best : cstr) : cstr :=
  match s with
  | [] => best
  | c :: s => after_last_dot s (if c =? 46 then s else best)
  end.

Definition get_api (m : skynet_module) (api_name : cstr) : option Z :=
  let tmp := m_name m ++ api_name in
  dlsym (m_module m) (after_last_dot tmp tmp).

(** The entry with its symbols, and whether [_init] is missing. *)
Definition open_sym (m : skynet_module) : bool * skynet_module :=
  let m' := Mod (m_name m) (m_module m) (get_api m (str "_create")) (get_api m (str "_init"))
                (get_api m (str "_release")) (get_api m (str "_signal")) in
  (bool_decide (m_init m' = None), m').

Definition skynet_module_query (name : cstr) (M : modules) : outcome (option Z * modules) :=
  result ← _query name M;
  match result with
  | Some i => Ok (Some i, M)
  | None =>
      result ← _query name M;
      match result with
      | Some i => Ok (Some i, M)
      | None =>
          if m_count M <? MAX_MODULE_TYPE then
            let index := m_count M in
            dl ← _try_open (m_path M) name;
            match dl with
            | Some dl =>
                let '(missing, m) := open_sym (Mod name dl None None None None) in
                arr ← arr_set (m_m M) index (Some m);
                if (missing : bool) then Ok (None, Modules (m_count M) (m_path M) arr)
                else Ok (Some index, Modules (m_count M + 1) (m_path M) arr)
            | None => Ok (None, M)
            end
          else Ok (None, M)
      end
  end.

Definition skynet_module_insert (mod_ : skynet_module) (M : modules) : outcome modules :=
  m ← _query (m_name mod_) M;
  _ ← c_assert (bool_decide (m = None) && (m_count M <? MAX_MODULE_TYPE));
  arr ← arr_set (m_m M) (m_count M) (Some mod_);
  Ok (Modules (m_count M + 1) (m_path M) arr).

End Loader.

(** ** The search path *)

(** The templates of a path: the non-empty pieces between semicolons. *)
Fixpoint split (path : cstr) : list cstr :=
  match path with
  | [] => [[]]
  | c :: path =>
      if c =? 59 then [] :: split path
      else match split path with
           | seg :: rest => (c :: seg) :: rest
           | [] => [[c]]
           end
  end.
Definition templates (path : cstr) : list cstr := filter (fun s => s <> []) (split path).

(** A template with its first question mark replaced by [name]. *)
Fixpoint substitute (name seg : cstr) : cstr :=
  match seg with
  | [] => []
  | c :: seg => if c =? 63 then name ++ seg else c :: substitute name seg
  end.

Fixpoint first_some {A B} (f : A -> option B) (l : list A) : option B :=
  match l with
  | [] => None
  | a :: l => match f a with Some b => Some b | None => first_some f l end
  end.

Lemma split_seg seg rest : 59 ∉ seg -> (rest = [] \/ exists r, rest = 59 :: r) ->
  split (seg ++ rest) = seg :: tail (split rest).
Proof.
  intros Hs Hr. induction seg as [|c seg IH].
  - destruct Hr as [->|[r ->]]; done.
  - apply not_elem_of_cons in Hs as [Hc Hs]. cbn [app split].
    destruct (Z.eqb_spec c 59) as [->|]; [done|]. by rewrite IH.
Qed.

Lemma templates_skip path : templates (skip_semicolons path) = templates path.
Proof.
  induction path as [|c path IH]; [done|]. cbn [skip_semicolons].
  destruct (Z.eqb_spec c 59) as [->|]; [|done]. rewrite IH. done.
Qed.

Lemma templates_tail rest : rest = [] \/ (exists r, rest = 59 :: r) ->
  filter (fun s : cstr => s <> []) (tail (split rest)) = templates rest.
Proof. intros [->|[r ->]]; done. Qed.

(** A path after its leading semicolons: its first template and what follows. *)
Lemma path_cases path : exists seg rest,
  skip_semicolons path = seg ++ rest /\ (59 ∉ seg) /\
  (rest = [] \/ exists r, rest = 59 :: r) /\ (seg = [] -> rest = []) /\
  (List.length (skip_semicolons path) <= List.length path)%nat.
Proof.
  induction path as [|c path IH]; [exists [], []; split_and!; auto; set_solver|].
  cbn [skip_semicolons]. destruct (Z.eqb_spec c 59) as [->|Hc].
  - destruct IH as (seg & rest & -> & ? & ? & ? & ?). exists seg, rest.
    split_and!; try done. cbn. lia.
  - assert (exists seg rest, path = seg ++ rest /\ (59 ∉ seg) /\
      (rest = [] \/ exists r, rest = 59 :: r)) as (seg & rest & -> & Hs & Hr).
    { clear -path. induction path as [|c path (seg & rest & -> & Hs & Hr)].
      - exists [], []. split_and!; [done|set_solver|by left].
      - destruct (Z.eq_dec c 59) as [->|].
        + exists [], (59 :: seg ++ rest). split_and!; [done|set_solver|eauto].
        + exists (c :: seg), rest. split_and!; [done|set_solver|done]. }
    exists (c :: seg), rest. split_and!; try done. set_solver.
Qed.

Lemma index_of_app c seg rest : c ∉ seg -> rest = [] \/ (exists r, rest = c :: r) ->
  index_of c (seg ++ rest) = Z.of_nat (List.length seg).
Proof.
  intros Hs Hr. induction seg as [|x seg IH].
  - destruct Hr as [->|[r ->]]; cbn; [done|]. by rewrite Z.eqb_refl.
  - apply not_elem_of_cons in Hs as [Hx Hs]. cbn [app index_of List.length].
    destruct (Z.eqb_spec x c) as [->|]; [done|]. rewrite IH by done. lia.
Qed.

Lemma char_at_mid a c b : char_at (a ++ c :: b) (Z.of_nat (List.length a)) = Ok c.
Proof.
  unfold char_at. rewrite length_app. cbn [List.length].
  destruct (Z.eqb_spec (Z.of_nat (List.length a)) (Z.of_nat (List.length a + S (List.length b)))); [lia|].
  apply arr_get_ok; [lia|]. by rewrite Nat2Z.id, lookup_app_r, Nat.sub_diag by lia.
Qed.

Lemma copy_template_ok b : forall a done_ path fuel zeros len,
  path = done_ ++ a ++ 63 :: b -> 63 ∉ a ->
  (List.length a < fuel)%nat -> (List.length a <= zeros)%nat ->
  Z.of_nat (List.length done_ + List.length a) < len ->
  copy_template fuel (Z.of_nat (List.length done_)) len path (done_ ++ replicate zeros 0)
    = Ok (Z.of_nat (List.length done_ + List.length a),
          done_ ++ a ++ replicate (zeros - List.length a) 0).
Proof.
  induction a as [|c a IH]; intros dn path fuel zeros len -> Hq Hf Hz Hl;
    (destruct fuel as [|fuel]; [cbn in Hf; lia|]); cbn [copy_template app List.length] in *;
    rewrite char_at_mid, bind_ret.
  - cbn [Z.eqb negb andb]. by rewrite Nat.add_0_r, Nat.sub_0_r.
  - apply not_elem_of_cons in Hq as [Hc Hq]. destruct (Z.eqb_spec c 63); [done|].
    destruct (Z.ltb_spec (Z.of_nat (List.length dn)) len); [|lia]. cbn [negb andb].
    destruct zeros as [|zeros]; [lia|].
    rewrite arr_set_ok by (rewrite length_app, length_replicate; lia). rewrite bind_ret, Nat2Z.id.
    rewrite insert_app_r_alt, Nat.sub_diag by lia. cbn [replicate insert list_insert].
    pose proof (IH (dn ++ [c]) (dn ++ c :: a ++ 63 :: b) fuel zeros len) as E.
    rewrite length_app in E. cbn [List.length] in E. rewrite <- !app_assoc in E. cbn [app] in E.
    replace (Z.of_nat (List.length dn) + 1) with (Z.of_nat (List.length dn + 1)) by lia.
    rewrite E by (done || lia). do 2 f_equal; lia.
Qed.

Lemma c_string_ok s n : 0 ∉ s -> (0 < n)%nat -> c_string (s ++ replicate n 0) = Ok s.
Proof.
  intros Hs Hn. induction s as [|c s IH]; cbn [app c_string].
  - by destruct n as [|n]; [lia|].
  - apply not_elem_of_cons in Hs as [Hc Hs]. destruct (Z.eqb_spec c 0); [done|]. by rewrite IH.
Qed.

Lemma first_mark seg : 63 ∈ seg -> exists a b, seg = a ++ 63 :: b /\ 63 ∉ a.
Proof.
  induction seg as [|c seg IH]; [by intros ?%elem_of_nil|]. intros Hin.
  destruct (Z.eq_dec c 63) as [->|Hc]; [exists [], seg; set_solver|].
  destruct IH as (a & b & -> & Ha); [set_solver|]. exists (c :: a), b. set_solver.
Qed.

Lemma substitute_app name a b : 63 ∉ a -> substitute name (a ++ 63 :: b) = a ++ name ++ b.
Proof.
  induction a as [|c a IH]; intros Ha; cbn; [done|].
  apply not_elem_of_cons in Ha as [Hc Ha]. destruct (Z.eqb_spec c 63); [done|]. by rewrite IH.
Qed.

(** A template is expanded within the buffer, its terminator included. *)
Lemma expand_template_ok sz seg rest name :
  63 ∈ seg -> 0 ∉ seg -> 0 ∉ name ->
  Z.of_nat (List.length seg) + Z.of_nat (List.length name) <= sz ->
  expand_template sz (Z.of_nat (List.length seg)) (seg ++ rest) name = Ok (substitute name seg).
Proof.
  intros (a & b & -> & Ha)%first_mark H0 Hn Hsz. rewrite length_app in Hsz |- *. cbn [List.length] in *.
  unfold expand_template.
  pose proof (copy_template_ok (b ++ rest) a [] ((a ++ 63 :: b) ++ rest)
    (S (List.length ((a ++ 63 :: b) ++ rest))) (Z.to_nat sz)
    (Z.of_nat (List.length a + S (List.length b)))) as E. cbn [app List.length Nat.add] in E. change (Z.of_nat 0) with 0 in E.
  rewrite E; clear E; [|by rewrite <- app_assoc|done|rewrite !length_app; lia|lia|lia].
  rewrite bind_ret, substitute_app by done.
  set (k := (Z.to_nat sz - List.length a)%nat).
  replace k with (List.length name + (List.length b + (k - List.length name - List.length b)))%nat by lia.
  rewrite !replicate_add, mem_write_ok by (by rewrite length_replicate).
  rewrite bind_ret, <- app_assoc. cbn [app]. rewrite char_at_mid.
  rewrite bind_ret. cbn [Z.eqb Pos.eqb].
  pose proof (mem_read_ok (a ++ [63]) b rest) as E. rewrite length_app in E. cbn [List.length] in E.
  rewrite <- !app_assoc in E. cbn [app] in E.
  replace (Z.of_nat (List.length a) + 1) with (Z.of_nat (List.length a + 1)) by lia.
  replace (Z.of_nat (List.length a + S (List.length b)) - Z.of_nat (List.length a) - 1)
    with (Z.of_nat (List.length b)) by lia.
  rewrite E, bind_ret. clear E. rewrite app_assoc.
  replace (Z.of_nat (List.length a) + Z.of_nat (List.length name))
    with (Z.of_nat (List.length (a ++ name))) by (rewrite length_app; lia).
  rewrite mem_write_ok by by rewrite length_replicate. rewrite bind_ret, app_assoc.
  rewrite c_string_ok; [by rewrite <- app_assoc|set_solver|lia].
Qed.

Lemma try_open_loop_ok dlopen sz name fuel : forall path,
  (List.length path < fuel)%nat ->
  Z.of_nat (List.length path) + Z.of_nat (List.length name) <= sz -> 0 ∉ path -> 0 ∉ name ->
  (forall seg, seg ∈ templates path -> 63 ∈ seg) ->
  try_open_loop dlopen fuel sz path name
    = Ok (first_some (fun seg => dlopen (substitute name seg)) (templates path)).
Proof.
  induction fuel as [|fuel IH]; intros path Hf Hsz H0 Hn Hq; [lia|].
  cbn [try_open_loop]. rewrite <- templates_skip in Hq |- *.
  destruct (path_cases path) as (seg & rest & E & Hs & Hr & Hse & Hle). rewrite E in *.
  assert (Hin : forall c, c ∈ seg ++ rest -> c ∈ path).
  { intros c. rewrite <- E. clear. induction path as [|x path IHp]; [done|].
    cbn [skip_semicolons]. destruct (x =? 59); [|done]. intros ?%IHp. set_solver. }
  destruct seg as [|c seg].
  { rewrite (Hse eq_refl). done. }
  change ((c :: seg) ++ rest) with (c :: (seg ++ rest)) at 1. cbv zeta beta iota.
  assert (Ht : templates ((c :: seg) ++ rest) = (c :: seg) :: templates rest).
  { unfold templates at 1. rewrite split_seg by done. rewrite filter_cons_True by done.
    f_equal. by apply templates_tail. }
  rewrite index_of_app by done. rewrite length_app in Hle.
  rewrite expand_template_ok; [|apply Hq; rewrite Ht; set_solver|set_solver|done|lia].
  rewrite bind_ret, Ht. cbn [first_some]. destruct (dlopen _) as [dl|]; [done|].
  rewrite Nat2Z.id, drop_app_length. cbn [List.length] in Hle. apply IH; [lia|lia|set_solver|done|].
  intros s Hin'. apply Hq. rewrite Ht. set_solver.
Qed.

(** [_try_open] tries the templates of the search path from left to right,
    each with its first question mark replaced by the service's name, and
    returns the first library that opens; it never writes outside its buffer
    of [strlen(path) + strlen(name)] bytes and every file name it passes to the
    loader is terminated within it. *)
Theorem try_open_searches_path dlopen path name :
  0 ∉ path -> 0 ∉ name -> (forall seg, seg ∈ templates path -> 63 ∈ seg) ->
  _try_open dlopen path name
    = Ok (first_some (fun seg => dlopen (substitute name seg)) (templates path)).
Proof. intros H0 Hn Hq. apply try_open_loop_ok; [lia|lia|done..]. Qed.

Lemma try_open_witness :
  _try_open (fun f => if decide (f = str "b/gate.so") then Some 7 else None)
    (str ";a/?.so;;b/?.so;c/?.so") (str "gate") = Ok (Some 7).
Proof.
  refine (eq_trans (try_open_searches_path _ _ _ _ _ _) _).
  - vm_compute. set_solver.
  - vm_compute. set_solver.
  - replace (templates _) with [str "a/?.so"; str "b/?.so"; str "c/?.so"] by (vm_compute; reflexivity).
    intros seg. rewrite !elem_of_cons. intros [->|[->|[->|[]%elem_of_nil]]]; vm_compute; set_solver.
  - vm_compute. reflexivity.
Defined.

(** ** The table *)

(** [ms]: the loaded modules, in loading order, with distinct names and an
    [_init] function each. *)
Record modules_wf (M : modules) (ms : list skynet_module) : Prop := {
  mw_arr : exists rest, m_m M = (Some <$> ms) ++ rest;
  mw_count : m_count M = Z.of_nat (List.length ms);
  mw_size : Z.of_nat (List.length (m_m M)) = MAX_MODULE_TYPE;
  mw_names : NoDup (m_name <$> ms);
  mw_init : Forall (fun m => is_Some (m_init m)) ms
}.

Lemma module_init_wf path : modules_wf (skynet_module_init path) [].
Proof. split; [by eexists|done|done|constructor|constructor]. Qed.

(** The loaded modules are determined by the table. *)
Lemma modules_wf_inj M ms ms' : modules_wf M ms -> modules_wf M ms' -> ms = ms'.
Proof.
  intros W W'. destruct (mw_arr _ _ W) as [r1 E1], (mw_arr _ _ W') as [r2 E2].
  pose proof (mw_count _ _ W). pose proof (mw_count _ _ W').
  rewrite E1 in E2. apply app_inj_1 in E2 as [E2 _]; [|rewrite !length_fmap; lia].
  by apply (inj (fmap Some)) in E2.
Qed.

Lemma query_loop_spec M ms name : modules_wf M ms -> forall n i,
  (i + n = List.length ms)%nat ->
  (forall j m, (j < i)%nat -> ms !! j = Some m -> m_name m <> name) ->
  exists r, query_loop n (Z.of_nat i) name M = Ok r /\
    match r with
    | Some k => exists m, ms !! Z.to_nat k = Some m /\ m_name m = name /\ 0 <= k
    | None => name ∉ (m_name <$> ms)
    end.
Proof.
  intros W. induction n as [|n IH]; intros i Hi Hno; cbn [query_loop].
  - exists None. split; [done|]. intros (m & -> & Hm)%list_elem_of_fmap.
    apply list_elem_of_lookup in Hm as [j Hj]. pose proof (lookup_lt_Some _ _ _ Hj).
    by apply (Hno j m); [lia|..].
  - destruct (lookup_lt_is_Some_2 ms i) as [m Hm]; [lia|].
    destruct (mw_arr _ _ W) as [rest Er].
    rewrite (arr_get_ok _ _ (Some m)); [|lia|].
    2:{ rewrite Nat2Z.id, Er, lookup_app_l by (rewrite length_fmap; lia).
        by rewrite list_lookup_fmap, Hm. }
    rewrite bind_ret. cbn [init_read]. rewrite bind_ret.
    destruct (Z.eqb_spec (strcmp (m_name m) name) 0) as [E|E].
    + exists (Some (Z.of_nat i)). split; [done|]. exists m. rewrite Nat2Z.id.
      split; [done|]. split; [by apply strcmp_eq|lia].
    + replace (Z.of_nat i + 1) with (Z.of_nat (S i)) by lia. apply IH; [lia|].
      intros j m' Hj Hm' En. destruct (decide (j = i)) as [->|].
      * rewrite Hm in Hm'. injection Hm' as <-. apply E. by apply strcmp_eq.
      * apply (Hno j m'); [lia|done..].
Qed.

Lemma query_spec M ms name : modules_wf M ms ->
  exists r, _query name M = Ok r /\
    match r with
    | Some k => exists m, ms !! Z.to_nat k = Some m /\ m_name m = name /\ 0 <= k
    | None => name ∉ (m_name <$> ms)
    end.
Proof.
  intros W. unfold _query. rewrite (mw_count _ _ W), Nat2Z.id.
  apply (query_loop_spec M ms name W (List.length ms) 0); [lia|]. intros; lia.
Qed.

(** Distinct names make the entry found unique. *)
Lemma query_known M ms name k m : modules_wf M ms ->
  ms !! k = Some m -> m_name m = name -> _query name M = Ok (Some (Z.of_nat k)).
Proof.
  intros W Hk Hn. destruct (query_spec M ms name W) as (r & -> & Hr). destruct r as [i|].
  - destruct Hr as (m' & Hm' & Hn' & Hi). do 2 f_equal.
    assert (Z.to_nat i = k); [|lia].
    apply (NoDup_lookup _ _ _ name (mw_names _ _ W)); rewrite list_lookup_fmap.
    + rewrite Hm'. cbn. congruence.
    + rewrite Hk. cbn. congruence.
  - destruct Hr. apply list_elem_of_fmap. exists m. split; [done|].
    by eapply list_elem_of_lookup_2.
Qed.

Lemma query_hit dlopen dlsym M ms name k m : modules_wf M ms ->
  ms !! k = Some m -> m_name m = name ->
  skynet_module_query dlopen dlsym name M = Ok (Some (Z.of_nat k), M).
Proof.
  intros W Hk Hn. unfold skynet_module_query.
  by rewrite (query_known M ms name k m W Hk Hn).
Qed.

(** Writing the next free entry. *)
Lemma table_append M ms m : modules_wf M ms -> m_count M < MAX_MODULE_TYPE ->
  exists arr, arr_set (m_m M) (m_count M) (Some m) = Ok arr /\
    modules_wf (Modules (m_count M) (m_path M) arr) ms /\
    (m_name m ∉ (m_name <$> ms) -> is_Some (m_init m) ->
     modules_wf (Modules (m_count M + 1) (m_path M) arr) (ms ++ [m])).
Proof.
  intros [(rest & Er) Hc Hs Hn Hi] Hlt. rewrite arr_set_ok by lia. eexists. split; [done|].
  assert (Hr : rest = [] -> False).
  { intros ->. rewrite Er, app_nil_r, length_fmap in Hs. lia. }
  destruct rest as [|o rest]; [done|].
  assert (E : <[Z.to_nat (m_count M) := Some m]> (m_m M) = (Some <$> ms) ++ Some m :: rest).
  { rewrite Er, Hc, Nat2Z.id, insert_app_r_alt by (rewrite length_fmap; lia).
    by rewrite length_fmap, Nat.sub_diag. }
  split; [|intros Hnew Hini]; (split; cbn [m_m m_count]; try done; rewrite ?length_insert; try done).
  - rewrite E. by eexists.
  - exists rest. by rewrite E, fmap_app, <- app_assoc.
  - rewrite length_app. cbn. lia.
  - rewrite fmap_app. apply NoDup_app. split; [done|]. split; [|by apply NoDup_singleton].
    intros x Hx Hx'. cbn in Hx'. apply list_elem_of_singleton in Hx' as ->. done.
  - apply Forall_app. by repeat constructor.
Qed.

Lemma open_sym_spec dlsym m0 missing m : open_sym dlsym m0 = (missing, m) ->
  m_name m = m_name m0 /\ (missing = false -> is_Some (m_init m)).
Proof.
  intros [= <- <-]. split; [done|]. intros E%bool_decide_eq_false. by apply not_eq_None_Some.
Qed.

Lemma module_query_ok dlopen dlsym M ms name :
  modules_wf M ms -> 0 ∉ m_path M -> 0 ∉ name ->
  (forall seg, seg ∈ templates (m_path M) -> 63 ∈ seg) ->
  exists r M' ms', skynet_module_query dlopen dlsym name M = Ok (r, M') /\
    modules_wf M' ms' /\ ms `prefix_of` ms' /\ Z.of_nat (List.length ms') <= MAX_MODULE_TYPE /\
    (r = None -> ms' = ms) /\
    forall i, r = Some i ->
      (exists m, ms' !! Z.to_nat i = Some m /\ m_name m = name) /\
      forall dlopen' dlsym', skynet_module_query dlopen' dlsym' name M' = Ok (Some i, M').
Proof.
  intros W H0 Hn Hq.
  assert (Hlen : forall M ms, modules_wf M ms -> Z.of_nat (List.length ms) <= MAX_MODULE_TYPE).
  { intros M0 ms0 [(rest & Er) Hc Hs _ _]. rewrite Er, length_app, length_fmap in Hs. lia. }
  assert (Hno : forall M', modules_wf M' ms ->
    exists r M'' ms', Ok (@None Z, M') = Ok (r, M'') /\ modules_wf M'' ms' /\ ms `prefix_of` ms' /\
      Z.of_nat (List.length ms') <= MAX_MODULE_TYPE /\ (r = None -> ms' = ms) /\
      forall i, r = Some i -> (exists m, ms' !! Z.to_nat i = Some m /\ m_name m = name) /\
        forall dlopen' dlsym', skynet_module_query dlopen' dlsym' name M'' = Ok (Some i, M'')).
  { intros M' W'. exists None, M', ms. split_and!; [done|done|done|by eapply Hlen|done|done]. }
  unfold skynet_module_query at 1.
  destruct (query_spec M ms name W) as (r & -> & Hr). rewrite bind_ret.
  destruct r as [k|].
  { destruct Hr as (m & Hm & Hnm & Hk). exists (Some k), M, ms. split_and!; [done|done|done|by eapply Hlen|done|].
    intros i [= <-]. split; [eauto|]. intros d1 d2.
    rewrite (query_hit d1 d2 M ms name _ m W Hm Hnm). by rewrite Z2Nat.id. }
  rewrite bind_ret. destruct (Z.ltb_spec (m_count M) MAX_MODULE_TYPE) as [Hlt|]; [|by apply Hno].
  unfold _try_open. rewrite try_open_loop_ok by (done || lia). rewrite bind_ret.
  destruct (first_some _ _) as [dl|]; [|by apply Hno].
  destruct (open_sym dlsym _) as [missing m] eqn:Eo.
  apply open_sym_spec in Eo as [En Hinit]. cbn [m_name] in En.
  destruct (table_append M ms m) as (arr & -> & W1 & W2); [done|done|]. rewrite bind_ret.
  destruct missing; [by apply Hno|].
  rewrite En in W2. assert (W3 := W2 Hr (Hinit eq_refl)).
  rewrite (mw_count _ _ W) in W3 |- *. eexists (Some (Z.of_nat (List.length ms))), _, _.
  split; [done|]. split; [exact W3|]. split; [by eexists|]. split; [by eapply Hlen|]. split; [done|].
  intros i [= <-]. rewrite Nat2Z.id. split.
  - eexists. by rewrite lookup_app_r, Nat.sub_diag by lia.
  - intros d1 d2. eapply query_hit; [exact W3|by rewrite lookup_app_r, Nat.sub_diag by lia|done].
Qed.


(** The module table: a query keeps the table well formed (at most 32
    modules, distinct names, each with an [_init]), only ever appends to it,
    and after a query that succeeds the same name is answered from the table,
    with the same entry, whatever the loader would then say. *)
Theorem module_query_loads_once dlopen dlsym M ms name :
  modules_wf M ms -> 0 ∉ m_path M -> 0 ∉ name ->
  (forall seg, seg ∈ templates (m_path M) -> 63 ∈ seg) ->
  exists r M' ms', skynet_module_query dlopen dlsym name M = Ok (r, M') /\
    modules_wf M' ms' /\ ms `prefix_of` ms' /\ Z.of_nat (List.length ms') <= MAX_MODULE_TYPE /\
    (r = None -> ms' = ms) /\
    forall i, r = Some i ->
      (exists m, ms' !! Z.to_nat i = Some m /\ m_name m = name) /\
      forall dlopen' dlsym', skynet_module_query dlopen' dlsym' name M' = Ok (Some i, M').
Proof. apply module_query_ok. Qed.

(** A loader with one library, whose every symbol exists. *)
Lemma module_query_witness :
  let dlopen f := if decide (f = str "b/gate.so") then Some 7 else None in
  exists M', skynet_module_query dlopen (fun _ _ => Some 1) (str "gate")
      (skynet_module_init (str "a/?.so;b/?.so")) = Ok (Some 0, M') /\
    skynet_module_query (fun _ => None) (fun _ _ => None) (str "gate") M' = Ok (Some 0, M').
Proof.
  intros dlopen.
  destruct (module_query_loads_once dlopen (fun _ _ => Some 1)
    (skynet_module_init (str "a/?.so;b/?.so")) [] (str "gate")) as (r & M' & ms' & E & _ & _ & _ & _ & Hi).
  - apply module_init_wf.
  - vm_compute. set_solver.
  - vm_compute. set_solver.
  - replace (templates _) with [str "a/?.so"; str "b/?.so"] by (vm_compute; reflexivity).
    intros seg. rewrite !elem_of_cons. intros [->|[->|[]%elem_of_nil]]; vm_compute; set_solver.
  - exists M'. assert (r = Some 0) as ->.
    { vm_compute in E. by injection E as <- _. }
    split; [exact E|]. by apply Hi.
Defined.
