(* ===== verification/Server.v ===== *)
(** * Services and messages ([skynet-src/skynet_server.c], [skynet_harbor.c],
    [skynet_error.c], [skynet_monitor.c])

    The state of a node: the contexts of its services, their queues, the handle
    table, the timer, the blocks of memory that messages own, and the globals of
    the C files.  Message payloads live in [heap] (and harbor messages in
    [rheap]), so that freeing twice or not at all is visible.

    Code outside these files enters as arguments: the callback of a service and
    the functions of a module.  Writes to log files and the call of a module's
    release function are recorded in [io]. *)

From S2P Require Import Prelude Mq Sched Timer Handle Text Module.
From stdpp Require Import base numbers list gmap.
From Stdlib Require Import ZArith Lia String.
#[local] Open Scope Z_scope.
#[local] Open Scope list_scope.
Import Global.

Definition PTYPE_TEXT : Z := 0.
Definition PTYPE_CLIENT : Z := 3.
Definition PTYPE_SYSTEM : Z := 4.
Definition PTYPE_HARBOR : Z := 5.
Definition PTYPE_ERROR : Z := 7.
Definition PTYPE_TAG_DONTCOPY : Z := 0x10000.
Definition PTYPE_TAG_ALLOCSESSION : Z := 0x20000.
Definition MESSAGE_TYPE_MASK : Z := Z.shiftr (2^64 - 1) 8.
Definition GLOBALNAME_LENGTH : Z := 16.

Record skynet_context := Ctx {
  mod_ : Z;              (** the index of [mod] in the module table *)
  instance : Z;
  cb : option Z;
  queue : loc;
  logfile : option Z;
  cpu_cost : Z;
  cpu_start : Z;
  handle : Z;
  session_id : Z;
  ref : Z;
  message_count : Z;
  init : bool;
  endless : bool;
  profile : bool;
  result : cstr          (** the string in [result[32]] *)
}.

(** [rn_name] is [None] while the 16 bytes of the name were not written. *)
Record remote_name := RemoteName { rn_name : option cstr; rn_handle : Z }.
Record remote_message := RemoteMsg {
  destination : remote_name;
  rm_message : option loc;
  rm_sz : Z
}.

Inductive io_event :=
  | ModuleRelease (f inst : Z)    (** [m->release(inst)] *)
  | ModuleSignal (f inst sig : Z) (** [m->signal(inst, sig)] *)
  | FileClose (f : Z)
  | LogOutput (f src type sess : Z) (d : option loc) (size : Z).

Record skynet_monitor := Monitor {
  version : Z; check_version : Z; mon_source : Z; mon_destination : Z
}.

Record node := MkNode {
  mq : mqstate;
  ctxs : gmap loc skynet_context;
  handles : handle_storage;  (** [H] *)
  TI : timer;
  heap : gmap loc (list Z);
  rheap : gmap loc remote_message;
  g_total : Z;                 (** [G_NODE.total] *)
  monitor_exit : Z;          (** [G_NODE.monitor_exit] *)
  g_profile : bool;          (** [G_NODE.profile] *)
  HARBOR : Z;                (** [~0] until [skynet_harbor_init] *)
  REMOTE : option loc;
  logger : Z;                (** the static variable of [skynet_error] *)
  env : gmap (list Z) (list Z);
  M : modules;
  io : list io_event
}.

Definition with_mq x n := MkNode x (ctxs n) (handles n) (TI n) (heap n) (rheap n) (g_total n)
  (monitor_exit n) (g_profile n) (HARBOR n) (REMOTE n) (logger n) (env n) (M n) (io n).
Definition with_ctxs x n := MkNode (mq n) x (handles n) (TI n) (heap n) (rheap n) (g_total n)
  (monitor_exit n) (g_profile n) (HARBOR n) (REMOTE n) (logger n) (env n) (M n) (io n).
Definition with_H x n := MkNode (mq n) (ctxs n) x (TI n) (heap n) (rheap n) (g_total n)
  (monitor_exit n) (g_profile n) (HARBOR n) (REMOTE n) (logger n) (env n) (M n) (io n).
Definition with_TI x n := MkNode (mq n) (ctxs n) (handles n) x (heap n) (rheap n) (g_total n)
  (monitor_exit n) (g_profile n) (HARBOR n) (REMOTE n) (logger n) (env n) (M n) (io n).
Definition with_heap x n := MkNode (mq n) (ctxs n) (handles n) (TI n) x (rheap n) (g_total n)
  (monitor_exit n) (g_profile n) (HARBOR n) (REMOTE n) (logger n) (env n) (M n) (io n).
Definition with_rheap x n := MkNode (mq n) (ctxs n) (handles n) (TI n) (heap n) x (g_total n)
  (monitor_exit n) (g_profile n) (HARBOR n) (REMOTE n) (logger n) (env n) (M n) (io n).
Definition with_total x n := MkNode (mq n) (ctxs n) (handles n) (TI n) (heap n) (rheap n) x
  (monitor_exit n) (g_profile n) (HARBOR n) (REMOTE n) (logger n) (env n) (M n) (io n).
Definition with_monitor x n := MkNode (mq n) (ctxs n) (handles n) (TI n) (heap n) (rheap n) (g_total n)
  x (g_profile n) (HARBOR n) (REMOTE n) (logger n) (env n) (M n) (io n).
Definition with_harbor h r n := MkNode (mq n) (ctxs n) (handles n) (TI n) (heap n) (rheap n) (g_total n)
  (monitor_exit n) (g_profile n) h r (logger n) (env n) (M n) (io n).
Definition with_logger x n := MkNode (mq n) (ctxs n) (handles n) (TI n) (heap n) (rheap n) (g_total n)
  (monitor_exit n) (g_profile n) (HARBOR n) (REMOTE n) x (env n) (M n) (io n).
Definition with_env x n := MkNode (mq n) (ctxs n) (handles n) (TI n) (heap n) (rheap n) (g_total n)
  (monitor_exit n) (g_profile n) (HARBOR n) (REMOTE n) (logger n) x (M n) (io n).
Definition with_io x n := MkNode (mq n) (ctxs n) (handles n) (TI n) (heap n) (rheap n) (g_total n)
  (monitor_exit n) (g_profile n) (HARBOR n) (REMOTE n) (logger n) (env n) (M n) x.
Definition with_M x n := MkNode (mq n) (ctxs n) (handles n) (TI n) (heap n) (rheap n) (g_total n)
  (monitor_exit n) (g_profile n) (HARBOR n) (REMOTE n) (logger n) (env n) x (io n).

#[global] Instance node_world : MqWorld node :=
  {| get_mqs := mq; put_mqs := with_mq; get_put_mqs := fun _ _ => eq_refl |}.

Definition upd_ctx (f : skynet_context -> skynet_context) (c : loc) (n : node) : node :=
  with_ctxs (alter f c (ctxs n)) n.

Definition set_ref r x := Ctx (mod_ x) (instance x) (cb x) (queue x) (logfile x) (cpu_cost x)
  (cpu_start x) (handle x) (session_id x) r (message_count x) (init x) (endless x) (profile x) (result x).
Definition set_session s x := Ctx (mod_ x) (instance x) (cb x) (queue x) (logfile x) (cpu_cost x)
  (cpu_start x) (handle x) s (ref x) (message_count x) (init x) (endless x) (profile x) (result x).
Definition set_cb b x := Ctx (mod_ x) (instance x) b (queue x) (logfile x) (cpu_cost x)
  (cpu_start x) (handle x) (session_id x) (ref x) (message_count x) (init x) (endless x) (profile x) (result x).
Definition set_handle h x := Ctx (mod_ x) (instance x) (cb x) (queue x) (logfile x) (cpu_cost x)
  (cpu_start x) h (session_id x) (ref x) (message_count x) (init x) (endless x) (profile x) (result x).
Definition set_queue q x := Ctx (mod_ x) (instance x) (cb x) q (logfile x) (cpu_cost x)
  (cpu_start x) (handle x) (session_id x) (ref x) (message_count x) (init x) (endless x) (profile x) (result x).
Definition set_init b x := Ctx (mod_ x) (instance x) (cb x) (queue x) (logfile x) (cpu_cost x)
  (cpu_start x) (handle x) (session_id x) (ref x) (message_count x) b (endless x) (profile x) (result x).
Definition set_endless b x := Ctx (mod_ x) (instance x) (cb x) (queue x) (logfile x) (cpu_cost x)
  (cpu_start x) (handle x) (session_id x) (ref x) (message_count x) (init x) b (profile x) (result x).
Definition set_cpu cost start x := Ctx (mod_ x) (instance x) (cb x) (queue x) (logfile x) cost
  start (handle x) (session_id x) (ref x) (message_count x) (init x) (endless x) (profile x) (result x).
Definition set_count c x := Ctx (mod_ x) (instance x) (cb x) (queue x) (logfile x) (cpu_cost x)
  (cpu_start x) (handle x) (session_id x) (ref x) c (init x) (endless x) (profile x) (result x).
Definition set_logfile l x := Ctx (mod_ x) (instance x) (cb x) (queue x) l (cpu_cost x)
  (cpu_start x) (handle x) (session_id x) (ref x) (message_count x) (init x) (endless x) (profile x) (result x).
Definition set_result s x := Ctx (mod_ x) (instance x) (cb x) (queue x) (logfile x) (cpu_cost x)
  (cpu_start x) (handle x) (session_id x) (ref x) (message_count x) (init x) (endless x) (profile x) s.

(** ** Memory *)

(** [skynet_malloc] of a block with the given contents. *)
Definition malloc (bytes : list Z) (n : node) : loc * node :=
  let p := fresh (dom (heap n) ∪ dom (rheap n)) in
  (p, with_heap (<[p := bytes]> (heap n)) n).

(** [skynet_free]; freeing [NULL] does nothing. *)
Definition skynet_free (p : option loc) (n : node) : outcome node :=
  match p with
  | None => Ok n
  | Some p =>
      match heap n !! p with
      | Some _ => Ok (with_heap (delete p (heap n)) n)
      | None => Fault DanglingPointer
      end
  end.


Definition skynet_context_handle (n : node) (c : loc) : Z :=
  match ctxs n !! c with Some x => handle x | None => 0 end.

(** ** Calls into a module

    The functions that return nothing are recorded. *)

Definition module_at (m : Z) (n : node) : outcome skynet_module :=
  e ← arr_get (m_m (M n)) m;
  init_read e.

Definition skynet_module_instance_release (m inst : Z) (n : node) : outcome node :=
  md ← module_at m n;
  Ok match m_release md with
     | Some f => with_io (io n ++ [ModuleRelease f inst]) n
     | None => n
     end.

Definition skynet_module_instance_signal (m inst sig : Z) (n : node) : outcome node :=
  md ← module_at m n;
  Ok match m_signal md with
     | Some f => with_io (io n ++ [ModuleSignal f inst sig]) n
     | None => n
     end.

(** ** Life and death of a context *)

Definition context_inc (n : node) : node := with_total (g_total n + 1) n.
Definition context_dec (n : node) : node := with_total (g_total n - 1) n.

Definition skynet_context_newsession (c : loc) (n : node) : outcome (Z * node) :=
  x ← deref (ctxs n !! c);
  session ← c_int (session_id x + 1);
  if session <=? 0 then Ok (1, upd_ctx (set_session 1) c n)
  else Ok (session, upd_ctx (set_session session) c n).

Definition skynet_context_grab (c : loc) (n : node) : outcome node :=
  x ← deref (ctxs n !! c);
  Ok (upd_ctx (set_ref (ref x + 1)) c n).

Definition skynet_context_reserve (c : loc) (n : node) : outcome node :=
  n ← skynet_context_grab c n;
  Ok (context_dec n).

Definition delete_context (c : loc) (n : node) : outcome node :=
  x ← deref (ctxs n !! c);
  let n := match logfile x with Some f => with_io (io n ++ [FileClose f]) n | None => n end in
  n ← skynet_module_instance_release (mod_ x) (instance x) n;
  s ← skynet_mq_mark_release (queue x) (mq n);
  let n := with_mq s n in
  let n := with_ctxs (delete c (ctxs n)) n in
  Ok (context_dec n).

(** [None]: the last reference went away and the context was deleted. *)
Definition skynet_context_release (c : loc) (n : node) : outcome (option loc * node) :=
  x ← deref (ctxs n !! c);
  let r := ref x - 1 in
  let n := upd_ctx (set_ref r) c n in
  if r =? 0 then n ← delete_context c n; Ok (None, n)
  else Ok (Some c, n).

Definition skynet_handle_grab (h : Z) (n : node) : outcome (option loc * node) :=
  r ← Slots.handle_lookup (skynet_context_handle n) h (handles n);
  match r with
  | Some c => n ← skynet_context_grab c n; Ok (Some c, n)
  | None => Ok (None, n)
  end.

(** [skynet_handle_retire]: the table forgets the handle and its reference is released. *)
Definition handle_retire (h : Z) (n : node) : outcome (Z * node) :=
  '(r, hs) ← Handle.skynet_handle_retire (skynet_context_handle n) h (handles n);
  let n := with_H hs n in
  match r with
  | Some c => '(_, n) ← skynet_context_release c n; Ok (1, n)
  | None => Ok (0, n)
  end.

(** ** Delivering *)

Definition skynet_context_push (h : Z) (message : skynet_message) (n : node)
    : outcome (Z * node) :=
  '(r, n) ← skynet_handle_grab h n;
  match r with
  | None => Ok (-1, n)
  | Some c =>
      x ← deref (ctxs n !! c);
      s ← skynet_mq_push (queue x) message (mq n);
      '(_, n) ← skynet_context_release c (with_mq s n);
      Ok (0, n)
  end.

Definition skynet_context_endless (h : Z) (n : node) : outcome node :=
  '(r, n) ← skynet_handle_grab h n;
  match r with
  | None => Ok n
  | Some c =>
      '(_, n) ← skynet_context_release c (upd_ctx (set_endless true) c n);
      Ok n
  end.

Definition skynet_context_send (c : loc) (msg : option loc) (size source type session : Z)
    (n : node) : outcome node :=
  x ← deref (ctxs n !! c);
  s ← skynet_mq_push (queue x)
        (Msg source session msg (Z.lor size (u64 (Z.shiftl type MESSAGE_TYPE_SHIFT)))) (mq n);
  Ok (with_mq s n).

(** [skynet_error]: one text message to the logger service; [text] is the
    formatted line, and the block holds it with its terminator. *)
Definition skynet_error (c : option loc) (text : cstr) (n : node) : outcome node :=
  lg ← (if logger n =? 0 then Names.skynet_handle_findname (str "logger") (handles n)
        else Ok (logger n));
  let n := with_logger lg n in
  if lg =? 0 then Ok n
  else
    let '(p, n) := malloc (text ++ [0]) n in
    let source := match c with None => 0 | Some c => skynet_context_handle n c end in
    let len := Z.of_nat (List.length text) in
    '(_, n) ← skynet_context_push lg
                (Msg source 0 (Some p) (Z.lor len (Z.shiftl PTYPE_TEXT MESSAGE_TYPE_SHIFT))) n;
    Ok n.

(** ** Harbor *)

(** [(unsigned int)harbor << HANDLE_REMOTE_SHIFT] *)
Definition skynet_harbor_init (harbor : Z) (n : node) : node :=
  with_harbor (u32 (Z.shiftl (u32 harbor) HANDLE_REMOTE_SHIFT)) (REMOTE n) n.

Definition skynet_harbor_message_isremote (h : Z) (n : node) : outcome bool :=
  _ ← c_assert (negb (HARBOR n =? 2^32 - 1));
  let hh := Z.land h (u32 (Z.lnot HANDLE_MASK)) in
  Ok (negb (hh =? HARBOR n) && negb (hh =? 0)).

Definition skynet_harbor_send (rmsg : loc) (source session : Z) (n : node) : outcome node :=
  rm ← deref (rheap n !! rmsg);
  let type := Z.shiftr (rm_sz rm) MESSAGE_TYPE_SHIFT in
  let rm := RemoteMsg (destination rm) (rm_message rm) (Z.land (rm_sz rm) MESSAGE_TYPE_MASK) in
  let n := with_rheap (<[rmsg := rm]> (rheap n)) n in
  _ ← c_assert (negb (type =? PTYPE_SYSTEM) && negb (type =? PTYPE_HARBOR)
                && bool_decide (is_Some (REMOTE n)));
  match REMOTE n with
  | Some r => skynet_context_send r (Some rmsg) 40 source type session n
  | None => Fault NullPointer
  end.

Definition skynet_harbor_start (c : loc) (n : node) : outcome node :=
  n ← skynet_context_reserve c n;
  Ok (with_harbor (HARBOR n) (Some c) n).

Definition skynet_harbor_exit (n : node) : outcome node :=
  let r := REMOTE n in
  let n := with_harbor (HARBOR n) None n in
  match r with
  | Some c => '(_, n) ← skynet_context_release c n; Ok n
  | None => Ok n
  end.

(** ** Sending *)

(** The result of [_filter_args]: the session, the data and the tagged size. *)
Definition _filter_args (context : option loc) (type session : Z) (d : option loc) (size : Z)
    (n : node) : outcome (Z * option loc * Z * node) :=
  let needcopy := Z.land type PTYPE_TAG_DONTCOPY =? 0 in
  let allocsession := negb (Z.land type PTYPE_TAG_ALLOCSESSION =? 0) in
  let type := Z.land type 0xff in
  '(session, n) ←
    (if allocsession then
       _ ← c_assert (session =? 0);
       match context with
       | Some c => skynet_context_newsession c n
       | None => Fault NullPointer
       end
     else Ok (session, n));
  '(d, n) ←
    match d with
    | Some p =>
        if needcopy then
          bytes ← deref (heap n !! p);
          if Z.of_nat (List.length bytes) <? size then Fault OutOfBounds
          else let '(msg, n) := malloc (take (Z.to_nat size) bytes ++ [0]) n in
               Ok (Some msg, n)
        else Ok (Some p, n)
    | None => Ok (None, n)
    end;
  Ok (session, d, Z.lor size (u64 (Z.shiftl type MESSAGE_TYPE_SHIFT)), n).

Definition too_large (dest : Z) : cstr :=
  str "The message to " ++ fmt_x dest ++ str " is too large".

Definition skynet_send (context : option loc) (source dest type session : Z)
    (d : option loc) (size : Z) (n : node) : outcome (Z * node) :=
  if negb (Z.land size MESSAGE_TYPE_MASK =? size) then
    n ← skynet_error context (too_large dest) n;
    n ← (if negb (Z.land type PTYPE_TAG_DONTCOPY =? 0) then skynet_free d n else Ok n);
    Ok (-1, n)
  else
    '(session, d, size, n) ← _filter_args context type session d size n;
    source ← (if source =? 0 then
                match context with
                | Some c => x ← deref (ctxs n !! c); Ok (handle x)
                | None => Fault NullPointer
                end
              else Ok source);
    if dest =? 0 then Ok (session, n)
    else
      remote ← skynet_harbor_message_isremote dest n;
      if (remote : bool) then
        let p := fresh (dom (heap n) ∪ dom (rheap n)) in
        let rmsg := RemoteMsg (RemoteName None dest) d size in
        n ← skynet_harbor_send p source session (with_rheap (<[p := rmsg]> (rheap n)) n);
        Ok (session, n)
      else
        '(r, n) ← skynet_context_push dest (Msg source session d size) n;
        if negb (r =? 0) then n ← skynet_free d n; Ok (-1, n)
        else Ok (session, n).

(** [copy_name]: the first 16 bytes of the address, padded with zeros. *)
Definition copy_name (addr : cstr) : cstr :=
  let k := Z.to_nat GLOBALNAME_LENGTH in
  take k addr ++ replicate (k - List.length addr) 0.

(** [addr[0]] of a C string: 0 when it is empty.  58 is a colon, 46 a dot. *)
Definition first (s : cstr) : Z := default 0 (head s).

Definition skynet_sendname (context : loc) (source : Z) (addr : cstr) (type session : Z)
    (d : option loc) (size : Z) (n : node) : outcome (Z * node) :=
  source ← (if source =? 0 then x ← deref (ctxs n !! context); Ok (handle x) else Ok source);
  if first addr =? 58 then
    skynet_send (Some context) source (u32 (strtoul16 (tail addr))) type session d size n
  else if first addr =? 46 then
    des ← Names.skynet_handle_findname (tail addr) (handles n);
    if des =? 0 then
      n ← (if negb (Z.land type PTYPE_TAG_DONTCOPY =? 0) then skynet_free d n else Ok n);
      Ok (-1, n)
    else skynet_send (Some context) source des type session d size n
  else
    '(session, d, size, n) ← _filter_args (Some context) type session d size n;
    let p := fresh (dom (heap n) ∪ dom (rheap n)) in
    let rmsg := RemoteMsg (RemoteName (Some (copy_name addr)) 0) d size in
    n ← skynet_harbor_send p source session (with_rheap (<[p := rmsg]> (rheap n)) n);
    Ok (session, n).

(** [drop_message]: tell the sender that its message was not handled; [h] is
    the handle in the [drop_t] it is given. *)
Definition drop_message (h : Z) (msg : skynet_message) (n : node) : outcome node :=
  n ← skynet_free (data msg) n;
  _ ← c_assert (negb (h =? 0));
  '(_, n) ← skynet_send None h (source msg) PTYPE_ERROR 0 None 0 n;
  Ok n.

(** [skynet_mq_release] with [drop_message]; one round per message left and one
    to see the queue empty. *)
Definition release_queue (q : loc) (h : Z) (n : node) : outcome node :=
  x ← deref (mqs (mq n) !! q);
  skynet_mq_release (drop_message h) (S (Z.to_nat (Ring.skynet_mq_length x))) q n.

Definition skynet_callback (context : loc) (b : Z) (n : node) : node :=
  upd_ctx (set_cb (Some b)) context n.

(** ** Monitor *)

Definition skynet_monitor_new : skynet_monitor := Monitor 0 0 0 0.

(** [ATOM_INC] on an [int] wraps. *)
Definition skynet_monitor_trigger (sm : skynet_monitor) (src dest : Z) : skynet_monitor :=
  Monitor (i32 (version sm + 1)) (check_version sm) src dest.

Definition skynet_monitor_check (sm : skynet_monitor) (n : node)
    : outcome (skynet_monitor * node) :=
  if version sm =? check_version sm then
    if negb (mon_destination sm =? 0) then
      n ← skynet_context_endless (mon_destination sm) n;
      n ← skynet_error None
        (str "A message from [ :" ++ pad_x 8 (mon_source sm) ++ str " ] to [ :"
         ++ pad_x 8 (mon_destination sm) ++ str " ] maybe in an endless loop (version = "
         ++ fmt_d (version sm) ++ str ")") n;
      Ok (sm, n)
    else Ok (sm, n)
  else Ok (Monitor (version sm) (version sm) (mon_source sm) (mon_destination sm), n).

(** ** Dispatching *)
Section Dispatch.
(** A service's callback: its id, the context, type, session, source, data and
    size; it returns whether it keeps the data. *)
Variable callback : Z -> loc -> Z -> Z -> Z -> option loc -> Z -> node -> outcome (Z * node).
(** [skynet_thread_time] before and after the callback. *)
Variable thread_time : Z * Z.

(** [++ctx->message_count]: after 2^31 messages the [int] overflows, which is undefined;
    here the counter wraps instead, since it only feeds the answer of STAT. *)
Definition dispatch_message (c : loc) (msg : skynet_message) (n : node) : outcome node :=
  x ← deref (ctxs n !! c);
  _ ← c_assert (init x);
  let type := Z.shiftr (sz msg) MESSAGE_TYPE_SHIFT in
  let size := Z.land (sz msg) MESSAGE_TYPE_MASK in
  let n := match logfile x with
           | Some f => with_io (io n ++ [LogOutput f (source msg) type (session msg) (data msg) size]) n
           | None => n
           end in
  let n := upd_ctx (set_count (i32 (message_count x + 1))) c n in
  match cb x with
  | None => Fault NullPointer
  | Some f =>
      '(reserve_msg, n) ←
        (if profile x then
           let n := upd_ctx (fun y => set_cpu (cpu_cost y) thread_time.1 y) c n in
           '(r, n) ← callback f c type (session msg) (source msg) (data msg) size n;
           Ok (r, upd_ctx (fun y =>
                    set_cpu (u64 (cpu_cost y + (thread_time.2 - cpu_start y))) (cpu_start y) y) c n)
         else callback f c type (session msg) (source msg) (data msg) size n);
      if reserve_msg =? 0 then skynet_free (data msg) n else Ok n
  end.

(** [for (i=0;i<n;i++)] of [skynet_context_message_dispatch], from index [i] with
    bound [bound]; [None] when the queue ran empty and the worker let go of it. *)
Fixpoint dispatch_loop (fuel : nat) (i bound weight : Z) (q c : loc) (h : Z)
    (sm : skynet_monitor) (n : node) : outcome (bool * skynet_monitor * node) :=
  match fuel with
  | O => Fault OutOfFuel
  | S fuel =>
      if i <? bound then
        '(r, s) ← mq_pop q (mq n);
        let n := with_mq s n in
        match r with
        | None => Ok (false, sm, n)
        | Some msg =>
            x ← deref (mqs (mq n) !! q);
            let bound := if (i =? 0) && (0 <=? weight)
                         then Z.shiftr (Ring.skynet_mq_length x) weight else bound in
            let '(ov, x) := Ring.skynet_mq_overload x in
            let n := with_mq (MS (<[q := x]> (mqs (mq n))) (Q (mq n))) n in
            n ← (if negb (ov =? 0) then
                   skynet_error (Some c)
                     (str "May overload, message queue length = " ++ fmt_d ov) n
                 else Ok n);
            let sm := skynet_monitor_trigger sm (source msg) h in
            y ← deref (ctxs n !! c);
            n ← match cb y with
                | None => skynet_free (data msg) n
                | Some _ => dispatch_message c msg n
                end;
            let sm := skynet_monitor_trigger sm 0 0 in
            dispatch_loop fuel (i + 1) bound weight q c h sm n
        end
      else Ok (true, sm, n)
  end.

(** A round handles at most the messages that were in the queue: [fuel] is their
    number and one more for the exit test. *)
Definition skynet_context_message_dispatch (sm : skynet_monitor) (q : option loc) (weight : Z)
    (n : node) : outcome (option loc * skynet_monitor * node) :=
  '(q, n) ← match q with
            | Some q => Ok (Some q, n)
            | None => '(r, s) ← skynet_globalmq_pop (mq n); Ok (r, with_mq s n)
            end;
  match q with
  | None => Ok (None, sm, n)
  | Some q =>
      x ← deref (mqs (mq n) !! q);
      let h := mq_handle x in
      '(r, n) ← skynet_handle_grab h n;
      match r with
      | None =>
          n ← release_queue q h n;
          '(r, s) ← skynet_globalmq_pop (mq n);
          Ok (r, sm, with_mq s n)
      | Some c =>
          '(more, sm, n) ← dispatch_loop (S (S (Z.to_nat (Ring.skynet_mq_length x)))) 0 1 weight q c h sm n;
          if (more : bool) then
            y ← deref (ctxs n !! c);
            _ ← c_assert (bool_decide (q = queue y));
            '(nq, s) ← skynet_globalmq_pop (mq n);
            let n := with_mq s n in
            '(q', n) ← match nq with
                       | Some nq => s ← skynet_globalmq_push q (mq n); Ok (nq, with_mq s n)
                       | None => Ok (q, n)
                       end;
            '(_, n) ← skynet_context_release c n;
            Ok (Some q', sm, n)
          else
            '(_, n) ← skynet_context_release c n;
            '(r, s) ← skynet_globalmq_pop (mq n);
            Ok (r, sm, with_mq s n)
      end
  end.

(** [skynet_context_dispatchall] *)
Fixpoint skynet_context_dispatchall (fuel : nat) (c : loc) (n : node) : outcome node :=
  match fuel with
  | O => Fault OutOfFuel
  | S fuel =>
      x ← deref (ctxs n !! c);
      '(r, s) ← mq_pop (queue x) (mq n);
      let n := with_mq s n in
      match r with
      | None => Ok n
      | Some msg => n ← dispatch_message c msg n; skynet_context_dispatchall fuel c n
      end
  end.
End Dispatch.
