(* ===== verification/Delivery.v ===== *)
(** * Correctness of sending, dispatching and releasing

    [node_inv] ties the contexts, the handle table and the queues of a node
    together on top of the scheduling invariant of [Sched.v]: it is what
    discharges the calling rules assumed there. *)

From S2P Require Import Prelude Mq Sched Timer Handle Text Module Server.
From stdpp Require Import base numbers list gmap.
From Stdlib Require Import ZArith Lia String.
#[local] Open Scope Z_scope.
#[local] Open Scope list_scope.
Import Ring Global.

(** [O]: the queues in the hands of workers; [l]: the global list. *)
Record node_inv (n : node) (O : gset loc) (l : list loc) : Prop := {
  ni_sched : Sched.inv (Sched (mq n) O) l;
  ni_ctx : forall c x, ctxs n !! c = Some x -> 0 < ref x /\
    exists q, mqs (mq n) !! queue x = Some q /\ mq_release q = 0;
  ni_own : forall c c' x x', ctxs n !! c = Some x -> ctxs n !! c' = Some x' ->
    queue x = queue x' -> c = c';
  ni_slots : slots_wf (skynet_context_handle n) (handles n);
  ni_table : forall c, holds (handles n) c -> is_Some (ctxs n !! c);
  ni_names : exists names, names_repr (handles n) names;
  ni_mod : exists ms, modules_wf (M n) ms /\ forall c x, ctxs n !! c = Some x ->
    0 <= mod_ x < Z.of_nat (List.length ms)
}.

Lemma module_at_ok n O l c x :
  node_inv n O l -> ctxs n !! c = Some x -> exists md, module_at (mod_ x) n = Ok md.
Proof.
  intros I Hx. destruct (ni_mod _ _ _ I) as (ms & [(rest & Er) _ _ _ _] & Hm).
  specialize (Hm c x Hx). destruct (lookup_lt_is_Some_2 ms (Z.to_nat (mod_ x))) as [md Hmd]; [lia|].
  exists md. unfold module_at. rewrite Er, (arr_get_ok _ _ (Some md)); [done|lia|].
  rewrite lookup_app_l by (rewrite length_fmap; lia). by rewrite list_lookup_fmap, Hmd.
Qed.

(** The messages waiting in the queue at [q]. *)
Definition waiting (n : node) (q : loc) (items : list skynet_message) : Prop :=
  exists x, mqs (mq n) !! q = Some x /\ mq_repr x items.

(** Taking and dropping a reference changes nothing. *)
Lemma ref_back n c x :
  ctxs n !! c = Some x ->
  alter (set_ref (ref x)) c (alter (set_ref (ref x + 1)) c (ctxs n)) = ctxs n.
Proof.
  intros Hx. apply map_eq. intros k. destruct (decide (c = k)) as [<-|].
  - rewrite !lookup_alter_eq, Hx. cbn. by destruct x.
  - by rewrite !lookup_alter_ne.
Qed.

Lemma release_held n c x s :
  ctxs n !! c = Some x -> 0 < ref x ->
  skynet_context_release c (with_mq s (upd_ctx (set_ref (ref x + 1)) c n)) = Ok (Some c, with_mq s n).
Proof.
  intros Hx Hr. unfold skynet_context_release, upd_ctx. cbn [ctxs with_mq with_ctxs].
  rewrite lookup_alter_eq, Hx. cbn [deref fmap option_fmap option_map]. rewrite bind_ret.
  cbn [ref set_ref]. replace (ref x + 1 - 1) with (ref x) by lia.
  destruct (Z.eqb_spec (ref x) 0); [lia|]. by rewrite ref_back.
Qed.

(** ** Pushing to a queue *)

(** [pushed q items m s s']: [m] went to the end of [q], and of the other queues
    at most a [next] pointer changed. *)
Definition pushed (q : loc) (items : list skynet_message) (m : skynet_message)
    (s s' : mqstate) : Prop :=
  (exists x', mqs s' !! q = Some x' /\ mq_repr x' (items ++ [m]) /\ mq_release x' = 0) /\
  forall p, p <> q -> exists nx, mqs s' !! p = set_next nx <$> mqs s !! p.

Lemma push_alive n O l q x items m :
  node_inv n O l -> mqs (mq n) !! q = Some x -> mq_release x = 0 -> mq_repr x items ->
  Z.of_nat (List.length items) + 1 < 2^30 ->
  exists s l', skynet_mq_push q m (mq n) = Ok s /\ Sched.inv (Sched s O) l' /\
    pushed q items m (mq n) s.
Proof.
  intros I Hq Hrel Hr Hlen. destruct (ni_sched _ _ _ I) as [G Hd Ho Hk]; cbn in *.
  destruct (step_push q m (Sched (mq n) O) l (ni_sched _ _ _ I)) as (st & l' & E & I').
  { cbn. unfold alive, has_room. rewrite Hq, (length_repr _ _ Hr). apply andb_true_iff.
    split; [by apply Z.eqb_eq|by apply Z.ltb_lt]. }
  cbn [exec sc_mq sc_owned] in E. inv_ok. rename r into s. exists s, l'. split; [done|]. split; [done|].
  destruct (enqueue_repr x items m Hr Hlen) as (x' & Ex & Hr' & Hg & Hn & Hrel' & _).
  unfold skynet_mq_push in E0. rewrite Hq in E0. cbn [deref] in E0.
  rewrite bind_ret, Ex, bind_ret in E0.
  destruct (Z.eqb_spec (mq_in_global x') 0) as [Eg|Eg].
  - destruct (Hk q x Hq) as (it0 & _ & Hok). rewrite Hrel in Hok. cbn in Hok.
    destruct Hok as [[? _]|(_ & [Hnl _]%busy_false & _)]; [lia|].
    set (y := set_in_global MQ_IN_GLOBAL x') in E0.
    destruct (globalmq_push_repr (MS (<[q:=y]> (mqs (mq n))) (Q (mq n))) l q y)
      as (s' & E' & _ & Hid).
    { eapply gq_repr_update; [done|done|]. by cbn. } { by cbn; rewrite lookup_insert_eq. } { done. }
    rewrite E' in E0. injection E0 as <-. split.
    + destruct (Hid q) as [nx En]. cbn [mqs] in En. rewrite lookup_insert_eq in En.
      eexists. split; [exact En|]. split; [|cbn; congruence].
      apply mq_repr_next. by destruct Hr'.
    + intros p Hne. destruct (Hid p) as [nx En]. exists nx. cbn [mqs] in En.
      by rewrite lookup_insert_ne in En by done.
  - injection E0 as <-. split; cbn [mqs].
    + exists x'. rewrite lookup_insert_eq. split; [done|]. split; [done|]. congruence.
    + intros p Hne. rewrite lookup_insert_ne by done.
      destruct (mqs (mq n) !! p) as [y|]; [exists (mq_next y); by destruct y|by exists None].
Qed.

(** Messages of a queue are unaffected by a push to another one. *)
Lemma pushed_other q items m s s' p y :
  pushed q items m s s' -> p <> q -> mqs s !! p = Some y ->
  exists y', mqs s' !! p = Some y' /\ mq_release y' = mq_release y /\
    forall it, mq_repr y it -> mq_repr y' it.
Proof.
  intros [_ Hp] Hne Hy. destruct (Hp p Hne) as [nx E]. rewrite Hy in E.
  eexists. split; [exact E|]. split; [done|]. intros it. apply mq_repr_next.
Qed.

Lemma node_inv_pushed n O l q items m s l' :
  node_inv n O l -> Sched.inv (Sched s O) l' -> pushed q items m (mq n) s ->
  node_inv (with_mq s n) O l'.
Proof.
  intros [Is Ic Io Ish It Inm Im] I' P. split; [done| |done|done|done|done|done].
  intros c x Hx. cbn in Hx. destruct (Ic c x Hx) as [Hr (y & Hy & Hrel)]. split; [done|].
  cbn [mq with_mq]. destruct (decide (queue x = q)) as [->|Hne].
  - destruct P as [(x' & Hx' & _ & Hrel') _]. eauto.
  - destruct (pushed_other _ _ _ _ _ _ _ P Hne Hy) as (y' & Hy' & Hr' & _).
    exists y'. split; [done|]. congruence.
Qed.

(** ** Pushing to a handle *)

Lemma context_push_dead h m n :
  Slots.handle_lookup (skynet_context_handle n) h (handles n) = Ok None -> skynet_context_push h m n = Ok (-1, n).
Proof. intros E. unfold skynet_context_push, skynet_handle_grab. by rewrite E. Qed.

Lemma context_push_live h c x items m n O l :
  node_inv n O l -> Slots.handle_lookup (skynet_context_handle n) h (handles n) = Ok (Some c) ->
  ctxs n !! c = Some x -> waiting n (queue x) items ->
  Z.of_nat (List.length items) + 1 < 2^30 ->
  exists s l', skynet_context_push h m n = Ok (0, with_mq s n) /\
    node_inv (with_mq s n) O l' /\ pushed (queue x) items m (mq n) s.
Proof.
  intros I El Hx (q & Hq & Hr) Hlen. destruct (ni_ctx _ _ _ I c x Hx) as [Hpos (q' & Hq' & Hrel)].
  rewrite Hq in Hq'. injection Hq' as <-.
  destruct (push_alive n O l (queue x) q items m I Hq Hrel Hr Hlen) as (s & l' & Es & Is & P).
  exists s, l'. split; [|split; [by eapply node_inv_pushed|done]].
  unfold skynet_context_push, skynet_handle_grab, skynet_context_grab.
  rewrite El, bind_ret, Hx. cbn [deref]. rewrite !bind_ret. cbn [ctxs upd_ctx with_ctxs].
  rewrite lookup_alter_eq, Hx. cbn [deref fmap option_fmap option_map queue set_ref]. rewrite bind_ret.
  change (mq (upd_ctx (set_ref (ref x + 1)) c n)) with (mq n).
  cbn [queue set_ref]. by rewrite Es, bind_ret, (release_held n c x s Hx Hpos).
Qed.

(** ** Arguments of a send *)

Lemma slots_wf_ext hd hd' s :
  (forall c, holds s c -> hd' c = hd c) -> slots_wf hd s -> slots_wf hd' s.
Proof.
  intros E [? ? ? ? Hc]. split; try done. intros i c Hi. rewrite E by by exists i. by apply Hc.
Qed.

Lemma handle_lookup_ext hd hd' h s :
  (forall c, hd' c = hd c) -> Slots.handle_lookup hd' h s = Slots.handle_lookup hd h s.
Proof.
  intros E. unfold Slots.handle_lookup. destruct (arr_get _ _) as [[c|]|]; cbn; [|done..].
  by rewrite E.
Qed.

(** An update of a context that leaves alone what the invariant reads. *)
Definition keeps (f : skynet_context -> skynet_context) : Prop :=
  forall x, (0 < ref x -> 0 < ref (f x)) /\ queue (f x) = queue x /\ handle (f x) = handle x /\ mod_ (f x) = mod_ x.

Lemma handle_upd f c n k :
  keeps f -> skynet_context_handle (upd_ctx f c n) k = skynet_context_handle n k.
Proof.
  intros K. unfold skynet_context_handle, upd_ctx; cbn. destruct (decide (c = k)) as [<-|].
  - rewrite lookup_alter_eq. destruct (ctxs n !! c); cbn; [apply K|done].
  - by rewrite lookup_alter_ne.
Qed.

Lemma ctx_upd f c n k y :
  ctxs (upd_ctx f c n) !! k = Some y ->
  exists x, ctxs n !! k = Some x /\ y = if decide (c = k) then f x else x.
Proof.
  cbn. destruct (decide (c = k)) as [<-|].
  - rewrite lookup_alter_eq. destruct (ctxs n !! c) as [x|]; [|done]. intros [= <-]. eauto.
  - rewrite lookup_alter_ne by done. eauto.
Qed.

Lemma keeps_at f (c k : loc) x : keeps f ->
  let y := if decide (c = k) then f x else x in
  (0 < ref x -> 0 < ref y) /\ queue y = queue x /\ handle y = handle x /\ mod_ y = mod_ x.
Proof. intros K. cbv zeta. by destruct (decide (c = k)). Qed.

Lemma node_inv_upd f c n O l : keeps f -> node_inv n O l -> node_inv (upd_ctx f c n) O l.
Proof.
  intros K [Is Ic Io Ish It Inm Im]. split; [done| | | | |done|].
  - intros k y Hy. apply ctx_upd in Hy as (x & Hx & ->).
    destruct (keeps_at f c k x K) as (Hr & -> & _). destruct (Ic k x Hx). auto.
  - intros k k' y y' Hy Hy' Hq. apply ctx_upd in Hy as (x & Hx & ->).
    apply ctx_upd in Hy' as (x' & Hx' & ->).
    destruct (keeps_at f c k x K) as (_ & E & _). destruct (keeps_at f c k' x' K) as (_ & E' & _).
    apply (Io k k' x x' Hx Hx'). cbv zeta in E, E'. congruence.
  - eapply slots_wf_ext; [|exact Ish]. intros k _. by apply handle_upd.
  - intros k Hk. cbn. destruct (It k Hk) as [x Hx]. destruct (decide (c = k)) as [<-|].
    + rewrite lookup_alter_eq, Hx. by eexists.
    + rewrite lookup_alter_ne by done. by eexists.
  - destruct Im as (ms & W & Hm). exists ms. split; [done|]. intros k y Hy.
    apply ctx_upd in Hy as (x & Hx & ->).
    destruct (keeps_at f c k x K) as (_ & _ & _ & ->). by apply (Hm k x).
Qed.

Lemma node_inv_heap h n O l : node_inv n O l -> node_inv (with_heap h n) O l.
Proof. by intros []. Qed.

Definition needcopy (type : Z) : bool := Z.land type PTYPE_TAG_DONTCOPY =? 0.
Definition allocsession (type : Z) : bool := negb (Z.land type PTYPE_TAG_ALLOCSESSION =? 0).
(** [sz | (size_t)(type & 0xff) << MESSAGE_TYPE_SHIFT] *)
Definition tagged (size type : Z) : Z :=
  Z.lor size (u64 (Z.shiftl (Z.land type 0xff) MESSAGE_TYPE_SHIFT)).

(** What a caller must have right: a session it asks for is not given as well,
    and the data is as long as it says when it is to be copied. *)
Definition args_ok (n : node) (x : skynet_context) (type session : Z) (d : option loc)
    (size : Z) : Prop :=
  (allocsession type = true -> session = 0 /\ 0 <= session_id x < INT_MAX) /\
  (forall p, d = Some p -> exists b, heap n !! p = Some b /\ size <= Z.of_nat (List.length b)).

(** The payload a message carries: the caller's block itself, or a copy with a
    terminator in a fresh block. *)
Definition payload (h : gmap loc (list Z)) (copy : bool) (d : option loc) (size : Z)
    (d' : option loc) (h' : gmap loc (list Z)) : Prop :=
  match d with
  | Some p =>
      if copy then exists b p', h !! p = Some b /\ h !! p' = None /\ d' = Some p' /\
        h' = <[p' := take (Z.to_nat size) b ++ [0]]> h
      else d' = d /\ h' = h
  | None => d' = None /\ h' = h
  end.

Lemma type_mask_mod size : Z.land size MESSAGE_TYPE_MASK = size mod 2^56.
Proof. change MESSAGE_TYPE_MASK with (2^56 - 1). by apply land_mask. Qed.

(** The type and the size come back out of the tagged word. *)
Lemma tagged_inv size type : 0 <= size < 2^56 ->
  Z.shiftr (tagged size type) MESSAGE_TYPE_SHIFT = Z.land type 0xff /\
  Z.land (tagged size type) MESSAGE_TYPE_MASK = size.
Proof.
  intros Hs. unfold tagged. change MESSAGE_TYPE_SHIFT with 56.
  assert (Ht : 0 <= Z.land type 0xff < 2^8) by (apply (land_mask_range type 8); lia).
  rewrite Z.shiftl_mul_pow2 by lia. unfold u64. rewrite Z.mod_small by lia.
  rewrite lor_disjoint by lia. split.
  - rewrite Z.shiftr_div_pow2, Z.div_add, Z.div_small by lia. lia.
  - rewrite type_mask_mod, Z.mod_add, Z.mod_small by lia. done.
Qed.

Lemma filter_args_spec n c x type session d size :
  ctxs n !! c = Some x -> args_ok n x type session d size ->
  exists sess d' h' f,
    _filter_args (Some c) type session d size n
      = Ok (sess, d', tagged size type, with_heap h' (upd_ctx f c n)) /\
    keeps f /\ sess = (if allocsession type then session_id x + 1 else session) /\
    payload (heap n) (needcopy type) d size d' h'.
Proof.
  intros Hx [Hs Hd]. unfold _filter_args. fold (needcopy type). fold (allocsession type).
  fold (tagged size type).
  assert (exists f, keeps f /\
    (if allocsession type then _ ← c_assert (session =? 0); skynet_context_newsession c n
     else Ok (session, n))
    = Ok (if allocsession type then session_id x + 1 else session, upd_ctx f c n)) as (f & K & ->).
  { destruct (allocsession type).
    - destruct (Hs eq_refl) as [-> Hr]. exists (set_session (session_id x + 1)).
      split; [done|]. unfold skynet_context_newsession, INT_MAX in *. rewrite Hx.
      cbn [c_assert Z.eqb deref]. rewrite !bind_ret, c_int_ok by lia. rewrite bind_ret.
      destruct (Z.leb_spec (session_id x + 1) 0); [lia|done].
    - exists (fun y => y). split; [done|]. do 2 f_equal. unfold upd_ctx.
      replace (alter (fun y => y) c (ctxs n)) with (ctxs n); [by destruct n|].
      apply map_eq. intros k. destruct (decide (c = k)) as [<-|];
        [rewrite lookup_alter_eq; by destruct (ctxs n !! c)|by rewrite lookup_alter_ne]. }
  rewrite bind_ret. destruct d as [p|]; cbn [payload].
  - destruct (needcopy type).
    + destruct (Hd p eq_refl) as (b & Hb & Hlen). cbn [heap upd_ctx with_ctxs]. rewrite Hb.
      cbn [deref]. rewrite bind_ret. destruct (Z.ltb_spec (Z.of_nat (List.length b)) size); [lia|].
      cbn. eexists _, _, _, f. split; [done|]. split; [done|]. split; [done|].
      exists b. eexists. split; [done|]. split; [|done].
      apply not_elem_of_dom. intros Hin.
      apply (is_fresh (dom (heap n) ∪ dom (rheap n))). by apply elem_of_union_l.
    + cbn. exists (if allocsession type then session_id x + 1 else session), (Some p), (heap n), f.
      split_and!; [|done..]. by destruct n.
  - cbn. exists (if allocsession type then session_id x + 1 else session), None, (heap n), f.
    split_and!; [|done..]. by destruct n.
Qed.

(** ** Sending to a local service *)

(** The source a message carries. *)
Definition sender (x : skynet_context) (src : Z) : Z := if src =? 0 then handle x else src.

(** [skynet_send] past its argument handling, for a destination of this node. *)
Lemma send_local_start n c x type session d size src dest :
  ctxs n !! c = Some x -> args_ok n x type session d size -> 0 <= size < 2^56 ->
  dest <> 0 -> skynet_harbor_message_isremote dest n = Ok false ->
  exists sess d' h' f, let n1 := with_heap h' (upd_ctx f c n) in
    skynet_send (Some c) src dest type session d size n
      = ('(r, n2) ← skynet_context_push dest (Msg (sender x src) sess d' (tagged size type)) n1;
         if negb (r =? 0) then n2 ← skynet_free d' n2; Ok (-1, n2) else Ok (sess, n2)) /\
    keeps f /\ sess = (if allocsession type then session_id x + 1 else session) /\
    payload (heap n) (needcopy type) d size d' h'.
Proof.
  intros Hx Ha Hs Hd Hrem.
  destruct (filter_args_spec n c x type session d size Hx Ha) as (sess & d' & h' & f & Ef & K & Es & P).
  exists sess, d', h', f. split; [|done]. unfold skynet_send.
  rewrite type_mask_mod, Z.mod_small, Z.eqb_refl by lia. cbn [negb]. rewrite Ef, bind_ret.
  assert (skynet_harbor_message_isremote dest (with_heap h' (upd_ctx f c n)) = Ok false) as Er by done.
  assert (Esrc : (if src =? 0 then y ← deref (ctxs (with_heap h' (upd_ctx f c n)) !! c); Ok (handle y)
                  else Ok src) = Ok (sender x src)).
  { unfold sender. destruct (src =? 0); [|done]. cbn [ctxs with_heap upd_ctx with_ctxs].
    rewrite lookup_alter_eq, Hx. cbn [fmap option_fmap option_map deref]. rewrite bind_ret.
    by destruct (K x) as (_ & _ & -> & _). }
  rewrite Esrc, bind_ret. destruct (Z.eqb_spec dest 0); [done|]. by rewrite Er, bind_ret.
Qed.

(** C9.  A send to a live service of this node appends exactly one message to the
    end of that service's queue, with the sender's handle, the session (a fresh
    positive one when it is to be allocated), and a size word from which the
    type and the size are recovered; the payload is the caller's block or a
    terminated copy of it; the call returns the session, no other queue or
    context is disturbed, and the invariant of the node is kept. *)
Theorem send_local_delivers n O l c x dest dc y items type session d size src :
  node_inv n O l -> ctxs n !! c = Some x -> args_ok n x type session d size ->
  0 <= size < 2^56 -> dest <> 0 -> skynet_harbor_message_isremote dest n = Ok false ->
  Slots.handle_lookup (skynet_context_handle n) dest (handles n) = Ok (Some dc) ->
  ctxs n !! dc = Some y -> waiting n (queue y) items ->
  Z.of_nat (List.length items) + 1 < 2^30 ->
  exists sess d' w n' l',
    skynet_send (Some c) src dest type session d size n = Ok (sess, n') /\
    node_inv n' O l' /\
    waiting n' (queue y) (items ++ [Msg (sender x src) sess d' w]) /\
    (forall q it, q <> queue y -> waiting n q it -> waiting n' q it) /\
    Z.shiftr w MESSAGE_TYPE_SHIFT = Z.land type 0xff /\ Z.land w MESSAGE_TYPE_MASK = size /\
    (if allocsession type then sess = session_id x + 1 /\ 0 < sess else sess = session) /\
    payload (heap n) (needcopy type) d size d' (heap n').
Proof.
  intros I Hx Ha Hs Hd Hrem El Hy Hw Hlen.
  destruct (send_local_start n c x type session d size src dest Hx Ha Hs Hd Hrem)
    as (sess & d' & h' & f & -> & K & Es & P).
  set (n1 := with_heap h' (upd_ctx f c n)).
  assert (I1 : node_inv n1 O l) by by apply node_inv_heap, node_inv_upd.
  assert (exists y1, ctxs n1 !! dc = Some y1 /\ queue y1 = queue y) as (y1 & Hy1 & Eq).
  { cbn. destruct (decide (c = dc)) as [<-|].
    - rewrite lookup_alter_eq, Hy. eexists. split; [done|]. apply K.
    - rewrite lookup_alter_ne by done. eauto. }
  destruct (context_push_live dest dc y1 items (Msg (sender x src) sess d' (tagged size type)) n1 O l)
    as (s & l' & -> & I2 & Pu); [done| |done|by rewrite Eq|done|].
  { rewrite <- El. apply handle_lookup_ext. intros k. by apply handle_upd. }
  rewrite bind_ret. cbn [negb Z.eqb]. exists sess, d', (tagged size type), (with_mq s n1), l'.
  split; [done|]. split; [done|].
  destruct (tagged_inv size type Hs) as [Ht Hz]. rewrite Eq in Pu.
  split; [|split; [|split; [done|split; [done|split; [|done]]]]].
  - destruct Pu as [(q' & Hq' & Hr' & _) _]. by exists q'.
  - intros q it Hne (z & Hz' & Hr). destruct (pushed_other _ _ _ _ _ q z Pu Hne Hz') as (z' & ? & _ & ?).
    exists z'. auto.
  - rewrite Es. destruct Ha as [Ha _]. destruct (allocsession type); [|done].
    split; [done|]. destruct Ha; [done|]. lia.
Qed.

(** A send to a handle that no service of this node has returns -1 and
    leaks nothing: queues are untouched, a copied payload is freed again, and a
    payload whose ownership was passed is freed. *)
Theorem send_dead_frees n c x dest type session d size src :
  ctxs n !! c = Some x -> args_ok n x type session d size ->
  0 <= size < 2^56 -> dest <> 0 -> skynet_harbor_message_isremote dest n = Ok false ->
  Slots.handle_lookup (skynet_context_handle n) dest (handles n) = Ok None ->
  exists n', skynet_send (Some c) src dest type session d size n = Ok (-1, n') /\
    mq n' = mq n /\ handles n' = handles n /\
    heap n' = match d with
              | Some p => if needcopy type then heap n else delete p (heap n)
              | None => heap n
              end.
Proof.
  intros Hx Ha Hs Hd Hrem El.
  destruct (send_local_start n c x type session d size src dest Hx Ha Hs Hd Hrem)
    as (sess & d' & h' & f & -> & K & Es & P).
  rewrite context_push_dead by (rewrite <- El; apply handle_lookup_ext; intros k; by apply handle_upd).
  rewrite bind_ret. cbn [negb Z.eqb]. destruct d as [p|]; cbn in P.
  - destruct (needcopy type).
    + destruct P as (b & p' & Hb & Hp' & -> & ->). cbn [skynet_free heap with_heap].
      rewrite lookup_insert_eq. eexists. split; [done|]. cbn.
      by rewrite delete_insert_id.
    + destruct P as [-> ->]. destruct Ha as [_ Ha]. destruct (Ha p eq_refl) as (b & Hb & _).
      cbn [skynet_free heap with_heap]. rewrite Hb. by eexists.
  - destruct P as [-> ->]. by eexists.
Qed.

(** ** Releasing a context *)

(** [mark_release] on the queue of a live context: it stays, or comes, under the
    eyes of a worker, with its messages. *)
Lemma mark_alive s O l q x :
  Sched.inv (Sched s O) l -> mqs s !! q = Some x -> mq_release x = 0 ->
  exists s' l', skynet_mq_mark_release q s = Ok s' /\ Sched.inv (Sched s' O) l' /\
    (exists x', mqs s' !! q = Some x' /\ mq_release x' = 1 /\
       (forall it, mq_repr x it -> mq_repr x' it) /\ (q ∈ l' \/ q ∈ O)) /\
    forall p, p <> q -> exists nx, mqs s' !! p = set_next nx <$> mqs s !! p.
Proof.
  intros I Hq Hrel. assert (He : alive s q = true) by (unfold alive; rewrite Hq; by apply Z.eqb_eq).
  destruct (step_mark q (Sched s O) l I He) as (st & l' & E & I').
  cbn [exec sc_mq sc_owned] in E. inv_ok. rename r into s'. exists s', l'. split; [done|]. split; [done|].
  assert (Hid : exists nx, mqs s' !! q = Some (set_next nx (set_release 1 x)) /\
    forall p, p <> q -> exists nx, mqs s' !! p = set_next nx <$> mqs s !! p).
  { unfold skynet_mq_mark_release in E0. rewrite Hq in E0. cbn [deref] in E0.
    rewrite bind_ret, Hrel in E0. cbn [c_assert Z.eqb] in E0. rewrite bind_ret in E0.
    set (s1 := MS _ _) in E0.
    assert (Hn : forall p, exists nx, mqs s' !! p = set_next nx <$> mqs s1 !! p).
    { destruct (negb _) in E0; [by eapply globalmq_push_next|]. injection E0 as <-.
      intros p. apply next_same. }
    destruct (Hn q) as [nx Enx]. exists nx. split.
    - rewrite Enx. cbn. by rewrite lookup_insert_eq.
    - intros p Hne. destruct (Hn p) as [nx' En]. exists nx'. rewrite En. cbn.
      by rewrite lookup_insert_ne. }
  destruct Hid as (nx & Hx' & Hid). split; [|done].
  eexists. split; [exact Hx'|]. split; [done|]. split.
  - intros it Hr. apply mq_repr_next. by destruct Hr.
  - apply busy_true. destruct (inv_queue _ _ I' q _ Hx') as (it & _ & Hb). exact Hb.
Qed.

(** The last reference to a context goes away. *)
Lemma release_last n O l c x :
  node_inv n O l -> ctxs n !! c = Some x -> ref x = 1 -> ~ holds (handles n) c ->
  exists n' l', skynet_context_release c n = Ok (None, n') /\ node_inv n' O l' /\
    ctxs n' = delete c (ctxs n) /\ handles n' = handles n /\ heap n' = heap n /\ g_total n' = g_total n - 1 /\
    (exists y y', mqs (mq n) !! queue x = Some y /\ mqs (mq n') !! queue x = Some y' /\
       mq_release y' = 1 /\ (forall it, mq_repr y it -> mq_repr y' it)) /\
    (queue x ∈ l' \/ queue x ∈ O).
Proof.
  intros I Hx Hr Hh. pose proof I as [Is Ic Io Ish It Inm Im].
  destruct (Ic c x Hx) as [_ (q & Hq & Hrel)]. destruct (module_at_ok n O l c x) as [md Hmd]; [done|done|].
  destruct (mark_alive (mq n) O l (queue x) q Is Hq Hrel)
    as (s' & l' & Es & Is' & (q' & Hq' & Hrel' & Hit & Hbusy) & Hid).
  unfold skynet_context_release. rewrite Hx. cbn [deref]. rewrite bind_ret, Hr. change (1 - 1) with 0. rewrite Z.eqb_refl.
  unfold delete_context, upd_ctx. cbn [ctxs with_ctxs]. rewrite lookup_alter_eq, Hx.
  cbn [fmap option_fmap option_map deref]. rewrite bind_ret. cbn [logfile set_ref mod_ instance queue].
  set (n1 := with_ctxs _ n).
  set (n2 := match logfile x with Some f => with_io (io n1 ++ [FileClose f]) n1 | None => n1 end).
  assert (exists n3, skynet_module_instance_release (mod_ x) (instance x) n2 = Ok n3 /\
    exists e, n3 = with_io e n1) as (n3 & -> & e & ->).
  { unfold skynet_module_instance_release.
    assert (module_at (mod_ x) n2 = Ok md) as ->.
    { rewrite <- Hmd. unfold module_at. by subst n2; destruct (logfile x). }
    rewrite bind_ret. eexists. split; [done|]. exists
      (io (match m_release md with
           | Some f => with_io (io n2 ++ [ModuleRelease f (instance x)]) n2 | None => n2 end)).
    subst n2. by destruct (logfile x), (m_release md), n. }
  rewrite bind_ret. subst n1 n2. cbn [mq with_io with_ctxs]. rewrite Es, bind_ret, bind_ret.
  assert (Ec : delete c (alter (set_ref 0) c (ctxs n)) = delete c (ctxs n)).
  { apply map_eq. intros k. destruct (decide (c = k)) as [<-|]; [by rewrite !lookup_delete_eq|].
    by rewrite !lookup_delete_ne, lookup_alter_ne. }
  eexists _, l'. split; [done|]. cbn. rewrite Ec. split_and!; try done; [|eauto 10].
  assert (Hd : forall k y, delete c (ctxs n) !! k = Some y -> c <> k /\ ctxs n !! k = Some y)
    by (intros k y; apply lookup_delete_Some).
  split; cbn; try rewrite Ec; [done| | | | |done|].
  - intros k y [Hne Hk]%Hd. destruct (Ic k y Hk) as [Hpos (z & Hz & Hzr)]. split; [done|].
    assert (queue y <> queue x) as Hnq by (intros E; by apply Hne; symmetry; eapply Io).
    destruct (Hid _ Hnq) as [nx En]. rewrite En, Hz. cbn. eauto.
  - intros k k' y y' [_ Hk]%Hd [_ Hk']%Hd. by apply (Io k k').
  - eapply slots_wf_ext; [|exact Ish]. intros k Hk. unfold skynet_context_handle. cbn.
    rewrite lookup_delete_ne; [done|]. by intros ->.
  - intros k Hk. rewrite lookup_delete_ne by (by intros ->). by apply It.
  - destruct Im as (ms & W & Hm). exists ms. split; [done|]. intros k y [_ Hk]%Hd. by apply (Hm k).
Qed.

(** ** Retiring a handle *)

Abbreviation resolve n h := (Slots.handle_lookup (skynet_context_handle n) h (handles n)).

(** The table is replaced by one that holds fewer contexts. *)
Lemma node_inv_table n O l s nm :
  node_inv n O l -> slots_wf (skynet_context_handle n) s -> names_repr s nm ->
  (forall c, holds s c -> holds (handles n) c) -> node_inv (with_H s n) O l.
Proof. intros [Is Ic Io Ish It Inm Im] W N Hs. split; try done; [|by exists nm]. intros c Hc. by apply It, Hs. Qed.

Lemma set_ref_keeps r : 0 < r -> keeps (set_ref r).
Proof. by intros Hr x. Qed.

Lemma retire_dead n O l h : node_inv n O l -> resolve n h = Ok None -> handle_retire h n = Ok (0, n).
Proof.
  intros I El. destruct (ni_names _ _ _ I) as [nm N].
  destruct (retire_spec _ _ _ h (ni_slots _ _ _ I) N) as (r & s' & l' & E & Er & _ & _ & Hs & _).
  rewrite El in Er. injection Er as <-. unfold handle_retire. rewrite E, bind_ret, Hs by done.
  by destruct n.
Qed.

(** What retiring the handle of [c] leaves of the context and its queue. *)
Definition dropped (n n' : node) (O : gset loc) (l' : list loc) (c : loc) (x : skynet_context) : Prop :=
  if ref x =? 1 then
    ctxs n' = delete c (ctxs n) /\ g_total n' = g_total n - 1 /\
    (exists y y', mqs (mq n) !! queue x = Some y /\ mqs (mq n') !! queue x = Some y' /\
       mq_release y' = 1 /\ (forall it, mq_repr y it -> mq_repr y' it)) /\
    (queue x ∈ l' \/ queue x ∈ O)
  else ctxs n' = alter (set_ref (ref x - 1)) c (ctxs n) /\ g_total n' = g_total n /\ mq n' = mq n.

Lemma retire_live n O l h c x :
  node_inv n O l -> resolve n h = Ok (Some c) -> ctxs n !! c = Some x ->
  exists n' l', handle_retire h n = Ok (1, n') /\ node_inv n' O l' /\
    (forall k, holds (handles n') k <-> holds (handles n) k /\ k <> c) /\
    slot_size (handles n') = slot_size (handles n) /\
    (forall h', resolve n' h' = if decide (h' = h) then Ok None else resolve n h') /\
    heap n' = heap n /\ dropped n n' O l' c x.
Proof.
  intros I El Hx. destruct (ni_names _ _ _ I) as [nm N].
  destruct (retire_spec _ _ _ h (ni_slots _ _ _ I) N) as (r & s' & nm' & E & Er & W & N' & _ & Hh & Esz & Hl & _).
  rewrite El in Er. injection Er as <-.
  assert (Hh' : forall k, holds s' k <-> holds (handles n) k /\ k <> c) by (intros k; rewrite Hh; naive_solver).
  assert (I1 : node_inv (with_H s' n) O l).
  { eapply node_inv_table; [done|done|done|]. intros k. rewrite Hh'. by intros []. }
  assert (Hres : forall n', handles n' = s' ->
      (forall k, holds s' k -> skynet_context_handle n' k = skynet_context_handle n k) ->
      forall h', resolve n' h' = if decide (h' = h) then Ok None else resolve n h').
  { intros n' EH Ek h'. rewrite <- Hl, EH. apply lookup_ext; [by eapply slots_wf_ext|done|].
    intros k. split; intros [Hk Eh]; (split; [done|]); rewrite <- Eh; [symmetry|]; by apply Ek. }
  destruct (ni_ctx _ _ _ I c x Hx) as [Hpos _]. unfold handle_retire. rewrite E, bind_ret.
  unfold dropped. destruct (Z.eqb_spec (ref x) 1) as [E1|E1].
  - destruct (release_last (with_H s' n) O l c x I1 Hx E1) as (n' & l' & -> & I' & Ec & EH & Ehp & Et & Hq & Hb).
    { cbn [handles with_H]. rewrite Hh'. by intros []. }
    cbn [handles with_H] in EH. rewrite bind_ret. exists n', l'. split; [done|]. split; [done|].
    rewrite EH. split; [done|]. split; [done|]. split; [|split; [done|done]].
    rewrite <- EH. apply Hres; [done|]. intros k [Hk Hne]%Hh'. unfold skynet_context_handle.
    rewrite Ec. cbn. by rewrite lookup_delete_ne.
  - assert (K : keeps (set_ref (ref x - 1))) by (apply set_ref_keeps; lia).
    exists (upd_ctx (set_ref (ref x - 1)) c (with_H s' n)), l.
    unfold skynet_context_release. cbn [ctxs with_H]. rewrite Hx. cbn [deref]. rewrite bind_ret.
    destruct (Z.eqb_spec (ref x - 1) 0); [lia|]. rewrite bind_ret. split; [done|].
    split; [by apply node_inv_upd|]. split; [done|]. split; [done|]. split; [|done].
    apply Hres; [done|]. intros k _. rewrite handle_upd by done. done.
Qed.

(** Retiring the handle of a live service: from then on the handle resolves
    to nothing and every push to it is refused, all other handles resolve as
    before, and one reference is dropped; if it was the last one the context is
    deleted (its module released, the node's count decremented) and its queue,
    messages and all, is marked for release and is on the global list or in the
    hands of a worker, who will free it. *)
Theorem retire_stops_delivery n O l h c x :
  node_inv n O l -> resolve n h = Ok (Some c) -> ctxs n !! c = Some x ->
  exists n' l', handle_retire h n = Ok (1, n') /\ node_inv n' O l' /\
    (forall m, skynet_context_push h m n' = Ok (-1, n')) /\
    (forall h', h' <> h -> resolve n' h' = resolve n h') /\
    dropped n n' O l' c x.
Proof.
  intros I El Hx. destruct (retire_live n O l h c x I El Hx) as (n' & l' & E & I' & _ & _ & Hres & _ & D).
  exists n', l'. split; [done|]. split; [done|]. split; [|split; [|done]].
  - intros m. apply context_push_dead. by rewrite Hres, decide_True.
  - intros h' Hne. by rewrite Hres, decide_False.
Qed.

(** ** Pushing without knowing who is there *)

(** Every queue has room for [k] more messages. *)
Definition room (n : node) (k : Z) : Prop :=
  forall q y, mqs (mq n) !! q = Some y -> skynet_mq_length y + k < 2^30.

(** Queues only gain messages. *)
Definition mq_grows (s s' : mqstate) : Prop :=
  forall q y it, mqs s !! q = Some y -> mq_repr y it ->
    exists y' more, mqs s' !! q = Some y' /\ mq_repr y' (it ++ more) /\ mq_release y' = mq_release y.

Lemma mq_grows_refl s : mq_grows s s.
Proof. intros q y it Hq Hr. exists y, []. by rewrite app_nil_r. Qed.

Lemma pushed_grows q x items m s s' :
  pushed q items m s s' -> mqs s !! q = Some x -> mq_repr x items -> mq_release x = 0 ->
  mq_grows s s'.
Proof.
  intros P Hx Hr Hrel p y it Hy Hit. destruct (decide (p = q)) as [->|Hne].
  - destruct P as [(x' & Hx' & Hr' & Hrel') _]. exists x', [m]. split; [done|].
    rewrite Hx in Hy. injection Hy as <-. split; [|congruence].
    by rewrite (mq_repr_inj x it items).
  - destruct (pushed_other _ _ _ _ _ p y P Hne Hy) as (y' & Hy' & Hr' & Hi).
    exists y', []. rewrite app_nil_r. auto.
Qed.

Lemma pushed_room n q x items m s k :
  pushed q items m (mq n) s -> mqs (mq n) !! q = Some x -> mq_repr x items ->
  room n (k + 1) -> 0 <= k -> room (with_mq s n) k.
Proof.
  intros P Hx Hr Hroom Hk p y Hy. cbn in Hy. destruct (decide (p = q)) as [->|Hne].
  - destruct P as [(x' & Hx' & Hr' & _) _]. rewrite Hx' in Hy. injection Hy as <-.
    pose proof (Hroom q x Hx) as HR. rewrite (length_repr _ _ Hr) in HR.
    rewrite (length_repr _ _ Hr'), length_app. cbn. lia.
  - destruct P as [_ P]. destruct (P p Hne) as [nx E]. rewrite Hy in E.
    destruct (mqs (mq n) !! p) as [z|] eqn:Ez; [|done]. injection E as ->.
    pose proof (Hroom p z Ez). unfold skynet_mq_length in *. cbn. lia.
Qed.

Lemma with_mq_same n : with_mq (mq n) n = n.
Proof. by destruct n. Qed.

(** A push to any handle: refused or delivered, it returns and keeps the node. *)
Lemma push_any h m n O l k :
  node_inv n O l -> room n (k + 1) -> 0 <= k ->
  exists r s l', skynet_context_push h m n = Ok (r, with_mq s n) /\
    node_inv (with_mq s n) O l' /\ room (with_mq s n) k /\ mq_grows (mq n) s.
Proof.
  intros I Hroom Hk. destruct (lookup_spec _ _ h (ni_slots _ _ _ I)) as ([c|] & El & Hc).
  - destruct (proj1 (Hc c) eq_refl) as [Hhold _]. destruct (ni_table _ _ _ I c Hhold) as [x Hx].
    destruct (ni_ctx _ _ _ I c x Hx) as [_ (q & Hq & Hrel)].
    destruct (inv_queue _ _ (ni_sched _ _ _ I) _ q Hq) as (items & Hr & _).
    destruct (context_push_live h c x items m n O l I El Hx) as (s & l' & E & I' & P).
    + by exists q.
    + pose proof (Hroom _ _ Hq) as HR. rewrite (length_repr _ _ Hr) in HR. lia.
    + exists 0, s, l'. split_and!; [done|done|by eapply pushed_room|by eapply pushed_grows].
  - exists (-1), (mq n), l. rewrite with_mq_same, context_push_dead by done.
    split_and!; [done|done| |apply mq_grows_refl]. intros q y Hy. pose proof (Hroom q y Hy). lia.
Qed.

Lemma findname_ok n O l nm : node_inv n O l ->
  exists h, Names.skynet_handle_findname nm (handles n) = Ok h.
Proof.
  intros I. destruct (ni_names _ _ _ I) as [ns R].
  destruct (search_all _ _ nm R) as (r & E & _). unfold Names.skynet_handle_findname.
  rewrite E. eexists. done.
Qed.

(** [skynet_error] never fails; it only adds messages and a block to the heap. *)
Lemma error_ok c text n O l k :
  node_inv n O l -> room n (k + 1) -> 0 <= k ->
  exists lg h s l', skynet_error c text n = Ok (with_mq s (with_heap h (with_logger lg n))) /\
    node_inv (with_mq s (with_heap h (with_logger lg n))) O l' /\
    room (with_mq s (with_heap h (with_logger lg n))) k /\ mq_grows (mq n) s.
Proof.
  intros I Hroom Hk. unfold skynet_error.
  assert (exists lg, (if logger n =? 0 then Names.skynet_handle_findname (str "logger") (handles n)
    else Ok (logger n)) = Ok lg) as [lg ->].
  { destruct (_ =? 0); [by eapply findname_ok|by eexists]. }
  rewrite bind_ret. cbv zeta.
  assert (Il : node_inv (with_logger lg n) O l) by by destruct I.
  destruct (Z.eqb_spec lg 0).
  - exists lg, (heap n), (mq n), l. split_and!; [by destruct n| | |apply mq_grows_refl].
    + by destruct n.
    + intros q y Hy. pose proof (Hroom q y Hy). lia.
  - destruct (malloc (text ++ [0]) (with_logger lg n)) as [p n1] eqn:Em.
    assert (n1 = with_heap (heap n1) (with_logger lg n)) as En by (by injection Em as _ <-).
    match goal with |- context [skynet_context_push lg ?m n1] =>
      destruct (push_any lg m n1 O l k) as (r & s & l' & -> & I' & R' & G) end.
    + rewrite En. by apply node_inv_heap.
    + by injection Em as _ <-.
    + done.
    + exists lg, (heap n1), s, l'. rewrite En in *. done.
Qed.
