(* ===== verification/Command.v ===== *)
(** * Launching services and the text commands ([skynet_server.c], [skynet_env.c],
    [skynet_log.c], [skynet_start.c])

    The functions of a loaded module, the dynamic loader, [fopen] and the
    thread's CPU clock are arguments of the section. *)

From S2P Require Import Prelude Mq Sched Timer Handle Text Module Server.
From stdpp Require Import base numbers list gmap.
From Stdlib Require Import ZArith Lia String.
#[local] Open Scope Z_scope.
#[local] Open Scope list_scope.
Import Global.

(** [param[0]] and the like on a parameter that may be [NULL]. *)
Definition nonnull {A} (p : option A) : outcome A :=
  match p with Some a => Ok a | None => Fault NullPointer end.

(** The string is written to [context->result] and returned. *)
Definition reply (c : loc) (s : cstr) (n : node) : outcome (option cstr * node) :=
  Ok (Some s, upd_ctx (set_result s) c n).

(** ** Environment *)

Definition skynet_getenv (key : cstr) (n : node) : option cstr := env n !! key.

Definition skynet_setenv (key value : cstr) (n : node) : outcome node :=
  _ ← c_assert (bool_decide (env n !! key = None));
  Ok (with_env (<[key := value]> (env n)) n).

(** ** Timers *)

Definition timeout (h tm sess : Z) (n : node) : outcome (Z * node) :=
  '(m, T) ← Wheel.skynet_timeout (TI n) h tm sess;
  let n := with_TI T n in
  match m with
  | Some (h, m) =>
      '(r, n) ← skynet_context_push h m n;
      Ok (if negb (r =? 0) then -1 else sess, n)
  | None => Ok (sess, n)
  end.

(** The pushes of [dispatch_list]; a handle that is gone is ignored. *)
Fixpoint push_all (ms : list (Z * skynet_message)) (n : node) : outcome node :=
  match ms with
  | [] => Ok n
  | (h, m) :: ms => '(_, n) ← skynet_context_push h m n; push_all ms n
  end.

(** [skynet_updatetime]; [cp] is what [gettime] reads. *)
Definition updatetime (cp : Z) (n : node) : outcome node :=
  let old := current_point (TI n) in
  n ← (if cp <? old then
         skynet_error None (str "time diff error: change from " ++ fmt_d cp ++ str " to " ++ fmt_d old) n
       else Ok n);
  '(out, T) ← Wheel.skynet_updatetime cp (TI n);
  push_all out (with_TI T n).

(** ** Retiring every service *)

(** One pass over the slots from [i]; the number of handles retired. *)
Fixpoint retire_pass (k : nat) (i cnt : Z) (n : node) : outcome (Z * node) :=
  match k with
  | O => Ok (cnt, n)
  | S k =>
      e ← arr_get (slot (handles n)) i;
      let h := match e with Some c => skynet_context_handle n c | None => 0 end in
      if negb (h =? 0) then
        '(r, n) ← handle_retire h n;
        retire_pass k (i + 1) (if negb (r =? 0) then cnt + 1 else cnt) n
      else retire_pass k (i + 1) cnt n
  end.

Fixpoint retireall_loop (fuel : nat) (n : node) : outcome node :=
  match fuel with
  | O => Fault OutOfFuel
  | S fuel =>
      '(cnt, n) ← retire_pass (Z.to_nat (slot_size (handles n))) 0 0 n;
      if cnt =? 0 then Ok n else retireall_loop fuel n
  end.

(** The first pass empties every slot and the second one sees it. *)
Definition skynet_handle_retireall (n : node) : outcome node := retireall_loop 2 n.

(** ** Names of services *)

Definition skynet_queryname (c : loc) (name : cstr) (n : node) : outcome (Z * node) :=
  if first name =? 58 then Ok (u32 (strtoul16 (tail name)), n)
  else if first name =? 46 then
    h ← Names.skynet_handle_findname (tail name) (handles n); Ok (h, n)
  else n ← skynet_error (Some c) (str "Don't support query global name " ++ name) n; Ok (0, n).

Definition tohandle (c : loc) (param : cstr) (n : node) : outcome (Z * node) :=
  if first param =? 58 then Ok (u32 (strtoul16 (tail param)), n)
  else if first param =? 46 then
    h ← Names.skynet_handle_findname (tail param) (handles n); Ok (h, n)
  else n ← skynet_error (Some c) (str "Can't convert " ++ param ++ str " to handle") n; Ok (0, n).

Definition handle_exit (c : loc) (h : Z) (n : node) : outcome node :=
  x ← deref (ctxs n !! c);
  '(h, n) ← (if h =? 0 then n ← skynet_error (Some c) (str "KILL self") n; Ok (handle x, n)
             else n ← skynet_error (Some c) (str "KILL :" ++ fmt_x h) n; Ok (h, n));
  n ← (if negb (monitor_exit n =? 0) then
         '(_, n) ← skynet_send (Some c) h (monitor_exit n) PTYPE_CLIENT 0 None 0 n; Ok n
       else Ok n);
  '(_, n) ← handle_retire h n;
  Ok n.

(** ** The commands *)

Definition namehandle (h : Z) (name : cstr) (n : node) : outcome (option cstr * node) :=
  '(r, s) ← Names.skynet_handle_namehandle h name (handles n);
  Ok (r, with_H s n).

Definition cmd_timeout (c : loc) (param : option cstr) (n : node) : outcome (option cstr * node) :=
  param ← nonnull param;
  let ti := strtol10 param in
  '(sess, n) ← skynet_context_newsession c n;
  x ← deref (ctxs n !! c);
  '(_, n) ← timeout (handle x) ti sess n;
  reply c (fmt_d sess) n.

Definition cmd_reg (c : loc) (param : option cstr) (n : node) : outcome (option cstr * node) :=
  x ← deref (ctxs n !! c);
  match param with
  | None | Some [] => reply c (58 :: fmt_x (handle x)) n
  | Some (ch :: rest) =>
      if ch =? 46 then namehandle (handle x) rest n
      else n ← skynet_error (Some c) (str "Can't register global name " ++ (ch :: rest) ++ str " in C") n;
           Ok (None, n)
  end.

Definition cmd_query (c : loc) (param : option cstr) (n : node) : outcome (option cstr * node) :=
  param ← nonnull param;
  if first param =? 46 then
    h ← Names.skynet_handle_findname (tail param) (handles n);
    if negb (h =? 0) then reply c (58 :: fmt_x h) n else Ok (None, n)
  else Ok (None, n).

(** A word that [sscanf] did not find leaves its array unwritten. *)
Definition cmd_name (c : loc) (param : option cstr) (n : node) : outcome (option cstr * node) :=
  param ← nonnull param;
  let '(name, rest) := scan_word param in
  let '(hnd, _) := scan_word rest in
  hnd ← init_read hnd;
  if negb (first hnd =? 58) then Ok (None, n)
  else
    let handle_id := u32 (strtoul16 (tail hnd)) in
    if handle_id =? 0 then Ok (None, n)
    else
      name ← init_read name;
      if first name =? 46 then namehandle handle_id (tail name) n
      else n ← skynet_error (Some c) (str "Can't set global name " ++ name ++ str " in C") n;
           Ok (None, n).

Definition cmd_exit (c : loc) (param : option cstr) (n : node) : outcome (option cstr * node) :=
  n ← handle_exit c 0 n;
  Ok (None, n).

Definition cmd_kill (c : loc) (param : option cstr) (n : node) : outcome (option cstr * node) :=
  param ← nonnull param;
  '(h, n) ← tohandle c param n;
  n ← (if negb (h =? 0) then handle_exit c h n else Ok n);
  Ok (None, n).

Definition cmd_getenv (c : loc) (param : option cstr) (n : node) : outcome (option cstr * node) :=
  param ← nonnull param;
  Ok (skynet_getenv param n, n).

Definition cmd_setenv (c : loc) (param : option cstr) (n : node) : outcome (option cstr * node) :=
  param ← nonnull param;
  let '(key, value) := strsep (fun ch => ch =? 32) param in
  match value with
  | None => Ok (None, n)
  | Some value => n ← skynet_setenv key value n; Ok (None, n)
  end.

Definition cmd_starttime (c : loc) (param : option cstr) (n : node) : outcome (option cstr * node) :=
  reply c (fmt_u (Wheel.skynet_starttime (TI n))) n.

Definition cmd_abort (c : loc) (param : option cstr) (n : node) : outcome (option cstr * node) :=
  n ← skynet_handle_retireall n;
  Ok (None, n).

Definition cmd_monitor (c : loc) (param : option cstr) (n : node) : outcome (option cstr * node) :=
  match param with
  | None | Some [] =>
      if negb (monitor_exit n =? 0) then reply c (58 :: fmt_x (monitor_exit n)) n
      else Ok (None, n)
  | Some p =>
      '(h, n) ← tohandle c p n;
      Ok (None, with_monitor h n)
  end.

Section Outside.
Variable dlopen : cstr -> option Z.
Variable dlsym : Z -> cstr -> option Z.
(** [m->create()], [None] for [NULL], and [m->init(inst, ctx, parm)]. *)
Variable create_fn : Z -> option Z.
Variable init_fn : Z -> Z -> loc -> option cstr -> node -> outcome (Z * node).
Variable fopen : cstr -> option Z.
(** [skynet_thread_time()], and [%lf] of that many microseconds in seconds. *)
Variable thread_time : Z.
Variable fmt_seconds : Z -> cstr.

(** A module without [_create] has the instance [~0]. *)
Definition skynet_module_instance_create (md : skynet_module) : option Z :=
  match m_create md with Some f => create_fn f | None => Some (-1) end.

Definition skynet_module_instance_init (md : skynet_module) (inst : Z) (c : loc)
    (param : option cstr) (n : node) : outcome (Z * node) :=
  f ← nonnull (m_init md);
  init_fn f inst c param n.

(** The context is built around a handle that [skynet_context_handle] reads as 0
    until it is stored. *)
Definition skynet_context_new (name : cstr) (param : option cstr) (n : node)
    : outcome (option loc * node) :=
  '(m, Ms) ← skynet_module_query dlopen dlsym name (M n);
  let n := with_M Ms n in
  match m with
  | None => Ok (None, n)
  | Some m =>
      md ← module_at m n;
      match skynet_module_instance_create md with
      | None => Ok (None, n)
      | Some inst =>
          let c := fresh (dom (ctxs n)) in
          '(h, hs) ← Slots.skynet_handle_register (skynet_context_handle n) c (handles n);
          let n := with_H hs n in
          let '(q, s) := skynet_mq_create h (mq n) in
          let n := with_mq s n in
          let x := Ctx m inst None q None 0 0 h 0 2 0 false false (g_profile n) [] in
          let n := context_inc (with_ctxs (<[c := x]> (ctxs n)) n) in
          '(r, n) ← skynet_module_instance_init md inst c param n;
          if r =? 0 then
            '(ret, n) ← skynet_context_release c n;
            let n := match ret with Some _ => upd_ctx (set_init true) c n | None => n end in
            s ← skynet_globalmq_push q (mq n);
            let n := with_mq s n in
            n ← match ret with
                | Some _ => skynet_error ret (str "LAUNCH " ++ name ++ str " " ++ default [] param) n
                | None => Ok n
                end;
            Ok (ret, n)
          else
            n ← skynet_error (Some c) (str "FAILED launch " ++ name) n;
            x ← deref (ctxs n !! c);
            let h := handle x in
            '(_, n) ← skynet_context_release c n;
            '(_, n) ← handle_retire h n;
            n ← release_queue q h n;
            Ok (None, n)
      end
  end.

Definition cmd_launch (c : loc) (param : option cstr) (n : node) : outcome (option cstr * node) :=
  param ← nonnull param;
  let '(md, args) := strsep (fun ch => (ch =? 32) || (ch =? 9) || (ch =? 13) || (ch =? 10)) param in
  let args := match args with
              | Some a => Some (strsep (fun ch => (ch =? 13) || (ch =? 10)) a).1
              | None => None
              end in
  '(inst, n) ← skynet_context_new md args n;
  match inst with
  | None => Ok (None, n)
  | Some i => reply c (id_to_hex (skynet_context_handle n i)) n
  end.

Definition cmd_stat (c : loc) (param : option cstr) (n : node) : outcome (option cstr * node) :=
  param ← nonnull param;
  x ← deref (ctxs n !! c);
  if strcmp param (str "mqlen") =? 0 then
    q ← deref (mqs (mq n) !! queue x);
    reply c (fmt_d (Ring.skynet_mq_length q)) n
  else if strcmp param (str "endless") =? 0 then
    if endless x then reply c (str "1") (upd_ctx (set_endless false) c n)
    else reply c (str "0") n
  else if strcmp param (str "cpu") =? 0 then reply c (fmt_seconds (cpu_cost x)) n
  else if strcmp param (str "time") =? 0 then
    if profile x then reply c (fmt_seconds (u64 (thread_time - cpu_start x))) n
    else reply c (str "0") n
  else if strcmp param (str "message") =? 0 then reply c (fmt_d (message_count x)) n
  else reply c [] n.

Definition skynet_log_open (c : loc) (h : Z) (n : node) : outcome (option Z * node) :=
  match skynet_getenv (str "logpath") n with
  | None => Ok (None, n)
  | Some logpath =>
      let tmp := logpath ++ str "/" ++ pad_x 8 h ++ str ".log" in
      match fopen tmp with
      | Some f => n ← skynet_error (Some c) (str "Open log file " ++ tmp) n; Ok (Some f, n)
      | None => n ← skynet_error (Some c) (str "Open log file " ++ tmp ++ str " fail") n; Ok (None, n)
      end
  end.

Definition skynet_log_close (c : loc) (f h : Z) (n : node) : outcome node :=
  n ← skynet_error (Some c) (str "Close log file :" ++ pad_x 8 h) n;
  Ok (with_io (io n ++ [FileClose f]) n).

Definition cmd_logon (c : loc) (param : option cstr) (n : node) : outcome (option cstr * node) :=
  param ← nonnull param;
  '(h, n) ← tohandle c param n;
  if h =? 0 then Ok (None, n)
  else
    '(r, n) ← skynet_handle_grab h n;
    match r with
    | None => Ok (None, n)
    | Some d =>
        x ← deref (ctxs n !! d);
        n ← match logfile x with
            | None =>
                '(f, n) ← skynet_log_open c h n;
                match f with
                | Some f =>
                    x ← deref (ctxs n !! d);
                    Ok match logfile x with
                       | None => upd_ctx (set_logfile (Some f)) d n
                       | Some _ => with_io (io n ++ [FileClose f]) n
                       end
                | None => Ok n
                end
            | Some _ => Ok n
            end;
        '(_, n) ← skynet_context_release d n;
        Ok (None, n)
    end.

Definition cmd_logoff (c : loc) (param : option cstr) (n : node) : outcome (option cstr * node) :=
  param ← nonnull param;
  '(h, n) ← tohandle c param n;
  if h =? 0 then Ok (None, n)
  else
    '(r, n) ← skynet_handle_grab h n;
    match r with
    | None => Ok (None, n)
    | Some d =>
        x ← deref (ctxs n !! d);
        n ← match logfile x with
            | Some f => skynet_log_close c f h (upd_ctx (set_logfile None) d n)
            | None => Ok n
            end;
        '(_, n) ← skynet_context_release d n;
        Ok (None, n)
    end.

(** The part of [s] from its first space on. *)
Fixpoint from_space (s : cstr) : option cstr :=
  match s with
  | ch :: s' => if ch =? 32 then Some s else from_space s'
  | [] => None
  end.

Definition cmd_signal (c : loc) (param : option cstr) (n : node) : outcome (option cstr * node) :=
  param ← nonnull param;
  '(h, n) ← tohandle c param n;
  if h =? 0 then Ok (None, n)
  else
    '(r, n) ← skynet_handle_grab h n;
    match r with
    | None => Ok (None, n)
    | Some d =>
        let sig := match from_space param with Some p => strtol0 p | None => 0 end in
        x ← deref (ctxs n !! d);
        n ← skynet_module_instance_signal (mod_ x) (instance x) sig n;
        '(_, n) ← skynet_context_release d n;
        Ok (None, n)
    end.

Definition cmd_funcs
    : list (cstr * (loc -> option cstr -> node -> outcome (option cstr * node))) :=
  [(str "TIMEOUT", cmd_timeout); (str "REG", cmd_reg); (str "QUERY", cmd_query);
   (str "NAME", cmd_name); (str "EXIT", cmd_exit); (str "KILL", cmd_kill);
   (str "LAUNCH", cmd_launch); (str "GETENV", cmd_getenv); (str "SETENV", cmd_setenv);
   (str "STARTTIME", cmd_starttime); (str "ABORT", cmd_abort); (str "MONITOR", cmd_monitor);
   (str "STAT", cmd_stat); (str "LOGON", cmd_logon); (str "LOGOFF", cmd_logoff);
   (str "SIGNAL", cmd_signal)].

Fixpoint command_loop
    (fs : list (cstr * (loc -> option cstr -> node -> outcome (option cstr * node))))
    (c : loc) (cmd : cstr) (param : option cstr) (n : node) : outcome (option cstr * node) :=
  match fs with
  | [] => Ok (None, n)
  | (name, f) :: fs =>
      if strcmp cmd name =? 0 then f c param n else command_loop fs c cmd param n
  end.

Definition skynet_command (c : loc) (cmd : cstr) (param : option cstr) (n : node)
    : outcome (option cstr * node) := command_loop cmd_funcs c cmd param n.

(** ** Start and stop of the node ([skynet_start.c]) *)

Definition signal_hup (n : node) : outcome node :=
  lg ← Names.skynet_handle_findname (str "logger") (handles n);
  if negb (lg =? 0) then
    '(_, n) ← skynet_context_push lg (Msg 0 0 None (Z.shiftl PTYPE_SYSTEM MESSAGE_TYPE_SHIFT)) n; Ok n
  else Ok n.

(** A command line of one word leaves [args] unwritten. *)
Definition bootstrap (cmdline : cstr) (n : node) : outcome node :=
  let '(name, rest) := scan_word cmdline in
  let '(args, _) := scan_word rest in
  name ← init_read name;
  args ← init_read args;
  '(ctx, n) ← skynet_context_new name (Some args) n;
  match ctx with
  | Some _ => Ok n
  | None => Fault Exited
  end.

Record skynet_config := Config {
  cfg_harbor : Z; cfg_module_path : cstr; cfg_profile : bool;
  cfg_logservice : cstr; cfg_logger : option cstr; cfg_bootstrap : cstr
}.

(** The initialisation calls of [skynet_start]; [sec], [cs] and [now] are the
    clocks, [E] the environment read from the configuration file. *)
Definition start_node (cfg : skynet_config) (sec cs now : Z) (E : gmap (list Z) (list Z)) : node :=
  skynet_harbor_init (cfg_harbor cfg)
    (MkNode skynet_mq_init ∅ (skynet_handle_init (cfg_harbor cfg)) (Wheel.skynet_timer_init sec cs now)
       ∅ ∅ 0 0 (cfg_profile cfg) (2^32 - 1) None 0 E (skynet_module_init (cfg_module_path cfg)) []).

Definition skynet_start (cfg : skynet_config) (sec cs now : Z) (E : gmap (list Z) (list Z))
    : outcome node :=
  '(ctx, n) ← skynet_context_new (cfg_logservice cfg) (cfg_logger cfg) (start_node cfg sec cs now E);
  match ctx with
  | None => Fault Exited
  | Some _ => bootstrap (cfg_bootstrap cfg) n
  end.

End Outside.
