(* ===== verification/Lifecycle.v ===== *)
(** * Correctness of launching, stopping and dispatching services

    Theorems about the composite operations of [Command.v] and [Server.v]: a
    launch, the ABORT command, and a worker's round over a queue. *)

From S2P Require Import Prelude Mq Sched Timer Handle Text Module Server Delivery Command.
From stdpp Require Import base numbers list gmap.
From Stdlib Require Import ZArith Lia String.
#[local] Open Scope Z_scope.
#[local] Open Scope list_scope.
Import Ring Global.

(** ** Retiring every service *)

Lemma dropped_ctx n n' O l' c x k :
  dropped n n' O l' c x -> k <> c -> ctxs n' !! k = ctxs n !! k.
Proof.
  unfold dropped. intros D Hne. destruct (_ =? _); destruct D as [-> _].
  - by rewrite lookup_delete_ne.
  - by rewrite lookup_alter_ne.
Qed.

Lemma dropped_last n n' O l' c x :
  dropped n n' O l' c x -> ref x = 1 -> ctxs n' !! c = None.
Proof. unfold dropped. intros D E. rewrite E in D. destruct D as [-> _]. by rewrite lookup_delete_eq. Qed.

(** Every registered context has the handle 0: none of them is retired. *)
Definition only_zero (n : node) : Prop :=
  forall c, holds (handles n) c -> skynet_context_handle n c = 0.

(** One pass: below slot [i], only the handle 0 is left when it starts at [i]. *)
Lemma retire_pass_ok O k : forall i cnt n l,
  node_inv n O l -> 0 <= i -> i + Z.of_nat k = slot_size (handles n) ->
  (forall c, holds (handles n) c -> skynet_context_handle n c <> 0 -> i <= skynet_context_handle n c mod slot_size (handles n)) ->
  exists cnt' n' l', retire_pass k i cnt n = Ok (cnt', n') /\ node_inv n' O l' /\
    only_zero n' /\ resolve n' 0 = resolve n 0 /\ slot_size (handles n') = slot_size (handles n) /\ (only_zero n -> cnt' = cnt).
Proof.
  induction k as [|k IH]; intros i cnt n l I Hi Hk Hlow; cbn [retire_pass].
  - exists cnt, n, l. split_and!; try done. intros c Hc.
    destruct (decide (skynet_context_handle n c = 0)) as [|Hnz]; [done|]. specialize (Hlow c Hc Hnz).
    pose proof (size_bounds _ _ (ni_slots _ _ _ I)).
    pose proof (Z.mod_pos_bound (skynet_context_handle n c) (slot_size (handles n))). lia.
  - destruct (ni_slots _ _ _ I) as [_ Hlen _ _ Hcell].
    destruct (lookup_lt_is_Some_2 (slot (handles n)) (Z.to_nat i)) as [e He]; [lia|].
    rewrite (arr_get_ok _ _ _ Hi He), bind_ret. cbv zeta.
    assert (Hskip : (forall c, e = Some c -> skynet_context_handle n c = 0) -> exists cnt' n' l', retire_pass k (i + 1) cnt n = Ok (cnt', n') /\
      node_inv n' O l' /\ only_zero n' /\ resolve n' 0 = resolve n 0 /\ slot_size (handles n') = slot_size (handles n) /\ (only_zero n -> cnt' = cnt)).
    { intros Hz. apply (IH (i + 1) cnt n l I); [lia|lia|]. intros c [j Hj] Hnz. destruct (Hcell _ _ Hj) as [Ej _].
      assert (j <> Z.to_nat i) by (intros ->; rewrite He in Hj; injection Hj as ->; by destruct Hnz; apply Hz).
      pose proof (Hlow c (ex_intro _ j Hj) Hnz). lia. }
    destruct e as [c|]; [|by apply Hskip].
    assert (Hc : holds (handles n) c) by (by exists (Z.to_nat i)).
    destruct (Z.eqb_spec (skynet_context_handle n c) 0) as [E0|Hnz]; cbn [negb]; [by apply Hskip; intros ? [= <-]|]. clear Hskip.
    destruct (ni_table _ _ _ I c Hc) as [x Hx].
    assert (El : resolve n (skynet_context_handle n c) = Ok (Some c)).
    { destruct (lookup_spec _ _ (skynet_context_handle n c) (ni_slots _ _ _ I)) as (r & -> & Hr).
      f_equal. by apply Hr. }
    destruct (retire_live n O l _ c x I El Hx) as (n1 & l1 & -> & I1 & Hh & Hsz & Hrz & _ & D).
    rewrite bind_ret. cbn [Z.eqb negb].
    assert (Ehd : forall k', k' <> c -> skynet_context_handle n1 k' = skynet_context_handle n k').
    { intros k' Hne. unfold skynet_context_handle. by rewrite (dropped_ctx n n1 O l1 c x k' D Hne). }
    destruct (IH (i + 1) (cnt + 1) n1 l1 I1) as (cnt' & n' & l' & E & I' & Hno & Hkz & Hsz' & _).
    + lia.
    + lia.
    + intros k' [Hk1 Hne]%Hh. rewrite Ehd, Hsz by done. intros Hk0. destruct Hk1 as [j Hj].
      destruct (Hcell _ _ Hj) as [Ej _]. assert (j <> Z.to_nat i) by congruence.
      pose proof (Hlow k' (ex_intro _ j Hj) Hk0). lia.
    + exists cnt', n', l'. split_and!; try done; [|congruence|by intros Hn; destruct Hnz; apply Hn].
      rewrite Hkz, Hrz. by rewrite decide_False.
Qed.

(** C11.  The ABORT command retires every service but one whose handle is 0 (the handle
    [skynet_handle_register] can give out when the 24 bits have wrapped): it terminates
    after two passes over the table, and afterwards no handle other than 0 resolves, so
    every push to one is refused, what the handle 0 resolves to is as before, and the
    node's invariant still holds. *)
Theorem abort_retires_everything n O l c param :
  node_inv n O l ->
  exists n' l', cmd_abort c param n = Ok (None, n') /\ node_inv n' O l' /\
    (forall h, h <> 0 -> resolve n' h = Ok None) /\
    (forall h m, h <> 0 -> skynet_context_push h m n' = Ok (-1, n')) /\
    resolve n' 0 = resolve n 0.
Proof.
  intros I. unfold cmd_abort, skynet_handle_retireall.
  pose proof (size_bounds _ _ (ni_slots _ _ _ I)) as Hsz.
  destruct (retire_pass_ok O (Z.to_nat (slot_size (handles n))) 0 0 n l I)
    as (cnt & n1 & l1 & E1 & I1 & Hno1 & Hk1 & Hsz1 & _); [lia|lia| |].
  { intros k _ _. apply Z.mod_pos_bound. lia. }
  destruct (retire_pass_ok O (Z.to_nat (slot_size (handles n1))) 0 0 n1 l1 I1)
    as (cnt2 & n2 & l2 & E2 & I2 & Hno2 & Hk2 & _ & Hc2); [lia|lia| |].
  { intros k _ _. apply Z.mod_pos_bound. lia. }
  rewrite Hc2 in E2 by done.
  assert (Hres : forall n' l', node_inv n' O l' -> only_zero n' -> forall h, h <> 0 -> resolve n' h = Ok None).
  { intros n' l' I' Hno h Hh. destruct (lookup_spec _ _ h (ni_slots _ _ _ I')) as (r & -> & Hr).
    destruct r as [k|]; [|done]. destruct (proj1 (Hr k) eq_refl) as [Hk Ek]. by rewrite (Hno k Hk) in Ek. }
  cbn [retireall_loop]. rewrite E1, bind_ret. destruct (Z.eqb_spec cnt 0).
  - rewrite bind_ret. exists n1, l1. split_and!; try done; [by eapply Hres|].
    intros h m Hh. apply context_push_dead. by eapply Hres.
  - rewrite E2, bind_ret, Z.eqb_refl, bind_ret. exists n2, l2. split_and!; try done; [by eapply Hres| |congruence].
    intros h m Hh. apply context_push_dead. by eapply Hres.
Qed.

(** ** Launching a service *)

(** The node while the [init] function of the service at [c] runs: its context
    holds two references, its handle resolves, and its queue [q] is in nobody's
    hands but the launching thread's. *)
Definition born (c q : loc) (h : Z) (O : gset loc) (n : node) (l : list loc) : Prop :=
  node_inv n ({[q]} ∪ O) l /\ (q ∉ O) /\ resolve n h = Ok (Some c) /\
  exists x, ctxs n !! c = Some x /\ ref x = 2 /\ queue x = q /\ handle x = h /\ init x = false.

(** Creating a queue. *)
Lemma create_queue s O l h :
  Sched.inv (Sched s O) l ->
  exists q s', skynet_mq_create h s = (q, s') /\ mqs s !! q = None /\ (q ∉ O) /\
    Sched.inv (Sched s' ({[q]} ∪ O)) l /\
    mqs s' = <[q := new_queue h]> (mqs s).
Proof.
  intros I. destruct (step_create h (Sched s O) l I) as (st & E & I').
  cbn [exec sc_mq sc_owned] in E. unfold skynet_mq_create in *. injection E as <-.
  eexists _, _. split; [done|].
  assert (Hf : mqs s !! fresh (dom (mqs s)) = None) by (apply not_elem_of_dom, is_fresh).
  split; [done|]. split; [|done]. intros Hin. destruct (inv_owned _ _ I _ Hin) as [y Hy].
  cbn in Hy. congruence.
Qed.

(** Everything [skynet_context_new] does before it calls [init]. *)
Lemma launch_prepares n O l m inst ms md c :
  node_inv n O l -> modules_wf (M n) ms -> ms !! m = Some md ->
  ctxs n !! c = None ->
  slot_size (handles n) < 2^24 \/ (exists i, slot (handles n) !! i = Some None) ->
  exists h hs q s,
    Slots.skynet_handle_register (skynet_context_handle n) c (handles n) = Ok (h, hs) /\
    skynet_mq_create h (mq n) = (q, s) /\
    let x := Ctx (Z.of_nat m) inst None q None 0 0 h 0 2 0 false false (g_profile n) [] in
    let n1 := context_inc (with_ctxs (<[c := x]> (ctxs n)) (with_mq s (with_H hs n))) in
    born c q h O n1 l /\ forall k, room n k -> k + 64 < 2^30 -> room n1 k.
Proof.
  intros I W Hm Hc Hroom. destruct (ni_names _ _ _ I) as [nm N].
  assert (Hnh : ~ holds (handles n) c).
  { intros Hh. destruct (ni_table _ _ _ I c Hh). congruence. }
  destruct (register_spec _ _ c (ni_slots _ _ _ I) Hnh Hroom)
    as (h & hs & Er & Wh & Hho & Hfr & Hrange & En1 & En2 & En3).
  destruct (create_queue (mq n) O l h (ni_sched _ _ _ I)) as (q & s & Eq & Hqn & HqO & Is & Es).
  exists h, hs, q, s. split; [done|]. split; [done|]. cbv zeta.
  set (x := Ctx _ _ _ _ _ _ _ _ _ _ _ _ _ _ _). set (n1 := context_inc _).
  assert (Ehd : forall k, skynet_context_handle n1 k = assign (skynet_context_handle n) c h k).
  { intros k. unfold skynet_context_handle, assign. cbn. destruct (decide (k = c)) as [->|].
    - by rewrite lookup_insert_eq.
    - by rewrite lookup_insert_ne. }
  assert (Hctx : forall k y, ctxs n1 !! k = Some y -> k = c /\ y = x \/ k <> c /\ ctxs n !! k = Some y).
  { intros k y. cbn. destruct (decide (k = c)) as [->|].
    - rewrite lookup_insert_eq. intros [= <-]. by left.
    - rewrite lookup_insert_ne by done. by right. }
  assert (Hold : forall k y, ctxs n !! k = Some y -> queue y <> q).
  { intros k y Hk <-. destruct (ni_ctx _ _ _ I k y Hk) as [_ (z & Hz & _)]. congruence. }
  split; [split; [|split; [done|split]]|].
  - destruct I as [_ Ic Io Ish It Inm Im]. split; [done| | | | | |].
    + intros k y Hk. destruct (Hctx k y Hk) as [[-> ->]|[Hne Hk']]; cbn; rewrite Es.
      * split; [done|]. exists (new_queue h). by rewrite lookup_insert_eq.
      * destruct (Ic k y Hk') as [Hpos (z & Hz & Hzr)]. split; [done|].
        exists z. rewrite lookup_insert_ne; [done|]. intros E. by apply (Hold k y Hk').
    + intros k k' y y' Hk Hk' E.
      destruct (Hctx k y Hk) as [[-> ->]|[_ Hk1]], (Hctx k' y' Hk') as [[-> ->]|[_ Hk1']]; try done.
      * by destruct (Hold k' y' Hk1').
      * by destruct (Hold k y Hk1).
      * by apply (Io k k' y y').
    + eapply slots_wf_ext; [|exact Wh]. intros k _. apply Ehd.
    + intros k [->|Hk]%Hho; cbn; [rewrite lookup_insert_eq; by eexists|].
      destruct (It k Hk) as [y Hy]. rewrite lookup_insert_ne by congruence. by eexists.
    + exists nm. cbn. destruct N. split; rewrite ?En1, ?En2, ?En3; done.
    + destruct Im as (ms' & W' & Hm'). rewrite (modules_wf_inj _ _ _ W' W) in Hm'.
      exists ms. split; [done|].
      intros k y Hk. destruct (Hctx k y Hk) as [[-> ->]|[_ Hk']]; [|by apply (Hm' k)].
      cbn. pose proof (lookup_lt_Some _ _ _ Hm). lia.
  - destruct (lookup_spec (skynet_context_handle n1) hs h) as (r & Hr & Hrs).
    { eapply slots_wf_ext; [|exact Wh]. intros k _. apply Ehd. }
    change (handles n1) with hs. rewrite Hr. f_equal. apply Hrs. split; [by apply Hho; left|].
    rewrite Ehd. unfold assign. by rewrite decide_True.
  - exists x. cbn. by rewrite lookup_insert_eq.
  - intros k Hk Hbig p y. cbn. rewrite Es. destruct (decide (p = q)) as [->|].
    + rewrite lookup_insert_eq. intros [= <-]. cbn. lia.
    + rewrite lookup_insert_ne by done. apply Hk.
Qed.

Section Launch.
Variable dlopen : cstr -> option Z.
Variable dlsym : Z -> cstr -> option Z.
Variable create_fn : Z -> option Z.
Variable init_fn : Z -> Z -> loc -> option cstr -> node -> outcome (Z * node).

(** The search path and the name are strings the loader accepts. *)
Definition path_ok (Ms : modules) (name : cstr) : Prop :=
  (0 ∉ m_path Ms) /\ (0 ∉ name) /\ forall seg, seg ∈ templates (m_path Ms) -> 63 ∈ seg.

(** An [init] function that returns 0 and leaves its service alone. *)
Definition init_succeeds (f inst : Z) (param : option cstr) (O : gset loc) : Prop :=
  forall c q h n l, born c q h O n l -> room n 1 ->
    exists n' l', init_fn f inst c param n = Ok (0, n') /\ born c q h O n' l' /\ room n' 1.

(** The module table after a query. *)
Lemma node_inv_query n O l name r Ms :
  node_inv n O l -> path_ok (M n) name ->
  skynet_module_query dlopen dlsym name (M n) = Ok (r, Ms) ->
  node_inv (with_M Ms n) O l /\
  forall m, r = Some m -> exists ms md, modules_wf Ms ms /\ ms !! Z.to_nat m = Some md /\
    0 <= m /\ module_at m (with_M Ms n) = Ok md.
Proof.
  intros I (H0 & Hn & Hq) E. destruct (ni_mod _ _ _ I) as (ms & W & Hm).
  destruct (module_query_ok dlopen dlsym (M n) ms name W H0 Hn Hq)
    as (r' & Ms' & ms' & E' & W' & Hpre & _ & _ & Hsome).
  rewrite E in E'. injection E' as <- <-. split.
  - destruct I as [Is Ic Io Ish It Inm Im]. split; try done. exists ms'. split; [done|].
    intros c x Hx. specialize (Hm c x Hx). apply prefix_length in Hpre. lia.
  - intros m ->. destruct (Hsome m eq_refl) as [(md & Hmd & _) Hagain].
    assert (0 <= m).
    { specialize (Hagain dlopen dlsym).
      destruct (query_spec Ms ms' name W') as (r & Er & Hr). unfold skynet_module_query in Hagain.
      rewrite Er, bind_ret in Hagain. destruct r as [k|].
      - injection Hagain as ->. by destruct Hr as (? & _ & _ & ?).
      - destruct Hr. destruct (Hsome m eq_refl) as [(md' & Hmd' & <-) _].
        apply list_elem_of_fmap. exists md'. split; [done|]. by eapply list_elem_of_lookup_2. }
    exists ms', md. split_and!; try done. unfold module_at. cbn [M with_M].
    destruct (mw_arr _ _ W') as [rest ->]. rewrite (arr_get_ok _ _ (Some md)); [done|done|].
    pose proof (lookup_lt_Some _ _ _ Hmd). rewrite lookup_app_l by (rewrite length_fmap; lia).
    by rewrite list_lookup_fmap, Hmd.
Qed.

(** The steps after a successful [init]. *)
Lemma launch_finishes c q h O n l name param :
  born c q h O n l -> room n 1 ->
  exists s n' l',
    skynet_context_release c n = Ok (Some c, upd_ctx (set_ref 1) c n) /\
    skynet_globalmq_push q (mq n) = Ok s /\
    skynet_error (Some c) (str "LAUNCH " ++ name ++ str " " ++ param)
      (with_mq s (upd_ctx (set_init true) c (upd_ctx (set_ref 1) c n))) = Ok n' /\
    node_inv n' O l' /\ resolve n' h = Ok (Some c) /\
    exists x, ctxs n' !! c = Some x /\ ref x = 1 /\ init x = true /\ queue x = q /\ handle x = h.
Proof.
  intros (I & HqO & Hres & x & Hx & Hr & Hq & Hh & Hi) Hroom.
  set (n1 := upd_ctx (set_init true) c (upd_ctx (set_ref 1) c n)).
  assert (I1 : node_inv n1 ({[q]} ∪ O) l).
  { apply node_inv_upd; [by intros y|]. apply node_inv_upd; [by apply set_ref_keeps|done]. }
  destruct (inv_push_owned (mq n) ({[q]} ∪ O) l q (ni_sched _ _ _ I)) as (s & Es & Is); [set_solver|].
  replace (({[q]} ∪ O) ∖ {[q]}) with O in Is by set_solver.
  assert (I2 : node_inv (with_mq s n1) O (l ++ [q])).
  { destruct I1 as [_ Ic Io Ish It Inm Im]. split; try done.
    intros k y Hy. destruct (Ic k y Hy) as [Hpos (z & Hz & Hzr)]. split; [done|].
    destruct (globalmq_push_next _ _ _ Es (queue y)) as [nx En].
    cbn [mq with_mq]. rewrite En. cbn in Hz. rewrite Hz. cbn. eauto. }
  destruct (error_ok (Some c) (str "LAUNCH " ++ name ++ str " " ++ param) (with_mq s n1) O (l ++ [q]) 0)
    as (lg & hp & s' & l' & Ee & Ie & _ & _); [done| |done|].
  { intros p y Hy. cbn in Hy. destruct (globalmq_push_next _ _ _ Es p) as [nx En].
    rewrite Hy in En. destruct (mqs (mq n) !! p) as [z|] eqn:Ez; [|done]. injection En as ->.
    pose proof (Hroom p z Ez). unfold skynet_mq_length in *. cbn. lia. }
  eexists s, _, l'. split; [|split; [done|split; [exact Ee|split; [done|split]]]].
  - unfold skynet_context_release. rewrite Hx. cbn [deref]. rewrite bind_ret, Hr. done.
  - rewrite <- Hres. apply handle_lookup_ext. intros k.
    transitivity (skynet_context_handle n1 k); [done|]. subst n1.
    rewrite !handle_upd; [done|by apply set_ref_keeps|by intros y].
  - exists (set_init true (set_ref 1 x)). cbn. rewrite !lookup_alter_eq, Hx. done.
Qed.

Lemma launch_ok n O l name param m Ms md f inst :
  node_inv n O l -> room n 1 -> path_ok (M n) name ->
  slot_size (handles n) < 2^24 \/ (exists i, slot (handles n) !! i = Some None) ->
  skynet_module_query dlopen dlsym name (M n) = Ok (Some m, Ms) ->
  module_at m (with_M Ms n) = Ok md ->
  skynet_module_instance_create create_fn md = Some inst -> m_init md = Some f ->
  init_succeeds f inst param O ->
  exists c h n' l',
    skynet_context_new dlopen dlsym create_fn init_fn name param n = Ok (Some c, n') /\
    node_inv n' O l' /\ resolve n h = Ok None /\ resolve n' h = Ok (Some c) /\
    exists x, ctxs n !! c = None /\ ctxs n' !! c = Some x /\ ref x = 1 /\ init x = true /\
      handle x = h /\ forall it, waiting n' (queue x) it -> it <> [] -> queue x ∈ l'.
Proof.
  intros I Hroom Hpath Hfree Equery Emd Einst Einit Hinit.
  destruct (node_inv_query n O l name (Some m) Ms I Hpath Equery) as [I1 Hmod].
  destruct (Hmod m eq_refl) as (ms & md' & W & Hmd & Hm & Emd'). rewrite Emd in Emd'.
  injection Emd' as <-. unfold skynet_context_new. rewrite Equery, bind_ret, Emd, bind_ret, Einst.
  set (c := fresh (dom (ctxs (with_M Ms n)))).
  assert (Hc : ctxs n !! c = None) by (apply not_elem_of_dom, is_fresh).
  destruct (launch_prepares (with_M Ms n) O l (Z.to_nat m) inst ms md c I1 W Hmd Hc Hfree)
    as (h & hs & q & s & Er & Eq & Hborn & Hr1).
  rewrite Er, bind_ret. cbn [mq with_H]. rewrite Eq. cbv zeta in Hborn, Hr1 |- *.
  rewrite Z2Nat.id in Hborn, Hr1 by done.
  set (n1 := context_inc _) in Hborn, Hr1.
  destruct (Hinit c q h n1 l Hborn) as (n2 & l2 & Ei & Hborn2 & Hr2); [by apply Hr1|].
  unfold skynet_module_instance_init. rewrite Einit. cbn [nonnull]. rewrite bind_ret.
  match goal with |- context [init_fn f inst c param ?n0] => change n0 with n1 end.
  rewrite Ei, bind_ret, Z.eqb_refl.
  destruct (launch_finishes c q h O n2 l2 name (default [] param) Hborn2 Hr2)
    as (s' & n' & l' & E1 & E2 & E3 & I' & Hres & x & Hx & Hrf & Hin & Hq & Hh).
  rewrite E1, bind_ret. cbv zeta. cbn [mq upd_ctx with_ctxs]. rewrite E2, bind_ret, E3, bind_ret.
  exists c, h, n', l'. split; [done|]. split; [done|]. split; [|split; [done|]].
  - destruct (lookup_spec _ _ h (ni_slots _ _ _ I)) as ([k|] & -> & Hk); [|done].
    destruct (proj1 (Hk k) eq_refl) as [Hk1 Hk2].
    assert (Hnh : ~ holds (handles n) c) by (intros Hh'; destruct (ni_table _ _ _ I c Hh'); congruence).
    destruct (register_spec _ _ c (ni_slots _ _ _ I) Hnh Hfree) as (h' & hs' & Er' & _ & _ & Hfr & _).
    assert (Ok (h', hs') = Ok (h, hs)) as [= -> ->] by (rewrite <- Er', <- Er; done).
    by destruct (Hfr k).
  - exists x. split_and!; try done. intros it (y & Hy & Hry) Hne.
    assert (Hb : queue x ∈ l' \/ queue x ∈ O).
    { apply busy_true. destruct (inv_queue _ _ (ni_sched _ _ _ I') _ y Hy) as (it' & Hr' & Hok).
      rewrite (mq_repr_inj y it' it) in Hok by done.
      destruct (mq_release y =? 0); [|done]. by destruct Hok as [[_ ?]|(_ & _ & ?)]. }
    destruct Hb as [?|Hb]; [done|]. destruct Hborn as (_ & HqO & _). congruence.
Qed.

(** A launch whose module loads and whose [init] returns 0 gives a service
    that is registered: its handle is new and resolves to it, its context is
    initialised and holds exactly the table's reference, its queue is handed
    to the scheduler (no worker holds it, and it is on the global list as soon
    as it has messages), and the invariant of the node is kept. *)
Theorem launch_registers n O l name param m Ms md f inst :
  node_inv n O l -> room n 1 -> path_ok (M n) name ->
  slot_size (handles n) < 2^24 \/ (exists i, slot (handles n) !! i = Some None) ->
  skynet_module_query dlopen dlsym name (M n) = Ok (Some m, Ms) ->
  module_at m (with_M Ms n) = Ok md ->
  skynet_module_instance_create create_fn md = Some inst -> m_init md = Some f ->
  init_succeeds f inst param O ->
  exists c h n' l',
    skynet_context_new dlopen dlsym create_fn init_fn name param n = Ok (Some c, n') /\
    node_inv n' O l' /\ resolve n h = Ok None /\ resolve n' h = Ok (Some c) /\
    exists x, ctxs n !! c = None /\ ctxs n' !! c = Some x /\ ref x = 1 /\ init x = true /\
      handle x = h /\ forall it, waiting n' (queue x) it -> it <> [] -> queue x ∈ l'.
Proof. apply launch_ok. Qed.
End Launch.

(** ** Sessions, addresses and three corner cases *)

(** At [INT_MAX] the increment that should wrap the session back to 1
    overflows a signed [int], which the language leaves undefined: the test for
    a session that is not positive comes after it. *)
Theorem newsession_overflows c x n :
  ctxs n !! c = Some x -> session_id x = INT_MAX ->
  skynet_context_newsession c n = Fault SignedOverflow.
Proof.
  intros Hx Hs. unfold skynet_context_newsession. rewrite Hx. cbn [deref].
  by rewrite bind_ret, Hs.
Qed.

(** Text addresses: both forms in which a command returns a handle (the
    fixed-width form of LAUNCH and the short form of REG, QUERY and MONITOR)
    are read back as that handle by every command that takes an address. *)
Theorem address_roundtrip c h n :
  0 <= h < 2^32 ->
  tohandle c (id_to_hex h) n = Ok (h, n) /\ tohandle c (58 :: fmt_x h) n = Ok (h, n) /\
  skynet_queryname c (id_to_hex h) n = Ok (h, n) /\ skynet_queryname c (58 :: fmt_x h) n = Ok (h, n).
Proof.
  intros Hh. unfold tohandle, skynet_queryname. cbn [first head default id_to_hex].
  assert (E1 : u32 (strtoul16 (tail (id_to_hex h))) = h).
  { rewrite strtoul16_id_to_hex by done. by apply Z.mod_small. }
  assert (E2 : u32 (strtoul16 (fmt_x h)) = h).
  { rewrite strtoul16_fmt_x by done. by apply Z.mod_small. }
  change (first (id_to_hex h)) with 58. change (first (58 :: fmt_x h)) with 58.
  cbn [Z.eqb Pos.eqb]. change (tail (58 :: fmt_x h)) with (fmt_x h). rewrite E1, E2. done.
Qed.

(** A send to destination 0 returns the session and does nothing else: the
    payload, copied or handed over, stays allocated, and no message refers to
    it. *)
Theorem send_to_zero_leaks n c x type session d size src :
  ctxs n !! c = Some x -> args_ok n x type session d size -> 0 <= size < 2^56 ->
  exists sess d' n', skynet_send (Some c) src 0 type session d size n = Ok (sess, n') /\
    payload (heap n) (needcopy type) d size d' (heap n') /\ mq n' = mq n /\ rheap n' = rheap n.
Proof.
  intros Hx Ha Hs.
  destruct (filter_args_spec n c x type session d size Hx Ha) as (sess & d' & h' & f & Ef & K & Es & P).
  exists sess, d', (with_heap h' (upd_ctx f c n)). split; [|done]. unfold skynet_send.
  rewrite type_mask_mod, Z.mod_small, Z.eqb_refl by lia. cbn [negb]. rewrite Ef, bind_ret.
  cbn [ctxs with_heap upd_ctx with_ctxs]. rewrite lookup_alter_eq, Hx.
  by destruct (src =? 0).
Qed.

(** The NAME command reads an array that was never written when its
    parameter is a single word. *)
Theorem name_reads_uninitialised c n : cmd_name c (Some (str ".gate")) n = Fault Uninitialised.
Proof. reflexivity. Qed.
