(* ===== verification/Dispatch.v ===== *)
(** * A worker's round over one queue

    What [skynet_context_message_dispatch] does with a queue a worker holds:
    which messages are handled, in which order, how many, and in whose hands
    the queue is afterwards. *)

From S2P Require Import Prelude Mq Sched Timer Handle Text Module Server Delivery.
From stdpp Require Import base numbers list gmap.
From Stdlib Require Import ZArith Lia String.
#[local] Open Scope Z_scope.
#[local] Open Scope list_scope.
Import Ring Global.

(** Replacing one queue in place. *)
Lemma node_inv_queue n O O' l s q y' :
  node_inv n O l -> Sched.inv (Sched s O') l ->
  mqs s = <[q := y']> (mqs (mq n)) ->
  (forall y, mqs (mq n) !! q = Some y -> mq_release y' = mq_release y) ->
  node_inv (with_mq s n) O' l.
Proof.
  intros [Is Ic Io Ish It Inm Im] I' Es Hrel. split; try done.
  intros c x Hx. destruct (Ic c x Hx) as [Hpos (z & Hz & Hzr)]. split; [done|].
  cbn [mq with_mq]. rewrite Es. destruct (decide (queue x = q)) as [E|Hne].
  - rewrite E, lookup_insert_eq. rewrite E in Hz. exists y'. split; [done|].
    by rewrite (Hrel z Hz).
  - rewrite lookup_insert_ne by done. eauto.
Qed.

Lemma next_waiting (s' : mqstate) n q items :
  (forall p, exists nx, mqs s' !! p = set_next nx <$> mqs (mq n) !! p) ->
  waiting n q items -> waiting (with_mq s' n) q items.
Proof.
  intros Hn (y & Hy & Hr). destruct (Hn q) as [nx E]. rewrite Hy in E.
  eexists. split; [exact E|]. by apply mq_repr_next.
Qed.

Lemma node_inv_next n O O' l l' s' :
  node_inv n O l -> Sched.inv (Sched s' O') l' ->
  (forall p, exists nx, mqs s' !! p = set_next nx <$> mqs (mq n) !! p) ->
  node_inv (with_mq s' n) O' l'.
Proof.
  intros [Is Ic Io Ish It Inm Im] I' Hn. split; try done.
  intros c x Hx. destruct (Ic c x Hx) as [Hpos (z & Hz & Hzr)]. split; [done|].
  destruct (Hn (queue x)) as [nx E]. cbn [mq with_mq]. rewrite E, Hz. cbn. eauto.
Qed.

Section Round.
Variable callback : Z -> loc -> Z -> Z -> Z -> option loc -> Z -> node -> outcome (Z * node).
Variable thread_time : Z * Z.
(** The service, its queue and the queues in the hands of workers. *)
Variable c q : loc.
Variable O : gset loc.
Hypothesis held : q ∈ O.
(** What is known of the messages handled so far; kept in the environment, which
    nothing but the callback touches. *)
Variable R : list skynet_message -> gmap (list Z) (list Z) -> Prop.

(** The service between two messages: [items] wait, [dn] were handled. *)
Definition serving (n : node) (l : list loc) (items dn : list skynet_message) : Prop :=
  node_inv n O l /\ waiting n q items /\ R dn (env n) /\
  exists x f, ctxs n !! c = Some x /\ queue x = q /\ cb x = Some f /\ init x = true /\ 1 < ref x.

(** The rely condition: a callback returns, keeps its service going (it may
    send messages, at most [B] to any one queue, itself included), and owns the
    data it does not reserve. *)
Variable B : Z.
Hypothesis B_nonneg : 0 <= B.
Hypothesis callback_ok : forall f m n l items dn k,
  serving n l items dn -> room n (k + B) -> 0 <= k ->
  exists r n' l' more,
    callback f c (Z.shiftr (sz m) MESSAGE_TYPE_SHIFT) (session m) (source m) (data m)
      (Z.land (sz m) MESSAGE_TYPE_MASK) n = Ok (r, n') /\
    serving n' l' (items ++ more) (dn ++ [m]) /\ room n' k /\
    (r = 0 -> forall p, data m = Some p -> is_Some (heap n' !! p)).

Lemma serving_upd f n l items dn :
  keeps f -> (forall x, cb (f x) = cb x /\ init (f x) = init x /\ ref (f x) = ref x) ->
  serving n l items dn -> serving (upd_ctx f c n) l items dn.
Proof.
  intros K Kf (I & W & HR & x & g & Hx & Hq & Hcb & Hi & Hr).
  split; [by apply node_inv_upd|]. split; [done|]. split; [done|].
  destruct (Kf x) as (E1 & E2 & E3). destruct (K x) as (_ & E4 & _).
  exists (f x), g. cbn. rewrite lookup_alter_eq, Hx. split; [done|]. split_and!; congruence.
Qed.

Lemma serving_io e n l items dn : serving n l items dn -> serving (with_io e n) l items dn.
Proof. intros (I & W & HR & Hx). split; [by destruct I|]. done. Qed.

Lemma serving_heap h n l items dn : serving n l items dn -> serving (with_heap h n) l items dn.
Proof. intros (I & W & HR & Hx). split; [by apply node_inv_heap|]. done. Qed.

(** One message through [dispatch_message]. *)
Lemma dispatch_message_ok m n l items dn k :
  serving n l items dn -> room n (k + B) -> 0 <= k ->
  exists n' l' more, dispatch_message callback thread_time c m n = Ok n' /\
    serving n' l' (items ++ more) (dn ++ [m]) /\ room n' k.
Proof.
  intros Hs Hroom Hk. pose proof Hs as (_ & _ & _ & x & f & Hx & Hq & Hcb & Hi & Hr).
  unfold dispatch_message. rewrite Hx. cbn [deref]. rewrite bind_ret, Hi. cbn [c_assert].
  rewrite bind_ret, Hcb. cbv zeta.
  set (n1 := upd_ctx (set_count (i32 (message_count x + 1))) c _).
  assert (serving n1 l items dn /\ room n1 (k + B)) as [Hs1 Hr1].
  { subst n1. split; [|by destruct (logfile x)].
    apply (serving_upd (set_count (i32 (message_count x + 1)))); [by intros y|by intros y|]. destruct (logfile x); [by apply serving_io|done]. }
  clearbody n1.
  assert (exists r n2 l' more,
    (if profile x then
       '(r, n) ← callback f c (Z.shiftr (sz m) MESSAGE_TYPE_SHIFT) (session m) (source m) (data m)
         (Z.land (sz m) MESSAGE_TYPE_MASK) (upd_ctx (fun y => set_cpu (cpu_cost y) thread_time.1 y) c n1);
       Ok (r, upd_ctx (fun y => set_cpu (u64 (cpu_cost y + (thread_time.2 - cpu_start y))) (cpu_start y) y) c n)
     else callback f c (Z.shiftr (sz m) MESSAGE_TYPE_SHIFT) (session m) (source m) (data m)
       (Z.land (sz m) MESSAGE_TYPE_MASK) n1) = Ok (r, n2) /\
    serving n2 l' (items ++ more) (dn ++ [m]) /\ room n2 k /\
    (r = 0 -> forall p, data m = Some p -> is_Some (heap n2 !! p))) as (r & n2 & l' & more & E & Hs2 & Hr2 & Hfree).
  { destruct (profile x).
    - destruct (callback_ok f m (upd_ctx (fun y => set_cpu (cpu_cost y) thread_time.1 y) c n1) l items dn k)
        as (r & n2 & l' & more & -> & Hs2 & Hr2 & Hf); [|done|done|].
      { apply serving_upd; [by intros y|by intros y|done]. }
      rewrite bind_ret. eexists r, _, l', more. split; [done|]. split; [|done].
      apply serving_upd; [by intros y|by intros y|done].
    - destruct (callback_ok f m n1 l items dn k Hs1 Hr1 Hk) as (r & n2 & l' & more & -> & ?); eauto 10. }
  rewrite E, bind_ret. destruct (Z.eqb_spec r 0) as [E0|_]; [|eauto 10].
  unfold skynet_free. destruct (data m) as [p|] eqn:Ed; [|eauto 10].
  destruct (Hfree E0 p eq_refl) as [b Hb]. rewrite Hb. eexists _, l', more. split; [done|].
  split; [by apply serving_heap|done].
Qed.
(** Taking the next message off the queue. *)
Lemma serving_pop m n l items dn k :
  serving n l (m :: items) dn -> room n k ->
  exists s y, mq_pop q (mq n) = Ok (Some m, s) /\ mqs s !! q = Some y /\ mq_repr y items /\
    serving (with_mq s n) l items dn /\ room (with_mq s n) k.
Proof.
  intros (I & (y & Hy & Hr) & HR & x & f & Hx & Hq & Hrest) Hroom.
  destruct (ni_ctx _ _ _ I c x Hx) as [_ (y0 & Hy0 & Hrel)].
  rewrite Hq, Hy in Hy0. injection Hy0 as <-.
  destruct (pop_nonempty y m items Hr) as (_ & y' & Ep & Hr' & _).
  pose proof (pop_preserves _ _ _ Ep) as (Hn & Hrl & _ & Hg).
  assert (Ep' : mq_pop q (mq n) = Ok (Some m, MS (<[q := y']> (mqs (mq n))) (Q (mq n)))).
  { unfold mq_pop. rewrite Hy. cbn [deref]. by rewrite bind_ret, Ep. }
  assert (Hb : busy_in l O q = true) by (apply busy_true; by right).
  eexists _, y'. split; [exact Ep'|]. split; [cbn; by rewrite lookup_insert_eq|]. split; [done|].
  assert (Is : Sched.inv (Sched (MS (<[q := y']> (mqs (mq n))) (Q (mq n))) O) l).
  { eapply inv_update; [apply I|done|done|done|done|]. exists items. split; [done|].
    destruct (inv_queue _ _ (ni_sched _ _ _ I) q y Hy) as (it & _ & Hok).
    rewrite Hrl, Hrel in *. cbn in Hok |- *.
    destruct Hok as [[Hg1 _]|(_ & Hb' & _)]; [|cbn in Hb'; congruence]. left. split; [|done].
    rewrite Hg; [done|by eexists]. }
  split.
  - split; [|split; [|split; [done|by exists x, f]]].
    + eapply node_inv_queue; [done|done|done|]. intros z Hz. congruence.
    + exists y'. cbn. by rewrite lookup_insert_eq.
  - intros p z. cbn. destruct (decide (q = p)) as [<-|].
    + rewrite lookup_insert_eq. intros [= <-]. pose proof (Hroom q y Hy) as HR'.
      rewrite (length_repr _ _ Hr') in *. rewrite (length_repr _ _ Hr) in HR'. cbn in HR'. lia.
    + rewrite lookup_insert_ne by done. apply Hroom.
Qed.

(** Reading and clearing the overload figure, and reporting it. *)
Definition report_overload (y : message_queue) (n : node) : outcome node :=
  let '(ov, y) := skynet_mq_overload y in
  let n := with_mq (MS (<[q := y]> (mqs (mq n))) (Q (mq n))) n in
  if negb (ov =? 0) then
    skynet_error (Some c) (str "May overload, message queue length = " ++ fmt_d ov) n
  else Ok n.

Lemma serving_overload n l items dn y k :
  serving n l items dn -> mqs (mq n) !! q = Some y -> room n (k + 1) -> 0 <= k ->
  exists n' l' more,
    report_overload y n = Ok n' /\ serving n' l' (items ++ more) dn /\ room n' k.
Proof.
  intros (I & (y0 & Hy0 & Hr) & HR & x & f & Hx & Hq & Hrest) Hy Hroom Hk.
  rewrite Hy in Hy0. injection Hy0 as <-. unfold report_overload.
  destruct (skynet_mq_overload y) as [ov y'] eqn:Eo. cbv zeta.
  assert (Hy' : mq_repr y' items /\ mq_release y' = mq_release y /\ mq_next y' = mq_next y /\
    mq_in_global y' = mq_in_global y).
  { unfold skynet_mq_overload in Eo. destruct (_ =? 0); injection Eo as _ <-; [done|].
    split; [by destruct Hr|done]. }
  destruct Hy' as (Hr' & Hrl & Hn & Hg).
  set (s := MS _ _).
  assert (Is : Sched.inv (Sched s O) l).
  { eapply inv_update; [apply I|done|done|done|done|]. exists items. split; [done|].
    destruct (inv_queue _ _ (ni_sched _ _ _ I) q y Hy) as (it & Hit & Hok).
    rewrite Hrl, Hg. by rewrite (mq_repr_inj y it items) in Hok. }
  assert (I1 : node_inv (with_mq s n) O l).
  { eapply node_inv_queue; [done|done|done|]. intros z Hz. congruence. }
  assert (W1 : waiting (with_mq s n) q items) by (exists y'; cbn; by rewrite lookup_insert_eq).
  assert (R1 : room (with_mq s n) (k + 1)).
  { intros p z. cbn. destruct (decide (q = p)) as [<-|].
    - rewrite lookup_insert_eq. intros [= <-]. pose proof (Hroom q y Hy) as HR'.
      rewrite (length_repr _ _ Hr'). rewrite (length_repr _ _ Hr) in HR'. lia.
    - rewrite lookup_insert_ne by done. apply Hroom. }
  destruct (negb (ov =? 0)).
  - destruct (error_ok (Some c) (str "May overload, message queue length = " ++ fmt_d ov)
      (with_mq s n) O l k I1 R1 Hk) as (lg & h & s' & l' & -> & I2 & R2 & G).
    destruct W1 as (z & Hz & Hzr). destruct (G q z items Hz Hzr) as (z' & more & Hz' & Hzr' & _).
    eexists _, l', more. split; [done|]. split; [|done].
    split; [done|]. split; [by exists z'|]. split; [done|]. by exists x, f.
  - exists (with_mq s n), l, []. rewrite app_nil_r. split; [done|]. split.
    + split; [done|]. split; [done|]. split; [done|]. by exists x, f.
    + intros p z Hz. pose proof (R1 p z Hz). lia.
Qed.

(** One iteration of the loop, the pop done: report, trigger, dispatch. *)
Definition handle_one (m : skynet_message) (y : message_queue) (n : node) : outcome node :=
  n ← report_overload y n;
  z ← deref (ctxs n !! c);
  match cb z with
  | None => skynet_free (data m) n
  | Some _ => dispatch_message callback thread_time c m n
  end.

Lemma handle_one_ok m y n l items dn k :
  serving n l items dn -> mqs (mq n) !! q = Some y -> room n (k + (B + 1)) -> 0 <= k ->
  exists n' l' more, handle_one m y n = Ok n' /\
    serving n' l' (items ++ more) (dn ++ [m]) /\ room n' k.
Proof.
  intros Hs Hy Hroom Hk.
  destruct (serving_overload n l items dn y (k + B) Hs Hy) as (n1 & l1 & more1 & E1 & Hs1 & R1);
    [by rewrite <- Z.add_assoc|lia|].
  unfold handle_one. rewrite E1, bind_ret.
  pose proof Hs1 as (_ & _ & _ & x & f & Hx & _ & Hcb & _). rewrite Hx. cbn [deref].
  rewrite bind_ret, Hcb.
  destruct (dispatch_message_ok m n1 l1 (items ++ more1) dn k Hs1 R1 Hk) as (n2 & l2 & more2 & E2 & Hs2 & R2).
  exists n2, l2, (more1 ++ more2). rewrite app_assoc. done.
Qed.

(** The body of [dispatch_loop] in these terms. *)
Lemma dispatch_loop_step fuel i bound weight h sm n m s y :
  i < bound -> mq_pop q (mq n) = Ok (Some m, s) -> mqs s !! q = Some y ->
  dispatch_loop callback thread_time (S fuel) i bound weight q c h sm n
  = (n' ← handle_one m y (with_mq s n);
     dispatch_loop callback thread_time fuel (i + 1)
       (if (i =? 0) && (0 <=? weight) then Z.shiftr (skynet_mq_length y) weight else bound)
       weight q c h
       (skynet_monitor_trigger (skynet_monitor_trigger sm (source m) h) 0 0) n').
Proof.
  intros Hi Ep Hy. cbn [dispatch_loop]. destruct (Z.ltb_spec i bound); [|lia].
  rewrite Ep, bind_ret. cbn [mq with_mq]. rewrite Hy. cbn [deref]. rewrite bind_ret.
  unfold handle_one, report_overload. cbn [mq with_mq].
  destruct (skynet_mq_overload y) as [ov y']. cbv zeta.
  destruct (if negb (ov =? 0) then _ else _) as [n1|]; [|done]. rewrite !bind_ret.
  destruct (ctxs n1 !! c) as [z|]; [|done]. cbn [deref]. rewrite !bind_ret. done.
Qed.

(** The rest of a round: [bound - i] messages. *)
Lemma dispatch_rest h fuel : forall i bound weight sm n l items dn,
  1 <= i -> serving n l items dn -> Z.max 0 (bound - i) <= Z.of_nat (List.length items) ->
  Z.max 0 (bound - i) < Z.of_nat fuel ->
  room n ((bound - i) * (B + 1)) ->
  exists sm' n' l' more,
    dispatch_loop callback thread_time fuel i bound weight q c h sm n = Ok (true, sm', n') /\
    let k := Z.to_nat (bound - i) in
    serving n' l' (drop k items ++ more) (dn ++ take k items).
Proof.
  induction fuel as [|fuel IH]; intros i bound weight sm n l items dn Hi Hs Hlen Hf Hroom; [lia|].
  destruct (Z.le_gt_cases bound i) as [Hle|Hgt].
  - cbn [dispatch_loop]. destruct (Z.ltb_spec i bound); [lia|].
    exists sm, n, l, []. split; [done|]. cbv zeta. replace (Z.to_nat (bound - i)) with 0%nat by lia.
    by rewrite drop_0, take_0, !app_nil_r.
  - destruct items as [|m items]; [cbn in Hlen; lia|]. cbn [List.length] in Hlen.
    destruct (serving_pop m n l items dn _ Hs Hroom) as (s & y & Ep & Hy & Hry & Hs1 & R1).
    rewrite (dispatch_loop_step fuel i bound weight h sm n m s y Hgt Ep Hy).
    destruct (handle_one_ok m y (with_mq s n) l items dn ((bound - (i + 1)) * (B + 1)) Hs1)
      as (n2 & l2 & more & -> & Hs2 & R2); [done| |nia|].
    { replace ((bound - (i + 1)) * (B + 1) + (B + 1)) with ((bound - i) * (B + 1)) by ring. done. }
    rewrite bind_ret. destruct (Z.eqb_spec i 0); [lia|]. cbn [andb].
    destruct (IH (i + 1) bound weight (skynet_monitor_trigger (skynet_monitor_trigger sm (source m) h) 0 0)
      n2 l2 (items ++ more) (dn ++ [m])) as (sm' & n' & l' & more' & E & Hs'); [lia|done| |lia|done|].
    { rewrite length_app. lia. }
    exists sm', n', l', (more ++ more'). split; [done|]. cbv zeta in Hs' |- *.
    replace (Z.to_nat (bound - i)) with (S (Z.to_nat (bound - (i + 1)))) by lia.
    cbn [drop take]. rewrite drop_app_le, take_app_le in Hs' by lia.
    by rewrite <- !app_assoc in Hs'.
Qed.

(** How many messages a round handles: [1] when the weight is negative, else the
    messages left after the first, shifted, but at least one. *)
Definition quota (weight : Z) (len : nat) : nat :=
  if weight <? 0 then 1 else Z.to_nat (Z.max 1 (Z.shiftr (Z.of_nat len - 1) weight)).

Lemma quota_bounds weight len : (0 < len)%nat -> (1 <= quota weight len <= len)%nat.
Proof.
  intros Hl. unfold quota. destruct (Z.ltb_spec weight 0); [lia|].
  assert (Z.shiftr (Z.of_nat len - 1) weight <= Z.of_nat len - 1); [|lia].
  rewrite Z.shiftr_div_pow2 by done. apply Z.div_le_upper_bound; [lia|].
  assert (1 <= 2 ^ weight) by (change 1 with (2^0); apply Z.pow_le_mono_r; lia). nia.
Qed.

Lemma dispatch_round h weight sm n l items :
  serving n l items [] -> items <> [] ->
  room n (Z.of_nat (List.length items) * (B + 1)) ->
  exists sm' n' l' more,
    dispatch_loop callback thread_time (S (S (List.length items))) 0 1 weight q c h sm n = Ok (true, sm', n') /\
    let k := quota weight (List.length items) in
    serving n' l' (drop k items ++ more) (take k items).
Proof.
  intros Hs Hne Hroom. destruct items as [|m items]; [done|]. cbn [List.length] in *.
  destruct (serving_pop m n l items [] _ Hs Hroom) as (s & y & Ep & Hy & Hry & Hs1 & R1).
  rewrite (dispatch_loop_step _ 0 1 weight h sm n m s y ltac:(lia) Ep Hy).
  set (bound := if (0 =? 0) && (0 <=? weight) then Z.shiftr (skynet_mq_length y) weight else 1).
  destruct (handle_one_ok m y (with_mq s n) l items [] (Z.of_nat (List.length items) * (B + 1)) Hs1)
    as (n2 & l2 & more & -> & Hs2 & R2); [done| |nia|].
  { rewrite Nat2Z.inj_succ in R1. by rewrite Z.mul_succ_l in R1. }
  rewrite bind_ret.
  pose proof (quota_bounds weight (S (List.length items)) ltac:(lia)) as Hqb.
  assert (Z.to_nat (bound - 1) = (quota weight (S (List.length items)) - 1)%nat /\
    bound - 1 <= Z.of_nat (List.length items)) as [Hbq Hbl].
  { subst bound. unfold quota in *. cbn [Z.eqb andb]. rewrite (length_repr _ _ Hry).
    destruct (Z.leb_spec 0 weight), (Z.ltb_spec weight 0); try lia.
    replace (Z.of_nat (S (List.length items)) - 1) with (Z.of_nat (List.length items)) in * by lia.
    pose proof (Z.shiftr_nonneg (Z.of_nat (List.length items)) weight). lia. }
  destruct (dispatch_rest h (S (S (List.length items))) (0 + 1) bound weight
    (skynet_monitor_trigger (skynet_monitor_trigger sm (source m) h) 0 0) n2 l2 (items ++ more) ([] ++ [m]))
    as (sm' & n' & l' & more' & E & Hs'); [lia|exact Hs2| |lia| |].
  { rewrite length_app. lia. }
  { intros p z Hz. pose proof (R2 p z Hz). nia. }
  exists sm', n', l', (more ++ more'). split; [done|]. cbv zeta in Hs' |- *.
  change (0 + 1) with 1 in Hs'. rewrite Hbq in Hs'.
  destruct (quota weight (S (List.length items))) as [|k] eqn:Ek; [lia|].
  cbn [drop take]. rewrite Nat.sub_succ, Nat.sub_0_r in Hs'.
  rewrite drop_app_le, take_app_le in Hs' by lia. by rewrite <- !app_assoc in Hs'.
Qed.
(** Dropping the worker's reference. *)
Lemma release_kept n l O' x :
  node_inv n O' l -> ctxs n !! c = Some x -> 1 < ref x ->
  exists n', skynet_context_release c n = Ok (Some c, n') /\ node_inv n' O' l /\
    mq n' = mq n /\ env n' = env n.
Proof.
  intros I Hx Hr. unfold skynet_context_release. rewrite Hx. cbn [deref]. rewrite bind_ret. cbv zeta.
  destruct (Z.eqb_spec (ref x - 1) 0); [lia|]. eexists. split; [done|]. split; [|done].
  apply node_inv_upd; [apply set_ref_keeps; lia|done].
Qed.

(** The worker takes the next queue and gives its own back, or keeps its own. *)
Lemma next_queue n l :
  node_inv n O l ->
  exists nq s, skynet_globalmq_pop (mq n) = Ok (nq, s) /\
    (forall p, exists nx, mqs s !! p = set_next nx <$> mqs (mq n) !! p) /\
    match nq with
    | None => l = [] /\ s = mq n
    | Some p => exists s' l', skynet_globalmq_push q s = Ok s' /\ p <> q /\
        node_inv (with_mq s' n) (({[p]} ∪ O) ∖ {[q]}) (l' ++ [q]) /\
        forall p, exists nx, mqs s' !! p = set_next nx <$> mqs (mq n) !! p
    end.
Proof.
  intros I. destruct (step_take (Sched (mq n) O) l (ni_sched _ _ _ I)) as (st & l' & E & I').
  pose proof (globalmq_pop_repr (mq n) l (inv_list _ _ (ni_sched _ _ _ I))) as Hp.
  cbn [exec sc_mq sc_owned] in E. destruct l as [|p l].
  - exists None, (mq n). split; [done|]. split; [|done]. intros p. apply next_same.
  - destruct Hp as (s & Ep & _ & Hn). exists (Some p), s. split; [done|]. split; [done|].
    rewrite Ep, bind_ret in E. injection E as <-.
    destruct (inv_push_owned s ({[p]} ∪ O) l' q I') as (s' & Es & Is'); [set_solver|].
    assert (Hn' : forall x, exists nx, mqs s' !! x = set_next nx <$> mqs (mq n) !! x).
    { intros x. destruct (globalmq_push_next _ _ _ Es x) as [nx ->]. destruct (Hn x) as [nx' ->].
      exists nx. by destruct (mqs (mq n) !! x). }
    exists s', l'. split; [done|]. split; [|split; [by eapply node_inv_next|done]].
    intros ->. apply (inv_disj _ _ (ni_sched _ _ _ I) q); [set_solver|done].
Qed.

(** C10.  A worker's round over the queue it holds, when messages are waiting: it
    hands exactly the first [quota] of them (one if its weight is negative,
    otherwise the messages left after the first, divided by [2^weight], at least
    one) to the service's callback, oldest first; the others stay in the
    queue in their order, followed by what arrived meanwhile; and it ends with
    another queue, having put this one back at the end of the global list, or
    with the same queue when no other is waiting.  The callback may send
    messages, at most [B] to any queue, as long as it returns and its service
    lives. *)
Theorem worker_round weight sm n l items x f h y :
  node_inv n O l -> ctxs n !! c = Some x -> queue x = q -> cb x = Some f -> init x = true ->
  mqs (mq n) !! q = Some y -> mq_handle y = h -> mq_repr y items -> items <> [] ->
  resolve n h = Ok (Some c) -> R [] (env n) ->
  room n (Z.of_nat (List.length items) * (B + 1)) ->
  exists q' sm' n' O' l' more,
    skynet_context_message_dispatch callback thread_time sm (Some q) weight n = Ok (Some q', sm', n') /\
    let k := quota weight (List.length items) in
    R (take k items) (env n') /\ waiting n' q (drop k items ++ more) /\
    node_inv n' O' l' /\ q' ∈ O' /\
    (q' = q /\ O' = O /\ l' = [] \/
     q' <> q /\ O' = ({[q']} ∪ O) ∖ {[q]} /\ last l' = Some q).
Proof.
  intros I Hx Hq Hcb Hi Hy Hh Hr Hne Hres HR Hroom.
  destruct (ni_ctx _ _ _ I c x Hx) as [Hpos _].
  set (n1 := upd_ctx (set_ref (ref x + 1)) c n).
  assert (Hs1 : serving n1 l items []).
  { split; [apply node_inv_upd; [apply set_ref_keeps; lia|done]|]. split; [by exists y|]. split; [done|].
    exists (set_ref (ref x + 1) x), f. cbn. rewrite lookup_alter_eq, Hx. split_and!; try done. lia. }
  unfold skynet_context_message_dispatch. rewrite bind_ret, Hy. cbn [deref]. rewrite bind_ret, Hh.
  unfold skynet_handle_grab, skynet_context_grab. rewrite Hres, bind_ret, Hx. cbn [deref]. rewrite !bind_ret.
  fold n1. rewrite (length_repr _ _ Hr), Nat2Z.id.
  destruct (dispatch_round h weight sm n1 l items Hs1 Hne) as (sm' & n2 & l2 & more & -> & Hs2); [done|].
  rewrite bind_ret. cbv zeta in Hs2. destruct Hs2 as (I2 & W2 & HR2 & x2 & f2 & Hx2 & Hq2 & _ & _ & Hr2).
  rewrite Hx2. cbn [deref]. rewrite bind_ret, Hq2, bool_decide_true by done. cbn [c_assert]. rewrite bind_ret.
  destruct (next_queue n2 l2 I2) as (nq & s & -> & Hn & Hnq). rewrite bind_ret.
  destruct nq as [p|].
  - destruct Hnq as (s' & l' & Es & Hpq & I3 & Hn'). cbn [mq with_mq]. rewrite Es, !bind_ret.
    destruct (release_kept (with_mq s' n2) _ _ x2 I3 Hx2 Hr2) as (n3 & Erel & I4 & Em & Ee).
    change (with_mq s' (with_mq s n2)) with (with_mq s' n2). rewrite Erel, bind_ret.
    exists p, sm', n3, (({[p]} ∪ O) ∖ {[q]}), (l' ++ [q]), more. split; [done|]. cbv zeta.
    rewrite Ee. split; [done|]. split; [|split; [done|split; [set_solver|right]]].
    + destruct (next_waiting s' n2 q _ Hn' W2) as (z & Hz & Hzr). exists z. by rewrite Em.
    + split_and!; [done|done|]. by rewrite last_snoc.
  - destruct Hnq as [-> ->]. rewrite bind_ret, with_mq_same.
    destruct (release_kept n2 _ _ x2 I2 Hx2 Hr2) as (n3 & -> & I4 & Em & Ee). rewrite bind_ret.
    exists q, sm', n3, O, [], more. split; [done|]. cbv zeta. rewrite Ee. split; [done|].
    split; [|split; [done|split; [done|by left]]].
    destruct W2 as (z & Hz & Hzr). exists z. by rewrite Em.
Qed.
End Round.
