(* ===== verification/Boot.v ===== *)
(** * A node from its start

    The invariant holds of a freshly started node, and so of every node built
    from it by the operations of the other files.  The concrete nodes here are
    obtained by running the model: they are the inputs at which the theorems on
    delivery and life cycle are instantiated. *)

From S2P Require Import Prelude Mq Sched Timer Handle Text Module Server Delivery Command Lifecycle Dispatch.
From stdpp Require Import base numbers list gmap.
From Stdlib Require Import ZArith Lia String.
#[local] Open Scope Z_scope.
#[local] Open Scope list_scope.
Import Ring Global.

Lemma handle_init_wf hd hb : slots_wf hd (skynet_handle_init hb) /\ names_repr (skynet_handle_init hb) [].
Proof.
  split; split; cbn -[Z.land Z.shiftl Z.pow]; try done.
  - by exists 2.
  - assert (Hb : 0 <= Z.land hb 0xff < 2^8) by (apply (land_mask_range hb 8); lia).
    exists (Z.land hb 0xff). split; [done|]. rewrite Z.shiftl_mul_pow2 by done.
    unfold u32. apply Z.mod_small. unfold HANDLE_REMOTE_SHIFT. lia.
  - intros i c Hi. do 4 (destruct i as [|i]; [done|]). done.
  - by exists 1.
  - constructor.
Qed.

Lemma start_node_inv cfg sec cs now E : node_inv (start_node cfg sec cs now E) ∅ [].
Proof.
  split; cbn.
  - split; cbn; [apply skynet_mq_init_repr|set_solver|set_solver|].
    by intros p y ?%lookup_empty_Some.
  - by intros c x ?%lookup_empty_Some.
  - by intros c c' x x' ?%lookup_empty_Some.
  - apply (handle_init_wf _ (cfg_harbor cfg)).
  - intros c [i Hi]. cbn in Hi. do 4 (destruct i as [|i]; [done|]). done.
  - exists []. apply (handle_init_wf (fun _ => 0) (cfg_harbor cfg)).
  - exists []. split; [apply module_init_wf|]. by intros c x ?%lookup_empty_Some.
Qed.

(** ** A node with two services *)

(** A module whose [init] registers a callback with the id of its function. *)
Definition plain_init (f inst : Z) (c : loc) (param : option cstr) (n : node) : outcome (Z * node) :=
  Ok (0, skynet_callback c f n).

Lemma plain_init_succeeds f inst param O : init_succeeds plain_init f inst param O.
Proof.
  intros c q h n l (I & HqO & Hres & x & Hx & Hrest) Hr.
  exists (skynet_callback c f n), l. split; [done|]. split; [|done].
  assert (K : keeps (set_cb (Some f))) by by intros y.
  split; [by apply node_inv_upd|]. split; [done|]. split.
  - rewrite <- Hres. apply handle_lookup_ext. intros k. by apply handle_upd.
  - exists (set_cb (Some f) x). split; [|done]. cbn. by rewrite lookup_alter_eq, Hx.
Qed.

Definition any_library (file : cstr) : option Z := Some 1.
Definition any_symbol (lib : Z) (sym : cstr) : option Z := Some 5.
Definition config : skynet_config :=
  Config 1 (str "./cservice/?.so") false (str "logger") None (str "snlua bootstrap").

Definition launch (name : string) (n : node) : outcome (option loc * node) :=
  skynet_context_new any_library any_symbol Some plain_init (str name) None n.

Definition after (r : outcome (option loc * node)) (n : node) : node :=
  match r with Ok (_, n') => n' | Fault _ => n end.

Definition node0 : node := start_node config 1700000000 0 0 ∅.
Definition node1 : node := after (launch "gate" node0) node0.
Definition node2 : node := after (launch "watchdog" node1) node1.

(** [room] of a concrete node, by evaluation. *)
Definition roomb (n : node) (k : Z) : bool :=
  bool_decide (Forall (fun p => skynet_mq_length p.2 + k < 2^30) (map_to_list (mqs (mq n)))).
Lemma roomb_ok n k : roomb n k = true -> room n k.
Proof.
  unfold roomb. rewrite bool_decide_eq_true, Forall_forall. intros Hr q y Hy.
  apply (Hr (q, y)). by apply elem_of_map_to_list.
Qed.

Lemma config_path name : 0 ∉ name -> path_ok (skynet_module_init (str "./cservice/?.so")) name.
Proof.
  intros Hn. split; [vm_compute; set_solver|]. split; [done|].
  replace (templates _) with [str "./cservice/?.so"] by (vm_compute; reflexivity).
  intros seg ->%list_elem_of_singleton. vm_compute. set_solver.
Qed.

(** Launching on a node whose invariant holds, with the loader above. *)
Lemma launch_keeps name n l m Ms md :
  node_inv n ∅ l -> roomb n 1 = true -> m_path (M n) = str "./cservice/?.so" -> 0 ∉ str name ->
  bool_decide (slot_size (handles n) < 2^24) = true ->
  skynet_module_query any_library any_symbol (str name) (M n) = Ok (Some m, Ms) ->
  module_at m (with_M Ms n) = Ok md -> m_create md = Some 5 -> m_init md = Some 5 ->
  exists l', node_inv (after (launch name n) n) ∅ l'.
Proof.
  intros I Hr Hp Hn Hs Eq Em Ec Ei.
  destruct (launch_ok any_library any_symbol Some plain_init n ∅ l (str name) None m Ms md 5 5)
    as (c & h & n' & l' & E & I' & _); try done.
  - by apply roomb_ok.
  - pose proof (config_path (str name) Hn) as P. unfold path_ok in *. rewrite Hp. done.
  - left. by apply bool_decide_eq_true in Hs.
  - unfold skynet_module_instance_create. by rewrite Ec.
  - apply plain_init_succeeds.
  - exists l'. unfold launch. by rewrite E.
Qed.

Ltac ev := vm_compute; reflexivity.

Lemma node1_inv : exists l, node_inv node1 ∅ l.
Proof.
  eapply (launch_keeps "gate" node0 [] 0); [apply start_node_inv|ev|ev| |ev|ev|ev|ev|ev].
  vm_compute. set_solver.
Qed.

Lemma node2_inv : exists l, node_inv node2 ∅ l.
Proof.
  destruct node1_inv as [l I].
  eapply (launch_keeps "watchdog" node1 l 1); [exact I|ev|ev| |ev|ev|ev|ev|ev].
  vm_compute. set_solver.
Qed.

(** ** Instances of the theorems on these nodes *)

Definition gate_ctx : skynet_context :=
  default (Ctx 0 0 None 1 None 0 0 0 0 0 0 false false false []) (ctxs node2 !! 1%positive).
Definition watchdog_ctx : skynet_context :=
  default (Ctx 0 0 None 1 None 0 0 0 0 0 0 false false false []) (ctxs node2 !! 2%positive).

Lemma launch_registers_witness : exists c h n' l',
  launch "gate" node0 = Ok (Some c, n') /\ node_inv n' ∅ l' /\
  resolve node0 h = Ok None /\ resolve n' h = Ok (Some c).
Proof.
  destruct (launch_registers any_library any_symbol Some plain_init node0 ∅ [] (str "gate") None 0
    (default (M node0) (match skynet_module_query any_library any_symbol (str "gate") (M node0) with
                        | Ok (_, Ms) => Some Ms | Fault _ => None end))
    (Mod (str "gate") 1 (Some 5) (Some 5) (Some 5) (Some 5)) 5 5)
    as (c & h & n' & l' & E & I & H0 & H1 & _).
  - apply start_node_inv.
  - apply roomb_ok. ev.
  - apply config_path. vm_compute. set_solver.
  - left. vm_compute. reflexivity.
  - ev.
  - ev.
  - ev.
  - ev.
  - apply plain_init_succeeds.
  - exists c, h, n', l'. split; [exact E|]. split; [exact I|]. split; [exact H0|exact H1].
Defined.

(** The node with a block of three bytes. *)
Definition node2h : node := with_heap {[7%positive := [65; 66; 67]]} node2.

Lemma node2h_inv : exists l, node_inv node2h ∅ l.
Proof. destruct node2_inv as [l I]. exists l. by apply node_inv_heap. Qed.

Lemma node2h_idle : waiting node2h (queue watchdog_ctx) [].
Proof.
  exists (default (new_queue 0) (mqs (mq node2) !! 2%positive)). split; [ev|].
  replace (default _ _) with (set_next (mq_next (default (new_queue 0) (mqs (mq node2) !! 2%positive)))
    (new_queue 16777218)) by (vm_compute; reflexivity).
  apply mq_repr_next, new_queue_repr.
Qed.

(** The gate sends the block, copied, with an allocated session. *)
Lemma send_witness_args : args_ok node2h gate_ctx (Z.lor 10 PTYPE_TAG_ALLOCSESSION) 0 (Some 7%positive) 3.
Proof.
  split; [intros _; vm_compute; intuition congruence|]. intros p [= <-].
  exists [65; 66; 67]. split; [ev|]. vm_compute. discriminate.
Qed.

Lemma send_local_delivers_witness : exists sess d' w n' l',
  skynet_send (Some 1%positive) 0 16777218 (Z.lor 10 PTYPE_TAG_ALLOCSESSION) 0 (Some 7%positive) 3 node2h
    = Ok (sess, n') /\ node_inv n' ∅ l' /\
  waiting n' (queue watchdog_ctx) [Msg 16777217 sess d' w] /\ sess = 1.
Proof.
  destruct node2h_inv as [l I].
  destruct (send_local_delivers node2h ∅ l 1 gate_ctx 16777218 2 watchdog_ctx []
    (Z.lor 10 PTYPE_TAG_ALLOCSESSION) 0 (Some 7%positive) 3 0 I)
    as (sess & d' & w & n' & l' & E & I' & W & _ & _ & _ & Hs & _).
  - ev.
  - exact send_witness_args.
  - vm_compute. intuition congruence.
  - discriminate.
  - ev.
  - ev.
  - ev.
  - exact node2h_idle.
  - vm_compute. reflexivity.
  - exists sess, d', w, n', l'. split; [exact E|]. split; [exact I'|].
    split; [|apply Hs]. replace 16777217 with (sender gate_ctx 0) by ev. exact W.
Defined.

Lemma send_dead_frees_witness : exists n',
  skynet_send (Some 1%positive) 0 16777299 (Z.lor 10 PTYPE_TAG_DONTCOPY) 5 (Some 7%positive) 3 node2h
    = Ok (-1, n') /\ heap n' = ∅.
Proof.
  destruct (send_dead_frees node2h 1 gate_ctx 16777299 (Z.lor 10 PTYPE_TAG_DONTCOPY) 5
    (Some 7%positive) 3 0) as (n' & E & _ & _ & Hh).
  - ev.
  - split; [intros Hf; vm_compute in Hf; discriminate|]. intros p [= <-].
    exists [65; 66; 67]. split; [ev|]. vm_compute. discriminate.
  - vm_compute. intuition congruence.
  - discriminate.
  - ev.
  - ev.
  - exists n'. split; [exact E|]. rewrite Hh. ev.
Defined.

Lemma retire_stops_delivery_witness : exists n' l',
  handle_retire 16777218 node2 = Ok (1, n') /\ node_inv n' ∅ l' /\
  (forall m, skynet_context_push 16777218 m n' = Ok (-1, n')) /\ ctxs n' !! 2%positive = None.
Proof.
  destruct node2_inv as [l I].
  destruct (retire_stops_delivery node2 ∅ l 16777218 2 watchdog_ctx I) as (n' & l' & E & I' & Hp & _ & D).
  - ev.
  - ev.
  - exists n', l'. split; [exact E|]. split; [exact I'|]. split; [exact Hp|].
    refine (dropped_last _ _ _ _ _ _ D _). ev.
Defined.

Lemma abort_witness : exists n' l', cmd_abort 1 None node2 = Ok (None, n') /\ node_inv n' ∅ l' /\
  resolve n' 16777217 = Ok None.
Proof.
  destruct node2_inv as [l I].
  destruct (abort_retires_everything node2 ∅ l 1 None I) as (n' & l' & E & I' & Hr & _).
  exists n', l'. split; [exact E|]. split; [exact I'|]. apply Hr. discriminate.
Defined.

(** ** A worker's round *)

Definition pushed_node (h : Z) (m : skynet_message) (n : node) : node :=
  match skynet_context_push h m n with Ok (_, n') => n' | Fault _ => n end.

Lemma pushed_node_inv h m n O l :
  node_inv n O l -> roomb n 1 = true -> exists l', node_inv (pushed_node h m n) O l'.
Proof.
  intros I Hr. destruct (push_any h m n O l 0 I) as (r & s & l' & E & I' & _); [by apply roomb_ok|lia|].
  exists l'. unfold pushed_node. by rewrite E.
Qed.

(** A worker takes the first queue of the global list. *)
Definition taken_node (n : node) : option loc * node :=
  match skynet_globalmq_pop (mq n) with Ok (r, s) => (r, with_mq s n) | Fault _ => (None, n) end.

Lemma taken_node_inv n l p n' :
  node_inv n ∅ l -> taken_node n = (Some p, n') -> exists l', node_inv n' {[p]} l'.
Proof.
  intros I E. destruct (step_take (Sched (mq n) ∅) l (ni_sched _ _ _ I)) as (st & l' & Et & I').
  pose proof (globalmq_pop_repr (mq n) l (inv_list _ _ (ni_sched _ _ _ I))) as Hp.
  cbn [exec sc_mq sc_owned] in Et. unfold taken_node in E. destruct l as [|p0 l].
  - cbn [sc_mq] in Hp. by rewrite Hp in E.
  - destruct Hp as (s & Ep & _ & Hn). cbn [sc_mq] in *. rewrite Ep in E, Et. injection E as -> <-.
    rewrite bind_ret in Et. injection Et as <-. rewrite union_empty_r_L in I'.
    exists l'. by eapply node_inv_next.
Qed.

(** A callback that notes the sessions it saw, and what that says of the messages. *)
Definition noting (f : Z) (c : loc) (type sess src : Z) (d : option loc) (size : Z) (n : node)
    : outcome (Z * node) :=
  Ok (1, with_env (<[[0] := default [] (env n !! [0]) ++ [sess]]> (env n)) n).
Definition noted (dn : list skynet_message) (E : gmap (list Z) (list Z)) : Prop :=
  default [] (E !! [0]) = session <$> dn.

Lemma noting_ok c q O f m n l items dn k :
  serving c q O noted n l items dn -> room n (k + 0) -> 0 <= k ->
  exists r n' l' more,
    noting f c (Z.shiftr (sz m) MESSAGE_TYPE_SHIFT) (session m) (source m) (data m)
      (Z.land (sz m) MESSAGE_TYPE_MASK) n = Ok (r, n') /\
    serving c q O noted n' l' (items ++ more) (dn ++ [m]) /\ room n' k /\
    (r = 0 -> forall p, data m = Some p -> is_Some (heap n' !! p)).
Proof.
  intros (I & W & HR & Hx) Hr Hk. eexists 1, _, l, []. split; [done|]. rewrite app_nil_r.
  rewrite Z.add_0_r in Hr. split; [|done]. split; [by destruct I|]. split; [done|]. split; [|done].
  unfold noted in *. cbn. by rewrite lookup_insert_eq, HR, fmap_app.
Qed.

Definition note (i : Z) : skynet_message := Msg 16777218 i None (Z.shiftl 10 MESSAGE_TYPE_SHIFT).
Definition node3 : node :=
  (taken_node (pushed_node 16777217 (note 3) (pushed_node 16777217 (note 2)
                (pushed_node 16777217 (note 1) node2)))).2.

Lemma node3_inv : exists l, node_inv node3 {[1%positive]} l.
Proof.
  destruct node2_inv as [l0 I0].
  destruct (pushed_node_inv 16777217 (note 1) node2 ∅ l0 I0) as [l1 I1]; [ev|].
  destruct (pushed_node_inv 16777217 (note 2) _ ∅ l1 I1) as [l2 I2]; [ev|].
  destruct (pushed_node_inv 16777217 (note 3) _ ∅ l2 I2) as [l3 I3]; [ev|].
  eapply (taken_node_inv _ l3 1 node3 I3). unfold node3.
  destruct (taken_node _) as [r n] eqn:E. f_equal.
  apply (f_equal fst) in E. cbn in E. rewrite <- E. vm_compute. reflexivity.
Qed.

Definition gate_queue3 : message_queue := default (new_queue 0) (mqs (mq node3) !! 1%positive).

Lemma gate_queue3_repr : mq_repr gate_queue3 [note 1; note 2; note 3].
Proof.
  destruct (Fifo.ring_run_simulates [Some (note 1); Some (note 2); Some (note 3)]
    (new_queue 16777217) [] (new_queue_repr 16777217)) as (y & E & Hr); [by vm_compute|].
  replace gate_queue3 with y; [exact Hr|]. vm_compute in E. injection E as <-. vm_compute. reflexivity.
Qed.

(** Weight 0: the two messages left after the first set the quota to 2. *)
Lemma worker_round_witness : exists q' sm' n' more,
  skynet_context_message_dispatch noting (0, 0) skynet_monitor_new (Some 1%positive) 0 node3
    = Ok (Some q', sm', n') /\
  default [] (env n' !! [0]) = [1; 2] /\ waiting n' 1 (note 3 :: more).
Proof.
  destruct node3_inv as [l I].
  assert (Hheld : (1%positive : loc) ∈ ({[1%positive]} : gset loc)) by set_solver.
  destruct (worker_round noting (0, 0) 1 1 {[1%positive]} Hheld noted 0 ltac:(lia)
    (noting_ok 1 1 {[1%positive]}) 0 skynet_monitor_new node3 l [note 1; note 2; note 3]
    (default gate_ctx (ctxs node3 !! 1%positive)) 5 16777217 gate_queue3 I)
    as (q' & sm' & n' & O' & l' & more & E & HR & W & _).
  - ev.
  - ev.
  - ev.
  - ev.
  - ev.
  - ev.
  - exact gate_queue3_repr.
  - discriminate.
  - ev.
  - ev.
  - apply roomb_ok. ev.
  - exists q', sm', n', more. split; [exact E|]. split; [exact HR|exact W].
Defined.

(** ** Sessions, addresses and corner cases *)

Definition worn_node : node := upd_ctx (set_session INT_MAX) 1 node2.
Lemma newsession_overflows_witness : skynet_context_newsession 1 worn_node = Fault SignedOverflow.
Proof. apply (newsession_overflows 1 (set_session INT_MAX gate_ctx) worn_node); ev. Defined.

Lemma address_roundtrip_witness : tohandle 1 (id_to_hex 16777218) node2 = Ok (16777218, node2).
Proof. apply (address_roundtrip 1 16777218 node2). vm_compute. intuition congruence. Defined.

Lemma send_to_zero_witness : exists sess d' n',
  skynet_send (Some 1%positive) 0 0 (Z.lor 10 PTYPE_TAG_ALLOCSESSION) 0 (Some 7%positive) 3 node2h
    = Ok (sess, n') /\ payload (heap node2h) true (Some 7%positive) 3 d' (heap n').
Proof.
  destruct (send_to_zero_leaks node2h 1 gate_ctx (Z.lor 10 PTYPE_TAG_ALLOCSESSION) 0 (Some 7%positive) 3 0)
    as (sess & d' & n' & E & P & _); [ev|exact send_witness_args|vm_compute; intuition congruence|].
  exists sess, d', n'. split; [exact E|exact P].
Defined.
