(* ===== verification/Netpack.v ===== *)
(** * Packet splitting ([lualib-src/lua-netpack.c])

    A TCP stream carries packets, each a 16-bit big-endian length and that many
    bytes.  The module collects the pieces of each connection in a hash table of
    incomplete packets and the complete ones in a ring buffer that grows.

    The Lua stack is reduced to arguments and results: the userdata at index 1
    (the queue, [NULL] before its first use) is an [option queue]; buffers are
    passed by value, since every one of them has one owner at any time. *)

From S2P Require Import Prelude Mq.
From stdpp Require Import base numbers list gmap.
From Stdlib Require Import ZArith Lia.
#[local] Open Scope Z_scope.
#[local] Open Scope list_scope.

Module Netpack.

Definition QUEUESIZE : Z := 1024.
Definition HASHSIZE : Z := 4096.

(** Bytes of a buffer; [None]: allocated and not written yet. *)
Record netpack := Pack { np_id : Z; np_size : Z; np_buffer : list (option Z) }.

(** The table of connections with an incomplete packet and the ring of complete
    ones are the same in [lua-websocketnetpack.c], which keeps other records. *)
Class Pending (A : Type) := pending_pack : A -> netpack.
Definition pending_id {A} `{Pending A} (u : A) : Z := np_id (pending_pack u).

Section Queue.
Context {A : Type}.

(** A chain of records of incomplete packets is a list. *)
Record queue := Queue {
  cap : Z;
  head : Z;
  tail : Z;
  hash : list (list A);
  packs : list (option netpack)
}.

Definition set_hash (h : list (list A)) (q : queue) : queue :=
  Queue (cap q) (head q) (tail q) h (packs q).

Definition hash_fd (fd : Z) : outcome Z :=
  let a := Z.shiftr fd 24 in
  let b := Z.shiftr fd 12 in
  s ← c_int (a + b);
  s ← c_int (s + fd);
  Ok (u32 s mod HASHSIZE).

Context `{Pending A}.

(** The first record of [fd] in a chain, and the chain without it. *)
Fixpoint extract (fd : Z) (uc : list A) : option (A * list A) :=
  match uc with
  | [] => None
  | u :: rest =>
      if pending_id u =? fd then Some (u, rest)
      else match extract fd rest with
           | Some (v, rest') => Some (v, u :: rest')
           | None => None
           end
  end.

Definition find_uncomplete (q : option queue) (fd : Z) : outcome (option A * option queue) :=
  match q with
  | None => Ok (None, None)
  | Some q =>
      h ← hash_fd fd;
      chain ← arr_get (hash q) h;
      match extract fd chain with
      | None => Ok (None, Some q)
      | Some (u, rest) => hs ← arr_set (hash q) h rest; Ok (Some u, Some (set_hash hs q))
      end
  end.

Definition get_queue (q : option queue) : queue :=
  match q with
  | Some q => q
  | None => Queue QUEUESIZE 0 0 (replicate (Z.to_nat HASHSIZE) []) (replicate (Z.to_nat QUEUESIZE) None)
  end.

Definition expand_queue (q : queue) : outcome queue :=
  ncap ← c_int (cap q + QUEUESIZE);
  nq ← for_loop (Z.to_nat (cap q)) 0
    (fun i buf =>
       k ← c_int (head q + i);
       cell ← arr_get (packs q) (k mod cap q);
       arr_set buf i cell)
    (replicate (Z.to_nat ncap) None);
  Ok (Queue ncap 0 (cap q) (hash q) nq).

(** [clone] only says whether the caller keeps its buffer. *)
Definition push_data (q : option queue) (fd : Z) (buffer : list (option Z)) (size : Z) : outcome queue :=
  let q := get_queue q in
  ps ← arr_set (packs q) (tail q) (Some (Pack fd size buffer));
  let t := tail q + 1 in
  let t := if cap q <=? t then t - cap q else t in
  let q := Queue (cap q) (head q) t (hash q) ps in
  if head q =? tail q then expand_queue q else Ok q.

(** [save_uncomplete] with the fields its callers then set. *)
Definition save_uncomplete (q : option queue) (u : A) : outcome queue :=
  let q := get_queue q in
  h ← hash_fd (pending_id u);
  chain ← arr_get (hash q) h;
  hs ← arr_set (hash q) h (u :: chain);
  Ok (set_hash hs q).

Definition close_uncomplete (q : option queue) (fd : Z) : outcome (option queue) :=
  '(_, q) ← find_uncomplete q fd;
  Ok q.

Definition lpop (q : option queue) : outcome (option netpack * option queue) :=
  match q with
  | None => Ok (None, None)
  | Some q =>
      if head q =? tail q then Ok (None, Some q)
      else
        cell ← arr_get (packs q) (head q);
        np ← init_read cell;
        let h := head q + 1 in
        let h := if cap q <=? h then 0 else h in
        Ok (Some np, Some (Queue (cap q) h (tail q) (hash q) (packs q)))
  end.

(** The buffers [lclear] frees, and the queue it leaves. *)
Definition lclear (q : option queue) : outcome (list (list (option Z)) * option queue) :=
  match q with
  | None => Ok ([], None)
  | Some q =>
      let freed := (fun u => np_buffer (pending_pack u)) <$> concat (hash q) in
      let t := if tail q <? head q then tail q + cap q else tail q in
      freed ← for_loop (Z.to_nat (t - head q)) (head q)
        (fun i acc =>
           cell ← arr_get (packs q) (i mod cap q);
           np ← init_read cell;
           Ok (acc ++ [np_buffer np]))
        freed;
      Ok (freed, Some (Queue (cap q) 0 0 (replicate (length (hash q)) []) (packs q)))
  end.

End Queue.
Arguments queue : clear implicits.

Record uncomplete := UC { pack : netpack; uc_read : Z; uc_header : Z }.
#[global] Instance uncomplete_pending : Pending uncomplete := pack.

(** What [filter] returns besides the queue. *)
Inductive result :=
  | RNone                                          (** only the queue *)
  | RData (fd : Z) (buffer : list (option Z)) (size : Z)
  | RMore
  | RError (fd : Z) (msg : list Z)
  | ROpen (fd : Z) (msg : list Z)
  | RClose (fd : Z)
  | RWarning (fd size : Z).

Definition read_size (buffer : list Z) : outcome Z :=
  b0 ← arr_get buffer 0;
  b1 ← arr_get buffer 1;
  Ok (Z.lor (Z.shiftl b0 8) b1).

(** [memcpy] of [size] bytes of [src] to offset [off] of [dst]. *)
Definition copy_bytes (dst : list (option Z)) (off : Z) (src : list Z) (size : Z)
    : outcome (list (option Z)) :=
  bytes ← mem_read src 0 size;
  mem_write dst off (Some <$> bytes).

Definition malloc_bytes (size : Z) : list (option Z) := replicate (Z.to_nat size) None.

(** The incomplete records the code makes: one byte of the header, or a header
    and the bytes that were there. *)
Definition half_header (fd : Z) (buffer : list Z) : outcome uncomplete :=
  b ← arr_get buffer 0;
  Ok (UC (Pack fd 0 []) (-1) b).
Definition partial (fd pack_size : Z) (buffer : list Z) (size : Z) : outcome uncomplete :=
  b ← copy_bytes (malloc_bytes pack_size) 0 buffer size;
  Ok (UC (Pack fd pack_size b) size 0).

(** [size] is the length of [buffer]; each call consumes at least two bytes. *)
Fixpoint push_more (fuel : nat) (q : option (queue uncomplete)) (fd : Z) (buffer : list Z) (size : Z)
    : outcome (queue uncomplete) :=
  match fuel with
  | O => Fault OutOfFuel
  | S fuel =>
      if size =? 1 then u ← half_header fd buffer; save_uncomplete q u
      else
        pack_size ← read_size buffer;
        let buffer := drop 2 buffer in
        let size := size - 2 in
        if size <? pack_size then
          u ← partial fd pack_size buffer size; save_uncomplete q u
        else
          b ← copy_bytes (malloc_bytes pack_size) 0 buffer pack_size;
          q ← push_data q fd b pack_size;
          let buffer := drop (Z.to_nat pack_size) buffer in
          let size := size - pack_size in
          if 0 <? size then push_more fuel (Some q) fd buffer size else Ok q
  end.

(** The part of [filter_data_] that fills a record whose size is known. *)
Definition fill_uncomplete (q : option (queue uncomplete)) (fd : Z) (u : uncomplete) (buffer : list Z) (size : Z)
    : outcome (result * option (queue uncomplete)) :=
  let need := np_size (pack u) - uc_read u in
  if size <? need then
    b ← copy_bytes (np_buffer (pack u)) (uc_read u) buffer size;
    q ← save_uncomplete q (UC (Pack (np_id (pack u)) (np_size (pack u)) b)
                              (uc_read u + size) (uc_header u));
    Ok (RNone, Some q)
  else
    b ← copy_bytes (np_buffer (pack u)) (uc_read u) buffer need;
    let buffer := drop (Z.to_nat need) buffer in
    let size := size - need in
    if size =? 0 then Ok (RData fd b (np_size (pack u)), q)
    else
      q ← push_data q fd b (np_size (pack u));
      q ← push_more (length buffer) (Some q) fd buffer size;
      Ok (RMore, Some q).

Definition filter_data_ (q : option (queue uncomplete)) (fd : Z) (buffer : list Z) (size : Z)
    : outcome (result * option (queue uncomplete)) :=
  '(uc, q) ← find_uncomplete q fd;
  match uc with
  | Some u =>
      if uc_read u <? 0 then
        _ ← c_assert (uc_read u =? -1);
        b ← arr_get buffer 0;
        let pack_size := Z.lor b (Z.shiftl (uc_header u) 8) in
        fill_uncomplete q fd
          (UC (Pack (np_id (pack u)) pack_size (malloc_bytes pack_size)) 0 (uc_header u))
          (drop 1 buffer) (size - 1)
      else fill_uncomplete q fd u buffer size
  | None =>
      if size =? 1 then
        u ← half_header fd buffer;
        q ← save_uncomplete q u;
        Ok (RNone, Some q)
      else
        pack_size ← read_size buffer;
        let buffer := drop 2 buffer in
        let size := size - 2 in
        if size <? pack_size then
          u ← partial fd pack_size buffer size;
          q ← save_uncomplete q u;
          Ok (RNone, Some q)
        else if size =? pack_size then
          b ← copy_bytes (malloc_bytes pack_size) 0 buffer size;
          Ok (RData fd b size, q)
        else
          b ← copy_bytes (malloc_bytes pack_size) 0 buffer pack_size;
          q ← push_data q fd b pack_size;
          let buffer := drop (Z.to_nat pack_size) buffer in
          let size := size - pack_size in
          q ← push_more (length buffer) (Some q) fd buffer size;
          Ok (RMore, Some q)
  end.

(** ** The Lua functions *)

Inductive socket_type := SData | SConnect | SClose | SAccept | SError | SUdp | SWarning.

(** A socket message: [buffer] when it carries data, else the string behind it. *)
Record socket_message := SockMsg {
  s_type : socket_type; s_id : Z; s_ud : Z; s_buffer : option (list Z); s_padding : list Z
}.

Definition lfilter (q : option (queue uncomplete)) (message : socket_message) : outcome (result * option (queue uncomplete)) :=
  let text := match s_buffer message with Some b => b | None => s_padding message end in
  match s_type message with
  | SData =>
      _ ← c_assert (bool_decide (is_Some (s_buffer message)));
      filter_data_ q (s_id message) text (s_ud message)
  | SConnect => Ok (RNone, q)
  | SClose => q ← close_uncomplete q (s_id message); Ok (RClose (s_id message), q)
  | SAccept => Ok (ROpen (s_ud message) text, q)
  | SError => q ← close_uncomplete q (s_id message); Ok (RError (s_id message) text, q)
  | SWarning => Ok (RWarning (s_id message) (s_ud message), q)
  | SUdp => Ok (RNone, q)
  end.

Definition write_size (len : Z) : list Z := [Z.land (Z.shiftr len 8) 0xff; Z.land len 0xff].

(** [None]: the error "Invalid size (too long) of data". *)
Definition lpack (msg : list Z) : option (list Z) :=
  let len := Z.of_nat (length msg) in
  if 0x10000 <=? len then None else Some (write_size len ++ msg).

End Netpack.
