(* ===== verification/PackStream.v ===== *)
(** * Packets out of streams

    What the two libraries that cut streams into packets share: the ring of
    complete packets, the table of connections with an incomplete one, and the
    argument that a splitter that is right for one chunk is right for all chunks
    of all connections. *)

From S2P Require Import Prelude Mq Netpack.
From stdpp Require Import base numbers list gmap.
From Stdlib Require Import ZArith Lia.
#[local] Open Scope Z_scope.
#[local] Open Scope list_scope.
Import Netpack.

Definition is_byte (b : Z) : Prop := 0 <= b < 256.
Definition bytes_ok (l : list Z) : Prop := Forall is_byte l.

(** ** Copying bytes *)

Lemma copy_at a m src k :
  0 <= k -> (Z.to_nat k <= m)%nat -> k <= Z.of_nat (length src) ->
  copy_bytes ((Some <$> a) ++ replicate m None) (Z.of_nat (length a)) src k
    = Ok ((Some <$> (a ++ take (Z.to_nat k) src)) ++ replicate (m - Z.to_nat k) None).
Proof.
  intros Hk Hm Hs. unfold copy_bytes.
  pose proof (mem_read_ok [] (take (Z.to_nat k) src) (drop (Z.to_nat k) src)) as E.
  cbn [app] in E. rewrite take_drop, length_take_le, Z2Nat.id in E by lia. change (Z.of_nat (length [])) with 0 in E.
  rewrite E, bind_ret. replace m with (Z.to_nat k + (m - Z.to_nat k))%nat at 1 by lia.
  rewrite replicate_add. rewrite <- (length_fmap Some a).
  rewrite mem_write_ok by (rewrite length_replicate, length_fmap, length_take_le; lia).
  by rewrite fmap_app, <- app_assoc.
Qed.

Lemma copy_fresh n src k :
  0 <= k <= n -> k <= Z.of_nat (length src) ->
  copy_bytes (malloc_bytes n) 0 src k
    = Ok ((Some <$> take (Z.to_nat k) src) ++ replicate (Z.to_nat n - Z.to_nat k) None).
Proof. intros Hk Hs. apply (copy_at [] (Z.to_nat n) src k); lia. Qed.

Definition mk (fd : Z) (p : list Z) : netpack := Pack fd (Z.of_nat (length p)) (Some <$> p).

(** What a call of [filter_data_] reports for the packets [ps] it completed. *)
Definition report (fd : Z) (ps : list (list Z)) (r : list Z) : result :=
  match ps, r with
  | [], _ => RNone
  | [p], [] => RData fd (Some <$> p) (Z.of_nat (length p))
  | _, _ => RMore
  end.
(** A single packet is handed out at once; otherwise they are queued. *)
Definition queued (fd : Z) (ps : list (list Z)) (r : list Z) : list netpack :=
  match ps, r with [p], [] => [] | _, _ => mk fd <$> ps end.

Lemma report_more fd p ps r : ps <> [] \/ r <> [] ->
  report fd (p :: ps) r = RMore /\ queued fd (p :: ps) r = mk fd <$> (p :: ps).
Proof. destruct ps, r; intros [?|?]; done. Qed.

(** ** The ring of packets *)

Section Ring.
Context {A : Type} `{Pending A}.

Record ring_repr (q : queue A) (items : list netpack) : Prop := {
  rr_cap : 0 < cap q;
  rr_len : Z.of_nat (length (packs q)) = cap q;
  rr_head : 0 <= head q < cap q;
  rr_room : Z.of_nat (length items) < cap q;
  rr_tail : tail q = (head q + Z.of_nat (length items)) mod cap q;
  rr_slots : forall i p, items !! i = Some p ->
    packs q !! Z.to_nat ((head q + Z.of_nat i) mod cap q) = Some (Some p)
}.

Lemma np_expand_ok (q : queue A) :
  0 < cap q -> cap q + QUEUESIZE <= 2^30 -> Z.of_nat (length (packs q)) = cap q -> 0 <= head q < cap q ->
  exists ps, expand_queue q = Ok (Queue (cap q + QUEUESIZE) 0 (cap q) (hash q) ps) /\
    Z.of_nat (length ps) = cap q + QUEUESIZE /\
    forall i, 0 <= i < cap q -> ps !! Z.to_nat i = packs q !! Z.to_nat ((head q + i) mod cap q).
Proof.
  intros Hc Hc2 Hlen Hhd. unfold expand_queue, QUEUESIZE in *. rewrite c_int_ok by lia. rewrite bind_ret.
  edestruct (for_loop_inv (fun i (buf : list (option netpack)) =>
      Z.of_nat (length buf) = cap q + 1024 /\
      forall j, 0 <= j < i -> buf !! Z.to_nat j = packs q !! Z.to_nat ((head q + j) mod cap q)))
    as (buf & -> & Hbl & Hbuf).
  - split; [rewrite length_replicate; lia|]. intros j Hj; lia.
  - intros j buf Hj [Hbl Hbuf]. rewrite c_int_ok by lia. rewrite bind_ret.
    assert (0 <= (head q + j) mod cap q < cap q) as Hr by (apply Z.mod_pos_bound; lia).
    destruct (lookup_lt_is_Some_2 (packs q) (Z.to_nat ((head q + j) mod cap q))) as [c Hcell]; [lia|].
    rewrite (arr_get_ok _ _ _ (proj1 Hr) Hcell), bind_ret, arr_set_ok by lia.
    eexists. split; [done|]. split; [by rewrite length_insert|].
    intros i Hi. destruct (Z.eq_dec i j) as [->|].
    + rewrite Hcell. apply list_lookup_insert_eq. lia.
    + rewrite list_lookup_insert_ne by lia. apply Hbuf. lia.
  - rewrite bind_ret. exists buf. split; [done|]. split; [done|]. intros i Hi. apply Hbuf. lia.
Qed.

Lemma push_data_ok (q : queue A) items fd b size :
  ring_repr q items -> cap q <= 2^30 /\ Z.of_nat (length items) + 1 + QUEUESIZE <= 2^30 ->
  exists q', push_data (Some q) fd b size = Ok q' /\ ring_repr q' (items ++ [Pack fd size b]) /\
    hash q' = hash q /\ cap q' <= 2^30.
Proof.
  intros [Hc Hl Hhd Hroom Htl Hsl] [Hcap Hbig]. set (p := Pack fd size b).
  assert (Htr : 0 <= tail q < cap q) by (rewrite Htl; apply Z.mod_pos_bound; lia).
  unfold push_data, get_queue. fold p. rewrite arr_set_ok by lia. rewrite bind_ret. cbv zeta.
  set (t := if cap q <=? tail q + 1 then tail q + 1 - cap q else tail q + 1).
  assert (Ht : t = (head q + (Z.of_nat (length items) + 1)) mod cap q).
  { rewrite Z.add_assoc, <- Zplus_mod_idemp_l, <- Htl. subst t. Ring.ring_mod; lia. }
  set (ps := <[Z.to_nat (tail q) := Some p]> (packs q)).
  assert (Hslots : forall i x, (items ++ [p]) !! i = Some x ->
    ps !! Z.to_nat ((head q + Z.of_nat i) mod cap q) = Some (Some x)).
  { intros i x Hi. subst ps. pose proof (lookup_lt_Some _ _ _ Hi) as Hlt.
    rewrite length_app in Hlt; cbn in Hlt. destruct (decide (i = length items)) as [->|Hne].
    - rewrite <- Htl, list_lookup_insert_eq by lia.
      rewrite lookup_app_r, Nat.sub_diag in Hi by lia. by inversion Hi.
    - rewrite lookup_app_l in Hi by lia. rewrite list_lookup_insert_ne; [by apply Hsl|].
      rewrite Htl. Ring.ring_mod; lia. }
  cbn [head tail]. destruct (Z.eqb_spec (head q) t) as [Hfull|Hfree].
  - assert (Hlen : Z.of_nat (length items) + 1 = cap q).
    { revert Hfull. rewrite Ht. Ring.ring_mod; lia. }
    destruct (np_expand_ok (Queue (cap q) (head q) t (hash q) ps)) as (ps' & -> & Hpl & Hcp);
      cbn [cap packs head] in *; [done|unfold QUEUESIZE in *; lia|by subst ps; rewrite length_insert|done|].
    eexists. split; [done|]. split; [|cbn [hash cap]; unfold QUEUESIZE in *; split; [done|lia]].
    unfold QUEUESIZE in *. split; cbn [cap packs head tail]; try lia.
    + rewrite length_app. cbn. lia.
    + rewrite length_app. cbn [length]. rewrite Z.mod_small; lia.
    + intros i x Hi. pose proof (lookup_lt_Some _ _ _ Hi) as Hlt. rewrite length_app in Hlt; cbn in Hlt.
      rewrite Z.add_0_l, Z.mod_small, Hcp by lia. by apply Hslots.
  - eexists. split; [done|]. split; [|cbn [hash cap]; unfold QUEUESIZE in *; split; [done|lia]].
    split; cbn [cap packs head tail]; try done.
    + subst ps. by rewrite length_insert.
    + rewrite length_app; cbn. revert Hfree. rewrite Ht. Ring.ring_mod; lia.
    + rewrite length_app; cbn [length]. rewrite Ht. f_equal. lia.
Qed.

Lemma lpop_ok (q : queue A) items :
  ring_repr q items ->
  match items with
  | [] => lpop (Some q) = Ok (None, Some q)
  | p :: items' => exists q', lpop (Some q) = Ok (Some p, Some q') /\ ring_repr q' items' /\
      hash q' = hash q /\ cap q' = cap q
  end.
Proof.
  intros [Hc Hl Hhd Hroom Htl Hsl]. unfold lpop. destruct items as [|p items].
  - cbn in Htl. rewrite Z.add_0_r, Z.mod_small in Htl by lia. by rewrite Htl, Z.eqb_refl.
  - cbn [length] in *. destruct (Z.eqb_spec (head q) (tail q)) as [E|_].
    { exfalso. revert E. rewrite Htl. Ring.ring_mod; lia. }
    pose proof (Hsl 0%nat p eq_refl) as H0. rewrite Z.add_0_r, Z.mod_small in H0 by lia.
    rewrite (arr_get_ok _ _ _ (proj1 Hhd) H0), bind_ret. cbn [init_read]. rewrite bind_ret. cbv zeta.
    set (h := if cap q <=? head q + 1 then 0 else head q + 1).
    assert (Eh : h = (head q + 1) mod cap q) by (subst h; Ring.ring_mod; lia).
    eexists. split; [done|]. split; [|done].
    split; cbn [cap packs head tail]; try done; try lia.
    + rewrite Eh. apply Z.mod_pos_bound. lia.
    + rewrite Htl, Eh, Zplus_mod_idemp_l. f_equal. lia.
    + intros i x Hi. rewrite Eh, Zplus_mod_idemp_l.
      replace (head q + 1 + Z.of_nat i) with (head q + Z.of_nat (S i)) by lia. by apply Hsl.
Qed.

(** ** Incomplete packets *)

Definition fd_ok (fd : Z) : Prop := 0 <= fd < 2^30.

Lemma hash_fd_ok fd : fd_ok fd -> exists h, hash_fd fd = Ok h /\ 0 <= h < HASHSIZE.
Proof.
  intros Hf. unfold fd_ok in Hf. unfold hash_fd.
  assert (0 <= Z.shiftr fd 24 < 2^6).
  { rewrite Z.shiftr_div_pow2 by lia. split; [apply Z.div_pos; lia|]. apply Z.div_lt_upper_bound; lia. }
  assert (0 <= Z.shiftr fd 12 < 2^18).
  { rewrite Z.shiftr_div_pow2 by lia. split; [apply Z.div_pos; lia|]. apply Z.div_lt_upper_bound; lia. }
  rewrite c_int_ok by lia. rewrite bind_ret, c_int_ok by lia. rewrite bind_ret.
  eexists. split; [done|]. apply Z.mod_pos_bound. unfold HASHSIZE. lia.
Qed.

(** How a record stands for the bytes of an incomplete packet. *)
Context (rep : Z -> A -> list Z -> Prop).
Hypothesis rep_id : forall fd u p, rep fd u p -> pending_id u = fd.

Definition recs (fd : Z) (chain : list A) : list A :=
  filter (fun u => pending_id u = fd) chain.

(** The records that stand for the pending bytes [p] of [fd]: none or one. *)
Definition held (fd : Z) (rs : list A) (p : list Z) : Prop :=
  match p with
  | [] => rs = []
  | _ :: _ => exists u, rs = [u] /\ rep fd u p
  end.

(** [pend fd]: the bytes of [fd] that wait for the rest of their packet. *)
Definition table_repr (hs : list (list A)) (pend : Z -> list Z) : Prop :=
  Z.of_nat (length hs) = HASHSIZE /\
  forall fd h chain, fd_ok fd -> hash_fd fd = Ok h -> hs !! Z.to_nat h = Some chain ->
    held fd (recs fd chain) (pend fd).

Definition upd (fd : Z) (p : list Z) (pend : Z -> list Z) : Z -> list Z :=
  fun x => if decide (x = fd) then p else pend x.

Lemma upd_eq fd p pend : upd fd p pend fd = p.
Proof. unfold upd. by rewrite decide_True. Qed.
Lemma upd_ne fd p pend x : x <> fd -> upd fd p pend x = pend x.
Proof. intros. unfold upd. by rewrite decide_False. Qed.

Lemma extract_none fd chain : extract fd chain = None <-> recs fd chain = [].
Proof.
  unfold recs. induction chain as [|u chain IH]; [done|]. cbn [extract].
  destruct (Z.eqb_spec (pending_id u) fd).
  - rewrite filter_cons_True by done. done.
  - rewrite filter_cons_False, <- IH by done. by destruct (extract fd chain) as [[? ?]|].
Qed.

Lemma extract_some fd chain u rest : extract fd chain = Some (u, rest) ->
  recs fd chain = u :: recs fd rest /\ forall x, x <> fd -> recs x rest = recs x chain.
Proof.
  unfold recs. revert rest. induction chain as [|v chain IH]; intros rest; [done|]. cbn [extract].
  destruct (Z.eqb_spec (pending_id v) fd) as [E|E].
  - intros [= <- <-]. rewrite filter_cons_True by done. split; [done|].
    intros x Hx. rewrite filter_cons_False by congruence. done.
  - destruct (extract fd chain) as [[w rest']|]; [|done]. intros [= <- <-].
    destruct (IH rest' eq_refl) as [E1 E2]. rewrite !filter_cons_False by done. split; [done|].
    intros x Hx. rewrite !filter_cons, E2 by done. done.
Qed.

(** Putting a new chain in the bucket of [fd]. *)
Lemma table_repr_set hs pend fd h chain chain' p :
  table_repr hs pend -> fd_ok fd -> hash_fd fd = Ok h -> hs !! Z.to_nat h = Some chain ->
  (forall x, x <> fd -> recs x chain' = recs x chain) ->
  held fd (recs fd chain') p ->
  table_repr (<[Z.to_nat h := chain']> hs) (upd fd p pend).
Proof.
  intros [Hl Hr] Hf Hh Hc Hx Hp. split; [by rewrite length_insert|].
  intros x hx cx Hfx Hhx. pose proof (lookup_lt_Some _ _ _ Hc).
  destruct (decide (Z.to_nat hx = Z.to_nat h)) as [E|E].
  - rewrite E, list_lookup_insert_eq by done. intros [= <-].
    destruct (decide (x = fd)) as [->|Hne].
    + by rewrite upd_eq.
    + rewrite upd_ne, Hx by done. apply (Hr x hx chain Hfx Hhx). by rewrite E.
  - rewrite list_lookup_insert_ne by done. intros Hcx.
    assert (x <> fd) by (intros ->; rewrite Hh in Hhx; by injection Hhx as <-).
    rewrite upd_ne by done. by apply (Hr x hx cx).
Qed.

Lemma table_find (q : queue A) fd pend :
  table_repr (hash q) pend -> fd_ok fd ->
  exists r q', find_uncomplete (Some q) fd = Ok (r, Some q') /\
    (pend fd = [] -> r = None /\ q' = q) /\
    (pend fd <> [] -> exists u hs, r = Some u /\ rep fd u (pend fd) /\ q' = set_hash hs q /\
        table_repr hs (upd fd [] pend)).
Proof.
  intros Hr Hf. destruct (hash_fd_ok fd Hf) as (h & Hh & Hrange). unfold find_uncomplete.
  rewrite Hh, bind_ret. destruct Hr as [Hl Hr].
  destruct (lookup_lt_is_Some_2 (hash q) (Z.to_nat h)) as [chain Hc]; [lia|].
  rewrite (arr_get_ok _ _ _ (proj1 Hrange) Hc), bind_ret. pose proof (Hr fd h chain Hf Hh Hc) as Hfd.
  destruct (extract fd chain) as [[u rest]|] eqn:Ee.
  - destruct (extract_some _ _ _ _ Ee) as [E1 E2]. rewrite arr_set_ok by lia. rewrite bind_ret.
    destruct (pend fd) as [|b p] eqn:Ep; [cbn in Hfd; congruence|]. destruct Hfd as (u' & Eu & Hu).
    rewrite E1 in Eu. injection Eu as -> Erest.
    exists (Some u'). eexists. split; [done|]. split; [done|]. intros _.
    exists u'. eexists. split; [done|]. split; [done|]. split; [done|]. by eapply table_repr_set.
  - apply extract_none in Ee. exists None, q. split; [done|].
    destruct (pend fd) as [|b p]; [done|]. destruct Hfd as (u' & Eu & _). congruence.
Qed.

Lemma table_save (q : queue A) fd u p pend :
  table_repr (hash q) pend -> fd_ok fd -> pend fd = [] -> rep fd u p -> p <> [] ->
  exists hs, save_uncomplete (Some q) u = Ok (set_hash hs q) /\ table_repr hs (upd fd p pend).
Proof.
  intros Hr Hf Hp Hu Hne. destruct (hash_fd_ok fd Hf) as (h & Hh & Hrange).
  unfold save_uncomplete, get_queue. rewrite (rep_id _ _ _ Hu), Hh, bind_ret. pose proof Hr as [Hl Hr'].
  destruct (lookup_lt_is_Some_2 (hash q) (Z.to_nat h)) as [chain Hc]; [lia|].
  rewrite (arr_get_ok _ _ _ (proj1 Hrange) Hc), bind_ret, arr_set_ok by lia. rewrite bind_ret.
  eexists. split; [done|]. pose proof (Hr' fd h chain Hf Hh Hc) as Hfd. rewrite Hp in Hfd.
  eapply table_repr_set; [done|done|done|done| |].
  - intros x Hx. unfold recs. rewrite filter_cons_False; [done|].
    by rewrite (rep_id _ _ _ Hu).
  - destruct p as [|b p]; [done|]. exists u. split; [|done]. unfold recs in *.
    rewrite filter_cons_True by by rewrite (rep_id _ _ _ Hu). by rewrite Hfd.
Qed.

(** The queue as a whole: pending bytes per connection, complete packets in order. *)
Definition q_repr (q : queue A) (pend : Z -> list Z) (items : list netpack) : Prop :=
  ring_repr q items /\ table_repr (hash q) pend.

Lemma ring_repr_hash hs (q : queue A) items : ring_repr q items -> ring_repr (set_hash hs q) items.
Proof. by intros []. Qed.

Lemma table_repr_ext hs pend pend' :
  (forall fd, pend fd = pend' fd) -> table_repr hs pend -> table_repr hs pend'.
Proof. intros E [Hl Hr]. split; [done|]. intros fd h chain. rewrite <- E. apply Hr. Qed.

Lemma get_queue_repr : q_repr (get_queue None) (fun _ => []) [].
Proof.
  split.
  - split; cbn [get_queue cap head tail packs]; try done; rewrite ?length_replicate; done.
  - split; cbn [get_queue hash]; [by rewrite length_replicate|].
    intros fd h chain _ _ [-> _]%lookup_replicate. done.
Qed.

(** A packet that is all there goes to the end of the ring. *)
Lemma push_packet (q : queue A) fd rest n items pend :
  q_repr q pend items -> cap q <= 2^30 /\ Z.of_nat (length items) + 1 + QUEUESIZE <= 2^30 -> 0 <= n <= Z.of_nat (length rest) ->
  exists b q', copy_bytes (malloc_bytes n) 0 rest n = Ok b /\ push_data (Some q) fd b n = Ok q' /\
    q_repr q' pend (items ++ [mk fd (take (Z.to_nat n) rest)]) /\ cap q' <= 2^30.
Proof.
  intros [Hr Hh] Hc Hn. eexists. rewrite copy_fresh by lia.
  rewrite Nat.sub_diag. cbn [replicate]. rewrite app_nil_r.
  destruct (push_data_ok q items fd (Some <$> take (Z.to_nat n) rest) n Hr Hc) as (q' & E & Hr' & Eh & Ec).
  exists q'. split; [done|]. split; [done|]. split; [|done]. split; [|by rewrite Eh].
  unfold mk. rewrite length_take_le, Z2Nat.id by lia. done.
Qed.

(** The userdata: [NULL] stands for an empty queue. *)
Definition opt_repr (q : option (queue A)) (pend : Z -> list Z) (items : list netpack) : Prop :=
  match q with
  | Some q => q_repr q pend items
  | None => (forall fd, pend fd = []) /\ items = []
  end.

Lemma get_queue_opt q pend items : opt_repr q pend items -> q_repr (get_queue q) pend items.
Proof.
  destruct q as [q|]; [done|]. intros [Hp ->]. destruct get_queue_repr as [Hr Hh].
  split; [done|]. eapply table_repr_ext; [|exact Hh]. intros fd. by rewrite Hp.
Qed.

Lemma upd_none pend fd x : pend fd = [] -> pend x = upd fd [] pend x.
Proof. intros Hp. unfold upd. by destruct (decide (x = fd)) as [->|]. Qed.

Lemma q_repr_none q pend items fd : q_repr q pend items -> pend fd = [] -> q_repr q (upd fd [] pend) items.
Proof. intros [Hr Hh] Hp. split; [done|]. eapply table_repr_ext; [|exact Hh]. intros x. by apply upd_none. Qed.

Lemma opt_repr_none q pend items fd : opt_repr q pend items -> pend fd = [] -> opt_repr q (upd fd [] pend) items.
Proof.
  intros Hq Hp. destruct q as [q|]; [by apply q_repr_none|]. destruct Hq as [Hall ->]. split; [|done].
  intros x. by rewrite <- upd_none.
Qed.

Lemma find_absent q fd pend items : opt_repr q pend items -> fd_ok fd -> pend fd = [] -> find_uncomplete q fd = Ok (None, q).
Proof.
  intros Hq Hf Hp. destruct q as [q|]; [|done]. destruct (table_find q fd pend (proj2 Hq) Hf) as (r & q' & -> & Hn & _).
  by destruct (Hn Hp) as [-> ->].
Qed.

(** The record of a connection is taken out of the table. *)
Lemma find_present q fd pend items : opt_repr q pend items -> fd_ok fd -> pend fd <> [] ->
  exists u q1, find_uncomplete q fd = Ok (Some u, Some q1) /\ rep fd u (pend fd) /\
    q_repr q1 (upd fd [] pend) items /\ cap q1 = cap (get_queue q).
Proof.
  intros Hq Hf Hp. destruct q as [q|]; [|by destruct Hq as [Hall _]; rewrite Hall in Hp]. destruct Hq as [Hr Hh].
  destruct (table_find q fd pend Hh Hf) as (r & q1 & -> & _ & Hs). destruct (Hs Hp) as (u & hs & -> & Hu & -> & Hh').
  eexists u, _. split; [done|]. split; [done|]. split; [|done]. split; [by apply ring_repr_hash|done].
Qed.

Lemma save_ok q fd u p pend items :
  opt_repr q pend items -> fd_ok fd -> pend fd = [] -> rep fd u p -> p <> [] ->
  exists q', save_uncomplete q u = Ok q' /\ q_repr q' (upd fd p pend) items /\ cap q' = cap (get_queue q).
Proof.
  intros Hq Hf Hp Hu Hne. destruct (get_queue_opt _ _ _ Hq) as [Hr Hh].
  change (save_uncomplete q u) with (save_uncomplete (Some (get_queue q)) u).
  destruct (table_save (get_queue q) fd u p pend Hh Hf Hp Hu Hne) as (hs & -> & Hh').
  eexists. split; [done|]. split; [|done]. split; [by apply ring_repr_hash|done].
Qed.

Lemma push_one q fd p n pend items : opt_repr q pend items -> n = Z.of_nat (length p) -> cap (get_queue q) <= 2^30 /\ Z.of_nat (length items) + 1 + QUEUESIZE <= 2^30 ->
  exists q', push_data q fd (Some <$> p) n = Ok q' /\ q_repr q' pend (items ++ [mk fd p]) /\ cap q' <= 2^30.
Proof.
  intros Hq -> Hcap. destruct (get_queue_opt _ _ _ Hq) as [Hr Hh].
  change (push_data q) with (push_data (Some (get_queue q))).
  destruct (push_data_ok (get_queue q) items fd (Some <$> p) (Z.of_nat (length p)) Hr Hcap) as (q' & -> & Hr' & Eh & Ec).
  exists q'. split; [done|]. split; [|done]. by split; [|rewrite Eh].
Qed.

(** Overwriting an entry. *)
Lemma opt_repr_upd q fd p r pend items : opt_repr q (upd fd r (upd fd p pend)) items -> opt_repr q (upd fd r pend) items.
Proof.
  assert (E : forall x, upd fd r (upd fd p pend) x = upd fd r pend x) by (intros x; unfold upd; by destruct (decide (x = fd))).
  destruct q as [q|]; intros [H1 H2].
  - split; [done|]. by eapply table_repr_ext.
  - split; [|done]. intros x. by rewrite <- E.
Qed.

(** [netpack.pop] until it returns nothing, as the gate does after "more". *)
Fixpoint drain (fuel : nat) (q : option (queue A)) : outcome (list netpack * option (queue A)) :=
  match fuel with
  | O => Fault OutOfFuel
  | S fuel =>
      '(p, q) ← lpop q;
      match p with
      | None => Ok ([], q)
      | Some p => '(ps, q) ← drain fuel q; Ok (p :: ps, q)
      end
  end.

Lemma drain_ok items : forall fuel q pend,
  q_repr q pend items -> (length items < fuel)%nat ->
  exists q', drain fuel (Some q) = Ok (items, Some q') /\ q_repr q' pend [] /\ cap q' = cap q.
Proof.
  induction items as [|p items IH]; intros fuel q pend [Hr Hh] Hf;
    (destruct fuel as [|fuel]; [lia|]); cbn [drain]; pose proof (lpop_ok q _ Hr) as Hpop; cbv beta iota in Hpop.
  - rewrite Hpop, bind_ret. by exists q.
  - destruct Hpop as (q1 & -> & Hr1 & Eh & Ec). cbn [length] in Hf. rewrite bind_ret.
    destruct (IH fuel q1 pend) as (q2 & -> & Hq2 & Ec2); [by split; [|rewrite Eh]|lia|].
    rewrite bind_ret. exists q2. split; [done|]. split; [done|]. congruence.
Qed.

(** Whatever the report, the packets completed by a chunk come out at once. *)
Lemma deliver_ok q fd ps r pend :
  opt_repr q pend (queued fd ps r) ->
  exists q', match report fd ps r with
    | RData fd b size => Ok ([Pack fd size b], q)
    | RMore => drain (Z.to_nat (cap (get_queue q))) q
    | _ => Ok ([], q)
    end = Ok (mk fd <$> ps, q') /\ opt_repr q' pend [] /\ cap (get_queue q') = cap (get_queue q).
Proof.
  intros Hq. assert (Hdrain : ps <> [] -> queued fd ps r = mk fd <$> ps ->
    exists q', drain (Z.to_nat (cap (get_queue q))) q = Ok (mk fd <$> ps, q') /\ opt_repr q' pend [] /\
      cap (get_queue q') = cap (get_queue q)).
  { intros Hne E. rewrite E in Hq. destruct q as [q|]; [|by destruct Hq as [_ ?]; destruct ps].
    cbn [opt_repr get_queue] in *. destruct (drain_ok _ (Z.to_nat (cap q)) q pend Hq) as (q' & -> & Hq' & Ec).
    { pose proof (rr_room _ _ (proj1 Hq)). lia. }
    exists (Some q'). done. }
  destruct ps as [|p [|p' ps]]; cbn [report queued] in *.
  - exists q. done.
  - destruct r as [|b r]; [by exists q|]. by apply Hdrain.
  - apply Hdrain; [done|]. by destruct r.
Qed.

End Ring.
Arguments table_repr {_ _} _ _ _.
Arguments recs {_ _} _ _.
Arguments q_repr {_ _} _ _ _ _.
Arguments opt_repr {_ _} _ _ _ _.

(** ** Streams *)

(** The bytes connection [fd] received. *)
Definition stream (fd : Z) (evs : list (Z * list Z)) : list Z :=
  concat (snd <$> filter (fun e => e.1 = fd) evs).

Definition of_fd (fd : Z) (ps : list netpack) : list netpack := filter (fun p => np_id p = fd) ps.

Lemma of_fd_mk fd ps x : of_fd x (mk fd <$> ps) = if decide (x = fd) then mk fd <$> ps else [].
Proof.
  unfold of_fd. destruct (decide (x = fd)) as [->|Hne].
  - apply filter_all. intros p (b & -> & _)%list_elem_of_fmap. done.
  - induction ps as [|p ps IH]; [done|]. cbn [fmap list_fmap]. rewrite filter_cons_False; [done|].
    cbn. congruence.
Qed.

(** What a library does with a chunk of a connection, the parser it follows on
    streams that are [sp_good], and how its records stand for bytes. *)
Class Splitter (A : Type) `{Pending A} := {
  sp_filter : option (queue A) -> Z -> list Z -> outcome (result * option (queue A));
  sp_split : list Z -> list (list Z) * list Z;
  sp_good : list Z -> Prop;
  sp_rep : Z -> A -> list Z -> Prop;
  sp_nil : sp_split [] = ([], []);
  sp_rest bs ps r : sp_split bs = (ps, r) -> sp_split r = ([], r);
  sp_app bs ps r more : sp_split bs = (ps, r) ->
    sp_split (bs ++ more) = let '(ps', r') := sp_split (r ++ more) in (ps ++ ps', r');
  sp_prefix bs more : sp_good (bs ++ more) -> sp_good bs;
  sp_next bs ps r more : sp_split bs = (ps, r) -> sp_good (bs ++ more) -> sp_good (r ++ more);
  sp_filter_ok q fd bs pend : opt_repr sp_rep q pend [] -> fd_ok fd -> bs <> [] -> sp_good (pend fd ++ bs) ->
    sp_split (pend fd) = ([], pend fd) ->
    cap (get_queue q) <= 2^30 -> Z.of_nat (length bs) + QUEUESIZE <= 2^30 ->
    let '(ps, r) := sp_split (pend fd ++ bs) in
    exists q', sp_filter q fd bs = Ok (report fd ps r, q') /\ opt_repr sp_rep q' (upd fd r pend) (queued fd ps r) /\
      cap (get_queue q') <= 2^30 }.

Section Streams.
Context {A : Type} `{Splitter A}.

(** Socket data of several connections, chunk by chunk: the packets the module
    hands out, in order. *)
Fixpoint receive (q : option (queue A)) (evs : list (Z * list Z)) : outcome (list netpack * option (queue A)) :=
  match evs with
  | [] => Ok ([], q)
  | (fd, chunk) :: evs =>
      '(r, q) ← sp_filter q fd chunk;
      '(out, q) ← match r with
                  | RData fd b size => Ok ([Pack fd size b], q)
                  | RMore => drain (Z.to_nat (cap (get_queue q))) q
                  | _ => Ok ([], q)
                  end;
      '(outs, q) ← receive q evs;
      Ok (out ++ outs, q)
  end.

(** Chunks of the network; the ring is empty after each, so its size depends on the
    largest of them, not on what came before. *)
Definition chunks_ok (evs : list (Z * list Z)) : Prop :=
  Forall (fun e => fd_ok e.1 /\ e.2 <> [] /\ Z.of_nat (length e.2) + QUEUESIZE <= 2^30) evs.

Lemma stream_cons fd chunk evs x : stream x ((fd, chunk) :: evs) = if decide (fd = x) then chunk ++ stream x evs else stream x evs.
Proof. unfold stream. rewrite filter_cons. cbn [fst]. by destruct (decide (fd = x)). Qed.

Lemma receive_ok evs : forall q pend, opt_repr sp_rep q pend [] -> chunks_ok evs ->
  (forall fd, sp_good (pend fd ++ stream fd evs) /\ sp_split (pend fd) = ([], pend fd)) ->
  cap (get_queue q) <= 2^30 ->
  exists outs q' pend', receive q evs = Ok (outs, q') /\ opt_repr sp_rep q' pend' [] /\
    forall fd, of_fd fd outs = mk fd <$> (sp_split (pend fd ++ stream fd evs)).1 /\ pend' fd = (sp_split (pend fd ++ stream fd evs)).2.
Proof.
  induction evs as [|[fd chunk] evs IH]; intros q pend Hq He Hp Hcap; cbn [receive].
  - exists [], q, pend. split; [done|]. split; [done|]. intros fd. destruct (Hp fd) as [_ Hs].
    unfold stream. cbn. rewrite app_nil_r, Hs. done.
  - inversion He as [|? ? (Hf & Hne & Hsz) He']; subst. cbn [fst snd] in *.
    destruct (Hp fd) as [Hg Hs]. rewrite stream_cons, decide_True, app_assoc in Hg by done.
    pose proof (sp_filter_ok q fd chunk pend Hq Hf Hne (sp_prefix _ _ Hg) Hs) as Hfil.
    destruct (sp_split (pend fd ++ chunk)) as [ps r] eqn:Es.
    destruct Hfil as (q1 & E1 & Hq1 & Hc1); [done|done|]. rewrite E1, bind_ret.
    destruct (deliver_ok sp_rep q1 fd ps r (upd fd r pend) Hq1) as (q2 & -> & Hq2 & Ec2). rewrite bind_ret.
    destruct (IH q2 (upd fd r pend) Hq2 He') as (outs & q3 & pend' & -> & Hq3 & Hall).
    { intros x. unfold upd. destruct (decide (x = fd)) as [->|Hx].
      - split; [by eapply sp_next|by eapply sp_rest].
      - destruct (Hp x) as [Hgx Hsx]. rewrite stream_cons, decide_False in Hgx by congruence. done. }
    { by rewrite Ec2. }
    rewrite bind_ret. exists ((mk fd <$> ps) ++ outs), q3, pend'. split; [done|]. split; [done|].
    intros x. unfold of_fd. rewrite filter_app. fold (of_fd x (mk fd <$> ps)). fold (of_fd x outs).
    rewrite of_fd_mk, stream_cons. destruct (Hall x) as [E2 E3]. destruct (decide (fd = x)) as [->|Hx].
    + rewrite decide_True by done. rewrite app_assoc, (sp_app _ ps r) by done. rewrite upd_eq in E2, E3.
      destruct (sp_split (r ++ stream x evs)) as [ps' r']. cbn [fst snd] in *. by rewrite E2, E3, fmap_app.
    + rewrite decide_False by congruence. rewrite upd_ne in E2, E3 by congruence. done.
Qed.

Lemma receive_splits evs : chunks_ok evs -> (forall fd, sp_good (stream fd evs)) ->
  exists outs q', receive None evs = Ok (outs, q') /\ forall fd, of_fd fd outs = mk fd <$> (sp_split (stream fd evs)).1.
Proof.
  intros He Hg. destruct (receive_ok evs None (fun _ => [])) as (outs & q' & pend' & E & _ & Hall).
  - done.
  - done.
  - intros fd. split; [apply Hg|apply sp_nil].
  - cbn [get_queue cap]. unfold QUEUESIZE. lia.
  - exists outs, q'. split; [done|]. intros fd. by destruct (Hall fd).
Qed.
End Streams.
