(* ===== verification/NetpackProofs.v ===== *)
(** * Correctness of packet splitting

    The specification is a parser on byte strings.  The C module, fed the same
    bytes in any pieces and for any interleaving of connections, yields the
    packets the parser yields, and [lpack] is inverted by it. *)

From S2P Require Import Prelude Mq Netpack PackStream.
From stdpp Require Import base numbers list gmap.
From Stdlib Require Import ZArith Lia.
#[local] Open Scope Z_scope.
#[local] Open Scope list_scope.
Import Netpack.

(** ** The specification *)

(** The complete packets at the front of a byte string, and what is left. *)
Fixpoint split_fuel (fuel : nat) (bs : list Z) : list (list Z) * list Z :=
  match fuel, bs with
  | S fuel, b0 :: b1 :: rest =>
      let n := Z.to_nat (b0 * 256 + b1) in
      if (length rest <? n)%nat then ([], bs)
      else let '(ps, r) := split_fuel fuel (drop n rest) in (take n rest :: ps, r)
  | _, _ => ([], bs)
  end.
Definition split_packets (bs : list Z) : list (list Z) * list Z := split_fuel (length bs) bs.

Lemma split_fuel_more fuel : forall fuel' bs,
  (length bs <= fuel)%nat -> (length bs <= fuel')%nat -> split_fuel fuel bs = split_fuel fuel' bs.
Proof.
  induction fuel as [|fuel IH]; intros fuel' bs H1 H2.
  - destruct bs; [by destruct fuel'|cbn in H1; lia].
  - destruct fuel' as [|fuel']; [destruct bs; [done|cbn in H2; lia]|].
    destruct bs as [|b0 [|b1 rest]]; [done..|]. cbn [split_fuel]. cbn [length] in H1, H2.
    destruct (_ <? _)%nat; [done|].
    rewrite (IH fuel') by (rewrite length_drop; lia). done.
Qed.

(** One step of the parser. *)
Lemma split_step b0 b1 rest :
  let n := Z.to_nat (b0 * 256 + b1) in
  split_packets (b0 :: b1 :: rest) =
    if (length rest <? n)%nat then ([], b0 :: b1 :: rest)
    else let '(ps, r) := split_packets (drop n rest) in (take n rest :: ps, r).
Proof.
  intros n. unfold split_packets. cbn [length]. remember (S (length rest)) as fuel eqn:Ef.
  cbn [split_fuel]. fold n. destruct (_ <? _)%nat; [done|].
  by rewrite (split_fuel_more fuel (length (drop n rest))) by (rewrite ?length_drop; lia).
Qed.

(** What is left has no complete packet in it. *)
Lemma split_rest fuel : forall bs ps r, (length bs <= fuel)%nat ->
  split_packets bs = (ps, r) -> split_packets r = ([], r).
Proof.
  induction fuel as [|fuel IH]; intros bs ps r Hf E.
  - destruct bs; [|cbn in Hf; lia]. by injection E as <- <-.
  - destruct bs as [|b0 [|b1 rest]]; [by injection E as <- <-..|].
    rewrite split_step in E. destruct (_ <? _)%nat eqn:El.
    + injection E as <- <-. by rewrite split_step, El.
    + destruct (split_packets (drop _ rest)) as [ps' r'] eqn:E'. injection E as <- <-.
      cbn [length] in Hf. eapply IH; [|exact E']. rewrite length_drop. lia.
Qed.

(** More bytes are parsed where the last ones left off. *)
Lemma split_app fuel : forall bs ps r more, (length bs <= fuel)%nat ->
  split_packets bs = (ps, r) ->
  split_packets (bs ++ more) = let '(ps', r') := split_packets (r ++ more) in (ps ++ ps', r').
Proof.
  induction fuel as [|fuel IH]; intros bs ps r more Hf E.
  - destruct bs; [|cbn in Hf; lia]. injection E as <- <-. cbn [app]. by destruct (split_packets more).
  - destruct bs as [|b0 [|b1 rest]]; [injection E as <- <-..|].
    + cbn [app]. by destruct (split_packets more).
    + by destruct (split_packets ([b0] ++ more)).
    + rewrite split_step in E. destruct (_ <? _)%nat eqn:El.
      * injection E as <- <-. by destruct (split_packets ((b0 :: b1 :: rest) ++ more)).
      * destruct (split_packets (drop _ rest)) as [ps1 r1] eqn:E1. injection E as <- <-.
        cbn [app]. rewrite split_step. apply Nat.ltb_ge in El.
        destruct (Nat.ltb_spec (length (rest ++ more)) (Z.to_nat (b0 * 256 + b1))) as [Hl|_].
        { rewrite length_app in Hl. lia. }
        rewrite drop_app_le, take_app_le by lia. cbn [length] in Hf.
        rewrite (IH _ ps1 r1 more) by (done || rewrite length_drop; lia).
        by destruct (split_packets (r1 ++ more)).
Qed.

Lemma split_bytes fuel : forall bs ps r, (length bs <= fuel)%nat -> bytes_ok bs ->
  split_packets bs = (ps, r) -> bytes_ok r /\ (length r <= length bs)%nat.
Proof.
  induction fuel as [|fuel IH]; intros bs ps r Hf Hb E.
  - destruct bs; [|cbn in Hf; lia]. by injection E as <- <-.
  - destruct bs as [|b0 [|b1 rest]]; [by injection E as <- <-..|].
    rewrite split_step in E. destruct (_ <? _)%nat; [by injection E as <- <-|].
    destruct (split_packets (drop _ rest)) as [ps' r'] eqn:E'. injection E as <- <-.
    cbn [length] in Hf |- *. edestruct IH as [? Hl]; [|  |exact E'|].
    + rewrite length_drop. lia.
    + apply Forall_drop. by inversion Hb as [|?? _ Hb']; inversion Hb'.
    + split; [done|]. rewrite length_drop in Hl. lia.
Qed.

(** The record of a connection and the bytes of the incomplete packet it stands for. *)
Inductive uc_repr (fd : Z) : uncomplete -> list Z -> Prop :=
  | ur_half b : uc_repr fd (UC (Pack fd 0 []) (-1) b) [b]
  | ur_part h0 h1 data hd n :
      n = h0 * 256 + h1 -> Z.of_nat (length data) < n ->
      uc_repr fd (UC (Pack fd n ((Some <$> data) ++ replicate (Z.to_nat n - length data) None))
                     (Z.of_nat (length data)) hd) (h0 :: h1 :: data).

Lemma uc_repr_id fd u p : uc_repr fd u p -> pending_id u = fd.
Proof. by destruct 1. Qed.


Lemma header_value b0 b1 : is_byte b0 -> is_byte b1 -> Z.lor (Z.shiftl b0 8) b1 = b0 * 256 + b1.
Proof.
  intros H0 H1. unfold is_byte in *. rewrite Z.shiftl_mul_pow2, Z.lor_comm by lia.
  rewrite lor_disjoint by lia. lia.
Qed.

Lemma read_size_ok b0 b1 rest :
  is_byte b0 -> is_byte b1 -> read_size (b0 :: b1 :: rest) = Ok (b0 * 256 + b1).
Proof.
  intros H0 H1. unfold read_size. rewrite (arr_get_ok _ 0 b0), bind_ret, (arr_get_ok _ 1 b1) by (lia || done).
  by rewrite bind_ret, header_value.
Qed.

(** ** One chunk *)

Lemma partial_ok fd b0 b1 rest :
  let n := b0 * 256 + b1 in
  0 <= n -> Z.of_nat (length rest) < n ->
  exists u, partial fd n rest (Z.of_nat (length rest)) = Ok u /\ uc_repr fd u (b0 :: b1 :: rest).
Proof.
  intros n Hn Hl. unfold partial. rewrite copy_fresh by lia. rewrite bind_ret, Nat2Z.id, take_ge by done.
  eexists. split; [done|]. by constructor.
Qed.

Lemma push_more_ok fd fuel : forall q bs pend items,
  q_repr uc_repr q pend items -> fd_ok fd -> pend fd = [] -> bs <> [] -> bytes_ok bs ->
  (length bs <= fuel)%nat -> cap q <= 2^30 /\ Z.of_nat (length items) + Z.of_nat (length bs) + QUEUESIZE <= 2^30 ->
  exists q', push_more fuel (Some q) fd bs (Z.of_nat (length bs)) = Ok q' /\
    q_repr uc_repr q' (upd fd (split_packets bs).2 pend) (items ++ (mk fd <$> (split_packets bs).1)) /\
    cap q' <= 2^30.
Proof.
  induction fuel as [|fuel IH]; intros q bs pend items [Hr Hh] Hf Hp Hne Hb Hfuel Hcap;
    [destruct bs; [done|cbn in Hfuel; lia]|]. unfold QUEUESIZE in Hcap.
  destruct bs as [|b0 [|b1 rest]]; [done| |]; cbn [push_more].
  - cbn [length]. unfold half_header. rewrite (arr_get_ok _ 0 b0) by (lia || done). rewrite !bind_ret.
    destruct (table_save uc_repr uc_repr_id q fd (UC (Pack fd 0 []) (-1) b0) [b0] pend Hh Hf Hp) as (hs & E & Hh');
      [constructor|done|]. cbn. rewrite E. eexists. split; [done|].
    split; [|unfold QUEUESIZE; cbn; lia]. split; [|done]. rewrite app_nil_r. by apply ring_repr_hash.
  - inversion Hb as [|? ? Hb0 Hb']; subst. inversion Hb' as [|? ? Hb1 Hbr]; subst.
    unfold is_byte in Hb0, Hb1. cbn [length] in *.
    destruct (Z.eqb_spec (Z.of_nat (S (S (length rest)))) 1) as [?|_]; [lia|].
    rewrite read_size_ok by done. rewrite bind_ret. cbv zeta. cbn [drop]. rewrite drop_0.
    replace (Z.of_nat (S (S (length rest))) - 2) with (Z.of_nat (length rest)) by lia.
    rewrite split_step. set (n := b0 * 256 + b1). cbv zeta.
    destruct (Z.ltb_spec (Z.of_nat (length rest)) n) as [Hlt|Hge].
    + destruct (Nat.ltb_spec (length rest) (Z.to_nat n)); [|lia].
      destruct (partial_ok fd b0 b1 rest ltac:(lia) Hlt) as (u & Eu & Hu). fold n in Eu. rewrite Eu, bind_ret.
      destruct (table_save uc_repr uc_repr_id q fd u (b0 :: b1 :: rest) pend Hh Hf Hp Hu) as (hs & -> & Hh'); [done|].
      eexists. split; [done|]. split; [|unfold QUEUESIZE; cbn; lia]. cbn [fst snd fmap list_fmap].
      rewrite app_nil_r. split; [by apply ring_repr_hash|done].
    + destruct (Nat.ltb_spec (length rest) (Z.to_nat n)); [lia|].
      destruct (push_packet uc_repr q fd rest n items pend) as (b & q1 & Eb & Eq & Hq1 & Hc1);
        [done|unfold QUEUESIZE; lia|lia|].
      rewrite Eb, bind_ret, Eq, bind_ret. unfold QUEUESIZE in Hc1.
      replace (Z.of_nat (length rest) - n) with (Z.of_nat (length (drop (Z.to_nat n) rest)))
        by (rewrite length_drop; lia).
      destruct (Z.ltb_spec 0 (Z.of_nat (length (drop (Z.to_nat n) rest)))) as [Hpos|Hz].
      * destruct (IH q1 (drop (Z.to_nat n) rest) pend (items ++ [mk fd (take (Z.to_nat n) rest)]))
          as (q2 & -> & Hq2 & Hc2); [done|done|done| | | |unfold QUEUESIZE; rewrite length_app; cbn [length]; rewrite length_drop in *; lia|].
        { intros E. rewrite E in Hpos. cbn in Hpos. lia. }
        { by apply Forall_drop. }
        { rewrite length_drop. lia. }
        exists q2. split; [done|]. unfold QUEUESIZE in *.
        destruct (split_packets (drop (Z.to_nat n) rest)) as [ps r]. cbn [fst snd] in *.
        rewrite <- app_assoc in Hq2. split; [exact Hq2|lia].
      * assert (drop (Z.to_nat n) rest = []) as -> by (apply nil_length_inv; lia).
        exists q1. split; [done|]. unfold QUEUESIZE. split; [|lia].
        cbn [split_packets split_fuel length fst snd]. destruct Hq1 as [Hr1 Hh1]. split; [done|].
        eapply table_repr_ext; [|exact Hh1]. intros x. unfold upd.
        by destruct (decide (x = fd)) as [->|].
Qed.

(** Parsing the rest of a non-empty chunk leaves something or yields packets. *)
Lemma split_nonempty bs : bs <> [] -> (split_packets bs).1 <> [] \/ (split_packets bs).2 <> [].
Proof.
  destruct bs as [|b0 [|b1 rest]]; [done|by right|intros _]. rewrite split_step.
  destruct (_ <? _)%nat; [by right|]. destruct (split_packets _). by left.
Qed.

(** The first packet of a chunk is pushed and the rest parsed. *)
Lemma push_rest q0 fd b p rest pend items :
  q_repr uc_repr q0 pend items -> fd_ok fd -> pend fd = [] -> rest <> [] -> bytes_ok rest ->
  b = Some <$> p -> cap q0 <= 2^30 /\ Z.of_nat (length items) + (Z.of_nat (length rest) + 1) + QUEUESIZE <= 2^30 ->
  exists q1 q2, push_data (Some q0) fd b (Z.of_nat (length p)) = Ok q1 /\
    push_more (length rest) (Some q1) fd rest (Z.of_nat (length rest)) = Ok q2 /\
    let '(ps, r) := split_packets rest in
    q_repr uc_repr q2 (upd fd r pend) (items ++ queued fd (p :: ps) r) /\ report fd (p :: ps) r = RMore /\
    cap q2 <= 2^30.
Proof.
  intros [Hr Hh] Hf Hp Hne Hb -> Hcap. unfold QUEUESIZE in *.
  destruct (push_data_ok q0 items fd (Some <$> p) (Z.of_nat (length p)) Hr) as (q1 & E1 & Hr1 & Eh & Ec);
    [unfold QUEUESIZE; lia|]. unfold QUEUESIZE in Ec.
  destruct (push_more_ok fd (length rest) q1 rest pend (items ++ [mk fd p])) as (q2 & E2 & Hq2 & Hc2);
    [by split; [|rewrite Eh]|done|done|done|done|done|rewrite length_app; unfold QUEUESIZE; cbn [length]; lia|]. unfold QUEUESIZE in Hc2.
  exists q1, q2. split; [done|]. split; [done|].
  pose proof (split_nonempty rest Hne) as Hs. destruct (split_packets rest) as [ps r]. cbn [fst snd] in *.
  destruct (report_more fd p ps r Hs) as [-> ->]. rewrite <- app_assoc in Hq2.
  split; [exact Hq2|]. split; [done|lia].
Qed.

(** A chunk for a connection with nothing pending. *)
Lemma filter_fresh q fd bs pend items :
  opt_repr uc_repr q pend items -> fd_ok fd -> pend fd = [] -> bs <> [] -> bytes_ok bs ->
  cap (get_queue q) <= 2^30 /\ Z.of_nat (length items) + Z.of_nat (length bs) + QUEUESIZE <= 2^30 ->
  exists q', filter_data_ q fd bs (Z.of_nat (length bs))
      = Ok (report fd (split_packets bs).1 (split_packets bs).2, q') /\
    opt_repr uc_repr q' (upd fd (split_packets bs).2 pend)
      (items ++ queued fd (split_packets bs).1 (split_packets bs).2) /\
    cap (get_queue q') <= 2^30.
Proof.
  intros Hq Hf Hp Hne Hb Hcap. pose proof (get_queue_opt uc_repr _ _ _ Hq) as [Hr Hh]. unfold QUEUESIZE in Hcap.
  unfold filter_data_. rewrite (find_absent uc_repr q fd pend items Hq Hf Hp), bind_ret.
  pose proof (fun u p => save_ok uc_repr uc_repr_id q fd u p pend items Hq Hf Hp) as Hsave.
  destruct bs as [|b0 [|b1 rest]]; [done| |].
  - change (Z.of_nat (length [b0]) =? 1) with true. cbv iota.
    unfold half_header. rewrite (arr_get_ok _ 0 b0) by (lia || done). rewrite !bind_ret.
    destruct (Hsave (UC (Pack fd 0 []) (-1) b0) [b0]) as (q' & -> & Hq' & Ec); [constructor|done|].
    exists (Some q'). split; [done|]. cbn. rewrite app_nil_r. split; [done|]. unfold QUEUESIZE. lia.
  - inversion Hb as [|? ? Hb0 Hb']; subst. inversion Hb' as [|? ? Hb1 Hbr]; subst.
    unfold is_byte in Hb0, Hb1. cbn [length] in *.
    destruct (Z.eqb_spec (Z.of_nat (S (S (length rest)))) 1) as [?|_]; [lia|].
    rewrite read_size_ok by done. rewrite bind_ret. cbv zeta. cbn [drop]. rewrite drop_0.
    replace (Z.of_nat (S (S (length rest))) - 2) with (Z.of_nat (length rest)) by lia.
    rewrite split_step. set (n := b0 * 256 + b1). cbv zeta.
    destruct (Z.ltb_spec (Z.of_nat (length rest)) n) as [Hlt|Hge].
    { destruct (Nat.ltb_spec (length rest) (Z.to_nat n)); [|lia].
      destruct (partial_ok fd b0 b1 rest ltac:(lia) Hlt) as (u & Eu & Hu). fold n in Eu. rewrite Eu, bind_ret.
      destruct (Hsave u (b0 :: b1 :: rest) Hu) as (q' & -> & Hq' & Ec); [done|].
      exists (Some q'). split; [done|]. cbn [report queued fst snd fmap list_fmap]. rewrite app_nil_r.
      split; [done|]. cbn [get_queue]. unfold QUEUESIZE. lia. }
    destruct (Nat.ltb_spec (length rest) (Z.to_nat n)); [lia|].
    destruct (Z.eqb_spec (Z.of_nat (length rest)) n) as [Heq|Hneq].
    + rewrite copy_fresh by lia. rewrite bind_ret. exists q.
      replace (Z.to_nat (Z.of_nat (length rest))) with (length rest) by lia.
      replace (Z.to_nat n - length rest)%nat with 0%nat by lia. cbn [replicate]. rewrite app_nil_r.
      rewrite drop_ge by lia. replace (Z.to_nat n) with (length rest) by lia.
      cbn [split_packets split_fuel length fst snd report queued]. rewrite firstn_all, app_nil_r.
      split; [done|]. split; [by apply opt_repr_none|unfold QUEUESIZE; lia].
    + assert (Hd : drop (Z.to_nat n) rest <> []).
      { intros E. apply (f_equal length) in E. rewrite length_drop in E. cbn in E. lia. }
      rewrite copy_fresh, bind_ret by lia. rewrite Nat.sub_diag. cbn [replicate]. rewrite app_nil_r.
      change (push_data q) with (push_data (Some (get_queue q))).
      destruct (push_rest (get_queue q) fd (Some <$> take (Z.to_nat n) rest) (take (Z.to_nat n) rest)
        (drop (Z.to_nat n) rest) pend items) as (q1 & q2 & E1 & E2 & Hq2); [done|done|done|done| |done| |].
      { by apply Forall_drop. } { unfold QUEUESIZE. rewrite length_drop. lia. }
      rewrite length_take_le, Z2Nat.id in E1 by lia. rewrite E1, bind_ret.
      replace (Z.of_nat (length rest) - n) with (Z.of_nat (length (drop (Z.to_nat n) rest)))
        by (rewrite length_drop; lia).
      rewrite E2, bind_ret. exists (Some q2). destruct (split_packets (drop (Z.to_nat n) rest)) as [ps r].
      destruct Hq2 as (Hq2 & Er & Hc2). cbn [fst snd]. rewrite Er. split; [done|]. split; [done|].
      cbn [get_queue]. unfold QUEUESIZE in *. lia.
Qed.

(** A chunk for a record whose header is known, with [data] read so far. *)
Lemma fill_ok q fd h0 h1 data hd bs pend items N :
  let n := h0 * 256 + h1 in
  q_repr uc_repr q pend items -> fd_ok fd -> pend fd = [] -> bytes_ok bs ->
  Z.of_nat (length data) <= n ->
  Z.of_nat (length bs) - (n - Z.of_nat (length data)) + 1 <= N -> 1 <= N ->
  cap q <= 2^30 /\ Z.of_nat (length items) + N + QUEUESIZE <= 2^30 ->
  exists q', fill_uncomplete (Some q) fd
      (UC (Pack fd n ((Some <$> data) ++ replicate (Z.to_nat n - length data) None))
          (Z.of_nat (length data)) hd) bs (Z.of_nat (length bs))
      = Ok (report fd (split_packets (h0 :: h1 :: data ++ bs)).1 (split_packets (h0 :: h1 :: data ++ bs)).2,
            Some q') /\
    q_repr uc_repr q' (upd fd (split_packets (h0 :: h1 :: data ++ bs)).2 pend)
      (items ++ queued fd (split_packets (h0 :: h1 :: data ++ bs)).1 (split_packets (h0 :: h1 :: data ++ bs)).2) /\
    cap q' <= 2^30.
Proof.
  intros n Hq Hf Hp Hb Hd HN HN1 Hcap. pose proof Hq as [Hr Hh]. unfold fill_uncomplete.
  cbn [np_size pack uc_read np_buffer np_id uc_header]. cbv zeta.
  rewrite split_step. fold n. cbv zeta. rewrite length_app.
  set (need := n - Z.of_nat (length data)) in *.
  destruct (Z.ltb_spec (Z.of_nat (length bs)) need) as [Hlt|Hge].
  - destruct (Nat.ltb_spec (length data + length bs) (Z.to_nat n)); [|lia].
    rewrite copy_at by lia. rewrite bind_ret, Nat2Z.id, take_ge by done.
    destruct (table_save uc_repr uc_repr_id q fd (UC (Pack fd n ((Some <$> data ++ bs) ++
        replicate (Z.to_nat n - length data - length bs) None))
        (Z.of_nat (length data) + Z.of_nat (length bs)) hd) (h0 :: h1 :: data ++ bs) pend Hh Hf Hp)
      as (hs & -> & Hh'); [|done|].
    { replace (Z.to_nat n - length data - length bs)%nat with (Z.to_nat n - length (data ++ bs))%nat
        by (rewrite length_app; lia).
      replace (Z.of_nat (length data) + Z.of_nat (length bs)) with (Z.of_nat (length (data ++ bs)))
        by (rewrite length_app; lia).
      constructor; [done|]. rewrite length_app. lia. }
    rewrite bind_ret. eexists. split; [done|]. cbn [report queued fst snd fmap list_fmap]. rewrite app_nil_r.
    split; [split; [by apply ring_repr_hash|done]|]. cbn. unfold QUEUESIZE. lia.
  - destruct (Nat.ltb_spec (length data + length bs) (Z.to_nat n)); [lia|].
    rewrite copy_at by lia. rewrite bind_ret.
    replace (Z.to_nat n - length data - Z.to_nat need)%nat with 0%nat by lia. cbn [replicate]. rewrite app_nil_r.
    replace (Z.to_nat n) with (length data + Z.to_nat need)%nat by lia.
    rewrite drop_app_add, take_app_add. set (p := data ++ take (Z.to_nat need) bs).
    assert (Hpl : Z.of_nat (length p) = n) by (subst p; rewrite length_app, length_take_le; lia).
    destruct (Z.eqb_spec (Z.of_nat (length bs) - need) 0) as [Ez|Ez].
    + rewrite drop_ge by lia. cbn [split_packets split_fuel length fst snd report queued].
      rewrite app_nil_r, Hpl. exists q. split; [done|]. unfold QUEUESIZE in *. split; [|lia].
      split; [done|]. eapply table_repr_ext; [|exact Hh]. intros x. unfold upd.
      by destruct (decide (x = fd)) as [->|].
    + set (rest := drop (Z.to_nat need) bs).
      assert (Hrl : Z.of_nat (length rest) = Z.of_nat (length bs) - need) by (subst rest; rewrite length_drop; lia).
      destruct (push_rest q fd (Some <$> p) p rest pend items) as (q1 & q2 & E1 & E2 & Hq2);
        [done|done|done| |by apply Forall_drop|done|unfold QUEUESIZE in *; lia|].
      { intros E. rewrite E in Hrl. cbn in Hrl. lia. }
      rewrite Hpl in E1. rewrite <- Hrl, E1, bind_ret, E2, bind_ret. exists q2.
      destruct (split_packets rest) as [ps r]. destruct Hq2 as (Hq2 & Er & Hc2). cbn [fst snd].
      rewrite Er. split; [done|]. split; [done|]. unfold QUEUESIZE in *. lia.
Qed.

(** One call: the pending bytes and the chunk are parsed as one string. *)
Lemma filter_data_ok q fd bs pend items :
  opt_repr uc_repr q pend items -> fd_ok fd -> bytes_ok (pend fd) -> bs <> [] -> bytes_ok bs ->
  cap (get_queue q) <= 2^30 /\ Z.of_nat (length items) + Z.of_nat (length bs) + QUEUESIZE <= 2^30 ->
  let '(ps, r) := split_packets (pend fd ++ bs) in
  exists q', filter_data_ q fd bs (Z.of_nat (length bs)) = Ok (report fd ps r, q') /\
    opt_repr uc_repr q' (upd fd r pend) (items ++ queued fd ps r) /\
    cap (get_queue q') <= 2^30.
Proof.
  intros Hq Hf Hbp Hne Hb Hcap. destruct (decide (pend fd = [])) as [Hp|Hp].
  { rewrite Hp. cbn [app]. pose proof (filter_fresh q fd bs pend items Hq Hf Hp Hne Hb Hcap) as Hx.
    by destruct (split_packets bs). }
  destruct (find_present uc_repr q fd pend items Hq Hf Hp) as (u & q1 & Ef & Hu & Hq1 & Ec). rewrite <- Ec in *.
  pose proof (fun ps r q' => opt_repr_upd uc_repr (Some q') fd [] r pend (items ++ queued fd ps r)) as Hall.
  unfold filter_data_. rewrite Ef, bind_ret. destruct Hu as [b|h0 h1 data hd n En Hn]; cbn [uc_read pack].
  - change (-1 <? 0) with true. cbv iota. cbn [c_assert Z.eqb Pos.eqb]. rewrite bind_ret.
    destruct bs as [|b1 bs]; [done|]. rewrite (arr_get_ok _ 0 b1) by (lia || done). rewrite bind_ret.
    cbv zeta. cbn [uc_header np_id drop]. rewrite drop_0.
    inversion Hb as [|? ? Hb1 Hbr]; subst. inversion Hbp as [|? ? Hb0 _]; subst.
    rewrite Z.lor_comm, header_value by done. cbn [length] in *.
    replace (Z.of_nat (S (length bs)) - 1) with (Z.of_nat (length bs)) by lia.
    destruct (fill_ok q1 fd b b1 [] b bs (upd fd [] pend) items (Z.of_nat (S (length bs))))
      as (q2 & E2 & Hq2 & Hc2); [done|done|by rewrite upd_eq|done| | |lia|done|].
    { unfold is_byte in *. cbn. lia. } { unfold is_byte in *. cbn [length]. lia. }
    cbn [length app fmap list_fmap] in E2. rewrite Nat.sub_0_r in E2. change (Z.of_nat 0) with 0 in E2.
    unfold malloc_bytes. rewrite E2. cbn [app] in *.
    destruct (split_packets (b :: b1 :: bs)) as [ps r]. cbn [fst snd] in *.
    exists (Some q2). split; [done|]. split; [by apply Hall|done].
  - destruct (Z.ltb_spec (Z.of_nat (length data)) 0); [lia|].
    destruct (fill_ok q1 fd h0 h1 data hd bs (upd fd [] pend) items (Z.of_nat (length bs)))
      as (q2 & E2 & Hq2 & Hc2); [done|done|by rewrite upd_eq|done|lia|lia| |done|].
    { destruct bs; [done|cbn; lia]. }
    rewrite <- En in E2. rewrite E2. cbn [app] in *.
    destruct (split_packets (h0 :: h1 :: data ++ bs)) as [ps r]. cbn [fst snd] in *.
    exists (Some q2). split; [done|]. split; [by apply Hall|done].
Qed.

#[global] Instance netpack_splitter : Splitter uncomplete.
Proof.
  refine {| sp_filter := fun q fd chunk => lfilter q (SockMsg SData fd (Z.of_nat (length chunk)) (Some chunk) []);
    sp_split := split_packets; sp_good := bytes_ok; sp_rep := uc_repr |}.
  - done.
  - intros bs ps r. by apply (split_rest (length bs)).
  - intros bs ps r more. by apply (split_app (length bs)).
  - intros bs more Hb. by apply Forall_app in Hb as [? _].
  - intros bs ps r more E [Hb Hm]%Forall_app. apply Forall_app. split; [|done]. by eapply (split_bytes (length bs)).
  - intros q fd bs pend Hq Hf Hne [Hbp Hb]%Forall_app _ Hcap Hroom. unfold lfilter. cbn [s_type s_id s_buffer s_ud]. rewrite bool_decide_true by by eexists.
    cbn [c_assert]. rewrite bind_ret. apply (filter_data_ok q fd bs pend []); done.
Defined.

Definition evs_ok (evs : list (Z * list Z)) : Prop := chunks_ok evs /\ Forall (fun e => bytes_ok e.2) evs.

Lemma stream_bytes evs fd : Forall (fun e => bytes_ok e.2) evs -> bytes_ok (stream fd evs).
Proof.
  intros Hb. induction evs as [|[x chunk] evs IH]; [constructor|]. apply Forall_cons in Hb as [Hc Hb]. rewrite stream_cons.
  destruct (decide (x = fd)); [apply Forall_app; split; [done|by apply IH]|by apply IH].
Qed.

(** C27.  Packet reassembly: for any number of connections (of ids below 2^30), any
    interleaving and any cutting of their streams into chunks that are not empty and
    below 2^30 - 1024 bytes, with no limit on their number, the packets handed out
    for a connection are exactly the length-prefixed packets of the bytes it
    received, in order, as a parser that sees its whole stream at once finds
    them. *)
Theorem netpack_reassembles evs :
  evs_ok evs ->
  exists outs q', receive None evs = Ok (outs, q') /\
    forall fd, of_fd fd outs = mk fd <$> (split_packets (stream fd evs)).1.
Proof. intros [He Hb]. exact (receive_splits (A := uncomplete) evs He (fun fd => stream_bytes evs fd Hb)). Qed.

(** ** Packing *)

Lemma split_packed m msg rest : lpack msg = Some m ->
  split_packets (m ++ rest) = let '(ps, r) := split_packets rest in (msg :: ps, r).
Proof.
  unfold lpack. destruct (Z.leb_spec 0x10000 (Z.of_nat (length msg))) as [|Hl]; [done|].
  intros [= <-]. unfold write_size. cbn [app]. rewrite split_step.
  change 255 with (2^8 - 1). rewrite !land_mask, Z.shiftr_div_pow2 by lia.
  set (len := Z.of_nat (length msg)) in *. assert (0 <= len) by (subst len; lia).
  replace ((len / 2^8) mod 2^8 * 256 + len mod 2^8) with len.
  2:{ change (2^8) with 256. rewrite (Z.mod_small (len / 256)).
      - pose proof (Z.div_mod len 256). lia.
      - split; [apply Z.div_pos; lia|apply Z.div_lt_upper_bound; lia]. }
  cbv zeta. subst len. rewrite Nat2Z.id, length_app.
  destruct (Nat.ltb_spec (length msg + length rest) (length msg)); [lia|].
  by rewrite drop_app_length, take_app_length.
Qed.

Lemma split_all_packed msgs : forall ms, mapM lpack msgs = Some ms ->
  split_packets (concat ms) = (msgs, []).
Proof.
  induction msgs as [|msg msgs IH]; intros ms E; [by injection E as <-|].
  apply mapM_Some in E. inversion E as [|? m ? ms' Hm Hms]; subst. apply mapM_Some in Hms.
  cbn [concat]. rewrite (split_packed m msg _ Hm), (IH ms' Hms). done.
Qed.

(** Round trip: when every connection receives messages packed by [lpack]
    (each shorter than 64 KiB), cut and interleaved in any way, exactly those
    messages come out for it, in order. *)
Theorem netpack_roundtrip evs (sent : Z -> list (list Z)) :
  evs_ok evs ->
  (forall fd, exists ms, mapM lpack (sent fd) = Some ms /\ stream fd evs = concat ms) ->
  exists outs q', receive None evs = Ok (outs, q') /\ forall fd, of_fd fd outs = mk fd <$> sent fd.
Proof.
  intros [He Hb] Hs. destruct (receive_splits (A := uncomplete) evs He) as (outs & q' & E & Hall); [intros fd; by apply stream_bytes|].
  exists outs, q'. split; [done|]. intros fd. rewrite Hall. cbn [sp_split netpack_splitter].
  destruct (Hs fd) as (ms & Em & ->). by rewrite (split_all_packed _ _ Em).
Qed.

(** Two connections, three messages, a header cut in the middle. *)
Definition sample_evs : list (Z * list Z) :=
  [(5, [0]); (9, [0; 1; 7; 0]); (5, [2; 65; 66; 0; 1; 67]); (9, [0])].
Definition sample_sent (fd : Z) : list (list Z) :=
  if decide (fd = 5) then [[65; 66]; [67]] else if decide (fd = 9) then [[7]; []] else [].

Lemma sample_evs_ok : evs_ok sample_evs.
Proof.
  unfold evs_ok, chunks_ok, sample_evs, fd_ok, bytes_ok, is_byte, QUEUESIZE.
  split.
  - repeat (constructor; [cbn; split; [lia|split; [done|lia]]|]). constructor.
  - repeat (constructor; [cbn; repeat (constructor; [lia|]); constructor|]). constructor.
Qed.

Lemma netpack_reassembles_witness : exists outs q', receive None sample_evs = Ok (outs, q') /\
  of_fd 5 outs = [mk 5 [65; 66]; mk 5 [67]].
Proof.
  destruct (netpack_reassembles sample_evs sample_evs_ok) as (outs & q' & E & Hall).
  exists outs, q'. split; [exact E|]. exact (Hall 5).
Defined.

Lemma netpack_roundtrip_witness : exists outs q', receive None sample_evs = Ok (outs, q') /\
  forall fd, of_fd fd outs = mk fd <$> sample_sent fd.
Proof.
  apply (netpack_roundtrip sample_evs sample_sent sample_evs_ok).
  intros fd. unfold sample_sent, stream, sample_evs. destruct (decide (fd = 5)) as [->|H5]; [|destruct (decide (fd = 9)) as [->|H9]].
  - exists [[0; 2; 65; 66]; [0; 1; 67]]. vm_compute. split; reflexivity.
  - exists [[0; 1; 7]; [0; 0]]. vm_compute. split; reflexivity.
  - exists []. split; [reflexivity|]. rewrite !filter_cons_False by (cbn; congruence). reflexivity.
Defined.

(** ** Clearing *)

(** [lclear] frees the buffer of every incomplete and every queued packet
    exactly once and leaves an empty queue. *)
Theorem clear_frees_everything q pend items :
  q_repr uc_repr q pend items ->
  exists q', lclear (Some q)
      = Ok (((fun u => np_buffer (pending_pack u)) <$> concat (hash q)) ++ (np_buffer <$> items), Some q') /\
    q_repr uc_repr q' (fun _ => []) [].
Proof.
  intros [[Hc Hl Hhd Hroom Htl Hsl] [Hh _]]. unfold lclear.
  assert (Et : (if tail q <? head q then tail q + cap q else tail q) = head q + Z.of_nat (length items)).
  { rewrite Htl. Ring.ring_mod; lia. }
  rewrite Et. cbv zeta. set (freed := _ <$> concat (hash q)).
  replace (head q + Z.of_nat (length items) - head q) with (Z.of_nat (length items)) by lia.
  rewrite Nat2Z.id.
  edestruct (for_loop_inv (fun i acc => acc = freed ++ (np_buffer <$> take (Z.to_nat (i - head q)) items)))
    as (acc & -> & ->).
  - by rewrite Z.sub_diag, take_0, app_nil_r.
  - intros i acc Hi ->. set (k := Z.to_nat (i - head q)).
    destruct (lookup_lt_is_Some_2 items k) as [p Hp]; [lia|].
    pose proof (Hsl k p Hp) as Hcell. replace (head q + Z.of_nat k) with i in Hcell by lia.
    rewrite (arr_get_ok _ _ _ (proj1 (Z.mod_pos_bound i (cap q) Hc)) Hcell), bind_ret.
    cbn [init_read]. rewrite bind_ret. eexists. split; [done|].
    replace (Z.to_nat (i + 1 - head q)) with (S k) by lia.
    by rewrite (take_S_r _ _ _ Hp), fmap_app, app_assoc.
  - rewrite bind_ret. eexists. split.
    + do 2 f_equal. by rewrite take_ge by lia.
    + split; [by split|]. split; cbn [hash]; [by rewrite length_replicate|].
      by intros fd h chain _ _ [-> _]%lookup_replicate.
Qed.

Lemma clear_frees_witness : exists q', lclear (Some (get_queue None)) = Ok ([], Some q').
Proof.
  destruct (clear_frees_everything (get_queue None) (fun _ => []) [] (get_queue_repr uc_repr)) as (q' & E & _).
  exists q'. refine (eq_trans E _). vm_compute. reflexivity.
Defined.

(** The hash of a connection id is computed in [int]: for the largest id
    the sum overflows, which the language leaves undefined. *)
Lemma hash_fd_overflows : hash_fd INT_MAX = Fault SignedOverflow.
Proof. vm_compute. reflexivity. Qed.
