(* ===== verification/WsNetpack.v ===== *)
(** * Frames of websocket clients ([src/lualib-src/lua-websocketnetpack.c])

    The library of the gate for browsers.  It cuts a stream into the frames of
    RFC 6455, takes the masks off and hands out payloads; a stream starts with an
    HTTP request, which is passed on up to its empty line while [handeshake] is
    set.  The queue and the table of incomplete packets are those of [Netpack],
    the records in the table are others.

    [read_size] gives its result and, when it gets that far, what it stores
    through its pointers: the length of the header and the mask.  The counter
    [total_size], which nothing reads, is left out. *)

From S2P Require Import Prelude Mq Netpack.
From stdpp Require Import base numbers list gmap.
From Stdlib Require Import ZArith Lia.
#[local] Open Scope Z_scope.
#[local] Open Scope list_scope.

Module WsNetpack.
Import Netpack.

Definition HEADERSIZE : Z := 1024.
Definition WEBSOCKET_HEADER_LEN : Z := 2.
Definition WEBSOCKET_MASK_LEN : Z := 4.
Definition MAX_PACKSIZE : Z := 10 * 1024.

(** [uc_mask] is the mask and [uc_ismask]. *)
Record uncomplete := UC {
  uc_pack : netpack; uc_header : list Z; uc_header_size : Z; uc_read : Z;
  uc_mask : option (list Z); uc_hasunmask_size : Z }.
#[global] Instance ws_pending : Pending uncomplete := uc_pack.

(** ** Headers *)

Definition ntohl (v : Z) : Z := of_le (rev (to_le 4 v)).
Definition ntohs (v : Z) : Z := of_le (rev (to_le 2 v)).

Definition ntoh64 (host : Z) : Z :=
  let low := ntohl (Z.land host 0xFFFFFFFF) in
  let high := ntohl (Z.land (Z.shiftr host 32) 0xFFFFFFFF) in
  Z.lor (Z.shiftl low 32) high.

Definition head : Type := Z * option (list Z).

Definition read_size (buffer : list Z) (size : Z) : outcome (Z * option head) :=
  if size <? 2 then Ok (-1, None)
  else
    b0 ← arr_get buffer 0;
    b1 ← arr_get buffer 1;
    let fin := Z.land (Z.shiftr b0 7) 0x1 in
    let rsv1 := Z.land (Z.shiftr b0 6) 0x1 in
    let rsv2 := Z.land (Z.shiftr b0 5) 0x1 in
    let rsv3 := Z.land (Z.shiftr b0 4) 0x1 in
    let opcode := Z.land b0 0xf in
    let is_mask := Z.land (Z.shiftr b1 7) 0x1 in
    if negb (rsv1 =? 0) || negb (rsv2 =? 0) || negb (rsv3 =? 0) then Ok (-2, None)
    else if (fin =? 0) || (opcode =? 0) then Ok (-2, None)
    else
      let length := Z.land b1 0x7f in
      r ← (if length <? 0x7E then Ok (Some (length, WEBSOCKET_HEADER_LEN))
           else if length =? 0x7E then
             if size <? WEBSOCKET_HEADER_LEN + 2 then Ok None
             else b ← mem_read buffer WEBSOCKET_HEADER_LEN 2; Ok (Some (ntohs (of_le b), WEBSOCKET_HEADER_LEN + 2))
           else
             if size <? WEBSOCKET_HEADER_LEN + 8 then Ok None
             else b ← mem_read buffer WEBSOCKET_HEADER_LEN 8; Ok (Some (i32 (ntoh64 (of_le b)), WEBSOCKET_HEADER_LEN + 8)));
      match r with
      | None => Ok (-1, None)
      | Some (pack_size, offset) =>
          if negb (is_mask =? 0) then
            if size <? offset + WEBSOCKET_MASK_LEN then Ok (-1, None)
            else m ← mem_read buffer offset WEBSOCKET_MASK_LEN; Ok (pack_size, Some (offset + WEBSOCKET_MASK_LEN, Some m))
          else Ok (pack_size, Some (offset, None))
      end.

(** [decode_wsmask_data(buffer, size, uc)]: the buffer and [hasunmask_size]. *)
Definition decode_wsmask_data (buffer : list Z) (size : Z) (mask : option (list Z)) (hasunmask_size : Z) : outcome (list Z * Z) :=
  match mask with
  | None => Ok (buffer, hasunmask_size)
  | Some masks =>
      b ← for_loop (Z.to_nat size) 0
        (fun i buf =>
           x ← arr_get buf i;
           m ← arr_get masks (Z.rem (i + hasunmask_size) WEBSOCKET_MASK_LEN);
           arr_set buf i (Z.lxor x m)) buffer;
      Ok (b, hasunmask_size + size)
  end.

(** [websocket_strnpos(buffer, size, "\r\n\r\n", 4)].  The bound of the loop is an
    [int] compared with the unsigned [i].  An access behind the memory ends it, so
    a round for every byte is enough. *)
Definition CRLF2 : list Z := [13; 10; 13; 10].

Fixpoint strnpos_loop (fuel : nat) (haystack : list Z) (bound i : Z) : outcome Z :=
  match fuel with
  | O => Fault OutOfFuel
  | S fuel =>
      if i <? bound then
        c ← arr_get haystack i;
        found ← (if c =? 13 then b ← mem_read haystack i 4; Ok (bool_decide (b = CRLF2)) else Ok false);
        if (found : bool) then Ok i else strnpos_loop fuel haystack bound (i + 1)
      else Ok (-1)
  end.

Definition websocket_strnpos (haystack : list Z) (haystack_length : Z) : outcome Z :=
  strnpos_loop (S (length haystack)) haystack (u32 (i32 (haystack_length - 4 + 1))) 0.

Definition get_http_header (buffer : list Z) (size : Z) : outcome Z :=
  n ← websocket_strnpos buffer size;
  if n <? 0 then Ok n else Ok (n + 4).

(** [while (read_size(...) is bad) skip two bytes]; the two callers call
    different results bad. *)
Fixpoint skip_bad (fuel : nat) (bad : Z -> bool) (buffer : list Z) (size : Z) : outcome (list Z * Z * Z * option head) :=
  match fuel with
  | O => Fault OutOfFuel
  | S fuel =>
      '(pack_size, h) ← read_size buffer size;
      if bad pack_size then skip_bad fuel bad (drop 2 buffer) (size - WEBSOCKET_HEADER_LEN)
      else Ok (buffer, size, pack_size, h)
  end.

Definition bad_more (pack_size : Z) : bool := (pack_size <=? -2) || (MAX_PACKSIZE <? pack_size).
Definition bad_filter (pack_size : Z) : bool := (pack_size =? -2) || (MAX_PACKSIZE <? pack_size).

(** ** Packets *)

(** [skynet_malloc] adds room for its own mark and aborts when there is no block of
    that size.  A negative [size] is a huge [size_t], except that the sum wraps for
    those from -4 on: they give a block with no room. *)
Definition PREFIX_SIZE : Z := 4.
Definition ws_malloc (size : Z) : outcome (list (option Z)) :=
  if size + PREFIX_SIZE <? 0 then Fault Exited else Ok (malloc_bytes size).

(** A record that keeps the start of a header or request. *)
Definition keep_header (fd : Z) (buffer : list Z) (size : Z) : outcome uncomplete :=
  b ← mem_read buffer 0 size;
  header ← mem_write (replicate (Z.to_nat HEADERSIZE) 0) 0 b;
  Ok (UC (Pack fd 0 []) header size (-1) None 0).

(** A record with a part of the payload. *)
Definition keep_part (fd pack_size : Z) (mask : option (list Z)) (buffer : list Z) (size : Z) : outcome uncomplete :=
  block ← ws_malloc pack_size;
  '(buffer, n) ← decode_wsmask_data buffer size mask 0;
  block ← copy_bytes block 0 buffer size;
  Ok (UC (Pack fd pack_size block) (replicate (Z.to_nat HEADERSIZE) 0) 0 size mask n).

(** The payload of a frame that is all there, in a block of its own. *)
Definition whole (pack_size : Z) (mask : option (list Z)) (buffer : list Z) : outcome (list (option Z)) :=
  '(buffer, _) ← decode_wsmask_data buffer pack_size mask 0;
  block ← ws_malloc pack_size;
  copy_bytes block 0 buffer pack_size.

(** Each call takes at least two bytes. *)
Fixpoint push_more (fuel : nat) (q : option (queue uncomplete)) (fd : Z) (buffer : list Z) (size : Z) (handeshake : bool)
    : outcome (queue uncomplete) :=
  match fuel with
  | O => Fault OutOfFuel
  | S fuel =>
      '(buffer, size, pack_size, h) ←
        (if handeshake then n ← get_http_header buffer size; Ok (buffer, size, n, None)
         else skip_bad (S (length buffer)) bad_more buffer size);
      if pack_size =? -1 then u ← keep_header fd buffer size; save_uncomplete q u
      else
        let '(pack_head_length, mask) := default (0, None) h in
        let buffer := drop (Z.to_nat pack_head_length) buffer in
        let size := size - pack_head_length in
        if (size <? pack_size) && negb handeshake then
          u ← keep_part fd pack_size mask buffer size; save_uncomplete q u
        else
          b ← whole pack_size mask buffer;
          q ← push_data q fd b pack_size;
          let buffer := drop (Z.to_nat pack_size) buffer in
          let size := size - pack_size in
          if 0 <? size then push_more fuel (Some q) fd buffer size handeshake else Ok q
  end.

(** [while (read_size(uc->header, ...) is bad)] with the header moved down. *)
Fixpoint skip_header (fuel : nat) (header : list Z) (header_size : Z) : outcome (list Z * Z * Z * option head) :=
  match fuel with
  | O => Fault OutOfFuel
  | S fuel =>
      '(pack_size, h) ← read_size header header_size;
      if bad_filter pack_size then
        let header_size := header_size - WEBSOCKET_HEADER_LEN in
        b ← mem_read header WEBSOCKET_HEADER_LEN header_size;
        header ← mem_write header 0 b;
        skip_header fuel header header_size
      else Ok (header, header_size, pack_size, h)
  end.

(** The loop that completes a header byte by byte: the record's header and its
    size, the bytes taken, and what [read_size] gave. *)
Fixpoint header_loop (fuel : nat) (header : list Z) (header_size : Z) (buffer : list Z) (index size : Z) (handeshake : bool)
    : outcome (list Z * Z * Z * Z * option head) :=
  match fuel with
  | O => Fault OutOfFuel
  | S fuel =>
      b ← arr_get buffer index;
      header ← arr_set header header_size b;
      let index := index + 1 in
      let header_size := header_size + 1 in
      '(header, header_size, pack_size, h) ←
        (if handeshake then n ← get_http_header header header_size; Ok (header, header_size, n, None)
         else skip_header (S (Z.to_nat header_size)) header header_size);
      if (0 <=? pack_size) || (size <=? index) then Ok (header, header_size, index, pack_size, h)
      else header_loop fuel header header_size buffer index size handeshake
  end.

(** The part of [filter_data_] that fills a record whose size is known. *)
Definition fill_uncomplete (q : option (queue uncomplete)) (fd : Z) (u : uncomplete) (buffer : list Z) (size : Z) (handeshake : bool)
    : outcome (result * option (queue uncomplete)) :=
  let need := np_size (uc_pack u) - uc_read u in
  if size <? need then
    '(buffer, n) ← decode_wsmask_data buffer size (uc_mask u) (uc_hasunmask_size u);
    b ← copy_bytes (np_buffer (uc_pack u)) (uc_read u) buffer size;
    q ← save_uncomplete q (UC (Pack (np_id (uc_pack u)) (np_size (uc_pack u)) b) (uc_header u) (uc_header_size u) (uc_read u + size) (uc_mask u) n);
    Ok (RNone, Some q)
  else
    '(buffer, _) ← decode_wsmask_data buffer need (uc_mask u) (uc_hasunmask_size u);
    b ← copy_bytes (np_buffer (uc_pack u)) (uc_read u) buffer need;
    let buffer := drop (Z.to_nat need) buffer in
    let size := size - need in
    if size =? 0 then Ok (RData fd b (np_size (uc_pack u)), q)
    else
      q ← push_data q fd b (np_size (uc_pack u));
      q ← push_more (S (length buffer)) (Some q) fd buffer size handeshake;
      Ok (RMore, Some q).

Definition filter_data_ (q : option (queue uncomplete)) (fd : Z) (buffer : list Z) (size : Z) (handeshake : bool)
    : outcome (result * option (queue uncomplete)) :=
  '(uc, q) ← find_uncomplete q fd;
  match uc with
  | Some u =>
      if uc_read u <? 0 then
        '(header, header_size, index, pack_size, h) ←
          (if 0 <? size then header_loop (Z.to_nat size) (uc_header u) (uc_header_size u) buffer 0 size handeshake
           else Ok (uc_header u, uc_header_size u, 0, 0, None));
        if pack_size =? -1 then
          q ← save_uncomplete q (UC (uc_pack u) header header_size (uc_read u) (uc_mask u) (uc_hasunmask_size u));
          Ok (RNone, Some q)
        else
          block ← ws_malloc pack_size;
          let read := if handeshake then Z.min header_size pack_size else 0 in
          block ← (if handeshake then copy_bytes block 0 header read else Ok block);
          fill_uncomplete q fd
            (UC (Pack (np_id (uc_pack u)) pack_size block) header header_size read (default (0, None) h).2 0)
            (drop (Z.to_nat index) buffer) (size - index) handeshake
      else fill_uncomplete q fd u buffer size handeshake
  | None =>
      '(buffer, size, pack_size, h) ←
        (if handeshake then n ← get_http_header buffer size; Ok (buffer, size, n, None)
         else skip_bad (S (length buffer)) bad_filter buffer size);
      if pack_size =? -1 then
        u ← keep_header fd buffer size;
        q ← save_uncomplete q u;
        Ok (RNone, Some q)
      else
        let '(pack_head_length, mask) := default (0, None) h in
        let buffer := drop (Z.to_nat pack_head_length) buffer in
        let size := size - pack_head_length in
        if (size <? pack_size) && negb handeshake then
          u ← keep_part fd pack_size mask buffer size;
          q ← save_uncomplete q u;
          Ok (RNone, Some q)
        else
          b ← whole pack_size mask buffer;
          if size =? pack_size then Ok (RData fd b size, q)
          else
            q ← push_data q fd b pack_size;
            let buffer := drop (Z.to_nat pack_size) buffer in
            let size := size - pack_size in
            q ← push_more (S (length buffer)) (Some q) fd buffer size handeshake;
            Ok (RMore, Some q)
  end.

(** ** The Lua functions *)

Definition lfilter (q : option (queue uncomplete)) (message : socket_message) (handeshake : Z) : outcome (result * option (queue uncomplete)) :=
  let text := match s_buffer message with Some b => b | None => s_padding message end in
  match s_type message with
  | SData =>
      _ ← c_assert (bool_decide (is_Some (s_buffer message)));
      filter_data_ q (s_id message) text (s_ud message) (negb (handeshake =? 0))
  | SConnect => Ok (RNone, q)
  | SClose => q ← close_uncomplete q (s_id message); Ok (RClose (s_id message), q)
  | SAccept => Ok (ROpen (s_ud message) text, q)
  | SError => q ← close_uncomplete q (s_id message); Ok (RError (s_id message) text, q)
  | SWarning => Ok (RWarning (s_id message) (s_ud message), q)
  | SUdp => Ok (RNone, q)
  end.

Definition FRAME_SET_FIN (b : Z) : Z := Z.shiftl (Z.land b 0x01) 7.
Definition FRAME_SET_OPCODE (b : Z) : Z := Z.land b 0x0F.
Definition FRAME_SET_MASK (b : Z) : Z := Z.shiftl (Z.land b 0x01) 7.
Definition FRAME_SET_LENGTH (x idx : Z) : Z := Z.land (Z.shiftr x (idx * 8)) 0xFF.

Definition lpack (msg : list Z) : list Z :=
  let len := Z.of_nat (length msg) in
  let frame_header :=
    [Z.lor (FRAME_SET_FIN 1) (FRAME_SET_OPCODE 2)] ++
    if len <? 126 then [Z.lor (FRAME_SET_MASK 0) (FRAME_SET_LENGTH len 0)]
    else
      (if len <? 65536 then [Z.lor (FRAME_SET_MASK 0) 126]
       else [Z.lor (FRAME_SET_MASK 0) 127; FRAME_SET_LENGTH len 7; FRAME_SET_LENGTH len 6; FRAME_SET_LENGTH len 5;
             FRAME_SET_LENGTH len 4; FRAME_SET_LENGTH len 3; FRAME_SET_LENGTH len 2]) ++
      [FRAME_SET_LENGTH len 1; FRAME_SET_LENGTH len 0] in
  frame_header ++ msg.

(** [ltostring]: [None] is [NULL]; the block is freed. *)
Definition ltostring (ptr : option (list (option Z))) (size : Z) : outcome (list Z) :=
  match ptr with
  | None => Ok []
  | Some b => b ← mem_read b 0 size; mapM init_read b
  end.

End WsNetpack.
