(* ===== verification/WsFrames.v ===== *)
(** * The frames in a byte string

    The specification of [WsNetpack]: a parser of RFC 6455 frames that sees the
    whole string, and that [read_size] and [decode_wsmask_data] agree with it. *)

From S2P Require Import Prelude Mq Netpack PackStream WsNetpack.
From stdpp Require Import base numbers list gmap.
From Stdlib Require Import ZArith Lia.
#[local] Open Scope Z_scope.
#[local] Open Scope list_scope.
Import Netpack.

(** ** The parser *)

(** A number in network byte order. *)
Definition be (l : list Z) : Z := of_le (rev l).

(** The header at the front: not all there, one the library does not take, or its
    length, the length of the payload and the mask. *)
Inductive frame_hd := Short | Bad | Head (off : nat) (n : Z) (mask : option (list Z)).

(** The bytes of the second length field, and of the mask. *)
Definition ext_len (b1 : Z) : nat := if b1 mod 128 <? 126 then 0%nat else if b1 mod 128 =? 126 then 2%nat else 8%nat.
Definition mask_len (b1 : Z) : nat := if b1 <? 128 then 0%nat else 4%nat.

(** A final frame with no reserved bit that is no continuation, of at most
    [MAX_PACKSIZE] bytes. *)
Definition frame_head (bs : list Z) : frame_hd :=
  match bs with
  | b0 :: b1 :: rest =>
      if negb (b0 / 16 =? 8) || (b0 mod 16 =? 0) then Bad
      else if (length rest <? ext_len b1 + mask_len b1)%nat then Short
      else
        let n := if (ext_len b1 =? 0)%nat then b1 mod 128 else be (take (ext_len b1) rest) in
        if WsNetpack.MAX_PACKSIZE <? n then Bad
        else Head (2 + ext_len b1 + mask_len b1) n
               (if (mask_len b1 =? 0)%nat then None else Some (take (mask_len b1) (drop (ext_len b1) rest)))
  | _ => Short
  end.

(** The payload under a mask, from position [k] on. *)
Definition unmask (mask : option (list Z)) (k : nat) (l : list Z) : list Z :=
  match mask with
  | None => l
  | Some m => imap (fun i x => Z.lxor x (m !!! ((k + i) mod 4)%nat)) l
  end.

Inductive step := Wait | Stuck | Frame (payload rest : list Z).

Definition next (bs : list Z) : step :=
  match frame_head bs with
  | Short => Wait
  | Bad => Stuck
  | Head off n mask =>
      if (length bs <? off + Z.to_nat n)%nat then Wait
      else Frame (unmask mask 0 (take (Z.to_nat n) (drop off bs))) (drop (off + Z.to_nat n) bs)
  end.

(** The complete frames at the front of a byte string, and what is left. *)
Fixpoint frames_fuel (fuel : nat) (bs : list Z) : list (list Z) * list Z :=
  match fuel, next bs with
  | S fuel, Frame p rest => let '(ps, r) := frames_fuel fuel rest in (p :: ps, r)
  | _, _ => ([], bs)
  end.
Definition split_frames (bs : list Z) : list (list Z) * list Z := frames_fuel (length bs) bs.

(** Every frame that has begun is one the library takes. *)
Inductive clean : list Z -> Prop :=
  | clean_wait bs : next bs = Wait -> clean bs
  | clean_frame bs p rest : next bs = Frame p rest -> clean rest -> clean bs.

(** ** Parsing piece by piece *)

Lemma of_le_nonneg l : bytes_ok l -> 0 <= of_le l.
Proof. induction 1 as [|x l Hx _ IH]; cbn [of_le]; [lia|]. unfold is_byte in Hx. lia. Qed.

Lemma frame_head_off bs off n mask : frame_head bs = Head off n mask ->
  (2 <= off <= 14)%nat /\ (off <= length bs)%nat /\ n <= WsNetpack.MAX_PACKSIZE /\
  (match mask with None => True | Some m => length m = 4%nat end).
Proof.
  destruct bs as [|b0 [|b1 rest]]; [done..|]. cbn [frame_head]. destruct (_ || _); [done|].
  destruct (Nat.ltb_spec (length rest) (ext_len b1 + mask_len b1)) as [|Hl]; [done|].
  destruct (Z.ltb_spec WsNetpack.MAX_PACKSIZE (if (ext_len b1 =? 0)%nat then b1 mod 128 else be (take (ext_len b1) rest))) as [|Hn]; [done|].
  intros [= <- <- <-].
  assert (He : (ext_len b1 <= 8)%nat) by (unfold ext_len; destruct (b1 mod 128 <? 126), (b1 mod 128 =? 126); lia).
  assert (Hm : mask_len b1 = 0%nat \/ mask_len b1 = 4%nat) by (unfold mask_len; destruct (b1 <? 128); lia).
  split; [lia|]. split; [cbn [length]; lia|]. split; [done|].
  destruct Hm as [E|E]; rewrite E in *; cbn [Nat.eqb]; [done|]. rewrite length_take, length_drop. lia.
Qed.

Lemma frame_head_nonneg bs off n mask : frame_head bs = Head off n mask -> bytes_ok bs -> 0 <= n.
Proof.
  destruct bs as [|b0 [|b1 rest]]; [done..|]. cbn [frame_head].
  destruct (_ || _); [done|]. destruct (_ <? _)%nat; [done|]. destruct (_ <? _); [done|].
  intros [= _ <- _] Hb. inversion Hb as [|? ? _ Hb']; subst. inversion Hb' as [|? ? _ Hr]; subst.
  destruct (_ =? 0)%nat; [apply Z.mod_pos_bound; lia|]. apply of_le_nonneg, Forall_rev. by apply Forall_take.
Qed.

Lemma frame_head_app bs more : frame_head bs <> Short -> frame_head (bs ++ more) = frame_head bs.
Proof.
  destruct bs as [|b0 [|b1 rest]]; [done..|]. cbn [frame_head app]. destruct (_ || _); [done|].
  destruct (Nat.ltb_spec (length rest) (ext_len b1 + mask_len b1)) as [|Hl]; [done|]. intros _.
  rewrite length_app. destruct (Nat.ltb_spec (length rest + length more) (ext_len b1 + mask_len b1)); [lia|].
  rewrite take_app_le, drop_app_le, take_app_le by (rewrite ?length_drop; lia). done.
Qed.

Lemma frame_head_take bs off n mask : frame_head bs = Head off n mask -> frame_head (take off bs) = Head off n mask.
Proof.
  intros E. destruct (frame_head_off _ _ _ _ E) as (_ & Ho & _). revert E.
  destruct bs as [|b0 [|b1 rest]]; [done..|]. cbn [frame_head]. destruct (_ || _) eqn:Ef; [done|].
  destruct (Nat.ltb_spec (length rest) (ext_len b1 + mask_len b1)) as [|Hl]; [done|]. destruct (_ <? _) eqn:En; [done|].
  intros [= <- <- <-]. cbn [Nat.add take frame_head]. rewrite Ef, length_take_le by done.
  destruct (Nat.ltb_spec (ext_len b1 + mask_len b1) (ext_len b1 + mask_len b1)); [lia|].
  rewrite take_take, Nat.min_l by lia. rewrite En, <- take_drop_commute, take_take, Nat.min_id. done.
Qed.

(** A header is complete with its last byte. *)
Lemma frame_head_last bs b off n mask : frame_head bs = Short -> frame_head (bs ++ [b]) = Head off n mask -> off = S (length bs).
Proof.
  destruct bs as [|b0 [|b1 rest]]; [done| |].
  - intros _. cbn [app frame_head]. destruct (_ || _); [done|]. cbn [length].
    destruct (Nat.ltb_spec 0 (ext_len b + mask_len b)); [done|]. destruct (_ <? _); [done|]. intros [= <- _ _]. lia.
  - cbn [app frame_head]. destruct (_ || _); [done|]. rewrite length_app. cbn [length].
    destruct (Nat.ltb_spec (length rest) (ext_len b1 + mask_len b1)) as [Hl|Hl]; [|by destruct (_ <? _)]. intros _.
    destruct (Nat.ltb_spec (length rest + 1) (ext_len b1 + mask_len b1)) as [|Hg]; [done|].
    destruct (_ <? _); [done|]. intros [= <- _ _]. lia.
Qed.

Lemma frame_head_short bs : frame_head bs = Short -> (length bs < 14)%nat.
Proof.
  destruct bs as [|b0 [|b1 rest]]; [cbn; lia..|]. cbn [frame_head length]. destruct (_ || _); [done|].
  destruct (Nat.ltb_spec (length rest) (ext_len b1 + mask_len b1)) as [Hl|Hl]; [|by destruct (_ <? _)]. intros _.
  unfold ext_len, mask_len in Hl. destruct (b1 mod 128 <? 126), (b1 mod 128 =? 126), (b1 <? 128); lia.
Qed.

Lemma next_frame_app bs p rest more : next bs = Frame p rest -> next (bs ++ more) = Frame p (rest ++ more).
Proof.
  unfold next. destruct (frame_head bs) as [| |off n mask] eqn:E; [done..|]. rewrite frame_head_app, E by (by rewrite E).
  destruct (Nat.ltb_spec (length bs) (off + Z.to_nat n)) as [|Hl]; [done|]. intros [= <- <-].
  rewrite length_app. destruct (Nat.ltb_spec (length bs + length more) (off + Z.to_nat n)); [lia|].
  rewrite !drop_app_le, take_app_le by (rewrite ?length_drop; lia). done.
Qed.

Lemma next_stuck_app bs more : next bs = Stuck -> next (bs ++ more) = Stuck.
Proof.
  unfold next. destruct (frame_head bs) as [| |off n mask] eqn:E; [done| |by destruct (_ <? _)%nat].
  by rewrite frame_head_app, E by (by rewrite E).
Qed.

Lemma next_rest bs p rest : next bs = Frame p rest -> (2 + length rest <= length bs)%nat /\ exists k, rest = drop k bs.
Proof.
  unfold next. destruct (frame_head bs) as [| |off n mask] eqn:E; [done..|].
  destruct (Nat.ltb_spec (length bs) (off + Z.to_nat n)) as [|Hl]; [done|]. intros [= _ <-]. split; [|eauto].
  rewrite length_drop. destruct (frame_head_off _ _ _ _ E) as (? & ? & _). lia.
Qed.

Lemma frames_fuel_more fuel : forall fuel' bs, (length bs <= fuel)%nat -> (length bs <= fuel')%nat ->
  frames_fuel fuel bs = frames_fuel fuel' bs.
Proof.
  induction fuel as [|fuel IH]; intros fuel' bs H1 H2.
  - destruct bs; [|cbn in H1; lia]. by destruct fuel'.
  - destruct fuel' as [|fuel']; [destruct bs; [done|cbn in H2; lia]|]. cbn [frames_fuel].
    destruct (next bs) as [| |p rest] eqn:E; [done..|]. destruct (next_rest _ _ _ E) as [Hl _].
    rewrite (IH fuel') by lia. done.
Qed.

(** One step of the parser. *)
Lemma split_frames_step bs : split_frames bs =
  match next bs with
  | Frame p rest => (p :: (split_frames rest).1, (split_frames rest).2)
  | _ => ([], bs)
  end.
Proof.
  unfold split_frames. destruct bs as [|b bs]; [done|]. cbn [length]. remember (S (length bs)) as fuel eqn:Ef. destruct fuel as [|fuel]; [done|].
  cbn [frames_fuel]. destruct (next (b :: bs)) as [| |p rest] eqn:E; [done..|].
  destruct (next_rest _ _ _ E) as [Hl _]. cbn [length] in Hl.
  rewrite (frames_fuel_more fuel (length rest) rest) by lia. by destruct (frames_fuel _ _).
Qed.

(** Induction along the frames of a string. *)
Lemma frames_ind (P : list Z -> Prop) :
  (forall bs, (forall p rest, next bs = Frame p rest -> P rest) -> P bs) -> forall bs, P bs.
Proof.
  intros Hstep bs. induction bs as [bs IH] using (well_founded_ind (well_founded_ltof _ (@length Z))).
  apply Hstep. intros p rest E. apply IH. unfold ltof. destruct (next_rest _ _ _ E) as [Hl _]. lia.
Qed.

(** What is left has no complete frame in it. *)
Lemma frames_rest bs : split_frames (split_frames bs).2 = ([], (split_frames bs).2).
Proof.
  induction bs as [bs IH] using frames_ind. rewrite (split_frames_step bs).
  destruct (next bs) as [| |p rest] eqn:E; cbn [snd]; [by rewrite split_frames_step, E..|]. by eapply IH.
Qed.

(** More bytes are parsed where the last ones left off. *)
Lemma frames_app bs more : split_frames (bs ++ more)
  = ((split_frames bs).1 ++ (split_frames ((split_frames bs).2 ++ more)).1, (split_frames ((split_frames bs).2 ++ more)).2).
Proof.
  induction bs as [bs IH] using frames_ind. rewrite (split_frames_step bs).
  destruct (next bs) as [| |p rest] eqn:E; cbn [fst snd app]; [apply surjective_pairing..|].
  rewrite (split_frames_step (bs ++ more)), (next_frame_app _ _ _ _ E), (IH _ _ eq_refl). done.
Qed.

Lemma frames_suffix bs : exists k, (split_frames bs).2 = drop k bs.
Proof.
  induction bs as [bs IH] using frames_ind. rewrite (split_frames_step bs).
  destruct (next bs) as [| |p rest] eqn:E; cbn [snd]; [by exists 0%nat..|].
  destruct (IH _ _ eq_refl) as [k ->]. destruct (next_rest _ _ _ E) as [_ [j ->]]. rewrite drop_drop. eauto.
Qed.

Lemma clean_prefix bs more : clean (bs ++ more) -> clean bs.
Proof.
  induction bs as [bs IH] using frames_ind. intros Hc. destruct (next bs) as [| |p rest] eqn:E.
  - by apply clean_wait.
  - apply (next_stuck_app _ more) in E. inversion Hc; congruence.
  - eapply clean_frame; [done|]. eapply IH; [done|]. apply (next_frame_app _ _ _ more) in E.
    inversion Hc as [|? ? ? E']; congruence.
Qed.

Lemma clean_next bs more : clean (bs ++ more) -> clean ((split_frames bs).2 ++ more).
Proof.
  induction bs as [bs IH] using frames_ind. intros Hc. rewrite split_frames_step.
  destruct (next bs) as [| |p rest] eqn:E; cbn [snd]; [done..|]. eapply IH; [done|].
  apply (next_frame_app _ _ _ more) in E. inversion Hc as [|? ? ? E']; congruence.
Qed.

Lemma clean_frames_cons bs p rest : clean bs -> next bs = Frame p rest -> clean rest.
Proof. intros Hc E. inversion Hc; congruence. Qed.

Lemma clean_not_bad bs : clean bs -> frame_head bs <> Bad.
Proof. intros Hc E. assert (next bs = Stuck) by (unfold next; by rewrite E). inversion Hc; congruence. Qed.

(** Parsing a non-empty chunk leaves something or yields frames. *)
Lemma frames_nonempty bs : bs <> [] -> (split_frames bs).1 <> [] \/ (split_frames bs).2 <> [].
Proof. intros Hne. rewrite split_frames_step. destruct (next bs); cbn [fst snd]; [by right..|by left]. Qed.

(** ** Byte order *)

Lemma of_le_app a b : of_le (a ++ b) = of_le a + 256 ^ Z.of_nat (length a) * of_le b.
Proof.
  induction a as [|x a IH]; cbn [app of_le length]; [change (256 ^ Z.of_nat 0) with 1; lia|].
  rewrite IH, Nat2Z.inj_succ, Z.pow_succ_r by lia. ring.
Qed.

Lemma of_le_bound l : bytes_ok l -> 0 <= of_le l < 256 ^ Z.of_nat (length l).
Proof.
  induction 1 as [|x l Hx _ IH]; [cbn; lia|]. unfold is_byte in Hx. cbn [of_le length].
  rewrite Nat2Z.inj_succ, Z.pow_succ_r by lia. lia.
Qed.

Lemma ntohs_be l : bytes_ok l -> length l = 2%nat -> WsNetpack.ntohs (of_le l) = be l.
Proof. intros Hb Hl. unfold WsNetpack.ntohs, be. by rewrite <- Hl, to_le_of_le. Qed.

Lemma ntohl_be l : bytes_ok l -> length l = 4%nat -> WsNetpack.ntohl (of_le l) = be l.
Proof. intros Hb Hl. unfold WsNetpack.ntohl, be. by rewrite <- Hl, to_le_of_le. Qed.

Lemma ntoh64_be l : bytes_ok l -> length l = 8%nat -> WsNetpack.ntoh64 (of_le l) = be l.
Proof.
  intros Hb Hl. rewrite <- (take_drop 4 l) in Hb |- *. set (a := take 4 l) in *. set (b := drop 4 l) in *.
  assert (La : length a = 4%nat) by (subst a; rewrite length_take; lia).
  assert (Lb : length b = 4%nat) by (subst b; rewrite length_drop; lia). apply Forall_app in Hb as [Ha Hb].
  pose proof (of_le_bound a Ha) as Ba. pose proof (of_le_bound b Hb) as Bb. rewrite La in Ba. rewrite Lb in Bb.
  unfold WsNetpack.ntoh64. rewrite of_le_app, La. change (256 ^ Z.of_nat 4) with (2^32) in *.
  change 4294967295 with (2^32 - 1). rewrite !land_mask, Z.shiftr_div_pow2 by lia.
  rewrite (Z.mul_comm (2^32)), Z_mod_plus_full, Z.div_add, (Z.div_small (of_le a)), Z.add_0_l, !Z.mod_small by lia.
  rewrite !ntohl_be by done. unfold be. rewrite rev_app_distr, of_le_app, length_rev, Lb. change (256 ^ Z.of_nat 4) with (2^32).
  pose proof (of_le_bound (rev b) ltac:(by apply Forall_rev)) as Br. rewrite length_rev, Lb in Br. change (256 ^ Z.of_nat 4) with (2^32) in Br.
  rewrite Z.shiftl_mul_pow2, Z.lor_comm, lor_disjoint by lia. lia.
Qed.

Lemma all_bytes (P : Z -> bool) b : forallb P (seqZ 0 256) = true -> is_byte b -> P b = true.
Proof. intros H Hb. rewrite forallb_forall in H. apply H, list_elem_of_In, elem_of_seqZ. unfold is_byte in Hb. lia. Qed.

(** ** The C functions agree *)

(** The tests of [read_size] on the first byte, as one. *)
Definition refused (b0 : Z) : bool :=
  (negb (Z.land (Z.shiftr b0 6) 0x1 =? 0) || negb (Z.land (Z.shiftr b0 5) 0x1 =? 0) || negb (Z.land (Z.shiftr b0 4) 0x1 =? 0))
  || ((Z.land (Z.shiftr b0 7) 0x1 =? 0) || (Z.land b0 0xf =? 0)).

Lemma refused_ok b0 : is_byte b0 -> refused b0 = negb (b0 / 16 =? 8) || (b0 mod 16 =? 0).
Proof.
  intros Hb. apply eqb_prop. revert b0 Hb. intros b0. apply (all_bytes (fun b => Bool.eqb (refused b) (negb (b / 16 =? 8) || (b mod 16 =? 0)))).
  vm_compute. reflexivity.
Qed.

Lemma mask_bit b1 : is_byte b1 -> negb (Z.land (Z.shiftr b1 7) 0x1 =? 0) = negb (mask_len b1 =? 0)%nat.
Proof.
  intros Hb. apply eqb_prop. revert b1 Hb. intros b1.
  apply (all_bytes (fun b => Bool.eqb (negb (Z.land (Z.shiftr b 7) 0x1 =? 0)) (negb (mask_len b =? 0)%nat))). vm_compute. reflexivity.
Qed.

Lemma mem_read_take {A} (a l junk : list A) k off n : off = Z.of_nat (length a) -> n = Z.of_nat k -> (k <= length l)%nat ->
  mem_read (a ++ l ++ junk) off n = Ok (take k l).
Proof.
  intros -> -> Hk. pose proof (mem_read_ok a (take k l) (drop k l ++ junk)) as E.
  by rewrite length_take_le, (app_assoc (take k l)), take_drop in E by done.
Qed.

(** [read_size] up to the mask: nothing, or the length and where it ends. *)
Lemma read_length b0 b1 rest junk : bytes_ok rest -> 0 <= b1 < 256 ->
  let size := Z.of_nat (length (b0 :: b1 :: rest)) in
  let length' := b1 mod 128 in
  let n := if (ext_len b1 =? 0)%nat then b1 mod 128 else be (take (ext_len b1) rest) in
  (if length' <? 0x7E then Ok (Some (length', WsNetpack.WEBSOCKET_HEADER_LEN))
   else if length' =? 0x7E then
     if size <? WsNetpack.WEBSOCKET_HEADER_LEN + 2 then Ok None
     else b ← mem_read (b0 :: b1 :: rest ++ junk) WsNetpack.WEBSOCKET_HEADER_LEN 2;
          Ok (Some (WsNetpack.ntohs (of_le b), WsNetpack.WEBSOCKET_HEADER_LEN + 2))
   else
     if size <? WsNetpack.WEBSOCKET_HEADER_LEN + 8 then Ok None
     else b ← mem_read (b0 :: b1 :: rest ++ junk) WsNetpack.WEBSOCKET_HEADER_LEN 8;
          Ok (Some (i32 (WsNetpack.ntoh64 (of_le b)), WsNetpack.WEBSOCKET_HEADER_LEN + 8)))
  = Ok (if (length rest <? ext_len b1)%nat then None
        else Some (if (ext_len b1 =? 8)%nat then i32 n else n, Z.of_nat (2 + ext_len b1))).
Proof.
  intros Hr Hb. cbv zeta. unfold ext_len, WsNetpack.WEBSOCKET_HEADER_LEN. cbn [length].
  destruct (Z.ltb_spec (b1 mod 128) 126) as [Hs|Hs]; [done|].
  assert (Hread : forall k n, n = Z.of_nat k -> (k <= length rest)%nat -> mem_read (b0 :: b1 :: rest ++ junk) 2 n = Ok (take k rest)).
  { intros k n En Hk. exact (mem_read_take [b0; b1] rest junk k 2 n eq_refl En Hk). }
  destruct (Z.eqb_spec (b1 mod 128) 126) as [He|He]; cbn [Nat.eqb].
  - destruct (Nat.ltb_spec (length rest) 2); destruct (Z.ltb_spec (Z.of_nat (S (S (length rest)))) (2 + 2)); try lia; [done|].
    rewrite (Hread 2%nat), bind_ret, ntohs_be by (done || lia || (rewrite length_take; lia) || by apply Forall_take). done.
  - destruct (Nat.ltb_spec (length rest) 8); destruct (Z.ltb_spec (Z.of_nat (S (S (length rest)))) (2 + 8)); try lia; [done|].
    rewrite (Hread 8%nat), bind_ret, ntoh64_be by (done || lia || (rewrite length_take; lia) || by apply Forall_take). done.
Qed.

Lemma ws_read_size bs junk : bytes_ok bs -> frame_head bs <> Bad ->
  WsNetpack.read_size (bs ++ junk) (Z.of_nat (length bs)) =
    match frame_head bs with
    | Head off n mask => Ok (n, Some (Z.of_nat off, mask))
    | _ => Ok (-1, None)
    end.
Proof.
  intros Hb Hnb. destruct bs as [|b0 [|b1 rest]]; [done..|]. apply Forall_cons in Hb as [H0 [H1 Hr]%Forall_cons].
  unfold WsNetpack.read_size. cbn [app]. destruct (Z.ltb_spec (Z.of_nat (length (b0 :: b1 :: rest))) 2) as [Hl|_]; [cbn [length] in Hl; lia|].
  rewrite (arr_get_ok _ 0 b0), bind_ret, (arr_get_ok _ 1 b1), bind_ret by (lia || done). cbv zeta.
  pose proof (refused_ok b0 H0) as Eref. unfold refused in Eref. revert Hnb. cbn [frame_head]. rewrite <- Eref.
  destruct (negb (Z.land (Z.shiftr b0 6) 1 =? 0) || _ || _); [done|]. cbn [orb].
  destruct (_ || _); [done|]. clear Eref. rewrite mask_bit by done.
  change 127 with (2^7 - 1). rewrite land_mask by lia. change (2^7) with 128.
  pose proof (read_length b0 b1 rest junk Hr H1) as E. cbv zeta in E. rewrite E, bind_ret. clear E.
  set (n := if (ext_len b1 =? 0)%nat then b1 mod 128 else be (take (ext_len b1) rest)). intros Hnb.
  unfold WsNetpack.WEBSOCKET_MASK_LEN. cbn [length].
  destruct (Nat.ltb_spec (length rest) (ext_len b1)) as [Hlt|Hge].
  { destruct (Nat.ltb_spec (length rest) (ext_len b1 + mask_len b1)); [done|lia]. }
  assert (Hmask : mask_len b1 = 0%nat \/ mask_len b1 = 4%nat) by (unfold mask_len; destruct (b1 <? 128); lia).
  assert (En : (mask_len b1 <= length rest - ext_len b1)%nat -> (if (ext_len b1 =? 8)%nat then i32 n else n) = n).
  { intros Hm. destruct (Nat.eqb_spec (ext_len b1) 8) as [E8|_]; [|done]. apply i32_small.
    destruct (Nat.ltb_spec (length rest) (ext_len b1 + mask_len b1)); [lia|].
    destruct (Z.ltb_spec WsNetpack.MAX_PACKSIZE n) as [|Hn]; [done|]. split; [|unfold WsNetpack.MAX_PACKSIZE in Hn; lia].
    subst n. rewrite E8. cbn [Nat.eqb]. apply of_le_nonneg, Forall_rev. by apply Forall_take. }
  destruct Hmask as [Em|Em]; rewrite Em in *; cbn [Nat.eqb negb].
  - rewrite En by lia. destruct (Nat.ltb_spec (length rest) (ext_len b1 + 0)); [lia|].
    destruct (WsNetpack.MAX_PACKSIZE <? n); [done|]. by rewrite Nat.add_0_r.
  - destruct (Nat.ltb_spec (length rest) (ext_len b1 + 4)) as [Hs|Hs];
      destruct (Z.ltb_spec (Z.of_nat (S (S (length rest)))) (Z.of_nat (2 + ext_len b1) + 4)); try lia; [done|].
    rewrite En by lia. destruct (WsNetpack.MAX_PACKSIZE <? n); [done|].
    replace (b0 :: b1 :: rest ++ junk) with ((b0 :: b1 :: take (ext_len b1) rest) ++ drop (ext_len b1) rest ++ junk)
      by (cbn [app]; by rewrite app_assoc, take_drop).
    rewrite (mem_read_take _ _ _ 4), bind_ret by (cbn [length]; rewrite ?length_take_le, ?length_drop; lia).
    do 4 f_equal. lia.
Qed.

Lemma unmask_length mask k l : length (unmask mask k l) = length l.
Proof. destruct mask; [apply length_imap|done]. Qed.

Lemma unmask_app mask k a b : unmask mask k (a ++ b) = unmask mask k a ++ unmask mask (k + length a) b.
Proof.
  destruct mask as [m|]; [|done]. unfold unmask. rewrite imap_app. f_equal. apply imap_ext. intros i x _. cbn.
  by rewrite Nat.add_assoc.
Qed.

(** What [hasunmask_size] is after [n] bytes. *)
Definition unmasked (mask : option (list Z)) (n : nat) : Z := match mask with None => 0 | Some _ => Z.of_nat n end.

Lemma decode_ok mask l rest k : (match mask with None => True | Some m => length m = 4%nat end) ->
  WsNetpack.decode_wsmask_data (l ++ rest) (Z.of_nat (length l)) mask (unmasked mask k)
    = Ok (unmask mask k l ++ rest, unmasked mask (k + length l)).
Proof.
  destruct mask as [m|]; [|done]. intros Hm. unfold WsNetpack.decode_wsmask_data, unmasked. rewrite Nat2Z.id.
  edestruct (for_loop_inv (fun i buf => 0 <= i <= Z.of_nat (length l) /\
    buf = unmask (Some m) k (take (Z.to_nat i) l) ++ drop (Z.to_nat i) l ++ rest) (fun i buf => x ← arr_get buf i; m' ← arr_get m (Z.rem (i + Z.of_nat k) WsNetpack.WEBSOCKET_MASK_LEN); arr_set buf i (Z.lxor x m'))
    (length l) 0 (l ++ rest)) as (b & -> & _ & ->).
  - split; [lia|]. done.
  - intros j s Hj [_ ->]. remember (Z.to_nat j) as i eqn:Ei. destruct (lookup_lt_is_Some_2 l i) as [x Hx]; [lia|].
    rewrite (drop_S _ _ _ Hx). cbn [app].
    assert (Hlen : length (unmask (Some m) k (take i l)) = i) by (rewrite unmask_length, length_take_le; lia).
    rewrite (arr_get_ok _ j x); [|lia|rewrite lookup_app_r by lia; by rewrite Hlen, <- Ei, Nat.sub_diag].
    rewrite bind_ret. unfold WsNetpack.WEBSOCKET_MASK_LEN.
    assert (Hr : Z.rem (j + Z.of_nat k) 4 = Z.of_nat ((k + i) mod 4)).
    { rewrite Z.rem_mod_nonneg by lia. rewrite Nat2Z.inj_mod. f_equal. lia. }
    destruct (lookup_lt_is_Some_2 m ((k + i) mod 4)%nat) as [y Hy]; [rewrite Hm; apply Nat.mod_upper_bound; lia|].
    rewrite Hr, (arr_get_ok _ _ y) by (lia || by rewrite Nat2Z.id). rewrite bind_ret.
    rewrite arr_set_ok by (rewrite length_app, Hlen; cbn [length]; lia). eexists. split; [done|]. split; [lia|].
    replace (Z.to_nat (j + 1)) with (S i) by lia. rewrite (take_S_r _ _ _ Hx), unmask_app, length_take_le by lia.
    rewrite insert_app_r_alt by lia. rewrite Hlen, <- Ei, Nat.sub_diag. cbn [insert list_insert].
    rewrite <- app_assoc. f_equal. cbn [unmask imap app]. rewrite Nat.add_0_r. by rewrite (list_lookup_total_correct _ _ _ Hy).
  - rewrite Z.add_0_l, Nat2Z.id, take_ge, drop_ge, bind_ret by lia. cbn [app]. do 2 f_equal. lia.
Qed.

Lemma keep_header_bytes fd bs : Z.of_nat (length bs) <= WsNetpack.HEADERSIZE ->
  exists junk, WsNetpack.keep_header fd bs (Z.of_nat (length bs))
      = Ok (WsNetpack.UC (Pack fd 0 []) (bs ++ junk) (Z.of_nat (length bs)) (-1) None 0) /\
    Z.of_nat (length (bs ++ junk)) = WsNetpack.HEADERSIZE.
Proof.
  unfold WsNetpack.HEADERSIZE. intros Hl. unfold WsNetpack.keep_header.
  pose proof (mem_read_ok [] bs []) as Er. cbn [app length] in Er. rewrite app_nil_r in Er. change (Z.of_nat 0) with 0 in Er.
  rewrite Er, bind_ret. change (Z.to_nat WsNetpack.HEADERSIZE) with 1024%nat.
  replace 1024%nat with (length bs + (1024 - length bs))%nat by lia. rewrite replicate_add.
  pose proof (mem_write_ok [] (replicate (length bs) 0) (replicate (1024 - length bs) 0) bs (length_replicate _ _)) as Ew.
  cbn [app length] in Ew. change (Z.of_nat 0) with 0 in Ew. rewrite Ew, bind_ret. eexists. split; [done|].
  rewrite length_app, length_replicate. lia.
Qed.
