(* ===== verification/WsNetpackProofs.v ===== *)
(** * Correctness of the websocket splitter

    [WsNetpack] behind the interface [Splitter]: fed the streams of many clients in
    any pieces, it hands out the payloads of their frames. *)

From S2P Require Import Prelude Mq Netpack PackStream WsNetpack WsFrames.
From stdpp Require Import base numbers list gmap.
From Stdlib Require Import ZArith Lia.
#[local] Open Scope Z_scope.
#[local] Open Scope list_scope.
Import Netpack WsNetpack.

(** The record of a connection and the bytes of the incomplete frame it stands for. *)
Inductive ws_repr (fd : Z) : uncomplete -> list Z -> Prop :=
  | wr_head p junk : frame_head p = Short -> Z.of_nat (length (p ++ junk)) = HEADERSIZE ->
      ws_repr fd (UC (Pack fd 0 []) (p ++ junk) (Z.of_nat (length p)) (-1) None 0) p
  | wr_body p header header_size off n mask data : frame_head p = Head off n mask -> data = drop off p ->
      Z.of_nat (length data) < n ->
      ws_repr fd (UC (Pack fd n ((Some <$> unmask mask 0 data) ++ replicate (Z.to_nat n - length data) None))
                     header header_size (Z.of_nat (length data)) mask (unmasked mask (length data))) p.

Lemma ws_repr_id fd u p : ws_repr fd u p -> pending_id u = fd.
Proof. by destruct 1. Qed.

(** ** The pieces of a call *)

Definition hd_val (bs : list Z) : Z * option head :=
  match frame_head bs with Head off n mask => (n, Some (Z.of_nat off, mask)) | _ => (-1, None) end.

Definition takes (bad : Z -> bool) : Prop := forall n, -1 <= n <= MAX_PACKSIZE -> bad n = false.

Lemma bad_more_takes : takes bad_more.
Proof. intros n Hn. unfold bad_more. destruct (Z.leb_spec n (-2)), (Z.ltb_spec MAX_PACKSIZE n); lia || done. Qed.
Lemma bad_filter_takes : takes bad_filter.
Proof. intros n Hn. unfold bad_filter. destruct (Z.eqb_spec n (-2)), (Z.ltb_spec MAX_PACKSIZE n); lia || done. Qed.

Lemma hd_val_taken bad bs : takes bad -> bytes_ok bs -> bad (hd_val bs).1 = false.
Proof.
  intros Ht Hb. apply Ht. unfold hd_val, MAX_PACKSIZE. destruct (frame_head bs) as [| |off n mask] eqn:E; cbn [fst]; [lia..|].
  pose proof (frame_head_nonneg _ _ _ _ E Hb). destruct (frame_head_off _ _ _ _ E) as (_ & _ & Hn & _). unfold MAX_PACKSIZE in Hn. lia.
Qed.

Lemma read_hd bs junk : bytes_ok bs -> clean bs -> read_size (bs ++ junk) (Z.of_nat (length bs)) = Ok (hd_val bs).
Proof.
  intros Hb Hc. rewrite ws_read_size by (done || by apply clean_not_bad). unfold hd_val. by destruct (frame_head bs).
Qed.

Lemma skip_bad_ok bad bs fuel : takes bad -> bytes_ok bs -> clean bs ->
  skip_bad (S fuel) bad bs (Z.of_nat (length bs)) = Ok (bs, Z.of_nat (length bs), (hd_val bs).1, (hd_val bs).2).
Proof.
  intros Ht Hb Hc. cbn [skip_bad]. pose proof (read_hd bs [] Hb Hc) as E. rewrite app_nil_r in E. rewrite E, bind_ret.
  pose proof (hd_val_taken bad bs Ht Hb) as Eb. destruct (hd_val bs) as [n h]. cbn [fst snd] in *. by rewrite Eb.
Qed.

Lemma malloc_ok n : 0 <= n -> ws_malloc n = Ok (malloc_bytes n).
Proof. intros Hn. unfold ws_malloc, PREFIX_SIZE. destruct (Z.ltb_spec (n + 4) 0); [lia|done]. Qed.

Lemma keep_header_ok fd bs : frame_head bs = Short ->
  exists u, keep_header fd bs (Z.of_nat (length bs)) = Ok u /\ ws_repr fd u bs.
Proof.
  intros E. pose proof (frame_head_short bs E) as Hl. destruct (keep_header_bytes fd bs) as (junk & -> & Hlen); [unfold HEADERSIZE; lia|].
  eexists. split; [done|]. by constructor.
Qed.

(** The bytes behind a header, unmasked as far as [m] goes. *)
Lemma decode_at mask l k m : (match mask with None => True | Some m => length m = 4%nat end) -> 0 <= m <= Z.of_nat (length l) ->
  decode_wsmask_data l m mask (unmasked mask k) = Ok (unmask mask k (take (Z.to_nat m) l) ++ drop (Z.to_nat m) l, unmasked mask (k + Z.to_nat m)).
Proof.
  intros Hm Hl. pose proof (decode_ok mask (take (Z.to_nat m) l) (drop (Z.to_nat m) l) k Hm) as E.
  rewrite take_drop, length_take_le, Z2Nat.id in E by lia. done.
Qed.

Lemma decode_start mask l m : (match mask with None => True | Some m => length m = 4%nat end) -> 0 <= m <= Z.of_nat (length l) ->
  decode_wsmask_data l m mask 0 = Ok (unmask mask 0 (take (Z.to_nat m) l) ++ drop (Z.to_nat m) l, unmasked mask (Z.to_nat m)).
Proof. intros Hm Hl. replace 0 with (unmasked mask 0) at 1 by by destruct mask. by rewrite decode_at. Qed.

(** The block of a record, with the next bytes in it. *)
Lemma copy_unmasked mask data m src k :
  0 <= k -> (Z.to_nat k <= m)%nat -> k <= Z.of_nat (length src) ->
  copy_bytes ((Some <$> unmask mask 0 data) ++ replicate m None) (Z.of_nat (length data)) src k
    = Ok ((Some <$> (unmask mask 0 data ++ take (Z.to_nat k) src)) ++ replicate (m - Z.to_nat k) None).
Proof. intros. rewrite <- copy_at by done. by rewrite unmask_length. Qed.

Lemma unmask_join mask a b : unmask mask 0 a ++ unmask mask (length a) b = unmask mask 0 (a ++ b).
Proof. symmetry. apply unmask_app. Qed.

Lemma keep_part_ok fd bs off n mask : frame_head bs = Head off n mask -> (Z.of_nat (length bs) - Z.of_nat off) < n ->
  exists u, keep_part fd n mask (drop off bs) (Z.of_nat (length bs) - Z.of_nat off) = Ok u /\ ws_repr fd u bs.
Proof.
  intros E Hl. destruct (frame_head_off _ _ _ _ E) as (_ & Ho & _ & Hm). unfold keep_part.
  rewrite malloc_ok, bind_ret by lia. remember (drop off bs) as data eqn:Ed.
  assert (El : Z.of_nat (length bs) - Z.of_nat off = Z.of_nat (length data)) by (subst data; rewrite length_drop; lia). rewrite El in *.
  rewrite decode_start, bind_ret, Nat2Z.id, take_ge, drop_ge, app_nil_r by (done || lia).
  rewrite copy_fresh, bind_ret, Nat2Z.id, take_ge by (rewrite ?unmask_length; lia).
  eexists. split; [done|]. by econstructor.
Qed.

Lemma whole_ok bs off n mask : frame_head bs = Head off n mask -> bytes_ok bs -> n <= Z.of_nat (length bs) - Z.of_nat off ->
  whole n mask (drop off bs) = Ok (Some <$> unmask mask 0 (take (Z.to_nat n) (drop off bs))).
Proof.
  intros E Hb Hl. destruct (frame_head_off _ _ _ _ E) as (_ & Ho & _ & Hm). pose proof (frame_head_nonneg _ _ _ _ E Hb) as Hn. unfold whole.
  rewrite decode_start by (rewrite ?length_drop; done || lia). rewrite bind_ret, malloc_ok, bind_ret by done.
  rewrite copy_fresh by (rewrite ?length_app, ?unmask_length, ?length_take, ?length_drop; lia).
  rewrite Nat.sub_diag. cbn [replicate]. rewrite app_nil_r, take_app_length' by (rewrite unmask_length, length_take, length_drop; lia). done.
Qed.

(** One step of the parser in the terms of the code. *)
Lemma frames_head bs : clean bs -> bytes_ok bs ->
  (frame_head bs = Short /\ hd_val bs = (-1, None) /\ split_frames bs = ([], bs)) \/
  exists off n mask, frame_head bs = Head off n mask /\ hd_val bs = (n, Some (Z.of_nat off, mask)) /\ 0 <= n /\
    (off <= length bs)%nat /\
    if Z.of_nat (length bs) - Z.of_nat off <? n then split_frames bs = ([], bs)
    else let rest := drop (Z.to_nat n) (drop off bs) in
      clean rest /\ bytes_ok rest /\ (2 + length rest <= length bs)%nat /\
      split_frames bs = (unmask mask 0 (take (Z.to_nat n) (drop off bs)) :: (split_frames rest).1, (split_frames rest).2).
Proof.
  intros Hc Hb. pose proof (clean_not_bad bs Hc) as Hnb. unfold hd_val.
  assert (Es := split_frames_step bs). destruct (frame_head bs) as [| |off n mask] eqn:E; [left|done|right].
  - split; [done|]. split; [done|]. rewrite Es. unfold next. by rewrite E.
  - pose proof (frame_head_nonneg _ _ _ _ E Hb) as Hn. destruct (frame_head_off _ _ _ _ E) as (Ho & Ho' & _).
    exists off, n, mask. do 4 (split; [done|]).
    assert (En : next bs = if (length bs <? off + Z.to_nat n)%nat then Wait
      else Frame (unmask mask 0 (take (Z.to_nat n) (drop off bs))) (drop (off + Z.to_nat n) bs)) by (unfold next; by rewrite E).
    destruct (Z.ltb_spec (Z.of_nat (length bs) - Z.of_nat off) n) as [Hl|Hl];
      destruct (Nat.ltb_spec (length bs) (off + Z.to_nat n)); try lia; rewrite En in Es; [done|].
    rewrite drop_drop. split; [by eapply clean_frames_cons|]. split; [by apply Forall_drop|]. split; [|done].
    rewrite length_drop. lia.
Qed.

Lemma nonempty_length (bs : list Z) : bs <> [] -> (0 < length bs)%nat.
Proof. destruct bs; [done|cbn; lia]. Qed.

Lemma ws_push_more_ok fd fuel : forall q bs pend items,
  q_repr ws_repr q pend items -> fd_ok fd -> pend fd = [] -> bs <> [] -> bytes_ok bs -> clean bs ->
  (length bs <= fuel)%nat -> cap q <= 2^30 /\ Z.of_nat (length items) + Z.of_nat (length bs) + QUEUESIZE <= 2^30 ->
  exists q', push_more fuel (Some q) fd bs (Z.of_nat (length bs)) false = Ok q' /\
    q_repr ws_repr q' (upd fd (split_frames bs).2 pend) (items ++ (mk fd <$> (split_frames bs).1)) /\
    cap q' <= 2^30.
Proof.
  induction fuel as [|fuel IH]; intros q bs pend items Hq Hf Hp Hne Hb Hc Hfuel Hcap; pose proof (nonempty_length bs Hne); [lia|].
  unfold QUEUESIZE in Hcap. cbn [push_more]. rewrite skip_bad_ok, bind_ret by (done || apply bad_more_takes).
  assert (Hkeep : forall u, ws_repr fd u bs -> exists q', save_uncomplete (Some q) u = Ok q' /\
    q_repr ws_repr q' (upd fd bs pend) (items ++ []) /\ cap q' <= 2^30).
  { intros u Hu. destruct (save_ok ws_repr ws_repr_id (Some q) fd u bs pend items Hq Hf Hp Hu Hne) as (q' & -> & Hq' & Ec).
    exists q'. split; [done|]. rewrite app_nil_r. split; [done|]. cbn [get_queue] in Ec. unfold QUEUESIZE. lia. }
  destruct (frames_head bs Hc Hb) as [(E & -> & Es)|(off & n & mask & E & -> & Hn & Ho & Es)]; cbn [fst snd default].
  - rewrite Z.eqb_refl. destruct (keep_header_ok fd bs E) as (u & -> & Hu). rewrite bind_ret, Es. by apply Hkeep.
  - destruct (Z.eqb_spec n (-1)); [lia|]. cbn [from_option id]. rewrite Nat2Z.id, andb_true_r.
    destruct (Z.ltb_spec (Z.of_nat (length bs) - Z.of_nat off) n) as [Hl|Hl].
    + destruct (keep_part_ok fd bs off n mask E Hl) as (u & -> & Hu). rewrite bind_ret, Es. by apply Hkeep.
    + rewrite (whole_ok bs off n mask E Hb Hl), bind_ret. destruct Es as (Hc' & Hb' & Hlen & Es).
      set (p := unmask mask 0 (take (Z.to_nat n) (drop off bs))) in *. set (rest := drop (Z.to_nat n) (drop off bs)) in *.
      assert (Ep : n = Z.of_nat (length p)) by (subst p; rewrite unmask_length, length_take, length_drop; lia).
      assert (El : Z.of_nat (length bs) - Z.of_nat off - n = Z.of_nat (length rest)) by (subst rest; rewrite !length_drop; lia).
      destruct (push_one ws_repr (Some q) fd p n pend items Hq Ep) as (q1 & -> & Hq1 & Hc1); [cbn [get_queue]; unfold QUEUESIZE; lia|].
      rewrite bind_ret, El, Es. cbn [fst snd get_queue] in *. unfold QUEUESIZE in *.
      destruct (Z.ltb_spec 0 (Z.of_nat (length rest))) as [Hpos|Hz].
      * destruct (IH q1 rest pend (items ++ [mk fd p])) as (q2 & -> & Hq2 & Hc2); [done..| |done|done|lia|rewrite length_app; cbn [length]; lia|].
        { intros Er. rewrite Er in Hpos. cbn in Hpos. lia. }
        exists q2. split; [done|]. rewrite <- app_assoc in Hq2. split; [exact Hq2|lia].
      * assert (rest = []) as -> by (apply nil_length_inv; lia). exists q1. split; [done|].
        split; [|lia]. by apply q_repr_none.
Qed.

(** A first frame goes to the queue, and what follows it in the chunk. *)
Lemma ws_push_rest q fd p n rest pend items :
  opt_repr ws_repr q pend items -> fd_ok fd -> pend fd = [] -> rest <> [] -> bytes_ok rest -> clean rest ->
  n = Z.of_nat (length p) -> cap (get_queue q) <= 2^30 /\ Z.of_nat (length items) + (Z.of_nat (length rest) + 1) + QUEUESIZE <= 2^30 ->
  exists q2, (q1 ← push_data q fd (Some <$> p) n;
              q2 ← push_more (S (length rest)) (Some q1) fd rest (Z.of_nat (length rest)) false;
              Ok (RMore, Some q2)) = Ok (report fd (p :: (split_frames rest).1) (split_frames rest).2, Some q2) /\
    q_repr ws_repr q2 (upd fd (split_frames rest).2 pend) (items ++ queued fd (p :: (split_frames rest).1) (split_frames rest).2) /\
    cap q2 <= 2^30.
Proof.
  intros Hq Hf Hp Hne Hb Hc En Hcap. unfold QUEUESIZE in *. pose proof (nonempty_length rest Hne).
  destruct (push_one ws_repr q fd p n pend items Hq En) as (q1 & -> & Hq1 & Hc1); [unfold QUEUESIZE; lia|]. unfold QUEUESIZE in Hc1.
  rewrite bind_ret. destruct (ws_push_more_ok fd (S (length rest)) q1 rest pend (items ++ [mk fd p])) as (q2 & -> & Hq2 & Hc2);
    [done..|lia|rewrite length_app; unfold QUEUESIZE; cbn [length]; lia|]. unfold QUEUESIZE in Hc2. rewrite bind_ret. exists q2.
  destruct (report_more fd p (split_frames rest).1 (split_frames rest).2 (frames_nonempty rest Hne)) as [-> ->].
  rewrite <- app_assoc in Hq2. split; [done|]. split; [exact Hq2|lia].
Qed.

(** What a call gives for the bytes [bs]. *)
Definition call_ok (out : outcome (result * option (queue uncomplete))) (q : option (queue uncomplete)) (fd : Z) (bs : list Z)
    (pend : Z -> list Z) (items : list netpack) : Prop :=
  exists q', out = Ok (report fd (split_frames bs).1 (split_frames bs).2, q') /\
    opt_repr ws_repr q' (upd fd (split_frames bs).2 pend) (items ++ queued fd (split_frames bs).1 (split_frames bs).2) /\
    cap (get_queue q') <= 2^30.

(** An incomplete frame is kept. *)
Lemma ws_save_ok q fd u bs pend items :
  opt_repr ws_repr q pend items -> fd_ok fd -> pend fd = [] -> ws_repr fd u bs -> bs <> [] -> split_frames bs = ([], bs) -> cap (get_queue q) <= 2^30 ->
  call_ok (q ← save_uncomplete q u; Ok (RNone, Some q)) q fd bs pend items.
Proof.
  intros Hq Hf Hp Hu Hne Es Hcap. destruct (save_ok ws_repr ws_repr_id q fd u bs pend items Hq Hf Hp Hu Hne) as (q' & -> & Hq' & Ec).
  rewrite bind_ret. exists (Some q'). rewrite Es. cbn [fst snd report queued fmap list_fmap get_queue]. rewrite app_nil_r.
  split; [done|]. split; [done|]. lia.
Qed.

(** A complete frame, with [rest] after it. *)
Lemma ws_frame_ok q fd p n bs rest pend items N :
  opt_repr ws_repr q pend items -> fd_ok fd -> pend fd = [] -> bytes_ok rest -> clean rest ->
  split_frames bs = (p :: (split_frames rest).1, (split_frames rest).2) -> n = Z.of_nat (length p) -> Z.of_nat (length rest) + 1 <= N ->
  cap (get_queue q) <= 2^30 /\ Z.of_nat (length items) + N + QUEUESIZE <= 2^30 ->
  call_ok (if Z.of_nat (length rest) =? 0 then Ok (RData fd (Some <$> p) n, q)
           else q1 ← push_data q fd (Some <$> p) n;
                q2 ← push_more (S (length rest)) (Some q1) fd rest (Z.of_nat (length rest)) false;
                Ok (RMore, Some q2)) q fd bs pend items.
Proof.
  intros Hq Hf Hp Hb Hc Es En HN Hcap. unfold call_ok, QUEUESIZE in *. rewrite Es. cbn [fst snd].
  destruct (Z.eqb_spec (Z.of_nat (length rest)) 0) as [E0|E0].
  - assert (rest = []) as -> by (apply nil_length_inv; lia). exists q.
    change (split_frames []) with (@nil (list Z), @nil Z). cbn [fst snd report queued]. rewrite En, app_nil_r.
    split; [done|]. split; [by apply opt_repr_none|lia].
  - destruct (ws_push_rest q fd p n rest pend items) as (q2 & -> & Hq2 & Hc2);
      [done..| |done|done|done|unfold QUEUESIZE; lia|].
    { intros ->. done. }
    exists (Some q2). split; [done|]. split; [exact Hq2|]. cbn [get_queue]. unfold QUEUESIZE in Hc2. lia.
Qed.

(** A chunk for a connection with nothing pending. *)
Lemma ws_filter_fresh q fd bs pend items :
  opt_repr ws_repr q pend items -> fd_ok fd -> pend fd = [] -> bs <> [] -> bytes_ok bs -> clean bs ->
  cap (get_queue q) <= 2^30 /\ Z.of_nat (length items) + Z.of_nat (length bs) + QUEUESIZE <= 2^30 ->
  call_ok (filter_data_ q fd bs (Z.of_nat (length bs)) false) q fd bs pend items.
Proof.
  intros Hq Hf Hp Hne Hb Hc Hcap. unfold filter_data_.
  rewrite (find_absent ws_repr q fd pend items Hq Hf Hp), bind_ret, skip_bad_ok, bind_ret by (done || apply bad_filter_takes).
  destruct (frames_head bs Hc Hb) as [(E & -> & Es)|(off & n & mask & E & -> & Hn & Ho & Es)]; cbn [fst snd].
  - rewrite Z.eqb_refl. destruct (keep_header_ok fd bs E) as (u & -> & Hu). rewrite bind_ret. apply ws_save_ok; done || lia.
  - destruct (Z.eqb_spec n (-1)); [lia|]. cbn [from_option id]. rewrite Nat2Z.id, andb_true_r.
    destruct (Z.ltb_spec (Z.of_nat (length bs) - Z.of_nat off) n) as [Hl|Hl].
    + destruct (keep_part_ok fd bs off n mask E Hl) as (u & -> & Hu). rewrite bind_ret. apply ws_save_ok; done || lia.
    + rewrite (whole_ok bs off n mask E Hb Hl), bind_ret. destruct Es as (Hc' & Hb' & Hlen & Es).
      set (p := unmask mask 0 (take (Z.to_nat n) (drop off bs))) in *. set (rest := drop (Z.to_nat n) (drop off bs)) in *.
      assert (Ep : n = Z.of_nat (length p)) by (subst p; rewrite unmask_length, length_take, length_drop; lia).
      assert (El : Z.of_nat (length bs) - Z.of_nat off - n = Z.of_nat (length rest)) by (subst rest; rewrite !length_drop; lia).
      assert (Hok := ws_frame_ok q fd p n bs rest pend items (Z.of_nat (length bs)) Hq Hf Hp Hb' Hc' Es Ep ltac:(lia) Hcap).
      rewrite El. destruct (Z.eqb_spec (Z.of_nat (length bs) - Z.of_nat off) n) as [En|En];
        destruct (Z.eqb_spec (Z.of_nat (length rest)) 0); try lia; [by rewrite En|done].
Qed.

(** A chunk for a record whose header [p] is known. *)
Lemma ws_fill_ok q fd p header header_size off n mask bs pend items N :
  q_repr ws_repr q pend items -> fd_ok fd -> pend fd = [] -> bytes_ok (p ++ bs) -> clean (p ++ bs) ->
  frame_head p = Head off n mask -> Z.of_nat (length (drop off p)) <= n -> Z.of_nat (length bs) - (n - Z.of_nat (length (drop off p))) + 1 <= N -> 0 <= N ->
  cap q <= 2^30 /\ Z.of_nat (length items) + N + QUEUESIZE <= 2^30 ->
  call_ok (fill_uncomplete (Some q) fd
    (UC (Pack fd n ((Some <$> unmask mask 0 (drop off p)) ++ replicate (Z.to_nat n - length (drop off p)) None))
        header header_size (Z.of_nat (length (drop off p))) mask (unmasked mask (length (drop off p))))
    bs (Z.of_nat (length bs)) false) (Some q) fd (p ++ bs) pend items.
Proof.
  intros Hq Hf Hp Hb Hc E Hd HN HN0 Hcap. unfold fill_uncomplete. cbn [uc_pack uc_read uc_mask uc_hasunmask_size uc_header uc_header_size np_id np_size np_buffer]. cbv zeta.
  destruct (frame_head_off _ _ _ _ E) as (Ho2 & Ho & _ & Hm). remember (drop off p) as data eqn:Ed.
  assert (Hdata : forall k, drop off (p ++ k) = data ++ k) by (intros k; rewrite drop_app_le by lia; by rewrite Ed).
  assert (Hpl : length p = (off + length data)%nat) by (subst data; rewrite length_drop; lia).
  destruct (frames_head (p ++ bs) Hc Hb) as [(E' & _)|(off' & n' & mask' & E' & _ & Hn & _ & Es)];
    rewrite frame_head_app, E in E' by (by rewrite E); [done|]. injection E' as <- <- <-. rewrite Hdata, length_app in Es.
  set (need := n - Z.of_nat (length data)) in *.
  destruct (Z.ltb_spec (Z.of_nat (length bs)) need) as [Hl|Hl].
  - destruct (Z.ltb_spec (Z.of_nat (length p + length bs) - Z.of_nat off) n); [|lia].
    rewrite decode_at, bind_ret, Nat2Z.id, take_ge, drop_ge, app_nil_r by (done || lia).
    rewrite copy_unmasked by (rewrite ?unmask_length; lia).
    rewrite bind_ret, Nat2Z.id, take_ge by (rewrite unmask_length; lia).
    rewrite unmask_join. replace (Z.to_nat n - length data - length bs)%nat with (Z.to_nat n - length (data ++ bs))%nat by (rewrite length_app; lia).
    replace (Z.of_nat (length data) + Z.of_nat (length bs)) with (Z.of_nat (length (data ++ bs))) by (rewrite length_app; lia).
    rewrite <- length_app. apply ws_save_ok; try done.
    + econstructor; [by rewrite frame_head_app, E by by rewrite E|by rewrite Hdata|rewrite length_app; lia].
    + intros En. apply (f_equal length) in En. rewrite length_app in En. cbn in En. lia.
    + cbn [get_queue]. lia.
  - destruct (Z.ltb_spec (Z.of_nat (length p + length bs) - Z.of_nat off) n); [lia|]. destruct Es as (Hc' & Hb' & Hlen & Es).
    rewrite decode_at, bind_ret by (done || lia).
    rewrite copy_unmasked by (rewrite ?length_app, ?unmask_length, ?length_take, ?length_drop; lia).
    rewrite bind_ret, take_app_length' by (rewrite unmask_length, length_take; lia).
    replace (Z.to_nat n - length data - Z.to_nat need)%nat with 0%nat by lia. cbn [replicate]. rewrite app_nil_r.
    rewrite drop_app_length' by (rewrite unmask_length, length_take; lia).
    rewrite unmask_join.
    replace (Z.to_nat n) with (length data + Z.to_nat need)%nat in * by lia. rewrite drop_app_add in *. rewrite take_app_add in Es.
    set (pl := unmask mask 0 (data ++ take (Z.to_nat need) bs)) in *. set (rest := drop (Z.to_nat need) bs) in *.
    assert (El : Z.of_nat (length bs) - need = Z.of_nat (length rest)) by (subst rest; rewrite length_drop; lia). rewrite El.
    apply (ws_frame_ok _ _ _ _ _ _ _ _ N); try done; [|lia]. subst pl. rewrite unmask_length, length_app, length_take. lia.
Qed.

Lemma skip_header_ok p junk fuel : bytes_ok p -> clean p ->
  skip_header (S fuel) (p ++ junk) (Z.of_nat (length p)) = Ok (p ++ junk, Z.of_nat (length p), (hd_val p).1, (hd_val p).2).
Proof.
  intros Hb Hc. cbn [skip_header]. rewrite read_hd, bind_ret by done.
  pose proof (hd_val_taken bad_filter p bad_filter_takes Hb) as Eb. destruct (hd_val p) as [n h]. cbn [fst snd] in *. by rewrite Eb.
Qed.

(** Bytes go to the record's header until it is complete or they are used up. *)
Lemma header_loop_ok bs : forall p junk pre, bs <> [] -> frame_head p = Short -> bytes_ok (p ++ bs) -> clean (p ++ bs) ->
  Z.of_nat (length (p ++ junk)) = HEADERSIZE ->
  let out := header_loop (length bs) (p ++ junk) (Z.of_nat (length p)) (pre ++ bs) (Z.of_nat (length pre)) (Z.of_nat (length (pre ++ bs))) false in
  match frame_head (p ++ bs) with
  | Head off n mask => (length p < off)%nat /\ exists header,
      out = Ok (header, Z.of_nat off, Z.of_nat (length pre + (off - length p)), n, Some (Z.of_nat off, mask))
  | _ => exists junk', out = Ok ((p ++ bs) ++ junk', Z.of_nat (length (p ++ bs)), Z.of_nat (length (pre ++ bs)), -1, None) /\
      Z.of_nat (length ((p ++ bs) ++ junk')) = HEADERSIZE
  end.
Proof.
  induction bs as [|b bs IH]; intros p junk pre Hne E Hb Hc Hlen; [done|]. cbn [length header_loop].
  pose proof (frame_head_short p E) as Hs. destruct junk as [|j junk]; [rewrite app_nil_r in Hlen; unfold HEADERSIZE in Hlen; lia|].
  rewrite (arr_get_ok _ _ b), bind_ret by (lia || by rewrite lookup_app_r, Nat2Z.id, Nat.sub_diag by lia).
  rewrite arr_set_ok by (rewrite length_app; cbn [length]; lia). rewrite bind_ret, Nat2Z.id. cbv zeta.
  rewrite insert_app_r_alt, Nat.sub_diag by done. cbn [insert list_insert].
  assert (Hb1 : bytes_ok (p ++ [b])) by (rewrite cons_middle, app_assoc in Hb; by apply Forall_app in Hb as [? _]).
  assert (Hc1 : clean (p ++ [b])) by (rewrite cons_middle, app_assoc in Hc; by apply clean_prefix in Hc).
  replace (p ++ b :: junk) with ((p ++ [b]) ++ junk) by by rewrite <- app_assoc.
  replace (Z.of_nat (length p) + 1) with (Z.of_nat (length (p ++ [b]))) by (rewrite length_app; cbn; lia).
  rewrite skip_header_ok, bind_ret by done. unfold hd_val.
  destruct (frame_head (p ++ [b])) as [| |off n mask] eqn:E1; [|by apply clean_not_bad in E1|]; cbn [fst snd].
  - change (0 <=? -1) with false. cbn [orb]. rewrite length_app. cbn [length].
    destruct bs as [|b' bs].
    + cbn [length]. destruct (Z.leb_spec (Z.of_nat (length pre + 1)) (Z.of_nat (length pre) + 1)); [|lia]. rewrite E1. exists junk.
      split; [repeat f_equal; lia|]. rewrite !length_app in *. cbn [length] in *. lia.
    + destruct (Z.leb_spec (Z.of_nat (length pre + S (length (b' :: bs)))) (Z.of_nat (length pre) + 1)) as [Hx|_]; [cbn [length] in Hx; lia|].
      specialize (IH (p ++ [b]) junk (pre ++ [b])). rewrite <- !app_assoc in IH. cbn [app] in IH.
      rewrite !(length_app pre) in IH. cbn [length] in IH |- *.
      replace (Z.of_nat (length pre + 1)) with (Z.of_nat (length pre) + 1) in IH by lia.
      rewrite <- app_assoc. cbn [app].
      specialize (IH ltac:(done) E1 Hb Hc ltac:(rewrite !length_app in *; cbn [length] in *; lia)).
      destruct (frame_head (p ++ b :: b' :: bs)) as [| |off n mask]; [exact IH..|].
      destruct IH as [Hl [header Eh]]. rewrite length_app in Hl. cbn [length] in Hl. split; [lia|]. exists header. rewrite Eh, length_app. cbn [length].
      by replace (length pre + 1 + (off - (length p + 1)))%nat with (length pre + (off - length p))%nat by lia.
  - rewrite cons_middle, app_assoc, frame_head_app, E1 by by rewrite E1. pose proof (frame_head_last _ _ _ _ _ E E1) as Eo.
    split; [lia|]. exists ((p ++ [b]) ++ junk). pose proof (frame_head_nonneg _ _ _ _ E1 Hb1).
    destruct (Z.leb_spec 0 n); [|lia]. cbn [orb]. repeat f_equal; rewrite ?length_app; cbn [length]; lia.
Qed.

(** One call: the pending bytes and the chunk are parsed as one string. *)
Lemma ws_filter_data_ok q fd bs pend items :
  opt_repr ws_repr q pend items -> fd_ok fd -> bs <> [] -> bytes_ok (pend fd ++ bs) -> clean (pend fd ++ bs) ->
  cap (get_queue q) <= 2^30 /\ Z.of_nat (length items) + Z.of_nat (length bs) + QUEUESIZE <= 2^30 ->
  call_ok (filter_data_ q fd bs (Z.of_nat (length bs)) false) q fd (pend fd ++ bs) pend items.
Proof.
  intros Hq Hf Hne Hb Hc Hcap. destruct (decide (pend fd = [])) as [Hp|Hp].
  { rewrite Hp in *. by apply ws_filter_fresh. }
  destruct (find_present ws_repr q fd pend items Hq Hf Hp) as (u & q1 & Ef & Hu & Hq1 & Ec).
  assert (Hgoal : forall out, call_ok out (Some q1) fd (pend fd ++ bs) (upd fd [] pend) items ->
    call_ok out q fd (pend fd ++ bs) pend items).
  { intros out (q' & E1 & E2 & E3). exists q'. split; [done|]. split; [by eapply opt_repr_upd|]. cbn [get_queue] in E3. lia. }
  apply Hgoal. unfold filter_data_. rewrite Ef, bind_ret. pose proof (upd_eq fd [] pend) as Hp1. pose proof (nonempty_length bs Hne).
  destruct Hu as [p junk E Hlen|p header header_size off n mask data E Ed Hd].
  - cbn [uc_read uc_header uc_header_size uc_pack np_id]. change (-1 <? 0) with true. cbv iota.
    destruct (Z.ltb_spec 0 (Z.of_nat (length bs))); [|lia]. rewrite Nat2Z.id.
    pose proof (header_loop_ok bs p junk [] Hne E Hb Hc Hlen) as Hloop. cbn [app length] in Hloop. change (Z.of_nat 0) with 0 in Hloop.
    destruct (frame_head (p ++ bs)) as [| |off n mask] eqn:E1; [|by apply clean_not_bad in E1|].
    + destruct Hloop as (junk' & -> & Hlen'). rewrite bind_ret. change (-1 =? -1) with true. cbv iota.
      apply ws_save_ok; try done; [by apply wr_head|by destruct p|by rewrite split_frames_step; unfold next; rewrite E1|cbn [get_queue]; lia].
    + destruct Hloop as (Hlt & header & ->). rewrite bind_ret.
      destruct (frame_head_off _ _ _ _ E1) as (_ & Ho & _). pose proof (frame_head_nonneg _ _ _ _ E1 Hb).
      rewrite length_app in Ho. destruct (Z.eqb_spec n (-1)); [lia|]. rewrite malloc_ok, bind_ret by done. cbn [from_option id snd]. rewrite bind_ret.
      rewrite Nat.add_0_l, Nat2Z.id. set (k := (off - length p)%nat).
      assert (Et : take off (p ++ bs) = p ++ take k bs) by (subst k; rewrite take_app_ge; [done|lia]).
      assert (Eh : frame_head (p ++ take k bs) = Head off n mask).
      { pose proof (frame_head_take (p ++ bs) off n mask E1) as Eh. by rewrite Et in Eh. }
      assert (Ed : drop off (p ++ take k bs) = []) by (apply drop_ge; rewrite length_app, length_take; lia).
      pose proof (ws_fill_ok q1 fd (p ++ take k bs) header (Z.of_nat off) off n mask (drop k bs) (upd fd [] pend) items (Z.of_nat (length bs))) as Hfill.
      rewrite Ed, <- app_assoc, take_drop in Hfill. cbn [length] in Hfill. rewrite length_drop in Hfill.
      replace (Z.of_nat (length bs - k)) with (Z.of_nat (length bs) - Z.of_nat k) in Hfill by lia.
      assert (E0 : (Some <$> unmask mask 0 []) ++ replicate (Z.to_nat n - 0) None = malloc_bytes n).
      { unfold malloc_bytes. rewrite Nat.sub_0_r. by destruct mask. }
      rewrite E0 in Hfill. replace (unmasked mask 0) with 0 in Hfill by by destruct mask.
      apply Hfill; try done; lia.
  - cbn [uc_read]. destruct (Z.ltb_spec (Z.of_nat (length data)) 0); [lia|]. subst data.
    apply (ws_fill_ok _ _ _ _ _ _ _ _ _ _ _ (Z.of_nat (length bs))); try done; lia.
Qed.

#[global] Instance websocket_splitter : Splitter uncomplete.
Proof.
  refine {| sp_filter := fun q fd chunk => lfilter q (SockMsg SData fd (Z.of_nat (length chunk)) (Some chunk) []) 0;
    sp_split := split_frames; sp_good := fun bs => bytes_ok bs /\ clean bs; sp_rep := ws_repr |}.
  - done.
  - intros bs ps r E. pose proof (frames_rest bs) as Er. by rewrite E in Er.
  - intros bs ps r more E. pose proof (frames_app bs more) as Ea. rewrite E in Ea. cbn [fst snd] in Ea. by destruct (split_frames (r ++ more)).
  - intros bs more [[? _]%Forall_app Hc]. split; [done|by apply clean_prefix in Hc].
  - intros bs ps r more E [[Hb Hm]%Forall_app Hc]. pose proof (clean_next bs more Hc) as Hn. pose proof (frames_suffix bs) as [k Ek].
    rewrite E in Hn, Ek. cbn [snd] in *. split; [|done]. apply Forall_app. split; [|done]. rewrite Ek. by apply Forall_drop.
  - intros q fd bs pend Hq Hf Hne [Hb Hc] _ Hcap Hroom. unfold lfilter. cbn [s_type s_id s_buffer s_ud]. rewrite bool_decide_true by by eexists.
    cbn [c_assert]. rewrite bind_ret. destruct (ws_filter_data_ok q fd bs pend [] Hq Hf Hne Hb Hc (conj Hcap Hroom)) as (q' & E & Hq' & Hc').
    destruct (split_frames (pend fd ++ bs)) as [ps r]. by exists q'.
Defined.

(** C28.  Frames of websocket clients: for any number of connections, any interleaving
    and any cutting of their streams into non-empty chunks (in a header, a mask or a
    payload) of less than 2^30 - 1024 bytes, what is handed out for a connection are the
    unmasked payloads of the frames it sent, in order, as a parser that sees the whole
    stream finds them; as long as the handshake is done and the frames are final, of
    known kinds and of at most 10 KiB ([clean]: of other frames the code skips two
    bytes and goes on).  There is no limit on the number of bytes or frames. *)
Theorem ws_reassembles evs :
  chunks_ok evs -> (forall fd, bytes_ok (stream fd evs) /\ clean (stream fd evs)) ->
  exists outs q', receive None evs = Ok (outs, q') /\ forall fd, of_fd fd outs = mk fd <$> (split_frames (stream fd evs)).1.
Proof. intros He Hg. exact (receive_splits (A := uncomplete) evs He Hg). Qed.

(** Two clients: "AB" and "C" masked, cut in a header and a payload; and a frame
    with a two-byte length. *)
Definition ws_sample : list (Z * list Z) :=
  [(5, [130]); (9, [129; 126; 0; 1; 7]); (5, [130; 1; 2; 3; 4; 64]); (5, [64; 130; 129; 9; 9; 9; 9; 74])].

Lemma ws_reassembles_witness : exists outs q', receive None ws_sample = Ok (outs, q') /\
  of_fd 5 outs = [mk 5 [65; 66]; mk 5 [67]] /\ of_fd 9 outs = [mk 9 [7]].
Proof.
  destruct (ws_reassembles ws_sample) as (outs & q' & E & Hall).
  - unfold chunks_ok, ws_sample, fd_ok, QUEUESIZE. repeat (constructor; [cbn; split; [lia|split; [done|lia]]|]). constructor.
  - intros fd. destruct (decide (fd = 5)) as [->|H5]; [|destruct (decide (fd = 9)) as [->|H9]].
    + split; [cbn; repeat (constructor; [unfold is_byte; lia|]); constructor|].
      eapply clean_frame; [vm_compute; reflexivity|]. eapply clean_frame; [vm_compute; reflexivity|]. apply clean_wait. reflexivity.
    + split; [cbn; repeat (constructor; [unfold is_byte; lia|]); constructor|].
      eapply clean_frame; [vm_compute; reflexivity|]. apply clean_wait. reflexivity.
    + unfold stream, ws_sample. rewrite !filter_cons_False by (cbn; congruence). split; [constructor|apply clean_wait; reflexivity].
  - exists outs, q'. split; [exact E|]. exact (conj (Hall 5) (Hall 9)).
Defined.

(** ** Packing *)

Lemma lpack_next msg rest : Z.of_nat (length msg) <= MAX_PACKSIZE -> next (lpack msg ++ rest) = Frame msg rest.
Proof.
  unfold MAX_PACKSIZE. intros Hl. unfold next, lpack, FRAME_SET_LENGTH. set (len := Z.of_nat (length msg)) in *. assert (0 <= len) by (subst len; lia).
  change (Z.lor (FRAME_SET_FIN 1) (FRAME_SET_OPCODE 2)) with 130. change (FRAME_SET_MASK 0) with 0. rewrite !Z.lor_0_l.
  change 255 with (2^8 - 1). rewrite !land_mask, !Z.shiftr_div_pow2 by lia. change (2 ^ (0 * 8)) with 1. change (2 ^ (1 * 8)) with 256. change (2^8) with 256.
  rewrite !Z.div_1_r.
  assert (Hgo : forall off bs, bs = take off bs ++ msg ++ rest -> (off <= length bs)%nat ->
    (if (length bs <? off + Z.to_nat len)%nat then Wait else Frame (unmask None 0 (take (Z.to_nat len) (drop off bs))) (drop (off + Z.to_nat len) bs)) = Frame msg rest).
  { intros off bs Eb Ho. assert (Ed : drop off bs = msg ++ rest).
    { rewrite Eb. rewrite drop_app_length' by (rewrite length_take; lia). done. }
    pose proof (f_equal length Ed) as Edl. rewrite length_drop, length_app in Edl.
    destruct (Nat.ltb_spec (length bs) (off + Z.to_nat len)) as [Hx|_]; [lia|]. rewrite <- drop_drop, Ed. subst len. rewrite Nat2Z.id.
    cbn [unmask]. by rewrite take_app_length, drop_app_length. }
  destruct (Z.ltb_spec len 126) as [Hs|Hs].
  - rewrite Z.mod_small by lia. cbn [app frame_head]. change (negb (130 / 16 =? 8) || (130 mod 16 =? 0)) with false. cbv iota.
    unfold ext_len, mask_len. rewrite (Z.mod_small len) by lia. destruct (Z.ltb_spec len 126); [|lia]. destruct (Z.ltb_spec len 128); [|lia].
    cbn [Nat.add Nat.eqb]. destruct (Nat.ltb_spec (length (msg ++ rest)) 0); [lia|]. unfold MAX_PACKSIZE.
    destruct (Z.ltb_spec (10 * 1024) len); [lia|]. apply (Hgo 2%nat); [done|cbn [length]; lia].
  - destruct (Z.ltb_spec len 65536); [|lia]. cbn [app frame_head]. change (negb (130 / 16 =? 8) || (130 mod 16 =? 0)) with false. cbv iota.
    change (ext_len 126) with 2%nat. change (mask_len 126) with 0%nat. cbn [Nat.add Nat.eqb length take].
    destruct (Nat.ltb_spec (S (S (length (msg ++ rest)))) 2); [lia|].
    assert (Ebe : be [(len / 256) mod 256; len mod 256] = len).
    { unfold be. cbn [rev app of_le]. rewrite (Z.mod_small (len / 256)); [pose proof (Z.div_mod len 256); lia|].
      split; [apply Z.div_pos; lia|apply Z.div_lt_upper_bound; lia]. }
    rewrite take_0, Ebe. unfold MAX_PACKSIZE. destruct (Z.ltb_spec (10 * 1024) len); [lia|].
    exact (Hgo 4%nat (130 :: 126 :: (len / 256) mod 256 :: len mod 256 :: msg ++ rest) eq_refl ltac:(cbn [length]; lia)).
Qed.

Lemma lpack_frames msgs : Forall (fun m => Z.of_nat (length m) <= MAX_PACKSIZE) msgs ->
  split_frames (concat (lpack <$> msgs)) = (msgs, []) /\ clean (concat (lpack <$> msgs)).
Proof.
  induction 1 as [|m msgs Hm _ [IH1 IH2]]; [split; [done|by apply clean_wait]|]. cbn [fmap list_fmap concat]. pose proof (lpack_next m (concat (lpack <$> msgs)) Hm) as E.
  split; [|by eapply clean_frame]. rewrite split_frames_step, E. cbn [fmap list_fmap] in IH1. by rewrite IH1.
Qed.

(** Round trip: messages of up to 10 KiB framed by [lpack], whatever the pieces and the
    order they arrive in, come out as they were. *)
Theorem ws_roundtrip evs (sent : Z -> list (list Z)) :
  chunks_ok evs -> (forall fd, bytes_ok (stream fd evs)) ->
  (forall fd, Forall (fun m => Z.of_nat (length m) <= MAX_PACKSIZE) (sent fd) /\ stream fd evs = concat (lpack <$> sent fd)) ->
  exists outs q', receive None evs = Ok (outs, q') /\ forall fd, of_fd fd outs = mk fd <$> sent fd.
Proof.
  intros He Hb Hs. destruct (receive_splits (A := uncomplete) evs He) as (outs & q' & E & Hall).
  - intros fd. split; [apply Hb|]. destruct (Hs fd) as [Hm ->]. by apply lpack_frames.
  - exists outs, q'. split; [done|]. intros fd. rewrite Hall. cbn [sp_split websocket_splitter].
    destruct (Hs fd) as [Hm ->]. by rewrite (proj1 (lpack_frames _ Hm)).
Qed.

(** "AB" and an empty message, cut behind the first byte of a header. *)
Lemma ws_roundtrip_witness : exists outs q', receive None [(5, [130; 2; 65; 66; 130]); (5, [0])] = Ok (outs, q') /\
  of_fd 5 outs = [mk 5 [65; 66]; mk 5 []].
Proof.
  destruct (ws_roundtrip [(5, [130; 2; 65; 66; 130]); (5, [0])] (fun fd => if decide (fd = 5) then [[65; 66]; []] else [])) as (outs & q' & E & Hall).
  - unfold chunks_ok, fd_ok, QUEUESIZE. repeat (constructor; [cbn; split; [lia|split; [done|lia]]|]). constructor.
  - intros fd. unfold stream. destruct (decide (fd = 5)) as [->|H5]; [|rewrite !filter_cons_False by (cbn; congruence); constructor].
    cbn. repeat (constructor; [unfold is_byte; lia|]). constructor.
  - intros fd. unfold stream. destruct (decide (fd = 5)) as [->|H5]; [|rewrite !filter_cons_False by (cbn; congruence); split; [constructor|reflexivity]].
    split; [repeat (constructor; [vm_compute; discriminate|]); constructor|vm_compute; reflexivity].
  - exists outs, q'. split; [exact E|exact (Hall 5)].
Defined.
