(* ===== verification/WsHandshake.v ===== *)
(** * The request before the frames

    With [handeshake] set, [WsNetpack] hands out the HTTP request that opens a
    websocket, up to its empty line.  It is right about requests in one chunk and in
    pieces of a size it can handle, and it leaves its buffers for others. *)

From S2P Require Import Prelude Mq Netpack PackStream WsNetpack WsFrames.
From stdpp Require Import base numbers list gmap.
From Stdlib Require Import ZArith Lia.
#[local] Open Scope Z_scope.
#[local] Open Scope list_scope.
Import Netpack WsNetpack.

(** The length of the request at the front of a string. *)
Fixpoint request_end (bs : list Z) : option nat :=
  match bs with
  | [] => None
  | _ :: tl => if decide (take 4 bs = CRLF2) then Some 4%nat else S <$> request_end tl
  end.

Lemma request_end_bound bs n : request_end bs = Some n -> (4 <= n <= length bs)%nat.
Proof.
  revert n. induction bs as [|b tl IH]; intros n; [done|]. cbn [request_end]. destruct (decide _) as [E|_].
  - intros [= <-]. apply (f_equal length) in E. rewrite length_take in E. change (length CRLF2) with 4%nat in E. cbn [length] in *. lia.
  - destruct (request_end tl) as [m|]; [|done]. intros [= <-]. specialize (IH m eq_refl). cbn [length]. lia.
Qed.

Lemma request_end_app bs more n : request_end bs = Some n -> request_end (bs ++ more) = Some n.
Proof.
  revert n. induction bs as [|b tl IH]; intros n E; [done|]. pose proof (request_end_bound _ _ E) as Hb. revert E.
  rewrite <- app_comm_cons. cbn [request_end]. rewrite app_comm_cons, take_app_le by lia. destruct (decide _); [done|].
  destruct (request_end tl) as [m|]; [|done]. by rewrite (IH m).
Qed.

Lemma request_end_last bs b n : request_end bs = None -> request_end (bs ++ [b]) = Some n -> n = S (length bs).
Proof.
  revert n. induction bs as [|x tl IH]; intros n E Es; [by apply request_end_bound in Es as [? Hl]; cbn in Hl; lia|].
  pose proof (request_end_bound _ _ Es) as [H4 Hl]. revert E Es. rewrite <- app_comm_cons. cbn [request_end].
  destruct (decide (take 4 (x :: tl) = CRLF2)) as [|Hne]; [done|]. destruct (request_end tl) as [m|] eqn:E; [done|]. intros _.
  destruct (decide (take 4 (x :: tl ++ [b]) = CRLF2)) as [Ee|_].
  - intros [= <-]. destruct (decide (4 <= length (x :: tl))%nat) as [Hlen|Hlen].
    + rewrite app_comm_cons, take_app_le in Ee by done. done.
    + apply (f_equal length) in Ee. rewrite length_take in Ee. change (length CRLF2) with 4%nat in Ee.
      cbn [length] in *. rewrite length_app in *. cbn [length] in *. lia.
  - destruct (request_end (tl ++ [b])) as [m|] eqn:Em; [|done]. intros [= <-]. by rewrite (IH m eq_refl eq_refl).
Qed.

(** ** Finding the empty line *)

Lemma strnpos_loop_ok junk p : forall pre fuel, (length p < fuel)%nat ->
  strnpos_loop fuel (pre ++ p ++ junk) (Z.of_nat (length pre + length p) - 3) (Z.of_nat (length pre))
    = Ok (match request_end p with None => -1 | Some n => Z.of_nat (length pre + n) - 4 end).
Proof.
  induction p as [|b tl IH]; intros pre fuel Hf; (destruct fuel as [|fuel]; [cbn in Hf; lia|]); cbn [strnpos_loop length].
  - destruct (Z.ltb_spec (Z.of_nat (length pre)) (Z.of_nat (length pre + 0) - 3)); [lia|done].
  - destruct (Z.ltb_spec (Z.of_nat (length pre)) (Z.of_nat (length pre + S (length tl)) - 3)) as [Hlt|Hge].
    + rewrite (arr_get_ok _ _ b), bind_ret by (lia || by rewrite lookup_app_r, Nat2Z.id, Nat.sub_diag by lia).
      rewrite (mem_read_take pre (b :: tl) junk 4) by (done || cbn [length]; lia).
      assert (Efound : (if b =? 13 then b' ← Ok (take 4 (b :: tl)); Ok (bool_decide (b' = CRLF2)) else Ok false)
        = Ok (bool_decide (take 4 (b :: tl) = CRLF2))).
      { destruct (Z.eqb_spec b 13) as [|Hb]; [done|]. rewrite bool_decide_false; [done|]. intros [= ->]. done. }
      rewrite Efound, bind_ret. cbn [request_end]. case_bool_decide as Ec; case_decide as Ed; try done; [f_equal; lia|].
      specialize (IH (pre ++ [b]) fuel). rewrite length_app, <- app_assoc in IH. cbn [length app] in IH, Hf.
      replace (Z.of_nat (length pre) + 1) with (Z.of_nat (length pre + 1)) by lia.
      replace (length pre + S (length tl))%nat with (length pre + 1 + length tl)%nat by lia. cbn [app]. rewrite IH by lia.
      destruct (request_end tl); [cbn; f_equal; lia|done].
    + destruct (request_end (b :: tl)) as [n|] eqn:E; [|done]. apply request_end_bound in E. cbn [length] in E. lia.
Qed.

Lemma http_header_ok p junk : 3 <= Z.of_nat (length p) < 2^31 ->
  get_http_header (p ++ junk) (Z.of_nat (length p)) = Ok (match request_end p with None => -1 | Some n => Z.of_nat n end).
Proof.
  intros Hl. unfold get_http_header, websocket_strnpos.
  replace (u32 (i32 (Z.of_nat (length p) - 4 + 1))) with (Z.of_nat (length (@nil Z) + length p) - 3).
  2:{ rewrite i32_small by lia. unfold u32. cbn [length]. rewrite Z.mod_small by lia. lia. }
  pose proof (strnpos_loop_ok junk p [] (S (length (p ++ junk)))) as E. cbn [app] in E. change (Z.of_nat (length [])) with 0 in E.
  rewrite E, bind_ret by (rewrite length_app; lia). destruct (request_end p) as [n|] eqn:En; [|done].
  apply request_end_bound in En. cbn [length]. destruct (Z.ltb_spec (Z.of_nat (0 + n) - 4) 0); [lia|]. f_equal. lia.
Qed.

(** ** Requests in pieces *)

(** The record of a connection and the part of the request it keeps. *)
Inductive hs_repr (fd : Z) : uncomplete -> list Z -> Prop :=
  | hr_part p junk : Z.of_nat (length (p ++ junk)) = HEADERSIZE ->
      hs_repr fd (UC (Pack fd 0 []) (p ++ junk) (Z.of_nat (length p)) (-1) None 0) p.

Lemma hs_repr_id fd u p : hs_repr fd u p -> pending_id u = fd.
Proof. by destruct 1. Qed.

Lemma hs_keep fd bs : Z.of_nat (length bs) <= HEADERSIZE ->
  exists u, keep_header fd bs (Z.of_nat (length bs)) = Ok u /\ hs_repr fd u bs.
Proof.
  intros Hl. destruct (keep_header_bytes fd bs Hl) as (junk & -> & Hlen). eexists. split; [done|]. by constructor.
Qed.

(** Bytes go to the record until the empty line is there or they are used up. *)
Lemma hs_loop_ok bs : forall p junk pre, bs <> [] -> request_end p = None -> 2 <= Z.of_nat (length p) ->
  Z.of_nat (length (p ++ bs)) <= HEADERSIZE -> Z.of_nat (length (p ++ junk)) = HEADERSIZE ->
  let out := header_loop (length bs) (p ++ junk) (Z.of_nat (length p)) (pre ++ bs) (Z.of_nat (length pre)) (Z.of_nat (length (pre ++ bs))) true in
  match request_end (p ++ bs) with
  | Some n => (length p < n)%nat /\ exists junk', out = Ok (take n (p ++ bs) ++ junk', Z.of_nat n, Z.of_nat (length pre + (n - length p)), Z.of_nat n, None)
  | None => exists junk', out = Ok ((p ++ bs) ++ junk', Z.of_nat (length (p ++ bs)), Z.of_nat (length (pre ++ bs)), -1, None) /\
      Z.of_nat (length ((p ++ bs) ++ junk')) = HEADERSIZE
  end.
Proof.
  unfold HEADERSIZE. induction bs as [|b bs IH]; intros p junk pre Hne E Hp Hmax Hlen; [done|]. cbn [length header_loop].
  rewrite length_app in Hmax. cbn [length] in Hmax.
  destruct junk as [|j junk]; [rewrite app_nil_r in Hlen; lia|].
  rewrite (arr_get_ok _ _ b), bind_ret by (lia || by rewrite lookup_app_r, Nat2Z.id, Nat.sub_diag by lia).
  rewrite arr_set_ok by (rewrite length_app; cbn [length]; lia). rewrite bind_ret, Nat2Z.id. cbv zeta.
  rewrite insert_app_r_alt, Nat.sub_diag by done. cbn [insert list_insert].
  replace (p ++ b :: junk) with ((p ++ [b]) ++ junk) by by rewrite <- app_assoc.
  replace (Z.of_nat (length p) + 1) with (Z.of_nat (length (p ++ [b]))) by (rewrite length_app; cbn; lia).
  rewrite http_header_ok by (rewrite length_app; cbn [length]; lia). rewrite !bind_ret.
  destruct (request_end (p ++ [b])) as [n|] eqn:E1.
  - rewrite cons_middle, app_assoc, (request_end_app _ bs n E1). pose proof (request_end_last _ _ _ E E1) as ->.
    destruct (Z.leb_spec 0 (Z.of_nat (S (length p)))); [|lia]. cbn [orb]. split; [lia|]. exists junk.
    rewrite take_app_length' by (rewrite length_app; cbn; lia). rewrite length_app. cbn [length].
    repeat f_equal; lia.
  - change (0 <=? -1) with false. cbn [orb]. rewrite length_app. cbn [length].
    destruct bs as [|b' bs].
    + cbn [length]. destruct (Z.leb_spec (Z.of_nat (length pre + 1)) (Z.of_nat (length pre) + 1)); [|lia]. rewrite E1. exists junk.
      split; [repeat f_equal; lia|]. rewrite !length_app in *. cbn [length] in *. lia.
    + destruct (Z.leb_spec (Z.of_nat (length pre + S (length (b' :: bs)))) (Z.of_nat (length pre) + 1)) as [Hx|_]; [cbn [length] in Hx; lia|].
      specialize (IH (p ++ [b]) junk (pre ++ [b])). rewrite <- !app_assoc in IH. cbn [app] in IH.
      rewrite !(length_app pre) in IH. cbn [length] in IH |- *.
      replace (Z.of_nat (length pre + 1)) with (Z.of_nat (length pre) + 1) in IH by lia.
      rewrite <- app_assoc. cbn [app].
      specialize (IH ltac:(done) E1 ltac:(rewrite length_app; lia) ltac:(rewrite length_app; cbn [length] in *; lia)
        ltac:(rewrite !length_app in *; cbn [length] in *; lia)).
      destruct (request_end (p ++ b :: b' :: bs)) as [n|] eqn:En; [|exact IH].
      destruct IH as [Hn [junk' Eh]]. rewrite length_app in Hn. cbn [length] in Hn. split; [lia|]. exists junk'. rewrite Eh, length_app. cbn [length].
      by replace (length pre + 1 + (n - (length p + 1)))%nat with (length pre + (n - length p))%nat by lia.
Qed.

Definition hs_filter (q : option (queue uncomplete)) (fd : Z) (chunk : list Z) : outcome (result * option (queue uncomplete)) :=
  lfilter q (SockMsg SData fd (Z.of_nat (length chunk)) (Some chunk) []) 1.

Lemma hs_filter_eq q fd chunk : hs_filter q fd chunk = filter_data_ q fd chunk (Z.of_nat (length chunk)) true.
Proof. unfold hs_filter, lfilter. cbn [s_type s_id s_buffer s_ud]. by rewrite bool_decide_true by by eexists. Qed.

(** What a call gives when the bytes so far are [bs]. *)
Definition hs_call (out : outcome (result * option (queue uncomplete))) (fd : Z) (bs : list Z) (pend : Z -> list Z) : Prop :=
  match request_end bs with
  | None => exists q', out = Ok (RNone, Some q') /\ opt_repr hs_repr (Some q') (upd fd bs pend) []
  | Some n => n = length bs -> exists q', out = Ok (RData fd (Some <$> bs) (Z.of_nat n), q')
  end.

Lemma hs_fresh q fd bs pend : opt_repr hs_repr q pend [] -> fd_ok fd -> pend fd = [] -> 3 <= Z.of_nat (length bs) <= HEADERSIZE ->
  hs_call (hs_filter q fd bs) fd bs pend.
Proof.
  unfold HEADERSIZE. intros Hq Hf Hp Hl. rewrite hs_filter_eq. unfold filter_data_, hs_call. rewrite (find_absent hs_repr q fd pend [] Hq Hf Hp), bind_ret.
  pose proof (http_header_ok bs []) as E. rewrite app_nil_r in E. rewrite E, !bind_ret by lia. clear E.
  destruct (request_end bs) as [n|] eqn:En.
  - intros ->. destruct (Z.eqb_spec (Z.of_nat (length bs)) (-1)); [lia|]. cbn [from_option id Z.to_nat]. rewrite drop_0, Z.sub_0_r, andb_false_r, Z.eqb_refl.
    unfold whole. cbn [decode_wsmask_data]. rewrite bind_ret. unfold ws_malloc, PREFIX_SIZE. destruct (Z.ltb_spec (Z.of_nat (length bs) + 4) 0); [lia|].
    rewrite bind_ret, copy_fresh, bind_ret, Nat2Z.id, take_ge, Nat.sub_diag by lia. cbn [replicate]. rewrite app_nil_r. by exists q.
  - change (-1 =? -1) with true. cbv iota. destruct (hs_keep fd bs) as (u & -> & Hu); [unfold HEADERSIZE; lia|]. rewrite bind_ret.
    destruct (save_ok hs_repr hs_repr_id q fd u bs pend [] Hq Hf Hp Hu) as (q' & -> & Hq' & _); [intros ->; cbn in Hl; lia|].
    rewrite bind_ret. by exists q'.
Qed.

Lemma hs_more q fd bs pend : opt_repr hs_repr q pend [] -> fd_ok fd -> bs <> [] -> 2 <= Z.of_nat (length (pend fd)) ->
  Z.of_nat (length (pend fd ++ bs)) <= HEADERSIZE -> request_end (pend fd) = None ->
  hs_call (hs_filter q fd bs) fd (pend fd ++ bs) pend.
Proof.
  intros Hq Hf Hne Hl Hmax E. rewrite hs_filter_eq. unfold filter_data_, hs_call.
  destruct (find_present hs_repr q fd pend [] Hq Hf) as (u & q1 & -> & Hu & Hq1 & _); [intros Ep; rewrite Ep in Hl; cbn in Hl; lia|]. rewrite bind_ret.
  destruct Hu as [p junk Hlen]. cbn [uc_read uc_header uc_header_size uc_pack np_id]. change (-1 <? 0) with true. cbv iota.
  assert (0 < length bs)%nat by (destruct bs; [done|cbn; lia]).
  destruct (Z.ltb_spec 0 (Z.of_nat (length bs))); [|lia]. rewrite Nat2Z.id.
  pose proof (hs_loop_ok bs p junk [] Hne E Hl Hmax Hlen) as Hloop. cbn [app length] in Hloop. change (Z.of_nat 0) with 0 in Hloop.
  destruct (request_end (p ++ bs)) as [n|] eqn:En.
  - intros ->. destruct Hloop as (Hn & junk' & ->). rewrite bind_ret, take_ge by done. rewrite length_app in *.
    destruct (Z.eqb_spec (Z.of_nat (length p + length bs)) (-1)); [lia|]. unfold ws_malloc, PREFIX_SIZE.
    destruct (Z.ltb_spec (Z.of_nat (length p + length bs) + 4) 0); [lia|]. rewrite bind_ret, Z.min_id.
    rewrite copy_fresh, bind_ret, Nat2Z.id, Nat.sub_diag, take_app_length' by (rewrite ?length_app; lia). cbn [replicate]. rewrite app_nil_r.
    unfold fill_uncomplete. cbn [uc_pack uc_read uc_mask uc_hasunmask_size np_size np_buffer from_option id snd decode_wsmask_data]. cbv zeta.
    rewrite Z.sub_diag, Nat.add_0_l, Nat2Z.id. replace (length p + length bs - length p)%nat with (length bs) by lia.
    rewrite Z.sub_diag. change (0 <? 0) with false. cbv iota. rewrite bind_ret.
    pose proof (copy_at (p ++ bs) 0 (drop (length bs) bs) 0) as Ec. cbn [replicate Z.to_nat take] in Ec.
    rewrite !app_nil_r, length_app in Ec. rewrite Ec, bind_ret by lia. change (0 - 0 =? 0) with true. by exists (Some q1).
  - destruct Hloop as (junk' & -> & Hlen'). rewrite bind_ret. change (-1 =? -1) with true. cbv iota.
    cbn [uc_mask uc_hasunmask_size]. destruct (save_ok hs_repr hs_repr_id (Some q1) fd (UC (Pack fd 0 []) ((p ++ bs) ++ junk') (Z.of_nat (length (p ++ bs))) (-1) None 0)
      (p ++ bs) (upd fd [] pend) []) as (q' & -> & Hq' & _); [done|done|by rewrite upd_eq|by constructor|by destruct p, bs|]. rewrite bind_ret. exists q'. split; [done|]. by eapply opt_repr_upd.
Qed.

Fixpoint feed (q : option (queue uncomplete)) (fd : Z) (pieces : list (list Z)) : outcome (list result * option (queue uncomplete)) :=
  match pieces with
  | [] => Ok ([], q)
  | piece :: pieces => '(r, q) ← hs_filter q fd piece; '(rs, q) ← feed q fd pieces; Ok (r :: rs, q)
  end.

(** The pieces of a request whose start is kept. *)
Lemma feed_ok fd pieces : forall q p, opt_repr hs_repr q (upd fd p (fun _ => [])) [] -> fd_ok fd -> pieces <> [] -> Forall (fun b => b <> []) pieces ->
  2 <= Z.of_nat (length p) -> Z.of_nat (length (p ++ concat pieces)) <= HEADERSIZE -> request_end p = None ->
  request_end (p ++ concat pieces) = Some (length (p ++ concat pieces)) ->
  exists q', feed q fd pieces = Ok (replicate (length pieces - 1) RNone ++
    [RData fd (Some <$> p ++ concat pieces) (Z.of_nat (length (p ++ concat pieces)))], q').
Proof.
  induction pieces as [|b pieces IH]; intros q p Hq Hf Hne Hall Hp Hmax E Ee; [done|]. apply Forall_cons in Hall as [Hb Hall].
  cbn [feed concat] in *. rewrite app_assoc in *.
  pose proof (hs_more q fd b (upd fd p (fun _ => [])) Hq Hf Hb) as Hcall. rewrite upd_eq in Hcall.
  specialize (Hcall Hp ltac:(rewrite length_app in Hmax; lia) E). unfold hs_call in Hcall.
  destruct (request_end (p ++ b)) as [n|] eqn:En.
  - pose proof (request_end_bound _ _ En). rewrite (request_end_app _ _ _ En) in Ee. injection Ee as ->. rewrite length_app in *.
    assert (concat pieces = []) as Ec by (apply nil_length_inv; lia).
    assert (pieces = []) as -> by (destruct pieces as [|x ?]; [done|apply Forall_cons in Hall as [Hx _]; by destruct x]).
    cbn [concat length] in *. rewrite app_nil_r, Nat.add_0_r in *. destruct Hcall as [q' ->]; [done|]. rewrite bind_ret. cbn [feed].
    rewrite bind_ret. by exists q'.
  - destruct Hcall as (q' & -> & Hq'). rewrite bind_ret. destruct pieces as [|c pieces]; [cbn [concat] in Ee; rewrite app_nil_r in Ee; congruence|].
    destruct (IH (Some q') (p ++ b)) as (q2 & E2); try done; [by eapply opt_repr_upd|rewrite length_app; lia|].
    rewrite E2, bind_ret. exists q2. cbn [length]. by rewrite !Nat.sub_succ, !Nat.sub_0_r.
Qed.

(** The handshake: a request that comes in pieces, the first of at least three
    bytes and 1 KiB at most in all, is handed out as one with its last piece, and
    nothing before. *)
Theorem handshake_reassembled fd first pieces :
  fd_ok fd -> 3 <= Z.of_nat (length first) -> Forall (fun b => b <> []) pieces ->
  let request := first ++ concat pieces in
  Z.of_nat (length request) <= HEADERSIZE -> request_end request = Some (length request) ->
  exists q', feed None fd (first :: pieces)
    = Ok (replicate (length pieces) RNone ++ [RData fd (Some <$> request) (Z.of_nat (length request))], q').
Proof.
  intros Hf H3 Hall request Hmax Ee. subst request. cbn [feed].
  pose proof (hs_fresh None fd first (fun _ => []) (conj (fun _ => eq_refl) eq_refl) Hf eq_refl) as Hcall.
  rewrite length_app in Hmax. specialize (Hcall ltac:(lia)). unfold hs_call in Hcall. destruct (request_end first) as [n|] eqn:En.
  - pose proof (request_end_bound _ _ En). rewrite (request_end_app _ _ _ En) in Ee. injection Ee as ->. rewrite length_app in *.
    assert (concat pieces = []) as Ec by (apply nil_length_inv; lia).
    assert (pieces = []) as -> by (destruct pieces as [|x ?]; [done|apply Forall_cons in Hall as [Hx _]; by destruct x]).
    cbn [concat length feed] in *. rewrite app_nil_r, Nat.add_0_r in *. destruct Hcall as [q' ->]; [done|]. rewrite !bind_ret. by exists q'.
  - destruct Hcall as (q1 & -> & Hq1). rewrite bind_ret. destruct pieces as [|b pieces]; [cbn [concat] in Ee; rewrite app_nil_r in Ee; congruence|].
    destruct (feed_ok fd (b :: pieces) (Some q1) first) as (q2 & ->); [done|done|done|done|lia|by rewrite length_app|done|done|].
    rewrite bind_ret. exists q2. cbn [length]. by rewrite !Nat.sub_succ, !Nat.sub_0_r.
Qed.

(** "GET", and the empty line in two pieces. *)
Lemma handshake_reassembled_witness : exists q', feed None 7 [[71; 69; 84]; [13; 10]; [13; 10]]
  = Ok ([RNone; RNone; RData 7 (Some <$> [71; 69; 84; 13; 10; 13; 10]) 7], q').
Proof.
  apply (handshake_reassembled 7 [71; 69; 84] [[13; 10]; [13; 10]]); [unfold fd_ok; lia|cbn; lia|by repeat constructor|cbn; unfold HEADERSIZE; lia|reflexivity].
Defined.

(** ** Requests it cannot handle *)

(** The bound of the search for the empty line, [len - 4 + 1], is an [int] that is
    compared with an unsigned index: for a first piece of one or two bytes it is
    huge, and the search goes on behind the bytes received. *)
Theorem short_request_reads_behind q fd bs pend :
  opt_repr hs_repr q pend [] -> fd_ok fd -> pend fd = [] -> (0 < length bs < 3)%nat ->
  hs_filter q fd bs = Fault OutOfBounds.
Proof.
  intros Hq Hf Hp Hl. rewrite hs_filter_eq. unfold filter_data_. rewrite (find_absent hs_repr q fd pend [] Hq Hf Hp), bind_ret.
  unfold get_http_header, websocket_strnpos. destruct bs as [|b [|c [|d bs]]]; cbn [length] in *; [lia| | |lia].
  - change (u32 (i32 (Z.of_nat 1 - 4 + 1))) with 4294967294. cbn [strnpos_loop]. change (0 <? 4294967294) with true. cbv iota.
    change (arr_get [b] 0) with (Ok b). change (mem_read [b] 0 4) with (@Fault (list Z) OutOfBounds). rewrite bind_ret.
    by destruct (b =? 13).
  - change (u32 (i32 (Z.of_nat 2 - 4 + 1))) with 4294967295. cbn [strnpos_loop]. change (0 <? 4294967295) with true. cbv iota.
    change (arr_get [b; c] 0) with (Ok b). change (mem_read [b; c] 0 4) with (@Fault (list Z) OutOfBounds). rewrite bind_ret.
    destruct (b =? 13); [done|]. rewrite bind_ret. change (0 + 1 <? 4294967295) with true. cbv iota.
    change (arr_get [b; c] (0 + 1)) with (Ok c). change (mem_read [b; c] (0 + 1) 4) with (@Fault (list Z) OutOfBounds). rewrite bind_ret.
    by destruct (c =? 13).
Qed.

Lemma short_request_reads_behind_witness : hs_filter None 7 [71] = Fault OutOfBounds.
Proof.
  apply (short_request_reads_behind None 7 [71] (fun _ => [])); [split; reflexivity|unfold fd_ok; lia|reflexivity|cbn; lia].
Defined.

Lemma keep_header_overflows fd bs : HEADERSIZE < Z.of_nat (length bs) -> keep_header fd bs (Z.of_nat (length bs)) = Fault OutOfBounds.
Proof.
  intros Hl. unfold keep_header.
  pose proof (mem_read_ok [] bs []) as Er. cbn [app length] in Er. rewrite app_nil_r in Er. change (Z.of_nat 0) with 0 in Er.
  rewrite Er, bind_ret. unfold mem_write. rewrite length_replicate.
  unfold HEADERSIZE in *. destruct (Z.ltb_spec 0 0); [lia|]. destruct (Z.ltb_spec (Z.of_nat (Z.to_nat 1024)) (0 + Z.of_nat (length bs))); [done|lia].
Qed.

(** A first piece of more than 1 KiB without the empty line is copied over the end
    of the record's header. *)
Theorem long_request_overflows q fd bs pend :
  opt_repr hs_repr q pend [] -> fd_ok fd -> pend fd = [] -> HEADERSIZE < Z.of_nat (length bs) < 2^31 -> request_end bs = None ->
  hs_filter q fd bs = Fault OutOfBounds.
Proof.
  intros Hq Hf Hp Hl E. rewrite hs_filter_eq. unfold filter_data_. rewrite (find_absent hs_repr q fd pend [] Hq Hf Hp), bind_ret.
  pose proof (http_header_ok bs []) as Eh. rewrite app_nil_r in Eh. unfold HEADERSIZE in Hl. rewrite Eh, E, !bind_ret by lia.
  change (-1 =? -1) with true. cbv iota. by rewrite keep_header_overflows by (unfold HEADERSIZE; lia).
Qed.

Lemma long_request_overflows_witness : hs_filter None 7 (replicate 1025 71) = Fault OutOfBounds.
Proof.
  apply (long_request_overflows None 7 (replicate 1025 71) (fun _ => []));
    [split; reflexivity|unfold fd_ok; lia|reflexivity|rewrite length_replicate; unfold HEADERSIZE; lia|vm_compute; reflexivity].
Defined.

(** ** Lengths of 64 bits *)

(** The length is cut to an [int]. *)
Lemma read_size_64 l rest : bytes_ok l -> length l = 8%nat ->
  read_size (130 :: 127 :: l ++ rest) (Z.of_nat (length (130 :: 127 :: l ++ rest))) = Ok (i32 (be l), Some (10, None)).
Proof.
  intros Hb Hl. unfold read_size. cbn [length]. rewrite length_app, Hl.
  destruct (Z.ltb_spec (Z.of_nat (S (S (8 + length rest)))) 2); [lia|].
  rewrite (arr_get_ok _ 0 130), bind_ret, (arr_get_ok _ 1 127), bind_ret by (lia || done). cbv zeta.
  change (Z.land 127 127 <? 126) with false. change (Z.land 127 127 =? 126) with false. cbn [Z.land Z.shiftr Z.shiftl Z.div2 Pos.div2 Pos.land Z.eqb negb orb Pos.iter Z.opp].
  unfold WEBSOCKET_HEADER_LEN. destruct (Z.ltb_spec (Z.of_nat (S (S (8 + length rest)))) (2 + 8)); [lia|].
  change (130 :: 127 :: l ++ rest) with ([130; 127] ++ l ++ rest). rewrite (mem_read_take [130; 127] l rest 8) by (done || lia).
  rewrite take_ge by lia. by rewrite bind_ret, bind_ret, ntoh64_be by done.
Qed.

(**  A frame with such a length of which the lower half is a negative [int] below -2
    stops the process: the size is not bad for [filter_data_]; there is no block
    of it, and where the addition in [skynet_malloc] wraps, the copy that follows
    is as long as a negative [size_t]. *)
Theorem long_length_aborts q fd l rest pend :
  opt_repr hs_repr q pend [] -> fd_ok fd -> pend fd = [] -> bytes_ok l -> length l = 8%nat -> i32 (be l) < -2 ->
  let bs := [130; 127] ++ l ++ rest in
  lfilter q (SockMsg SData fd (Z.of_nat (length bs)) (Some bs) []) 0
    = Fault (if i32 (be l) <? - PREFIX_SIZE then Exited else OutOfBounds).
Proof.
  intros Hq Hf Hp Hb Hl Hn. cbv zeta. unfold lfilter. cbn [s_type s_id s_buffer s_ud]. rewrite bool_decide_true by by eexists.
  cbn [c_assert]. rewrite bind_ret. unfold filter_data_. rewrite (find_absent hs_repr q fd pend [] Hq Hf Hp), bind_ret.
  change (negb (0 =? 0)) with false. cbv iota. cbn [app]. set (size := Z.of_nat (length (130 :: 127 :: l ++ rest))). cbn [skip_bad]. subst size.
  rewrite read_size_64, bind_ret by done. unfold bad_filter, MAX_PACKSIZE.
  destruct (Z.eqb_spec (i32 (be l)) (-2)); [lia|]. destruct (Z.ltb_spec (10 * 1024) (i32 (be l))); [lia|]. cbn [orb]. rewrite bind_ret.
  destruct (Z.eqb_spec (i32 (be l)) (-1)); [lia|]. cbn [from_option id].
  destruct (Z.ltb_spec (Z.of_nat (length (130 :: 127 :: l ++ rest)) - 10) (i32 (be l))) as [Hx|_];
    [cbn [length] in Hx; rewrite length_app in Hx; lia|]. cbn [andb]. unfold whole. cbn [decode_wsmask_data]. rewrite bind_ret.
  unfold ws_malloc, PREFIX_SIZE. destruct (Z.ltb_spec (i32 (be l) + 4) 0), (Z.ltb_spec (i32 (be l)) (- (4))); try lia; [done|]. rewrite bind_ret.
  unfold copy_bytes, mem_read. by destruct (Z.ltb_spec (i32 (be l)) 0); [|lia].
Qed.

Lemma long_length_aborts_witness :
  let bs := [130; 127; 255; 255; 255; 255; 255; 255; 255; 0] in
  lfilter None (SockMsg SData 7 (Z.of_nat (length bs)) (Some bs) []) 0 = Fault Exited.
Proof.
  apply (long_length_aborts None 7 [255; 255; 255; 255; 255; 255; 255; 0] [] (fun _ => []));
    [split; reflexivity|unfold fd_ok; lia|reflexivity| |reflexivity|vm_compute; reflexivity].
  repeat (constructor; [unfold is_byte; lia|]). constructor.
Defined.

(** Where the lower half is -1 the frame is taken for an incomplete header, of any
    length, and copied to a place of 1 KiB. *)
Lemma long_length_overflows q fd l rest pend :
  opt_repr hs_repr q pend [] -> fd_ok fd -> pend fd = [] -> bytes_ok l -> length l = 8%nat -> i32 (be l) = -1 ->
  let bs := [130; 127] ++ l ++ rest in HEADERSIZE < Z.of_nat (length bs) ->
  lfilter q (SockMsg SData fd (Z.of_nat (length bs)) (Some bs) []) 0 = Fault OutOfBounds.
Proof.
  intros Hq Hf Hp Hb Hl Hn bs Hlong. subst bs. unfold lfilter. cbn [s_type s_id s_buffer s_ud]. rewrite bool_decide_true by by eexists.
  cbn [c_assert]. rewrite bind_ret. unfold filter_data_. rewrite (find_absent hs_repr q fd pend [] Hq Hf Hp), bind_ret.
  change (negb (0 =? 0)) with false. cbv iota. cbn [app] in *. set (size := Z.of_nat (length (130 :: 127 :: l ++ rest))). cbn [skip_bad]. subst size.
  rewrite read_size_64, bind_ret, Hn by done. change (bad_filter (-1)) with false. cbv iota. rewrite bind_ret. change (-1 =? -1) with true. cbv iota.
  by rewrite keep_header_overflows.
Qed.
