(* ===== verification/Databuffer.v ===== *)
(** * Receive buffers and connection ids of the gate
    ([service-src/databuffer.h], [service-src/hashid.h])

    A [databuffer] is the list of the blocks a socket delivered, read through a
    byte offset into the first one; [hashid] gives each socket id one of a fixed
    number of slots.  The nodes of both come from arrays and are linked by
    pointers: a chain is a list here, and of the message pool only the numbers of
    blocks and of free nodes matter. *)

From S2P Require Import Prelude Mq.
From stdpp Require Import base numbers list gmap.
From Stdlib Require Import ZArith Lia.
#[local] Open Scope Z_scope.
#[local] Open Scope list_scope.

Module Data.

Definition MESSAGEPOOL : Z := 1023.

(** [blocks]: the messages from [head] to [tail]; the [size] of one is its length. *)
Record databuffer := DB { header : Z; offset : Z; dsize : Z; blocks : list (list Z) }.

(** The number of pool blocks, and of nodes on the free list. *)
Record messagepool := MP { pools : Z; freelist : Z }.

Definition empty : databuffer := DB 0 0 0 [].
Definition messagepool_free (mp : messagepool) : messagepool := MP 0 0.

Definition _return_message (db : databuffer) (mp : messagepool) : outcome (databuffer * messagepool) :=
  match blocks db with
  | [] => Fault NullPointer
  | _ :: rest =>
      Ok (DB (header db) (offset db) (dsize db) rest, MP (pools mp) (freelist mp + 1))
  end.

Definition set_offset (o : Z) (db : databuffer) : databuffer := DB (header db) o (dsize db) (blocks db).

(** The [for (;;)] of [databuffer_read]: each round but the last frees a block. *)
Fixpoint read_loop (fuel : nat) (db : databuffer) (mp : messagepool) (sz : Z)
    : outcome (list Z * databuffer * messagepool) :=
  match fuel with
  | O => Fault OutOfFuel
  | S fuel =>
      match blocks db with
      | [] => Fault NullPointer
      | current :: _ =>
          let bsz := Z.of_nat (length current) - offset db in
          if sz <? bsz then
            b ← mem_read current (offset db) sz;
            Ok (b, set_offset (offset db + sz) db, mp)
          else if bsz =? sz then
            b ← mem_read current (offset db) sz;
            '(db, mp) ← _return_message (set_offset 0 db) mp;
            Ok (b, db, mp)
          else
            b ← mem_read current (offset db) bsz;
            '(db, mp) ← _return_message db mp;
            '(b', db, mp) ← read_loop fuel (set_offset 0 db) mp (sz - bsz);
            Ok (b ++ b', db, mp)
      end
  end.

Definition databuffer_read (db : databuffer) (mp : messagepool) (sz : Z)
    : outcome (list Z * databuffer * messagepool) :=
  _ ← c_assert (sz <=? dsize db);
  read_loop (S (length (blocks db))) (DB (header db) (offset db) (dsize db - sz) (blocks db)) mp sz.

Definition databuffer_push (db : databuffer) (mp : messagepool) (data : list Z) (sz : Z)
    : outcome (databuffer * messagepool) :=
  let mp := if negb (freelist mp =? 0) then MP (pools mp) (freelist mp - 1)
            else MP (pools mp + 1) (MESSAGEPOOL - 1) in
  n ← c_int (dsize db + sz);
  Ok (DB (header db) (offset db) n (blocks db ++ [data]), mp).

(** The big-endian value of the header bytes; the 4-byte form shifts into the
    sign bit of an [int]. *)
Definition header_value (plen : list Z) (header_size : Z) : outcome Z :=
  if header_size =? 2 then
    p0 ← arr_get plen 0;
    p1 ← arr_get plen 1;
    Ok (Z.lor (Z.shiftl p0 8) p1)
  else
    p0 ← arr_get plen 0;
    p1 ← arr_get plen 1;
    p2 ← arr_get plen 2;
    p3 ← arr_get plen 3;
    Ok (i32 (Z.lor (Z.lor (Z.lor (Z.shiftl p0 24) (Z.shiftl p1 16)) (Z.shiftl p2 8)) p3)).

Definition set_header (h : Z) (db : databuffer) : databuffer := DB h (offset db) (dsize db) (blocks db).

Definition databuffer_readheader (db : databuffer) (mp : messagepool) (header_size : Z)
    : outcome (Z * databuffer * messagepool) :=
  '(short, db, mp) ←
    (if header db =? 0 then
       if dsize db <? header_size then Ok (true, db, mp)
       else
         '(plen, db, mp) ← databuffer_read db mp header_size;
         h ← header_value plen header_size;
         Ok (false, set_header h db, mp)
     else Ok (false, db, mp));
  if (short : bool) then Ok (-1, db, mp)
  else if dsize db <? header db then Ok (-1, db, mp)
  else Ok (header db, db, mp).

Definition databuffer_reset (db : databuffer) : databuffer := set_header 0 db.

Fixpoint return_all (fuel : nat) (db : databuffer) (mp : messagepool) : outcome (databuffer * messagepool) :=
  match fuel with
  | O => Fault OutOfFuel
  | S fuel =>
      match blocks db with
      | [] => Ok (db, mp)
      | _ => '(db, mp) ← _return_message db mp; return_all fuel db mp
      end
  end.

Definition databuffer_clear (db : databuffer) (mp : messagepool) : outcome (databuffer * messagepool) :=
  '(_, mp) ← return_all (S (length (blocks db))) db mp;
  Ok (empty, mp).

(** ** The buffer as a byte string *)

Definition contents (db : databuffer) : list Z := drop (Z.to_nat (offset db)) (concat (blocks db)).

Record db_ok (db : databuffer) : Prop := {
  do_offset : 0 <= offset db;
  do_first : match blocks db with
             | [] => offset db = 0
             | b :: _ => offset db < Z.of_nat (length b) \/ offset db = 0
             end;
  do_size : dsize db = Z.of_nat (length (contents db))
}.

Lemma empty_ok : db_ok empty.
Proof. by split. Qed.

Lemma contents_cons h o n b rest : 0 <= o <= Z.of_nat (length b) ->
  contents (DB h o n (b :: rest)) = drop (Z.to_nat o) b ++ concat rest.
Proof. intros Ho. unfold contents. cbn. rewrite drop_app_le by lia. done. Qed.

Lemma read_block (b : list Z) o k : 0 <= o -> 0 <= k -> o + k <= Z.of_nat (length b) ->
  mem_read b o k = Ok (take (Z.to_nat k) (drop (Z.to_nat o) b)).
Proof.
  intros Ho Hk Hl. unfold mem_read.
  destruct (Z.ltb_spec o 0); [lia|]. destruct (Z.ltb_spec k 0); [lia|].
  by destruct (Z.ltb_spec (Z.of_nat (length b)) (o + k)); [lia|].
Qed.

Lemma read_loop_ok fuel : forall db mp sz,
  (length (blocks db) < fuel)%nat -> 0 < sz <= Z.of_nat (length (contents db)) ->
  0 <= offset db ->
  match blocks db with [] => offset db = 0 | b :: _ => offset db < Z.of_nat (length b) \/ offset db = 0 end ->
  exists db' mp', read_loop fuel db mp sz = Ok (take (Z.to_nat sz) (contents db), db', mp') /\
    contents db' = drop (Z.to_nat sz) (contents db) /\ header db' = header db /\ dsize db' = dsize db /\
    0 <= offset db' /\
    match blocks db' with [] => offset db' = 0 | b :: _ => offset db' < Z.of_nat (length b) \/ offset db' = 0 end /\
    freelist mp' - freelist mp = Z.of_nat (length (blocks db)) - Z.of_nat (length (blocks db')) /\
    pools mp' = pools mp.
Proof.
  induction fuel as [|fuel IH]; intros [h o n bl] mp sz Hf Hsz Ho Hfirst; [lia|].
  cbn [read_loop blocks offset header dsize] in *. destruct bl as [|b bl].
  { unfold contents in Hsz. cbn in Hsz. rewrite drop_nil in Hsz. cbn in Hsz. lia. }
  cbv zeta. rewrite contents_cons in * by lia. rewrite length_app, length_drop in Hsz.
  destruct (Z.ltb_spec sz (Z.of_nat (length b) - o)) as [Hlt|Hge].
  - rewrite read_block by lia. rewrite bind_ret. eexists _, mp.
    rewrite take_app_le by (rewrite length_drop; lia). split; [done|].
    rewrite drop_app_le by (rewrite length_drop; lia). unfold set_offset. cbn [header offset dsize blocks].
    rewrite contents_cons by lia. rewrite drop_drop. split_and!; try done; try lia.
    do 2 f_equal. lia.
  - destruct (Z.eqb_spec (Z.of_nat (length b) - o) sz) as [E|E].
    + rewrite read_block by lia. rewrite bind_ret. cbn [_return_message blocks set_offset header offset dsize].
      rewrite bind_ret. eexists _, _. split; [|split].
      * do 3 f_equal. rewrite (take_app_le (drop _ b)) by (rewrite length_drop; lia). done.
      * unfold contents. cbn [offset blocks]. rewrite drop_0.
        rewrite (drop_app_length' (drop _ b)) by (rewrite length_drop; lia). done.
      * cbn [header dsize offset blocks freelist pools length]. split_and!; try done; try lia.
        destruct bl; [done|by right].
    + rewrite read_block by lia. rewrite bind_ret. cbn [_return_message blocks header offset dsize].
      rewrite bind_ret. cbn [length] in Hf.
      set (db1 := set_offset 0 (DB h o n bl)).
      assert (Ec : contents db1 = concat bl) by done.
      destruct (IH db1 (MP (pools mp) (freelist mp + 1)) (sz - (Z.of_nat (length b) - o)))
        as (db' & mp' & -> & Ec' & Eh & Es & Ho' & Hf' & Hmp & Hpl).
      { cbn. lia. } { rewrite Ec. lia. } { done. } { cbn. destruct bl; [done|by right]. }
      rewrite bind_ret. exists db', mp'. split.
      * do 3 f_equal. rewrite Ec. rewrite (take_ge (drop (Z.to_nat o) b)) by (rewrite length_drop; lia).
        rewrite (take_app_ge (drop (Z.to_nat o) b)) by (rewrite length_drop; lia). do 2 f_equal.
        rewrite length_drop. lia.
      * rewrite Ec', Ec. split; [|cbn [blocks set_offset freelist pools length db1] in *; split_and!; try done; lia].
        rewrite (drop_app_ge (drop (Z.to_nat o) b)) by (rewrite length_drop; lia). f_equal.
        rewrite length_drop. lia.
Qed.

(** Reading takes bytes off the front. *)
Lemma databuffer_read_ok db mp sz : db_ok db -> 0 < sz <= dsize db ->
  exists db' mp', databuffer_read db mp sz = Ok (take (Z.to_nat sz) (contents db), db', mp') /\
    db_ok db' /\ contents db' = drop (Z.to_nat sz) (contents db) /\ header db' = header db.
Proof.
  intros [Ho Hf Hs] Hsz. unfold databuffer_read. destruct (Z.leb_spec sz (dsize db)); [|lia].
  cbn [c_assert]. rewrite bind_ret.
  destruct (read_loop_ok (S (length (blocks db))) (DB (header db) (offset db) (dsize db - sz) (blocks db)) mp sz)
    as (db' & mp' & E & Ec & Eh & Es & Ho' & Hf' & _); [cbn; lia| |done|done|].
  { unfold contents in *. cbn in *. lia. }
  exists db', mp'. split; [exact E|]. split; [|done]. split; [done|done|].
  rewrite Es, Ec. cbn [dsize]. rewrite length_drop.
  replace (length (contents (DB (header db) (offset db) (dsize db - sz) (blocks db))))
    with (length (contents db)) by done. lia.
Qed.

(** Pushing adds bytes at the end. *)
Lemma databuffer_push_ok db mp data :
  db_ok db -> dsize db + Z.of_nat (length data) < 2^31 ->
  exists db' mp', databuffer_push db mp data (Z.of_nat (length data)) = Ok (db', mp') /\
    db_ok db' /\ contents db' = contents db ++ data /\ header db' = header db.
Proof.
  intros [Ho Hf Hs] Hbig. unfold databuffer_push. rewrite c_int_ok by lia. rewrite bind_ret.
  eexists _, _. split; [done|].
  assert (Hlen : (Z.to_nat (offset db) <= length (concat (blocks db)))%nat).
  { destruct (blocks db) as [|b bl]; [rewrite Hf; cbn; lia|]. cbn. rewrite length_app. lia. }
  assert (Ec : contents (DB (header db) (offset db) (dsize db + Z.of_nat (length data)) (blocks db ++ [data]))
    = contents db ++ data).
  { unfold contents. cbn. rewrite concat_app. cbn. rewrite app_nil_r, drop_app_le by done. done. }
  split; [|done]. split; [done| |].
  - cbn. destruct (blocks db) as [|b bl]; [by right|done].
  - rewrite Ec, length_app. cbn. lia.
Qed.

Lemma return_all_ok fuel : forall db mp, (length (blocks db) < fuel)%nat ->
  exists db', return_all fuel db mp = Ok (db', MP (pools mp) (freelist mp + Z.of_nat (length (blocks db)))).
Proof.
  induction fuel as [|fuel IH]; intros db mp Hf; [lia|]. cbn [return_all].
  destruct (blocks db) as [|b bl] eqn:Eb.
  - exists db. cbn. rewrite Z.add_0_r. by destruct mp.
  - unfold _return_message. rewrite Eb, bind_ret. cbn [length] in *.
    destruct (IH (DB (header db) (offset db) (dsize db) bl) (MP (pools mp) (freelist mp + 1))) as [db' E].
    { cbn. lia. }
    exists db'. rewrite E. cbn. do 3 f_equal. lia.
Qed.

Lemma databuffer_clear_ok db mp :
  databuffer_clear db mp = Ok (empty, MP (pools mp) (freelist mp + Z.of_nat (length (blocks db)))).
Proof.
  unfold databuffer_clear. destruct (return_all_ok (S (length (blocks db))) db mp) as [db' E]; [lia|].
  by rewrite E.
Qed.
End Data.
