(* ===== verification/Hashid.v ===== *)
(** * The gate's table of connections ([service-src/hashid.h])

    An array of [cap] nodes, hashed by the low bits of the id they hold and
    chained through [next]; a free node has the id -1.  Pointers to nodes are
    indices. *)

From S2P Require Import Prelude Mq.
From stdpp Require Import base numbers list gmap.
From Stdlib Require Import ZArith Lia.
#[local] Open Scope Z_scope.
#[local] Open Scope list_scope.

Module Hash.

Record hashid_node := Nd { id : Z; next : option Z }.
Record hashid := HI {
  hashmod : Z;
  cap : Z;
  count : Z;
  nodes : list hashid_node;
  hash : list (option Z)
}.

(** [while (hashcap < max) hashcap *= 2;] *)
Fixpoint hashcap_loop (fuel : nat) (hashcap max : Z) : outcome Z :=
  match fuel with
  | O => Fault OutOfFuel
  | S fuel =>
      if hashcap <? max then h ← c_int (hashcap * 2); hashcap_loop fuel h max
      else Ok hashcap
  end.

(** From 16, 28 doublings pass any [int]. *)
Definition hashid_init (max : Z) : outcome hashid :=
  hashcap ← hashcap_loop 29 16 max;
  Ok (HI (hashcap - 1) max 0 (replicate (Z.to_nat max) (Nd (-1) None))
         (replicate (Z.to_nat hashcap) None)).

Definition hashid_clear (hi : hashid) : hashid := HI 1 0 0 [] [].

Fixpoint lookup_loop (fuel : nat) (hi : hashid) (c : option Z) (i : Z) : outcome Z :=
  match fuel, c with
  | O, _ => Fault OutOfFuel
  | S fuel, Some c =>
      nd ← arr_get (nodes hi) c;
      if id nd =? i then Ok c else lookup_loop fuel hi (next nd) i
  | S fuel, None => Ok (-1)
  end.

(** A chain visits a node at most once. *)
Definition chain_fuel (hi : hashid) : nat := S (length (nodes hi)).

Definition hashid_lookup (hi : hashid) (i : Z) : outcome Z :=
  let h := Z.land i (hashmod hi) in
  c ← arr_get (hash hi) h;
  lookup_loop (chain_fuel hi) hi c i.

(** The label [_clear]. *)
Definition clear_node (hi : hashid) (ns : list hashid_node) (hs : list (option Z)) (c : Z)
    : outcome (Z * hashid) :=
  ns ← arr_set ns c (Nd (-1) None);
  Ok (c, HI (hashmod hi) (cap hi) (count hi - 1) ns hs).

(** [while(c->next) ...] *)
Fixpoint remove_loop (fuel : nat) (hi : hashid) (c i : Z) : outcome (Z * hashid) :=
  match fuel with
  | O => Fault OutOfFuel
  | S fuel =>
      nd ← arr_get (nodes hi) c;
      match next nd with
      | None => Ok (-1, hi)
      | Some temp =>
          tn ← arr_get (nodes hi) temp;
          if id tn =? i then
            ns ← arr_set (nodes hi) c (Nd (id nd) (next tn));
            clear_node hi ns (hash hi) temp
          else remove_loop fuel hi temp i
      end
  end.

Definition hashid_remove (hi : hashid) (i : Z) : outcome (Z * hashid) :=
  let h := Z.land i (hashmod hi) in
  c ← arr_get (hash hi) h;
  match c with
  | None => Ok (-1, hi)
  | Some c =>
      nd ← arr_get (nodes hi) c;
      if id nd =? i then
        hs ← arr_set (hash hi) h (next nd);
        clear_node hi (nodes hi) hs c
      else remove_loop (chain_fuel hi) hi c i
  end.

(** [for (i=0;i<hi->cap;i++)]: the first free node from [id % cap] on. *)
Fixpoint free_loop (n : nat) (i : Z) (hi : hashid) (new : Z) : outcome (option Z) :=
  match n with
  | O => Ok None
  | S n =>
      s ← c_int (i + new);
      let index := Z.rem s (cap hi) in
      nd ← arr_get (nodes hi) index;
      if id nd =? -1 then Ok (Some index) else free_loop n (i + 1) hi new
  end.

Definition hashid_insert (hi : hashid) (new : Z) : outcome (Z * hashid) :=
  c ← free_loop (Z.to_nat (cap hi)) 0 hi new;
  match c with
  | None => Fault AssertFailed
  | Some c =>
      nd ← arr_get (nodes hi) c;
      _ ← c_assert (bool_decide (next nd = None));
      let h := Z.land new (hashmod hi) in
      old ← arr_get (hash hi) h;
      ns ← arr_set (nodes hi) c (Nd new old);
      hs ← arr_set (hash hi) h (Some c);
      Ok (c, HI (hashmod hi) (cap hi) (count hi + 1) ns hs)
  end.

Definition hashid_full (hi : hashid) : bool := count hi =? cap hi.

(** ** The invariant *)

Fixpoint chain (ns : list hashid_node) (start : option Z) (l : list Z) : Prop :=
  match l with
  | [] => start = None
  | c :: l => start = Some c /\ 0 <= c /\ exists nd, ns !! Z.to_nat c = Some nd /\ chain ns (next nd) l
  end.

(** The number of ids in use. *)
Definition used (ids : list Z) : nat := length (filter (fun i => i <> -1) ids).

(** [ch h]: the nodes of bucket [h], in order. *)
Record wf (hi : hashid) (ch : Z -> list Z) : Prop := {
  w_mod : exists k, 4 <= k <= 30 /\ hashmod hi = 2^k - 1;
  w_hash : Z.of_nat (length (hash hi)) = hashmod hi + 1;
  w_cap : Z.of_nat (length (nodes hi)) = cap hi;
  w_chain : forall h, 0 <= h <= hashmod hi -> exists start,
    hash hi !! Z.to_nat h = Some start /\ chain (nodes hi) start (ch h);
  w_nodup : forall h, NoDup (ch h);
  w_home : forall h c, 0 <= h <= hashmod hi -> c ∈ ch h ->
    exists nd, nodes hi !! Z.to_nat c = Some nd /\ 0 <= c /\ id nd <> -1 /\ Z.land (id nd) (hashmod hi) = h;
  w_used : forall c nd, nodes hi !! c = Some nd ->
    if id nd =? -1 then next nd = None else Z.of_nat c ∈ ch (Z.land (id nd) (hashmod hi));
  w_inj : forall c c' nd nd', nodes hi !! c = Some nd -> nodes hi !! c' = Some nd' ->
    id nd = id nd' -> id nd <> -1 -> c = c';
  w_count : count hi = Z.of_nat (used (id <$> nodes hi))
}.

(** [i] sits in slot [c]. *)
Definition at_slot (hi : hashid) (i c : Z) : Prop :=
  0 <= c /\ i <> -1 /\ exists nx, nodes hi !! Z.to_nat c = Some (Nd i nx).

Lemma land_range hi ch i : wf hi ch -> 0 <= Z.land i (hashmod hi) <= hashmod hi.
Proof.
  intros W. destruct (w_mod _ _ W) as (k & Hk & ->). pose proof (land_mask_range i k). lia.
Qed.

Lemma node_chain_insert ns start l c nd :
  c ∉ l -> 0 <= c -> chain ns start l -> chain (<[Z.to_nat c := nd]> ns) start l.
Proof.
  revert start. induction l as [|x l IH]; intros start Hc Hp; [done|].
  intros (-> & Hx & y & Hy & Hl). apply not_elem_of_cons in Hc as [Hne Hc].
  split; [done|]. split; [done|]. exists y. rewrite list_lookup_insert_ne by lia. auto.
Qed.

Lemma chain_length hi ch h : wf hi ch -> 0 <= h <= hashmod hi -> (length (ch h) <= length (nodes hi))%nat.
Proof.
  intros W Hh. assert (Hs : ch h ⊆+ seqZ 0 (Z.of_nat (length (nodes hi)))).
  { apply NoDup_submseteq; [apply W|]. intros c Hc. apply elem_of_seqZ.
    destruct (w_home _ _ W h c Hh Hc) as (nd & Hnd & Hc0 & _). apply lookup_lt_Some in Hnd. lia. }
  apply submseteq_length in Hs. rewrite length_seqZ in Hs. lia.
Qed.

Lemma lookup_loop_ok hi i l : forall fuel start,
  chain (nodes hi) start l -> (length l < fuel)%nat ->
  exists r, lookup_loop fuel hi start i = Ok r /\
    ((r = -1 /\ forall c nd, c ∈ l -> nodes hi !! Z.to_nat c = Some nd -> id nd <> i) \/
     (r ∈ l /\ exists nd, nodes hi !! Z.to_nat r = Some nd /\ id nd = i)).
Proof.
  induction l as [|c l IH]; intros fuel start Hc Hf; (destruct fuel as [|fuel]; [lia|]).
  - cbn in Hc. subst start. exists (-1). split; [done|]. left. split; [done|]. by intros c nd ?%elem_of_nil.
  - destruct Hc as (-> & H0 & nd & Hnd & Hl). cbn [lookup_loop length] in *.
    rewrite (arr_get_ok _ _ _ H0 Hnd), bind_ret. destruct (Z.eqb_spec (id nd) i) as [E|E].
    + exists c. split; [done|]. right. split; [set_solver|]. eauto.
    + destruct (IH fuel (next nd) Hl) as (r & -> & Hr); [lia|]. exists r. split; [done|].
      destruct Hr as [[-> Hno]|[Hin Hr]]; [left|right; split; [set_solver|done]].
      split; [done|]. intros x y [->|Hx]%elem_of_cons Hy; [congruence|eauto].
Qed.

(** Lookup finds exactly the slot of an id. *)
Lemma hashid_lookup_spec hi ch i : wf hi ch -> i <> -1 ->
  exists r, hashid_lookup hi i = Ok r /\
    ((r = -1 /\ forall c, ~ at_slot hi i c) \/ at_slot hi i r).
Proof.
  intros W Hi. unfold hashid_lookup. pose proof (land_range hi ch i W) as Hr.
  destruct (w_chain _ _ W _ Hr) as (start & Hst & Hc).
  rewrite (arr_get_ok _ _ _ (proj1 Hr) Hst), bind_ret.
  destruct (lookup_loop_ok hi i _ (chain_fuel hi) start Hc) as (r & -> & Hspec).
  { unfold chain_fuel. pose proof (chain_length hi ch _ W Hr). lia. }
  exists r. split; [done|]. destruct Hspec as [[-> Hno]|[Hin (nd & Hnd & E)]].
  - left. split; [done|]. intros c (H0 & _ & nx & Hc'). pose proof (w_used _ _ W _ _ Hc') as Hu.
    cbn in Hu. destruct (Z.eqb_spec i (-1)); [done|]. rewrite Z2Nat.id in Hu by done.
    by apply (Hno c (Nd i nx) Hu).
  - right. destruct (w_home _ _ W _ _ Hr Hin) as (nd' & _ & H0 & _). split; [done|]. split; [done|].
    exists (next nd). rewrite Hnd. destruct nd. cbn in *. congruence.
Qed.

Lemma at_slot_inj hi ch i c c' : wf hi ch -> at_slot hi i c -> at_slot hi i c' -> c = c'.
Proof.
  intros W (H0 & Hi & nx & H1) (H0' & _ & nx' & H1').
  assert (Z.to_nat c = Z.to_nat c'); [|lia]. by apply (w_inj _ _ W _ _ _ _ H1 H1').
Qed.

(** ** Changing one node *)

Lemma used_insert ids c x y : ids !! c = Some y ->
  (used (<[c := x]> ids) + (if decide (y = (-1)%Z) then 0 else 1) =
   used ids + (if decide (x = (-1)%Z) then 0 else 1))%nat.
Proof.
  intros Hc. rewrite <- (take_drop_middle ids c y Hc) at 2. pose proof (lookup_lt_Some _ _ _ Hc).
  rewrite insert_take_drop by done. unfold used. rewrite !filter_app, !length_app, !filter_cons.
  destruct (decide (x = -1)), (decide (y = -1)); repeat case_decide; cbn; try lia; done.
Qed.

Lemma fmap_insert_id (ns : list hashid_node) c nd : id <$> (<[c := nd]> ns) = <[c := id nd]> (id <$> ns).
Proof. apply list_fmap_insert. Qed.

Definition upd (h : Z) (l : list Z) (ch : Z -> list Z) : Z -> list Z :=
  fun x => if decide (x = h) then l else ch x.

Lemma ids_lookup (ns ns' : list hashid_node) c v x nd' :
  id <$> ns' = <[c := v]> (id <$> ns) -> ns' !! x = Some nd' ->
  (x = c /\ id nd' = v) \/ (x <> c /\ exists nd, ns !! x = Some nd /\ id nd' = id nd).
Proof.
  intros E Hx. apply (f_equal (fun l => l !! x)) in E. rewrite list_lookup_fmap, Hx in E. cbn in E.
  symmetry in E. destruct (decide (x = c)) as [->|Hne].
  - left. split; [done|]. apply list_lookup_insert_Some in E. naive_solver.
  - right. split; [done|]. rewrite list_lookup_insert_ne, list_lookup_fmap in E by done.
    destruct (ns !! x) as [nd|]; [|done]. injection E as E. eauto.
Qed.

(** A table whose ids are those of [hi] except in node [c], where [i] was put or
    taken away, and whose bucket [h] was changed accordingly. *)
Lemma wf_changed hi ch ns' hs' cnt c v h l' :
  wf hi ch -> 0 <= c -> id <$> ns' = <[Z.to_nat c := v]> (id <$> nodes hi) ->
  (Z.to_nat c < length (nodes hi))%nat ->
  (forall x nd', ns' !! x = Some nd' -> id nd' = -1 -> next nd' = None) ->
  Z.of_nat (length hs') = hashmod hi + 1 -> 0 <= h <= hashmod hi ->
  (exists start, hs' !! Z.to_nat h = Some start /\ chain ns' start l') ->
  (forall h', 0 <= h' <= hashmod hi -> h' <> h -> hs' !! Z.to_nat h' = hash hi !! Z.to_nat h' /\
     forall start, chain (nodes hi) start (ch h') -> chain ns' start (ch h')) ->
  NoDup l' -> cnt = Z.of_nat (used (id <$> ns')) ->
  (forall x, x ∈ l' <-> (x = c /\ v <> -1) \/ (x <> c /\ x ∈ ch h)) ->
  (v <> -1 -> Z.land v (hashmod hi) = h /\ forall x, ~ at_slot hi v x) ->
  (forall h', 0 <= h' <= hashmod hi -> h' <> h -> c ∉ ch h') ->
  wf (HI (hashmod hi) (cap hi) cnt ns' hs') (upd h l' ch).
Proof.
  intros W Hc Eid Hlt Hfree Hhs Hh Hch Hoth Hnd Hcnt Hl' Hv Hcn.
  assert (Elen : length ns' = length (nodes hi)).
  { apply (f_equal length) in Eid. by rewrite length_insert, !length_fmap in Eid. }
  split; cbn [hashmod cap count nodes hash].
  - apply W.
  - done.
  - rewrite Elen. apply W.
  - intros h' Hh'. unfold upd. destruct (decide (h' = h)) as [->|Hne]; [done|].
    destruct (Hoth h' Hh' Hne) as [-> Hc']. destruct (w_chain _ _ W h' Hh') as (st & ? & ?). eauto.
  - intros h'. unfold upd. destruct (decide (h' = h)); [done|apply W].
  - intros h' x Hh' Hx.
    assert (Hold : forall h0, 0 <= h0 <= hashmod hi -> x <> c -> x ∈ ch h0 -> exists nd, ns' !! Z.to_nat x = Some nd /\ 0 <= x /\
      id nd <> -1 /\ Z.land (id nd) (hashmod hi) = h0).
    { intros h0 Hh0 Hxc Hin. destruct (w_home _ _ W h0 x Hh0 Hin) as (nd & Hndx & Hx0 & Hne & Hland).
      destruct (lookup_lt_is_Some_2 ns' (Z.to_nat x)) as [nd' Hnd']; [rewrite Elen; by apply lookup_lt_Some in Hndx|].
      destruct (ids_lookup _ _ _ _ _ _ Eid Hnd') as [[E _]|[_ (nd0 & E0 & Ei)]]; [lia|].
      rewrite Hndx in E0. injection E0 as <-. exists nd'. rewrite Ei. auto. }
    unfold upd in Hx. destruct (decide (h' = h)) as [->|Hne].
    + apply Hl' in Hx as [[-> Hvn]|[Hxc Hin]]; [|by apply Hold].
      destruct (lookup_lt_is_Some_2 ns' (Z.to_nat c)) as [nd' Hnd']; [by rewrite Elen|].
      destruct (ids_lookup _ _ _ _ _ _ Eid Hnd') as [[_ Ei]|[E _]]; [|done].
      exists nd'. rewrite Ei. destruct (Hv Hvn). auto.
    + apply Hold; [done| |done]. intros ->. by apply (Hcn h').
  - intros x nd' Hx. destruct (Z.eqb_spec (id nd') (-1)) as [E|E]; [by apply (Hfree x)|].
    unfold upd. destruct (ids_lookup _ _ _ _ _ _ Eid Hx) as [[-> Ei]|[Hxc (nd & Hnd0 & Ei)]].
    + rewrite Ei in *. destruct (Hv E) as [Hvl _]. rewrite Hvl, decide_True by done. apply Hl'. left.
      split; [lia|done].
    + pose proof (w_used _ _ W x nd Hnd0) as Hu. rewrite <- Ei in Hu.
      destruct (Z.eqb_spec (id nd') (-1)); [done|]. destruct (decide _) as [Ed|]; [|done].
      apply Hl'. right. split; [lia|]. by rewrite <- Ed.
  - intros x x' nd nd' Hx Hx' E Hne.
    destruct (ids_lookup _ _ _ _ _ _ Eid Hx) as [[-> Ei]|[Hxc (n1 & H1 & Ei)]],
      (ids_lookup _ _ _ _ _ _ Eid Hx') as [[-> Ei']|[Hxc' (n1' & H1' & Ei')]]; [done| | |].
    + exfalso. rewrite Ei in *. destruct (Hv Hne) as [_ Hno]. apply (Hno (Z.of_nat x')).
      split; [lia|]. split; [done|]. exists (next n1'). rewrite Nat2Z.id, H1'. destruct n1'; cbn in *. congruence.
    + exfalso. assert (Hvn : v <> -1) by congruence. destruct (Hv Hvn) as [_ Hno]. apply (Hno (Z.of_nat x)).
      split; [lia|]. split; [done|]. exists (next n1). rewrite Nat2Z.id, H1. destruct n1; cbn in *. congruence.
    + apply (w_inj _ _ W _ _ _ _ H1 H1'); congruence.
  - done.
Qed.

(** ** Insertion *)

Lemma rem_range a b : 0 <= a -> 0 < b -> 0 <= Z.rem a b < b /\ Z.rem a b = a mod b.
Proof.
  intros Ha Hb. rewrite Z.rem_mod_nonneg by lia. split; [apply Z.mod_pos_bound; lia|done].
Qed.

Lemma free_loop_ok hi ch new n : wf hi ch -> 0 <= new -> new + cap hi < 2^31 ->
  forall i, 0 <= i -> i + Z.of_nat n = cap hi ->
  exists r, free_loop n i hi new = Ok r /\
    match r with
    | Some c => 0 <= c /\ exists nd, nodes hi !! Z.to_nat c = Some nd /\ id nd = -1
    | None => forall j nd, i <= j < cap hi ->
        nodes hi !! Z.to_nat ((j + new) mod cap hi) = Some nd -> id nd <> -1
    end.
Proof.
  intros W Hnew Hbig. induction n as [|n IH]; intros i Hi Hn; cbn [free_loop].
  - exists None. split; [done|]. intros j nd Hj. lia.
  - rewrite c_int_ok by lia. rewrite bind_ret. cbv zeta.
    destruct (rem_range (i + new) (cap hi)) as [Hr Er]; [lia|lia|].
    destruct (lookup_lt_is_Some_2 (nodes hi) (Z.to_nat (Z.rem (i + new) (cap hi)))) as [nd Hnd].
    { pose proof (w_cap _ _ W). lia. }
    rewrite (arr_get_ok _ _ _ (proj1 Hr) Hnd), bind_ret. destruct (Z.eqb_spec (id nd) (-1)) as [E|E].
    + eexists. split; [done|]. split; [apply Hr|]. eauto.
    + destruct (IH (i + 1)) as (r & -> & Hr'); [lia|lia|]. exists r. split; [done|].
      destruct r as [c|]; [done|]. intros j nd' Hj Hnd'.
      destruct (Z.eq_dec j i) as [->|]; [|apply (Hr' j); [lia|done]].
      rewrite <- Er, Hnd in Hnd'. by injection Hnd' as <-.
Qed.

Lemma filter_full ids : (forall c i, ids !! c = Some i -> i <> -1) -> used ids = length ids.
Proof.
  intros Hall. unfold used. rewrite filter_all; [done|].
  intros i (c & Hc)%list_elem_of_lookup. by apply (Hall c).
Qed.

Lemma free_exists hi ch new : wf hi ch -> 0 <= new -> new + cap hi < 2^31 -> count hi < cap hi ->
  exists c nd, free_loop (Z.to_nat (cap hi)) 0 hi new = Ok (Some c) /\ 0 <= c /\
    nodes hi !! Z.to_nat c = Some nd /\ id nd = -1.
Proof.
  intros W Hnew Hbig Hc. pose proof (w_cap _ _ W) as Hcap.
  destruct (free_loop_ok hi ch new (Z.to_nat (cap hi)) W Hnew Hbig 0) as (r & -> & Hr); [lia|lia|].
  destruct r as [c|]; [destruct Hr as (H0 & nd & ? & ?); by exists c, nd|].
  exfalso. assert (used (id <$> nodes hi) = length (nodes hi)) as E.
  { rewrite filter_full; [by rewrite length_fmap|]. intros c i Hci. rewrite list_lookup_fmap in Hci.
    destruct (nodes hi !! c) as [nd|] eqn:Hnd; [|done]. injection Hci as <-.
    pose proof (lookup_lt_Some _ _ _ Hnd).
    apply (Hr ((Z.of_nat c - new) mod cap hi)); [apply Z.mod_pos_bound; lia|].
    rewrite Zplus_mod_idemp_l. replace (Z.of_nat c - new + new) with (Z.of_nat c) by lia.
    by rewrite Z.mod_small, Nat2Z.id by lia. }
  rewrite (w_count _ _ W), E in Hc. lia.
Qed.

(** Where ids sit after node [c] got the id [v]. *)
Lemma at_slot_changed hi ns' c v : 0 <= c -> id <$> ns' = <[Z.to_nat c := v]> (id <$> nodes hi) ->
  (Z.to_nat c < length (nodes hi))%nat ->
  forall m p cnt hs j x, at_slot (HI m p cnt ns' hs) j x <->
    (x = c /\ j = v /\ v <> -1) \/ (x <> c /\ at_slot hi j x).
Proof.
  intros Hc Eid Hlt m p cnt hs j x. unfold at_slot. cbn [nodes].
  assert (Elen : length ns' = length (nodes hi)).
  { apply (f_equal length) in Eid. by rewrite length_insert, !length_fmap in Eid. }
  split.
  - intros (Hx & Hj & nx & Hnd).
    destruct (ids_lookup _ _ _ _ _ _ Eid Hnd) as [[E Ei]|[Hne (nd & H1 & Ei)]]; cbn in Ei.
    + left. split; [lia|]. split; [done|congruence].
    + right. split; [congruence|]. split; [done|]. split; [done|]. exists (next nd). rewrite H1.
      destruct nd; cbn in *. congruence.
  - intros [(-> & -> & Hv)|(Hne & Hx & Hj & nx & Hnd)]; (split; [done|]; split; [done|]).
    + destruct (lookup_lt_is_Some_2 ns' (Z.to_nat c)) as [nd Hnd]; [by rewrite Elen|].
      destruct (ids_lookup _ _ _ _ _ _ Eid Hnd) as [[_ Ei]|[E _]]; [|done].
      exists (next nd). rewrite Hnd. destruct nd; cbn in *. congruence.
    + destruct (lookup_lt_is_Some_2 ns' (Z.to_nat x)) as [nd Hnd']; [rewrite Elen; by eapply lookup_lt_Some|].
      destruct (ids_lookup _ _ _ _ _ _ Eid Hnd') as [[E _]|[_ (n0 & H0 & Ei)]]; [lia|].
      rewrite Hnd in H0. injection H0 as <-. exists (next nd). rewrite Hnd'. destruct nd; cbn in *. congruence.
Qed.

Lemma insert_spec hi ch new :
  wf hi ch -> 0 <= new -> new + cap hi < 2^31 -> count hi < cap hi -> (forall c, ~ at_slot hi new c) ->
  exists c hi' ch', hashid_insert hi new = Ok (c, hi') /\ wf hi' ch' /\
    cap hi' = cap hi /\ count hi' = count hi + 1 /\ 0 <= c < cap hi /\ (forall j, ~ at_slot hi j c) /\
    forall j x, at_slot hi' j x <-> (x = c /\ j = new) \/ (x <> c /\ at_slot hi j x).
Proof.
  intros W Hnew Hbig Hcnt Hno. destruct (free_exists hi ch new W Hnew Hbig Hcnt) as (c & nd & E & Hc & Hnd & Hid).
  pose proof (lookup_lt_Some _ _ _ Hnd) as Hlt. pose proof (land_range hi ch new W) as Hr.
  pose proof (w_used _ _ W _ _ Hnd) as Hfree. rewrite Hid in Hfree. cbn in Hfree.
  destruct (w_chain _ _ W _ Hr) as (old & Hold & Hch).
  unfold hashid_insert. rewrite E, bind_ret, (arr_get_ok _ _ _ Hc Hnd), bind_ret.
  rewrite bool_decide_true by done. cbn [c_assert]. rewrite bind_ret. cbv zeta.
  rewrite (arr_get_ok _ _ _ (proj1 Hr) Hold), bind_ret, (arr_set_ok (nodes hi) c) by lia. rewrite bind_ret.
  rewrite arr_set_ok by (rewrite (w_hash _ _ W); lia). rewrite bind_ret.
  set (ns' := <[Z.to_nat c := Nd new old]> (nodes hi)).
  assert (Eid : id <$> ns' = <[Z.to_nat c := new]> (id <$> nodes hi)) by apply fmap_insert_id.
  assert (Hcout : forall h, 0 <= h <= hashmod hi -> c ∉ ch h).
  { intros h Hh Hin. destruct (w_home _ _ W h c Hh Hin) as (nd' & H1 & _ & H2 & _). congruence. }
  assert (Ecnt : count hi + 1 = Z.of_nat (used (id <$> ns'))).
  { rewrite Eid, (w_count _ _ W).
    pose proof (used_insert (id <$> nodes hi) (Z.to_nat c) new (-1)) as Hu.
    rewrite list_lookup_fmap, Hnd in Hu. cbn in Hu. rewrite Hid in Hu. specialize (Hu eq_refl).
    destruct (decide (new = -1)); [lia|]. destruct (decide (-1 = -1)); [lia|done]. }
  eexists c, _, (upd (Z.land new (hashmod hi)) (c :: ch (Z.land new (hashmod hi))) ch). split; [done|].
  split; [|split_and!; try done; [rewrite <- (w_cap _ _ W); lia| |]].
  - eapply (wf_changed hi ch ns' _ _ c new); try done.
    + intros x nd' Hx E1. apply list_lookup_insert_Some in Hx as [(_ & <- & _)|[_ Hx]]; [cbn in E1; lia|].
      pose proof (w_used _ _ W _ _ Hx) as Hu. by rewrite E1 in Hu.
    + rewrite length_insert. apply W.
    + exists (Some c). rewrite list_lookup_insert_eq by (pose proof (w_hash _ _ W); lia). split; [done|].
      cbn [chain]. split; [done|]. split; [done|]. exists (Nd new old). subst ns'.
      rewrite list_lookup_insert_eq by done. split; [done|]. cbn [next]. apply node_chain_insert; [by apply Hcout|done|done].
    + intros h' Hh' Hne. rewrite list_lookup_insert_ne by lia. split; [done|].
      intros start. apply node_chain_insert; [by apply Hcout|done].
    + constructor; [by apply Hcout|apply W].
    + intros x. rewrite elem_of_cons. split; [intros [->|Hx]; [left; lia|right]|intros [[-> _]|[_ ?]]; auto].
      split; [|done]. intros ->. by apply (Hcout _ Hr).
    + intros h' Hh' _. by apply Hcout.
  - intros j (_ & Hj & nx & H1). rewrite Hnd in H1. injection H1 as ->. done.
  - intros j x. rewrite (at_slot_changed hi ns' c new Hc Eid Hlt). naive_solver lia.
Qed.
(** ** Removal *)

(** Unlinking [t] behind [p]. *)
Lemma chain_unlink ns pre : forall start p t post np nt nd,
  chain ns start (pre ++ p :: t :: post) -> NoDup (pre ++ p :: t :: post) ->
  ns !! Z.to_nat p = Some np -> ns !! Z.to_nat t = Some nt ->
  chain (<[Z.to_nat t := nd]> (<[Z.to_nat p := Nd (id np) (next nt)]> ns)) start (pre ++ p :: post).
Proof.
  induction pre as [|x pre IH]; intros start p t post np nt nd Hc Hnd Hp Ht; cbn [app] in *.
  - destruct Hc as (-> & Hp0 & y & Hy & Et & Ht0 & z & Hz & Hpost).
    apply NoDup_cons in Hnd as [Hpn Hnd]. apply NoDup_cons in Hnd as [Htn _].
    apply not_elem_of_cons in Hpn as [Hpt Hpp].
    pose proof (lookup_lt_Some _ _ _ Hp). split; [done|]. split; [done|].
    exists (Nd (id np) (next nt)). rewrite list_lookup_insert_ne, list_lookup_insert_eq by lia.
    split; [done|]. cbn [next]. rewrite Ht in Hz. injection Hz as <-.
    apply node_chain_insert; [done|done|]. apply node_chain_insert; done.
  - destruct Hc as (-> & Hx0 & y & Hy & Hrest). apply NoDup_cons in Hnd as [Hx Hnd].
    split; [done|]. split; [done|]. exists y.
    assert (Hp0 : 0 <= p /\ 0 <= t).
    { clear -Hrest. revert Hrest. generalize (next y). induction pre as [|a pre IHp]; intros st; cbn [app chain].
      - intros (_ & ? & y' & _ & _ & ? & _). done.
      - intros (_ & _ & y' & _ & Hr). by apply (IHp _ Hr). }
    assert (x <> p /\ x <> t) as [Hxp Hxt] by (split; intros ->; apply Hx; set_solver).
    rewrite !list_lookup_insert_ne by lia. split; [done|]. by apply IH.
Qed.

(** The loop finds the node behind which the id hangs, if there is one. *)
Lemma remove_loop_ok hi i l : forall fuel pre c start,
  chain (nodes hi) start (pre ++ c :: l) -> (length l < fuel)%nat ->
  (exists nd, nodes hi !! Z.to_nat c = Some nd /\ id nd <> i) ->
  (remove_loop fuel hi c i = Ok (-1, hi) /\
     forall x nd, x ∈ l -> nodes hi !! Z.to_nat x = Some nd -> id nd <> i) \/
  exists l1 p t post np nt, pre ++ c :: l = l1 ++ p :: t :: post /\
    nodes hi !! Z.to_nat p = Some np /\ nodes hi !! Z.to_nat t = Some nt /\ id nt = i /\ 0 <= p /\ 0 <= t /\
    remove_loop fuel hi c i = clear_node hi (<[Z.to_nat p := Nd (id np) (next nt)]> (nodes hi)) (hash hi) t.
Proof.
  induction l as [|t l IH]; intros fuel pre c start Hc Hf (nd & Hnd & Hne);
    (destruct fuel as [|fuel]; [lia|]); cbn [remove_loop].
  - assert (Hlast : 0 <= c /\ exists nd, nodes hi !! Z.to_nat c = Some nd /\ next nd = None).
    { clear -Hc. revert start Hc. induction pre as [|a pre IHp]; intros st; cbn [app chain].
      - intros (_ & ? & y & Hy & En). eauto.
      - intros (_ & _ & y & _ & Hr). by apply (IHp _ Hr). }
    destruct Hlast as (H0 & nd' & Hnd' & En). rewrite Hnd in Hnd'. injection Hnd' as <-.
    left. rewrite (arr_get_ok _ _ _ H0 Hnd), bind_ret, En. split; [done|]. by intros x y ?%elem_of_nil.
  - assert (Hmid : 0 <= c /\ 0 <= t /\ (exists nd, nodes hi !! Z.to_nat c = Some nd /\ next nd = Some t) /\
      exists nt, nodes hi !! Z.to_nat t = Some nt).
    { clear -Hc. revert start Hc. induction pre as [|a pre IHp]; intros st; cbn [app chain].
      - intros (_ & ? & y & Hy & En & ? & z & Hz & _). eauto 10.
      - intros (_ & _ & y & _ & Hr). by apply (IHp _ Hr). }
    destruct Hmid as (H0 & Ht0 & (nd' & Hnd' & En) & nt & Hnt). rewrite Hnd in Hnd'. injection Hnd' as <-.
    rewrite (arr_get_ok _ _ _ H0 Hnd), bind_ret, En, (arr_get_ok _ _ _ Ht0 Hnt), bind_ret.
    destruct (Z.eqb_spec (id nt) i) as [E|E].
    + right. exists pre, c, t, l, nd, nt. pose proof (lookup_lt_Some _ _ _ Hnd). split_and!; try done.
      rewrite (arr_set_ok (nodes hi) c) by lia. done.
    + cbn [length] in Hf. destruct (IH fuel (pre ++ [c]) t start) as [[E1 Hno]|(l1 & p & t' & post & np & nt' & E1 & Hrest)].
      { by rewrite <- app_assoc. } { lia. } { eauto. }
      * left. split; [done|]. intros x y [->|Hx]%elem_of_cons Hy; [congruence|eauto].
      * right. exists l1, p, t', post, np, nt'. rewrite <- app_assoc in E1. done.
Qed.

(** Where a node with the id [i] is chained. *)
Lemma slot_in_chain hi ch i c nx : wf hi ch -> i <> -1 ->
  nodes hi !! Z.to_nat c = Some (Nd i nx) -> 0 <= c -> c ∈ ch (Z.land i (hashmod hi)).
Proof.
  intros W Hi Hc H0. pose proof (w_used _ _ W _ _ Hc) as Hu. cbn in Hu.
  destruct (Z.eqb_spec i (-1)); [done|]. by rewrite Z2Nat.id in Hu by done.
Qed.

(** A node [t] with id [i] is cleared, its bucket becoming [l']. *)
Lemma clear_node_ok hi ch i t nt ns1 hs' l' :
  wf hi ch -> i <> -1 -> let h := Z.land i (hashmod hi) in
  nodes hi !! Z.to_nat t = Some nt -> id nt = i -> 0 <= t ->
  id <$> ns1 = id <$> nodes hi -> Z.of_nat (length hs') = hashmod hi + 1 ->
  (forall x nd', ns1 !! x = Some nd' -> id nd' = -1 -> next nd' = None) ->
  (exists st, hs' !! Z.to_nat h = Some st /\ chain (<[Z.to_nat t := Nd (-1) None]> ns1) st l') ->
  (forall h', 0 <= h' <= hashmod hi -> h' <> h -> hs' !! Z.to_nat h' = hash hi !! Z.to_nat h' /\
     forall st, chain (nodes hi) st (ch h') -> chain ns1 st (ch h')) ->
  NoDup l' -> (forall x, x ∈ l' <-> x <> t /\ x ∈ ch h) ->
  exists r hi' ch', clear_node hi ns1 hs' t = Ok (r, hi') /\ wf hi' ch' /\ cap hi' = cap hi /\
    ((r = -1 /\ hi' = hi /\ forall c, ~ at_slot hi i c) \/
     (at_slot hi i r /\ count hi' = count hi - 1 /\
      forall j x, at_slot hi' j x <-> x <> r /\ at_slot hi j x)).
Proof.
  intros W Hi h Hnt Eid Ht0 Ens Hhs Hfree Hbk Hoth Hnd Hl'. pose proof (land_range hi ch i W) as Hr. fold h in Hr.
  pose proof (lookup_lt_Some _ _ _ Hnt) as Hlt.
  assert (El : length ns1 = length (nodes hi)) by (apply (f_equal length) in Ens; by rewrite !length_fmap in Ens).
  unfold clear_node. rewrite arr_set_ok by lia. rewrite bind_ret.
  set (ns' := <[Z.to_nat t := Nd (-1) None]> ns1) in *.
  assert (Eid' : id <$> ns' = <[Z.to_nat t := -1]> (id <$> nodes hi)).
  { subst ns'. rewrite fmap_insert_id. cbn [id]. by rewrite Ens. }
  assert (Htin : t ∈ ch h).
  { apply (slot_in_chain hi ch i t (next nt)); [done|done| |done]. rewrite Hnt. destruct nt; cbn in *. by subst. }
  assert (Htout : forall h', 0 <= h' <= hashmod hi -> h' <> h -> t ∉ ch h').
  { intros h' Hh' Hne Hin. destruct (w_home _ _ W h' t Hh' Hin) as (nd & H1 & _ & _ & H2).
    rewrite Hnt in H1. injection H1 as <-. subst h. congruence. }
  eexists t, _, (upd h l' ch). split; [done|]. split; [|split; [done|right; split; [|split; [done|]]]].
  - eapply (wf_changed hi ch ns' hs' _ t (-1) h l'); try done.
    + intros x nd' Hx E. apply list_lookup_insert_Some in Hx as [(_ & <- & _)|[_ Hx]]; [done|eauto].
    + intros h' Hh' Hne. destruct (Hoth h' Hh' Hne) as [H1 H2]. split; [done|].
      intros st Hc. apply node_chain_insert; [by apply Htout|done|auto].
    + rewrite Eid', (w_count _ _ W).
      pose proof (used_insert (id <$> nodes hi) (Z.to_nat t) (-1) i) as Hu.
      rewrite list_lookup_fmap, Hnt in Hu. cbn in Hu. rewrite Eid in Hu. specialize (Hu eq_refl).
      destruct (decide (i = -1)); [done|]. destruct (decide (-1 = -1)); [lia|done].
    + intros x. rewrite Hl'. naive_solver.
  - split; [done|]. split; [done|]. exists (next nt). rewrite Hnt. destruct nt; cbn in *. by subst.
  - intros j x. rewrite (at_slot_changed hi ns' t (-1) Ht0 Eid' Hlt). naive_solver.
Qed.

Lemma remove_spec hi ch i : wf hi ch -> i <> -1 ->
  exists r hi' ch', hashid_remove hi i = Ok (r, hi') /\ wf hi' ch' /\ cap hi' = cap hi /\
    ((r = -1 /\ hi' = hi /\ forall c, ~ at_slot hi i c) \/
     (at_slot hi i r /\ count hi' = count hi - 1 /\
      forall j x, at_slot hi' j x <-> x <> r /\ at_slot hi j x)).
Proof.
  intros W Hi. set (h := Z.land i (hashmod hi)). pose proof (land_range hi ch i W) as Hr. fold h in Hr.
  destruct (w_chain _ _ W _ Hr) as (start & Hst & Hch). unfold hashid_remove. fold h.
  rewrite (arr_get_ok _ _ _ (proj1 Hr) Hst), bind_ret.
  assert (Hwhere : forall c nx, nodes hi !! Z.to_nat c = Some (Nd i nx) -> 0 <= c -> c ∈ ch h)
    by (intros c nx; by apply slot_in_chain).
  assert (Hfree0 : forall x nd', nodes hi !! x = Some nd' -> id nd' = -1 -> next nd' = None).
  { intros x nd' Hx E. pose proof (w_used _ _ W _ _ Hx) as Hu. by rewrite E in Hu. }
  destruct (ch h) as [|c l] eqn:Ech.
  - cbn in Hch. subst start. exists (-1), hi, ch. split_and!; try done. left. split_and!; try done.
    intros c (H0 & _ & nx & Hc). apply (Hwhere c nx Hc) in H0. set_solver.
  - destruct Hch as (-> & H0 & nd & Hnd & Hl). rewrite (arr_get_ok _ _ _ H0 Hnd), bind_ret.
    pose proof (w_nodup _ _ W h) as Hdup. rewrite Ech in Hdup.
    destruct (Z.eqb_spec (id nd) i) as [E|E].
    + rewrite arr_set_ok by (rewrite (w_hash _ _ W); lia). rewrite bind_ret.
      apply NoDup_cons in Hdup as [Hcl Hdup].
      apply (clear_node_ok hi ch i c nd (nodes hi) _ l); fold h; rewrite ?Ech; try done.
      * rewrite length_insert. apply W.
      * exists (next nd). rewrite list_lookup_insert_eq by (pose proof (w_hash _ _ W); lia).
        split; [done|]. by apply node_chain_insert.
      * intros h' Hh' Hne. rewrite list_lookup_insert_ne by lia. done.
      * intros x. rewrite elem_of_cons. split; [|naive_solver]. intros Hx. split; [by intros ->|by right].
    + destruct (remove_loop_ok hi i l (chain_fuel hi) [] c (Some c)) as [[-> Hno]|Hyes].
      { cbn. eauto 10. }
      { unfold chain_fuel. pose proof (chain_length hi ch h W Hr) as Hcl. rewrite Ech in Hcl. cbn in Hcl. lia. }
      { eauto. }
      * exists (-1), hi, ch. split_and!; try done. left. split_and!; try done.
        intros x (Hx0 & _ & nx & Hx). apply (Hwhere x nx Hx) in Hx0 as [->|Hin]%elem_of_cons.
        -- rewrite Hnd in Hx. injection Hx as ->. done.
        -- by apply (Hno x _ Hin Hx).
      * destruct Hyes as (l1 & p & t & post & np & nt & El & Hp & Ht & Eid & Hp0 & Ht0 & ->). cbn [app] in El.
        assert (Hch' : chain (nodes hi) (Some c) (l1 ++ p :: t :: post)).
        { rewrite <- El. cbn. eauto 10. }
        assert (Hdup' : NoDup (l1 ++ p :: t :: post)) by by rewrite <- El.
        assert (Hin_p : p ∈ c :: l) by (rewrite El; set_solver).
        apply (clear_node_ok hi ch i t nt _ (hash hi) (l1 ++ p :: post)); fold h; rewrite ?Ech; try done.
        -- rewrite fmap_insert_id. cbn [id]. apply list_insert_id. by rewrite list_lookup_fmap, Hp.
        -- apply W.
        -- intros x nd' Hx E1. apply list_lookup_insert_Some in Hx as [(_ & <- & _)|[_ Hx]]; [|eauto].
           cbn in E1. rewrite <- Ech in Hin_p. destruct (w_home _ _ W h p Hr Hin_p) as (np' & H1 & _ & H2 & _).
           rewrite Hp in H1. injection H1 as <-. done.
        -- exists (Some c). split; [done|]. by apply chain_unlink.
        -- intros h' Hh' Hne. split; [done|]. intros st Hc. apply node_chain_insert; [|done|done].
           intros Hin. rewrite <- Ech in Hin_p.
           destruct (w_home _ _ W h p Hr Hin_p) as (np' & H1 & _ & _ & H2).
           destruct (w_home _ _ W h' p Hh' Hin) as (np'' & H1' & _ & _ & H2'). congruence.
        -- apply NoDup_app in Hdup' as (Hd1 & Hd2 & Hd3). apply NoDup_cons in Hd3 as [Hpt Hd3].
           apply NoDup_cons in Hd3 as [Htp Hd3]. apply NoDup_app. split; [done|]. split; [set_solver|].
           apply NoDup_cons. split; [set_solver|done].
        -- intros x. rewrite El. apply NoDup_app in Hdup' as (Hd1 & Hd2 & Hd3).
           apply NoDup_cons in Hd3 as [Hpt Hd3]. apply NoDup_cons in Hd3 as [Htp Hd3].
           assert (t ∉ l1) by (intros Hin; apply (Hd2 t Hin); set_solver).
           assert (t <> p) by (intros ->; apply Hpt; set_solver).
           rewrite !elem_of_app, !elem_of_cons. split; [intros Hx; split; [intros ->|]; tauto|tauto].
Qed.

(** ** The empty table *)

Lemma hashcap_loop_ok fuel : forall k max, 4 <= k -> 2^30 < 2^(k + Z.of_nat fuel) -> k <= 30 -> max <= 2^30 ->
  exists k', k <= k' <= 30 /\ hashcap_loop fuel (2^k) max = Ok (2^k').
Proof.
  induction fuel as [|fuel IH]; intros k max H4 Hf Hk Hm.
  - apply Z.pow_lt_mono_r_iff in Hf; lia.
  - cbn [hashcap_loop]. destruct (Z.ltb_spec (2^k) max) as [Hlt|Hge]; [|by exists k].
    assert (k < 30) by (apply (Z.pow_lt_mono_r_iff 2); lia).
    assert (2^k * 2 = 2^(k+1)) as -> by (rewrite Z.pow_add_r by lia; lia).
    assert (2^(k+1) <= 2^30) by (apply Z.pow_le_mono_r; lia).
    rewrite c_int_ok by lia. rewrite bind_ret.
    destruct (IH (k+1) max) as (k' & Hk' & ->); [lia| |lia|done|exists k'; split; [lia|done]].
    by replace (k + 1 + Z.of_nat fuel) with (k + Z.of_nat (S fuel)) by lia.
Qed.

Lemma used_free n : used (replicate n (-1)) = 0%nat.
Proof. unfold used. induction n as [|n IH]; [done|]. cbn [replicate]. by rewrite filter_cons_False by tauto. Qed.

Lemma hashid_init_ok max : 0 < max <= 2^30 ->
  exists hi, hashid_init max = Ok hi /\ wf hi (fun _ => []) /\ cap hi = max /\ count hi = 0 /\
    forall i c, ~ at_slot hi i c.
Proof.
  intros Hm. unfold hashid_init.
  destruct (hashcap_loop_ok 29 4 max) as (k & Hk & E); [lia|by apply Z.ltb_lt|lia|lia|].
  change (2^4) with 16 in E. rewrite E, bind_ret. eexists. split; [done|].
  assert (Hp : 0 < 2^k) by lia.
  assert (Hfree : forall c nd, replicate (Z.to_nat max) (Nd (-1) None) !! c = Some nd -> nd = Nd (-1) None)
    by (intros c nd Hc; by apply lookup_replicate in Hc as [-> _]).
  split; [|split_and!; try done].
  - split; cbn [hashmod cap count nodes hash].
    + eauto.
    + rewrite length_replicate. lia.
    + rewrite length_replicate. lia.
    + intros h Hh. exists None. split; [|done]. apply lookup_replicate. split; [done|lia].
    + intros _. constructor.
    + by intros h c _ ?%elem_of_nil.
    + intros c nd ->%Hfree. done.
    + intros c c' nd nd' ->%Hfree ->%Hfree _ Hne. done.
    + rewrite fmap_replicate. cbn [id]. by rewrite used_free.
  - intros i c (_ & Hi & nx & E1%Hfree). congruence.
Qed.

(** C29.  The connection table is a finite map from ids to slots: a lookup returns
    the slot of an id or -1; an insertion into a table that is not full uses a
    free slot and leaves every other id in its slot; a removal empties the slot
    of its id only and returns it, or returns -1 and changes nothing. *)
Theorem hashid_is_a_map hi ch i :
  wf hi ch -> 0 <= i -> i + cap hi < 2^31 ->
  (exists r, hashid_lookup hi i = Ok r /\ ((r = -1 /\ forall c, ~ at_slot hi i c) \/ at_slot hi i r)) /\
  (count hi < cap hi -> (forall c, ~ at_slot hi i c) ->
   exists c hi' ch', hashid_insert hi i = Ok (c, hi') /\ wf hi' ch' /\ count hi' = count hi + 1 /\
     (forall j, ~ at_slot hi j c) /\
     forall j x, at_slot hi' j x <-> (x = c /\ j = i) \/ (x <> c /\ at_slot hi j x)) /\
  (exists r hi' ch', hashid_remove hi i = Ok (r, hi') /\ wf hi' ch' /\
     ((r = -1 /\ hi' = hi /\ forall c, ~ at_slot hi i c) \/
      (at_slot hi i r /\ count hi' = count hi - 1 /\
       forall j x, at_slot hi' j x <-> x <> r /\ at_slot hi j x))).
Proof.
  intros W Hi Hbig. split_and!.
  - apply (hashid_lookup_spec hi ch); [done|lia].
  - intros Hc Hno. destruct (insert_spec hi ch i W Hi Hbig Hc Hno) as (c & hi' & ch' & E & W' & _ & Ec & _ & Hf & Ha).
    exists c, hi', ch'. done.
  - destruct (remove_spec hi ch i W) as (r & hi' & ch' & E & W' & _ & Hs); [lia|]. exists r, hi', ch'. done.
Qed.

Lemma hashid_witness : exists hi ch, wf hi ch /\ hashid_lookup hi 5 = Ok 1 /\
  exists r hi' ch', hashid_remove hi 5 = Ok (r, hi') /\ wf hi' ch'.
Proof.
  destruct (hashid_init_ok 4) as (h0 & E0 & W0 & Ec & En & Hno); [lia|].
  destruct (insert_spec h0 (fun _ => []) 5 W0) as (c & h1 & ch1 & E1 & W1 & Ec1 & _);
    [lia|rewrite Ec; lia|lia|apply Hno|].
  assert (E : hashid_lookup h1 5 = Ok 1).
  { clear -E0 E1. revert E0. vm_compute. intros [= <-]. revert E1. vm_compute. intros [= <- <-]. done. }
  exists h1, ch1. split; [exact W1|]. split; [exact E|].
  destruct (hashid_is_a_map h1 ch1 5 W1) as (_ & _ & r & h2 & ch2 & E2 & W2 & _); [lia|rewrite Ec1, Ec; lia|].
  exists r, h2, ch2. split; [exact E2|exact W2].
Defined.
End Hash.
