(* ===== verification/Gate.v ===== *)
(** * The gate service ([service-src/service_gate.c])

    The gate owns the connections of the clients: it splits the byte stream of
    each into packets and forwards them to the broker, to the agent of the
    connection or to the watchdog, and obeys the text commands of the watchdog.

    What the gate asks of the rest of the node goes through the interface
    [Skynet]; the gate's functions are written against it, so what they do is
    the sequence of calls they make.  Memory blocks are values: freeing one is
    dropping it. *)

From S2P Require Import Prelude Mq Handle Text Module Server Command Netpack Databuffer Hashid.
From stdpp Require Import base numbers list gmap.
From Stdlib Require Import ZArith Lia String.
#[local] Open Scope Z_scope.
#[local] Open Scope list_scope.

Definition PTYPE_SOCKET : Z := 6.

(** The calls into [skynet.h] and [skynet_socket.h]; [ctx] is part of the world.
    [send] takes the payload as bytes. *)
Class Skynet (W : Type) := {
  send : Z -> Z -> Z -> Z -> list Z -> W -> outcome W;  (** source dest type session *)
  error : cstr -> W -> outcome W;
  queryname : cstr -> W -> outcome (Z * W);
  set_callback : W -> outcome W;
  socket_close : Z -> W -> outcome W;
  socket_start : Z -> W -> outcome W;
  socket_send : Z -> list Z -> W -> outcome W;
  socket_listen : cstr -> Z -> Z -> W -> outcome (Z * W)
}.

(** What [%s] prints of an array that may hold no more than its length. *)
Fixpoint upto_nul (buf : list Z) : cstr :=
  match buf with
  | [] => []
  | c :: buf => if c =? 0 then [] else c :: upto_nul buf
  end.

(** [memcmp(a, lit, i) == 0] for a literal and its terminator; the comparison
    ends at the first difference. *)
Fixpoint memcmp_eq (a lit : list Z) (i : nat) {struct i} : outcome bool :=
  match i, a, lit with
  | O, _, _ => Ok true
  | S i, x :: a, y :: lit => if x =? y then memcmp_eq a lit i else Ok false
  | S _, _, _ => Fault OutOfBounds
  end.

(** [strsep(&p, " ")] on the string at offset [p]: the buffer with the delimiter
    overwritten and the new pointer. *)
Fixpoint to_delim (buf : list Z) : nat :=
  match buf with
  | c :: buf => if (c =? 32) || (c =? 0) then O else S (to_delim buf)
  | [] => O
  end.
Definition strsep_at (buf : list Z) (p : nat) : list Z * option nat :=
  let q := (p + to_delim (drop p buf))%nat in
  match buf !! q with
  | Some c => if c =? 32 then (<[q := 0]> buf, Some (S q)) else (buf, None)
  | None => (buf, None)
  end.

(** [%d] of [sscanf] *)
Fixpoint skip_digits (s : cstr) : cstr :=
  match s with
  | c :: s' => if (48 <=? c) && (c <=? 57) then skip_digits s' else s
  | [] => []
  end.
Definition scan_int (s : cstr) : option Z * cstr :=
  let s := skip_spaces s in
  let '(_, r) := read_sign s in
  match r with
  | c :: _ => if (48 <=? c) && (c <=? 57) then (Some (strtol10 s), skip_digits r) else (None, s)
  | [] => (None, s)
  end.

Module Gate.
Import Data Hash.

Definition BACKLOG : Z := 32.

Record connection := Conn {
  c_id : Z; agent : Z; client : Z; remote_name : list Z; buffer : databuffer
}.

Record gate := MkGate {
  listen_id : Z;
  watchdog : Z;
  broker : Z;
  client_tag : Z;
  header_size : Z;
  max_connection : Z;
  table : hashid;          (** [hash] *)
  conn : list connection;
  mp : messagepool
}.

Definition set_listen x g := MkGate x (watchdog g) (broker g) (client_tag g) (header_size g)
  (max_connection g) (table g) (conn g) (mp g).
Definition set_watchdog x g := MkGate (listen_id g) x (broker g) (client_tag g) (header_size g)
  (max_connection g) (table g) (conn g) (mp g).
Definition set_broker x g := MkGate (listen_id g) (watchdog g) x (client_tag g) (header_size g)
  (max_connection g) (table g) (conn g) (mp g).
Definition set_conns t c m g := MkGate (listen_id g) (watchdog g) (broker g) (client_tag g) (header_size g)
  (max_connection g) t c m.

Definition set_buffer b c := Conn (c_id c) (agent c) (client c) (remote_name c) b.

(** A connection cleared by [memset], with the id -1. *)
Definition no_conn : connection := Conn (-1) 0 0 (replicate 32 0) empty.

Definition gate_create : gate := MkGate (-1) 0 0 0 0 0 (HI 0 0 0 [] []) [] (MP 0 0).

Section Handlers.
Context {W : Type} `{!Skynet W}.

Fixpoint close_all (cs : list connection) (w : W) : outcome W :=
  match cs with
  | [] => Ok w
  | c :: cs =>
      w ← (if 0 <=? c_id c then socket_close (c_id c) w else Ok w);
      close_all cs w
  end.

Definition gate_release (g : gate) (w : W) : outcome W :=
  w ← close_all (take (Z.to_nat (max_connection g)) (conn g)) w;
  if 0 <=? listen_id g then socket_close (listen_id g) w else Ok w.

(** [_parm]: the [sz] bytes of [msg] behind the command and its spaces are moved
    to the front and terminated; the bytes behind them stay. *)
Fixpoint parm_skip (n : nat) (msg : list Z) (command_sz : Z) : outcome Z :=
  match n with
  | O => Ok command_sz
  | S n =>
      c ← arr_get msg command_sz;
      if negb (c =? 32) then Ok command_sz else parm_skip n msg (command_sz + 1)
  end.
Definition _parm (msg : list Z) (sz command_sz : Z) : outcome (list Z) :=
  command_sz ← parm_skip (Z.to_nat (sz - command_sz)) msg command_sz;
  msg ← for_loop (Z.to_nat (sz - command_sz)) command_sz
    (fun i msg => c ← arr_get msg i; arr_set msg (i - command_sz) c) msg;
  arr_set msg (sz - command_sz) 0.

Definition _forward_agent (g : gate) (fd agentaddr clientaddr : Z) : outcome gate :=
  id ← hashid_lookup (table g) fd;
  if 0 <=? id then
    c ← arr_get (conn g) id;
    cs ← arr_set (conn g) id (Conn (c_id c) agentaddr clientaddr (remote_name c) (buffer c));
    Ok (set_conns (table g) cs (mp g) g)
  else Ok g.

(** [for (i=0;i<sz;i++) if (command[i]==' ') break;] *)
Fixpoint command_end (msg : list Z) : nat :=
  match msg with
  | c :: msg => if c =? 32 then O else S (command_end msg)
  | [] => O
  end.

(** A literal with its terminator. *)
Definition lit (s : string) : list Z := str s ++ [0].

Definition ctrl_kick (g : gate) (tmp : list Z) (sz i : Z) (w : W) : outcome (gate * W) :=
  tmp ← _parm tmp sz i;
  command ← c_string tmp;
  let uid := strtol10 command in
  id ← hashid_lookup (table g) uid;
  w ← (if 0 <=? id then socket_close uid w else Ok w);
  Ok (g, w).

Definition ctrl_forward (g : gate) (tmp : list Z) (sz i : Z) (w : W) : outcome (gate * W) :=
  tmp ← _parm tmp sz i;
  let '(tmp, p) := strsep_at tmp 0 in
  match p with
  | None => Ok (g, w)
  | Some a =>
      idstr ← c_string tmp;
      let id := strtol10 idstr in
      let '(tmp, p) := strsep_at tmp a in
      match p with
      | None => Ok (g, w)
      | Some client =>
          s1 ← c_string (drop (S a) tmp);
          s2 ← c_string (drop (S client) tmp);
          g ← _forward_agent g id (u32 (strtoul16 s1)) (u32 (strtoul16 s2));
          Ok (g, w)
      end
  end.

Definition ctrl_start (g : gate) (tmp : list Z) (sz i : Z) (w : W) : outcome (gate * W) :=
  tmp ← _parm tmp sz i;
  command ← c_string tmp;
  let uid := strtol10 command in
  id ← hashid_lookup (table g) uid;
  w ← (if 0 <=? id then socket_start uid w else Ok w);
  Ok (g, w).

Definition _ctrl (g : gate) (msg : list Z) (w : W) : outcome (gate * W) :=
  let sz := Z.of_nat (List.length msg) in
  let tmp := msg ++ [0] in
  if sz =? 0 then Ok (g, w)
  else
    let k := command_end msg in
    let i := Z.of_nat k in
    b ← memcmp_eq tmp (lit "kick") k;
    if (b : bool) then ctrl_kick g tmp sz i w
    else
    b ← memcmp_eq tmp (lit "forward") k;
    if (b : bool) then ctrl_forward g tmp sz i w
    else
    b ← memcmp_eq tmp (lit "broker") k;
    if (b : bool) then
      tmp ← _parm tmp sz i;
      command ← c_string tmp;
      '(h, w) ← queryname command w;
      Ok (set_broker h g, w)
    else
    b ← memcmp_eq tmp (lit "start") k;
    if (b : bool) then ctrl_start g tmp sz i w
    else
    b ← memcmp_eq tmp (lit "close") k;
    if (b : bool) then
      if 0 <=? listen_id g then
        w ← socket_close (listen_id g) w;
        Ok (set_listen (-1) g, w)
      else Ok (g, w)
    else
      command ← c_string tmp;
      w ← error (str "[gate] Unkown command : " ++ command) w;
      Ok (g, w).

(** The texts fit the 1024 bytes of [tmp]. *)
Definition _report (g : gate) (text : cstr) (w : W) : outcome W :=
  if watchdog g =? 0 then Ok w
  else send 0 (watchdog g) PTYPE_TEXT 0 text w.

Definition _forward (g : gate) (c : connection) (size : Z) (w : W)
    : outcome (databuffer * messagepool * W) :=
  if negb (broker g =? 0) then
    '(temp, b, mp) ← databuffer_read (buffer c) (mp g) size;
    w ← send 0 (broker g) (Z.lor (client_tag g) PTYPE_TAG_DONTCOPY) 1 temp w;
    Ok (b, mp, w)
  else if negb (agent c =? 0) then
    '(temp, b, mp) ← databuffer_read (buffer c) (mp g) size;
    w ← send (client c) (agent c) (Z.lor (client_tag g) PTYPE_TAG_DONTCOPY) 1 temp w;
    Ok (b, mp, w)
  else if negb (watchdog g =? 0) then
    '(temp, b, mp) ← databuffer_read (buffer c) (mp g) size;
    w ← send 0 (watchdog g) (Z.lor PTYPE_TEXT PTYPE_TAG_DONTCOPY) 1
          (fmt_d (c_id c) ++ str " data " ++ temp) w;
    Ok (b, mp, w)
  else Ok (buffer c, mp g, w).

Definition set_mp m g := set_conns (table g) (conn g) m g.

(** The [for (;;)] of [dispatch_message], on the buffer of [c] and the pool. *)
Fixpoint packet_loop (fuel : nat) (g : gate) (c : connection) (id : Z) (w : W)
    : outcome (databuffer * messagepool * W) :=
  match fuel with
  | O => Fault OutOfFuel
  | S fuel =>
      '(size, b, m) ← databuffer_readheader (buffer c) (mp g) (header_size g);
      if size <? 0 then Ok (b, m, w)
      else if 0 <? size then
        if 0x1000000 <=? size then
          '(b, m) ← databuffer_clear b m;
          w ← socket_close id w;
          w ← error (str "Recv socket message > 16M") w;
          Ok (b, m, w)
        else
          '(b, m, w) ← _forward (set_mp m g) (set_buffer b c) size w;
          packet_loop fuel (set_mp m g) (set_buffer (databuffer_reset b) c) id w
      else packet_loop fuel (set_mp m g) (set_buffer b c) id w
  end.

(** Each round but the first reads a header, so the buffered bytes bound the
    number of rounds. *)
Definition dispatch_message (g : gate) (c : connection) (id : Z) (data : list Z) (sz : Z) (w : W)
    : outcome (databuffer * messagepool * W) :=
  '(b, m) ← databuffer_push (buffer c) (mp g) data sz;
  packet_loop (3 + Z.to_nat (dsize b)) (set_mp m g) (set_buffer b c) id w.

Definition dispatch_socket_message (g : gate) (message : Netpack.socket_message) (sz : Z) (w : W)
    : outcome (gate * W) :=
  let mid := Netpack.s_id message in
  let ud := Netpack.s_ud message in
  match Netpack.s_type message with
  | Netpack.SData =>
      id ← hashid_lookup (table g) mid;
      if 0 <=? id then
        c ← arr_get (conn g) id;
        data ← nonnull (Netpack.s_buffer message);
        '(b, m, w) ← dispatch_message g c mid data ud w;
        cs ← arr_set (conn g) id (set_buffer b c);
        Ok (set_conns (table g) cs m g, w)
      else
        w ← error (str "Drop unknown connection " ++ fmt_d mid ++ str " message") w;
        w ← socket_close mid w;
        Ok (g, w)
  | Netpack.SConnect =>
      if mid =? listen_id g then Ok (g, w)
      else
        id ← hashid_lookup (table g) mid;
        if id <? 0 then
          w ← error (str "Close unknown connection " ++ fmt_d mid) w;
          w ← socket_close mid w;
          Ok (g, w)
        else Ok (g, w)
  | Netpack.SClose | Netpack.SError =>
      '(id, t) ← hashid_remove (table g) mid;
      if 0 <=? id then
        c ← arr_get (conn g) id;
        '(_, m) ← databuffer_clear (buffer c) (mp g);
        cs ← arr_set (conn g) id no_conn;
        w ← _report g (fmt_d mid ++ str " close") w;
        Ok (set_conns t cs m g, w)
      else Ok (set_conns t (conn g) (mp g) g, w)
  | Netpack.SAccept =>
      _ ← c_assert (listen_id g =? mid);
      if hashid_full (table g) then w ← socket_close ud w; Ok (g, w)
      else
        '(id, t) ← hashid_insert (table g) ud;
        c ← arr_get (conn g) id;
        let sz := if 32 <=? sz then 31 else sz in
        b ← mem_read (Netpack.s_padding message) 0 sz;
        name ← mem_write (remote_name c) 0 (b ++ [0]);
        cs ← arr_set (conn g) id (Conn ud (agent c) (client c) name (buffer c));
        let g := set_conns t cs (mp g) g in
        w ← _report g (fmt_d ud ++ str " open " ++ fmt_d ud ++ str " " ++ upto_nul name ++ str ":0") w;
        w ← error (str "socket open: " ++ fmt_x (u32 ud)) w;
        Ok (g, w)
  | Netpack.SWarning =>
      w ← error (str "fd (" ++ fmt_d mid ++ str ") send buffer (" ++ fmt_d ud ++ str ")K") w;
      Ok (g, w)
  | Netpack.SUdp => Ok (g, w)
  end.

(** What [msg] points to: the bytes of a text or of a packet, or a
    [struct skynet_socket_message]. *)
Inductive content :=
  | Bytes (b : list Z)
  | Socket (m : Netpack.socket_message).

(** The [type] alone decides what [msg] is taken for; when it points to something
    else, the C code reads one as the other.  The result 1 tells the dispatcher not
    to free [msg]. *)
Definition _cb (g : gate) (type source : Z) (msg : content) (w : W) : outcome (Z * gate * W) :=
  if type =? PTYPE_TEXT then
    match msg with
    | Bytes b => '(g, w) ← _ctrl g b w; Ok (0, g, w)
    | Socket _ => Fault Mistyped
    end
  else if type =? PTYPE_CLIENT then
    match msg with
    | Bytes b =>
        let sz := Z.of_nat (List.length b) in
        if sz <=? 4 then
          w ← error (str "Invalid client message from " ++ fmt_x source) w;
          Ok (0, g, w)
        else
          b0 ← arr_get b (sz - 4);
          b1 ← arr_get b (sz - 3);
          b2 ← arr_get b (sz - 2);
          b3 ← arr_get b (sz - 1);
          let uid := u32 (Z.lor (Z.lor (Z.lor b0 (Z.shiftl b1 8)) (Z.shiftl b2 16)) (Z.shiftl b3 24)) in
          id ← hashid_lookup (table g) (i32 uid);
          if 0 <=? id then
            payload ← mem_read b 0 (sz - 4);
            w ← socket_send (i32 uid) payload w;
            Ok (1, g, w)
          else
            w ← error (str "Invalid client id " ++ fmt_d (i32 uid) ++ str " from " ++ fmt_x source) w;
            Ok (0, g, w)
    | Socket _ => Fault Mistyped
    end
  else if type =? PTYPE_SOCKET then
    match msg with
    | Socket m =>
        '(g, w) ← dispatch_socket_message g m (Z.of_nat (List.length (Netpack.s_padding m))) w;
        Ok (0, g, w)
    | Bytes _ => Fault Mistyped
    end
  else Ok (0, g, w).

Fixpoint strchr (c : Z) (s : cstr) : option (cstr * cstr) :=
  match s with
  | [] => None
  | x :: s =>
      if x =? c then Some ([], s)
      else match strchr c s with Some (a, b) => Some (x :: a, b) | None => None end
  end.

Definition start_listen (g : gate) (listen_addr : cstr) (w : W) : outcome (Z * gate * W) :=
  let '(host, port) :=
    match strchr 58 listen_addr with
    | None => ([], strtol10 listen_addr)
    | Some (host, portstr) => (host, strtol10 portstr)
    end in
  if port <=? 0 then
    w ← error (str "Invalid gate address " ++ listen_addr) w;
    Ok (1, g, w)
  else
    '(id, w) ← socket_listen host port BACKLOG w;
    let g := set_listen id g in
    if id <? 0 then Ok (1, g, w)
    else w ← socket_start id w; Ok (0, g, w).

(** The five conversions of ["%c %s %s %d %d"]; [None]: fewer than four. *)
Definition scan_parm (parm : cstr) : option (Z * cstr * cstr * Z * Z) :=
  match parm with
  | [] => None
  | header :: r =>
      match scan_word r with
      | (Some watchdog, r) =>
          match scan_word r with
          | (Some binding, r) =>
              match scan_int r with
              | (Some client_tag, r) =>
                  Some (header, watchdog, binding, client_tag, default 0 (fst (scan_int r)))
              | (None, _) => None
              end
          | (None, _) => None
          end
      | (None, _) => None
      end
  end.

(** 83 is [S], 76 is [L], 33 is [!]. *)
Definition gate_init (g : gate) (parm : option cstr) (w : W) : outcome (Z * gate * W) :=
  match parm with
  | None => Ok (1, g, w)
  | Some parm =>
      match scan_parm parm with
      | None => w ← error (str "Invalid gate parm " ++ parm) w; Ok (1, g, w)
      | Some (header, wd, binding, client_tag, max) =>
          if max <=? 0 then w ← error (str "Need max connection") w; Ok (1, g, w)
          else if negb (header =? 83) && negb (header =? 76) then
            w ← error (str "Invalid data header style") w; Ok (1, g, w)
          else
            let client_tag := if client_tag =? 0 then PTYPE_CLIENT else client_tag in
            '(h, w) ← (if first wd =? 33 then Ok (0, w) else queryname wd w);
            let g := set_watchdog h g in
            if negb (first wd =? 33) && (h =? 0) then
              w ← error (str "Invalid watchdog " ++ wd) w; Ok (1, g, w)
            else
              t ← hashid_init max;
              let g := MkGate (listen_id g) (watchdog g) (broker g) client_tag
                         (if header =? 83 then 2 else 4) max t
                         (replicate (Z.to_nat max) no_conn) (mp g) in
              w ← set_callback w;
              start_listen g binding w
      end
  end.
End Handlers.
End Gate.
