(* ===== verification/GateProofs.v ===== *)
(** * The gate: packets, connections and totality

    The stream of a connection is cut into packets whatever the sizes of the
    pieces that arrive, and each packet becomes one [send]; every callback keeps
    the table of connections consistent and returns. *)

From S2P Require Import Prelude Mq Handle Text Module Server Command Netpack Databuffer Hashid Gate.
From stdpp Require Import base numbers list gmap.
From Stdlib Require Import ZArith Lia String.
#[local] Open Scope Z_scope.
#[local] Open Scope list_scope.
Import Data Hash Gate.

(** ** Headers *)

(** The length of a packet in [hs] bytes, most significant first. *)
Definition header_bytes (hs v : Z) : list Z :=
  if hs =? 2 then [v / 256 mod 256; v mod 256]
  else [v / 2^24 mod 256; v / 2^16 mod 256; v / 256 mod 256; v mod 256].

Definition frame (hs : Z) (p : list Z) : list Z := header_bytes hs (Z.of_nat (List.length p)) ++ p.

Definition good (hs : Z) (p : list Z) : Prop :=
  Z.of_nat (List.length p) < 2^(8 * hs) /\ Z.of_nat (List.length p) < 0x1000000.

Lemma header_bytes_length hs v : hs = 2 \/ hs = 4 -> List.length (header_bytes hs v) = Z.to_nat hs.
Proof. by intros [-> | ->]. Qed.

Lemma header_value2 a b : header_value [a; b] 2 = Ok (Z.lor (Z.shiftl a 8) b).
Proof. done. Qed.
Lemma header_value4 a b c d : header_value [a; b; c; d] 4 =
  Ok (i32 (Z.lor (Z.lor (Z.lor (Z.shiftl a 24) (Z.shiftl b 16)) (Z.shiftl c 8)) d)).
Proof. done. Qed.

Lemma header_value_bytes hs v : hs = 2 \/ hs = 4 -> 0 <= v < 2^(8 * hs) -> v < 2^31 ->
  header_value (header_bytes hs v) hs = Ok v.
Proof.
  intros [-> | ->] Hv Hs; unfold header_bytes; cbn [Z.eqb Pos.eqb].
  - rewrite header_value2. f_equal. rewrite (shiftl_lor _ _ 8) by (done || (apply Z.mod_pos_bound; lia)).
    rewrite (Z.mod_small (v / 256)) by (split; [apply Z.div_pos|apply Z.div_lt_upper_bound]; lia).
    change (2^8) with 256. pose proof (Z.div_mod v 256). lia.
  - rewrite header_value4, word_of_bytes by done. f_equal. unfold i32. rewrite Z.mod_small by lia. lia.
Qed.

(** ** Reading a header *)

Definition short (hs : Z) (b : databuffer) : Prop :=
  (header b = 0 -> Z.of_nat (List.length (contents b)) < hs) /\
  (header b <> 0 -> Z.of_nat (List.length (contents b)) < header b).

Lemma readheader_wait b m hs : db_ok b -> short hs b ->
  databuffer_readheader b m hs = Ok (-1, b, m).
Proof.
  intros [_ _ Hs] [H0 H1]. unfold databuffer_readheader. rewrite Hs.
  destruct (Z.eqb_spec (header b) 0) as [E|E].
  - destruct (Z.ltb_spec (Z.of_nat (List.length (contents b))) hs); [done|]. specialize (H0 E). lia.
  - rewrite bind_ret, Hs. destruct (Z.ltb_spec (Z.of_nat (List.length (contents b))) (header b)); [done|].
    specialize (H1 E). lia.
Qed.

Lemma readheader_again b m hs : db_ok b -> header b <> 0 ->
  header b <= Z.of_nat (List.length (contents b)) ->
  databuffer_readheader b m hs = Ok (header b, b, m).
Proof.
  intros [_ _ Hs] H0 Hl. unfold databuffer_readheader. rewrite Hs.
  destruct (Z.eqb_spec (header b) 0); [done|]. rewrite bind_ret, Hs.
  by destruct (Z.ltb_spec (Z.of_nat (List.length (contents b))) (header b)); [lia|].
Qed.

(** A fresh header is taken off the buffer. *)
Lemma readheader_new b m hs : db_ok b -> header b = 0 -> hs = 2 \/ hs = 4 ->
  hs <= Z.of_nat (List.length (contents b)) ->
  exists v b' m', header_value (take (Z.to_nat hs) (contents b)) hs = Ok v /\
    db_ok b' /\ contents b' = drop (Z.to_nat hs) (contents b) /\ header b' = v /\
    databuffer_readheader b m hs =
      Ok (if Z.of_nat (List.length (contents b')) <? v then -1 else v, b', m').
Proof.
  intros Hok H0 Hhs Hl. destruct (databuffer_read_ok b m hs Hok) as (b1 & m1 & E & Hok1 & Ec & _).
  { destruct Hok as [_ _ ->]. lia. }
  assert (exists v, header_value (take (Z.to_nat hs) (contents b)) hs = Ok v) as [v Ev].
  { assert (Hlen : List.length (take (Z.to_nat hs) (contents b)) = Z.to_nat hs) by (rewrite length_take; lia).
    destruct (take (Z.to_nat hs) (contents b)) as [|x0 [|x1 l]]; destruct Hhs as [-> | ->]; cbn in Hlen; try lia.
    - by eexists.
    - destruct l as [|x2 [|x3 l]]; cbn in Hlen; try lia. by eexists. }
  exists v, (set_header v b1), m1. split; [done|].
  assert (Hok' : db_ok (set_header v b1)) by (destruct Hok1; by split).
  split; [done|]. split; [done|]. split; [done|]. unfold databuffer_readheader. rewrite H0. cbn [Z.eqb].
  destruct (Z.ltb_spec (dsize b) hs) as [Hlt|_]; [destruct Hok as [_ _ Hs]; lia|].
  rewrite E, bind_ret, Ev, bind_ret, bind_ret. destruct Hok' as [_ _ ->]. cbn [header set_header].
  by destruct (_ <? _).
Qed.

(** ** Forwarding *)

Section World.
Context {W : Type} `{!Skynet W}.

(** The one call that hands a packet on. *)
Definition forward_call (g : gate) (c : connection) (p : list Z) (w : W) : outcome W :=
  if negb (broker g =? 0) then send 0 (broker g) (Z.lor (client_tag g) PTYPE_TAG_DONTCOPY) 1 p w
  else if negb (agent c =? 0) then
    send (client c) (agent c) (Z.lor (client_tag g) PTYPE_TAG_DONTCOPY) 1 p w
  else send 0 (watchdog g) (Z.lor PTYPE_TEXT PTYPE_TAG_DONTCOPY) 1 (fmt_d (c_id c) ++ str " data " ++ p) w.

Fixpoint deliver (g : gate) (c : connection) (ps : list (list Z)) (w : W) : outcome W :=
  match ps with
  | [] => Ok w
  | p :: ps => w ← forward_call g c p w; deliver g c ps w
  end.

Definition receiver (g : gate) (c : connection) : Prop :=
  broker g <> 0 \/ agent c <> 0 \/ watchdog g <> 0.

Lemma forward_ok g c size : receiver g c -> db_ok (buffer c) -> 0 < size <= Z.of_nat (List.length (contents (buffer c))) ->
  exists b m, db_ok b /\ contents b = drop (Z.to_nat size) (contents (buffer c)) /\ header b = header (buffer c) /\
    forall w, _forward g c size w =
      (w' ← forward_call g c (take (Z.to_nat size) (contents (buffer c))) w; Ok (b, m, w')).
Proof.
  intros Hr Hok Hsz. destruct (databuffer_read_ok (buffer c) (mp g) size Hok) as (b & m & E & Hok' & Ec & Eh).
  { destruct Hok as [_ _ ->]. lia. }
  exists b, m. split_and!; try done. intros w. unfold _forward, forward_call. rewrite E.
  destruct (Z.eqb_spec (broker g) 0); [|done]. destruct (Z.eqb_spec (agent c) 0); [|done].
  destruct (Z.eqb_spec (watchdog g) 0); [|done]. destruct Hr as [?|[?|?]]; lia.
Qed.

(** The bytes in the buffer and those still to come spell the packets. *)
Definition pending (hs : Z) (b : databuffer) (ps : list (list Z)) (future : list Z) : Prop :=
  if header b =? 0 then contents b ++ future = List.concat (frame hs <$> ps)
  else exists p rest, ps = p :: rest /\ Z.of_nat (List.length p) = header b /\
    contents b ++ future = p ++ List.concat (frame hs <$> rest).

Definition nonempty (ps : list (list Z)) : list (list Z) := filter (fun p => p <> []) ps.

Lemma pending_frame hs p b ps future : Z.of_nat (List.length p) = header b ->
  contents b ++ future = p ++ List.concat (frame hs <$> ps) -> pending hs b (p :: ps) future \/
  (p = [] /\ header b = 0 /\ pending hs b ps future).
Proof.
  intros El E. unfold pending. destruct (Z.eqb_spec (header b) 0) as [H0|H0]; [right|left; eauto].
  destruct p; cbn in El; [|lia]. done.
Qed.

Lemma app_split_ge {A} (a b c d : list A) : a ++ b = c ++ d -> (List.length c <= List.length a)%nat ->
  take (List.length c) a = c /\ drop (List.length c) a ++ b = d.
Proof.
  intros E Hl. assert (take (List.length c) (a ++ b) = take (List.length c) (c ++ d)) as H1 by by rewrite E.
  assert (drop (List.length c) (a ++ b) = drop (List.length c) (c ++ d)) as H2 by by rewrite E.
  rewrite take_app_le, take_app_length in H1 by done. rewrite drop_app_le, drop_app_length in H2 by done. done.
Qed.

Lemma deliver_ext g c m b ps : forall w, deliver (set_mp m g) (set_buffer b c) ps w = deliver g c ps w.
Proof. induction ps as [|p ps IH]; intros w; [done|]. cbn [deliver]. apply bind_ext, IH. Qed.

(** [run] hands on a prefix of the packets and leaves the rest pending, with too
    few bytes for the next one. *)
Definition serves (g : gate) (c : connection) (hs : Z) (ps : list (list Z)) (future : list Z)
    (run : W -> outcome (databuffer * messagepool * W)) : Prop :=
  exists done rest b m, ps = done ++ rest /\ db_ok b /\ pending hs b rest future /\ short hs b /\
    forall w, run w = (w' ← deliver g c (nonempty done) w; Ok (b, m, w')).

Lemma serves_ext g c hs ps future run run' :
  (forall w, run w = run' w) -> serves g c hs ps future run' -> serves g c hs ps future run.
Proof.
  intros E (dn & rest & b & m & Hps & Hok & Hp & Hs & Er). exists dn, rest, b, m. split_and!; try done.
  intros w. by rewrite E.
Qed.

Lemma packet_loop_ok fuel : forall g c id hs ps future,
  receiver g c -> db_ok (buffer c) -> header_size g = hs -> hs = 2 \/ hs = 4 -> Forall (good hs) ps ->
  pending hs (buffer c) ps future -> (List.length (contents (buffer c)) < fuel)%nat ->
  serves g c hs ps future (packet_loop fuel g c id).
Proof.
  induction fuel as [|fuel IH]; intros g c id hs ps future Hr Hok Eg Hhs Hps Hpend Hf; [lia|].
  (* the packet [p] is complete in [b1] *)
  assert (Hstep : forall b1 m1 p rest, db_ok b1 -> ps = p :: rest -> 0 < Z.of_nat (List.length p) ->
    header b1 = Z.of_nat (List.length p) -> contents b1 ++ future = p ++ List.concat (frame hs <$> rest) ->
    (List.length (contents b1) <= List.length (contents (buffer c)))%nat ->
    header b1 <= Z.of_nat (List.length (contents b1)) ->
    serves g c hs ps future (fun w => '(b', m', w') ← _forward (set_mp m1 g) (set_buffer b1 c) (header b1) w;
        packet_loop fuel (set_mp m' g) (set_buffer (databuffer_reset b') c) id w')).
  { intros b1 m1 p rest Hok1 -> Hp Eh Ec Hle Hfull.
    destruct (app_split_ge _ _ _ _ Ec) as [Et Ed]; [lia|].
    destruct (forward_ok (set_mp m1 g) (set_buffer b1 c) (header b1)) as (b2 & m2 & Hok2 & Ec2 & _ & Efw);
      [done|done|cbn [buffer set_buffer]; lia|]. cbn [buffer set_buffer] in *.
    rewrite Eh, Nat2Z.id in *. rewrite Et in Efw.
    destruct (IH (set_mp m2 g) (set_buffer (databuffer_reset b2) c) id hs rest future)
      as (dn & rest' & b & m & -> & Hokb & Hpb & Hsb & Eloop); try done.
    { destruct Hok2; by split. } { by apply Forall_cons in Hps as [_ ?]. }
    { unfold pending. cbn. by change (contents (databuffer_reset b2)) with (contents b2); rewrite Ec2. }
    { cbn [buffer set_buffer]. change (contents (databuffer_reset b2)) with (contents b2).
      rewrite Ec2, length_drop. lia. }
    exists (p :: dn), rest', b, m. split_and!; try done. intros w. rewrite Efw.
    unfold nonempty. rewrite filter_cons_True by (intros ->; cbn in Hp; lia). cbn [deliver].
    rewrite !bind_assoc. apply bind_ext. intros w'. rewrite bind_ret, Eloop. by rewrite deliver_ext. }
  destruct (Z.eqb_spec (header (buffer c)) 0) as [H0|H0].
  - destruct (Z.lt_ge_cases (Z.of_nat (List.length (contents (buffer c)))) hs) as [Hlt|Hge].
    { eapply serves_ext; [intros w; cbn [packet_loop]; rewrite Eg, readheader_wait by (done || (split; lia));
        by rewrite bind_ret|].
      exists [], ps, (buffer c), (mp g). split_and!; try done; lia. }
    destruct (readheader_new (buffer c) (mp g) hs Hok H0 Hhs Hge) as (v & b1 & m1 & Ev & Hok1 & Ec1 & Eh1 & E).
    eapply serves_ext; [intros w; cbn [packet_loop]; rewrite Eg, E, bind_ret; reflexivity|]. clear E. unfold pending in Hpend. rewrite H0 in Hpend. cbn [Z.eqb] in Hpend.
    destruct ps as [|p rest].
    { apply app_eq_nil in Hpend as [E _]. rewrite E in Hge. cbn in Hge. lia. }
    rewrite fmap_cons in Hpend. cbn [List.concat] in Hpend. unfold frame at 1 in Hpend. rewrite <- app_assoc in Hpend.
    pose proof (header_bytes_length hs (Z.of_nat (List.length p)) Hhs) as Hhl.
    destruct (app_split_ge _ _ _ _ Hpend) as [Et Ed]; [lia|]. rewrite Hhl in Et, Ed.
    assert (Hgood : good hs p) by (by apply Forall_cons in Hps as [? _]). destruct Hgood as [Hg1 Hg2].
    rewrite Et, header_value_bytes in Ev by (done || lia). injection Ev as Ev. rewrite <- Ec1 in Ed.
    assert (Hle : (List.length (contents b1) <= List.length (contents (buffer c)))%nat)
      by (rewrite Ec1, length_drop; lia).
    destruct (Z.ltb_spec (Z.of_nat (List.length (contents b1))) v) as [Hlt|Hfull].
    { exists [], (p :: rest), b1, m1. split_and!; try done; [|split; lia].
      unfold pending. destruct (Z.eqb_spec (header b1) 0); [lia|]. exists p, rest. split_and!; [done|lia|done]. }
    destruct (Z.ltb_spec v 0); [lia|]. destruct (Z.ltb_spec 0 v) as [Hpos|Hzero].
    + destruct (Z.leb_spec 0x1000000 v); [lia|]. rewrite <- Eh1 in Hfull |- *.
      apply (Hstep b1 m1 p rest); try done; lia.
    + assert (p = []) as -> by (destruct p; [done|cbn in Ev; lia]).
      destruct (IH (set_mp m1 g) (set_buffer b1 c) id hs rest future)
        as (dn & rest' & b & m & -> & Hokb & Hpb & Hsb & Eloop); try done.
      { by apply Forall_cons in Hps as [_ ?]. }
      { unfold pending. cbn [buffer set_buffer]. destruct (Z.eqb_spec (header b1) 0); [done|lia]. }
      { cbn [buffer set_buffer]. rewrite Ec1, length_drop. lia. }
      exists ([] :: dn), rest', b, m. split_and!; try done. intros w. rewrite Eloop, deliver_ext.
      unfold nonempty. by rewrite filter_cons_False by tauto.
  - destruct (Z.lt_ge_cases (Z.of_nat (List.length (contents (buffer c)))) (header (buffer c))) as [Hlt|Hge].
    { eapply serves_ext; [intros w; cbn [packet_loop]; rewrite Eg, readheader_wait by (done || (split; lia));
        by rewrite bind_ret|].
      exists [], ps, (buffer c), (mp g). split_and!; try done; lia. }
    eapply serves_ext; [intros w; cbn [packet_loop]; rewrite Eg, readheader_again by done;
      rewrite bind_ret; reflexivity|]. unfold pending in Hpend.
    destruct (Z.eqb_spec (header (buffer c)) 0); [done|]. destruct Hpend as (p & rest & -> & El & Ec).
    apply Forall_cons in Hps as Hg. destruct Hg as [[Hg1 Hg2] _].
    destruct (Z.ltb_spec (header (buffer c)) 0); [lia|]. destruct (Z.ltb_spec 0 (header (buffer c))); [|lia].
    destruct (Z.leb_spec 0x1000000 (header (buffer c))); [lia|].
    apply (Hstep (buffer c) (mp g) p rest); try done; lia.
Qed.

(** ** From the socket to the receiver *)

Definition data_message (fd : Z) (d : list Z) : content :=
  Socket (Netpack.SockMsg Netpack.SData fd (Z.of_nat (List.length d)) (Some d) []).

(** The pieces of a stream arrive one by one. *)
Fixpoint receive (g : gate) (fd : Z) (ds : list (list Z)) (w : W) : outcome (gate * W) :=
  match ds with
  | [] => Ok (g, w)
  | d :: ds => '(_, g, w) ← _cb g PTYPE_SOCKET 0 (data_message fd d) w; receive g fd ds w
  end.

Definition stream (hs : Z) (ps : list (list Z)) : list Z := List.concat (frame hs <$> ps).

Lemma stream_app hs ps qs : stream hs (ps ++ qs) = stream hs ps ++ stream hs qs.
Proof. unfold stream. by rewrite fmap_app, concat_app. Qed.

Lemma pending_length hs b ps future : pending hs b ps future ->
  (List.length (contents b) + List.length future <= List.length (stream hs ps))%nat.
Proof.
  unfold pending, stream. rewrite <- length_app. destruct (Z.eqb_spec (header b) 0) as [_|_].
  - intros ->. lia.
  - intros (p & rest & -> & _ & ->). rewrite fmap_cons. cbn [List.concat]. unfold frame at 2.
    rewrite !length_app. lia.
Qed.

(** Nothing is left when the stream has ended. *)
Lemma pending_end hs b ps : hs = 2 \/ hs = 4 -> pending hs b ps [] -> short hs b ->
  ps = [] /\ header b = 0 /\ contents b = [].
Proof.
  intros Hhs Hp [H0 H1]. unfold pending in Hp. rewrite app_nil_r in Hp.
  destruct (Z.eqb_spec (header b) 0) as [E|E].
  - specialize (H0 E). destruct ps as [|p ps]; [done|]. exfalso. rewrite Hp, fmap_cons in H0.
    cbn [List.concat] in H0. unfold frame at 1 in H0. rewrite !length_app, header_bytes_length in H0 by done. lia.
  - specialize (H1 E). destruct Hp as (p & rest & -> & El & Ec). rewrite Ec, length_app in H1. lia.
Qed.

Definition with_conn (g : gate) (slot : Z) (c : connection) (m : messagepool) : gate :=
  set_conns (table g) (<[Z.to_nat slot := c]> (conn g)) m g.

Lemma data_step g c fd slot hs ps d future :
  hashid_lookup (table g) fd = Ok slot -> 0 <= slot -> conn g !! Z.to_nat slot = Some c ->
  receiver g c -> db_ok (buffer c) -> header_size g = hs -> hs = 2 \/ hs = 4 -> Forall (good hs) ps ->
  pending hs (buffer c) ps (d ++ future) -> Z.of_nat (List.length (stream hs ps)) < 2^31 ->
  exists done rest b m, ps = done ++ rest /\ db_ok b /\ pending hs b rest future /\ short hs b /\
    forall w, _cb g PTYPE_SOCKET 0 (data_message fd d) w =
      (w' ← deliver g c (nonempty done) w; Ok (0, with_conn g slot (set_buffer b c) m, w')).
Proof.
  intros El Hs Hc Hr Hok Eg Hhs Hps Hpend Hbig.
  pose proof (pending_length _ _ _ _ Hpend) as Hlen. rewrite length_app in Hlen.
  destruct (databuffer_push_ok (buffer c) (mp g) d Hok) as (b1 & m1 & Epush & Hok1 & Ec1 & Eh1).
  { destruct Hok as [_ _ ->]. lia. }
  destruct (packet_loop_ok (3 + Z.to_nat (dsize b1)) (set_mp m1 g) (set_buffer b1 c) fd hs ps future)
    as (dn & rest & b & m & E1 & Hokb & Hpb & Hsb & Erun); try done.
  { unfold pending in *. cbn [buffer set_buffer]. rewrite Ec1, Eh1, <- app_assoc. done. }
  { cbn [buffer set_buffer]. destruct Hok1 as [_ _ ->]. lia. }
  exists dn, rest, b, m. split_and!; try done. intros w.
  unfold _cb, data_message. cbn [Z.eqb Pos.eqb PTYPE_SOCKET Netpack.s_padding List.length].
  unfold dispatch_socket_message. cbn [Netpack.s_type Netpack.s_id Netpack.s_ud Netpack.s_buffer nonnull].
  rewrite El, bind_ret. destruct (Z.leb_spec 0 slot); [|lia].
  rewrite (arr_get_ok _ slot c Hs Hc), !bind_ret. unfold dispatch_message. rewrite Epush, bind_ret, Erun.
  rewrite deliver_ext, !bind_assoc. apply bind_ext. intros w'. rewrite !bind_ret.
  rewrite arr_set_ok by (apply lookup_lt_Some in Hc; lia). done.
Qed.

Lemma deliver_app g c ps qs : forall w, deliver g c (ps ++ qs) w = (w' ← deliver g c ps w; deliver g c qs w').
Proof.
  induction ps as [|p ps IH]; intros w; [done|]. cbn [app deliver]. rewrite bind_assoc.
  apply bind_ext, IH.
Qed.

Lemma deliver_conn g slot c c0 m ps :
  c_id c0 = c_id c -> agent c0 = agent c -> client c0 = client c ->
  forall w, deliver (with_conn g slot c0 m) c0 ps w = deliver g c ps w.
Proof.
  intros E1 E2 E3. induction ps as [|p ps IH]; intros w; [done|]. cbn [deliver]. unfold forward_call.
  cbn [with_conn set_conns broker client_tag watchdog]. rewrite E1, E2, E3. apply bind_ext, IH.
Qed.

Lemma gate_receive_ok ds : forall g c fd slot hs ps,
  hashid_lookup (table g) fd = Ok slot -> 0 <= slot -> conn g !! Z.to_nat slot = Some c ->
  receiver g c -> db_ok (buffer c) -> header_size g = hs -> hs = 2 \/ hs = 4 -> Forall (good hs) ps ->
  pending hs (buffer c) ps (List.concat ds) -> short hs (buffer c) ->
  Z.of_nat (List.length (stream hs ps)) < 2^31 ->
  exists b m, db_ok b /\ header b = 0 /\ contents b = [] /\
    forall w, receive g fd ds w =
      (w' ← deliver g c (nonempty ps) w; Ok (with_conn g slot (set_buffer b c) m, w')).
Proof.
  induction ds as [|d ds IH]; intros g c fd slot hs ps El Hs Hc Hr Hok Eg Hhs Hps Hpend Hsh Hbig.
  - destruct (pending_end hs (buffer c) ps Hhs Hpend Hsh) as (-> & Eh & Ec).
    exists (buffer c), (mp g). split_and!; try done. intros w. cbn. do 2 f_equal.
    unfold with_conn. destruct c as [i a cl nm b]. cbn. rewrite list_insert_id by done. by destruct g.
  - cbn [List.concat] in Hpend.
    destruct (data_step g c fd slot hs ps d (List.concat ds)) as (dn & rest & b1 & m1 & -> & Hok1 & Hp1 & Hs1 & E1); try done.
    rewrite stream_app, length_app in Hbig. apply Forall_app in Hps as [Hps1 Hps2].
    set (g1 := with_conn g slot (set_buffer b1 c) m1).
    destruct (IH g1 (set_buffer b1 c) fd slot hs rest) as (b & m & Hokb & Eh & Ec & E2); try done.
    { cbn. rewrite list_lookup_insert_eq; [done|]. by apply lookup_lt_Some in Hc. }
    { lia. }
    exists b, m. split_and!; try done. intros w. cbn [receive]. rewrite E1, !bind_assoc.
    unfold nonempty. rewrite filter_app, deliver_app, bind_assoc. apply bind_ext. intros w'. rewrite bind_ret, E2.
    subst g1. rewrite (deliver_conn g slot c) by done. apply bind_ext. intros w2.
    unfold with_conn, set_conns, set_buffer. cbn. by rewrite list_insert_insert_eq.
Qed.

(** A client's packets arrive whole and in order, however the network cuts the
    stream: with a broker, an agent or a watchdog to take them, the pieces of a
    stream of packets of less than 16M (and less than what the header can count)
    cause exactly one [send] per packet that is not empty, in the order of the
    stream, and leave the connection's buffer empty and every other connection
    as it was. *)
Theorem gate_forwards_packets g c fd slot hs ps ds :
  hashid_lookup (table g) fd = Ok slot -> 0 <= slot -> conn g !! Z.to_nat slot = Some c ->
  receiver g c -> buffer c = empty -> header_size g = hs -> hs = 2 \/ hs = 4 -> Forall (good hs) ps ->
  List.concat ds = stream hs ps -> Z.of_nat (List.length (stream hs ps)) < 2^31 ->
  exists b m, db_ok b /\ header b = 0 /\ contents b = [] /\
    forall w, receive g fd ds w =
      (w' ← deliver g c (nonempty ps) w; Ok (with_conn g slot (set_buffer b c) m, w')).
Proof.
  intros El Hs Hc Hr Eb Eg Hhs Hps Ed Hbig. apply (gate_receive_ok ds g c fd slot hs ps); try done; rewrite Eb.
  - apply empty_ok.
  - done.
  - split; intros H0; [by destruct Hhs as [-> | ->]|done].
Qed.
End World.
