(* ===== verification/GateInv.v ===== *)
(** * The gate keeps its tables and always returns

    An invariant that ties the table of ids to the array of connections, and the
    proof that every callback keeps it and returns, on the messages that [content_ok]
    describes and unless one is [stale], when the calls into the node return. *)

From S2P Require Import Prelude Mq Handle Text Module Server Command Netpack Databuffer Hashid Gate GateProofs.
From stdpp Require Import base numbers list gmap.
From Stdlib Require Import ZArith Lia String.
#[local] Open Scope Z_scope.
#[local] Open Scope list_scope.
Import Data Hash Gate.

(** What the gate needs of the node: the calls return, and keep [winv]. *)
Class SkynetOk (W : Type) `{!Skynet W} (winv : W -> Prop) : Prop := {
  send_ok s d t k p w : winv w -> exists w', send s d t k p w = Ok w' /\ winv w';
  report_ok text w : winv w -> exists w', error text w = Ok w' /\ winv w';
  queryname_ok nm w : winv w -> exists h w', queryname nm w = Ok (h, w') /\ winv w';
  callback_ok w : winv w -> exists w', set_callback w = Ok w' /\ winv w';
  close_ok i w : winv w -> exists w', socket_close i w = Ok w' /\ winv w';
  start_ok i w : winv w -> exists w', socket_start i w = Ok w' /\ winv w';
  sendto_ok i p w : winv w -> exists w', socket_send i p w = Ok w' /\ winv w';
  listen_ok h p b w : winv w -> exists i w', socket_listen h p b w = Ok (i, w') /\ winv w'
}.

Record gate_ok (g : gate) : Prop := {
  go_hash : exists ch, wf (table g) ch;
  go_cap : cap (table g) = max_connection g;
  go_len : Z.of_nat (List.length (conn g)) = max_connection g;
  go_header : header_size g = 2 \/ header_size g = 4;
  go_conn : forall slot c, conn g !! slot = Some c ->
    db_ok (buffer c) /\ List.length (remote_name c) = 32%nat /\
    (c = no_conn /\ (forall i, ~ at_slot (table g) i (Z.of_nat slot)) \/
     at_slot (table g) (c_id c) (Z.of_nat slot))
}.

Lemma no_conn_ok : db_ok (buffer no_conn) /\ List.length (remote_name no_conn) = 32%nat.
Proof. split; [apply empty_ok|done]. Qed.

(** ** Helpers *)

Lemma lookup_any hi ch i : wf hi ch ->
  exists r, hashid_lookup hi i = Ok r /\ (0 <= r -> at_slot hi i r).
Proof.
  intros Hwf. destruct (decide (i = -1)) as [->|Hi].
  - unfold hashid_lookup. pose proof (land_range hi ch (-1) Hwf) as Hr.
    destruct (w_chain _ _ Hwf _ Hr) as (start & Hst & Hc).
    rewrite (arr_get_ok _ _ _ (proj1 Hr) Hst), bind_ret.
    destruct (lookup_loop_ok hi (-1) _ (chain_fuel hi) start Hc) as (r & -> & Hspec).
    { unfold chain_fuel. pose proof (chain_length hi ch _ Hwf Hr). lia. }
    exists r. split; [done|]. destruct Hspec as [[-> _]|[Hin (nd & Hnd & E)]]; [lia|].
    destruct (w_home _ _ Hwf _ _ Hr Hin) as (nd' & Hnd' & _ & Hne & _). congruence.
  - destruct (hashid_lookup_spec hi ch i Hwf Hi) as (r & E & Hr). exists r. split; [done|].
    destruct Hr as [[-> _]|Hr]; [lia|done].
Qed.

Lemma slot_conn g i r : gate_ok g -> at_slot (table g) i r ->
  exists c, conn g !! Z.to_nat r = Some c /\ c_id c = i.
Proof.
  intros [(ch & Hwf) Hcap Hlen _ Hconn] Hat. pose proof Hat as (H0 & Hi & nx & Hn).
  pose proof (lookup_lt_Some _ _ _ Hn) as Hlt. pose proof (w_cap _ _ Hwf).
  destruct (lookup_lt_is_Some_2 (conn g) (Z.to_nat r)) as [c Hc]; [lia|]. exists c. split; [done|].
  destruct (Hconn _ _ Hc) as (_ & _ & Hs). rewrite Z2Nat.id in Hs by done.
  destruct Hs as [[_ Hno]|(_ & _ & nx' & Hn')]; [by destruct (Hno i)|]. congruence.
Qed.

Lemma c_string_total buf : 0 ∈ buf -> exists s, c_string buf = Ok s.
Proof.
  induction buf as [|x buf IH]; [by intros ?%elem_of_nil|]. intros Hin. cbn.
  destruct (Z.eqb_spec x 0); [by eexists|]. apply elem_of_cons in Hin as [?|Hin]; [lia|].
  destruct (IH Hin) as [s ->]. by eexists.
Qed.

Lemma memcmp_ok k : forall a l, (k <= List.length a)%nat -> 0 ∉ take k a -> 0 ∈ l ->
  exists b, memcmp_eq a l k = Ok b.
Proof.
  induction k as [|k IH]; intros a l Hk Hn Hl; [by eexists|].
  destruct a as [|x a]; [cbn in Hk; lia|]. destruct l as [|y l]; [by apply elem_of_nil in Hl|].
  cbn in *. apply not_elem_of_cons in Hn as [Hx Hn]. destruct (Z.eqb_spec x y) as [->|]; [|by eexists].
  apply IH; [lia|done|]. apply elem_of_cons in Hl as [?|]; [done|done].
Qed.

(** The buffer of a command: [n] bytes and the terminator. *)
Definition is_buf (n : nat) (buf : list Z) : Prop := List.length buf = S n /\ buf !! n = Some 0.

Lemma parm_skip_ok n : forall msg c, 0 <= c -> c + Z.of_nat n <= Z.of_nat (List.length msg) ->
  exists c', parm_skip n msg c = Ok c' /\ c <= c' <= c + Z.of_nat n.
Proof.
  induction n as [|n IH]; intros msg c H0 Hl; cbn [parm_skip]; [exists c; split; [done|lia]|].
  destruct (lookup_lt_is_Some_2 msg (Z.to_nat c)) as [x Hx]; [lia|].
  rewrite (arr_get_ok _ _ _ H0 Hx), bind_ret. destruct (Z.eqb_spec x 32); cbn [negb].
  - destruct (IH msg (c + 1)) as (c' & -> & Hc'); [lia|lia|]. exists c'. split; [done|lia].
  - exists c. split; [done|lia].
Qed.

Lemma parm_ok n buf k : is_buf n buf -> (k <= n)%nat ->
  exists buf' L, _parm buf (Z.of_nat n) (Z.of_nat k) = Ok buf' /\ is_buf n buf' /\
    buf' !! L = Some 0 /\ (L + k <= n)%nat.
Proof.
  intros [Hl Hz] Hk. unfold _parm.
  destruct (parm_skip_ok (Z.to_nat (Z.of_nat n - Z.of_nat k)) buf (Z.of_nat k)) as (c & -> & Hc); [lia|lia|].
  rewrite bind_ret. cbv zeta.
  destruct (for_loop_inv (fun _ b => is_buf n b)
    (fun i msg => c0 ← arr_get msg i; arr_set msg (i - c) c0) (Z.to_nat (Z.of_nat n - c)) c buf)
    as (b1 & -> & Hl1 & Hz1).
  { done. }
  { intros j b Hj [Hlb Hzb]. destruct (lookup_lt_is_Some_2 b (Z.to_nat j)) as [x Hx]; [lia|].
    rewrite (arr_get_ok _ j x) by (lia || done). rewrite bind_ret, arr_set_ok by lia. eexists. split; [done|].
    split; [by rewrite length_insert|]. rewrite list_lookup_insert_ne by lia. done. }
  rewrite bind_ret, arr_set_ok by lia. eexists _, (Z.to_nat (Z.of_nat n - c)). split; [done|].
  split; [split; [by rewrite length_insert|]|split; [apply list_lookup_insert_eq; lia|lia]].
  destruct (decide (Z.to_nat (Z.of_nat n - c) = n)) as [->|]; [apply list_lookup_insert_eq; lia|].
  by rewrite list_lookup_insert_ne.
Qed.

Lemma to_delim_zero l L : l !! L = Some 0 -> (to_delim l <= L)%nat.
Proof.
  revert L. induction l as [|x l IH]; intros L HL; [done|]. cbn. destruct L as [|L].
  - injection HL as ->. cbn. lia.
  - destruct ((x =? 32) || (x =? 0)); [lia|]. specialize (IH L HL). lia.
Qed.

Lemma strsep_at_ok n buf p L buf' q : is_buf n buf -> buf !! L = Some 0 -> (p <= L)%nat ->
  strsep_at buf p = (buf', Some q) -> is_buf n buf' /\ buf' !! L = Some 0 /\ (q <= L)%nat.
Proof.
  intros [Hl Hz] HL Hp. unfold strsep_at. pose proof (to_delim_zero (drop p buf) (L - p)) as Hd.
  rewrite lookup_drop in Hd. replace (p + (L - p))%nat with L in Hd by lia. specialize (Hd HL).
  set (d := (p + to_delim (drop p buf))%nat) in *.
  destruct (buf !! d) as [c|] eqn:Ed; [|done]. destruct (Z.eqb_spec c 32) as [->|]; [|done].
  intros [= <- <-]. assert (d <> L) by congruence. assert (d <> n) by congruence.
  split; [split|split]; rewrite ?length_insert, ?list_lookup_insert_ne by done; try done. lia.
Qed.

Lemma buf_drop_string n buf p : is_buf n buf -> (p <= n)%nat -> exists s, c_string (drop p buf) = Ok s.
Proof.
  intros [Hl Hz] Hp. apply c_string_total. apply (list_elem_of_lookup_2 _ (n - p)). rewrite lookup_drop.
  by replace (p + (n - p))%nat with n by lia.
Qed.

(** Changing what a connection is forwarded to, or its buffer, keeps the invariant. *)
Lemma gate_ok_conn g slot c c' m : gate_ok g -> conn g !! slot = Some c ->
  c_id c' = c_id c -> remote_name c' = remote_name c -> db_ok (buffer c') -> at_slot (table g) (c_id c) (Z.of_nat slot) ->
  gate_ok (set_conns (table g) (<[slot := c']> (conn g)) m g).
Proof.
  intros [Hwf Hcap Hlen Hhs Hconn] Hc Eid En Hb Hat. split; cbn; try done.
  - by rewrite length_insert.
  - intros s x Hs. apply list_lookup_insert_Some in Hs as [(<- & <- & _)|[_ Hs]]; [|by apply Hconn].
    split; [done|]. rewrite En, Eid. split; [by destruct (Hconn _ _ Hc) as (_ & ? & _)|by right].
Qed.

Section Total.
Context {W : Type} `{!Skynet W} (winv : W -> Prop) `{!SkynetOk W winv}.

Ltac call L := let w' := fresh "w" in let E := fresh "E" in let H := fresh "Hw" in
  destruct L as (w' & E & H); [done|]; rewrite E, ?bind_ret.

Lemma forward_agent_ok g fd a cl : gate_ok g -> exists g', _forward_agent g fd a cl = Ok g' /\ gate_ok g'.
Proof.
  intros G. unfold _forward_agent. destruct (go_hash _ G) as [ch Hwf].
  destruct (lookup_any _ ch fd Hwf) as (r & -> & Hr). rewrite bind_ret.
  destruct (Z.leb_spec 0 r) as [H0|]; [|by exists g]. specialize (Hr H0).
  destruct (slot_conn g fd r G Hr) as (c & Hc & Eid). rewrite (arr_get_ok _ _ _ H0 Hc), bind_ret.
  rewrite arr_set_ok by (apply lookup_lt_Some in Hc; lia). rewrite bind_ret. eexists. split; [done|].
  eapply gate_ok_conn; try done; [by destruct (go_conn _ G _ _ Hc)|]. by rewrite Eid, Z2Nat.id.
Qed.

(** [kick] and [start] look an id up and make one socket call. *)
Lemma ctrl_kick_ok g n buf k w : gate_ok g -> winv w -> is_buf n buf -> (k <= n)%nat ->
  exists g' w', ctrl_kick g buf (Z.of_nat n) (Z.of_nat k) w = Ok (g', w') /\ gate_ok g' /\ winv w'.
Proof.
  intros G Hw Hbuf Hk. destruct (go_hash _ G) as [ch Hwf]. unfold ctrl_kick.
  destruct (parm_ok n buf k Hbuf Hk) as (b & L & -> & Hb & _). rewrite bind_ret.
  destruct (buf_drop_string n b 0 Hb) as [s Es]; [lia|]. rewrite drop_0 in Es. rewrite Es, bind_ret.
  destruct (lookup_any _ ch (strtol10 s) Hwf) as (r & E & _). rewrite E, bind_ret.
  destruct (0 <=? r); [call (close_ok (strtol10 s) w)|rewrite bind_ret]; by eexists _, _.
Qed.

Lemma ctrl_start_ok g n buf k w : gate_ok g -> winv w -> is_buf n buf -> (k <= n)%nat ->
  exists g' w', ctrl_start g buf (Z.of_nat n) (Z.of_nat k) w = Ok (g', w') /\ gate_ok g' /\ winv w'.
Proof.
  intros G Hw Hbuf Hk. destruct (go_hash _ G) as [ch Hwf]. unfold ctrl_start.
  destruct (parm_ok n buf k Hbuf Hk) as (b & L & -> & Hb & _). rewrite bind_ret.
  destruct (buf_drop_string n b 0 Hb) as [s Es]; [lia|]. rewrite drop_0 in Es. rewrite Es, bind_ret.
  destruct (lookup_any _ ch (strtol10 s) Hwf) as (r & E & _). rewrite E, bind_ret.
  destruct (0 <=? r); [call (start_ok (strtol10 s) w)|rewrite bind_ret]; by eexists _, _.
Qed.

Lemma ctrl_forward_ok g n buf k w : gate_ok g -> winv w -> is_buf n buf -> (1 <= k <= n)%nat ->
  exists g' w', ctrl_forward g buf (Z.of_nat n) (Z.of_nat k) w = Ok (g', w') /\ gate_ok g' /\ winv w'.
Proof.
  intros G Hw Hbuf Hk. unfold ctrl_forward.
  destruct (parm_ok n buf k Hbuf) as (b & L & -> & Hb & HL & Hle); [lia|]. rewrite bind_ret.
  destruct (strsep_at b 0) as [b1 [a|]] eqn:E1; [|by eexists _, _].
  destruct (strsep_at_ok n b 0 L b1 a Hb HL) as (Hb1 & HL1 & Ha); [lia|done|].
  destruct (buf_drop_string n b1 0 Hb1) as [s Es]; [lia|]. rewrite drop_0 in Es. rewrite Es, bind_ret. cbv zeta.
  destruct (strsep_at b1 a) as [b2 [cl|]] eqn:E2; [|by eexists _, _].
  destruct (strsep_at_ok n b1 a L b2 cl Hb1 HL1 Ha E2) as (Hb2 & HL2 & Hcl).
  destruct (buf_drop_string n b2 (S a) Hb2) as [s1 ->]; [lia|]. rewrite bind_ret.
  destruct (buf_drop_string n b2 (S cl) Hb2) as [s2 ->]; [lia|]. rewrite bind_ret.
  destruct (forward_agent_ok g (strtol10 s) (u32 (strtoul16 s1)) (u32 (strtoul16 s2)) G) as (g' & -> & G').
  rewrite bind_ret. by eexists _, _.
Qed.

Lemma ctrl_ok g msg w : gate_ok g -> winv w -> 0 ∉ msg ->
  exists g' w', _ctrl g msg w = Ok (g', w') /\ gate_ok g' /\ winv w'.
Proof.
  intros G Hw Hnul. unfold _ctrl. cbv zeta.
  destruct (Z.eqb_spec (Z.of_nat (List.length msg)) 0) as [_|_]; [by eexists _, _|].
  set (n := List.length msg) in *. set (k := command_end msg).
  assert (Hk : (k <= n)%nat).
  { subst k n. clear. induction msg as [|x msg IH]; cbn; [lia|]. destruct (x =? 32); lia. }
  assert (Hbuf : is_buf n (msg ++ [0])).
  { split; [rewrite length_app; cbn; lia|]. by rewrite lookup_app_r, Nat.sub_diag by lia. }
  assert (Hcmp : forall s, exists b, memcmp_eq (msg ++ [0]) (lit s) k = Ok b).
  { intros s. apply memcmp_ok; [rewrite length_app; lia| |unfold lit; set_solver].
    rewrite take_app_le by lia. intros Hin. apply Hnul. by apply (subseteq_take k msg). }
  destruct (go_hash _ G) as [ch Hwf].
  destruct (Hcmp "kick"%string) as [b Eb]. rewrite Eb, bind_ret. destruct b; [by apply ctrl_kick_ok|].
  assert (Hk1 : (1 <= k)%nat) by (destruct k; [by cbn in Eb|lia]).
  destruct (Hcmp "forward"%string) as [b ->]. rewrite bind_ret. destruct b; [by apply ctrl_forward_ok|].
  destruct (Hcmp "broker"%string) as [b ->]. rewrite bind_ret. destruct b.
  { destruct (parm_ok n (msg ++ [0]) k Hbuf Hk) as (buf & L & -> & Hb & _). rewrite bind_ret.
    destruct (buf_drop_string n buf 0 Hb) as [s Es]; [lia|]. rewrite drop_0 in Es. rewrite Es, bind_ret.
    destruct (queryname_ok s w Hw) as (h & w' & -> & Hw'). rewrite bind_ret. eexists _, _. split; [done|].
    split; [by destruct G|done]. }
  destruct (Hcmp "start"%string) as [b ->]. rewrite bind_ret. destruct b; [by apply ctrl_start_ok|].
  destruct (Hcmp "close"%string) as [b ->]. rewrite bind_ret. destruct b.
  { destruct (Z.leb_spec 0 (listen_id g)); [|by eexists _, _].
    call (close_ok (listen_id g) w). eexists _, _. split; [done|]. split; [by destruct G|done]. }
  destruct (buf_drop_string n (msg ++ [0]) 0 Hbuf) as [s Es]; [lia|]. rewrite drop_0 in Es. rewrite Es, bind_ret.
  call (report_ok (str "[gate] Unkown command : " ++ s) w). by eexists _, _.
Qed.

(** ** Data *)

Lemma forward_total g c size w : db_ok (buffer c) -> winv w ->
  0 < size <= Z.of_nat (List.length (contents (buffer c))) ->
  exists b m w', _forward g c size w = Ok (b, m, w') /\ db_ok b /\ winv w' /\
    (List.length (contents b) <= List.length (contents (buffer c)))%nat.
Proof.
  intros Hok Hw Hsz.
  destruct (databuffer_read_ok (buffer c) (mp g) size Hok) as (b & m & E & Hok' & Ec & _).
  { destruct Hok as [_ _ ->]. lia. }
  assert (Hle : (List.length (contents b) <= List.length (contents (buffer c)))%nat)
    by (rewrite Ec, length_drop; lia).
  unfold _forward. rewrite E. destruct (negb (broker g =? 0)); [|destruct (negb (agent c =? 0));
    [|destruct (negb (watchdog g =? 0)); [|by exists (buffer c), (mp g), w]]]; rewrite bind_ret;
    match goal with |- context [send ?s ?d ?t ?k ?p w] => call (send_ok s d t k p w) end; eauto 10.
Qed.

Definition rounds (b : databuffer) : nat :=
  (List.length (contents b) + if decide (header b = 0%Z) then 0 else 1)%nat.

Lemma packet_loop_total fuel : forall g c id w, db_ok (buffer c) -> winv w ->
  header_size g = 2 \/ header_size g = 4 -> (rounds (buffer c) < fuel)%nat ->
  exists b m w', packet_loop fuel g c id w = Ok (b, m, w') /\ db_ok b /\ winv w'.
Proof.
  induction fuel as [|fuel IH]; intros g c id w Hok Hw Hhs Hf; [lia|]. cbn [packet_loop].
  (* what follows a header *)
  assert (Hgo : forall b1 m1, db_ok b1 ->
    (rounds (databuffer_reset b1) < fuel)%nat -> header b1 <= Z.of_nat (List.length (contents b1)) ->
    (header b1 = 0 -> (rounds b1 < fuel)%nat) ->
    exists b m w', (if header b1 <? 0 then Ok (b1, m1, w)
      else if 0 <? header b1 then
        if 0x1000000 <=? header b1 then
          '(b, m) ← databuffer_clear b1 m1;
          w ← socket_close id w;
          w ← error (str "Recv socket message > 16M") w;
          Ok (b, m, w)
        else
          '(b, m, w) ← _forward (set_mp m1 g) (set_buffer b1 c) (header b1) w;
          packet_loop fuel (set_mp m g) (set_buffer (databuffer_reset b) c) id w
      else packet_loop fuel (set_mp m1 g) (set_buffer b1 c) id w) = Ok (b, m, w') /\ db_ok b /\ winv w').
  { intros b1 m1 Hok1 Hr1 Hfull Hr0. destruct (Z.ltb_spec (header b1) 0); [by exists b1, m1, w|].
    destruct (Z.ltb_spec 0 (header b1)); [|apply IH; try done; apply Hr0; lia].
    destruct (0x1000000 <=? header b1).
    - rewrite databuffer_clear_ok, bind_ret. call (close_ok id w).
      call (report_ok (str "Recv socket message > 16M") w0). eexists _, _, _. split; [done|].
      split; [apply empty_ok|done].
    - destruct (forward_total (set_mp m1 g) (set_buffer b1 c) (header b1) w)
        as (b2 & m2 & w2 & -> & Hok2 & Hw2 & Hle); [done|done|cbn [buffer set_buffer]; lia|].
      rewrite bind_ret. apply IH; try done; [by destruct Hok2|].
      cbn [buffer set_buffer] in *. unfold rounds in *. cbn [databuffer_reset set_header header] in *.
      change (contents (databuffer_reset ?b)) with (contents b) in *.
      change (contents (set_header 0 ?b)) with (contents b) in *. repeat case_decide; (lia || done). }
  destruct (Z.eqb_spec (header (buffer c)) 0) as [H0|H0].
  - destruct (Z.lt_ge_cases (Z.of_nat (List.length (contents (buffer c)))) (header_size g)) as [Hlt|Hge].
    { rewrite readheader_wait by (done || (split; lia)). rewrite bind_ret. by eexists _, _, _. }
    destruct (readheader_new (buffer c) (mp g) (header_size g) Hok H0 Hhs Hge) as (v & b1 & m1 & Ev & Hok1 & Ec1 & Eh1 & ->).
    rewrite bind_ret.
    assert (Hlen : (List.length (contents b1) + 2 <= List.length (contents (buffer c)))%nat)
      by (rewrite Ec1, length_drop; lia).
    destruct (Z.ltb_spec (Z.of_nat (List.length (contents b1))) v); [by exists b1, m1, w|]. rewrite <- Eh1.
    unfold rounds in Hf. case_decide; [|done].
    apply Hgo; [done| |lia|]; intros; unfold rounds; cbn [databuffer_reset set_header header];
      change (contents (databuffer_reset ?b)) with (contents b); repeat case_decide; lia.
  - destruct (Z.lt_ge_cases (Z.of_nat (List.length (contents (buffer c)))) (header (buffer c))) as [Hlt|Hge].
    { rewrite readheader_wait by (done || (split; lia)). rewrite bind_ret. by eexists _, _, _. }
    rewrite readheader_again by done. rewrite bind_ret. unfold rounds in Hf. case_decide; [done|].
    apply Hgo; [done| |lia|done]. unfold rounds. cbn [databuffer_reset set_header header].
    change (contents (databuffer_reset ?b)) with (contents b). repeat case_decide; (lia || done).
Qed.

Lemma gate_dispatch_ok g c id d w : gate_ok g -> winv w -> db_ok (buffer c) ->
  dsize (buffer c) + Z.of_nat (List.length d) < 2^31 ->
  exists b m w', dispatch_message g c id d (Z.of_nat (List.length d)) w = Ok (b, m, w') /\ db_ok b /\ winv w'.
Proof.
  intros G Hw Hok Hbig. unfold dispatch_message.
  destruct (databuffer_push_ok (buffer c) (mp g) d Hok Hbig) as (b1 & m1 & -> & Hok1 & _). rewrite bind_ret.
  apply packet_loop_total; try done; [apply (go_header _ G)|]. cbn [buffer set_buffer]. unfold rounds.
  destruct Hok1 as [_ _ ->]. case_decide; lia.
Qed.

(** ** Socket events *)

(** What the socket server promises of its messages: a data message has its block
    and the size of it (and a connection is behind by less than 2^31 bytes); ids are
    not negative; a new id is not in use. *)
Definition message_ok (g : gate) (m : Netpack.socket_message) : Prop :=
  0 <= Netpack.s_id m /\
  match Netpack.s_type m with
  | Netpack.SData => exists d, Netpack.s_buffer m = Some d /\ Netpack.s_ud m = Z.of_nat (List.length d) /\
      forall slot c, conn g !! slot = Some c -> dsize (buffer c) + Netpack.s_ud m < 2^31
  | Netpack.SAccept => 0 <= Netpack.s_ud m /\ Netpack.s_ud m + max_connection g < 2^31 /\ forall slot, ~ at_slot (table g) (Netpack.s_ud m) slot
  | _ => True
  end.

Lemma report_total g text w : winv w -> exists w', _report g text w = Ok w' /\ winv w'.
Proof.
  intros Hw. unfold _report. destruct (watchdog g =? 0); [by exists w|]. by apply send_ok.
Qed.

(** An accept of a socket the gate does not listen on: [close] has set [listen_id]
    to -1, and an accept that was under way arrives. *)
Definition stale_accept (g : gate) (m : Netpack.socket_message) : Prop :=
  Netpack.s_type m = Netpack.SAccept /\ Netpack.s_id m <> listen_id g.

#[global] Instance socket_type_eq_dec : EqDecision Netpack.socket_type.
Proof. solve_decision. Defined.

#[global] Instance stale_accept_dec g m : Decision (stale_accept g m).
Proof. unfold stale_accept. apply _. Defined.

Lemma accept_ok g m w : gate_ok g -> winv w -> message_ok g m -> ~ stale_accept g m -> Netpack.s_type m = Netpack.SAccept ->
  exists g' w', dispatch_socket_message g m (Z.of_nat (List.length (Netpack.s_padding m))) w = Ok (g', w') /\
    gate_ok g' /\ winv w'.
Proof.
  intros G Hw [_ Hm] Hst Et. unfold dispatch_socket_message. rewrite Et in *. cbv zeta.
  assert (Eid : Netpack.s_id m = listen_id g) by (destruct (decide (Netpack.s_id m = listen_id g)); [done|by destruct Hst]).
  destruct Hm as (Hud & Hbig & Hnew). rewrite Eid, Z.eqb_refl. cbn [c_assert]. rewrite bind_ret.
  unfold hashid_full. pose proof G as [(ch & Hwf) Hcap Hlen Hhs Hconn].
  destruct (Z.eqb_spec (count (table g)) (cap (table g))) as [_|Hfull].
  { call (close_ok (Netpack.s_ud m) w). by eexists _, _. }
  assert (Hcount : count (table g) < cap (table g)).
  { rewrite <- (w_cap _ _ Hwf), (w_count _ _ Hwf) in *. enough (used (id <$> nodes (table g)) <= List.length (nodes (table g)))%nat by lia.
    unfold used. etransitivity; [apply length_filter|]. by rewrite length_fmap. }
  destruct (insert_spec (table g) ch (Netpack.s_ud m) Hwf) as (c & t & ch' & -> & Hwf' & Ecap & _ & Hc & Hfree & Hslots);
    [done|lia|done|done|]. rewrite bind_ret.
  destruct (lookup_lt_is_Some_2 (conn g) (Z.to_nat c)) as [x Hx]; [lia|].
  rewrite (arr_get_ok _ _ _ (proj1 Hc) Hx), bind_ret.
  destruct (Hconn _ _ Hx) as (Hdb & Hnm & _).
  set (sz := if 32 <=? Z.of_nat (List.length (Netpack.s_padding m)) then 31 else Z.of_nat (List.length (Netpack.s_padding m))).
  assert (Hsz : 0 <= sz <= 31 /\ sz <= Z.of_nat (List.length (Netpack.s_padding m))).
  { subst sz. destruct (Z.leb_spec 32 (Z.of_nat (List.length (Netpack.s_padding m)))); lia. }
  rewrite read_block by lia. rewrite bind_ret. set (b := take _ _).
  assert (Hb : Z.of_nat (List.length b) = sz) by (subst b; rewrite length_take, length_drop; lia).
  assert (exists nm, mem_write (remote_name x) 0 (b ++ [0]) = Ok nm /\ List.length nm = 32%nat) as (nm & -> & Enm).
  { unfold mem_write. rewrite length_app. cbn [List.length].
    destruct (Z.ltb_spec (Z.of_nat (List.length (remote_name x))) (0 + Z.of_nat (List.length b + 1))); [lia|].
    eexists. split; [done|]. rewrite !length_app, length_take, length_drop. cbn [List.length]. lia. }
  rewrite bind_ret, arr_set_ok by (apply lookup_lt_Some in Hx; lia). rewrite bind_ret.
  match goal with |- context [_report ?g' ?t w] => set (g1 := g'); call (report_total g1 t w) end.
  match goal with |- context [error ?t w0] => call (report_ok t w0) end.
  exists g1, w1. split; [done|]. split; [|done]. subst g1. split; cbn; try done.
  - by exists ch'.
  - by rewrite Ecap.
  - by rewrite length_insert.
  - intros slot y Hy. apply list_lookup_insert_Some in Hy as [(<- & <- & _)|[Hne Hy]].
    + split; [done|]. split; [done|]. right. cbn. apply Hslots. left. split; [lia|done].
    + destruct (Hconn _ _ Hy) as (H1 & H2 & H3). split; [done|]. split; [done|].
      destruct H3 as [[-> Hno]|Hat]; [left; split; [done|]|right].
      * intros i Hi. apply Hslots in Hi as [[? _]|[_ ?]]; [lia|by apply (Hno i)].
      * apply Hslots. right. split; [lia|done].
Qed.

Lemma closed_ok g m w : gate_ok g -> winv w -> message_ok g m ->
  exists g' w',
    ('(id, t) ← hashid_remove (table g) (Netpack.s_id m);
     if 0 <=? id then
       c ← arr_get (conn g) id;
       '(_, mp) ← databuffer_clear (buffer c) (mp g);
       cs ← arr_set (conn g) id no_conn;
       w ← _report g (fmt_d (Netpack.s_id m) ++ str " close") w;
       Ok (set_conns t cs mp g, w)
     else Ok (set_conns t (conn g) (mp g) g, w)) = Ok (g', w') /\ gate_ok g' /\ winv w'.
Proof.
  intros G Hw [Hid _]. pose proof G as [(ch & Hwf) Hcap Hlen Hhs Hconn].
  destruct (remove_spec (table g) ch (Netpack.s_id m) Hwf) as (r & t & ch' & -> & Hwf' & Ecap & Hr); [lia|].
  rewrite bind_ret. destruct Hr as [(-> & -> & _)|(Hat & _ & Hslots)].
  { cbn. eexists _, _. split; [done|]. split; [by destruct G|done]. }
  destruct (slot_conn g _ r G Hat) as (c & Hc & _). pose proof Hat as (H0 & _).
  destruct (Z.leb_spec 0 r); [|lia]. rewrite (arr_get_ok _ _ _ H0 Hc), bind_ret, databuffer_clear_ok, bind_ret.
  rewrite arr_set_ok by (apply lookup_lt_Some in Hc; lia). rewrite bind_ret.
  call (report_total g (fmt_d (Netpack.s_id m) ++ str " close") w). eexists _, _. split; [done|]. split; [|done].
  split; cbn; try done.
  - by exists ch'.
  - by rewrite Ecap.
  - by rewrite length_insert.
  - intros slot y Hy. apply list_lookup_insert_Some in Hy as [(<- & <- & _)|[Hne Hy]].
    + split; [apply no_conn_ok|]. split; [done|]. left. split; [done|]. intros i Hi. apply Hslots in Hi as [Hne _]. lia.
    + destruct (Hconn _ _ Hy) as (H1 & H2 & H3). split; [done|]. split; [done|].
      destruct H3 as [[-> Hno]|H3]; [left; split; [done|]|right].
      * intros i Hi. apply Hslots in Hi as [_ ?]. by apply (Hno i).
      * apply Hslots. split; [lia|done].
Qed.

Lemma socket_message_ok g m w : gate_ok g -> winv w -> message_ok g m -> ~ stale_accept g m ->
  exists g' w', dispatch_socket_message g m (Z.of_nat (List.length (Netpack.s_padding m))) w = Ok (g', w') /\
    gate_ok g' /\ winv w'.
Proof.
  intros G Hw Hm Hst. destruct (Netpack.s_type m) eqn:Et; [| | |by apply accept_ok| | |];
    unfold dispatch_socket_message; rewrite Et; cbv zeta.
  - pose proof Hm as [_ Hd]. rewrite Et in Hd. destruct Hd as (d & Eb & Eud & Hbig).
    destruct (go_hash _ G) as [ch Hwf]. destruct (lookup_any _ ch (Netpack.s_id m) Hwf) as (r & -> & Hr). rewrite bind_ret.
    destruct (Z.leb_spec 0 r) as [H0|].
    + specialize (Hr H0). destruct (slot_conn g _ r G Hr) as (c & Hc & Eid).
      rewrite (arr_get_ok _ _ _ H0 Hc), bind_ret, Eb. cbn [nonnull]. rewrite bind_ret, Eud.
      destruct (gate_dispatch_ok g c (Netpack.s_id m) d w) as (b & mm & w' & -> & Hb & Hw'); [done|done| | |].
      { by destruct (go_conn _ G _ _ Hc). } { rewrite <- Eud. eauto. }
      rewrite bind_ret, arr_set_ok by (apply lookup_lt_Some in Hc; lia). rewrite bind_ret.
      eexists _, _. split; [done|]. split; [|done]. eapply gate_ok_conn; try done. by rewrite Eid, Z2Nat.id.
    + match goal with |- context [error ?t w] => call (report_ok t w) end.
      match goal with |- context [socket_close ?t w0] => call (close_ok t w0) end. by eexists _, _.
  - destruct (_ =? _); [by eexists _, _|]. destruct (go_hash _ G) as [ch Hwf].
    destruct (lookup_any _ ch (Netpack.s_id m) Hwf) as (r & -> & _). rewrite bind_ret.
    destruct (r <? 0); [|by eexists _, _].
    match goal with |- context [error ?t w] => call (report_ok t w) end.
    match goal with |- context [socket_close ?t w0] => call (close_ok t w0) end. by eexists _, _.
  - by apply closed_ok.
  - by apply closed_ok.
  - by eexists _, _.
  - match goal with |- context [error ?t w] => call (report_ok t w) end. by eexists _, _.
Qed.

Definition content_ok (g : gate) (type : Z) (msg : content) : Prop :=
  match msg with
  | Bytes b => type <> PTYPE_SOCKET /\ (type = PTYPE_TEXT -> 0 ∉ b)
  | Socket m => type = PTYPE_SOCKET /\ message_ok g m
  end.
Definition stale (g : gate) (msg : content) : Prop :=
  match msg with Bytes _ => False | Socket m => stale_accept g m end.

Lemma stale_aborts g src msg w : stale g msg -> _cb g PTYPE_SOCKET src msg w = Fault AssertFailed.
Proof.
  destruct msg as [|m]; [done|]. intros [Et Hne]. unfold _cb. cbn [Z.eqb Pos.eqb PTYPE_SOCKET PTYPE_TEXT PTYPE_CLIENT].
  unfold dispatch_socket_message. rewrite Et. cbv zeta. destruct (Z.eqb_spec (listen_id g) (Netpack.s_id m)); [congruence|done].
Qed.

Lemma cb_total g type src msg w : gate_ok g -> winv w -> content_ok g type msg -> ~ stale g msg ->
  exists r g' w', _cb g type src msg w = Ok (r, g', w') /\ gate_ok g' /\ winv w'.
Proof.
  intros G Hw Hc Hst. unfold _cb. destruct msg as [b|m]; cbn [content_ok stale] in *; destruct Hc as [Hty Hc].
  - destruct (Z.eqb_spec type PTYPE_TEXT) as [Et|_].
    { destruct (ctrl_ok g b w G Hw (Hc Et)) as (g' & w' & -> & G' & Hw'). rewrite bind_ret. by eexists _, _, _. }
    destruct (type =? PTYPE_CLIENT); [|destruct (Z.eqb_spec type PTYPE_SOCKET); [done|by eexists _, _, _]]. cbv zeta.
    destruct (Z.leb_spec (Z.of_nat (List.length b)) 4).
    { match goal with |- context [error ?t w] => call (report_ok t w) end. by eexists _, _, _. }
    assert (Hget : forall k, 0 < k <= 4 -> exists x, arr_get b (Z.of_nat (List.length b) - k) = Ok x).
    { intros k Hk. destruct (lookup_lt_is_Some_2 b (Z.to_nat (Z.of_nat (List.length b) - k))) as [x Hx]; [lia|].
      exists x. apply arr_get_ok; [lia|done]. }
    destruct (Hget 4) as [x0 ->]; [lia|]. destruct (Hget 3) as [x1 ->]; [lia|].
    destruct (Hget 2) as [x2 ->]; [lia|]. destruct (Hget 1) as [x3 ->]; [lia|]. rewrite !bind_ret.
    match goal with |- context [u32 ?z] => set (uid := u32 z) end.
    destruct (go_hash _ G) as [ch Hwf]. destruct (lookup_any _ ch (i32 uid) Hwf) as (r & -> & _). rewrite bind_ret.
    destruct (0 <=? r).
    + rewrite read_block by lia. rewrite bind_ret.
      match goal with |- context [socket_send ?i ?p w] => call (sendto_ok i p w) end. by eexists _, _, _.
    + match goal with |- context [error ?t w] => call (report_ok t w) end. by eexists _, _, _.
  - subst type. cbn [Z.eqb Pos.eqb PTYPE_SOCKET PTYPE_TEXT PTYPE_CLIENT].
    destruct (socket_message_ok g m w G Hw Hc Hst) as (g' & w' & -> & G' & Hw'). rewrite bind_ret. by eexists _, _, _.
Qed.

Lemma gate_init_keeps g parm w r g' w' : gate_create = g -> winv w ->
  gate_init g parm w = Ok (r, g', w') -> r = 0 -> gate_ok g' /\ winv w'.
Proof.
  intros <- Hw. unfold gate_init. destruct parm as [parm|]; [|by intros [= <- _ _]].
  destruct (scan_parm parm) as [[[[[h wd] bd] tag] mx]|];
    [|destruct (report_ok (str "Invalid gate parm " ++ parm) w Hw) as (w1 & -> & _); by intros [= <- _ _]].
  destruct (Z.leb_spec mx 0) as [|Hmx];
    [destruct (report_ok (str "Need max connection") w Hw) as (w1 & -> & _); by intros [= <- _ _]|].
  destruct (_ && _);
    [destruct (report_ok (str "Invalid data header style") w Hw) as (w1 & -> & _); by intros [= <- _ _]|].
  intros E Er. apply bind_Ok in E as ([hd w1] & E1 & E).
  assert (Hw1 : winv w1).
  { destruct (first wd =? 33); [by injection E1 as _ <-|].
    destruct (queryname_ok wd w Hw) as (? & ? & E2 & Hw2). rewrite E2 in E1. by injection E1 as <- <-. }
  destruct (_ && _).
  { apply bind_Ok in E as (w2 & _ & E). injection E as <- _ _. done. }
  apply bind_Ok in E as (t & Et & E). apply bind_Ok in E as (w2 & E2 & E).
  assert (Hw2 : winv w2) by (destruct (callback_ok w1 Hw1) as (? & E3 & ?); congruence).
  assert (Hmx2 : mx <= 2^30).
  { destruct (Z.le_gt_cases mx (2^30)); [done|]. unfold hashid_init in Et. apply bind_Ok in Et as (hc & Ehc & _).
    exfalso. revert Ehc. assert (forall fuel k, 4 <= k <= 30 -> hashcap_loop fuel (2^k) mx <> Ok hc) as Hno; [|apply (Hno 29%nat 4); lia].
    clear -H. induction fuel as [|fuel IH]; intros k Hk; cbn [hashcap_loop]; [done|].
    assert (2^k <= 2^30) by (apply Z.pow_le_mono_r; lia).
    destruct (Z.ltb_spec (2^k) mx); [|lia]. assert (2^k * 2 = 2^(k+1)) as -> by (rewrite Z.pow_add_r by lia; lia).
    destruct (decide (k = 30)) as [->|]; [done|]. assert (2^(k+1) <= 2^30) by (apply Z.pow_le_mono_r; lia).
    rewrite c_int_ok by lia. rewrite bind_ret. apply IH. lia. }
  destruct (hashid_init_ok mx) as (t' & Et' & Hwf & Hcap & _ & Hno); [lia|]. rewrite Et' in Et. injection Et as <-.
  set (g0 := MkGate _ _ _ _ _ _ _ _ _) in E.
  assert (G0 : gate_ok g0).
  { subst g0. split; cbn; [eauto|done|rewrite length_replicate; lia|destruct (h =? 83); auto|].
    intros slot c Hc. apply lookup_replicate in Hc as [-> _]. split; [apply no_conn_ok|]. split; [done|]. left.
    split; [done|]. intros i. apply Hno. }
  unfold start_listen in E. destruct (match strchr 58 bd with None => _ | Some _ => _ end) as [host port].
  destruct (port <=? 0); [apply bind_Ok in E as (w3 & _ & E); injection E as <- _ _; done|].
  apply bind_Ok in E as ([i w3] & E3 & E). destruct (i <? 0); [injection E as <- _ _; done|].
  apply bind_Ok in E as (w4 & E4 & E). injection E as _ <- <-. split; [by destruct G0|].
  destruct (listen_ok host port BACKLOG w2 Hw2) as (? & ? & E5 & Hw3). rewrite E5 in E3. injection E3 as -> ->.
  destruct (start_ok i w3 Hw3) as (? & E6 & ?). congruence.
Qed.

(** The states of a gate: after [init], and after each message. *)
Inductive reached : gate -> W -> Prop :=
  | reached_init parm w g w' :
      winv w -> gate_init gate_create parm w = Ok (0, g, w') -> reached g w'
  | reached_cb g w type src msg r g' w' :
      reached g w -> content_ok g type msg -> _cb g type src msg w = Ok (r, g', w') -> reached g' w'.

Lemma reached_ok g w : reached g w -> gate_ok g /\ winv w.
Proof.
  induction 1 as [parm w g w' Hw E|g w type src msg r g' w' _ [G Hw] Hc E].
  - by apply (gate_init_keeps gate_create parm w 0 g w').
  - assert (Hst : ~ stale g msg).
    { intros Hst. destruct msg as [|m]; [done|]. destruct Hc as [-> _]. by rewrite (stale_aborts g src (Socket m) w Hst) in E. }
    destruct (cb_total g type src msg w G Hw Hc Hst) as (r2 & g2 & w2 & E2 & G2 & Hw2). rewrite E2 in E.
    by injection E as _ <- <-.
Qed.

(** C13.  The gate crashes on one kind of message only and keeps its tables
    consistent: in every state it can reach, the table of ids and the array of
    connections agree, and for a message that [content_ok] describes (its type fits
    what it points to; a text has no terminator inside; socket ids are not negative, a
    new one is not in use and below 2^31 less the slots; no connection is 2^31 bytes
    behind) the callback runs to its end (no assertion fails, no access is out of
    bounds, the packet loop terminates) in a state that is reached again, if the calls
    it makes into the node return, unless the message is an accept of a socket that is
    not [listen_id], as one that arrives after the command [close] is: there the
    assertion fails. *)
Theorem gate_never_faults g w :
  reached g w -> gate_ok g /\
  forall type src msg, content_ok g type msg ->
    (~ stale g msg -> exists r g' w', _cb g type src msg w = Ok (r, g', w') /\ reached g' w') /\
    (stale g msg -> _cb g type src msg w = Fault AssertFailed).
Proof.
  intros Hr. destruct (reached_ok g w Hr) as [G Hw]. split; [done|]. intros type src msg Hc. split.
  2:{ intros Hst. destruct msg as [|m]; [done|]. destruct Hc as [-> _]. by apply stale_aborts. }
  intros Hst. destruct (cb_total g type src msg w G Hw Hc Hst) as (r & g' & w' & E & _). exists r, g', w'.
  split; [done|]. by eapply reached_cb.
Qed.
End Total.

(** ** A world that records the calls *)

Inductive call :=
  | CSend (source dest type session : Z) (payload : list Z)
  | CError (text : cstr)
  | CQuery (name : cstr)
  | CCallback
  | CClose (i : Z)
  | CStart (i : Z)
  | CSocketSend (i : Z) (payload : list Z)
  | CListen (host : cstr) (port backlog : Z).

(** Names resolve to the handle 9; the listening socket is 1. *)
#[global] Instance recorder : Skynet (list call) := {|
  send s d t k p w := Ok (w ++ [CSend s d t k p]);
  error t w := Ok (w ++ [CError t]);
  queryname nm w := Ok (9, w ++ [CQuery nm]);
  set_callback w := Ok (w ++ [CCallback]);
  socket_close i w := Ok (w ++ [CClose i]);
  socket_start i w := Ok (w ++ [CStart i]);
  socket_send i p w := Ok (w ++ [CSocketSend i p]);
  socket_listen h p b w := Ok (1, w ++ [CListen h p b])
|}.

#[global] Instance recorder_ok : SkynetOk (list call) (fun _ => True).
Proof. split; intros; eauto. Qed.

(** A gate listening with 2-byte (4-byte) headers and 4 slots, one client on
    socket 5. *)
Definition open_gate (parm : cstr) : outcome (gate * list call) :=
  '(_, g, w) ← gate_init gate_create (Some parm) ([] : list call);
  '(_, g, w) ← _cb g PTYPE_SOCKET 0
    (Socket (Netpack.SockMsg Netpack.SAccept 1 5 None (str "1.2.3.4:999"))) w;
  Ok (g, w).

Definition the_gate (parm : string) : gate :=
  match open_gate (str parm) with Ok (g, _) => g | Fault _ => gate_create end.
Definition the_calls (parm : string) : list call :=
  match open_gate (str parm) with Ok (_, w) => w | Fault _ => [] end.

Lemma gate_forwards_packets_witness : exists b m,
  contents b = [] /\
  receive (the_gate "S .w 8888 0 4") 5 [[0]; [2; 7]; [8; 0; 0; 0]; [1; 9]] ([] : list call) =
    Ok (with_conn (the_gate "S .w 8888 0 4") 1
          (set_buffer b (Conn 5 0 0 (str "1.2.3.4:999" ++ replicate 21 0) empty)) m,
        [CSend 0 9 0x10000 1 (str "5 data " ++ [7; 8]); CSend 0 9 0x10000 1 (str "5 data " ++ [9])]).
Proof.
  set (c := Conn 5 0 0 (str "1.2.3.4:999" ++ replicate 21 0) empty).
  destruct (gate_forwards_packets (W := list call) (the_gate "S .w 8888 0 4") c 5 1 2
    [[7; 8]; []; [9]] [[0]; [2; 7]; [8; 0; 0; 0]; [1; 9]])
    as (b & m & _ & _ & Eb & E).
  - vm_compute. reflexivity.
  - lia.
  - vm_compute. reflexivity.
  - right. right. vm_compute. discriminate.
  - reflexivity.
  - vm_compute. reflexivity.
  - left. reflexivity.
  - repeat constructor; vm_compute; reflexivity.
  - vm_compute. reflexivity.
  - vm_compute. reflexivity.
  - exists b, m. split; [exact Eb|]. rewrite E. vm_compute. reflexivity.
Defined.

Lemma gate_never_faults_witness :
  gate_ok (the_gate "L .w 8888 0 4") /\
  exists r g' w', _cb (the_gate "L .w 8888 0 4") PTYPE_TEXT 9 (Bytes (str "forward 5 :a :b"))
    (the_calls "L .w 8888 0 4") = Ok (r, g', w') /\ reached (fun _ => True) g' w' /\
    exists r2 g2 w2, _cb g' PTYPE_TEXT 9 (Bytes (str "close")) w' = Ok (r2, g2, w2) /\
      _cb g2 PTYPE_SOCKET 0 (Socket (Netpack.SockMsg Netpack.SAccept 1 6 None [])) w2 = Fault AssertFailed.
Proof.
  assert (R : reached (fun _ : list call => True) (the_gate "L .w 8888 0 4") (the_calls "L .w 8888 0 4")).
  { eapply (reached_cb _ _ _ PTYPE_SOCKET 0
      (Socket (Netpack.SockMsg Netpack.SAccept 1 5 None (str "1.2.3.4:999"))) 0).
    - eapply (reached_init _ (Some (str "L .w 8888 0 4")) []); [done|vm_compute; reflexivity].
    - split; [done|]. split; [done|]. split; [done|]. split; [done|].
      intros slot (_ & _ & nx & E). revert E. generalize (Z.to_nat slot).
      intros [|[|[|[|k]]]]; vm_compute; discriminate.
    - vm_compute. reflexivity. }
  destruct (gate_never_faults (fun _ => True) _ _ R) as [G H]. split; [exact G|].
  destruct (H PTYPE_TEXT 9 (Bytes (str "forward 5 :a :b"))) as [H1 _]; [split; [done|]; intros _; vm_compute; set_solver|].
  destruct (H1 Datatypes.id) as (r & g' & w' & E & R'). exists r, g', w'. split; [exact E|]. split; [exact R'|].
  destruct (gate_never_faults (fun _ => True) _ _ R') as [_ H2].
  destruct (H2 PTYPE_TEXT 9 (Bytes (str "close"))) as [H3 _]; [split; [done|]; intros _; vm_compute; set_solver|].
  destruct (H3 Datatypes.id) as (r2 & g2 & w2 & E2 & R2). exists r2, g2, w2. split; [exact E2|].
  destruct (gate_never_faults (fun _ => True) _ _ R2) as [_ H4].
  assert (El : listen_id g2 = -1 /\ id <$> nodes (table g2) = id <$> nodes (table (the_gate "L .w 8888 0 4"))).
  { vm_compute in E. injection E as _ <- <-. vm_compute in E2. injection E2 as _ <- _. by vm_compute. }
  destruct El as [El En].
  destruct (H4 PTYPE_SOCKET 0 (Socket (Netpack.SockMsg Netpack.SAccept 1 6 None []))) as [_ H5]; [|apply H5; split; [reflexivity|rewrite El; discriminate]].
  split; [done|]. split; [done|]. split; [done|]. split.
  - vm_compute in E. injection E as _ <- <-. vm_compute in E2. injection E2 as _ <- _. by vm_compute.
  - intros slot (_ & _ & nx & Es). vm_compute in E. injection E as _ <- <-. vm_compute in E2. injection E2 as _ <- _.
    revert Es. generalize (Z.to_nat slot). intros [|[|[|[|k]]]]; vm_compute; discriminate.
Defined.

(** ** Two streams the gate gets wrong *)

(** While nobody takes the packets of a connection (no broker, no agent, and
    the watchdog given as [!]), a packet's payload stays in the buffer but its
    header is forgotten, so the payload is read as headers: an agent that is
    attached later receives bytes that no packet contains.  Here the client
    sends the packets [[0; 1]] and, after the agent was attached, [[9]]; the
    agent receives the packet [[0]]. *)
Theorem payload_read_as_header :
  exists g1 g2 g3,
    receive (the_gate "S ! 8888 0 4") 5 [frame 2 [0; 1]] ([] : list call) = Ok (g1, []) /\
    _cb g1 PTYPE_TEXT 9 (Bytes (str "forward 5 :a :b")) ([] : list call) = Ok (0, g2, []) /\
    receive g2 5 [frame 2 [9]] ([] : list call) = Ok (g3, [CSend 11 10 0x10003 1 [0]]).
Proof.
  eexists _, _, _. split; [vm_compute; reflexivity|].
  split; [vm_compute; reflexivity|]. vm_compute. reflexivity.
Qed.

Section Negative.
Context {W : Type} `{!Skynet W}.

Fixpoint dispatch_all (g : gate) (c : connection) (id : Z) (ds : list (list Z)) (w : W)
    : outcome (databuffer * messagepool * W) :=
  match ds with
  | [] => Ok (buffer c, mp g, w)
  | d :: ds =>
      '(b, m, w) ← dispatch_message g c id d (Z.of_nat (List.length d)) w;
      dispatch_all (set_mp m g) (set_buffer b c) id ds w
  end.

Lemma header_value_negative v : 2^31 <= v < 2^32 -> header_value (header_bytes 4 v) 4 = Ok (v - 2^32).
Proof.
  intros Hv. unfold header_bytes. cbn [Z.eqb Pos.eqb]. rewrite header_value4. f_equal.
  rewrite word_of_bytes by lia. unfold i32.
  replace (v + 2^31) with (v - 2^31 + 1 * 2^32) by lia. rewrite Z.mod_add, Z.mod_small by lia. lia.
Qed.

Lemma stuck_step g c id d (w : W) : db_ok (buffer c) -> header (buffer c) < 0 ->
  dsize (buffer c) + Z.of_nat (List.length d) < 2^31 ->
  exists b m, dispatch_message g c id d (Z.of_nat (List.length d)) w = Ok (b, m, w) /\ db_ok b /\
    header b = header (buffer c) /\ contents b = contents (buffer c) ++ d.
Proof.
  intros Hok Hneg Hbig. unfold dispatch_message.
  destruct (databuffer_push_ok (buffer c) (mp g) d Hok Hbig) as (b & m & -> & Hokb & Ec & Eh). rewrite bind_ret.
  exists b, m. split; [|done]. cbn [Nat.add packet_loop buffer set_buffer].
  rewrite readheader_again by (done || lia). rewrite bind_ret. by destruct (Z.ltb_spec (header b) 0); [|lia].
Qed.

Lemma stuck_all ds : forall g c id (w : W), db_ok (buffer c) -> header (buffer c) < 0 ->
  dsize (buffer c) + Z.of_nat (List.length (List.concat ds)) < 2^31 ->
  exists b m, dispatch_all g c id ds w = Ok (b, m, w) /\
    header b = header (buffer c) /\ contents b = contents (buffer c) ++ List.concat ds.
Proof.
  induction ds as [|d ds IH]; intros g c id w Hok Hneg Hbig; cbn [dispatch_all List.concat] in *.
  - exists (buffer c), (mp g). by rewrite app_nil_r.
  - rewrite length_app in Hbig. destruct (stuck_step g c id d w) as (b & m & -> & Hb & Eh & Ec); [done|done|lia|].
    rewrite bind_ret. destruct (IH (set_mp m g) (set_buffer b c) id w) as (b' & m' & -> & Eh' & Ec').
    + done.
    + cbn. lia.
    + cbn [buffer set_buffer]. destruct Hok as [_ _ Hs], Hb as [_ _ ->]. rewrite Ec, length_app. lia.
    + exists b', m'. cbn [buffer set_buffer] in *. rewrite Eh', Eh, Ec', Ec, app_assoc. done.
Qed.

(** A 4-byte header of 2^31 or more is a negative [int]: it passes the test
    for 16M, and from then on the gate keeps every byte the client sends, hands
    none of them on, makes no call at all and does not close the connection. *)
Theorem negative_header_hoards g c id v ds (w : W) :
  buffer c = empty -> header_size g = 4 -> 2^31 <= v < 2^32 ->
  Z.of_nat (List.length (List.concat ds)) < 2^31 ->
  exists b m, dispatch_all g c id (header_bytes 4 v :: ds) w = Ok (b, m, w) /\
    header b = v - 2^32 /\ contents b = List.concat ds.
Proof.
  intros Eb Eg Hv Hbig.
  destruct (databuffer_push_ok (buffer c) (mp g) (header_bytes 4 v)) as (b1 & m1 & E1 & Hok1 & Ec1 & Eh1);
    [rewrite Eb; apply empty_ok|by rewrite Eb|]. rewrite Eb in Ec1, Eh1.
  destruct (readheader_new b1 m1 4 Hok1 Eh1 (or_intror eq_refl)) as (v' & b2 & m2 & Ev & Hok2 & Ec2 & Eh2 & E2).
  { by rewrite Ec1. }
  change (contents empty ++ header_bytes 4 v) with (header_bytes 4 v) in Ec1. rewrite Ec1 in *.
  rewrite take_ge, header_value_negative in Ev by (done || cbn; lia). injection Ev as <-.
  rewrite drop_ge in Ec2 by (cbn; lia).
  destruct (stuck_all ds (set_mp m2 g) (set_buffer b2 c) id w) as (b & m & E & Eh & Ec);
    [done|cbn; lia|cbn [buffer set_buffer]; destruct Hok2 as [_ _ ->]; rewrite Ec2; cbn; lia|].
  exists b, m. cbn [buffer set_buffer] in *. rewrite Eh, Eh2, Ec, Ec2. split; [|done].
  cbn [dispatch_all]. unfold dispatch_message. rewrite E1, bind_ret.
  cbn [Nat.add packet_loop buffer set_buffer header_size set_mp set_conns mp]. rewrite Eg, E2, Ec2, bind_ret.
  destruct (Z.ltb_spec (Z.of_nat (List.length (@nil Z))) (v - 2^32)); [cbn in *; lia|].
  destruct (Z.ltb_spec (v - 2^32) 0); [|lia]. rewrite bind_ret. exact E.
Qed.
End Negative.

Lemma negative_header_witness : exists b m,
  dispatch_all (the_gate "L .w 8888 0 4") (set_buffer empty no_conn) 5 [[255; 255; 255; 255]; [1; 2]; [3]]
    ([] : list call) = Ok (b, m, []) /\ contents b = [1; 2; 3].
Proof.
  destruct (negative_header_hoards (W := list call) (the_gate "L .w 8888 0 4") (set_buffer empty no_conn) 5
    (2^32 - 1) [[1; 2]; [3]] []) as (b & m & E & _ & Ec).
  - reflexivity.
  - vm_compute. reflexivity.
  - lia.
  - vm_compute. reflexivity.
  - exists b, m. split; [exact E|exact Ec].
Defined.
