(* ===== verification/GateNode.v ===== *)
(** * The gate on a node

    [skynet.h] as the server implements it: the gate's calls on a node, with the
    requests to the socket thread written to its pipe.  The packets of a client
    whose connection was forwarded to an agent reach the agent's queue. *)

From S2P Require Import Prelude Mq Sched Timer Handle Text Module Server Delivery Command Lifecycle Dispatch Boot Netpack Databuffer Hashid Gate GateProofs GateInv.
From stdpp Require Import base numbers list gmap.
From Stdlib Require Import ZArith Lia String.
#[local] Open Scope Z_scope.
#[local] Open Scope list_scope.
Import Ring Global Data Hash Gate.

(** What the functions of [skynet_socket.c] write to the pipe. *)
Inductive request :=
  | RqClose (i : Z)
  | RqStart (i : Z)
  | RqSend (i : Z) (payload : list Z)
  | RqListen (host : cstr) (port backlog : Z).

(** A node, the context the gate runs in, the pipe and the id the next listening
    socket gets. *)
Record gnode := GN { gn_node : node; gn_ctx : loc; gn_pipe : list request; gn_listen : Z }.
Definition gn_with (n : node) (w : gnode) : gnode := GN n (gn_ctx w) (gn_pipe w) (gn_listen w).
Definition gn_request (r : request) (w : gnode) : gnode :=
  GN (gn_node w) (gn_ctx w) (gn_pipe w ++ [r]) (gn_listen w).

(** The payload is a block the gate allocated, or an array on its stack, which is
    gone after the call. *)
Definition node_send (s d t k : Z) (p : list Z) (w : gnode) : outcome gnode :=
  let '(q, n) := malloc p (gn_node w) in
  '(_, n) ← skynet_send (Some (gn_ctx w)) s d t k (Some q) (Z.of_nat (List.length p)) n;
  n ← (if needcopy t then skynet_free (Some q) n else Ok n);
  Ok (gn_with n w).

(** The id of [_cb] as a function is 1. *)
#[global] Instance node_skynet : Skynet gnode := {|
  send := node_send;
  error t w := n ← skynet_error (Some (gn_ctx w)) t (gn_node w); Ok (gn_with n w);
  queryname nm w := '(h, n) ← skynet_queryname (gn_ctx w) nm (gn_node w); Ok (h, gn_with n w);
  set_callback w := Ok (gn_with (skynet_callback (gn_ctx w) 1 (gn_node w)) w);
  socket_close i w := Ok (gn_request (RqClose i) w);
  socket_start i w := Ok (gn_request (RqStart i) w);
  socket_send i p w := Ok (gn_request (RqSend i p) w);
  socket_listen h p b w := Ok (gn_listen w, gn_request (RqListen h p b) w)
|}.

(** The state in which the gate's node can take messages for the agent [a], whose
    context is at [dc]: [items] wait there and there is room for [k] more. *)
Record agent_ready (w : gnode) (O : gset loc) (a : Z) (dc : loc) (y : skynet_context)
    (items : list skynet_message) (k : nat) : Prop := {
  ar_inv : exists l, node_inv (gn_node w) O l;
  ar_gate : is_Some (ctxs (gn_node w) !! gn_ctx w);
  ar_local : skynet_harbor_message_isremote a (gn_node w) = Ok false;
  ar_agent : Slots.handle_lookup (skynet_context_handle (gn_node w)) a (handles (gn_node w)) = Ok (Some dc);
  ar_ctx : ctxs (gn_node w) !! dc = Some y;
  ar_wait : waiting (gn_node w) (queue y) items;
  ar_room : Z.of_nat (List.length items + k) < 2^30
}.

(** The message that carries packet [p], from [src] with type [tag]. *)
Definition carries (h : gmap loc (list Z)) (src tag : Z) (p : list Z) (m : skynet_message) : Prop :=
  source m = src /\ session m = 1 /\
  Z.shiftr (sz m) MESSAGE_TYPE_SHIFT = Z.land tag 0xff /\
  Z.land (sz m) MESSAGE_TYPE_MASK = Z.of_nat (List.length p) /\
  exists q, data m = Some q /\ h !! q = Some p.

Lemma carries_mono h h' src tag p m : h ⊆ h' -> carries h src tag p m -> carries h' src tag p m.
Proof.
  intros Hsub (E1 & E2 & E3 & E4 & q & E5 & E6). split_and!; try done. exists q. split; [done|].
  by eapply lookup_weaken.
Qed.

Lemma dontcopy_type tag : 0 <= tag < 256 ->
  needcopy (Z.lor tag PTYPE_TAG_DONTCOPY) = false /\ allocsession (Z.lor tag PTYPE_TAG_DONTCOPY) = false /\
  Z.land (Z.lor tag PTYPE_TAG_DONTCOPY) 0xff = Z.land tag 0xff.
Proof.
  intros Ht. assert (Forall (fun t => needcopy (Z.lor t PTYPE_TAG_DONTCOPY) = false /\
    allocsession (Z.lor t PTYPE_TAG_DONTCOPY) = false /\
    Z.land (Z.lor t PTYPE_TAG_DONTCOPY) 0xff = Z.land t 0xff) (seqZ 0 256)) as Hall.
  { eapply bool_decide_eq_true_1. vm_compute. reflexivity. }
  rewrite Forall_forall in Hall. apply Hall, elem_of_seqZ. lia.
Qed.

(** One packet: one more message in the agent's queue. *)
Lemma send_packet w O a dc y items k src tag p x :
  agent_ready w O a dc y items (S k) -> 0 <= tag < 256 -> a <> 0 ->
  ctxs (gn_node w) !! gn_ctx w = Some x -> Z.of_nat (List.length p) < 2^56 ->
  exists w' m, node_send src a (Z.lor tag PTYPE_TAG_DONTCOPY) 1 p w = Ok w' /\
    agent_ready w' O a dc y (items ++ [m]) k /\ carries (heap (gn_node w')) (sender x src) tag p m /\
    heap (gn_node w) ⊆ heap (gn_node w') /\ ctxs (gn_node w') = ctxs (gn_node w) /\
    gn_ctx w' = gn_ctx w /\ gn_pipe w' = gn_pipe w /\
    forall q it, q <> queue y -> waiting (gn_node w) q it -> waiting (gn_node w') q it.
Proof.
  intros [[l I] _ Hloc Hag Hy Hwt Hroom] Htag Ha Hx Hp.
  destruct (dontcopy_type tag Htag) as (Enc & Eal & Ety). unfold node_send, malloc.
  set (n := gn_node w) in *. set (q := fresh (dom (heap n) ∪ dom (rheap n))).
  assert (Hq : heap n !! q = None).
  { apply not_elem_of_dom. intros Hin. apply (is_fresh (dom (heap n) ∪ dom (rheap n))). by apply elem_of_union_l. }
  set (n1 := with_heap (<[q := p]> (heap n)) n).
  set (m := Msg (sender x src) 1 (Some q) (tagged (Z.of_nat (List.length p)) (Z.lor tag PTYPE_TAG_DONTCOPY))).
  destruct (context_push_live a dc y items m n1 O l) as (s & l' & Epush & I2 & Pu);
    [by apply node_inv_heap|done|done|done|lia|].
  assert (Es : skynet_send (Some (gn_ctx w)) src a (Z.lor tag PTYPE_TAG_DONTCOPY) 1 (Some q)
    (Z.of_nat (List.length p)) n1 = Ok (1, with_mq s n1)).
  { unfold skynet_send. rewrite type_mask_mod, Z.mod_small, Z.eqb_refl by lia. cbn [negb].
    unfold _filter_args. fold (needcopy (Z.lor tag PTYPE_TAG_DONTCOPY)).
    fold (allocsession (Z.lor tag PTYPE_TAG_DONTCOPY)). rewrite Enc, Eal, !bind_ret.
    assert ((if src =? 0 then y0 ← deref (ctxs n1 !! gn_ctx w); Ok (handle y0) else Ok src) = Ok (sender x src)) as ->.
    { unfold sender. destruct (src =? 0); [|done]. subst n1. cbn [ctxs with_heap]. by rewrite Hx. }
    rewrite bind_ret. destruct (Z.eqb_spec a 0); [done|].
    assert (skynet_harbor_message_isremote a n1 = Ok false) as -> by done. rewrite bind_ret.
    fold (tagged (Z.of_nat (List.length p)) (Z.lor tag PTYPE_TAG_DONTCOPY)). fold m. rewrite Epush. done. }
  rewrite Es, bind_ret, Enc, bind_ret. exists (gn_with (with_mq s n1) w), m. split; [done|].
  destruct (tagged_inv (Z.of_nat (List.length p)) (Z.lor tag PTYPE_TAG_DONTCOPY)) as [Et Ez]; [lia|].
  assert (Hcar : carries (<[q := p]> (heap n)) (sender x src) tag p m).
  { split; [done|]. split; [done|]. split; [by rewrite <- Ety|]. split; [done|]. exists q.
    split; [done|]. apply lookup_insert_eq. }
  assert (Hready : agent_ready (gn_with (with_mq s n1) w) O a dc y (items ++ [m]) k).
  { split; cbn; try done.
    - by exists l'.
    - destruct Pu as [(q' & Hq' & Hr' & _) _]. by exists q'.
    - rewrite length_app. cbn. lia. }
  split_and!; try done.
  - cbn. by apply insert_subseteq.
  - intros q' it Hne (z & Hz & Hr). destruct (pushed_other _ _ _ _ _ q' z Pu Hne Hz) as (z' & ? & _ & ?).
    exists z'. auto.
Qed.

Lemma deliver_agent g c O a dc y tag x ps : forall w items,
  broker g = 0 -> agent c = a -> a <> 0 -> client_tag g = tag -> 0 <= tag < 256 ->
  agent_ready w O a dc y items (List.length ps) ->
  ctxs (gn_node w) !! gn_ctx w = Some x ->
  Forall (fun p => Z.of_nat (List.length p) < 2^56) ps ->
  exists w' ms, deliver g c ps w = Ok w' /\ agent_ready w' O a dc y (items ++ ms) 0 /\
    Forall2 (carries (heap (gn_node w')) (sender x (client c)) tag) ps ms /\
    heap (gn_node w) ⊆ heap (gn_node w') /\ gn_pipe w' = gn_pipe w /\
    forall q it, q <> queue y -> waiting (gn_node w) q it -> waiting (gn_node w') q it.
Proof.
  induction ps as [|p ps IH]; intros w items Hb Ea Ha Et Ht Hr Hx Hps.
  - exists w, []. rewrite app_nil_r. split_and!; try done.
  - cbn [deliver List.length] in *. apply Forall_cons in Hps as [Hp Hps].
    destruct (send_packet w O a dc y items (List.length ps) (client c) tag p x)
      as (w1 & m & E1 & Hr1 & Hc1 & Hsub1 & Ec1 & Eg1 & Ep1 & Ho1); try done.
    assert (forward_call g c p w = Ok w1) as ->.
    { unfold forward_call. rewrite Hb, Ea, Et. cbn [Z.eqb negb]. destruct (Z.eqb_spec a 0); [done|]. exact E1. }
    rewrite bind_ret. destruct (IH w1 (items ++ [m])) as (w2 & ms & -> & Hr2 & Hc2 & Hsub2 & Ep2 & Ho2); try done.
    { by rewrite Eg1, Ec1. }
    exists w2, (m :: ms). rewrite <- app_assoc in Hr2. split_and!; try done.
    + constructor; [by eapply carries_mono|done].
    + by etransitivity.
    + congruence.
    + auto.
Qed.

(** C12.  From the wire to the agent: when a connection with an empty buffer has been
    forwarded to a live agent of this node and the gate has no broker, the pieces of
    the client's stream (below 2^31 bytes, packets below 16M), however cut, end
    as one message per packet that is not empty (an empty packet causes none) at the
    end of the agent's queue, in order, each with the connection's client handle (or the gate's own) as source, the
    gate's client tag as type, the packet's size, and a block that holds exactly
    the bytes of the packet; no other queue changes and no request is made of
    the socket thread. *)
Theorem packets_reach_agent g c fd slot hs ps ds w O a dc y tag x items :
  hashid_lookup (table g) fd = Ok slot -> 0 <= slot -> conn g !! Z.to_nat slot = Some c ->
  buffer c = empty -> header_size g = hs -> hs = 2 \/ hs = 4 -> Forall (good hs) ps ->
  List.concat ds = stream hs ps -> Z.of_nat (List.length (stream hs ps)) < 2^31 ->
  broker g = 0 -> agent c = a -> a <> 0 -> client_tag g = tag -> 0 <= tag < 256 ->
  agent_ready w O a dc y items (List.length ps) -> ctxs (gn_node w) !! gn_ctx w = Some x ->
  exists g' w' ms, receive g fd ds w = Ok (g', w') /\
    agent_ready w' O a dc y (items ++ ms) 0 /\
    Forall2 (carries (heap (gn_node w')) (sender x (client c)) tag) (nonempty ps) ms /\
    gn_pipe w' = gn_pipe w /\
    forall q it, q <> queue y -> waiting (gn_node w) q it -> waiting (gn_node w') q it.
Proof.
  intros El Hs Hc Hbuf Eg Hhs Hps Ed Hbig Hb Ea Ha Et Ht Hr Hx.
  destruct (gate_receive_ok (W := gnode) ds g c fd slot hs ps) as (b & m & _ & _ & _ & E); try done.
  { right. left. congruence. } { rewrite Hbuf. apply empty_ok. } { by rewrite Hbuf. }
  { rewrite Hbuf. split; intros H0; [by destruct Hhs as [-> | ->]|done]. }
  assert (Hle : (List.length (nonempty ps) <= List.length ps)%nat) by apply length_filter.
  destruct (deliver_agent g c O a dc y tag x (nonempty ps) w items) as (w' & ms & Ed' & Hr' & Hc' & _ & Ep & Ho); try done.
  { destruct Hr. split; try done. lia. }
  { apply Forall_forall. intros p [_ Hp]%list_elem_of_filter. rewrite Forall_forall in Hps.
    destruct (Hps p Hp). lia. }
  eexists _, w', ms. rewrite E, Ed', bind_ret. split_and!; try done.
Qed.

(** The gate of the sample node, its client on socket 5 forwarded to the other
    service. *)
Definition forwarded : gate :=
  match _cb (the_gate "S ! 8888 0 4") PTYPE_TEXT 9 (Bytes (str "forward 5 :1000002 :0")) ([] : list call) with
  | Ok (_, g, _) => g
  | Fault _ => gate_create
  end.
Definition gate_on_node : gnode := GN node2h 1 [] 1.

Lemma gate_on_node_ready : agent_ready gate_on_node ∅ 16777218 2 watchdog_ctx [] 3.
Proof.
  split; [exact node2h_inv|vm_compute; by eexists|ev|ev|ev|exact node2h_idle|vm_compute; reflexivity].
Qed.

Lemma packets_reach_agent_witness : exists g' w' ms,
  receive forwarded 5 [[0]; [2; 7]; [8; 0; 0; 0]; [1; 9]] gate_on_node = Ok (g', w') /\
  waiting (gn_node w') (queue watchdog_ctx) ms /\
  Forall2 (carries (heap (gn_node w')) 16777217 PTYPE_CLIENT) [[7; 8]; [9]] ms.
Proof.
  destruct (packets_reach_agent forwarded
    (Conn 5 16777218 0 (str "1.2.3.4:999" ++ replicate 21 0) empty) 5 1 2
    [[7; 8]; []; [9]] [[0]; [2; 7]; [8; 0; 0; 0]; [1; 9]] gate_on_node ∅ 16777218 2 watchdog_ctx PTYPE_CLIENT
    gate_ctx []) as (g' & w' & ms & E & Hr & Hc & _).
  - vm_compute. reflexivity.
  - lia.
  - vm_compute. reflexivity.
  - reflexivity.
  - vm_compute. reflexivity.
  - left. reflexivity.
  - repeat constructor; vm_compute; reflexivity.
  - vm_compute. reflexivity.
  - vm_compute. reflexivity.
  - vm_compute. reflexivity.
  - reflexivity.
  - discriminate.
  - vm_compute. reflexivity.
  - vm_compute. split; [discriminate|reflexivity].
  - exact gate_on_node_ready.
  - vm_compute. reflexivity.
  - exists g', w', ms. split; [exact E|]. split; [exact (ar_wait _ _ _ _ _ _ _ Hr)|]. exact Hc.
Defined.
