(* ===== verification/Harbor.v ===== *)
(** * The harbor service ([service-src/service_harbor.c])

    The service that carries messages between nodes.  For every other node there
    is a [slave]: its connection, the state of the bytes that come from it, and a
    queue of messages that wait for the connection.  Messages to global names that
    are not known yet wait in the table of names.

    What the harbor asks of the rest of the node is written to a log, oldest
    first; [answer] is what a [skynet_send] returns after the calls so far.
    Payloads are bytes, and freeing one is a call in the log as well. *)

From S2P Require Import Prelude Mq Handle Text Server Netpack Gate.
From stdpp Require Import base numbers list gmap.
From Stdlib Require Import ZArith Lia String.
#[local] Open Scope Z_scope.
#[local] Open Scope list_scope.

Module Harbor.

Definition HASH_SIZE : Z := 4096.
Definition DEFAULT_QUEUE_SIZE : Z := 1024.
Definition HEADER_COOKIE_LENGTH : Z := 12.
Definition REMOTE_MAX : Z := 256.

Record remote_message_header := Header { source : Z; destination : Z; session : Z }.

Record harbor_msg := HMsg { header : remote_message_header; buffer : list Z }.

Record harbor_msg_queue := MsgQueue { size : Z; head : Z; tail : Z; data : list (option harbor_msg) }.

Record keyvalue := KeyValue { key : list Z; hash : Z; value : Z; kv_queue : option harbor_msg_queue }.

Abbreviation hashmap := (list (list keyvalue)).

Definition STATUS_WAIT : Z := 0.
Definition STATUS_HANDSHAKE : Z := 1.
Definition STATUS_HEADER : Z := 2.
Definition STATUS_CONTENT : Z := 3.
Definition STATUS_DOWN : Z := 4.

Record slave := Slave {
  fd : Z; queue : option harbor_msg_queue; status : Z; length : Z; read : Z;
  s_size : list Z; recv_buffer : option (list (option Z)) }.

(** [slave_handle] is the field [slave]. *)
Record harbor := MkHarbor { id : Z; slave_handle : Z; map : hashmap; s : list slave }.

Definition set_fd x u := Slave x (queue u) (status u) (length u) (read u) (s_size u) (recv_buffer u).
Definition set_queue x u := Slave (fd u) x (status u) (length u) (read u) (s_size u) (recv_buffer u).
Definition set_status x u := Slave (fd u) (queue u) x (length u) (read u) (s_size u) (recv_buffer u).
Definition set_input x l r sz b u := Slave (fd u) (queue u) x l r sz b.
Definition set_slaves x h := MkHarbor (id h) (slave_handle h) (map h) x.
Definition set_map x h := MkHarbor (id h) (slave_handle h) x (s h).

(** ** Queues *)

Definition push_queue_msg (q : harbor_msg_queue) (m : harbor_msg) : outcome harbor_msg_queue :=
  t ← c_int (tail q + 1);
  q ← (if Z.rem t (size q) =? head q then
         n ← c_int (size q * 2);
         new_buffer ← for_loop (Z.to_nat (size q - 1)) 0
           (fun i new_buffer =>
              k ← c_int (i + head q);
              cell ← arr_get (data q) (Z.rem k (size q));
              arr_set new_buffer i cell)
           (replicate (Z.to_nat n) None);
         Ok (MsgQueue n 0 (size q - 1) new_buffer)
       else Ok q);
  slots ← arr_set (data q) (tail q) (Some m);
  Ok (MsgQueue (size q) (head q) (Z.rem (tail q + 1) (size q)) slots).

Definition push_queue (q : harbor_msg_queue) (msg : list Z) (h : remote_message_header) : outcome harbor_msg_queue :=
  push_queue_msg q (HMsg h msg).

Definition pop_queue (q : harbor_msg_queue) : outcome (option harbor_msg * harbor_msg_queue) :=
  if head q =? tail q then Ok (None, q)
  else
    cell ← arr_get (data q) (head q);
    m ← init_read cell;
    Ok (Some m, MsgQueue (size q) (Z.rem (head q + 1) (size q)) (tail q) (data q)).

Definition new_queue : harbor_msg_queue := MsgQueue DEFAULT_QUEUE_SIZE 0 0 (replicate (Z.to_nat DEFAULT_QUEUE_SIZE) None).

(** [while ((m = pop_queue(queue)) != NULL) body(m)]; a queue has fewer messages
    than slots. *)
Fixpoint pop_loop {St} (fuel : nat) (body : harbor_msg -> St -> outcome St) (q : harbor_msg_queue) (st : St) : outcome (harbor_msg_queue * St) :=
  match fuel with
  | O => Fault OutOfFuel
  | S fuel =>
      '(m, q) ← pop_queue q;
      match m with
      | None => Ok (q, st)
      | Some m => st ← body m st; pop_loop fuel body q st
      end
  end.
Definition pop_all {St} (body : harbor_msg -> St -> outcome St) (q : harbor_msg_queue) (st : St) : outcome (harbor_msg_queue * St) :=
  pop_loop (Z.to_nat (size q)) body q st.

(** ** What the harbor asks for *)

Inductive call :=
  | CSend (src dest type sess : Z) (msg : list Z)  (** [skynet_send] *)
  | CError (text : cstr)
  | CSocketSend (sock : Z) (bytes : list Z)
  | CSocketStart (sock : Z)
  | CSocketClose (sock : Z)
  | CFree (block : list Z).                        (** [skynet_free] of a payload *)
Definition log : Type := list call.

Definition tell (c : call) (w : log) : outcome log := Ok (w ++ [c]).

Definition release_queue (q : option harbor_msg_queue) (w : log) : outcome log :=
  match q with
  | None => Ok w
  | Some q => '(_, w) ← pop_all (fun m w => tell (CFree (buffer m)) w) q w; Ok w
  end.

(** ** Names *)

(** [ptr[0] ^ ptr[1] ^ ptr[2] ^ ptr[3]] of the 16 bytes as four words. *)
Definition hash_name (name : list Z) : outcome Z :=
  a ← mem_read name 0 4; b ← mem_read name 4 4; c ← mem_read name 8 4; d ← mem_read name 12 4;
  Ok (Z.lxor (Z.lxor (Z.lxor (of_le a) (of_le b)) (of_le c)) (of_le d)).

(** [strncmp(a, b, n) == 0] *)
Fixpoint strncmp_eq (n : nat) (a b : list Z) : outcome bool :=
  match n, a, b with
  | O, _, _ => Ok true
  | S n, x :: a, y :: b => if x =? y then if x =? 0 then Ok true else strncmp_eq n a b else Ok false
  | S _, _, _ => Fault OutOfBounds
  end.

Fixpoint search_chain (name : list Z) (h : Z) (i : nat) (chain : list keyvalue) : outcome (option (nat * keyvalue)) :=
  match chain with
  | [] => Ok None
  | node :: chain =>
      same ← (if hash node =? h then strncmp_eq 16 (key node) name else Ok false);
      if (same : bool) then Ok (Some (i, node)) else search_chain name h (S i) chain
  end.

(** A node and where it is: its bucket and its place in the chain. *)
Definition place : Type := Z * nat.

Definition hash_search (mp : hashmap) (name : list Z) : outcome (option (place * keyvalue)) :=
  h ← hash_name name;
  chain ← arr_get mp (h mod HASH_SIZE);
  r ← search_chain name h 0 chain;
  Ok (match r with None => None | Some (i, node) => Some ((h mod HASH_SIZE, i), node) end).

Definition hash_insert (mp : hashmap) (name : list Z) : outcome (hashmap * place * keyvalue) :=
  h ← hash_name name;
  chain ← arr_get mp (h mod HASH_SIZE);
  k ← mem_read name 0 GLOBALNAME_LENGTH;
  let node := KeyValue k h 0 None in
  mp ← arr_set mp (h mod HASH_SIZE) (node :: chain);
  Ok (mp, (h mod HASH_SIZE, 0%nat), node).

(** The node at [p] becomes [node]. *)
Definition put_node (mp : hashmap) (p : place) (node : keyvalue) : outcome hashmap :=
  chain ← arr_get mp p.1;
  chain ← arr_set chain (Z.of_nat p.2) node;
  arr_set mp p.1 chain.

Definition hash_new : hashmap := replicate (Z.to_nat HASH_SIZE) [].

Fixpoint delete_chain (chain : list keyvalue) (w : log) : outcome log :=
  match chain with
  | [] => Ok w
  | node :: chain => w ← release_queue (kv_queue node) w; delete_chain chain w
  end.
Fixpoint hash_delete (mp : hashmap) (w : log) : outcome log :=
  match mp with
  | [] => Ok w
  | chain :: mp => w ← delete_chain chain w; hash_delete mp w
  end.

(** [hash_search], and [hash_insert] when there is no such name. *)
Definition hash_get (mp : hashmap) (name : list Z) : outcome (hashmap * place * keyvalue) :=
  r ← hash_search mp name;
  match r with
  | Some (p, node) => Ok (mp, p, node)
  | None => hash_insert mp name
  end.

(** ** Slaves *)

Definition close_harbor (h : harbor) (i : Z) (w : log) : outcome (harbor * log) :=
  u ← arr_get (s h) i;
  let u := set_status STATUS_DOWN u in
  w ← (if negb (fd u =? 0) then tell (CSocketClose (fd u)) w else Ok w);
  w ← release_queue (queue u) w;
  sl ← arr_set (s h) i (set_queue None u);
  Ok (set_slaves sl h, w).

Definition no_slave : slave := Slave 0 None STATUS_WAIT 0 0 [0; 0; 0; 0] None.
Definition harbor_create : harbor := MkHarbor 0 0 hash_new (replicate (Z.to_nat REMOTE_MAX) no_slave).

Definition harbor_release (h : harbor) (w : log) : outcome log :=
  '(h, w) ← for_loop (Z.to_nat (REMOTE_MAX - 1)) 1
    (fun i '(h, w) =>
       u ← arr_get (s h) i;
       if negb (fd u =? 0) && negb (status u =? STATUS_DOWN) then close_harbor h i w else Ok (h, w))
    (h, w);
  hash_delete (map h) w.

(** ** Headers *)

Definition to_bigendian (n : Z) : list Z :=
  [Z.land (Z.shiftr n 24) 0xff; Z.land (Z.shiftr n 16) 0xff; Z.land (Z.shiftr n 8) 0xff; Z.land n 0xff].

Definition header_to_message (h : remote_message_header) : list Z :=
  to_bigendian (source h) ++ to_bigendian (destination h) ++ to_bigendian (session h).

(** The word at [off], whose bytes are those of a [uint32_t] in memory. *)
Definition from_bigendian (message : list (option Z)) (off : Z) : outcome Z :=
  bytes ← mem_read message off 4;
  u ← mapM init_read bytes;
  match u with
  | [b0; b1; b2; b3] => Ok (u32 (Z.lor (Z.lor (Z.lor (Z.shiftl b0 24) (Z.shiftl b1 16)) (Z.shiftl b2 8)) b3))
  | _ => Fault OutOfBounds
  end.

Definition message_to_header (message : list (option Z)) (off : Z) : outcome remote_message_header :=
  a ← from_bigendian message off;
  b ← from_bigendian message (off + 4);
  c ← from_bigendian message (off + 8);
  Ok (Header a b c).

(** ** Handlers *)

Section Handlers.
(** What [skynet_send] returns when the calls so far, this one included, are these. *)
Context (answer : log -> Z).

Definition skynet_send (src dest type sess : Z) (msg : list Z) (w : log) : Z * log :=
  let w := w ++ [CSend src dest type sess msg] in (answer w, w).

Definition report_harbor_down (h : harbor) (i : Z) (w : log) : log :=
  (skynet_send 0 (slave_handle h) PTYPE_TEXT 0 (str "D " ++ fmt_d i) w).2.

Definition forward_local_messsage (h : harbor) (msg : list (option Z)) (sz : Z) (w : log) : outcome log :=
  header ← message_to_header msg (sz - HEADER_COOKIE_LENGTH);
  let dest := destination header in
  let type := Z.shiftr dest HANDLE_REMOTE_SHIFT in
  let dest := Z.lor (Z.land dest HANDLE_MASK) (u32 (Z.shiftl (u32 (id h)) HANDLE_REMOTE_SHIFT)) in
  bytes ← mem_read msg 0 (sz - HEADER_COOKIE_LENGTH);
  payload ← mapM init_read bytes;
  let '(r, w) := skynet_send (source header) dest (Z.lor type PTYPE_TAG_DONTCOPY) (i32 (session header)) payload w in
  if r <? 0 then
    let w := if negb (type =? PTYPE_ERROR)
             then (skynet_send dest (source header) PTYPE_ERROR (i32 (session header)) [] w).2 else w in
    tell (CError (str "Unknown destination :" ++ fmt_x dest ++ str " from :" ++ fmt_x (source header)
                  ++ str " type(" ++ fmt_d type ++ str ")")) w
  else Ok w.

Definition send_remote (sock : Z) (msg : list Z) (cookie : remote_message_header) (w : log) : outcome log :=
  let sz_header := Z.of_nat (List.length msg) + HEADER_COOKIE_LENGTH in
  if 2^32 - 1 <? sz_header then
    tell (CError (str "remote message from :" ++ pad_x 8 (source cookie) ++ str " to :" ++ pad_x 8 (destination cookie)
                  ++ str " is too large.")) w
  else tell (CSocketSend sock (to_bigendian (u32 sz_header) ++ msg ++ header_to_message cookie)) w.

(** The messages of a name that is known now.  The node is given back without its
    queue when the queue went to the slave. *)
Definition dispatch_name_queue (h : harbor) (node : keyvalue) (q : harbor_msg_queue) (w : log)
    : outcome (harbor * option harbor_msg_queue * log) :=
  let handle := value node in
  let harbor_id := Z.shiftr handle HANDLE_REMOTE_SHIFT in
  u ← arr_get (s h) harbor_id;
  if fd u =? 0 then
    if status u =? STATUS_DOWN then
      w ← tell (CError (str "Drop message to " ++ upto_nul (key node) ++ str " (in harbor " ++ fmt_d harbor_id ++ str ")")) w;
      Ok (h, Some q, w)
    else
      '(sq, nq) ← match queue u with
                  | None => Ok (q, None)
                  | Some sq => '(q, sq) ← pop_all (fun m sq => push_queue_msg sq m) q sq; Ok (sq, Some q)
                  end;
      '(sq, w) ← (if harbor_id =? Z.shiftr (slave_handle h) HANDLE_REMOTE_SHIFT then
                    '(sq, w) ← pop_all (fun m w =>
                       let type := Z.shiftr (destination (header m)) HANDLE_REMOTE_SHIFT in
                       Ok (skynet_send (source (header m)) handle (Z.lor type PTYPE_TAG_DONTCOPY) (i32 (session (header m))) (buffer m) w).2) sq w;
                    w ← release_queue (Some sq) w;
                    Ok (None, w)
                  else Ok (Some sq, w));
      sl ← arr_set (s h) harbor_id (set_queue sq u);
      Ok (set_slaves sl h, nq, w)
  else
    '(q, w) ← pop_all (fun m w =>
       let hd := header m in
       let hd := Header (source hd) (Z.lor (destination hd) (Z.land handle HANDLE_MASK)) (session hd) in
       w ← send_remote (fd u) (buffer m) hd w;
       tell (CFree (buffer m)) w) q w;
    Ok (h, Some q, w).

Definition dispatch_queue (h : harbor) (i : Z) (w : log) : outcome (harbor * log) :=
  u ← arr_get (s h) i;
  _ ← c_assert (negb (fd u =? 0));
  match queue u with
  | None => Ok (h, w)
  | Some q =>
      '(q, w) ← pop_all (fun m w => w ← send_remote (fd u) (buffer m) (header m) w; tell (CFree (buffer m)) w) q w;
      w ← release_queue (Some q) w;
      sl ← arr_set (s h) i (set_queue None u);
      Ok (set_slaves sl h, w)
  end.

(** [harbor_id(h, fd)]: the slave of a connection, 0 if there is none. *)
Fixpoint find_fd (sock : Z) (i : Z) (sl : list slave) : Z :=
  match sl with
  | [] => 0
  | u :: sl => if fd u =? sock then i else find_fd sock (i + 1) sl
  end.
Definition harbor_id (h : harbor) (sock : Z) : Z := find_fd sock 1 (List.tail (s h)).

(** The cases of [push_socket_data]; the result has the bytes that are left when
    the loop goes on. *)
Definition content_part (h : harbor) (i : Z) (bs : list Z) (sz : Z) (w : log) : outcome (harbor * log * option (list Z * Z)) :=
  u ← arr_get (s h) i;
  block ← match recv_buffer u with Some b => Ok b | None => Fault NullPointer end;
  let need := length u - read u in
  if sz <? need then
    block ← Netpack.copy_bytes block (read u) bs sz;
    sl ← arr_set (s h) i (set_input (status u) (length u) (read u + sz) (s_size u) (Some block) u);
    Ok (set_slaves sl h, w, None)
  else
    block ← Netpack.copy_bytes block (read u) bs need;
    w ← forward_local_messsage h block (length u) w;
    sl ← arr_set (s h) i (set_input STATUS_HEADER 0 0 (s_size u) None u);
    let sz := sz - need in
    Ok (set_slaves sl h, w, if sz =? 0 then None else Some (drop (Z.to_nat need) bs, sz)).

Definition header_part (h : harbor) (i : Z) (bs : list Z) (sz : Z) (w : log) : outcome (harbor * log * option (list Z * Z)) :=
  u ← arr_get (s h) i;
  let need := 4 - read u in
  if sz <? need then
    b ← mem_read bs 0 sz;
    bytes ← mem_write (s_size u) (read u) b;
    sl ← arr_set (s h) i (set_input (status u) (length u) (read u + sz) bytes (recv_buffer u) u);
    Ok (set_slaves sl h, w, None)
  else
    b ← mem_read bs 0 need;
    bytes ← mem_write (s_size u) (read u) b;
    let bs := drop (Z.to_nat need) bs in
    let sz := sz - need in
    b0 ← arr_get bytes 0;
    if negb (b0 =? 0) then
      sl ← arr_set (s h) i (set_input (status u) (length u) (read u) bytes (recv_buffer u) u);
      let h := set_slaves sl h in
      w ← tell (CError (str "Message is too long from harbor " ++ fmt_d i)) w;
      '(h, w) ← close_harbor h i w;
      Ok (h, w, None)
    else
      b1 ← arr_get bytes 1; b2 ← arr_get bytes 2; b3 ← arr_get bytes 3;
      let len := Z.lor (Z.lor (Z.shiftl b1 16) (Z.shiftl b2 8)) b3 in
      sl ← arr_set (s h) i (set_input STATUS_CONTENT len 0 bytes (Some (Netpack.malloc_bytes len)) u);
      let h := set_slaves sl h in
      if sz =? 0 then Ok (h, w, None) else content_part h i bs sz w.

Definition handshake_part (h : harbor) (i : Z) (sock : Z) (bs : list Z) (sz : Z) (w : log) : outcome (harbor * log * option (list Z * Z)) :=
  remote_id ← arr_get bs 0;
  if negb (remote_id =? i) then
    w ← tell (CError (str "Invalid shakehand id (" ++ fmt_d i ++ str ") from fd = " ++ fmt_d sock ++ str " , harbor = " ++ fmt_d remote_id)) w;
    '(h, w) ← close_harbor h i w;
    Ok (h, w, None)
  else
    let bs := drop 1 bs in
    let sz := sz - 1 in
    u ← arr_get (s h) i;
    sl ← arr_set (s h) i (set_status STATUS_HEADER u);
    '(h, w) ← dispatch_queue (set_slaves sl h) i w;
    if sz =? 0 then Ok (h, w, Some (bs, sz)) else header_part h i bs sz w.

Fixpoint data_loop (fuel : nat) (h : harbor) (i sock : Z) (bs : list Z) (sz : Z) (w : log) : outcome (harbor * log) :=
  match fuel with
  | O => Fault OutOfFuel
  | S fuel =>
      u ← arr_get (s h) i;
      '(h, w, more) ←
        (if status u =? STATUS_HANDSHAKE then handshake_part h i sock bs sz w
         else if status u =? STATUS_HEADER then header_part h i bs sz w
         else if status u =? STATUS_CONTENT then content_part h i bs sz w
         else Ok (h, w, None));
      match more with
      | None => Ok (h, w)
      | Some (bs, sz) => data_loop fuel h i sock bs sz w
      end
  end.

(** The flag is set when the buffer of the message was freed.  Every round but the
    first takes a header, and the last may have nothing left. *)
Definition push_socket_data (h : harbor) (message : Netpack.socket_message) (bs : list Z) (w : log) : outcome (harbor * log * bool) :=
  let sock := Netpack.s_id message in
  let i := harbor_id h sock in
  if i =? 0 then
    w ← tell (CError (str "Invalid socket fd (" ++ fmt_d sock ++ str ") data")) w;
    Ok (h, w, true)
  else
    '(h, w) ← data_loop (S (S (Z.to_nat (Netpack.s_ud message)))) h i sock bs (Netpack.s_ud message) w;
    Ok (h, w, false).

Definition update_name (h : harbor) (name : list Z) (handle : Z) (w : log) : outcome (harbor * log) :=
  '(mp, p, node) ← hash_get (map h) name;
  let node := KeyValue (key node) (hash node) handle (kv_queue node) in
  match kv_queue node with
  | None => mp ← put_node mp p node; Ok (set_map mp h, w)
  | Some q =>
      '(h, q, w) ← dispatch_name_queue (set_map mp h) node q w;
      w ← release_queue q w;
      mp ← put_node (map h) p (KeyValue (key node) (hash node) handle None);
      Ok (set_map mp h, w)
  end.

(** The result is 1 when the message was taken over. *)
Definition remote_send_handle (h : harbor) (src dest type sess : Z) (msg : list Z) (w : log) : outcome (Z * harbor * log) :=
  let harbor_id := Z.shiftr dest HANDLE_REMOTE_SHIFT in
  if harbor_id =? id h then
    Ok (1, h, (skynet_send src dest (Z.lor type PTYPE_TAG_DONTCOPY) sess msg w).2)
  else
    u ← arr_get (s h) harbor_id;
    let cookie := Header src (u32 (Z.lor (Z.land dest HANDLE_MASK) (Z.shiftl type HANDLE_REMOTE_SHIFT))) (u32 sess) in
    if (fd u =? 0) || (status u =? STATUS_HANDSHAKE) then
      if status u =? STATUS_DOWN then
        let w := (skynet_send dest src PTYPE_ERROR 0 [] w).2 in
        w ← tell (CError (str "Drop message to harbor " ++ fmt_d harbor_id ++ str " from " ++ fmt_x src ++ str " to " ++ fmt_x dest
                          ++ str " (session = " ++ fmt_d sess ++ str ", msgsz = " ++ fmt_d (i32 (Z.of_nat (List.length msg))) ++ str ")")) w;
        Ok (0, h, w)
      else
        q ← push_queue (default new_queue (queue u)) msg cookie;
        sl ← arr_set (s h) harbor_id (set_queue (Some q) u);
        Ok (1, set_slaves sl h, w)
    else
      w ← send_remote (fd u) msg cookie w;
      Ok (0, h, w).

Definition remote_send_name (h : harbor) (src : Z) (name : list Z) (type sess : Z) (msg : list Z) (w : log) : outcome (Z * harbor * log) :=
  '(mp, p, node) ← hash_get (map h) name;
  let h := set_map mp h in
  if value node =? 0 then
    q ← push_queue (default new_queue (kv_queue node)) msg (Header src (u32 (Z.shiftl type HANDLE_REMOTE_SHIFT)) (u32 sess));
    mp ← put_node (map h) p (KeyValue (key node) (hash node) (value node) (Some q));
    Ok (1, set_map mp h, (skynet_send 0 (slave_handle h) PTYPE_TEXT 0 (str "Q " ++ upto_nul name) w).2)
  else remote_send_handle h src (value node) type sess msg w.

Definition handshake (h : harbor) (i : Z) (w : log) : outcome log :=
  u ← arr_get (s h) i;
  tell (CSocketSend (fd u) [u8 (id h)]) w.

(** [msg] has a zero behind its last byte. *)
Definition harbor_command (h : harbor) (msg : list Z) (src : Z) (w : log) : outcome (harbor * log) :=
  let sz := Z.of_nat (List.length msg) - 2 in
  let name := drop 2 msg in
  let c := default 0 (List.head msg) in
  if c =? 78 then
    if sz <? 0 then Fault OutOfBounds
    else if (sz <=? 0) || (GLOBALNAME_LENGTH <=? sz) then
      w ← tell (CError (str "Invalid global name " ++ upto_nul name)) w; Ok (h, w)
    else update_name h (name ++ replicate (Z.to_nat (GLOBALNAME_LENGTH - sz)) 0) src w
  else if (c =? 83) || (c =? 65) then
    if sz <? 0 then Fault OutOfBounds
    else
      let text := upto_nul name in
      let '(a, rest) := scan_int text in
      let sock := i32 (default 0 a) in
      let i := match a with None => 0 | Some _ => i32 (default 0 (scan_int rest).1) end in
      if (sock =? 0) || (i <=? 0) || (REMOTE_MAX <=? i) then
        w ← tell (CError (str "Invalid command " ++ [c] ++ str " " ++ text)) w; Ok (h, w)
      else
        u ← arr_get (s h) i;
        if negb (fd u =? 0) then w ← tell (CError (str "Harbor " ++ fmt_d i ++ str " alreay exist")) w; Ok (h, w)
        else
          sl ← arr_set (s h) i (set_fd sock u);
          let h := set_slaves sl h in
          w ← tell (CSocketStart sock) w;
          w ← handshake h i w;
          u ← arr_get (s h) i;
          sl ← arr_set (s h) i (set_status (if c =? 83 then STATUS_HANDSHAKE else STATUS_HEADER) u);
          let h := set_slaves sl h in
          if c =? 83 then Ok (h, w) else dispatch_queue h i w
  else
    w ← tell (CError (str "Unknown command " ++ upto_nul msg)) w; Ok (h, w).

(** What [msg] points to: a [struct skynet_socket_message], the bytes of a text, or a
    [struct remote_message] (a handle or a name, and the message for it). *)
Inductive event :=
  | ESocket (message : Netpack.socket_message)
  | EHarbor (msg : list Z)
  | ERemote (handle : Z) (name : list Z) (msg : list Z).

(** The [type] alone decides what [msg] is taken for; when it points to something
    else, the C code reads one struct as another. *)
Definition mainloop (h : harbor) (type : Z) (e : event) (src sess : Z) (w : log) : outcome (harbor * log) :=
  if type =? PTYPE_SOCKET then
    match e with
    | ESocket message =>
      match Netpack.s_type message with
      | Netpack.SData =>
          bs ← match Netpack.s_buffer message with Some b => Ok b | None => Fault NullPointer end;
          '(h, w, freed) ← push_socket_data h message bs w;
          if (freed : bool) then Fault DanglingPointer else Ok (h, w)
      | Netpack.SError | Netpack.SClose =>
          let i := harbor_id h (Netpack.s_id message) in
          if negb (i =? 0) then Ok (h, report_harbor_down h i w)
          else w ← tell (CError (str "Unkown fd (" ++ fmt_d (Netpack.s_id message) ++ str ") closed")) w; Ok (h, w)
      | Netpack.SConnect => Ok (h, w)
      | Netpack.SWarning =>
          let i := harbor_id h (Netpack.s_id message) in
          if negb (i =? 0) then
            w ← tell (CError (str "message havn't send to Harbor (" ++ fmt_d i ++ str ") reach " ++ fmt_d (Netpack.s_ud message) ++ str " K")) w; Ok (h, w)
          else Ok (h, w)
      | Netpack.SAccept | Netpack.SUdp =>
          w ← tell (CError (str "recv invalid socket message type " ++ fmt_d type)) w; Ok (h, w)
      end
    | _ => Fault Mistyped
    end
  else if type =? PTYPE_HARBOR then
    match e with
    | EHarbor msg => harbor_command h msg src w
    | _ => Fault Mistyped
    end
  else
    match e with
    | ERemote handle name msg =>
      '(r, h, w) ← (if handle =? 0 then remote_send_name h src name type sess msg w
                    else remote_send_handle h src handle type sess msg w);
      if negb (r =? 0) then Ok (h, w)
      else w ← tell (CFree msg) w; Ok (h, w)
    | _ => Fault Mistyped
    end.

End Handlers.

(** [harbor_init]: [skynet_callback] and [skynet_harbor_start] follow a success. *)
Definition harbor_init (h : harbor) (args : cstr) : Z * harbor :=
  let '(a, rest) := scan_int args in
  let slave := match a with None => 0 | Some _ => u32 (default 0 (scan_int rest).1) end in
  if slave =? 0 then (1, h) else (0, MkHarbor (i32 (default 0 a)) slave (map h) (s h)).

End Harbor.
