(* ===== verification/HarborProofs.v ===== *)
(** * Correctness of the harbor *)

From S2P Require Import Prelude Mq Handle Text Server Netpack PackStream Gate Harbor.
From stdpp Require Import base numbers list gmap.
From Stdlib Require Import ZArith Lia.
From Stdlib Require String.
Import String.StringSyntax.
#[local] Open Scope Z_scope.
#[local] Open Scope list_scope.
Import Harbor.

(** ** Queues *)

(** The messages in a queue, the oldest first, of [n] that were pushed at most. *)
Record hq_repr (q : harbor_msg_queue) (n : Z) (items : list harbor_msg) : Prop := {
  hq_size : 1 < size q <= 1024 + 2 * n;
  hq_data : Z.of_nat (List.length (data q)) = size q;
  hq_head : 0 <= head q < size q;
  hq_room : Z.of_nat (List.length items) < size q;
  hq_tail : tail q = (head q + Z.of_nat (List.length items)) mod size q;
  hq_count : Z.of_nat (List.length items) <= n;
  hq_slots : forall i m, items !! i = Some m -> data q !! Z.to_nat ((head q + Z.of_nat i) mod size q) = Some (Some m)
}.

(** The most messages a queue may see before its size leaves [int]. *)
Definition MAX_PUSHES : Z := 2^28.

Lemma new_hq_repr : hq_repr new_queue 0 [].
Proof. split; cbn [new_queue size head tail data List.length]; unfold DEFAULT_QUEUE_SIZE; try done; try lia. Qed.

Lemma hq_weaken q n n' items : hq_repr q n items -> n <= n' -> hq_repr q n' items.
Proof. intros [] Hn. split; try done; lia. Qed.

(** The copy into the larger buffer puts the messages at its front. *)
Lemma hq_expand q n items : hq_repr q n items -> n <= MAX_PUSHES ->
  exists nb, for_loop (Z.to_nat (size q - 1)) 0
      (fun i nb => k ← c_int (i + head q); cell ← arr_get (data q) (Z.rem k (size q)); arr_set nb i cell)
      (replicate (Z.to_nat (size q * 2)) None) = Ok nb /\
    Z.of_nat (List.length nb) = size q * 2 /\
    forall i, 0 <= i < size q - 1 -> nb !! Z.to_nat i = data q !! Z.to_nat ((head q + i) mod size q).
Proof.
  intros [Hs Hd Hh _ _ _ _] Hn. unfold MAX_PUSHES in Hn.
  edestruct (for_loop_inv (fun i (nb : list (option harbor_msg)) => Z.of_nat (List.length nb) = size q * 2 /\
      forall j, 0 <= j < i -> nb !! Z.to_nat j = data q !! Z.to_nat ((head q + j) mod size q))) as (nb & E & Hl & Hnb).
  3:{ rewrite E. exists nb. split; [done|]. split; [done|]. intros i Hi. apply Hnb. lia. }
  - split; [rewrite length_replicate; lia|]. intros j Hj. lia.
  - intros j nb Hj [Hl Hnb]. rewrite c_int_ok by lia. rewrite bind_ret, Z.rem_mod_nonneg by lia.
    assert (0 <= (j + head q) mod size q < size q) as Hr by (apply Z.mod_pos_bound; lia).
    destruct (lookup_lt_is_Some_2 (data q) (Z.to_nat ((j + head q) mod size q))) as [c Hc]; [lia|].
    rewrite (arr_get_ok _ _ _ (proj1 Hr) Hc), bind_ret, arr_set_ok by lia. eexists. split; [done|].
    split; [by rewrite length_insert|]. intros i Hi. destruct (Z.eq_dec i j) as [->|].
    + rewrite (Z.add_comm (head q)), Hc. apply list_lookup_insert_eq. lia.
    + rewrite list_lookup_insert_ne by lia. apply Hnb. lia.
Qed.

Lemma push_queue_room q n items m : hq_repr q n items -> Z.of_nat (List.length items) < n <= MAX_PUSHES ->
  exists q', push_queue_msg q m = Ok q' /\ hq_repr q' n (items ++ [m]).
Proof.
  intros Hq Hn. pose proof Hq as [Hs Hd Hh Hr Ht Hc Hsl]. assert (Hn' := Hn). unfold MAX_PUSHES in Hn'. unfold push_queue_msg.
  assert (Htr : 0 <= tail q < size q) by (rewrite Ht; apply Z.mod_pos_bound; lia).
  rewrite (c_int_ok (tail q + 1)) by lia. rewrite bind_ret. cbv beta. rewrite (Z.rem_mod_nonneg (tail q + 1)) by lia.
  assert (Et : (tail q + 1) mod size q = (head q + (Z.of_nat (List.length items) + 1)) mod size q).
  { rewrite Ht, Zplus_mod_idemp_l. f_equal. lia. }
  destruct (Z.eqb_spec ((tail q + 1) mod size q) (head q)) as [Hfull|Hfree].
  - assert (Hlen : Z.of_nat (List.length items) + 1 = size q).
    { revert Hfull. rewrite Et. Ring.ring_mod; lia. }
    rewrite c_int_ok, bind_ret by lia. destruct (hq_expand q n items Hq) as (nb & E & Hl & Hnb); [lia|]. rewrite E, !bind_ret.
    cbn [size head tail data]. rewrite arr_set_ok by lia. rewrite bind_ret. eexists. split; [done|].
    split; cbn [size head tail data]; rewrite ?length_insert, ?length_app; cbn [List.length]; try lia.
    + rewrite Z.rem_mod_nonneg by lia. f_equal. lia.
    + intros i x Hi. rewrite Z.add_0_l, Z.mod_small by (apply lookup_lt_Some in Hi; rewrite length_app in Hi; cbn in Hi; lia).
      destruct (decide (i = List.length items)) as [->|Hne].
      * rewrite lookup_app_r, Nat.sub_diag in Hi by lia. injection Hi as <-.
        replace (size q - 1) with (Z.of_nat (List.length items)) by lia. apply list_lookup_insert_eq. lia.
      * pose proof (lookup_lt_Some _ _ _ Hi) as Hlt. rewrite length_app in Hlt. cbn in Hlt. rewrite lookup_app_l in Hi by lia.
        rewrite list_lookup_insert_ne, Hnb by lia. by apply Hsl.
  - rewrite bind_ret, arr_set_ok by lia. rewrite bind_ret. eexists. split; [done|].
    split; cbn [size head tail data]; rewrite ?length_insert, ?length_app; cbn [List.length]; try lia.
    + revert Hfree. rewrite Et. Ring.ring_mod; lia.
    + rewrite Z.rem_mod_nonneg, Et by lia. f_equal. lia.
    + intros i x Hi. pose proof (lookup_lt_Some _ _ _ Hi) as Hlt. rewrite length_app in Hlt. cbn in Hlt.
      destruct (decide (i = List.length items)) as [->|Hne].
      * rewrite lookup_app_r, Nat.sub_diag in Hi by lia. injection Hi as <-. rewrite <- Ht. apply list_lookup_insert_eq. lia.
      * rewrite lookup_app_l in Hi by lia. rewrite list_lookup_insert_ne; [by apply Hsl|]. rewrite Ht. Ring.ring_mod; lia.
Qed.

Lemma push_queue_ok q n items m : hq_repr q n items -> n < MAX_PUSHES ->
  exists q', push_queue_msg q m = Ok q' /\ hq_repr q' (n + 1) (items ++ [m]).
Proof. intros Hq Hn. apply push_queue_room; [apply (hq_weaken q n); [done|lia]|]. destruct Hq. lia. Qed.

Lemma pop_queue_ok q n items : hq_repr q n items ->
  match items with
  | [] => pop_queue q = Ok (None, q)
  | m :: items' => exists q', pop_queue q = Ok (Some m, q') /\ hq_repr q' n items' /\ size q' = size q
  end.
Proof.
  intros [Hs Hd Hh Hr Ht Hc Hsl]. unfold pop_queue. destruct items as [|m items]; cbn [List.length] in *.
  - rewrite Z.add_0_r, Z.mod_small in Ht by lia. by rewrite Ht, Z.eqb_refl.
  - destruct (Z.eqb_spec (head q) (tail q)) as [E|_]; [exfalso; revert E; rewrite Ht; Ring.ring_mod; lia|].
    pose proof (Hsl 0%nat m eq_refl) as H0. rewrite Z.add_0_r, Z.mod_small in H0 by lia.
    rewrite (arr_get_ok _ _ _ (proj1 Hh) H0), bind_ret. cbn [init_read]. rewrite bind_ret. eexists. split; [done|]. split; [|done].
    rewrite Z.rem_mod_nonneg by lia. split; cbn [size head tail data]; try done; try lia.
    + apply Z.mod_pos_bound. lia.
    + rewrite Ht, Zplus_mod_idemp_l. f_equal. lia.
    + intros i x Hi. rewrite Zplus_mod_idemp_l. replace (head q + 1 + Z.of_nat i) with (head q + Z.of_nat (S i)) by lia. by apply Hsl.
Qed.

(** Popping all messages runs the body on each in turn. *)
Fixpoint each {St} (body : harbor_msg -> St -> outcome St) (items : list harbor_msg) (st : St) : outcome St :=
  match items with
  | [] => Ok st
  | m :: items => st ← body m st; each body items st
  end.

Lemma pop_loop_ok {St} (body : harbor_msg -> St -> outcome St) items : forall fuel q n st, hq_repr q n items -> (List.length items < fuel)%nat ->
  exists q', pop_loop fuel body q st = (st ← each body items st; Ok (q', st)) /\ hq_repr q' n [].
Proof.
  induction items as [|m items IH]; intros fuel q n st Hq Hf; (destruct fuel as [|fuel]; [lia|]); cbn [pop_loop each];
    pose proof (pop_queue_ok q n _ Hq) as Hp; cbv beta iota in Hp.
  - rewrite Hp, bind_ret. by exists q.
  - destruct Hp as (q1 & -> & Hq1 & _). rewrite bind_ret. cbn [List.length] in Hf. destruct (body m st) as [st'|f]; cbn [mbind outcome_bind].
    + destruct (IH fuel q1 n st' Hq1) as (q2 & E & Hq2); [lia|]. by exists q2.
    + destruct (IH fuel q1 n st Hq1) as (q2 & E & Hq2); [lia|]. by exists q2.
Qed.

Lemma pop_all_ok {St} (body : harbor_msg -> St -> outcome St) q n items st : hq_repr q n items ->
  exists q', pop_all body q st = (st ← each body items st; Ok (q', st)) /\ hq_repr q' n [].
Proof. intros Hq. apply pop_loop_ok; [done|]. destruct Hq. lia. Qed.

(** Appending the calls of each message. *)
Lemma each_calls (f : harbor_msg -> list call) body items : (forall m w, body m w = Ok (w ++ f m)) ->
  forall w, each body items w = Ok (w ++ concat (f <$> items)).
Proof.
  intros Hb. induction items as [|m items IH]; intros w; cbn [each fmap list_fmap concat]; [by rewrite app_nil_r|].
  rewrite Hb, bind_ret, IH. by rewrite <- app_assoc.
Qed.

Lemma release_queue_ok q n items w : hq_repr q n items ->
  release_queue (Some q) w = Ok (w ++ ((fun m => CFree (buffer m)) <$> items)).
Proof.
  intros Hq. unfold release_queue. destruct (pop_all_ok (fun m w => tell (CFree (buffer m)) w) q n items w Hq) as (q' & -> & _).
  rewrite (each_calls (fun m => [CFree (buffer m)])) by done. rewrite !bind_ret. do 2 f_equal. clear Hq.
  induction items as [|m items IH]; [done|]. cbn [fmap list_fmap concat app]. f_equal. apply IH.
Qed.

(** ** Headers on the wire *)

Lemma to_bigendian_eq n : to_bigendian n = [n / 2^24 mod 256; n / 2^16 mod 256; n / 256 mod 256; n mod 256].
Proof.
  unfold to_bigendian. change 0xff with (2^8 - 1). rewrite !land_mask, !Z.shiftr_div_pow2 by lia. done.
Qed.

Lemma mem_read_some (a b c : list Z) off n : off = Z.of_nat (List.length a) -> n = Z.of_nat (List.length b) ->
  mem_read (Some <$> a ++ b ++ c) off n = Ok (Some <$> b).
Proof.
  intros -> ->. rewrite !fmap_app. rewrite <- (length_fmap Some a), <- (length_fmap Some b). apply mem_read_ok.
Qed.

Lemma from_bigendian_ok a n c off : off = Z.of_nat (List.length a) -> 0 <= n < 2^32 ->
  from_bigendian (Some <$> a ++ to_bigendian n ++ c) off = Ok n.
Proof.
  intros Ho Hn. unfold from_bigendian. rewrite to_bigendian_eq. rewrite mem_read_some by done. rewrite bind_ret, mapM_init, bind_ret.
  rewrite word_of_bytes by done. unfold u32. by rewrite Z.mod_small.
Qed.

(** The words a header carries. *)
Definition header_ok (h : remote_message_header) : Prop :=
  0 <= source h < 2^32 /\ 0 <= destination h < 2^32 /\ 0 <= session h < 2^32.

Lemma message_to_header_ok a hd off : off = Z.of_nat (List.length a) -> header_ok hd ->
  message_to_header (Some <$> a ++ header_to_message hd) off = Ok hd.
Proof.
  intros -> (H1 & H2 & H3). unfold message_to_header, header_to_message.
  pose proof (from_bigendian_ok a (source hd) (to_bigendian (destination hd) ++ to_bigendian (session hd)) _ eq_refl H1) as E1.
  pose proof (from_bigendian_ok (a ++ to_bigendian (source hd)) (destination hd) (to_bigendian (session hd)) (Z.of_nat (List.length a) + 4)) as E2.
  pose proof (from_bigendian_ok ((a ++ to_bigendian (source hd)) ++ to_bigendian (destination hd)) (session hd) [] (Z.of_nat (List.length a) + 8)) as E3.
  rewrite app_nil_r in E3. rewrite <- !app_assoc in E2. do 3 rewrite <- ?app_assoc in E3.
  rewrite E1, bind_ret, E2, bind_ret, E3, bind_ret by (done || (rewrite !length_app; cbn [to_bigendian List.length]; lia)). by destruct hd.
Qed.

(** ** Receiving *)

Definition slave_at (h : harbor) (i : Z) (u : slave) : Prop := 0 <= i /\ s h !! Z.to_nat i = Some u.
Definition put (h : harbor) (i : Z) (u : slave) : harbor := set_slaves (<[Z.to_nat i := u]> (s h)) h.

Lemma slave_get h i u : slave_at h i u -> arr_get (s h) i = Ok u.
Proof. intros [Hi E]. by apply arr_get_ok. Qed.

Lemma slave_set h i u v : slave_at h i u -> arr_set (s h) i v = Ok (s (put h i v)).
Proof. intros [Hi E]. apply arr_set_ok. apply lookup_lt_Some in E. lia. Qed.

Lemma put_at h i u v : slave_at h i u -> slave_at (put h i v) i v.
Proof. intros [Hi E]. split; [done|]. apply list_lookup_insert_eq. by eapply lookup_lt_Some. Qed.

Lemma put_put h i u v : put (put h i u) i v = put h i v.
Proof. unfold put. cbn [s set_slaves]. by rewrite list_insert_insert_eq. Qed.

Lemma put_slaves h i v : set_slaves (s (put h i v)) h = put h i v.
Proof. done. Qed.

(** A message on the wire: its length, the payload, the header. *)
Definition content (m : harbor_msg) : list Z := buffer m ++ header_to_message (header m).
Definition wire (m : harbor_msg) : list Z := to_bigendian (Z.of_nat (List.length (content m))) ++ content m.

(** The length must fit 24 bits. *)
Definition msg_ok (m : harbor_msg) : Prop := header_ok (header m) /\ Z.of_nat (List.length (content m)) < 2^24.

Lemma content_length m : Z.of_nat (List.length (content m)) = Z.of_nat (List.length (buffer m)) + 12.
Proof. unfold content, header_to_message. rewrite !length_app. cbn [to_bigendian List.length]. lia. Qed.

(** How a slave stands for the bytes of a message that are there. *)
Inductive at_bytes (u : slave) : list Z -> Prop :=
  | at_head p junk : status u = STATUS_HEADER -> read u = Z.of_nat (List.length p) -> s_size u = p ++ junk ->
      List.length (p ++ junk) = 4%nat -> (List.length p < 4)%nat -> at_bytes u p
  | at_body n d : status u = STATUS_CONTENT -> length u = n -> read u = Z.of_nat (List.length d) -> List.length (s_size u) = 4%nat ->
      0 <= n < 2^24 -> Z.of_nat (List.length d) < n ->
      recv_buffer u = Some ((Some <$> d) ++ replicate (Z.to_nat n - List.length d) None) ->
      at_bytes u (to_bigendian n ++ d).

Section Receive.
Context (answer : log -> Z).

(** What the node that has the id [i] does with a message that arrived. *)
Definition deliver (i : Z) (m : harbor_msg) (w : log) : log :=
  let hd := header m in
  let type := destination hd / 2^24 in
  let dest := destination hd mod 2^24 + u8 i * 2^24 in
  let w := w ++ [CSend (source hd) dest (type + PTYPE_TAG_DONTCOPY) (i32 (session hd)) (buffer m)] in
  if answer w <? 0 then
    (if type =? PTYPE_ERROR then w else w ++ [CSend dest (source hd) PTYPE_ERROR (i32 (session hd)) []])
    ++ [CError (str "Unknown destination :" ++ fmt_x dest ++ str " from :" ++ fmt_x (source hd) ++ str " type(" ++ fmt_d type ++ str ")")]
  else w.

Lemma harbor_forward_ok h m w : msg_ok m -> forward_local_messsage answer h (Some <$> content m) (Z.of_nat (List.length (content m))) w = Ok (deliver (id h) m w).
Proof.
  intros [Hh Hl]. unfold forward_local_messsage. pose proof (content_length m) as El. unfold HEADER_COOKIE_LENGTH.
  replace (Z.of_nat (List.length (content m)) - 12) with (Z.of_nat (List.length (buffer m))) by lia.
  unfold content. rewrite (message_to_header_ok (buffer m) (header m)), bind_ret by done.
  pose proof (mem_read_some [] (buffer m) (header_to_message (header m)) 0 _ eq_refl eq_refl) as Er. cbn [app] in Er.
  rewrite Er, bind_ret, mapM_init, bind_ret. unfold deliver, skynet_send. destruct Hh as (_ & Hd & _).
  unfold HANDLE_REMOTE_SHIFT. change HANDLE_MASK with (2^24 - 1). rewrite land_mask, Z.shiftr_div_pow2, Z.shiftl_mul_pow2 by lia.
  assert (Ei : u32 (u32 (id h) * 2^24) = u8 (id h) * 2^24).
  { unfold u32, u8. change (2^32) with (256 * 2^24). rewrite Z.mul_mod_distr_r by lia. f_equal.
    rewrite Z.rem_mul_r by lia. rewrite Z.add_comm, Z.mul_comm, Z.add_comm, Z_mod_plus_full. apply Z.mod_mod. lia. }
  rewrite Ei, lor_disjoint by (lia || (apply Z.mod_pos_bound; lia)).
  assert (Et : Z.lor (destination (header m) / 2^24) PTYPE_TAG_DONTCOPY = destination (header m) / 2^24 + PTYPE_TAG_DONTCOPY).
  { change PTYPE_TAG_DONTCOPY with (1 * 2^16). apply lor_disjoint; [lia|].
    split; [apply Z.div_pos; lia|apply Z.div_lt_upper_bound; lia]. }
  rewrite Et. destruct (answer _ <? 0); [|done]. unfold tell. by destruct (_ =? PTYPE_ERROR).
Qed.

(** The slave with nothing of the next message. *)
Definition idle (u : slave) : slave := set_input STATUS_HEADER 0 0 (s_size u) None u.

Lemma idle_at u : List.length (s_size u) = 4%nat -> at_bytes (idle u) [].
Proof. intros Hl. apply (at_head (idle u) [] (s_size u)); cbn; try done. lia. Qed.

(** A body: the bytes [d] of a message of [n] bytes. *)
Definition body (u : slave) (n : Z) (d : list Z) : Prop :=
  status u = STATUS_CONTENT /\ length u = n /\ read u = Z.of_nat (List.length d) /\ List.length (s_size u) = 4%nat /\
  recv_buffer u = Some ((Some <$> d) ++ replicate (Z.to_nat n - List.length d) None).

Lemma content_more h i u n d bs w : slave_at h i u -> body u n d -> Z.of_nat (List.length d + List.length bs) < n ->
  exists u', content_part answer h i bs (Z.of_nat (List.length bs)) w = Ok (put h i u', w, None) /\ body u' n (d ++ bs) /\ fd u' = fd u /\ queue u' = queue u.
Proof.
  intros Hu (Hs & Hn & Hr & Hz & Hb) Hl. unfold content_part. rewrite (slave_get _ _ _ Hu), bind_ret, Hb, bind_ret, Hn, Hr.
  destruct (Z.ltb_spec (Z.of_nat (List.length bs)) (n - Z.of_nat (List.length d))); [|lia].
  rewrite copy_at by lia. rewrite bind_ret, Nat2Z.id, take_ge, (slave_set h i u _ Hu), bind_ret by done. eexists. split; [done|].
  split; [|done]. unfold body. cbn [status length read s_size recv_buffer set_input].
  do 2 (split; [done|]). split; [rewrite length_app; lia|]. split; [done|]. rewrite length_app. do 3 f_equal. lia.
Qed.

Lemma content_full h i u d bs m rest w : slave_at h i u -> body u (Z.of_nat (List.length (content m))) d -> msg_ok m -> d ++ bs = content m ++ rest ->
  (List.length d <= List.length (content m))%nat ->
  content_part answer h i bs (Z.of_nat (List.length bs)) w
    = Ok (put h i (idle u), deliver (id h) m w, if Z.of_nat (List.length rest) =? 0 then None else Some (rest, Z.of_nat (List.length rest))).
Proof.
  intros Hu (Hs & Hn & Hr & Hz & Hb) Hm E Hd. unfold content_part. rewrite (slave_get _ _ _ Hu), bind_ret, Hb, bind_ret, Hn, Hr.
  pose proof (f_equal List.length E) as El. rewrite !length_app in El.
  set (need := Z.of_nat (List.length (content m)) - Z.of_nat (List.length d)).
  destruct (Z.ltb_spec (Z.of_nat (List.length bs)) need); [lia|]. rewrite copy_at by lia. rewrite bind_ret.
  replace (Z.to_nat (Z.of_nat (List.length (content m))) - List.length d - Z.to_nat need)%nat with 0%nat by lia. cbn [replicate]. rewrite app_nil_r.
  assert (Ec : d ++ take (Z.to_nat need) bs = content m).
  { apply (f_equal (take (List.length (content m)))) in E. rewrite take_app_length in E. rewrite <- E, take_app_ge by done.
    do 2 f_equal. lia. }
  assert (Er : drop (Z.to_nat need) bs = rest).
  { apply (f_equal (drop (List.length (content m)))) in E. rewrite drop_app_length in E. rewrite <- E, drop_app_ge by done. f_equal. lia. }
  rewrite Ec, harbor_forward_ok, bind_ret, (slave_set h i u _ Hu), bind_ret by done. fold (idle u).
  replace (Z.of_nat (List.length bs) - need) with (Z.of_nat (List.length rest)) by lia. by rewrite Er.
Qed.

(** The four bytes of a length. *)
Lemma length_bytes n : 0 <= n < 2^24 -> exists b1 b2 b3, to_bigendian n = [0; b1; b2; b3] /\ Z.lor (Z.lor (Z.shiftl b1 16) (Z.shiftl b2 8)) b3 = n.
Proof.
  intros Hn. rewrite to_bigendian_eq. rewrite (Z.div_small n (2^24)) by lia. do 3 eexists. split; [done|].
  pose proof (word_of_bytes n ltac:(lia)) as E. rewrite (Z.div_small n (2^24)) in E by lia. done.
Qed.

Lemma header_more h i u p junk bs w : slave_at h i u -> status u = STATUS_HEADER -> read u = Z.of_nat (List.length p) -> s_size u = p ++ junk ->
  List.length (p ++ junk) = 4%nat -> (List.length p + List.length bs < 4)%nat ->
  exists u', header_part answer h i bs (Z.of_nat (List.length bs)) w = Ok (put h i u', w, None) /\ at_bytes u' (p ++ bs) /\ fd u' = fd u /\ queue u' = queue u.
Proof.
  intros Hu Hs Hr Hz Hl Hb. unfold header_part. rewrite (slave_get _ _ _ Hu), bind_ret, Hr, Hz.
  destruct (Z.ltb_spec (Z.of_nat (List.length bs)) (4 - Z.of_nat (List.length p))); [|lia].
  pose proof (mem_read_ok [] bs []) as Er. cbn [app List.length] in Er. rewrite app_nil_r in Er. change (Z.of_nat 0) with 0 in Er. rewrite Er, bind_ret.
  rewrite length_app in Hl. rewrite <- (take_drop (List.length bs) junk).
  rewrite mem_write_ok by (rewrite length_take; lia). rewrite bind_ret, (slave_set h i u _ Hu), bind_ret. eexists. split; [done|]. split; [|done].
  rewrite app_assoc. eapply at_head; cbn [status read s_size set_input]; [done|rewrite length_app; lia|done| |rewrite length_app; lia].
  rewrite !length_app, length_drop. lia.
Qed.

Lemma header_full h i u p junk bs n rest w : slave_at h i u -> status u = STATUS_HEADER -> read u = Z.of_nat (List.length p) -> s_size u = p ++ junk ->
  List.length (p ++ junk) = 4%nat -> (List.length p < 4)%nat -> 0 <= n < 2^24 -> p ++ bs = to_bigendian n ++ rest ->
  exists u', body u' n [] /\ fd u' = fd u /\ queue u' = queue u /\
    header_part answer h i bs (Z.of_nat (List.length bs)) w =
      if Z.of_nat (List.length rest) =? 0 then Ok (put h i u', w, None) else content_part answer (put h i u') i rest (Z.of_nat (List.length rest)) w.
Proof.
  intros Hu Hs Hr Hz Hl Hp Hn E. unfold header_part. rewrite (slave_get _ _ _ Hu), bind_ret, Hr, Hz.
  pose proof (f_equal List.length E) as El. rewrite !length_app in El. cbn [to_bigendian List.length] in El. rewrite length_app in Hl.
  set (need := 4 - Z.of_nat (List.length p)). destruct (Z.ltb_spec (Z.of_nat (List.length bs)) need); [lia|].
  assert (Ec : p ++ take (Z.to_nat need) bs = to_bigendian n).
  { apply (f_equal (take 4)) in E. rewrite (take_app_length' (to_bigendian n)) in E by done. rewrite <- E, take_app_ge by lia. do 2 f_equal. lia. }
  assert (Er : drop (Z.to_nat need) bs = rest).
  { apply (f_equal (drop 4)) in E. rewrite (drop_app_length' (to_bigendian n)) in E by done. rewrite <- E, drop_app_ge by lia. f_equal. lia. }
  pose proof (mem_read_ok [] (take (Z.to_nat need) bs) (drop (Z.to_nat need) bs)) as Em. cbn [app List.length] in Em.
  rewrite take_drop, length_take_le, Z2Nat.id in Em by lia. change (Z.of_nat 0) with 0 in Em. rewrite Em, bind_ret.
  pose proof (mem_write_ok p junk [] (take (Z.to_nat need) bs)) as Ew. rewrite !app_nil_r, Ec in Ew.
  rewrite Ew, bind_ret by (rewrite length_take; lia). rewrite Er.
  destruct (length_bytes n Hn) as (b1 & b2 & b3 & Eb & En). rewrite Eb.
  rewrite (arr_get_ok _ 0 0), bind_ret by (lia || done). change (negb (0 =? 0)) with false. cbv iota.
  rewrite (arr_get_ok _ 1 b1), bind_ret, (arr_get_ok _ 2 b2), bind_ret, (arr_get_ok _ 3 b3), bind_ret, En by (lia || done).
  rewrite (slave_set h i u _ Hu), bind_ret, put_slaves.
  replace (Z.of_nat (List.length bs) - need) with (Z.of_nat (List.length rest)) by lia.
  exists (set_input STATUS_CONTENT n 0 [0; b1; b2; b3] (Some (Netpack.malloc_bytes n)) u). split; [|done].
  unfold body, Netpack.malloc_bytes. cbn [List.length]. by rewrite Nat.sub_0_r.
Qed.

Lemma body_at u n d : body u n d -> 0 <= n < 2^24 -> Z.of_nat (List.length d) < n -> at_bytes u (to_bigendian n ++ d).
Proof. intros (Hs & Hn & Hr & Hz & Hb) Hn2 Hd. by apply at_body. Qed.

Lemma to_bigendian_inj n k : 0 <= n < 2^32 -> 0 <= k < 2^32 -> to_bigendian n = to_bigendian k -> n = k.
Proof.
  rewrite !to_bigendian_eq. intros Hn Hk [= E1 E2 E3 E4]. rewrite <- (word_of_bytes n Hn), <- (word_of_bytes k Hk). by rewrite E1, E2, E3, E4.
Qed.

(** Bytes at the start of a message, fewer than the message has. *)
Definition partial (p : list Z) : Prop := exists m q, msg_ok m /\ wire m = p ++ q /\ q <> [].

Lemma partial_nil : partial [].
Proof. exists (HMsg (Header 0 0 0) []). eexists. split; [|split; [done|]]; done. Qed.

(** What is done with the messages of a connection, in order. *)
Definition deliver_all (i : Z) (ms : list harbor_msg) (w : log) : log := foldl (fun w m => deliver i m w) w ms.

Lemma msg_ok_length m : msg_ok m -> 0 < Z.of_nat (List.length (content m)) < 2^24.
Proof. intros [_ H]. rewrite content_length in *. lia. Qed.

(** [put h i u] keeps what a connection is used for. *)
Definition same_link (u u' : slave) : Prop := fd u' = fd u /\ queue u' = queue u.

Lemma data_wait h i sock u p bs p' w fuel : slave_at h i u -> at_bytes u p -> partial p' -> p ++ bs = p' -> (0 < fuel)%nat ->
  exists u', data_loop answer fuel h i sock bs (Z.of_nat (List.length bs)) w = Ok (put h i u', w) /\ at_bytes u' p' /\ same_link u u'.
Proof.
  intros Hu Hat (m & q & Hm & Ew & Hq) E Hf. destruct fuel as [|fuel]; [lia|]. cbn [data_loop]. rewrite (slave_get _ _ _ Hu), bind_ret.
  pose proof (msg_ok_length m Hm) as Hc. unfold wire in Ew. assert (0 < List.length q)%nat by (destruct q; [done|cbn; lia]).
  destruct Hat as [p junk Hs Hr Hz Hl Hp|n d Hs Hn Hr Hz Hn2 Hd Hb]; rewrite Hs.
  - change (STATUS_HEADER =? STATUS_HANDSHAKE) with false. change (STATUS_HEADER =? STATUS_HEADER) with true. cbv iota.
    destruct (decide (List.length p + List.length bs < 4)%nat) as [Hlt|Hge].
    + destruct (header_more h i u p junk bs w) as (u' & -> & Hat & Hfd); try done. rewrite bind_ret. exists u'. by rewrite <- E.
    + set (n := Z.of_nat (List.length (content m))) in *. set (rest := drop 4 p').
      assert (Er : p' = to_bigendian n ++ rest).
      { rewrite <- (take_drop 4 p') at 1. f_equal. apply (f_equal (take 4)) in Ew. rewrite (take_app_length' (to_bigendian n)) in Ew by done.
        rewrite Ew. rewrite take_app_le; [done|]. rewrite <- E, length_app. lia. }
      assert (Elen : (Z.of_nat (List.length rest) < n)).
      { apply (f_equal List.length) in Ew. rewrite Er, !length_app in Ew. cbn [to_bigendian List.length] in Ew. lia. }
      destruct (header_full h i u p junk bs n rest w Hu Hs Hr Hz Hl Hp ltac:(lia)) as (u' & Hbody & Hfd & Hqu & ->); [congruence|].
      destruct (Z.eqb_spec (Z.of_nat (List.length rest)) 0) as [E0|E0].
      * rewrite bind_ret. exists u'. split; [done|]. split; [|done]. rewrite Er. assert (rest = []) as -> by (apply nil_length_inv; lia).
        apply body_at; [done|lia|cbn [List.length]; lia].
      * destruct (content_more (put h i u') i u' n [] rest w) as (u2 & -> & Hb2 & Hfd2 & Hq2); [by eapply put_at|done|cbn [List.length]; lia|].
        rewrite bind_ret, put_put. exists u2. split; [done|]. split; [rewrite Er; by apply body_at; [|lia|lia]|split; congruence].
  - change (STATUS_CONTENT =? STATUS_HANDSHAKE) with false. change (STATUS_CONTENT =? STATUS_HEADER) with false. change (STATUS_CONTENT =? STATUS_CONTENT) with true. cbv iota.
    rewrite <- E, <- !app_assoc in Ew. apply app_inj_1 in Ew as [En Ed]; [|done]. apply to_bigendian_inj in En; [|lia|lia].
    assert (Hdl : Z.of_nat (List.length d + List.length bs) < n).
    { apply (f_equal List.length) in Ed. rewrite !length_app in Ed. lia. }
    destruct (content_more h i u n d bs w Hu) as (u' & -> & Hb' & Hfd); [by unfold body|lia|]. rewrite bind_ret. exists u'. split; [done|]. split; [|done].
    rewrite <- E, <- app_assoc. apply body_at; [done|lia|rewrite length_app; lia].
Qed.

(** The first message of the bytes that are there is complete. *)
Lemma data_first h i sock u p bs m rest w fuel : slave_at h i u -> at_bytes u p -> msg_ok m -> p ++ bs = wire m ++ rest ->
  exists u', data_loop answer (S fuel) h i sock bs (Z.of_nat (List.length bs)) w =
      (if Z.of_nat (List.length rest) =? 0 then Ok (put h i u', deliver (id h) m w)
       else data_loop answer fuel (put h i u') i sock rest (Z.of_nat (List.length rest)) (deliver (id h) m w)) /\
    at_bytes u' [] /\ same_link u u'.
Proof.
  intros Hu Hat Hm E. cbn [data_loop]. rewrite (slave_get _ _ _ Hu), bind_ret. pose proof (msg_ok_length m Hm) as Hc. unfold wire in E.
  rewrite <- app_assoc in E. set (n := Z.of_nat (List.length (content m))) in *.
  destruct Hat as [p junk Hs Hr Hz Hl Hp|k d Hs Hn Hr Hz Hn2 Hd Hb]; rewrite Hs.
  - change (STATUS_HEADER =? STATUS_HANDSHAKE) with false. change (STATUS_HEADER =? STATUS_HEADER) with true. cbv iota.
    destruct (header_full h i u p junk bs n (content m ++ rest) w Hu Hs Hr Hz Hl Hp ltac:(lia) E) as (u' & Hbody & Hfd & Hqu & ->).
    destruct (Z.eqb_spec (Z.of_nat (List.length (content m ++ rest))) 0) as [E0|_]; [rewrite length_app in E0; lia|].
    rewrite (content_full (put h i u') i u' [] (content m ++ rest) m rest w); [|by eapply put_at|done|done|done|cbn; lia].
    rewrite bind_ret, put_put. exists (idle u'). split; [by destruct (_ =? 0)|]. split; [apply idle_at; apply Hbody|done].
  - change (STATUS_CONTENT =? STATUS_HANDSHAKE) with false. change (STATUS_CONTENT =? STATUS_HEADER) with false. change (STATUS_CONTENT =? STATUS_CONTENT) with true. cbv iota.
    rewrite <- app_assoc in E. apply app_inj_1 in E as [En Ed]; [|done]. apply to_bigendian_inj in En; [|lia|lia].
    rewrite (content_full h i u d bs m rest w Hu); [|by unfold body; fold n; rewrite <- En|done|done|lia].
    rewrite bind_ret. exists (idle u). split; [by destruct (_ =? 0)|]. split; [by apply idle_at|done].
Qed.

Lemma wire_nonempty m : (0 < List.length (wire m))%nat.
Proof. unfold wire. rewrite length_app. cbn [to_bigendian List.length]. lia. Qed.

Lemma data_loop_ok ms : forall fuel h i sock u p bs p' w, slave_at h i u -> at_bytes u p -> Forall msg_ok ms -> partial p' ->
  p ++ bs = concat (wire <$> ms) ++ p' -> (List.length ms < fuel)%nat ->
  exists u', data_loop answer fuel h i sock bs (Z.of_nat (List.length bs)) w = Ok (put h i u', deliver_all (id h) ms w) /\ at_bytes u' p' /\ same_link u u'.
Proof.
  induction ms as [|m ms IH]; intros fuel h i sock u p bs p' w Hu Hat Hms Hp E Hf.
  - cbn [fmap list_fmap concat app] in E. apply (data_wait h i sock u p bs p' w fuel); try done; lia.
  - apply Forall_cons in Hms as [Hm Hms]. cbn [fmap list_fmap concat] in E. rewrite <- app_assoc in E. destruct fuel as [|fuel]; [lia|]. cbn [List.length] in Hf.
    destruct (data_first h i sock u p bs m _ w fuel Hu Hat Hm E) as (u1 & -> & Hat1 & Hl1).
    destruct (Z.eqb_spec (Z.of_nat (List.length (concat (wire <$> ms) ++ p'))) 0) as [E0|E0].
    + rewrite length_app in E0. assert (p' = []) as -> by (apply nil_length_inv; lia).
      assert (ms = []) as -> by (destruct ms as [|m' ms]; [done|]; cbn [fmap list_fmap concat] in E0; rewrite length_app in E0; pose proof (wire_nonempty m'); lia).
      by exists u1.
    + destruct (IH fuel (put h i u1) i sock u1 [] (concat (wire <$> ms) ++ p') p' (deliver (id h) m w)) as (u2 & -> & Hat2 & Hl2); try done; [by eapply put_at|lia|].
      exists u2. rewrite put_put. split; [done|]. split; [done|]. destruct Hl1, Hl2. split; congruence.
Qed.

End Receive.

(** The three cases of [mainloop]. *)
Lemma mainloop_socket answer h m src sess w : mainloop answer h PTYPE_SOCKET (ESocket m) src sess w =
  match Netpack.s_type m with
  | Netpack.SData =>
      bs ← match Netpack.s_buffer m with Some b => Ok b | None => Fault NullPointer end;
      '(h, w, freed) ← push_socket_data answer h m bs w;
      if (freed : bool) then Fault DanglingPointer else Ok (h, w)
  | Netpack.SError | Netpack.SClose =>
      let i := harbor_id h (Netpack.s_id m) in
      if negb (i =? 0) then Ok (h, report_harbor_down answer h i w)
      else w ← tell (CError (str "Unkown fd (" ++ fmt_d (Netpack.s_id m) ++ str ") closed")) w; Ok (h, w)
  | Netpack.SConnect => Ok (h, w)
  | Netpack.SWarning =>
      let i := harbor_id h (Netpack.s_id m) in
      if negb (i =? 0) then
        w ← tell (CError (str "message havn't send to Harbor (" ++ fmt_d i ++ str ") reach " ++ fmt_d (Netpack.s_ud m) ++ str " K")) w; Ok (h, w)
      else Ok (h, w)
  | Netpack.SAccept | Netpack.SUdp => w ← tell (CError (str "recv invalid socket message type " ++ fmt_d PTYPE_SOCKET)) w; Ok (h, w)
  end.
Proof. reflexivity. Qed.

Lemma mainloop_harbor answer h msg src sess w : mainloop answer h PTYPE_HARBOR (EHarbor msg) src sess w = harbor_command answer h msg src w.
Proof. reflexivity. Qed.

Lemma mainloop_remote answer h type handle name msg src sess w : type <> PTYPE_SOCKET /\ type <> PTYPE_HARBOR ->
  mainloop answer h type (ERemote handle name msg) src sess w =
    ('(r, h, w) ← (if handle =? 0 then remote_send_name answer h src name type sess msg w else remote_send_handle answer h src handle type sess msg w);
     if negb (r =? 0) then Ok (h, w) else w ← tell (CFree msg) w; Ok (h, w)).
Proof. intros [Hs Hh]. unfold mainloop. destruct (Z.eqb_spec type PTYPE_SOCKET); [done|]. by destruct (Z.eqb_spec type PTYPE_HARBOR). Qed.

(** A message for another node that has the type of the socket messages is read as one:
    [skynet_harbor_send] refuses [PTYPE_SYSTEM] and [PTYPE_HARBOR] only. *)
Lemma mainloop_misreads answer h handle name msg src sess w : mainloop answer h PTYPE_SOCKET (ERemote handle name msg) src sess w = Fault Mistyped.
Proof. reflexivity. Qed.
