(* ===== verification/HarborLink.v ===== *)
(** * Messages between nodes

    The sending half of the harbor, and the two halves together: what a node sends
    to another, before, during and after the handshake, is delivered there, once
    and in order. *)

From S2P Require Import Prelude Mq Handle Text Server Netpack PackStream Gate Harbor HarborProofs.
From stdpp Require Import base numbers list gmap.
From Stdlib Require Import ZArith Lia.
From Stdlib Require String.
Import String.StringSyntax.
#[local] Open Scope Z_scope.
#[local] Open Scope list_scope.
Import Harbor.

(** ** Numbers in commands *)

(** A number ends at a blank or at the end of the text. *)
Definition ends_number (rest : cstr) : Prop := match rest with [] => True | c :: _ => c = 32 end.

Lemma print_digits n : 0 <= n < 2^31 -> Forall (fun d => 0 <= d < 10) (print_base 10 n) /\ print_base 10 n <> [].
Proof.
  intros Hn. split.
  - apply (digits_spec 10 64); [lia| |constructor]. split; [lia|]. apply Z.lt_le_trans with (2^64); [lia|]. apply Z.pow_le_mono_l. lia.
  - unfold print_base. assert (Hne : forall fuel k acc, acc <> [] -> digits fuel 10 k acc <> []).
    { induction fuel as [|fuel IH]; intros k acc Ha; cbn [digits]; [done|]. destruct (_ <? _); [done|]. by apply IH. }
    cbn [digits]. destruct (_ <? _); [done|]. by apply (Hne 63%nat).
Qed.

Lemma decimal_digit d : 0 <= d < 10 -> digit_value (48 + d) = Some d.
Proof.
  intros Hd. unfold digit_value. destruct (Z.leb_spec 48 (48 + d)), (Z.leb_spec (48 + d) 57); try lia. cbn. f_equal. lia.
Qed.

Lemma read_digits_end (ds : list Z) rest acc : Forall (fun d => 0 <= d < 10) ds -> ends_number rest ->
  read_digits 10 (((fun d => 48 + d) <$> ds) ++ rest) acc = horner 10 ds acc.
Proof.
  intros Hds Hr. revert acc. induction Hds as [|d ds Hd _ IH]; intros acc; cbn [fmap list_fmap app].
  - destruct rest as [|c rest]; [done|]. cbn in Hr. by subst c.
  - cbn [read_digits]. rewrite decimal_digit by done. destruct (Z.ltb_spec d 10); [|lia]. apply IH.
Qed.

Lemma skip_digits_end (ds : list Z) rest : Forall (fun d => 0 <= d < 10) ds -> ends_number rest ->
  skip_digits (((fun d => 48 + d) <$> ds) ++ rest) = rest.
Proof.
  intros Hds Hr. induction Hds as [|d ds Hd _ IH]; cbn [fmap list_fmap app].
  - destruct rest as [|c rest]; [done|]. cbn in Hr. by subst c.
  - cbn [skip_digits]. destruct (Z.leb_spec 48 (48 + d)), (Z.leb_spec (48 + d) 57); try lia. apply IH.
Qed.

Lemma scan_int_fmt n rest : 0 <= n < 2^31 -> ends_number rest -> scan_int (fmt_d n ++ rest) = (Some n, rest).
Proof.
  intros Hn Hr. unfold fmt_d, fmt_u. destruct (Z.ltb_spec n 0); [lia|]. destruct (print_digits n Hn) as [Hds Hne].
  assert (Eh : read_digits 10 (((fun d => 48 + d) <$> print_base 10 n) ++ rest) 0 = n).
  { rewrite read_digits_end by done. rewrite <- (read_digits_map (fun d => 48 + d)) by (lia || done || apply decimal_digit).
    apply (print_read 10 (fun d => 48 + d)); [lia|apply decimal_digit|lia]. }
  pose proof (skip_digits_end _ rest Hds Hr) as Es.
  destruct (print_base 10 n) as [|d ds]; [done|]. apply Forall_cons in Hds as [Hd _]. cbn [fmap list_fmap app] in *.
  set (t := ((fun d => 48 + d) <$> ds) ++ rest) in *.
  assert (Esp : skip_spaces ((48 + d) :: t) = (48 + d) :: t).
  { cbn [skip_spaces]. unfold is_space. destruct (Z.eqb_spec (48 + d) 32); [lia|]. destruct (Z.leb_spec (48 + d) 13); [lia|]. by rewrite andb_false_r. }
  assert (Esg : read_sign ((48 + d) :: t) = (false, (48 + d) :: t)).
  { unfold read_sign. destruct (Z.eqb_spec (48 + d) 45), (Z.eqb_spec (48 + d) 43); lia || done. }
  unfold scan_int, strtol10. rewrite !Esp, Esg. destruct (Z.leb_spec 48 (48 + d)), (Z.leb_spec (48 + d) 57); try lia. cbn [andb].
  rewrite ?Esp, ?Esg, Eh, Z.min_l, i32_small, Es by lia. done.
Qed.

Lemma upto_nul_app a b : Forall (fun c => c <> 0) a -> upto_nul (a ++ b) = a ++ upto_nul b.
Proof. induction 1 as [|c a Hc _ IH]; [done|]. cbn [app upto_nul]. destruct (Z.eqb_spec c 0); [done|]. by rewrite IH. Qed.

Lemma fmt_d_text n : 0 <= n < 2^31 -> Forall (fun c => c <> 0) (fmt_d n).
Proof.
  intros Hn. unfold fmt_d, fmt_u. destruct (Z.ltb_spec n 0); [lia|]. destruct (print_digits n Hn) as [Hds _].
  apply Forall_fmap. eapply Forall_impl; [exact Hds|]. cbn. lia.
Qed.

(** ** Sending *)

(** A message a service of this node sends to one of another. *)
Record request := Request { q_source : Z; q_dest : Z; q_type : Z; q_session : Z; q_msg : list Z }.

Record request_ok (k : Z) (r : request) : Prop := {
  ro_source : 0 <= q_source r < 2^32;
  ro_dest : 0 <= q_dest r < 2^32;
  ro_harbor : q_dest r / 2^24 = k;
  ro_type : 0 <= q_type r < 256;
  ro_kind : q_type r <> PTYPE_SOCKET /\ q_type r <> PTYPE_HARBOR;
  ro_session : - 2^31 <= q_session r < 2^31;
  ro_size : Z.of_nat (List.length (q_msg r)) + 12 < 2^24
}.

Definition msg_of (r : request) : harbor_msg :=
  HMsg (Header (q_source r) (q_dest r mod 2^24 + q_type r * 2^24) (u32 (q_session r))) (q_msg r).

Lemma msg_of_ok k r : request_ok k r -> msg_ok (msg_of r).
Proof.
  intros [Hs Hd _ Ht _ Hl]. split; [|rewrite content_length; cbn; lia]. unfold header_ok, msg_of. cbn [header source destination session].
  split; [done|]. pose proof (Z.mod_pos_bound (q_dest r) (2^24) ltac:(lia)). split; [lia|]. apply Z.mod_pos_bound. lia.
Qed.

Lemma cookie_eq k r : request_ok k r ->
  Header (q_source r) (u32 (Z.lor (Z.land (q_dest r) HANDLE_MASK) (Z.shiftl (q_type r) HANDLE_REMOTE_SHIFT))) (u32 (q_session r)) = header (msg_of r).
Proof.
  intros [_ _ _ Ht _ _]. cbn [header msg_of]. f_equal. change HANDLE_MASK with (2^24 - 1). unfold HANDLE_REMOTE_SHIFT.
  pose proof (Z.mod_pos_bound (q_dest r) (2^24) ltac:(lia)).
  rewrite land_mask, Z.shiftl_mul_pow2, lor_disjoint by lia. unfold u32. apply Z.mod_small. lia.
Qed.

(** No queue is an empty one. *)
Definition oq_repr (q : option harbor_msg_queue) (n : Z) (items : list harbor_msg) : Prop :=
  match q with None => items = [] | Some q => hq_repr q n items end.

Lemma put_id h k u : slave_at h k u -> put h k u = h.
Proof. intros [_ E]. unfold put. rewrite list_insert_id by done. by destruct h. Qed.

Lemma id_put h k u : id (put h k u) = id h.
Proof. done. Qed.

(** The bytes sent on a socket. *)
Definition sent_bytes (sock : Z) (c : call) : list Z :=
  match c with CSocketSend x b => if x =? sock then b else [] | _ => [] end.
Definition sent_on (sock : Z) (w : log) : list Z := concat (sent_bytes sock <$> w).

Lemma sent_on_app sock w w' : sent_on sock (w ++ w') = sent_on sock w ++ sent_on sock w'.
Proof. unfold sent_on. by rewrite fmap_app, concat_app. Qed.

(** The calls that send messages on a connection. *)
Definition flush (sock : Z) (ms : list harbor_msg) : log :=
  concat ((fun m => [CSocketSend sock (wire m); CFree (buffer m)]) <$> ms).

Lemma sent_on_flush sock ms : sent_on sock (flush sock ms) = concat (wire <$> ms).
Proof.
  unfold flush. induction ms as [|m ms IH]; [done|]. cbn [fmap list_fmap concat]. rewrite sent_on_app.
  f_equal; [|exact IH]. cbn. by rewrite Z.eqb_refl, app_nil_r.
Qed.

Lemma send_remote_ok sock m w : Z.of_nat (List.length (content m)) < 2^32 ->
  send_remote sock (buffer m) (header m) w = Ok (w ++ [CSocketSend sock (wire m)]).
Proof.
  intros Hl. unfold send_remote, HEADER_COOKIE_LENGTH. rewrite <- content_length.
  destruct (Z.ltb_spec (2^32 - 1) (Z.of_nat (List.length (content m)))); [lia|]. unfold u32. by rewrite Z.mod_small by lia.
Qed.

Lemma msg_ok_32 m : msg_ok m -> Z.of_nat (List.length (content m)) < 2^32.
Proof. intros [_ H]. lia. Qed.

Lemma harbor_flush_ok sock ms : Forall msg_ok ms -> forall w,
  each (fun m w => w ← send_remote sock (buffer m) (header m) w; tell (CFree (buffer m)) w) ms w = Ok (w ++ flush sock ms).
Proof.
  induction 1 as [|m ms Hm _ IH]; intros w; cbn [each]; [by rewrite app_nil_r|].
  rewrite send_remote_ok by by apply msg_ok_32. rewrite bind_ret. unfold tell. rewrite bind_ret, IH.
  unfold flush. cbn [fmap list_fmap concat]. by rewrite <- !app_assoc.
Qed.

Lemma dispatch_queue_ok h k u n items w : slave_at h k u -> fd u <> 0 -> oq_repr (queue u) n items -> Forall msg_ok items ->
  dispatch_queue h k w = Ok (put h k (set_queue None u), w ++ flush (fd u) items).
Proof.
  intros Hu Hf Hq Hms. unfold dispatch_queue. rewrite (slave_get _ _ _ Hu), bind_ret.
  destruct (Z.eqb_spec (fd u) 0); [done|]. cbn [negb c_assert]. rewrite bind_ret. destruct (queue u) as [q|] eqn:Eq; cbn [oq_repr] in Hq.
  - destruct (pop_all_ok (fun m w => w ← send_remote (fd u) (buffer m) (header m) w; tell (CFree (buffer m)) w) q n items w Hq) as (q' & -> & Hq').
    rewrite (harbor_flush_ok _ _ Hms), !bind_ret. rewrite (release_queue_ok q' n [] _ Hq'), bind_ret. cbn [fmap list_fmap]. rewrite app_nil_r.
    by rewrite (slave_set h k u _ Hu), bind_ret.
  - subst items. rewrite app_nil_r. do 2 f_equal. symmetry. rewrite <- (put_id h k u Hu) at 2. f_equal. unfold set_queue. rewrite <- Eq. by destruct u.
Qed.

Section Link.
Context (answer : log -> Z).

Definition ev_send (r : request) : Z * event * Z * Z := (q_type r, ERemote (q_dest r) [] (q_msg r), q_source r, q_session r).

Fixpoint run (h : harbor) (evs : list (Z * event * Z * Z)) (w : log) : outcome (harbor * log) :=
  match evs with
  | [] => Ok (h, w)
  | (type, e, src, sess) :: evs => '(h, w) ← mainloop answer h type e src sess w; run h evs w
  end.

Lemma harbor_run_app evs evs' : forall h w, run h (evs ++ evs') w = ('(h, w) ← run h evs w; run h evs' w).
Proof.
  induction evs as [|[[[type e] src] sess] evs IH]; intros h w; [done|]. cbn [app run].
  destruct (mainloop answer h type e src sess w) as [[h' w']|f]; [|done]. cbn [mbind outcome_bind]. apply IH.
Qed.

(** A slave that is not connected, or waits for the id of the other side. *)
Definition waits (u : slave) : Prop := (fd u = 0 \/ status u = STATUS_HANDSHAKE) /\ status u <> STATUS_DOWN.

Lemma send_queued h k u n items r w : slave_at h k u -> k <> id h -> 0 < k -> request_ok k r -> waits u ->
  oq_repr (queue u) n items -> 0 <= n < MAX_PUSHES ->
  exists q, mainloop answer h (q_type r) (ERemote (q_dest r) [] (q_msg r)) (q_source r) (q_session r) w = Ok (put h k (set_queue (Some q) u), w) /\
    hq_repr q (n + 1) (items ++ [msg_of r]).
Proof.
  intros Hu Hk H0 Hr [Hw Hd] Hq Hn. pose proof Hr as [_ Hdest Hh _ Hty _ _]. rewrite mainloop_remote by done.
  destruct (Z.eqb_spec (q_dest r) 0) as [E|_]; [rewrite E, Z.div_0_l in Hh by lia; lia|].
  unfold remote_send_handle, HANDLE_REMOTE_SHIFT. rewrite Z.shiftr_div_pow2, Hh by lia.
  destruct (Z.eqb_spec k (id h)); [done|]. rewrite (slave_get _ _ _ Hu), bind_ret. pose proof (cookie_eq k r Hr) as Ec. unfold HANDLE_REMOTE_SHIFT in Ec. rewrite Ec.
  assert (Ew : (fd u =? 0) || (status u =? STATUS_HANDSHAKE) = true) by (destruct Hw as [-> | ->]; [done|by rewrite orb_true_r]).
  rewrite Ew. destruct (Z.eqb_spec (status u) STATUS_DOWN); [done|].
  assert (Hq' : hq_repr (default new_queue (queue u)) n items).
  { destruct (queue u); cbn in *; [done|]. subst items. eapply hq_weaken; [apply new_hq_repr|lia]. }
  destruct (push_queue_ok _ n items (msg_of r) Hq') as (q & E & Hq2); [lia|]. unfold push_queue. fold (msg_of r).
  change (HMsg (header (msg_of r)) (q_msg r)) with (msg_of r). rewrite E, bind_ret, (slave_set h k u _ Hu), !bind_ret. by exists q.
Qed.

Lemma send_up h k u r w : slave_at h k u -> k <> id h -> 0 < k -> request_ok k r -> fd u <> 0 -> status u <> STATUS_HANDSHAKE ->
  mainloop answer h (q_type r) (ERemote (q_dest r) [] (q_msg r)) (q_source r) (q_session r) w = Ok (h, w ++ flush (fd u) [msg_of r]).
Proof.
  intros Hu Hk H0 Hr Hf Hs. pose proof Hr as [_ Hdest Hh _ Hty _ _]. rewrite mainloop_remote by done.
  destruct (Z.eqb_spec (q_dest r) 0) as [E|_]; [rewrite E, Z.div_0_l in Hh by lia; lia|].
  unfold remote_send_handle, HANDLE_REMOTE_SHIFT. rewrite Z.shiftr_div_pow2, Hh by lia.
  destruct (Z.eqb_spec k (id h)); [done|]. rewrite (slave_get _ _ _ Hu), bind_ret. pose proof (cookie_eq k r Hr) as Ec. unfold HANDLE_REMOTE_SHIFT in Ec. rewrite Ec.
  destruct (Z.eqb_spec (fd u) 0); [done|]. destruct (Z.eqb_spec (status u) STATUS_HANDSHAKE); [done|]. cbn [orb].
  change (send_remote (fd u) (q_msg r)) with (send_remote (fd u) (buffer (msg_of r))). rewrite send_remote_ok by by eapply msg_ok_32, msg_of_ok.
  rewrite !bind_ret. change (negb (0 =? 0)) with false. cbv iota. unfold tell. rewrite bind_ret. by rewrite <- app_assoc.
Qed.

Lemma run_queued rs : forall h k u n items w, slave_at h k u -> k <> id h -> 0 < k -> Forall (request_ok k) rs -> waits u ->
  oq_repr (queue u) n items -> 0 <= n -> n + Z.of_nat (List.length rs) <= MAX_PUSHES ->
  exists q, run h (ev_send <$> rs) w = Ok (put h k (set_queue q u), w) /\ oq_repr q (n + Z.of_nat (List.length rs)) (items ++ (msg_of <$> rs)).
Proof.
  induction rs as [|r rs IH]; intros h k u n items w Hu Hk H0 Hrs Hw Hq Hn Hmax; cbn [fmap list_fmap run ev_send].
  - exists (queue u). rewrite app_nil_r. cbn [List.length]. rewrite Z.add_0_r. split; [|done]. do 2 f_equal. symmetry. rewrite <- (put_id h k u Hu) at 2. f_equal. by destruct u.
  - apply Forall_cons in Hrs as [Hr Hrs]. cbn [List.length] in *. destruct (send_queued h k u n items r w Hu Hk H0 Hr Hw Hq) as (q & -> & Hq1); [lia|]. rewrite bind_ret.
    destruct (IH (put h k (set_queue (Some q) u)) k (set_queue (Some q) u) (n + 1) (items ++ [msg_of r]) w) as (q2 & E2 & Hq2); try done; [by eapply put_at|lia|lia|].
    cbn [fmap list_fmap] in E2. rewrite E2. exists q2. rewrite put_put. split; [done|]. rewrite <- app_assoc in Hq2. cbn [app] in Hq2.
    replace (n + Z.of_nat (S (List.length rs))) with (n + 1 + Z.of_nat (List.length rs)) by lia. done.
Qed.

Lemma run_up rs : forall h k u w, slave_at h k u -> k <> id h -> 0 < k -> Forall (request_ok k) rs -> fd u <> 0 -> status u <> STATUS_HANDSHAKE ->
  run h (ev_send <$> rs) w = Ok (h, w ++ flush (fd u) (msg_of <$> rs)).
Proof.
  induction rs as [|r rs IH]; intros h k u w Hu Hk H0 Hrs Hf Hs; cbn [fmap list_fmap run ev_send]; [by rewrite app_nil_r|].
  apply Forall_cons in Hrs as [Hr Hrs]. rewrite (send_up h k u r w) by done. rewrite bind_ret.
  specialize (IH h k u (w ++ flush (fd u) [msg_of r]) Hu Hk H0 Hrs Hf Hs). cbn [fmap list_fmap] in IH. rewrite IH, <- app_assoc. done.
Qed.

(** ** Connecting *)

(** The text the slave service sends: [S fd id] or [A fd id]. *)
Definition command (c sock k : Z) : list Z := [c; 32] ++ fmt_d sock ++ [32] ++ fmt_d k.

Lemma scan_command sock k : 0 < sock < 2^31 -> 0 < k < REMOTE_MAX ->
  scan_int (fmt_d sock ++ [32] ++ fmt_d k) = (Some sock, [32] ++ fmt_d k) /\ scan_int ([32] ++ fmt_d k) = (Some k, []).
Proof.
  unfold REMOTE_MAX. intros Hs Hk. split; [by apply scan_int_fmt; [lia|]|].
  change (scan_int ([32] ++ fmt_d k)) with (scan_int (fmt_d k)). rewrite <- (app_nil_r (fmt_d k)). by apply scan_int_fmt; [lia|].
Qed.

Lemma command_text c sock k : 0 < sock < 2^31 -> 0 < k < REMOTE_MAX -> upto_nul (drop 2 (command c sock k)) = fmt_d sock ++ [32] ++ fmt_d k.
Proof.
  unfold REMOTE_MAX. intros Hs Hk. change (drop 2 (command c sock k)) with (fmt_d sock ++ [32] ++ fmt_d k).
  rewrite <- (app_nil_r (fmt_d sock ++ [32] ++ fmt_d k)) at 1. rewrite upto_nul_app; [cbn [upto_nul]; by rewrite app_nil_r|].
  apply Forall_app. split; [apply fmt_d_text; lia|]. apply Forall_cons. split; [done|]. apply fmt_d_text. lia.
Qed.

(** What both commands do before they part. *)
Lemma connect_ok c h k u sock src w : slave_at h k u -> fd u = 0 -> 0 < sock < 2^31 -> 0 < k < REMOTE_MAX -> c = 83 \/ c = 65 ->
  let h' := put h k (set_status (if c =? 83 then STATUS_HANDSHAKE else STATUS_HEADER) (set_fd sock u)) in
  let w' := w ++ [CSocketStart sock; CSocketSend sock [u8 (id h)]] in
  harbor_command answer h (command c sock k) src w = if c =? 83 then Ok (h', w') else dispatch_queue h' k w'.
Proof.
  intros Hu Hf Hs Hk Hc. unfold harbor_command.
  assert (Hsz : (Z.of_nat (List.length (command c sock k)) - 2 <? 0) = false) by (apply Z.ltb_ge; unfold command; rewrite length_app; cbn [List.length]; lia).
  rewrite Hsz, (command_text c sock k Hs Hk). change (default 0 (List.head (command c sock k))) with c. destruct (scan_command sock k Hs Hk) as [E1 E2]. rewrite E1, E2.
  cbn [fst from_option Datatypes.id]. unfold REMOTE_MAX in *. rewrite !i32_small by lia.
  assert (Ec : (c =? 78) = false /\ (c =? 83) || (c =? 65) = true) by (destruct Hc as [-> | ->]; done). destruct Ec as [-> ->].
  destruct (Z.eqb_spec sock 0), (Z.leb_spec k 0), (Z.leb_spec 256 k); try lia. cbn [orb]. rewrite (slave_get _ _ _ Hu), bind_ret, Hf. change (negb (0 =? 0)) with false. cbv iota.
  rewrite (slave_set h k u _ Hu), bind_ret, put_slaves. unfold tell. rewrite bind_ret. unfold handshake.
  pose proof (put_at h k u (set_fd sock u) Hu) as Hu1. rewrite (slave_get _ _ _ Hu1), bind_ret. unfold tell. rewrite bind_ret, bind_ret, (slave_set _ _ _ _ Hu1), bind_ret, put_slaves, put_put.
  cbn [fd set_fd]. rewrite <- app_assoc. done.
Qed.

(** [A]: what waited is sent behind the id. *)
Lemma harbor_accept_ok h k u sock src w n items : slave_at h k u -> fd u = 0 -> 0 < sock < 2^31 -> 0 < k < REMOTE_MAX -> oq_repr (queue u) n items -> Forall msg_ok items ->
  harbor_command answer h (command 65 sock k) src w
    = Ok (put h k (set_queue None (set_status STATUS_HEADER (set_fd sock u))), w ++ [CSocketStart sock; CSocketSend sock [u8 (id h)]] ++ flush sock items).
Proof.
  intros Hu Hf Hs Hk Hq Hms. rewrite (connect_ok 65 h k u sock src w Hu Hf Hs Hk) by by right. cbv zeta. change (65 =? 83) with false. cbv iota.
  rewrite (dispatch_queue_ok _ k (set_status STATUS_HEADER (set_fd sock u)) n items); [|by eapply put_at|cbn; lia|done|done].
  cbn [fd set_status set_fd]. by rewrite put_put, <- app_assoc.
Qed.

(** ** Data *)

Definition data_ev (sock : Z) (bs : list Z) : Z * event * Z * Z :=
  (PTYPE_SOCKET, ESocket (Netpack.SockMsg Netpack.SData sock (Z.of_nat (List.length bs)) (Some bs) []), 0, 0).

(** No other slave has the connection. *)
Definition only_fd (h : harbor) (k sock : Z) : Prop := forall j v, (1 <= j)%nat -> s h !! j = Some v -> fd v = sock -> j = Z.to_nat k.

Lemma find_fd_ok sock sl : forall i k u, (k < List.length sl)%nat -> sl !! k = Some u -> fd u = sock ->
  (forall j v, sl !! j = Some v -> fd v = sock -> j = k) -> find_fd sock i sl = i + Z.of_nat k.
Proof.
  induction sl as [|v sl IH]; intros i k u Hk Hu Hf Ho; [cbn in Hk; lia|]. cbn [find_fd]. destruct (Z.eqb_spec (fd v) sock) as [E|E].
  - rewrite <- (Ho 0%nat v eq_refl E). lia.
  - destruct k as [|k]; [cbn in Hu; congruence|]. rewrite (IH (i + 1) k u); [lia|cbn in Hk; lia|done|done|].
    intros j x Hj Hx. specialize (Ho (S j) x Hj Hx). lia.
Qed.

Lemma harbor_id_ok h k u sock : slave_at h k u -> 0 < k -> fd u = sock -> only_fd h k sock -> harbor_id h sock = k.
Proof.
  intros [_ E] Hk Hf Ho. unfold harbor_id. destruct (s h) as [|v sl] eqn:Es; [done|]. cbn [List.tail].
  replace (Z.to_nat k) with (S (Z.to_nat (k - 1))) in E by lia. cbn in E.
  rewrite (find_fd_ok sock sl 1 (Z.to_nat (k - 1)) u); [lia|by eapply lookup_lt_Some|done|done|].
  intros j x Hj Hx. assert (S j = Z.to_nat k) by (apply (Ho (S j) x); [lia|by rewrite Es|done]). lia.
Qed.

Lemma only_fd_put h k sock u : only_fd h k sock -> only_fd (put h k u) k sock.
Proof.
  intros Ho j v Hj. unfold put. cbn [s set_slaves]. intros Hv Hf. destruct (decide (j = Z.to_nat k)) as [|Hne]; [done|].
  rewrite list_lookup_insert_ne in Hv by done. by eapply Ho.
Qed.

(** A message needs a byte of the chunk that completes it. *)
Lemma at_bytes_short u p m bs rest : at_bytes u p -> msg_ok m -> p ++ bs = wire m ++ rest -> (List.length p < List.length (wire m))%nat.
Proof.
  intros Hat Hm E. pose proof (msg_ok_length m Hm). unfold wire in *. rewrite <- app_assoc in E. rewrite length_app. cbn [to_bigendian List.length].
  destruct Hat as [p junk _ _ _ _ Hp|n d _ _ _ _ Hn Hd _]; [lia|]. rewrite <- app_assoc in E. apply app_inj_1 in E as [En _]; [|done].
  apply to_bigendian_inj in En; [|lia|lia]. rewrite length_app. cbn [to_bigendian List.length]. lia.
Qed.

Lemma wires_count ms : (List.length ms <= List.length (concat (wire <$> ms)))%nat.
Proof. induction ms as [|m ms IH]; [done|]. cbn [fmap list_fmap concat List.length]. rewrite length_app. pose proof (wire_nonempty m). lia. Qed.

Lemma messages_bound u p bs ms p' : at_bytes u p -> Forall msg_ok ms -> p ++ bs = concat (wire <$> ms) ++ p' -> (List.length ms <= List.length bs)%nat.
Proof.
  intros Hat Hms E. destruct Hms as [|m ms Hm Hms]; [cbn; lia|]. cbn [fmap list_fmap concat] in E. rewrite <- app_assoc in E.
  pose proof (at_bytes_short u p m bs _ Hat Hm E). apply (f_equal List.length) in E. rewrite !length_app in E. pose proof (wires_count ms). cbn [List.length]. lia.
Qed.

Lemma data_event h k u sock p bs ms p' w : slave_at h k u -> 0 < k -> fd u = sock -> only_fd h k sock -> at_bytes u p -> Forall msg_ok ms -> partial p' ->
  p ++ bs = concat (wire <$> ms) ++ p' ->
  exists u', run h [data_ev sock bs] w = Ok (put h k u', deliver_all answer (id h) ms w) /\ at_bytes u' p' /\ same_link u u'.
Proof.
  intros Hu Hk Hf Ho Hat Hms Hp E. cbn [run data_ev]. rewrite mainloop_socket. cbn [Netpack.s_type Netpack.s_buffer]. rewrite bind_ret. unfold push_socket_data. cbn [Netpack.s_id Netpack.s_ud].
  rewrite (harbor_id_ok h k u sock Hu Hk Hf Ho). destruct (Z.eqb_spec k 0); [lia|]. rewrite Nat2Z.id.
  destruct (data_loop_ok answer ms (S (S (List.length bs))) h k sock u p bs p' w Hu Hat Hms Hp E) as (u' & -> & Hat' & Hl).
  { pose proof (messages_bound u p bs ms p' Hat Hms E). lia. }
  rewrite !bind_ret. by exists u'.
Qed.

(** Where a stream may be cut. *)
Lemma split_stream ms : forall x y p', Forall msg_ok ms -> partial p' -> x ++ y = concat (wire <$> ms) ++ p' ->
  exists ms1 ms2 p1, ms = ms1 ++ ms2 /\ x = concat (wire <$> ms1) ++ p1 /\ p1 ++ y = concat (wire <$> ms2) ++ p' /\ partial p1.
Proof.
  induction ms as [|m ms IH]; intros x y p' Hms Hp E.
  - exists [], [], x. split; [done|]. split; [done|]. split; [done|]. destruct Hp as (m & q & Hm & Ew & Hq). cbn in E. subst p'.
    exists m, (y ++ q). rewrite <- app_assoc in Ew. split; [done|]. split; [done|]. by destruct y.
  - apply Forall_cons in Hms as [Hm Hms]. cbn [fmap list_fmap concat] in E. rewrite <- app_assoc in E.
    destruct (decide (List.length x < List.length (wire m))%nat) as [Hlt|Hge].
    + exists [], (m :: ms), x. split; [done|]. split; [done|]. split; [cbn [fmap list_fmap concat]; by rewrite <- app_assoc|].
      exists m, (drop (List.length x) (wire m)). split; [done|]. split.
      * rewrite <- (take_drop (List.length x) (wire m)) at 1. f_equal. apply (f_equal (take (List.length x))) in E.
        rewrite take_app_length, take_app_le in E by lia. by symmetry.
      * intros Hn. apply (f_equal List.length) in Hn. rewrite length_drop in Hn. cbn [List.length] in Hn. lia.
    + assert (Ex : x = wire m ++ drop (List.length (wire m)) x).
      { rewrite <- (take_drop (List.length (wire m)) x) at 1. f_equal. apply (f_equal (take (List.length (wire m)))) in E.
        rewrite take_app_length, take_app_le in E by lia. done. }
      destruct (IH (drop (List.length (wire m)) x) y p' Hms Hp) as (ms1 & ms2 & p1 & -> & E1 & E2 & Hp1).
      { rewrite Ex, <- app_assoc in E. by apply app_inv_head in E. }
      exists (m :: ms1), ms2, p1. split; [done|]. split; [|done]. cbn [fmap list_fmap concat]. rewrite <- app_assoc. rewrite Ex at 1. by f_equal.
Qed.

Lemma deliver_all_app i ms ms' w : deliver_all answer i (ms ++ ms') w = deliver_all answer i ms' (deliver_all answer i ms w).
Proof. apply foldl_app. Qed.

(** The whole stream of a connection, in any pieces. *)
Lemma run_data chunks : forall h k u sock p ms p' w, slave_at h k u -> 0 < k -> fd u = sock -> only_fd h k sock -> at_bytes u p -> Forall msg_ok ms -> partial p' ->
  p ++ concat chunks = concat (wire <$> ms) ++ p' ->
  exists u', run h (data_ev sock <$> chunks) w = Ok (put h k u', deliver_all answer (id h) ms w) /\ at_bytes u' p' /\ same_link u u'.
Proof.
  induction chunks as [|bs chunks IH]; intros h k u sock p ms p' w Hu Hk Hf Ho Hat Hms Hp E.
  - cbn [concat] in E. cbn [fmap list_fmap run].
    pose proof (messages_bound u p [] ms p' Hat Hms E) as Hb. assert (ms = []) as -> by (destruct ms; [done|cbn in Hb; lia]).
    cbn in E. rewrite app_nil_r in E. subst p'. exists u. by rewrite put_id.
  - cbn [concat] in E. rewrite app_assoc in E. destruct (split_stream ms _ _ _ Hms Hp E) as (ms1 & ms2 & p1 & -> & E1 & E2 & Hp1).
    apply Forall_app in Hms as [Hm1 Hm2]. change (data_ev sock <$> bs :: chunks) with ([data_ev sock bs] ++ (data_ev sock <$> chunks)).
    rewrite harbor_run_app. destruct (data_event h k u sock p bs ms1 p1 w Hu Hk Hf Ho Hat Hm1 Hp1 E1) as (u1 & -> & Hat1 & Hl1). rewrite bind_ret.
    destruct (IH (put h k u1) k u1 sock p1 ms2 p' (deliver_all answer (id h) ms1 w)) as (u2 & -> & Hat2 & Hl2); try done;
      [by eapply put_at|by destruct Hl1; congruence|by apply only_fd_put|].
    exists u2. rewrite put_put, deliver_all_app. split; [done|]. split; [done|]. destruct Hl1, Hl2. split; congruence.
Qed.

(** The id of the other side arrives, maybe with the first bytes behind it: what
    waited is sent. *)
Lemma shake_ok h k u sock bs ms p' n items w : slave_at h k u -> 0 < k -> fd u = sock -> sock <> 0 -> status u = STATUS_HANDSHAKE ->
  read u = 0 -> List.length (s_size u) = 4%nat -> oq_repr (queue u) n items -> Forall msg_ok items -> only_fd h k sock ->
  Forall msg_ok ms -> partial p' -> bs = concat (wire <$> ms) ++ p' ->
  exists u', run h [data_ev sock (k :: bs)] w = Ok (put h k u', deliver_all answer (id h) ms (w ++ flush sock items)) /\ at_bytes u' p' /\
    fd u' = sock /\ queue u' = None.
Proof.
  intros Hu Hk Hf Hs0 Hst Hr Hz Hq Hit Ho Hms Hp E. cbn [run data_ev]. rewrite mainloop_socket. cbn [Netpack.s_type Netpack.s_buffer]. rewrite bind_ret. unfold push_socket_data. cbn [Netpack.s_id Netpack.s_ud].
  rewrite (harbor_id_ok h k u sock Hu Hk Hf Ho). destruct (Z.eqb_spec k 0); [lia|]. rewrite Nat2Z.id. cbn [List.length].
  set (fuel := S (S (List.length bs))). cbn [data_loop]. rewrite (slave_get _ _ _ Hu), bind_ret, Hst, Z.eqb_refl. unfold handshake_part.
  rewrite (arr_get_ok _ 0 k), bind_ret, Z.eqb_refl by (lia || done). cbn [negb]. cbn [drop]. rewrite drop_0, (slave_get _ _ _ Hu), bind_ret, (slave_set h k u _ Hu), bind_ret, put_slaves.
  set (u1 := set_status STATUS_HEADER u).
  rewrite (dispatch_queue_ok (put h k u1) k u1 n items w); [|by eapply put_at|cbn; congruence|done|done]. rewrite bind_ret, put_put.
  set (u2 := set_queue None u1). cbn [fd set_status u1]. rewrite Hf. replace (Z.of_nat (S (List.length bs)) - 1) with (Z.of_nat (List.length bs)) by lia.
  pose proof (put_at h k u u2 Hu) as Hu2.
  assert (Hat : at_bytes u2 []) by (apply (at_head u2 [] (s_size u)); cbn; try done; lia).
  assert (Hloop : forall f, (List.length ms < f)%nat -> exists u', data_loop answer f (put h k u2) k sock bs (Z.of_nat (List.length bs)) (w ++ flush sock items)
      = Ok (put h k u', deliver_all answer (id h) ms (w ++ flush sock items)) /\ at_bytes u' p' /\ fd u' = sock /\ queue u' = None).
  { intros f Hlt. destruct (data_loop_ok answer ms f (put h k u2) k sock u2 [] bs p' (w ++ flush sock items) Hu2 Hat Hms Hp E Hlt) as (u' & -> & Ha & Hl1 & Hl2).
    exists u'. rewrite put_put. split; [done|]. split; [done|]. cbn in Hl1, Hl2. by rewrite Hl1, Hl2. }
  assert (Hb : (List.length ms <= List.length bs)%nat) by (subst bs; rewrite length_app; pose proof (wires_count ms); lia).
  destruct (Z.eqb_spec (Z.of_nat (List.length bs)) 0) as [E0|E0].
  - rewrite bind_ret. destruct (Hloop fuel) as (u' & -> & Ha & Hl); [lia|]. rewrite !bind_ret. by exists u'.
  - destruct (Hloop (S fuel)) as (u' & E1 & Ha & Hl); [lia|]. cbn [data_loop] in E1. rewrite (slave_get _ _ _ Hu2), bind_ret in E1.
    change (status u2 =? STATUS_HANDSHAKE) with false in E1. change (status u2 =? STATUS_HEADER) with true in E1. cbv iota in E1.
    rewrite E1, !bind_ret. by exists u'.
Qed.

(** A message that arrived for a service that is there. *)
Definition arrives (r : request) : call := CSend (q_source r) (q_dest r) (q_type r + PTYPE_TAG_DONTCOPY) (q_session r) (q_msg r).

Lemma deliver_arrives k rs : (forall w, 0 <= answer w) -> 0 < k < REMOTE_MAX -> Forall (request_ok k) rs ->
  forall w, deliver_all answer k (msg_of <$> rs) w = w ++ (arrives <$> rs).
Proof.
  unfold REMOTE_MAX. intros Ha Hk Hrs. induction Hrs as [|r rs Hr _ IH]; intros w; [by rewrite app_nil_r|].
  cbn [fmap list_fmap]. unfold deliver_all in *. cbn [foldl]. rewrite IH. destruct Hr as [Hs Hd Hh Ht _ Hse _].
  unfold deliver. cbn [msg_of header source destination session buffer].
  pose proof (Z.mod_pos_bound (q_dest r) (2^24) ltac:(lia)).
  rewrite Z.div_add, (Z.div_small (q_dest r mod 2^24)), Z.add_0_l, Z_mod_plus_full, Z.mod_mod by lia.
  assert (Ei : i32 (u32 (q_session r)) = q_session r).
  { unfold i32, u32. rewrite Zplus_mod_idemp_l, Z.mod_small by lia. lia. }
  rewrite Ei. unfold u8. rewrite (Z.mod_small k) by lia.
  assert (Ed : q_dest r mod 2^24 + k * 2^24 = q_dest r) by (pose proof (Z.div_mod (q_dest r) (2^24)); lia).
  rewrite Ed. destruct (Z.ltb_spec (answer (w ++ [CSend (q_source r) (q_dest r) (q_type r + PTYPE_TAG_DONTCOPY) (q_session r) (q_msg r)])) 0) as [Hneg|_].
  - specialize (Ha (w ++ [CSend (q_source r) (q_dest r) (q_type r + PTYPE_TAG_DONTCOPY) (q_session r) (q_msg r)])). lia.
  - by rewrite <- app_assoc.
Qed.

End Link.

(** A slave as [harbor_create] leaves it. *)
Definition fresh_slave (h : harbor) (k : Z) : Prop := slave_at h k no_slave.

Lemma requests_messages k rs : Forall (request_ok k) rs -> Forall msg_ok (msg_of <$> rs).
Proof. intros H. apply Forall_fmap. eapply Forall_impl; [exact H|]. intros r Hr. by eapply msg_of_ok. Qed.

Lemma flush_app sock ms ms' : flush sock (ms ++ ms') = flush sock ms ++ flush sock ms'.
Proof. unfold flush. by rewrite fmap_app, concat_app. Qed.

(** The side that connects. *)
Lemma sender_run answer h b sock src xs ys zs :
  0 < b < REMOTE_MAX -> b <> id h -> fresh_slave h b -> 0 < sock < 2^31 -> only_fd h b sock ->
  Forall (request_ok b) (xs ++ ys ++ zs) -> Z.of_nat (List.length (xs ++ ys ++ zs)) <= MAX_PUSHES ->
  exists h', run answer h ((ev_send <$> xs) ++ [(PTYPE_HARBOR, EHarbor (command 83 sock b), src, 0)] ++ (ev_send <$> ys) ++ [data_ev sock [b]] ++ (ev_send <$> zs)) []
    = Ok (h', [CSocketStart sock; CSocketSend sock [u8 (id h)]] ++ flush sock (msg_of <$> xs ++ ys ++ zs)).
Proof.
  intros Hb Hne Hu Hs Ho [Hx [Hy Hz]%Forall_app]%Forall_app Hmax. assert (0 < b < 256) as Hb' by done. rewrite !length_app in Hmax. rewrite !harbor_run_app.
  destruct (run_queued answer xs h b no_slave 0 [] [] Hu) as (q1 & -> & Hq1); try done; try lia; [by split; [left|]|]. rewrite bind_ret.
  set (u1 := set_queue q1 no_slave) in *. pose proof (put_at h b no_slave u1 Hu) as Hu1. cbn [app] in Hq1. rewrite Z.add_0_l in Hq1.
  pose proof (connect_ok answer 83 (put h b u1) b u1 sock src [] Hu1 eq_refl Hs Hb (or_introl eq_refl)) as E2. cbv zeta in E2.
  change (83 =? 83) with true in E2. cbv iota in E2. rewrite put_put, id_put in E2. cbn [app run]. rewrite mainloop_harbor. cbn [app] in E2. rewrite E2, !bind_ret.
  set (u2 := set_status STATUS_HANDSHAKE (set_fd sock u1)) in *. set (w := [CSocketStart sock; CSocketSend sock [u8 (id h)]]).
  pose proof (put_at h b no_slave u2 Hu) as Hu2. rewrite harbor_run_app.
  destruct (run_queued answer ys (put h b u2) b u2 (Z.of_nat (List.length xs)) (msg_of <$> xs) w Hu2) as (q3 & -> & Hq3); try done; try lia; [by split; [right|]|].
  rewrite bind_ret, put_put. set (u3 := set_queue q3 u2) in *. pose proof (put_at h b no_slave u3 Hu) as Hu3. rewrite <- fmap_app in Hq3.
  change (data_ev sock [b] :: (ev_send <$> zs)) with ([data_ev sock [b]] ++ (ev_send <$> zs)). rewrite harbor_run_app.
  destruct (shake_ok answer (put h b u3) b u3 sock [] [] [] (Z.of_nat (List.length xs) + Z.of_nat (List.length ys)) (msg_of <$> xs ++ ys) w Hu3) as (u4 & -> & Hat4 & Hf4 & Hq4);
    try done; try lia; [by apply (requests_messages b), Forall_app|by apply only_fd_put|apply partial_nil|].
  rewrite bind_ret, put_put. cbn [deliver_all foldl]. pose proof (put_at h b no_slave u4 Hu) as Hu4.
  rewrite (run_up answer zs (put h b u4) b u4 _ Hu4); try done; try lia.
  - eexists. rewrite Hf4. do 2 f_equal. rewrite (app_assoc xs), (fmap_app msg_of (xs ++ ys)), flush_app. by rewrite <- app_assoc.
  - inversion Hat4; unfold STATUS_HEADER, STATUS_CONTENT, STATUS_HANDSHAKE in *; congruence.
Qed.

(** The side that accepts. *)
Lemma receiver_run answer h a sock src rs chunks :
  0 < a < REMOTE_MAX -> 0 < id h < REMOTE_MAX -> fresh_slave h a -> 0 < sock < 2^31 -> only_fd h a sock -> (forall w, 0 <= answer w) ->
  Forall (request_ok (id h)) rs -> concat chunks = concat (wire <$> (msg_of <$> rs)) ->
  exists h', run answer h ((PTYPE_HARBOR, EHarbor (command 65 sock a), src, 0) :: (data_ev sock <$> chunks)) []
    = Ok (h', [CSocketStart sock; CSocketSend sock [u8 (id h)]] ++ (arrives <$> rs)).
Proof.
  intros Ha Hi Hu Hs Ho Hans Hok E. assert (0 < a < 256) as Ha' by done. cbn [run]. rewrite mainloop_harbor.
  rewrite (harbor_accept_ok answer h a no_slave sock src [] 0 []) by done. rewrite bind_ret. cbn [app flush fmap list_fmap concat].
  set (u1 := set_queue None (set_status STATUS_HEADER (set_fd sock no_slave))).
  destruct (run_data answer chunks (put h a u1) a u1 sock [] (msg_of <$> rs) [] [CSocketStart sock; CSocketSend sock [u8 (id h)]]) as (u2 & E2 & _ & _).
  - by eapply put_at.
  - lia.
  - done.
  - by apply only_fd_put.
  - apply (at_head u1 [] [0; 0; 0; 0]); cbn; try done. lia.
  - by apply (requests_messages (id h)).
  - apply partial_nil.
  - by rewrite app_nil_r.
  - cbn [fmap list_fmap] in E2 |- *. rewrite E2, put_put, id_put. rewrite (deliver_arrives answer (id h)) by done. by eexists.
Qed.

(** C14.  Messages between nodes: node [a] sends messages to services of node [b]
    before it is connected, while the handshake is under way and after it.  The
    bytes it puts on the connection are its id and then the messages, and when
    node [b] accepts the connection and is given these bytes (the id is read by
    the service that accepts), in any pieces, it sends to its services exactly
    these messages, once and in the order they were sent, with their source,
    destination, type and session.  A message has less than 2^24 - 12 bytes (the length
    field has three bytes) and a type other than [PTYPE_SOCKET] and [PTYPE_HARBOR],
    which [mainloop] takes for messages to itself; at most [MAX_PUSHES] wait. *)
Theorem messages_cross_nodes answerA answerB hA hB sockA sockB src xs ys zs :
  0 < id hA < REMOTE_MAX -> 0 < id hB < REMOTE_MAX -> id hA <> id hB ->
  fresh_slave hA (id hB) -> fresh_slave hB (id hA) -> 0 < sockA < 2^31 -> 0 < sockB < 2^31 ->
  only_fd hA (id hB) sockA -> only_fd hB (id hA) sockB -> (forall w, 0 <= answerB w) ->
  Forall (request_ok (id hB)) (xs ++ ys ++ zs) -> Z.of_nat (List.length (xs ++ ys ++ zs)) <= MAX_PUSHES ->
  exists hA' wA stream,
    run answerA hA ((ev_send <$> xs) ++ [(PTYPE_HARBOR, EHarbor (command 83 sockA (id hB)), src, 0)] ++ (ev_send <$> ys)
                    ++ [data_ev sockA [id hB]] ++ (ev_send <$> zs)) [] = Ok (hA', wA) /\
    sent_on sockA wA = id hA :: stream /\
    forall chunks, concat chunks = stream ->
      exists hB', run answerB hB ((PTYPE_HARBOR, EHarbor (command 65 sockB (id hA)), src, 0) :: (data_ev sockB <$> chunks)) []
        = Ok (hB', [CSocketStart sockB; CSocketSend sockB [id hB]] ++ (arrives <$> xs ++ ys ++ zs)).
Proof.
  intros Ha Hb Hab HuA HuB HsA HsB HoA HoB Hans Hok Hmax. assert (Ea : u8 (id hA) = id hA) by (unfold u8, REMOTE_MAX in *; apply Z.mod_small; lia).
  assert (Eb : u8 (id hB) = id hB) by (unfold u8, REMOTE_MAX in *; apply Z.mod_small; lia).
  destruct (sender_run answerA hA (id hB) sockA src xs ys zs) as (hA' & E); try done.
  eexists hA', _, (concat (wire <$> (msg_of <$> xs ++ ys ++ zs))). split; [exact E|]. split.
  - rewrite sent_on_app, sent_on_flush, Ea. cbn. by rewrite Z.eqb_refl.
  - intros chunks Ec. destruct (receiver_run answerB hB (id hA) sockB src (xs ++ ys ++ zs) chunks) as (hB' & EB); try done.
    exists hB'. by rewrite EB, Eb.
Qed.

(** Two nodes that have just started; a message before the connection, one during
    the handshake and one after it. *)
Definition node_of (i : Z) : harbor := MkHarbor i (i * 2^24 + 2) (map harbor_create) (s harbor_create).
Definition sample_request (sess : Z) (msg : list Z) : request := Request (2^24 + 9) (2 * 2^24 + 5) 10 sess msg.

Lemma sample_request_ok sess msg : 0 <= sess < 100 -> (List.length msg < 100)%nat -> request_ok 2 (sample_request sess msg).
Proof. intros H1 H2. split; cbn [q_source q_dest q_type q_session q_msg sample_request]; try lia; [reflexivity|done]. Qed.

Lemma fresh_node_slave i k : 0 < k < REMOTE_MAX -> fresh_slave (node_of i) k.
Proof. unfold REMOTE_MAX. intros Hk. split; [lia|]. cbn [s node_of harbor_create]. apply lookup_replicate. split; [done|]. unfold REMOTE_MAX. lia. Qed.

Lemma fresh_node_only i k sock : sock <> 0 -> only_fd (node_of i) k sock.
Proof. intros Hs j v Hj Hv Hf. cbn [s node_of harbor_create] in Hv. apply lookup_replicate in Hv as [-> _]. cbn in Hf. congruence. Qed.

Lemma messages_cross_nodes_witness :
  let rs := [sample_request 1 [65]; sample_request 2 [66; 67]; sample_request 3 []] in
  exists hA wA stream, run (fun _ => 0) (node_of 1)
      [ev_send (sample_request 1 [65]); (PTYPE_HARBOR, EHarbor (command 83 7 2), 3, 0); ev_send (sample_request 2 [66; 67]); data_ev 7 [2]; ev_send (sample_request 3 [])] [] = Ok (hA, wA) /\
    sent_on 7 wA = 1 :: stream /\
    forall chunks, concat chunks = stream -> exists hB, run (fun _ => 0) (node_of 2) ((PTYPE_HARBOR, EHarbor (command 65 8 1), 3, 0) :: (data_ev 8 <$> chunks)) []
      = Ok (hB, [CSocketStart 8; CSocketSend 8 [2]] ++ (arrives <$> rs)).
Proof.
  apply (messages_cross_nodes (fun _ => 0) (fun _ => 0) (node_of 1) (node_of 2) 7 8 3 [sample_request 1 [65]] [sample_request 2 [66; 67]] [sample_request 3 []]);
    try (cbn [id node_of]; unfold REMOTE_MAX; lia); try (apply fresh_node_slave; cbn; unfold REMOTE_MAX; lia); try (apply fresh_node_only; lia).
  - repeat (constructor; [apply sample_request_ok; cbn [List.length]; lia|]). constructor.
  - vm_compute. discriminate.
Defined.
