(* ===== verification/HarborNames.v ===== *)
(** * The names of the harbor

    The hash table of global names is a map from names, and a name that is
    announced resolves to the service that announced it. *)

From S2P Require Import Prelude Mq Handle Text Server Netpack PackStream Gate Harbor HarborProofs HarborLink.
From stdpp Require Import base numbers list gmap.
From Stdlib Require Import ZArith Lia.
From Stdlib Require String.
Import String.StringSyntax.
#[local] Open Scope Z_scope.
#[local] Open Scope list_scope.
Import Harbor.

(** ** Names *)

(** 16 bytes, padded with zeros behind the text. *)
Definition name_ok (n : list Z) : Prop :=
  exists text, n = text ++ replicate (16 - List.length text) 0 /\ (List.length text <= 16)%nat /\ Forall (fun c => 0 < c < 256) text.

Lemma name_length n : name_ok n -> List.length n = 16%nat.
Proof. intros (t & -> & Hl & _). rewrite length_app, length_replicate. lia. Qed.

(** [strncmp] on names of which one may be the end of a longer one. *)
Lemma strncmp_eq_spec k : forall a b, List.length a = k -> List.length b = k ->
  (forall i, a !! i = Some 0 -> forall j, (i <= j < k)%nat -> a !! j = Some 0) ->
  (forall i, b !! i = Some 0 -> forall j, (i <= j < k)%nat -> b !! j = Some 0) ->
  strncmp_eq k a b = Ok (bool_decide (a = b)).
Proof.
  induction k as [|k IH]; intros a b Ha Hb Za Zb; [apply nil_length_inv in Ha as ->; apply nil_length_inv in Hb as ->; by rewrite bool_decide_true|].
  destruct a as [|x a]; [done|]. destruct b as [|y b]; [done|]. cbn [strncmp_eq]. cbn in Ha, Hb.
  destruct (Z.eqb_spec x y) as [->|Hne]; [|rewrite bool_decide_false; congruence]. destruct (Z.eqb_spec y 0) as [->|Hy].
  - rewrite bool_decide_true; [done|]. f_equal. apply (list_eq_same_length _ _ k); [lia|lia|].
    intros i v v' Hi Hv Hv'. specialize (Za 0%nat eq_refl (S i) ltac:(lia)). specialize (Zb 0%nat eq_refl (S i) ltac:(lia)). change (a !! i = Some 0) in Za. change (b !! i = Some 0) in Zb. congruence.
  - rewrite IH; [|lia|lia| |].
    + f_equal. apply bool_decide_ext. split; [by intros ->|by intros [= ->]].
    + intros i Hi j Hj. apply (Za (S i) Hi (S j)). lia.
    + intros i Hi j Hj. apply (Zb (S i) Hi (S j)). lia.
Qed.

Lemma name_zeros n : name_ok n -> forall i, n !! i = Some 0 -> forall j, (i <= j < 16)%nat -> n !! j = Some 0.
Proof.
  intros (t & -> & Hl & Ht) i Hi j Hj. destruct (decide (i < List.length t)%nat) as [Hlt|Hge].
  - rewrite lookup_app_l in Hi by done. apply (Forall_lookup_1 _ _ _ _ Ht) in Hi. lia.
  - rewrite lookup_app_r by lia. apply lookup_replicate. lia.
Qed.

Lemma name_eq a b : name_ok a -> name_ok b -> strncmp_eq 16 a b = Ok (bool_decide (a = b)).
Proof. intros Ha Hb. apply strncmp_eq_spec; by (apply name_length || apply name_zeros). Qed.

(** ** The table *)

Definition name_hash (n : list Z) : Z :=
  Z.lxor (Z.lxor (Z.lxor (of_le (take 4 n)) (of_le (take 4 (drop 4 n)))) (of_le (take 4 (drop 8 n)))) (of_le (take 4 (drop 12 n))).

Lemma hash_name_ok n : List.length n = 16%nat -> hash_name n = Ok (name_hash n).
Proof.
  intros Hl. do 16 (destruct n as [|? n]; [done|]). destruct n; [reflexivity|done].
Qed.

Record node_ok (b : Z) (node : keyvalue) : Prop := {
  no_key : name_ok (key node);
  no_hash : hash node = name_hash (key node);
  no_bucket : hash node mod HASH_SIZE = b
}.

(** Every node is in the chain of its hash, under a name of its own. *)
Record map_ok (mp : hashmap) : Prop := {
  mo_length : Z.of_nat (List.length mp) = HASH_SIZE;
  mo_nodes : forall b chain, mp !! b = Some chain -> Forall (node_ok (Z.of_nat b)) chain /\ NoDup (key <$> chain)
}.

(** The map a table stands for. *)
Definition find_key (name : list Z) (chain : list keyvalue) : option keyvalue := List.find (fun node => bool_decide (key node = name)) chain.
Definition names (mp : hashmap) (name : list Z) : option keyvalue :=
  find_key name (default [] (mp !! Z.to_nat (name_hash name mod HASH_SIZE))).

Lemma bucket_range h : 0 <= h mod HASH_SIZE < HASH_SIZE.
Proof. apply Z.mod_pos_bound. unfold HASH_SIZE. lia. Qed.

Lemma bucket_get mp name : map_ok mp -> exists chain, mp !! Z.to_nat (name_hash name mod HASH_SIZE) = Some chain /\
  arr_get mp (name_hash name mod HASH_SIZE) = Ok chain.
Proof.
  intros [Hl _]. pose proof (bucket_range (name_hash name)) as Hr. destruct (lookup_lt_is_Some_2 mp (Z.to_nat (name_hash name mod HASH_SIZE))) as [chain E]; [lia|].
  exists chain. split; [done|]. apply arr_get_ok; [lia|done].
Qed.

Lemma search_chain_ok name b chain : name_ok name -> Forall (node_ok b) chain -> forall i,
  match find_key name chain with
  | None => search_chain name (name_hash name) i chain = Ok None
  | Some node => exists j, search_chain name (name_hash name) i chain = Ok (Some ((i + j)%nat, node)) /\ chain !! j = Some node /\ key node = name
  end.
Proof.
  intros Hn Hc. induction Hc as [|node chain [Hk Hh Hb] _ IH]; intros i; [done|]. cbn [search_chain find_key List.find].
  assert (Es : (if hash node =? name_hash name then strncmp_eq 16 (key node) name else Ok false) = Ok (bool_decide (key node = name))).
  { rewrite Hh. destruct (Z.eqb_spec (name_hash (key node)) (name_hash name)) as [E|E]; [by apply name_eq|].
    rewrite bool_decide_false; [done|]. congruence. }
  rewrite Es, bind_ret. case_bool_decide as Ek.
  - exists 0%nat. rewrite Nat.add_0_r. done.
  - specialize (IH (S i)). fold (find_key name chain). destruct (find_key name chain) as [x|]; [|done]. destruct IH as (j & -> & Hj & Hx).
    exists (S j). split; [do 3 f_equal; lia|done].
Qed.

(** The node at a place. *)
Definition node_at (mp : hashmap) (p : place) (node : keyvalue) : Prop :=
  0 <= p.1 /\ exists chain, mp !! Z.to_nat p.1 = Some chain /\ chain !! p.2 = Some node.

Lemma hash_search_ok mp name : map_ok mp -> name_ok name ->
  match names mp name with
  | None => hash_search mp name = Ok None
  | Some node => exists p, hash_search mp name = Ok (Some (p, node)) /\ node_at mp p node /\ key node = name
  end.
Proof.
  intros Hm Hn. destruct (bucket_get mp name Hm) as (chain & E & Eg). unfold names, hash_search. rewrite E, hash_name_ok, bind_ret, Eg, bind_ret by by apply name_length.
  destruct (mo_nodes _ Hm _ _ E) as [Hc _]. pose proof (search_chain_ok name _ chain Hn Hc 0) as Hs. cbn [default from_option Datatypes.id].
  destruct (find_key name chain) as [node|]; [|by rewrite Hs]. destruct Hs as (j & -> & Hj & Hk). rewrite bind_ret. eexists. split; [done|]. split; [|done].
  split; [apply bucket_range|]. cbn. by exists chain.
Qed.

Lemma insert_bucket mp name chain x : name_ok name -> map_ok mp ->
  names (<[Z.to_nat (name_hash name mod HASH_SIZE) := chain]> mp) x =
    if decide (name_hash x mod HASH_SIZE = name_hash name mod HASH_SIZE) then find_key x chain else names mp x.
Proof.
  intros Hn Hm. unfold names. destruct (decide (name_hash x mod HASH_SIZE = name_hash name mod HASH_SIZE)) as [E1|Hne].
  - rewrite E1. destruct (bucket_get mp name Hm) as (old & E & _). rewrite list_lookup_insert_eq by (by eapply lookup_lt_Some). done.
  - rewrite list_lookup_insert_ne; [done|]. pose proof (bucket_range (name_hash x)). pose proof (bucket_range (name_hash name)). lia.
Qed.

Lemma hash_insert_ok mp name : map_ok mp -> name_ok name -> names mp name = None ->
  exists mp' p, hash_insert mp name = Ok (mp', p, KeyValue name (name_hash name) 0 None) /\ map_ok mp' /\ node_at mp' p (KeyValue name (name_hash name) 0 None) /\
    forall x, name_ok x -> names mp' x = if decide (x = name) then Some (KeyValue name (name_hash name) 0 None) else names mp x.
Proof.
  intros Hm Hn Hnone. destruct (bucket_get mp name Hm) as (chain & E & Eg). pose proof (bucket_range (name_hash name)) as Hr. pose proof (mo_length _ Hm) as Hlen.
  unfold hash_insert. rewrite hash_name_ok, bind_ret, Eg, bind_ret by by apply name_length.
  pose proof (mem_read_ok [] name []) as Er. cbn [app List.length] in Er. rewrite app_nil_r, (name_length _ Hn) in Er. change (Z.of_nat 0) with 0 in Er.
  change GLOBALNAME_LENGTH with (Z.of_nat 16). rewrite Er, bind_ret, arr_set_ok by lia. rewrite bind_ret.
  set (node := KeyValue name (name_hash name) 0 None). destruct (mo_nodes _ Hm _ _ E) as [Hc Hd]. eexists _, _. split; [done|]. split; [|split].
  - split; [by rewrite length_insert|]. intros b ch. destruct (decide (b = Z.to_nat (name_hash name mod HASH_SIZE))) as [->|Hne].
    + rewrite list_lookup_insert_eq by (by eapply lookup_lt_Some). intros [= <-]. split; [constructor; [split; cbn; [done|done|lia]|done]|].
      cbn [fmap list_fmap]. constructor; [|done]. intros (y & Ey & Hy)%list_elem_of_fmap.
      unfold names in Hnone. rewrite E in Hnone. cbn in Hnone. apply list_elem_of_In, (List.find_none _ _ Hnone y) in Hy.
      apply bool_decide_eq_false in Hy. change (name = key y) in Ey. congruence.
    + rewrite list_lookup_insert_ne by done. apply (mo_nodes _ Hm).
  - split; [apply bucket_range|]. cbn. exists (node :: chain). split; [|done]. apply list_lookup_insert_eq. by eapply lookup_lt_Some.
  - intros x Hx. rewrite insert_bucket by done. cbn [find_key List.find key node].
    destruct (decide (x = name)) as [->|Hne].
    + rewrite decide_True by done. by rewrite bool_decide_true.
    + destruct (decide _) as [Eb|_]; [|done]. rewrite bool_decide_false by congruence. unfold names. rewrite Eb, E. done.
Qed.

Lemma find_key_insert chain : forall j node node' x, chain !! j = Some node -> key node' = key node -> NoDup (key <$> chain) ->
  find_key x (<[j := node']> chain) = if decide (x = key node) then Some node' else find_key x chain.
Proof.
  induction chain as [|y chain IH]; intros j node node' x Hj Hk Hd; [done|]. cbn [fmap list_fmap] in Hd. apply NoDup_cons in Hd as [Hy Hd].
  destruct j as [|j]; cbn [insert list_insert find_key List.find].
  - injection Hj as ->. rewrite Hk. destruct (decide (x = key node)) as [->|Hne]; [by rewrite bool_decide_true|]. by rewrite !bool_decide_false by congruence.
  - change (chain !! j = Some node) in Hj. case_bool_decide as E.
    + rewrite decide_False; [done|]. intros ->. apply Hy. rewrite E. apply list_elem_of_fmap_2. by eapply list_elem_of_lookup_2.
    + apply IH; done.
Qed.

Lemma keys_insert (chain : list keyvalue) (j : nat) node node' : chain !! j = Some node -> key node' = key node -> key <$> <[j := node']> chain = key <$> chain.
Proof.
  intros Hj Hk. rewrite list_fmap_insert, Hk. apply list_insert_id. by rewrite list_lookup_fmap, Hj.
Qed.

Lemma put_node_ok mp p node node' : map_ok mp -> node_at mp p node -> key node' = key node -> hash node' = hash node ->
  exists mp', put_node mp p node' = Ok mp' /\ map_ok mp' /\ forall x, names mp' x = if decide (x = key node) then Some node' else names mp x.
Proof.
  intros Hm (H0 & chain & E & Ej) Hk Hh. unfold put_node. rewrite (arr_get_ok _ _ _ H0 E), bind_ret.
  pose proof (lookup_lt_Some _ _ _ Ej). pose proof (lookup_lt_Some _ _ _ E). rewrite arr_set_ok by lia. rewrite bind_ret, arr_set_ok, Nat2Z.id by lia.
  destruct (mo_nodes _ Hm _ _ E) as [Hc Hd]. pose proof (Forall_lookup_1 _ _ _ _ Hc Ej) as [Hkey Hhash Hbucket]. eexists. split; [done|]. split.
  - split; [rewrite length_insert; apply (mo_length _ Hm)|]. intros b ch. destruct (decide (b = Z.to_nat p.1)) as [->|Hne].
    + rewrite list_lookup_insert_eq by done. intros [= <-]. split; [|by rewrite (keys_insert _ _ node)].
      apply Forall_insert; [done|]. split; congruence.
    + rewrite list_lookup_insert_ne by done. apply (mo_nodes _ Hm).
  - intros x. unfold names. destruct (decide (Z.to_nat (name_hash x mod HASH_SIZE) = Z.to_nat p.1)) as [Eb|Hne].
    + rewrite Eb, list_lookup_insert_eq, E by done. cbn. by apply find_key_insert.
    + rewrite list_lookup_insert_ne by done. rewrite decide_False; [done|]. intros ->. apply Hne. rewrite <- Hhash, Hbucket. lia.
Qed.

(** [hash_search] and [hash_insert] together. *)
Lemma hash_get_ok mp name : map_ok mp -> name_ok name ->
  exists mp' p node, hash_get mp name = Ok (mp', p, node) /\ map_ok mp' /\ node_at mp' p node /\ key node = name /\
    node = default (KeyValue name (name_hash name) 0 None) (names mp name) /\ (is_Some (names mp name) -> mp' = mp) /\
    forall x, name_ok x -> names mp' x = if decide (x = name) then Some node else names mp x.
Proof.
  intros Hm Hn. unfold hash_get. pose proof (hash_search_ok mp name Hm Hn) as Hs. destruct (names mp name) as [node|] eqn:En.
  - destruct Hs as (p & -> & Hat & Hk). rewrite bind_ret. exists mp, p, node. do 6 (split; [done|]). intros x _. by destruct (decide (x = name)) as [->|].
  - rewrite Hs, bind_ret. destruct (hash_insert_ok mp name Hm Hn En) as (mp' & p & -> & Hm' & Hat & Hall). eexists _, _, _. do 5 (split; [done|]).
    split; [by intros []|done].
Qed.

Lemma hash_new_ok : map_ok hash_new.
Proof.
  unfold hash_new. split; [by rewrite length_replicate|]. intros b chain [-> _]%lookup_replicate. split; constructor.
Qed.

(** ** Announced names *)

Section Names.
Context (answer : log -> Z).

(** An announcement for a name nobody waits for. *)
Lemma update_name_idle h name handle w : map_ok (map h) -> name_ok name -> (forall node, names (map h) name = Some node -> kv_queue node = None) ->
  exists mp, update_name answer h name handle w = Ok (set_map mp h, w) /\ map_ok mp /\
    forall x, name_ok x -> names mp x = if decide (x = name) then Some (KeyValue name (name_hash name) handle None) else names (map h) x.
Proof.
  intros Hm Hn Hq. unfold update_name. destruct (hash_get_ok (map h) name Hm Hn) as (mp & p & node & -> & Hm1 & Hat & Hk & En & _ & Hall). rewrite bind_ret.
  assert (Hkq : kv_queue node = None) by (subst node; destruct (names (map h) name) as [x|]; [by apply Hq|done]). cbn [kv_queue]. rewrite Hkq.
  assert (Hh : hash node = name_hash name).
  { destruct Hat as (_ & chain & E & Ej). destruct (mo_nodes _ Hm1 _ _ E) as [Hc _]. pose proof (Forall_lookup_1 _ _ _ _ Hc Ej) as [_ Hh _]. congruence. }
  destruct (put_node_ok mp p node (KeyValue (key node) (hash node) handle None) Hm1 Hat eq_refl eq_refl) as (mp2 & -> & Hm2 & Hall2).
  rewrite bind_ret. exists mp2. split; [done|]. split; [done|]. intros x Hx. rewrite Hall2, Hall, Hk, Hh by done. by destruct (decide (x = name)).
Qed.

Fixpoint announce (anns : list (list Z * Z)) (h : harbor) (w : log) : outcome (harbor * log) :=
  match anns with
  | [] => Ok (h, w)
  | (name, handle) :: anns => '(h, w) ← update_name answer h name handle w; announce anns h w
  end.

(** The handle a name was announced with last. *)
Definition announced (anns : list (list Z * Z)) (x : list Z) : option Z :=
  foldl (fun o a => if decide (x = a.1) then Some a.2 else o) None anns.

(** Nobody waits for a name. *)
Definition no_waiting (mp : hashmap) : Prop := forall x node, name_ok x -> names mp x = Some node -> kv_queue node = None.

Lemma announce_ok anns : forall h w, map_ok (map h) -> no_waiting (map h) -> Forall (fun a => name_ok a.1) anns ->
  exists mp, announce anns h w = Ok (set_map mp h, w) /\ map_ok mp /\ no_waiting mp /\
    forall x, name_ok x -> (value <$> names mp x) = foldl (fun o a => if decide (x = a.1) then Some a.2 else o) (value <$> names (map h) x) anns.
Proof.
  induction anns as [|[name handle] anns IH]; intros h w Hm Hw Hok; cbn [announce].
  - exists (map h). split; [by destruct h|]. done.
  - apply Forall_cons in Hok as [Hn Hok]. cbn [fst] in Hn. destruct (update_name_idle h name handle w Hm Hn) as (mp1 & -> & Hm1 & Hall1); [intros node; by apply Hw|].
    rewrite bind_ret. destruct (IH (set_map mp1 h) w) as (mp2 & -> & Hm2 & Hw2 & Hall2); [done| |done|].
    { intros x node Hx. cbn [map set_map]. rewrite Hall1 by done. destruct (decide (x = name)); [by intros [= <-]|by apply Hw]. }
    exists mp2. split; [done|]. do 2 (split; [done|]). intros x Hx. rewrite Hall2 by done. cbn [foldl fst snd map set_map]. f_equal. rewrite Hall1 by done. by destruct (decide (x = name)).
Qed.

Lemma send_name_eq h src name type sess msg w node : map_ok (map h) -> name_ok name -> names (map h) name = Some node -> value node <> 0 ->
  remote_send_name answer h src name type sess msg w = remote_send_handle answer h src (value node) type sess msg w.
Proof.
  intros Hm Hn En Hv. unfold remote_send_name. destruct (hash_get_ok (map h) name Hm Hn) as (mp & p & node' & -> & _ & _ & _ & En' & Hsame & _). rewrite bind_ret.
  rewrite En in En', Hsame. cbn in En'. subst node'. rewrite Hsame by by eexists. destruct (Z.eqb_spec (value node) 0); [done|]. by destruct h.
Qed.

(** C16.  Global names: after any announcements on a node that has just started, a
    message to a name is sent exactly as one to the handle the name was announced
    with last. *)
Theorem announced_names_resolve anns h w :
  map h = hash_new -> Forall (fun a => name_ok a.1 /\ a.2 <> 0) anns ->
  exists h', announce anns h w = Ok (h', w) /\
    forall x handle src type sess msg w', name_ok x -> announced anns x = Some handle ->
      remote_send_name answer h' src x type sess msg w' = remote_send_handle answer h' src handle type sess msg w'.
Proof.
  intros Hnew Hok. assert (Hnone : forall x, names hash_new x = None).
  { intros x. unfold names, hash_new. destruct (replicate _ _ !! _) as [chain|] eqn:E; [|done]. by apply lookup_replicate in E as [-> _]. }
  destruct (announce_ok anns h w) as (mp & E & Hm & _ & Hall).
  - rewrite Hnew. apply hash_new_ok.
  - intros x node _. by rewrite Hnew, Hnone.
  - eapply Forall_impl; [exact Hok|]. by intros a [? _].
  - exists (set_map mp h). split; [done|]. intros x handle src type sess msg w' Hx Ha. specialize (Hall x Hx). rewrite Hnew, Hnone in Hall. cbn in Hall.
    unfold announced in Ha. rewrite Ha in Hall. destruct (names mp x) as [node|] eqn:En; [|done]. injection Hall as Hv. rewrite <- Hv.
    apply send_name_eq; [done|done|done|]. rewrite Hv.
    assert (Hnz : forall l o, (forall v, o = Some v -> v <> 0) -> Forall (fun a : list Z * Z => name_ok a.1 /\ a.2 <> 0) l ->
      forall v, foldl (fun o a => if decide (x = a.1) then Some a.2 else o) o l = Some v -> v <> 0).
    { intros l. induction l as [|a l IHl]; intros o Ho Hl v; [apply Ho|]. apply Forall_cons in Hl as [[_ Ha2] Hl]. cbn [foldl]. apply IHl; [|done].
      intros v'. destruct (decide _); [by intros [= <-]|apply Ho]. }
    by apply (Hnz anns None).
Qed.

End Names.

(** Two names, the first announced twice. *)
Definition name_of (text : list Z) : list Z := text ++ replicate (16 - List.length text) 0.

Lemma name_of_ok text : (List.length text <= 16)%nat -> Forall (fun c => 0 < c < 256) text -> name_ok (name_of text).
Proof. intros Hl Ht. by exists text. Qed.

Lemma announced_names_resolve_witness : exists h',
  announce (fun _ => 0) [(name_of (str "DB"), 2^24 + 5); (name_of (str "HALL"), 2 * 2^24 + 7); (name_of (str "DB"), 2 * 2^24 + 9)] (node_of 1) [] = Ok (h', []) /\
  remote_send_name (fun _ => 0) h' 3 (name_of (str "DB")) 10 1 [65] [] = remote_send_handle (fun _ => 0) h' 3 (2 * 2^24 + 9) 10 1 [65] [].
Proof.
  destruct (announced_names_resolve (fun _ => 0) [(name_of (str "DB"), 2^24 + 5); (name_of (str "HALL"), 2 * 2^24 + 7); (name_of (str "DB"), 2 * 2^24 + 9)] (node_of 1) []) as (h' & E & H).
  - reflexivity.
  - repeat (apply Forall_cons; split; [split; [apply name_of_ok; [cbn; lia|repeat constructor; cbn; lia]|discriminate]|]). constructor.
  - exists h'. split; [exact E|]. apply H; [apply name_of_ok; [cbn; lia|repeat constructor; cbn; lia]|reflexivity].
Defined.
