(* ===== verification/HarborErrors.v ===== *)
(** * Where the harbor fails

    A message shorter than its own header makes the receiving node read in front of
    the block it arrived in, and a message that waited for a name is sent without
    the handle of the service when its node connects later than the name is known. *)

From S2P Require Import Prelude Mq Handle Text Server Netpack PackStream Gate Harbor HarborProofs HarborLink HarborNames.
From stdpp Require Import base numbers list gmap.
From Stdlib Require Import ZArith Lia.
From Stdlib Require String.
Import String.StringSyntax.
#[local] Open Scope Z_scope.
#[local] Open Scope list_scope.
Import Harbor.

Lemma forward_short answer h block sz w : sz < HEADER_COOKIE_LENGTH -> forward_local_messsage answer h block sz w = Fault OutOfBounds.
Proof.
  intros Hs. unfold forward_local_messsage, message_to_header, from_bigendian, mem_read.
  destruct (Z.ltb_spec (sz - HEADER_COOKIE_LENGTH) 0); [done|lia].
Qed.

(** A message that says it has fewer than 12 bytes: when a connected node sends
    one, [forward_local_messsage] looks for the header in front of the block. *)
Theorem short_message_crashes answer h k u sock c src sess w :
  slave_at h k u -> 0 < k -> fd u = sock -> only_fd h k sock -> at_bytes u [] -> 0 < Z.of_nat (List.length c) < HEADER_COOKIE_LENGTH ->
  let bs := to_bigendian (Z.of_nat (List.length c)) ++ c in
  mainloop answer h PTYPE_SOCKET (ESocket (Netpack.SockMsg Netpack.SData sock (Z.of_nat (List.length bs)) (Some bs) [])) src sess w = Fault OutOfBounds.
Proof.
  intros Hu Hk Hf Ho Hat Hc bs. unfold HEADER_COOKIE_LENGTH in Hc. rewrite mainloop_socket. cbn [Netpack.s_type Netpack.s_buffer]. rewrite bind_ret.
  unfold push_socket_data. cbn [Netpack.s_id Netpack.s_ud]. rewrite (harbor_id_ok h k u sock Hu Hk Hf Ho). destruct (Z.eqb_spec k 0); [lia|].
  cbn [data_loop]. rewrite (slave_get _ _ _ Hu), bind_ret.
  inversion Hat as [p junk Hs Hr Hz Hl Hp|]; subst p. rewrite Hs. change (STATUS_HEADER =? STATUS_HANDSHAKE) with false. change (STATUS_HEADER =? STATUS_HEADER) with true. cbv iota.
  destruct (header_full answer h k u [] junk bs (Z.of_nat (List.length c)) c w Hu Hs Hr Hz Hl Hp ltac:(lia) eq_refl) as (u' & (Hs' & Hn & Hr' & Hz' & Hb) & _ & _ & ->).
  destruct (Z.eqb_spec (Z.of_nat (List.length c)) 0); [lia|]. unfold content_part.
  rewrite (slave_get _ _ _ (put_at _ _ _ u' Hu)), bind_ret, Hb, bind_ret, Hn, Hr'. cbn [List.length].
  replace (Z.of_nat (List.length c) - Z.of_nat 0) with (Z.of_nat (List.length c)) by lia. rewrite Z.ltb_irrefl, copy_at by (cbn [List.length]; lia).
  by rewrite bind_ret, forward_short by (unfold HEADER_COOKIE_LENGTH; lia).
Qed.

(** A node that accepted a connection, and a message of one byte. *)
Definition linked_node : harbor := put (node_of 1) 2 (set_status STATUS_HEADER (set_fd 7 no_slave)).

Lemma short_message_crashes_witness :
  mainloop (fun _ => 0) linked_node PTYPE_SOCKET (ESocket (Netpack.SockMsg Netpack.SData 7 5 (Some [0; 0; 0; 1; 65]) [])) 0 0 [] = Fault OutOfBounds.
Proof.
  assert (Hu : slave_at (node_of 1) 2 no_slave) by (apply fresh_node_slave; unfold REMOTE_MAX; lia).
  apply (short_message_crashes (fun _ => 0) linked_node 2 (set_status STATUS_HEADER (set_fd 7 no_slave)) 7 [65] 0 0 []).
  - exact (put_at _ _ _ _ Hu).
  - lia.
  - reflexivity.
  - apply only_fd_put, fresh_node_only. lia.
  - apply (at_head _ [] [0; 0; 0; 0]); cbn; try reflexivity. lia.
  - cbn. unfold HEADER_COOKIE_LENGTH. lia.
Defined.

(** ** Names that are announced before their node connects *)

Section Lost.
Context (answer : log -> Z).

(** The message that waits for a name: its header has the type and no handle. *)
Definition unnamed (src type sess : Z) (msg : list Z) : harbor_msg := HMsg (Header src (type * 2^24) (u32 sess)) msg.

Lemma send_name_waits h src name type sess msg w : map_ok (map h) -> name_ok name -> names (map h) name = None -> 0 <= type < 256 -> type <> PTYPE_SOCKET /\ type <> PTYPE_HARBOR ->
  exists mp node q, mainloop answer h type (ERemote 0 name msg) src sess w
      = Ok (set_map mp h, (skynet_send answer 0 (slave_handle h) PTYPE_TEXT 0 (str "Q " ++ upto_nul name) w).2) /\
    map_ok mp /\ names mp name = Some node /\ kv_queue node = Some q /\ hq_repr q 1 [unnamed src type sess msg].
Proof.
  intros Hm Hn Hnone Ht Hty. rewrite mainloop_remote by done. change (0 =? 0) with true. cbv iota. unfold remote_send_name.
  destruct (hash_get_ok (map h) name Hm Hn) as (mp & p & node & -> & Hm1 & Hat & Hk & En & _ & Hall). rewrite bind_ret. rewrite Hnone in En. cbn in En. subst node.
  cbn [value kv_queue default from_option key hash map set_map]. change (0 =? 0) with true. cbv iota. unfold push_queue, HANDLE_REMOTE_SHIFT.
  rewrite Z.shiftl_mul_pow2 by lia. replace (u32 (type * 2^24)) with (type * 2^24) by (unfold u32; rewrite Z.mod_small; lia).
  destruct (push_queue_ok new_queue 0 [] (unnamed src type sess msg) new_hq_repr) as (q & Eq & Hq); [unfold MAX_PUSHES; lia|].
  unfold unnamed in Eq at 1. rewrite Eq, bind_ret.
  destruct (put_node_ok mp p _ (KeyValue name (name_hash name) 0 (Some q)) Hm1 Hat eq_refl eq_refl) as (mp2 & -> & Hm2 & Hall2).
  rewrite !bind_ret. change (negb (1 =? 0)) with true. cbv iota. eexists mp2, _, q. split; [done|]. split; [done|]. rewrite Hall2. cbn [key]. by rewrite decide_True.
Qed.

(** The queue of the name goes to the slave of the node it is on as it is. *)
Lemma announce_moves_queue h k name handle node q w : map_ok (map h) -> name_ok name -> names (map h) name = Some node -> kv_queue node = Some q ->
  Z.shiftr handle HANDLE_REMOTE_SHIFT = k -> fresh_slave h k -> k <> Z.shiftr (slave_handle h) HANDLE_REMOTE_SHIFT ->
  exists mp, update_name answer h name handle w = Ok (set_map mp (put h k (set_queue (Some q) no_slave)), w).
Proof.
  intros Hm Hn En Hq Hh Hu Hk. unfold update_name.
  destruct (hash_get_ok (map h) name Hm Hn) as (mp & p & node' & -> & Hm1 & Hat & _ & En' & Hsame & _). rewrite bind_ret. rewrite En in En', Hsame. cbn in En'. subst node'.
  rewrite Hsame in * by by eexists. cbn [kv_queue]. rewrite Hq. unfold dispatch_name_queue. cbn [value key]. rewrite Hh.
  change (s (set_map (map h) h)) with (s h). rewrite (slave_get _ _ _ Hu), bind_ret. change (fd no_slave =? 0) with true. change (status no_slave =? STATUS_DOWN) with false.
  cbv iota. change (queue no_slave) with (@None harbor_msg_queue). cbv iota. rewrite bind_ret. cbn [slave_handle set_map].
  destruct (Z.eqb_spec k (Z.shiftr (slave_handle h) HANDLE_REMOTE_SHIFT)); [done|]. rewrite bind_ret, (slave_set h k no_slave _ Hu), !bind_ret. cbn [release_queue]. rewrite bind_ret.
  destruct (put_node_ok (map h) p node (KeyValue (key node) (hash node) handle None) Hm Hat eq_refl eq_refl) as (mp2 & E & _). cbn [map set_slaves set_map hash].
  rewrite E, bind_ret. by exists mp2.
Qed.

(** C38.  A message to a name that is not known yet, then the announcement of the
    name on a node that is not connected yet, then the connection: the message is
    sent with the type alone where the handle of the service should be, so the other
    node gives it to no service.  Had the connection been there first, the handle
    would have been put into the header. *)
Theorem named_message_loses_handle h k name handle sock src type sess msg w src' :
  map_ok (map h) -> name_ok name -> names (map h) name = None ->
  fresh_slave h k -> 0 < k < REMOTE_MAX -> Z.shiftr handle HANDLE_REMOTE_SHIFT = k -> k <> Z.shiftr (slave_handle h) HANDLE_REMOTE_SHIFT ->
  0 < sock < 2^31 -> 0 <= src < 2^32 -> 0 <= type < 256 -> type <> PTYPE_SOCKET /\ type <> PTYPE_HARBOR -> Z.of_nat (List.length msg) + 12 < 2^24 ->
  exists h1 w1 h2 h3,
    mainloop answer h type (ERemote 0 name msg) src sess w = Ok (h1, w1) /\
    update_name answer h1 name handle w1 = Ok (h2, w1) /\
    harbor_command answer h2 (command 65 sock k) src' w1
      = Ok (h3, w1 ++ [CSocketStart sock; CSocketSend sock [u8 (id h)]; CSocketSend sock (wire (unnamed src type sess msg)); CFree msg]).
Proof.
  intros Hm Hn Hnone Hu Hk Hh Hks Hs Hsrc Ht Hty Hl.
  destruct (send_name_waits h src name type sess msg w Hm Hn Hnone Ht Hty) as (mp & node & q & E1 & Hm1 & En & Hq & Hr).
  destruct (announce_moves_queue (set_map mp h) k name handle node q (skynet_send answer 0 (slave_handle h) PTYPE_TEXT 0 (str "Q " ++ upto_nul name) w).2)
    as (mp2 & E2); try done.
  eexists _, _, _, _. split; [exact E1|]. split; [exact E2|].
  assert (Hok : msg_ok (unnamed src type sess msg)).
  { split; [|rewrite content_length; cbn [unnamed buffer]; lia]. unfold header_ok. cbn [unnamed header source destination session].
    split; [done|]. split; [lia|]. apply Z.mod_pos_bound. lia. }
  assert (Hu2 : slave_at (set_map mp2 (put (set_map mp h) k (set_queue (Some q) no_slave))) k (set_queue (Some q) no_slave)) by exact (put_at (set_map mp h) k no_slave _ Hu).
  rewrite (harbor_accept_ok answer _ k (set_queue (Some q) no_slave) sock src' _ 1 [unnamed src type sess msg] Hu2 eq_refl Hs Hk Hr); [done|by constructor].
Qed.

End Lost.

Lemma named_message_loses_handle_witness : exists h1 w1 h2 h3,
  mainloop (fun _ => 0) (node_of 1) 10 (ERemote 0 (name_of (str "DB")) [65; 66]) (2^24 + 9) 3 [] = Ok (h1, w1) /\
  update_name (fun _ => 0) h1 (name_of (str "DB")) (2 * 2^24 + 5) w1 = Ok (h2, w1) /\
  harbor_command (fun _ => 0) h2 (command 65 7 2) 4 w1
    = Ok (h3, w1 ++ [CSocketStart 7; CSocketSend 7 [1]; CSocketSend 7 [0; 0; 0; 14; 65; 66; 1; 0; 0; 9; 10; 0; 0; 0; 0; 0; 0; 3]; CFree [65; 66]]).
Proof.
  apply (named_message_loses_handle (fun _ => 0) (node_of 1) 2 (name_of (str "DB")) (2 * 2^24 + 5) 7 (2^24 + 9) 10 3 [65; 66] [] 4).
  - exact hash_new_ok.
  - apply name_of_ok; [cbn; lia|repeat constructor; cbn; lia].
  - vm_compute. reflexivity.
  - apply fresh_node_slave. unfold REMOTE_MAX. lia.
  - unfold REMOTE_MAX. lia.
  - reflexivity.
  - discriminate.
  - lia.
  - lia.
  - lia.
  - done.
  - cbn. lia.
Defined.
