(* ===== verification/HarborInv.v ===== *)
(** * The harbor never faults

    An invariant of the harbor that every event keeps: in a state that is reached
    from the start, the callback returns on every event but those of [HarborErrors]
    (data on a connection nobody has, a message shorter than its header), and a
    release returns too. *)

From S2P Require Import Prelude Mq Handle Text Server Netpack PackStream Gate Harbor HarborProofs HarborLink HarborNames.
From stdpp Require Import base numbers list gmap.
From Stdlib Require Import ZArith Lia.
From Stdlib Require String.
Import String.StringSyntax.
#[local] Open Scope Z_scope.
#[local] Open Scope list_scope.
Import Harbor.

(** ** Waiting messages *)

(** How many messages wait in a queue. *)
Definition qlen (q : option harbor_msg_queue) : Z :=
  match q with None => 0 | Some q => (tail q - head q) mod size q end.
Definition waiting (qs : list (option harbor_msg_queue)) : Z := foldr (fun q a => qlen q + a) 0 qs.

Lemma waiting_perm qs qs' : qs ≡ₚ qs' -> waiting qs = waiting qs'.
Proof. induction 1; cbn [waiting foldr]; unfold waiting in *; lia. Qed.

Lemma waiting_cons q qs : waiting (q :: qs) = qlen q + waiting qs.
Proof. done. Qed.

(** A queue of a harbor that has seen [n] messages at most. *)
Definition oq_ok (n : Z) (q : option harbor_msg_queue) : Prop :=
  match q with None => True | Some q => exists items, hq_repr q n items end.

Lemma qlen_repr q n items : hq_repr q n items -> qlen (Some q) = Z.of_nat (List.length items).
Proof.
  intros [Hs _ Hh Hr Ht _ _]. cbn [qlen]. rewrite Ht, Zminus_mod_idemp_l.
  replace (head q + Z.of_nat (List.length items) - head q) with (Z.of_nat (List.length items)) by lia. apply Z.mod_small. lia.
Qed.

Lemma qlen_pos n q : oq_ok n q -> 0 <= qlen q.
Proof. destruct q as [q|]; [|done]. intros [items Hq]. rewrite (qlen_repr _ _ _ Hq). lia. Qed.

Lemma waiting_pos n qs : Forall (oq_ok n) qs -> 0 <= waiting qs.
Proof. induction 1 as [|q qs Hq _ IH]; [done|]. rewrite waiting_cons. pose proof (qlen_pos _ _ Hq). lia. Qed.

Lemma oq_weaken n n' q : oq_ok n q -> n <= n' -> oq_ok n' q.
Proof. destruct q as [q|]; [|done]. intros [items Hq] Hn. exists items. by eapply hq_weaken. Qed.

Lemma oq_push n q m : 0 <= n -> oq_ok n q -> qlen q < n <= MAX_PUSHES ->
  exists q', push_queue_msg (default new_queue q) m = Ok q' /\ oq_ok n (Some q') /\ qlen (Some q') = qlen q + 1.
Proof.
  intros H0 Hq Hn. assert (exists items, hq_repr (default new_queue q) n items /\ qlen q = Z.of_nat (List.length items)) as (items & Hr & El).
  { destruct q as [q|]; cbn [default from_option Datatypes.id].
    - destruct Hq as [items Hq]. exists items. by rewrite (qlen_repr _ _ _ Hq).
    - exists []. split; [apply (hq_weaken new_queue 0); [apply new_hq_repr|done]|done]. }
  rewrite El in *. destruct (push_queue_room _ n items m Hr Hn) as (q' & -> & Hq'). exists q'. split; [done|]. split; [by eexists|].
  rewrite (qlen_repr _ _ _ Hq'), length_app. cbn [List.length]. lia.
Qed.

(** A loop over a queue whose body always goes on. *)
Lemma each_total {St} (body : harbor_msg -> St -> outcome St) items : (forall m st, exists st', body m st = Ok st') ->
  forall st, exists st', each body items st = Ok st'.
Proof.
  intros Hb. induction items as [|m items IH]; intros st; cbn [each]; [by exists st|]. destruct (Hb m st) as [st' ->]. rewrite bind_ret. apply IH.
Qed.

Lemma pop_all_total {St} (body : harbor_msg -> St -> outcome St) q n st : (forall m st, exists st', body m st = Ok st') -> oq_ok n (Some q) ->
  exists q' st', pop_all body q st = Ok (q', st') /\ oq_ok n (Some q').
Proof.
  intros Hb [items Hq]. destruct (pop_all_ok body q n items st Hq) as (q' & -> & Hq'). destruct (each_total body items Hb st) as [st' ->].
  rewrite bind_ret. exists q', st'. split; [done|]. by exists [].
Qed.

Lemma release_total n q w : oq_ok n q -> exists w', release_queue q w = Ok w'.
Proof.
  destruct q as [q|]; [|by exists w]. intros [items Hq]. rewrite (release_queue_ok q n items w Hq). by eexists.
Qed.

Lemma send_remote_total sock msg hd w : exists w', send_remote sock msg hd w = Ok w'.
Proof. unfold send_remote. destruct (_ <? _); by eexists. Qed.

Lemma send_free_total sock hd (m : harbor_msg) (w : log) : exists w', (w ← send_remote sock (buffer m) hd w; tell (CFree (buffer m)) w) = Ok w'.
Proof. destruct (send_remote_total sock (buffer m) hd w) as [w' ->]. rewrite bind_ret. by eexists. Qed.

(** All messages of one queue go to another. *)
Lemma move_queue n items : forall sq, oq_ok n (Some sq) -> 0 <= n -> qlen (Some sq) + Z.of_nat (List.length items) <= n <= MAX_PUSHES ->
  exists sq', each (fun m sq => push_queue_msg sq m) items sq = Ok sq' /\ oq_ok n (Some sq') /\ qlen (Some sq') = qlen (Some sq) + Z.of_nat (List.length items).
Proof.
  induction items as [|m items IH]; intros sq Hsq H0 Hn; cbn [each]; [exists sq; split; [done|]; split; [done|]; cbn [List.length]; lia|].
  cbn [List.length] in Hn. destruct (oq_push n (Some sq) m H0 Hsq ltac:(lia)) as (q1 & E & Hq1 & El). cbn [default from_option Datatypes.id] in E. rewrite E, bind_ret.
  destruct (IH q1 Hq1 H0 ltac:(lia)) as (q2 & E2 & Hq2 & El2). exists q2. split; [done|]. split; [done|]. cbn [List.length]. lia.
Qed.

(** ** The invariant *)

Abbreviation byte := (fun b => 0 <= b < 256).

Record slave_ok (n : Z) (u : slave) : Prop := {
  so_queue : oq_ok n (queue u);
  so_wait : fd u = 0 -> status u = STATUS_WAIT;
  so_idle : status u = STATUS_WAIT \/ status u = STATUS_HANDSHAKE -> read u = 0 /\ List.length (s_size u) = 4%nat;
  so_input : status u = STATUS_HEADER \/ status u = STATUS_CONTENT -> exists p, at_bytes u p /\ Forall byte p
}.

Record node_inv (n : Z) (node : keyvalue) : Prop := {
  ni_queue : oq_ok n (kv_queue node);
  ni_value : 0 <= value node < 2^32
}.

Definition total (h : harbor) : Z := waiting (queue <$> s h) + waiting (kv_queue <$> concat (map h)).

(** A harbor that has seen [n] messages at most. *)
Record harbor_inv (n : Z) (h : harbor) : Prop := {
  hi_length : List.length (s h) = 256%nat;
  hi_slaves : Forall (slave_ok n) (s h);
  hi_map : map_ok (map h);
  hi_nodes : Forall (node_inv n) (concat (map h));
  hi_total : total h <= n
}.

Lemma slave_weaken n n' u : slave_ok n u -> n <= n' -> slave_ok n' u.
Proof. intros [] Hn. split; try done. by eapply oq_weaken. Qed.

Lemma node_weaken n n' node : node_inv n node -> n <= n' -> node_inv n' node.
Proof. intros [] Hn. split; [by eapply oq_weaken|done]. Qed.

Lemma inv_weaken n n' h : harbor_inv n h -> n <= n' -> harbor_inv n' h.
Proof.
  intros [Hl Hs Hm Hno Ht] Hn. split; try done; [| |lia].
  - eapply Forall_impl; [exact Hs|]. intros u Hu. by eapply slave_weaken.
  - eapply Forall_impl; [exact Hno|]. intros x Hx. by eapply node_weaken.
Qed.

Lemma inv_slave n h k : harbor_inv n h -> 0 <= k < 256 -> exists u, slave_at h k u /\ slave_ok n u.
Proof.
  intros Hi Hk. destruct (lookup_lt_is_Some_2 (s h) (Z.to_nat k)) as [u E]; [rewrite (hi_length _ _ Hi); lia|].
  exists u. split; [by split; [lia|]|]. exact (Forall_lookup_1 _ _ _ _ (hi_slaves _ _ Hi) E).
Qed.

Lemma slaves_waiting_pos n h : harbor_inv n h -> 0 <= waiting (queue <$> s h).
Proof. intros Hi. apply (waiting_pos n), Forall_fmap. eapply Forall_impl; [apply (hi_slaves _ _ Hi)|]. by intros u []. Qed.

Lemma names_waiting_pos n h : harbor_inv n h -> 0 <= waiting (kv_queue <$> concat (map h)).
Proof. intros Hi. apply (waiting_pos n), Forall_fmap. eapply Forall_impl; [apply (hi_nodes _ _ Hi)|]. by intros u []. Qed.

(** An element of a list, and the list with another in its place. *)
Lemma insert_perm {A} (l : list A) j x : l !! j = Some x -> exists r, l ≡ₚ x :: r /\ forall y, <[j := y]> l ≡ₚ y :: r.
Proof.
  intros E. exists (take j l ++ drop (S j) l). split.
  - rewrite <- (take_drop_middle l j x E) at 1. by rewrite Permutation_middle.
  - intros y. rewrite insert_take_drop by (by eapply lookup_lt_Some). by rewrite Permutation_middle.
Qed.

Lemma waiting_put h k u u' : slave_at h k u ->
  waiting (queue <$> s (put h k u')) = waiting (queue <$> s h) - qlen (queue u) + qlen (queue u').
Proof.
  intros [_ E]. destruct (insert_perm _ _ _ E) as (r & H1 & H2). cbn [put s set_slaves].
  rewrite (waiting_perm _ _ (fmap_Permutation queue _ _ (H2 u'))), (waiting_perm _ _ (fmap_Permutation queue _ _ H1)). cbn [fmap list_fmap]. rewrite !waiting_cons. lia.
Qed.

Lemma inv_put n n' h k u u' : harbor_inv n h -> n <= n' -> slave_at h k u -> slave_ok n' u' -> total h - qlen (queue u) + qlen (queue u') <= n' ->
  harbor_inv n' (put h k u').
Proof.
  intros Hi Hn Hu Hu' Ht. apply (inv_weaken _ n') in Hi as [Hl Hs Hm Hno _]; [|done]. split; cbn [put s set_slaves map]; try done.
  - by rewrite length_insert.
  - by apply Forall_insert.
  - unfold total in *. rewrite (waiting_put _ _ _ _ Hu). change (map (put h k u')) with (map h). lia.
Qed.

(** ** Connections that are closed and opened *)

Lemma close_total n h k u u1 w : harbor_inv n h -> slave_at h k u -> queue u1 = queue u -> fd u1 <> 0 ->
  exists u' w', close_harbor (put h k u1) k w = Ok (put h k u', w') /\ status u' = STATUS_DOWN /\ queue u' = None /\ fd u' = fd u1.
Proof.
  intros Hi Hu Hq Hf. unfold close_harbor. rewrite (slave_get _ _ _ (put_at h k u u1 Hu)), bind_ret. cbn [fd set_status queue].
  destruct (Z.eqb_spec (fd u1) 0); [done|]. cbn [negb]. unfold tell. rewrite bind_ret, Hq.
  assert (Hok : oq_ok n (queue u)) by (eapply so_queue, Forall_lookup_1; [apply (hi_slaves _ _ Hi)|apply Hu]).
  destruct (release_total n (queue u) (w ++ [CSocketClose (fd u1)]) Hok) as [w' ->]. rewrite bind_ret, (slave_set _ _ _ _ (put_at h k u u1 Hu)), bind_ret, put_slaves, put_put.
  by eexists _, _.
Qed.

Lemma inv_down n h k u u' : harbor_inv n h -> slave_at h k u -> status u' = STATUS_DOWN -> queue u' = None -> fd u' <> 0 -> harbor_inv n (put h k u').
Proof.
  intros Hi Hu Hs Hq Hf. assert (Hok : oq_ok n (queue u)) by (eapply so_queue, Forall_lookup_1; [apply (hi_slaves _ _ Hi)|apply Hu]).
  apply (inv_put n n h k u); [done|lia|done| |].
  - unfold STATUS_DOWN, STATUS_WAIT, STATUS_HANDSHAKE, STATUS_HEADER, STATUS_CONTENT in *. split; rewrite ?Hq; unfold STATUS_WAIT, STATUS_HANDSHAKE, STATUS_HEADER, STATUS_CONTENT; try done; intros [H|H]; congruence.
  - rewrite Hq. cbn [qlen]. pose proof (qlen_pos _ _ Hok). pose proof (hi_total _ _ Hi). lia.
Qed.

Lemma dispatch_total n h k u w : slave_at h k u -> fd u <> 0 -> oq_ok n (queue u) ->
  exists w', dispatch_queue h k w = Ok (put h k (set_queue None u), w').
Proof.
  intros Hu Hf Hq. unfold dispatch_queue. rewrite (slave_get _ _ _ Hu), bind_ret. destruct (Z.eqb_spec (fd u) 0); [done|]. cbn [negb c_assert]. rewrite bind_ret.
  destruct (queue u) as [q|] eqn:Eq.
  - destruct (pop_all_total (fun m w => w ← send_remote (fd u) (buffer m) (header m) w; tell (CFree (buffer m)) w) q n w) as (q' & w1 & -> & Hq');
      [intros m w1; apply send_free_total|done|]. rewrite bind_ret. destruct (release_total n (Some q') w1 Hq') as [w2 ->].
    rewrite bind_ret, (slave_set _ _ _ _ Hu), bind_ret, put_slaves. by eexists.
  - exists w. do 2 f_equal. symmetry. rewrite <- (put_id h k u Hu) at 2. f_equal. unfold set_queue. rewrite <- Eq. by destruct u.
Qed.

(** ** Bytes of a connection *)

Lemma be4 a b c d : byte a -> byte b -> byte c -> byte d -> to_bigendian (a * 2^24 + b * 2^16 + c * 2^8 + d) = [a; b; c; d].
Proof.
  cbv beta. intros Ha Hb Hc Hd. rewrite to_bigendian_eq. repeat f_equal.
  - rewrite Z.mod_small; [|split; [apply Z.div_pos; lia|apply Z.div_lt_upper_bound; lia]]. symmetry. apply (Z.div_unique _ _ _ (b * 2^16 + c * 2^8 + d)); lia.
  - replace (a * 2^24 + b * 2^16 + c * 2^8 + d) with ((a * 256 + b) * 2^16 + (c * 2^8 + d)) by lia.
    rewrite Z.div_add_l, (Z.div_small (c * 2^8 + d)) by lia. rewrite Z.add_0_r, Z.add_comm, Z_mod_plus_full. apply Z.mod_small. lia.
  - replace (a * 2^24 + b * 2^16 + c * 2^8 + d) with (((a * 256 + b) * 256 + c) * 2^8 + d) by lia.
    rewrite Z.div_add_l, (Z.div_small d) by lia. rewrite Z.add_0_r, Z.add_comm, Z_mod_plus_full. apply Z.mod_small. lia.
  - replace (a * 2^24 + b * 2^16 + c * 2^8 + d) with (d + (a * 2^16 + b * 2^8 + c) * 256) by lia. rewrite Z_mod_plus_full. apply Z.mod_small. lia.
Qed.

(** Four bytes are a word. *)
Lemma harbor_word_bytes (x : list Z) : List.length x = 4%nat -> Forall byte x -> exists n, 0 <= n < 2^32 /\ to_bigendian n = x /\ (List.head x = Some 0 -> n < 2^24).
Proof.
  intros Hl Hb. destruct x as [|a [|b [|c [|d [|? ?]]]]]; try done. rewrite !Forall_cons in Hb. destruct Hb as (Ha & Hb & Hc & Hd & _).
  exists (a * 2^24 + b * 2^16 + c * 2^8 + d). split; [lia|]. split; [by apply be4|]. intros [= ->]. lia.
Qed.

(** Twelve bytes are a header, so that bytes enough are a message. *)
Lemma content_bytes (d : list Z) : Forall byte d -> (12 <= List.length d)%nat -> Z.of_nat (List.length d) < 2^24 -> exists m, msg_ok m /\ content m = d.
Proof.
  intros Hb Hl H24. set (a := (List.length d - 12)%nat). set (x := drop a d).
  assert (Hx : List.length x = 12%nat /\ Forall byte x) by (unfold x; rewrite length_drop; split; [lia|by apply Forall_drop]). destruct Hx as [Hx Hbx].
  destruct (harbor_word_bytes (take 4 x)) as (w1 & Hw1 & E1 & _); [rewrite length_take; lia|by apply Forall_take|].
  destruct (harbor_word_bytes (take 4 (drop 4 x))) as (w2 & Hw2 & E2 & _); [rewrite length_take, length_drop; lia|by apply Forall_take, Forall_drop|].
  destruct (harbor_word_bytes (drop 8 x)) as (w3 & Hw3 & E3 & _); [rewrite length_drop; lia|by apply Forall_drop|].
  assert (Ec : content (HMsg (Header w1 w2 w3) (take a d)) = d).
  { unfold content, header_to_message. cbn [buffer header source destination session]. rewrite E1, E2, E3. change (drop 8 x) with (drop (4 + 4) x). rewrite <- drop_drop, !take_drop.
    unfold x. apply take_drop. }
  eexists. split; [|exact Ec]. split; [done|]. by rewrite Ec.
Qed.

(** Wherever a message starts in the bytes, its length is that of a header at least. *)
Definition frame (d : list Z) : list Z := to_bigendian (Z.of_nat (List.length d)) ++ d.
Definition no_short (bs : list Z) : Prop := forall ds n c, bs = concat (frame <$> ds) ++ to_bigendian n ++ c ->
  Forall (fun d => Z.of_nat (List.length d) < 2^24) ds -> 0 <= n < 2^24 -> 12 <= n.

(** Bytes that are no message yet: fewer than a length, fewer than the length says, or
    a length that is too large. *)
Inductive tail_ok (t : list Z) : Prop :=
  | tail_few : (List.length t < 4)%nat -> tail_ok t
  | tail_part n d : t = to_bigendian n ++ d -> 12 <= n < 2^24 -> Z.of_nat (List.length d) < n -> Forall byte d -> tail_ok t
  | tail_long b : List.head t = Some b -> b <> 0 -> (4 <= List.length t)%nat -> tail_ok t.

Lemma harbor_split_bytes k : forall bs, (List.length bs <= k)%nat -> Forall byte bs -> no_short bs ->
  exists ms t, Forall msg_ok ms /\ bs = concat (wire <$> ms) ++ t /\ tail_ok t.
Proof.
  induction k as [|k IH]; intros bs Hk Hb Hs.
  { exists [], bs. split; [done|]. split; [done|]. apply tail_few. lia. }
  destruct (decide (List.length bs < 4)%nat) as [Hlt|Hge]; [exists [], bs; split; [done|]; split; [done|]; by apply tail_few|].
  destruct (harbor_word_bytes (take 4 bs)) as (n & Hn & En & Hsmall); [rewrite length_take; lia|by apply Forall_take|].
  assert (Ebs : bs = to_bigendian n ++ drop 4 bs) by (rewrite En; by rewrite take_drop).
  destruct (List.head bs) as [b|] eqn:Eh; [|destruct bs; cbn in *; [lia|done]].
  destruct (decide (b = 0)) as [->|Hb0]; [|exists [], bs; split; [done|]; split; [done|]; apply (tail_long bs b); [done|done|lia]].
  assert (Hn24 : n < 2^24) by (apply Hsmall; by destruct bs).
  assert (Hn12 : 12 <= n) by (apply (Hs [] n (drop 4 bs)); [done|constructor|lia]).
  destruct (decide (Z.of_nat (List.length (drop 4 bs)) < n)) as [Hpart|Hfull].
  { exists [], bs. split; [done|]. split; [done|]. apply (tail_part bs n (drop 4 bs)); [done|lia|done|by apply Forall_drop]. }
  set (d := take (Z.to_nat n) (drop 4 bs)). set (rest := drop (Z.to_nat n) (drop 4 bs)).
  assert (Hld : List.length d = Z.to_nat n) by (unfold d; rewrite length_take; lia).
  destruct (content_bytes d) as (m & Hm & Ec); [by apply Forall_take, Forall_drop|lia|lia|].
  assert (Ew : wire m = frame d) by (unfold wire, frame; by rewrite Ec).
  assert (Ef : bs = frame d ++ rest).
  { rewrite Ebs at 1. unfold frame. rewrite Hld, Z2Nat.id, <- app_assoc by lia. f_equal. unfold d, rest. by rewrite take_drop. }
  destruct (IH rest) as (ms & t & Hms & Er & Ht).
  - unfold rest. rewrite !length_drop. lia.
  - by apply Forall_drop, Forall_drop.
  - intros ds n' c E Hds Hn'. apply (Hs (d :: ds) n' c); [|by constructor; [lia|]|done]. cbn [fmap list_fmap concat]. rewrite Ef at 1. by rewrite E, <- app_assoc.
  - exists (m :: ms), t. split; [by constructor|]. split; [|done]. cbn [fmap list_fmap concat]. rewrite Ew, <- app_assoc. rewrite <- Er. exact Ef.
Qed.

Lemma tail_partial n d : 12 <= n < 2^24 -> Z.of_nat (List.length d) < n -> Forall byte d -> partial (to_bigendian n ++ d).
Proof.
  intros Hn Hd Hb. set (z := replicate (Z.to_nat n - List.length d) 0).
  assert (Hl : Z.of_nat (List.length (d ++ z)) = n) by (unfold z; rewrite length_app, length_replicate; lia).
  destruct (content_bytes (d ++ z)) as (m & Hm & Ec); [|lia|lia|].
  { apply Forall_app. split; [done|]. apply Forall_replicate. lia. }
  exists m, z. split; [done|]. split.
  - unfold wire. by rewrite Ec, Hl, <- app_assoc.
  - unfold z. destruct (Z.to_nat n - List.length d)%nat eqn:E; [lia|done].
Qed.

Section Events.
Context (answer : log -> Z).

(** What a slave may be after bytes: further on in its input, or closed. *)
Definition after (u u' : slave) (t : list Z) : Prop :=
  fd u' = fd u /\ ((at_bytes u' t /\ queue u' = queue u) \/ (status u' = STATUS_DOWN /\ queue u' = None)).

Lemma header_long n h k u0 u p junk bs b w : harbor_inv n h -> slave_at h k u0 -> queue u = queue u0 -> fd u <> 0 ->
  read u = Z.of_nat (List.length p) -> s_size u = p ++ junk -> List.length (p ++ junk) = 4%nat -> (List.length p < 4)%nat ->
  List.head (p ++ bs) = Some b -> b <> 0 -> (4 <= List.length (p ++ bs))%nat ->
  exists u' w', header_part answer (put h k u) k bs (Z.of_nat (List.length bs)) w = Ok (put h k u', w', None) /\ fd u' = fd u /\ status u' = STATUS_DOWN /\ queue u' = None.
Proof.
  intros Hi Hu Hq Hf Hr Hz Hl Hp Hb Hb0 Hlen. unfold header_part. pose proof (put_at h k u0 u Hu) as Hu1. rewrite (slave_get _ _ _ Hu1), bind_ret, Hr, Hz.
  rewrite length_app in Hlen, Hl. set (need := 4 - Z.of_nat (List.length p)). destruct (Z.ltb_spec (Z.of_nat (List.length bs)) need); [lia|].
  pose proof (mem_read_ok [] (take (Z.to_nat need) bs) (drop (Z.to_nat need) bs)) as Em. cbn [app List.length] in Em.
  rewrite take_drop, length_take_le, Z2Nat.id in Em by lia. change (Z.of_nat 0) with 0 in Em. rewrite Em, bind_ret.
  pose proof (mem_write_ok p junk [] (take (Z.to_nat need) bs)) as Ew. rewrite !app_nil_r in Ew. rewrite Ew, bind_ret by (rewrite length_take; lia).
  assert (E0 : (p ++ take (Z.to_nat need) bs) !! 0%nat = Some b).
  { destruct p as [|x p]; [|done]. destruct bs as [|x bs]; [done|]. cbn [List.length] in need. by replace (Z.to_nat need) with 4%nat by lia. }
  rewrite (arr_get_ok _ 0 b), bind_ret by (lia || done). destruct (Z.eqb_spec b 0); [done|]. cbn [negb].
  rewrite (slave_set _ _ _ _ Hu1), bind_ret, put_slaves, put_put. unfold tell. rewrite bind_ret.
  edestruct (close_total n h k u0) as (u' & w' & -> & Hs' & Hq' & Hf'); [done|done| | |].
  3:{ rewrite bind_ret. exists u', w'. split; [done|]. split; [|done]. rewrite Hf'. done. }
  - exact Hq.
  - exact Hf.
Qed.

Lemma data_tail n h k u0 u p bs t w fuel sock : harbor_inv n h -> slave_at h k u0 -> queue u = queue u0 -> fd u <> 0 ->
  at_bytes u p -> p ++ bs = t -> tail_ok t -> (0 < fuel)%nat ->
  exists u' w', data_loop answer fuel (put h k u) k sock bs (Z.of_nat (List.length bs)) w = Ok (put h k u', w') /\ after u u' t.
Proof.
  intros Hi Hu Hq Hf Hat E Ht Hfuel. pose proof (put_at h k u0 u Hu) as Hu1. destruct Ht as [Hfew|n' d Et Hn Hd Hb|b Hh Hb0 Hl].
  - destruct fuel as [|fuel]; [lia|]. cbn [data_loop]. rewrite (slave_get _ _ _ Hu1), bind_ret. rewrite <- E, length_app in Hfew.
    destruct Hat as [p junk Hs Hr Hz Hl Hp|x d _ _ _ _ _ _ _]; [|rewrite length_app in Hfew; cbn [to_bigendian List.length] in Hfew; lia].
    rewrite Hs. change (STATUS_HEADER =? STATUS_HANDSHAKE) with false. change (STATUS_HEADER =? STATUS_HEADER) with true. cbv iota.
    destruct (header_more answer (put h k u) k u p junk bs w) as (u' & -> & Hat' & Hf' & Hq'); try done. rewrite bind_ret, put_put.
    exists u', w. split; [done|]. split; [done|]. left. by rewrite <- E.
  - destruct (data_wait answer (put h k u) k sock u p bs t w fuel) as (u' & -> & Hat' & Hf' & Hq'); try done; [rewrite Et; by apply tail_partial|].
    rewrite put_put. exists u', w. split; [done|]. split; [done|]. by left.
  - destruct fuel as [|fuel]; [lia|]. cbn [data_loop]. rewrite (slave_get _ _ _ Hu1), bind_ret.
    destruct Hat as [p junk Hs Hr Hz Hlj Hp|x d _ _ _ _ Hx _ _].
    + rewrite Hs. change (STATUS_HEADER =? STATUS_HANDSHAKE) with false. change (STATUS_HEADER =? STATUS_HEADER) with true. cbv iota. subst t.
      destruct (header_long n h k u0 u p junk bs b w) as (u' & w' & -> & Hf' & Hs' & Hq'); try done. rewrite bind_ret. exists u', w'. split; [done|]. split; [done|]. by right.
    + exfalso. destruct (length_bytes x Hx) as (b1 & b2 & b3 & Eb & _). rewrite Eb in E. subst t. cbn in Hh. congruence.
Qed.

Lemma data_any n h k sock ms : forall fuel u0 u p bs t w, harbor_inv n h -> slave_at h k u0 -> queue u = queue u0 -> fd u <> 0 ->
  at_bytes u p -> Forall msg_ok ms -> p ++ bs = concat (wire <$> ms) ++ t -> tail_ok t -> (List.length ms < fuel)%nat ->
  exists u' w', data_loop answer fuel (put h k u) k sock bs (Z.of_nat (List.length bs)) w = Ok (put h k u', w') /\ after u u' t.
Proof.
  induction ms as [|m ms IH]; intros fuel u0 u p bs t w Hi Hu Hq Hf Hat Hms E Ht Hfuel.
  - cbn [fmap list_fmap concat app] in E. by eapply data_tail.
  - apply Forall_cons in Hms as [Hm Hms]. cbn [fmap list_fmap concat] in E. rewrite <- app_assoc in E. destruct fuel as [|fuel]; [lia|]. cbn [List.length] in Hfuel.
    destruct (data_first answer (put h k u) k sock u p bs m _ w fuel (put_at h k u0 u Hu) Hat Hm E) as (u1 & -> & Hat1 & Hf1 & Hq1). rewrite put_put.
    destruct (Z.eqb_spec (Z.of_nat (List.length (concat (wire <$> ms) ++ t))) 0) as [E0|E0].
    + rewrite length_app in E0. assert (t = []) as -> by (apply nil_length_inv; lia). eexists _, _. split; [done|]. split; [done|]. by left.
    + destruct (IH fuel u0 u1 [] (concat (wire <$> ms) ++ t) t (deliver answer (id (put h k u)) m w)) as (u2 & w2 & -> & Hf2 & Hd2); try done; try congruence; [lia|].
      eexists _, _. split; [done|]. split; [congruence|]. rewrite <- Hq1. done.
Qed.

(** ** Data *)

Lemma inv_after n h k u u' t : harbor_inv n h -> slave_at h k u -> fd u <> 0 -> after u u' t -> Forall byte t -> harbor_inv n (put h k u').
Proof.
  intros Hi Hu Hf [Hf' [[Hat Hq]|[Hs Hq]]] Ht; [|apply (inv_down n h k u); congruence].
  assert (Hok : slave_ok n u) by (eapply Forall_lookup_1; [apply (hi_slaves _ _ Hi)|apply Hu]).
  apply (inv_put n n h k u); [done|lia|done| |rewrite Hq; pose proof (hi_total _ _ Hi); lia].
  assert (Hst : status u' = STATUS_HEADER \/ status u' = STATUS_CONTENT) by (inversion Hat; auto).
  split; [rewrite Hq; apply Hok|congruence| |by intros _; exists t].
  unfold STATUS_HEADER, STATUS_CONTENT, STATUS_WAIT, STATUS_HANDSHAKE in *. intros [H|H]; destruct Hst; congruence.
Qed.

Lemma stream_total n h k sock u p bs w : harbor_inv n h -> slave_at h k u -> fd u <> 0 -> at_bytes u p -> Forall byte (p ++ bs) -> no_short (p ++ bs) ->
  forall fuel, (List.length bs < fuel)%nat ->
  exists h' w', data_loop answer fuel h k sock bs (Z.of_nat (List.length bs)) w = Ok (h', w') /\ harbor_inv n h'.
Proof.
  intros Hi Hu Hf Hat Hb Hs fuel Hfuel. destruct (harbor_split_bytes _ (p ++ bs) (le_n _) Hb Hs) as (ms & t & Hms & E & Ht).
  assert (Hc : (List.length ms <= List.length bs)%nat) by (by eapply messages_bound).
  destruct (data_any n h k sock ms fuel u u p bs t w) as (u' & w' & Ed & Ha); try done; [lia|]. rewrite (put_id h k u Hu) in Ed.
  exists (put h k u'), w'. split; [done|]. eapply inv_after; try done. rewrite E in Hb. by apply Forall_app in Hb as [_ ?].
Qed.

(** The id of the other side, and what may follow it. *)
Lemma shake_total n h k sock u b bs w : harbor_inv n h -> slave_at h k u -> status u = STATUS_HANDSHAKE -> Forall byte bs -> no_short bs ->
  forall fuel, (S (List.length bs) < fuel)%nat ->
  exists h' w', data_loop answer fuel h k sock (b :: bs) (Z.of_nat (S (List.length bs))) w = Ok (h', w') /\ harbor_inv n h'.
Proof.
  intros Hi Hu Hst Hb Hs fuel Hfuel. destruct fuel as [|fuel]; [lia|]. cbn [data_loop]. rewrite (slave_get _ _ _ Hu), bind_ret, Hst, Z.eqb_refl. unfold handshake_part.
  assert (Hok : slave_ok n u) by (eapply Forall_lookup_1; [apply (hi_slaves _ _ Hi)|apply Hu]).
  assert (Hf : fd u <> 0) by (intros Hf; apply (so_wait _ _ Hok) in Hf; unfold STATUS_WAIT, STATUS_HANDSHAKE in *; congruence).
  rewrite (arr_get_ok _ 0 b), bind_ret by (lia || done). destruct (Z.eqb_spec b k) as [->|Hne]; cbn [negb].
  - cbn [drop]. rewrite drop_0, (slave_get _ _ _ Hu), bind_ret, (slave_set h k u _ Hu), bind_ret, put_slaves. set (u1 := set_status STATUS_HEADER u).
    pose proof (put_at h k u u1 Hu) as Hu1. destruct (dispatch_total n (put h k u1) k u1 w Hu1 Hf (so_queue _ _ Hok)) as [w1 ->].
    rewrite bind_ret, put_put. set (u2 := set_queue None u1). destruct (so_idle _ _ Hok (or_intror Hst)) as [Hr Hz].
    assert (Hat : at_bytes u2 []) by (apply (at_head u2 [] (s_size u)); cbn; try done; lia).
    assert (Hi2 : harbor_inv n (put h k u2)).
    { apply (inv_put n n h k u); [done|lia|done| |cbn [queue u2 set_queue qlen]; pose proof (qlen_pos _ _ (so_queue _ _ Hok)); pose proof (hi_total _ _ Hi); lia].
      split; [done|done|cbn; intros []; done|]. intros _. by exists []. }
    pose proof (put_at h k u u2 Hu) as Hu2. replace (Z.of_nat (S (List.length bs)) - 1) with (Z.of_nat (List.length bs)) by lia.
    destruct (Z.eqb_spec (Z.of_nat (List.length bs)) 0) as [E0|E0].
    + rewrite bind_ret. apply (stream_total n (put h k u2) k sock u2 [] bs); try done. lia.
    + destruct (stream_total n (put h k u2) k sock u2 [] bs w1 Hi2 Hu2 Hf Hat Hb Hs (S fuel)) as (h' & w' & E1 & Hi'); [lia|].
      cbn [data_loop] in E1. rewrite (slave_get _ _ _ Hu2), bind_ret in E1.
      change (status u2 =? STATUS_HANDSHAKE) with false in E1. change (status u2 =? STATUS_HEADER) with true in E1. cbv iota in E1. by exists h', w'.
  - unfold tell. rewrite bind_ret. destruct (close_total n h k u u (w ++ [CError (str "Invalid shakehand id (" ++ fmt_d k ++ str ") from fd = " ++ fmt_d sock ++ str " , harbor = " ++ fmt_d b)]))
      as (u' & w' & E & Hs' & Hq' & Hf'); [done|done|done|done|]. rewrite (put_id h k u Hu) in E. rewrite E, !bind_ret. exists (put h k u'), w'. split; [done|].
    apply (inv_down n h k u); congruence.
Qed.

Lemma find_fd_inv sock sl : forall i, find_fd sock i sl <> 0 -> exists j u, find_fd sock i sl = i + Z.of_nat j /\ sl !! j = Some u /\ fd u = sock.
Proof.
  induction sl as [|v sl IH]; intros i H; [done|]. cbn [find_fd] in *. destruct (Z.eqb_spec (fd v) sock) as [E|E].
  - exists 0%nat, v. split; [lia|done].
  - destruct (IH _ H) as (j & u & Ej & Hj & Hu). exists (S j), u. split; [lia|done].
Qed.

Lemma harbor_id_inv n h sock : harbor_inv n h -> harbor_id h sock <> 0 -> exists u, slave_at h (harbor_id h sock) u /\ slave_ok n u.
Proof.
  intros Hi H. unfold harbor_id in *. destruct (find_fd_inv _ _ _ H) as (j & u & -> & Hj & _). apply inv_slave; [done|].
  apply lookup_lt_Some in Hj. pose proof (hi_length _ _ Hi) as Hl. destruct (s h); cbn in *; lia.
Qed.

(** Data on a connection the harbor has, in which no message is too short. *)
Definition data_ok (h : harbor) (sock : Z) (bs : list Z) : Prop :=
  bs <> [] /\ Forall byte bs /\ harbor_id h sock <> 0 /\
  forall u, s h !! Z.to_nat (harbor_id h sock) = Some u ->
    (status u = STATUS_HANDSHAKE -> no_short (List.tail bs)) /\ (forall p, at_bytes u p -> no_short (p ++ bs)).

Lemma data_total n h sock bs addr src sess w : harbor_inv n h -> data_ok h sock bs ->
  exists h' w', mainloop answer h PTYPE_SOCKET (ESocket (Netpack.SockMsg Netpack.SData sock (Z.of_nat (List.length bs)) (Some bs) addr)) src sess w = Ok (h', w') /\ harbor_inv n h'.
Proof.
  intros Hi (Hne & Hb & Hk & Hd). rewrite mainloop_socket. cbn [Netpack.s_type Netpack.s_buffer]. rewrite bind_ret. unfold push_socket_data. cbn [Netpack.s_id Netpack.s_ud].
  destruct (Z.eqb_spec (harbor_id h sock) 0); [done|]. rewrite Nat2Z.id. destruct (harbor_id_inv n h sock Hi Hk) as (u & Hu & Hok).
  destruct (Hd u (proj2 Hu)) as [Hsh Hst]. set (k := harbor_id h sock) in *.
  assert (exists h' w', data_loop answer (S (S (List.length bs))) h k sock bs (Z.of_nat (List.length bs)) w = Ok (h', w') /\ harbor_inv n h') as (h' & w' & -> & Hi').
  { destruct (decide (status u = STATUS_HANDSHAKE)) as [E|E].
    - destruct bs as [|b bs]; [done|]. cbn [List.length]. apply (shake_total n h k sock u); try done; [|by apply Hsh|lia]. by apply Forall_cons in Hb as [_ ?].
    - destruct (decide (status u = STATUS_HEADER \/ status u = STATUS_CONTENT)) as [E'|E'].
      + destruct (so_input _ _ Hok E') as (p & Hat & Hbp). apply (stream_total n h k sock u p); try done; [|by apply Forall_app|by apply Hst|lia].
        intros Hf. apply (so_wait _ _ Hok) in Hf. unfold STATUS_WAIT, STATUS_HEADER, STATUS_CONTENT in *. destruct E'; congruence.
      + cbn [data_loop]. rewrite (slave_get _ _ _ Hu), bind_ret. destruct (Z.eqb_spec (status u) STATUS_HANDSHAKE); [done|].
        destruct (Z.eqb_spec (status u) STATUS_HEADER); [tauto|]. destruct (Z.eqb_spec (status u) STATUS_CONTENT); [tauto|]. rewrite bind_ret. by exists h, w. }
  rewrite !bind_ret. by exists h', w'.
Qed.

(** ** Names *)

Lemma concat_insert {A} (ll : list (list A)) b c : ll !! b = Some c -> exists r, concat ll ≡ₚ c ++ r /\ forall c', concat (<[b := c']> ll) ≡ₚ c' ++ r.
Proof.
  intros E. exists (concat (take b ll) ++ concat (drop (S b) ll)). split.
  - rewrite <- (take_drop_middle ll b c E) at 1. rewrite concat_app. cbn [concat]. rewrite !app_assoc. apply Permutation_app_tail, Permutation_app_comm.
  - intros c'. rewrite insert_take_drop by (by eapply lookup_lt_Some). rewrite concat_app. cbn [concat]. rewrite !app_assoc. apply Permutation_app_tail, Permutation_app_comm.
Qed.

(** [node_at] picks a node out of the table, [put_node] puts another there. *)
Lemma node_perm mp p node : node_at mp p node -> exists r, concat mp ≡ₚ node :: r /\
  forall node' mp', put_node mp p node' = Ok mp' -> concat mp' ≡ₚ node' :: r.
Proof.
  intros (H0 & chain & E & Ej). destruct (concat_insert mp _ chain E) as (r1 & H1 & H2). destruct (insert_perm chain _ node Ej) as (r2 & H3 & H4).
  exists (r2 ++ r1). split; [by rewrite H1, H3|]. intros node' mp'. unfold put_node. rewrite (arr_get_ok _ _ _ H0 E), bind_ret.
  pose proof (lookup_lt_Some _ _ _ Ej). pose proof (lookup_lt_Some _ _ _ E). rewrite arr_set_ok by lia. rewrite bind_ret, arr_set_ok, Nat2Z.id by lia.
  intros [= <-]. by rewrite H2, H4.
Qed.

Lemma hash_get_perm mp name mp' p node : hash_get mp name = Ok (mp', p, node) ->
  mp' = mp \/ (concat mp' ≡ₚ node :: concat mp /\ kv_queue node = None /\ value node = 0).
Proof.
  unfold hash_get. intros E. apply bind_Ok in E as (r & _ & E). destruct r as [[p' node']|]; [injection E as <- _ _; by left|]. right.
  unfold hash_insert in E. apply bind_Ok in E as (hv & _ & E). apply bind_Ok in E as (chain & Eg & E). apply bind_Ok in E as (kk & _ & E). cbv zeta in E.
  apply bind_Ok in E as (mp2 & Es & E). injection E as <- _ <-. apply arr_get_inv in Eg as [Hr Eg].
  rewrite arr_set_ok in Es by (apply lookup_lt_Some in Eg; lia). injection Es as <-.
  destruct (concat_insert mp _ chain Eg) as (r & H1 & H2). split; [|done]. by rewrite H2, H1.
Qed.

Lemma total_map h mp : total (set_map mp h) = waiting (queue <$> s h) + waiting (kv_queue <$> concat mp).
Proof. done. Qed.

Lemma inv_map n n' h mp : harbor_inv n h -> n <= n' -> map_ok mp -> Forall (node_inv n') (concat mp) -> total (set_map mp h) <= n' -> harbor_inv n' (set_map mp h).
Proof. intros Hi Hn Hm Hno Ht. apply (inv_weaken _ n') in Hi as [Hl Hs _ _ _]; [|done]. by split. Qed.

Lemma inv_get n h name : harbor_inv n h -> 0 <= n -> name_ok name ->
  exists mp p node, hash_get (map h) name = Ok (mp, p, node) /\ harbor_inv n (set_map mp h) /\ node_at mp p node /\ node_inv n node /\ total (set_map mp h) = total h.
Proof.
  intros Hi H0 Hn. destruct (hash_get_ok (map h) name (hi_map _ _ Hi) Hn) as (mp & p & node & E & Hm & Hat & _). exists mp, p, node. split; [done|].
  assert (Hno : Forall (node_inv n) (concat mp) /\ total (set_map mp h) = total h).
  { destruct (hash_get_perm _ _ _ _ _ E) as [->|(Hp & Hq & Hv)]; [split; [apply (hi_nodes _ _ Hi)|done]|]. split.
    - rewrite Hp. constructor; [split; [by rewrite Hq|lia]|apply (hi_nodes _ _ Hi)].
    - rewrite total_map, (waiting_perm _ _ (fmap_Permutation kv_queue _ _ Hp)). cbn [fmap list_fmap]. rewrite waiting_cons, Hq. done. }
  destruct Hno as [Hno Ht]. split; [apply (inv_map n); try done; [rewrite Ht; apply (hi_total _ _ Hi)]|]. split; [done|]. split; [|done].
  destruct (node_perm mp p node Hat) as (r & Hp & _). rewrite Hp in Hno. by apply Forall_cons in Hno as [? _].
Qed.

Lemma inv_put_node n n' h p node node' : harbor_inv n h -> n <= n' -> node_at (map h) p node -> key node' = key node -> hash node' = hash node ->
  node_inv n' node' -> total h - qlen (kv_queue node) + qlen (kv_queue node') <= n' ->
  exists mp, put_node (map h) p node' = Ok mp /\ harbor_inv n' (set_map mp h) /\ total (set_map mp h) = total h - qlen (kv_queue node) + qlen (kv_queue node').
Proof.
  intros Hi Hn Hat Hk Hh Hno Ht. destruct (put_node_ok (map h) p node node' (hi_map _ _ Hi) Hat Hk Hh) as (mp & E & Hm & _). exists mp. split; [done|].
  destruct (node_perm _ _ _ Hat) as (r & H1 & H2). specialize (H2 _ _ E).
  assert (Et : total (set_map mp h) = total h - qlen (kv_queue node) + qlen (kv_queue node')).
  { rewrite total_map. unfold total. rewrite (waiting_perm _ _ (fmap_Permutation kv_queue _ _ H1)), (waiting_perm _ _ (fmap_Permutation kv_queue _ _ H2)).
    cbn [fmap list_fmap]. rewrite !waiting_cons. lia. }
  split; [|done]. apply (inv_map n); try done; [|lia]. rewrite H2. pose proof (hi_nodes _ _ Hi) as Hall. rewrite H1 in Hall. apply Forall_cons in Hall as [_ Hall].
  constructor; [done|]. eapply Forall_impl; [exact Hall|]. intros x Hx. by eapply node_weaken.
Qed.

Lemma qlen_slave n h k u : harbor_inv n h -> slave_at h k u -> qlen (queue u) + waiting (kv_queue <$> concat (map h)) <= n.
Proof.
  intros Hi [_ E]. pose proof (hi_total _ _ Hi) as Ht. unfold total in Ht. destruct (insert_perm _ _ _ E) as (r & H1 & _).
  rewrite (waiting_perm _ _ (fmap_Permutation queue _ _ H1)) in Ht. cbn [fmap list_fmap] in Ht. rewrite waiting_cons in Ht.
  assert (0 <= waiting (queue <$> r)); [|lia]. apply (waiting_pos n), Forall_fmap. pose proof (hi_slaves _ _ Hi) as Hs. rewrite H1 in Hs. apply Forall_cons in Hs as [_ Hs].
  eapply Forall_impl; [exact Hs|]. by intros v [].
Qed.

Lemma qlen_node n h p node : harbor_inv n h -> node_at (map h) p node -> qlen (kv_queue node) <= waiting (kv_queue <$> concat (map h)).
Proof.
  intros Hi Hat. destruct (node_perm _ _ _ Hat) as (r & H1 & _). rewrite (waiting_perm _ _ (fmap_Permutation kv_queue _ _ H1)). cbn [fmap list_fmap]. rewrite waiting_cons.
  assert (0 <= waiting (kv_queue <$> r)); [|lia]. apply (waiting_pos n), Forall_fmap. pose proof (hi_nodes _ _ Hi) as Hs. rewrite H1 in Hs. apply Forall_cons in Hs as [_ Hs].
  eapply Forall_impl; [exact Hs|]. by intros v [].
Qed.

(** ** Sending *)

Lemma at_bytes_queue u q p : at_bytes u p -> at_bytes (set_queue q u) p.
Proof. intros [? junk|? ?]; [by apply (at_head _ _ junk)|by apply at_body]. Qed.

Lemma slave_requeue n n' u q : slave_ok n u -> oq_ok n' q -> slave_ok n' (set_queue q u).
Proof.
  intros [_ Hw Hid Hin] Hq. split; [done|done|done|]. intros H. destruct (Hin H) as (p & Hat & Hb). exists p. split; [by apply at_bytes_queue|done].
Qed.

Lemma handle_harbor dest : 0 <= dest < 2^32 -> 0 <= Z.shiftr dest HANDLE_REMOTE_SHIFT < 256.
Proof.
  intros H. unfold HANDLE_REMOTE_SHIFT. rewrite Z.shiftr_div_pow2 by lia. split; [apply Z.div_pos; lia|apply Z.div_lt_upper_bound; lia].
Qed.

Lemma send_handle_total n h src dest type sess msg w : harbor_inv n h -> 0 <= n < MAX_PUSHES -> 0 <= dest < 2^32 ->
  exists r h' w', remote_send_handle answer h src dest type sess msg w = Ok (r, h', w') /\ harbor_inv (n + 1) h'.
Proof.
  intros Hi Hn Hd. assert (Hi1 : harbor_inv (n + 1) h) by (apply (inv_weaken n); [done|lia]). unfold remote_send_handle. cbv zeta.
  destruct (_ =? id h); [by eexists _, _, _|]. destruct (inv_slave n h _ Hi (handle_harbor dest Hd)) as (u & Hu & Hok). rewrite (slave_get _ _ _ Hu), bind_ret.
  destruct (_ || _).
  - destruct (status u =? STATUS_DOWN); [unfold tell; rewrite bind_ret; by eexists _, _, _|].
    pose proof (qlen_slave n h _ u Hi Hu) as Hl. pose proof (names_waiting_pos n h Hi). unfold push_queue. set (m := HMsg _ msg).
    destruct (oq_push (n + 1) (queue u) m) as (q & -> & Hq & El); [lia|apply (oq_weaken n); [apply Hok|lia]|lia|].
    rewrite bind_ret, (slave_set _ _ _ _ Hu), bind_ret, put_slaves. eexists _, _, _. split; [done|]. apply (inv_put n (n + 1) h _ u); [done|lia|done|by eapply slave_requeue|].
    cbn [queue set_queue]. rewrite El. pose proof (hi_total _ _ Hi). lia.
  - destruct (send_remote_total (fd u) msg (Header src (u32 (Z.lor (Z.land dest HANDLE_MASK) (Z.shiftl type HANDLE_REMOTE_SHIFT))) (u32 sess)) w) as [w' ->].
    rewrite bind_ret. by eexists _, _, _.
Qed.

Lemma send_name_total n h src name type sess msg w : harbor_inv n h -> 0 <= n < MAX_PUSHES -> name_ok name ->
  exists r h' w', remote_send_name answer h src name type sess msg w = Ok (r, h', w') /\ harbor_inv (n + 1) h'.
Proof.
  intros Hi Hn Hname. unfold remote_send_name. destruct (inv_get n h name Hi (proj1 Hn) Hname) as (mp & p & node & -> & Hi1 & Hat & [Hq Hv] & Ht). rewrite bind_ret. cbv zeta.
  destruct (value node =? 0); [|by apply send_handle_total]. unfold push_queue. set (m := HMsg _ msg). pose proof (qlen_node n (set_map mp h) p node Hi1 Hat) as Hl.
  pose proof (slaves_waiting_pos n _ Hi1) as Hp. pose proof (hi_total _ _ Hi1) as Ht1. unfold total in Ht1.
  destruct (oq_push (n + 1) (kv_queue node) m) as (q & -> & Hq' & El); [lia|apply (oq_weaken n); [done|lia]|lia|]. rewrite bind_ret.
  destruct (inv_put_node n (n + 1) (set_map mp h) p node (KeyValue (key node) (hash node) (value node) (Some q))) as (mp2 & -> & Hi2 & _); [done|lia|done|done|done|by split| |].
  - cbn [kv_queue]. rewrite El. fold (total (set_map mp h)) in Ht1. lia.
  - rewrite bind_ret. by eexists _, _, _.
Qed.

(** ** Announcements *)

(** The messages that waited for a name are dropped, sent, or go to the slave. *)
Lemma dispatch_name_total n h node q k u w : harbor_inv n h -> slave_at h k u -> Z.shiftr (value node) HANDLE_REMOTE_SHIFT = k -> oq_ok n (Some q) ->
  0 <= n <= MAX_PUSHES -> qlen (queue u) + qlen (Some q) <= n ->
  exists sq nq w', dispatch_name_queue answer h node q w = Ok (put h k (set_queue sq u), nq, w') /\ oq_ok n sq /\ oq_ok n nq /\ qlen sq <= qlen (queue u) + qlen (Some q).
Proof.
  intros Hi Hu Hk Hq Hn Hl. unfold dispatch_name_queue. cbv zeta. rewrite Hk, (slave_get _ _ _ Hu), bind_ret.
  assert (Hok : oq_ok n (queue u)) by (eapply so_queue, Forall_lookup_1; [apply (hi_slaves _ _ Hi)|apply Hu]).
  assert (Eid : put h k (set_queue (queue u) u) = h) by (rewrite <- (put_id h k u Hu) at 2; f_equal; by destruct u). pose proof (qlen_pos _ _ Hq).
  destruct (fd u =? 0).
  - destruct (status u =? STATUS_DOWN); [unfold tell; rewrite bind_ret; exists (queue u); rewrite Eid; eexists _, _; split; [done|]; split; [done|]; split; [done|lia]|].
    match goal with |- context [mbind _ ?x] => assert (exists sq nq, x = Ok (sq, nq) /\ oq_ok n (Some sq) /\ oq_ok n nq /\ qlen (Some sq) <= qlen (queue u) + qlen (Some q)) as (sq & nq & -> & Hsq & Hnq & Hlq) end.
    { destruct (queue u) as [sq|]; [|exists q, None; split; [done|]; split; [done|]; split; [done|]; cbn [qlen] in *; lia].
      destruct Hq as [items Hq]. rewrite (qlen_repr _ _ _ Hq) in Hl |- *. destruct (pop_all_ok (fun m sq => push_queue_msg sq m) q n items sq Hq) as (q' & -> & Hq').
      destruct (move_queue n items sq Hok (proj1 Hn) ltac:(lia)) as (sq' & -> & Hsq' & El). rewrite !bind_ret. exists sq', (Some q'). split; [done|]. split; [done|].
      split; [by exists []|lia]. }
    rewrite bind_ret.
    match goal with |- context [mbind _ ?x] => assert (exists sq' w', x = Ok (sq', w') /\ oq_ok n sq' /\ qlen sq' <= qlen (Some sq)) as (sq' & w' & -> & Hsq' & Hl') end.
    { destruct (k =? _); [|exists (Some sq), w; split; [done|]; split; [done|lia]].
      match goal with |- context [pop_all ?b sq w] => destruct (pop_all_total b sq n w) as (q' & w1 & -> & Hq') end; [intros m w1; by eexists|done|].
      rewrite bind_ret. destruct (release_total n (Some q') w1 Hq') as [w2 ->]. rewrite bind_ret. exists None, w2. split; [done|]. split; [done|]. pose proof (qlen_pos _ _ Hsq). done. }
    rewrite bind_ret, (slave_set _ _ _ _ Hu), bind_ret, put_slaves. eexists _, _, _. split; [done|]. split; [done|]. split; [done|lia].
  - match goal with |- context [pop_all ?b q w] => destruct (pop_all_total b q n w) as (q' & w1 & -> & Hq') end; [intros m w1; cbv beta zeta; apply send_free_total|done|].
    rewrite bind_ret. exists (queue u). rewrite Eid. eexists _, _. split; [done|]. split; [done|]. split; [done|lia].
Qed.

Lemma update_name_total n h name handle w : harbor_inv n h -> 0 <= n <= MAX_PUSHES -> name_ok name -> 0 <= handle < 2^32 ->
  exists h' w', update_name answer h name handle w = Ok (h', w') /\ harbor_inv n h'.
Proof.
  intros Hi Hn Hname Hh. unfold update_name. destruct (inv_get n h name Hi (proj1 Hn) Hname) as (mp & p & node & -> & Hi1 & Hat & [Hq Hv] & Ht). rewrite bind_ret. cbv zeta.
  set (h1 := set_map mp h) in *. cbn [kv_queue]. pose proof (hi_total _ _ Hi1) as Ht1. pose proof (qlen_pos _ _ Hq) as Hpos.
  set (node' := KeyValue (key node) (hash node) handle None).
  destruct (inv_put_node n n h1 p node node') as (mp2 & E2 & Hi2 & Et2); [done|lia|done|done|done|by split|cbn [kv_queue node' qlen]; lia|]. cbn [kv_queue node' qlen] in Et2.
  destruct (kv_queue node) as [q|] eqn:Eq.
  - set (k := Z.shiftr handle HANDLE_REMOTE_SHIFT). destruct (inv_slave n h1 k Hi1 (handle_harbor handle Hh)) as (u & Hu & Hok).
    pose proof (qlen_slave n h1 k u Hi1 Hu). pose proof (qlen_node n h1 p node Hi1 Hat) as Hln. rewrite Eq in Hln.
    destruct (dispatch_name_total n h1 (KeyValue (key node) (hash node) handle (Some q)) q k u w) as (sq & nq & w1 & -> & Hsq & Hnq & Hlq); try done; [lia|].
    rewrite bind_ret. destruct (release_total n nq w1 Hnq) as [w2 ->]. rewrite bind_ret. change (map (put h1 k (set_queue sq u))) with (map h1). cbn [key hash]. fold node'. rewrite E2, bind_ret.
    eexists _, _. split; [done|]. change (set_map mp2 (put h1 k (set_queue sq u))) with (put (set_map mp2 h1) k (set_queue sq u)).
    apply (inv_put n n _ _ u); [done|lia|done|by eapply slave_requeue|]. cbn [queue set_queue]. lia.
  - cbn [key hash]. fold node'. change mp with (map h1). rewrite E2, bind_ret. eexists _, _. split; [done|]. exact Hi2.
Qed.

(** ** Commands *)

Lemma name_text text : (0 < List.length text < 16)%nat -> Forall (fun c => 0 < c < 256) text -> 
  name_ok (text ++ replicate (Z.to_nat (GLOBALNAME_LENGTH - Z.of_nat (List.length text))) 0).
Proof. intros Hl Ht. exists text. split; [|split; [lia|done]]. do 2 f_equal. unfold GLOBALNAME_LENGTH. lia. Qed.

Lemma command_total n h msg src w : harbor_inv n h -> 0 <= n <= MAX_PUSHES -> (2 <= List.length msg)%nat -> Forall (fun c => 0 < c < 256) msg -> 0 <= src < 2^32 ->
  exists h' w', harbor_command answer h msg src w = Ok (h', w') /\ harbor_inv n h'.
Proof.
  intros Hi Hn Hl Hm Hs. unfold harbor_command. cbv zeta. set (sz := Z.of_nat (List.length msg) - 2).
  assert (Hsz : (sz <? 0) = false) by (apply Z.ltb_ge; lia). rewrite Hsz.
  assert (Esz : sz = Z.of_nat (List.length (drop 2 msg))) by (rewrite length_drop; lia).
  destruct (_ =? 78).
  { destruct (Z.leb_spec sz 0) as [|Hpos]; [unfold tell; rewrite bind_ret; by eexists _, _|]. destruct (Z.leb_spec GLOBALNAME_LENGTH sz); [unfold tell; rewrite bind_ret; by eexists _, _|].
    cbn [orb]. rewrite Esz in *. unfold GLOBALNAME_LENGTH in *. apply update_name_total; try done. apply name_text; [lia|by apply Forall_drop]. }
  destruct (_ || _); [|unfold tell; rewrite bind_ret; by eexists _, _].
  destruct (scan_int (upto_nul (drop 2 msg))) as [a rest]. set (sock := i32 (default 0 a)). match goal with |- context [arr_get (s h) ?x] => set (k := x) end.
  destruct (Z.eqb_spec sock 0); [unfold tell; rewrite bind_ret; by eexists _, _|]. destruct (Z.leb_spec k 0); [unfold tell; rewrite bind_ret; by eexists _, _|].
  destruct (Z.leb_spec REMOTE_MAX k); [unfold tell; rewrite bind_ret; by eexists _, _|]. cbn [orb]. unfold REMOTE_MAX in *.
  destruct (inv_slave n h k Hi ltac:(lia)) as (u & Hu & Hok). rewrite (slave_get _ _ _ Hu), bind_ret.
  destruct (Z.eqb_spec (fd u) 0) as [Hf|]; cbn [negb]; [|unfold tell; rewrite bind_ret; by eexists _, _].
  rewrite (slave_set _ _ _ _ Hu), bind_ret, put_slaves. unfold tell. rewrite bind_ret. unfold handshake.
  pose proof (put_at h k u (set_fd sock u) Hu) as Hu1. rewrite (slave_get _ _ _ Hu1), bind_ret. unfold tell. rewrite bind_ret, bind_ret, (slave_set _ _ _ _ Hu1), bind_ret, put_slaves, put_put.
  destruct (so_idle _ _ Hok (or_introl (so_wait _ _ Hok Hf))) as [Hr Hz]. pose proof (hi_total _ _ Hi) as Ht. pose proof (qlen_pos _ _ (so_queue _ _ Hok)) as Hpos.
  destruct (_ =? 83).
  - eexists _, _. split; [done|]. apply (inv_put n n h k u); [done|lia|done| |cbn [queue set_status set_fd]; lia].
    split; cbn [queue fd status set_status set_fd read s_size]; [apply Hok|done|done|]. unfold STATUS_HANDSHAKE, STATUS_HEADER, STATUS_CONTENT. intros [|]; lia.
  - set (u1 := set_status STATUS_HEADER (set_fd sock u)). match goal with |- context [dispatch_queue (put h k u1) k ?w'] => destruct (dispatch_total n (put h k u1) k u1 w') as [w1 ->] end;
      [by eapply put_at|done|apply Hok|]. rewrite put_put. eexists _, _. split; [done|].
    apply (inv_put n n h k u); [done|lia|done| |cbn [queue set_queue qlen]; lia]. split; [done|done|cbn; intros []; done|].
    intros _. exists []. split; [|done]. apply (at_head _ [] (s_size u)); cbn; try done. lia.
Qed.

(** ** Every event *)

(** What the rest of the node may give to the harbor: events of sockets, their data as
    in [data_ok]; commands of two bytes or more, none of them zero; and messages of
    another type, to a handle or to a name. *)
Definition event_ok (h : harbor) (type : Z) (e : event) (src : Z) : Prop :=
  match e with
  | ESocket m => type = PTYPE_SOCKET /\ (Netpack.s_type m = Netpack.SData ->
      exists bs, Netpack.s_buffer m = Some bs /\ Netpack.s_ud m = Z.of_nat (List.length bs) /\ data_ok h (Netpack.s_id m) bs)
  | EHarbor msg => type = PTYPE_HARBOR /\ (2 <= List.length msg)%nat /\ Forall (fun c => 0 < c < 256) msg /\ 0 <= src < 2^32
  | ERemote handle name _ => (type <> PTYPE_SOCKET /\ type <> PTYPE_HARBOR) /\ 0 <= handle < 2^32 /\ (handle = 0 -> name_ok name)
  end.

Lemma mainloop_total n h type e src sess w : harbor_inv n h -> 0 <= n < MAX_PUSHES -> event_ok h type e src ->
  exists h' w', mainloop answer h type e src sess w = Ok (h', w') /\ harbor_inv (n + 1) h'.
Proof.
  intros Hi Hn He. assert (Hi1 : harbor_inv (n + 1) h) by (apply (inv_weaken n); [done|lia]). destruct e as [[t i ud b addr]|msg|handle name msg]; cbn [event_ok] in He.
  - cbn [Netpack.s_type Netpack.s_buffer Netpack.s_ud Netpack.s_id] in He. destruct He as [-> He]. rewrite mainloop_socket. destruct t; cbn [Netpack.s_type Netpack.s_id Netpack.s_ud];
      try (destruct (negb _)); unfold tell; rewrite ?bind_ret; try by eexists _, _.
    destruct (He eq_refl) as (bs & -> & -> & Hd). exact (data_total (n + 1) h i bs addr src sess w Hi1 Hd).
  - destruct He as (-> & Hl & Hm & Hs). rewrite mainloop_harbor. apply command_total; try done. lia.
  - destruct He as (Hty & Hh & Hname). rewrite mainloop_remote by done. match goal with |- context [mbind _ ?x] => assert (exists r h' w', x = Ok (r, h', w') /\ harbor_inv (n + 1) h') as (r & h' & w' & -> & Hi') end.
    { destruct (Z.eqb_spec handle 0) as [E|E]; [apply send_name_total; try done; by apply Hname|by apply send_handle_total]. }
    rewrite bind_ret. destruct (negb _); [by eexists _, _|]. unfold tell. rewrite bind_ret. by eexists _, _.
Qed.

(** ** Start and release *)

Lemma concat_empty {A} k : concat (replicate k (@nil A)) = [].
Proof. induction k as [|k IH]; [done|exact IH]. Qed.

Lemma waiting_none k : waiting (replicate k None) = 0.
Proof. induction k as [|k IH]; [done|]. cbn [replicate]. rewrite waiting_cons, IH. done. Qed.

Lemma fresh_inv i sl : harbor_inv 0 (MkHarbor i sl (map harbor_create) (s harbor_create)).
Proof.
  split; cbn [s map].
  - exact (length_replicate 256 no_slave).
  - apply Forall_replicate. split; [done|done|done|]. unfold STATUS_HEADER, STATUS_CONTENT. cbn. unfold STATUS_WAIT. intros [|]; lia.
  - apply hash_new_ok.
  - change (map harbor_create) with (replicate (Z.to_nat HASH_SIZE) (@nil keyvalue)). rewrite concat_empty. constructor.
  - unfold total. cbn [s map]. change (map harbor_create) with (replicate (Z.to_nat HASH_SIZE) (@nil keyvalue)). rewrite concat_empty.
    change (s harbor_create) with (replicate (Z.to_nat REMOTE_MAX) no_slave). rewrite fmap_replicate. change (queue no_slave) with (@None harbor_msg_queue). by rewrite waiting_none.
Qed.

Lemma start_inv args h : harbor_init harbor_create args = (0, h) -> harbor_inv 0 h.
Proof.
  unfold harbor_init. destruct (scan_int args) as [a rest]. cbv zeta. destruct (_ =? 0); intros E; [done|].
  pose proof (f_equal snd E) as Eh. cbn [snd] in Eh. subst h. apply fresh_inv.
Qed.

Lemma delete_chain_total n chain : Forall (node_inv n) chain -> forall w, exists w', delete_chain chain w = Ok w'.
Proof.
  induction 1 as [|node chain [Hq _] _ IH]; intros w; cbn [delete_chain]; [by eexists|].
  destruct (release_total n (kv_queue node) w Hq) as [w1 ->]. rewrite bind_ret. apply IH.
Qed.

Lemma hash_delete_total n mp : Forall (node_inv n) (concat mp) -> forall w, exists w', hash_delete mp w = Ok w'.
Proof.
  induction mp as [|chain mp IH]; intros H w; cbn [hash_delete concat] in *; [by eexists|]. apply Forall_app in H as [Hc Hm].
  destruct (delete_chain_total n chain Hc w) as [w1 ->]. rewrite bind_ret. by apply IH.
Qed.

Lemma release_harbor_total n h w : harbor_inv n h -> exists w', harbor_release h w = Ok w'.
Proof.
  intros Hi. unfold harbor_release.
  edestruct (for_loop_inv (fun _ (st : harbor * log) => harbor_inv n st.1)) as ([h' w'] & -> & Hi').
  3:{ rewrite bind_ret. apply (hash_delete_total n), (hi_nodes _ _ Hi'). }
  - exact Hi.
  - intros i [h1 w1] Hr Hi1. cbn [fst] in Hi1. unfold REMOTE_MAX in Hr. destruct (inv_slave n h1 i Hi1 ltac:(lia)) as (u & Hu & Hok). rewrite (slave_get _ _ _ Hu), bind_ret.
    destruct (Z.eqb_spec (fd u) 0); cbn [negb andb]; [by eexists|]. destruct (negb _); [|by eexists].
    destruct (close_total n h1 i u u w1) as (u' & w' & E & Hs & Hq & Hf); [done|done|done|done|]. rewrite (put_id h1 i u Hu) in E. rewrite E. eexists. split; [done|].
    cbn [fst]. apply (inv_down n h1 i u); congruence.
Qed.

(** The states a harbor that was started gets into. *)
Inductive reached : Z -> harbor -> Prop :=
  | reached_start args h : harbor_init harbor_create args = (0, h) -> reached 0 h
  | reached_event n h type e src sess w h' w' : reached n h -> event_ok h type e src -> mainloop answer h type e src sess w = Ok (h', w') -> reached (n + 1) h'.

Lemma reached_inv n h : reached n h -> n <= MAX_PUSHES -> 0 <= n /\ harbor_inv n h.
Proof.
  induction 1 as [args h E|n h type e src sess w h' w' _ IH He E]; intros Hn; [split; [done|by eapply start_inv]|].
  destruct IH as [H0 Hi]; [lia|]. split; [lia|]. destruct (mainloop_total n h type e src sess w Hi ltac:(lia) He) as (h2 & w2 & E2 & Hi2). congruence.
Qed.

(** C15.  In every state the harbor gets into, for fewer than 2^28 events of these
    kinds: the callback returns on an event that [event_ok] describes, which is a
    message whose [type] fits what it points to; its data are not empty and of a
    connection the harbor has, and no message in them is shorter than its header; a
    command has two bytes or more and no zero byte; a message to a name has a padded
    name of at most 15 bytes.  The harbor can be released, and a node that is down
    still has its connection, so that no message to it is ever answered with an
    error. *)
Theorem harbor_never_faults n h : reached n h -> n < MAX_PUSHES ->
  (forall type e src sess w, event_ok h type e src -> exists h' w', mainloop answer h type e src sess w = Ok (h', w')) /\
  (forall w, exists w', harbor_release h w = Ok w') /\
  (forall k u, s h !! k = Some u -> status u = STATUS_DOWN -> fd u <> 0).
Proof.
  intros Hr Hn. destruct (reached_inv n h Hr ltac:(lia)) as [H0 Hi]. split; [|split].
  - intros type e src sess w He. destruct (mainloop_total n h type e src sess w Hi ltac:(lia) He) as (h' & w' & E & _). by exists h', w'.
  - intros w. by eapply release_harbor_total.
  - intros k u Hu Hs Hf. pose proof (Forall_lookup_1 _ _ _ _ (hi_slaves _ _ Hi) Hu) as Hok. apply (so_wait _ _ Hok) in Hf. rewrite Hf in Hs. done.
Qed.

End Events.

(** A harbor that was told to connect to node 2, and the id that node answers with. *)
Definition started : harbor := snd (harbor_init harbor_create (str "1 16777218")).
Definition connecting : harbor :=
  match mainloop (fun _ => 0) started PTYPE_HARBOR (EHarbor (str "S 7 2")) 0 0 [] with Ok (h, _) => h | Fault _ => started end.

Lemma connecting_reached : reached (fun _ => 0) 1 connecting.
Proof.
  apply (reached_event (fun _ => 0) 0 started PTYPE_HARBOR (EHarbor (str "S 7 2")) 0 0 [] connecting [CSocketStart 7; CSocketSend 7 [1]]).
  - apply (reached_start _ (str "1 16777218")). vm_compute. reflexivity.
  - split; [done|]. split; [cbn; lia|]. split; [|lia]. repeat constructor; cbn; lia.
  - vm_compute. reflexivity.
Qed.

Lemma harbor_never_faults_witness :
  (exists h' w', mainloop (fun _ => 0) connecting PTYPE_SOCKET (ESocket (Netpack.SockMsg Netpack.SData 7 1 (Some [2]) [])) 0 0 [] = Ok (h', w')) /\
  (exists w', harbor_release connecting [] = Ok w').
Proof.
  destruct (harbor_never_faults (fun _ => 0) 1 connecting connecting_reached ltac:(unfold MAX_PUSHES; lia)) as (He & Hr & _). split; [|apply Hr].
  apply He. split; [reflexivity|]. intros _. exists [2]. split; [reflexivity|]. split; [reflexivity|]. split; [discriminate|]. split; [repeat constructor; lia|].
  assert (Ek : harbor_id connecting 7 = 2) by (vm_compute; reflexivity). cbn [Netpack.s_id]. rewrite Ek. split; [lia|]. intros u Hu.
  assert (Es : status <$> s connecting !! Z.to_nat 2 = Some STATUS_HANDSHAKE) by (vm_compute; reflexivity). rewrite Hu in Es. injection Es as Es. split.
  - intros _ ds n c E. apply (f_equal List.length) in E. rewrite !length_app in E. cbn [List.tail List.length to_bigendian] in E. lia.
  - intros p Hat. inversion Hat; unfold STATUS_HANDSHAKE, STATUS_HEADER, STATUS_CONTENT in *; congruence.
Defined.
