(* ===== verification/Seri.v ===== *)
(** * Serialisation of Lua values ([lualib-src/lua-seri.c])

    Services exchange Lua values: [luaseri_pack] turns the arguments of a call
    into one block of bytes and [luaseri_unpack] turns the block back.  The
    writer fills a chain of 128-byte blocks that grows as needed; the reader
    walks the block with a pointer and a count of bytes left.

    A Lua value is a tree; numbers that are not integers and pointers are their
    64 bits.  Integers are stored as the machine stores them, least significant
    byte first.  An error raised with [luaL_error] is a value of [res]. *)

From S2P Require Import Prelude Mq.
From stdpp Require Import base numbers list.
From Stdlib Require Import ZArith Lia.
#[local] Open Scope Z_scope.
#[local] Open Scope list_scope.

Module Seri.

Definition TYPE_NIL : Z := 0.
Definition TYPE_BOOLEAN : Z := 1.
Definition TYPE_NUMBER : Z := 2.
Definition TYPE_NUMBER_ZERO : Z := 0.
Definition TYPE_NUMBER_BYTE : Z := 1.
Definition TYPE_NUMBER_WORD : Z := 2.
Definition TYPE_NUMBER_DWORD : Z := 4.
Definition TYPE_NUMBER_QWORD : Z := 6.
Definition TYPE_NUMBER_REAL : Z := 8.
Definition TYPE_USERDATA : Z := 3.
Definition TYPE_SHORT_STRING : Z := 4.
Definition TYPE_LONG_STRING : Z := 5.
Definition TYPE_TABLE : Z := 6.
Definition MAX_COOKIE : Z := 32.
Definition BLOCK_SIZE : Z := 128.
Definition MAX_DEPTH : Z := 32.
Definition COMBINE_TYPE (t v : Z) : Z := u8 (Z.lor t (Z.shiftl v 3)).

(** ** Values and errors *)

Inductive value :=
  | VNil
  | VBool (b : bool)
  | VInt (z : Z)
  | VReal (bits : Z)
  | VPointer (p : Z)
  | VString (s : list Z)
  (** the values at 1 to [lua_rawlen], and all pairs in the order of [lua_next] *)
  | VTable (arr : list value) (pairs : list (value * value))
  (** a table with the metamethod [__pairs], and what its iterator yields *)
  | VPairs (pairs : list (value * value))
  (** a function, userdata or thread *)
  | VOther.

Inductive lua_error :=
  | TooDeep                  (** serialize can't pack too depth table *)
  | Unsupported              (** Unsupport type %s to serialize *)
  | InvalidStream (len : Z). (** Invalid serialize stream %d *)

Inductive res (A : Type) :=
  | Done (a : A)
  | Raised (e : lua_error)
  | Crash (f : fault).
Arguments Done {_} _.
Arguments Raised {_} _.
Arguments Crash {_} _.

#[global] Instance res_ret : MRet res := fun _ a => Done a.
#[global] Instance res_bind : MBind res :=
  fun _ _ k m => match m with Done a => k a | Raised e => Raised e | Crash f => Crash f end.

Definition run {A} (m : outcome A) : res A :=
  match m with Ok a => Done a | Fault f => Crash f end.

(** ** Writing *)

(** [full]: the blocks from [head] to the one before [current]. *)
Record write_block := WB {
  full : list (list (option Z)); current : list (option Z); wb_len : Z; wb_ptr : Z
}.

Definition blk_alloc : list (option Z) := replicate (Z.to_nat BLOCK_SIZE) None.
Definition wb_init : write_block := WB [] blk_alloc 0 0.

(** The part of [wb_push] behind the label [_again] and its allocation. *)
Definition wb_copy (again : write_block -> list Z -> outcome write_block)
    (b : write_block) (buffer : list Z) : outcome write_block :=
  let sz := Z.of_nat (length buffer) in
  if wb_ptr b <=? BLOCK_SIZE - sz then
    c ← mem_write (current b) (wb_ptr b) (Some <$> buffer);
    len ← c_int (wb_len b + sz);
    Ok (WB (full b) c len (wb_ptr b + sz))
  else
    let copy := BLOCK_SIZE - wb_ptr b in
    part ← mem_read buffer 0 copy;
    c ← mem_write (current b) (wb_ptr b) (Some <$> part);
    len ← c_int (wb_len b + copy);
    again (WB (full b) c len (wb_ptr b)) (drop (Z.to_nat copy) buffer).

Fixpoint wb_again (fuel : nat) (b : write_block) (buffer : list Z) : outcome write_block :=
  match fuel with
  | O => Fault OutOfFuel
  | S fuel => wb_copy (wb_again fuel) (WB (full b ++ [current b]) blk_alloc (wb_len b) 0) buffer
  end.

(** Every further block takes at least one byte. *)
Definition wb_push (b : write_block) (buffer : list Z) : outcome write_block :=
  let fuel := S (length buffer) in
  if wb_ptr b =? BLOCK_SIZE then wb_again fuel b buffer else wb_copy (wb_again fuel) b buffer.

Definition wb_nil (wb : write_block) : outcome write_block := wb_push wb [TYPE_NIL].

Definition wb_boolean (wb : write_block) (boolean : bool) : outcome write_block :=
  wb_push wb [COMBINE_TYPE TYPE_BOOLEAN (if boolean then 1 else 0)].

Definition wb_integer (wb : write_block) (v : Z) : outcome write_block :=
  let type := TYPE_NUMBER in
  if v =? 0 then wb_push wb [COMBINE_TYPE type TYPE_NUMBER_ZERO]
  else if negb (v =? i32 v) then
    wb ← wb_push wb [COMBINE_TYPE type TYPE_NUMBER_QWORD];
    wb_push wb (to_le 8 v)
  else if v <? 0 then
    wb ← wb_push wb [COMBINE_TYPE type TYPE_NUMBER_DWORD];
    wb_push wb (to_le 4 v)
  else if v <? 0x100 then
    wb ← wb_push wb [COMBINE_TYPE type TYPE_NUMBER_BYTE];
    wb_push wb (to_le 1 v)
  else if v <? 0x10000 then
    wb ← wb_push wb [COMBINE_TYPE type TYPE_NUMBER_WORD];
    wb_push wb (to_le 2 v)
  else
    wb ← wb_push wb [COMBINE_TYPE type TYPE_NUMBER_DWORD];
    wb_push wb (to_le 4 v).

Definition wb_real (wb : write_block) (v : Z) : outcome write_block :=
  wb ← wb_push wb [COMBINE_TYPE TYPE_NUMBER TYPE_NUMBER_REAL];
  wb_push wb (to_le 8 v).

Definition wb_pointer (wb : write_block) (v : Z) : outcome write_block :=
  wb ← wb_push wb [TYPE_USERDATA];
  wb_push wb (to_le 8 v).

Definition wb_string (wb : write_block) (str : list Z) (len : Z) : outcome write_block :=
  if len <? MAX_COOKIE then
    wb ← wb_push wb [COMBINE_TYPE TYPE_SHORT_STRING len];
    if 0 <? len then s ← mem_read str 0 len; wb_push wb s else Ok wb
  else
    wb ← (if len <? 0x10000 then
            wb ← wb_push wb [COMBINE_TYPE TYPE_LONG_STRING 2];
            wb_push wb (to_le 2 len)
          else
            wb ← wb_push wb [COMBINE_TYPE TYPE_LONG_STRING 4];
            wb_push wb (to_le 4 len));
    s ← mem_read str 0 len;
    wb_push wb s.

Section Tables.
(** [pack_one] at the depth of the elements. *)
Variable pack : value -> write_block -> res write_block.

Fixpoint pack_each (vs : list value) (wb : write_block) : res write_block :=
  match vs with
  | [] => Done wb
  | v :: vs => wb ← pack v wb; pack_each vs wb
  end.

Definition wb_table_array (arr : list value) (wb : write_block) : res (write_block * Z) :=
  let array_size := i32 (Z.of_nat (length arr)) in
  wb ← (if MAX_COOKIE - 1 <=? array_size then
          wb ← run (wb_push wb [COMBINE_TYPE TYPE_TABLE (MAX_COOKIE - 1)]);
          run (wb_integer wb array_size)
        else run (wb_push wb [COMBINE_TYPE TYPE_TABLE array_size]));
  wb ← pack_each (take (Z.to_nat array_size) arr) wb;
  Done (wb, array_size).

(** The keys written with the array part. *)
Definition in_array (array_size : Z) (k : value) : bool :=
  match k with VInt x => (0 <? x) && (x <=? array_size) | _ => false end.

Fixpoint pack_pairs (array_size : Z) (ps : list (value * value)) (wb : write_block) : res write_block :=
  match ps with
  | [] => run (wb_nil wb)
  | (k, v) :: ps =>
      if in_array array_size k then pack_pairs array_size ps wb
      else
        wb ← pack k wb;
        wb ← pack v wb;
        pack_pairs array_size ps wb
  end.

Definition wb_table_hash (ps : list (value * value)) (array_size : Z) (wb : write_block) : res write_block :=
  pack_pairs array_size ps wb.

(** The iterator ends at the first nil key. *)
Fixpoint pack_iterated (ps : list (value * value)) (wb : write_block) : res write_block :=
  match ps with
  | [] | (VNil, _) :: _ => run (wb_nil wb)
  | (k, v) :: ps => wb ← pack k wb; wb ← pack v wb; pack_iterated ps wb
  end.

Definition wb_table_metapairs (ps : list (value * value)) (wb : write_block) : res write_block :=
  wb ← run (wb_push wb [COMBINE_TYPE TYPE_TABLE 0]);
  pack_iterated ps wb.
End Tables.

(** [fuel] counts the depths left; at depth 33 the error comes before it is used. *)
Fixpoint pack_one (fuel : nat) (depth : Z) (v : value) (b : write_block) : res write_block :=
  if MAX_DEPTH <? depth then Raised TooDeep
  else match fuel with
  | O => Crash OutOfFuel
  | S fuel =>
      match v with
      | VNil => run (wb_nil b)
      | VInt x => run (wb_integer b x)
      | VReal n => run (wb_real b n)
      | VBool x => run (wb_boolean b x)
      | VString s => run (wb_string b s (i32 (Z.of_nat (length s))))
      | VPointer p => run (wb_pointer b p)
      | VTable arr ps =>
          '(b, array_size) ← wb_table_array (pack_one fuel (depth + 1)) arr b;
          wb_table_hash (pack_one fuel (depth + 1)) ps array_size b
      | VPairs ps => wb_table_metapairs (pack_one fuel (depth + 1)) ps b
      | VOther => Raised Unsupported
      end
  end.

Definition pack_from (vs : list value) (b : write_block) : res write_block :=
  pack_each (pack_one 34 0) vs b.

(** The [while] of [seri], along the chain of blocks. *)
Fixpoint seri_loop (blocks : list (list (option Z))) (len : Z) : outcome (list Z) :=
  if 0 <? len then
    match blocks with
    | [] => Fault NullPointer
    | b :: blocks =>
        if BLOCK_SIZE <=? len then
          part ← mem_read b 0 BLOCK_SIZE;
          bytes ← mapM init_read part;
          rest ← seri_loop blocks (len - BLOCK_SIZE);
          Ok (bytes ++ rest)
        else part ← mem_read b 0 len; mapM init_read part
    end
  else Ok [].
Definition seri (b : write_block) : outcome (list Z) := seri_loop (full b ++ [current b]) (wb_len b).

(** The block and its size. *)
Definition luaseri_pack (vs : list value) : res (list Z) :=
  wb ← pack_from vs wb_init;
  run (seri wb).

(** ** Reading *)

Record read_block := RB { rb_buffer : list Z; rb_len : Z; rb_ptr : Z }.

Definition rball_init (buffer : list Z) (size : Z) : read_block := RB buffer size 0.

(** The address read from ([None]: [NULL]) and the advanced block. *)
Definition rb_read (rb : read_block) (sz : Z) : option Z * read_block :=
  if rb_len rb <? sz then (None, rb)
  else (Some (rb_ptr rb), RB (rb_buffer rb) (rb_len rb - sz) (rb_ptr rb + sz)).

Definition invalid_stream {A} (rb : read_block) : res A := Raised (InvalidStream (rb_len rb)).

(** An object of [n] bytes, as an unsigned integer. *)
Definition read_object (rb : read_block) (n : Z) : res (Z * read_block) :=
  match rb_read rb n with
  | (None, rb) => invalid_stream rb
  | (Some p, rb) => bs ← run (mem_read (rb_buffer rb) p n); Done (of_le bs, rb)
  end.

Definition i64 (z : Z) : Z := (z + 2^63) mod 2^64 - 2^63.

Definition get_integer (rb : read_block) (cookie : Z) : res (Z * read_block) :=
  if cookie =? TYPE_NUMBER_ZERO then Done (0, rb)
  else if cookie =? TYPE_NUMBER_BYTE then read_object rb 1
  else if cookie =? TYPE_NUMBER_WORD then read_object rb 2
  else if cookie =? TYPE_NUMBER_DWORD then '(n, rb) ← read_object rb 4; Done (i32 n, rb)
  else if cookie =? TYPE_NUMBER_QWORD then '(n, rb) ← read_object rb 8; Done (i64 n, rb)
  else invalid_stream rb.

Definition get_real (rb : read_block) : res (Z * read_block) := read_object rb 8.
Definition get_pointer (rb : read_block) : res (Z * read_block) := read_object rb 8.

(** [lua_pushlstring] takes [len] as a [size_t]. *)
Definition get_buffer (rb : read_block) (len : Z) : res (value * read_block) :=
  match rb_read rb len with
  | (None, rb) => invalid_stream rb
  | (Some p, rb) => s ← run (mem_read (rb_buffer rb) p (u64 len)); Done (VString s, rb)
  end.

(** The size of the array part behind the cookie of a table. *)
Definition table_size (rb : read_block) (array_size : Z) : res (Z * read_block) :=
  if array_size =? MAX_COOKIE - 1 then
    '(type, rb) ← read_object rb 1;
    let cookie := Z.shiftr type 3 in
    if negb (Z.land type 7 =? TYPE_NUMBER) || (cookie =? TYPE_NUMBER_REAL) then invalid_stream rb
    else '(n, rb) ← get_integer rb cookie; Done (i32 n, rb)
  else Done (array_size, rb).

(** [TYPE_LONG_STRING]; the length is passed on as an [int]. *)
Definition get_long_string (rb : read_block) (cookie : Z) : res (value * read_block) :=
  if cookie =? 2 then '(n, rb) ← read_object rb 2; get_buffer rb n
  else if negb (cookie =? 4) then invalid_stream rb
  else '(n, rb) ← read_object rb 4; get_buffer rb (i32 n).

Definition is_nil (v : value) : bool := match v with VNil => true | _ => false end.

(** A table is built from the values set by index and then the pairs set by key.
    Each value takes at least a byte, so four times the bytes left bound the
    nesting of the calls. *)
Fixpoint unpack_one (fuel : nat) (rb : read_block) : res (value * read_block) :=
  match fuel with
  | O => Crash OutOfFuel
  | S fuel =>
      '(type, rb) ← read_object rb 1;
      push_value fuel rb (Z.land type 7) (Z.shiftr type 3)
  end
with push_value (fuel : nat) (rb : read_block) (type cookie : Z) : res (value * read_block) :=
  match fuel with
  | O => Crash OutOfFuel
  | S fuel =>
      if type =? TYPE_NIL then Done (VNil, rb)
      else if type =? TYPE_BOOLEAN then Done (VBool (negb (cookie =? 0)), rb)
      else if type =? TYPE_NUMBER then
        if cookie =? TYPE_NUMBER_REAL then '(n, rb) ← get_real rb; Done (VReal n, rb)
        else '(n, rb) ← get_integer rb cookie; Done (VInt n, rb)
      else if type =? TYPE_USERDATA then '(p, rb) ← get_pointer rb; Done (VPointer p, rb)
      else if type =? TYPE_SHORT_STRING then get_buffer rb cookie
      else if type =? TYPE_LONG_STRING then get_long_string rb cookie
      else if type =? TYPE_TABLE then unpack_table fuel rb cookie
      else invalid_stream rb
  end
with unpack_table (fuel : nat) (rb : read_block) (array_size : Z) : res (value * read_block) :=
  match fuel with
  | O => Crash OutOfFuel
  | S fuel =>
      '(array_size, rb) ← table_size rb array_size;
      '(arr, rb) ← unpack_array fuel rb 1 array_size;
      '(ps, rb) ← unpack_pairs fuel rb;
      Done (VTable arr ps, rb)
  end
with unpack_array (fuel : nat) (rb : read_block) (i array_size : Z) : res (list value * read_block) :=
  match fuel with
  | O => Crash OutOfFuel
  | S fuel =>
      if i <=? array_size then
        '(v, rb) ← unpack_one fuel rb;
        '(vs, rb) ← unpack_array fuel rb (i + 1) array_size;
        Done (v :: vs, rb)
      else Done ([], rb)
  end
with unpack_pairs (fuel : nat) (rb : read_block) : res (list (value * value) * read_block) :=
  match fuel with
  | O => Crash OutOfFuel
  | S fuel =>
      '(k, rb) ← unpack_one fuel rb;
      if is_nil k then Done ([], rb)
      else
        '(v, rb) ← unpack_one fuel rb;
        '(ps, rb) ← unpack_pairs fuel rb;
        Done ((k, v) :: ps, rb)
  end.

Definition value_fuel (rb : read_block) : nat := 4 + 4 * Z.to_nat (rb_len rb).

(** The [for] of [luaseri_unpack]. *)
Fixpoint unpack_loop (fuel : nat) (rb : read_block) : res (list value) :=
  match fuel with
  | O => Crash OutOfFuel
  | S fuel =>
      match rb_read rb 1 with
      | (None, _) => Done []
      | (Some p, rb) =>
          type ← run (arr_get (rb_buffer rb) p);
          '(v, rb) ← push_value (value_fuel rb) rb (Z.land type 7) (Z.shiftr type 3);
          vs ← unpack_loop fuel rb;
          Done (v :: vs)
      end
  end.

Definition luaseri_unpack (buffer : list Z) : res (list value) :=
  let len := i32 (Z.of_nat (length buffer)) in
  if len =? 0 then Done []
  else unpack_loop (S (length buffer)) (rball_init buffer len).
End Seri.
