(* ===== verification/SeriProofs.v ===== *)
(** * Serialisation: round trip, depth and hostile streams *)

From S2P Require Import Prelude Mq Seri.
From stdpp Require Import base numbers list.
From Stdlib Require Import ZArith Lia.
#[local] Open Scope Z_scope.
#[local] Open Scope list_scope.
Import Seri.

(** ** Induction on values *)

Section ValueInd.
Variable P : value -> Prop.
Hypothesis Pnil : P VNil.
Hypothesis Pbool : forall b, P (VBool b).
Hypothesis Pint : forall z, P (VInt z).
Hypothesis Preal : forall b, P (VReal b).
Hypothesis Ppointer : forall p, P (VPointer p).
Hypothesis Pstring : forall s, P (VString s).
Hypothesis Ptable : forall arr ps, Forall P arr -> Forall (fun p => P p.1 /\ P p.2) ps -> P (VTable arr ps).
Hypothesis Ppairs : forall ps, Forall (fun p => P p.1 /\ P p.2) ps -> P (VPairs ps).
Hypothesis Pother : P VOther.

Fixpoint value_nested_ind (v : value) : P v :=
  let each := fix each (l : list value) : Forall P l :=
    match l with
    | [] => Forall_nil_2 _
    | v :: l => Forall_cons_2 _ _ _ (value_nested_ind v) (each l)
    end in
  let both := fix both (l : list (value * value)) : Forall (fun p => P p.1 /\ P p.2) l :=
    match l with
    | [] => Forall_nil_2 _
    | (k, v) :: l => Forall_cons_2 _ (k, v) _ (conj (value_nested_ind k) (value_nested_ind v)) (both l)
    end in
  match v with
  | VNil => Pnil
  | VBool b => Pbool b
  | VInt z => Pint z
  | VReal b => Preal b
  | VPointer p => Ppointer p
  | VString s => Pstring s
  | VTable arr ps => Ptable arr ps (each arr) (both ps)
  | VPairs ps => Ppairs ps (both ps)
  | VOther => Pother
  end.
End ValueInd.

(** ** The format *)

Definition enc_int (v : Z) : list Z :=
  if v =? 0 then [COMBINE_TYPE TYPE_NUMBER TYPE_NUMBER_ZERO]
  else if negb (v =? i32 v) then COMBINE_TYPE TYPE_NUMBER TYPE_NUMBER_QWORD :: to_le 8 v
  else if v <? 0 then COMBINE_TYPE TYPE_NUMBER TYPE_NUMBER_DWORD :: to_le 4 v
  else if v <? 0x100 then COMBINE_TYPE TYPE_NUMBER TYPE_NUMBER_BYTE :: to_le 1 v
  else if v <? 0x10000 then COMBINE_TYPE TYPE_NUMBER TYPE_NUMBER_WORD :: to_le 2 v
  else COMBINE_TYPE TYPE_NUMBER TYPE_NUMBER_DWORD :: to_le 4 v.

Definition enc_string (s : list Z) : list Z :=
  let len := Z.of_nat (length s) in
  if len <? 32 then COMBINE_TYPE TYPE_SHORT_STRING len :: s
  else if len <? 0x10000 then COMBINE_TYPE TYPE_LONG_STRING 2 :: to_le 2 len ++ s
  else COMBINE_TYPE TYPE_LONG_STRING 4 :: to_le 4 len ++ s.

Definition enc_size (n : Z) : list Z :=
  if 31 <=? n then COMBINE_TYPE TYPE_TABLE 31 :: enc_int n else [COMBINE_TYPE TYPE_TABLE n].

Definition in_arr (arr : list value) (k : value) : bool := in_array (Z.of_nat (length arr)) k.

Fixpoint enc (v : value) : list Z :=
  match v with
  | VNil => [TYPE_NIL]
  | VBool b => [COMBINE_TYPE TYPE_BOOLEAN (if b then 1 else 0)]
  | VInt z => enc_int z
  | VReal b => COMBINE_TYPE TYPE_NUMBER TYPE_NUMBER_REAL :: to_le 8 b
  | VPointer p => TYPE_USERDATA :: to_le 8 p
  | VString s => enc_string s
  | VTable arr ps =>
      enc_size (Z.of_nat (length arr)) ++ flat_map enc arr ++
      flat_map (fun '(k, v) => if in_arr arr k then [] else enc k ++ enc v) ps ++ [TYPE_NIL]
  | VPairs ps => COMBINE_TYPE TYPE_TABLE 0 :: flat_map (fun '(k, v) => enc k ++ enc v) ps ++ [TYPE_NIL]
  | VOther => []
  end.

(** What the reader builds: a table has its array part, and apart from it the
    pairs whose keys are not in the array part. *)
Fixpoint norm (v : value) : value :=
  match v with
  | VTable arr ps =>
      VTable (map norm arr) (flat_map (fun '(k, v) => if in_arr arr k then [] else [(norm k, norm v)]) ps)
  | VPairs ps => VTable [] (map (fun '(k, v) => (norm k, norm v)) ps)
  | v => v
  end.

(** The nesting of tables below a value. *)
Fixpoint height (v : value) : nat :=
  match v with
  | VTable arr ps =>
      Nat.max (fold_right (fun v m => Nat.max (S (height v)) m) O arr)
        (fold_right (fun '(k, v) m =>
           if in_arr arr k then m else Nat.max (S (height k)) (Nat.max (S (height v)) m)) O ps)
  | VPairs ps => fold_right (fun '(k, v) m => Nat.max (S (height k)) (Nat.max (S (height v)) m)) O ps
  | _ => O
  end.

(** Values Lua has and the format covers. *)
Fixpoint serialisable (v : value) : bool :=
  match v with
  | VNil | VBool _ => true
  | VInt z => (-2^63 <=? z) && (z <? 2^63)
  | VReal b | VPointer b => (0 <=? b) && (b <? 2^64)
  | VString s => Z.of_nat (length s) <? 2^31
  | VTable arr ps =>
      (Z.of_nat (length arr) <? 2^31) && forallb serialisable arr &&
      forallb (fun '(k, v) => negb (is_nil k) && serialisable k && serialisable v) ps
  | VPairs ps => forallb (fun '(k, v) => negb (is_nil k) && serialisable k && serialisable v) ps
  | VOther => false
  end.

(** ** Type bytes *)

Lemma combine_type t v : 0 <= t < 8 -> 0 <= v < 32 ->
  COMBINE_TYPE t v = t + 8 * v /\ Z.land (COMBINE_TYPE t v) 7 = t /\ Z.shiftr (COMBINE_TYPE t v) 3 = v.
Proof.
  intros Ht Hv. assert (E : COMBINE_TYPE t v = t + 8 * v).
  { unfold COMBINE_TYPE, u8. rewrite Z.shiftl_mul_pow2, (lor_disjoint t v 3) by lia.
    rewrite Z.mod_small by lia. lia. }
  rewrite E. split; [done|]. split.
  - rewrite (land_mask _ 3) by lia. change (2^3) with 8. rewrite Z.mul_comm, Z.mod_add, Z.mod_small by lia. done.
  - rewrite Z.shiftr_div_pow2 by lia. change (2^3) with 8. rewrite Z.mul_comm, Z.div_add, Z.div_small by lia. lia.
Qed.

(** ** The writer *)

Record wb_ok (b : write_block) (bs : list Z) : Prop := {
  ok_full : Forall (fun blk => length blk = 128%nat) (full b);
  ok_current : length (current b) = 128%nat;
  ok_ptr : 0 <= wb_ptr b <= 128;
  ok_bytes : concat (full b) ++ take (Z.to_nat (wb_ptr b)) (current b) = Some <$> bs;
  ok_len : wb_len b = Z.of_nat (length bs)
}.

Lemma wb_init_ok : wb_ok wb_init [].
Proof. by split. Qed.

(** [memcpy] into the current block. *)
Lemma fill_block c ptr (part : list Z) : length c = 128%nat -> 0 <= ptr -> ptr + Z.of_nat (length part) <= 128 ->
  exists c', mem_write c ptr (Some <$> part) = Ok c' /\ length c' = 128%nat /\
    take (Z.to_nat (ptr + Z.of_nat (length part))) c' = take (Z.to_nat ptr) c ++ (Some <$> part).
Proof.
  intros Hc Hp Hl. unfold mem_write. rewrite length_fmap.
  destruct (Z.ltb_spec ptr 0); [lia|]. destruct (Z.ltb_spec (Z.of_nat (length c)) (ptr + Z.of_nat (length part))); [lia|].
  cbn [orb]. eexists. split; [done|]. split.
  - rewrite !length_app, length_take, length_fmap, length_drop. lia.
  - rewrite app_assoc, take_app_le by (rewrite length_app, length_take, length_fmap; lia).
    apply take_ge. rewrite length_app, length_take, length_fmap. lia.
Qed.

Lemma wb_copy_ok again b bs buf : wb_ok b bs -> wb_ptr b < 128 \/ buf = [] ->
  Z.of_nat (length bs + length buf) < 2^31 ->
  (forall b' bs' buf', wb_ok (WB (full b' ++ [current b']) blk_alloc (wb_len b') 0) bs' ->
     (length buf' < length buf)%nat -> bs' ++ buf' = bs ++ buf ->
     exists r, again b' buf' = Ok r /\ wb_ok r (bs ++ buf)) ->
  exists r, wb_copy again b buf = Ok r /\ wb_ok r (bs ++ buf).
Proof.
  intros [Hf Hc Hp Hb Hl] Hroom Hbig Hagain. unfold wb_copy, BLOCK_SIZE. cbv zeta.
  destruct (Z.leb_spec (wb_ptr b) (128 - Z.of_nat (length buf))) as [Hle|Hgt].
  - destruct (fill_block (current b) (wb_ptr b) buf) as (c & -> & Hc' & Ht); [done|lia|lia|].
    rewrite bind_ret, c_int_ok by lia. rewrite bind_ret. eexists. split; [done|].
    split; cbn [full current wb_ptr wb_len]; [done|done|lia| |rewrite length_app; lia].
    by rewrite Ht, app_assoc, Hb, fmap_app.
  - assert (Hne : wb_ptr b < 128) by (destruct Hroom as [?|Hn]; [done|subst buf; cbn in Hgt; lia]).
    set (copy := 128 - wb_ptr b) in *. set (k := Z.to_nat copy).
    unfold mem_read at 1. cbn [Z.ltb Z.compare orb]. rewrite drop_0. fold k.
    destruct (Z.ltb_spec copy 0); [lia|]. destruct (Z.ltb_spec (Z.of_nat (length buf)) (0 + copy)); [lia|].
    cbn [orb]. rewrite bind_ret.
    destruct (fill_block (current b) (wb_ptr b) (take k buf)) as (c & -> & Hc' & Ht);
      [done|lia|rewrite length_take; lia|].
    rewrite bind_ret, c_int_ok by lia. rewrite bind_ret.
    apply (Hagain _ (bs ++ take k buf)).
    + split; cbn [full current wb_ptr wb_len].
      * apply Forall_app. split; [done|]. by constructor.
      * done.
      * lia.
      * rewrite take_0, app_nil_r, concat_app. cbn [concat]. rewrite app_nil_r, fmap_app, <- Hb, <- app_assoc.
        f_equal. rewrite length_take in Ht. rewrite <- Ht. symmetry. apply take_ge. lia.
      * rewrite length_app, length_take. lia.
    + rewrite length_drop. lia.
    + by rewrite <- app_assoc, take_drop.
Qed.

Lemma wb_again_ok fuel : forall b bs buf,
  wb_ok (WB (full b ++ [current b]) blk_alloc (wb_len b) 0) bs -> (length buf < fuel)%nat ->
  Z.of_nat (length bs + length buf) < 2^31 ->
  exists r, wb_again fuel b buf = Ok r /\ wb_ok r (bs ++ buf).
Proof.
  induction fuel as [|fuel IH]; intros b bs buf Hok Hf Hbig; [lia|]. cbn [wb_again].
  apply wb_copy_ok; [done|left; cbn; lia|done|]. intros b' bs' buf' Hok' Hlt E.
  rewrite <- E. apply IH; [done|lia|]. apply (f_equal length) in E. rewrite !length_app in E. lia.
Qed.

(** [wb_push] appends. *)
Lemma wb_push_ok b bs buf : wb_ok b bs -> Z.of_nat (length bs + length buf) < 2^31 ->
  exists r, wb_push b buf = Ok r /\ wb_ok r (bs ++ buf).
Proof.
  intros Hok Hbig. unfold wb_push, BLOCK_SIZE. cbv zeta.
  destruct (Z.eqb_spec (wb_ptr b) 128) as [E|E].
  - apply wb_again_ok; [|lia|done]. destruct Hok as [Hf Hc Hp Hb Hl].
    split; cbn [full current wb_ptr wb_len]; [|done|lia| |done].
    + apply Forall_app. split; [done|]. by constructor.
    + rewrite take_0, app_nil_r, concat_app. cbn [concat]. rewrite app_nil_r, <- Hb. f_equal.
      rewrite E. symmetry. apply take_ge. lia.
  - apply wb_copy_ok; [done|left; destruct Hok; lia|done|]. intros b' bs' buf' Hok' Hlt E'.
    rewrite <- E'. apply wb_again_ok; [done|lia|]. apply (f_equal length) in E'. rewrite !length_app in E'. lia.
Qed.

Lemma init_reads (l : list Z) : mapM init_read (Some <$> l) = Ok l.
Proof. induction l as [|x l IH]; [done|]. cbn. by rewrite IH. Qed.

(** [seri] copies what was written. *)
Lemma seri_loop_ok blocks : forall bs rest, Forall (fun blk => length blk = 128%nat) blocks ->
  concat blocks = (Some <$> bs) ++ rest -> seri_loop blocks (Z.of_nat (length bs)) = Ok bs.
Proof.
  induction blocks as [|b blocks IH]; intros bs rest Hl E.
  - symmetry in E. apply app_eq_nil in E as [E _]. by apply fmap_nil_inv in E as ->.
  - apply Forall_cons in Hl as [Hb Hl]. cbn [seri_loop concat] in *. unfold BLOCK_SIZE.
    destruct (Z.ltb_spec 0 (Z.of_nat (length bs))) as [Hpos|]; [|by destruct bs; [|cbn in *; lia]].
    assert (Htake : forall k, (k <= 128)%nat -> (k <= length bs)%nat -> take k b = Some <$> take k bs).
    { intros k H1 H2. assert (take k (b ++ concat blocks) = take k ((Some <$> bs) ++ rest)) as Hk by by rewrite E.
      rewrite take_app_le in Hk by lia. rewrite take_app_le in Hk by (rewrite length_fmap; lia).
      by rewrite Hk, fmap_take. }
    assert (Hread : forall k, 0 <= k <= 128 -> mem_read b 0 k = Ok (take (Z.to_nat k) b)).
    { intros k Hk. unfold mem_read. cbn [Z.ltb Z.compare orb]. rewrite drop_0.
      destruct (Z.ltb_spec k 0); [lia|]. by destruct (Z.ltb_spec (Z.of_nat (length b)) (0 + k)); [lia|]. }
    destruct (Z.leb_spec 128 (Z.of_nat (length bs))).
    + rewrite Hread, bind_ret, Htake, init_reads, bind_ret by lia. change (Z.to_nat 128) with 128%nat.
      replace (Z.of_nat (length bs) - 128) with (Z.of_nat (length (drop 128 bs))) by (rewrite length_drop; lia).
      rewrite (IH (drop 128 bs) rest); [rewrite bind_ret; by rewrite take_drop|done|].
      assert (drop 128 (b ++ concat blocks) = drop 128 ((Some <$> bs) ++ rest)) as Hk by by rewrite E.
      rewrite (drop_app_length' b) in Hk by lia. rewrite Hk, drop_app_le by (rewrite length_fmap; lia).
      by rewrite fmap_drop.
    + rewrite Hread, bind_ret, Htake, init_reads by lia. rewrite Nat2Z.id, take_ge by lia. done.
Qed.

Lemma seri_ok b bs : wb_ok b bs -> seri b = Ok bs.
Proof.
  intros [Hf Hc Hp Hb Hl]. unfold seri. rewrite Hl.
  apply (seri_loop_ok _ _ (drop (Z.to_nat (wb_ptr b)) (current b))).
  - apply Forall_app. split; [done|]. by constructor.
  - rewrite <- Hb, <- app_assoc, take_drop, concat_app. cbn [concat]. by rewrite app_nil_r.
Qed.

(** ** Writing a value *)

(** [m] appends [x], or raises [TooDeep] when [deep]. *)
Definition writes (m : write_block -> res write_block) (x : list Z) (deep : bool) : Prop :=
  forall b bs, wb_ok b bs -> Z.of_nat (length bs + length x) < 2^31 ->
    if deep then m b = Raised TooDeep
    else exists b', m b = Done b' /\ wb_ok b' (bs ++ x).

Lemma writes_bind m k x y d1 d2 :
  writes m x d1 -> writes k y d2 -> writes (fun b => m b ≫= k) (x ++ y) (d1 || d2).
Proof.
  intros Hm Hk b bs Hok Hbig. rewrite length_app in Hbig.
  specialize (Hm b bs Hok ltac:(lia)). destruct d1; cbn [orb]; [by rewrite Hm|].
  destruct Hm as (b1 & -> & Hok1). specialize (Hk b1 (bs ++ x) Hok1 ltac:(rewrite length_app; lia)).
  by rewrite app_assoc.
Qed.

Lemma writes_push x : writes (fun b => run (wb_push b x)) x false.
Proof.
  intros b bs Hok Hbig. destruct (wb_push_ok b bs x Hok Hbig) as (b' & -> & Hok'). by exists b'.
Qed.

Lemma writes_ext m m' x d : (forall b, m b = m' b) -> writes m' x d -> writes m x d.
Proof. intros E H b bs. rewrite E. apply H. Qed.

Lemma run_bind {A B} (m : outcome A) (k : A -> outcome B) : run (m ≫= k) = (run m ≫= fun a => run (k a)).
Proof. by destruct m. Qed.

Lemma writes_push2 x y : writes (fun b => run (b ← wb_push b x; wb_push b y)) (x ++ y) false.
Proof.
  eapply writes_ext; [intros b; apply run_bind|].
  apply (writes_bind _ _ x y false false); apply writes_push.
Qed.

Lemma writes_done : writes Done [] false.
Proof. intros b bs Hok _. exists b. by rewrite app_nil_r. Qed.

Lemma writes_integer v : writes (fun b => run (wb_integer b v)) (enc_int v) false.
Proof.
  unfold wb_integer, enc_int. cbv zeta.
  destruct (v =? 0); [apply writes_push|]. destruct (negb _); [apply (writes_push2 [_])|].
  destruct (v <? 0); [apply (writes_push2 [_])|]. destruct (v <? 0x100); [apply (writes_push2 [_])|].
  destruct (v <? 0x10000); apply (writes_push2 [_]).
Qed.

Lemma writes_string s : Z.of_nat (length s) < 2^31 ->
  writes (fun b => run (wb_string b s (i32 (Z.of_nat (length s))))) (enc_string s) false.
Proof.
  intros Hs. rewrite i32_small by lia. unfold wb_string, enc_string, MAX_COOKIE. cbv zeta.
  assert (Hread : mem_read s 0 (Z.of_nat (length s)) = Ok s).
  { unfold mem_read. cbn [Z.ltb Z.compare orb]. destruct (Z.ltb_spec (Z.of_nat (length s)) 0); [lia|].
    destruct (Z.ltb_spec (Z.of_nat (length s)) (0 + Z.of_nat (length s))); [lia|]. cbn [orb].
    by rewrite drop_0, Nat2Z.id, take_ge. }
  rewrite Hread. destruct (Z.ltb_spec (Z.of_nat (length s)) 32).
  - destruct (Z.ltb_spec 0 (Z.of_nat (length s))); [apply (writes_push2 [_])|].
    destruct s; [|cbn in *; lia]. eapply writes_ext; [intros b; apply run_bind|].
    apply (writes_bind _ _ [_] [] false false); [apply writes_push|apply writes_done].
  - eapply writes_ext; [intros b; apply run_bind|].
    destruct (Z.of_nat (length s) <? 0x10000).
    + apply (writes_bind _ _ (_ :: to_le 2 _) s false false); [apply (writes_push2 [_])|]. apply writes_push.
    + apply (writes_bind _ _ (_ :: to_le 4 _) s false false); [apply (writes_push2 [_])|]. apply writes_push.
Qed.

(** The depth test of [pack_one] at [depth]. *)
Definition deep (depth : Z) (v : value) : bool := 32 <? depth + Z.of_nat (height v).

Lemma writes_each depth fuel vs :
  Forall (fun v => writes (pack_one fuel depth v) (enc v) (deep depth v)) vs ->
  writes (pack_each (pack_one fuel depth) vs) (flat_map enc vs) (existsb (deep depth) vs).
Proof.
  induction 1 as [|v vs Hv _ IH]; [apply writes_done|]. cbn [pack_each flat_map existsb]. by apply writes_bind.
Qed.

Lemma writes_pairs depth fuel n ps :
  Forall (fun p => in_array n p.1 = false -> writes (pack_one fuel depth p.1) (enc p.1) (deep depth p.1) /\
                   writes (pack_one fuel depth p.2) (enc p.2) (deep depth p.2)) ps ->
  writes (pack_pairs (pack_one fuel depth) n ps)
    (flat_map (fun '(k, v) => if in_array n k then [] else enc k ++ enc v) ps ++ [TYPE_NIL])
    (existsb (fun '(k, v) => if in_array n k then false else deep depth k || deep depth v) ps).
Proof.
  induction 1 as [|[k v] ps Hp _ IH]; [apply writes_push|]. cbn [pack_pairs flat_map existsb fst snd] in *.
  destruct (in_array n k); [done|]. destruct (Hp eq_refl) as [Hk Hv].
  rewrite <- !app_assoc, <- orb_assoc. apply writes_bind; [done|]. by apply writes_bind.
Qed.

Lemma in_array_zero k : in_array 0 k = false.
Proof. destruct k; try done. cbn. destruct (Z.ltb_spec 0 z); [|done]. cbn. by apply Z.leb_gt. Qed.

Lemma pack_iterated_pairs pack ps : forallb (fun '(k, v) => negb (is_nil k)) ps = true -> forall b,
  pack_iterated pack ps b = pack_pairs pack 0 ps b.
Proof.
  induction ps as [|[k v] ps IH]; intros Hn b; [done|]. cbn [forallb] in Hn. apply andb_true_iff in Hn as [Hk Hps].
  cbn [pack_pairs]. rewrite in_array_zero. cbn [pack_iterated].
  assert ((b1 ← pack k b; b2 ← pack v b1; pack_iterated pack ps b2) = (b1 ← pack k b; b2 ← pack v b1; pack_pairs pack 0 ps b2)) as Hr.
  { destruct (pack k b) as [b1| |]; [|done|done]. cbn. destruct (pack v b1) as [b2| |]; [|done|done]. cbn. by apply IH. }
  destruct k; (done || exact Hr).
Qed.


Lemma deep_max depth a b : (32 <? depth + Z.of_nat (Nat.max a b)) =
  (32 <? depth + Z.of_nat a) || (32 <? depth + Z.of_nat b).
Proof.
  destruct (Z.ltb_spec 32 (depth + Z.of_nat a)), (Z.ltb_spec 32 (depth + Z.of_nat b));
    cbn [orb]; apply Z.ltb_lt || apply Z.ltb_ge; lia.
Qed.

Lemma deep_succ depth v : (32 <? depth + Z.of_nat (S (height v))) = deep (depth + 1) v.
Proof. unfold deep. f_equal. lia. Qed.

Lemma deep_each depth vs : depth <= 32 ->
  (32 <? depth + Z.of_nat (fold_right (fun v m => Nat.max (S (height v)) m) O vs)) = existsb (deep (depth + 1)) vs.
Proof.
  intros Hd. induction vs as [|v vs IH]; [cbn; apply Z.ltb_ge; lia|].
  cbn [fold_right existsb]. by rewrite deep_max, deep_succ, IH.
Qed.

Lemma deep_pairs depth n ps : depth <= 32 ->
  (32 <? depth + Z.of_nat (fold_right (fun '(k, v) m =>
     if in_array n k then m else Nat.max (S (height k)) (Nat.max (S (height v)) m)) O ps)) =
  existsb (fun '(k, v) => if in_array n k then false else deep (depth + 1) k || deep (depth + 1) v) ps.
Proof.
  intros Hd. induction ps as [|[k v] ps IH]; [cbn; apply Z.ltb_ge; lia|].
  cbn [fold_right existsb]. destruct (in_array n k); [done|].
  by rewrite !deep_max, !deep_succ, IH, orb_assoc.
Qed.

(** Without an array part no key is left out. *)
Lemma pairs_all {A} (f : value -> value -> list A) ps :
  flat_map (fun '(k, v) => f k v) ps = flat_map (fun '(k, v) => if in_array 0 k then [] else f k v) ps.
Proof. induction ps as [|[k v] ps IH]; [done|]. cbn [flat_map]. by rewrite in_array_zero, IH. Qed.

Lemma height_pairs ps :
  height (VPairs ps) = fold_right (fun '(k, v) m =>
    if in_array 0 k then m else Nat.max (S (height k)) (Nat.max (S (height v)) m)) O ps.
Proof. cbn [height]. induction ps as [|[k v] ps IH]; [done|]. cbn [fold_right]. by rewrite in_array_zero, IH. Qed.

Lemma writes_size n : 0 <= n < 2^31 ->
  writes (fun b => if MAX_COOKIE - 1 <=? n then
            b ← run (wb_push b [COMBINE_TYPE TYPE_TABLE (MAX_COOKIE - 1)]); run (wb_integer b n)
          else run (wb_push b [COMBINE_TYPE TYPE_TABLE n])) (enc_size n) false.
Proof.
  intros Hn. unfold enc_size, MAX_COOKIE. change (32 - 1) with 31. destruct (31 <=? n).
  - apply (writes_bind _ _ [_] _ false false); [apply writes_push|apply writes_integer].
  - apply writes_push.
Qed.

Lemma res_bind_assoc {A B C} (m : res A) (f : A -> res B) (k : B -> res C) :
  ((m ≫= f) ≫= k) = (m ≫= fun a => f a ≫= k).
Proof. by destruct m. Qed.

Lemma serialisable_pairs ps :
  forallb (fun '(k, v) => negb (is_nil k) && serialisable k && serialisable v) ps = true ->
  forallb (fun '(k, v) => negb (is_nil k)) ps = true /\
  Forall (fun p => serialisable p.1 = true /\ serialisable p.2 = true) ps.
Proof.
  induction ps as [|[k v] ps IH]; [done|]. cbn [forallb].
  intros [[[Hk Hk2]%andb_true_iff Hv]%andb_true_iff Hps]%andb_true_iff. destruct (IH Hps) as [H1 H2].
  split; [by rewrite Hk, H1|by constructor].
Qed.

Lemma pack_one_S fuel depth v b : depth <= 32 ->
  pack_one (S fuel) depth v b =
  match v with
  | VNil => run (wb_nil b)
  | VInt x => run (wb_integer b x)
  | VReal n => run (wb_real b n)
  | VBool x => run (wb_boolean b x)
  | VString s => run (wb_string b s (i32 (Z.of_nat (length s))))
  | VPointer p => run (wb_pointer b p)
  | VTable arr ps =>
      '(b, array_size) ← wb_table_array (pack_one fuel (depth + 1)) arr b;
      wb_table_hash (pack_one fuel (depth + 1)) ps array_size b
  | VPairs ps => wb_table_metapairs (pack_one fuel (depth + 1)) ps b
  | VOther => Raised Unsupported
  end.
Proof. intros Hd. cbn [pack_one]. unfold MAX_DEPTH. by destruct (Z.ltb_spec 32 depth); [lia|]. Qed.

Lemma pack_too_deep fuel v x : writes (pack_one fuel 33 v) x true.
Proof. intros b bs _ _. by destruct fuel. Qed.

Lemma deep_bottom v : deep 33 v = true.
Proof. apply Z.ltb_lt. lia. Qed.

Lemma deep_scalar depth v : height v = O -> depth <= 32 -> deep depth v = false.
Proof. intros Hh Hd. unfold deep. rewrite Hh. apply Z.ltb_ge. lia. Qed.

(** The table case: size, array part, pairs. *)
Lemma pack_table_writes fuel depth arr ps :
  Z.of_nat (length arr) < 2^31 -> depth <= 32 ->
  Forall (fun v => writes (pack_one fuel (depth + 1) v) (enc v) (deep (depth + 1) v)) arr ->
  Forall (fun p => writes (pack_one fuel (depth + 1) p.1) (enc p.1) (deep (depth + 1) p.1) /\
                   writes (pack_one fuel (depth + 1) p.2) (enc p.2) (deep (depth + 1) p.2)) ps ->
  writes (pack_one (S fuel) depth (VTable arr ps)) (enc (VTable arr ps)) (deep depth (VTable arr ps)).
Proof.
  intros Hlen Hd Ha Hp. eapply writes_ext; [intros b; by apply pack_one_S|].
  unfold deep. cbn [height enc]. unfold in_arr. rewrite deep_max, deep_each, deep_pairs by done.
  unfold wb_table_array, wb_table_hash. rewrite i32_small by lia. rewrite Nat2Z.id, take_ge by lia. cbv zeta.
  eapply writes_ext.
  { intros b. rewrite res_bind_assoc.
    instantiate (1 := fun b => (if MAX_COOKIE - 1 <=? Z.of_nat (length arr) then
        b ← run (wb_push b [COMBINE_TYPE TYPE_TABLE (MAX_COOKIE - 1)]); run (wb_integer b (Z.of_nat (length arr)))
      else run (wb_push b [COMBINE_TYPE TYPE_TABLE (Z.of_nat (length arr))])) ≫= fun b =>
      pack_each (pack_one fuel (depth + 1)) arr b ≫= pack_pairs (pack_one fuel (depth + 1)) (Z.of_nat (length arr)) ps).
    cbv beta. destruct (if MAX_COOKIE - 1 <=? _ then _ else _) as [b1| |]; [|done|done]. cbn.
    rewrite res_bind_assoc. by destruct (pack_each _ arr b1). }
  apply (writes_bind _ _ _ _ false); [apply writes_size; lia|].
  apply writes_bind; [by apply writes_each|]. apply writes_pairs.
  eapply Forall_impl; [exact Hp|]. intros x Hx _. exact Hx.
Qed.

(** [pack_one] writes the encoding of a value, or raises an error when the value
    is nested too deeply. *)
Lemma pack_one_writes v : serialisable v = true -> forall fuel depth,
  0 <= depth <= 33 -> 33 - depth <= Z.of_nat fuel ->
  writes (pack_one fuel depth v) (enc v) (deep depth v).
Proof.
  induction v as [|b|z|b|p|s|arr ps IHa IHp|ps IHp|] using value_nested_ind; intros Hs fuel depth Hd Hf;
    (destruct (decide (depth = 33)) as [->|Hne];
     [rewrite deep_bottom; apply pack_too_deep|]);
    (destruct fuel as [|fuel]; [lia|]).
  1-6: rewrite deep_scalar by (done || lia); eapply writes_ext; [intros b0; apply pack_one_S; lia|]; cbn [enc].
  - apply writes_push.
  - apply writes_push.
  - apply writes_integer.
  - apply (writes_push2 [_]).
  - apply (writes_push2 [_]).
  - apply writes_string. cbn in Hs. by apply Z.ltb_lt in Hs.
  - cbn [serialisable] in Hs. apply andb_true_iff in Hs as [[Hl Ha]%andb_true_iff Hp].
    apply serialisable_pairs in Hp as [_ Hp]. apply Z.ltb_lt in Hl.
    apply pack_table_writes; [done|lia| |].
    + apply Forall_forall. intros v Hv. rewrite Forall_forall in IHa. apply IHa; [done| |lia|lia].
      rewrite forallb_forall in Ha. apply Ha. by apply list_elem_of_In.
    + apply Forall_forall. intros p Hin. rewrite Forall_forall in IHp, Hp.
      destruct (IHp p Hin) as [H1 H2], (Hp p Hin) as [H3 H4]. split; [apply H1|apply H2]; (done || lia).
  - cbn [serialisable] in Hs. apply serialisable_pairs in Hs as [Hn Hp].
    eapply writes_ext; [intros b0; apply pack_one_S; lia|]. unfold deep. rewrite height_pairs, deep_pairs by lia.
    cbn [enc]. rewrite (pairs_all (fun k v => enc k ++ enc v)). unfold wb_table_metapairs.
    apply (writes_bind _ _ [_] _ false); [apply writes_push|].
    eapply writes_ext; [intros b0; by apply pack_iterated_pairs|]. apply writes_pairs.
    apply Forall_forall. intros p Hin _. rewrite Forall_forall in IHp, Hp.
    destruct (IHp p Hin) as [H1 H2], (Hp p Hin) as [H3 H4]. split; [apply H1|apply H2]; (done || lia).
  - done.
Qed.

(** ** Reading a value *)

(** The bytes [bs] are left to read. *)
Record rb_at (rb : read_block) (bs : list Z) : Prop := {
  at_bytes : drop (Z.to_nat (rb_ptr rb)) (rb_buffer rb) = bs;
  at_ptr : 0 <= rb_ptr rb <= Z.of_nat (length (rb_buffer rb));
  at_len : rb_len rb = Z.of_nat (length bs)
}.

(** Reading [n] bytes of what is left. *)
Lemma rb_read_ok rb x rest : rb_at rb (x ++ rest) ->
  exists rb', rb_read rb (Z.of_nat (length x)) = (Some (rb_ptr rb), rb') /\ rb_at rb' rest /\
    rb_buffer rb' = rb_buffer rb /\ mem_read (rb_buffer rb) (rb_ptr rb) (Z.of_nat (length x)) = Ok x.
Proof.
  intros [Hb Hp Hl]. rewrite length_app in Hl. unfold rb_read.
  destruct (Z.ltb_spec (rb_len rb) (Z.of_nat (length x))); [lia|]. eexists. split; [done|].
  assert (Hlen : (length (rb_buffer rb) - Z.to_nat (rb_ptr rb) = length x + length rest)%nat)
    by (rewrite <- length_drop, Hb, length_app; done).
  split; [split; cbn [rb_buffer rb_ptr rb_len]|].
  - replace (Z.to_nat (rb_ptr rb + Z.of_nat (length x))) with (Z.to_nat (rb_ptr rb) + length x)%nat by lia.
    rewrite <- drop_drop, Hb. apply drop_app_length.
  - lia.
  - lia.
  - split; [done|]. unfold mem_read. destruct (Z.ltb_spec (rb_ptr rb) 0); [lia|].
    destruct (Z.ltb_spec (Z.of_nat (length x)) 0); [lia|].
    destruct (Z.ltb_spec (Z.of_nat (length (rb_buffer rb))) (rb_ptr rb + Z.of_nat (length x))); [lia|]. cbn [orb].
    by rewrite Hb, Nat2Z.id, take_app_length.
Qed.

Lemma read_object_ok rb n v rest : rb_at rb (to_le n v ++ rest) ->
  exists rb', read_object rb (Z.of_nat n) = Done (v mod 256 ^ Z.of_nat n, rb') /\ rb_at rb' rest.
Proof.
  intros Hat. destruct (rb_read_ok rb (to_le n v) rest Hat) as (rb' & E & Hat' & Eb & Er). rewrite le_length in *.
  unfold read_object. rewrite E, Eb, Er. cbn. exists rb'. by rewrite of_le_le.
Qed.

Lemma get_buffer_ok rb s rest : rb_at rb (s ++ rest) -> Z.of_nat (length s) < 2^31 ->
  exists rb', get_buffer rb (Z.of_nat (length s)) = Done (VString s, rb') /\ rb_at rb' rest.
Proof.
  intros Hat Hs. destruct (rb_read_ok rb s rest Hat) as (rb' & E & Hat' & Eb & Er).
  unfold get_buffer, u64. rewrite E, Z.mod_small, Eb, Er by lia. by exists rb'.
Qed.

Lemma read_byte rb t bs : rb_at rb (t :: bs) -> exists rb', read_object rb 1 = Done (t, rb') /\ rb_at rb' bs.
Proof.
  intros Hat. destruct (rb_read_ok rb [t] bs Hat) as (rb' & E & Hat' & Eb & Er).
  change (Z.of_nat (length [t])) with 1 in E, Er. unfold read_object. rewrite E, Eb, Er. cbn. exists rb'. split; [|done]. do 2 f_equal. lia.
Qed.

(** What [push_value] makes of the encoding behind the type byte. *)
Definition reads (v : value) : Prop :=
  exists t tl, enc v = t :: tl /\ forall fuel rb rest, rb_at rb (tl ++ rest) ->
    (4 * length (enc v) <= fuel + 1)%nat ->
    exists rb', push_value fuel rb (Z.land t 7) (Z.shiftr t 3) = Done (norm v, rb') /\ rb_at rb' rest.

Lemma unpack_one_ok v fuel rb rest : reads v -> rb_at rb (enc v ++ rest) -> (4 * length (enc v) <= fuel)%nat ->
  exists rb', unpack_one fuel rb = Done (norm v, rb') /\ rb_at rb' rest.
Proof.
  intros (t & tl & E & Hr) Hat Hf. rewrite E in Hat, Hf. destruct fuel as [|fuel]; [cbn in Hf; lia|].
  destruct (read_byte rb t (tl ++ rest) Hat) as (rb1 & E1 & Hat1). cbn [unpack_one]. rewrite E1. cbn [mbind res_bind].
  apply Hr; [done|]. rewrite E. lia.
Qed.

(** A type byte is what [COMBINE_TYPE] made it. *)
Ltac type_byte t v := destruct (combine_type t v) as (_ & -> & ->); [lia|lia|].

(** Integers of every width come back. *)
Lemma i32_mod z : i32 z = z -> i32 (z mod 2^32) = z.
Proof.
  unfold i32. intros E. rewrite <- E at 2. f_equal. rewrite Zplus_mod_idemp_l. done.
Qed.

Lemma i64_mod z : -2^63 <= z < 2^63 -> i64 (z mod 2^64) = z.
Proof.
  intros Hz. unfold i64. rewrite Zplus_mod_idemp_l, Z.mod_small by lia. lia.
Qed.

Lemma get_integer_ok z t tl rb rest : -2^63 <= z < 2^63 -> enc_int z = t :: tl -> rb_at rb (tl ++ rest) ->
  Z.land t 7 = TYPE_NUMBER /\ Z.shiftr t 3 <> TYPE_NUMBER_REAL /\
  exists rb', get_integer rb (Z.shiftr t 3) = Done (z, rb') /\ rb_at rb' rest.
Proof.
  intros Hz. unfold enc_int, TYPE_NUMBER, TYPE_NUMBER_ZERO, TYPE_NUMBER_BYTE, TYPE_NUMBER_WORD, TYPE_NUMBER_DWORD,
    TYPE_NUMBER_QWORD, TYPE_NUMBER_REAL.
  destruct (Z.eqb_spec z 0) as [->|Hnz].
  { intros [= <- <-] Hat. type_byte 2 0. split; [done|]. split; [done|]. by exists rb. }
  destruct (Z.eqb_spec z (i32 z)) as [E32|E32]; cbn [negb].
  2: { intros [= <- <-] Hat. type_byte 2 6. split; [done|]. split; [done|].
       destruct (read_object_ok rb 8 z rest Hat) as (rb' & E & Hat'). exists rb'. split; [|done].
       unfold get_integer. cbn [Z.eqb Pos.eqb].
       change (256 ^ Z.of_nat 8) with (2^64) in E. change (Z.of_nat 8) with 8 in E. rewrite E. cbn [mbind res_bind]. by rewrite (i64_mod z Hz). }
  assert (Hr : -2^31 <= z < 2^31).
  { rewrite E32. unfold i32. pose proof (Z.mod_pos_bound (z + 2^31) (2^32)). lia. }
  assert (Hd : forall rb, rb_at rb (to_le 4 z ++ rest) ->
    exists rb', get_integer rb 4 = Done (z, rb') /\ rb_at rb' rest).
  { intros rb0 Hat. destruct (read_object_ok rb0 4 z rest Hat) as (rb' & E & Hat'). exists rb'. split; [|done].
    unfold get_integer. cbn [Z.eqb Pos.eqb]. change (256 ^ Z.of_nat 4) with (2^32) in E.
    change (Z.of_nat 4) with 4 in E. rewrite E. cbn [mbind res_bind]. by rewrite (i32_mod z (eq_sym E32)). }
  destruct (Z.ltb_spec z 0).
  { intros [= <- <-] Hat. type_byte 2 4. split; [done|]. split; [done|]. by apply Hd. }
  destruct (Z.ltb_spec z 0x100).
  { intros [= <- <-] Hat. type_byte 2 1. split; [done|]. split; [done|].
    destruct (read_object_ok rb 1 z rest Hat) as (rb' & E & Hat'). exists rb'. split; [|done].
    change (Z.of_nat 1) with 1 in E. unfold get_integer. cbn [Z.eqb Pos.eqb]. rewrite E. by rewrite Z.mod_small by lia. }
  destruct (Z.ltb_spec z 0x10000).
  { intros [= <- <-] Hat. type_byte 2 2. split; [done|]. split; [done|].
    destruct (read_object_ok rb 2 z rest Hat) as (rb' & E & Hat'). exists rb'. split; [|done].
    change (Z.of_nat 2) with 2 in E. unfold get_integer. cbn [Z.eqb Pos.eqb]. rewrite E. by rewrite Z.mod_small by lia. }
  intros [= <- <-] Hat. type_byte 2 4. split; [done|]. split; [done|]. by apply Hd.
Qed.

Lemma enc_int_cons z : exists t tl, enc_int z = t :: tl.
Proof. unfold enc_int. repeat case_match; by eexists _, _. Qed.

Ltac decide_type :=
  cbn [push_value];
  cbv [TYPE_NIL TYPE_BOOLEAN TYPE_NUMBER TYPE_USERDATA TYPE_SHORT_STRING TYPE_LONG_STRING TYPE_TABLE TYPE_NUMBER_REAL];
  cbn [Z.eqb Pos.eqb].

Lemma reads_int z : -2^63 <= z < 2^63 -> reads (VInt z).
Proof.
  intros Hz. destruct (enc_int_cons z) as (t & tl & E). exists t, tl. split; [done|].
  intros fuel rb rest Hat Hf. cbn [enc] in Hf. rewrite E in Hf. cbn [length] in Hf.
  destruct fuel as [|fuel]; [lia|].
  destruct (get_integer_ok z t tl rb rest Hz E Hat) as (-> & Hnr & rb' & Eg & Hat'). decide_type.
  destruct (Z.eqb_spec (Z.shiftr t 3) 8); [done|]. rewrite Eg. by exists rb'.
Qed.

(** A real and a pointer are eight bytes. *)
Lemma read_eight rb b rest : 0 <= b < 2^64 -> rb_at rb (to_le 8 b ++ rest) ->
  exists rb', read_object rb 8 = Done (b, rb') /\ rb_at rb' rest.
Proof.
  intros Hb Hat. destruct (read_object_ok rb 8 b rest Hat) as (rb' & E & Hat'). exists rb'. split; [|done].
  change (256 ^ Z.of_nat 8) with (2^64) in E. by rewrite Z.mod_small in E by lia.
Qed.

Lemma reads_real b : 0 <= b < 2^64 -> reads (VReal b).
Proof.
  intros Hb. eexists _, _. split; [done|]. intros fuel rb rest Hat Hf. cbn [enc length] in Hf.
  destruct fuel as [|fuel]; [lia|]. unfold TYPE_NUMBER, TYPE_NUMBER_REAL in *. type_byte 2 8. decide_type.
  destruct (read_eight rb b rest Hb Hat) as (rb' & E & Hat'). unfold get_real. rewrite E. by exists rb'.
Qed.

Lemma reads_pointer b : 0 <= b < 2^64 -> reads (VPointer b).
Proof.
  intros Hb. eexists _, _. split; [done|]. intros fuel rb rest Hat Hf. cbn [enc length] in Hf.
  destruct fuel as [|fuel]; [lia|]. change (Z.land TYPE_USERDATA 7) with 3. decide_type.
  destruct (read_eight rb b rest Hb Hat) as (rb' & E & Hat'). unfold get_pointer. rewrite E. by exists rb'.
Qed.

Lemma reads_string s : Z.of_nat (length s) < 2^31 -> reads (VString s).
Proof.
  intros Hs. unfold reads. cbn [enc norm]. unfold enc_string. cbv zeta.
  unfold TYPE_SHORT_STRING, TYPE_LONG_STRING.
  destruct (Z.ltb_spec (Z.of_nat (length s)) 32);
    [|destruct (Z.ltb_spec (Z.of_nat (length s)) 0x10000)]; eexists _, _; (split; [done|]);
    intros fuel rb rest Hat Hf; cbn [length] in Hf; (destruct fuel as [|fuel]; [lia|]).
  - type_byte 4 (Z.of_nat (length s)). decide_type. by apply get_buffer_ok.
  - type_byte 5 2. decide_type. rewrite <- app_assoc in Hat.
    destruct (read_object_ok rb 2 _ _ Hat) as (rb1 & E & Hat1). unfold get_long_string. cbn [Z.eqb Pos.eqb].
    change (Z.of_nat 2) with 2 in E. rewrite E. cbn [mbind res_bind]. rewrite Z.mod_small by lia.
    by apply get_buffer_ok.
  - type_byte 5 4. decide_type. rewrite <- app_assoc in Hat.
    destruct (read_object_ok rb 4 _ _ Hat) as (rb1 & E & Hat1). unfold get_long_string. cbn [Z.eqb Pos.eqb negb].
    change (256 ^ Z.of_nat 4) with (2^32) in E. change (Z.of_nat 4) with 4 in E. rewrite E. cbn [mbind res_bind].
    rewrite Z.mod_small, i32_small by lia. by apply get_buffer_ok.
Qed.

(** ** Tables *)

Lemma table_size_ok n t tl rb rest : 0 <= n < 2^31 -> enc_size n = t :: tl -> rb_at rb (tl ++ rest) ->
  Z.land t 7 = TYPE_TABLE /\ exists rb', table_size rb (Z.shiftr t 3) = Done (n, rb') /\ rb_at rb' rest.
Proof.
  intros Hn. unfold enc_size, TYPE_TABLE. destruct (Z.leb_spec 31 n) as [Hbig|Hsmall]; intros [= <- <-] Hat.
  - type_byte 6 31. split; [done|]. destruct (enc_int_cons n) as (t & tl & E). rewrite E in Hat.
    destruct (read_byte rb t (tl ++ rest) Hat) as (rb1 & E1 & Hat1).
    destruct (get_integer_ok n t tl rb1 rest) as (Ht & Hnr & rb' & Eg & Hat'); [lia|done|done|].
    exists rb'. split; [|done]. unfold table_size, MAX_COOKIE. cbn [Z.eqb Pos.eqb Z.sub Z.add Z.opp Z.pos_sub Pos.pred_double].
    change (31 =? 32 - 1) with true. cbn iota. rewrite E1. cbn [mbind res_bind]. rewrite Ht, Z.eqb_refl. cbn [negb orb].
    destruct (Z.eqb_spec (Z.shiftr t 3) TYPE_NUMBER_REAL); [done|]. rewrite Eg. cbn [mbind res_bind].
    by rewrite i32_small by lia.
  - type_byte 6 n. split; [done|]. exists rb. split; [|done]. unfold table_size, MAX_COOKIE.
    by destruct (Z.eqb_spec n (32 - 1)); [lia|].
Qed.

Lemma enc_nonempty v : reads v -> (1 <= length (enc v))%nat.
Proof. intros (t & tl & -> & _). cbn. lia. Qed.

Lemma unpack_array_ok vs : Forall reads vs -> forall fuel i n rb rest,
  rb_at rb (flat_map enc vs ++ rest) -> (1 + 4 * length (flat_map enc vs) <= fuel)%nat ->
  n = i - 1 + Z.of_nat (length vs) ->
  exists rb', unpack_array fuel rb i n = Done (map norm vs, rb') /\ rb_at rb' rest.
Proof.
  induction 1 as [|v vs Hv _ IH]; intros fuel i n rb rest Hat Hf ->; (destruct fuel as [|fuel]; [cbn in Hf; lia|]);
    cbn [unpack_array flat_map length map] in *.
  - destruct (Z.leb_spec i (i - 1 + Z.of_nat 0)); [lia|]. by exists rb.
  - rewrite length_app in Hf. rewrite <- app_assoc in Hat. pose proof (enc_nonempty v Hv).
    destruct (Z.leb_spec i (i - 1 + Z.of_nat (S (length vs)))); [|lia].
    destruct (unpack_one_ok v fuel rb _ Hv Hat) as (rb1 & -> & Hat1); [lia|]. cbn [mbind res_bind].
    destruct (IH fuel (i + 1) (i - 1 + Z.of_nat (S (length vs))) rb1 rest Hat1) as (rb2 & -> & Hat2); [lia|lia|].
    by exists rb2.
Qed.

Lemma norm_nil k : is_nil k = false -> is_nil (norm k) = false.
Proof. by destruct k. Qed.

Lemma unpack_pairs_ok n ps :
  Forall (fun p => reads p.1 /\ reads p.2) ps -> forallb (fun '(k, v) => negb (is_nil k)) ps = true ->
  forall fuel rb rest,
  let bytes := flat_map (fun '(k, v) => if in_array n k then [] else enc k ++ enc v) ps ++ [TYPE_NIL] in
  rb_at rb (bytes ++ rest) -> (1 + 4 * length bytes <= fuel)%nat ->
  exists rb', unpack_pairs fuel rb = Done (flat_map (fun '(k, v) => if in_array n k then [] else [(norm k, norm v)]) ps, rb') /\
    rb_at rb' rest.
Proof.
  induction 1 as [|[k v] ps [Hk Hv] _ IH]; intros Hn fuel rb rest bytes Hat Hf; subst bytes; cbn [flat_map] in *.
  - cbn [app length] in *. destruct fuel as [|[|fuel]]; [lia|lia|]. cbn [unpack_pairs unpack_one].
    destruct (read_byte rb TYPE_NIL rest Hat) as (rb' & -> & Hat'). cbn [mbind res_bind].
    destruct fuel as [|fuel]; [lia|]. cbn. by exists rb'.
  - cbn [forallb fst snd] in *. apply andb_true_iff in Hn as [Hnk Hn]. apply negb_true_iff in Hnk.
    destruct (in_array n k); [by apply IH|]. rewrite !length_app in Hf. cbn [length] in Hf. rewrite <- !app_assoc in Hat.
    pose proof (enc_nonempty k Hk). pose proof (enc_nonempty v Hv). destruct fuel as [|fuel]; [lia|]. cbn [unpack_pairs].
    destruct (unpack_one_ok k fuel rb _ Hk Hat) as (rb1 & -> & Hat1); [lia|]. cbn [mbind res_bind].
    rewrite (norm_nil k Hnk).
    destruct (unpack_one_ok v fuel rb1 _ Hv Hat1) as (rb2 & -> & Hat2); [lia|]. cbn [mbind res_bind].
    destruct (IH Hn fuel rb2 rest) as (rb3 & -> & Hat3); [by rewrite <- app_assoc|rewrite length_app; cbn [length]; lia|].
    by exists rb3.
Qed.

Lemma reads_table_gen n arr ps v t tl :
  n = Z.of_nat (length arr) -> n < 2^31 -> Forall reads arr ->
  Forall (fun p => reads p.1 /\ reads p.2) ps -> forallb (fun '(k, v) => negb (is_nil k)) ps = true ->
  enc_size n = t :: tl ->
  enc v = enc_size n ++ flat_map enc arr ++
    flat_map (fun '(k, v) => if in_array n k then [] else enc k ++ enc v) ps ++ [TYPE_NIL] ->
  norm v = VTable (map norm arr) (flat_map (fun '(k, v) => if in_array n k then [] else [(norm k, norm v)]) ps) ->
  reads v.
Proof.
  intros En Hn Ha Hp Hnil Es Ee Enorm. rewrite Es in Ee. eexists t, _. split; [exact Ee|].
  intros fuel rb rest Hat Hf. rewrite Ee in Hf. cbn [app length] in Hf. rewrite <- app_assoc in Hat.
  destruct (table_size_ok n t tl rb _ ltac:(lia) Es Hat) as (Ht & rb1 & Et & Hat1).
  rewrite !length_app in Hf. cbn [length] in Hf. destruct fuel as [|[|fuel]]; [lia|lia|].
  rewrite Ht. decide_type. cbn [unpack_table]. rewrite Et. cbn [mbind res_bind]. rewrite <- app_assoc in Hat1.
  destruct (unpack_array_ok arr Ha fuel 1 n rb1 _ Hat1) as (rb2 & -> & Hat2); [lia|lia|]. cbn [mbind res_bind].
  destruct (unpack_pairs_ok n ps Hp Hnil fuel rb2 rest Hat2) as (rb3 & -> & Hat3);
    [rewrite length_app; cbn [length]; lia|]. cbn [mbind res_bind]. rewrite Enorm. by exists rb3.
Qed.

Lemma enc_size_cons n : exists t tl, enc_size n = t :: tl.
Proof. unfold enc_size. case_match; by eexists _, _. Qed.

Lemma value_reads v : serialisable v = true -> reads v.
Proof.
  induction v as [|b|z|b|p|s|arr ps IHa IHp|ps IHp|] using value_nested_ind; intros Hs; cbn [serialisable] in Hs.
  - eexists _, _. split; [done|]. intros fuel rb rest Hat Hf. destruct fuel; [cbn in Hf; lia|]. by exists rb.
  - eexists _, _. split; [done|]. intros fuel rb rest Hat Hf. destruct fuel; [cbn in Hf; lia|]. by destruct b; exists rb.
  - apply andb_true_iff in Hs as [?%Z.leb_le ?%Z.ltb_lt]. by apply reads_int.
  - apply andb_true_iff in Hs as [?%Z.leb_le ?%Z.ltb_lt]. by apply reads_real.
  - apply andb_true_iff in Hs as [?%Z.leb_le ?%Z.ltb_lt]. by apply reads_pointer.
  - apply reads_string. by apply Z.ltb_lt.
  - apply andb_true_iff in Hs as [[Hl Ha]%andb_true_iff Hp]. apply serialisable_pairs in Hp as [Hn Hp].
    apply Z.ltb_lt in Hl. destruct (enc_size_cons (Z.of_nat (length arr))) as (t & tl & E).
    apply (reads_table_gen (Z.of_nat (length arr)) arr ps _ t tl); try done.
    + apply Forall_forall. intros v Hv. rewrite Forall_forall in IHa. apply IHa; [done|].
      rewrite forallb_forall in Ha. apply Ha. by apply list_elem_of_In.
    + apply Forall_forall. intros p Hin. rewrite Forall_forall in IHp, Hp.
      destruct (IHp p Hin), (Hp p Hin). auto.
  - apply serialisable_pairs in Hs as [Hn Hp].
    apply (reads_table_gen 0 [] ps _ (COMBINE_TYPE TYPE_TABLE 0) []); try done.
    + apply Forall_forall. intros p Hin. rewrite Forall_forall in IHp, Hp.
      destruct (IHp p Hin), (Hp p Hin). auto.
    + cbn [enc]. by rewrite (pairs_all (fun k v => enc k ++ enc v)).
    + cbn [norm map]. f_equal. clear. induction ps as [|[k v] ps IH]; [done|].
      cbn [map flat_map]. by rewrite in_array_zero, IH.
  - done.
Qed.

(** ** The calls from Lua *)

Lemma unpack_loop_ok vs : Forall reads vs -> forall fuel rb,
  rb_at rb (flat_map enc vs) -> (length (flat_map enc vs) < fuel)%nat ->
  unpack_loop fuel rb = Done (map norm vs).
Proof.
  induction 1 as [|v vs Hv _ IH]; intros fuel rb Hat Hf; (destruct fuel as [|fuel]; [cbn in Hf; lia|]);
    cbn [unpack_loop flat_map map] in *.
  - unfold rb_read. rewrite (at_len _ _ Hat). done.
  - pose proof Hv as (t & tl & E & Hr). rewrite E in Hat, Hf. rewrite length_app in Hf. cbn [app length] in Hat, Hf.
    destruct (rb_read_ok rb [t] _ Hat) as (rb1 & E1 & Hat1 & Eb & Er). change (Z.of_nat (length [t])) with 1 in E1, Er.
    rewrite E1. destruct Hat as [Hbytes Hptr Hlen].
    assert (rb_buffer rb !! Z.to_nat (rb_ptr rb) = Some t) as Hlk.
    { replace (Z.to_nat (rb_ptr rb)) with (Z.to_nat (rb_ptr rb) + 0)%nat by lia.
      by rewrite <- lookup_drop, Hbytes. }
    rewrite Eb, (arr_get_ok _ _ t) by (lia || done). cbn [run mbind res_bind].
    destruct (Hr (value_fuel rb1) rb1 (flat_map enc vs) Hat1) as (rb2 & -> & Hat2).
    { unfold value_fuel. rewrite E, (at_len _ _ Hat1), length_app. cbn [length]. lia. }
    cbn [mbind res_bind]. rewrite (IH fuel rb2 Hat2) by lia. done.
Qed.

Definition packed_size (vs : list value) : Z := Z.of_nat (length (flat_map enc vs)).

Lemma pack_writes vs : Forall (fun v => serialisable v = true) vs ->
  writes (pack_from vs) (flat_map enc vs) (existsb (deep 0) vs).
Proof.
  intros Hs. apply writes_each. eapply Forall_impl; [exact Hs|]. intros v Hv. apply pack_one_writes; [done|lia|lia].
Qed.

(** C32.  What one service packs, another unpacks: for any list of Lua values made
    of nil, booleans, 64-bit integers, floats, light userdata, strings and
    tables nested at most 32 deep, whose packed size fits an [int],
    [luaseri_pack] returns a block, and [luaseri_unpack] of it returns the same
    values, tables with the same array part and the same other pairs in the
    order in which [lua_next] gave them. *)
Theorem seri_roundtrip vs :
  Forall (fun v => serialisable v = true) vs -> Forall (fun v => (height v <= 32)%nat) vs ->
  packed_size vs < 2^31 ->
  exists block, luaseri_pack vs = Done block /\ luaseri_unpack block = Done (map norm vs).
Proof.
  intros Hs Hh Hsize. exists (flat_map enc vs).
  assert (Hd : existsb (deep 0) vs = false).
  { clear Hs Hsize. induction Hh as [|v vs Hv _ IH]; [done|]. cbn [existsb]. rewrite IH, orb_false_r.
    apply Z.ltb_ge. lia. }
  pose proof (pack_writes vs Hs wb_init [] wb_init_ok Hsize) as Hw. rewrite Hd in Hw.
  destruct Hw as (wb & E & Hok). split.
  - unfold luaseri_pack. rewrite E. cbn [mbind res_bind]. by rewrite (seri_ok _ _ Hok).
  - unfold luaseri_unpack, packed_size in *. cbv zeta. rewrite i32_small by lia.
    assert (Hr : Forall reads vs) by (eapply Forall_impl; [exact Hs|]; apply value_reads).
    destruct (Z.eqb_spec (Z.of_nat (length (flat_map enc vs))) 0) as [E0|E0].
    + destruct Hr as [|v vs Hv _]; [done|]. pose proof (enc_nonempty v Hv). cbn [flat_map] in E0.
      rewrite length_app in E0. lia.
    + apply unpack_loop_ok; [done| |lia]. split; cbn; [done|lia|done].
Qed.

(** Tables nested deeper than 32 levels (so also cyclic ones, which unfold to
    any depth) are refused: [luaseri_pack] raises its error instead of recursing
    further. *)
Theorem deep_table_raises vs :
  Forall (fun v => serialisable v = true) vs -> Exists (fun v => (32 < height v)%nat) vs ->
  packed_size vs < 2^31 -> luaseri_pack vs = Raised TooDeep.
Proof.
  intros Hs Hd Hsize. pose proof (pack_writes vs Hs wb_init [] wb_init_ok Hsize) as Hw.
  assert (existsb (deep 0) vs = true) as E.
  { apply existsb_exists. apply Exists_exists in Hd as (v & Hin & Hv). exists v.
    split; [by apply list_elem_of_In|]. apply Z.ltb_lt. lia. }
  rewrite E in Hw. unfold luaseri_pack. by rewrite Hw.
Qed.

(** ** Hostile streams *)

(** The result of reading from [rb]: something was read and no more is left than
    before, or an error was raised; a crash is a read out of bounds, and the
    stream then contains the type byte 37 of a string with a 4-byte length. *)
(** A type byte 37 with a length of 2^31 or more behind it. *)
Definition bad_length (block : list Z) : Prop :=
  exists pre d post, block = pre ++ 37 :: d ++ post /\ length d = 4%nat /\ 2^31 <= of_le d.

(** The byte just read is 37. *)
Definition behind_37 (rb : read_block) : Prop :=
  1 <= rb_ptr rb /\ rb_buffer rb !! Z.to_nat (rb_ptr rb - 1) = Some 37.

Definition safe {A} (rb : read_block) (least : Z) (r : res (A * read_block)) : Prop :=
  match r with
  | Done (_, rb') => rb_buffer rb' = rb_buffer rb /\ 0 <= rb_ptr rb' /\
      rb_ptr rb' + rb_len rb' = Z.of_nat (length (rb_buffer rb)) /\ 0 <= rb_len rb' <= rb_len rb - least
  | Raised _ => True
  | Crash f => f = OutOfBounds /\ bad_length (rb_buffer rb)
  end.

Definition valid (rb : read_block) : Prop :=
  0 <= rb_ptr rb /\ 0 <= rb_len rb /\ rb_ptr rb + rb_len rb = Z.of_nat (length (rb_buffer rb)) /\
  Z.of_nat (length (rb_buffer rb)) < 2^31.

Lemma safe_weaken {A} rb n m (r : res (A * read_block)) : safe rb n r -> m <= n -> safe rb m r.
Proof. unfold safe. destruct r as [[a rb']| |]; [|done|done]. intros (H1 & H2 & H3 & H4) Hm. split_and!; (done || lia). Qed.

(** Going on after a read. *)
Lemma safe_bind {A B} rb n m (r : res (A * read_block)) (k : A * read_block -> res (B * read_block)) :
  valid rb -> safe rb n r ->
  (forall a rb', r = Done (a, rb') -> valid rb' -> rb_buffer rb' = rb_buffer rb -> rb_len rb' <= rb_len rb - n ->
     safe rb' m (k (a, rb'))) ->
  safe rb (n + m) (r ≫= k).
Proof.
  intros (Hp & Hl & Hs & Hb) Hr Hk. destruct r as [[a rb']| |]; [|done|done]. cbn [mbind res_bind].
  destruct Hr as (E & H1 & H2 & H3).
  assert (V : valid rb') by (split_and!; rewrite ?E; lia).
  specialize (Hk a rb' eq_refl V E ltac:(lia)). unfold safe in *. destruct (k (a, rb')) as [[b rb2]| |]; [|done|].
  - destruct Hk as (E2 & H4 & H5 & H6). rewrite E2, E in *. split_and!; (done || lia).
  - by rewrite E in Hk.
Qed.

Lemma rb_read_safe rb n : valid rb -> 0 <= n <= rb_len rb ->
  rb_read rb n = (Some (rb_ptr rb), RB (rb_buffer rb) (rb_len rb - n) (rb_ptr rb + n)) /\
  mem_read (rb_buffer rb) (rb_ptr rb) n = Ok (take (Z.to_nat n) (drop (Z.to_nat (rb_ptr rb)) (rb_buffer rb))).
Proof.
  intros (Hp & Hl & Hs & _) Hn. unfold rb_read, mem_read.
  destruct (Z.ltb_spec (rb_len rb) n); [lia|]. destruct (Z.ltb_spec (rb_ptr rb) 0); [lia|].
  destruct (Z.ltb_spec n 0); [lia|]. by destruct (Z.ltb_spec (Z.of_nat (length (rb_buffer rb))) (rb_ptr rb + n)); [lia|].
Qed.

Lemma read_object_safe rb n : valid rb -> 0 <= n -> safe rb n (read_object rb n).
Proof.
  intros V Hn. unfold read_object. destruct (Z.le_gt_cases n (rb_len rb)) as [Hle|Hgt].
  - destruct (rb_read_safe rb n V) as [-> E]; [lia|]. cbn [rb_buffer]. rewrite E. cbn.
    destruct V as (? & ? & ? & ?). split_and!; (done || lia).
  - unfold rb_read. by destruct (Z.ltb_spec (rb_len rb) n); [|lia].
Qed.

(** The byte read is the one at the pointer. *)
Lemma read_object_byte rb t rb' : valid rb -> read_object rb 1 = Done (t, rb') ->
  rb_buffer rb !! Z.to_nat (rb_ptr rb) = Some t /\ rb_ptr rb' = rb_ptr rb + 1.
Proof.
  intros V E. unfold read_object in E. destruct (Z.le_gt_cases 1 (rb_len rb)) as [Hle|Hgt].
  - destruct (rb_read_safe rb 1 V) as [E1 E2]; [lia|]. rewrite E1 in E. cbn [rb_buffer] in E. rewrite E2 in E.
    destruct V as (? & ? & Hs & _). cbn [run mbind res_bind] in E. injection E as <- <-. split; [|done].
    destruct (drop (Z.to_nat (rb_ptr rb)) (rb_buffer rb)) as [|x l] eqn:Ed.
    { apply (f_equal length) in Ed. rewrite length_drop in Ed. cbn in Ed. lia. }
    change (Z.to_nat 1) with 1%nat. cbn [take of_le]. rewrite Z.mul_0_r, Z.add_0_r.
    replace (Z.to_nat (rb_ptr rb)) with (Z.to_nat (rb_ptr rb) + 0)%nat by lia. by rewrite <- lookup_drop, Ed.
  - unfold rb_read in E. by destruct (Z.ltb_spec (rb_len rb) 1); [|lia].
Qed.

Lemma done_safe {A} rb (a : A) : valid rb -> safe rb 0 (Done (a, rb)).
Proof. intros (? & ? & ? & _). split_and!; (done || lia). Qed.

Lemma get_integer_safe rb cookie : valid rb -> safe rb 0 (get_integer rb cookie).
Proof.
  intros V. unfold get_integer.
  assert (Hconv : forall n f, 0 <= n -> safe rb 0 ('(x, rb) ← read_object rb n; Done (f x : Z, rb))).
  { intros n f Hn. apply (safe_weaken _ (n + 0)); [|lia]. apply safe_bind; [done|by apply read_object_safe|].
    intros x rb' _ V' _ _. by apply done_safe. }
  repeat match goal with |- context [if ?b then _ else _] => destruct b end; try done.
  - by apply done_safe.
  - eapply safe_weaken; [apply read_object_safe; done || lia|lia].
  - eapply safe_weaken; [apply read_object_safe; done || lia|lia].
  - apply Hconv. lia.
  - apply Hconv. lia.
Qed.

Lemma get_buffer_safe rb len : valid rb -> - 2^31 <= len < 2^31 -> (len < 0 -> bad_length (rb_buffer rb)) ->
  safe rb 0 (get_buffer rb len).
Proof.
  intros V Hlen Hneg. unfold get_buffer. destruct (Z.le_gt_cases len (rb_len rb)) as [Hle|Hgt].
  - destruct (Z.lt_ge_cases len 0) as [Hn|Hn].
    + unfold rb_read. destruct (Z.ltb_spec (rb_len rb) len); [lia|]. cbn [rb_buffer].
      assert (u64 len = len + 2^64) as -> by (unfold u64; rewrite <- (Z.mod_add _ 1), Z.mod_small by lia; lia).
      destruct V as (? & ? & ? & ?). unfold mem_read. destruct (Z.ltb_spec (rb_ptr rb) 0); [lia|].
      destruct (Z.ltb_spec (len + 2^64) 0); [lia|].
      destruct (Z.ltb_spec (Z.of_nat (length (rb_buffer rb))) (rb_ptr rb + (len + 2^64))); [|lia].
      cbn. split; [done|by apply Hneg].
    + destruct (rb_read_safe rb len V) as [-> E]; [lia|]. cbn [rb_buffer]. unfold u64. rewrite Z.mod_small by lia.
      rewrite E. destruct V as (? & ? & ? & ?). cbn. split_and!; (done || lia).
  - unfold rb_read. by destruct (Z.ltb_spec (rb_len rb) len); [|lia].
Qed.

Lemma of_le_range rb n x rb' : valid rb -> 0 <= n -> Forall (fun b => 0 <= b < 256) (rb_buffer rb) ->
  read_object rb n = Done (x, rb') -> 0 <= x < 256 ^ n.
Proof.
  intros V Hn Hb E. unfold read_object in E. destruct (Z.le_gt_cases n (rb_len rb)) as [Hle|Hgt].
  - destruct (rb_read_safe rb n V) as [E1 E2]; [lia|]. rewrite E1 in E. cbn [rb_buffer] in E. rewrite E2 in E.
    cbn [run mbind res_bind] in E. injection E as <- _.
    assert (Hall : forall l, Forall (fun b => 0 <= b < 256) l -> 0 <= of_le l < 256 ^ Z.of_nat (length l)).
    { intros l. induction 1 as [|y l Hy _ IH]; [done|]. cbn [of_le length]. rewrite Nat2Z.inj_succ, Z.pow_succ_r by lia. nia. }
    set (l := take _ _). specialize (Hall l). destruct V as (? & ? & ? & ?).
    assert (Z.of_nat (length l) = n) as El by (subst l; rewrite length_take, length_drop; lia).
    rewrite El in Hall. apply Hall. subst l. by apply Forall_take, Forall_drop.
  - unfold rb_read in E. by destruct (Z.ltb_spec (rb_len rb) n); [|lia].
Qed.

Lemma i32_range z : - 2^31 <= i32 z < 2^31.
Proof. unfold i32. pose proof (Z.mod_pos_bound (z + 2^31) (2^32)). lia. Qed.

Definition bytes_ok (rb : read_block) : Prop := Forall (fun b => 0 <= b < 256) (rb_buffer rb).

(** A length that is negative as an [int] was 2^31 or more. *)
Lemma long_length_bad rb n rb' : valid rb -> bytes_ok rb -> behind_37 rb -> read_object rb 4 = Done (n, rb') -> i32 n < 0 -> bad_length (rb_buffer rb).
Proof.
  intros V Hb [H1 H37] E Hn. assert (Hr : 0 <= n < 256 ^ 4) by (eapply of_le_range; [exact V| |exact Hb|exact E]; lia).
  assert (Hbig : 2^31 <= n) by (destruct (Z.le_gt_cases (2^31) n); [done|]; rewrite i32_small in Hn by lia; lia).
  unfold read_object in E. destruct (Z.le_gt_cases 4 (rb_len rb)) as [Hle|Hgt]; [|unfold rb_read in E; by destruct (Z.ltb_spec (rb_len rb) 4); [|lia]].
  destruct (rb_read_safe rb 4 V) as [E1 E2]; [lia|]. rewrite E1 in E. cbn [rb_buffer] in E. rewrite E2 in E. cbn [run mbind res_bind] in E. injection E as <- _.
  destruct V as (? & ? & ? & ?). exists (take (Z.to_nat (rb_ptr rb - 1)) (rb_buffer rb)), (take (Z.to_nat 4) (drop (Z.to_nat (rb_ptr rb)) (rb_buffer rb))), (drop (Z.to_nat 4) (drop (Z.to_nat (rb_ptr rb)) (rb_buffer rb))).
  split; [|split; [rewrite length_take, length_drop; lia|done]]. rewrite take_drop.
  replace (Z.to_nat (rb_ptr rb)) with (S (Z.to_nat (rb_ptr rb - 1))) by lia. by rewrite <- drop_S, take_drop.
Qed.

Lemma get_long_string_safe rb cookie : valid rb -> bytes_ok rb -> (cookie = 4 -> behind_37 rb) ->
  safe rb 0 (get_long_string rb cookie).
Proof.
  intros V Hb H37. unfold get_long_string. destruct (cookie =? 2).
  - apply (safe_weaken _ (2 + 0)); [|lia]. apply safe_bind; [done|apply read_object_safe; done || lia|].
    intros n rb' E V' Eb _. assert (0 <= n < 256 ^ 2) by (eapply of_le_range; [exact V| |exact Hb|exact E]; lia).
    apply get_buffer_safe; [done|lia|lia].
  - destruct (Z.eqb_spec cookie 4) as [Ec|]; cbn [negb]; [|done].
    apply (safe_weaken _ (4 + 0)); [|lia]. apply safe_bind; [done|apply read_object_safe; done || lia|].
    intros n rb' E V' Eb _. apply get_buffer_safe; [done|apply i32_range|]. rewrite Eb. intros Hn. eapply long_length_bad; eauto.
Qed.

Lemma table_size_safe rb n : valid rb -> safe rb 0 (table_size rb n).
Proof.
  intros V. unfold table_size. destruct (_ =? _); [|by apply done_safe].
  apply (safe_weaken _ (1 + 0)); [|lia]. apply safe_bind; [done|apply read_object_safe; done || lia|].
  intros t rb1 _ V1 _ _. cbv zeta. destruct (_ || _); [done|].
  apply (safe_bind rb1 0 0); [done|by apply get_integer_safe|]. intros x rb2 _ V2 _ _. by apply done_safe.
Qed.

(** The type byte 37 is the only one of a long string with a 4-byte length. *)
Lemma long_type t : Z.land t 7 = 5 -> Z.shiftr t 3 = 4 -> t = 37.
Proof.
  change 7 with (2^3 - 1). rewrite land_mask, Z.shiftr_div_pow2 by lia. intros H1 H2.
  pose proof (Z.div_mod t (2^3)). lia.
Qed.

(** Fuel is enough and nothing but the bad length crashes, for the five functions
    at once. *)
Lemma unpack_safe fuel : forall rb, valid rb -> bytes_ok rb ->
  ((4 * Z.to_nat (rb_len rb) + 1 <= fuel)%nat -> safe rb 1 (unpack_one fuel rb)) /\
  (forall type cookie, (4 * Z.to_nat (rb_len rb) + 4 <= fuel)%nat -> 0 <= cookie < 32 ->
     (type = 5 -> cookie = 4 -> behind_37 rb) -> safe rb 0 (push_value fuel rb type cookie)) /\
  (forall n, (4 * Z.to_nat (rb_len rb) + 3 <= fuel)%nat -> safe rb 0 (unpack_table fuel rb n)) /\
  (forall i n, (4 * Z.to_nat (rb_len rb) + 2 <= fuel)%nat -> safe rb 0 (unpack_array fuel rb i n)) /\
  ((4 * Z.to_nat (rb_len rb) + 2 <= fuel)%nat -> safe rb 0 (unpack_pairs fuel rb)).
Proof.
  induction fuel as [|fuel IH]; intros rb V Hb; [split_and!; intros; lia|].
  assert (Hnext : forall rb', valid rb' -> rb_buffer rb' = rb_buffer rb -> bytes_ok rb') by (intros rb' _ E; by unfold bytes_ok; rewrite E).
  split_and!.
  - intros Hf. cbn [unpack_one]. replace 1 with (1 + 0) at 1 by lia.
    apply safe_bind; [done|apply read_object_safe; done || lia|]. intros t rb1 E1 V1 Eb Hl.
    destruct (read_object_byte rb t rb1 V E1) as [Et Ep]. assert (Ht : t ∈ rb_buffer rb) by by eapply list_elem_of_lookup_2.
    assert (Hr : 0 <= t < 256) by (unfold bytes_ok in Hb; rewrite Forall_forall in Hb; by apply Hb).
    destruct (IH rb1 V1 (Hnext rb1 V1 Eb)) as (_ & Hpush & _).
    pose proof V as (Hp0 & _). destruct V1 as (? & ? & ? & ?). apply Hpush; [lia| |].
    + rewrite Z.shiftr_div_pow2 by lia. split; [apply Z.div_pos; lia|apply Z.div_lt_upper_bound; lia].
    + intros H5 H4. rewrite (long_type t H5 H4) in Et. split; [lia|]. rewrite Eb, Ep. by replace (rb_ptr rb + 1 - 1) with (rb_ptr rb) by lia.
  - intros type cookie Hf Hc H37. cbn [push_value].
    assert (Hobj : forall A n (f : Z -> A), 0 <= n -> safe rb 0 ('(x, rb) ← read_object rb n; Done (f x, rb))).
    { intros A n f Hn. apply (safe_weaken _ (n + 0)); [|lia]. apply safe_bind; [done|by apply read_object_safe|].
      intros x rb' _ V' _ _. by apply done_safe. }
    destruct (type =? TYPE_NIL); [by apply done_safe|]. destruct (type =? TYPE_BOOLEAN); [by apply done_safe|].
    destruct (type =? TYPE_NUMBER).
    { destruct (_ =? _); [apply Hobj; lia|]. apply (safe_bind rb 0 0); [done|by apply get_integer_safe|].
      intros x rb' _ V' _ _. by apply done_safe. }
    destruct (type =? TYPE_USERDATA); [apply Hobj; lia|].
    destruct (type =? TYPE_SHORT_STRING); [apply get_buffer_safe; [done|lia|lia]|].
    destruct (Z.eqb_spec type TYPE_LONG_STRING); [apply get_long_string_safe; auto|].
    destruct (type =? TYPE_TABLE); [|done]. apply IH; [done|done|lia].
  - intros n Hf. cbn [unpack_table]. apply (safe_bind rb 0 0); [done|by apply table_size_safe|].
    intros sz rb1 _ V1 Eb Hl. pose proof (Hnext rb1 V1 Eb) as Hb1. apply (safe_bind rb1 0 0); [done| |].
    { apply IH; [done|done|]. destruct V1; lia. }
    intros arr rb2 _ V2 Eb2 Hl2. assert (Hb2 : bytes_ok rb2) by (unfold bytes_ok; by rewrite Eb2).
    apply (safe_bind rb2 0 0); [done| |].
    { apply IH; [done|done|]. destruct V2 as (_ & ? & _), V1 as (_ & ? & _). lia. }
    intros ps rb3 _ V3 _ _. by apply done_safe.
  - intros i n Hf. cbn [unpack_array]. destruct (i <=? n); [|by apply done_safe].
    apply (safe_weaken _ (1 + 0)); [|lia]. apply safe_bind; [done|apply IH; [done|done|lia]|].
    intros v rb1 _ V1 Eb Hl. pose proof (Hnext rb1 V1 Eb) as Hb1. apply (safe_bind rb1 0 0); [done| |].
    { apply IH; [done|done|]. destruct V1 as (_ & ? & _). lia. }
    intros vs rb2 _ V2 _ _. by apply done_safe.
  - intros Hf. cbn [unpack_pairs].
    apply (safe_weaken _ (1 + 0)); [|lia]. apply safe_bind; [done|apply IH; [done|done|lia]|].
    intros k rb1 _ V1 Eb Hl. pose proof (Hnext rb1 V1 Eb) as Hb1. pose proof V1 as (_ & Hl1 & _).
    destruct (is_nil k); [by apply done_safe|].
    apply (safe_weaken _ (1 + 0)); [|lia]. apply safe_bind; [done|apply IH; [done|done|lia]|].
    intros v rb2 _ V2 Eb2 Hl2. assert (Hb2 : bytes_ok rb2) by (unfold bytes_ok; by rewrite Eb2).
    pose proof V2 as (_ & Hl2' & _). apply (safe_bind rb2 0 0); [done|apply IH; [done|done|lia]|].
    intros ps rb3 _ V3 _ _. by apply done_safe.
Qed.

Lemma unpack_loop_safe fuel : forall rb, valid rb -> bytes_ok rb -> (Z.to_nat (rb_len rb) < fuel)%nat ->
  match unpack_loop fuel rb with Crash f => f = OutOfBounds /\ bad_length (rb_buffer rb) | _ => True end.
Proof.
  induction fuel as [|fuel IH]; intros rb V Hb Hf; [lia|]. cbn [unpack_loop].
  destruct (Z.le_gt_cases 1 (rb_len rb)) as [Hle|Hgt].
  2: { unfold rb_read. by destruct (Z.ltb_spec (rb_len rb) 1); [|lia]. }
  destruct (rb_read_safe rb 1 V) as [-> _]; [lia|]. cbn [rb_buffer].
  pose proof V as (Hp & Hl & Hs & Hbig).
  destruct (lookup_lt_is_Some_2 (rb_buffer rb) (Z.to_nat (rb_ptr rb))) as [t Ht]; [lia|].
  rewrite (arr_get_ok _ _ t Hp Ht). cbn [run mbind res_bind].
  set (rb1 := RB _ _ _). assert (V1 : valid rb1) by (split_and!; cbn; lia).
  assert (Hr : 0 <= t < 256).
  { unfold bytes_ok in Hb. rewrite Forall_forall in Hb. apply Hb. by eapply list_elem_of_lookup_2. }
  destruct (unpack_safe (value_fuel rb1) rb1 V1 Hb) as (_ & Hpush & _).
  specialize (Hpush (Z.land t 7) (Z.shiftr t 3)). unfold value_fuel in *.
  assert (S1 : safe rb1 0 (push_value (4 + 4 * Z.to_nat (rb_len rb1)) rb1 (Z.land t 7) (Z.shiftr t 3))).
  { apply Hpush; [lia| |].
    - rewrite Z.shiftr_div_pow2 by lia. split; [apply Z.div_pos; lia|apply Z.div_lt_upper_bound; lia].
    - intros H5 H4. rewrite (long_type t H5 H4) in Ht. split; cbn [rb_ptr rb_buffer rb1]; [lia|]. by replace (rb_ptr rb + 1 - 1) with (rb_ptr rb) by lia. }
  destruct (push_value _ _ _ _) as [[v rb2]| |]; [|done|done]. cbn [mbind res_bind].
  destruct S1 as (E2 & H1 & H2 & H3). cbn [rb_buffer rb_len rb1] in *.
  assert (V2 : valid rb2) by (split_and!; rewrite ?E2; lia).
  specialize (IH rb2 V2). unfold bytes_ok in IH. rewrite E2 in IH. specialize (IH Hb ltac:(lia)).
  by destruct (unpack_loop fuel rb2).
Qed.

(** C34.  [luaseri_unpack] survives hostile blocks below 2^31 bytes, with one exception:
    on any bytes it terminates with values or with a Lua error, unless the block has
    the type byte of a string with a 4-byte length (37) with a length of 2^31 or more
    behind it, which as an [int] is negative, passes the check in [rb_read] and makes
    [lua_pushlstring] read far out of bounds; the five bytes 37 255 255 255 255
    do it. *)
Theorem unpack_crashes_only_on_length bs :
  Forall (fun b => 0 <= b < 256) bs -> Z.of_nat (length bs) < 2^31 ->
  (match luaseri_unpack bs with Crash f => f = OutOfBounds /\ bad_length bs | _ => True end) /\
  luaseri_unpack [37; 255; 255; 255; 255] = Crash OutOfBounds.
Proof.
  intros Hb Hs. split; [|vm_compute; reflexivity]. unfold luaseri_unpack. cbv zeta. rewrite i32_small by lia.
  destruct (Z.eqb_spec (Z.of_nat (length bs)) 0); [done|].
  apply unpack_loop_safe; [split_and!; cbn; lia|done|cbn; lia].
Qed.

(** ** Witnesses *)

Definition sample_values : list value :=
  [VInt 5; VInt (-3); VString [65; 66]; VBool true; VReal 77; VPointer 4096;
   VTable [VInt 1; VTable [] [(VInt 9, VBool true)]]
     [(VInt 1, VInt 1); (VInt 2, VNil); (VString [70], VInt 70000000000)];
   VPairs [(VInt 1, VString (replicate 200 7))]; VNil].

Lemma seri_roundtrip_witness : exists block,
  luaseri_pack sample_values = Done block /\
  luaseri_unpack block = Done
    [VInt 5; VInt (-3); VString [65; 66]; VBool true; VReal 77; VPointer 4096;
     VTable [VInt 1; VTable [] [(VInt 9, VBool true)]] [(VString [70], VInt 70000000000)];
     VTable [] [(VInt 1, VString (replicate 200 7))]; VNil].
Proof.
  apply (seri_roundtrip sample_values).
  - repeat constructor.
  - repeat constructor; apply Nat.leb_le; vm_compute; reflexivity.
  - vm_compute. reflexivity.
Defined.

Fixpoint nest (n : nat) (v : value) : value :=
  match n with O => v | S n => VTable [nest n v] [] end.

Lemma deep_table_witness : luaseri_pack [nest 33 VNil] = Raised TooDeep.
Proof.
  apply deep_table_raises.
  - repeat constructor.
  - apply Exists_cons_hd. apply Nat.ltb_lt. vm_compute. reflexivity.
  - vm_compute. reflexivity.
Defined.

Lemma unpack_crashes_witness :
  luaseri_unpack [22; 10] = Raised (InvalidStream 0) /\ luaseri_unpack [37; 255; 255; 255; 255] = Crash OutOfBounds.
Proof.
  split; [vm_compute; reflexivity|].
  apply (unpack_crashes_only_on_length [22; 10]).
  - repeat constructor; lia.
  - vm_compute. reflexivity.
Defined.
