(* ===== verification/Socket.v ===== *)
(** * The socket server ([skynet-src/socket_server.c])

    One thread owns all sockets.  Services reserve an id and write requests to a
    pipe; the thread reads the pipe and the events of the poller and reports
    what happened.  A socket has two lists of buffers to write, one of high and
    one of low priority.

    The operating system is a script: every system call whose result matters
    takes the next answer from it and leaves a record in the trace.  An answer
    the call cannot give ([write] taking more than it was offered, an event of a
    descriptor the poller does not watch) ends the run with [NoAnswer].  The
    requests in the pipe are values; a pointer to a socket is the index of its
    slot.  The interface for user objects ([socket_server_userobject]) is never
    installed in this program, so a negative size calls a null function. *)

From S2P Require Import Prelude Text.
From Stdlib Require Import ZArith Lia String.
From stdpp Require Import base numbers list gmap.
#[local] Open Scope Z_scope.
#[local] Open Scope list_scope.

Module Sock.

Definition MAX_SOCKET : Z := 2^16.
Definition MAX_EVENT : Z := 64.
Definition MIN_READ_BUFFER : Z := 64.
Definition UDP_ADDRESS_SIZE : Z := 19.
Definition MAX_UDP_PACKAGE : Z := 65535.
Definition WARNING_SIZE : Z := 1024 * 1024.
Definition FD_SETSIZE : Z := 1024.
Definition AF_INET : Z := 2.
Definition AF_INET6 : Z := 10.
Definition TCP_NODELAY : Z := 1.
Definition SO_KEEPALIVE : Z := 9.
Definition HASH_ID (id : Z) : Z := u32 id mod MAX_SOCKET.

Inductive stype :=
  | INVALID | RESERVE | PLISTEN | LISTEN | CONNECTING | CONNECTED | HALFCLOSE | PACCEPT | BIND.
#[global] Instance stype_eq_dec : EqDecision stype.
Proof. solve_decision. Defined.

Inductive protocol := TCP | UDP | UDPv6.
#[global] Instance protocol_eq_dec : EqDecision protocol.
Proof. solve_decision. Defined.

Inductive priority := PRIORITY_HIGH | PRIORITY_LOW.
#[global] Instance priority_eq_dec : EqDecision priority.
Proof. solve_decision. Defined.

(** [ptr] is [w_off] bytes into [w_buffer]. *)
Record write_buffer := WBuf { w_buffer : list Z; w_off : Z; w_sz : Z; w_address : list Z }.

(** The union [p]. *)
Inductive sparam := PSize (size : Z) | PAddress (a : list Z).

Record sockaddr := SA { sa_family : Z; sa_port : list Z; sa_ip : list Z }.

Record socket := Socket {
  opaque : Z; high : list write_buffer; low : list write_buffer; wb_size : Z; fd : Z; id : Z;
  proto : protocol; type : stype; warn_size : Z; p : sparam
}.

Definition set_type x s := Socket (opaque s) (high s) (low s) (wb_size s) (fd s) (id s) (proto s) x (warn_size s) (p s).
Definition set_opaque x s := Socket x (high s) (low s) (wb_size s) (fd s) (id s) (proto s) (type s) (warn_size s) (p s).
Definition set_lists h l n s := Socket (opaque s) h l n (fd s) (id s) (proto s) (type s) (warn_size s) (p s).
Definition wl (pr : priority) (s : socket) : list write_buffer :=
  match pr with PRIORITY_HIGH => high s | PRIORITY_LOW => low s end.
Definition set_wl (pr : priority) (l : list write_buffer) (n : Z) (s : socket) : socket :=
  match pr with PRIORITY_HIGH => set_lists l (low s) n s | PRIORITY_LOW => set_lists (high s) l n s end.
Definition set_warn x s := Socket (opaque s) (high s) (low s) (wb_size s) (fd s) (id s) (proto s) (type s) x (p s).
Definition set_p x s := Socket (opaque s) (high s) (low s) (wb_size s) (fd s) (id s) (proto s) (type s) (warn_size s) x.

(** ** The operating system *)

Inductive errno := EINTR | EAGAIN | EINPROGRESS | EMFILE | ENFILE | EOTHER (code : Z).

Record event := Ev { e_s : option Z; e_read : bool; e_write : bool }.

Inductive answer :=
  | Ret (n : Z)                             (** a count, a descriptor or a code *)
  | Fail (e : errno)
  | Accepted (fd : Z) (sa : sockaddr)
  | Addr (sa : sockaddr)                    (** the first result of [getaddrinfo] *)
  | Data (bytes : list Z) (sa : sockaddr)   (** what was received, and from whom *)
  | Printed (s : list Z)                    (** a printed address *)
  | Events (l : list event).

(** What the calls did. *)
Inductive action :=
  | Wrote (fd : Z) (bytes : list Z)         (** bytes the kernel took *)
  | SentTo (fd : Z) (bytes : list Z) (sa : option sockaddr)
  | Closed (fd : Z)
  | Freed (buffer : list Z)                 (** a payload given back *)
  | PollAdd (fd : Z)
  | PollDel (fd : Z)
  | PollWrite (fd : Z) (enable : bool)
  | NonBlocking (fd : Z)
  | SetOpt (fd what value : Z)
  | Logged (what : Z).                      (** a line on [stderr] about a socket *)

(** What [result->data] points to. *)
Inductive mdata :=
  | DNull | DBytes (b : list Z) | DText (s : list Z) | DErrno (e : errno).

Record socket_message := SMsg { m_id : Z; m_opaque : Z; m_ud : Z; m_data : mdata }.
Definition no_message : socket_message := SMsg 0 0 0 DNull.
Definition with_data (d : mdata) (m : socket_message) : socket_message := SMsg (m_id m) (m_opaque m) (m_ud m) d.

(** What the handlers return; [R_NONE] is -1. *)
Inductive rtype := R_DATA | R_CLOSE | R_OPEN | R_ACCEPT | R_ERR | R_EXIT | R_UDP | R_WARNING | R_NONE.
#[global] Instance rtype_eq_dec : EqDecision rtype.
Proof. solve_decision. Defined.

(** ** Requests *)

Record request_send := RqSend { rs_id : Z; rs_sz : Z; rs_buffer : list Z }.

Inductive request :=
  | Start (i opaque : Z)
  | Bind (i fd opaque : Z)
  | Listen (i fd opaque : Z)
  | Close (i : Z) (shutdown : bool) (opaque : Z)
  | Open (i port opaque : Z) (host : list Z)
  | Exit
  | SendHigh (r : request_send)
  | SendLow (r : request_send)
  | SendUdp (r : request_send) (address : list Z)
  | SetUdp (i : Z) (address : list Z)
  | SetOption (i what value : Z)
  | AddUdp (i fd family opaque : Z).

(** [ev]: the events from [event_index] to [event_n]; [reg]: the slot the poller
    has for each descriptor it watches, and whether it reports that it can be
    written. *)
Record socket_server := Server {
  alloc_id : Z; slot : gmap Z socket; pipe : list request; checkctrl : bool; ev : list event;
  reg : gmap Z (Z * bool); script : list answer; trace : list action
}.

Definition set_alloc x ss := Server x (slot ss) (pipe ss) (checkctrl ss) (ev ss) (reg ss) (script ss) (trace ss).
Definition set_slot x ss := Server (alloc_id ss) x (pipe ss) (checkctrl ss) (ev ss) (reg ss) (script ss) (trace ss).
Definition set_pipe x ss := Server (alloc_id ss) (slot ss) x (checkctrl ss) (ev ss) (reg ss) (script ss) (trace ss).
Definition set_check x ss := Server (alloc_id ss) (slot ss) (pipe ss) x (ev ss) (reg ss) (script ss) (trace ss).
Definition set_ev x ss := Server (alloc_id ss) (slot ss) (pipe ss) (checkctrl ss) x (reg ss) (script ss) (trace ss).
Definition set_reg x ss := Server (alloc_id ss) (slot ss) (pipe ss) (checkctrl ss) (ev ss) x (script ss) (trace ss).
Definition set_script x ss := Server (alloc_id ss) (slot ss) (pipe ss) (checkctrl ss) (ev ss) (reg ss) x (trace ss).

Definition record (a : action) (ss : socket_server) : socket_server :=
  Server (alloc_id ss) (slot ss) (pipe ss) (checkctrl ss) (ev ss) (reg ss) (script ss) (trace ss ++ [a]).

(** A slot that was never used; what it holds besides its type is not read. *)
Definition invalid_socket : socket := Socket 0 [] [] 0 (-1) (-1) TCP INVALID 0 (PSize 0).

Definition slot_at (ss : socket_server) (i : Z) : socket := default invalid_socket (slot ss !! i).
Definition put (i : Z) (s : socket) (ss : socket_server) : socket_server := set_slot (<[i := s]> (slot ss)) ss.

Definition fresh_server (sc : list answer) : socket_server := Server 0 ∅ [] true [] ∅ sc [].

(** ** System calls *)

Definition answer_next (ss : socket_server) : outcome (answer * socket_server) :=
  match script ss with
  | [] => Fault NoAnswer
  | a :: sc => Ok (a, set_script sc ss)
  end.

(** A call that returns a number that is not negative, or fails. *)
Definition sys_int (ss : socket_server) : outcome ((Z + errno) * socket_server) :=
  '(a, ss) ← answer_next ss;
  match a with
  | Ret n => if 0 <=? n then Ok (inl n, ss) else Fault NoAnswer
  | Fail e => Ok (inr e, ss)
  | _ => Fault NoAnswer
  end.

(** [write] of [sz] bytes from [off]: takes a prefix of them, at most all. *)
Definition sys_write (f : Z) (buffer : list Z) (off sz : Z) (ss : socket_server)
    : outcome ((Z + errno) * socket_server) :=
  bytes ← mem_read buffer off sz;
  '(r, ss) ← sys_int ss;
  match r with
  | inl n => if n <=? sz then Ok (inl n, record (Wrote f (take (Z.to_nat n) bytes)) ss) else Fault NoAnswer
  | inr e => Ok (inr e, ss)
  end.

(** [sendto]: a datagram goes whole or not at all. *)
Definition sys_sendto (f : Z) (buffer : list Z) (off sz : Z) (sa : option sockaddr) (ss : socket_server)
    : outcome ((Z + errno) * socket_server) :=
  bytes ← mem_read buffer off sz;
  '(r, ss) ← sys_int ss;
  match r with
  | inl n => if n =? sz then Ok (inl n, record (SentTo f bytes sa) ss) else Fault NoAnswer
  | inr e => Ok (inr e, ss)
  end.

(** An address with the two bytes of the port, of a family the program asks for. *)
Definition well_addressed (sa : sockaddr) : bool :=
  (length (sa_port sa) =? 2)%nat &&
  ((sa_family sa =? AF_INET) && (length (sa_ip sa) =? 4)%nat
   || (sa_family sa =? AF_INET6) && (length (sa_ip sa) =? 16)%nat).

(** [read] and [recvfrom]: at most [sz] bytes. *)
Definition sys_read (sz : Z) (ss : socket_server) : outcome ((list Z * sockaddr + errno) * socket_server) :=
  '(a, ss) ← answer_next ss;
  match a with
  | Data b sa =>
      if (Z.of_nat (length b) <=? sz) && well_addressed sa then Ok (inl (b, sa), ss) else Fault NoAnswer
  | Fail e => Ok (inr e, ss)
  | _ => Fault NoAnswer
  end.

(** [accept]. *)
Definition sys_accept (ss : socket_server) : outcome ((Z * sockaddr + errno) * socket_server) :=
  '(a, ss) ← answer_next ss;
  match a with
  | Accepted f sa => if 0 <=? f then Ok (inl (f, sa), ss) else Fault NoAnswer
  | Fail e => Ok (inr e, ss)
  | _ => Fault NoAnswer
  end.

(** [getaddrinfo] where the first result is all that is used. *)
Definition sys_address (ss : socket_server) : outcome (option sockaddr * socket_server) :=
  '(a, ss) ← answer_next ss;
  match a with
  | Addr sa => if well_addressed sa then Ok (Some sa, ss) else Fault NoAnswer
  | Fail _ => Ok (None, ss)
  | _ => Fault NoAnswer
  end.

(** [inet_ntop]: a string, or nothing. *)
Definition sys_print (ss : socket_server) : outcome (option (list Z) * socket_server) :=
  '(a, ss) ← answer_next ss;
  match a with
  | Printed s => Ok (Some s, ss)
  | Fail _ => Ok (None, ss)
  | _ => Fault NoAnswer
  end.

(** *** The poller ([socket_epoll.h]) *)

(** [sp_add]: [true] when [epoll_ctl] refuses, as it does for a descriptor that
    is watched already. *)
Definition sp_add (f i : Z) (ss : socket_server) : outcome (bool * socket_server) :=
  '(r, ss) ← sys_int ss;
  match r, reg ss !! f with
  | inl _, None => Ok (false, record (PollAdd f) (set_reg (<[f := (i, false)]> (reg ss)) ss))
  | inl _, Some _ => Fault NoAnswer
  | inr _, _ => Ok (true, ss)
  end.

Definition sp_del (f : Z) (ss : socket_server) : socket_server := record (PollDel f) (set_reg (delete f (reg ss)) ss).
(** [EPOLL_CTL_MOD] fails on what is not watched, and nobody looks. *)
Definition sp_write (f i : Z) (enable : bool) (ss : socket_server) : socket_server :=
  record (PollWrite f enable)
    (match reg ss !! f with Some _ => set_reg (<[f := (i, enable)]> (reg ss)) ss | None => ss end).
Definition sp_nonblocking (f : Z) (ss : socket_server) : socket_server := record (NonBlocking f) ss.

Definition watched (ss : socket_server) (i : Z) : bool := existsb (fun '(_, (j, _)) => j =? i) (map_to_list (reg ss)).

(** [sp_wait]: events of what is watched (the pipe, as [None], included), at
    most one for each descriptor and [MAX_EVENT] in all. *)
Definition sp_wait (ss : socket_server) : outcome ((list event + errno) * socket_server) :=
  '(a, ss) ← answer_next ss;
  match a with
  | Events l =>
      if forallb (watched ss) (omap e_s l) && bool_decide (NoDup (omap e_s l))
         && (Z.of_nat (length l) <=? MAX_EVENT) && negb (bool_decide (l = []))
      then Ok (inl l, ss) else Fault NoAnswer
  | Fail e => Ok (inr e, ss)
  | _ => Fault NoAnswer
  end.

(** ** Buffers and slots *)

(** The poller, the pipe and the pipe's place in the poller; [None] is [NULL]. *)
Definition socket_server_create (sc : list answer) : outcome (option socket_server) :=
  '(efd, ss) ← sys_int (fresh_server sc);
  match efd with
  | inr _ => Ok None
  | inl _ =>
      '(recvctrl_fd, ss) ← sys_int ss;
      match recvctrl_fd with
      | inr _ => Ok None
      | inl f =>
          '(added, ss) ← sys_int ss;
          match added with
          | inr _ => Ok None
          | inl _ => _ ← c_assert (f <? FD_SETSIZE); Ok (Some ss)
          end
      end
  end.

(** A payload whose size is negative is a user object, and there is none. *)
Definition send_object_init (buffer : list Z) (sz : Z) : outcome (list Z * Z) :=
  if sz <? 0 then Fault NullPointer else Ok (buffer, sz).

Definition write_buffer_free (wb : write_buffer) (ss : socket_server) : socket_server :=
  record (Freed (w_buffer wb)) ss.

Definition socket_keepalive (f : Z) (ss : socket_server) : socket_server := record (SetOpt f SO_KEEPALIVE 1) ss.

(** [for (i=0;i<MAX_SOCKET;i++)]; in one thread the compare-and-swap succeeds. *)
Fixpoint reserve_loop (n : nat) (ss : socket_server) : Z * socket_server :=
  match n with
  | O => (-1, ss)
  | S n =>
      let i := i32 (alloc_id ss + 1) in
      let i := if i <? 0 then Z.land i 0x7fffffff else i in
      let ss := set_alloc i ss in
      let s := slot_at ss (HASH_ID i) in
      if bool_decide (type s = INVALID) then
        (i, put (HASH_ID i)
              (Socket (opaque s) (high s) (low s) (wb_size s) (-1) i (proto s) RESERVE (warn_size s) (p s)) ss)
      else reserve_loop n ss
  end.
(** One step: in the code the compare-and-swap on [type] and the store of [s->id] and
    [s->fd] behind it are separate, and what another thread may do between them is not
    modelled. *)
Definition reserve_id (ss : socket_server) : Z * socket_server := reserve_loop (Z.to_nat MAX_SOCKET) ss.

Definition free_wb_list (l : list write_buffer) (ss : socket_server) : socket_server :=
  foldl (fun ss wb => write_buffer_free wb ss) ss l.

Definition force_close (i : Z) (ss : socket_server) : outcome (socket_message * socket_server) :=
  let s := slot_at ss i in
  let result := SMsg (id s) (opaque s) 0 DNull in
  if bool_decide (type s = INVALID) then Ok (result, ss)
  else
    _ ← c_assert (bool_decide (type s <> RESERVE));
    let ss := free_wb_list (low s) (free_wb_list (high s) ss) in
    let ss := if bool_decide (type s <> PACCEPT /\ type s <> PLISTEN) then sp_del (fd s) ss else ss in
    let ss := if bool_decide (type s <> BIND) then record (Closed (fd s)) ss else ss in
    Ok (result, put i (set_type INVALID (set_lists [] [] (wb_size s) s)) ss).

Fixpoint release_loop (n : nat) (i : Z) (ss : socket_server) : outcome socket_server :=
  match n with
  | O => Ok ss
  | S n =>
      ss ← (if bool_decide (type (slot_at ss i) <> RESERVE) then '(_, ss) ← force_close i ss; Ok ss else Ok ss);
      release_loop n (i + 1) ss
  end.
Definition socket_server_release (ss : socket_server) : outcome socket_server :=
  release_loop (Z.to_nat MAX_SOCKET) 0 ss.

(** [None]: the poller refused the descriptor. *)
Definition new_fd (i f : Z) (pr : protocol) (op : Z) (add : bool) (ss : socket_server)
    : outcome (option Z * socket_server) :=
  let h := HASH_ID i in
  let s := slot_at ss h in
  _ ← c_assert (bool_decide (type s = RESERVE));
  '(refused, ss) ← (if add then sp_add f h ss else Ok (false, ss));
  if (refused : bool) then Ok (None, put h (set_type INVALID s) ss)
  else
    _ ← c_assert (bool_decide (high s = []));
    _ ← c_assert (bool_decide (low s = []));
    Ok (Some h, put h (Socket op (high s) (low s) 0 f i pr (type s) 0 (PSize MIN_READ_BUFFER)) ss).

(** ** Opening *)

Definition limit_text : list Z := str "reach skynet socket number limit"%string.

(** The addresses of [getaddrinfo] in turn, up to the first that can be connected
    to: the descriptor and whether it is connected already, or the last [errno]. *)
Fixpoint connect_loop (n : nat) (last : errno) (ss : socket_server)
    : outcome ((Z * bool + errno) * socket_server) :=
  match n with
  | O => Ok (inr last, ss)
  | S n =>
      '(r, ss) ← sys_int ss;
      match r with
      | inr e => connect_loop n e ss
      | inl sock =>
          let ss := sp_nonblocking sock (socket_keepalive sock ss) in
          '(c, ss) ← sys_int ss;
          match c with
          | inl _ => Ok (inl (sock, true), ss)
          | inr EINPROGRESS => Ok (inl (sock, false), ss)
          | inr e => connect_loop n e (record (Closed sock) ss)
          end
      end
  end.

Definition open_failed (i op : Z) (d : mdata) (ss : socket_server) : rtype * socket_message * socket_server :=
  let h := HASH_ID i in
  (R_ERR, SMsg i op 0 d, put h (set_type INVALID (slot_at ss h)) ss).

Definition text_or_null (t : option (list Z)) : mdata := match t with Some s => DText s | None => DNull end.

Definition open_socket (i op : Z) (ss : socket_server) : outcome (rtype * socket_message * socket_server) :=
  '(r, ss) ← sys_int ss;
  match r with
  | inr e => Ok (open_failed i op (DErrno e) ss)
  | inl n =>
      '(c, ss) ← connect_loop (Z.to_nat n) (EOTHER 0) ss;
      match c with
      | inr e => Ok (open_failed i op (DErrno e) ss)
      | inl (sock, connected) =>
          '(ns, ss) ← new_fd i sock TCP op true ss;
          match ns with
          | None => Ok (open_failed i op (DText limit_text) (record (Closed sock) ss))
          | Some h =>
              if (connected : bool) then
                let ss := put h (set_type CONNECTED (slot_at ss h)) ss in
                '(t, ss) ← sys_print ss;
                Ok (R_OPEN, SMsg i op 0 (text_or_null t), ss)
              else
                Ok (R_NONE, no_message, sp_write sock h true (put h (set_type CONNECTING (slot_at ss h)) ss))
          end
      end
  end.

(** ** Writing *)

(** Every turn takes an answer, so one turn more than the answers left is enough. *)
Fixpoint send_list_tcp_loop (fuel : nat) (i : Z) (pr : priority) (ss : socket_server)
    : outcome (rtype * socket_message * socket_server) :=
  match fuel with
  | O => Fault OutOfFuel
  | S fuel =>
      let s := slot_at ss i in
      match wl pr s with
      | [] => Ok (R_NONE, no_message, ss)
      | tmp :: l =>
          '(r, ss) ← sys_write (fd s) (w_buffer tmp) (w_off tmp) (w_sz tmp) ss;
          match r with
          | inr EINTR => send_list_tcp_loop fuel i pr ss
          | inr EAGAIN => Ok (R_NONE, no_message, ss)
          | inr _ => '(m, ss) ← force_close i ss; Ok (R_CLOSE, m, ss)
          | inl sz =>
              let n := wb_size s - sz in
              if negb (sz =? w_sz tmp) then
                let tmp := WBuf (w_buffer tmp) (w_off tmp + sz) (w_sz tmp - sz) (w_address tmp) in
                Ok (R_NONE, no_message, put i (set_wl pr (tmp :: l) n s) ss)
              else send_list_tcp_loop fuel i pr (write_buffer_free tmp (put i (set_wl pr l n s) ss))
          end
      end
  end.
Definition send_list_tcp (i : Z) (pr : priority) (ss : socket_server) :=
  send_list_tcp_loop (S (length (script ss))) i pr ss.

(** [None]: the address is not one of the socket's protocol, and the length 0 is
    passed to [sendto]. *)
Definition udp_socket_address (s : socket) (a : list Z) : outcome (option sockaddr) :=
  t ← arr_get a 0;
  match proto s with
  | TCP => Ok None
  | UDP =>
      if negb (t =? 1) then Ok None
      else port ← mem_read a 1 2; ip ← mem_read a 3 4; Ok (Some (SA AF_INET port ip))
  | UDPv6 =>
      if negb (t =? 2) then Ok None
      else port ← mem_read a 1 2; ip ← mem_read a 3 16; Ok (Some (SA AF_INET6 port ip))
  end.

Fixpoint send_list_udp_loop (fuel : nat) (i : Z) (pr : priority) (ss : socket_server)
    : outcome (rtype * socket_message * socket_server) :=
  match fuel with
  | O => Fault OutOfFuel
  | S fuel =>
      let s := slot_at ss i in
      match wl pr s with
      | [] => Ok (R_NONE, no_message, ss)
      | tmp :: l =>
          sa ← udp_socket_address s (w_address tmp);
          '(r, ss) ← sys_sendto (fd s) (w_buffer tmp) (w_off tmp) (w_sz tmp) sa ss;
          match r with
          | inr (EINTR | EAGAIN) => Ok (R_NONE, no_message, ss)
          | inr _ => Ok (R_NONE, no_message, record (Logged (id s)) ss)
          | inl _ =>
              send_list_udp_loop fuel i pr (write_buffer_free tmp (put i (set_wl pr l (wb_size s - w_sz tmp) s) ss))
          end
      end
  end.
Definition send_list_udp (i : Z) (pr : priority) (ss : socket_server) :=
  send_list_udp_loop (S (length (script ss))) i pr ss.

Definition send_list (i : Z) (pr : priority) (ss : socket_server) :=
  if bool_decide (proto (slot_at ss i) = TCP) then send_list_tcp i pr ss else send_list_udp i pr ss.

Definition list_uncomplete (l : list write_buffer) : bool :=
  match l with [] => false | wb :: _ => negb (w_off wb =? 0) end.

Definition raise_uncomplete (i : Z) (ss : socket_server) : outcome socket_server :=
  let s := slot_at ss i in
  match low s with
  | [] => Fault NullPointer
  | tmp :: l =>
      _ ← c_assert (bool_decide (high s = []));
      Ok (put i (set_lists [tmp] l (wb_size s) s) ss)
  end.

Definition send_buffer_empty (s : socket) : bool := bool_decide (high s = [] /\ low s = []).

(** Step 4 of [send_buffer]: everything is written. *)
Definition send_done (i : Z) (ss : socket_server) : outcome (rtype * socket_message * socket_server) :=
  let s := slot_at ss i in
  _ ← c_assert (send_buffer_empty s && (wb_size s =? 0));
  let ss := sp_write (fd s) i false ss in
  if bool_decide (type s = HALFCLOSE) then '(m, ss) ← force_close i ss; Ok (R_CLOSE, m, ss)
  else if 0 <? warn_size s then
    Ok (R_WARNING, SMsg (id s) (opaque s) 0 DNull, put i (set_warn 0 s) ss)
  else Ok (R_NONE, no_message, ss).

Definition send_buffer (i : Z) (ss : socket_server) : outcome (rtype * socket_message * socket_server) :=
  _ ← c_assert (negb (list_uncomplete (low (slot_at ss i))));
  '(t, m, ss) ← send_list i PRIORITY_HIGH ss;
  if bool_decide (t = R_CLOSE) then Ok (R_CLOSE, m, ss)
  else if bool_decide (high (slot_at ss i) = []) then
    if bool_decide (low (slot_at ss i) = []) then send_done i ss
    else
      '(t, m, ss) ← send_list i PRIORITY_LOW ss;
      if bool_decide (t = R_CLOSE) then Ok (R_CLOSE, m, ss)
      else if list_uncomplete (low (slot_at ss i)) then
        ss ← raise_uncomplete i ss; Ok (R_NONE, no_message, ss)
      else send_done i ss
  else Ok (R_NONE, no_message, ss).

(** The list is the chain from [head]; [tail] is its last node by construction, so the
    two assertions on it have no counterpart. *)
Definition append_sendbuffer_ (i : Z) (pr : priority) (r : request_send) (n : Z) (address : list Z)
    (ss : socket_server) : outcome socket_server :=
  '(buffer, sz) ← send_object_init (rs_buffer r) (rs_sz r);
  let buf := WBuf buffer n (sz - n) address in
  let s := slot_at ss i in
  Ok (put i (set_wl pr (wl pr s ++ [buf]) (wb_size s + w_sz buf) s) ss).

Definition append_sendbuffer_udp (i : Z) (pr : priority) (r : request_send) (address : list Z) (ss : socket_server) :=
  append_sendbuffer_ i pr r 0 address ss.
Definition append_sendbuffer (i : Z) (r : request_send) (n : Z) (ss : socket_server) :=
  append_sendbuffer_ i PRIORITY_HIGH r n [] ss.
Definition append_sendbuffer_low (i : Z) (r : request_send) (ss : socket_server) :=
  append_sendbuffer_ i PRIORITY_LOW r 0 [] ss.

(** The warning at the end of [send_socket]. *)
Definition send_warn (i : Z) (ss : socket_server) : rtype * socket_message * socket_server :=
  let s := slot_at ss i in
  if (WARNING_SIZE <=? wb_size s) && (warn_size s <=? wb_size s) then
    (R_WARNING,
     SMsg (id s) (opaque s)
       (i32 (if wb_size s mod 1024 =? 0 then wb_size s / 1024 else wb_size s / 1024 + 1)) DNull,
     put i (set_warn (if warn_size s =? 0 then WARNING_SIZE * 2 else warn_size s * 2) s) ss)
  else (R_NONE, no_message, ss).

(** Where a datagram goes: the address given, or the one set before. *)
Definition dest_address (s : socket) (address : option (list Z)) : outcome (list Z) :=
  match address, p s with
  | Some a, _ => Ok a
  | None, PAddress a => Ok a
  | None, PSize _ => Fault Uninitialised
  end.

Definition send_socket (r : request_send) (pr : priority) (address : option (list Z)) (ss : socket_server)
    : outcome (rtype * socket_message * socket_server) :=
  let i := rs_id r in
  let h := HASH_ID i in
  let s := slot_at ss h in
  '(buffer, sz) ← send_object_init (rs_buffer r) (rs_sz r);
  let free ss := record (Freed (rs_buffer r)) ss in
  if bool_decide (type s = INVALID \/ id s <> i \/ type s = HALFCLOSE \/ type s = PACCEPT) then
    Ok (R_NONE, no_message, free ss)
  else if bool_decide (type s = PLISTEN \/ type s = LISTEN) then
    Ok (R_NONE, no_message, free (record (Logged i) ss))
  else if send_buffer_empty s && bool_decide (type s = CONNECTED) then
    if bool_decide (proto s = TCP) then
      '(w, ss) ← sys_write (fd s) buffer 0 sz ss;
      match (match w with inl n => Some n | inr (EINTR | EAGAIN) => Some 0 | inr _ => None end) with
      | None =>
          '(m, ss) ← force_close h (record (Logged i) ss);
          Ok (R_CLOSE, m, free ss)
      | Some n =>
          if n =? sz then Ok (R_NONE, no_message, free ss)
          else ss ← append_sendbuffer h r n ss; Ok (send_warn h (sp_write (fd s) h true ss))
      end
    else
      a ← dest_address s address;
      sa ← udp_socket_address s a;
      '(w, ss) ← sys_sendto (fd s) buffer 0 sz sa ss;
      match w with
      | inr _ => ss ← append_sendbuffer_udp h pr r a ss; Ok (send_warn h (sp_write (fd s) h true ss))
      | inl _ => Ok (R_NONE, no_message, free ss)
      end
  else
    ss ← (if bool_decide (proto s = TCP) then
            match pr with
            | PRIORITY_LOW => append_sendbuffer_low h r ss
            | PRIORITY_HIGH => append_sendbuffer h r 0 ss
            end
          else a ← dest_address s address; append_sendbuffer_udp h pr r a ss);
    Ok (send_warn h ss).

(** ** The other requests *)

(** The failure branch of [listen_socket] is for a refusing poller, which is not asked. *)
Definition listen_socket (i f op : Z) (ss : socket_server) : outcome (rtype * socket_message * socket_server) :=
  '(ns, ss) ← new_fd i f TCP op false ss;
  match ns with
  | None => Ok (open_failed i op (DText limit_text) (record (Closed f) ss))
  | Some h => Ok (R_NONE, no_message, put h (set_type PLISTEN (slot_at ss h)) ss)
  end.

Definition close_socket (i : Z) (shutdown : bool) (op : Z) (ss : socket_server)
    : outcome (rtype * socket_message * socket_server) :=
  let h := HASH_ID i in
  let s := slot_at ss h in
  if bool_decide (type s = INVALID \/ id s <> i) then Ok (R_CLOSE, SMsg i op 0 DNull, ss)
  else
    '(t, m, ss) ← (if send_buffer_empty s then Ok (R_NONE, no_message, ss) else send_buffer h ss);
    if negb (bool_decide (t = R_NONE \/ t = R_WARNING)) then Ok (t, m, ss)
    else if shutdown || send_buffer_empty (slot_at ss h) then
      '(_, ss) ← force_close h ss;
      Ok (R_CLOSE, SMsg i op 0 DNull, ss)
    else Ok (R_NONE, no_message, put h (set_type HALFCLOSE (slot_at ss h)) ss).

Definition bind_socket (i f op : Z) (ss : socket_server) : outcome (rtype * socket_message * socket_server) :=
  '(ns, ss) ← new_fd i f TCP op true ss;
  match ns with
  | None => Ok (R_ERR, SMsg i op 0 (DText limit_text), ss)
  | Some h =>
      let ss := sp_nonblocking f ss in
      Ok (R_OPEN, SMsg i op 0 (DText (str "binding"%string)), put h (set_type BIND (slot_at ss h)) ss)
  end.

Definition start_socket (i op : Z) (ss : socket_server) : outcome (rtype * socket_message * socket_server) :=
  let h := HASH_ID i in
  let s := slot_at ss h in
  let result d := SMsg i op 0 d in
  if bool_decide (type s = INVALID \/ id s <> i) then
    Ok (R_ERR, result (DText (str "invalid socket"%string)), ss)
  else if bool_decide (type s = PACCEPT \/ type s = PLISTEN) then
    '(refused, ss) ← sp_add (fd s) h ss;
    if (refused : bool) then
      '(m, ss) ← force_close h ss;
      Ok (R_ERR, with_data (DErrno (EOTHER 0)) m, ss)
    else
      let t := if bool_decide (type s = PACCEPT) then CONNECTED else LISTEN in
      Ok (R_OPEN, result (DText (str "start"%string)), put h (set_opaque op (set_type t s)) ss)
  else if bool_decide (type s = CONNECTED) then
    Ok (R_OPEN, result (DText (str "transfer"%string)), put h (set_opaque op s) ss)
  else Ok (R_NONE, no_message, ss).

Definition setopt_socket (i what value : Z) (ss : socket_server) : socket_server :=
  let s := slot_at ss (HASH_ID i) in
  if bool_decide (type s = INVALID \/ id s <> i) then ss else record (SetOpt (fd s) what value) ss.

Definition add_udp_socket (i f family op : Z) (ss : socket_server) : outcome socket_server :=
  let pr := if family =? AF_INET6 then UDPv6 else UDP in
  '(ns, ss) ← new_fd i f pr op true ss;
  match ns with
  | None =>
      let h := HASH_ID i in
      let ss := record (Closed f) ss in Ok (put h (set_type INVALID (slot_at ss h)) ss)
  | Some h =>
      Ok (put h (set_p (PAddress (repeat 0 (Z.to_nat UDP_ADDRESS_SIZE))) (set_type CONNECTED (slot_at ss h))) ss)
  end.

Definition protocol_byte (pr : protocol) : Z := match pr with TCP => 0 | UDP => 1 | UDPv6 => 2 end.

Definition set_udp_address (i : Z) (address : list Z) (ss : socket_server)
    : outcome (rtype * socket_message * socket_server) :=
  let h := HASH_ID i in
  let s := slot_at ss h in
  if bool_decide (type s = INVALID \/ id s <> i) then Ok (R_NONE, no_message, ss)
  else
    t ← arr_get address 0;
    if negb (t =? protocol_byte (proto s)) then
      Ok (R_ERR, SMsg (id s) (opaque s) 0 (DText (str "protocol mismatch"%string)), ss)
    else
      b ← mem_read address 0 (if t =? 1 then 1 + 2 + 4 else 1 + 2 + 16);
      match p s with
      | PSize _ => Fault Uninitialised
      | PAddress a => a ← mem_write a 0 b; Ok (R_NONE, no_message, put h (set_p (PAddress a) s) ss)
      end.

Definition ctrl_cmd (r : request) (ss : socket_server) : outcome (rtype * socket_message * socket_server) :=
  match r with
  | Start i op => start_socket i op ss
  | Bind i f op => bind_socket i f op ss
  | Listen i f op => listen_socket i f op ss
  | Close i sd op => close_socket i sd op ss
  | Open i port op host => open_socket i op ss
  | Exit => Ok (R_EXIT, no_message, ss)
  | SendHigh r => send_socket r PRIORITY_HIGH None ss
  | SendLow r => send_socket r PRIORITY_LOW None ss
  | SendUdp r a => send_socket r PRIORITY_HIGH (Some a) ss
  | SetUdp i a => set_udp_address i a ss
  | SetOption i what v => Ok (R_NONE, no_message, setopt_socket i what v ss)
  | AddUdp i f fam op => ss ← add_udp_socket i f fam op ss; Ok (R_NONE, no_message, ss)
  end.

(** ** Events *)

Definition forward_message_tcp (i : Z) (ss : socket_server) : outcome (rtype * socket_message * socket_server) :=
  let s := slot_at ss i in
  match p s with
  | PAddress _ => Fault Uninitialised
  | PSize sz =>
      '(r, ss) ← sys_read sz ss;
      match r with
      | inr EINTR => Ok (R_NONE, no_message, ss)
      | inr EAGAIN => Ok (R_NONE, no_message, record (Logged (id s)) ss)
      | inr e => '(m, ss) ← force_close i ss; Ok (R_ERR, with_data (DErrno e) m, ss)
      | inl ([], _) => '(m, ss) ← force_close i ss; Ok (R_CLOSE, m, ss)
      | inl (bytes, _) =>
          let n := Z.of_nat (length bytes) in
          if bool_decide (type s = HALFCLOSE) then Ok (R_NONE, no_message, ss)
          else
            size ← (if n =? sz then c_int (sz * 2)
                    else if MIN_READ_BUFFER <? sz then
                      n2 ← c_int (n * 2); Ok (if n2 <? sz then sz / 2 else sz)
                    else Ok sz);
            Ok (R_DATA, SMsg (id s) (opaque s) n (DBytes bytes), put i (set_p (PSize size) s) ss)
      end
  end.

Definition gen_udp_address (pr : protocol) (sa : sockaddr) : outcome (list Z) :=
  port ← mem_read (sa_port sa) 0 2;
  ip ← mem_read (sa_ip sa) 0 (if bool_decide (pr = UDP) then 4 else 16);
  Ok (protocol_byte pr :: port ++ ip).

(** The length of an address tells its family. *)
Definition forward_message_udp (i : Z) (ss : socket_server) : outcome (rtype * socket_message * socket_server) :=
  let s := slot_at ss i in
  '(r, ss) ← sys_read MAX_UDP_PACKAGE ss;
  match r with
  | inr (EINTR | EAGAIN) => Ok (R_NONE, no_message, ss)
  | inr e => '(m, ss) ← force_close i ss; Ok (R_ERR, with_data (DErrno e) m, ss)
  | inl (bytes, sa) =>
      let pr := if sa_family sa =? AF_INET then UDP else UDPv6 in
      if negb (bool_decide (proto s = pr)) then Ok (R_NONE, no_message, ss)
      else
        a ← gen_udp_address pr sa;
        Ok (R_UDP, SMsg (id s) (opaque s) (Z.of_nat (length bytes)) (DBytes (bytes ++ a)), ss)
  end.

Definition report_connect (i : Z) (ss : socket_server) : outcome (rtype * socket_message * socket_server) :=
  let s := slot_at ss i in
  '(r, ss) ← sys_int ss;
  match r with
  | inr e => '(m, ss) ← force_close i ss; Ok (R_ERR, with_data (DErrno e) m, ss)
  | inl error =>
      if negb (error =? 0) then
        '(m, ss) ← force_close i ss; Ok (R_ERR, with_data (DErrno (EOTHER error)) m, ss)
      else
        let ss := put i (set_type CONNECTED s) ss in
        let ss := if send_buffer_empty s then sp_write (fd s) i false ss else ss in
        '(peer, ss) ← sys_int ss;
        match peer with
        | inr _ => Ok (R_OPEN, SMsg (id s) (opaque s) 0 DNull, ss)
        | inl _ => '(t, ss) ← sys_print ss; Ok (R_OPEN, SMsg (id s) (opaque s) 0 (text_or_null t), ss)
        end
  end.

Definition ntohs (port : list Z) : Z := match port with [a; b] => a * 256 + b | _ => 0 end.

(** [R_NONE] stands for 0, [R_ERR] for -1 and [R_ACCEPT] for 1. *)
Definition report_accept (i : Z) (ss : socket_server) : outcome (rtype * socket_message * socket_server) :=
  let s := slot_at ss i in
  '(r, ss) ← sys_accept ss;
  match r with
  | inr ((EMFILE | ENFILE) as e) => Ok (R_ERR, SMsg (id s) (opaque s) 0 (DErrno e), ss)
  | inr _ => Ok (R_NONE, no_message, ss)
  | inl (client_fd, u) =>
      let '(nid, ss) := reserve_id ss in
      if nid <? 0 then Ok (R_NONE, no_message, record (Closed client_fd) ss)
      else
        let ss := sp_nonblocking client_fd (socket_keepalive client_fd ss) in
        '(ns, ss) ← new_fd nid client_fd TCP (opaque s) false ss;
        match ns with
        | None => Ok (R_NONE, no_message, record (Closed client_fd) ss)
        | Some h =>
            let ss := put h (set_type PACCEPT (slot_at ss h)) ss in
            '(t, ss) ← sys_print ss;
            let d := match t with
                     | Some a => DText (a ++ 58 :: fmt_d (ntohs (sa_port u)))
                     | None => DNull
                     end in
            Ok (R_ACCEPT, SMsg (id s) (opaque s) nid d, ss)
        end
  end.

(** The event of the socket that was just closed, if one is left. *)
Definition closed_event (ss : socket_server) (i : Z) (e : event) : bool :=
  match e_s e with
  | None => false
  | Some h => bool_decide (type (slot_at ss h) = INVALID) && (id (slot_at ss h) =? i)
  end.
Fixpoint clear_first (f : event -> bool) (l : list event) : list event :=
  match l with
  | [] => []
  | e :: l => if f e then Ev None (e_read e) (e_write e) :: l else e :: clear_first f l
  end.
Definition clear_closed_event (m : socket_message) (t : rtype) (ss : socket_server) : socket_server :=
  if bool_decide (t = R_CLOSE \/ t = R_ERR) then set_ev (clear_first (closed_event ss (m_id m)) (ev ss)) ss else ss.

(** ** The loop *)

(** What a turn of the loop does: return, or go on. *)
Inductive turn := Return (t : rtype) (m : socket_message) | Continue.

(** Go on after -1 ([break] out of the [switch]). *)
Definition unless_none (x : rtype * socket_message * socket_server) : turn * socket_server :=
  let '(t, m, ss) := x in (if bool_decide (t = R_NONE) then Continue else Return t m, ss).

(** The event at [event_index]; [rest] are those after it. *)
Definition dispatch_event (e : event) (rest : list event) (ss : socket_server) : outcome (turn * socket_server) :=
  let ss := set_ev rest ss in
  match e_s e with
  | None => Ok (Continue, ss)
  | Some h =>
      match type (slot_at ss h) with
      | CONNECTING => '(t, m, ss) ← report_connect h ss; Ok (Return t m, ss)
      | LISTEN => x ← report_accept h ss; Ok (unless_none x)
      | INVALID => Ok (Continue, record (Logged h) ss)
      | _ =>
          if e_read e then
            let after x :=
              let '(t, m, ss) := (x : rtype * socket_message * socket_server) in
              unless_none
                (t, m, if e_write e && negb (bool_decide (t = R_CLOSE \/ t = R_ERR))
                       then set_ev (Ev (Some h) false (e_write e) :: rest) ss else ss) in
            if bool_decide (proto (slot_at ss h) = TCP) then
              x ← forward_message_tcp h ss; Ok (after x)
            else
              '(t, m, ss) ← forward_message_udp h ss;
              if bool_decide (t = R_UDP) then Ok (Return R_UDP m, set_ev (e :: rest) ss)
              else Ok (after (t, m, ss))
          else if e_write e then x ← send_buffer h ss; Ok (unless_none x)
          else Ok (Continue, ss)
      end
  end.

(** One turn, and whether it waited (which clears [more]). *)
Definition poll_turn (ss : socket_server) : outcome (turn * bool * socket_server) :=
  match checkctrl ss, pipe ss with
  | true, r :: rest =>
      '(t, m, ss) ← ctrl_cmd r (set_pipe rest ss);
      if bool_decide (t = R_NONE) then Ok (Continue, false, ss)
      else Ok (Return t m, false, clear_closed_event m t ss)
  | _, _ =>
      let ss := set_check false ss in
      match ev ss with
      | e :: rest => '(x, ss) ← dispatch_event e rest ss; Ok (x, false, ss)
      | [] =>
          '(r, ss) ← sp_wait ss;
          let ss := set_check true ss in
          match r with
          | inl (e :: rest) => '(x, ss) ← dispatch_event e rest ss; Ok (x, true, ss)
          | inl [] => Ok (Return R_NONE no_message, true, ss)
          | inr EINTR => Ok (Continue, true, ss)
          | inr _ => Ok (Return R_NONE no_message, true, ss)
          end
      end
  end.

Fixpoint poll_loop (fuel : nat) (more : bool) (ss : socket_server)
    : outcome (rtype * socket_message * bool * socket_server) :=
  match fuel with
  | O => Fault OutOfFuel
  | S fuel =>
      '(x, waited, ss) ← poll_turn ss;
      let more := more && negb waited in
      match x with
      | Return t m => Ok (t, m, more, ss)
      | Continue => poll_loop fuel more ss
      end
  end.

(** A turn handles a request or an event (an event at most twice: once to read,
    once to write) or takes an answer, which may hold more events. *)
Definition event_work (e : event) : nat := if e_read e then 2 else 1.
Definition answer_work (a : answer) : nat := match a with Events l => S (list_sum (event_work <$> l)) | _ => 1 end.
Definition poll_work (ss : socket_server) : nat :=
  length (pipe ss) + list_sum (event_work <$> ev ss) + list_sum (answer_work <$> script ss).
Definition socket_server_poll (ss : socket_server) : outcome (rtype * socket_message * bool * socket_server) :=
  poll_loop (S (poll_work ss)) true ss.

(** ** What the services call *)

(** [send_request] writes until the pipe takes the request. *)
Definition send_request (r : request) (ss : socket_server) : socket_server := set_pipe (pipe ss ++ [r]) ss.

Definition SIZEOF_REQUEST_OPEN : Z := 24.

(** The request with a reserved id, or nothing (-1). *)
Definition open_request (op : Z) (addr : list Z) (port : Z) (ss : socket_server)
    : option (Z * request) * socket_server :=
  if 256 <=? Z.of_nat (length addr) + SIZEOF_REQUEST_OPEN then (None, record (Logged (-1)) ss)
  else
    let '(i, ss) := reserve_id ss in
    if i <? 0 then (None, ss) else (Some (i, Open i port op addr), ss).

Definition socket_server_connect (op : Z) (addr : list Z) (port : Z) (ss : socket_server) : Z * socket_server :=
  match open_request op addr port ss with
  | (None, ss) => (-1, ss)
  | (Some (i, r), ss) => (i, send_request r ss)
  end.

Definition free_buffer (buffer : list Z) (sz : Z) (ss : socket_server) : outcome socket_server :=
  _ ← send_object_init buffer sz; Ok (record (Freed buffer) ss).

Definition send_to (mk : request_send -> request) (i : Z) (buffer : list Z) (sz : Z) (ss : socket_server)
    : outcome (Z * socket_server) :=
  let s := slot_at ss (HASH_ID i) in
  if bool_decide (id s <> i \/ type s = INVALID) then ss ← free_buffer buffer sz ss; Ok (-1, ss)
  else Ok (0, send_request (mk (RqSend i sz buffer)) ss).
Definition socket_server_send := send_to SendHigh.
Definition socket_server_send_lowpriority := send_to SendLow.

Definition socket_server_exit (ss : socket_server) : socket_server := send_request Exit ss.
Definition socket_server_close (op i : Z) (ss : socket_server) : socket_server := send_request (Close i false op) ss.
Definition socket_server_shutdown (op i : Z) (ss : socket_server) : socket_server := send_request (Close i true op) ss.
Definition socket_server_start (op i : Z) (ss : socket_server) : socket_server := send_request (Start i op) ss.
Definition socket_server_nodelay (i : Z) (ss : socket_server) : socket_server :=
  send_request (SetOption i TCP_NODELAY 1) ss.

(** The descriptor and the family, or nothing. *)
Definition do_bind (ss : socket_server) : outcome (option (Z * Z) * socket_server) :=
  '(a, ss) ← sys_address ss;
  match a with
  | None => Ok (None, ss)
  | Some sa =>
      '(f, ss) ← sys_int ss;
      match f with
      | inr _ => Ok (None, ss)
      | inl f =>
          '(r, ss) ← sys_int ss;
          match r with
          | inr _ => Ok (None, record (Closed f) ss)
          | inl _ =>
              '(r, ss) ← sys_int ss;
              match r with
              | inr _ => Ok (None, record (Closed f) ss)
              | inl _ => Ok (Some (f, sa_family sa), ss)
              end
          end
      end
  end.

Definition do_listen (ss : socket_server) : outcome (option Z * socket_server) :=
  '(b, ss) ← do_bind ss;
  match b with
  | None => Ok (None, ss)
  | Some (f, _) =>
      '(r, ss) ← sys_int ss;
      match r with
      | inr _ => Ok (None, record (Closed f) ss)
      | inl _ => Ok (Some f, ss)
      end
  end.

Definition socket_server_listen (op : Z) (ss : socket_server) : outcome (Z * socket_server) :=
  '(f, ss) ← do_listen ss;
  match f with
  | None => Ok (-1, ss)
  | Some f =>
      let '(i, ss) := reserve_id ss in
      if i <? 0 then Ok (i, record (Closed f) ss) else Ok (i, send_request (Listen i f op) ss)
  end.

Definition socket_server_bind (op f : Z) (ss : socket_server) : Z * socket_server :=
  let '(i, ss) := reserve_id ss in
  if i <? 0 then (-1, ss) else (i, send_request (Bind i f op) ss).

(** [bound]: a port or an address was given. *)
Definition socket_server_udp (op : Z) (bound : bool) (ss : socket_server) : outcome (Z * socket_server) :=
  '(b, ss) ← (if bound then do_bind ss
              else '(f, ss) ← sys_int ss;
                   Ok (match f with inl f => Some (f, AF_INET) | inr _ => None end, ss));
  match b with
  | None => Ok (-1, ss)
  | Some (f, family) =>
      let '(i, ss) := reserve_id (sp_nonblocking f ss) in
      if i <? 0 then Ok (-1, record (Closed f) ss) else Ok (i, send_request (AddUdp i f family op) ss)
  end.

Definition socket_server_udp_send (i : Z) (addr buffer : list Z) (sz : Z) (ss : socket_server)
    : outcome (Z * socket_server) :=
  let s := slot_at ss (HASH_ID i) in
  if bool_decide (id s <> i \/ type s = INVALID) then ss ← free_buffer buffer sz ss; Ok (-1, ss)
  else
    t ← arr_get addr 0;
    let send addrsz :=
      a ← mem_read addr 0 addrsz;
      Ok (0, send_request (SendUdp (RqSend i sz buffer) a) ss) in
    if t =? 1 then send (1 + 2 + 4)
    else if t =? 2 then send (1 + 2 + 16)
    else ss ← free_buffer buffer sz ss; Ok (-1, ss).

Definition socket_server_udp_connect (i : Z) (ss : socket_server) : outcome (Z * socket_server) :=
  '(a, ss) ← sys_address ss;
  match a with
  | None => Ok (-1, ss)
  | Some sa =>
      if sa_family sa =? AF_INET then a ← gen_udp_address UDP sa; Ok (0, send_request (SetUdp i a) ss)
      else if sa_family sa =? AF_INET6 then a ← gen_udp_address UDPv6 sa; Ok (0, send_request (SetUdp i a) ss)
      else Ok (-1, ss)
  end.

(** The address behind the [ud] bytes of a message. *)
Definition socket_server_udp_address (m : socket_message) : outcome (option (list Z)) :=
  match m_data m with
  | DBytes b =>
      t ← arr_get b (m_ud m);
      if t =? 1 then a ← mem_read b (m_ud m) (1 + 2 + 4); Ok (Some a)
      else if t =? 2 then a ← mem_read b (m_ud m) (1 + 2 + 16); Ok (Some a)
      else Ok None
  | _ => Fault NullPointer
  end.

End Sock.
