(* ===== verification/SocketProofs.v ===== *)
(** * The socket server: frames and termination

    What every handler of [socket_server.c] leaves alone, and that the loop of
    [socket_server_poll] comes to an end. *)

From S2P Require Import Prelude Text Socket.
From Stdlib Require Import ZArith Lia.
From stdpp Require Import base numbers list gmap.
#[local] Open Scope Z_scope.
#[local] Open Scope list_scope.
Import Sock.

(** ** Frames *)

(** A handler does not touch the pipe or the events and only uses up answers. *)
Record frame (ss ss' : socket_server) : Prop := {
  fr_pipe : pipe ss' = pipe ss;
  fr_ev : ev ss' = ev ss;
  fr_check : checkctrl ss' = checkctrl ss;
  fr_script : exists used, script ss = used ++ script ss'
}.

#[global] Instance frame_refl : Reflexive frame.
Proof. intros ss. split; try done. by exists []. Qed.
#[global] Instance frame_trans : Transitive frame.
Proof.
  intros a b c [P E C [u Hu]] [P' E' C' [v Hv]]. split; try congruence.
  exists (u ++ v). by rewrite Hu, Hv, app_assoc.
Qed.

Create HintDb frame discriminated.
#[export] Hint Resolve frame_refl : frame.

Lemma frame_record a ss : frame ss (record a ss).
Proof. split; try done. by exists []. Qed.
Lemma frame_put i s ss : frame ss (put i s ss).
Proof. split; try done. by exists []. Qed.
Lemma frame_reg r ss : frame ss (set_reg r ss).
Proof. split; try done. by exists []. Qed.
Lemma frame_alloc i ss : frame ss (set_alloc i ss).
Proof. split; try done. by exists []. Qed.
Lemma frame_sp_del f ss : frame ss (sp_del f ss).
Proof. split; try done. by exists []. Qed.
Lemma frame_sp_write f i b ss : frame ss (sp_write f i b ss).
Proof. unfold sp_write. destruct (reg ss !! f); split; try done; by exists []. Qed.
#[export] Hint Resolve frame_record frame_put frame_reg frame_alloc frame_sp_del frame_sp_write : frame.

Lemma frame_free l ss : frame ss (free_wb_list l ss).
Proof.
  revert ss. induction l as [|wb l IH]; intros ss; cbn; [done|].
  etransitivity; [|apply IH]. apply frame_record.
Qed.
#[export] Hint Resolve frame_free : frame.

Lemma answer_frame ss a ss' : answer_next ss = Ok (a, ss') -> frame ss ss' /\ (length (script ss') < length (script ss))%nat.
Proof.
  unfold answer_next. destruct (script ss) as [|x l] eqn:E; [done|]. intros [= <- <-].
  split; [|cbn; lia]. split; try done. exists [x]. by rewrite E.
Qed.

(** [unroll] takes a run that returned apart, call by call and case by case. *)
Ltac unroll :=
  repeat (match goal with
  | H : (let '(_, _) := ?x in _) = Ok _ |- _ => destruct x eqn:?
  | H : (if ?b then _ else _) = Ok _ |- _ => destruct b eqn:?
  | H : (match ?x with _ => _ end) = Ok _ |- _ => destruct x eqn:?
  | H : (match ?x with _ => _ end) = (_, _) |- _ => destruct x eqn:?
  | H : (if ?b then _ else _) = Continue |- _ => destruct b eqn:?
  | H : Ok (let '(_, _) := ?x in _) = Ok _ |- _ => destruct x eqn:?
  | H : Ok (if ?b then _ else _) = Ok _ |- _ => destruct b eqn:?
  end || (progress inv_ok) || (progress simplify_eq)).

(** [frames] chains the steps from the last state back to the first. *)
Ltac frames :=
  repeat match goal with
  | |- frame ?a ?a => reflexivity
  | |- frame _ (record _ ?s) => transitivity s; [|apply frame_record]
  | |- frame _ (put _ _ ?s) => transitivity s; [|apply frame_put]
  | |- frame _ (sp_write _ _ _ ?s) => transitivity s; [|apply frame_sp_write]
  | |- frame _ (sp_nonblocking _ ?s) => transitivity s; [|apply frame_record]
  | |- frame _ (socket_keepalive _ ?s) => transitivity s; [|apply frame_record]
  | |- frame _ (write_buffer_free _ ?s) => transitivity s; [|apply frame_record]
  | |- frame _ (sp_del _ ?s) => transitivity s; [|apply frame_sp_del]
  | |- frame _ (set_reg _ ?s) => transitivity s; [|apply frame_reg]
  | |- frame _ (free_wb_list _ ?s) => transitivity s; [|apply frame_free]
  | |- frame _ (if ?b then _ else _) => destruct b
  | H : frame ?b ?c |- frame ?a ?c => tryif constr_eq a b then exact H else (transitivity b; [clear H|exact H])
  end.

(** A system call uses an answer up. *)
Ltac sys_frame :=
  intros H; unroll;
  match goal with E : answer_next _ = Ok _ |- _ => apply answer_frame in E as [E ?] end;
  (split; [frames|done]).

Lemma sys_int_frame ss r ss' : sys_int ss = Ok (r, ss') -> frame ss ss' /\ (length (script ss') < length (script ss))%nat.
Proof. unfold sys_int. sys_frame. Qed.
Lemma sys_read_frame n ss r ss' : sys_read n ss = Ok (r, ss') -> frame ss ss' /\ (length (script ss') < length (script ss))%nat.
Proof. unfold sys_read. sys_frame. Qed.
Lemma sys_accept_frame ss r ss' : sys_accept ss = Ok (r, ss') -> frame ss ss' /\ (length (script ss') < length (script ss))%nat.
Proof. unfold sys_accept. sys_frame. Qed.
Lemma sys_address_frame ss r ss' : sys_address ss = Ok (r, ss') -> frame ss ss' /\ (length (script ss') < length (script ss))%nat.
Proof. unfold sys_address. sys_frame. Qed.
Lemma sys_print_frame ss r ss' : sys_print ss = Ok (r, ss') -> frame ss ss' /\ (length (script ss') < length (script ss))%nat.
Proof. unfold sys_print. sys_frame. Qed.
Lemma sp_wait_frame ss r ss' : sp_wait ss = Ok (r, ss') -> frame ss ss' /\ (length (script ss') < length (script ss))%nat.
Proof. unfold sp_wait. sys_frame. Qed.

Lemma sys_write_frame f b o n ss r ss' :
  sys_write f b o n ss = Ok (r, ss') -> frame ss ss' /\ (length (script ss') < length (script ss))%nat.
Proof.
  unfold sys_write. intros H. unroll;
  match goal with E : sys_int _ = Ok _ |- _ => apply sys_int_frame in E as [E ?] end; (split; [frames|done]).
Qed.
Lemma sys_sendto_frame f b o n sa ss r ss' :
  sys_sendto f b o n sa ss = Ok (r, ss') -> frame ss ss' /\ (length (script ss') < length (script ss))%nat.
Proof.
  unfold sys_sendto. intros H. unroll;
  match goal with E : sys_int _ = Ok _ |- _ => apply sys_int_frame in E as [E ?] end; (split; [frames|done]).
Qed.

(** [frame_calls] turns the calls of a run into the frames they keep. *)
Ltac frame_calls :=
  repeat match goal with
  | E : sys_int _ = Ok _ |- _ => apply sys_int_frame in E as [E _]
  | E : sys_read _ _ = Ok _ |- _ => apply sys_read_frame in E as [E _]
  | E : sys_accept _ = Ok _ |- _ => apply sys_accept_frame in E as [E _]
  | E : sys_address _ = Ok _ |- _ => apply sys_address_frame in E as [E _]
  | E : sys_print _ = Ok _ |- _ => apply sys_print_frame in E as [E _]
  | E : sys_write _ _ _ _ _ = Ok _ |- _ => apply sys_write_frame in E as [E _]
  | E : sys_sendto _ _ _ _ _ _ = Ok _ |- _ => apply sys_sendto_frame in E as [E _]
  end.

Lemma sp_add_frame f i ss b ss' : sp_add f i ss = Ok (b, ss') -> frame ss ss'.
Proof. unfold sp_add. intros H. unroll; frame_calls; frames. Qed.

Lemma reserve_loop_frame n ss i ss' : reserve_loop n ss = (i, ss') -> frame ss ss'.
Proof.
  revert ss. induction n as [|n IH]; intros ss; cbn [reserve_loop]; cbv zeta.
  - by intros [= _ <-].
  - destruct (bool_decide _).
    + intros [= _ <-]. etransitivity; [apply frame_alloc|apply frame_put].
    + intros H%IH. etransitivity; [apply frame_alloc|exact H].
Qed.

Lemma reserve_id_frame ss i ss' : reserve_id ss = (i, ss') -> frame ss ss'.
Proof. apply reserve_loop_frame. Qed.

Lemma force_close_frame i ss m ss' : force_close i ss = Ok (m, ss') -> frame ss ss'.
Proof. unfold force_close. intros H. unroll; frames. Qed.

Lemma new_fd_frame i f pr op add ss r ss' : new_fd i f pr op add ss = Ok (r, ss') -> frame ss ss'.
Proof.
  unfold new_fd. intros H. unroll;
  repeat match goal with E : sp_add _ _ _ = Ok _ |- _ => apply sp_add_frame in E end; frames.
Qed.

Ltac frame_more :=
  frame_calls;
  repeat match goal with
  | E : sp_add _ _ _ = Ok _ |- _ => apply sp_add_frame in E
  | E : force_close _ _ = Ok _ |- _ => apply force_close_frame in E
  | E : new_fd _ _ _ _ _ _ = Ok _ |- _ => apply new_fd_frame in E
  | E : reserve_id _ = _ |- _ => apply reserve_id_frame in E
  end.

Lemma connect_loop_frame n e ss r ss' : connect_loop n e ss = Ok (r, ss') -> frame ss ss'.
Proof.
  revert e ss. induction n as [|n IH]; intros e ss H; cbn [connect_loop] in H; unroll; frame_more;
    repeat match goal with E : connect_loop _ _ _ = _ |- _ => apply IH in E end; frames.
Qed.

Lemma open_socket_frame i op ss t m ss' : open_socket i op ss = Ok (t, m, ss') -> frame ss ss'.
Proof.
  unfold open_socket, open_failed. intros H. unroll; frame_more;
    repeat match goal with E : connect_loop _ _ _ = _ |- _ => apply connect_loop_frame in E end; frames.
Qed.

Lemma send_list_tcp_loop_frame n i pr ss t m ss' : send_list_tcp_loop n i pr ss = Ok (t, m, ss') -> frame ss ss'.
Proof.
  revert ss. induction n as [|n IH]; intros ss H; cbn [send_list_tcp_loop] in H; unroll; frame_more;
    repeat match goal with E : send_list_tcp_loop _ _ _ _ = _ |- _ => apply IH in E end; frames.
Qed.

Lemma send_list_udp_loop_frame n i pr ss t m ss' : send_list_udp_loop n i pr ss = Ok (t, m, ss') -> frame ss ss'.
Proof.
  revert ss. induction n as [|n IH]; intros ss H; cbn [send_list_udp_loop] in H; unroll; frame_more;
    repeat match goal with E : send_list_udp_loop _ _ _ _ = _ |- _ => apply IH in E end; frames.
Qed.

Lemma send_list_frame i pr ss t m ss' : send_list i pr ss = Ok (t, m, ss') -> frame ss ss'.
Proof.
  unfold send_list. destruct (bool_decide _); [apply send_list_tcp_loop_frame|apply send_list_udp_loop_frame].
Qed.

Lemma send_done_frame i ss t m ss' : send_done i ss = Ok (t, m, ss') -> frame ss ss'.
Proof. unfold send_done. intros H. unroll; frame_more; frames. Qed.

Lemma send_buffer_frame i ss t m ss' : send_buffer i ss = Ok (t, m, ss') -> frame ss ss'.
Proof.
  unfold send_buffer, raise_uncomplete. intros H. unroll;
    repeat match goal with
    | E : send_list _ _ _ = _ |- _ => apply send_list_frame in E
    | E : send_done _ _ = _ |- _ => apply send_done_frame in E
    end; frames.
Qed.

Lemma append_frame i pr r n a ss ss' : append_sendbuffer_ i pr r n a ss = Ok ss' -> frame ss ss'.
Proof. unfold append_sendbuffer_. intros H. unroll; frames. Qed.

Lemma send_warn_frame i ss t m ss' : send_warn i ss = (t, m, ss') -> frame ss ss'.
Proof. unfold send_warn. destruct (_ && _); intros [= _ _ <-]; frames. Qed.

Lemma send_socket_frame r pr a ss t m ss' : send_socket r pr a ss = Ok (t, m, ss') -> frame ss ss'.
Proof.
  unfold send_socket, append_sendbuffer_low, append_sendbuffer, append_sendbuffer_udp.
  intros H. cbv zeta in H. unroll;
  repeat match goal with E : append_sendbuffer_ _ _ _ _ _ _ = _ |- _ => apply append_frame in E | E : send_warn _ _ = _ |- _ => apply send_warn_frame in E end;
  frame_more; frames.
Qed.

Lemma ctrl_cmd_frame r ss t m ss' : ctrl_cmd r ss = Ok (t, m, ss') -> frame ss ss'.
Proof.
  intros H. destruct r; cbn [ctrl_cmd] in H; try (by eapply send_socket_frame); try (by eapply open_socket_frame);
  unfold start_socket, bind_socket, listen_socket, close_socket, set_udp_address, setopt_socket,
    add_udp_socket, open_failed in *; unroll; frame_more;
  repeat match goal with E : send_buffer _ _ = _ |- _ => apply send_buffer_frame in E end; frames.
Qed.

Lemma forward_tcp_frame i ss t m ss' : forward_message_tcp i ss = Ok (t, m, ss') -> frame ss ss'.
Proof. unfold forward_message_tcp. intros H. cbv zeta in H. unroll; frame_more; frames. Qed.

Lemma forward_udp_frame i ss t m ss' : forward_message_udp i ss = Ok (t, m, ss') -> frame ss ss'.
Proof. unfold forward_message_udp. intros H. cbv zeta in H. unroll; frame_more; frames. Qed.

Lemma report_connect_frame i ss t m ss' : report_connect i ss = Ok (t, m, ss') -> frame ss ss'.
Proof. unfold report_connect. intros H. cbv zeta in H. unroll; frame_more; frames. Qed.

Lemma report_accept_frame i ss t m ss' : report_accept i ss = Ok (t, m, ss') -> frame ss ss'.
Proof. unfold report_accept. intros H. cbv zeta in H. unroll; frame_more; frames. Qed.

(** ** The loop ends *)

Lemma list_sum_cons n l : list_sum (n :: l) = (n + list_sum l)%nat.
Proof. done. Qed.

Lemma work_frame ss ss' : frame ss ss' -> (poll_work ss' <= poll_work ss)%nat.
Proof.
  intros [P E _ [u Hu]]. unfold poll_work. rewrite P, E, Hu, fmap_app, list_sum_app. lia.
Qed.

Lemma frame_set_ev l ss ss' : frame (set_ev l ss) ss' -> ev ss' = l.
Proof. by intros []. Qed.

Lemma work_event e l ss : poll_work (set_ev (e :: l) ss) = (event_work e + poll_work (set_ev l ss))%nat.
Proof. unfold poll_work. cbn [pipe ev script set_ev]. rewrite fmap_cons, list_sum_cons. lia. Qed.

Lemma event_work_pos e : (0 < event_work e)%nat.
Proof. unfold event_work. destruct (e_read e); lia. Qed.

Lemma set_ev_self ss : set_ev (ev ss) ss = ss.
Proof. by destruct ss. Qed.

(** What is left to do after an event: less than before it. *)
Lemma dispatch_event_work e rest ss ss' :
  dispatch_event e rest ss = Ok (Continue, ss') ->
  (poll_work ss' < poll_work (set_ev (e :: rest) ss))%nat.
Proof.
  assert (Hev : forall s1, frame (set_ev rest ss) s1 -> (poll_work s1 < poll_work (set_ev (e :: rest) ss))%nat).
  { intros s1 Hf%work_frame. rewrite work_event. pose proof (event_work_pos e). lia. }
  assert (Hre : forall s1 b h, frame (set_ev rest ss) s1 -> e_read e = true ->
    (poll_work (set_ev (Ev (Some h) false b :: rest) s1) < poll_work (set_ev (e :: rest) ss))%nat).
  { intros s1 b h Hf Er. pose proof (work_frame _ _ Hf) as Hw. apply frame_set_ev in Hf.
    rewrite !work_event. rewrite <- Hf, set_ev_self, Hf. unfold event_work. cbn [e_read]. rewrite Er. lia. }
  unfold dispatch_event, unless_none. intros H. cbv zeta in H.
  unroll; try done; try (apply Hev; solve [frames]);
  repeat match goal with
  | E : report_accept _ _ = _ |- _ => apply report_accept_frame in E
  | E : forward_message_tcp _ _ = _ |- _ => apply forward_tcp_frame in E
  | E : forward_message_udp _ _ = _ |- _ => apply forward_udp_frame in E
  | E : send_buffer _ _ = _ |- _ => apply send_buffer_frame in E
  end; repeat match goal with |- context [if ?b then _ else _] => destruct b end;
  try (by apply Hev); try (by apply Hre).
Qed.

Lemma wait_work ss r ss' :
  sp_wait ss = Ok (r, ss') -> ev ss = [] ->
  (S (poll_work (match r with inl l => set_ev l ss' | inr _ => ss' end)) <= poll_work ss)%nat.
Proof.
  unfold sp_wait, answer_next. intros H Ee. unroll; unfold poll_work; cbn [set_ev set_script pipe ev script]; rewrite ?Ee;
    match goal with E : script _ = _ |- _ => rewrite E end; rewrite fmap_cons, list_sum_cons; cbn [answer_work]; cbn; lia.
Qed.

Lemma poll_turn_work ss w ss' : poll_turn ss = Ok (Continue, w, ss') -> (poll_work ss' < poll_work ss)%nat.
Proof.
  unfold poll_turn. intros H. cbv zeta in H. cbn [ev set_check] in H.
  assert (Hev : forall e rest ss0, dispatch_event e rest ss0 = Ok (Continue, ss') ->
    ev ss = e :: rest -> ss0 = set_check false ss -> (poll_work ss' < poll_work ss)%nat).
  { intros e rest ss0 Hd%dispatch_event_work Ee ->. rewrite <- Ee in Hd. by destruct ss. }
  assert (Hwait : forall r s, sp_wait (set_check false ss) = Ok (r, s) -> ev ss = [] ->
    (poll_work (match r with inl l => set_ev l (set_check true s) | inr _ => set_check true s end) < poll_work ss)%nat).
  { intros r s Hs Ee. apply wait_work in Hs; [|done]. by destruct r, ss. }
  unroll; try (by eapply Hev); try (by (eapply Hwait in E; eauto));
  try (match goal with
  | E : sp_wait _ = _, D : dispatch_event _ _ _ = _ |- _ =>
      specialize (Hwait _ _ E eq_refl); cbv beta iota in Hwait; apply dispatch_event_work in D; lia
  | E : ctrl_cmd _ _ = _, D : pipe _ = _ |- _ =>
      apply ctrl_cmd_frame, work_frame in E; unfold poll_work in *; cbn [set_pipe pipe ev script] in E; rewrite D; cbn; lia
  end).
Qed.

(** [poll_loop] does not run out of turns, whatever state it starts from. *)
Lemma poll_loop_fuel fuel more ss :
  (poll_work ss < fuel)%nat -> (forall s, poll_turn s <> Fault OutOfFuel) -> poll_loop fuel more ss <> Fault OutOfFuel.
Proof.
  intros Hf Hno. revert more ss Hf. induction fuel as [|fuel IH]; intros more ss Hf; [lia|]. cbn [poll_loop].
  destruct (poll_turn ss) as [[[x w] s]|f] eqn:E.
  - rewrite bind_ret. cbv zeta. destruct x; [done|]. apply IH. apply poll_turn_work in E. lia.
  - intros H. apply (Hno ss). cbn in H. congruence.
Qed.

(** ** No loop runs out *)

Lemma ends_answer ss : ends (answer_next ss).
Proof. unfold answer_next. by destruct (script ss). Qed.

#[export] Hint Resolve ends_answer : ends.

Lemma ends_sys_int ss : ends (sys_int ss).
Proof. unfold sys_int. ending. Qed.
Lemma ends_sys_read n ss : ends (sys_read n ss).
Proof. unfold sys_read. ending. Qed.
Lemma ends_sys_accept ss : ends (sys_accept ss).
Proof. unfold sys_accept. ending. Qed.
Lemma ends_sys_print ss : ends (sys_print ss).
Proof. unfold sys_print. ending. Qed.
Lemma ends_sp_wait ss : ends (sp_wait ss).
Proof. unfold sp_wait. ending. Qed.
#[export] Hint Resolve ends_sys_int ends_sys_read ends_sys_accept ends_sys_print ends_sp_wait : ends.
Lemma ends_sys_write f b o n ss : ends (sys_write f b o n ss).
Proof. unfold sys_write. ending. Qed.
Lemma ends_sys_sendto f b o n sa ss : ends (sys_sendto f b o n sa ss).
Proof. unfold sys_sendto. ending. Qed.
Lemma ends_sp_add f i ss : ends (sp_add f i ss).
Proof. unfold sp_add. ending. Qed.
Lemma ends_force_close i ss : ends (force_close i ss).
Proof. unfold force_close. ending. Qed.
#[export] Hint Resolve ends_sys_write ends_sys_sendto ends_sp_add ends_force_close : ends.
Lemma ends_new_fd i f pr op add ss : ends (new_fd i f pr op add ss).
Proof. unfold new_fd. ending. Qed.
Lemma ends_connect_loop n e ss : ends (connect_loop n e ss).
Proof. revert e ss. induction n as [|n IH]; intros e ss; cbn [connect_loop]; ending. Qed.
#[export] Hint Resolve ends_new_fd ends_connect_loop : ends.
Lemma ends_open_socket i op ss : ends (open_socket i op ss).
Proof. unfold open_socket. ending. Qed.
Lemma ends_udp_socket_address s a : ends (udp_socket_address s a).
Proof. unfold udp_socket_address. ending. Qed.
#[export] Hint Resolve ends_open_socket ends_udp_socket_address : ends.

Lemma ends_send_list i pr ss : ends (send_list i pr ss).
Proof.
  unfold send_list, send_list_tcp, send_list_udp. destruct (bool_decide _).
  - assert (H : forall n s, (length (script s) < n)%nat -> ends (send_list_tcp_loop n i pr s)).
    { induction n as [|n IH]; intros s Hs; [lia|]. cbn [send_list_tcp_loop]. ending;
      match goal with E : sys_write _ _ _ _ _ = Ok _ |- _ => apply sys_write_frame in E as [_ E] end;
      apply IH; cbn in *; lia. }
    apply H. lia.
  - assert (H : forall n s, (length (script s) < n)%nat -> ends (send_list_udp_loop n i pr s)).
    { induction n as [|n IH]; intros s Hs; [lia|]. cbn [send_list_udp_loop]. ending;
      match goal with E : sys_sendto _ _ _ _ _ _ = Ok _ |- _ => apply sys_sendto_frame in E as [_ E] end;
      apply IH; cbn in *; lia. }
    apply H. lia.
Qed.
#[export] Hint Resolve ends_send_list : ends.

Lemma ends_send_buffer i ss : ends (send_buffer i ss).
Proof. unfold send_buffer, raise_uncomplete, send_done. ending. Qed.
Lemma ends_append i pr r n a ss : ends (append_sendbuffer_ i pr r n a ss).
Proof. unfold append_sendbuffer_, send_object_init. ending. Qed.
#[export] Hint Resolve ends_send_buffer ends_append : ends.

Lemma ends_send_socket r pr a ss : ends (send_socket r pr a ss).
Proof.
  unfold send_socket, send_object_init, append_sendbuffer_low, append_sendbuffer, append_sendbuffer_udp, dest_address.
  ending.
Qed.
#[export] Hint Resolve ends_send_socket : ends.

Lemma ends_ctrl_cmd r ss : ends (ctrl_cmd r ss).
Proof.
  destruct r; cbn [ctrl_cmd];
  unfold start_socket, bind_socket, listen_socket, close_socket, set_udp_address, add_udp_socket; ending.
Qed.

Lemma ends_dispatch_event e rest ss : ends (dispatch_event e rest ss).
Proof.
  unfold dispatch_event, report_connect, report_accept, forward_message_tcp, forward_message_udp, gen_udp_address.
  ending.
Qed.
#[export] Hint Resolve ends_ctrl_cmd ends_dispatch_event : ends.

Lemma ends_poll_turn ss : ends (poll_turn ss).
Proof. unfold poll_turn. ending. Qed.

(** C24. [socket_server_poll] comes to an end: whatever the sockets, the requests
    in the pipe, the pending events and the answers of the system calls, its
    loop and the writing loops under it use no more turns than there is work
    (each turn handles a request or an event, or takes an answer). *)
Theorem poll_ends ss : socket_server_poll ss <> Fault OutOfFuel.
Proof. apply poll_loop_fuel; [lia|]. apply ends_poll_turn. Qed.
