(* ===== verification/SocketInv.v ===== *)
(** * The socket server: the invariant

    Which requests may stand in the pipe, what a slot of each type holds, and
    how the slots, the poller, the pending events and the pipe fit together.
    Under it no assertion of [socket_server.c] fails, nothing is read out of
    bounds, and a socket with data to write is one the poller watches for
    writing. *)

From S2P Require Import Prelude Text Socket SocketProofs.
From Stdlib Require Import ZArith Lia.
From stdpp Require Import base numbers list gmap.
#[local] Open Scope Z_scope.
#[local] Open Scope list_scope.
Import Sock.

(** ** What a slot holds *)

(** The types the poller watches. *)
Definition polled (t : stype) : bool :=
  match t with LISTEN | CONNECTING | CONNECTED | HALFCLOSE | BIND => true | _ => false end.

Definition live (t : stype) : bool := match t with INVALID | RESERVE => false | _ => true end.

(** An address the kernel call can be built from. *)
Definition addr_ok (a : list Z) : Prop :=
  exists t r, a = t :: r /\ (t = 1 -> (7 <= length a)%nat) /\ (t = 2 -> (19 <= length a)%nat).

Definition wb_ok (pr : protocol) (wb : write_buffer) : Prop :=
  0 <= w_off wb /\ 0 <= w_sz wb /\ w_off wb + w_sz wb <= Z.of_nat (length (w_buffer wb)) /\
  (pr <> TCP -> addr_ok (w_address wb)).

(** The size of the next read is [MIN_READ_BUFFER] times a power of two. *)
Definition read_size_ok (n : Z) : Prop := exists k, 0 <= k <= 24 /\ n = MIN_READ_BUFFER * 2 ^ k.

Definition p_ok (pr : protocol) (x : sparam) : Prop :=
  match pr with
  | TCP => exists n, x = PSize n /\ read_size_ok n
  | _ => exists a, x = PAddress a /\ length a = 19%nat
  end.

Definition sum_sz (l : list write_buffer) : Z := foldr Z.add 0 (w_sz <$> l).
#[global] Arguments sum_sz : simpl never.

(** Whether descriptors may have been bound, and the slot of a socket that is
    being closed while it connects. *)
Record config := Config { bound : bool; exempt : option Z }.

(** [n]: the last id given out. *)
Record sock_ok (b : config) (n h : Z) (s : socket) : Prop := {
  so_low : low s = [];
  so_dead : live (type s) = false -> high s = [];
  so_id : type s <> INVALID -> HASH_ID (id s) = h /\ 0 <= id s <= n;
  so_bufs : Forall (wb_ok (proto s)) (high s);
  so_size : live (type s) = true -> wb_size s = sum_sz (high s);
  so_p : live (type s) = true -> p_ok (proto s) (p s);
  so_quiet : type s = PACCEPT \/ type s = PLISTEN \/ type s = LISTEN -> high s = [];
  so_bind : type s = BIND -> bound b = true
}.

(** The socket connects, or has data to write and is one that gets written. *)
Definition wants (b : config) (h : Z) (s : socket) : Prop :=
  (high s <> [] \/ (type s = CONNECTING /\ exempt b <> Some h)) /\
  (type s = CONNECTING \/ type s = CONNECTED \/ (type s = HALFCLOSE /\ bound b = false)).

(** ** The slots and the poller *)

Definition reserved (ss : socket_server) (i : Z) : Prop :=
  type (slot_at ss (HASH_ID i)) = RESERVE /\ id (slot_at ss (HASH_ID i)) = i.

(** A chunk read from a socket is less than a gigabyte. *)
Definition answer_ok (a : answer) : Prop := match a with Data b _ => Z.of_nat (length b) < 2^30 | _ => True end.

(** [X]: the ids that are reserved. *)
Record core (b : config) (X : list Z) (ss : socket_server) : Prop := {
  c_slot : forall h, sock_ok b (alloc_id ss) h (slot_at ss h);
  c_reg : forall f h w, reg ss !! f = Some (h, w) -> polled (type (slot_at ss h)) = true /\ fd (slot_at ss h) = f;
  c_watch : forall h, polled (type (slot_at ss h)) = true ->
    exists w, reg ss !! fd (slot_at ss h) = Some (h, w) /\ (wants b h (slot_at ss h) -> w = true);
  c_res : forall i, reserved ss i <-> i ∈ X;
  c_alloc : 0 <= alloc_id ss;
  c_script : Forall answer_ok (script ss)
}.

(** *** Steps that leave the slots alone *)

Record quiet (ss ss' : socket_server) : Prop := {
  q_alloc : alloc_id ss' = alloc_id ss;
  q_slot : slot ss' = slot ss;
  q_reg : reg ss' = reg ss;
  q_script : Forall answer_ok (script ss) -> Forall answer_ok (script ss')
}.

#[global] Instance quiet_refl : Reflexive quiet.
Proof. by intros ss. Qed.
#[global] Instance quiet_trans : Transitive quiet.
Proof. intros x y z [] []. split; try congruence. eauto. Qed.

Lemma quiet_at ss ss' h : quiet ss ss' -> slot_at ss' h = slot_at ss h.
Proof. intros Q. unfold slot_at. by rewrite (q_slot _ _ Q). Qed.

Lemma quiet_record a ss : quiet ss (record a ss).
Proof. by split. Qed.

Lemma core_quiet b X ss ss' : quiet ss ss' -> core b X ss -> core b X ss'.
Proof.
  intros Q C. pose proof (fun h => quiet_at ss ss' h Q) as A. destruct Q as [Qa Qs Qr Qc], C.
  split; unfold reserved in *; intros; rewrite ?A, ?Qa, ?Qr in *; eauto.
Qed.

(** *** Steps on one slot *)

(** The poller's entries of the other slots are as before. *)
Definition reg_frame (h : Z) (r r' : gmap Z (Z * bool)) : Prop :=
  forall f h' w, h' <> h -> r' !! f = Some (h', w) <-> r !! f = Some (h', w).

Record upd (h : Z) (s' : socket) (ss ss' : socket_server) : Prop := {
  u_at : slot_at ss' h = s';
  u_other : forall h', h' <> h -> slot_at ss' h' = slot_at ss h';
  u_alloc : alloc_id ss <= alloc_id ss';
  u_reg : reg_frame h (reg ss) (reg ss');
  u_script : Forall answer_ok (script ss) -> Forall answer_ok (script ss')
}.

Lemma sock_ok_mono b n n' h s : n <= n' -> sock_ok b n h s -> sock_ok b n' h s.
Proof. intros Hn []. split; try done. intros Ht. destruct (so_id0 Ht). split; [done|lia]. Qed.

Lemma core_upd b X X' h s' ss ss' :
  core b X ss -> upd h s' ss ss' ->
  sock_ok b (alloc_id ss') h s' ->
  (forall f w, reg ss' !! f = Some (h, w) -> polled (type s') = true /\ fd s' = f) ->
  (polled (type s') = true -> exists w, reg ss' !! fd s' = Some (h, w) /\ (wants b h s' -> w = true)) ->
  (forall i, HASH_ID i <> h -> i ∈ X' <-> i ∈ X) ->
  (forall i, HASH_ID i = h -> i ∈ X' <-> type s' = RESERVE /\ id s' = i) ->
  core b X' ss'.
Proof.
  intros [Cs Cr Cw Cx Ca Cc] [Ua Uo Ul Ur Uc] Hs Hr Hw HX Hh. split; [| | | |lia|auto].
  - intros h'. destruct (decide (h' = h)) as [->|Hne]; [by rewrite Ua|].
    rewrite Uo by done. eapply sock_ok_mono; [|apply Cs]. lia.
  - intros f h' w E. destruct (decide (h' = h)) as [->|Hne]; [rewrite Ua; eauto|].
    rewrite Uo by done. eapply Cr. by apply Ur.
  - intros h'. destruct (decide (h' = h)) as [->|Hne]; [by rewrite Ua|].
    rewrite Uo by done. intros (w & E & W)%Cw. exists w. split; [by apply Ur|done].
  - intros i. unfold reserved. destruct (decide (HASH_ID i = h)) as [E|Hne].
    + rewrite E, Ua. symmetry. by apply Hh.
    + rewrite Uo by done. rewrite HX by done. apply Cx.
Qed.

(** A slot that is not reserved, before and after. *)
Lemma core_live b X h s' ss ss' :
  core b X ss -> upd h s' ss ss' -> sock_ok b (alloc_id ss') h s' ->
  type (slot_at ss h) <> RESERVE -> type s' <> RESERVE ->
  (forall f w, reg ss' !! f = Some (h, w) -> polled (type s') = true /\ fd s' = f) ->
  (polled (type s') = true -> exists w, reg ss' !! fd s' = Some (h, w) /\ (wants b h s' -> w = true)) ->
  core b X ss'.
Proof.
  intros C U Hs Hn Hn' Hr Hw. eapply core_upd; try done. intros i Hi. split; [|by intros []].
  intros Hx. apply (c_res _ _ _ C) in Hx as [Ht _]. rewrite Hi in Ht. done.
Qed.

(** The slot of a request that makes a socket. *)
Lemma core_created b X i s' ss ss' :
  core b (i :: X) ss -> i ∉ X -> upd (HASH_ID i) s' ss ss' -> sock_ok b (alloc_id ss') (HASH_ID i) s' ->
  type s' <> RESERVE ->
  (forall f w, reg ss' !! f = Some (HASH_ID i, w) -> polled (type s') = true /\ fd s' = f) ->
  (polled (type s') = true -> exists w, reg ss' !! fd s' = Some (HASH_ID i, w) /\ (wants b (HASH_ID i) s' -> w = true)) ->
  core b X ss'.
Proof.
  intros C Hi U Hs Hn Hr Hw. eapply core_upd; try done.
  - intros j Hj. rewrite elem_of_cons. split; [by right|]. intros [->|]; done.
  - intros j Hj. split; [|by intros []]. intros Hx.
    assert (R : reserved ss j) by (apply (c_res _ _ _ C); by right).
    assert (Ri : reserved ss i) by (apply (c_res _ _ _ C); by left).
    destruct R as [_ R], Ri as [_ Ri]. rewrite Hj in R. congruence.
Qed.

Lemma slot_put_eq h s ss : slot_at (put h s ss) h = s.
Proof. unfold slot_at, put. cbn. by rewrite lookup_insert_eq. Qed.
Lemma slot_put_ne h h' s ss : h' <> h -> slot_at (put h s ss) h' = slot_at ss h'.
Proof. intros. unfold slot_at, put. cbn. by rewrite lookup_insert_ne. Qed.

Lemma reg_frame_refl h r : reg_frame h r r.
Proof. by intros f h' w _. Qed.
Lemma reg_frame_delete h f w r : r !! f = Some (h, w) -> reg_frame h r (delete f r).
Proof.
  intros E f' h' w' Hne. destruct (decide (f' = f)) as [->|].
  - rewrite lookup_delete_eq, E. split; [done|]. intros [= ->]. done.
  - by rewrite lookup_delete_ne.
Qed.
Lemma reg_frame_insert h f w r : (forall h' w', r !! f = Some (h', w') -> h' = h) -> reg_frame h r (<[f := (h, w)]> r).
Proof.
  intros E f' h' w' Hne. destruct (decide (f' = f)) as [->|].
  - rewrite lookup_insert_eq. split; [by intros [= ->]|]. intros H%E. done.
  - by rewrite lookup_insert_ne.
Qed.

(** ** System calls *)

Lemma answer_safe ss :
  safe (fun '(a, ss') => quiet ss ss' /\ (Forall answer_ok (script ss) -> answer_ok a)) (answer_next ss).
Proof.
  unfold answer_next. destruct (script ss) as [|a l] eqn:E; cbn; [done|]. split; [|by inversion 1].
  split; cbn; try done. rewrite E. by inversion 1.
Qed.

(** [by_answer] runs a call that takes one answer. *)
Ltac by_answer :=
  eapply safe_then; [apply answer_safe|]; intros [a ss1] [Q Hok];
  destruct a; cbn -[Z.pow] in *; try done;
  repeat match goal with |- context [if ?b then _ else _] => destruct b eqn:? end; cbn; try done.

Lemma sys_int_safe ss :
  safe (fun '(r, ss') => quiet ss ss' /\ (forall n, r = inl n -> 0 <= n)) (sys_int ss).
Proof. unfold sys_int. by_answer. split; [done|]. intros ? [= ->]. by apply Z.leb_le. Qed.

Lemma sys_write_safe f b o n ss :
  0 <= o -> 0 <= n -> o + n <= Z.of_nat (length b) ->
  safe (fun '(r, ss') => quiet ss ss' /\ (forall k, r = inl k -> 0 <= k <= n)) (sys_write f b o n ss).
Proof.
  intros Ho Hn Hl. unfold sys_write, mem_read.
  destruct (Z.ltb_spec o 0), (Z.ltb_spec n 0), (Z.ltb_spec (Z.of_nat (length b)) (o + n)); try lia.
  cbn [orb]. rewrite bind_ret. eapply safe_then; [apply sys_int_safe|]. intros [[k|e] s1] [Q Hk]; [|done].
  destruct (Z.leb_spec k n); [|done]. cbn. split; [|intros ? [= <-]; auto].
  etransitivity; [exact Q|apply quiet_record].
Qed.

Lemma sys_sendto_safe f b o n sa ss :
  0 <= o -> 0 <= n -> o + n <= Z.of_nat (length b) ->
  safe (fun '(r, ss') => quiet ss ss' /\ (forall k, r = inl k -> k = n)) (sys_sendto f b o n sa ss).
Proof.
  intros Ho Hn Hl. unfold sys_sendto, mem_read.
  destruct (Z.ltb_spec o 0), (Z.ltb_spec n 0), (Z.ltb_spec (Z.of_nat (length b)) (o + n)); try lia.
  cbn [orb]. rewrite bind_ret. eapply safe_then; [apply sys_int_safe|]. intros [[k|e] s1] [Q Hk]; [|done].
  destruct (Z.eqb_spec k n) as [->|]; [|done]. cbn. split; [|by intros ? [= <-]].
  etransitivity; [exact Q|apply quiet_record].
Qed.

Lemma sys_read_safe sz ss :
  Forall answer_ok (script ss) ->
  safe (fun '(r, ss') => quiet ss ss' /\
    (forall b sa, r = inl (b, sa) -> Z.of_nat (length b) <= sz /\ Z.of_nat (length b) < 2^30 /\ well_addressed sa = true))
    (sys_read sz ss).
Proof.
  intros Hs. unfold sys_read. by_answer. split; [done|]. intros ? ? [= <- <-].
  match goal with H : _ && _ = true |- _ => apply andb_prop in H as [?%Z.leb_le ?] end. auto.
Qed.

Lemma sys_accept_safe ss : safe (fun '(r, ss') => quiet ss ss') (sys_accept ss).
Proof. unfold sys_accept. by_answer. Qed.

Lemma sys_address_safe ss :
  safe (fun '(r, ss') => quiet ss ss' /\ (forall sa, r = Some sa -> well_addressed sa = true)) (sys_address ss).
Proof. unfold sys_address. by_answer. split; [done|]. by intros ? [= <-]. Qed.

Lemma sys_print_safe ss : safe (fun '(r, ss') => quiet ss ss') (sys_print ss).
Proof. unfold sys_print. by_answer. Qed.

(** [read_in n]: the result of reading from a buffer that has the bytes. *)
Lemma mem_read_safe {A} (l : list A) o n :
  0 <= o -> 0 <= n -> o + n <= Z.of_nat (length l) ->
  exists r, mem_read l o n = Ok r /\ Z.of_nat (length r) = n /\ (o = 0 -> 0 < n -> head r = head l).
Proof.
  intros Ho Hn Hl. unfold mem_read.
  destruct (Z.ltb_spec o 0), (Z.ltb_spec n 0), (Z.ltb_spec (Z.of_nat (length l)) (o + n)); try lia.
  eexists. split; [done|]. rewrite length_take, length_drop. split; [lia|].
  intros -> H3. destruct l as [|x l]; [cbn in Hl; lia|]. cbn.
  replace (Z.to_nat n) with (S (Z.to_nat (n - 1))) by lia. done.
Qed.

Lemma udp_socket_address_ok s a : addr_ok a -> exists sa, udp_socket_address s a = Ok sa.
Proof.
  intros (t & r & -> & H1 & H2). unfold udp_socket_address. change (arr_get (t :: r) 0) with (Ok t). rewrite bind_ret.
  destruct (proto s); [by eauto| |].
  - destruct (Z.eqb_spec t 1) as [->|]; cbn [negb]; [|by eauto]. specialize (H1 eq_refl). cbn in H1.
    destruct (mem_read_safe (1 :: r) 1 2) as (x & -> & _); [lia|lia|cbn; lia|].
    destruct (mem_read_safe (1 :: r) 3 4) as (y & -> & _); [lia|lia|cbn; lia|]. by eauto.
  - destruct (Z.eqb_spec t 2) as [->|]; cbn [negb]; [|by eauto]. specialize (H2 eq_refl). cbn in H2.
    destruct (mem_read_safe (2 :: r) 1 2) as (x & -> & _); [lia|lia|cbn; lia|].
    destruct (mem_read_safe (2 :: r) 3 16) as (y & -> & _); [lia|lia|cbn; lia|]. by eauto.
Qed.

(** ** Changing one slot *)

Lemma upd_put h s' ss ss1 : quiet ss ss1 -> upd h s' ss (put h s' ss1).
Proof.
  intros Q. pose proof Q as [Qa Qs Qr Qc]. split; cbn; [apply slot_put_eq| |lia| |done].
  - intros h' Hne. rewrite slot_put_ne by done. by apply quiet_at.
  - rewrite Qr. apply reg_frame_refl.
Qed.

(** A slot that keeps its place. *)
Lemma core_same b X h s' ss ss1 :
  core b X ss -> quiet ss ss1 -> sock_ok b (alloc_id ss) h s' ->
  type (slot_at ss h) <> RESERVE -> type s' <> RESERVE ->
  polled (type s') = polled (type (slot_at ss h)) -> fd s' = fd (slot_at ss h) ->
  (wants b h s' -> wants b h (slot_at ss h)) -> core b X (put h s' ss1).
Proof.
  intros C Q Hs Hn Hn' Ht Hf Hw. eapply core_live; [exact C|by apply upd_put| |done|done| |].
  - cbn. by rewrite (q_alloc _ _ Q).
  - cbn. intros f w. rewrite (q_reg _ _ Q), Ht, Hf. apply C.
  - cbn. rewrite (q_reg _ _ Q), Ht, Hf. intros (w & E & W)%(c_watch _ _ _ C). eauto.
Qed.

Lemma polled_live t : polled t = true -> live t = true.
Proof. by destruct t. Qed.
Lemma polled_neq t : polled t = true -> t <> RESERVE.
Proof. by destruct t. Qed.
Lemma live_neq t : live t = true -> t <> INVALID /\ t <> RESERVE.
Proof. by destruct t. Qed.

Lemma free_wb_quiet l ss : quiet ss (free_wb_list l ss).
Proof.
  revert ss. induction l as [|wb l IH]; intros ss; cbn; [done|].
  etransitivity; [apply quiet_record|apply IH].
Qed.

Lemma core_sp_write b X h en ss :
  core b X ss -> polled (type (slot_at ss h)) = true -> (wants b h (slot_at ss h) -> en = true) ->
  core b X (sp_write (fd (slot_at ss h)) h en ss).
Proof.
  intros C Hp Hw. destruct (c_watch _ _ _ C h Hp) as (w & E & _). unfold sp_write. rewrite E.
  eapply core_live; [exact C| |apply C|by apply polled_neq|by apply polled_neq| |].
  - split; cbn; [done|done|lia| |done]. apply reg_frame_insert. intros h' w' E'. congruence.
  - cbn. intros f w'. destruct (decide (f = fd (slot_at ss h))) as [->|]; [done|].
    rewrite lookup_insert_ne by done. apply C.
  - cbn. intros _. rewrite lookup_insert_eq. eauto.
Qed.

Lemma sp_write_at f i en ss h : slot_at (sp_write f i en ss) h = slot_at ss h.
Proof. unfold sp_write. by destruct (reg ss !! f). Qed.

Lemma sp_write_alloc f i en ss : alloc_id (sp_write f i en ss) = alloc_id ss.
Proof. unfold sp_write. by destruct (reg ss !! f). Qed.
Lemma sp_write_script f i en ss : script (sp_write f i en ss) = script ss.
Proof. unfold sp_write. by destruct (reg ss !! f). Qed.

(** ** Closing *)

(** The fields of a slot that a handler may change while the socket stays. *)
Definition same_place (s s' : socket) : Prop :=
  type s' = type s /\ fd s' = fd s /\ id s' = id s /\ proto s' = proto s.

Lemma sock_ok_closed b n h s : sock_ok b n h s -> sock_ok b n h (set_type INVALID (set_lists [] [] (wb_size s) s)).
Proof. intros []. by split. Qed.

(** What a handler does to the slot [h] it was called for. *)
Definition others (h : Z) (ss ss' : socket_server) : Prop := forall h', h' <> h -> slot_at ss' h' = slot_at ss h'.

Definition closed (h : Z) (t : rtype) (m : socket_message) (ss' : socket_server) : Prop :=
  type (slot_at ss' h) = INVALID /\ id (slot_at ss' h) = m_id m /\ (t = R_CLOSE \/ t = R_ERR).

Lemma force_close_safe b X h ss :
  core b X ss -> live (type (slot_at ss h)) = true ->
  exists m ss', force_close h ss = Ok (m, ss') /\ core b X ss' /\ others h ss ss' /\
    type (slot_at ss' h) = INVALID /\ id (slot_at ss' h) = m_id m /\ m_id m = id (slot_at ss h) /\
    alloc_id ss' = alloc_id ss.
Proof.
  intros C Hl. pose proof (live_neq _ Hl) as [Hi Hr]. unfold force_close. cbv zeta.
  set (s := slot_at ss h) in *.
  rewrite (bool_decide_eq_false_2 (type s = INVALID)), (bool_decide_eq_true_2 (type s <> RESERVE)) by done.
  cbn [c_assert]. rewrite bind_ret.
  set (ss1 := free_wb_list (low s) (free_wb_list (high s) ss)).
  assert (Q : quiet ss ss1) by (etransitivity; apply free_wb_quiet).
  set (ss2 := if bool_decide (type s <> PACCEPT /\ type s <> PLISTEN) then sp_del (fd s) ss1 else ss1).
  set (ss3 := if bool_decide (type s <> BIND) then record (Closed (fd s)) ss2 else ss2).
  assert (Q3 : quiet ss2 ss3) by (unfold ss3; destruct (bool_decide (type s <> BIND)); [apply quiet_record|done]).
  assert (At : forall h', slot_at ss3 h' = slot_at ss h').
  { intros h'. rewrite (quiet_at _ _ _ Q3), <- (quiet_at _ _ h' Q). unfold ss2. by destruct (bool_decide _). }
  assert (Al : alloc_id ss3 = alloc_id ss).
  { rewrite (q_alloc _ _ Q3), <- (q_alloc _ _ Q). unfold ss2. by destruct (bool_decide _). }
  eexists _, _. split; [done|]. rewrite slot_put_eq. cbn [type set_type id set_lists m_id alloc_id put set_slot].
  split; [|split; [|done]].
  2:{ intros h' Hne. rewrite slot_put_ne by done. apply At. }
  assert (Rs : forall f w, reg ss3 !! f = Some (h, w) -> False).
  { intros f w. rewrite (q_reg _ _ Q3). unfold ss2. destruct (bool_decide _) eqn:B; cbn.
    - rewrite (q_reg _ _ Q). destruct (decide (f = fd s)) as [->|Hne]; [by rewrite lookup_delete_eq|].
      rewrite lookup_delete_ne by done. intros [_ E]%(c_reg _ _ _ C). by destruct Hne.
    - rewrite (q_reg _ _ Q). intros [Hp _]%(c_reg _ _ _ C). fold s in Hp. apply bool_decide_eq_false in B.
      destruct (type s); naive_solver. }
  eapply (core_live b X h (set_type INVALID (set_lists [] [] (wb_size s) s))); [exact C| | |done|done| |done].
  - split; [apply slot_put_eq| |by rewrite <- Al| |].
    + intros h' Hne. rewrite slot_put_ne by done. apply At.
    + cbn [reg put set_slot]. rewrite (q_reg _ _ Q3). unfold ss2. destruct (bool_decide _) eqn:B; cbn.
      * rewrite (q_reg _ _ Q). apply bool_decide_eq_true in B as [B1 B2].
        assert (Hp : polled (type s) = true) by (destruct (type s); done).
        destruct (c_watch _ _ _ C h Hp) as (w & E & _). by eapply reg_frame_delete.
      * rewrite (q_reg _ _ Q). apply reg_frame_refl.
    + cbn [script put set_slot]. intros Hs. apply (q_script _ _ Q3). unfold ss2.
      destruct (bool_decide _); cbn; by apply (q_script _ _ Q).
  - cbn [alloc_id put set_slot]. rewrite Al. apply sock_ok_closed, C.
  - cbn [reg put set_slot]. intros f w E. destruct (Rs f w E).
Qed.

(** ** Writing *)

Lemma sum_sz_cons wb l : sum_sz (wb :: l) = w_sz wb + sum_sz l.
Proof. done. Qed.

(** Taking bytes off the head of the high list, or the head itself. *)
Lemma sock_ok_head b n h s wb l k :
  sock_ok b n h s -> live (type s) = true -> high s = wb :: l -> 0 <= k <= w_sz wb ->
  sock_ok b n h (set_lists (WBuf (w_buffer wb) (w_off wb + k) (w_sz wb - k) (w_address wb) :: l) (low s) (wb_size s - k) s).
Proof.
  intros [Sl Sd Si Sb Sz Sp Sq Sn] Hl E Hk. rewrite E in *. apply Forall_cons in Sb as [(B1 & B2 & B3 & B4) Bl].
  split; cbn; try done.
  - intros H. congruence.
  - constructor; [|done]. repeat split; cbn; try lia. done.
  - intros H. rewrite (Sz H), !sum_sz_cons. cbn [w_sz]. lia.
  - intros H%Sq. done.
Qed.

Lemma sock_ok_tail b n h s wb l :
  sock_ok b n h s -> live (type s) = true -> high s = wb :: l ->
  sock_ok b n h (set_lists l (low s) (wb_size s - w_sz wb) s).
Proof.
  intros [Sl Sd Si Sb Sz Sp Sq Sn] Hl E. rewrite E in *. apply Forall_cons in Sb as [_ Bl]. split; cbn; try done.
  - intros H. congruence.
  - intros H'. rewrite (Sz H'), sum_sz_cons. lia.
  - intros H'%Sq. done.
Qed.

(** The result of a handler that works on the slot [h]. *)
Definition wrote b X h ss : rtype * socket_message * socket_server -> Prop :=
  fun '(t, m, ss') =>
    core b X ss' /\ others h ss ss' /\ alloc_id ss' = alloc_id ss /\
    ((t = R_NONE /\ same_place (slot_at ss h) (slot_at ss' h)) \/
     (t = R_CLOSE /\ type (slot_at ss' h) = INVALID /\ id (slot_at ss' h) = m_id m /\ m_id m = id (slot_at ss h))).

Lemma others_put h s ss ss1 : quiet ss ss1 -> others h ss (put h s ss1).
Proof. intros Q h' Hne. rewrite slot_put_ne by done. by apply quiet_at. Qed.
Lemma others_trans h ss ss1 ss2 : others h ss ss1 -> others h ss1 ss2 -> others h ss ss2.
Proof. intros H1 H2 h' Hne. rewrite H2, H1; done. Qed.
Lemma others_quiet h ss ss1 : quiet ss ss1 -> others h ss ss1.
Proof. intros Q h' Hne. by apply quiet_at. Qed.
Lemma same_place_refl s : same_place s s.
Proof. done. Qed.

Lemma wrote_none b X h ss ss' m : core b X ss -> quiet ss ss' -> wrote b X h ss (R_NONE, m, ss').
Proof.
  intros C Q. split; [by eapply core_quiet|]. split; [by apply others_quiet|]. split; [apply Q|]. left.
  by rewrite (quiet_at _ _ _ Q).
Qed.

Lemma wrote_close b X h ss ss1 :
  core b X ss -> live (type (slot_at ss h)) = true -> quiet ss ss1 ->
  safe (wrote b X h ss) ('(m, s) ← force_close h ss1; Ok (R_CLOSE, m, s)).
Proof.
  intros C Hl Q. destruct (force_close_safe b X h ss1) as (m & s & -> & C' & O & T & I & M & A).
  { by eapply core_quiet. }
  { by rewrite (quiet_at _ _ _ Q). }
  rewrite bind_ret. cbn. split; [done|]. split; [eapply others_trans; [by apply others_quiet|done]|].
  split; [rewrite A; apply Q|]. right. by rewrite M, (quiet_at _ _ _ Q) in *.
Qed.

(** Going on from a slot that kept its place. *)
Lemma wrote_trans b X h ss ss1 x :
  others h ss ss1 -> alloc_id ss1 = alloc_id ss -> same_place (slot_at ss h) (slot_at ss1 h) ->
  wrote b X h ss1 x -> wrote b X h ss x.
Proof.
  intros O A (P1 & P2 & P3 & P4). destruct x as [[t m] ss2]. intros (C & O2 & A2 & D). split; [done|].
  split; [by eapply others_trans|]. split; [congruence|].
  destruct D as [[-> (R1 & R2 & R3 & R4)]|(-> & T & I & M)].
  - left. split; [done|]. unfold same_place. split_and!; congruence.
  - right. split_and!; congruence.
Qed.

Lemma core_head b X h ss ss1 wb l k :
  core b X ss -> polled (type (slot_at ss h)) = true -> quiet ss ss1 ->
  high (slot_at ss h) = wb :: l -> 0 <= k <= w_sz wb ->
  core b X (put h (set_lists (WBuf (w_buffer wb) (w_off wb + k) (w_sz wb - k) (w_address wb) :: l)
    (low (slot_at ss h)) (wb_size (slot_at ss h) - k) (slot_at ss h)) ss1).
Proof.
  intros C Hp Q E Hk. pose proof (polled_neq _ Hp). eapply core_same; try done.
  - apply sock_ok_head; [apply C|by apply polled_live|done|done].
  - unfold wants. rewrite E. cbn. intros [_ H2]. split; [by left|done].
Qed.

Lemma core_tail b X h ss ss1 wb l :
  core b X ss -> polled (type (slot_at ss h)) = true -> quiet ss ss1 -> high (slot_at ss h) = wb :: l ->
  core b X (put h (set_lists l (low (slot_at ss h)) (wb_size (slot_at ss h) - w_sz wb) (slot_at ss h)) ss1).
Proof.
  intros C Hp Q E. pose proof (polled_neq _ Hp). eapply core_same; try done.
  - apply sock_ok_tail; [apply C|by apply polled_live|done].
  - unfold wants. rewrite E. cbn. intros [_ H2]. split; [by left|done].
Qed.

Lemma send_list_tcp_safe b X h n : forall ss,
  (length (script ss) < n)%nat -> core b X ss -> polled (type (slot_at ss h)) = true ->
  safe (wrote b X h ss) (send_list_tcp_loop n h PRIORITY_HIGH ss).
Proof.
  induction n as [|n IH]; intros ss Hn C Hp; [lia|]. cbn [send_list_tcp_loop wl]. cbv zeta.
  destruct (high (slot_at ss h)) as [|wb l] eqn:Eh; [by apply wrote_none|].
  pose proof (so_bufs _ _ _ _ (c_slot _ _ _ C h)) as Sb. rewrite Eh in Sb.
  apply Forall_cons in Sb as [(B1 & B2 & B3 & B4) _].
  pose proof (sys_write_safe (fd (slot_at ss h)) (w_buffer wb) (w_off wb) (w_sz wb) ss B1 B2 B3) as S.
  destruct (sys_write _ _ _ _ _) as [[r ss1]|f] eqn:Ew; [|exact S]. destruct S as [Q Hr].
  apply sys_write_frame in Ew as [_ Hlen]. rewrite bind_ret. destruct r as [k|e].
  - specialize (Hr k eq_refl). destruct (Z.eqb_spec k (w_sz wb)) as [->|]; cbn [negb set_wl].
    + set (s1 := write_buffer_free wb _).
      assert (Q1 : quiet (put h (set_lists l (low (slot_at ss h)) (wb_size (slot_at ss h) - w_sz wb) (slot_at ss h)) ss1) s1)
        by apply quiet_record.
      assert (Es : slot_at s1 h = set_lists l (low (slot_at ss h)) (wb_size (slot_at ss h) - w_sz wb) (slot_at ss h))
        by (rewrite (quiet_at _ _ _ Q1); apply slot_put_eq).
      eapply safe_mono; [apply IH|].
      * cbn. lia.
      * eapply core_quiet; [exact Q1|]. by apply core_tail.
      * by rewrite Es.
      * intros x. apply wrote_trans; [|cbn; apply Q|by rewrite Es].
        eapply others_trans; [by apply others_put|]. by apply others_quiet.
    + cbn. split; [by apply core_head|]. split; [by apply others_put|]. split; [apply Q|]. left.
      by rewrite slot_put_eq.
  - destruct e; try (by apply wrote_close; [|apply polled_live|]); [|by apply wrote_none].
    eapply safe_mono; [apply IH|].
    + lia.
    + by eapply core_quiet.
    + by rewrite (quiet_at _ _ _ Q).
    + intros x. apply wrote_trans; [by apply others_quiet|apply Q|by rewrite (quiet_at _ _ _ Q)].
Qed.

Lemma send_list_udp_safe b X h n : forall ss,
  (length (script ss) < n)%nat -> core b X ss -> polled (type (slot_at ss h)) = true -> proto (slot_at ss h) <> TCP ->
  safe (wrote b X h ss) (send_list_udp_loop n h PRIORITY_HIGH ss).
Proof.
  induction n as [|n IH]; intros ss Hn C Hp Hu; [lia|]. cbn [send_list_udp_loop wl]. cbv zeta.
  destruct (high (slot_at ss h)) as [|wb l] eqn:Eh; [by apply wrote_none|].
  pose proof (so_bufs _ _ _ _ (c_slot _ _ _ C h)) as Sb. rewrite Eh in Sb.
  apply Forall_cons in Sb as [(B1 & B2 & B3 & B4) _].
  destruct (udp_socket_address_ok (slot_at ss h) _ (B4 Hu)) as [sa ->]. rewrite bind_ret.
  pose proof (sys_sendto_safe (fd (slot_at ss h)) (w_buffer wb) (w_off wb) (w_sz wb) sa ss B1 B2 B3) as S.
  destruct (sys_sendto _ _ _ _ _ _) as [[r ss1]|f] eqn:Ew; [|exact S]. destruct S as [Q Hr].
  apply sys_sendto_frame in Ew as [_ Hlen]. rewrite bind_ret. destruct r as [k|e].
  - cbn [set_wl]. set (s1 := write_buffer_free wb _).
    assert (Q1 : quiet (put h (set_lists l (low (slot_at ss h)) (wb_size (slot_at ss h) - w_sz wb) (slot_at ss h)) ss1) s1)
      by apply quiet_record.
    assert (Es : slot_at s1 h = set_lists l (low (slot_at ss h)) (wb_size (slot_at ss h) - w_sz wb) (slot_at ss h))
      by (rewrite (quiet_at _ _ _ Q1); apply slot_put_eq).
    eapply safe_mono; [apply IH|].
    + cbn. lia.
    + eapply core_quiet; [exact Q1|]. by apply core_tail.
    + by rewrite Es.
    + by rewrite Es.
    + intros x. apply wrote_trans; [|cbn; apply Q|by rewrite Es].
      eapply others_trans; [by apply others_put|]. by apply others_quiet.
  - destruct e; apply wrote_none; try done; (etransitivity; [exact Q|apply quiet_record]).
Qed.

Lemma send_list_safe b X h ss :
  core b X ss -> polled (type (slot_at ss h)) = true -> safe (wrote b X h ss) (send_list h PRIORITY_HIGH ss).
Proof.
  intros C Hp. unfold send_list. case_bool_decide as E.
  - apply send_list_tcp_safe; [lia|done|done].
  - apply send_list_udp_safe; [lia|done|done|done].
Qed.

(** What a request or an event does to the slot of its socket: a slot that was
    watched stays so, or its socket is closed and the close is reported. *)
Definition handled b X h ss : rtype * socket_message * socket_server -> Prop :=
  fun '(t, m, ss') =>
    core b X ss' /\ others h ss ss' /\ alloc_id ss <= alloc_id ss' /\
    (polled (type (slot_at ss h)) = true -> polled (type (slot_at ss' h)) = true \/ closed h t m ss').

Lemma wrote_handled b X h ss x : wrote b X h ss x -> handled b X h ss x.
Proof.
  destruct x as [[t m] s]. intros (C & O & A & D). split; [done|]. split; [done|]. split; [lia|].
  intros Hp. destruct D as [[-> (T & _)]|(-> & T & I & M)]; [left; by rewrite T|right]. split; [done|]. auto.
Qed.

Lemma handled_trans b X h ss ss1 x :
  others h ss ss1 -> alloc_id ss <= alloc_id ss1 ->
  (polled (type (slot_at ss h)) = true -> polled (type (slot_at ss1 h)) = true) ->
  handled b X h ss1 x -> handled b X h ss x.
Proof.
  intros O A P. destruct x as [[t m] ss2]. intros (C & O2 & A2 & D). split; [done|].
  split; [by eapply others_trans|]. split; [lia|auto].
Qed.

(** The socket is closed, or nothing but its data and its warning changed. *)
Definition sent b X h ss : rtype * socket_message * socket_server -> Prop :=
  fun '(t, m, ss') => handled b X h ss (t, m, ss') /\
    ((t = R_CLOSE /\ type (slot_at ss' h) = INVALID /\ id (slot_at ss' h) = m_id m) \/
     ((t = R_NONE \/ t = R_WARNING) /\ same_place (slot_at ss h) (slot_at ss' h))).

Lemma send_done_safe b X h ss :
  core b X ss -> polled (type (slot_at ss h)) = true -> high (slot_at ss h) = [] ->
  (type (slot_at ss h) = CONNECTING -> exempt b = Some h) ->
  safe (sent b X h ss) (send_done h ss).
Proof.
  intros C Hp Eh Hx. pose proof (c_slot _ _ _ C h) as S. pose proof (polled_live _ Hp) as Hl. unfold send_done.
  apply safe_assert.
  { unfold send_buffer_empty. rewrite bool_decide_eq_true_2 by (split; [done|apply S]).
    rewrite (so_size _ _ _ _ S Hl), Eh. done. }
  set (s1 := sp_write _ _ _ _).
  assert (C1 : core b X s1) by (apply core_sp_write; [done|done|intros [[|[]] _]; naive_solver]).
  assert (At : forall h', slot_at s1 h' = slot_at ss h') by (intros; apply sp_write_at).
  assert (Al : alloc_id s1 = alloc_id ss) by apply sp_write_alloc.
  assert (O : others h ss s1) by (intros h' _; apply At).
  case_bool_decide as Eh'.
  - destruct (force_close_safe b X h s1 C1) as (m & s & -> & C2 & O2 & T & I & M & A); [by rewrite At|].
    rewrite bind_ret. cbn. split; [|left; auto]. split; [done|]. split; [by eapply others_trans|]. split; [lia|].
    intros _. right. split; [done|]. auto.
  - destruct (Z.ltb_spec 0 (warn_size (slot_at ss h))); cbn [safe fst snd].
    + split; [|right; split; [by right|by rewrite slot_put_eq]]. split.
      * eapply core_same; [exact C1|done| | | | | |]; rewrite ?At, ?Al; try done; [by destruct S|by apply polled_neq|by apply polled_neq].
      * split; [|split; [change (alloc_id ss <= alloc_id s1); lia|]].
        -- intros h' Hne. rewrite slot_put_ne by done. apply At.
        -- intros _. left. by rewrite slot_put_eq.
    + split; [|right; split; [by left|by rewrite At]]. split; [done|]. split; [done|]. split; [lia|]. left. by rewrite At.
Qed.

Lemma send_buffer_safe b X h ss :
  core b X ss -> polled (type (slot_at ss h)) = true -> (type (slot_at ss h) = CONNECTING -> exempt b = Some h) ->
  safe (sent b X h ss) (send_buffer h ss).
Proof.
  intros C Hp Hx. unfold send_buffer. apply safe_assert.
  { by rewrite (so_low _ _ _ _ (c_slot _ _ _ C h)). }
  eapply safe_then; [by apply send_list_safe|]. intros [[t m] s1] W.
  pose proof W as (C1 & O1 & A1 & [[-> P]|(-> & T & I & M)]); [|cbn; split; [by apply wrote_handled in W|left; auto]].
  change (bool_decide (R_NONE = R_CLOSE)) with false. cbv iota.
  assert (Hp1 : polled (type (slot_at s1 h)) = true) by (destruct P as (-> & _); done).
  case_bool_decide as Eh.
  - rewrite bool_decide_eq_true_2 by apply C1. eapply safe_mono; [apply send_done_safe; [done|done|done|by destruct P as (-> & _)]|].
    intros [[t' m'] s2] [H1 H2]. split; [eapply handled_trans; [done|lia|done|done]|].
    destruct H2 as [|(T & Q1 & Q2 & Q3 & Q4)]; [by left|right]. destruct P as (P1 & P2 & P3 & P4).
    split; [done|]. unfold same_place. split_and!; congruence.
  - cbn. split; [|right; auto]. split; [done|]. split; [done|]. split; [lia|]. by left.
Qed.

(** ** Sending *)

Lemma sum_sz_app l l' : sum_sz (l ++ l') = sum_sz l + sum_sz l'.
Proof. unfold sum_sz. induction l as [|x l IH]; cbn; [done|]. rewrite fmap_app in IH |- *. cbn in *. lia. Qed.

Lemma sock_ok_append b n h s wb :
  sock_ok b n h s -> polled (type s) = true -> type s <> LISTEN -> wb_ok (proto s) wb ->
  sock_ok b n h (set_lists (high s ++ [wb]) (low s) (wb_size s + w_sz wb) s).
Proof.
  intros [Sl Sd Si Sb Sz Sp Sq Sn] Hp Ht Hw. pose proof (polled_live _ Hp) as Hl. split; cbn; try done.
  - intros H. congruence.
  - apply Forall_app. split; [done|]. by constructor.
  - intros H. rewrite (Sz H), sum_sz_app. unfold sum_sz. cbn. lia.
  - intros [H|[H|H]]; [| |done]; rewrite H in Hp; done.
Qed.

Lemma core_put_write b X h s' ss ss1 :
  core b X ss -> quiet ss ss1 -> sock_ok b (alloc_id ss) h s' -> polled (type (slot_at ss h)) = true ->
  type s' = type (slot_at ss h) -> fd s' = fd (slot_at ss h) ->
  core b X (sp_write (fd (slot_at ss h)) h true (put h s' ss1)).
Proof.
  intros C Q Hs Hp Ht Hf. destruct (c_watch _ _ _ C h Hp) as (w & E & _).
  unfold sp_write. cbn [reg put set_slot]. rewrite (q_reg _ _ Q), E.
  eapply (core_live b X h s'); [exact C| |cbn; by rewrite (q_alloc _ _ Q)|by apply polled_neq|rewrite Ht; by apply polled_neq| |].
  - pose proof (upd_put h s' ss ss1 Q) as [U1 U2 U3 U4 U5]. split; [done|done|done| |done].
    cbn. apply reg_frame_insert. intros h' w' E'. congruence.
  - cbn. intros f w'. destruct (decide (f = fd (slot_at ss h))) as [->|]; [by rewrite Ht|].
    rewrite lookup_insert_ne by done. intros Hr%(c_reg _ _ _ C). destruct Hr. congruence.
  - cbn. intros _. rewrite Hf, lookup_insert_eq. eauto.
Qed.

Lemma append_eq h r n a ss :
  0 <= rs_sz r ->
  append_sendbuffer_ h PRIORITY_HIGH r n a ss =
  Ok (put h (set_lists (high (slot_at ss h) ++ [WBuf (rs_buffer r) n (rs_sz r - n) a]) (low (slot_at ss h))
        (wb_size (slot_at ss h) + (rs_sz r - n)) (slot_at ss h)) ss).
Proof. intros Hr. unfold append_sendbuffer_, send_object_init. destruct (Z.ltb_spec (rs_sz r) 0); [lia|done]. Qed.

(** The warning changes only when the next one is due. *)
Lemma send_warn_handled b X h ss ss1 :
  core b X ss1 -> others h ss ss1 -> alloc_id ss1 = alloc_id ss -> polled (type (slot_at ss1 h)) = true ->
  handled b X h ss (send_warn h ss1).
Proof.
  intros C O A Hp. unfold send_warn. cbv zeta. destruct (_ && _).
  - split; [|split; [|split; [cbn; lia|]]].
    + eapply core_same; try done; [|by apply polled_neq|by apply polled_neq]. by destruct (c_slot _ _ _ C h).
    + eapply others_trans; [done|by apply others_put].
    + intros _. left. by rewrite slot_put_eq.
  - split; [done|]. split; [done|]. split; [lia|]. by left.
Qed.

Lemma handled_none b X h ss ss' : core b X ss -> quiet ss ss' -> handled b X h ss (R_NONE, no_message, ss').
Proof. intros. by apply wrote_handled, wrote_none. Qed.

Lemma addr_ok_19 a : length a = 19%nat -> addr_ok a.
Proof. destruct a as [|t a]; [done|]. intros H. exists t, a. split; [done|]. rewrite H. split; intros; lia. Qed.

Lemma dest_address_ok s a :
  p_ok (proto s) (p s) -> proto s <> TCP -> (forall x, a = Some x -> addr_ok x) ->
  exists x, dest_address s a = Ok x /\ addr_ok x.
Proof.
  intros Hp Ht Ha. unfold dest_address. destruct a as [x|]; [by eauto|].
  destruct (proto s); [done| |]; destruct Hp as (y & -> & Hy); eauto using addr_ok_19.
Qed.

Lemma send_socket_safe b X r a ss :
  exempt b = None -> core b X ss -> 0 <= rs_sz r <= Z.of_nat (length (rs_buffer r)) -> rs_id r ∉ X ->
  (forall x, a = Some x -> addr_ok x) ->
  safe (handled b X (HASH_ID (rs_id r)) ss) (send_socket r PRIORITY_HIGH a ss).
Proof.
  intros Hex C Hr Hi Ha. unfold send_socket. cbv zeta. set (h := HASH_ID (rs_id r)). set (s := slot_at ss h).
  pose proof (c_slot _ _ _ C h) as S. fold s in S.
  unfold send_object_init at 1. destruct (Z.ltb_spec (rs_sz r) 0); [lia|]. rewrite bind_ret.
  case_bool_decide as B1; [apply (handled_none b X h ss); [done|apply quiet_record]|].
  case_bool_decide as B2; [apply (handled_none b X h ss); [done|etransitivity; apply quiet_record]|].
  assert (Hid : id s = rs_id r) by (destruct (decide (id s = rs_id r)); naive_solver).
  assert (Hres : type s <> RESERVE).
  { intros E. apply Hi. apply (c_res _ _ _ C). split; done. }
  assert (Hp : polled (type s) = true) by (destruct (type s); naive_solver).
  pose proof (so_p _ _ _ _ S (polled_live _ Hp)) as Sp.
  assert (Hl : type s <> LISTEN) by naive_solver.
  destruct (send_buffer_empty s && bool_decide (type s = CONNECTED)) eqn:Ed.
  - (* write at once *)
    assert (Hput : forall n x ss1, quiet ss ss1 -> 0 <= n <= rs_sz r -> (proto s <> TCP -> addr_ok x) ->
      safe (handled b X h ss)
        (ss2 ← append_sendbuffer_ h PRIORITY_HIGH r n x ss1; Ok (send_warn h (sp_write (fd s) h true ss2)))).
    { intros n x ss1 Q Hn Hx. rewrite append_eq, bind_ret by lia. rewrite (quiet_at _ _ _ Q). fold s. cbn [safe].
      apply send_warn_handled.
      - apply core_put_write; try done.
        apply (sock_ok_append b (alloc_id ss) h s (WBuf (rs_buffer r) n (rs_sz r - n) x)); try done. repeat split; cbn; try lia. done.
      - intros h' Hne. rewrite sp_write_at. by apply others_put.
      - rewrite sp_write_alloc. apply Q.
      - rewrite sp_write_at, slot_put_eq. done. }
    destruct (decide (proto s = TCP)) as [Et|Et];
      [rewrite (bool_decide_eq_true_2 (proto s = TCP)) by done|rewrite (bool_decide_eq_false_2 (proto s = TCP)) by done].
    + eapply safe_then; [apply sys_write_safe; lia|]. intros [w ss1] [Q Hw].
      destruct (match w with inl n => Some n | inr EINTR | inr EAGAIN => Some 0 | inr _ => None end) as [n|] eqn:En.
      * assert (0 <= n <= rs_sz r) by (destruct w as [k|[]]; simplify_eq; try lia; by apply Hw).
        destruct (Z.eqb_spec n (rs_sz r)).
        -- apply (handled_none b X h ss); [done|]. etransitivity; [exact Q|apply quiet_record].
        -- by apply Hput.
      * destruct (force_close_safe b X h (record (Logged (rs_id r)) ss1)) as (m & s2 & -> & C2 & O2 & T & I & M & A).
        { eapply core_quiet; [|exact C]. etransitivity; [exact Q|apply quiet_record]. }
        { change (slot_at (record (Logged (rs_id r)) ss1) h) with (slot_at ss1 h).
          rewrite (quiet_at _ _ _ Q). by apply polled_live. }
        rewrite bind_ret. split; [by eapply core_quiet; [apply quiet_record|]|]. split; [|split].
        -- eapply others_trans; [by apply others_quiet|]. exact O2.
        -- change (alloc_id ss <= alloc_id s2). rewrite A. cbn. rewrite (q_alloc _ _ Q). lia.
        -- intros _. right. split; [done|]. auto.
    + destruct (dest_address_ok s a Sp Et Ha) as (x & -> & Hx). rewrite bind_ret.
      destruct (udp_socket_address_ok s x Hx) as [sa ->]. rewrite bind_ret.
      eapply safe_then; [apply sys_sendto_safe; lia|]. intros [w ss1] [Q Hw]. destruct w as [n|e].
      * apply (handled_none b X h ss); [done|]. etransitivity; [exact Q|apply quiet_record].
      * apply Hput; [done|lia|done].
  - (* queue *)
    assert (Hput : forall x, (proto s <> TCP -> addr_ok x) ->
      safe (handled b X h ss) (ss2 ← append_sendbuffer_ h PRIORITY_HIGH r 0 x ss; Ok (send_warn h ss2))).
    { intros x Hx. rewrite append_eq, bind_ret by lia. fold s. cbn [safe]. apply send_warn_handled.
      - eapply core_same; try done.
        + apply (sock_ok_append b (alloc_id ss) h s (WBuf (rs_buffer r) 0 (rs_sz r - 0) x)); try done. repeat split; cbn; try lia. done.
        + fold s. unfold wants. cbn. rewrite Hex. intros [_ D]. split; [|done]. apply andb_false_iff in Ed.
          destruct D as [D|[D|[D _]]]; [right; done| |naive_solver]. left. intros E.
          destruct Ed as [Ed|Ed]; apply bool_decide_eq_false in Ed; apply Ed; [|done]. split; [done|apply S].
      - by apply others_put.
      - done.
      - by rewrite slot_put_eq. }
    destruct (decide (proto s = TCP)) as [Et|Et];
      [rewrite (bool_decide_eq_true_2 (proto s = TCP)) by done; by apply (Hput [])|
       rewrite (bool_decide_eq_false_2 (proto s = TCP)) by done].
    destruct (dest_address_ok s a Sp Et Ha) as (x & -> & Hx). rewrite bind_ret. by apply (Hput x).
Qed.
