(* ===== verification/SocketSafe.v ===== *)
(** * The socket server: every handler keeps the invariant

    The requests that make sockets, the other requests and the events, and the
    safety of every state the server can reach. *)

From S2P Require Import Prelude Text Socket SocketProofs SocketInv.
From Stdlib Require Import ZArith Lia.
From stdpp Require Import base numbers list gmap.
#[local] Open Scope Z_scope.
#[local] Open Scope list_scope.
Import Sock.

(** ** Making sockets *)

(** A slot that becomes a socket without data. *)
Lemma core_opened b X i s' ss ss2 :
  core b (i :: X) ss -> i ∉ X -> slot_at ss2 (HASH_ID i) = s' -> others (HASH_ID i) ss ss2 ->
  alloc_id ss2 = alloc_id ss -> (Forall answer_ok (script ss) -> Forall answer_ok (script ss2)) ->
  high s' = [] -> low s' = [] -> wb_size s' = 0 -> id s' = i -> live (type s') = true -> p_ok (proto s') (p s') ->
  (type s' = BIND -> bound b = true) ->
  (if polled (type s') then reg ss !! fd s' = None /\
     exists w, reg ss2 = <[fd s' := (HASH_ID i, w)]> (reg ss) /\ (type s' = CONNECTING -> w = true)
   else reg ss2 = reg ss) ->
  core b X ss2.
Proof.
  intros C Hi At Ot Al Sc Eh El Ew Ei Hl Hp Hb Hr.
  assert (R : reserved ss i) by (apply (c_res _ _ _ C); by left). destruct R as [Rt Ri].
  assert (No : forall f w, reg ss !! f = Some (HASH_ID i, w) -> False).
  { intros f w [H _]%(c_reg _ _ _ C). by rewrite Rt in H. }
  assert (Rf : reg_frame (HASH_ID i) (reg ss) (reg ss2)).
  { destruct (polled (type s')); [|rewrite Hr; apply reg_frame_refl].
    destruct Hr as (Hn & w & -> & _). apply reg_frame_insert. by rewrite Hn. }
  eapply (core_created b X i s'); [exact C|done| | |apply (live_neq _ Hl)| |].
  - split; [done|done|lia|done|done].
  - rewrite Al. split; rewrite ?Eh, ?El, ?Ew; try done.
    intros _. rewrite Ei. split; [done|]. rewrite <- Ri at 1 2. apply (so_id _ _ _ _ (c_slot _ _ _ C (HASH_ID i))). by rewrite Rt.
  - intros f w. destruct (polled (type s')); [|rewrite Hr; intros E; destruct (No f w E)].
    destruct Hr as (Hn & w' & -> & _). destruct (decide (f = fd s')) as [->|]; [done|].
    rewrite lookup_insert_ne by done. intros E. destruct (No f w E).
  - intros Ht. rewrite Ht in Hr. destruct Hr as (Hn & w & -> & Hw). exists w. rewrite lookup_insert_eq. split; [done|].
    intros [[?|[? _]] _]; [congruence|auto].
Qed.

(** The slot [new_fd] has filled in. *)
Definition filled (i f : Z) (pr : protocol) (op : Z) (add : bool) (ss ss' : socket_server) : Prop :=
  slot_at ss' (HASH_ID i) = Socket op [] [] 0 f i pr RESERVE 0 (PSize MIN_READ_BUFFER) /\
  others (HASH_ID i) ss ss' /\ alloc_id ss' = alloc_id ss /\
  (Forall answer_ok (script ss) -> Forall answer_ok (script ss')) /\
  (if add then reg ss !! f = None /\ reg ss' = <[f := (HASH_ID i, false)]> (reg ss) else reg ss' = reg ss).

Lemma core_failed b X i ss ss1 :
  core b (i :: X) ss -> i ∉ X -> quiet ss ss1 ->
  core b X (put (HASH_ID i) (set_type INVALID (slot_at ss (HASH_ID i))) ss1).
Proof.
  intros C Hi Q. assert (R : reserved ss i) by (apply (c_res _ _ _ C); by left). destruct R as [Rt Ri].
  eapply (core_created b X i _ ss); [exact C|done|by apply upd_put| |done| |done].
  - cbn. rewrite (q_alloc _ _ Q). pose proof (c_slot _ _ _ C (HASH_ID i)) as []. split; cbn; try done;
      intros _; apply so_dead; by rewrite Rt.
  - cbn. rewrite (q_reg _ _ Q). intros f w [H _]%(c_reg _ _ _ C). by rewrite Rt in H.
Qed.

Lemma handled_created b X i ss t m ss' :
  core b (i :: X) ss -> core b X ss' -> others (HASH_ID i) ss ss' -> alloc_id ss <= alloc_id ss' ->
  handled b X (HASH_ID i) ss (t, m, ss').
Proof.
  intros C C' O A. split; [done|]. split; [done|]. split; [done|].
  assert (R : reserved ss i) by (apply (c_res _ _ _ C); by left). destruct R as [Rt _]. by rewrite Rt.
Qed.

(** A failed slot set to [INVALID] once more, after calls that leave the slots alone. *)
Definition gone_slot (i : Z) (ss ss' : socket_server) : Prop :=
  exists ss1, quiet ss ss1 /\ ss' = put (HASH_ID i) (set_type INVALID (slot_at ss (HASH_ID i))) ss1.

Lemma gone_again b X i ss ss' a :
  core b (i :: X) ss -> i ∉ X -> gone_slot i ss ss' ->
  let ss2 := record a ss' in
  core b X (put (HASH_ID i) (set_type INVALID (slot_at ss2 (HASH_ID i))) ss2) /\
  others (HASH_ID i) ss (put (HASH_ID i) (set_type INVALID (slot_at ss2 (HASH_ID i))) ss2) /\
  alloc_id ss2 = alloc_id ss.
Proof.
  intros C Hi (ss1 & Q & ->). cbv zeta.
  set (s1 := put _ _ ss1).
  assert (C1 : core b X (record a s1)) by (eapply core_quiet; [apply quiet_record|]; by apply core_failed).
  assert (E : slot_at (record a s1) (HASH_ID i) = set_type INVALID (slot_at ss (HASH_ID i))) by apply slot_put_eq.
  split; [|split].
  - eapply core_same; [exact C1|done| | | | | |]; rewrite ?E; try done. cbn. rewrite (q_alloc _ _ Q).
    pose proof (c_slot _ _ _ C1 (HASH_ID i)) as S. rewrite E in S. cbn in S. by rewrite (q_alloc _ _ Q) in S.
  - eapply others_trans; [apply (others_put _ (set_type INVALID (slot_at ss (HASH_ID i)))), Q|].
    by apply others_put.
  - cbn. apply Q.
Qed.

(** The poller refuses, or takes a descriptor it did not watch. *)
Definition added (f h : Z) (ss ss1 : socket_server) : Prop :=
  (forall h', slot_at ss1 h' = slot_at ss h') /\ alloc_id ss1 = alloc_id ss /\
  (Forall answer_ok (script ss) -> Forall answer_ok (script ss1)) /\
  reg ss !! f = None /\ reg ss1 = <[f := (h, false)]> (reg ss).

Lemma sp_add_safe f h ss :
  safe (fun '(refused, ss1) => (refused = true /\ quiet ss ss1) \/ (refused = false /\ added f h ss ss1)) (sp_add f h ss).
Proof.
  unfold sp_add. eapply safe_then; [apply sys_int_safe|]. intros [[n|e] ss1] [Q _]; [|left; done].
  destruct (reg ss1 !! f) eqn:E; [done|]. right. unfold added. cbn. rewrite (q_reg _ _ Q) in *.
  split; [done|]. split; [intros h'; apply (quiet_at _ _ _ Q)|]. split; [apply Q|]. split; [apply Q|]. done.
Qed.

Lemma new_fd_safe b X i f pr op add ss :
  core b (i :: X) ss -> i ∉ X ->
  safe (fun '(r, ss') => match r with
        | None => add = true /\ gone_slot i ss ss'
        | Some h => h = HASH_ID i /\ filled i f pr op add ss ss'
        end) (new_fd i f pr op add ss).
Proof.
  intros C Hi. assert (R : reserved ss i) by (apply (c_res _ _ _ C); by left). destruct R as [Rt Ri].
  pose proof (c_slot _ _ _ C (HASH_ID i)) as S.
  assert (Eh : high (slot_at ss (HASH_ID i)) = []) by (apply S; by rewrite Rt).
  assert (El : low (slot_at ss (HASH_ID i)) = []) by apply S.
  unfold new_fd. cbv zeta. apply safe_assert; [by apply bool_decide_eq_true_2|]. destruct add.
  - eapply safe_then; [apply sp_add_safe|]. intros [[] ss1] [[H Q]|(H & Es & Ea & Ec & En & Er)]; try done.
    + cbn. split; [done|]. by exists ss1.
    + rewrite !bool_decide_eq_true_2 by done. cbn. rewrite Eh, El, Rt. split; [done|].
      split; [apply slot_put_eq|]. split; [|done]. intros h' Hne. rewrite slot_put_ne by done. apply Es.
  - rewrite bind_ret. rewrite !bool_decide_eq_true_2 by done. cbn. rewrite Eh, El, Rt. split; [done|].
    split; [apply slot_put_eq|]. split; [|done]. by apply others_put.
Qed.

(** A socket made from the slot [new_fd] has filled in: its type and protocol. *)
Definition fits (b : config) (t : stype) (add : bool) : Prop :=
  live t = true /\ polled t = add /\ (t = BIND -> bound b = true).

Lemma core_made b X i f pr op add t x w ss ss1 ss2 :
  core b (i :: X) ss -> i ∉ X -> filled i f pr op add ss ss1 -> fits b t add -> p_ok pr x ->
  slot_at ss2 (HASH_ID i) = Socket op [] [] 0 f i pr t 0 x -> others (HASH_ID i) ss1 ss2 ->
  alloc_id ss2 = alloc_id ss1 -> (Forall answer_ok (script ss1) -> Forall answer_ok (script ss2)) ->
  (if add then reg ss2 = <[f := (HASH_ID i, w)]> (reg ss1) /\ (t = CONNECTING -> w = true) else reg ss2 = reg ss1) ->
  core b X ss2 /\ others (HASH_ID i) ss ss2 /\ alloc_id ss <= alloc_id ss2.
Proof.
  intros C Hi (F1 & F2 & F3 & F4 & F5) (T1 & T2 & T3) Hx At Ot Al Sc Hr.
  assert (O : others (HASH_ID i) ss ss2) by (by eapply others_trans).
  split; [|split; [done|lia]]. eapply (core_opened b X i (Socket op [] [] 0 f i pr t 0 x)); try done; [congruence|auto|].
  cbn [type fd]. rewrite T2. destruct add.
  - destruct F5 as [F5 F6], Hr as [-> Hw]. split; [done|]. exists w. by rewrite F6, insert_insert_eq.
  - congruence.
Qed.

Lemma p_ok_min : p_ok TCP (PSize MIN_READ_BUFFER).
Proof. eexists. split; [done|]. exists 0. unfold MIN_READ_BUFFER. lia. Qed.

Lemma connect_loop_safe n e ss : safe (fun '(r, ss') => quiet ss ss') (connect_loop n e ss).
Proof.
  revert e ss. induction n as [|n IH]; intros e ss; cbn [connect_loop]; [done|].
  eapply safe_then; [apply sys_int_safe|]. intros [[sock|e1] ss1] [Q _]; cbv zeta.
  - set (ss2 := sp_nonblocking sock (socket_keepalive sock ss1)).
    assert (Q2 : quiet ss ss2) by (etransitivity; [exact Q|etransitivity; apply quiet_record]).
    eapply safe_then; [apply sys_int_safe|]. intros [[c|e1] ss3] [Q3 _]; [cbn; by transitivity ss2|].
    assert (Q4 : quiet ss (record (Closed sock) ss3)).
    { transitivity ss2; [done|]. transitivity ss3; [done|apply quiet_record]. }
    destruct e1; try (cbn; by transitivity ss2);
      (eapply safe_mono; [apply IH|]; intros [r s'] Q5; by etransitivity).
  - eapply safe_mono; [apply IH|]. intros [r s'] Q5. by transitivity ss1.
Qed.

Lemma core_cons_quiet b X i ss ss1 : core b (i :: X) ss -> quiet ss ss1 -> core b (i :: X) ss1.
Proof. intros C Q. by eapply core_quiet. Qed.

Lemma open_failed_handled b X i op d ss ss1 :
  core b (i :: X) ss -> i ∉ X -> quiet ss ss1 -> handled b X (HASH_ID i) ss (open_failed i op d ss1).
Proof.
  intros C Hi Q. unfold open_failed. rewrite (quiet_at _ _ _ Q). apply handled_created; [done| | |].
  - by apply core_failed.
  - by apply others_put.
  - cbn. rewrite (q_alloc _ _ Q). lia.
Qed.

Lemma handled_from b X h ss ss1 x : quiet ss ss1 -> handled b X h ss1 x -> handled b X h ss x.
Proof.
  intros Q. apply handled_trans; [by apply others_quiet|rewrite (q_alloc _ _ Q); lia|by rewrite (quiet_at _ _ _ Q)].
Qed.

Lemma open_socket_safe b X i op ss :
  core b (i :: X) ss -> i ∉ X -> safe (handled b X (HASH_ID i) ss) (open_socket i op ss).
Proof.
  intros C Hi. unfold open_socket. eapply safe_then; [apply sys_int_safe|]. intros [[n|e] ss1] [Q1 _].
  2:{ cbn. by apply open_failed_handled. }
  eapply safe_then; [apply connect_loop_safe|]. intros [[[sock c]|e] ss2] Q2; assert (Q : quiet ss ss2) by (by transitivity ss1).
  2:{ cbn. by apply open_failed_handled. }
  pose proof (core_cons_quiet _ _ _ _ _ C Q) as C2.
  eapply safe_then; [by apply (new_fd_safe b X)|]. intros [[h|] ss3]; cbn beta iota.
  - intros [-> F]. pose proof F as (F1 & _). destruct c; cbv zeta.
    + eapply safe_then; [apply sys_print_safe|]. intros [t ss4] Q4. cbn [safe]. eapply handled_from; [exact Q|].
      destruct (core_made b X i sock TCP op true CONNECTED (PSize MIN_READ_BUFFER) false ss2 ss3
        (put (HASH_ID i) (set_type CONNECTED (slot_at ss3 (HASH_ID i))) ss3)) as (M1 & M2 & M3); try done.
      * apply p_ok_min.
      * by rewrite slot_put_eq, F1.
      * by apply others_put.
      * destruct F as (_ & _ & _ & _ & F5 & F6). cbn. rewrite F6, insert_insert_eq. done.
      * apply handled_created; [done|by eapply core_quiet| |].
        -- eapply others_trans; [done|by apply others_quiet].
        -- rewrite (q_alloc _ _ Q4). done.
    + cbn [safe]. eapply handled_from; [exact Q|].
      destruct F as (_ & F2 & F3 & F4 & F5 & F6).
      destruct (core_made b X i sock TCP op true CONNECTING (PSize MIN_READ_BUFFER) true ss2 ss3
        (sp_write sock (HASH_ID i) true (put (HASH_ID i) (set_type CONNECTING (slot_at ss3 (HASH_ID i))) ss3)))
        as (M1 & M2 & M3); try done.
      * apply p_ok_min.
      * by rewrite sp_write_at, slot_put_eq, F1.
      * intros h' Hne. rewrite sp_write_at. by apply others_put.
      * by rewrite sp_write_alloc.
      * by rewrite sp_write_script.
      * unfold sp_write. cbn. rewrite F6, lookup_insert_eq. cbn. by rewrite ?F6.
      * by apply handled_created.
  - intros [_ G]. cbn [safe]. eapply handled_from; [exact Q|].
    destruct (gone_again b X i ss2 ss3 (Closed sock) C2 Hi G) as (M1 & M2 & M3).
    unfold open_failed. apply handled_created; [done|done|done|]. cbn in M3 |- *. lia.
Qed.

Lemma listen_socket_safe b X i f op ss :
  core b (i :: X) ss -> i ∉ X -> safe (handled b X (HASH_ID i) ss) (listen_socket i f op ss).
Proof.
  intros C Hi. unfold listen_socket. eapply safe_then; [by apply (new_fd_safe b X)|].
  intros [[h|] ss3]; cbn beta iota; [|by intros [? _]]. intros [-> F]. pose proof F as (F1 & _). cbn [safe].
  destruct (core_made b X i f TCP op false PLISTEN (PSize MIN_READ_BUFFER) false ss ss3
    (put (HASH_ID i) (set_type PLISTEN (slot_at ss3 (HASH_ID i))) ss3)) as (M1 & M2 & M3); try done.
  - apply p_ok_min.
  - by rewrite slot_put_eq, F1.
  - by apply others_put.
  - by apply handled_created.
Qed.

Lemma bind_socket_safe b X i f op ss :
  core b (i :: X) ss -> i ∉ X -> bound b = true -> safe (handled b X (HASH_ID i) ss) (bind_socket i f op ss).
Proof.
  intros C Hi Hb. unfold bind_socket. eapply safe_then; [by apply (new_fd_safe b X)|].
  intros [[h|] ss3]; cbn beta iota.
  - intros [-> F]. pose proof F as (F1 & _). cbn [safe].
    destruct (core_made b X i f TCP op true BIND (PSize MIN_READ_BUFFER) false ss ss3
      (put (HASH_ID i) (set_type BIND (slot_at (sp_nonblocking f ss3) (HASH_ID i))) (sp_nonblocking f ss3))) as (M1 & M2 & M3); try done.
    + apply p_ok_min.
    + rewrite slot_put_eq. change (slot_at (sp_nonblocking f ss3)) with (slot_at ss3). by rewrite F1.
    + apply others_put. apply quiet_record.
    + destruct F as (_ & _ & _ & _ & F5 & F6). cbn. rewrite F6, insert_insert_eq. done.
    + by apply handled_created.
  - intros [_ (ss1 & Q & ->)]. apply handled_created; [done|by apply core_failed|by apply others_put|].
    cbn. rewrite (q_alloc _ _ Q). lia.
Qed.

Lemma add_udp_socket_safe b X i f fam op ss :
  core b (i :: X) ss -> i ∉ X ->
  safe (fun ss' => handled b X (HASH_ID i) ss (R_NONE, no_message, ss')) (add_udp_socket i f fam op ss).
Proof.
  intros C Hi. unfold add_udp_socket. cbv zeta. set (pr := if fam =? AF_INET6 then UDPv6 else UDP).
  eapply safe_then; [by apply (new_fd_safe b X)|]. intros [[h|] ss3]; cbn beta iota.
  - intros [-> F]. pose proof F as (F1 & _). cbn [safe].
    set (a := repeat 0 (Z.to_nat UDP_ADDRESS_SIZE)).
    destruct (core_made b X i f pr op true CONNECTED (PAddress a) false ss ss3
      (put (HASH_ID i) (set_p (PAddress a) (set_type CONNECTED (slot_at ss3 (HASH_ID i)))) ss3)) as (M1 & M2 & M3); try done.
    + unfold pr. destruct (_ =? _); by exists a.
    + by rewrite slot_put_eq, F1.
    + by apply others_put.
    + destruct F as (_ & _ & _ & _ & F5 & F6). cbn. rewrite F6, insert_insert_eq. done.
    + by apply handled_created.
  - intros [_ G]. cbn [safe]. destruct (gone_again b X i ss ss3 (Closed f) C Hi G) as (M1 & M2 & M3).
    apply handled_created; [done|done|done|]. cbn in M3 |- *. lia.
Qed.

(** ** The other requests *)

Lemma live_of t : t <> INVALID -> t <> RESERVE -> live t = true.
Proof. by destruct t. Qed.

(** While a connecting socket is closed, it need not be watched for writing. *)
Definition closing (b : config) (h : Z) : config := Config (bound b) (Some h).

Lemma sock_ok_config b b' n h s : bound b' = bound b -> sock_ok b n h s -> sock_ok b' n h s.
Proof. intros E []. split; try done. by rewrite E. Qed.

Lemma core_closing b X h ss : exempt b = None -> core b X ss -> core (closing b h) X ss.
Proof.
  intros Hex [Cs Cr Cw Cx Ca Cc]. split; try done.
  - intros h'. by eapply sock_ok_config, Cs.
  - intros h' Hp. destruct (Cw h' Hp) as (w & E & W). exists w. split; [done|]. intros [H1 H2]. apply W.
    split; [|done]. rewrite Hex. destruct H1 as [|[]]; auto.
Qed.

Lemma core_not_closing b X h ss :
  exempt b = None -> core (closing b h) X ss -> type (slot_at ss h) <> CONNECTING -> core b X ss.
Proof.
  intros Hex [Cs Cr Cw Cx Ca Cc] Ht. split; try done.
  - intros h'. by eapply sock_ok_config, Cs.
  - intros h' Hp. destruct (Cw h' Hp) as (w & E & W). exists w. split; [done|]. intros [H1 H2]. apply W.
    split; [|done]. destruct H1 as [|[H3 _]]; [by left|right]. split; [done|]. cbn. naive_solver.
Qed.

(** A slot with data is watched; it may become half closed. *)
Lemma nonempty_polled b n h s : sock_ok b n h s -> type s <> RESERVE -> send_buffer_empty s = false ->
  polled (type s) = true /\ type s <> LISTEN.
Proof.
  intros S Hr He. apply bool_decide_eq_false in He.
  assert (Hh : high s <> []) by (intros E; apply He; split; [done|apply S]).
  pose proof (so_dead _ _ _ _ S). pose proof (so_quiet _ _ _ _ S). destruct (type s); naive_solver.
Qed.

Lemma core_half b X h ss :
  exempt b = None -> core (closing b h) X ss -> type (slot_at ss h) <> RESERVE ->
  send_buffer_empty (slot_at ss h) = false ->
  core b X (put h (set_type HALFCLOSE (slot_at ss h)) ss).
Proof.
  intros Hex C Hr He. pose proof (c_slot _ _ _ C h) as S.
  destruct (nonempty_polled _ _ _ _ S Hr He) as [Hp Hl].
  apply (core_not_closing b X h); [done| |by rewrite slot_put_eq].
  eapply core_same; try done.
  - destruct S. split; cbn; try done.
    + intros H. apply so_id. by destruct (type (slot_at ss h)).
    + intros _. by apply so_size, polled_live.
    + intros _. by apply so_p, polled_live.
    + by intros [|[]].
  - intros [[H|[H _]] D]; [|done]. split; [by left|]. cbn in D. destruct D as [|[|[_ D]]]; [done|done|].
    destruct (type (slot_at ss h)) eqn:E; try done; [by left|by right; left|by right; right|].
    pose proof (so_bind _ _ _ _ S E) as H1. cbn in H1. congruence.
Qed.

Lemma close_socket_safe b X i sd op ss :
  exempt b = None -> core b X ss -> i ∉ X -> safe (handled b X (HASH_ID i) ss) (close_socket i sd op ss).
Proof.
  intros Hex C Hi. unfold close_socket. cbv zeta. set (h := HASH_ID i). set (s := slot_at ss h).
  pose proof (c_slot _ _ _ C h) as S. fold s in S.
  case_bool_decide as B1; [cbn; split; [done|]; split; [done|]; split; [lia|]; by left|].
  assert (Hid : id s = i) by (destruct (decide (id s = i)); naive_solver).
  assert (Hres : type s <> RESERVE) by (intros E; apply Hi; by apply (c_res _ _ _ C)).
  assert (Hlive : live (type s) = true) by (apply live_of; naive_solver).
  eapply safe_then.
  - instantiate (1 := sent (closing b h) X h ss). destruct (send_buffer_empty s) eqn:Ee.
    + split; [|right; auto using same_place_refl]. apply handled_none; [by apply core_closing|done].
    + destruct (nonempty_polled _ _ _ _ S Hres Ee) as [Hp Hl].
      eapply send_buffer_safe; [by apply core_closing|done|done].
  - intros [[t m] ss1] [(C1 & O1 & A1 & D1) [(-> & T & I)|[Ht (P1 & P2 & P3 & P4)]]].
    + cbn. split; [|split; [done|split; [done|]]].
      * apply (core_not_closing b X h); [done|done|]. by rewrite T.
      * intros _. right. split; [done|]. auto.
    + rewrite bool_decide_eq_true_2 by done. cbn [negb].
      destruct (sd || send_buffer_empty (slot_at ss1 h)) eqn:Ec.
      * destruct (force_close_safe (closing b h) X h ss1 C1) as (m' & s2 & -> & C2 & O2 & T & I & M & A).
        { rewrite P1. done. }
        rewrite bind_ret. cbn. split; [|split; [by eapply others_trans|split; [lia|]]].
        -- apply (core_not_closing b X h); [done|done|]. by rewrite T.
        -- intros _. right. split; [done|]. split; [|by left]. cbn. fold h s in P3. congruence.
      * apply orb_false_iff in Ec as [_ Ec]. cbn. split; [|split; [|split; [done|]]].
        -- apply core_half; [done|done| |done]. by rewrite P1.
        -- eapply others_trans; [done|by apply others_put].
        -- intros _. left. by rewrite slot_put_eq.
Qed.

Lemma start_socket_safe b X i op ss :
  core b X ss -> i ∉ X -> safe (handled b X (HASH_ID i) ss) (start_socket i op ss).
Proof.
  intros C Hi. unfold start_socket. cbv zeta. set (h := HASH_ID i). set (s := slot_at ss h).
  pose proof (c_slot _ _ _ C h) as S. fold s in S.
  assert (Same : forall t m, handled b X h ss (t, m, ss)) by (intros; split; [done|]; split; [done|]; split; [lia|]; by left).
  case_bool_decide as B1; [apply Same|].
  case_bool_decide as B2.
  - assert (Hq : high s = []) by (apply (so_quiet _ _ _ _ S); tauto).
    assert (Hlive : live (type s) = true) by (destruct B2 as [-> | ->]; done).
    assert (Hnp : polled (type s) = false) by (destruct B2 as [-> | ->]; done).
    eapply safe_then; [apply sp_add_safe|]. intros [[] ss1] [[H Q]|(H & Es & Ea & Ec & En & Er)]; try done.
    + destruct (force_close_safe b X h ss1) as (m & s2 & -> & C2 & O2 & T & I & M & A).
      { by eapply core_quiet. }
      { by rewrite (quiet_at _ _ _ Q). }
      rewrite bind_ret. split; [done|]. split; [|split].
      * eapply others_trans; [by apply others_quiet|done].
      * rewrite A, (q_alloc _ _ Q). lia.
      * intros Hp. fold s in Hp. congruence.
    + cbn [safe]. set (t := if bool_decide (type s = PACCEPT) then CONNECTED else LISTEN).
      assert (Ht : t = CONNECTED \/ t = LISTEN) by (unfold t; case_bool_decide; auto). clearbody t.
      assert (O : others h ss (put h (set_opaque op (set_type t s)) ss1)).
      { intros h' Hne. rewrite slot_put_ne by done. apply Es. }
      split; [|split; [done|split; [cbn; lia|]]].
      * assert (No : forall f w, reg ss !! f = Some (h, w) -> False).
        { intros f w [H1 _]%(c_reg _ _ _ C). fold s in H1. congruence. }
        eapply (core_live b X h (set_opaque op (set_type t s))); [exact C| | | |by destruct Ht as [-> | ->]| |].
        -- split; [apply slot_put_eq|done|cbn; lia| |done]. cbn. rewrite Er. apply reg_frame_insert. by rewrite En.
        -- cbn. rewrite Ea. destruct S. split; cbn; auto.
           by destruct Ht as [-> | ->].
        -- fold s. by destruct B2 as [-> | ->].
        -- cbn. rewrite Er. intros f w. destruct (decide (f = fd s)) as [->|]; [by destruct Ht as [-> | ->]|].
           rewrite lookup_insert_ne by done. intros E. destruct (No f w E).
        -- cbn. rewrite Er, lookup_insert_eq. intros _. exists false. split; [done|]. intros [[|[H1 _]] _]; [done|].
           cbn in H1. by destruct Ht as [H2|H2]; rewrite H2 in H1.
      * intros _. left. rewrite slot_put_eq. by destruct Ht as [-> | ->].
  - case_bool_decide as B3; [|apply Same]. cbn [safe]. split; [|split; [by apply others_put|split; [done|]]].
    + eapply core_same; try done; fold s; first [by cbn; rewrite B3|by destruct S].
    + intros _. left. rewrite slot_put_eq. cbn. by rewrite B3.
Qed.

Lemma setopt_quiet i what v ss : quiet ss (setopt_socket i what v ss).
Proof. unfold setopt_socket. destruct (bool_decide _); [done|apply quiet_record]. Qed.

(** The address of [socket_server_udp_connect]. *)
Definition udp_request_ok (a : list Z) : Prop :=
  exists t r, a = t :: r /\ ((t = 1 /\ (7 <= length a)%nat) \/ (t = 2 /\ (19 <= length a)%nat)).

Lemma set_udp_address_safe b X i a ss :
  core b X ss -> i ∉ X -> udp_request_ok a -> safe (handled b X (HASH_ID i) ss) (set_udp_address i a ss).
Proof.
  intros C Hi (t & r & -> & Ht). unfold set_udp_address. cbv zeta. set (h := HASH_ID i). set (s := slot_at ss h).
  pose proof (c_slot _ _ _ C h) as S. fold s in S.
  assert (Same : forall x m, handled b X h ss (x, m, ss)) by (intros; split; [done|]; split; [done|]; split; [lia|]; by left).
  case_bool_decide as B1; [apply Same|]. change (arr_get (t :: r) 0) with (Ok t). rewrite bind_ret.
  destruct (Z.eqb_spec t (protocol_byte (proto s))) as [Et|]; [|apply Same]. cbn [negb].
  assert (Hid : id s = i) by (destruct (decide (id s = i)); naive_solver).
  assert (Hres : type s <> RESERVE) by (intros E; apply Hi; by apply (c_res _ _ _ C)).
  assert (Hlive : live (type s) = true) by (apply live_of; naive_solver).
  pose proof (so_p _ _ _ _ S Hlive) as Sp.
  destruct (mem_read_safe (t :: r) 0 (if t =? 1 then 1 + 2 + 4 else 1 + 2 + 16)) as (x & -> & Hx & _);
    [lia|by destruct (_ =? _)|destruct Ht as [[-> ?]|[-> ?]]; cbn -[Z.add] in *; lia|].
  rewrite bind_ret. assert (exists y, p s = PAddress y /\ length y = 19%nat) as (y & Ep & Hy).
  { destruct (proto s); cbn in Et, Sp; [lia|done|done]. }
  rewrite Ep. assert (Hx' : (length x <= 19)%nat) by (destruct (t =? 1); lia).
  unfold mem_write. destruct (Z.ltb_spec (Z.of_nat (length y)) (0 + Z.of_nat (length x))); [lia|]. cbn [orb Z.ltb Z.compare].
  rewrite bind_ret. cbn [safe].
  set (z := take _ y ++ x ++ drop _ y).
  assert (Hz : length z = 19%nat) by (unfold z; rewrite !length_app, length_take, length_drop; cbn; lia).
  split; [|split; [by apply others_put|split; [done|]]].
  - eapply core_same; try done; fold s. destruct S. split; cbn; try done. intros _.
    destruct (proto s); cbn in Et; [lia|by exists z|by exists z].
  - intros Hp. left. by rewrite slot_put_eq.
Qed.

(** ** A request *)

(** The id a request makes a socket for, and the id it speaks of. *)
Definition creates (r : request) : option Z :=
  match r with Bind i _ _ | Listen i _ _ | Open i _ _ _ | AddUdp i _ _ _ => Some i | _ => None end.
Definition mentions (r : request) : option Z :=
  match r with
  | Start i _ | Bind i _ _ | Listen i _ _ | Close i _ _ | Open i _ _ _ | SetUdp i _ | SetOption i _ _ | AddUdp i _ _ _ => Some i
  | SendHigh r | SendLow r | SendUdp r _ => Some (rs_id r)
  | Exit => None
  end.

(** What the services may ask: a payload is as long as it says, nothing is sent
    with low priority. *)
Definition request_ok (b : config) (r : request) : Prop :=
  match r with
  | Bind _ _ _ => bound b = true
  | SendHigh r => 0 <= rs_sz r <= Z.of_nat (length (rs_buffer r))
  | SendLow _ => False
  | SendUdp r a => 0 <= rs_sz r <= Z.of_nat (length (rs_buffer r)) /\ udp_request_ok a
  | SetUdp _ a => udp_request_ok a
  | _ => True
  end.

Lemma udp_request_addr a : udp_request_ok a -> addr_ok a.
Proof. intros (t & r & -> & H). exists t, r. split; [done|]. split; intros ->; lia. Qed.

(** The slot a request works on; the others stay as they are. *)
Definition slot_of (r : request) : Z := match mentions r with Some i => HASH_ID i | None => 0 end.

Lemma ctrl_cmd_safe b X r ss :
  exempt b = None -> request_ok b r ->
  core b (match creates r with Some i => i :: X | None => X end) ss -> (forall i, mentions r = Some i -> i ∉ X) ->
  safe (handled b X (slot_of r) ss) (ctrl_cmd r ss).
Proof.
  intros Hex Hr C Hm. unfold slot_of. destruct r; cbn [creates mentions request_ok ctrl_cmd] in *;
    try specialize (Hm _ eq_refl).
  - by apply start_socket_safe.
  - by apply bind_socket_safe.
  - by apply listen_socket_safe.
  - by apply close_socket_safe.
  - by apply open_socket_safe.
  - cbn. split; [done|]. split; [done|]. split; [lia|]. by left.
  - by apply send_socket_safe.
  - done.
  - destruct Hr as [Hr Ha]. apply send_socket_safe; try done. intros x [= <-]. by apply udp_request_addr.
  - by apply set_udp_address_safe.
  - apply (handled_none b X (HASH_ID i) ss); [done|]. apply setopt_quiet.
  - eapply safe_then; [by apply add_udp_socket_safe|]. by intros.
Qed.

(** ** Events *)

Lemma handled_close b X h ss ss1 :
  core b X ss -> live (type (slot_at ss h)) = true -> quiet ss ss1 ->
  exists m s2, force_close h ss1 = Ok (m, s2) /\
    forall t d, t = R_CLOSE \/ t = R_ERR ->
      handled b X h ss (t, m, s2) /\ handled b X h ss (t, with_data d m, s2).
Proof.
  intros C Hl Q. destruct (force_close_safe b X h ss1) as (m & s2 & E & C2 & O2 & T & I & M & A).
  { by eapply core_quiet. }
  { by rewrite (quiet_at _ _ _ Q). }
  exists m, s2. split; [done|].
  assert (O : others h ss s2) by (eapply others_trans; [by apply others_quiet|done]).
  assert (Al : alloc_id ss <= alloc_id s2) by (rewrite A, (q_alloc _ _ Q); lia).
  intros t d Ht. split; (split; [done|]; split; [done|]; split; [done|]; intros _; right; by split).
Qed.

(** The next read is as large, twice as large or half as large. *)
Lemma read_size_next sz n :
  read_size_ok sz -> 0 < n <= sz -> n < 2^30 ->
  exists sz', read_size_ok sz' /\
    (if n =? sz then c_int (sz * 2)
     else if MIN_READ_BUFFER <? sz then n2 ← c_int (n * 2); Ok (if n2 <? sz then sz / 2 else sz)
     else Ok sz) = Ok sz'.
Proof.
  intros (k & Hk & ->) Hn Hb. unfold MIN_READ_BUFFER in *. change (2^30) with (64 * 2^24) in Hb.
  assert (H24 : 64 * 2^24 < 2^31) by done.
  destruct (Z.eqb_spec n (64 * 2 ^ k)) as [->|Hne].
  - assert (k < 24) by (destruct (Z.eq_dec k 24) as [->|]; [lia|lia]).
    exists (64 * 2 ^ (k + 1)). split; [exists (k + 1); split; [lia|done]|].
    replace (64 * 2 ^ k * 2) with (64 * 2 ^ (k + 1)) by (rewrite Z.pow_add_r by lia; lia).
    apply c_int_ok. assert (2 ^ (k + 1) <= 2 ^ 24) by (apply Z.pow_le_mono_r; lia). lia.
  - destruct (Z.ltb_spec 64 (64 * 2 ^ k)) as [Hlt|]; [|eexists; split; [|done]; by exists k].
    assert (64 * 2^24 * 2 <= 2^31) by done.
    rewrite c_int_ok, bind_ret by lia. destruct (Z.ltb_spec (n * 2) (64 * 2 ^ k)); [|eexists; split; [|done]; by exists k].
    eexists. split; [|done]. assert (0 < k) by (destruct (Z.eq_dec k 0) as [->|]; [cbn in Hlt; lia|lia]).
    exists (k - 1). split; [lia|]. replace k with (k - 1 + 1) at 1 by lia. rewrite Z.pow_add_r by lia.
    rewrite (Z.mul_assoc 64). change (2 ^ 1) with 2. by rewrite Z.div_mul.
Qed.

Lemma forward_tcp_safe b X h ss :
  core b X ss -> polled (type (slot_at ss h)) = true -> proto (slot_at ss h) = TCP ->
  safe (handled b X h ss) (forward_message_tcp h ss).
Proof.
  intros C Hp Et. pose proof (c_slot _ _ _ C h) as S. pose proof (polled_live _ Hp) as Hl.
  pose proof (so_p _ _ _ _ S Hl) as Sp. rewrite Et in Sp. destruct Sp as (sz & Ep & Hsz).
  unfold forward_message_tcp. cbv zeta. rewrite Ep.
  eapply safe_then; [apply sys_read_safe, C|]. intros [r ss1] [Q Hb].
  destruct (handled_close b X h ss ss1 C Hl Q) as (m & s2 & Ec & Hc).
  destruct r as [[[|x bytes] sa]|e].
  - rewrite Ec, bind_ret. apply (Hc R_CLOSE DNull). by left.
  - destruct (Hb _ _ eq_refl) as (B1 & B2 & _). case_bool_decide as Eh; [by apply (handled_none b X h ss)|].
    destruct (read_size_next sz (Z.of_nat (length (x :: bytes)))) as (sz' & Hz & ->); [done|cbn [length] in *; lia|done|].
    rewrite bind_ret. cbn [safe]. split; [|split; [by apply others_put|split; [cbn; rewrite (q_alloc _ _ Q); lia|]]].
    + eapply core_same; try done; [|by apply polled_neq|by apply polled_neq]. destruct S. split; cbn; try done.
      intros _. rewrite Et. by exists sz'.
    + intros _. left. by rewrite slot_put_eq.
  - destruct e; try (rewrite Ec, bind_ret; apply (Hc R_ERR); by right).
    + by apply (handled_none b X h ss).
    + apply (handled_none b X h ss); [done|]. etransitivity; [exact Q|apply quiet_record].
Qed.

Lemma gen_udp_address_ok pr sa :
  well_addressed sa = true -> pr = (if sa_family sa =? AF_INET then UDP else UDPv6) ->
  exists a, gen_udp_address pr sa = Ok a /\ udp_request_ok a.
Proof.
  unfold well_addressed. rewrite andb_true_iff, orb_true_iff, !andb_true_iff, !Nat.eqb_eq, !Z.eqb_eq.
  intros [Hp Hip] ->. unfold gen_udp_address.
  destruct (mem_read_safe (sa_port sa) 0 2) as (x & -> & Hx & _); [lia|lia|lia|]. rewrite bind_ret.
  destruct Hip as [[-> Hl]|[-> Hl]].
  - change (AF_INET =? AF_INET) with true. cbv iota. rewrite bool_decide_eq_true_2 by done.
    destruct (mem_read_safe (sa_ip sa) 0 4) as (y & -> & Hy & _); [lia|lia|lia|]. eexists. split; [done|].
    eexists _, _. split; [done|]. left. split; [done|]. cbn. rewrite length_app. lia.
  - change (AF_INET6 =? AF_INET) with false. cbv iota. rewrite bool_decide_eq_false_2 by done.
    destruct (mem_read_safe (sa_ip sa) 0 16) as (y & -> & Hy & _); [lia|lia|lia|]. eexists. split; [done|].
    eexists _, _. split; [done|]. right. split; [done|]. cbn. rewrite length_app. lia.
Qed.

Lemma forward_udp_safe b X h ss :
  core b X ss -> polled (type (slot_at ss h)) = true -> safe (handled b X h ss) (forward_message_udp h ss).
Proof.
  intros C Hp. pose proof (polled_live _ Hp) as Hl. unfold forward_message_udp. cbv zeta.
  eapply safe_then; [apply sys_read_safe, C|]. intros [r ss1] [Q Hb].
  destruct (handled_close b X h ss ss1 C Hl Q) as (m & s2 & Ec & Hc).
  destruct r as [[bytes sa]|e].
  - destruct (Hb _ _ eq_refl) as (_ & _ & Hw). case_bool_decide; [|by apply (handled_none b X h ss)]. cbn [negb].
    destruct (gen_udp_address_ok _ sa Hw eq_refl) as (a & -> & _). rewrite bind_ret.
    destruct (handled_none b X h ss ss1 C Q) as (H1 & H2 & H3 & H4). split; [done|]. split; [done|]. split; [done|].
    intros _. left. by rewrite (quiet_at _ _ _ Q).
  - destruct e; try (rewrite Ec, bind_ret; apply (Hc R_ERR); by right); by apply (handled_none b X h ss).
Qed.

Lemma report_connect_safe b X h ss :
  core b X ss -> type (slot_at ss h) = CONNECTING -> safe (handled b X h ss) (report_connect h ss).
Proof.
  intros C Ht. assert (Hp : polled (type (slot_at ss h)) = true) by (by rewrite Ht).
  pose proof (polled_live _ Hp) as Hl. pose proof (c_slot _ _ _ C h) as S. unfold report_connect. cbv zeta.
  eapply safe_then; [apply sys_int_safe|]. intros [r ss1] [Q _].
  destruct (handled_close b X h ss ss1 C Hl Q) as (m & s2 & Ec & Hc).
  destruct r as [n|e]; [|rewrite Ec, bind_ret; apply (Hc R_ERR); by right].
  destruct (Z.eqb_spec n 0); cbn [negb]; [|rewrite Ec, bind_ret; apply (Hc R_ERR); by right].
  set (s1 := put h (set_type CONNECTED (slot_at ss h)) ss1).
  set (s3 := if send_buffer_empty (slot_at ss h) then sp_write (fd (slot_at ss h)) h false s1 else s1).
  assert (E1 : slot_at s1 h = set_type CONNECTED (slot_at ss h)) by apply slot_put_eq.
  assert (C1 : core b X s1).
  { eapply core_same; try done; rewrite ?Ht; try done.
    - destruct S. split; cbn; try done.
      + intros _. apply so_id. by rewrite Ht.
      + intros _. apply so_size. by rewrite Ht.
      + intros _. apply so_p. by rewrite Ht.
      + by intros [|[]].
    - unfold wants. cbn. rewrite Ht. intros [[?|[? _]] _]; [|done]. split; [by left|by left]. }
  assert (C3 : core b X s3).
  { unfold s3. destruct (send_buffer_empty _) eqn:Ee; [|done].
    replace (fd (slot_at ss h)) with (fd (slot_at s1 h)) by (by rewrite E1).
    apply core_sp_write; [done|by rewrite E1|]. rewrite E1. intros [[H|[H _]] _]; [|done].
    apply bool_decide_eq_true in Ee as [Ee _]. done. }
  assert (At : forall h', slot_at s3 h' = slot_at s1 h') by (intros; unfold s3; destruct (send_buffer_empty _); [apply sp_write_at|done]).
  assert (Al : alloc_id s3 = alloc_id ss1) by (unfold s3; destruct (send_buffer_empty _); [by rewrite sp_write_alloc|done]).
  assert (Hh : forall t m' s', quiet s3 s' -> handled b X h ss (t, m', s')).
  { intros t m' s' Q'. split; [by eapply core_quiet|]. split; [|split].
    - intros h' Hne. rewrite (quiet_at _ _ _ Q'), At. by apply others_put.
    - rewrite (q_alloc _ _ Q'), Al, (q_alloc _ _ Q). lia.
    - intros _. left. by rewrite (quiet_at _ _ _ Q'), At, E1. }
  eapply safe_then; [apply sys_int_safe|]. intros [[k|e1] s4] [Q4 _]; [|by apply Hh].
  eapply safe_then; [apply sys_print_safe|]. intros [t s5] Q5. apply Hh. by transitivity s4.
Qed.

(** ** Ids *)

(** There are ids left for one more search of the slots. *)
Definition ids_left (ss : socket_server) : Prop := alloc_id ss + MAX_SOCKET < 2^31.

Lemma core_reserved b X i s ss :
  core b X ss -> type (slot_at ss (HASH_ID i)) = INVALID -> s = slot_at ss (HASH_ID i) -> alloc_id ss < i ->
  core b (i :: X) (put (HASH_ID i)
    (Socket (opaque s) (high s) (low s) (wb_size s) (-1) i (proto s) RESERVE (warn_size s) (p s)) (set_alloc i ss)).
Proof.
  intros C Ht -> Hi. pose proof (c_slot _ _ _ C (HASH_ID i)) as S. pose proof (c_alloc _ _ _ C).
  assert (Eh : high (slot_at ss (HASH_ID i)) = []) by (apply S; by rewrite Ht).
  match goal with |- core _ _ (put _ ?s _) => eapply (core_upd b X (i :: X) (HASH_ID i) s ss) end;
    [exact C| | | |done| |].
  - split; [apply slot_put_eq| |cbn; lia|apply reg_frame_refl|done].
    intros h' Hne. by rewrite slot_put_ne.
  - destruct S. split; cbn; try done. intros _. split; [done|lia].
  - cbn. intros f w [H1 _]%(c_reg _ _ _ C). by rewrite Ht in H1.
  - intros j Hj. rewrite elem_of_cons. split; [|by right]. intros [->|]; done.
  - cbn. intros j Hj. rewrite elem_of_cons. split.
    + intros [->|Hx]; [done|]. apply (c_res _ _ _ C) in Hx as [Hx _]. rewrite Hj in Hx. congruence.
    + intros [_ ->]. by left.
Qed.

Lemma core_alloc b X i ss : core b X ss -> alloc_id ss <= i -> core b X (set_alloc i ss).
Proof.
  intros [Cs Cr Cw Cx Ca Cc] Hi. split; try done; [|cbn; lia]. intros h. by eapply sock_ok_mono, Cs.
Qed.

(** A search gives a fresh id whose slot is now reserved, or finds no slot. *)
Lemma reserve_loop_safe b X n : forall ss i ss',
  core b X ss -> alloc_id ss + Z.of_nat n < 2^31 -> reserve_loop n ss = (i, ss') ->
  alloc_id ss <= alloc_id ss' /\
  ((i = -1 /\ core b X ss' /\ forall h, slot_at ss' h = slot_at ss h) \/
   (alloc_id ss < i /\ alloc_id ss' = i /\ core b (i :: X) ss' /\ others (HASH_ID i) ss ss' /\
    type (slot_at ss (HASH_ID i)) = INVALID)).
Proof.
  induction n as [|n IH]; intros ss i ss' C Ha; cbn [reserve_loop]; cbv zeta.
  - intros [= <- <-]. split; [lia|]. by left.
  - pose proof (c_alloc _ _ _ C). replace (i32 (alloc_id ss + 1)) with (alloc_id ss + 1).
    2:{ unfold i32. rewrite Z.mod_small by lia. lia. }
    destruct (Z.ltb_spec (alloc_id ss + 1) 0); [lia|]. case_bool_decide as Ht.
    + intros [= <- <-]. split; [cbn; lia|]. right. split; [lia|]. split; [done|]. split; [|split; [|done]].
      * by apply core_reserved; [| | |lia].
      * intros h' Hne. by rewrite slot_put_ne.
    + intros E. apply IH in E; [|apply core_alloc; [done|lia]|cbn; lia].
      destruct E as [El [(-> & C' & Hs)|(Hi & Hi' & C' & O & T)]]; cbn in El.
      * split; [lia|]. left. done.
      * cbn in Hi. split; [lia|]. right. split; [lia|]. done.
Qed.

Lemma reserve_id_safe b X ss i ss' :
  core b X ss -> ids_left ss -> reserve_id ss = (i, ss') ->
  alloc_id ss <= alloc_id ss' /\
  ((i = -1 /\ core b X ss' /\ forall h, slot_at ss' h = slot_at ss h) \/
   (alloc_id ss < i /\ alloc_id ss' = i /\ core b (i :: X) ss' /\ others (HASH_ID i) ss ss' /\
    type (slot_at ss (HASH_ID i)) = INVALID)).
Proof. intros C Hi. apply (reserve_loop_safe b X); [done|]. unfold ids_left in Hi. rewrite Z2Nat.id; [done|]. done. Qed.
