(* ===== verification/SocketRun.v ===== *)
(** * The socket server: every state it reaches

    The invariant of the whole server (slots, poller, pending events, pipe), the
    turns of [socket_server_poll] and the calls of the services that keep it, and
    what follows for every reachable state. *)

From S2P Require Import Prelude Text Socket SocketProofs SocketInv SocketSafe.
From Stdlib Require Import ZArith Lia.
From stdpp Require Import base numbers list gmap.
#[local] Open Scope Z_scope.
#[local] Open Scope list_scope.
Import Sock.

(** ** The invariant *)

Definition slots_of (l : list event) : list Z := omap e_s l.

(** The pending events are of different sockets, all of them watched. *)
Definition ev_ok (ss : socket_server) : Prop :=
  NoDup (slots_of (ev ss)) /\ forall h, h ∈ slots_of (ev ss) -> polled (type (slot_at ss h)) = true.

(** No request speaks of an id before the request that makes its socket. *)
Fixpoint ordered (l : list request) : Prop :=
  match l with
  | [] => True
  | r :: l => (forall i, mentions r = Some i -> i ∉ omap creates l) /\ ordered l
  end.

Record sinv (b : config) (ss : socket_server) : Prop := {
  i_config : exempt b = None;
  i_core : core b (omap creates (pipe ss)) ss;
  i_ev : ev_ok ss;
  i_order : ordered (pipe ss);
  i_req : Forall (request_ok b) (pipe ss);
  i_ids : Forall (fun r => forall i, mentions r = Some i -> i <= alloc_id ss) (pipe ss)
}.

Lemma core_iff b X X' ss : (forall i, i ∈ X' <-> i ∈ X) -> core b X ss -> core b X' ss.
Proof. intros H []. split; try done. intros i. by rewrite H. Qed.

(** ** Events of a closed socket *)

Lemma clear_first_sub f l h : h ∈ slots_of (clear_first f l) -> h ∈ slots_of l.
Proof.
  induction l as [|e l IH]; [done|]. cbn [clear_first]. unfold slots_of in *. destruct (f e); cbn.
  - destruct (e_s e); [intros; by right|done].
  - destruct (e_s e); [|done]. rewrite !elem_of_cons. intros [->|]; [by left|right; auto].
Qed.

Lemma clear_first_ok ss i l :
  NoDup (slots_of l) ->
  (forall h, h ∈ slots_of l -> polled (type (slot_at ss h)) = true \/
     (type (slot_at ss h) = INVALID /\ id (slot_at ss h) = i)) ->
  (forall h h', h ∈ slots_of l -> h' ∈ slots_of l -> type (slot_at ss h) = INVALID -> type (slot_at ss h') = INVALID -> h = h') ->
  NoDup (slots_of (clear_first (closed_event ss i) l)) /\
  forall h, h ∈ slots_of (clear_first (closed_event ss i) l) -> polled (type (slot_at ss h)) = true.
Proof.
  induction l as [|e l IH]; [split; [constructor|by intros ? ?%elem_of_nil]|]. intros Hnd Hp Hu. cbn [clear_first]. unfold closed_event at 1 3.
  unfold slots_of in *. cbn [omap list_omap] in *. destruct (e_s e) as [h0|] eqn:Ee; cbn [omap list_omap]; rewrite ?Ee.
  2:{ apply IH; done. }
  apply NoDup_cons in Hnd as [Hnin Hnd].
  destruct (bool_decide (type (slot_at ss h0) = INVALID) && (id (slot_at ss h0) =? i)) eqn:Ef.
  - cbn [omap list_omap e_s]. split; [done|]. apply andb_prop in Ef as [Ef%bool_decide_eq_true _].
    intros h Hh. destruct (Hp h) as [|[Hi _]]; [by right|done|].
    rewrite (Hu h h0) in Hh; [done|by right|by left|done|done].
  - cbn [omap list_omap]. rewrite Ee. destruct IH as [IH1 IH2]; [done| | |].
    + intros h Hh. apply Hp. by right.
    + intros h h' Hh Hh'. apply Hu; by right.
    + split.
      * apply NoDup_cons. split; [|done]. intros Hin. apply Hnin. by apply (clear_first_sub (closed_event ss i) l).
      * intros h [->|Hh]%elem_of_cons; [|auto]. destruct (Hp h0) as [|[Hi Hid]]; [by left|done|].
        rewrite bool_decide_eq_true_2, Hid, Z.eqb_refl in Ef by done. done.
Qed.

(** ** An event *)

Lemma safe_frame (P : rtype * socket_message * socket_server -> Prop) x ss :
  safe P x -> (forall t m s', x = Ok (t, m, s') -> frame ss s') ->
  safe (fun '(t, m, s') => P (t, m, s') /\ frame ss s') x.
Proof. destruct x as [[[t m] s']|]; cbn; eauto. Qed.

(** The state after the event of slot [h]: what is left of the events is as before. *)
Lemma ev_ok_after b X h rest ss t m ss' :
  handled b X h ss (t, m, ss') -> h ∉ slots_of rest -> NoDup (slots_of rest) ->
  (forall h', h' ∈ slots_of rest -> polled (type (slot_at ss h')) = true) -> ev ss' = rest -> ev_ok ss'.
Proof.
  intros (C & O & A & D) Hn Hnd Hp E. split; [by rewrite E|]. intros h' Hh. rewrite E in Hh.
  assert (Hne : h' <> h) by (intros ->; done). rewrite (O h' Hne). auto.
Qed.

Lemma ev_ok_kept b X h e rest ss t m ss' :
  handled b X h ss (t, m, ss') -> e_s e = Some h -> h ∉ slots_of rest -> NoDup (slots_of rest) ->
  polled (type (slot_at ss h)) = true -> t <> R_CLOSE -> t <> R_ERR ->
  (forall h', h' ∈ slots_of rest -> polled (type (slot_at ss h')) = true) -> ev_ok (set_ev (e :: rest) ss').
Proof.
  intros (C & O & A & D) Ee Hn Hnd Hph H1 H2 Hp. unfold ev_ok, slots_of. cbn [ev set_ev omap list_omap]. rewrite Ee.
  split; [by apply NoDup_cons|]. intros h' [->|Hh]%elem_of_cons.
  - destruct (D Hph) as [|(_ & _ & [|])]; done.
  - assert (Hne : h' <> h) by (intros ->; done). change (slot_at (set_ev (e :: rest) ss') h') with (slot_at ss' h').
    rewrite (O h' Hne). auto.
Qed.

(** [done_with] is what a turn leaves. *)
Definition done_with b X ss (ss' : socket_server) : Prop :=
  core b X ss' /\ ev_ok ss' /\ alloc_id ss <= alloc_id ss' /\ pipe ss' = pipe ss.

Lemma report_accept_safe b X h ss :
  core b X ss -> ids_left ss -> polled (type (slot_at ss h)) = true ->
  safe (fun '(_, _, ss') => core b X ss' /\ alloc_id ss <= alloc_id ss' /\
    forall h', polled (type (slot_at ss h')) = true -> slot_at ss' h' = slot_at ss h') (report_accept h ss).
Proof.
  intros C Hi Hp. unfold report_accept. cbv zeta. eapply safe_then; [apply sys_accept_safe|].
  intros [r ss1] Q.
  assert (Hq : forall s, quiet ss s -> core b X s /\ alloc_id ss <= alloc_id s /\
    forall h', polled (type (slot_at ss h')) = true -> slot_at s h' = slot_at ss h').
  { intros s Qs. split; [by eapply core_quiet|]. split; [rewrite (q_alloc _ _ Qs); lia|]. intros. by apply quiet_at. }
  destruct r as [[f u]|e]; [|destruct e; cbn; by apply Hq].
  destruct (reserve_id ss1) as [nid ss2] eqn:Er.
  assert (C1 : core b X ss1) by (by eapply core_quiet).
  assert (Hi1 : ids_left ss1) by (unfold ids_left; by rewrite (q_alloc _ _ Q)).
  destruct (reserve_id_safe b X ss1 nid ss2 C1 Hi1 Er) as [Al [(-> & C2 & Hs)|(Hn & Ea & C2 & O2 & T2)]].
  - cbn. split; [by eapply core_quiet; [apply quiet_record|]|]. cbn. split; [rewrite <- (q_alloc _ _ Q); lia|].
    intros h' _. change (slot_at ss2 h' = slot_at ss h'). rewrite Hs. by apply quiet_at.
  - pose proof (c_alloc _ _ _ C1). destruct (Z.ltb_spec nid 0); [lia|].
    set (ss3 := sp_nonblocking f (socket_keepalive f ss2)).
    assert (Q3 : quiet ss2 ss3) by (etransitivity; apply quiet_record).
    assert (Hni : nid ∉ X).
    { intros Hx. apply (c_res _ _ _ C1) in Hx as [Hx _]. congruence. }
    pose proof (core_cons_quiet _ _ _ _ _ C2 Q3) as C3.
    eapply safe_then; [by apply (new_fd_safe b X)|]. intros [[h2|] ss4]; cbn beta iota; [|by intros [? _]].
    intros [-> F]. pose proof F as (F1 & F2 & F3 & _).
    destruct (core_made b X nid f TCP (opaque (slot_at ss h)) false PACCEPT (PSize MIN_READ_BUFFER) false ss3 ss4
      (put (HASH_ID nid) (set_type PACCEPT (slot_at ss4 (HASH_ID nid))) ss4)) as (M1 & M2 & M3); try done.
    + apply p_ok_min.
    + by rewrite slot_put_eq, F1.
    + by apply others_put.
    + eapply safe_then; [apply sys_print_safe|]. intros [t ss5] Q5. cbn. split; [by eapply core_quiet|]. split.
      * rewrite (q_alloc _ _ Q5). rewrite (q_alloc _ _ Q3) in M3. rewrite (q_alloc _ _ Q) in *. lia.
      * intros h' Hh'. assert (Hne : h' <> HASH_ID nid).
        { intros ->. rewrite (quiet_at _ _ _ Q) in T2. by rewrite T2 in Hh'. }
        rewrite (quiet_at _ _ _ Q5), M2, (quiet_at _ _ _ Q3), O2 by done. by apply quiet_at.
Qed.

Lemma dispatch_event_safe b X e rest ss :
  core b X ss -> ids_left ss -> ev_ok (set_ev (e :: rest) ss) ->
  safe (fun '(_, ss') => done_with b X ss ss') (dispatch_event e rest ss).
Proof.
  intros C Hi [Hnd Hp]. unfold slots_of in Hnd, Hp. cbn [ev set_ev omap list_omap] in Hnd, Hp.
  unfold dispatch_event. set (s0 := set_ev rest ss).
  assert (C0 : core b X s0) by (by eapply core_quiet; [|exact C]).
  destruct (e_s e) as [h|] eqn:Ee.
  2:{ cbn. split; [done|]. split; [by split|]. split; [cbn; lia|done]. }
  apply NoDup_cons in Hnd as [Hnin Hnd].
  assert (Hph : polled (type (slot_at s0 h)) = true) by (apply Hp; by left).
  assert (Hpr : forall h', h' ∈ slots_of rest -> polled (type (slot_at s0 h')) = true) by (intros h' Hh'; apply Hp; by right).
  assert (Hdone : forall t m s', handled b X h s0 (t, m, s') -> frame s0 s' -> done_with b X ss s').
  { intros t m s' Hh Hf. split; [apply Hh|]. split; [eapply ev_ok_after; [exact Hh|done|done|done|apply Hf]|].
    split; [apply Hh|]. apply Hf. }
  assert (Hkept : forall e' t m s', handled b X h s0 (t, m, s') -> frame s0 s' -> e_s e' = Some h ->
    t <> R_CLOSE -> t <> R_ERR -> done_with b X ss (set_ev (e' :: rest) s')).
  { intros e' t m s' Hh Hf He' H1 H2. split; [eapply core_quiet; [|apply Hh]; done|].
    split; [eapply ev_ok_kept; [exact Hh|done|done|done|done|done|done|done]|]. split; [apply Hh|]. apply Hf. }
  assert (Hafter : forall t m s', handled b X h s0 (t, m, s') -> frame s0 s' ->
    done_with b X ss (if e_write e && negb (bool_decide (t = R_CLOSE \/ t = R_ERR))
                      then set_ev (Ev (Some h) false (e_write e) :: rest) s' else s')).
  { intros t m s' Hh Hf. destruct (e_write e); cbn [andb]; [|by eapply Hdone].
    case_bool_decide as B; cbn [negb]; [by eapply Hdone|]. eapply Hkept; [exact Hh|done|done|tauto|tauto]. }
  assert (Hdef : safe (fun '(_, ss') => done_with b X ss ss')
    (if e_read e then
       let after x := let '(t, m, ss) := (x : rtype * socket_message * socket_server) in
         unless_none (t, m, if e_write e && negb (bool_decide (t = R_CLOSE \/ t = R_ERR))
                            then set_ev (Ev (Some h) false (e_write e) :: rest) ss else ss) in
       if bool_decide (proto (slot_at s0 h) = TCP) then x ← forward_message_tcp h s0; Ok (after x)
       else '(t, m, ss) ← forward_message_udp h s0;
         if bool_decide (t = R_UDP) then Ok (Return R_UDP m, set_ev (e :: rest) ss) else Ok (after (t, m, ss))
     else if e_write e then x ← send_buffer h s0; Ok (unless_none x) else Ok (Continue, s0)) \/ type (slot_at s0 h) = CONNECTING).
  { destruct (decide (type (slot_at s0 h) = CONNECTING)) as [|Hnc]; [by right|left].
    destruct (e_read e).
    - cbv zeta. case_bool_decide as Et.
      + eapply safe_then; [apply (safe_frame (handled b X h s0) _ s0); [by apply (forward_tcp_safe b X)|apply forward_tcp_frame]|].
        intros [[t m] s'] [Hh Hf]. cbn. by eapply Hafter.
      + eapply safe_then; [apply (safe_frame (handled b X h s0) _ s0); [by apply (forward_udp_safe b X)|apply forward_udp_frame]|].
        intros [[t m] s'] [Hh Hf]. case_bool_decide as Eu.
        * cbn. eapply Hkept; [exact Hh|done|done|by subst|by subst].
        * cbn. by eapply Hafter.
    - destruct (e_write e).
      + eapply safe_then; [apply (safe_frame (sent b X h s0) _ s0); [apply (send_buffer_safe b X); done|apply send_buffer_frame]|].
        intros [[t m] s'] [[Hh _] Hf]. cbn. by eapply Hdone.
      + cbn. by eapply (Hdone R_NONE no_message), frame_refl; apply (handled_none b X h s0). }
  destruct (type (slot_at s0 h)) eqn:Et; try (by destruct Hdef as [Hdef|]; [exact Hdef|done]); try done.
  - (* LISTEN *)
    eapply safe_then; [eapply (safe_frame _ _ s0); [apply (report_accept_safe b X h); [done|done|by rewrite Et]|apply report_accept_frame]|].
    intros [[t m] s'] [(C' & A' & S') Hf]. cbn. split; [done|]. split; [|split; [done|apply Hf]].
    split; rewrite (fr_ev _ _ Hf); [done|]. intros h' Hh'. rewrite S'; by apply Hpr.
  - (* CONNECTING *)
    eapply safe_then; [apply (safe_frame (handled b X h s0) _ s0); [by apply (report_connect_safe b X)|apply report_connect_frame]|].
    intros [[t m] s'] [Hh Hf]. cbn. by eapply Hdone.
Qed.

(** ** A turn of the loop *)

Lemma watched_polled b X ss h : core b X ss -> watched ss h = true -> polled (type (slot_at ss h)) = true.
Proof.
  intros C H. unfold watched in H. apply existsb_exists in H as ([f [j w]] & Hin & Hj%Z.eqb_eq). subst j.
  apply list_elem_of_In, elem_of_map_to_list in Hin. by apply (c_reg _ _ _ C) in Hin as [? _].
Qed.

Lemma sp_wait_safe b X ss :
  core b X ss ->
  safe (fun '(r, ss') => quiet ss ss' /\
    forall l, r = inl l -> NoDup (slots_of l) /\ forall h, h ∈ slots_of l -> polled (type (slot_at ss h)) = true)
    (sp_wait ss).
Proof.
  intros C. unfold sp_wait. eapply safe_then; [apply answer_safe|]. intros [a ss1] [Q _]. destruct a; try done.
  destruct (_ && _) eqn:E; [|done]. cbn. split; [done|]. intros ? [= <-].
  rewrite !andb_true_iff in E. destruct E as (((E1 & E2%bool_decide_eq_true) & _) & _). split; [done|].
  intros h Hh. rewrite <- (quiet_at _ _ h Q). eapply watched_polled; [by eapply core_quiet|].
  rewrite forallb_forall in E1. apply E1. by apply list_elem_of_In.
Qed.

Lemma ids_mono ss ss' l :
  alloc_id ss <= alloc_id ss' ->
  Forall (fun r => forall i, mentions r = Some i -> i <= alloc_id ss) l ->
  Forall (fun r => forall i, mentions r = Some i -> i <= alloc_id ss') l.
Proof. intros Ha Hl. eapply Forall_impl; [exact Hl|]. intros r Hr i Hi. specialize (Hr i Hi). lia. Qed.

Lemma done_sinv b ss ss1 ss' :
  sinv b ss -> pipe ss1 = pipe ss -> alloc_id ss <= alloc_id ss1 -> done_with b (omap creates (pipe ss)) ss1 ss' -> sinv b ss'.
Proof.
  intros I Ep Ea (C & E & A & P). assert (Ep' : pipe ss' = pipe ss) by congruence. split; rewrite ?Ep'; try apply I; try done.
  eapply ids_mono; [|apply I]. lia.
Qed.

Lemma sinv_quiet b ss ss' : sinv b ss -> quiet ss ss' -> ev_ok ss' -> pipe ss' = pipe ss -> sinv b ss'.
Proof.
  intros I Q E P. eapply (done_sinv b ss ss); [done|done|lia|]. split; [by eapply core_quiet; [|apply I]|]. split; [done|].
  split; [rewrite (q_alloc _ _ Q); lia|done].
Qed.

(** The first request of the pipe. *)
Lemma ctrl_turn_safe b r rest ss :
  sinv b ss -> pipe ss = r :: rest ->
  safe (fun '(t, m, ss') =>
    core b (omap creates rest) ss' /\ alloc_id ss <= alloc_id ss' /\ frame (set_pipe rest ss) ss' /\
    forall h, h ∈ slots_of (ev ss') -> polled (type (slot_at ss' h)) = true \/ (h = slot_of r /\ closed h t m ss'))
    (ctrl_cmd r (set_pipe rest ss)).
Proof.
  intros I Ep. pose proof (i_order _ _ I) as Ho. pose proof (i_req _ _ I) as Hq. pose proof (i_core _ _ I) as C.
  rewrite Ep in Ho, Hq, C. destruct Ho as [Ho _]. apply Forall_cons in Hq as [Hq _].
  assert (C0 : core b (match creates r with Some i => i :: omap creates rest | None => omap creates rest end) (set_pipe rest ss)).
  { eapply core_quiet; [|eapply core_iff; [|exact C]]; [done|]. cbn. by destruct (creates r). }
  pose proof (ctrl_cmd_safe b (omap creates rest) r (set_pipe rest ss) (i_config _ _ I) Hq C0 Ho) as S.
  eapply safe_mono; [apply (safe_frame _ _ (set_pipe rest ss) S), ctrl_cmd_frame|].
  intros [[t m] s'] [(C' & O & A & D) Hf]. split; [done|]. split; [done|]. split; [done|].
  rewrite (fr_ev _ _ Hf). cbn [ev set_pipe]. intros h Hh. pose proof (proj2 (i_ev _ _ I) h Hh) as Hp.
  destruct (decide (h = slot_of r)) as [->|Hne]; [|left; by rewrite O].
  destruct (D Hp); [by left|right; done].
Qed.

Lemma sinv_popped b r rest ss ss' :
  sinv b ss -> pipe ss = r :: rest -> core b (omap creates rest) ss' -> alloc_id ss <= alloc_id ss' ->
  pipe ss' = rest -> ev_ok ss' -> sinv b ss'.
Proof.
  intros I Ep C A P E. pose proof (i_order _ _ I) as Ho. pose proof (i_req _ _ I) as Hq. pose proof (i_ids _ _ I) as Hi.
  rewrite Ep in Ho, Hq, Hi. destruct Ho as [_ Ho]. apply Forall_cons in Hq as [_ Hq]. apply Forall_cons in Hi as [_ Hi].
  split; rewrite ?P; try done; [apply I|]. by eapply ids_mono.
Qed.

Lemma poll_turn_safe b ss : sinv b ss -> ids_left ss -> safe (fun '(_, _, ss') => sinv b ss') (poll_turn ss).
Proof.
  intros I Hi. unfold poll_turn.
  assert (Hev : safe (fun '(_, _, ss') => sinv b ss')
    (let ss := set_check false ss in
     match ev ss with
     | e :: rest => '(x, ss) ← dispatch_event e rest ss; Ok (x, false, ss)
     | [] =>
         '(r, ss) ← sp_wait ss;
         let ss := set_check true ss in
         match r with
         | inl (e :: rest) => '(x, ss) ← dispatch_event e rest ss; Ok (x, true, ss)
         | inl [] => Ok (Return R_NONE no_message, true, ss)
         | inr EINTR => Ok (Continue, true, ss)
         | inr _ => Ok (Return R_NONE no_message, true, ss)
         end
     end)).
  { cbv zeta. cbn [ev set_check]. destruct (ev ss) as [|e rest] eqn:Ee.
    - assert (C0 : core b (omap creates (pipe ss)) (set_check false ss)) by (eapply core_quiet; [|apply I]; done).
      pose proof (sp_wait_safe b _ (set_check false ss) C0) as S.
      destruct (sp_wait (set_check false ss)) as [[r ss1]|] eqn:Ew; [|exact S]. destruct S as [Q Hl].
      apply sp_wait_frame in Ew as [Hf _]. rewrite bind_ret.
      assert (Hq : sinv b (set_check true ss1)).
      { eapply sinv_quiet; [exact I|by destruct Q| |apply Hf]. split; cbn; rewrite (fr_ev _ _ Hf); cbn; rewrite Ee; [constructor|].
        by intros h ?%elem_of_nil. }
      destruct r as [[|e rest]|e]; [done| |by destruct e]. destruct (Hl _ eq_refl) as [Hnd Hp].
      eapply safe_then; [apply (dispatch_event_safe b (omap creates (pipe ss)))|].
      + eapply core_quiet; [|exact C0]. by destruct Q.
      + unfold ids_left. cbn. by rewrite (q_alloc _ _ Q).
      + split; [done|]. cbn. intros h Hh.
        change (slot_at (set_ev (e :: rest) (set_check true ss1)) h) with (slot_at ss1 h). rewrite (quiet_at _ _ _ Q). by apply Hp.
      + intros [x s'] Hd. cbn. eapply (done_sinv b ss); [exact I| | |exact Hd]; [apply Hf|cbn; rewrite (q_alloc _ _ Q); cbn; lia].
    - eapply safe_then; [apply (dispatch_event_safe b (omap creates (pipe ss)))|].
      + eapply core_quiet; [|apply I]. done.
      + done.
      + destruct (i_ev _ _ I) as [H1 H2]. rewrite Ee in H1, H2. by split.
      + intros [x s'] Hd. cbn. by eapply (done_sinv b ss); [exact I| | |exact Hd]. }
  destruct (checkctrl ss); [|exact Hev]. destruct (pipe ss) as [|r rest] eqn:Ep; [exact Hev|]. clear Hev.
  eapply safe_then; [by apply ctrl_turn_safe|]. intros [[t m] s'] (C' & A' & Hf & Hc).
  pose proof (i_ev _ _ I) as [Hnd _].
  assert (Hnd' : NoDup (slots_of (ev s'))) by (by rewrite (fr_ev _ _ Hf)).
  case_bool_decide as Et.
  - cbn. eapply sinv_popped; [exact I|done|done|done|apply Hf|]. split; [done|]. intros h Hh.
    destruct (Hc h Hh) as [|[_ (_ & _ & [|])]]; [done|by subst|by subst].
  - cbn. unfold clear_closed_event. case_bool_decide as Ec.
    + eapply sinv_popped; [exact I|done|eapply core_quiet; [|exact C']; done|done|apply Hf|].
      apply (clear_first_ok s'); [done| |].
      * intros h Hh. destruct (Hc h Hh) as [|[_ (? & ? & _)]]; auto.
      * intros h h' Hh Hh' Hi1 Hi2. destruct (Hc h Hh) as [H1|[-> _]]; [by rewrite Hi1 in H1|].
        destruct (Hc h' Hh') as [H1|[-> _]]; [by rewrite Hi2 in H1|done].
    + eapply sinv_popped; [exact I|done|done|done|apply Hf|]. split; [done|]. intros h Hh.
      destruct (Hc h Hh) as [|[_ (_ & _ & ?)]]; done.
Qed.

(** ** The calls of the services *)

Inductive call :=
  | CConnect (op : Z) (addr : list Z) (port : Z)
  | CListen (op : Z)
  | CBind (op f : Z)
  | CUdp (op : Z) (named : bool)
  | CSend (i : Z) (buffer : list Z) (sz : Z)
  | CSendLow (i : Z) (buffer : list Z) (sz : Z)
  | CUdpSend (i : Z) (addr buffer : list Z) (sz : Z)
  | CUdpConnect (i : Z)
  | CClose (op i : Z) (shutdown : bool)
  | CStart (op i : Z)
  | CNodelay (i : Z)
  | CExit.

Definition do_call (c : call) (ss : socket_server) : outcome (Z * socket_server) :=
  match c with
  | CConnect op addr port => Ok (socket_server_connect op addr port ss)
  | CListen op => socket_server_listen op ss
  | CBind op f => Ok (socket_server_bind op f ss)
  | CUdp op b => socket_server_udp op b ss
  | CSend i buffer sz => socket_server_send i buffer sz ss
  | CSendLow i buffer sz => socket_server_send_lowpriority i buffer sz ss
  | CUdpSend i addr buffer sz => socket_server_udp_send i addr buffer sz ss
  | CUdpConnect i => socket_server_udp_connect i ss
  | CClose op i false => Ok (0, socket_server_close op i ss)
  | CClose op i true => Ok (0, socket_server_shutdown op i ss)
  | CStart op i => Ok (0, socket_server_start op i ss)
  | CNodelay i => Ok (0, socket_server_nodelay i ss)
  | CExit => Ok (0, socket_server_exit ss)
  end.

(** What the callers keep to: ids that were given out, payloads as long as they
    say, no low priority. *)
Definition given (ss : socket_server) (i : Z) : Prop := i <= alloc_id ss.
Definition payload_ok (buffer : list Z) (sz : Z) : Prop := 0 <= sz <= Z.of_nat (length buffer).
Definition call_ok (b : config) (ss : socket_server) (c : call) : Prop :=
  match c with
  | CConnect _ _ _ | CListen _ | CUdp _ _ | CExit => True
  | CBind _ _ => bound b = true
  | CSend i buffer sz => given ss i /\ payload_ok buffer sz
  | CSendLow _ _ _ => False
  | CUdpSend i addr buffer sz => given ss i /\ payload_ok buffer sz /\ addr_ok addr
  | CUdpConnect i | CClose _ i _ | CStart _ i | CNodelay i => given ss i
  end.

Lemma omap_snoc r l : omap creates (l ++ [r]) = omap creates l ++ match creates r with Some i => [i] | None => [] end.
Proof. induction l as [|x l IH]; cbn; [by destruct (creates r)|]. destruct (creates x); cbn; by rewrite IH. Qed.

Lemma ordered_snoc r l :
  ordered l -> (forall i, creates r = Some i -> Forall (fun x => mentions x <> Some i) l) -> ordered (l ++ [r]).
Proof.
  induction l as [|x l IH]; cbn [ordered app]; [intros _ _; split; [by intros i _ ?%elem_of_nil|done]|].
  intros [H1 H2] Hr. split; [|apply IH; [done|intros i Hi; specialize (Hr i Hi); by apply Forall_cons in Hr as [_ ?]]].
  intros i Hi. rewrite omap_snoc, elem_of_app. intros [?|Hin]; [by eapply H1|].
  destruct (creates r) as [j|] eqn:Ej; [|by apply elem_of_nil in Hin]. apply list_elem_of_singleton in Hin as ->.
  specialize (Hr j eq_refl). apply Forall_cons in Hr as [Hx _]. done.
Qed.

(** A request that makes no socket. *)
Lemma sinv_send b r ss :
  sinv b ss -> request_ok b r -> creates r = None -> (forall i, mentions r = Some i -> i <= alloc_id ss) ->
  sinv b (send_request r ss).
Proof.
  intros [Ic Co Ie Io Iq Ii] Hq Hc Hm. split; cbn; try done.
  - rewrite omap_snoc, Hc, app_nil_r. eapply core_quiet; [|exact Co]. done.
  - apply ordered_snoc; [done|]. by rewrite Hc.
  - apply Forall_app. split; [done|]. by constructor.
  - apply Forall_app. split; [done|]. by constructor.
Qed.

(** A request that makes one, for the id that was just reserved. *)
Lemma sinv_create b r i ss ss' :
  sinv b ss -> request_ok b r -> creates r = Some i -> mentions r = Some i ->
  alloc_id ss < i -> alloc_id ss' = i -> core b (i :: omap creates (pipe ss)) ss' ->
  others (HASH_ID i) ss ss' -> type (slot_at ss (HASH_ID i)) = INVALID -> pipe ss' = pipe ss -> ev ss' = ev ss ->
  sinv b (send_request r ss').
Proof.
  intros [Ic Co Ie Io Iq Ii] Hq Hc Hm Hi Ha C O T P E.
  split; cbn; rewrite ?P, ?E; try done.
  - rewrite omap_snoc, Hc. eapply core_quiet; [|eapply core_iff; [|exact C]]; [done|]. intros j. set_solver.
  - destruct Ie as [E1 E2]. split; cbn; rewrite E; [done|]. intros h Hh. change (slot_at (send_request r ss') h) with (slot_at ss' h).
    pose proof (E2 h Hh) as Hp. rewrite O; [done|]. intros ->. by rewrite T in Hp.
  - apply ordered_snoc; [done|]. intros j [= <-]%(eq_trans (eq_sym Hc)). eapply Forall_impl; [exact Ii|].
    intros x Hx Hx'. specialize (Hx i Hx'). lia.
  - apply Forall_app. split; [done|]. by constructor.
  - apply Forall_app. split.
    + eapply Forall_impl; [exact Ii|]. intros x Hx j Hj. specialize (Hx j Hj). lia.
    + constructor; [|done]. intros j Hj. assert (j = i) by congruence. lia.
Qed.

(** Reserving an id and asking for its socket. *)
Lemma sinv_reserve b ss ss0 (mk : Z -> request) :
  sinv b ss -> ids_left ss -> quiet ss ss0 -> frame ss ss0 ->
  (forall i, request_ok b (mk i) /\ creates (mk i) = Some i /\ mentions (mk i) = Some i) ->
  forall i ss', reserve_id ss0 = (i, ss') -> sinv b (if i <? 0 then ss' else send_request (mk i) ss').
Proof.
  intros I Hi Q F Hmk i ss' E. destruct (Hmk i) as (H1 & H2 & H3).
  assert (C0 : core b (omap creates (pipe ss)) ss0) by (by eapply core_quiet; [|apply I]).
  assert (Hi0 : ids_left ss0) by (unfold ids_left; by rewrite (q_alloc _ _ Q)).
  pose proof (reserve_id_frame _ _ _ E) as F'. assert (FF : frame ss ss') by (by etransitivity).
  assert (A : alloc_id ss0 = alloc_id ss) by apply Q.
  destruct (reserve_id_safe b _ ss0 i ss' C0 Hi0 E) as [Al [(-> & C' & Hs)|(Hn & Ea & C' & O & T)]].
  - cbn. eapply (done_sinv b ss ss); [exact I|done|lia|]. split; [done|]. split; [|split; [lia|apply FF]].
    destruct (i_ev _ _ I) as [E1 E2]. split; rewrite (fr_ev _ _ FF); [done|]. intros h Hh. rewrite Hs, (quiet_at _ _ _ Q). auto.
  - pose proof (c_alloc _ _ _ C0). destruct (Z.ltb_spec i 0); [lia|].
    eapply (sinv_create b (mk i) i ss); try done; [lia| | |apply FF|apply FF].
    + intros h' Hne. rewrite O by done. by apply quiet_at.
    + by rewrite <- (quiet_at _ _ _ Q).
Qed.

Lemma sinv_record b a ss : sinv b ss -> sinv b (record a ss).
Proof. intros I. eapply sinv_quiet; [exact I|apply quiet_record| |done]. apply (i_ev _ _ I). Qed.

Lemma do_bind_safe ss : safe (fun '(r, ss') => quiet ss ss') (do_bind ss).
Proof.
  unfold do_bind. eapply safe_then; [apply sys_address_safe|]. intros [[sa|] ss1] [Q1 _]; [|done].
  eapply safe_then; [apply sys_int_safe|]. intros [[f|e] ss2] [Q2 _]; [|cbn; by etransitivity].
  assert (Q : quiet ss ss2) by (by etransitivity).
  eapply safe_then; [apply sys_int_safe|]. intros [[n|e] ss3] [Q3 _]; [|cbn; etransitivity; [|apply quiet_record]; by etransitivity].
  eapply safe_then; [apply sys_int_safe|]. intros [[n'|e] ss4] [Q4 _]; cbn; [|etransitivity; [|apply quiet_record]];
    (etransitivity; [exact Q|]; by etransitivity).
Qed.

Lemma do_bind_frame ss r ss' : do_bind ss = Ok (r, ss') -> frame ss ss'.
Proof. unfold do_bind. intros H. unroll; frame_more; frames. Qed.

Lemma do_listen_safe ss : safe (fun '(r, ss') => quiet ss ss') (do_listen ss).
Proof.
  unfold do_listen. eapply safe_then; [apply do_bind_safe|]. intros [[[f fam]|] ss1] Q1; [|done].
  eapply safe_then; [apply sys_int_safe|]. intros [[n|e] ss2] [Q2 _]; cbn; [by etransitivity|].
  etransitivity; [|apply quiet_record]. by etransitivity.
Qed.

Lemma do_listen_frame ss r ss' : do_listen ss = Ok (r, ss') -> frame ss ss'.
Proof.
  unfold do_listen. intros H. unroll; frame_more;
    repeat match goal with E : do_bind _ = _ |- _ => apply do_bind_frame in E end; frames.
Qed.

Lemma sinv_calm b ss ss' : sinv b ss -> quiet ss ss' -> frame ss ss' -> sinv b ss'.
Proof.
  intros I Q F. eapply sinv_quiet; [exact I|done| |apply F]. destruct (i_ev _ _ I) as [E1 E2].
  split; rewrite (fr_ev _ _ F); [done|]. intros h Hh. rewrite (quiet_at _ _ _ Q). auto.
Qed.

Lemma do_call_safe b c ss :
  sinv b ss -> ids_left ss -> call_ok b ss c -> safe (fun '(_, ss') => sinv b ss') (do_call c ss).
Proof.
  intros I Hi Hc. destruct c; cbn [do_call call_ok] in *; try done.
  - (* connect *)
    cbn [safe]. unfold socket_server_connect, open_request. destruct (256 <=? _); [by apply sinv_record|].
    destruct (reserve_id ss) as [i ss1] eqn:E.
    pose proof (sinv_reserve b ss ss (fun i => Open i port op addr) I Hi (reflexivity _) (reflexivity _)
      (fun i => conj Logic.I (conj eq_refl eq_refl)) i ss1 E) as H. by destruct (i <? 0).
  - (* listen *)
    unfold socket_server_listen. pose proof (do_listen_safe ss) as S.
    destruct (do_listen ss) as [[[f|] ss1]|] eqn:E; [| |exact S]; apply do_listen_frame in E; rewrite bind_ret.
    2:{ by eapply sinv_calm. }
    destruct (reserve_id ss1) as [i ss2] eqn:Er.
    pose proof (sinv_reserve b ss ss1 (fun i => Listen i f op) I Hi S E
      (fun i => conj Logic.I (conj eq_refl eq_refl)) i ss2 Er) as H. destruct (i <? 0); [by apply sinv_record|done].
  - (* bind *)
    cbn [safe]. unfold socket_server_bind. destruct (reserve_id ss) as [i ss1] eqn:E.
    pose proof (sinv_reserve b ss ss (fun i => Bind i f op) I Hi (reflexivity _) (reflexivity _)
      (fun i => conj Hc (conj eq_refl eq_refl)) i ss1 E) as H. by destruct (i <? 0).
  - (* udp *)
    unfold socket_server_udp.
    assert (S : safe (fun '(r, s) => quiet ss s /\ frame ss s)
      (if named then do_bind ss
       else '(f, ss) ← sys_int ss; Ok (match f with inl f => Some (f, AF_INET) | inr _ => None end, ss))).
    { destruct named.
      - pose proof (do_bind_safe ss) as S. destruct (do_bind ss) as [[r s]|] eqn:E; [|exact S]. apply do_bind_frame in E. done.
      - pose proof (sys_int_safe ss) as S. destruct (sys_int ss) as [[r s]|] eqn:E; [|exact S]. apply sys_int_frame in E as [E _]. destruct S. done. }
    eapply safe_then; [exact S|]. intros [[[f fam]|] ss1] [Q F]; [|by eapply sinv_calm].
    destruct (reserve_id (sp_nonblocking f ss1)) as [i ss2] eqn:Er.
    assert (Q' : quiet ss (sp_nonblocking f ss1)) by (etransitivity; [exact Q|apply quiet_record]).
    assert (F' : frame ss (sp_nonblocking f ss1)) by (etransitivity; [exact F|apply frame_record]).
    pose proof (sinv_reserve b ss _ (fun i => AddUdp i f fam op) I Hi Q' F'
      (fun i => conj Logic.I (conj eq_refl eq_refl)) i ss2 Er) as H. destruct (i <? 0); [by apply sinv_record|done].
  - (* send *)
    destruct Hc as [Hg Hp]. unfold socket_server_send, send_to, free_buffer, send_object_init.
    destruct (Z.ltb_spec sz 0); [unfold payload_ok in Hp; lia|]. case_bool_decide; cbn.
    + by apply sinv_record.
    + apply sinv_send; [done|done|done|]. by intros j [= <-].
  - (* udp_send *)
    destruct Hc as (Hg & Hp & Ha). unfold socket_server_udp_send, free_buffer, send_object_init. cbv zeta.
    destruct (Z.ltb_spec sz 0); [unfold payload_ok in Hp; lia|]. case_bool_decide; [by apply sinv_record|].
    destruct Ha as (t & r & -> & A1 & A2). change (arr_get (t :: r) 0) with (Ok t). rewrite bind_ret.
    destruct (Z.eqb_spec t 1) as [->|].
    + specialize (A1 eq_refl). destruct (mem_read_safe (1 :: r) 0 (1 + 2 + 4)) as (x & -> & Hx & Hh); [lia|lia|lia|].
      rewrite bind_ret. apply sinv_send; [done| |done|by intros j [= <-]]. split; [done|].
      destruct x as [|y x]; [cbn in Hx; lia|]. specialize (Hh eq_refl ltac:(lia)). cbn in Hh. injection Hh as ->.
      exists 1, x. split; [done|]. left. split; [done|]. lia.
    + destruct (Z.eqb_spec t 2) as [->|]; [|by apply sinv_record].
      specialize (A2 eq_refl). destruct (mem_read_safe (2 :: r) 0 (1 + 2 + 16)) as (x & -> & Hx & Hh); [lia|lia|lia|].
      rewrite bind_ret. apply sinv_send; [done| |done|by intros j [= <-]]. split; [done|].
      destruct x as [|y x]; [cbn in Hx; lia|]. specialize (Hh eq_refl ltac:(lia)). cbn in Hh. injection Hh as ->.
      exists 2, x. split; [done|]. right. split; [done|]. lia.
  - (* udp_connect *)
    unfold socket_server_udp_connect. pose proof (sys_address_safe ss) as S.
    destruct (sys_address ss) as [[[sa|] ss1]|] eqn:E; [| |exact S]; destruct S as [Q Hw]; apply sys_address_frame in E as [E _]; rewrite bind_ret.
    2:{ by eapply sinv_calm. }
    specialize (Hw sa eq_refl).
    assert (I1 : sinv b ss1) by (by eapply sinv_calm).
    assert (Hg : i <= alloc_id ss1) by (rewrite (q_alloc _ _ Q); exact Hc).
    destruct (gen_udp_address_ok _ sa Hw eq_refl) as (a & Ea & Ha).
    destruct (sa_family sa =? AF_INET).
    + rewrite Ea, bind_ret. apply sinv_send; [done|done|done|by intros j [= <-]].
    + destruct (sa_family sa =? AF_INET6); [|done].
      rewrite Ea, bind_ret. apply sinv_send; [done|done|done|by intros j [= <-]].
  - (* close *) destruct shutdown; (apply sinv_send; [done|done|done|by intros j [= <-]]).
  - (* start *) apply sinv_send; [done|done|done|by intros j [= <-]].
  - (* nodelay *) apply sinv_send; [done|done|done|by intros j [= <-]].
  - (* exit *) by apply sinv_send.
Qed.

(** ** Reachable states *)

(** Any interleaving of calls and turns of the socket thread. *)
Inductive reachable (b : config) : socket_server -> Prop :=
  | reach_create sc ss :
      socket_server_create sc = Ok (Some ss) -> Forall answer_ok sc -> reachable b ss
  | reach_call c ss r ss' :
      reachable b ss -> ids_left ss -> call_ok b ss c -> do_call c ss = Ok (r, ss') -> reachable b ss'
  | reach_turn ss x w ss' :
      reachable b ss -> ids_left ss -> poll_turn ss = Ok (x, w, ss') -> reachable b ss'.

Lemma sinv_fresh b sc : exempt b = None -> Forall answer_ok sc -> sinv b (fresh_server sc).
Proof.
  intros Hb Hs.
  assert (At : forall h, slot_at (fresh_server sc) h = invalid_socket) by (intros; unfold slot_at; cbn; by rewrite lookup_empty).
  split; try done; [|split; [apply NoDup_nil_2|by intros h ?%elem_of_nil]].
  split; try done.
  intros i. unfold reserved. rewrite At. split; [by intros []|]. cbn. by intros ?%elem_of_nil.
Qed.

Lemma server_inv b ss : exempt b = None -> reachable b ss -> sinv b ss.
Proof.
  intros Hb. induction 1 as [sc ss E Hs|c ss r ss' _ IH Hi Hc E|ss x w ss' _ IH Hi E].
  - unfold socket_server_create in E.
    pose proof (sinv_fresh b sc Hb Hs) as I. revert E I. generalize (fresh_server sc). intros s0 E I.
    unroll; repeat match goal with
    | E : sys_int ?s = Ok (_, ?s'), I : sinv b ?s |- _ =>
        let S := fresh in pose proof (sys_int_safe s) as S; rewrite E in S; apply sys_int_frame in E as [E _];
        destruct S as [S _]; apply (sinv_calm b s s') in I; [|done|done]; clear S
    end; done.
  - pose proof (do_call_safe b c ss IH Hi Hc) as S. by rewrite E in S.
  - pose proof (poll_turn_safe b ss IH Hi) as S. by rewrite E in S.
Qed.

(** ** What holds in every reachable state *)

(** C21. No fault of the program: in every state that any interleaving of calls
    and turns of the socket thread can reach, a turn of [socket_server_poll]
    and a call of a service return, or wait for an answer of the system that
    the script does not have.  No [assert] of [socket_server.c] fails (also
    [new_fd]'s about a reserved slot and its empty lists, [force_close]'s about
    a reserved slot and [send_buffer]'s about [wb_size]), no union member is
    read that was not written, no buffer is read past its end, no read size
    overflows.  The calls are those of [call_ok]: the callers use ids that were given
    out, payloads as long as they say, and not the low priority (with it an
    assertion can fail, see [low_priority_aborts]); ids are left; each call and
    each turn is one step. *)
Theorem server_never_faults bd ss :
  reachable (Config bd None) ss -> ids_left ss ->
  (forall f, poll_turn ss = Fault f -> f = NoAnswer) /\
  (forall c f, call_ok (Config bd None) ss c -> do_call c ss = Fault f -> f = NoAnswer).
Proof.
  intros R Hi. pose proof (server_inv (Config bd None) ss eq_refl R) as I. split.
  - intros f E. pose proof (poll_turn_safe _ ss I Hi) as S. by rewrite E in S.
  - intros c f Hc E. pose proof (do_call_safe _ c ss I Hi Hc) as S. by rewrite E in S.
Qed.

(** C23. No write is forgotten, if nobody sends with low priority: in every state such
    calls reach on a server without bound descriptors, a connection (half closed ones included) with data left
    to write is watched by the poller for writing, under its own slot, so the
    event that goes on with it comes; a connecting socket is watched for
    writing too.  [wb_size] is exactly the number of bytes left. *)
Theorem pending_data_is_watched ss h :
  reachable (Config false None) ss ->
  let s := slot_at ss h in
  live (type s) = true ->
  wb_size s = sum_sz (high s) + sum_sz (low s) /\
  (type s = CONNECTING \/ (type s = CONNECTED \/ type s = HALFCLOSE) /\ send_buffer_empty s = false ->
   reg ss !! fd s = Some (h, true)).
Proof.
  intros R. cbv zeta. pose proof (server_inv (Config false None) ss eq_refl R) as I.
  pose proof (i_core _ _ I) as C. pose proof (c_slot _ _ _ C h) as S. intros Hl. split.
  - rewrite (so_low _ _ _ _ S), (so_size _ _ _ _ S Hl). change (sum_sz []) with 0. lia.
  - intros Hc. assert (Hp : polled (type (slot_at ss h)) = true) by (destruct Hc as [->|[[-> | ->] _]]; done).
    destruct (c_watch _ _ _ C h Hp) as (w & E & W). rewrite E, W; [done|].
    destruct Hc as [Hc|[Hc He]]; [split; [by right|by left]|].
    split; [|by destruct Hc; auto]. left. intros Hn. apply bool_decide_eq_false in He. apply He. split; [done|apply S].
Qed.

(** The bounds of a read: the size [forward_message_tcp] asks for next, which
    doubles when a read fills it and halves when less than half is used, is
    [MIN_READ_BUFFER] times a power of two and stays between 64 bytes and one
    gigabyte, for every TCP socket of every reachable state. *)
Theorem read_size_bounded bd ss h :
  reachable (Config bd None) ss ->
  let s := slot_at ss h in
  live (type s) = true -> proto s = TCP ->
  exists n k, p s = PSize n /\ n = MIN_READ_BUFFER * 2 ^ k /\ 0 <= k /\ MIN_READ_BUFFER <= n <= 2 ^ 30.
Proof.
  intros R. cbv zeta. pose proof (server_inv (Config bd None) ss eq_refl R) as I. intros Hl Ht.
  pose proof (so_p _ _ _ _ (c_slot _ _ _ (i_core _ _ I) h) Hl) as Sp. rewrite Ht in Sp.
  destruct Sp as (n & Ep & k & Hk & ->). exists (MIN_READ_BUFFER * 2 ^ k), k. split; [done|]. split; [done|]. split; [lia|].
  assert (2 ^ 0 <= 2 ^ k) by (apply Z.pow_le_mono_r; lia). assert (2 ^ k <= 2 ^ 24) by (apply Z.pow_le_mono_r; lia).
  change (2 ^ 30) with (MIN_READ_BUFFER * 2 ^ 24). unfold MIN_READ_BUFFER. lia.
Qed.

(** ** A connection in use *)

(** The server is made; a service connects and sends; the kernel takes part of
    the data. *)
Definition story_script : list answer :=
  [Ret 5; Ret 6; Ret 0; Ret 1; Ret 7; Ret 0; Ret 0; Printed [49]; Ret 2; Fail EAGAIN].
Definition story_0 : socket_server := fresh_server (drop 3 story_script).
Definition after_call (c : call) (ss : socket_server) : socket_server :=
  match do_call c ss with Ok (_, ss) => ss | Fault _ => ss end.
Definition after_turn (ss : socket_server) : socket_server :=
  match poll_turn ss with Ok (_, _, ss) => ss | Fault _ => ss end.
Definition story_1 : socket_server := Eval vm_compute in after_turn (after_call (CConnect 9 [104] 80) story_0).
Definition story_2 : socket_server := Eval vm_compute in after_turn (after_call (CSend 1 [1; 2; 3; 4; 5] 5) story_1).

Lemma story_0_reachable b : reachable b story_0.
Proof.
  eapply (reach_create b story_script); [vm_compute; reflexivity|]. repeat (constructor; [done|]). constructor.
Qed.

Lemma story_1_reachable b : reachable b story_1.
Proof.
  eapply (reach_turn b (after_call (CConnect 9 [104] 80) story_0)); [|done|vm_compute; reflexivity].
  eapply (reach_call b (CConnect 9 [104] 80) story_0); [apply story_0_reachable|done|done|vm_compute; reflexivity].
Qed.

Lemma story_2_reachable b : reachable b story_2.
Proof.
  eapply (reach_turn b (after_call (CSend 1 [1; 2; 3; 4; 5] 5) story_1)); [|done|vm_compute; reflexivity].
  eapply (reach_call b (CSend 1 [1; 2; 3; 4; 5] 5) story_1); [apply story_1_reachable|done| |vm_compute; reflexivity].
  split; [done|]. split; done.
Qed.

Lemma server_never_faults_witness :
  (forall f, poll_turn story_2 = Fault f -> f = NoAnswer) /\
  (forall c f, call_ok (Config false None) story_2 c -> do_call c story_2 = Fault f -> f = NoAnswer).
Proof. exact (server_never_faults false story_2 (story_2_reachable _) eq_refl). Defined.

Lemma pending_data_is_watched_witness :
  high (slot_at story_2 1) = [WBuf [1; 2; 3; 4; 5] 2 3 []] /\ wb_size (slot_at story_2 1) = 3 /\
  reg story_2 !! 7 = Some (1, true).
Proof.
  split; [reflexivity|]. split; [reflexivity|].
  apply (pending_data_is_watched story_2 1 (story_2_reachable _) eq_refl). right. split; [by left|reflexivity].
Defined.

Lemma read_size_bounded_witness :
  exists n k, p (slot_at story_2 1) = PSize n /\ n = MIN_READ_BUFFER * 2 ^ k /\ 0 <= k /\ MIN_READ_BUFFER <= n <= 2 ^ 30.
Proof. exact (read_size_bounded false story_2 1 (story_2_reachable _) eq_refl eq_refl). Defined.
