(* ===== verification/SocketStream.v ===== *)
(** * The socket server: the stream of a connection

    What reaches the kernel for one TCP connection: the packets that were sent,
    each whole and once, those of one priority in the order they were sent,
    however the writes are cut and interrupted. *)

From S2P Require Import Prelude Text Socket SocketProofs SocketInv SocketSafe SocketRun.
From Stdlib Require Import ZArith Lia.
From stdpp Require Import base numbers list gmap.
#[local] Open Scope Z_scope.
#[local] Open Scope list_scope.
Import Sock.

(** ** Packets and buffers *)

(** The bytes the kernel took for a descriptor. *)
Definition written (f : Z) (tr : list action) : list Z :=
  mjoin (omap (fun a => match a with Wrote g b => if g =? f then Some b else None | _ => None end) tr).

#[global] Arguments written : simpl never.

Definition packet : Type := priority * list Z.
Definition bytes_of (l : list packet) : list Z := mjoin (snd <$> l).
#[global] Arguments bytes_of : simpl never.
Definition first (l : list packet) : list Z := match l with [] => [] | x :: _ => x.2 end.
Definition is_pr (pr : priority) (x : packet) : Prop := x.1 = pr.
#[global] Instance is_pr_dec pr x : Decision (is_pr pr x).
Proof. unfold is_pr. apply _. Defined.

(** The buffers of pending packets, [k] bytes of the first of them written. *)
Definition whole (x : packet) : write_buffer := WBuf x.2 0 (Z.of_nat (length x.2)) [].
Definition bufs (k : nat) (l : list packet) : list write_buffer :=
  match l with
  | [] => []
  | x :: l => WBuf x.2 (Z.of_nat k) (Z.of_nat (length x.2) - Z.of_nat k) [] :: (whole <$> l)
  end.

Lemma bufs_0 l : bufs 0 l = whole <$> l.
Proof. destruct l as [|x l]; [done|]. cbn. by rewrite Z.sub_0_r. Qed.
Lemma bufs_nil k l : bufs k l = [] <-> l = [].
Proof. by destruct l. Qed.
Lemma bufs_snoc k l x : l <> [] -> bufs k l ++ [whole x] = bufs k (l ++ [x]).
Proof. destruct l as [|y l]; [done|]. intros _. cbn. by rewrite fmap_app. Qed.

Lemma bytes_app l l' : bytes_of (l ++ l') = bytes_of l ++ bytes_of l'.
Proof. unfold bytes_of. by rewrite fmap_app, join_app. Qed.

Lemma written_snoc f tr a :
  written f (tr ++ [a]) = written f tr ++ match a with Wrote g b => if g =? f then b else [] | _ => [] end.
Proof.
  unfold written. rewrite omap_app, join_app. f_equal. destruct a; cbn; try done. destruct (_ =? _); cbn; [by rewrite app_nil_r|done].
Qed.

(** Steps that write nothing. *)
Definition silent (ss ss' : socket_server) : Prop := forall f, written f (trace ss') = written f (trace ss).
#[global] Instance silent_refl : Reflexive silent.
Proof. by intros ss f. Qed.
#[global] Instance silent_trans : Transitive silent.
Proof. intros x y z H1 H2 f. by rewrite H2, H1. Qed.

Lemma silent_record a ss : (match a with Wrote _ _ => False | _ => True end) -> silent ss (record a ss).
Proof. intros Ha f. cbn. rewrite written_snoc. destruct a; try done; by rewrite app_nil_r. Qed.
Lemma silent_sp_write f i en ss : silent ss (sp_write f i en ss).
Proof. unfold sp_write. destruct (reg ss !! f); intros g; cbn; rewrite written_snoc; by rewrite app_nil_r. Qed.
Lemma silent_free l ss : silent ss (free_wb_list l ss).
Proof.
  revert ss. induction l as [|wb l IH]; intros ss; [done|]. cbn. etransitivity; [|apply IH]. by apply silent_record.
Qed.

Lemma force_close_silent h ss m ss' : force_close h ss = Ok (m, ss') -> silent ss ss'.
Proof.
  unfold force_close. cbv zeta. intros H. unroll; [done|].
  set (Y := free_wb_list _ (free_wb_list _ ss)).
  assert (HY : silent ss Y) by (etransitivity; apply silent_free).
  set (Z1 := if bool_decide (_ /\ _) then sp_del _ Y else Y).
  assert (HZ : silent Y Z1) by (unfold Z1; destruct (bool_decide (_ /\ _)); [by apply (silent_record (PollDel _) (set_reg _ Y))|done]).
  transitivity Z1; [by transitivity Y|]. destruct (bool_decide (type _ <> BIND)); [|done]. by apply (silent_record (Closed _) Z1).
Qed.

(** [write] gives bytes to the kernel, or nothing. *)
Lemma sys_write_stream f x (k : nat) ss :
  (k <= length x)%nat ->
  match sys_write f x (Z.of_nat k) (Z.of_nat (length x) - Z.of_nat k) ss with
  | Ok (inl n, ss') => 0 <= n <= Z.of_nat (length x) - Z.of_nat k /\ quiet ss ss' /\
      (length (script ss') < length (script ss))%nat /\
      written f (trace ss') = written f (trace ss) ++ take (Z.to_nat n) (drop k x) /\
      (forall g, g <> f -> written g (trace ss') = written g (trace ss))
  | Ok (inr e, ss') => quiet ss ss' /\ (length (script ss') < length (script ss))%nat /\ trace ss' = trace ss
  | Fault e => e = NoAnswer
  end.
Proof.
  intros Hk. unfold sys_write, sys_int, answer_next, mem_read.
  destruct (Z.ltb_spec (Z.of_nat k) 0); [lia|].
  destruct (Z.ltb_spec (Z.of_nat (length x) - Z.of_nat k) 0); [lia|].
  destruct (Z.ltb_spec (Z.of_nat (length x)) (Z.of_nat k + (Z.of_nat (length x) - Z.of_nat k))); [lia|]. cbn [orb].
  rewrite bind_ret. destruct (script ss) as [|a sc] eqn:Es; [done|]. rewrite bind_ret.
  assert (Q : quiet ss (set_script sc ss)).
  { split; cbn; try done. rewrite Es. by intros [_ ?]%Forall_cons. }
  destruct a; try done.
  - destruct (Z.leb_spec 0 n); [|done]. rewrite bind_ret.
    destruct (Z.leb_spec n (Z.of_nat (length x) - Z.of_nat k)); [|done].
    split; [done|]. split; [etransitivity; [exact Q|apply quiet_record]|]. cbn. split; [lia|].
    rewrite written_snoc, Z.eqb_refl, Nat2Z.id, take_take, Nat.min_l by lia. split; [done|].
    intros g Hg. rewrite written_snoc. destruct (Z.eqb_spec f g); [congruence|]. apply app_nil_r.
  - rewrite bind_ret. cbn. split; [exact Q|]. split; [lia|done].
Qed.

(** ** One list *)

Lemma set_wl_twice pr l n l' n' s : set_wl pr l n (set_wl pr l' n' s) = set_wl pr l n s.
Proof. by destruct pr. Qed.
Lemma set_wl_self pr s : set_wl pr (wl pr s) (wb_size s) s = s.
Proof. by destruct pr, s. Qed.
Lemma wl_set pr l n s : wl pr (set_wl pr l n s) = l.
Proof. by destruct pr. Qed.
Lemma set_wl_type pr l n s : type (set_wl pr l n s) = type s.
Proof. by destruct pr. Qed.
Lemma set_wl_fd pr l n s : fd (set_wl pr l n s) = fd s.
Proof. by destruct pr. Qed.
Lemma set_wl_size pr l n s : wb_size (set_wl pr l n s) = n.
Proof. by destruct pr. Qed.

Lemma force_close_runs h ss : type (slot_at ss h) <> RESERVE -> exists m ss', force_close h ss = Ok (m, ss').
Proof.
  intros Ht. unfold force_close. cbv zeta. destruct (bool_decide (type _ = INVALID)); [eauto|].
  rewrite (bool_decide_eq_true_2 (type _ <> RESERVE)) by done. cbn. eauto.
Qed.

(** What writing a list of pending packets [P] does: some go whole, and [k']
    bytes of the next. *)
Definition list_written (h : Z) (pr : priority) (W : list Z) (P : list packet) (s : socket)
    (x : outcome (rtype * socket_message * socket_server)) : Prop :=
  match x with
  | Fault f => f = NoAnswer
  | Ok (t, m, ss') => exists D P' k', P = D ++ P' /\ (k' <= length (first P'))%nat /\
      written (fd s) (trace ss') = W ++ bytes_of D ++ take k' (first P') /\
      (t = R_CLOSE \/
       (t = R_NONE /\ exists n, slot_at ss' h = set_wl pr (bufs k' P') n s /\
          n - sum_sz (bufs k' P') = wb_size s - sum_sz (wl pr s)))
  end.

Lemma send_list_stream h pr n : forall ss s W P k,
  (length (script ss) < n)%nat -> slot_at ss h = s -> type s <> RESERVE ->
  wl pr s = bufs k P -> (k <= length (first P))%nat -> written (fd s) (trace ss) = W ++ take k (first P) ->
  list_written h pr W P s (send_list_tcp_loop n h pr ss).
Proof.
  induction n as [|n IH]; intros ss s W P k Hn Es Ht El Hk Hw; [lia|]. cbn [send_list_tcp_loop]. cbv zeta. rewrite Es, El.
  assert (Hstay : forall ss', slot_at ss' h = s -> written (fd s) (trace ss') = W ++ take k (first P) ->
    list_written h pr W P s (Ok (R_NONE, no_message, ss'))).
  { intros ss' Es' Hw'. exists [], P, k. split; [done|]. split; [done|]. split; [done|]. right. split; [done|].
    exists (wb_size s). rewrite <- El, set_wl_self. done. }
  destruct P as [|x P]; cbn [bufs]; [by apply Hstay|]. cbn [w_buffer w_off w_sz first] in *.
  pose proof (sys_write_stream (fd s) x.2 k ss Hk) as S.
  destruct (sys_write _ _ _ _ _) as [[[r|e] ss1]|f]; [| |exact S]; rewrite bind_ret.
  - destruct S as (Hr & Q & Hl & Hw1 & _). pose proof (quiet_at _ _ h Q) as Es1. rewrite Es in Es1.
    destruct (Z.eqb_spec r (Z.of_nat (length x.2) - Z.of_nat k)) as [->|Hne]; cbn [negb].
    + set (s1 := set_wl pr (whole <$> P) _ s). set (ss2 := write_buffer_free _ _).
      assert (Es2 : slot_at ss2 h = s1) by apply slot_put_eq.
      assert (Hw2 : written (fd s1) (trace ss2) = (W ++ x.2) ++ take 0 (first P)).
      { unfold s1. rewrite set_wl_fd. change (trace ss2) with (trace ss1 ++ [Freed x.2]). rewrite written_snoc, !app_nil_r, Hw1, Hw.
        rewrite <- app_assoc. f_equal.
        rewrite (take_ge (drop k x.2)) by (rewrite length_drop; lia). apply take_drop. }
      assert (Hs : (length (script ss2) < n)%nat) by (unfold ss2; cbn; lia).
      assert (Ht1 : type s1 <> RESERVE) by (unfold s1; by rewrite set_wl_type).
      assert (El1 : wl pr s1 = bufs 0 P) by (unfold s1; by rewrite wl_set, bufs_0).
      pose proof (IH ss2 s1 (W ++ x.2) P 0%nat Hs Es2 Ht1 El1 ltac:(lia) Hw2) as H.
      destruct (send_list_tcp_loop n h pr ss2) as [[[t m] s']|]; [|exact H].
      destruct H as (D & P' & k' & -> & Hk' & Hw' & Hc). exists (x :: D), P', k'. split; [done|]. split; [done|].
      split.
      * unfold s1 in Hw'. rewrite set_wl_fd in Hw'. rewrite Hw'. change (bytes_of (x :: D)) with (x.2 ++ bytes_of D).
        by rewrite <- !app_assoc.
      * destruct Hc as [->|(-> & n' & E & Hs')]; [by left|right]. split; [done|]. exists n'.
        unfold s1 in E, Hs'. rewrite set_wl_twice in E. split; [done|]. rewrite set_wl_size, wl_set in Hs'.
        rewrite Hs', El. cbn [bufs]. rewrite sum_sz_cons. cbn [w_sz]. lia.
    + exists [], (x :: P), (k + Z.to_nat r)%nat. split; [done|]. cbn [first]. split; [lia|]. split.
      * change (trace (put _ _ _)) with (trace ss1). rewrite Hw1, Hw, <- app_assoc. f_equal.
        change (bytes_of []) with (@nil Z). cbn [app]. apply take_take_drop.
      * right. split; [done|].
        assert (Eb : bufs (k + Z.to_nat r) (x :: P) =
          WBuf x.2 (Z.of_nat k + r) (Z.of_nat (length x.2) - Z.of_nat k - r) [] :: (whole <$> P)).
        { cbn [bufs]. f_equal. f_equal; lia. }
        exists (wb_size s - r). rewrite slot_put_eq, Eb. split; [done|]. rewrite El. cbn [bufs].
        rewrite !sum_sz_cons. cbn [w_sz]. lia.
  - destruct S as (Q & Hl & Htr). pose proof (quiet_at _ _ h Q) as Es1. rewrite Es in Es1.
    assert (Hw1 : written (fd s) (trace ss1) = W ++ take k x.2) by (by rewrite Htr).
    assert (Hcl : list_written h pr W (x :: P) s ('(m, ss) ← force_close h ss1; Ok (R_CLOSE, m, ss))).
    { destruct (force_close_runs h ss1) as (m & s2 & E); [by rewrite Es1|]. rewrite E, bind_ret.
      exists [], (x :: P), k. split; [done|]. split; [done|]. split; [|by left].
      by rewrite (force_close_silent _ _ _ _ E). }
    destruct e; try exact Hcl; [|by apply Hstay]. apply (IH ss1 s W (x :: P) k); [lia|done|done|done|done|done].
Qed.

(** ** A connection *)

(** The bytes [W] are packets of [sends], whole but for the last, none twice,
    those of one priority in the order they were sent. *)
Definition delivered (W : list Z) (sends : list packet) : Prop :=
  exists D R k, W = bytes_of D ++ take k (first R) /\ (k <= length (first R))%nat /\
    forall pr, filter (is_pr pr) (D ++ R) = filter (is_pr pr) sends.

(** [D] is written, [H] and [L] wait in the lists. *)
Record flow (i f : Z) (W0 : list Z) (sends : list packet) (s : socket) (W : list Z) (D H L : list packet) (k : nat) : Prop := {
  fl_id : id s = i; fl_type : type s = CONNECTED; fl_proto : proto s = TCP; fl_fd : fd s = f;
  fl_high : high s = bufs k H; fl_low : low s = (whole <$> L); fl_k : (k <= length (first H))%nat;
  fl_size : wb_size s = sum_sz (high s) + sum_sz (low s);
  fl_written : W = W0 ++ bytes_of D ++ take k (first H);
  fl_lows : Forall (is_pr PRIORITY_LOW) L;
  fl_sends : forall pr, filter (is_pr pr) (D ++ H ++ L) = filter (is_pr pr) sends
}.

Definition streaming (i f : Z) (W0 : list Z) (sends : list packet) (ss : socket_server) : Prop :=
  exists D H L k, flow i f W0 sends (slot_at ss (HASH_ID i)) (written f (trace ss)) D H L k.

(** What an operation on the connection leaves: it is open, or it was closed with
    its bytes in order; an assertion fails only if low priority was used. *)
Definition stream_step (i f : Z) (W0 : list Z) (sends : list packet)
    (x : outcome (rtype * socket_message * socket_server)) : Prop :=
  match x with
  | Ok (t, _, ss') =>
      (t <> R_CLOSE /\ streaming i f W0 sends ss') \/
      (t = R_CLOSE /\ exists W, written f (trace ss') = W0 ++ W /\ delivered W sends)
  | Fault e => e = NoAnswer \/ (e = AssertFailed /\ filter (is_pr PRIORITY_LOW) sends <> [])
  end.

Lemma first_app k P L : (k <= length (first P))%nat ->
  take k (first (P ++ L)) = take k (first P) /\ (k <= length (first (P ++ L)))%nat.
Proof. destruct P as [|x P]; cbn; [|done]. intros Hk. replace k with 0%nat by lia. split; [done|lia]. Qed.

Lemma send_done_stream i f W0 sends ss D :
  flow i f W0 sends (slot_at ss (HASH_ID i)) (written f (trace ss)) D [] [] 0 ->
  stream_step i f W0 sends (send_done (HASH_ID i) ss).
Proof.
  intros F. set (h := HASH_ID i) in *. pose proof F as [Fi Ft Fp Ff Fh Fl Fk Fz Fw Fll Fs]. cbn in Fh, Fl.
  assert (Hb : send_buffer_empty (slot_at ss h) && (wb_size (slot_at ss h) =? 0) = true).
  { unfold send_buffer_empty. rewrite Fz, bool_decide_eq_true_2 by done. by rewrite Fh, Fl. }
  unfold send_done. rewrite Hb. cbn [c_assert]. rewrite bind_ret, Ft.
  rewrite (bool_decide_eq_false_2 (CONNECTED = HALFCLOSE)) by done. cbv zeta.
  assert (Hs : written f (trace (sp_write (fd (slot_at ss h)) h false ss)) = written f (trace ss)) by apply silent_sp_write.
  destruct (0 <? _).
  - left. split; [done|]. exists D, [], [], 0%nat. rewrite slot_put_eq.
    change (trace (put h ?s ?x)) with (trace x). rewrite Hs. by split.
  - left. split; [done|]. exists D, [], [], 0%nat. by rewrite sp_write_at, Hs.
Qed.

(** Step 2 and 3 of [send_buffer]: the low list, when the high list is empty. *)
Lemma send_low_stream i f W0 sends ss D y L :
  flow i f W0 sends (slot_at ss (HASH_ID i)) (written f (trace ss)) D [] (y :: L) 0 ->
  stream_step i f W0 sends
    ('(t, m, ss) ← send_list (HASH_ID i) PRIORITY_LOW ss;
     if bool_decide (t = R_CLOSE) then Ok (R_CLOSE, m, ss)
     else if list_uncomplete (low (slot_at ss (HASH_ID i))) then
       ss ← raise_uncomplete (HASH_ID i) ss; Ok (R_NONE, no_message, ss)
     else send_done (HASH_ID i) ss).
Proof.
  set (h := HASH_ID i). intros F. pose proof F as [Fi Ft Fp Ff Fh Fl Fk Fz Fw Fll Fs].
  unfold send_list. rewrite (bool_decide_eq_true_2 (proto (slot_at ss h) = TCP)) by done.
  set (s := slot_at ss h) in *. cbn [bufs first] in Fh, Fw. cbn [take] in Fw. rewrite app_nil_r in Fw.
  assert (Hr : type s <> RESERVE) by (by rewrite Ft).
  pose proof (send_list_stream h PRIORITY_LOW (S (length (script ss))) ss s (W0 ++ bytes_of D) (y :: L) 0
    (Nat.lt_succ_diag_r _) eq_refl Hr ltac:(by rewrite bufs_0) ltac:(lia) ltac:(by rewrite app_nil_r, Ff, Fw)) as X.
  unfold send_list_tcp. destruct (send_list_tcp_loop _ h PRIORITY_LOW ss) as [[[t m] ss1]|e]; [|left; exact X].
  rewrite bind_ret. destruct X as (D1 & P1 & k1 & EL & Hk1 & Hw1 & Hc1). rewrite Ff, <- !app_assoc in Hw1.
  assert (Fs1 : forall pr, filter (is_pr pr) ((D ++ D1) ++ P1) = filter (is_pr pr) sends).
  { intros pr. rewrite <- Fs, EL. by rewrite <- !app_assoc. }
  destruct Hc1 as [->|(-> & n1 & Es1 & Hn1)].
  { right. split; [done|]. eexists. split; [exact Hw1|]. exists (D ++ D1), P1, k1. by rewrite bytes_app, <- app_assoc. }
  rewrite (bool_decide_eq_false_2 (R_NONE = R_CLOSE)) by done. cbn [set_wl wl] in Es1, Hn1.
  assert (Hlow : low (slot_at ss1 h) = bufs k1 P1) by (by rewrite Es1).
  rewrite EL in Fll. apply Forall_app in Fll as [_ Fll1]. rewrite Hlow.
  destruct P1 as [|x P1].
  - (* all written *)
    cbn [bufs list_uncomplete first length] in *. replace k1 with 0%nat in * by lia.
    apply (send_done_stream i f W0 sends ss1 (D ++ D1)). fold h. rewrite Es1. split; cbn; try done.
    + rewrite Fh. unfold sum_sz in *. cbn in *. rewrite Fh in Fz. cbn in Fz. lia.
    + by rewrite Hw1, bytes_app, <- app_assoc.
  - cbn [bufs list_uncomplete w_off]. destruct (Z.eqb_spec (Z.of_nat k1) 0) as [E0|Hne]; cbn [negb].
    + (* the head of the low list is untouched: the assertion of step 4 fails *)
      unfold send_done. fold h. unfold send_buffer_empty. rewrite Hlow.
      rewrite (bool_decide_eq_false_2 (_ /\ _)) by (by intros []). cbn. right. split; [done|].
      intros E. specialize (Fs PRIORITY_LOW). rewrite E in Fs.
      apply Forall_cons in Fll1 as [Hx _].
      assert (Hin : x ∈ filter (is_pr PRIORITY_LOW) (D ++ [] ++ y :: L)).
      { apply list_elem_of_filter. split; [done|]. rewrite EL. set_solver. }
      rewrite Fs in Hin. by apply elem_of_nil in Hin.
    + (* it is cut: it goes to the high list *)
      unfold raise_uncomplete. fold h. rewrite Hlow. cbn [bufs].
      replace (high (slot_at ss1 h)) with (@nil write_buffer) by (by rewrite Es1).
      rewrite (bool_decide_eq_true_2 (@nil write_buffer = [])) by done. cbn [c_assert]. rewrite !bind_ret.
      left. split; [done|]. exists (D ++ D1), [x], P1, k1. fold h. rewrite slot_put_eq.
      change (trace (put h ?a ?b)) with (trace b). rewrite Es1. split; cbn; try done.
      * rewrite !sum_sz_cons. cbn in Hn1. rewrite sum_sz_cons in Hn1. cbn [w_sz] in *. rewrite Fh in Fz.
        change (sum_sz []) with 0 in *. lia.
      * by rewrite Hw1, bytes_app, <- app_assoc.
      * by apply Forall_cons in Fll1 as [_ ?].
Qed.

Lemma send_buffer_stream i f W0 sends ss :
  streaming i f W0 sends ss -> stream_step i f W0 sends (send_buffer (HASH_ID i) ss).
Proof.
  intros (D & H & L & k & F). set (h := HASH_ID i) in *. pose proof F as [Fi Ft Fp Ff Fh Fl Fk Fz Fw Fll Fs].
  unfold send_buffer. rewrite Fl. replace (list_uncomplete (whole <$> L)) with false by (by destruct L).
  cbn [negb c_assert]. rewrite bind_ret.
  assert (Esl : send_list h PRIORITY_HIGH ss = send_list_tcp_loop (S (length (script ss))) h PRIORITY_HIGH ss).
  { unfold send_list. by rewrite (bool_decide_eq_true_2 (proto (slot_at ss h) = TCP)). }
  rewrite Esl. clear Esl. set (s := slot_at ss h) in *.
  assert (Hr : type s <> RESERVE) by (by rewrite Ft).
  pose proof (send_list_stream h PRIORITY_HIGH (S (length (script ss))) ss s (W0 ++ bytes_of D) H k (Nat.lt_succ_diag_r _)
    eq_refl Hr Fh Fk ltac:(by rewrite Ff, Fw, <- app_assoc)) as X.
  destruct (send_list_tcp_loop _ h PRIORITY_HIGH ss) as [[[t m] ss1]|e]; [|left; exact X].
  rewrite bind_ret. destruct X as (D1 & H1 & k1 & -> & Hk1 & Hw1 & Hc1). rewrite Ff, <- !app_assoc in Hw1.
  assert (Fs1 : forall pr, filter (is_pr pr) ((D ++ D1) ++ H1 ++ L) = filter (is_pr pr) sends).
  { intros pr. rewrite <- Fs. by rewrite <- !app_assoc. }
  destruct Hc1 as [->|(-> & n1 & Es1 & Hn1)].
  { right. split; [done|]. eexists. split; [exact Hw1|]. destruct (first_app k1 H1 L Hk1) as [E1 E2].
    exists (D ++ D1), (H1 ++ L), k1. rewrite E1, bytes_app, <- app_assoc. done. }
  rewrite (bool_decide_eq_false_2 (R_NONE = R_CLOSE)) by done.
  cbn [set_wl] in Es1. rewrite Es1. cbn [high low set_lists].
  assert (F1 : flow i f W0 sends (slot_at ss1 h) (written f (trace ss1)) (D ++ D1) H1 L k1).
  { rewrite Es1. split; cbn; try done.
    - cbn [wl] in Hn1. fold s in Fz. lia.
    - by rewrite bytes_app, <- app_assoc. }
  destruct H1 as [|x1 H1].
  2:{ rewrite (bool_decide_eq_false_2 (bufs k1 (x1 :: H1) = [])) by done. left. split; [done|]. by exists (D ++ D1), (x1 :: H1), L, k1. }
  cbn [bufs]. rewrite (bool_decide_eq_true_2 ([] = [])) by done. cbn [first length] in Hk1.
  replace k1 with 0%nat in * by lia.
  destruct L as [|y L].
  { rewrite Fl. cbn [fmap list_fmap]. rewrite (bool_decide_eq_true_2 ([] = [])) by done.
    by apply (send_done_stream i f W0 sends ss1 (D ++ D1)). }
  rewrite Fl. rewrite (bool_decide_eq_false_2 (whole <$> y :: L = [])) by done.
  by apply (send_low_stream i f W0 sends ss1 (D ++ D1) y L).
Qed.

(** The warning does not touch the stream. *)
Lemma warn_stream i f W0 sends ss D H L k :
  flow i f W0 sends (slot_at ss (HASH_ID i)) (written f (trace ss)) D H L k ->
  stream_step i f W0 sends (Ok (send_warn (HASH_ID i) ss)).
Proof.
  intros F. unfold send_warn. cbv zeta. destruct (_ && _).
  - left. split; [done|]. exists D, H, L, k. rewrite slot_put_eq. by destruct F.
  - left. split; [done|]. by exists D, H, L, k.
Qed.

Lemma filter_low_high L : Forall (is_pr PRIORITY_LOW) L -> filter (is_pr PRIORITY_HIGH) L = [].
Proof.
  induction 1 as [|x L Hx HL IH]; [done|]. rewrite filter_cons_False; [done|]. unfold is_pr in *. congruence.
Qed.

Lemma sum_sz_one wb : sum_sz [wb] = w_sz wb.
Proof. unfold sum_sz. cbn. lia. Qed.

(** Queueing a packet behind the others. *)
Lemma flow_queue i f W0 sends s W D H L k pr x :
  flow i f W0 sends s W D H L k -> ~ (H = [] /\ L = []) ->
  exists H' L' k', flow i f W0 (sends ++ [(pr, x)])
    (set_wl pr (wl pr s ++ [WBuf x 0 (Z.of_nat (length x) - 0) []]) (wb_size s + (Z.of_nat (length x) - 0)) s) W D H' L' k'.
Proof.
  intros [Fi Ft Fp Ff Fh Fl Fk Fz Fw Fll Fs] Hne. rewrite Z.sub_0_r.
  assert (Fs' : forall q, filter (is_pr q) (sends ++ [(pr, x)]) = filter (is_pr q) (D ++ H ++ L) ++ filter (is_pr q) [(pr, x)]).
  { intros q. by rewrite filter_app, Fs. }
  change (WBuf x 0 (Z.of_nat (length x)) []) with (whole (pr, x)).
  destruct pr; cbn [wl set_wl].
  - exists (H ++ [(PRIORITY_HIGH, x)]), L, k. split; cbn; try done.
    + rewrite Fh. destruct H as [|y H]; [|by apply bufs_snoc]. cbn in Fk. replace k with 0%nat by lia. cbn. by rewrite Z.sub_0_r.
    + apply first_app. done.
    + rewrite sum_sz_app, sum_sz_one. cbn. lia.
    + rewrite Fw. by rewrite (proj1 (first_app k H _ Fk)).
    + intros q. rewrite Fs', <- !app_assoc, !filter_app, <- !app_assoc. do 2 f_equal. destruct q.
      * rewrite (filter_low_high L) by done. by rewrite app_nil_r.
      * by rewrite app_nil_r.
  - exists H, (L ++ [(PRIORITY_LOW, x)]), k. split; cbn; try done.
    + by rewrite Fl, fmap_app.
    + rewrite sum_sz_app, sum_sz_one. cbn. lia.
    + apply Forall_app. split; [done|]. by constructor.
    + intros q. rewrite Fs', <- !filter_app. by rewrite <- !app_assoc.
Qed.

Lemma send_socket_stream i f W0 sends ss pr x :
  streaming i f W0 sends ss ->
  stream_step i f W0 (sends ++ [(pr, x)]) (send_socket (RqSend i (Z.of_nat (length x)) x) pr None ss).
Proof.
  intros (D & H & L & k & F). pose proof F as [Fi Ft Fp Ff Fh Fl Fk Fz Fw Fll Fs].
  unfold send_socket. cbn [rs_id rs_sz rs_buffer]. cbv zeta. set (h := HASH_ID i) in *. set (s := slot_at ss h) in *.
  unfold send_object_init at 1. destruct (Z.ltb_spec (Z.of_nat (length x)) 0); [lia|]. rewrite bind_ret.
  rewrite (bool_decide_eq_false_2 (type s = INVALID \/ _)) by (rewrite Ft, Fi; naive_solver).
  rewrite (bool_decide_eq_false_2 (type s = PLISTEN \/ _)) by (rewrite Ft; naive_solver).
  rewrite (bool_decide_eq_true_2 (type s = CONNECTED)), (bool_decide_eq_true_2 (proto s = TCP)), andb_true_r by done.
  assert (He : send_buffer_empty s = bool_decide (H = [] /\ L = [])).
  { unfold send_buffer_empty. apply bool_decide_ext. rewrite Fh, Fl, bufs_nil. destruct L; naive_solver. }
  rewrite He. case_bool_decide as Hnil.
  - destruct Hnil as [-> ->]. cbn [bufs fmap list_fmap first] in *. rewrite take_nil, app_nil_r in Fw.
    rewrite !app_nil_r in Fs.
    pose proof (sys_write_stream (fd s) x 0 ss ltac:(lia)) as S. rewrite Z.sub_0_r in S.
    change (Z.of_nat 0) with 0 in S.
    assert (Hput : forall (n : nat) ss1, quiet ss ss1 -> (n <= length x)%nat ->
      written f (trace ss1) = W0 ++ bytes_of D ++ take n x ->
      stream_step i f W0 (sends ++ [(pr, x)])
        (ss ← append_sendbuffer h (RqSend i (Z.of_nat (length x)) x) (Z.of_nat n) ss1; Ok (send_warn h (sp_write (fd s) h true ss)))).
    { intros n ss1 Q Hn Hw. unfold append_sendbuffer. rewrite append_eq by (cbn; lia). rewrite bind_ret.
      apply (warn_stream i f W0 _ _ D [(pr, x)] [] n). fold h. rewrite sp_write_at, slot_put_eq, (silent_sp_write _ _ _ _ f).
      rewrite (quiet_at _ _ _ Q). fold s. change (trace (put h ?a ?b)) with (trace b). rewrite Hw.
      split; cbn; try done.
      - by rewrite Fh.
      - rewrite Fh. cbn. rewrite sum_sz_one, Fl. rewrite Fz, Fh, Fl. cbn. change (sum_sz []) with 0. lia.
      - intros q. by rewrite !filter_app, Fs. }
    destruct (sys_write (fd s) x 0 _ ss) as [[w ss1]|e]; [|left; exact S]. rewrite bind_ret.
    destruct (match w with inl n => Some n | inr EINTR | inr EAGAIN => Some 0 | inr _ => None end) as [n|] eqn:En.
    + assert (0 <= n <= Z.of_nat (length x) /\ quiet ss ss1 /\
        written f (trace ss1) = W0 ++ bytes_of D ++ take (Z.to_nat n) x) as (Hn & Q & Hw).
      { destruct w as [r|e].
        - injection En as ->. destruct S as (S1 & S2 & _ & S3 & _). split; [done|]. split; [done|].
          rewrite <- Ff, S3, Ff, Fw. by rewrite <- app_assoc.
        - destruct S as (S2 & _ & S3). assert (n = 0) as -> by (destruct e; congruence).
          split; [lia|]. split; [done|]. by rewrite S3, Fw, app_nil_r. }
      destruct (Z.eqb_spec n (Z.of_nat (length x))) as [->|Hne].
      * left. split; [done|]. exists (D ++ [(pr, x)]), [], [], 0%nat. fold h.
        change (slot_at (record _ ss1) h) with (slot_at ss1 h). rewrite (quiet_at _ _ _ Q). fold s.
        change (trace (record ?a ?b)) with (trace b ++ [a]). rewrite written_snoc, app_nil_r, Hw.
        split; try done; cbn.
        -- rewrite Nat2Z.id, take_ge by lia. rewrite bytes_app, !app_nil_r. unfold bytes_of. cbn. by rewrite app_nil_r.
        -- intros q. rewrite app_nil_r, !filter_app, Fs. done.
      * replace n with (Z.of_nat (Z.to_nat n)) by lia. apply Hput; [done|lia|done].
    + destruct w as [r|e]; [done|]. destruct S as (Q & _ & Htr).
      destruct (force_close_runs h (record (Logged i) ss1)) as (m & s2 & E).
      { change (slot_at (record (Logged i) ss1) h) with (slot_at ss1 h). rewrite (quiet_at _ _ _ Q). fold s. by rewrite Ft. }
      rewrite E, bind_ret. right. split; [done|]. exists (bytes_of D).
      change (trace (record ?a s2)) with (trace s2 ++ [a]). rewrite written_snoc, app_nil_r, (force_close_silent _ _ _ _ E f).
      change (trace (record ?a ss1)) with (trace ss1 ++ [a]). rewrite written_snoc, app_nil_r, Htr, Fw. split; [done|].
      exists D, [(pr, x)], 0%nat. split; [by rewrite app_nil_r|]. split; [lia|]. intros q. by rewrite !filter_app, Fs.
  - destruct (flow_queue i f W0 sends s _ D H L k pr x F Hnil) as (H' & L' & k' & F').
    destruct pr; unfold append_sendbuffer, append_sendbuffer_low, append_sendbuffer_, send_object_init;
      cbn [rs_sz rs_buffer]; (destruct (Z.ltb_spec (Z.of_nat (length x)) 0); [lia|]); rewrite !bind_ret;
      apply (warn_stream i f W0 _ _ D H' L' k'); fold h; rewrite slot_put_eq; exact F'.
Qed.

(** ** Any sequence of sends and writes *)

Inductive stream_op := OSend (pr : priority) (x : list Z) | OWrite.

Definition do_op (i : Z) (o : stream_op) (ss : socket_server) : outcome (rtype * socket_message * socket_server) :=
  match o with
  | OSend pr x => send_socket (RqSend i (Z.of_nat (length x)) x) pr None ss
  | OWrite => send_buffer (HASH_ID i) ss
  end.

(** The operations up to the one that closes the connection, and how many there
    were. *)
Fixpoint stream_run (i : Z) (ops : list stream_op) (ss : socket_server) : outcome (bool * nat * socket_server) :=
  match ops with
  | [] => Ok (true, 0%nat, ss)
  | o :: ops =>
      '(t, _, ss) ← do_op i o ss;
      if bool_decide (t = R_CLOSE) then Ok (false, 1%nat, ss)
      else '(alive, n, ss) ← stream_run i ops ss; Ok (alive, S n, ss)
  end.

Definition sends_of (ops : list stream_op) : list packet :=
  omap (fun o => match o with OSend pr x => Some (pr, x) | OWrite => None end) ops.

Lemma do_op_stream i f W0 sends o ss :
  streaming i f W0 sends ss -> stream_step i f W0 (sends ++ sends_of [o]) (do_op i o ss).
Proof.
  intros S. destruct o as [pr x|]; cbn [do_op sends_of omap list_omap]; [by apply send_socket_stream|].
  rewrite app_nil_r. by apply send_buffer_stream.
Qed.

Lemma stream_run_ok i f W0 ops : forall sends ss,
  streaming i f W0 sends ss ->
  match stream_run i ops ss with
  | Ok (alive, n, ss') =>
      (alive = true -> n = length ops) /\
      exists W, written f (trace ss') = W0 ++ W /\ delivered W (sends ++ sends_of (take n ops)) /\
        (alive = true -> streaming i f W0 (sends ++ sends_of ops) ss')
  | Fault e => e = NoAnswer \/ (e = AssertFailed /\ filter (is_pr PRIORITY_LOW) (sends ++ sends_of ops) <> [])
  end.
Proof.
  induction ops as [|o ops IH]; intros sends ss S; cbn [stream_run].
  - split; [done|]. cbn [take sends_of omap list_omap]. rewrite app_nil_r. pose proof S as (D & H & L & k & F).
    exists (bytes_of D ++ take k (first H)). split; [apply F|]. split; [|done].
    destruct (first_app k H L (fl_k _ _ _ _ _ _ _ _ _ _ F)) as [E1 E2].
    exists D, (H ++ L), k. rewrite E1. split; [done|]. split; [done|apply F].
  - pose proof (do_op_stream i f W0 sends o ss S) as X.
    assert (Eo : forall l, sends ++ sends_of (o :: l) = (sends ++ sends_of [o]) ++ sends_of l).
    { intros l. rewrite <- app_assoc. f_equal. by destruct o. }
    destruct (do_op i o ss) as [[[t m] ss1]|e].
    + rewrite bind_ret. destruct X as [[Ht S1]|[-> (W & HW & HD)]].
      * rewrite bool_decide_eq_false_2 by done. specialize (IH (sends ++ sends_of [o]) ss1 S1).
        destruct (stream_run i ops ss1) as [[[alive n] ss2]|e]; rewrite ?bind_ret.
        -- destruct IH as [In (W & H1 & H2 & H3)]. split; [intros E; cbn; by rewrite In|].
           exists W. cbn [take]. rewrite (Eo (take n ops)), (Eo ops). done.
        -- cbn [mbind outcome_bind]. rewrite (Eo ops). exact IH.
      * rewrite bool_decide_eq_true_2 by done. split; [done|]. exists W. split; [done|].
        exact (conj HD (fun E : false = true => False_ind _ (Bool.diff_false_true E))).
    + destruct X as [->|[-> Hl]]; [by left|]. right. split; [done|]. rewrite (Eo ops), filter_app.
      intros E. apply app_eq_nil in E as [E _]. done.
Qed.

(** C22. The stream of a connection is intact: for every sequence of sends (of
    either priority) and write events on a connected TCP socket, and whatever
    the system answers to each [write], the bytes the kernel took are whole
    packets one after another, cut only at the end, none lost in between and
    none twice, the packets of one priority in the order of their sends; as
    long as the connection is open, everything that was sent and not yet taken
    waits in the lists ([streaming]).  No fault is met, except the assertion of
    [send_buffer] once low priority was used. *)
Theorem tcp_stream_intact i ops ss :
  let s := slot_at ss (HASH_ID i) in
  id s = i -> type s = CONNECTED -> proto s = TCP -> high s = [] -> low s = [] -> wb_size s = 0 ->
  match stream_run i ops ss with
  | Ok (alive, n, ss') =>
      exists W, written (fd s) (trace ss') = written (fd s) (trace ss) ++ W /\
        delivered W (sends_of (take n ops)) /\
        (alive = true -> n = length ops /\ streaming i (fd s) (written (fd s) (trace ss)) (sends_of ops) ss')
  | Fault e => e = NoAnswer \/ (e = AssertFailed /\ filter (is_pr PRIORITY_LOW) (sends_of ops) <> [])
  end.
Proof.
  cbv zeta. intros Hi Ht Hp Hh Hl Hw.
  assert (S : streaming i (fd (slot_at ss (HASH_ID i))) (written (fd (slot_at ss (HASH_ID i))) (trace ss)) [] ss).
  { exists [], [], [], 0%nat. split; try done; rewrite ?Hh, ?Hl, ?Hw; try done. by rewrite !app_nil_r. }
  pose proof (stream_run_ok i _ _ ops [] ss S) as X. destruct (stream_run i ops ss) as [[[alive n] ss']|e]; [|exact X].
  destruct X as [Hn (W & H1 & H2 & H3)]. exists W. split; [done|]. split; [done|]. auto.
Qed.

(** Two packets of high priority; the first write takes three bytes, the next is
    interrupted, then the rest goes. *)
Definition stream_ops : list stream_op :=
  [OSend PRIORITY_HIGH [1; 2; 3; 4; 5]; OSend PRIORITY_HIGH [6; 7]; OWrite].
Definition stream_start : socket_server :=
  set_script [Ret 3; Fail EINTR; Ret 2; Ret 2] (put 1 (Socket 9 [] [] 0 7 1 TCP CONNECTED 0 (PSize 64)) (fresh_server [])).

Lemma tcp_stream_intact_witness :
  exists n ss' W, stream_run 1 stream_ops stream_start = Ok (true, n, ss') /\
    written 7 (trace ss') = W /\ W = [1; 2; 3; 4; 5; 6; 7] /\ delivered W (sends_of (take n stream_ops)).
Proof.
  pose proof (tcp_stream_intact 1 stream_ops stream_start eq_refl eq_refl eq_refl eq_refl eq_refl eq_refl) as X.
  destruct (stream_run 1 stream_ops stream_start) as [[[alive n] ss']|e] eqn:E; [|vm_compute in E; discriminate E].
  destruct X as (W & H1 & H2 & _). exists n, ss', W.
  assert (Ea : alive = true) by (vm_compute in E; congruence).
  assert (Ew : written 7 (trace ss') = [1; 2; 3; 4; 5; 6; 7]).
  { vm_compute in E. injection E as _ _ <-. vm_compute. reflexivity. }
  change (fd (slot_at stream_start (HASH_ID 1))) with 7 in H1.
  change (written 7 (trace stream_start)) with (@nil Z) in H1. cbn [app] in H1.
  split; [by rewrite Ea|]. split; [done|]. split; [congruence|exact H2].
Defined.

(** ** Low priority *)

(** Two packets of low priority to a connection whose buffer is full; then there
    is room for exactly the first. *)
Definition low_ops : list stream_op := [OSend PRIORITY_LOW [1; 2]; OSend PRIORITY_LOW [3; 4]; OWrite].
Definition low_start : socket_server :=
  set_script [Fail EAGAIN; Ret 2; Fail EAGAIN] (put 1 (Socket 9 [] [] 0 7 1 TCP CONNECTED 0 (PSize 64)) (fresh_server [])).

(** Low priority can abort the process: when the high list drains and the
    first [write] of the low list is refused with [EAGAIN], its head is
    untouched, so it is not moved to the high list, and step 4 of [send_buffer]
    asserts that both lists are empty, which they are not. *)
Theorem low_priority_aborts :
  stream_run 1 low_ops low_start = Fault AssertFailed.
Proof. vm_compute. reflexivity. Qed.

(** Data sent to a bound descriptor is queued, and the poller is not told. *)
Definition bound_story : outcome (rtype * socket_message * bool * socket_server) :=
  let '(i, ss) := socket_server_bind 9 0 (fresh_server [Ret 0; Fail (EOTHER 0)]) in
  '(_, _, _, ss) ← socket_server_poll ss;
  '(_, ss) ← socket_server_send i [1; 2] 2 ss;
  socket_server_poll ss.
Lemma bound_data_stays :
  match bound_story with
  | Ok (_, _, _, ss) => type (slot_at ss 1) = BIND /\ wb_size (slot_at ss 1) = 2 /\ reg ss !! 0 = Some (1, false)
  | Fault _ => False
  end.
Proof. vm_compute. done. Qed.

(** Closing an id before it is given out, and then opening a socket. *)
Definition close_ahead_story : outcome (rtype * socket_message * bool * socket_server) :=
  let '(_, ss) := socket_server_connect 9 [104] 80 (socket_server_close 9 1 (fresh_server [])) in
  socket_server_poll ss.
Lemma close_ahead_aborts : close_ahead_story = Fault AssertFailed.
Proof. vm_compute. reflexivity. Qed.
