(* ===== verification/SocketNode.v ===== *)
(** * Sockets on a node ([skynet-src/skynet_socket.c])

    The socket server beside the services of a node: what [socket_server_poll]
    reports becomes a message in the queue of the service that owns the socket,
    and the calls of the services become requests in the pipe. *)

From S2P Require Import Prelude Mq Sched Timer Handle Text Module Server Delivery Command Lifecycle Dispatch Boot Socket.
From Stdlib Require Import ZArith Lia String.
From stdpp Require Import base numbers list gmap.
#[local] Open Scope Z_scope.
#[local] Open Scope list_scope.
Import Ring Global.

Definition PTYPE_SOCKET : Z := 6.
Definition SKYNET_SOCKET_TYPE_DATA : Z := 1.
Definition SKYNET_SOCKET_TYPE_CONNECT : Z := 2.
Definition SKYNET_SOCKET_TYPE_CLOSE : Z := 3.
Definition SKYNET_SOCKET_TYPE_ACCEPT : Z := 4.
Definition SKYNET_SOCKET_TYPE_ERROR : Z := 5.
Definition SKYNET_SOCKET_TYPE_UDP : Z := 6.
Definition SKYNET_SOCKET_TYPE_WARNING : Z := 7.
Definition SIZEOF_SOCKET_MESSAGE : Z := 24.

(** ** [struct skynet_socket_message] in memory *)

(** A pointer is the number of its block; [NULL] is 0. *)
Definition pointer (q : option loc) : Z := match q with None => 0 | Some q => Zpos q end.
Definition address (z : Z) : option loc := match z with Zpos q => Some q | _ => None end.

(** The type, the id and [ud], four bytes the compiler leaves, the pointer and
    what follows the struct. *)
Definition sm_bytes (type id ud : Z) (buffer : option loc) (tail : list Z) : list Z :=
  to_le 4 type ++ to_le 4 id ++ to_le 4 ud ++ to_le 4 0 ++ to_le 8 (pointer buffer) ++ tail.

Definition sm_type (b : list Z) : Z := of_le (take 4 b).
Definition sm_id (b : list Z) : Z := i32 (of_le (take 4 (drop 4 b))).
Definition sm_ud (b : list Z) : Z := i32 (of_le (take 4 (drop 8 b))).
Definition sm_buffer (b : list Z) : option loc := address (of_le (take 8 (drop 16 b))).
Definition sm_tail (b : list Z) : list Z := drop 24 b.

(** ** Forwarding *)

Record world := World { w_node : node; w_ss : Sock.socket_server }.

Section Errors.
(** [strerror], a function of the C library. *)
Variable strerror : Sock.errno -> cstr.

(** The string [result->data] points to; [NULL] becomes the empty string. *)
Definition text_of (d : Sock.mdata) : cstr :=
  match d with
  | Sock.DNull => []
  | Sock.DText s => s
  | Sock.DErrno e => strerror e
  | Sock.DBytes b => b
  end.

(** A payload [result->data] points to is a block of the heap. *)
Definition forward_message (type : Z) (padding : bool) (result : Sock.socket_message) (n : node) : outcome node :=
  let tail := if padding then take 128 (text_of (Sock.m_data result)) else [] in
  let '(buffer, n) :=
    match padding, Sock.m_data result with
    | false, Sock.DBytes b => let '(q, n) := malloc b n in (Some q, n)
    | _, _ => (None, n)
    end in
  let sz := SIZEOF_SOCKET_MESSAGE + Z.of_nat (List.length tail) in
  let '(sm, n) := malloc (sm_bytes type (Sock.m_id result) (Sock.m_ud result) buffer tail) n in
  let message := Msg 0 0 (Some sm) (Z.lor sz (Z.shiftl PTYPE_SOCKET MESSAGE_TYPE_SHIFT)) in
  '(r, n) ← skynet_context_push (u32 (Sock.m_opaque result)) message n;
  if negb (r =? 0) then n ← skynet_free buffer n; skynet_free (Some sm) n else Ok n.

(** What a report of the socket server becomes: its type for the services and
    whether its text follows the struct. *)
Definition socket_type (t : Sock.rtype) : option (Z * bool) :=
  match t with
  | Sock.R_DATA => Some (SKYNET_SOCKET_TYPE_DATA, false)
  | Sock.R_CLOSE => Some (SKYNET_SOCKET_TYPE_CLOSE, false)
  | Sock.R_OPEN => Some (SKYNET_SOCKET_TYPE_CONNECT, true)
  | Sock.R_ERR => Some (SKYNET_SOCKET_TYPE_ERROR, true)
  | Sock.R_ACCEPT => Some (SKYNET_SOCKET_TYPE_ACCEPT, true)
  | Sock.R_UDP => Some (SKYNET_SOCKET_TYPE_UDP, false)
  | Sock.R_WARNING => Some (SKYNET_SOCKET_TYPE_WARNING, false)
  | Sock.R_EXIT | Sock.R_NONE => None
  end.

Definition skynet_socket_poll (w : world) : outcome (Z * world) :=
  '(t, result, more, ss) ← Sock.socket_server_poll (w_ss w);
  match t, socket_type t with
  | Sock.R_EXIT, _ => Ok (0, World (w_node w) ss)
  | _, Some (type, padding) =>
      n ← forward_message type padding result (w_node w);
      Ok (if (more : bool) then -1 else 1, World n ss)
  | _, None =>
      n ← skynet_error None (str "Unknown socket message type -1.") (w_node w);
      Ok (-1, World n ss)
  end.

(** ** The calls of the services *)

Definition with_ss (r : Z * Sock.socket_server) (w : world) : Z * world := (r.1, World (w_node w) r.2).

Definition skynet_socket_send (id : Z) (buffer : list Z) (sz : Z) (w : world) : outcome (Z * world) :=
  r ← Sock.socket_server_send id buffer sz (w_ss w); Ok (with_ss r w).
Definition skynet_socket_send_lowpriority (id : Z) (buffer : list Z) (sz : Z) (w : world) : outcome (Z * world) :=
  r ← Sock.socket_server_send_lowpriority id buffer sz (w_ss w); Ok (with_ss r w).
Definition skynet_socket_listen (ctx : loc) (w : world) : outcome (Z * world) :=
  r ← Sock.socket_server_listen (skynet_context_handle (w_node w) ctx) (w_ss w); Ok (with_ss r w).
Definition skynet_socket_connect (ctx : loc) (host : cstr) (port : Z) (w : world) : Z * world :=
  with_ss (Sock.socket_server_connect (skynet_context_handle (w_node w) ctx) host port (w_ss w)) w.
Definition skynet_socket_bind (ctx : loc) (fd : Z) (w : world) : Z * world :=
  with_ss (Sock.socket_server_bind (skynet_context_handle (w_node w) ctx) fd (w_ss w)) w.
Definition skynet_socket_close (ctx : loc) (id : Z) (w : world) : world :=
  World (w_node w) (Sock.socket_server_close (skynet_context_handle (w_node w) ctx) id (w_ss w)).
Definition skynet_socket_shutdown (ctx : loc) (id : Z) (w : world) : world :=
  World (w_node w) (Sock.socket_server_shutdown (skynet_context_handle (w_node w) ctx) id (w_ss w)).
Definition skynet_socket_start (ctx : loc) (id : Z) (w : world) : world :=
  World (w_node w) (Sock.socket_server_start (skynet_context_handle (w_node w) ctx) id (w_ss w)).
Definition skynet_socket_nodelay (id : Z) (w : world) : world :=
  World (w_node w) (Sock.socket_server_nodelay id (w_ss w)).
Definition skynet_socket_udp (ctx : loc) (bound : bool) (w : world) : outcome (Z * world) :=
  r ← Sock.socket_server_udp (skynet_context_handle (w_node w) ctx) bound (w_ss w); Ok (with_ss r w).
Definition skynet_socket_udp_connect (id : Z) (w : world) : outcome (Z * world) :=
  r ← Sock.socket_server_udp_connect id (w_ss w); Ok (with_ss r w).
Definition skynet_socket_udp_send (id : Z) (addr buffer : list Z) (sz : Z) (w : world) : outcome (Z * world) :=
  r ← Sock.socket_server_udp_send id addr buffer sz (w_ss w); Ok (with_ss r w).
Definition skynet_socket_exit (w : world) : world := World (w_node w) (Sock.socket_server_exit (w_ss w)).
Definition skynet_socket_free (w : world) : outcome Sock.socket_server := Sock.socket_server_release (w_ss w).

(** The address of a datagram; only messages of type [UDP] have one. *)
Definition skynet_socket_udp_address (b : list Z) (n : node) : outcome (option (list Z)) :=
  if negb (sm_type b =? SKYNET_SOCKET_TYPE_UDP) then Ok None
  else
    let d := match sm_buffer b ≫= (fun q => heap n !! q) with Some c => Sock.DBytes c | None => Sock.DNull end in
    Sock.socket_server_udp_address (Sock.SMsg (sm_id b) 0 (sm_ud b) d).
End Errors.

(** ** A message that can be read back *)

Lemma i32_of_u32 z : - 2^31 <= z < 2^31 -> i32 (z mod 256 ^ 4) = z.
Proof.
  intros Hz. unfold i32. change (256 ^ 4) with (2^32).
  rewrite Zplus_mod_idemp_l, Z.mod_small by lia. lia.
Qed.

Lemma sm_read type id ud buffer tail :
  0 <= type < 2^32 -> - 2^31 <= id < 2^31 -> - 2^31 <= ud < 2^31 -> pointer buffer < 2^64 ->
  let b := sm_bytes type id ud buffer tail in
  sm_type b = type /\ sm_id b = id /\ sm_ud b = ud /\ sm_buffer b = buffer /\ sm_tail b = tail /\
  Z.of_nat (List.length b) = SIZEOF_SOCKET_MESSAGE + Z.of_nat (List.length tail).
Proof.
  intros Ht Hi Hu Hp. cbv zeta. unfold sm_bytes, sm_type, sm_id, sm_ud, sm_buffer, sm_tail.
  split; [|split; [|split; [|split; [|split]]]].
  - rewrite take_app_length' by (by rewrite le_length). rewrite of_le_le. by apply Z.mod_small.
  - rewrite drop_app_length' by (by rewrite le_length). rewrite take_app_length' by (by rewrite le_length).
    rewrite of_le_le. by apply i32_of_u32.
  - rewrite app_assoc, drop_app_length' by (rewrite length_app, !le_length; done).
    rewrite take_app_length' by (by rewrite le_length). rewrite of_le_le. by apply i32_of_u32.
  - rewrite !app_assoc, <- (app_assoc _ (to_le 8 (pointer buffer)) tail), drop_app_length' by (rewrite !length_app, !le_length; done).
    rewrite take_app_length' by (by rewrite le_length). rewrite of_le_le, Z.mod_small; [by destruct buffer|].
    split; [by destruct buffer|]. exact Hp.
  - rewrite !app_assoc, drop_app_length' by (rewrite !length_app, !le_length; done). done.
  - rewrite !length_app, !le_length. unfold SIZEOF_SOCKET_MESSAGE. lia.
Qed.

(** ** Reaching the owner of a socket *)

Section Owner.
Variable strerror : Sock.errno -> cstr.

Definition tail_of (pad : bool) (d : Sock.mdata) : cstr := if pad then take 128 (text_of strerror d) else [].

(** The blocks of the message: the struct, and the payload if there is one. *)
Definition holds (h : gmap loc (list Z)) (sm : loc) (ty : Z) (pad : bool) (result : Sock.socket_message) : Prop :=
  exists buffer, h !! sm = Some (sm_bytes ty (Sock.m_id result) (Sock.m_ud result) buffer (tail_of pad (Sock.m_data result))) /\
    match pad, Sock.m_data result with
    | false, Sock.DBytes b => exists q, buffer = Some q /\ q <> sm /\ h !! q = Some b
    | _, _ => buffer = None
    end.

Lemma malloc_fresh b n : let p := (malloc b n).1 in heap n !! p = None /\ (malloc b n).2 = with_heap (<[p := b]> (heap n)) n.
Proof.
  cbn. split; [|done]. apply not_elem_of_dom. intros Hin.
  apply (is_fresh (dom (heap n) ∪ dom (rheap n))). set_solver.
Qed.

(** What [forward_message] builds before it pushes: at most two new blocks. *)
Lemma forward_builds ty pad result n :
  exists sm buffer h', forward_message strerror ty pad result n =
    ('(r, n) ← skynet_context_push (u32 (Sock.m_opaque result))
        (Msg 0 0 (Some sm) (tagged (SIZEOF_SOCKET_MESSAGE + Z.of_nat (List.length (tail_of pad (Sock.m_data result)))) PTYPE_SOCKET))
        (with_heap h' n);
     if negb (r =? 0) then n ← skynet_free buffer n; skynet_free (Some sm) n else Ok n) /\
    holds h' sm ty pad result /\ heap n ⊆ h' /\
    (buffer = None /\ h' !! sm <> None /\ delete sm h' = heap n \/
     exists q, buffer = Some q /\ q <> sm /\ is_Some (h' !! q) /\ h' !! sm <> None /\ delete sm (delete q h') = heap n).
Proof.
  unfold forward_message. cbv zeta. change (if pad then take 128 (text_of strerror (Sock.m_data result)) else []) with (tail_of pad (Sock.m_data result)). set (tail := tail_of pad (Sock.m_data result)).
  assert (Hone : match pad, Sock.m_data result with false, Sock.DBytes _ => False | _, _ => True end ->
    forall p n1, malloc (sm_bytes ty (Sock.m_id result) (Sock.m_ud result) None tail) n = (p, n1) ->
    heap n !! p = None /\ n1 = with_heap (<[p := sm_bytes ty (Sock.m_id result) (Sock.m_ud result) None tail]> (heap n)) n).
  { intros _ p n1 E. pose proof (malloc_fresh (sm_bytes ty (Sock.m_id result) (Sock.m_ud result) None tail) n) as [H1 H2].
    rewrite E in H1, H2. done. }
  destruct pad; [|destruct (Sock.m_data result) as [|b|s|e] eqn:Ed].
  2,4,5: idtac.
  1: destruct (malloc (sm_bytes _ _ _ None tail) n) as [p n1] eqn:Em; destruct (Hone I p n1 eq_refl) as [Hn ->];
     exists p, None, (<[p := sm_bytes ty (Sock.m_id result) (Sock.m_ud result) None tail]> (heap n)).
  all: try (destruct (malloc (sm_bytes _ _ _ None tail) n) as [p n1] eqn:Em; destruct (Hone I p n1 eq_refl) as [Hn ->];
     exists p, None, (<[p := sm_bytes ty (Sock.m_id result) (Sock.m_ud result) None tail]> (heap n))).
  all: try (split; [done|]; split; [exists None; rewrite lookup_insert_eq, ?Ed; done|];
     split; [by apply insert_subseteq|]; left; rewrite lookup_insert_eq; split; [done|]; split; [done|]; by rewrite delete_insert_id).
  (* a payload *)
  pose proof (malloc_fresh b n) as [H1 H2]. destruct (malloc b n) as [q n1] eqn:Eq. cbn [fst snd] in H1, H2. subst n1.
  set (n1 := with_heap (<[q := b]> (heap n)) n).
  pose proof (malloc_fresh (sm_bytes ty (Sock.m_id result) (Sock.m_ud result) (Some q) tail) n1) as [H3 H4].
  destruct (malloc _ n1) as [p n2] eqn:Ep. cbn [fst snd] in H3, H4. subst n2. cbn [heap with_heap n1] in H3.
  assert (Hpq : p <> q) by (intros ->; by rewrite lookup_insert_eq in H3).
  rewrite lookup_insert_ne in H3 by done.
  exists p, (Some q), (<[p := sm_bytes ty (Sock.m_id result) (Sock.m_ud result) (Some q) tail]> (<[q := b]> (heap n))).
  split; [done|]. split; [|split].
  - exists (Some q). rewrite lookup_insert_eq. split; [done|]. rewrite Ed. exists q. split; [done|]. split; [done|].
    by rewrite lookup_insert_ne, lookup_insert_eq.
  - apply insert_subseteq_r; [done|]. by apply insert_subseteq.
  - right. exists q. split; [done|]. split; [done|]. rewrite lookup_insert_ne, lookup_insert_eq by done.
    split; [by eexists|]. rewrite lookup_insert_eq. split; [done|].
    rewrite (delete_insert_ne _ q p), (delete_insert_id (heap n) q) by congruence. by rewrite delete_insert_id.
Qed.

(** What the poll hands to the services, for a report the loop forwards. *)
Lemma poll_forwards t result more ss' ty pad (w : world) :
  Sock.socket_server_poll (w_ss w) = Ok (t, result, more, ss') -> socket_type t = Some (ty, pad) ->
  skynet_socket_poll strerror w =
    (n ← forward_message strerror ty pad result (w_node w); Ok (if more : bool then -1 else 1, World n ss')).
Proof. intros E Et. unfold skynet_socket_poll. rewrite E, bind_ret. destruct t; by inversion Et. Qed.

(** What a poll says of the report it got. *)
Lemma poll_reported (w : world) r w' :
  skynet_socket_poll strerror w = Ok (r, w') ->
  exists t m more ss, Sock.socket_server_poll (w_ss w) = Ok (t, m, more, ss) /\ w_ss w' = ss /\
    (t = Sock.R_EXIT -> r = 0) /\ (0 < r -> more = false).
Proof.
  unfold skynet_socket_poll. destruct (Sock.socket_server_poll (w_ss w)) as [[[[t m] more] ss]|]; [|done].
  rewrite bind_ret. intros H. exists t, m, more, ss. split; [done|].
  assert (Hf : forall (o : outcome node) z, (n ← o; Ok (z, World n ss)) = Ok (r, w') -> w_ss w' = ss /\ r = z).
  { intros [n|f] z Ho; [|done]. by injection Ho as <- <-. }
  destruct t; try (apply Hf in H as [-> ->]; by destruct more). by injection H as <- <-.
Qed.

(** An owner that is gone: the blocks are freed again. *)
Lemma forward_dead ty pad result n :
  Slots.handle_lookup (skynet_context_handle n) (u32 (Sock.m_opaque result)) (handles n) = Ok None ->
  forward_message strerror ty pad result n = Ok n.
Proof.
  intros El. destruct (forward_builds ty pad result n) as (sm & buffer & h' & -> & _ & _ & Hb).
  rewrite context_push_dead, bind_ret by done. cbn [Z.eqb negb].
  destruct Hb as [(-> & Hs & Hd)|(q & -> & Hne & [b Hq] & Hs & Hd)]; cbn [skynet_free heap with_heap].
  - rewrite bind_ret. cbn [heap with_heap]. destruct (h' !! sm); [|done]. rewrite Hd. by destruct n.
  - rewrite Hq, bind_ret. cbn [heap with_heap]. rewrite lookup_delete_ne by done.
    destruct (h' !! sm); [|done]. cbn [heap with_heap]. rewrite Hd. by destruct n.
Qed.

(** A live owner: one message at the end of its queue. *)
Lemma forward_live ty pad result n O l c x items :
  node_inv n O l ->
  Slots.handle_lookup (skynet_context_handle n) (u32 (Sock.m_opaque result)) (handles n) = Ok (Some c) ->
  ctxs n !! c = Some x -> waiting n (queue x) items -> Z.of_nat (List.length items) + 1 < 2^30 ->
  exists n' l' sm, forward_message strerror ty pad result n = Ok n' /\ node_inv n' O l' /\
    waiting n' (queue x) (items ++ [Msg 0 0 (Some sm)
      (tagged (SIZEOF_SOCKET_MESSAGE + Z.of_nat (List.length (tail_of pad (Sock.m_data result)))) PTYPE_SOCKET)]) /\
    holds (heap n') sm ty pad result /\ heap n ⊆ heap n' /\
    forall q it, q <> queue x -> waiting n q it -> waiting n' q it.
Proof.
  intros I El Hx Hw Hroom. destruct (forward_builds ty pad result n) as (sm & buffer & h' & -> & Hh & Hsub & _).
  edestruct (context_push_live (u32 (Sock.m_opaque result)) c x items) as (s & l' & -> & I2 & Pu);
    [by apply node_inv_heap|done|done|done|done|].
  rewrite bind_ret. cbn [Z.eqb negb]. eexists _, l', sm. split; [done|]. split; [done|]. split; [|split; [done|split; [done|]]].
  - destruct Pu as [(q' & Hq' & Hr' & _) _]. by exists q'.
  - intros q it Hne (z & Hz & Hr). destruct (pushed_other _ _ _ _ _ q z Pu Hne Hz) as (z' & ? & _ & ?).
    exists z'. auto.
Qed.

(** What a service reads in such a message. *)
Lemma holds_read h sm ty pad result :
  holds h sm ty pad result -> 0 <= ty < 2^32 -> - 2^31 <= Sock.m_id result < 2^31 ->
  - 2^31 <= Sock.m_ud result < 2^31 -> (forall q, is_Some (h !! q) -> Zpos q < 2^64) ->
  exists b, h !! sm = Some b /\ sm_type b = ty /\ sm_id b = Sock.m_id result /\ sm_ud b = Sock.m_ud result /\
    sm_tail b = tail_of pad (Sock.m_data result) /\
    (forall d, pad = false -> Sock.m_data result = Sock.DBytes d -> sm_buffer b ≫= (fun q => h !! q) = Some d).
Proof.
  intros (buffer & Hb & Hd) Ht Hi Hu Hp. eexists. split; [exact Hb|].
  assert (Hbuf : pointer buffer < 2^64).
  { destruct buffer as [q|]; cbn [pointer]; [|lia]. apply Hp.
    destruct pad; [done|]. destruct (Sock.m_data result); try done. destruct Hd as (q' & [= ->] & _ & ->). by eexists. }
  destruct (sm_read ty (Sock.m_id result) (Sock.m_ud result) buffer (tail_of pad (Sock.m_data result)) Ht Hi Hu Hbuf)
    as (E1 & E2 & E3 & E4 & E5 & _). split_and!; try done.
  intros d -> Ed. rewrite E4. rewrite Ed in Hd. destruct Hd as (q & -> & _ & Hq). exact Hq.
Qed.
End Owner.

(** C25.  What the socket server reports reaches the service that owns the
    socket.  When [skynet_socket_poll] gets a report it forwards and the owner is
    a live service of the node, exactly one message is added at the end of its
    queue: of type [PTYPE_SOCKET], with source and session 0, whose block holds
    the struct with the type for services, the id and [ud] of the report, at most
    128 bytes of its text after the struct, or a pointer to a block with the
    bytes received; no block of the heap is touched and no other queue changes.
    When the owner is gone the node is as before: both blocks are freed again. *)
Theorem socket_event_reaches_owner strerror (w : world) O l t result (more : bool) ss' ty pad owner :
  node_inv (w_node w) O l ->
  Sock.socket_server_poll (w_ss w) = Ok (t, result, more, ss') -> socket_type t = Some (ty, pad) ->
  Slots.handle_lookup (skynet_context_handle (w_node w)) (u32 (Sock.m_opaque result)) (handles (w_node w)) = Ok owner ->
  let r := if more then -1 else 1 in
  match owner with
  | None => skynet_socket_poll strerror w = Ok (r, World (w_node w) ss')
  | Some c => forall x items, ctxs (w_node w) !! c = Some x -> waiting (w_node w) (queue x) items ->
      Z.of_nat (List.length items) + 1 < 2^30 ->
      exists n' l' sm m, skynet_socket_poll strerror w = Ok (r, World n' ss') /\ node_inv n' O l' /\
        waiting n' (queue x) (items ++ [m]) /\
        source m = 0 /\ session m = 0 /\ data m = Some sm /\ Z.shiftr (sz m) MESSAGE_TYPE_SHIFT = PTYPE_SOCKET /\
        Z.land (sz m) MESSAGE_TYPE_MASK = SIZEOF_SOCKET_MESSAGE + Z.of_nat (List.length (tail_of strerror pad (Sock.m_data result))) /\
        holds strerror (heap n') sm ty pad result /\ heap (w_node w) ⊆ heap n' /\
        forall q it, q <> queue x -> waiting (w_node w) q it -> waiting n' q it
  end.
Proof.
  intros I E Et El. cbv zeta. rewrite (poll_forwards strerror t result more ss' ty pad w E Et). destruct owner as [c|].
  - intros x items Hx Hw Hroom.
    destruct (forward_live strerror ty pad result _ O l c x items I El Hx Hw Hroom)
      as (n' & l' & sm & -> & I' & Hw' & Hh & Hsub & Ho).
    assert (Hlen : 0 <= SIZEOF_SOCKET_MESSAGE + Z.of_nat (List.length (tail_of strerror pad (Sock.m_data result))) < 2^56).
    { unfold SIZEOF_SOCKET_MESSAGE, tail_of. destruct pad; [rewrite length_take|cbn [List.length]]; lia. }
    destruct (tagged_inv _ PTYPE_SOCKET Hlen) as [Ty Tz].
    exists n', l', sm. eexists. split; [done|]. split; [done|]. split; [done|]. cbn [source session data sz].
    split_and!; done.
  - by rewrite (forward_dead strerror ty pad result _ El).
Qed.

(** The watchdog connects to ["h"]: the report of the new connection. *)
Definition connecting : world :=
  (skynet_socket_connect 2 [104] 80 (World node2 (Sock.fresh_server [Sock.Ret 1; Sock.Ret 7; Sock.Ret 0; Sock.Ret 0; Sock.Printed [49]]))).2.

Lemma socket_event_reaches_owner_witness : exists n' l' sm m b,
  skynet_socket_poll (fun _ => []) connecting = Ok (-1, World n' (match Sock.socket_server_poll (w_ss connecting) with Ok r => r.2 | Fault _ => w_ss connecting end)) /\
  waiting n' (queue watchdog_ctx) [m] /\ data m = Some sm /\ Z.land (sz m) MESSAGE_TYPE_MASK = 25 /\ node_inv n' ∅ l' /\
  heap n' !! sm = Some b /\ sm_tail b = [49].
Proof.
  destruct node2_inv as [l I].
  destruct (Sock.socket_server_poll (w_ss connecting)) as [[[[t result] more] ss']|f] eqn:E; [|vm_compute in E; discriminate E].
  pose proof E as E'. vm_compute in E'. injection E' as Et Er Em Es.
  destruct (socket_event_reaches_owner (fun _ => []) connecting ∅ l t result more ss' SKYNET_SOCKET_TYPE_CONNECT true (Some 2%positive)
    I E) with (x := watchdog_ctx) (items := @nil skynet_message)
    as (n' & l' & sm & m & Ep & I' & Hw & H1 & H2 & H3 & H4 & H5 & (bf & Hb & Hnone) & _).
  - by subst t.
  - subst result. ev.
  - ev.
  - exact node2h_idle.
  - vm_compute. reflexivity.
  - exists n', l', sm, m. eexists. split; [subst more; exact Ep|]. split; [exact Hw|]. split; [exact H3|].
    split; [rewrite H5; subst result; ev|]. split; [exact I'|]. split; [exact Hb|].
    subst result. vm_compute in Hnone. subst bf. ev.
Defined.
