(* ===== verification/Threads.v ===== *)
(** * The threads of a node ([skynet-src/skynet_start.c])

    Workers, timer, socket and monitor threads as one labelled step relation:
    a step is one access to what the threads share (the monitor struct, its mutex
    and condition variable), or one call into the rest of the node.  The node is
    seen through the interface [Engine]; [node_engine] is the node of the other
    files.  The theorems: what [sleep] counts, who holds the mutex, that a timer
    tick wakes a sleeper, and that every thread ends once [quit] is set. *)

From S2P Require Import Prelude Mq Sched Timer Handle Text Module Server Delivery Command Lifecycle Dispatch Boot Socket SocketProofs SocketNode.
From Stdlib Require Import ZArith Lia.
From stdpp Require Import base numbers list gmap.
#[local] Open Scope Z_scope.
#[local] Open Scope list_scope.

(** ** What the threads use of the node *)

Class Engine (W : Type) := {
  total : W -> Z;                                              (** [skynet_context_total] *)
  dispatch : nat -> option loc -> Z -> W -> option loc -> W -> Prop;
  poll : W -> Z -> W -> Prop;                                  (** [skynet_socket_poll] *)
  tick : W -> W -> Prop;                                       (** [skynet_updatetime] *)
  hup : W -> W -> Prop;                                        (** [signal_hup] *)
  check : nat -> W -> W -> Prop;                               (** [skynet_monitor_check(m->m[i])] *)
  ask_exit : W -> W;                                           (** [skynet_socket_exit] *)
  request : W -> W -> Prop;                                    (** a socket call of a service *)
  backlog : W -> nat;                                          (** requests the socket thread has not read *)
  exiting : W -> Prop                                          (** one of them asks it to exit *)
}.

(** What the socket side promises: asking for the exit leaves a request that only
    the socket thread removes, and a poll that neither ends nor fails has read
    one of them. *)
Class EngineLaws (W : Type) `{Engine W} := {
  ask_exit_asks w : exiting (ask_exit w) /\ total (ask_exit w) = total w;
  poll_reads w r w' : exiting w -> poll w r w' -> r <> 0 -> exiting w' /\ (0 < r -> (backlog w' < backlog w)%nat);
  quiet_dispatch i q wt w q' w' : dispatch i q wt w q' w' -> exiting w -> exiting w' /\ backlog w' = backlog w;
  quiet_tick w w' : tick w w' -> exiting w -> exiting w' /\ backlog w' = backlog w;
  quiet_hup w w' : hup w w' -> exiting w -> exiting w' /\ backlog w' = backlog w;
  quiet_check i w w' : check i w w' -> exiting w -> exiting w' /\ backlog w' = backlog w;
  quiet_request w w' : request w w' -> exiting w -> exiting w'
}.

(** ** The threads *)

Inductive tid := TWorker (i : nat) | TTimer | TSocket | TMonitor.
#[export] Instance tid_eq_dec : EqDecision tid.
Proof. solve_decision. Defined.

(** Where a worker is in [thread_worker]. *)
Inductive wpc :=
  | WTest (q : option loc)      (** [while (!m->quit)] *)
  | WDispatch (q : option loc)
  | WLock                       (** [pthread_mutex_lock] *)
  | WInc                        (** [++ m->sleep] *)
  | WCheck                      (** [if (!m->quit)] *)
  | WWait                       (** in [pthread_cond_wait] *)
  | WWoken                      (** signalled, on its way back to the mutex *)
  | WDec                        (** [-- m->sleep] *)
  | WUnlock
  | WDone.

Inductive tpc :=
  | TUpdate | TAbort | TWake | TSleep | TSig | TClear
  | TExit | TLock | TQuit | TBroadcast | TUnlock | TDone.

Inductive spc := SPoll | SAbort | SWake | SDone.

(** [MScan i] and [MNap i]: the two inner loops of [thread_monitor] at index [i];
    [MRest i] is in [sleep(1)]. *)
Inductive mpc := MAbort | MScan (i : nat) | MNap (i : nat) | MRest (i : nat) | MDone.

Record threads (W : Type) := Threads {
  count : nat;
  sleep : Z;
  quit : bool;
  mutex : option tid;
  sig : bool;                   (** [SIG] *)
  workers : list wpc;
  timer : tpc;
  socket : spc;
  watch : mpc;
  world_of : W
}.
Arguments Threads {_} _ _ _ _ _ _ _ _ _ _.
Arguments count {_} _. Arguments sleep {_} _. Arguments quit {_} _. Arguments mutex {_} _. Arguments sig {_} _.
Arguments workers {_} _. Arguments timer {_} _. Arguments socket {_} _. Arguments watch {_} _. Arguments world_of {_} _.

(** [weight] of [start]: the first 32 workers have one of the table's. *)
Definition weight_table : list Z :=
  [-1; -1; -1; -1; 0; 0; 0; 0; 1; 1; 1; 1; 1; 1; 1; 1; 2; 2; 2; 2; 2; 2; 2; 2; 3; 3; 3; 3; 3; 3; 3; 3].
Definition weight_of (i : nat) : Z := default 0 (weight_table !! i).

(** [start] when every thread has been created. *)
Definition start {W} (thread : nat) (w : W) : threads W :=
  Threads thread 0 false None false (replicate thread (WTest None)) TUpdate SPoll MAbort w.

Section Step.
Context {W : Type} `{Engine W}.
Implicit Types st : threads W.

Definition set_worker (i : nat) (pc : wpc) st : threads W :=
  Threads (count st) (sleep st) (quit st) (mutex st) (sig st) (<[i := pc]> (workers st)) (timer st) (socket st) (watch st) (world_of st).
Definition set_workers (ps : list wpc) st : threads W :=
  Threads (count st) (sleep st) (quit st) (mutex st) (sig st) ps (timer st) (socket st) (watch st) (world_of st).
Definition set_timer (pc : tpc) st : threads W :=
  Threads (count st) (sleep st) (quit st) (mutex st) (sig st) (workers st) pc (socket st) (watch st) (world_of st).
Definition set_socket (pc : spc) st : threads W :=
  Threads (count st) (sleep st) (quit st) (mutex st) (sig st) (workers st) (timer st) pc (watch st) (world_of st).
Definition set_watch (pc : mpc) st : threads W :=
  Threads (count st) (sleep st) (quit st) (mutex st) (sig st) (workers st) (timer st) (socket st) pc (world_of st).
Definition set_world (w : W) st : threads W :=
  Threads (count st) (sleep st) (quit st) (mutex st) (sig st) (workers st) (timer st) (socket st) (watch st) w.
Definition set_mutex (o : option tid) st : threads W :=
  Threads (count st) (sleep st) (quit st) o (sig st) (workers st) (timer st) (socket st) (watch st) (world_of st).
Definition set_sleep (z : Z) st : threads W :=
  Threads (count st) z (quit st) (mutex st) (sig st) (workers st) (timer st) (socket st) (watch st) (world_of st).
Definition set_quit st : threads W :=
  Threads (count st) (sleep st) true (mutex st) (sig st) (workers st) (timer st) (socket st) (watch st) (world_of st).
Definition set_sig (b : bool) st : threads W :=
  Threads (count st) (sleep st) (quit st) (mutex st) b (workers st) (timer st) (socket st) (watch st) (world_of st).

(** [pthread_cond_signal]: one of the waiting threads, if there is one. *)
Inductive signalled : list wpc -> list wpc -> Prop :=
  | signal_one ps i : ps !! i = Some WWait -> signalled ps (<[i := WWoken]> ps)
  | signal_none ps : WWait ∉ ps -> signalled ps ps.

(** [pthread_cond_broadcast] *)
Definition wake (pc : wpc) : wpc := match pc with WWait => WWoken | _ => pc end.

(** [wakeup] *)
Inductive wakeup (busy : Z) : threads W -> threads W -> Prop :=
  | wakeup_signal st ps : sleep st >= Z.of_nat (count st) - busy -> signalled (workers st) ps -> wakeup busy st (set_workers ps st)
  | wakeup_none st : sleep st < Z.of_nat (count st) - busy -> wakeup busy st st.

(** One step of [thread_worker].  [pthread_mutex_lock] and [pthread_mutex_unlock]
    do not fail on a mutex the thread does not misuse; [w_spurious] is the wakeup
    POSIX allows at any time. *)
Inductive worker_step (i : nat) : wpc -> threads W -> threads W -> Prop :=
  | w_quit st q : quit st = true -> worker_step i (WTest q) st (set_worker i WDone st)
  | w_loop st q : quit st = false -> worker_step i (WTest q) st (set_worker i (WDispatch q) st)
  | w_busy st q q' w : dispatch i q (weight_of i) (world_of st) (Some q') w ->
      worker_step i (WDispatch q) st (set_worker i (WTest (Some q')) (set_world w st))
  | w_idle st q w : dispatch i q (weight_of i) (world_of st) None w ->
      worker_step i (WDispatch q) st (set_worker i WLock (set_world w st))
  | w_lock st : mutex st = None -> worker_step i WLock st (set_worker i WInc (set_mutex (Some (TWorker i)) st))
  | w_inc st : worker_step i WInc st (set_worker i WCheck (set_sleep (sleep st + 1) st))
  | w_wait st : quit st = false -> worker_step i WCheck st (set_worker i WWait (set_mutex None st))
  | w_stay st : quit st = true -> worker_step i WCheck st (set_worker i WDec st)
  | w_spurious st : worker_step i WWait st (set_worker i WWoken st)
  | w_relock st : mutex st = None -> worker_step i WWoken st (set_worker i WDec (set_mutex (Some (TWorker i)) st))
  | w_dec st : worker_step i WDec st (set_worker i WUnlock (set_sleep (sleep st - 1) st))
  | w_unlock st : worker_step i WUnlock st (set_worker i (WTest None) (set_mutex None st)).

Inductive timer_step : tpc -> threads W -> threads W -> Prop :=
  | t_update st w : tick (world_of st) w -> timer_step TUpdate st (set_timer TAbort (set_world w st))
  | t_abort st : total (world_of st) = 0 -> timer_step TAbort st (set_timer TExit st)
  | t_go st : total (world_of st) <> 0 -> timer_step TAbort st (set_timer TWake st)
  | t_wake st st' : wakeup (Z.of_nat (count st) - 1) st st' -> timer_step TWake st (set_timer TSleep st')
  | t_sleep st : timer_step TSleep st (set_timer TSig st)
  | t_hup st w : sig st = true -> hup (world_of st) w -> timer_step TSig st (set_timer TClear (set_world w st))
  | t_clear st : timer_step TClear st (set_timer TUpdate (set_sig false st))
  | t_nohup st : sig st = false -> timer_step TSig st (set_timer TUpdate st)
  | t_exit st : timer_step TExit st (set_timer TLock (set_world (ask_exit (world_of st)) st))
  | t_lock st : mutex st = None -> timer_step TLock st (set_timer TQuit (set_mutex (Some TTimer) st))
  | t_quit st : timer_step TQuit st (set_timer TBroadcast (set_quit st))
  | t_broadcast st : timer_step TBroadcast st (set_timer TUnlock (set_workers (wake <$> workers st) st))
  | t_unlock st : timer_step TUnlock st (set_timer TDone (set_mutex None st)).

Inductive socket_step : spc -> threads W -> threads W -> Prop :=
  | s_exit st w : poll (world_of st) 0 w -> socket_step SPoll st (set_socket SDone (set_world w st))
  | s_more st r w : poll (world_of st) r w -> r < 0 -> socket_step SPoll st (set_socket SAbort (set_world w st))
  | s_event st r w : poll (world_of st) r w -> 0 < r -> socket_step SPoll st (set_socket SWake (set_world w st))
  | s_abort st : total (world_of st) = 0 -> socket_step SAbort st (set_socket SDone st)
  | s_again st : total (world_of st) <> 0 -> socket_step SAbort st (set_socket SPoll st)
  | s_wake st st' : wakeup 0 st st' -> socket_step SWake st (set_socket SPoll st').

(** [CHECK_ABORT] inside the loop of five only leaves that loop. *)
Inductive monitor_step : mpc -> threads W -> threads W -> Prop :=
  | m_abort st : total (world_of st) = 0 -> monitor_step MAbort st (set_watch MDone st)
  | m_go st : total (world_of st) <> 0 -> monitor_step MAbort st (set_watch (MScan 0) st)
  | m_scan st i w : (i < count st)%nat -> check i (world_of st) w -> monitor_step (MScan i) st (set_watch (MScan (S i)) (set_world w st))
  | m_scanned st i : (count st <= i)%nat -> monitor_step (MScan i) st (set_watch (MNap 0) st)
  | m_nap_abort st i : (i < 5)%nat -> total (world_of st) = 0 -> monitor_step (MNap i) st (set_watch MAbort st)
  | m_nap st i : (i < 5)%nat -> total (world_of st) <> 0 -> monitor_step (MNap i) st (set_watch (MRest i) st)
  | m_napped st i : (5 <= i)%nat -> monitor_step (MNap i) st (set_watch MAbort st)
  | m_rest st i : monitor_step (MRest i) st (set_watch (MNap (S i)) st).

(** A thread that waits for the mutex or for an event, or has ended, stays where it is. *)
Inductive blocked : tid -> threads W -> Prop :=
  | b_lock st i : workers st !! i = Some WLock -> mutex st <> None -> blocked (TWorker i) st
  | b_relock st i : workers st !! i = Some WWoken -> mutex st <> None -> blocked (TWorker i) st
  | b_wait st i : workers st !! i = Some WWait -> blocked (TWorker i) st
  | b_done st i : workers st !! i = Some WDone -> blocked (TWorker i) st
  | b_timer_lock st : timer st = TLock -> mutex st <> None -> blocked TTimer st
  | b_timer_done st : timer st = TDone -> blocked TTimer st
  | b_poll st : socket st = SPoll -> ~ exiting (world_of st) -> blocked TSocket st
  | b_socket_done st : socket st = SDone -> blocked TSocket st
  | b_monitor_done st : watch st = MDone -> blocked TMonitor st.

(** What happens at one instant: a turn of a thread, a socket call of a service,
    the signal. *)
Inductive label := Turn (t : tid) | Request | Hangup.

Inductive step : label -> threads W -> threads W -> Prop :=
  | step_worker i pc st st' : workers st !! i = Some pc -> worker_step i pc st st' -> step (Turn (TWorker i)) st st'
  | step_timer st st' : timer_step (timer st) st st' -> step (Turn TTimer) st st'
  | step_socket st st' : socket_step (socket st) st st' -> step (Turn TSocket) st st'
  | step_monitor st st' : monitor_step (watch st) st st' -> step (Turn TMonitor) st st'
  | step_blocked t st : blocked t st -> step (Turn t) st st
  | step_request st w : total (world_of st) <> 0 -> request (world_of st) w -> step Request st (set_world w st)
  | step_hangup st : step Hangup st (set_sig true st).

(** A run along which [P] holds until its last state. *)
Inductive run (P : threads W -> Prop) : list label -> threads W -> threads W -> Prop :=
  | run_nil st : run P [] st st
  | run_cons l ls st st1 st2 : P st -> step l st st1 -> run P ls st1 st2 -> run P (l :: ls) st st2.

Inductive reachable : threads W -> Prop :=
  | reach_start thread w : reachable (start thread w)
  | reach_step l st st' : reachable st -> step l st st' -> reachable st'.
(** ** The invariant *)

(** Between [++ m->sleep] and [-- m->sleep]. *)
Definition counted (pc : wpc) : bool := match pc with WCheck | WWait | WWoken | WDec => true | _ => false end.
(** Between the lock and the unlock, waiting aside. *)
Definition holding (pc : wpc) : bool := match pc with WInc | WCheck | WDec | WUnlock => true | _ => false end.
Definition timer_holding (pc : tpc) : bool := match pc with TQuit | TBroadcast | TUnlock => true | _ => false end.
Definition timer_quit (pc : tpc) : bool := match pc with TBroadcast | TUnlock | TDone => true | _ => false end.
Definition timer_asked (pc : tpc) : bool := match pc with TLock | TQuit | TBroadcast | TUnlock | TDone => true | _ => false end.

Fixpoint asleep (ps : list wpc) : Z :=
  match ps with [] => 0 | pc :: ps => (if counted pc then 1 else 0) + asleep ps end.

Definition owns st (t : tid) : Prop :=
  match t with
  | TWorker i => exists pc, workers st !! i = Some pc /\ holding pc = true
  | TTimer => timer_holding (timer st) = true
  | _ => False
  end.

Record inv st : Prop := {
  v_count : length (workers st) = count st;
  v_owner t : mutex st = Some t <-> owns st t;
  v_sleep : sleep st = asleep (workers st);
  v_quit : quit st = timer_quit (timer st);
  v_wait : quit st = true -> WWait ∈ workers st -> timer st = TBroadcast;
  v_asked : timer_asked (timer st) = true -> exiting (world_of st) \/ socket st = SDone
}.
Lemma asleep_insert ps i a b :
  ps !! i = Some a ->
  asleep (<[i := b]> ps) = asleep ps - (if counted a then 1 else 0) + (if counted b then 1 else 0).
Proof.
  revert i; induction ps as [|x ps IH]; intros [|i] Hi; try done; cbn in Hi; [change (<[O := b]> (x :: ps)) with (b :: ps)|change (<[S i := b]> (x :: ps)) with (x :: <[i := b]> ps)]; cbn [asleep].
  - injection Hi as ->. lia.
  - rewrite (IH i Hi). lia.
Qed.

Lemma asleep_bounds ps : 0 <= asleep ps <= Z.of_nat (length ps).
Proof. induction ps as [|x ps IH]; cbn [asleep length]; [lia|]. destruct (counted x); lia. Qed.

Lemma asleep_all ps : asleep ps = Z.of_nat (length ps) <-> Forall (fun pc => counted pc = true) ps.
Proof.
  induction ps as [|x ps IH]; cbn [asleep length]; [done|]. pose proof (asleep_bounds ps).
  rewrite Forall_cons, <- IH. destruct (counted x); intuition lia.
Qed.

Lemma asleep_some ps pc : pc ∈ ps -> counted pc = true -> 1 <= asleep ps.
Proof.
  intros Hin Hc. apply list_elem_of_split in Hin as (l & k & ->).
  pose proof (asleep_bounds k). induction l as [|y l IH]; cbn [asleep app]; [rewrite Hc; lia|].
  destruct (counted y); lia.
Qed.

(** Workers before and after a wakeup. *)
Definition woken (a b : wpc) : Prop := b = a \/ a = WWait /\ b = WWoken.
Definition like (a b : wpc) : Prop := holding b = holding a /\ counted b = counted a /\ (b = WWait -> a = WWait).

Lemma woken_like ps ps' : Forall2 woken ps ps' -> Forall2 like ps ps'.
Proof. intros HF. eapply Forall2_impl; [exact HF|]. by intros a b [->|[-> ->]]. Qed.

Lemma woken_same ps : Forall2 woken ps ps.
Proof. apply Forall_Forall2_diag, Forall_true. by left. Qed.

Lemma like_same ps : Forall2 like ps ps.
Proof. apply woken_like, woken_same. Qed.

Lemma signalled_woken ps ps' : signalled ps ps' -> Forall2 woken ps ps'.
Proof.
  intros [qs i Hi|qs _]; [|apply woken_same].
  revert i Hi; induction qs as [|x qs IH]; intros [|i] Hi; cbn in Hi |- *; try done.
  - injection Hi as ->. constructor; [by right|]. apply woken_same.
  - constructor; [by left|]. by apply IH.
Qed.

Lemma wake_woken ps : Forall2 woken ps (wake <$> ps).
Proof. induction ps as [|[] ps IH]; constructor; try done; cbn; unfold woken; auto. Qed.

Lemma like_asleep ps ps' : Forall2 like ps ps' -> asleep ps' = asleep ps.
Proof. induction 1 as [|x y ps ps' (_ & Hc & _) _ IH]; cbn; [done|]. by rewrite Hc, IH. Qed.

Lemma like_wait ps ps' : Forall2 like ps ps' -> WWait ∈ ps' -> WWait ∈ ps.
Proof.
  intros HF. rewrite !list_elem_of_lookup. intros [i Hi]. exists i.
  destruct (Forall2_lookup_r _ _ _ _ _ HF Hi) as (x & Hx & _ & _ & E). by rewrite <- (E eq_refl).
Qed.

Lemma like_owns st st' t : Forall2 like (workers st) (workers st') -> timer_holding (timer st') = timer_holding (timer st) -> owns st' t <-> owns st t.
Proof.
  intros HF Ht. destruct t as [i| | |]; cbn; [|by rewrite Ht|done..]. split; intros (pc & Hi & Hh).
  - destruct (Forall2_lookup_r _ _ _ _ _ HF Hi) as (x & Hx & E & _). exists x. split; congruence.
  - destruct (Forall2_lookup_l _ _ _ _ _ HF Hi) as (x & Hx & E & _). exists x. split; congruence.
Qed.

(** A step that leaves the mutex, [sleep] and [quit] alone. *)
Lemma inv_frame st st' :
  inv st -> count st' = count st -> sleep st' = sleep st -> mutex st' = mutex st -> quit st' = quit st ->
  Forall2 like (workers st) (workers st') ->
  timer_holding (timer st') = timer_holding (timer st) -> timer_quit (timer st') = timer_quit (timer st) ->
  (timer st = TBroadcast -> timer st' = TBroadcast) ->
  (timer_asked (timer st') = true -> exiting (world_of st') \/ socket st' = SDone) -> inv st'.
Proof.
  intros [Vc Vo Vs Vq Vw Va] Ec Es Em Eq HF Eh Et Eb Ha. split.
  - rewrite Ec, <- Vc. symmetry. by eapply Forall2_length.
  - intros t. rewrite Em, Vo. symmetry. by apply like_owns.
  - by rewrite Es, Vs, (like_asleep _ _ HF).
  - by rewrite Eq, Et.
  - rewrite Eq. intros Hq Hw. apply Eb, Vw; [done|]. by eapply like_wait.
  - done.
Qed.

(** A step of worker [i] to [b]. *)
Definition move (i : nat) (b : wpc) (z : Z) (o : option tid) (w : W) st : threads W :=
  Threads (count st) z (quit st) o (sig st) (<[i := b]> (workers st)) (timer st) (socket st) (watch st) w.

Lemma inv_move i a b z o w st :
  inv st -> workers st !! i = Some a -> (exiting (world_of st) -> exiting w) ->
  z = sleep st - (if counted a then 1 else 0) + (if counted b then 1 else 0) ->
  (b = WWait -> quit st = false) ->
  match holding a, holding b with
  | false, true => mutex st = None /\ o = Some (TWorker i)
  | true, false => o = None
  | _, _ => o = mutex st
  end -> inv (move i b z o w st).
Proof.
  intros [Vc Vo Vs Vq Vw Va] Hi Hex -> Hb Hm.
  assert (Hlt : (i < length (workers st))%nat) by by eapply lookup_lt_Some.
  split; cbn [move count sleep mutex quit workers timer socket world_of].
  - by rewrite length_insert.
  - intros t.
    assert (Hot : forall z, owns (move i b z o w st) t <-> if decide (t = TWorker i) then holding b = true else owns st t).
    { intros z. destruct (decide (t = TWorker i)) as [->|Hne]; [cbn; rewrite list_lookup_insert_eq by done; naive_solver|].
      destruct t as [j| | |]; cbn; try done. rewrite list_lookup_insert_ne by congruence. done. }
    unfold move in Hot. rewrite Hot.
    assert (Hia : owns st (TWorker i) <-> holding a = true) by (cbn; naive_solver).
    pose proof (Vo (TWorker i)) as Hoi. pose proof (Vo t) as Hot'.
    destruct (decide (t = TWorker i)) as [->|Hne]; destruct (holding a), (holding b); subst; naive_solver.
  - rewrite (asleep_insert _ i a b Hi), Vs. done.
  - done.
  - intros Hq Hin. apply Vw; [done|]. apply list_elem_of_lookup in Hin as [j Hj].
    destruct (decide (j = i)) as [->|Hne].
    + rewrite list_lookup_insert_eq in Hj by done. injection Hj as ->. rewrite Hb in Hq by done. done.
    + rewrite list_lookup_insert_ne in Hj by done. apply list_elem_of_lookup. by exists j.
  - intros Ht. destruct (Va Ht); auto.
Qed.
Lemma inv_start thread w : inv (start thread w).
Proof.
  split; cbn [start count sleep mutex quit workers timer socket]; try done.
  - by rewrite length_replicate.
  - intros t. split; [done|]. destruct t as [i| | |]; cbn; try done.
    intros (pc & Hi & Hh). apply lookup_replicate in Hi as [-> _]. done.
  - by induction thread.
Qed.

Context `{!EngineLaws W}.

Lemma worker_step_inv i pc st st' : inv st -> workers st !! i = Some pc -> worker_step i pc st st' -> inv st'.
Proof.
  intros I Hi Hs. pose proof (proj2 (v_owner _ I (TWorker i))) as Ho.
  inversion Hs; subst; match type of Hi with _ = Some ?a => match goal with
  | |- inv (set_worker _ ?b (set_world ?w _)) => apply (inv_move i a b (sleep st) (mutex st) w st I Hi)
  | |- inv (set_worker _ ?b (set_mutex ?o _)) => apply (inv_move i a b (sleep st) o (world_of st) st I Hi)
  | |- inv (set_worker _ ?b (set_sleep ?z _)) => apply (inv_move i a b z (mutex st) (world_of st) st I Hi)
  | |- inv (set_worker _ ?b _) => apply (inv_move i a b (sleep st) (mutex st) (world_of st) st I Hi)
  end end; try done; cbn [counted]; try lia; intros; by eapply quiet_dispatch.
Qed.
Lemma wakeup_frame busy st st' : wakeup busy st st' -> exists ps, st' = set_workers ps st /\ Forall2 woken (workers st) ps.
Proof.
  intros [s ps _ Hs|s _]; [exists ps; split; [done|]; by apply signalled_woken|].
  exists (workers s). split; [by destruct s|]. apply woken_same.
Qed.

Lemma timer_step_inv st st' : inv st -> timer_step (timer st) st st' -> inv st'.
Proof.
  intros I Hs. pose proof I as [Vc Vo Vs Vq Vw Va]. remember (timer st) as pc eqn:Ept.
  destruct Hs as [st w Ht|st Ht|st Ht|st st' Hw|st|st w Hg Ht|st|st Hg|st|st Hm|st|st|st].
  4: apply wakeup_frame in Hw as (ps & -> & HF%woken_like).
  all: try (apply (inv_frame st); cbn; rewrite <- ?Ept; cbn; try done; try apply like_same;
            intros _; left; apply ask_exit_asks).
  - split; cbn; try done; try (by rewrite Vq); try (by intros _; apply Va); try (intros Hq; by rewrite Vq in Hq).
    intros t. split; [by intros [= <-]|]. pose proof (Vo t) as Ht. rewrite Hm in Ht.
    destruct t as [i| | |]; cbn in Ht |- *; [naive_solver|done..].
  - split; cbn; try done; try (by intros _; apply Va).
    intros t. rewrite Vo. destruct t; cbn; rewrite <- ?Ept; done.
  - split; cbn.
    + by rewrite length_fmap.
    + intros t. rewrite Vo. symmetry. apply like_owns; [apply woken_like, wake_woken|]. cbn. by rewrite <- Ept.
    + by rewrite (like_asleep _ _ (woken_like _ _ (wake_woken _))).
    + done.
    + intros _ Hin. apply list_elem_of_fmap in Hin as ([] & Hw & _); done.
    + intros _. by apply Va.
  - split; cbn; try done; try (by intros _; apply Va); try (intros Hq Hin; by specialize (Vw Hq Hin)).
    intros t. split; [done|]. intros Ht. assert (Hmt : mutex st = Some TTimer) by (apply Vo; cbn; by rewrite <- Ept).
    destruct t as [i| | |]; cbn in Ht; try done. pose proof (proj2 (Vo (TWorker i)) Ht). congruence.
Qed.

Lemma quiet_keeps st w : inv st -> (exiting (world_of st) -> exiting w) -> inv (set_world w st).
Proof.
  intros I Hw. apply (inv_frame st); cbn; try done; try apply like_same. intros Ht.
  destruct (v_asked _ I Ht); auto.
Qed.

Lemma socket_step_inv st st' : inv st -> socket_step (socket st) st st' -> inv st'.
Proof.
  intros I Hs. pose proof (v_asked _ I) as Va. remember (socket st) as pc eqn:Eps.
  destruct Hs as [st w Hp|st r w Hp Hr|st r w Hp Hr|st Ht|st Ht|st st' Hw].
  6: apply wakeup_frame in Hw as (ps & -> & HF%woken_like).
  all: apply (inv_frame st); cbn; try done; try apply like_same; intros Ha; destruct (Va Ha) as [He|]; try congruence; auto.
  all: left; eapply poll_reads; [done|exact Hp|lia].
Qed.

Lemma monitor_step_inv st st' : inv st -> monitor_step (watch st) st st' -> inv st'.
Proof.
  intros I Hs. remember (watch st) as pc eqn:Epm.
  destruct Hs as [st Ht|st Ht|st i w Hi Hc|st i Hi|st i Hi Ht|st i Hi Ht|st i Hi|st i].
  3: apply (quiet_keeps st w) in I; [|by apply quiet_check with i].
  all: apply (inv_frame _ _ I); cbn; try done; try apply like_same; apply I.
Qed.

Lemma step_inv l st st' : inv st -> step l st st' -> inv st'.
Proof.
  intros I Hs. destruct Hs as [i pc st st' Hi Hs|st st' Hs|st st' Hs|st st' Hs|t st Hb|st w Ht Hr|st].
  - by eapply worker_step_inv.
  - by eapply timer_step_inv.
  - by eapply socket_step_inv.
  - by eapply monitor_step_inv.
  - done.
  - apply quiet_keeps; [done|]. by apply quiet_request.
  - apply (inv_frame st); cbn; try done; [apply like_same|apply I].
Qed.

Lemma threads_inv st : reachable st -> inv st.
Proof. induction 1 as [thread w|l st st' _ IH Hs]; [apply inv_start|by eapply step_inv]. Qed.
(** ** Every thread ends *)

(** How many more steps a thread can take once [quit] is set and no service is left. *)
Definition worker_left (pc : wpc) : nat :=
  match pc with
  | WDone => 0 | WTest _ => 1 | WUnlock => 2 | WDec => 3 | WWoken => 4 | WWait => 5
  | WCheck => 6 | WInc => 7 | WLock => 8 | WDispatch _ => 9
  end.
Definition timer_left (pc : tpc) : nat := match pc with TBroadcast => 2 | TUnlock => 1 | _ => 0 end.
Definition socket_left (pc : spc) (b : nat) : nat :=
  match pc with SDone => 0 | SAbort => 1 | SPoll => 3 * b + 2 | SWake => 3 * b + 3 end.
Definition monitor_left (pc : mpc) (n : nat) : nat :=
  match pc with MDone => 0 | MAbort => 1 | MNap _ => 2 | MRest _ => 3 | MScan i => 4 + (n - i) end.
Definition turns_left st : nat :=
  list_sum (worker_left <$> workers st) + timer_left (timer st)
  + socket_left (socket st) (backlog (world_of st)) + monitor_left (watch st) (count st).

Definition finished st : Prop :=
  Forall (fun pc => pc = WDone) (workers st) /\ timer st = TDone /\ socket st = SDone /\ watch st = MDone.

Definition same st st' : Prop :=
  workers st' = workers st /\ timer st' = timer st /\ socket st' = socket st /\ watch st' = watch st /\
  mutex st' = mutex st /\ count st' = count st.

(** Where a thread can be when a turn of it changes nothing. *)
Definition stopped st (t : tid) : Prop :=
  match t with
  | TWorker i => workers st !! i = Some WDone \/ workers st !! i = Some WWait \/
      (workers st !! i = Some WLock \/ workers st !! i = Some WWoken) /\ mutex st <> None
  | TTimer => timer st = TDone
  | TSocket => socket st = SDone
  | TMonitor => watch st = MDone
  end.

Definition calm st : Prop := inv st /\ quit st = true.

Lemma calm_asked st : calm st -> exiting (world_of st) \/ socket st = SDone.
Proof. intros [I Hq]. rewrite (v_quit _ I) in Hq. apply (v_asked _ I). by destruct (timer st). Qed.

Lemma left_insert ps i a b :
  ps !! i = Some a ->
  (list_sum (worker_left <$> <[i := b]> ps) + worker_left a = list_sum (worker_left <$> ps) + worker_left b)%nat.
Proof.
  revert i; induction ps as [|x ps IH]; intros [|i] Hi; try done; cbn in Hi; [change (<[O := b]> (x :: ps)) with (b :: ps)|change (<[S i := b]> (x :: ps)) with (x :: <[i := b]> ps)]; rewrite !fmap_cons, !list_sum_cons.
  - injection Hi as ->. lia.
  - specialize (IH i Hi). lia.
Qed.

Lemma left_woken ps ps' : Forall2 woken ps ps' -> (list_sum (worker_left <$> ps') <= list_sum (worker_left <$> ps))%nat.
Proof. induction 1 as [|a b ps ps' [->|[-> ->]] _ IH]; [done|rewrite !fmap_cons, !list_sum_cons; cbn [worker_left]; lia..]. Qed.

Lemma worker_progress i pc st st' :
  calm st -> workers st !! i = Some pc -> worker_step i pc st st' -> (turns_left st' < turns_left st)%nat.
Proof.
  intros [I Hq] Hi Hs. pose proof (calm_asked st (conj I Hq)) as Va.
  inversion Hs; subst; try congruence;
  match type of Hi with _ = Some ?a => match goal with |- context [set_worker i ?b _] => pose proof (left_insert _ i a b Hi) as El end end;
  cbn [worker_left] in El; unfold turns_left; cbn [set_worker set_world set_mutex set_sleep workers timer socket watch world_of count]; try lia.
  all: match goal with Hd : dispatch _ _ _ _ _ _ |- _ => pose proof (quiet_dispatch _ _ _ _ _ _ Hd) as Hd' end;
       destruct Va as [He| ->]; [destruct (Hd' He) as [_ ->]|cbn [socket_left]]; lia.
Qed.
Lemma timer_progress st st' : calm st -> timer_step (timer st) st st' -> (turns_left st' < turns_left st)%nat.
Proof.
  intros [I Hq] Hs. rewrite (v_quit _ I) in Hq. remember (timer st) as pc eqn:Ept.
  destruct Hs as [st w Ht|st Ht|st Ht|st st' Hw|st|st w Hg Ht|st|st Hg|st|st Hm|st|st|st]; try done;
    unfold turns_left; cbn [set_timer set_workers set_mutex workers timer socket watch world_of count]; rewrite <- Ept; cbn [timer_left].
  - pose proof (left_woken _ _ (wake_woken (workers st))). lia.
  - lia.
Qed.

Lemma socket_progress st st' :
  calm st -> total (world_of st) = 0 -> socket_step (socket st) st st' -> (turns_left st' < turns_left st)%nat.
Proof.
  intros C Ht Hs. pose proof (calm_asked _ C) as Va. remember (socket st) as pc eqn:Eps.
  destruct Hs as [st w Hp|st r w Hp Hr|st r w Hp Hr|st Ht'|st Ht'|st st' Hw]; try done.
  5: apply wakeup_frame in Hw as (ps & -> & HF%left_woken).
  all: unfold turns_left; cbn [set_socket set_world set_workers workers timer socket watch world_of count];
       rewrite <- Eps; cbn [socket_left]; try lia.
  destruct Va as [He|He]; [|done]. destruct (poll_reads _ _ _ He Hp) as [_ Hb]; [lia|]. specialize (Hb Hr). lia.
Qed.

Lemma monitor_progress st st' :
  calm st -> total (world_of st) = 0 -> monitor_step (watch st) st st' -> (turns_left st' < turns_left st)%nat.
Proof.
  intros C Ht Hs. pose proof (calm_asked _ C) as Va. remember (watch st) as pc eqn:Epm.
  destruct Hs as [st Ht'|st Ht'|st i w Hi Hc|st i Hi|st i Hi Ht'|st i Hi Ht'|st i Hi|st i]; try done;
    unfold turns_left; cbn [set_watch set_world workers timer socket watch world_of count];
    rewrite <- Epm; cbn [monitor_left]; try lia.
  pose proof (quiet_check _ _ _ Hc) as Hq. destruct Va as [He| ->]; [destruct (Hq He) as [_ ->]|cbn [socket_left]]; lia.
Qed.

(** A step makes progress, or its thread is stopped. *)
Lemma step_progress l st st' :
  calm st -> total (world_of st) = 0 -> step l st st' ->
  (turns_left st' < turns_left st)%nat \/
  turns_left st' = turns_left st /\ same st st' /\ forall t, l = Turn t -> stopped st t.
Proof.
  intros C Ht Hs. destruct Hs as [i pc st st' Hi Hs|st st' Hs|st st' Hs|st st' Hs|t st Hb|st w Ht' Hr|st]; try done.
  - left. by eapply worker_progress.
  - left. by eapply timer_progress.
  - left. by eapply socket_progress.
  - left. by eapply monitor_progress.
  - right. split; [done|]. split; [done|]. intros ? [= <-].
    destruct Hb as [st i Hi Hm|st i Hi Hm|st i Hi|st i Hi|st Hp Hm|st Hp|st Hp He|st Hp|st Hp]; cbn; auto.
    + destruct C as [I Hq]. by rewrite (v_quit _ I), Hp in Hq.
    + destruct (calm_asked _ C); [done|congruence].
  - right. done.
Qed.

Lemma step_quit l st st' : calm st -> step l st st' -> calm st'.
Proof.
  intros [I Hq] Hs. split; [by eapply step_inv|].
  destruct Hs as [i pc st st' Hi Hs|st st' Hs|st st' Hs|st st' Hs|t st Hb|st w Ht Hr|st]; try done;
    destruct Hs; try done; match goal with Hw : wakeup _ _ _ |- _ => apply wakeup_frame in Hw as (ps & -> & _) end; done.
Qed.

Lemma same_stopped st st' t : same st st' -> stopped st' t -> stopped st t.
Proof. intros (Ew & Et & Es & Em & Ex & Ec). destruct t; cbn; rewrite ?Ew, ?Et, ?Es, ?Em, ?Ex; done. Qed.

Definition quiet st : Prop := total (world_of st) = 0.

Lemma step_count l st st' : step l st st' -> count st' = count st.
Proof.
  intros Hs. destruct Hs as [i pc st st' Hi Hs|st st' Hs|st st' Hs|st st' Hs|t st Hb|st w Ht Hr|st]; try done;
    destruct Hs; try done; match goal with Hw : wakeup _ _ _ |- _ => apply wakeup_frame in Hw as (ps & -> & _) end; done.
Qed.

Lemma run_progress ls st st' :
  calm st -> run quiet ls st st' ->
  calm st' /\ count st' = count st /\
  ((turns_left st' < turns_left st)%nat \/
   turns_left st' = turns_left st /\ forall t, Turn t ∈ ls -> stopped st t).
Proof.
  intros C Hr. induction Hr as [st|l ls st st1 st2 Ht Hs Hr IH].
  - split; [done|]. split; [done|]. right. split; [done|]. intros t Hin. by apply not_elem_of_nil in Hin.
  - destruct (IH (step_quit _ _ _ C Hs)) as (C2 & Ec & Hp). split; [done|].
    split; [by rewrite Ec, (step_count _ _ _ Hs)|].
    destruct (step_progress _ _ _ C Ht Hs) as [Hlt|(Eq & Hsm & Hst)].
    + left. destruct Hp as [|[-> _]]; lia.
    + destruct Hp as [Hlt|[E2 Hall]]; [left; lia|]. right. split; [lia|]. intros t [E|Hin]%elem_of_cons.
      * by apply Hst.
      * by eapply same_stopped, Hall.
Qed.

(** Every thread has a turn. *)
Definition covers (n : nat) (ls : list label) : Prop :=
  (forall i, (i < n)%nat -> Turn (TWorker i) ∈ ls) /\ Turn TTimer ∈ ls /\ Turn TSocket ∈ ls /\ Turn TMonitor ∈ ls.

(** When no thread can move, none is left: there is no deadlock. *)
Lemma all_stopped st : calm st -> (forall i, (i < count st)%nat -> stopped st (TWorker i)) ->
  stopped st TTimer -> stopped st TSocket -> stopped st TMonitor -> finished st.
Proof.
  intros [I Hq] Hw Ht Hs Hm. split; [|done]. apply Forall_lookup. intros i pc Hi.
  assert (Hfree : mutex st = None).
  { destruct (mutex st) as [t|] eqn:Em; [|done]. apply (v_owner _ I) in Em. destruct t as [j| | |]; cbn in Em, Ht; try done.
    - destruct Em as (p & Hj & Hh). assert (Hlt : (j < count st)%nat) by (rewrite <- (v_count _ I); by eapply lookup_lt_Some).
      pose proof (Hw j Hlt) as Hst. cbn in Hst. rewrite Hj in Hst. naive_solver.
    - by rewrite Ht in Em. }
  assert (Hlt : (i < count st)%nat) by (rewrite <- (v_count _ I); by eapply lookup_lt_Some).
  pose proof (Hw i Hlt) as Hst. cbn in Hst, Ht. rewrite Hi, Hfree in Hst.
  destruct Hst as [[= ->]|[[= ->]|[_ Hf]]]; [done| |done].
  assert (Hin : WWait ∈ workers st) by (apply list_elem_of_lookup; by exists i).
  pose proof (v_wait _ I Hq Hin). congruence.
Qed.

Lemma left_none st : turns_left st = 0%nat -> timer_quit (timer st) = true -> finished st.
Proof.
  unfold turns_left. intros E Ht. split; [|destruct (timer st), (socket st), (watch st); cbn in E, Ht; try done; try lia].
  assert (Ew : list_sum (worker_left <$> workers st) = 0%nat) by lia. clear E.
  induction (workers st) as [|x ps IH]; [constructor|]. rewrite fmap_cons, list_sum_cons in Ew.
  constructor; [destruct x; cbn in Ew; try done; lia|]. apply IH. lia.
Qed.

Lemma finished_left st : finished st -> turns_left st = 0%nat.
Proof.
  intros (Hw & Ht & Hs & Hm). unfold turns_left. rewrite Ht, Hs, Hm. cbn [timer_left socket_left monitor_left].
  induction Hw as [|x ps -> _ IH]; [done|]. rewrite fmap_cons, list_sum_cons. cbn [worker_left]. lia.
Qed.

Lemma run_app P ls ls' st st' : run P (ls ++ ls') st st' -> exists st1, run P ls st st1 /\ run P ls' st1 st'.
Proof.
  revert st; induction ls as [|l ls IH]; intros st Hr; cbn in Hr.
  - exists st. split; [constructor|done].
  - inversion Hr as [|? ? ? s1 ? Hp Hs Hr']; subst. destruct (IH _ Hr') as (s2 & H1 & H2).
    exists s2. split; [by econstructor|done].
Qed.

Lemma rounds_end rs : forall st st',
  calm st -> Forall (covers (count st)) rs -> run quiet (concat rs) st st' ->
  (turns_left st <= length rs)%nat -> calm st' /\ finished st'.
Proof.
  induction rs as [|r rs IH]; intros st st' C HF Hr Hlen; cbn in Hr, Hlen.
  - inversion Hr; subst. split; [done|]. apply left_none; [lia|]. destruct C as [I Hq]. by rewrite <- (v_quit _ I).
  - apply Forall_cons in HF as [(H1 & H2 & H3 & H4) HF]. apply run_app in Hr as (s1 & Hr1 & Hr2).
    destruct (run_progress _ _ _ C Hr1) as (C1 & Ec & Hp). apply (IH s1); [done|by rewrite Ec|done|].
    destruct Hp as [Hlt|[-> Hst]]; [lia|].
    rewrite (finished_left st); [lia|]. apply all_stopped; auto.
Qed.

(** The sleep counter and the mutex of [struct monitor], in every reachable
    state of the threads: [sleep] is the number of workers between its increment
    and its decrement and never leaves 0..count; the mutex is held by a thread
    exactly when that thread is between lock and unlock (not while it waits on
    the condition), so no two threads are there at once. *)
Theorem sleep_counts_sleepers st :
  reachable st ->
  sleep st = asleep (workers st) /\ 0 <= sleep st <= Z.of_nat (count st) /\
  (forall t, mutex st = Some t <-> owns st t) /\ (forall t t', owns st t -> owns st t' -> t = t').
Proof.
  intros I%threads_inv. pose proof (asleep_bounds (workers st)) as Hb. rewrite <- (v_sleep _ I), (v_count _ I) in Hb.
  split; [apply I|]. split; [done|]. split; [apply I|]. intros t t' H1%(v_owner _ I) H2%(v_owner _ I). congruence.
Qed.

(** No sleeper is missed by [wakeup]: whenever a worker waits on the condition,
    the timer's call ([busy] = count - 1) signals one, and when all workers are
    asleep the socket thread's call ([busy] = 0) does too: exactly one waiting
    worker is woken and nothing else changes. *)
Theorem wakeup_wakes_a_sleeper st st' busy :
  reachable st -> WWait ∈ workers st ->
  busy = Z.of_nat (count st) - 1 \/ busy = 0 /\ Forall (fun pc => counted pc = true) (workers st) ->
  wakeup busy st st' ->
  exists i, workers st !! i = Some WWait /\ st' = set_worker i WWoken st.
Proof.
  intros I%threads_inv Hin Hb Hw. pose proof (asleep_some _ _ Hin eq_refl) as Hs. pose proof (v_sleep _ I) as Es.
  assert (Hge : Z.of_nat (count st) - busy <= sleep st).
  { destruct Hb as [->|[-> Hall]]; [lia|]. apply asleep_all in Hall. rewrite <- (v_count _ I). lia. }
  destruct Hw as [st ps _ Hsig|st Hlt]; [|lia]. inversion Hsig as [qs i Hi|qs Hn]; subst; [by exists i|done].
Qed.

(** C26.  Shutdown: once the timer thread has set [quit], and no service is left, the
    worker, timer, socket and monitor threads all end, however they are
    interleaved, whichever worker a signal wakes, and with spurious wakeups and
    hangups at any point: after as many rounds in which every thread has a turn as
    [turns_left] says (at most nine per worker, and three per request the socket
    thread has not read), [start] has joined them all. *)
Theorem all_threads_end st st' rs :
  reachable st -> quit st = true -> Forall (covers (count st)) rs ->
  run quiet (concat rs) st st' -> (turns_left st <= length rs)%nat ->
  finished st'.
Proof.
  intros I%threads_inv Hq HF Hr Hlen. by destruct (rounds_end rs st st' (conj I Hq) HF Hr Hlen).
Qed.
End Step.
