(* ===== verification/ThreadsNode.v ===== *)
(** * The threads on a node

    The node of the other files as the [Engine] of [Threads]: dispatching,
    polling, the timer tick, the monitor and the requests of services are the
    functions that model them, and the promises about the socket thread's pipe are
    theorems about [socket_server_poll]. *)

From S2P Require Import Prelude Mq Sched Timer Handle Text Module Server Delivery Command Lifecycle Dispatch Boot Socket SocketProofs SocketRun SocketNode Threads.
From Stdlib Require Import ZArith Lia.
From stdpp Require Import base numbers list gmap.
#[local] Open Scope Z_scope.
#[local] Open Scope list_scope.
Import Ring Global Sock.

(** ** The pipe of the socket thread *)

(** Twice the requests, and one while the pipe is not looked at. *)
Definition unread (ss : socket_server) : nat := 2 * length (pipe ss) + (if checkctrl ss then 0 else 1).

Lemma dispatch_event_pipe e rest ss x ss' :
  dispatch_event e rest ss = Ok (x, ss') -> pipe ss' = pipe ss /\ checkctrl ss' = checkctrl ss.
Proof.
  unfold dispatch_event, unless_none. intros H. cbv zeta in H.
  assert (Hf : forall s, frame (set_ev rest ss) s -> pipe s = pipe ss /\ checkctrl s = checkctrl ss).
  { intros s [Hp _ Hc _]. done. }
  unroll; try done;
  repeat match goal with
  | E : report_accept _ _ = _ |- _ => apply report_accept_frame in E
  | E : report_connect _ _ = _ |- _ => apply report_connect_frame in E
  | E : forward_message_tcp _ _ = _ |- _ => apply forward_tcp_frame in E
  | E : forward_message_udp _ _ = _ |- _ => apply forward_udp_frame in E
  | E : send_buffer _ _ = _ |- _ => apply send_buffer_frame in E
  end; repeat match goal with |- context [if ?b then _ else _] => destruct b end;
  cbn [set_ev pipe checkctrl]; by apply Hf.
Qed.

Lemma poll_turn_exit ss x w ss' :
  Exit ∈ pipe ss -> poll_turn ss = Ok (x, w, ss') ->
  (exists m, x = Return R_EXIT m) \/ Exit ∈ pipe ss' /\ (unread ss' <= unread ss)%nat /\ (w = true -> (unread ss' < unread ss)%nat).
Proof.
  intros Hin. unfold poll_turn. destruct (pipe ss) as [|r rest] eqn:Ep; [by apply not_elem_of_nil in Hin|].
  destruct (checkctrl ss) eqn:Ec.
  - intros Hs. unroll.
    all: assert (Hr : r = Exit \/ Exit ∈ rest) by (apply elem_of_cons in Hin as [<-|]; auto).
    all: destruct Hr as [->|Hr]; [match goal with E : ctrl_cmd _ _ = _ |- _ => cbn in E; injection E as <- <- <- end; try done; left; by eexists|].
    all: right; match goal with E : ctrl_cmd _ _ = _ |- _ => apply ctrl_cmd_frame in E as [Hp _ Hc _] end; cbn [set_pipe pipe checkctrl] in Hp, Hc.
    all: unfold unread, clear_closed_event; repeat case_bool_decide; cbn [set_ev pipe checkctrl]; rewrite Hp, Hc, Ec, Ep; cbn [length]; (split_and!; [done|lia|done]).
  - intros Hs. right. cbv zeta in Hs. cbn [ev set_check] in Hs.
    assert (Hgo : pipe ss' = pipe ss /\ checkctrl ss' = w).
    { unroll; repeat match goal with
      | E : dispatch_event _ _ _ = _ |- _ => apply dispatch_event_pipe in E as [-> ->]
      | E : sp_wait _ = _ |- _ => apply sp_wait_frame in E as [[Hp _ _ _] _]
      end; cbn [set_check pipe checkctrl] in *; done. }
    destruct Hgo as [Hp Hc]. unfold unread. rewrite Hp, Hc, Ec, Ep. split; [done|]. cbn [length]. destruct w; split; try lia; done.
Qed.

(** A poll with the request to exit in the pipe reads it, or leaves it there; if it
    has waited it has come closer to it. *)
Lemma poll_exit ss t m more ss' :
  Exit ∈ pipe ss -> socket_server_poll ss = Ok (t, m, more, ss') -> t <> R_EXIT ->
  Exit ∈ pipe ss' /\ (more = false -> (unread ss' < unread ss)%nat).
Proof.
  unfold socket_server_poll. generalize (S (poll_work ss)) as fuel. intros fuel Hin Hl Ht.
  assert (Hg : forall b, Exit ∈ pipe ss -> poll_loop fuel b ss = Ok (t, m, more, ss') ->
    Exit ∈ pipe ss' /\ (unread ss' <= unread ss)%nat /\ (b = true -> more = false -> (unread ss' < unread ss)%nat)).
  { clear Hin Hl. revert ss. induction fuel as [|fuel IH]; intros ss b Hin Hl; [done|]. cbn [poll_loop] in Hl.
    destruct (poll_turn ss) as [[[x w] s]|] eqn:E; [|done]. rewrite bind_ret in Hl.
    destruct (poll_turn_exit _ _ _ _ Hin E) as [[m' ->]|(Hin' & Hle & Hlt)]; [by injection Hl as <- _ _ _|].
    destruct x as [t' m'|].
    - injection Hl as <- <- <- <-. split; [done|]. split; [done|]. intros -> Hw. apply Hlt. by destruct w.
    - destruct (IH s (b && negb w) Hin' Hl) as (H1 & H2 & H3). split; [done|]. split; [lia|].
      intros -> Hm. destruct w; [specialize (Hlt eq_refl); lia|]. specialize (H3 eq_refl Hm). lia. }
  destruct (Hg true Hin Hl) as (H1 & _ & H3). auto.
Qed.

(** The calls of the services only add to the pipe. *)
#[local] Opaque reserve_id.
Lemma do_call_pipe c ss r ss' : do_call c ss = Ok (r, ss') -> exists l, pipe ss' = pipe ss ++ l.
Proof.
  assert (Hf : forall s, frame ss s -> exists l, pipe s = pipe ss ++ l).
  { intros s [Hp _ _ _]. exists []. by rewrite app_nil_r. }
  assert (Hq : forall s q, frame ss s -> exists l, pipe (send_request q s) = pipe ss ++ l).
  { intros s q [Hp _ _ _]. exists [q]. cbn. by rewrite Hp. }
  destruct c as [op a po|op|op f|op nm|i bf n|i bf n|i a bf n|i|op i []|op i|i|]; cbn [do_call]; intros H;
    unfold socket_server_connect, open_request, socket_server_listen, do_listen, socket_server_bind, socket_server_udp,
      socket_server_send, socket_server_send_lowpriority, send_to, socket_server_udp_send, socket_server_udp_connect, free_buffer in H;
    cbv zeta in H; unroll; repeat match goal with
  | E : sys_int _ = _ |- _ => apply sys_int_frame in E as [E _]
  | E : sys_address _ = _ |- _ => apply sys_address_frame in E as [E _]
  | E : do_bind _ = _ |- _ => apply do_bind_frame in E
  | E : reserve_id _ = _ |- _ => apply reserve_id_frame in E
  end; try (apply Hq; solve [frames]); try (apply Hf; solve [frames]).
Qed.

(** ** The engine *)

(** The node, the socket server and the monitors [m->m]. *)
Record sys := Sys { sy_world : world; sy_monitors : list skynet_monitor }.

Definition set_node (n : node) (s : sys) : sys := Sys (World n (w_ss (sy_world s))) (sy_monitors s).
Definition set_server (ss : socket_server) (s : sys) : sys := Sys (World (w_node (sy_world s)) ss) (sy_monitors s).
Definition set_monitor (i : nat) (sm : skynet_monitor) (s : sys) : sys := Sys (sy_world s) (<[i := sm]> (sy_monitors s)).

Section NodeEngine.
Variable strerror : errno -> cstr.
Variable callback : Z -> loc -> Z -> Z -> Z -> option loc -> Z -> node -> outcome (Z * node).

#[export] Instance node_engine : Engine sys := {
  total s := g_total (w_node (sy_world s));
  dispatch i q weight s q' s' := exists sm sm' times n,
    sy_monitors s !! i = Some sm /\
    skynet_context_message_dispatch callback times sm q weight (w_node (sy_world s)) = Ok (q', sm', n) /\
    s' = set_monitor i sm' (set_node n s);
  poll s r s' := exists w, skynet_socket_poll strerror (sy_world s) = Ok (r, w) /\ s' = Sys w (sy_monitors s);
  tick s s' := exists cp n, updatetime cp (w_node (sy_world s)) = Ok n /\ s' = set_node n s;
  hup s s' := exists n, signal_hup (w_node (sy_world s)) = Ok n /\ s' = set_node n s;
  check i s s' := exists sm sm' n, sy_monitors s !! i = Some sm /\
    skynet_monitor_check sm (w_node (sy_world s)) = Ok (sm', n) /\ s' = set_monitor i sm' (set_node n s);
  ask_exit s := Sys (skynet_socket_exit (sy_world s)) (sy_monitors s);
  request s s' := exists c r ss, do_call c (w_ss (sy_world s)) = Ok (r, ss) /\ s' = set_server ss s;
  backlog s := unread (w_ss (sy_world s));
  exiting s := Exit ∈ pipe (w_ss (sy_world s))
}.

#[export] Instance node_engine_laws : EngineLaws sys.
Proof.
  split; cbn.
  - intros s. split; [|done]. apply elem_of_app. right. by left.
  - intros s r s' Hin (w & Hp & ->) Hr. cbn. destruct (poll_reported _ _ _ _ Hp) as (t & m & more & ss & E & -> & Ht & Hm).
    destruct (poll_exit _ _ _ _ _ Hin E) as [Hin' Hlt]; auto.
  - intros i q wt s q' s' (sm & sm' & tm & n & _ & _ & ->) Hin. done.
  - by intros s s' (cp & n & _ & ->).
  - by intros s s' (n & _ & ->).
  - by intros i s s' (sm & sm' & n & _ & _ & ->).
  - intros s s' (c & r & ss & Hc & ->) Hin. cbn. destruct (do_call_pipe _ _ _ _ Hc) as [l ->].
    apply elem_of_app. by left.
Qed.
End NodeEngine.

(** ** A node with one worker and no service *)

#[local] Instance empty_engine : Engine sys := node_engine (fun _ => []) noting.
#[local] Instance empty_laws : EngineLaws sys := node_engine_laws (fun _ => []) noting.

Definition empty_sys : sys := Sys (World node0 (fresh_server [])) [skynet_monitor_new].

Lemma empty_dispatch i q' : i = 0%nat -> q' = None ->
  dispatch i None (weight_of i) empty_sys q' (set_monitor 0 skynet_monitor_new (set_node (with_mq (mq node0) node0) empty_sys)).
Proof.
  intros -> ->. exists skynet_monitor_new, skynet_monitor_new, (0, 0), (with_mq (mq node0) node0).
  split; [reflexivity|]. split; [|reflexivity]. unfold skynet_context_message_dispatch.
  assert (skynet_globalmq_pop (mq (w_node (sy_world empty_sys))) = Ok (None, mq node0)) as -> by reflexivity.
  reflexivity.
Qed.

(** The worker finds no queue and goes to sleep. *)
Lemma asleep_reachable : exists st : threads sys, reachable st /\ workers st = [WWait] /\ count st = 1%nat /\ sleep st = 1.
Proof.
  eexists. split; [|split; [|split]].
  - eapply reach_step; [eapply reach_step; [eapply reach_step; [eapply reach_step; [eapply reach_step; [apply (reach_start 1 empty_sys)|]|]|]|]|].
    + eapply (step_worker 0); [reflexivity|]. by apply w_loop.
    + eapply (step_worker 0); [reflexivity|]. apply w_idle. by apply empty_dispatch.
    + eapply (step_worker 0); [reflexivity|]. by apply w_lock.
    + eapply (step_worker 0); [reflexivity|]. apply w_inc.
    + eapply (step_worker 0); [reflexivity|]. by apply w_wait.
  - reflexivity.
  - reflexivity.
  - reflexivity.
Qed.

(** The timer thread has seen that no service is left. *)
Definition stopping : threads sys :=
  Threads 1 0 true (Some TTimer) false [WTest None] TBroadcast SPoll MAbort (ask_exit empty_sys).
Definition ended : threads sys := Threads 1 0 true None false [WDone] TDone SDone MDone empty_sys.

Lemma stopping_reachable : reachable stopping.
Proof.
  assert (H1 : step (Turn TTimer) (start 1 empty_sys) (set_timer TAbort (start 1 empty_sys))).
  { apply step_timer. apply (t_update (start 1 empty_sys) empty_sys). exists 0, node0. split; reflexivity. }
  eapply (reach_step (Turn TTimer) (set_timer TQuit (set_mutex (Some TTimer) (set_world (ask_exit empty_sys) (start 1 empty_sys))))).
  - eapply (reach_step (Turn TTimer) (set_timer TLock (set_world (ask_exit empty_sys) (start 1 empty_sys)))).
    + eapply (reach_step (Turn TTimer) (set_timer TExit (start 1 empty_sys))).
      * eapply (reach_step (Turn TTimer) (set_timer TAbort (start 1 empty_sys))).
        -- eapply reach_step; [apply (reach_start 1 empty_sys)|exact H1].
        -- apply step_timer. apply (t_abort (set_timer TAbort (start 1 empty_sys))). reflexivity.
      * apply step_timer. apply (t_exit (set_timer TExit (start 1 empty_sys))).
    + apply step_timer. apply (t_lock (set_timer TLock (set_world (ask_exit empty_sys) (start 1 empty_sys)))). reflexivity.
  - apply step_timer. apply (t_quit (set_timer TQuit (set_mutex (Some TTimer) (set_world (ask_exit empty_sys) (start 1 empty_sys))))).
Qed.

Definition round : list label := [Turn (TWorker 0); Turn TTimer; Turn TSocket; Turn TMonitor].

Lemma round_covers : covers 1 round.
Proof. split; [|set_solver]. intros [|i] Hi; [set_solver|lia]. Qed.

Lemma idle_rounds n : run quiet (concat (replicate n round)) ended ended.
Proof.
  induction n as [|n IH]; [constructor|]. cbn [replicate concat round app].
  repeat (eapply run_cons; [reflexivity|apply step_blocked; by constructor|]). exact IH.
Qed.

Lemma stopping_run : run quiet (concat (replicate 12 round)) stopping ended.
Proof.
  change (concat (replicate 12 round)) with (round ++ round ++ concat (replicate 10 round)). cbn [round app].
  assert (Hp : poll (ask_exit empty_sys) 0 empty_sys) by (eexists; split; reflexivity).
  eapply run_cons; [reflexivity|eapply (step_worker 0); [reflexivity|by apply w_quit]|].
  eapply run_cons; [reflexivity|apply step_timer, t_broadcast|].
  eapply run_cons; [reflexivity|apply step_socket; eapply s_exit; exact Hp|].
  eapply run_cons; [reflexivity|apply step_monitor, m_abort; reflexivity|].
  eapply run_cons; [reflexivity|apply step_blocked; by constructor|].
  eapply run_cons; [reflexivity|apply step_timer, t_unlock|].
  do 2 (eapply run_cons; [reflexivity|apply step_blocked; by constructor|]). exact (idle_rounds 10).
Qed.

Lemma sleep_counts_sleepers_witness : exists st : threads sys,
  workers st = [WWait] /\ sleep st = 1 /\ ~ owns st (TWorker 0) /\ 0 <= sleep st <= Z.of_nat (count st).
Proof.
  destruct asleep_reachable as (st & R & Ew & Ec & E1). exists st.
  destruct (sleep_counts_sleepers st R) as (Es & Hb & Ho & _). split; [exact Ew|]. split; [exact E1|].
  split; [|exact Hb]. cbn. rewrite Ew. cbn. intros (pc & [= <-] & Hh). discriminate Hh.
Defined.

Lemma wakeup_wakes_a_sleeper_witness : exists st : threads sys, exists i,
  wakeup 0 st (set_worker 0 WWoken st) /\ workers st !! i = Some WWait /\ set_worker 0 WWoken st = set_worker i WWoken st.
Proof.
  destruct asleep_reachable as (st & R & Ew & Ec & E1). exists st.
  assert (Hw : wakeup 0 st (set_worker 0 WWoken st)).
  { apply (wakeup_signal 0 st (<[0%nat := WWoken]> (workers st))); [rewrite Ec, E1; lia|].
    apply signal_one. by rewrite Ew. }
  destruct (wakeup_wakes_a_sleeper st (set_worker 0 WWoken st) 0 R) as (i & Hi & He).
  - rewrite Ew. by left.
  - left. by rewrite Ec.
  - exact Hw.
  - exists i. split; [exact Hw|]. split; [exact Hi|exact He].
Defined.

Lemma all_threads_end_witness : quit stopping = true /\ turns_left stopping = 12%nat /\ finished ended.
Proof.
  split; [reflexivity|]. split; [vm_compute; reflexivity|].
  apply (all_threads_end stopping ended (replicate 12 round) stopping_reachable eq_refl).
  - apply Forall_replicate, round_covers.
  - exact stopping_run.
  - apply Nat.leb_le. vm_compute. reflexivity.
Defined.
