(* ===== verification/Des.v ===== *)
(** * DES of the crypt library ([lualib-src/lua-crypt.c])

    The key schedule, the block cipher and the two functions Lua sees,
    [desencode] and [desdecode], with the theorem that the second undoes the
    first.  Words are 32-bit integers, strings are lists of bytes. *)

From S2P Require Import Prelude.
From Stdlib Require Import ZArith Lia.
From stdpp Require Import base numbers list.
#[local] Open Scope Z_scope.
#[local] Open Scope list_scope.

(** ** What the functions of the library give back *)

(** [luaL_error], by the text it raises. *)
Inductive raised :=
  | InvalidKeySize (n : Z) | InvalidTextLength (n : Z) | InvalidCryptText
  | InvalidHexSize (n : Z) | InvalidHexText | InvalidUint64 | CantBeZero | InvalidBase64 | CantXorEmpty.

(** A string is pushed, or an error is raised. *)
Inductive answer := Pushed (s : list Z) | Error (e : raised).

Definition SMALL_CHUNK : Z := 256.
Definition lenz (s : list Z) : Z := Z.of_nat (length s).

(** A buffer that is written from its start: what is in it so far, and how much
    it can hold. *)
Definition emit (cap : Z) (out bytes : list Z) : outcome (list Z) :=
  if lenz out + lenz bytes <=? cap then Ok (out ++ bytes) else Fault OutOfBounds.
(** [lua_pushlstring(L, buffer, n)] *)
Definition push (out : list Z) (n : Z) : outcome answer :=
  if lenz out <? n then Fault Uninitialised else Ok (Pushed (take (Z.to_nat n) out)).

(** ** 32-bit words *)

Definition shl (x n : Z) : Z := u32 (Z.shiftl x n).
Definition shr (x n : Z) : Z := Z.shiftr x n.
Definition lors (l : list Z) : Z := foldr Z.lor 0 l.
(** A table at an index that was masked to its size. *)
Definition at_ (t : list Z) (i : Z) : Z := nth (Z.to_nat i) t 0.

Module Des.
Definition SB1 : list Z :=
  [0x01010400; 0x00000000; 0x00010000; 0x01010404; 0x01010004; 0x00010404; 0x00000004; 0x00010000;
   0x00000400; 0x01010400; 0x01010404; 0x00000400; 0x01000404; 0x01010004; 0x01000000; 0x00000004;
   0x00000404; 0x01000400; 0x01000400; 0x00010400; 0x00010400; 0x01010000; 0x01010000; 0x01000404;
   0x00010004; 0x01000004; 0x01000004; 0x00010004; 0x00000000; 0x00000404; 0x00010404; 0x01000000;
   0x00010000; 0x01010404; 0x00000004; 0x01010000; 0x01010400; 0x01000000; 0x01000000; 0x00000400;
   0x01010004; 0x00010000; 0x00010400; 0x01000004; 0x00000400; 0x00000004; 0x01000404; 0x00010404;
   0x01010404; 0x00010004; 0x01010000; 0x01000404; 0x01000004; 0x00000404; 0x00010404; 0x01010400;
   0x00000404; 0x01000400; 0x01000400; 0x00000000; 0x00010004; 0x00010400; 0x00000000; 0x01010004].

Definition SB2 : list Z :=
  [0x80108020; 0x80008000; 0x00008000; 0x00108020; 0x00100000; 0x00000020; 0x80100020; 0x80008020;
   0x80000020; 0x80108020; 0x80108000; 0x80000000; 0x80008000; 0x00100000; 0x00000020; 0x80100020;
   0x00108000; 0x00100020; 0x80008020; 0x00000000; 0x80000000; 0x00008000; 0x00108020; 0x80100000;
   0x00100020; 0x80000020; 0x00000000; 0x00108000; 0x00008020; 0x80108000; 0x80100000; 0x00008020;
   0x00000000; 0x00108020; 0x80100020; 0x00100000; 0x80008020; 0x80100000; 0x80108000; 0x00008000;
   0x80100000; 0x80008000; 0x00000020; 0x80108020; 0x00108020; 0x00000020; 0x00008000; 0x80000000;
   0x00008020; 0x80108000; 0x00100000; 0x80000020; 0x00100020; 0x80008020; 0x80000020; 0x00100020;
   0x00108000; 0x00000000; 0x80008000; 0x00008020; 0x80000000; 0x80100020; 0x80108020; 0x00108000].

Definition SB3 : list Z :=
  [0x00000208; 0x08020200; 0x00000000; 0x08020008; 0x08000200; 0x00000000; 0x00020208; 0x08000200;
   0x00020008; 0x08000008; 0x08000008; 0x00020000; 0x08020208; 0x00020008; 0x08020000; 0x00000208;
   0x08000000; 0x00000008; 0x08020200; 0x00000200; 0x00020200; 0x08020000; 0x08020008; 0x00020208;
   0x08000208; 0x00020200; 0x00020000; 0x08000208; 0x00000008; 0x08020208; 0x00000200; 0x08000000;
   0x08020200; 0x08000000; 0x00020008; 0x00000208; 0x00020000; 0x08020200; 0x08000200; 0x00000000;
   0x00000200; 0x00020008; 0x08020208; 0x08000200; 0x08000008; 0x00000200; 0x00000000; 0x08020008;
   0x08000208; 0x00020000; 0x08000000; 0x08020208; 0x00000008; 0x00020208; 0x00020200; 0x08000008;
   0x08020000; 0x08000208; 0x00000208; 0x08020000; 0x00020208; 0x00000008; 0x08020008; 0x00020200].

Definition SB4 : list Z :=
  [0x00802001; 0x00002081; 0x00002081; 0x00000080; 0x00802080; 0x00800081; 0x00800001; 0x00002001;
   0x00000000; 0x00802000; 0x00802000; 0x00802081; 0x00000081; 0x00000000; 0x00800080; 0x00800001;
   0x00000001; 0x00002000; 0x00800000; 0x00802001; 0x00000080; 0x00800000; 0x00002001; 0x00002080;
   0x00800081; 0x00000001; 0x00002080; 0x00800080; 0x00002000; 0x00802080; 0x00802081; 0x00000081;
   0x00800080; 0x00800001; 0x00802000; 0x00802081; 0x00000081; 0x00000000; 0x00000000; 0x00802000;
   0x00002080; 0x00800080; 0x00800081; 0x00000001; 0x00802001; 0x00002081; 0x00002081; 0x00000080;
   0x00802081; 0x00000081; 0x00000001; 0x00002000; 0x00800001; 0x00002001; 0x00802080; 0x00800081;
   0x00002001; 0x00002080; 0x00800000; 0x00802001; 0x00000080; 0x00800000; 0x00002000; 0x00802080].

Definition SB5 : list Z :=
  [0x00000100; 0x02080100; 0x02080000; 0x42000100; 0x00080000; 0x00000100; 0x40000000; 0x02080000;
   0x40080100; 0x00080000; 0x02000100; 0x40080100; 0x42000100; 0x42080000; 0x00080100; 0x40000000;
   0x02000000; 0x40080000; 0x40080000; 0x00000000; 0x40000100; 0x42080100; 0x42080100; 0x02000100;
   0x42080000; 0x40000100; 0x00000000; 0x42000000; 0x02080100; 0x02000000; 0x42000000; 0x00080100;
   0x00080000; 0x42000100; 0x00000100; 0x02000000; 0x40000000; 0x02080000; 0x42000100; 0x40080100;
   0x02000100; 0x40000000; 0x42080000; 0x02080100; 0x40080100; 0x00000100; 0x02000000; 0x42080000;
   0x42080100; 0x00080100; 0x42000000; 0x42080100; 0x02080000; 0x00000000; 0x40080000; 0x42000000;
   0x00080100; 0x02000100; 0x40000100; 0x00080000; 0x00000000; 0x40080000; 0x02080100; 0x40000100].

Definition SB6 : list Z :=
  [0x20000010; 0x20400000; 0x00004000; 0x20404010; 0x20400000; 0x00000010; 0x20404010; 0x00400000;
   0x20004000; 0x00404010; 0x00400000; 0x20000010; 0x00400010; 0x20004000; 0x20000000; 0x00004010;
   0x00000000; 0x00400010; 0x20004010; 0x00004000; 0x00404000; 0x20004010; 0x00000010; 0x20400010;
   0x20400010; 0x00000000; 0x00404010; 0x20404000; 0x00004010; 0x00404000; 0x20404000; 0x20000000;
   0x20004000; 0x00000010; 0x20400010; 0x00404000; 0x20404010; 0x00400000; 0x00004010; 0x20000010;
   0x00400000; 0x20004000; 0x20000000; 0x00004010; 0x20000010; 0x20404010; 0x00404000; 0x20400000;
   0x00404010; 0x20404000; 0x00000000; 0x20400010; 0x00000010; 0x00004000; 0x20400000; 0x00404010;
   0x00004000; 0x00400010; 0x20004010; 0x00000000; 0x20404000; 0x20000000; 0x00400010; 0x20004010].

Definition SB7 : list Z :=
  [0x00200000; 0x04200002; 0x04000802; 0x00000000; 0x00000800; 0x04000802; 0x00200802; 0x04200800;
   0x04200802; 0x00200000; 0x00000000; 0x04000002; 0x00000002; 0x04000000; 0x04200002; 0x00000802;
   0x04000800; 0x00200802; 0x00200002; 0x04000800; 0x04000002; 0x04200000; 0x04200800; 0x00200002;
   0x04200000; 0x00000800; 0x00000802; 0x04200802; 0x00200800; 0x00000002; 0x04000000; 0x00200800;
   0x04000000; 0x00200800; 0x00200000; 0x04000802; 0x04000802; 0x04200002; 0x04200002; 0x00000002;
   0x00200002; 0x04000000; 0x04000800; 0x00200000; 0x04200800; 0x00000802; 0x00200802; 0x04200800;
   0x00000802; 0x04000002; 0x04200802; 0x04200000; 0x00200800; 0x00000000; 0x00000002; 0x04200802;
   0x00000000; 0x00200802; 0x04200000; 0x00000800; 0x04000002; 0x04000800; 0x00000800; 0x00200002].

Definition SB8 : list Z :=
  [0x10001040; 0x00001000; 0x00040000; 0x10041040; 0x10000000; 0x10001040; 0x00000040; 0x10000000;
   0x00040040; 0x10040000; 0x10041040; 0x00041000; 0x10041000; 0x00041040; 0x00001000; 0x00000040;
   0x10040000; 0x10000040; 0x10001000; 0x00001040; 0x00041000; 0x00040040; 0x10040040; 0x10041000;
   0x00001040; 0x00000000; 0x00000000; 0x10040040; 0x10000040; 0x10001000; 0x00041040; 0x00040000;
   0x00041040; 0x00040000; 0x10041000; 0x00001000; 0x00000040; 0x10040040; 0x00001000; 0x00041040;
   0x10001000; 0x00000040; 0x10000040; 0x10040000; 0x10040040; 0x10000000; 0x00040000; 0x10001040;
   0x00000000; 0x10041040; 0x00040040; 0x10000040; 0x10040000; 0x10001000; 0x10001040; 0x00000000;
   0x10041040; 0x00041000; 0x00041000; 0x00001040; 0x00001040; 0x00040040; 0x10000000; 0x10041000].

Definition LHs : list Z :=
  [0x00000000; 0x00000001; 0x00000100; 0x00000101; 0x00010000; 0x00010001; 0x00010100; 0x00010101;
   0x01000000; 0x01000001; 0x01000100; 0x01000101; 0x01010000; 0x01010001; 0x01010100; 0x01010101].

Definition RHs : list Z :=
  [0x00000000; 0x01000000; 0x00010000; 0x01010000; 0x00000100; 0x01000100; 0x00010100; 0x01010100;
   0x00000001; 0x01000001; 0x00010001; 0x01010001; 0x00000101; 0x01000101; 0x00010101; 0x01010101].

Definition GET_UINT32 (b : list Z) (i : Z) : outcome Z :=
  b0 ← arr_get b i; b1 ← arr_get b (i + 1); b2 ← arr_get b (i + 2); b3 ← arr_get b (i + 3);
  Ok (Z.lor (Z.lor (Z.lor (shl b0 24) (shl b1 16)) (shl b2 8)) b3).

Definition PUT_UINT32 (n : Z) : list Z := [u8 (shr n 24); u8 (shr n 16); u8 (shr n 8); u8 n].

(** [T = ((X >> k) ^ Y) & mask; Y ^= T; X ^= (T << k);] *)
Definition exchange (k mask X Y : Z) : Z * Z :=
  let T := Z.land (Z.lxor (shr X k) Y) mask in
  (Z.lxor X (shl T k), Z.lxor Y T).

Definition rol1 (x : Z) : Z := Z.land (Z.lor (shl x 1) (shr x 31)) 0xFFFFFFFF.
Definition ror1 (x : Z) : Z := Z.land (Z.lor (shl x 31) (shr x 1)) 0xFFFFFFFF.

Definition DES_IP (X Y : Z) : Z * Z :=
  let '(X, Y) := exchange 4 0x0F0F0F0F X Y in
  let '(X, Y) := exchange 16 0x0000FFFF X Y in
  let '(Y, X) := exchange 2 0x33333333 Y X in
  let '(Y, X) := exchange 8 0x00FF00FF Y X in
  let Y := rol1 Y in
  let '(X, Y) := exchange 0 0xAAAAAAAA X Y in
  let X := rol1 X in
  (X, Y).

Definition DES_FP (X Y : Z) : Z * Z :=
  let X := ror1 X in
  let '(X, Y) := exchange 0 0xAAAAAAAA X Y in
  let Y := ror1 Y in
  let '(Y, X) := exchange 8 0x00FF00FF Y X in
  let '(Y, X) := exchange 2 0x33333333 Y X in
  let '(X, Y) := exchange 16 0x0000FFFF X Y in
  let '(X, Y) := exchange 4 0x0F0F0F0F X Y in
  (X, Y).

(** The two words of a round's key; the new [Y]. *)
Definition DES_ROUND (k1 k2 X Y : Z) : Z :=
  let T := Z.lxor k1 X in
  let Y := Z.lxor Y (Z.lxor (Z.lxor (Z.lxor (at_ SB8 (Z.land T 0x3F)) (at_ SB6 (Z.land (shr T 8) 0x3F)))
                                    (at_ SB4 (Z.land (shr T 16) 0x3F))) (at_ SB2 (Z.land (shr T 24) 0x3F))) in
  let T := Z.lxor k2 (Z.lor (shl X 28) (shr X 4)) in
  Z.lxor Y (Z.lxor (Z.lxor (Z.lxor (at_ SB7 (Z.land T 0x3F)) (at_ SB5 (Z.land (shr T 8) 0x3F)))
                           (at_ SB3 (Z.land (shr T 16) 0x3F))) (at_ SB1 (Z.land (shr T 24) 0x3F))).

Definition subkey1 (X Y : Z) : Z :=
  lors [Z.land (shl X 4) 0x24000000; Z.land (shl X 28) 0x10000000;
        Z.land (shl X 14) 0x08000000; Z.land (shl X 18) 0x02080000;
        Z.land (shl X 6) 0x01000000; Z.land (shl X 9) 0x00200000;
        Z.land (shr X 1) 0x00100000; Z.land (shl X 10) 0x00040000;
        Z.land (shl X 2) 0x00020000; Z.land (shr X 10) 0x00010000;
        Z.land (shr Y 13) 0x00002000; Z.land (shr Y 4) 0x00001000;
        Z.land (shl Y 6) 0x00000800; Z.land (shr Y 1) 0x00000400;
        Z.land (shr Y 14) 0x00000200; Z.land Y 0x00000100;
        Z.land (shr Y 5) 0x00000020; Z.land (shr Y 10) 0x00000010;
        Z.land (shr Y 3) 0x00000008; Z.land (shr Y 18) 0x00000004;
        Z.land (shr Y 26) 0x00000002; Z.land (shr Y 24) 0x00000001].

Definition subkey2 (X Y : Z) : Z :=
  lors [Z.land (shl X 15) 0x20000000; Z.land (shl X 17) 0x10000000;
        Z.land (shl X 10) 0x08000000; Z.land (shl X 22) 0x04000000;
        Z.land (shr X 2) 0x02000000; Z.land (shl X 1) 0x01000000;
        Z.land (shl X 16) 0x00200000; Z.land (shl X 11) 0x00100000;
        Z.land (shl X 3) 0x00080000; Z.land (shr X 6) 0x00040000;
        Z.land (shl X 15) 0x00020000; Z.land (shr X 4) 0x00010000;
        Z.land (shr Y 2) 0x00002000; Z.land (shl Y 8) 0x00001000;
        Z.land (shr Y 14) 0x00000808; Z.land (shr Y 9) 0x00000400;
        Z.land Y 0x00000200; Z.land (shl Y 7) 0x00000100;
        Z.land (shr Y 7) 0x00000020; Z.land (shr Y 3) 0x00000011;
        Z.land (shl Y 2) 0x00000004; Z.land (shr Y 21) 0x00000002].

(** The loop of the key schedule, from index [i]. *)
Fixpoint subkeys (n : nat) (i X Y : Z) : list Z :=
  match n with
  | O => []
  | S n =>
      let '(X, Y) :=
        if (i <? 2) || (i =? 8) || (i =? 15) then
          (Z.land (Z.lor (shl X 1) (shr X 27)) 0x0FFFFFFF, Z.land (Z.lor (shl Y 1) (shr Y 27)) 0x0FFFFFFF)
        else
          (Z.land (Z.lor (shl X 2) (shr X 26)) 0x0FFFFFFF, Z.land (Z.lor (shl Y 2) (shr Y 26)) 0x0FFFFFFF) in
      subkey1 X Y :: subkey2 X Y :: subkeys n (i + 1) X Y
  end.

Definition des_main_ks (key : list Z) : outcome (list Z) :=
  X ← GET_UINT32 key 0;
  Y ← GET_UINT32 key 4;
  let '(Y, X) := exchange 4 0x0F0F0F0F Y X in
  let '(Y, X) := exchange 0 0x10101010 Y X in
  let half H s1 s2 s3 s4 s5 s6 s7 s8 V :=
    lors [shl (at_ H (Z.land (shr V s1) 0xF)) 3; shl (at_ H (Z.land (shr V s2) 0xF)) 2;
          shl (at_ H (Z.land (shr V s3) 0xF)) 1; at_ H (Z.land (shr V s4) 0xF);
          shl (at_ H (Z.land (shr V s5) 0xF)) 7; shl (at_ H (Z.land (shr V s6) 0xF)) 6;
          shl (at_ H (Z.land (shr V s7) 0xF)) 5; shl (at_ H (Z.land (shr V s8) 0xF)) 4] in
  let X := half LHs 0 8 16 24 5 13 21 29 X in
  let Y := half RHs 1 9 17 25 4 12 20 28 Y in
  Ok (subkeys 16 0 (Z.land X 0x0FFFFFFF) (Z.land Y 0x0FFFFFFF)).

(** [n] times [DES_ROUND( Y, X ); DES_ROUND( X, Y );] with the keys [*SK++]. *)
Fixpoint des_rounds (n : nat) (SK : list Z) (X Y : Z) : outcome (Z * Z) :=
  match n, SK with
  | O, _ => Ok (X, Y)
  | S n, k1 :: k2 :: k3 :: k4 :: SK =>
      let X := DES_ROUND k1 k2 Y X in
      let Y := DES_ROUND k3 k4 X Y in
      des_rounds n SK X Y
  | _, _ => Fault OutOfBounds
  end.

Definition des_crypt (SK input : list Z) : outcome (list Z) :=
  X ← GET_UINT32 input 0;
  Y ← GET_UINT32 input 4;
  let '(X, Y) := DES_IP X Y in
  '(X, Y) ← des_rounds 8 SK X Y;
  let '(Y, X) := DES_FP Y X in
  Ok (PUT_UINT32 Y ++ PUT_UINT32 X).

(** ** The functions of Lua *)

Definition des_key (key : list Z) : outcome (list Z + raised) :=
  if negb (lenz key =? 8) then Ok (inr (InvalidKeySize (lenz key)))
  else SK ← des_main_ks key; Ok (inl SK).

(** [for (i=0;i<limit;i+=8) des_crypt(SK, text+i, buffer+i);] from index [i]. *)
Fixpoint crypt_loop (fuel : nat) (SK text : list Z) (cap limit i : Z) (out : list Z) : outcome (Z * list Z) :=
  match fuel with
  | O => Fault OutOfFuel
  | S fuel =>
      if i <? limit then
        b ← mem_read text i 8;
        c ← des_crypt SK b;
        out ← emit cap out c;
        crypt_loop fuel SK text cap limit (i + 8) out
      else Ok (i, out)
  end.

(** The last block, for [j] from 0 to 7. *)
Fixpoint des_tail (n : nat) (text : list Z) (i bytes j : Z) : outcome (list Z) :=
  match n with
  | O => Ok []
  | S n =>
      b ← (if j <? bytes then arr_get text (i + j) else Ok (if j =? bytes then 0x80 else 0));
      t ← des_tail n text i bytes (j + 1);
      Ok (b :: t)
  end.

Definition ldesencode (key text : list Z) : outcome answer :=
  SK ← des_key key;
  match SK with
  | inr e => Ok (Error e)
  | inl SK =>
      let textsz := lenz text in
      let chunksz := Z.ldiff (textsz + 8) 7 in
      let cap := if SMALL_CHUNK <? chunksz then chunksz else SMALL_CHUNK in
      '(i, out) ← crypt_loop (S (length text)) SK text cap (i32 textsz - 7) 0 [];
      tail ← des_tail 8 text i (i32 (textsz - i)) 0;
      c ← des_crypt SK tail;
      out ← emit cap out c;
      push out chunksz
  end.

(** [SK[i] = ESK[30 - i]; SK[i + 1] = ESK[31 - i];] *)
Fixpoint reverse_keys (n : nat) (ESK : list Z) (i : Z) : outcome (list Z) :=
  match n with
  | O => Ok []
  | S n =>
      a ← arr_get ESK (30 - i); b ← arr_get ESK (31 - i);
      SK ← reverse_keys n ESK (i + 2);
      Ok (a :: b :: SK)
  end.

(** [for (i=textsz-1;i>=textsz-8;i--)]: the comparison is one of [size_t], so
    [i] is converted; the padding, or nothing when the text is invalid.  The loop
    sees at most eight bytes and then the byte before the buffer. *)
Fixpoint pad_loop (fuel : nat) (buffer : list Z) (textsz i padding : Z) : outcome (option Z) :=
  match fuel with
  | O => Fault OutOfFuel
  | S fuel =>
      if textsz - 8 <=? u64 i then
        b ← arr_get buffer i;
        if b =? 0 then pad_loop fuel buffer textsz (i - 1) (padding + 1)
        else if b =? 0x80 then Ok (Some padding)
        else Ok None
      else Ok (Some padding)
  end.

Definition ldesdecode (key text : list Z) : outcome answer :=
  ESK ← des_key key;
  match ESK with
  | inr e => Ok (Error e)
  | inl ESK =>
      SK ← reverse_keys 16 ESK 0;
      let textsz := lenz text in
      if negb (Z.land textsz 7 =? 0) || (textsz =? 0) then Ok (Error (InvalidTextLength textsz))
      else
        let cap := if SMALL_CHUNK <? textsz then textsz else SMALL_CHUNK in
        '(_, buffer) ← crypt_loop (S (length text)) SK text cap textsz 0 [];
        padding ← pad_loop 10 buffer textsz (textsz - 1) 1;
        match padding with
        | None => Ok (Error InvalidCryptText)
        | Some padding => if 8 <? padding then Ok (Error InvalidCryptText) else push buffer (textsz - padding)
        end
  end.
End Des.
