(* ===== verification/DesProofs.v ===== *)
(** * DES: decoding undoes encoding

    The permutations are undone by each other, a round by itself, the rounds by
    the rounds with the keys reversed, and the padding by the search for it. *)

From S2P Require Import Prelude Des.
From Stdlib Require Import ZArith Lia.
From stdpp Require Import base numbers list.
#[local] Open Scope Z_scope.
#[local] Open Scope list_scope.
Import Des.

(** ** Words *)

Lemma word_shift x : is_u32 x <-> 0 <= x /\ Z.shiftr x 32 = 0.
Proof.
  unfold is_u32. rewrite Z.shiftr_div_pow2 by lia. split.
  - intros Hx. split; [lia|]. by apply Z.div_small.
  - intros [Hx Hd]. split; [done|]. apply Z.div_small_iff in Hd; lia.
Qed.

Lemma word_lxor a b : is_u32 a -> is_u32 b -> is_u32 (Z.lxor a b).
Proof.
  rewrite !word_shift. intros [Ha Ea] [Hb Eb]. split; [by apply Z.lxor_nonneg|]. by rewrite Z.shiftr_lxor, Ea, Eb.
Qed.

Lemma word_lor a b : is_u32 a -> is_u32 b -> is_u32 (Z.lor a b).
Proof.
  rewrite !word_shift. intros [Ha Ea] [Hb Eb]. split; [by apply Z.lor_nonneg|]. by rewrite Z.shiftr_lor, Ea, Eb.
Qed.

Lemma word_shl x n : is_u32 (shl x n).
Proof. apply u32_range. Qed.

Lemma word_shr x n : is_u32 x -> 0 <= n -> is_u32 (shr x n).
Proof.
  unfold is_u32, shr. intros Hx Hn. rewrite Z.shiftr_div_pow2 by done. assert (0 < 2 ^ n) by lia.
  split; [apply Z.div_pos; lia|]. eapply Z.le_lt_trans; [apply Z.div_le_upper_bound with (q := x)|]; nia.
Qed.

#[local] Hint Resolve word_lxor word_lor word_shl : core.

Lemma word_land a m : is_u32 m -> is_u32 (Z.land a m).
Proof.
  rewrite !word_shift. intros [Hm Em]. split; [apply Z.land_nonneg; by right|]. by rewrite Z.shiftr_land, Em, Z.land_0_r.
Qed.

Lemma word_id x : is_u32 x -> u32 x = x.
Proof. apply Z.mod_small. Qed.

(** ** The permutations *)

Lemma shl_masked a m k : 0 <= k -> is_u32 (Z.shiftl m k) -> shl (Z.land a m) k = Z.shiftl (Z.land a m) k.
Proof. intros Hk Hm. unfold shl. rewrite Z.shiftl_land. by apply word_id, word_land. Qed.

(** An exchange undoes itself. *)
Lemma exchange_twice k m X Y :
  0 <= k -> is_u32 (Z.shiftl m k) ->
  let '(X', Y') := exchange k m X Y in exchange k m X' Y' = (X, Y).
Proof.
  intros Hk Hm. unfold exchange. set (T := Z.land (Z.lxor (shr X k) Y) m).
  assert (E : Z.land (Z.lxor (shr (Z.lxor X (shl T k)) k) (Z.lxor Y T)) m = T).
  { unfold shr. rewrite Z.shiftr_lxor. unfold T at 1. rewrite shl_masked, Z.shiftr_shiftl_l, Z.sub_diag, Z.shiftl_0_r by done.
    fold T. rewrite <- (Z.lxor_assoc (Z.lxor _ T)), (Z.lxor_assoc _ T Y), (Z.lxor_comm T Y), <- Z.lxor_assoc, Z.lxor_assoc, Z.lxor_nilpotent, Z.lxor_0_r. done. }
  rewrite E. f_equal; by rewrite Z.lxor_assoc, Z.lxor_nilpotent, Z.lxor_0_r.
Qed.

Lemma exchange_words k m X Y :
  is_u32 m -> is_u32 X -> is_u32 Y -> is_u32 (exchange k m X Y).1 /\ is_u32 (exchange k m X Y).2.
Proof. intros Hm HX HY. cbn. split; apply word_lxor; auto using word_land. Qed.

Lemma rol1_eq x : is_u32 x -> rol1 x = x mod 2^31 * 2 + x / 2^31.
Proof.
  intros Hx. unfold rol1, shl, shr, u32. rewrite Z.shiftl_mul_pow2, Z.shiftr_div_pow2 by lia.
  change 0xFFFFFFFF with (2^32 - 1). change (2 ^ 32) with (2^31 * 2) at 1. change (2^1) with 2. rewrite Z.mul_mod_distr_r by lia.
  rewrite Z.lor_comm. change (x mod 2^31 * 2) with (x mod 2^31 * 2^1). rewrite (lor_disjoint (x / 2^31) _ 1).
  - rewrite land_mask by lia. unfold is_u32 in Hx. rewrite Z.mod_small; [lia|].
    pose proof (Z.mod_pos_bound x (2^31)). assert (x / 2^31 < 2) by (apply Z.div_lt_upper_bound; lia).
    assert (0 <= x / 2^31) by (apply Z.div_pos; lia). lia.
  - lia.
  - unfold is_u32 in Hx. split; [apply Z.div_pos; lia|apply Z.div_lt_upper_bound; lia].
Qed.

Lemma ror1_eq x : is_u32 x -> ror1 x = x mod 2 * 2^31 + x / 2.
Proof.
  intros Hx. unfold ror1, shl, shr, u32. rewrite Z.shiftl_mul_pow2, Z.shiftr_div_pow2 by lia.
  change 0xFFFFFFFF with (2^32 - 1). change (2 ^ 32) with (2 * 2^31) at 1. rewrite Z.mul_mod_distr_r by lia.
  rewrite Z.lor_comm, (lor_disjoint (x / 2^1) _ 31).
  - rewrite land_mask by lia. unfold is_u32 in Hx. change (2^1) with 2. rewrite Z.mod_small; [lia|].
    pose proof (Z.mod_pos_bound x 2). assert (x / 2 < 2^31) by (apply Z.div_lt_upper_bound; lia).
    assert (0 <= x / 2) by (apply Z.div_pos; lia). lia.
  - lia.
  - unfold is_u32 in Hx. split; [apply Z.div_pos; lia|apply Z.div_lt_upper_bound; lia].
Qed.

Lemma rol1_word x : is_u32 (rol1 x).
Proof. unfold rol1. by apply word_land. Qed.
Lemma ror1_word x : is_u32 (ror1 x).
Proof. unfold ror1. by apply word_land. Qed.

Lemma ror1_rol1 x : is_u32 x -> ror1 (rol1 x) = x.
Proof.
  intros Hx. rewrite ror1_eq by apply rol1_word. rewrite rol1_eq by done. unfold is_u32 in Hx.
  assert (0 <= x / 2^31 < 2) by (split; [apply Z.div_pos|apply Z.div_lt_upper_bound]; lia).
  rewrite (Z.add_comm (x mod 2^31 * 2)), Z.mod_add, (Z.mod_small (x / 2^31)) by lia.
  rewrite Z.div_add, (Z.div_small (x / 2^31)) by lia. pose proof (Z.div_mod x (2^31)). lia.
Qed.

Lemma rol1_ror1 x : is_u32 x -> rol1 (ror1 x) = x.
Proof.
  intros Hx. rewrite rol1_eq by apply ror1_word. rewrite ror1_eq by done. unfold is_u32 in Hx.
  assert (0 <= x / 2 < 2^31) by (split; [apply Z.div_pos|apply Z.div_lt_upper_bound]; lia).
  rewrite (Z.add_comm (x mod 2 * 2^31)), Z.mod_add, (Z.mod_small (x / 2)) by lia.
  rewrite Z.div_add, (Z.div_small (x / 2)) by lia. pose proof (Z.div_mod x 2). lia.
Qed.

(** One exchange: its result, that it is undone by the same exchange, and that it
    gives words. *)
Ltac exchanging :=
  match goal with |- context [exchange ?k ?m ?a ?b] =>
    let T := fresh "T" in let Wa := fresh "W" in let Wb := fresh "W" in let a' := fresh "v" in let b' := fresh "v" in
    assert (T := exchange_twice k m a b ltac:(lia) ltac:(done));
    destruct (exchange_words k m a b ltac:(done) ltac:(auto) ltac:(auto)) as [Wa Wb];
    destruct (exchange k m a b) as [a' b']; cbn [fst snd] in Wa, Wb
  end.
#[local] Hint Resolve rol1_word ror1_word : core.

(** The final permutation undoes the initial one, and the other way round. *)
Lemma FP_IP X Y : is_u32 X -> is_u32 Y -> let '(X', Y') := DES_IP X Y in DES_FP X' Y' = (X, Y).
Proof.
  intros HX HY. unfold DES_IP. do 5 exchanging. unfold DES_FP.
  rewrite ror1_rol1, T3, ror1_rol1, T2, T1, T0, T by done. done.
Qed.

Lemma IP_FP X Y : is_u32 X -> is_u32 Y -> let '(X', Y') := DES_FP X Y in DES_IP X' Y' = (X, Y).
Proof.
  intros HX HY. unfold DES_FP. do 5 exchanging. unfold DES_IP.
  rewrite T3, T2, T1, T0, rol1_ror1, T, rol1_ror1 by done. done.
Qed.

Lemma IP_words X Y : is_u32 X -> is_u32 Y -> is_u32 (DES_IP X Y).1 /\ is_u32 (DES_IP X Y).2.
Proof. intros HX HY. unfold DES_IP. do 5 exchanging. cbn. auto. Qed.
Lemma FP_words X Y : is_u32 X -> is_u32 Y -> is_u32 (DES_FP X Y).1 /\ is_u32 (DES_FP X Y).2.
Proof. intros HX HY. unfold DES_FP. do 5 exchanging. cbn. auto. Qed.

(** ** The rounds *)

Definition word_table (t : list Z) : bool := forallb (fun x => (0 <=? x) && (x <? 2^32)) t.

Lemma at_word t i : word_table t = true -> is_u32 (at_ t i).
Proof.
  intros HF. unfold at_. destruct (Nat.lt_ge_cases (Z.to_nat i) (length t)) as [Hi|Hi].
  - unfold word_table in HF. rewrite forallb_forall in HF. specialize (HF _ (nth_In t 0 Hi)). cbn in HF. unfold is_u32. lia.
  - rewrite nth_overflow by done. by unfold is_u32.
Qed.

(** What a round adds to the other half. *)
Definition feistel (k1 k2 X : Z) : Z := DES_ROUND k1 k2 X 0.

Lemma round_feistel k1 k2 X Y : DES_ROUND k1 k2 X Y = Z.lxor Y (feistel k1 k2 X).
Proof. unfold feistel, DES_ROUND. cbv zeta. rewrite Z.lxor_0_l, !Z.lxor_assoc. done. Qed.

Lemma feistel_word k1 k2 X : is_u32 (feistel k1 k2 X).
Proof.
  unfold feistel, DES_ROUND. cbv zeta. rewrite Z.lxor_0_l.
  repeat apply word_lxor; apply at_word; vm_compute; reflexivity.
Qed.

Lemma round_word k1 k2 X Y : is_u32 Y -> is_u32 (DES_ROUND k1 k2 X Y).
Proof. intros HY. rewrite round_feistel. apply word_lxor; [done|apply feistel_word]. Qed.

Lemma round_twice k1 k2 X Y : DES_ROUND k1 k2 X (DES_ROUND k1 k2 X Y) = Y.
Proof. by rewrite !round_feistel, Z.lxor_assoc, Z.lxor_nilpotent, Z.lxor_0_r. Qed.

(** The keys in the order of decryption: round by round from the last. *)
Fixpoint reversed (SK : list Z) : list Z :=
  match SK with a :: b :: SK => reversed SK ++ [a; b] | _ => [] end.

Lemma reversed_length n : forall SK, length SK = (2 * n)%nat -> length (reversed SK) = (2 * n)%nat.
Proof.
  induction n as [|n IH]; intros SK Hl; [by destruct SK|].
  destruct SK as [|a [|b SK]]; cbn in Hl; try lia. cbn [reversed]. rewrite length_app, IH by lia. cbn. lia.
Qed.

Lemma des_rounds_app n : forall SK SK' X Y,
  length SK = (4 * n)%nat -> forall m, des_rounds (n + m) (SK ++ SK') X Y = ('(X, Y) ← des_rounds n SK X Y; des_rounds m SK' X Y).
Proof.
  induction n as [|n IH]; intros SK SK' X Y Hl m; [by destruct SK|].
  destruct SK as [|a [|b [|c [|d SK]]]]; cbn in Hl; try lia. cbn [app Nat.add des_rounds]. apply IH. lia.
Qed.

Lemma rounds_words n : forall SK X Y X' Y',
  des_rounds n SK X Y = Ok (X', Y') -> is_u32 X -> is_u32 Y -> is_u32 X' /\ is_u32 Y'.
Proof.
  induction n as [|n IH]; intros SK X Y X' Y' E HX HY; cbn in E; [by injection E as <- <-|].
  destruct SK as [|a [|b [|c [|d SK]]]]; try done. eapply IH; [exact E|..]; by apply round_word.
Qed.

Lemma rounds_total n : forall SK X Y, length SK = (4 * n)%nat -> exists X' Y', des_rounds n SK X Y = Ok (X', Y').
Proof.
  induction n as [|n IH]; intros SK X Y Hl; [by eexists _, _|].
  destruct SK as [|a [|b [|c [|d SK]]]]; cbn in Hl; try lia. cbn [des_rounds]. apply IH. lia.
Qed.

(** The rounds with the keys reversed lead back, halves swapped. *)
Lemma rounds_back n : forall SK X Y X' Y',
  length SK = (4 * n)%nat -> des_rounds n SK X Y = Ok (X', Y') -> des_rounds n (reversed SK) Y' X' = Ok (Y, X).
Proof.
  induction n as [|n IH]; intros SK X Y X' Y' Hl E.
  - destruct SK; [|done]. by injection E as <- <-.
  - destruct SK as [|a [|b [|c [|d SK]]]]; cbn in Hl; try lia. cbn [des_rounds] in E.
    apply IH in E; [|lia]. cbn [reversed]. rewrite <- app_assoc. cbn [app].
    replace (S n) with (n + 1)%nat by lia. rewrite des_rounds_app, E, bind_ret by (rewrite (reversed_length (2 * n)); lia).
    cbn [des_rounds]. by rewrite !round_twice.
Qed.

Lemma reverse_keys_reversed SK : length SK = 32%nat -> reverse_keys 16 SK 0 = Ok (reversed SK).
Proof. intros Hl. do 32 (destruct SK as [|? SK]; [done|]). destruct SK; [reflexivity|done]. Qed.

Lemma subkeys_length n : forall i X Y, length (subkeys n i X Y) = (2 * n)%nat.
Proof. induction n as [|n IH]; intros i X Y; [done|]. cbn [subkeys]. destruct (_ || _); cbn [length]; rewrite IH; lia. Qed.

(** ** Blocks *)

Definition byte (z : Z) : Prop := 0 <= z < 256.

Lemma get_bytes b0 b1 b2 b3 :
  byte b0 -> byte b1 -> byte b2 -> byte b3 ->
  Z.lor (Z.lor (Z.lor (shl b0 24) (shl b1 16)) (shl b2 8)) b3 = b0 * 2^24 + b1 * 2^16 + b2 * 2^8 + b3.
Proof.
  unfold byte, shl, u32. intros H0 H1 H2 H3. rewrite !Z.shiftl_mul_pow2, !Z.mod_small by lia.
  rewrite (Z.lor_comm (b0 * 2^24)), (lor_disjoint (b1 * 2^16) b0 24) by lia.
  replace (b1 * 2^16 + b0 * 2^24) with ((b1 + b0 * 2^8) * 2^16) by lia. rewrite (Z.lor_comm _ (b2 * 2^8)), (lor_disjoint (b2 * 2^8) _ 16) by lia.
  replace (b2 * 2^8 + (b1 + b0 * 2^8) * 2^16) with ((b2 + b1 * 2^8 + b0 * 2^16) * 2^8) by lia.
  rewrite Z.lor_comm, (lor_disjoint b3 _ 8) by lia. lia.
Qed.

Lemma put_bytes n : Forall byte (PUT_UINT32 n) /\ length (PUT_UINT32 n) = 4%nat.
Proof. split; [|done]. repeat constructor; apply Z.mod_pos_bound; lia. Qed.

(** A word written and read again, and four bytes read and written again. *)
Lemma get_put n : is_u32 n ->
  Z.lor (Z.lor (Z.lor (shl (u8 (shr n 24)) 24) (shl (u8 (shr n 16)) 16)) (shl (u8 (shr n 8)) 8)) (u8 n) = n.
Proof.
  intros Hn. rewrite get_bytes by (apply Z.mod_pos_bound; lia). unfold is_u32 in Hn. unfold u8, shr.
  rewrite !Z.shiftr_div_pow2 by lia. change (2^24) with (256*256*256). change (2^16) with (256*256). change (2^8) with 256.
  rewrite <- !Z.div_div by lia. pose proof (Z.div_mod n 256). pose proof (Z.div_mod (n / 256) 256).
  pose proof (Z.div_mod (n / 256 / 256) 256). rewrite (Z.mod_small (n / 256 / 256 / 256)); [lia|].
  rewrite !Z.div_div by lia. split; [apply Z.div_pos; lia|apply Z.div_lt_upper_bound; lia].
Qed.

Lemma put_get b0 b1 b2 b3 : byte b0 -> byte b1 -> byte b2 -> byte b3 ->
  PUT_UINT32 (Z.lor (Z.lor (Z.lor (shl b0 24) (shl b1 16)) (shl b2 8)) b3) = [b0; b1; b2; b3] /\
  is_u32 (Z.lor (Z.lor (Z.lor (shl b0 24) (shl b1 16)) (shl b2 8)) b3).
Proof.
  intros H0 H1 H2 H3. rewrite get_bytes by done. unfold byte in *. split; [|unfold is_u32; lia].
  unfold PUT_UINT32, u8, shr. rewrite !Z.shiftr_div_pow2 by lia.
  assert (E : forall n a q, 0 < n -> 0 <= q < n -> (a * n + q) / n = a) by (intros; rewrite Z.div_add_l, Z.div_small by lia; lia).
  replace (b0 * 2 ^ 24 + b1 * 2 ^ 16 + b2 * 2 ^ 8 + b3) with (b0 * 2^24 + (b1 * 2^16 + b2 * 2^8 + b3)) at 1 by lia. rewrite E by lia.
  replace (b0 * 2 ^ 24 + b1 * 2 ^ 16 + b2 * 2 ^ 8 + b3) with ((b0 * 2^8 + b1) * 2^16 + (b2 * 2^8 + b3)) at 1 by lia. rewrite E by lia.
  replace (b0 * 2 ^ 24 + b1 * 2 ^ 16 + b2 * 2 ^ 8 + b3) with ((b0 * 2^16 + b1 * 2^8 + b2) * 2^8 + b3) at 1 by lia. rewrite E by lia.
  replace (b0 * 2 ^ 24 + b1 * 2 ^ 16 + b2 * 2 ^ 8 + b3) with (b3 + (b0 * 2^16 + b1 * 2^8 + b2) * 2^8) by lia.
  replace (b0 * 2^16 + b1 * 2^8 + b2) with (b2 + (b0 * 2^8 + b1) * 2^8) by lia. replace (b0 * 2^8 + b1) with (b1 + b0 * 2^8) by lia.
  rewrite !Z.mod_add, !Z.mod_small by lia. done.
Qed.

Definition block8 (b : list Z) : Prop := length b = 8%nat /\ Forall byte b.

(** A block encrypted is a block, and decrypted with the keys reversed it is
    itself again. *)
Lemma crypt_block SK b : length SK = 32%nat -> block8 b ->
  exists c, des_crypt SK b = Ok c /\ block8 c /\ des_crypt (reversed SK) c = Ok b.
Proof.
  intros Hk [Hl Hb]. do 8 (destruct b as [|? b]; [done|]). destruct b; [|done].
  repeat (apply Forall_cons in Hb as [? Hb]).
  destruct (put_get z z0 z1 z2) as [P0 W0]; try done. destruct (put_get z3 z4 z5 z6) as [P1 W1]; try done.
  unfold des_crypt at 1.
  change (GET_UINT32 [z; z0; z1; z2; z3; z4; z5; z6] 0) with (Ok (Z.lor (Z.lor (Z.lor (shl z 24) (shl z0 16)) (shl z1 8)) z2)).
  change (GET_UINT32 [z; z0; z1; z2; z3; z4; z5; z6] 4) with (Ok (Z.lor (Z.lor (Z.lor (shl z3 24) (shl z4 16)) (shl z5 8)) z6)).
  rewrite !bind_ret. revert P0 W0 P1 W1.
  generalize (Z.lor (Z.lor (Z.lor (shl z 24) (shl z0 16)) (shl z1 8)) z2) as X.
  generalize (Z.lor (Z.lor (Z.lor (shl z3 24) (shl z4 16)) (shl z5 8)) z6) as Y. intros Y X PX HX PY HY.
  pose proof (FP_IP X Y HX HY) as Hback. destruct (IP_words X Y HX HY) as [HX1 HY1].
  destruct (DES_IP X Y) as [X1 Y1]. cbn [fst snd] in HX1, HY1.
  destruct (rounds_total 8 SK X1 Y1 Hk) as (X2 & Y2 & E). rewrite E, bind_ret.
  destruct (rounds_words _ _ _ _ _ _ E HX1 HY1) as [HX2 HY2]. apply rounds_back in E; [|done].
  pose proof (IP_FP Y2 X2 HY2 HX2) as Hip. destruct (FP_words Y2 X2 HY2 HX2) as [HY3 HX3].
  destruct (DES_FP Y2 X2) as [Y3 X3]. cbn [fst snd] in HX3, HY3.
  eexists. split; [reflexivity|]. split.
  { split; [done|]. apply Forall_app_2; apply put_bytes. }
  unfold des_crypt.
  change (GET_UINT32 (PUT_UINT32 Y3 ++ PUT_UINT32 X3) 0) with
    (Ok (Z.lor (Z.lor (Z.lor (shl (u8 (shr Y3 24)) 24) (shl (u8 (shr Y3 16)) 16)) (shl (u8 (shr Y3 8)) 8)) (u8 Y3))).
  change (GET_UINT32 (PUT_UINT32 Y3 ++ PUT_UINT32 X3) 4) with
    (Ok (Z.lor (Z.lor (Z.lor (shl (u8 (shr X3 24)) 24) (shl (u8 (shr X3 16)) 16)) (shl (u8 (shr X3 8)) 8)) (u8 X3))).
  rewrite !get_put, !bind_ret, Hip, E, bind_ret, Hback, PX, PY by done. done.
Qed.

(** ** Whole blocks *)

Lemma emit_ok cap out bytes : lenz out + lenz bytes <= cap -> emit cap out bytes = Ok (out ++ bytes).
Proof. intros Hc. unfold emit. destruct (Z.leb_spec (lenz out + lenz bytes) cap); [done|lia]. Qed.

Lemma push_ok out rest n : lenz out = n -> push (out ++ rest) n = Ok (Pushed out).
Proof.
  unfold push, lenz. intros <-. rewrite length_app. destruct (Z.ltb_spec (Z.of_nat (length out + length rest)) (Z.of_nat (length out))); [lia|].
  by rewrite Nat2Z.id, take_app_length.
Qed.

(** The loop over whole blocks. *)
Lemma crypt_loop_blocks SK cap limit rest (bs cs : list (list Z)) : Forall2 (fun b c => des_crypt SK b = Ok c /\ length c = 8%nat) bs cs ->
  Forall (fun b => length b = 8%nat) bs ->
  forall fuel pre out, (length bs < fuel)%nat ->
  lenz pre + 8 * Z.of_nat (length bs) - 8 < limit <= lenz pre + 8 * Z.of_nat (length bs) \/ bs = [] /\ limit <= lenz pre ->
  lenz out + 8 * Z.of_nat (length bs) <= cap ->
  crypt_loop fuel SK (pre ++ concat bs ++ rest) cap limit (lenz pre) out
    = Ok (lenz pre + 8 * Z.of_nat (length bs), out ++ concat cs).
Proof.
  intros HF. induction HF as [|b c bs cs [Hc Hl] HF IH]; intros Hbs fuel pre out Hfuel Hlim Hcap; (destruct fuel as [|fuel]; [cbn in Hfuel; lia|]);
    cbn [crypt_loop concat length] in *.
  - destruct (Z.ltb_spec (lenz pre) limit); [lia|]. by rewrite app_nil_r, Z.add_0_r.
  - apply Forall_cons in Hbs as [Hb Hbs]. destruct Hlim as [Hlim|[? _]]; [|done].
    destruct (Z.ltb_spec (lenz pre) limit); [|lia].
    rewrite <- app_assoc.
    replace (mem_read _ (lenz pre) 8) with (mem_read (pre ++ b ++ concat bs ++ rest) (Z.of_nat (length pre)) (Z.of_nat (length b))) by (by rewrite Hb).
    rewrite mem_read_ok, bind_ret, Hc, bind_ret.
    rewrite emit_ok, bind_ret by (unfold lenz in *; lia).
    replace (lenz pre + 8) with (lenz (pre ++ b)) by (unfold lenz; rewrite length_app; lia).
    replace (pre ++ b ++ concat bs ++ rest) with ((pre ++ b) ++ concat bs ++ rest) by (by rewrite <- app_assoc).
    assert (Es : lenz (pre ++ b) = lenz pre + 8) by (unfold lenz; rewrite length_app; lia).
    assert (Eo : lenz (out ++ c) = lenz out + 8) by (unfold lenz; rewrite length_app; lia).
    rewrite IH; [|done|lia| |lia].
    + rewrite Es, <- app_assoc. do 2 f_equal. lia.
    + rewrite Es. destruct bs; [right; split; [done|]; cbn in *; lia|left; cbn [length] in *; lia].
Qed.

(** ** Padding *)

Definition padded (rest : list Z) : list Z := rest ++ 0x80 :: replicate (7 - length rest) 0.

Lemma padded_length rest : (length rest < 8)%nat -> length (padded rest) = 8%nat.
Proof. intros Hr. unfold padded. rewrite length_app. cbn [length]. rewrite length_replicate. lia. Qed.

Lemma padded_at pre rest j : (j < 8)%nat -> (length rest < 8)%nat ->
  exists b, padded rest !! j = Some b /\
    (if Z.of_nat j <? lenz rest then arr_get (pre ++ rest) (lenz pre + Z.of_nat j)
     else Ok (if Z.of_nat j =? lenz rest then 0x80 else 0)) = Ok b.
Proof.
  intros Hj Hr. unfold padded, lenz. destruct (Z.ltb_spec (Z.of_nat j) (Z.of_nat (length rest))) as [Hlt|Hge].
  - destruct (lookup_lt_is_Some_2 rest j) as [b Hb]; [lia|]. exists b. split; [by apply lookup_app_l_Some|].
    apply arr_get_ok; [lia|]. rewrite <- Nat2Z.inj_add, Nat2Z.id, lookup_app_r by lia. by replace (length pre + j - length pre)%nat with j by lia.
  - rewrite lookup_app_r by lia. destruct (Z.eqb_spec (Z.of_nat j) (Z.of_nat (length rest))) as [He|Hn].
    + replace (j - length rest)%nat with 0%nat by lia. by exists 0x80.
    + destruct (j - length rest)%nat as [|m] eqn:Em; [lia|]. change ((128 :: replicate (7 - length rest) 0) !! S m) with (replicate (7 - length rest) 0 !! m). rewrite lookup_replicate_2 by lia. by exists 0.
Qed.

Lemma des_tail_padded pre rest n : forall j, (n + j = 8)%nat -> (length rest < 8)%nat ->
  des_tail n (pre ++ rest) (lenz pre) (lenz rest) (Z.of_nat j) = Ok (drop j (padded rest)).
Proof.
  induction n as [|n IH]; intros j Hj Hr; cbn [des_tail].
  - rewrite drop_ge; [done|]. rewrite padded_length; lia.
  - destruct (padded_at pre rest j) as (b & Hb & ->); [lia|done|]. rewrite bind_ret.
    replace (Z.of_nat j + 1) with (Z.of_nat (S j)) by lia. rewrite IH, bind_ret by lia. by rewrite (drop_S _ _ _ Hb).
Qed.

Lemma pad_loop_zeros A z fuel : forall j padding, (j < fuel)%nat -> (j <= z <= 7)%nat -> lenz A + 8 < 2^64 ->
  pad_loop fuel (A ++ 0x80 :: replicate z 0) (lenz A + 1 + Z.of_nat z) (lenz A + Z.of_nat j) padding = Ok (Some (padding + Z.of_nat j)).
Proof.
  unfold lenz. induction fuel as [|fuel IH]; intros j padding Hf Hz HA; [lia|]. cbn [pad_loop].
  unfold u64. rewrite Z.mod_small by lia. destruct (Z.leb_spec (Z.of_nat (length A) + 1 + Z.of_nat z - 8) (Z.of_nat (length A) + Z.of_nat j)); [|lia].
  assert (Hget : arr_get (A ++ 0x80 :: replicate z 0) (Z.of_nat (length A) + Z.of_nat j) = Ok (if decide (j = 0%nat) then 0x80 else 0)).
  { apply arr_get_ok; [lia|]. rewrite <- Nat2Z.inj_add, Nat2Z.id, lookup_app_r by lia. replace (length A + j - length A)%nat with j by lia.
    destruct j as [|j]; [done|]. change ((128 :: replicate z 0) !! S j) with (replicate z 0 !! j). by rewrite lookup_replicate_2 by lia. }
  rewrite Hget, bind_ret. destruct j as [|j]; cbn [decide].
  - rewrite decide_True by done. cbn [Z.eqb Pos.eqb]. by rewrite Z.add_0_r.
  - rewrite decide_False by done. cbn [Z.eqb].
    replace (Z.of_nat (length A) + Z.of_nat (S j) - 1) with (Z.of_nat (length A) + Z.of_nat j) by lia.
    rewrite IH by lia. do 2 f_equal. lia.
Qed.

(** ** The whole functions *)

Lemma des_key_ok key : length key = 8%nat -> exists SK, des_key key = Ok (inl SK) /\ length SK = 32%nat.
Proof.
  intros Hk. unfold des_key, lenz. rewrite Hk. cbn [Z.of_nat Pos.of_succ_nat Pos.succ Z.eqb Pos.eqb negb].
  do 8 (destruct key as [|? key]; [done|]). destruct key; [|done]. unfold des_main_ks.
  match goal with |- context [GET_UINT32 ?k 0] => assert (exists X, GET_UINT32 k 0 = Ok X) as [X ->] by (eexists; reflexivity) end.
  match goal with |- context [GET_UINT32 ?k 4] => assert (exists Y, GET_UINT32 k 4 = Ok Y) as [Y ->] by (eexists; reflexivity) end.
  rewrite !bind_ret. destruct (exchange 4 _ _ _), (exchange 0 _ _ _). eexists. split; [reflexivity|]. apply (subkeys_length 16).
Qed.

Lemma crypt_blocks SK bs : length SK = 32%nat -> Forall block8 bs ->
  exists cs, Forall2 (fun b c => (des_crypt SK b = Ok c /\ length c = 8%nat) /\ block8 c /\ des_crypt (reversed SK) c = Ok b) bs cs.
Proof.
  intros Hk. induction 1 as [|b bs Hb _ [cs IH]]; [by exists []|].
  destruct (crypt_block SK b Hk Hb) as (c & E & Hc & Eb). exists (c :: cs). constructor; [|done]. by destruct Hc.
Qed.

Lemma padded_block rest : (length rest < 8)%nat -> Forall byte rest -> block8 (padded rest).
Proof.
  intros Hr Hb. split; [by apply padded_length|]. unfold padded. apply Forall_app_2; [done|].
  constructor; [by unfold byte|]. apply Forall_replicate. by unfold byte.
Qed.

Lemma chunk_size n r : 0 <= r < 8 -> Z.ldiff (8 * n + r + 8) 7 = 8 * (n + 1).
Proof.
  intros Hr. change 7 with (Z.ones 3). rewrite Z.ldiff_ones_r, Z.shiftl_mul_pow2, Z.shiftr_div_pow2 by lia. change (2^3) with 8.
  replace (8 * n + r + 8) with ((n + 1) * 8 + r) by lia. rewrite Z.div_add_l, Z.div_small by lia. lia.
Qed.

Lemma cap_enough n : n <= (if SMALL_CHUNK <? n then n else SMALL_CHUNK).
Proof. destruct (Z.ltb_spec SMALL_CHUNK n); lia. Qed.

Lemma concat_snoc (bs : list (list Z)) b : concat (bs ++ [b]) = concat bs ++ b.
Proof. rewrite concat_app. cbn [concat]. by rewrite app_nil_r. Qed.

Lemma Forall2_sizes {A} (R : A -> list Z -> Prop) l cs :
  (forall a c, R a c -> length c = 8%nat) -> Forall2 R l cs -> Forall (fun c => length c = 8%nat) cs.
Proof. intros HR. induction 1; constructor; eauto. Qed.

(** What [desencode] gives: the blocks of the padded text, encrypted. *)
Lemma encode_blocks key text SK bs rest cs ct :
  des_key key = Ok (inl SK) -> text = concat bs ++ rest -> Forall (fun b => length b = 8%nat) bs -> (length rest < 8)%nat ->
  Z.of_nat (length text) < 2^31 - 8 ->
  Forall2 (fun b c => des_crypt SK b = Ok c /\ length c = 8%nat) bs cs ->
  des_crypt SK (padded rest) = Ok ct -> length ct = 8%nat ->
  ldesencode key text = Ok (Pushed (concat (cs ++ [ct]))).
Proof.
  intros Ek Et Hbs Hr Hlen HF Ec Hct. unfold ldesencode. rewrite Ek, bind_ret.
  assert (Hl : lenz text = 8 * Z.of_nat (length bs) + Z.of_nat (length rest))
    by (subst text; unfold lenz; rewrite length_app, (length_chunks 8 bs Hbs); lia).
  pose proof (Forall2_length _ _ _ HF) as Hn.
  assert (Hcs : length (concat cs) = (8 * length cs)%nat).
  { apply length_chunks. eapply Forall2_sizes, HF. by intros ? ? [_ ?]. }
  rewrite Hl, chunk_size by lia. set (chunksz := 8 * (Z.of_nat (length bs) + 1)). pose proof (cap_enough chunksz) as Hcap.
  set (cap := if SMALL_CHUNK <? chunksz then chunksz else SMALL_CHUNK) in *.
  assert (Hint : i32 (8 * Z.of_nat (length bs) + Z.of_nat (length rest)) = 8 * Z.of_nat (length bs) + Z.of_nat (length rest))
    by (unfold i32; unfold lenz in Hl; rewrite Z.mod_small; lia).
  rewrite Hint.
  assert (Hloop : crypt_loop (S (length text)) SK text cap (8 * Z.of_nat (length bs) + Z.of_nat (length rest) - 7) 0 []
    = Ok (8 * Z.of_nat (length bs), concat cs)).
  { rewrite Et at 2. apply (crypt_loop_blocks SK cap _ rest bs cs HF Hbs (S (length text)) [] []).
    - subst text. rewrite length_app, (length_chunks 8 bs Hbs). lia.
    - left. change (lenz []) with 0; lia.
    - change (lenz []) with 0; lia. }
  rewrite Hloop, bind_ret.
  assert (Htail : des_tail 8 text (8 * Z.of_nat (length bs))
    (i32 (8 * Z.of_nat (length bs) + Z.of_nat (length rest) - 8 * Z.of_nat (length bs))) 0 = Ok (padded rest)).
  { replace (i32 _) with (lenz rest) by (unfold i32, lenz; rewrite Z.mod_small; lia).
    replace (8 * Z.of_nat (length bs)) with (lenz (concat bs)) by (unfold lenz; rewrite (length_chunks 8 bs Hbs); lia).
    rewrite Et. apply (des_tail_padded (concat bs) rest 8 0); lia. }
  rewrite Htail, bind_ret, Ec, bind_ret, emit_ok, bind_ret by (unfold lenz; lia).
  rewrite concat_snoc, <- (app_nil_r (concat cs ++ ct)) at 1. rewrite push_ok; [done|].
  unfold lenz. rewrite length_app. lia.
Qed.

(** What [desdecode] gives for blocks that decrypt to a padded text. *)
Lemma decode_blocks key SK bs rest cs :
  des_key key = Ok (inl SK) -> length SK = 32%nat -> Forall (fun b => length b = 8%nat) cs -> (length rest < 8)%nat ->
  Z.of_nat (length (concat cs)) < 2^31 ->
  Forall2 (fun c b => des_crypt (reversed SK) c = Ok b /\ length b = 8%nat) cs (bs ++ [padded rest]) ->
  ldesdecode key (concat cs) = Ok (Pushed (concat bs ++ rest)).
Proof.
  intros Ek Hk Hcs Hr Hlen HF. unfold ldesdecode. rewrite Ek, bind_ret, (reverse_keys_reversed SK Hk), bind_ret.
  pose proof (Forall2_length _ _ _ HF) as Hn. rewrite length_app in Hn. cbn [length] in Hn.
  pose proof (length_chunks 8 cs Hcs) as Hl.
  assert (Hbs : Forall (fun b => length b = 8%nat) (bs ++ [padded rest])).
  { eapply Forall2_sizes, HF. by intros ? ? [_ ?]. }
  assert (Hb : length (concat bs) = (8 * length bs)%nat) by (apply length_chunks; by apply Forall_app in Hbs as [? _]).
  unfold lenz. rewrite Hl. replace (Z.of_nat (8 * length cs)) with (8 * (Z.of_nat (length bs) + 1)) by lia.
  set (textsz := 8 * (Z.of_nat (length bs) + 1)).
  assert (Hand : Z.land textsz 7 = 0).
  { change 7 with (2^3 - 1). rewrite land_mask by lia. unfold textsz. change (2^3) with 8. rewrite Z.mul_comm. apply Z.mod_mul. lia. }
  rewrite Hand. destruct (Z.eqb_spec textsz 0); [lia|]. cbn [Z.eqb negb orb].
  assert (Hloop : crypt_loop (S (8 * length cs)) (reversed SK) (concat cs)
    (if SMALL_CHUNK <? textsz then textsz else SMALL_CHUNK) textsz 0 [] = Ok (textsz, concat (bs ++ [padded rest]))).
  { pose proof (crypt_loop_blocks (reversed SK) (if SMALL_CHUNK <? textsz then textsz else SMALL_CHUNK) textsz [] cs _ HF Hcs (S (8 * length cs)) [] []) as L.
    cbn [app] in L. rewrite app_nil_r in L. change (lenz []) with 0 in L. rewrite L; [do 2 f_equal; lia|lia|left; lia|].
    pose proof (cap_enough textsz). lia. }
  rewrite Hloop, bind_ret, concat_snoc. unfold padded. rewrite app_assoc.
  assert (Ets : textsz = lenz (concat bs ++ rest) + 1 + Z.of_nat (7 - length rest)) by (unfold textsz, lenz; rewrite length_app, Hb; lia).
  clearbody textsz. subst textsz.
  replace (lenz (concat bs ++ rest) + 1 + Z.of_nat (7 - length rest) - 1) with (lenz (concat bs ++ rest) + Z.of_nat (7 - length rest)) by lia.
  rewrite pad_loop_zeros, bind_ret; [|lia|lia|unfold lenz; rewrite length_app; lia].
  destruct (Z.ltb_spec 8 (1 + Z.of_nat (7 - length rest))); [lia|]. rewrite push_ok; [done|lia].
Qed.

(** C31.  DES with the library's padding round-trips: for every key of 8 bytes and
    every text, [desencode] gives a text of whole blocks, at least one byte longer
    and at most eight, and [desdecode] with the same key gives the text back. *)
Theorem des_roundtrip key text :
  length key = 8%nat -> Forall byte text -> Z.of_nat (length text) < 2^31 - 8 ->
  exists c, ldesencode key text = Ok (Pushed c) /\ Forall byte c /\
    lenz c = Z.ldiff (lenz text + 8) 7 /\ ldesdecode key c = Ok (Pushed text).
Proof.
  intros Hk Hb Hlen. destruct (des_key_ok key Hk) as (SK & Ek & HSK).
  destruct (chunks 8 text ltac:(lia)) as (bs & rest & Et & Hbs & Hr).
  assert (Hbl : Forall block8 bs /\ Forall byte rest).
  { subst text. apply Forall_app in Hb as [Hb Hrest]. split; [|done]. clear -Hb Hbs.
    induction Hbs as [|b bs Hl _ IH]; constructor; cbn [concat] in Hb; apply Forall_app in Hb as [? ?]; [done|auto]. }
  destruct Hbl as [Hbl Hrest]. pose proof (padded_block rest Hr Hrest) as Hpb.
  destruct (crypt_block SK _ HSK Hpb) as (ct & Ect & Hct & Ebt). destruct (crypt_blocks SK bs HSK Hbl) as [cs HF].
  assert (Hsz : Forall (fun c => length c = 8%nat) cs) by (eapply Forall2_sizes, HF; by intros ? ? [[_ ?] _]).
  assert (Hcs : length (concat cs) = (8 * length bs)%nat) by (rewrite (Forall2_length _ _ _ HF); by apply length_chunks).
  assert (Htx : length text = (8 * length bs + length rest)%nat) by (by rewrite Et, length_app, (length_chunks 8 bs Hbs)).
  exists (concat (cs ++ [ct])). split; [|split; [|split]].
  - eapply (encode_blocks key text SK bs rest cs ct); try done; [|apply Hct]. eapply Forall2_impl; [exact HF|]. by intros b c [? _].
  - rewrite concat_snoc. apply Forall_app_2; [|apply Hct]. clear -HF.
    induction HF as [|b c bs cs (_ & [_ Hc] & _) _ IH]; [done|]. by apply Forall_app_2.
  - rewrite concat_snoc. unfold lenz. rewrite length_app, (proj1 Hct), Htx, Hcs.
    replace (Z.of_nat (8 * length bs + length rest) + 8) with (8 * Z.of_nat (length bs) + Z.of_nat (length rest) + 8) by lia.
    rewrite chunk_size by lia. lia.
  - rewrite Et. eapply (decode_blocks key SK bs rest); try done.
    + apply Forall_app_2; [done|]. constructor; [apply Hct|done].
    + rewrite concat_snoc, length_app, (proj1 Hct). lia.
    + apply Forall2_app; [|constructor; [split; [done|apply Hpb]|done]]. clear -HF Hbl.
      induction HF as [|b c bs cs (_ & _ & E) _ IH]; [constructor|]. apply Forall_cons in Hbl as [[Hl _] Hbl]. constructor; [done|auto].
Qed.

Lemma des_roundtrip_witness : exists c,
  ldesencode [1; 2; 3; 4; 5; 6; 7; 8] [72; 105] = Ok (Pushed c) /\ lenz c = 8 /\
  ldesdecode [1; 2; 3; 4; 5; 6; 7; 8] c = Ok (Pushed [72; 105]).
Proof.
  destruct (des_roundtrip [1; 2; 3; 4; 5; 6; 7; 8] [72; 105]) as (c & E & _ & Hl & D).
  - reflexivity.
  - repeat constructor; done.
  - vm_compute. reflexivity.
  - exists c. split; [exact E|]. split; [exact Hl|exact D].
Defined.

(** The search for the padding compares an [int] with a [size_t]: for a text of
    one block the test [i>=textsz-8] is always true, so for every key there is a
    text (the block that decrypts to eight zeros) for which [desdecode] reads
    before its buffer. *)
Theorem des_decode_underruns key :
  length key = 8%nat -> exists c, block8 c /\ ldesdecode key c = Fault OutOfBounds.
Proof.
  intros Hk. destruct (des_key_ok key Hk) as (SK & Ek & HSK).
  destruct (crypt_block SK (replicate 8 0) HSK) as (c & _ & Hc & D); [split; [done|]; by repeat constructor|].
  exists c. split; [done|]. unfold ldesdecode. rewrite Ek, bind_ret, (reverse_keys_reversed SK HSK), bind_ret.
  pose proof (crypt_loop_blocks (reversed SK) 256 8 [] [c] [replicate 8 0]) as L.
  rewrite <- (app_nil_r c). change (c ++ []) with (concat [c]).
  assert (El : lenz (concat [c]) = 8) by (unfold lenz; cbn; rewrite app_nil_r; by rewrite (proj1 Hc)).
  rewrite El. change (negb (Z.land 8 7 =? 0) || (8 =? 0)) with false. cbv iota.
  change (if SMALL_CHUNK <? 8 then 8 else SMALL_CHUNK) with 256.
  specialize (L ltac:(constructor; [done|constructor]) ltac:(constructor; [apply Hc|constructor]) (S (length (concat [c]))) [] []).
  cbn [app] in L. rewrite app_nil_r in L. change (lenz []) with 0 in L.
  rewrite (L ltac:(unfold lenz in El; cbn [length]; lia) ltac:(left; cbn [length]; lia) ltac:(cbn [length]; lia)), bind_ret. reflexivity.
Qed.

Lemma des_decode_underruns_witness : exists c, block8 c /\ ldesdecode [1; 2; 3; 4; 5; 6; 7; 8] c = Fault OutOfBounds.
Proof. exact (des_decode_underruns [1; 2; 3; 4; 5; 6; 7; 8] eq_refl). Defined.
