(* ===== verification/Crypt.v ===== *)
(** * The rest of the crypt library ([lualib-src/lua-crypt.c])

    Hashing, hexadecimal text, the 64-bit HMAC, Diffie-Hellman key exchange,
    base64 and xor.  Strings are lists of bytes. *)

From S2P Require Import Prelude Text Des.
From Stdlib Require Import ZArith Lia String.
From stdpp Require Import base numbers list.
#[local] Open Scope Z_scope.
#[local] Open Scope list_scope.

Module Crypt.

(** [random() & 0xff] eight times is [rnd]. *)
Definition lrandomkey (rnd : list Z) : outcome answer :=
  let tmp := (fun x => Z.land x 0xff) <$> rnd in
  let x := foldl Z.lxor 0 tmp in
  match tmp with
  | t :: rest => push (if x =? 0 then Z.lor t 1 :: rest else tmp) 8
  | [] => Fault Uninitialised
  end.

(** ** Hash *)

Fixpoint hash_loop (s : list Z) (djb_hash js_hash : Z) : Z * Z :=
  match s with
  | [] => (djb_hash, js_hash)
  | c :: s =>
      hash_loop s (u32 (djb_hash + (shl djb_hash 5 + c)))
        (Z.lxor js_hash (u32 (shl js_hash 5 + c + shr js_hash 2)))
  end.

Definition Hash (s : list Z) : list Z :=
  let '(djb_hash, js_hash) := hash_loop s 5381 1315423911 in
  [Z.land djb_hash 0xff; Z.land (shr djb_hash 8) 0xff; Z.land (shr djb_hash 16) 0xff; Z.land (shr djb_hash 24) 0xff;
   Z.land js_hash 0xff; Z.land (shr js_hash 8) 0xff; Z.land (shr js_hash 16) 0xff; Z.land (shr js_hash 24) 0xff].

Definition lhashkey (key : list Z) : outcome answer := push (Hash key) 8.

(** ** Hexadecimal text *)

Definition hex : list Z := str "0123456789abcdef".

Fixpoint tohex_loop (text : list Z) (cap : Z) (out : list Z) : outcome (list Z) :=
  match text with
  | [] => Ok out
  | b :: text =>
      h ← arr_get hex (Z.shiftr b 4);
      l ← arr_get hex (Z.land b 0xf);
      out ← emit cap out [h; l];
      tohex_loop text cap out
  end.

Definition ltohex (text : list Z) : outcome answer :=
  let sz := lenz text in
  out ← tohex_loop text (if SMALL_CHUNK / 2 <? sz then sz * 2 else SMALL_CHUNK) [];
  push out (sz * 2).

(** The macro [HEX]; its [v] is a [uint8_t]. *)
Definition HEX (c : Z) : Z := if (48 <=? c) && (c <=? 57) then c - 48 else u8 (c - 97 + 10).

Fixpoint fromhex_loop (text : list Z) (cap : Z) (out : list Z) : outcome (list Z + raised) :=
  match text with
  | h :: l :: text =>
      let hi := HEX h in
      let low := HEX l in
      if (16 <? hi) || (16 <? low) then Ok (inr InvalidHexText)
      else
        out ← emit cap out [u8 (Z.lor (Z.shiftl hi 4) low)];
        fromhex_loop text cap out
  | _ => Ok (inl out)
  end.

Definition lfromhex (text : list Z) : outcome answer :=
  let sz := lenz text in
  if negb (Z.land sz 1 =? 0) then Ok (Error (InvalidHexSize sz))
  else
    r ← fromhex_loop text (if SMALL_CHUNK * 2 <? sz then sz / 2 else SMALL_CHUNK) [];
    match r with
    | inl out => push out (sz / 2)
    | inr e => Ok (Error e)
    end.

(** ** HMAC *)

Definition k : list Z :=
  [0xd76aa478; 0xe8c7b756; 0x242070db; 0xc1bdceee; 0xf57c0faf; 0x4787c62a; 0xa8304613; 0xfd469501;
   0x698098d8; 0x8b44f7af; 0xffff5bb1; 0x895cd7be; 0x6b901122; 0xfd987193; 0xa679438e; 0x49b40821;
   0xf61e2562; 0xc040b340; 0x265e5a51; 0xe9b6c7aa; 0xd62f105d; 0x02441453; 0xd8a1e681; 0xe7d3fbc8;
   0x21e1cde6; 0xc33707d6; 0xf4d50d87; 0x455a14ed; 0xa9e3e905; 0xfcefa3f8; 0x676f02d9; 0x8d2a4c8a;
   0xfffa3942; 0x8771f681; 0x6d9d6122; 0xfde5380c; 0xa4beea44; 0x4bdecfa9; 0xf6bb4b60; 0xbebfbc70;
   0x289b7ec6; 0xeaa127fa; 0xd4ef3085; 0x04881d05; 0xd9d4d039; 0xe6db99e5; 0x1fa27cf8; 0xc4ac5665;
   0xf4292244; 0x432aff97; 0xab9423a7; 0xfc93a039; 0x655b59c3; 0x8f0ccc92; 0xffeff47d; 0x85845dd1;
   0x6fa87e4f; 0xfe2ce6e0; 0xa3014314; 0x4e0811a1; 0xf7537e82; 0xbd3af235; 0x2ad7d2bb; 0xeb86d391].

Definition r : list Z :=
  [7; 12; 17; 22; 7; 12; 17; 22; 7; 12; 17; 22; 7; 12; 17; 22;
   5; 9; 14; 20; 5; 9; 14; 20; 5; 9; 14; 20; 5; 9; 14; 20;
   4; 11; 16; 23; 4; 11; 16; 23; 4; 11; 16; 23; 4; 11; 16; 23;
   6; 10; 15; 21; 6; 10; 15; 21; 6; 10; 15; 21; 6; 10; 15; 21].

Definition LEFTROTATE (x c : Z) : Z := Z.lor (shl x c) (shr x (32 - c)).
Definition not32 (x : Z) : Z := Z.lxor x 0xffffffff.

Fixpoint hmac_loop (n : nat) (i : Z) (w : list Z) (a b c d : Z) : Z * Z * Z * Z :=
  match n with
  | O => (a, b, c, d)
  | S n =>
      let '(f, g) :=
        if i <? 16 then (Z.lor (Z.land b c) (Z.land (not32 b) d), i)
        else if i <? 32 then (Z.lor (Z.land d b) (Z.land (not32 d) c), (5 * i + 1) mod 16)
        else if i <? 48 then (Z.lxor (Z.lxor b c) d, (3 * i + 5) mod 16)
        else (Z.lxor c (Z.lor b (not32 d)), (7 * i) mod 16) in
      let temp := d in
      let d := c in
      let c := b in
      let b := u32 (b + LEFTROTATE (u32 (a + f + at_ k i + at_ w g)) (at_ r i)) in
      let a := temp in
      hmac_loop n (i + 1) w a b c d
  end.

Definition hmac (x y : Z * Z) : Z * Z :=
  let w4 := [x.2; x.1; y.2; y.1] in
  let '(a, b, c, d) := hmac_loop 64 0 (w4 ++ w4 ++ w4 ++ w4) 0x67452301 0xefcdab89 0x98badcfe 0x10325476 in
  (Z.lxor c d, Z.lxor a b).

(** [x[0] | x[1]<<8 | x[2]<<16 | x[3]<<24] from offset [i], as a [uint32_t]. *)
Definition word (x : list Z) (i : Z) : outcome Z :=
  b0 ← arr_get x i; b1 ← arr_get x (i + 1); b2 ← arr_get x (i + 2); b3 ← arr_get x (i + 3);
  Ok (Z.lor (Z.lor (Z.lor b0 (shl b1 8)) (shl b2 16)) (shl b3 24)).
Definition words (x : list Z) : outcome (Z * Z) := a ← word x 0; b ← word x 4; Ok (a, b).

Definition read64 (x y : list Z) : outcome ((Z * Z) * (Z * Z) + raised) :=
  if negb (lenz x =? 8) then Ok (inr InvalidUint64)
  else if negb (lenz y =? 8) then Ok (inr InvalidUint64)
  else xx ← words x; yy ← words y; Ok (inl (xx, yy)).

Definition pushqword (result : Z * Z) : outcome answer :=
  push [Z.land result.1 0xff; Z.land (shr result.1 8) 0xff; Z.land (shr result.1 16) 0xff; Z.land (shr result.1 24) 0xff;
        Z.land result.2 0xff; Z.land (shr result.2 8) 0xff; Z.land (shr result.2 16) 0xff; Z.land (shr result.2 24) 0xff] 8.

Definition lhmac64 (x y : list Z) : outcome answer :=
  v ← read64 x y;
  match v with inr e => Ok (Error e) | inl (xx, yy) => pushqword (hmac xx yy) end.

Definition lhmac_hash (key text : list Z) : outcome answer :=
  if negb (lenz key =? 8) then Ok (Error InvalidUint64)
  else
    kk ← words key;
    htext ← words (Hash text);
    pushqword (hmac htext kk).

(** ** Key exchange *)

Definition P : Z := 0xffffffffffffffc5.

(** A 64-bit [b] is 0 after 64 turns. *)
Fixpoint mul_loop (fuel : nat) (a b m : Z) : outcome Z :=
  match fuel with
  | O => Fault OutOfFuel
  | S fuel =>
      if b =? 0 then Ok m
      else
        let m := if Z.odd b then let t := u64 (P - a) in if t <=? m then u64 (m - t) else u64 (m + a) else m in
        let a := if u64 (P - a) <=? a then u64 (a * 2 - P) else u64 (a * 2) in
        mul_loop fuel a (Z.shiftr b 1) m
  end.
Definition mul_mod_p (a b : Z) : outcome Z := mul_loop 65 a b 0.

(** One call per bit of [b], which is not 0. *)
Fixpoint pow_loop (fuel : nat) (a b : Z) : outcome Z :=
  match fuel with
  | O => Fault OutOfFuel
  | S fuel =>
      if b =? 1 then Ok a
      else
        t ← pow_loop fuel a (Z.shiftr b 1);
        t ← mul_mod_p t t;
        if negb (b mod 2 =? 0) then mul_mod_p t a else Ok t
  end.
Definition pow_mod_p (a b : Z) : outcome Z := pow_loop 64 a b.

Definition powmodp (a b : Z) : outcome Z :=
  let a := if P <? a then a mod P else a in
  pow_mod_p a b.

Definition push64 (r : Z) : outcome answer :=
  push [Z.land r 0xff; Z.land (shr r 8) 0xff; Z.land (shr r 16) 0xff; Z.land (shr r 24) 0xff;
        Z.land (shr r 32) 0xff; Z.land (shr r 40) 0xff; Z.land (shr r 48) 0xff; Z.land (shr r 56) 0xff] 8.

Definition join (x : Z * Z) : Z := Z.lor x.1 (u64 (Z.shiftl x.2 32)).

Definition ldhsecret (x y : list Z) : outcome answer :=
  v ← read64 x y;
  match v with
  | inr e => Ok (Error e)
  | inl (x, y) =>
      let xx := join x in
      let yy := join y in
      if (xx =? 0) || (yy =? 0) then Ok (Error CantBeZero)
      else r ← powmodp xx yy; push64 r
  end.

Definition G : Z := 5.

Definition ldhexchange (x : list Z) : outcome answer :=
  if negb (lenz x =? 8) then Ok (Error InvalidUint64)
  else
    xx ← words x;
    let x64 := join xx in
    if x64 =? 0 then Ok (Error CantBeZero)
    else r ← powmodp G x64; push64 r.

(** ** Base64 *)

Definition encoding : list Z := str "ABCDEFGHIJKLMNOPQRSTUVWXYZabcdefghijklmnopqrstuvwxyz0123456789+/".
Definition eq_sign : Z := 61.

(** The loop over whole groups of three bytes, from index [i]. *)
Fixpoint b64_loop (fuel : nat) (text : list Z) (cap limit i : Z) (out : list Z) : outcome (Z * list Z) :=
  match fuel with
  | O => Fault OutOfFuel
  | S fuel =>
      if i <? limit then
        t0 ← arr_get text i; t1 ← arr_get text (i + 1); t2 ← arr_get text (i + 2);
        let v := Z.lor (Z.lor (Z.shiftl t0 16) (Z.shiftl t1 8)) t2 in
        c0 ← arr_get encoding (Z.shiftr v 18);
        c1 ← arr_get encoding (Z.land (Z.shiftr v 12) 0x3f);
        c2 ← arr_get encoding (Z.land (Z.shiftr v 6) 0x3f);
        c3 ← arr_get encoding (Z.land v 0x3f);
        out ← emit cap out [c0; c1; c2; c3];
        b64_loop fuel text cap limit (i + 3) out
      else Ok (i, out)
  end.

(** [switch(padding)] *)
Definition b64_tail (text : list Z) (cap i padding : Z) (out : list Z) : outcome (list Z) :=
  if padding =? 1 then
    v ← arr_get text i;
    c0 ← arr_get encoding (Z.shiftr v 2);
    c1 ← arr_get encoding (Z.shiftl (Z.land v 3) 4);
    emit cap out [c0; c1; eq_sign; eq_sign]
  else if padding =? 2 then
    t0 ← arr_get text i; t1 ← arr_get text (i + 1);
    let v := Z.lor (Z.shiftl t0 8) t1 in
    c0 ← arr_get encoding (Z.shiftr v 10);
    c1 ← arr_get encoding (Z.land (Z.shiftr v 4) 0x3f);
    c2 ← arr_get encoding (Z.shiftl (Z.land v 0xf) 2);
    emit cap out [c0; c1; c2; eq_sign]
  else Ok out.

Definition lb64encode (text : list Z) : outcome answer :=
  let sz := lenz text in
  let encode_sz := i32 ((sz + 2) / 3 * 4) in
  let cap := if SMALL_CHUNK <? encode_sz then encode_sz else SMALL_CHUNK in
  '(i, out) ← b64_loop (S (List.length text)) text cap (i32 sz - 2) 0 [];
  let padding := i32 (sz - i) in
  out ← b64_tail text cap i padding out;
  push out encode_sz.

Definition decoding : list Z :=
  [62; -1; -1; -1; 63; 52; 53; 54; 55; 56; 57; 58; 59; 60; 61; -1;
   -1; -1; -2; -1; -1; -1; 0; 1; 2; 3; 4; 5; 6; 7; 8; 9;
   10; 11; 12; 13; 14; 15; 16; 17; 18; 19; 20; 21; 22; 23; 24; 25;
   -1; -1; -1; -1; -1; -1; 26; 27; 28; 29; 30; 31; 32; 33; 34; 35;
   36; 37; 38; 39; 40; 41; 42; 43; 44; 45; 46; 47; 48; 49; 50; 51].

Definition b64index (c : Z) : outcome Z :=
  if c <? 43 then Ok (-1)
  else
    let c := c - 43 in
    if lenz decoding <=? c then Ok (-1) else arr_get decoding c.

(** The next four characters that are in the alphabet or ['='], [j] of them still
    to come; nothing when the text ends before. *)
Fixpoint b64_quad (text : list Z) (j : nat) (padding : Z) (c : list Z) : outcome (option (Z * list Z * list Z)) :=
  match j with
  | O => Ok (Some (padding, c, text))
  | S j' =>
      match text with
      | [] => Ok None
      | ch :: text =>
          x ← b64index ch;
          if x =? -1 then b64_quad text j padding c
          else b64_quad text j' (if x =? -2 then padding + 1 else padding) (c ++ [x])
      end
  end.

(** The bytes of one group, or an error. *)
Definition b64_group (padding : Z) (c : list Z) : outcome (option (list Z)) :=
  c0 ← arr_get c 0; c1 ← arr_get c 1; c2 ← arr_get c 2; c3 ← arr_get c 3;
  if padding =? 0 then
    let v := Z.lor (Z.lor (Z.lor (Z.shiftl c0 18) (Z.shiftl c1 12)) (Z.shiftl c2 6)) c3 in
    Ok (Some [u8 (Z.shiftr v 16); Z.land (Z.shiftr v 8) 0xff; Z.land v 0xff])
  else if padding =? 1 then
    if negb (c3 =? -2) || negb (Z.land c2 3 =? 0) then Ok None
    else
      let v := Z.lor (Z.lor (Z.shiftl c0 10) (Z.shiftl c1 4)) (Z.shiftr c2 2) in
      Ok (Some [u8 (Z.shiftr v 8); Z.land v 0xff])
  else if padding =? 2 then
    if negb (c3 =? -2) || negb (c2 =? -2) || negb (Z.land c1 0xf =? 0) then Ok None
    else Ok (Some [u8 (Z.lor (Z.shiftl c0 2) (Z.shiftr c1 4))])
  else Ok None.

(** A turn of the outer loop reads at least four characters. *)
Fixpoint b64_decode_loop (fuel : nat) (text : list Z) (cap : Z) (out : list Z) : outcome (list Z + raised) :=
  match fuel with
  | O => Fault OutOfFuel
  | S fuel =>
      match text with
      | [] => Ok (inl out)
      | _ =>
          q ← b64_quad text 4 0 [];
          match q with
          | None => Ok (inr InvalidBase64)
          | Some (padding, c, text) =>
              g ← b64_group padding c;
              match g with
              | None => Ok (inr InvalidBase64)
              | Some bytes => out ← emit cap out bytes; b64_decode_loop fuel text cap out
              end
          end
      end
  end.

Definition lb64decode (text : list Z) : outcome answer :=
  let sz := lenz text in
  let decode_sz := i32 ((sz + 3) / 4 * 3) in
  r ← b64_decode_loop (S (List.length text)) text (if SMALL_CHUNK <? decode_sz then decode_sz else SMALL_CHUNK) [];
  match r with
  | inl out => push out (lenz out)
  | inr e => Ok (Error e)
  end.

(** ** Xor *)

Fixpoint xor_loop (s1 s2 : list Z) (i : Z) : outcome (list Z) :=
  match s1 with
  | [] => Ok []
  | b :: s1 => c ← arr_get s2 (i mod lenz s2); t ← xor_loop s1 s2 (i + 1); Ok (Z.lxor b c :: t)
  end.

Definition lxor_str (s1 s2 : list Z) : outcome answer :=
  if lenz s2 =? 0 then Ok (Error CantXorEmpty)
  else out ← xor_loop s1 s2 0; push out (lenz s1).

End Crypt.
