(* ===== verification/CryptProofs.v ===== *)
(** * The crypt library: key exchange, base64, hexadecimal text and xor

    Two sides of a key exchange get the same secret; what is encoded is decoded
    again; decoding stays inside its buffer whatever it is given. *)

From S2P Require Import Prelude Text Des DesProofs Crypt.
From Stdlib Require Import ZArith Znumtheory Zpow_facts Lia String.
From stdpp Require Import base numbers list.
#[local] Open Scope Z_scope.
#[local] Open Scope list_scope.
Import Crypt.

(** ** Modular arithmetic *)

Lemma mul_loop_spec fuel : forall a b m,
  0 <= a <= P -> 0 <= m < P -> 0 <= b < 2 ^ Z.of_nat fuel ->
  mul_loop (S fuel) a b m = Ok ((m + a * b) mod P).
Proof.
  induction fuel as [|fuel IH]; intros a b m Ha Hm Hb.
  - cbn in Hb. assert (b = 0) as -> by lia. cbn [mul_loop Z.eqb]. by rewrite Z.mul_0_r, Z.add_0_r, Z.mod_small.
  - rewrite Nat2Z.inj_succ, Z.pow_succ_r in Hb by lia. cbn [mul_loop]. destruct (Z.eqb_spec b 0) as [->|Hb0].
    { by rewrite Z.mul_0_r, Z.add_0_r, Z.mod_small. }
    rewrite Z.shiftr_div_pow2 by lia. change (2^1) with 2. assert (P < 2^64) by (vm_compute; done).
    pose proof (Z.div_mod b 2 ltac:(lia)) as Hdm. rewrite Zmod_odd in Hdm.
    assert (Ht : u64 (P - a) = P - a) by (apply Z.mod_small; lia). rewrite Ht.
    set (m' := if Z.odd b then _ else _). set (a' := if _ <=? a then _ else _).
    assert (Hm' : 0 <= m' < P /\ exists q, m' = m + (if Z.odd b then a else 0) - q * P).
    { unfold m'. destruct (Z.odd b); [|split; [lia|exists 0; lia]]. unfold u64.
      destruct (Z.leb_spec (P - a) m); rewrite Z.mod_small by lia; (split; [lia|]); [exists 1|exists 0]; lia. }
    assert (Ha' : 0 <= a' <= P /\ exists q, a' = 2 * a - q * P).
    { unfold a', u64. destruct (Z.leb_spec (P - a) a); rewrite Z.mod_small by lia; (split; [lia|]); [exists 1|exists 0]; lia. }
    destruct Hm' as [Hm' [q Eq]], Ha' as [Ha' [p Ep]]. change (mul_loop (S fuel) a' (b / 2) m' = Ok ((m + a * b) mod P)).
    rewrite IH; [|done|done|]. 2: { split; [apply Z.div_pos; lia|apply Z.div_lt_upper_bound; lia]. }
    f_equal. rewrite Eq, Ep. rewrite <- (Z.mod_add (m + a * b) (- q - p * (b / 2)) P) by done. f_equal.
    set (h := b / 2) in *. clearbody h. destruct (Z.odd b); rewrite Hdm; ring.
Qed.

Lemma mul_mod_p_spec a b : 0 <= a <= P -> 0 <= b < 2^64 -> mul_mod_p a b = Ok ((a * b) mod P).
Proof. intros Ha Hb. unfold mul_mod_p. rewrite (mul_loop_spec 64) by (try done; vm_compute; intuition congruence). done. Qed.

Lemma P_range : 1 < P < 2^64.
Proof. by vm_compute. Qed.

(** [pow_mod_p] is congruent to the power; it is the remainder, but for a power of 1. *)
Lemma pow_loop_spec fuel : forall a b, 0 <= a <= P -> 1 <= b < 2 ^ Z.of_nat fuel ->
  exists r, pow_loop fuel a b = Ok r /\ 0 <= r <= P /\ r mod P = a ^ b mod P /\ (b <> 1 -> r < P).
Proof.
  pose proof P_range as HP. induction fuel as [|fuel IH]; intros a b Ha Hb; [cbn in Hb; lia|].
  rewrite Nat2Z.inj_succ, Z.pow_succ_r in Hb by lia. cbn [pow_loop]. destruct (Z.eqb_spec b 1) as [->|Hb1].
  { exists a. split; [done|]. split; [done|]. by rewrite Z.pow_1_r. }
  rewrite Z.shiftr_div_pow2 by lia. change (2^1) with 2. pose proof (Z.div_mod b 2 ltac:(lia)) as Hdm.
  pose proof (Z.mod_pos_bound b 2 ltac:(lia)) as Hmod.
  destruct (IH a (b / 2) Ha) as (t & -> & Ht & Et & _).
  { split; [apply Z.div_le_lower_bound; lia|apply Z.div_lt_upper_bound; lia]. }
  rewrite bind_ret, mul_mod_p_spec, bind_ret by lia.
  assert (Esq : (t * t) mod P = a ^ (2 * (b / 2)) mod P).
  { rewrite Z.mul_mod, Et, <- Z.mul_mod, <- Z.pow_add_r by lia. do 2 f_equal. lia. }
  pose proof (Z.mod_pos_bound (t * t) P ltac:(lia)) as Hsq. destruct (Z.eqb_spec (b mod 2) 0) as [E0|E1]; cbn [negb].
  - eexists. split; [done|]. split; [lia|]. rewrite Z.mod_mod, Esq by lia. split; [do 2 f_equal; lia|lia].
  - rewrite mul_mod_p_spec by lia. eexists. split; [done|]. pose proof (Z.mod_pos_bound ((t * t) mod P * a) P ltac:(lia)).
    split; [lia|]. split; [|lia]. rewrite Z.mod_mod, Z.mul_mod_idemp_l by lia.
    rewrite Z.mul_mod, Esq, <- Z.mul_mod by lia. replace b with (2 * (b / 2) + 1) at 2 by lia.
    rewrite Z.pow_add_r, Z.pow_1_r by lia. done.
Qed.

(** [powmodp] is the power modulo the largest 64-bit prime, for all 64-bit
    bases and exponents but 0; only for the base [P] itself the result may be [P]
    instead of 0. *)
Lemma powmodp_is_power a b : 0 <= a < 2^64 -> 1 <= b < 2^64 ->
  exists r, powmodp a b = Ok r /\ 0 <= r <= P /\ r mod P = a ^ b mod P /\ (a <> P -> r = a ^ b mod P).
Proof.
  intros Ha Hb. pose proof P_range as HP. unfold powmodp, pow_mod_p.
  set (a' := if P <? a then a mod P else a).
  assert (Ha' : 0 <= a' <= P /\ a' mod P = a mod P /\ (a <> P -> a' < P)).
  { unfold a'. destruct (Z.ltb_spec P a); [|split; [lia|split; [done|lia]]].
    pose proof (Z.mod_pos_bound a P ltac:(lia)). rewrite Z.mod_mod by lia. split; [lia|]. split; [done|lia]. }
  destruct Ha' as (Ha' & Em & Hlt). destruct (pow_loop_spec 64 a' b Ha') as (r & E & Hr & Er & Hr1); [done|].
  exists r. split; [done|]. split; [done|].
  assert (Ep : r mod P = a ^ b mod P) by (rewrite Er, (Zpower_mod a'), Em, <- (Zpower_mod a) by lia; done).
  split; [done|]. intros Hne. rewrite <- Ep. symmetry. apply Z.mod_small.
  destruct (decide (b = 1)) as [->|Hb1]; [|specialize (Hr1 Hb1); lia].
  cbn [pow_loop Z.eqb Pos.eqb] in E. injection E as <-. specialize (Hlt Hne). lia.
Qed.

(** ** Key exchange *)

Lemma word_bytes b0 b1 b2 b3 : byte b0 -> byte b1 -> byte b2 -> byte b3 ->
  Z.lor (Z.lor (Z.lor b0 (shl b1 8)) (shl b2 16)) (shl b3 24) = of_le [b0; b1; b2; b3].
Proof.
  unfold byte, shl, u32. intros H0 H1 H2 H3. rewrite !Z.shiftl_mul_pow2, !Z.mod_small by lia.
  rewrite (lor_disjoint b0 b1 8), (lor_disjoint _ b2 16), (lor_disjoint _ b3 24) by lia. cbn [of_le]. lia.
Qed.

Lemma block_range bs : Forall byte bs -> 0 <= of_le bs < 256 ^ Z.of_nat (List.length bs).
Proof.
  induction 1 as [|b bs Hb _ IH]; [done|]. cbn [of_le List.length]. rewrite Nat2Z.inj_succ, Z.pow_succ_r by lia.
  unfold byte in Hb. lia.
Qed.

(** The number an 8-byte string stands for, as [read64] puts it together. *)
Lemma words_join (x : list Z) : block8 x -> exists w : Z * Z, Crypt.words x = Ok w /\ join w = of_le x /\ lenz x = 8.
Proof.
  intros [Hl Hb]. do 8 (destruct x as [|? x]; [done|]). destruct x; [|done].
  repeat (apply Forall_cons in Hb as [? Hb]). eexists. split; [reflexivity|]. split; [|done].
  unfold join. cbn [fst snd]. rewrite !word_bytes by done. unfold u64.
  pose proof (block_range [z; z0; z1; z2] ltac:(repeat (apply Forall_cons; split; [done|]); done)) as R1.
  pose proof (block_range [z3; z4; z5; z6] ltac:(repeat (apply Forall_cons; split; [done|]); done)) as R2. cbn [List.length] in R1, R2.
  change (256 ^ Z.of_nat 4) with (2^32) in R1, R2.
  rewrite Z.shiftl_mul_pow2, Z.mod_small, lor_disjoint by lia. cbn [of_le]. lia.
Qed.

Lemma push64_bytes v : push64 v = Ok (Pushed (to_le 8 v)).
Proof.
  unfold push64, shr. change 0xff with (2^8 - 1). rewrite !land_mask, !Z.shiftr_div_pow2 by lia.
  unfold push. change (lenz _ <? 8) with false. cbv iota. cbn [take Z.to_nat Pos.to_nat Pos.iter_op Nat.add to_le].
  rewrite !Z.div_div by lia. done.
Qed.

Lemma power_nonzero x : 0 <= x -> G ^ x mod P <> 0.
Proof.
  intros Hx E. pose proof P_range as HP. apply Z.mod_divide in E; [|lia].
  assert (Hc : Z.coprime P (G ^ x)) by (apply Z.coprime_pow_r; [done|]; by vm_compute).
  assert (H1 : (P | 1)) by (rewrite <- Hc; apply Z.gcd_greatest; [apply Z.divide_refl|done]).
  apply Z.divide_1_r in H1. lia.
Qed.

Lemma le_block v : block8 (to_le 8 v).
Proof. split; [apply le_length|]. repeat constructor; apply Z.mod_pos_bound; lia. Qed.

Lemma exchange_spec x : block8 x -> of_le x <> 0 -> ldhexchange x = Ok (Pushed (to_le 8 (G ^ of_le x mod P))).
Proof.
  intros Hx Hn. destruct (words_join x Hx) as (w & Ew & Ej & El). unfold ldhexchange. rewrite El. cbn [Z.eqb Pos.eqb negb].
  rewrite Ew, bind_ret, Ej. destruct (Z.eqb_spec (of_le x) 0); [done|].
  pose proof (block_range x (proj2 Hx)) as Hr. rewrite (proj1 Hx) in Hr. change (256 ^ Z.of_nat 8) with (2^64) in Hr.
  destruct (powmodp_is_power G (of_le x)) as (v & -> & _ & _ & Hv); [done|lia|]. rewrite bind_ret, push64_bytes, Hv; done.
Qed.

Lemma secret_spec x y : block8 x -> block8 y -> 0 < of_le x < P -> of_le y <> 0 ->
  ldhsecret x y = Ok (Pushed (to_le 8 (of_le x ^ of_le y mod P))).
Proof.
  intros Hx Hy Hn Hm. destruct (words_join x Hx) as (w & Ew & Ej & El). destruct (words_join y Hy) as (u & Eu & Ek & Em).
  unfold ldhsecret, read64. rewrite El, Em. cbn [Z.eqb Pos.eqb negb]. rewrite Ew, bind_ret, Eu, !bind_ret, Ej, Ek.
  destruct (Z.eqb_spec (of_le x) 0); [lia|]. destruct (Z.eqb_spec (of_le y) 0); [done|]. cbn [orb].
  pose proof (block_range y (proj2 Hy)) as Hr. rewrite (proj1 Hy) in Hr. change (256 ^ Z.of_nat 8) with (2^64) in Hr.
  pose proof P_range. destruct (powmodp_is_power (of_le x) (of_le y)) as (v & -> & _ & _ & Hv); [lia|lia|].
  rewrite bind_ret, push64_bytes, Hv; [done|lia].
Qed.

(** C28.  Diffie-Hellman: two sides with private keys that are not 0 each send
    [dhexchange] of their own; neither call raises an error, and [dhsecret] of what
    they received and their own key gives both the same 8 bytes, the generator to
    the power of the product of the keys. *)
Theorem dh_sides_agree x y :
  block8 x -> block8 y -> of_le x <> 0 -> of_le y <> 0 ->
  exists A B s, ldhexchange x = Ok (Pushed A) /\ ldhexchange y = Ok (Pushed B) /\
    ldhsecret B x = Ok (Pushed s) /\ ldhsecret A y = Ok (Pushed s) /\
    of_le s = G ^ (of_le x * of_le y) mod P.
Proof.
  intros Hx Hy Hx0 Hy0. pose proof P_range as HP.
  assert (Hback : forall v, of_le (to_le 8 (v mod P)) = v mod P).
  { intros v. rewrite of_le_le. apply Z.mod_small. pose proof (Z.mod_pos_bound v P ltac:(lia)). change (256 ^ Z.of_nat 8) with (2^64). lia. }
  assert (Hpos : forall z, block8 z -> 0 <= of_le z) by (intros z [_ Hz]; by apply block_range).
  assert (Hrange : forall z, block8 z -> 0 < of_le (to_le 8 (G ^ of_le z mod P)) < P).
  { intros z Hz. rewrite Hback. pose proof (power_nonzero _ (Hpos z Hz)). pose proof (Z.mod_pos_bound (G ^ of_le z) P ltac:(lia)). lia. }
  exists (to_le 8 (G ^ of_le x mod P)), (to_le 8 (G ^ of_le y mod P)), (to_le 8 (G ^ (of_le x * of_le y) mod P)).
  rewrite !exchange_spec, !secret_spec by auto using le_block. rewrite !Hback. split; [done|]. split; [done|].
  rewrite <- !Zpower_mod, <- !Z.pow_mul_r by (auto; lia). rewrite (Z.mul_comm (of_le y)). done.
Qed.

Lemma dh_sides_agree_witness : exists A B s, ldhexchange [1; 0; 0; 0; 0; 0; 0; 9] = Ok (Pushed A) /\
  ldhexchange [2; 2; 2; 2; 2; 2; 2; 2] = Ok (Pushed B) /\
  ldhsecret B [1; 0; 0; 0; 0; 0; 0; 9] = Ok (Pushed s) /\ ldhsecret A [2; 2; 2; 2; 2; 2; 2; 2] = Ok (Pushed s).
Proof.
  destruct (dh_sides_agree [1; 0; 0; 0; 0; 0; 0; 9] [2; 2; 2; 2; 2; 2; 2; 2]) as (A & B & s & H1 & H2 & H3 & H4 & _).
  - split; [reflexivity|]. repeat constructor; done.
  - split; [reflexivity|]. repeat constructor; done.
  - vm_compute. discriminate.
  - vm_compute. discriminate.
  - exists A, B, s. split; [exact H1|]. split; [exact H2|]. split; [exact H3|exact H4].
Defined.

(** ** Base64 *)

Definition index_ok (i : Z) : bool :=
  match arr_get encoding i with
  | Ok c => match b64index c with Ok j => j =? i | Fault _ => false end
  | Fault _ => false
  end.

(** The two tables agree. *)
Lemma encoding_index i : 0 <= i < 64 -> exists c, arr_get encoding i = Ok c /\ b64index c = Ok i.
Proof.
  intros Hi. assert (Hall : forallb index_ok (seqZ 0 64) = true) by (vm_compute; reflexivity).
  rewrite forallb_forall in Hall. specialize (Hall i ltac:(apply list_elem_of_In, elem_of_seqZ; lia)).
  unfold index_ok in Hall. destruct (arr_get encoding i) as [c|]; [|done]. exists c. split; [done|].
  destruct (b64index c) as [j|]; [|done]. by apply Z.eqb_eq in Hall as ->.
Qed.

(** Four characters that stand for the bytes [b]. *)
Definition coded (b e : list Z) : Prop :=
  exists padding c, (forall rest, b64_quad (e ++ rest) 4 0 [] = Ok (Some (padding, c, rest))) /\
    b64_group padding c = Ok (Some b) /\ List.length e = 4%nat.

Lemma quad_next ch x text j padding c : b64index ch = Ok x -> 0 <= x ->
  b64_quad (ch :: text) (S j) padding c = b64_quad text j padding (c ++ [x]).
Proof.
  intros E Hx. cbn [b64_quad]. rewrite E, bind_ret. destruct (Z.eqb_spec x (-1)); [lia|]. by destruct (Z.eqb_spec x (-2)); [lia|].
Qed.

Lemma quad_eq text j padding c : b64_quad (eq_sign :: text) (S j) padding c = b64_quad text j (padding + 1) (c ++ [-2]).
Proof. reflexivity. Qed.

Lemma quad_end text padding c : b64_quad text 0 padding c = Ok (Some (padding, c, text)).
Proof. by destruct text. Qed.

Lemma land63 x : Z.land x 0x3f = x mod 64.
Proof. by apply (land_mask x 6). Qed.
Lemma land255 x : Z.land x 0xff = x mod 256.
Proof. by apply (land_mask x 8). Qed.

Lemma three_bytes t0 t1 t2 : byte t0 -> byte t1 -> byte t2 ->
  Z.lor (Z.lor (Z.shiftl t0 16) (Z.shiftl t1 8)) t2 = t0 * 2^16 + t1 * 2^8 + t2.
Proof.
  unfold byte. intros H0 H1 H2. rewrite !Z.shiftl_mul_pow2 by lia. rewrite (Z.lor_comm (t0 * 2^16)), (lor_disjoint (t1 * 2^8) t0 16) by lia.
  replace (t1 * 2^8 + t0 * 2^16) with ((t1 + t0 * 2^8) * 2^8) by lia. rewrite Z.lor_comm, (lor_disjoint t2 _ 8) by lia. lia.
Qed.

Lemma four_sextets v : 0 <= v < 2^24 ->
  Z.lor (Z.lor (Z.lor (Z.shiftl (v / 2^18) 18) (Z.shiftl (v / 2^12 mod 64) 12)) (Z.shiftl (v / 2^6 mod 64) 6)) (v mod 64) = v.
Proof.
  intros Hv. rewrite !Z.shiftl_mul_pow2 by lia.
  change (2^18) with (64*64*64). change (2^12) with (64*64). change (2^6) with 64. rewrite <- !Z.div_div by lia.
  set (a := v / 64). set (b := a / 64).
  pose proof (Z.div_mod v 64 ltac:(lia)) as E1. fold a in E1. pose proof (Z.div_mod a 64 ltac:(lia)) as E2. fold b in E2.
  pose proof (Z.div_mod b 64 ltac:(lia)) as E3. pose proof (Z.mod_pos_bound v 64 ltac:(lia)). pose proof (Z.mod_pos_bound a 64 ltac:(lia)).
  pose proof (Z.mod_pos_bound b 64 ltac:(lia)). assert (0 <= b / 64) by (unfold b, a; rewrite !Z.div_div by lia; apply Z.div_pos; lia).
  rewrite (Z.lor_comm (b / 64 * _)). change (64*64*64) with (2^18). rewrite (lor_disjoint (b mod 64 * (64*64)) _ 18) by lia.
  replace (b mod 64 * (64 * 64) + b / 64 * 2^18) with (b * 2^12) by lia. rewrite (Z.lor_comm (b * 2^12)), (lor_disjoint (a mod 64 * 64) _ 12) by lia.
  replace (a mod 64 * 64 + b * 2^12) with (a * 2^6) by lia. rewrite Z.lor_comm, (lor_disjoint (v mod 64) _ 6) by lia. lia.
Qed.

Lemma split_three t0 t1 t2 : byte t0 -> byte t1 -> byte t2 -> let v := t0 * 2^16 + t1 * 2^8 + t2 in
  0 <= v < 2^24 /\ v / 2^16 = t0 /\ v / 2^8 mod 256 = t1 /\ v mod 256 = t2.
Proof.
  unfold byte. intros H0 H1 H2. cbv zeta. split; [lia|].
  split; [|split].
  - rewrite <- Z.add_assoc, Z.div_add_l, Z.div_small by lia. lia.
  - replace (t0 * 2^16 + t1 * 2^8 + t2) with ((t0 * 256 + t1) * 2^8 + t2) by lia. rewrite Z.div_add_l, Z.div_small by lia.
    rewrite Z.add_0_r, Z.add_comm, Z.mod_add, Z.mod_small by lia. done.
  - replace (t0 * 2^16 + t1 * 2^8 + t2) with (t2 + (t0 * 256 + t1) * 256) by lia. rewrite Z.mod_add, Z.mod_small by lia. done.
Qed.

(** The four numbers of a group. *)
Lemma group_cells padding c0 c1 c2 c3 : b64_group padding [c0; c1; c2; c3] =
  if padding =? 0 then
    let v := Z.lor (Z.lor (Z.lor (Z.shiftl c0 18) (Z.shiftl c1 12)) (Z.shiftl c2 6)) c3 in
    Ok (Some [u8 (Z.shiftr v 16); Z.land (Z.shiftr v 8) 0xff; Z.land v 0xff])
  else if padding =? 1 then
    if negb (c3 =? -2) || negb (Z.land c2 3 =? 0) then Ok None
    else
      let v := Z.lor (Z.lor (Z.shiftl c0 10) (Z.shiftl c1 4)) (Z.shiftr c2 2) in
      Ok (Some [u8 (Z.shiftr v 8); Z.land v 0xff])
  else if padding =? 2 then
    if negb (c3 =? -2) || negb (c2 =? -2) || negb (Z.land c1 0xf =? 0) then Ok None
    else Ok (Some [u8 (Z.lor (Z.shiftl c0 2) (Z.shiftr c1 4))])
  else Ok None.
Proof. reflexivity. Qed.

(** A whole group. *)
Lemma group3 t0 t1 t2 : byte t0 -> byte t1 -> byte t2 -> let v := Z.lor (Z.lor (Z.shiftl t0 16) (Z.shiftl t1 8)) t2 in
  exists c0 c1 c2 c3, arr_get encoding (Z.shiftr v 18) = Ok c0 /\ arr_get encoding (Z.land (Z.shiftr v 12) 0x3f) = Ok c1 /\
    arr_get encoding (Z.land (Z.shiftr v 6) 0x3f) = Ok c2 /\ arr_get encoding (Z.land v 0x3f) = Ok c3 /\
    coded [t0; t1; t2] [c0; c1; c2; c3].
Proof.
  intros H0 H1 H2. cbv zeta. rewrite three_bytes by done. destruct (split_three t0 t1 t2 H0 H1 H2) as (Hv & E0 & E1 & E2).
  set (v := t0 * 2^16 + t1 * 2^8 + t2) in *. rewrite !land63, !Z.shiftr_div_pow2 by lia.
  assert (Hs : 0 <= v / 2^18 < 64) by (split; [apply Z.div_pos|apply Z.div_lt_upper_bound]; lia).
  destruct (encoding_index _ Hs) as (c0 & A0 & I0).
  destruct (encoding_index (v / 2^12 mod 64)) as (c1 & A1 & I1); [apply Z.mod_pos_bound; lia|].
  destruct (encoding_index (v / 2^6 mod 64)) as (c2 & A2 & I2); [apply Z.mod_pos_bound; lia|].
  destruct (encoding_index (v mod 64)) as (c3 & A3 & I3); [apply Z.mod_pos_bound; lia|].
  exists c0, c1, c2, c3. split_and!; try done. exists 0, [v / 2^18; v / 2^12 mod 64; v / 2^6 mod 64; v mod 64].
  split; [|split; [|done]].
  - intros rest. cbn [app]. rewrite (quad_next _ _ _ _ _ _ I0), (quad_next _ _ _ _ _ _ I1), (quad_next _ _ _ _ _ _ I2), (quad_next _ _ _ _ _ _ I3)
      by (try lia; apply Z.mod_pos_bound; lia). apply quad_end.
  - rewrite group_cells. cbn [Z.eqb].
    rewrite four_sextets, !land255, !Z.shiftr_div_pow2, E0, E1, E2 by lia. unfold u8. rewrite Z.mod_small by done. done.
Qed.

(** The last one or two bytes. *)
Lemma group1 v : byte v -> exists c0 c1, arr_get encoding (Z.shiftr v 2) = Ok c0 /\
  arr_get encoding (Z.shiftl (Z.land v 3) 4) = Ok c1 /\ coded [v] [c0; c1; eq_sign; eq_sign].
Proof.
  intros Hv. unfold byte in Hv. change 3 with (2^2 - 1). rewrite land_mask, Z.shiftl_mul_pow2, Z.shiftr_div_pow2 by lia.
  pose proof (Z.mod_pos_bound v (2^2) ltac:(lia)). pose proof (Z.div_mod v (2^2) ltac:(lia)).
  assert (0 <= v / 2^2 < 64) by (split; [apply Z.div_pos|apply Z.div_lt_upper_bound]; lia).
  destruct (encoding_index (v / 2^2)) as (c0 & A0 & I0); [done|].
  destruct (encoding_index (v mod 2^2 * 2^4)) as (c1 & A1 & I1); [lia|].
  exists c0, c1. split; [done|]. split; [done|]. exists 2, [v / 2^2; v mod 2^2 * 2^4; -2; -2]. split; [|split; [|done]].
  - intros rest. cbn [app]. rewrite (quad_next _ _ _ _ _ _ I0), (quad_next _ _ _ _ _ _ I1), !quad_eq by lia. apply quad_end.
  - rewrite group_cells. cbn [Z.eqb Pos.eqb negb orb]. change 0xf with (2^4 - 1). rewrite land_mask, Z.mod_mul by lia. cbn [Z.eqb negb].
    rewrite Z.shiftl_mul_pow2, Z.shiftr_div_pow2, Z.div_mul, Z.lor_comm, lor_disjoint by lia. unfold u8. rewrite Z.mod_small by lia. do 3 f_equal. lia.
Qed.

Lemma group2 t0 t1 : byte t0 -> byte t1 -> let v := Z.lor (Z.shiftl t0 8) t1 in
  exists c0 c1 c2, arr_get encoding (Z.shiftr v 10) = Ok c0 /\ arr_get encoding (Z.land (Z.shiftr v 4) 0x3f) = Ok c1 /\
    arr_get encoding (Z.shiftl (Z.land v 0xf) 2) = Ok c2 /\ coded [t0; t1] [c0; c1; c2; eq_sign].
Proof.
  unfold byte. intros H0 H1. cbv zeta. rewrite (Z.shiftl_mul_pow2 t0), (Z.lor_comm (t0 * 2^8)), lor_disjoint by lia.
  set (v := t1 + t0 * 2^8). assert (Hv : 0 <= v < 2^16) by lia.
  rewrite land63. change 0xf with (2^4 - 1). rewrite land_mask, Z.shiftl_mul_pow2, !Z.shiftr_div_pow2 by lia.
  set (a := v / 2^4). assert (Ea : v / 2^10 = a / 64) by (unfold a; rewrite Z.div_div by lia; done). rewrite Ea.
  pose proof (Z.div_mod v (2^4) ltac:(lia)) as D1. fold a in D1. pose proof (Z.div_mod a 64 ltac:(lia)) as D2.
  pose proof (Z.mod_pos_bound v (2^4) ltac:(lia)). pose proof (Z.mod_pos_bound a 64 ltac:(lia)).
  destruct (encoding_index (a / 64)) as (c0 & A0 & I0); [rewrite <- Ea; split; [apply Z.div_pos|apply Z.div_lt_upper_bound]; lia|].
  destruct (encoding_index (a mod 64)) as (c1 & A1 & I1); [lia|].
  destruct (encoding_index (v mod 2^4 * 2^2)) as (c2 & A2 & I2); [lia|].
  exists c0, c1, c2. split_and!; try done. exists 1, [a / 64; a mod 64; v mod 2^4 * 2^2; -2]. split; [|split; [|done]].
  - intros rest. cbn [app]. rewrite (quad_next _ _ _ _ _ _ I0), (quad_next _ _ _ _ _ _ I1), (quad_next _ _ _ _ _ _ I2), quad_eq by lia. apply quad_end.
  - rewrite group_cells. cbn [Z.eqb Pos.eqb negb orb]. change 3 with (2^2 - 1). rewrite land_mask, Z.mod_mul by lia. cbn [Z.eqb negb].
    assert (Ev : Z.lor (Z.lor (Z.shiftl (a / 64) 10) (Z.shiftl (a mod 64) 4)) (Z.shiftr (v mod 2^4 * 2^2) 2) = v).
    { rewrite !Z.shiftl_mul_pow2, Z.shiftr_div_pow2, Z.div_mul by lia. rewrite (Z.lor_comm (a / 64 * 2^10)), (lor_disjoint (a mod 64 * 2^4) _ 10) by lia.
      replace (a mod 64 * 2^4 + a / 64 * 2^10) with (a * 2^4) by lia. rewrite Z.lor_comm, (lor_disjoint (v mod 2^4) a 4) by lia. lia. }
    rewrite Ev, land255, Z.shiftr_div_pow2 by lia. unfold v, u8. rewrite Z.div_add, Z.div_small, Z.add_0_l, Z.mod_small by lia.
    rewrite (Z.add_comm t1). change (2^8) with 256. rewrite Z.add_comm, Z.mod_add, Z.mod_small by lia. done.
Qed.

Lemma arr_get_app pre l j : 0 <= j -> arr_get (pre ++ l) (lenz pre + j) = arr_get l j.
Proof.
  intros Hj. unfold arr_get, lenz. destruct (Z.ltb_spec (Z.of_nat (List.length pre) + j) 0); [lia|]. destruct (Z.ltb_spec j 0); [lia|].
  rewrite lookup_app_r by lia. by replace (Z.to_nat (Z.of_nat (List.length pre) + j) - List.length pre)%nat with (Z.to_nat j) by lia.
Qed.

Lemma lenz_app a b : lenz (a ++ b) = lenz a + lenz b.
Proof. unfold lenz. rewrite length_app. lia. Qed.

(** The loop over whole groups. *)
Lemma b64_loop_groups cap rest bs : Forall (fun b => List.length b = 3%nat) bs -> Forall byte (concat bs) ->
  exists es, Forall2 coded bs es /\
  forall fuel pre limit out, (List.length bs < fuel)%nat ->
    lenz pre + 3 * Z.of_nat (List.length bs) - 3 < limit <= lenz pre + 3 * Z.of_nat (List.length bs) ->
    lenz out + 4 * Z.of_nat (List.length bs) <= cap ->
    b64_loop fuel (pre ++ concat bs ++ rest) cap limit (lenz pre) out
      = Ok (lenz pre + 3 * Z.of_nat (List.length bs), out ++ concat es).
Proof.
  induction 1 as [|b bs Hb _ IH]; intros Hby.
  - exists []. split; [constructor|]. intros [|fuel] pre limit out Hf Hlim Hcap; [cbn in Hf; lia|]. cbn [b64_loop].
    destruct (Z.ltb_spec (lenz pre) limit); [cbn [List.length] in Hlim; lia|]. cbn [List.length concat]. by rewrite app_nil_r, Z.add_0_r.
  - cbn [concat] in Hby. apply Forall_app in Hby as [Hbb Hby]. destruct (IH Hby) as (es & HF & Hloop).
    do 3 (destruct b as [|? b]; [done|]). destruct b; [|done]. repeat (apply Forall_cons in Hbb as [? Hbb]).
    destruct (group3 z z0 z1) as (c0 & c1 & c2 & c3 & A0 & A1 & A2 & A3 & Hc); try done.
    exists ([c0; c1; c2; c3] :: es). split; [by constructor|].
    intros [|fuel] pre limit out Hf Hlim Hcap; [cbn in Hf; lia|]. cbn [b64_loop List.length] in *.
    destruct (Z.ltb_spec (lenz pre) limit); [|lia]. cbn [concat]. rewrite <- app_assoc.
    rewrite <- (Z.add_0_r (lenz pre)) at 1. rewrite !arr_get_app by lia. cbn [app].
    change (arr_get (z :: z0 :: z1 :: concat bs ++ rest) 0) with (Ok z). change (arr_get (z :: z0 :: z1 :: concat bs ++ rest) 1) with (Ok z0).
    change (arr_get (z :: z0 :: z1 :: concat bs ++ rest) 2) with (Ok z1). rewrite !bind_ret, A0, bind_ret, A1, bind_ret, A2, bind_ret, A3, bind_ret.
    rewrite emit_ok, bind_ret by (change (lenz [c0; c1; c2; c3]) with 4; lia).
    specialize (Hloop fuel (pre ++ [z; z0; z1]) limit (out ++ [c0; c1; c2; c3])). rewrite !lenz_app in Hloop.
    change (lenz [z; z0; z1]) with 3 in Hloop. change (lenz [c0; c1; c2; c3]) with 4 in Hloop. rewrite <- !app_assoc in Hloop. cbn [app] in Hloop.
    rewrite Hloop by lia. do 2 f_equal. lia.
Qed.

Lemma decode_groups cap bs es : Forall2 coded bs es -> forall fuel out, (List.length es < fuel)%nat -> lenz out + lenz (concat bs) <= cap ->
  b64_decode_loop fuel (concat es) cap out = Ok (inl (out ++ concat bs)).
Proof.
  induction 1 as [|b e bs es (pd & c & Hq & Hg & Hl) HF IH]; intros [|fuel] out Hf Hcap; cbn [List.length] in Hf; try lia.
  - cbn. by rewrite app_nil_r.
  - cbn [concat] in *. rewrite lenz_app in Hcap. specialize (Hq (concat es)). destruct e as [|x e]; [done|].
    cbn [app] in Hq |- *. cbn [b64_decode_loop]. rewrite Hq, bind_ret, Hg, bind_ret.
    rewrite emit_ok, bind_ret by (unfold lenz in *; lia). rewrite IH; [by rewrite <- app_assoc|lia|]. rewrite lenz_app. lia.
Qed.

(** The last, shorter group. *)
Lemma b64_last pre rest cap out : (List.length rest < 3)%nat -> Forall byte rest -> (rest <> [] -> lenz out + 4 <= cap) ->
  exists es, Forall2 coded (if decide (rest = []) then [] else [rest]) es /\
  b64_tail (pre ++ rest) cap (lenz pre) (lenz rest) out = Ok (out ++ concat es).
Proof.
  intros Hl Hb Hcap. unfold b64_tail. pose proof (arr_get_app pre rest 0 ltac:(lia)) as G0. rewrite Z.add_0_r in G0.
  destruct rest as [|t0 [|t1 [|? rest]]]; [| | |cbn in Hl; lia].
  - exists []. split; [constructor|]. cbn [concat]. rewrite (app_nil_r out). reflexivity.
  - apply Forall_cons in Hb as [H0 _]. destruct (group1 t0 H0) as (c0 & c1 & A0 & A1 & Hc). exists [[c0; c1; eq_sign; eq_sign]].
    split; [rewrite decide_False by done; constructor; [done|constructor]|]. change (lenz [t0] =? 1) with true. cbv iota. rewrite G0. change (arr_get [t0] 0) with (Ok t0).
    rewrite bind_ret, A0, bind_ret, A1, bind_ret. by apply emit_ok, Hcap.
  - apply Forall_cons in Hb as [H0 Hb]. apply Forall_cons in Hb as [H1 _]. destruct (group2 t0 t1 H0 H1) as (c0 & c1 & c2 & A0 & A1 & A2 & Hc).
    exists [[c0; c1; c2; eq_sign]]. split; [rewrite decide_False by done; constructor; [done|constructor]|]. change (lenz [t0; t1] =? 1) with false. change (lenz [t0; t1] =? 2) with true. cbv iota.
    rewrite G0, arr_get_app by lia. change (arr_get [t0; t1] 0) with (Ok t0). change (arr_get [t0; t1] 1) with (Ok t1).
    rewrite !bind_ret. cbv zeta. rewrite A0, bind_ret, A1, bind_ret, A2, bind_ret. by apply emit_ok, Hcap.
Qed.

Lemma coded_length bs es : Forall2 coded bs es -> List.length (concat es) = (4 * List.length bs)%nat.
Proof. induction 1 as [|b e bs es (pd & c & _ & _ & Hl) _ IH]; [done|]. cbn [concat List.length]. rewrite length_app, Hl, IH. lia. Qed.

(** Base64 round-trips: for every text that is not too long for an [int],
    [base64encode] gives 4 characters for every 3 bytes begun and [base64decode]
    gives the text back. *)
Theorem base64_roundtrip text :
  Forall byte text -> lenz text < 2^30 ->
  exists e, lb64encode text = Ok (Pushed e) /\ lenz e = (lenz text + 2) / 3 * 4 /\ lb64decode e = Ok (Pushed text).
Proof.
  intros Hb Hlen. destruct (chunks 3 text ltac:(lia)) as (bs & rest & Et & Hbs & Hr).
  pose proof (length_chunks 3 bs Hbs) as Hcl. rewrite Et in Hb. apply Forall_app in Hb as [Hb Hbr].
  set (n := Z.of_nat (List.length bs)). assert (Hn : lenz (concat bs) = 3 * n) by (unfold lenz; rewrite Hcl; lia).
  assert (Hl : lenz text = 3 * n + lenz rest) by (rewrite Et, lenz_app; lia). unfold lenz in Hr.
  set (last := if decide (rest = []) then [] else [rest]).
  assert (Hsz : (lenz text + 2) / 3 * 4 = 4 * Z.of_nat (List.length (bs ++ last))).
  { rewrite Hl, length_app. unfold last, lenz. destruct rest as [|? [|? [|? ?]]]; cbn in Hr; try lia; cbn [decide List.length];
      [rewrite decide_True by done|rewrite decide_False by done..]; cbn [List.length];
      [replace (3 * n + Z.of_nat 0 + 2) with (n * 3 + 2) by lia|replace (3 * n + Z.of_nat 1 + 2) with ((n + 1) * 3 + 0) by lia
       |replace (3 * n + Z.of_nat 2 + 2) with ((n + 1) * 3 + 1) by lia]; rewrite Z.div_add_l by lia;
      [change (2 / 3) with 0|change (0 / 3) with 0|change (1 / 3) with 0]; lia. }
  assert (Hcount : 3 * Z.of_nat (List.length (bs ++ last)) >= lenz text /\ Z.of_nat (List.length (bs ++ last)) <= n + 1).
  { rewrite length_app, Hl. unfold last, lenz. destruct (decide (rest = [])) as [->|]; cbn [List.length]; lia. }
  unfold lb64encode. rewrite Hsz. set (encode_sz := 4 * Z.of_nat (List.length (bs ++ last))) in *.
  assert (Hint : forall z, 0 <= z < 2^31 -> i32 z = z) by (intros z Hz; unfold i32; rewrite Z.mod_small; lia).
  rewrite !Hint by (unfold lenz in *; lia). pose proof (cap_enough encode_sz) as Hcap. set (cap := if SMALL_CHUNK <? encode_sz then _ else _) in *.
  destruct (b64_loop_groups cap rest bs Hbs Hb) as (es & HF & Hloop). specialize (Hloop (S (List.length text)) [] (lenz text - 2) []).
  assert (Hn4 : 4 * n <= encode_sz) by (unfold encode_sz; rewrite length_app; lia).
  cbn [app] in Hloop. rewrite <- Et in Hloop. change (lenz []) with 0 in Hloop. fold n in Hloop. rewrite Z.add_0_l in Hloop.
  rewrite Hloop; [|rewrite Et, length_app, Hcl; lia|unfold lenz in *; lia|lia]. rewrite bind_ret.
  replace (lenz text - 3 * n) with (lenz rest) by lia. rewrite Hint by (unfold lenz; lia).
  assert (He : lenz (concat es) = 4 * n) by (unfold lenz; rewrite (coded_length _ _ HF); lia).
  destruct (b64_last (concat bs) rest cap (concat es) Hr Hbr) as (es2 & HF2 & Hlast).
  { intros Hne. unfold encode_sz, last in Hcap. rewrite decide_False, length_app in Hcap by done. cbn [List.length] in Hcap. fold n in Hcap. lia. }
  fold last in HF2. rewrite Hn, <- Et in Hlast. rewrite Hlast, bind_ret.
  assert (Eall : concat (bs ++ last) = text).
  { rewrite concat_app, Et. unfold last. destruct (decide (rest = [])) as [->|]; [done|]. cbn [concat]. by rewrite app_nil_r. }
  pose proof (Forall2_app HF HF2) as HFa. rewrite <- concat_app. set (e := concat (es ++ es2)) in *.
  assert (Ez : lenz e = encode_sz) by (unfold lenz, e; rewrite (coded_length _ _ HFa); unfold encode_sz; lia).
  exists e. split; [rewrite <- (app_nil_r e) at 1; by rewrite push_ok|]. split; [done|].
  unfold lb64decode. rewrite Ez.
  assert (Ed : (encode_sz + 3) / 4 * 3 = 3 * Z.of_nat (List.length (bs ++ last))).
  { unfold encode_sz. replace (4 * Z.of_nat (List.length (bs ++ last)) + 3) with (Z.of_nat (List.length (bs ++ last)) * 4 + 3) by lia.
    rewrite Z.div_add_l by lia. change (3 / 4) with 0. lia. }
  rewrite Ed, Hint by (unfold lenz in *; lia). pose proof (cap_enough (3 * Z.of_nat (List.length (bs ++ last)))) as Hc3.
  unfold e. rewrite (decode_groups _ _ _ HFa), Eall, bind_ret.
  - cbn [app]. rewrite <- (app_nil_r text) at 1. by rewrite push_ok.
  - fold e. pose proof (Forall2_length _ _ _ HFa). unfold lenz in Ez. unfold encode_sz in Ez. lia.
  - rewrite Eall. change (lenz []) with 0. lia.
Qed.

Lemma base64_roundtrip_witness : exists e, lb64encode [1; 2; 3; 250] = Ok (Pushed e) /\ lenz e = 8 /\ lb64decode e = Ok (Pushed [1; 2; 3; 250]).
Proof.
  destruct (base64_roundtrip [1; 2; 3; 250]) as (e & E & Hl & D).
  - repeat constructor; done.
  - vm_compute. reflexivity.
  - exists e. split; [exact E|]. split; [exact Hl|exact D].
Defined.

(** ** Decoding whatever comes *)

Lemma b64index_ok c : byte c -> exists x, b64index c = Ok x.
Proof.
  unfold byte, b64index. intros Hc. destruct (Z.ltb_spec c 43); [by eexists|]. destruct (Z.leb_spec (lenz decoding) (c - 43)); [by eexists|].
  unfold arr_get. destruct (Z.ltb_spec (c - 43) 0); [lia|].
  destruct (lookup_lt_is_Some_2 decoding (Z.to_nat (c - 43))) as [x ->]; [unfold lenz in *; lia|]. by eexists.
Qed.

Lemma quad_safe text : Forall byte text -> forall j padding c,
  b64_quad text j padding c = Ok None \/
  exists padding' c' rest, b64_quad text j padding c = Ok (Some (padding', c', rest)) /\
    List.length c' = (List.length c + j)%nat /\ (List.length rest + j <= List.length text)%nat /\ Forall byte rest.
Proof.
  induction 1 as [|ch text Hch Hb IH]; intros [|j] padding c; cbn [b64_quad].
  - right. eexists _, _, _. split; [done|]. split; [lia|]. by split; [cbn; lia|].
  - by left.
  - right. eexists _, _, _. split; [done|]. split; [lia|]. split; [cbn; lia|by constructor].
  - destruct (b64index_ok ch Hch) as [x ->]. rewrite bind_ret. destruct (x =? -1).
    + destruct (IH (S j) padding c) as [->|(p & c' & rest & -> & H1 & H2 & H3)]; [by left|right].
      eexists _, _, _. split; [done|]. cbn [List.length]. split; [lia|]. split; [lia|done].
    + destruct (IH j (if x =? -2 then padding + 1 else padding) (c ++ [x])) as [->|(p & c' & rest & -> & H1 & H2 & H3)]; [by left|right].
      rewrite length_app in H1. cbn [List.length] in *. eexists _, _, _. split; [done|]. split; [lia|]. split; [lia|done].
Qed.

Lemma group_safe padding c : List.length c = 4%nat ->
  b64_group padding c = Ok None \/ exists bytes, b64_group padding c = Ok (Some bytes) /\ lenz bytes <= 3.
Proof.
  intros Hc. do 4 (destruct c as [|? c]; [done|]). destruct c; [|done]. rewrite group_cells.
  destruct (padding =? 0); [right; by eexists|]. destruct (padding =? 1).
  { destruct (_ || _); [by left|right; by eexists]. }
  destruct (padding =? 2); [|by left]. destruct (_ || _); [by left|right; by eexists].
Qed.

Lemma decode_safe cap fuel : forall text out, Forall byte text -> (List.length text < fuel)%nat -> 4 * lenz out + 3 * lenz text <= 4 * cap ->
  b64_decode_loop fuel text cap out = Ok (inr InvalidBase64) \/
  exists out', b64_decode_loop fuel text cap out = Ok (inl out') /\ 4 * lenz out' <= 4 * lenz out + 3 * lenz text.
Proof.
  induction fuel as [|fuel IH]; intros text out Hb Hf Hcap; [lia|]. cbn [b64_decode_loop]. destruct text as [|ch text].
  { right. exists out. split; [done|]. change (lenz []) with 0. lia. }
  destruct (quad_safe (ch :: text) Hb 4 0 []) as [->|(p & c & rest & -> & H1 & H2 & H3)]; rewrite bind_ret; [by left|].
  destruct (group_safe p c H1) as [->|(bytes & -> & Hl)]; rewrite bind_ret; [by left|].
  unfold lenz in *. rewrite emit_ok, bind_ret by (unfold lenz; lia).
  destruct (IH rest (out ++ bytes) H3) as [E|(out' & E & Ho)]; [lia|rewrite length_app; lia|by left|].
  right. exists out'. split; [done|]. rewrite length_app in Ho. lia.
Qed.

(** [base64decode] is safe on every input: it reads and writes only inside its
    buffers, ends, and either raises its error or gives at most 3 bytes for every 4
    characters. *)
Theorem base64_decode_safe text :
  Forall byte text -> lenz text < 2^30 ->
  lb64decode text = Ok (Error InvalidBase64) \/
  exists out, lb64decode text = Ok (Pushed out) /\ 4 * lenz out <= 3 * lenz text.
Proof.
  intros Hb Hlen. unfold lb64decode.
  assert (Hd : (lenz text + 3) / 4 * 3 < 2^31 /\ 3 * lenz text <= 4 * ((lenz text + 3) / 4 * 3) /\ 0 <= (lenz text + 3) / 4 * 3).
  { pose proof (Z.div_mod (lenz text + 3) 4 ltac:(lia)). pose proof (Z.mod_pos_bound (lenz text + 3) 4 ltac:(lia)). unfold lenz in *. lia. }
  assert (Ei : i32 ((lenz text + 3) / 4 * 3) = (lenz text + 3) / 4 * 3) by (unfold i32; rewrite Z.mod_small; lia). rewrite Ei.
  pose proof (cap_enough ((lenz text + 3) / 4 * 3)) as Hc.
  destruct (decode_safe (if SMALL_CHUNK <? (lenz text + 3) / 4 * 3 then (lenz text + 3) / 4 * 3 else SMALL_CHUNK) (S (List.length text)) text [] Hb)
    as [E|(out & E & Ho)]; [lia|change (lenz []) with 0; lia|..]; rewrite E, bind_ret.
  - by left.
  - right. exists out. rewrite <- (app_nil_r out) at 1. rewrite push_ok by done. split; [done|]. change (lenz []) with 0 in Ho. lia.
Qed.

Lemma base64_decode_safe_witness : lb64decode [81; 85; 74; 10] = Ok (Error InvalidBase64) \/
  exists out, lb64decode [81; 85; 74; 10] = Ok (Pushed out) /\ 4 * lenz out <= 3 * lenz [81; 85; 74; 10].
Proof. apply (base64_decode_safe [81; 85; 74; 10]); [repeat constructor; done|vm_compute; reflexivity]. Defined.

(** ** Hexadecimal text *)

Definition hex_ok (i : Z) : bool := match arr_get hex i with Ok c => HEX c =? i | Fault _ => false end.

Lemma hex_digit i : 0 <= i < 16 -> exists c, arr_get hex i = Ok c /\ HEX c = i.
Proof.
  intros Hi. assert (Hall : forallb hex_ok (seqZ 0 16) = true) by (vm_compute; reflexivity).
  rewrite forallb_forall in Hall. specialize (Hall i ltac:(apply list_elem_of_In, elem_of_seqZ; lia)).
  unfold hex_ok in Hall. destruct (arr_get hex i) as [c|]; [|done]. exists c. split; [done|]. by apply Z.eqb_eq.
Qed.

Lemma hex_loops text : Forall byte text -> exists h, lenz h = 2 * lenz text /\
  (forall cap out, lenz out + 2 * lenz text <= cap -> tohex_loop text cap out = Ok (out ++ h)) /\
  (forall cap out, lenz out + lenz text <= cap -> fromhex_loop h cap out = Ok (inl (out ++ text))).
Proof.
  induction 1 as [|b text Hb _ (h & Hl & Hto & Hfrom)].
  { exists []. split; [done|]. split; intros cap out _; cbn; by rewrite app_nil_r. }
  unfold byte in Hb. assert (Hh : Z.shiftr b 4 = b / 16) by (by rewrite Z.shiftr_div_pow2). assert (Hm : Z.land b 0xf = b mod 16) by (by apply (land_mask b 4)).
  pose proof (Z.div_mod b 16 ltac:(lia)). pose proof (Z.mod_pos_bound b 16 ltac:(lia)).
  assert (0 <= b / 16 < 16) by (split; [apply Z.div_pos|apply Z.div_lt_upper_bound]; lia).
  destruct (hex_digit (b / 16)) as (c & Ec & Hc); [done|]. destruct (hex_digit (b mod 16)) as (d & Ed & Hd); [done|].
  exists (c :: d :: h). unfold lenz in *. cbn [List.length]. split; [lia|]. split; intros cap out Hcap.
  - cbn [tohex_loop]. rewrite Hh, Hm, Ec, bind_ret, Ed, bind_ret, emit_ok, bind_ret by (unfold lenz; cbn [List.length]; lia).
    rewrite Hto by (rewrite length_app; cbn [List.length]; lia). by rewrite <- app_assoc.
  - cbn [fromhex_loop]. rewrite Hc, Hd. destruct (Z.ltb_spec 16 (b / 16)); [lia|]. destruct (Z.ltb_spec 16 (b mod 16)); [lia|]. cbn [orb].
    rewrite Z.shiftl_mul_pow2, Z.lor_comm, (lor_disjoint (b mod 16) _ 4) by lia.
    replace (u8 (b mod 16 + b / 16 * 2 ^ 4)) with b by (unfold u8; rewrite Z.mod_small; lia).
    rewrite emit_ok, bind_ret by (unfold lenz; cbn [List.length]; lia).
    rewrite Hfrom by (rewrite length_app; cbn [List.length]; lia). by rewrite <- app_assoc.
Qed.

(** Hexadecimal text is decoded to what was encoded. *)
Lemma hex_roundtrip text : Forall byte text -> exists h, ltohex text = Ok (Pushed h) /\ lfromhex h = Ok (Pushed text).
Proof.
  intros Hb. destruct (hex_loops text Hb) as (h & Hl & Hto & Hfrom). exists h. split.
  - unfold ltohex. rewrite Hto, bind_ret.
    + cbn [app]. rewrite <- (app_nil_r h). rewrite push_ok; [by rewrite app_nil_r|lia].
    + change (lenz []) with 0. destruct (Z.ltb_spec (SMALL_CHUNK / 2) (lenz text)) as [|Hle]; [lia|].
      change (SMALL_CHUNK / 2) with 128 in Hle. unfold SMALL_CHUNK. lia.
  - unfold lfromhex. rewrite Hl. change 1 with (2^1 - 1) at 1. rewrite land_mask by lia. change (2^1) with 2. rewrite Z.mul_comm, Z.mod_mul by lia.
    cbn [Z.eqb negb]. rewrite Z.div_mul by lia. rewrite Hfrom, bind_ret.
    + cbn [app]. rewrite <- (app_nil_r text) at 1. by rewrite push_ok.
    + change (lenz []) with 0. destruct (Z.ltb_spec (SMALL_CHUNK * 2) (lenz text * 2)); unfold SMALL_CHUNK in *; lia.
Qed.

(** [hexdecode] takes the digit ['g'] for 16: its test is [> 16]. *)
Lemma hex_accepts_g : lfromhex (str "0g"%string) = Ok (Pushed [16]).
Proof. reflexivity. Qed.

(** ** Xor *)

Lemma xor_loop_twice s2 : s2 <> [] -> forall s1 i, 0 <= i -> exists t, xor_loop s1 s2 i = Ok t /\ lenz t = lenz s1 /\ xor_loop t s2 i = Ok s1.
Proof.
  intros Hs. assert (Hlen : 0 < lenz s2) by (destruct s2; [done|]; unfold lenz; cbn [List.length]; lia).
  induction s1 as [|b s1 IH]; intros i Hi; [by exists []|]. destruct (IH (i + 1)) as (t & E & Hl & E'); [lia|].
  pose proof (Z.mod_pos_bound i (lenz s2) Hlen) as Hm.
  destruct (lookup_lt_is_Some_2 s2 (Z.to_nat (i mod lenz s2))) as [c Hc]; [unfold lenz in *; lia|].
  assert (Hg : arr_get s2 (i mod lenz s2) = Ok c) by (apply arr_get_ok; [lia|done]).
  exists (Z.lxor b c :: t). cbn [xor_loop]. rewrite Hg, !bind_ret, E, E', !bind_ret, Z.lxor_assoc, Z.lxor_nilpotent, Z.lxor_0_r.
  unfold lenz in *. cbn [List.length]. split; [done|]. split; [lia|done].
Qed.

(** [xor_str] with the same key undoes itself. *)
Lemma xor_twice s key : key <> [] -> exists t, lxor_str s key = Ok (Pushed t) /\ lxor_str t key = Ok (Pushed s).
Proof.
  intros Hk. destruct (xor_loop_twice key Hk s 0) as (t & E & Hl & E'); [lia|]. exists t.
  assert (Hlen : 0 < lenz key) by (destruct key; [done|]; unfold lenz; cbn [List.length]; lia).
  unfold lxor_str. destruct (Z.eqb_spec (lenz key) 0); [lia|]. rewrite E, E', !bind_ret.
  split; [rewrite <- (app_nil_r t) at 1|rewrite <- (app_nil_r s) at 1]; by rewrite push_ok.
Qed.
