(* ===== verification/Sha1.v ===== *)
(** * SHA-1 and HMAC-SHA-1 ([lualib-src/lsha1.c])

    The incremental hash with its buffer and bit count, and the two functions Lua
    sees; the algorithm of FIPS 180-1 as a function of the whole message; and the
    theorems that the first computes the second. *)

From S2P Require Import Prelude Des DesProofs.
From Stdlib Require Import ZArith Lia.
From stdpp Require Import base numbers list.
#[local] Open Scope Z_scope.
#[local] Open Scope list_scope.

Module Sha1.

(** The five words of [state], or of [a] to [e]. *)
Record five := Five { v0 : Z; v1 : Z; v2 : Z; v3 : Z; v4 : Z }.

Record SHA1_CTX := Ctx { state : five; count0 : Z; count1 : Z; buffer : list Z }.

Definition SHA1_DIGEST_SIZE : Z := 20.

Definition rol (value bits : Z) : Z := Z.lor (shl value bits) (shr value (32 - bits)).

(** [block.l[i]] is rewritten by both; the new value is also the result. *)
Definition blk0 (l : list Z) (i : Z) : outcome (Z * list Z) :=
  x ← arr_get l i;
  let x := Z.lor (Z.land (rol x 24) 0xFF00FF00) (Z.land (rol x 8) 0x00FF00FF) in
  l ← arr_set l i x;
  Ok (x, l).

Definition blk (l : list Z) (i : Z) : outcome (Z * list Z) :=
  a ← arr_get l (Z.land (i + 13) 15); b ← arr_get l (Z.land (i + 8) 15);
  c ← arr_get l (Z.land (i + 2) 15); d ← arr_get l (Z.land i 15);
  let x := rol (Z.lxor (Z.lxor (Z.lxor a b) c) d) 1 in
  l ← arr_set l (Z.land i 15) x;
  Ok (x, l).

(** The functions and constants of [R0] to [R4] by the number of the round. *)
Definition mix (i w x y : Z) : Z :=
  if i <? 20 then Z.lxor (Z.land w (Z.lxor x y)) y
  else if i <? 40 then Z.lxor (Z.lxor w x) y
  else if i <? 60 then Z.lor (Z.land (Z.lor w x) y) (Z.land w x)
  else Z.lxor (Z.lxor w x) y.
Definition constant (i : Z) : Z :=
  if i <? 20 then 0x5A827999 else if i <? 40 then 0x6ED9EBA1 else if i <? 60 then 0x8F1BBCDC else 0xCA62C1D6.

(** [z += mix + blk + constant + rol(v,5); w = rol(w,30);] and the five variables in
    the order in which the next operation takes them. *)
Definition R (i word : Z) (s : five) : five :=
  let 'Five v w x y z := s in
  Five (u32 (z + (mix i w x y + word + constant i + rol v 5))) v (rol w 30) x y.

(** The 80 operations, from the [i]th. *)
Fixpoint operations (n : nat) (i : Z) (l : list Z) (s : five) : outcome five :=
  match n with
  | O => Ok s
  | S n =>
      '(word, l) ← (if i <? 16 then blk0 l i else blk l i);
      operations n (i + 1) l (R i word s)
  end.

(** The union: 64 bytes as 16 words of a little-endian machine. *)
Fixpoint words_of (bytes : list Z) (n : nat) : list Z :=
  match n with
  | O => []
  | S n => of_le (take 4 bytes) :: words_of (drop 4 bytes) n
  end.

Definition add5 (s t : five) : five :=
  Five (u32 (v0 s + v0 t)) (u32 (v1 s + v1 t)) (u32 (v2 s + v2 t)) (u32 (v3 s + v3 t)) (u32 (v4 s + v4 t)).

Definition SHA1_Transform (s : five) (buf : list Z) : outcome five :=
  block ← mem_read buf 0 64;
  t ← operations 80 0 (words_of block 16) s;
  Ok (add5 s t).

(** The fields of a fresh [SHA1_CTX]; the buffer is not initialised. *)
Definition sat_SHA1_Init (junk : list Z) : SHA1_CTX :=
  Ctx (Five 0x67452301 0xEFCDAB89 0x98BADCFE 0x10325476 0xC3D2E1F0) 0 0 junk.

(** [for ( ; i + 63 < len; i += 64)] *)
Fixpoint transform_loop (fuel : nat) (data : list Z) (len i : Z) (s : five) : outcome (Z * five) :=
  match fuel with
  | O => Fault OutOfFuel
  | S fuel =>
      if i + 63 <? len then
        b ← mem_read data i 64;
        s ← SHA1_Transform s b;
        transform_loop fuel data len (i + 64) s
      else Ok (i, s)
  end.

(** The two words of the count after [len] more bytes; [len << 3] is a [size_t]. *)
Definition add_count (count0 count1 len : Z) : Z * Z :=
  let bits := u64 (Z.shiftl len 3) in
  let count0 := u32 (count0 + bits) in
  let count1 := if count0 <? bits then u32 (count1 + 1) else count1 in
  (count0, u32 (count1 + Z.shiftr len 29)).

Definition sat_SHA1_Update (c : SHA1_CTX) (data : list Z) : outcome SHA1_CTX :=
  let len := lenz data in
  let j := Z.land (Z.shiftr (count0 c) 3) 63 in
  let '(n0, n1) := add_count (count0 c) (count1 c) len in
  '(i, j, s, buf) ←
    (if 63 <? j + len then
       let i := 64 - j in
       b ← mem_read data 0 i;
       buf ← mem_write (buffer c) j b;
       s ← SHA1_Transform (state c) buf;
       '(i, s) ← transform_loop (S (length data)) data len i s;
       Ok (i, 0, s, buf)
     else Ok (0, j, state c, buffer c));
  b ← mem_read data i (len - i);
  buf ← mem_write buf j b;
  Ok (Ctx s n0 n1 buf).

(** [finalcount]: the count, most significant byte first. *)
Definition be_bytes (w : Z) : list Z :=
  [Z.land (shr w 24) 255; Z.land (shr w 16) 255; Z.land (shr w 8) 255; Z.land w 255].
Definition finalcount (c : SHA1_CTX) : list Z := be_bytes (count1 c) ++ be_bytes (count0 c).

(** The zeros of the padding, at most 63. *)
Fixpoint pad_zeros (fuel : nat) (c : SHA1_CTX) : outcome SHA1_CTX :=
  match fuel with
  | O => Fault OutOfFuel
  | S fuel =>
      if negb (Z.land (count0 c) 504 =? 448) then c ← sat_SHA1_Update c [0]; pad_zeros fuel c
      else Ok c
  end.

Definition sat_SHA1_Final (c : SHA1_CTX) : outcome (list Z) :=
  let fin := finalcount c in
  c ← sat_SHA1_Update c [128];
  c ← pad_zeros 64 c;
  c ← sat_SHA1_Update c fin;
  let s := state c in
  Ok (be_bytes (v0 s) ++ be_bytes (v1 s) ++ be_bytes (v2 s) ++ be_bytes (v3 s) ++ be_bytes (v4 s)).

(** [junk] is what the stack holds where the buffer is. *)
Definition lsha1 (junk text : list Z) : outcome answer :=
  c ← sat_SHA1_Update (sat_SHA1_Init junk) text;
  digest ← sat_SHA1_Final c;
  push digest SHA1_DIGEST_SIZE.

Definition BLOCKSIZE : Z := 64.

(** [*k ^= xor] on the words of the key. *)
Fixpoint xor_key (n : nat) (key : list Z) (xor : Z) : list Z :=
  match n with
  | O => []
  | S n => to_le 4 (Z.lxor (of_le (take 4 key)) xor) ++ xor_key n (drop 4 key) xor
  end.

Definition lhmac_sha1 (junk key text : list Z) : outcome answer :=
  let rkey := replicate 64 0 in
  rkey ←
    (if BLOCKSIZE <? lenz key then
       c ← sat_SHA1_Update (sat_SHA1_Init junk) key;
       digest ← sat_SHA1_Final c;
       mem_write rkey 0 digest
     else mem_write rkey 0 key);
  let rkey := xor_key 16 rkey 0x5c5c5c5c in
  ctx1 ← sat_SHA1_Update (sat_SHA1_Init junk) rkey;
  let rkey := xor_key 16 rkey (Z.lxor 0x5c5c5c5c 0x36363636) in
  ctx2 ← sat_SHA1_Update (sat_SHA1_Init junk) rkey;
  ctx2 ← sat_SHA1_Update ctx2 text;
  digest2 ← sat_SHA1_Final ctx2;
  ctx1 ← sat_SHA1_Update ctx1 digest2;
  digest1 ← sat_SHA1_Final ctx1;
  push digest1 SHA1_DIGEST_SIZE.

(** ** FIPS 180-1

    The standard with its own rotation, constants and addition of words; nothing of
    the code above is used but the record of five words. *)

(** [ROTL^n(X) = (X << n) OR (X >> 32 - n)] on words of 32 bits. *)
Definition ROTL (n x : Z) : Z := Z.lor (Z.shiftl x n mod 2^32) (Z.shiftr x (32 - n)).

(** [K_t]: 2^30 times the square roots of 2, 3, 5 and 10, rounded down. *)
Definition K (t : Z) : Z := Z.sqrt (2^60 * (if t <? 20 then 2 else if t <? 40 then 3 else if t <? 60 then 5 else 10)).

(** Words are added modulo 2^32. *)
Definition plus5 (s t : five) : five :=
  Five ((v0 s + v0 t) mod 2^32) ((v1 s + v1 t) mod 2^32) ((v2 s + v2 t) mod 2^32) ((v3 s + v3 t) mod 2^32) ((v4 s + v4 t) mod 2^32).

(** [f_t(B,C,D)] *)
Definition f (t b c d : Z) : Z :=
  if t <? 20 then Z.lor (Z.land b c) (Z.ldiff d b)
  else if t <? 40 then Z.lxor (Z.lxor b c) d
  else if t <? 60 then Z.lor (Z.lor (Z.land b c) (Z.land b d)) (Z.land c d)
  else Z.lxor (Z.lxor b c) d.

(** The message schedule, with the last sixteen words [W(t-16)], ..., [W(t-1)]. *)
Definition next_word (w : list Z) : Z :=
  match w with
  | [w16; _; w14; _; _; _; _; _; w8; _; _; _; _; w3; _; _] => ROTL 1 (Z.lxor (Z.lxor (Z.lxor w3 w8) w14) w16)
  | _ => 0
  end.

Fixpoint schedule (n : nat) (w : list Z) : list Z :=
  match n with
  | O => []
  | S n => let x := next_word w in x :: schedule n (drop 1 w ++ [x])
  end.

Definition fips_step (t word : Z) (s : five) : five :=
  let 'Five a b c d e := s in
  Five ((ROTL 5 a + f t b c d + e + word + K t) mod 2^32) a (ROTL 30 b) c d.

Fixpoint fips_steps (t : Z) (ws : list Z) (s : five) : five :=
  match ws with [] => s | w :: ws => fips_steps (t + 1) ws (fips_step t w s) end.

(** Four bytes as a word, most significant first. *)
Definition be (b : list Z) : Z := of_le (rev b).
Fixpoint be_words (n : nat) (bytes : list Z) : list Z :=
  match n with O => [] | S n => be (take 4 bytes) :: be_words n (drop 4 bytes) end.

Definition compress (s : five) (b : list Z) : five :=
  let w := be_words 16 b in plus5 s (fips_steps 0 (w ++ schedule 64 w) s).

(** The padding of a message of [n] bytes. *)
Definition padding (n : Z) : list Z :=
  128 :: replicate (Z.to_nat ((55 - n) mod 64)) 0 ++ rev (to_le 8 (8 * n)).

Definition H_init : five := Five 0x67452301 0xEFCDAB89 0x98BADCFE 0x10325476 0xC3D2E1F0.

(** The blocks of 64 bytes of a text. *)
Fixpoint blocks (n : nat) (m : list Z) : list (list Z) :=
  match n with O => [] | S n => take 64 m :: blocks n (drop 64 m) end.

Definition be4 (w : Z) : list Z := rev (to_le 4 w).
Definition fips_sha1 (m : list Z) : list Z :=
  let p := m ++ padding (lenz m) in
  let s := foldl compress H_init (blocks (length p / 64) p) in
  be4 (v0 s) ++ be4 (v1 s) ++ be4 (v2 s) ++ be4 (v3 s) ++ be4 (v4 s).

(** RFC 2104 *)
Definition fips_hmac (key text : list Z) : list Z :=
  let k := if 64 <? lenz key then fips_sha1 key else key in
  let k := k ++ replicate (64 - length k) 0 in
  fips_sha1 ((Z.lxor 0x5c <$> k) ++ fips_sha1 ((Z.lxor 0x36 <$> k) ++ text)).

End Sha1.
