(* ===== verification/Sha1Proofs.v ===== *)
(** * SHA-1 computes what FIPS 180-1 says

    Round by round, block by block, for a message given in pieces, and for the
    whole functions. *)

From S2P Require Import Prelude Des DesProofs Sha1.
From Stdlib Require Import ZArith Lia.
From stdpp Require Import base numbers list.
#[local] Open Scope Z_scope.
#[local] Open Scope list_scope.
Import Sha1.

(** ** Rounds *)

Lemma choose w x y : Z.lxor (Z.land w (Z.lxor x y)) y = Z.lor (Z.land w x) (Z.ldiff y w).
Proof.
  apply Z.bits_inj'. intros n _. rewrite Z.lor_spec, Z.lxor_spec, !Z.land_spec, Z.lxor_spec, Z.ldiff_spec.
  by destruct (Z.testbit w n), (Z.testbit x n), (Z.testbit y n).
Qed.

Lemma majority w x y : Z.lor (Z.land (Z.lor w x) y) (Z.land w x) = Z.lor (Z.lor (Z.land w x) (Z.land w y)) (Z.land x y).
Proof.
  apply Z.bits_inj'. intros n _. rewrite !Z.lor_spec, !Z.land_spec, Z.lor_spec.
  by destruct (Z.testbit w n), (Z.testbit x n), (Z.testbit y n).
Qed.

Lemma rol_ROTL n x : rol x n = ROTL n x.
Proof. reflexivity. Qed.

Lemma add5_plus5 s t : add5 s t = plus5 s t.
Proof. reflexivity. Qed.

(** The constants of the code are those of the standard. *)
Lemma constant_K t : constant t = K t.
Proof.
  unfold constant, K. destruct (t <? 20); [vm_compute; reflexivity|]. destruct (t <? 40); [vm_compute; reflexivity|].
  destruct (t <? 60); vm_compute; reflexivity.
Qed.

Lemma R_fips i word s : R i word s = fips_step i word s.
Proof.
  destruct s as [v w x y z]. unfold R, fips_step. rewrite constant_K, !rol_ROTL. unfold u32. f_equal. f_equal.
  replace (mix i w x y) with (f i w x y); [lia|]. unfold f, mix.
  destruct (i <? 20); [by rewrite choose|]. destruct (i <? 40); [done|]. destruct (i <? 60); [by rewrite majority|done].
Qed.

Lemma fips_steps_app a : forall b t s, fips_steps t (a ++ b) s = fips_steps (t + Z.of_nat (length a)) b (fips_steps t a s).
Proof.
  induction a as [|x a IH]; intros b t s; cbn [app fips_steps length]; [by rewrite Z.add_0_r|].
  rewrite IH. f_equal. lia.
Qed.

(** ** The bytes of a word *)

Definition masks (k m : Z) (keep : bool) : bool :=
  forallb (fun b => Z.land (b * 2^k) m =? (if keep then b * 2^k else 0)) (seqZ 0 256).

Lemma masks_byte k m keep b : masks k m keep = true -> byte b -> Z.land (b * 2^k) m = if keep then b * 2^k else 0.
Proof.
  unfold masks, byte. rewrite forallb_forall. intros Hall Hb. apply Z.eqb_eq, Hall, list_elem_of_In, elem_of_seqZ. lia.
Qed.

Lemma lor4 b0 b1 b2 b3 : byte b0 -> byte b1 -> byte b2 -> byte b3 ->
  b0 * 2^24 + b1 * 2^16 + b2 * 2^8 + b3 * 2^0 = Z.lor (b0 * 2^24) (Z.lor (b1 * 2^16) (Z.lor (b2 * 2^8) (b3 * 2^0))).
Proof.
  unfold byte. intros H0 H1 H2 H3. change (2^0) with 1. rewrite Z.mul_1_r.
  rewrite (Z.lor_comm (b2 * 2^8)), (lor_disjoint b3 b2 8) by lia.
  rewrite (Z.lor_comm (b1 * 2^16)), (lor_disjoint _ b1 16) by lia.
  rewrite (Z.lor_comm (b0 * 2^24)), (lor_disjoint _ b0 24) by lia. lia.
Qed.

(** Every second byte of a word. *)
Lemma mask_bytes b0 b1 b2 b3 : byte b0 -> byte b1 -> byte b2 -> byte b3 ->
  let x := b0 * 2^24 + b1 * 2^16 + b2 * 2^8 + b3 * 2^0 in
  Z.land x 0xFF00FF00 = Z.lor (b0 * 2^24) (b2 * 2^8) /\ Z.land x 0x00FF00FF = Z.lor (b1 * 2^16) (b3 * 2^0).
Proof.
  intros H0 H1 H2 H3. cbv zeta. rewrite lor4 by done. rewrite !Z.land_lor_distr_l.
  rewrite (masks_byte 24 0xFF00FF00 true), (masks_byte 16 0xFF00FF00 false), (masks_byte 8 0xFF00FF00 true), (masks_byte 0 0xFF00FF00 false),
    (masks_byte 24 0x00FF00FF false), (masks_byte 16 0x00FF00FF true), (masks_byte 8 0x00FF00FF false), (masks_byte 0 0x00FF00FF true)
    by (done || (vm_compute; reflexivity)).
  by rewrite !Z.lor_0_l, !Z.lor_0_r.
Qed.

Lemma rol_eq x k : 0 <= x < 2^32 -> 0 <= k <= 32 -> rol x k = x mod 2^(32 - k) * 2^k + x / 2^(32 - k).
Proof.
  intros Hx Hk. unfold rol, shl, shr, u32. rewrite Z.shiftl_mul_pow2, Z.shiftr_div_pow2 by lia.
  assert (E : 2^32 = 2^(32 - k) * 2^k) by (rewrite <- Z.pow_add_r, Z.sub_add by lia; done).
  rewrite E at 1. rewrite Z.mul_mod_distr_r by lia. rewrite Z.lor_comm, lor_disjoint; [lia|lia|].
  split; [apply Z.div_pos; lia|]. apply Z.div_lt_upper_bound; [lia|]. rewrite <- E. lia.
Qed.

(** [blk0] turns the bytes of a little-endian word around. *)
Lemma swap_bytes b0 b1 b2 b3 : byte b0 -> byte b1 -> byte b2 -> byte b3 ->
  Z.lor (Z.land (rol (of_le [b0; b1; b2; b3]) 24) 0xFF00FF00) (Z.land (rol (of_le [b0; b1; b2; b3]) 8) 0x00FF00FF) = be [b0; b1; b2; b3].
Proof.
  intros H0 H1 H2 H3. assert (Hr : forall a b c d, byte a -> byte b -> byte c -> byte d -> 0 <= a * 2^24 + b * 2^16 + c * 2^8 + d * 2^0 < 2^32)
    by (unfold byte; lia).
  replace (of_le [b0; b1; b2; b3]) with (b3 * 2^24 + b2 * 2^16 + b1 * 2^8 + b0 * 2^0) by (cbn [of_le]; lia).
  assert (E24 : rol (b3 * 2^24 + b2 * 2^16 + b1 * 2^8 + b0 * 2^0) 24 = b0 * 2^24 + b3 * 2^16 + b2 * 2^8 + b1 * 2^0).
  { rewrite rol_eq by (auto; lia). change (2^(32 - 24)) with 256. unfold byte in *.
    replace (b3 * 2^24 + b2 * 2^16 + b1 * 2^8 + b0 * 2^0) with ((b3 * 2^16 + b2 * 2^8 + b1) * 256 + b0) by lia.
    rewrite Z.div_add_l, (Z.div_small b0), Z.add_comm, (Z.add_comm (_ * 256)), Z.mod_add, Z.mod_small by lia. lia. }
  assert (E8 : rol (b3 * 2^24 + b2 * 2^16 + b1 * 2^8 + b0 * 2^0) 8 = b2 * 2^24 + b1 * 2^16 + b0 * 2^8 + b3 * 2^0).
  { rewrite rol_eq by (auto; lia). change (2^(32 - 8)) with (2^24). unfold byte in *.
    replace (b3 * 2^24 + b2 * 2^16 + b1 * 2^8 + b0 * 2^0) with (b3 * 2^24 + (b2 * 2^16 + b1 * 2^8 + b0)) by lia.
    rewrite Z.div_add_l, (Z.div_small (b2 * _ + _ + _)), (Z.add_comm (b3 * 2^24)), Z.mod_add, Z.mod_small by lia. lia. }
  rewrite E24, E8. destruct (mask_bytes b0 b3 b2 b1) as [-> _]; try done. destruct (mask_bytes b2 b1 b0 b3) as [_ ->]; try done.
  unfold be. cbn [rev app of_le]. replace (b3 + 256 * (b2 + 256 * (b1 + 256 * (b0 + 256 * 0)))) with (b0 * 2^24 + b1 * 2^16 + b2 * 2^8 + b3 * 2^0) by lia.
  rewrite (lor4 b0 b1 b2 b3) by done. rewrite <- !Z.lor_assoc. f_equal. rewrite Z.lor_assoc, (Z.lor_comm (b2 * 2^8)), <- Z.lor_assoc. done.
Qed.

(** ** The message schedule *)

Lemma schedule_words n : forall w, length (schedule n w) = n.
Proof. induction n as [|n IH]; intros w; [done|]. cbn [schedule length]. by rewrite IH. Qed.

(** The array of sixteen words at step [i] is the last sixteen words, turned. *)
Definition turned (i : Z) (l win : list Z) : Prop :=
  length l = 16%nat /\ length win = 16%nat /\
  forall j, 0 <= j < 16 -> l !! Z.to_nat ((i + j) mod 16) = win !! Z.to_nat j.

Lemma blk_next i l win : 0 <= i -> turned i l win ->
  exists l', blk l i = Ok (next_word win, l') /\ turned (i + 1) l' (drop 1 win ++ [next_word win]).
Proof.
  intros Hi (Hl & Hw & Ht). unfold blk. change 15 with (2^4 - 1). rewrite !land_mask by lia. change (2^4) with 16.
  pose proof (Z.mod_pos_bound i 16 ltac:(lia)) as Hm.
  assert (Hg : forall j, 0 <= j < 16 -> arr_get l ((i + j) mod 16) = Ok (nth (Z.to_nat j) win 0)).
  { intros j Hj. apply arr_get_ok; [apply Z.mod_pos_bound; lia|]. rewrite Ht by done.
    destruct (lookup_lt_is_Some_2 win (Z.to_nat j)) as [x Hx]; [lia|]. rewrite Hx. by rewrite (nth_lookup_Some _ _ _ _ Hx). }
  pose proof (Hg 0 ltac:(lia)) as G0. rewrite Z.add_0_r in G0.
  rewrite (Hg 13), bind_ret, (Hg 8), bind_ret, (Hg 2), bind_ret, G0, bind_ret by lia.
  assert (En : rol (Z.lxor (Z.lxor (Z.lxor (nth 13 win 0) (nth 8 win 0)) (nth 2 win 0)) (nth 0 win 0)) 1 = next_word win).
  { do 16 (destruct win as [|? win]; [done|]). destruct win; [done|done]. }
  change (Z.to_nat 13) with 13%nat. change (Z.to_nat 8) with 8%nat. change (Z.to_nat 2) with 2%nat. change (Z.to_nat 0) with 0%nat.
  rewrite En. rewrite arr_set_ok, bind_ret by lia. eexists. split; [done|].
  split; [by rewrite length_insert|]. split; [rewrite length_app, length_drop; cbn; lia|]. intros j Hj.
  destruct (decide (j = 15)) as [->|Hne].
  - replace ((i + 1 + 15) mod 16) with (i mod 16) by (replace (i + 1 + 15) with (i + 1 * 16) by lia; by rewrite Z.mod_add).
    rewrite list_lookup_insert_eq by lia. rewrite lookup_app_r by (rewrite length_drop; lia). rewrite length_drop, Hw. done.
  - rewrite list_lookup_insert_ne.
    + replace (i + 1 + j) with (i + (j + 1)) by lia. rewrite Ht by lia. rewrite lookup_app_l by (rewrite length_drop; lia).
      rewrite lookup_drop. f_equal. lia.
    + intros E. apply Z2Nat.inj in E; [|lia|apply Z.mod_pos_bound; lia].
      pose proof (Z.div_mod i 16 ltac:(lia)). pose proof (Z.div_mod (i + 1 + j) 16 ltac:(lia)). nia.
Qed.

Lemma operations_late n : forall i l win s, 16 <= i -> turned i l win ->
  operations n i l s = Ok (fips_steps i (schedule n win) s).
Proof.
  induction n as [|n IH]; intros i l win s Hi Ht; [done|]. cbn [operations schedule fips_steps].
  destruct (Z.ltb_spec i 16); [lia|]. destruct (blk_next i l win) as (l' & -> & Ht'); [lia|done|].
  rewrite bind_ret, R_fips. by apply IH; [lia|].
Qed.

(** The first sixteen steps turn the words around one by one. *)
Definition swap (x : Z) : Z := Z.lor (Z.land (rol x 24) 0xFF00FF00) (Z.land (rol x 8) 0x00FF00FF).

Lemma operations_early n rest : forall done_ todo s, length todo = n -> (length done_ + n = 16)%nat ->
  operations (n + rest) (Z.of_nat (length done_)) (done_ ++ todo) s
    = operations rest 16 (done_ ++ (swap <$> todo)) (fips_steps (Z.of_nat (length done_)) (swap <$> todo) s).
Proof.
  induction n as [|n IH]; intros dn todo s Hn Hl.
  - destruct todo; [|done]. cbn [Nat.add fmap list_fmap fips_steps]. by replace (Z.of_nat (length dn)) with 16 by lia.
  - destruct todo as [|x todo]; [done|]. cbn [Nat.add operations].
    destruct (Z.ltb_spec (Z.of_nat (length dn)) 16); [|lia]. unfold blk0.
    rewrite (arr_get_ok _ _ x), bind_ret by (try lia; rewrite Nat2Z.id, lookup_app_r, Nat.sub_diag by lia; done). fold (swap x).
    rewrite arr_set_ok, bind_ret by (rewrite length_app; cbn [length]; lia). rewrite bind_ret, Nat2Z.id, insert_app_r_alt, Nat.sub_diag by lia.
    change (<[0%nat := swap x]> (x :: todo)) with (swap x :: todo).
    replace (dn ++ swap x :: todo) with ((dn ++ [swap x]) ++ todo) by (by rewrite <- app_assoc).
    specialize (IH (dn ++ [swap x]) todo (R (Z.of_nat (length dn)) (swap x) s)). rewrite length_app in IH. cbn [length] in IH, Hn.
    replace (Z.of_nat (length dn + 1)) with (Z.of_nat (length dn) + 1) in IH by lia.
    rewrite IH by lia. rewrite <- app_assoc, R_fips. done.
Qed.

Lemma operations_early_all todo s : length todo = 16%nat ->
  operations 80 0 todo s = operations 64 16 (swap <$> todo) (fips_steps 0 (swap <$> todo) s).
Proof. intros Hl. exact (operations_early 16 64 [] todo s Hl eq_refl). Qed.

Lemma words_swap n : forall b, Forall byte b -> length b = (4 * n)%nat -> swap <$> words_of b n = be_words n b.
Proof.
  induction n as [|n IH]; intros b Hb Hl; [done|]. do 4 (destruct b as [|? b]; [cbn in Hl; lia|]).
  repeat (apply Forall_cons in Hb as [? Hb]). cbn [words_of be_words take drop firstn skipn fmap list_fmap]. cbn [length] in Hl.
  apply (f_equal2 cons); [exact (swap_bytes z z0 z1 z2 H H0 H1 H2)|]. rewrite drop_0. apply IH; [done|lia].
Qed.

Lemma words_length n : forall b, length (words_of b n) = n.
Proof. induction n as [|n IH]; intros b; [done|]. cbn [words_of length]. by rewrite IH. Qed.

(** A block hashed by [SHA1_Transform] is a block hashed by the standard. *)
Lemma transform_compress s buf b c : buf = b ++ c -> length b = 64%nat -> Forall byte b ->
  SHA1_Transform s buf = Ok (compress s b).
Proof.
  intros -> Hl Hb. unfold SHA1_Transform.
  replace (mem_read (b ++ c) 0 64) with (mem_read ([] ++ b ++ c) (Z.of_nat (length (@nil Z))) (Z.of_nat (length b))) by (by rewrite Hl).
  rewrite mem_read_ok, bind_ret. pose proof (words_length 16 b) as Hw.
  rewrite (operations_early_all (words_of b 16) s Hw), (words_swap 16 b Hb Hl).
  assert (Hbw : length (be_words 16 b) = 16%nat) by (by rewrite <- (words_swap 16 b Hb Hl), length_fmap).
  rewrite (operations_late 64 16 (be_words 16 b) (be_words 16 b)), bind_ret.
  - unfold compress. rewrite fips_steps_app, Hbw, add5_plus5. done.
  - lia.
  - split; [done|]. split; [done|]. intros j Hj. f_equal. f_equal. replace (16 + j) with (j + 1 * 16) by lia.
    rewrite Z.mod_add by lia. by apply Z.mod_small.
Qed.

(** ** A message in pieces *)

(** What the context stands for after the bytes [m]. *)
Definition after (c : SHA1_CTX) (m : list Z) : Prop :=
  exists bs rest junk, m = concat bs ++ rest /\ Forall (fun b => length b = 64%nat) bs /\ (length rest + length junk = 64)%nat /\
    (length rest < 64)%nat /\ buffer c = rest ++ junk /\ state c = foldl compress H_init bs /\
    count0 c = (8 * lenz m) mod 2^32 /\ count1 c = (8 * lenz m) / 2^32.

Lemma transform_loop_blocks fuel : forall data pre bs rest s, data = pre ++ concat bs ++ rest ->
  Forall (fun b => length b = 64%nat) bs -> Forall byte data -> (length rest < 64)%nat -> (length bs < fuel)%nat ->
  transform_loop fuel data (lenz data) (lenz pre) s = Ok (lenz pre + 64 * Z.of_nat (length bs), foldl compress s bs).
Proof.
  induction fuel as [|fuel IH]; intros data pre bs rest s Ed Hbs Hb Hr Hf; [lia|]. cbn [transform_loop].
  pose proof (length_chunks 64 bs Hbs) as Hcl.
  assert (Hl : lenz data = lenz pre + 64 * Z.of_nat (length bs) + Z.of_nat (length rest)) by (subst data; unfold lenz; rewrite !length_app, Hcl; lia).
  destruct bs as [|b bs].
  - cbn [length] in *. destruct (Z.ltb_spec (lenz pre + 63) (lenz data)); [lia|]. cbn [foldl]. by rewrite Z.mul_0_r, Z.add_0_r.
  - cbn [length concat] in *. apply Forall_cons in Hbs as [Hb64 Hbs]. destruct (Z.ltb_spec (lenz pre + 63) (lenz data)); [|lia].
    rewrite <- app_assoc in Ed. rewrite Ed at 1.
    replace (mem_read (pre ++ b ++ concat bs ++ rest) (lenz pre) 64) with (mem_read (pre ++ b ++ concat bs ++ rest) (Z.of_nat (length pre)) (Z.of_nat (length b))) by (by rewrite Hb64).
    rewrite mem_read_ok, bind_ret. rewrite Ed in Hb. apply Forall_app in Hb as Hb2. destruct Hb2 as [_ Hb2]. apply Forall_app in Hb2 as [Hbb _].
    rewrite (transform_compress s b b []), bind_ret by (done || by rewrite app_nil_r).
    replace (lenz pre + 64) with (lenz (pre ++ b)) by (unfold lenz; rewrite length_app; lia).
    rewrite (IH data (pre ++ b) bs rest); [|by rewrite Ed, <- app_assoc|done|by rewrite Ed|done|lia].
    cbn [foldl]. do 2 f_equal. unfold lenz. rewrite length_app. lia.
Qed.

Lemma count_step n len : 0 <= n -> 0 <= len < 2^29 -> n + len < 2^61 ->
  add_count ((8 * n) mod 2^32) ((8 * n) / 2^32) len = ((8 * (n + len)) mod 2^32, (8 * (n + len)) / 2^32).
Proof.
  intros Hn Hl Ht. unfold add_count, u64, u32. rewrite Z.shiftl_mul_pow2, Z.shiftr_div_pow2 by lia. change (2^3) with 8.
  rewrite (Z.mod_small (len * 8)), (Z.div_small len), Z.add_0_r by lia. rewrite Zplus_mod_idemp_l.
  replace (8 * (n + len)) with (8 * n + len * 8) by lia. set (a := 8 * n). set (b := len * 8).
  pose proof (Z.div_mod a (2^32) ltac:(lia)) as D. pose proof (Z.mod_pos_bound a (2^32) ltac:(lia)) as M.
  pose proof (Z.div_mod (a + b) (2^32) ltac:(lia)) as D'. pose proof (Z.mod_pos_bound (a + b) (2^32) ltac:(lia)) as M'.
  assert (Ha : 0 <= a) by (unfold a; lia). assert (Hb : 0 <= b < 2^32) by (unfold b; lia). assert (Hab : a + b < 2^64) by (unfold a, b; lia).
  assert (Hq : 0 <= a / 2^32 < 2^32) by (split; [apply Z.div_pos; lia|apply Z.div_lt_upper_bound; lia]).
  assert (Hq' : (a + b) / 2^32 < 2^32) by (apply Z.div_lt_upper_bound; lia).
  f_equal. destruct (Z.ltb_spec ((a + b) mod 2^32) b).
  - assert (Ec : (a + b) / 2^32 = a / 2^32 + 1) by nia. rewrite Z.mod_mod, Z.mod_small by lia. lia.
  - assert (Ec : (a + b) / 2^32 = a / 2^32) by nia. rewrite Z.mod_small by lia. lia.
Qed.

Lemma fill_position n q r : n = 64 * q + r -> 0 <= q -> 0 <= r < 64 -> Z.land (Z.shiftr ((8 * n) mod 2^32) 3) 63 = r.
Proof.
  intros En Hq Hr. rewrite Z.shiftr_div_pow2 by lia. change (2^3) with 8. change (2^32) with (8 * 2^29). rewrite Z.mul_mod_distr_l by lia.
  rewrite (Z.mul_comm 8), Z.div_mul by lia. change 63 with (2^6 - 1). rewrite land_mask by lia. change (2^6) with 64.
  rewrite Z.mod_mod_divide by (by exists (2^23)). subst n.
  rewrite (Z.mul_comm 64), Z.add_comm, Z.mod_add, Z.mod_small by lia. done.
Qed.

Lemma mem_read_part {A} (l a b c : list A) o n : l = a ++ b ++ c -> o = Z.of_nat (length a) -> n = Z.of_nat (length b) -> mem_read l o n = Ok b.
Proof. intros -> -> ->. apply mem_read_ok. Qed.
Lemma mem_write_part {A} (l a b c bytes : list A) o : l = a ++ b ++ c -> o = Z.of_nat (length a) -> length b = length bytes ->
  mem_write l o bytes = Ok (a ++ bytes ++ c).
Proof. intros -> -> Hl. by apply mem_write_ok. Qed.

(** One piece more. *)
Lemma update_after c m d : after c m -> Forall byte m -> Forall byte d -> lenz d < 2^29 -> lenz m + lenz d < 2^61 ->
  exists c', sat_SHA1_Update c d = Ok c' /\ after c' (m ++ d).
Proof.
  intros (bs & rest & junk & Em & Hbs & Hjunk & Hr & Ebuf & Est & E0 & E1) Hbm Hbd Hd Hmd.
  pose proof (length_chunks 64 bs Hbs) as Hcl.
  assert (Hn : lenz m = 64 * Z.of_nat (length bs) + Z.of_nat (length rest)) by (subst m; unfold lenz; rewrite length_app, Hcl; lia).
  assert (Ej : Z.land (Z.shiftr (count0 c) 3) 63 = Z.of_nat (length rest)) by (rewrite E0; apply (fill_position _ (Z.of_nat (length bs))); lia).
  unfold sat_SHA1_Update. rewrite Ej. rewrite E0, E1, count_step by (unfold lenz in *; lia).
  assert (Hlm : lenz (m ++ d) = lenz m + lenz d) by (unfold lenz; rewrite length_app; lia). rewrite <- Hlm.
  assert (Hbr : Forall byte rest) by (subst m; by apply Forall_app in Hbm as [_ ?]).
  destruct (Z.ltb_spec 63 (Z.of_nat (length rest) + lenz d)) as [Hfull|Hfit]; unfold lenz in Hfull || unfold lenz in Hfit.
  - set (k := (64 - length rest)%nat). assert (Hk : length (take k d) = k) by (rewrite length_take; lia).
    destruct (chunks 64 (drop k d) ltac:(lia)) as (bs2 & rest2 & Ed2 & Hbs2 & Hr2). pose proof (length_chunks 64 bs2 Hbs2) as Hcl2.
    assert (Ed : d = take k d ++ concat bs2 ++ rest2) by (by rewrite <- Ed2, take_drop).
    assert (Hbt : Forall byte (take k d)) by by apply Forall_take.
    rewrite (mem_read_part d [] (take k d) (drop k d)), bind_ret by (try (by rewrite take_drop); try done; rewrite Hk; unfold k; lia).
    rewrite (mem_write_part _ rest junk [] (take k d)), bind_ret by (try (by rewrite app_nil_r); try done; rewrite Hk; unfold k; lia).
    assert (Et : SHA1_Transform (state c) (rest ++ take k d ++ []) = Ok (compress (state c) (rest ++ take k d))).
    { apply (transform_compress _ _ (rest ++ take k d) []); [by rewrite app_assoc|rewrite length_app, Hk; unfold k; lia|by apply Forall_app_2]. }
    rewrite Et, bind_ret.
    replace (64 - Z.of_nat (length rest)) with (lenz (take k d)) by (unfold lenz; rewrite Hk; unfold k; lia).
    rewrite (transform_loop_blocks _ d (take k d) bs2 rest2);
      [|done|done|done|done|apply (f_equal length) in Ed; rewrite !length_app, Hcl2 in Ed; lia].
    rewrite !bind_ret. rewrite (mem_read_part d (take k d ++ concat bs2) rest2 []), bind_ret;
      [|by rewrite app_nil_r, <- app_assoc|unfold lenz; rewrite length_app, Hcl2; lia
       |apply (f_equal length) in Ed; rewrite !length_app, Hcl2 in Ed; unfold lenz; rewrite Hk in *; lia].
    rewrite (mem_write_part _ [] (take (length rest2) (rest ++ take k d ++ [])) (drop (length rest2) (rest ++ take k d ++ [])) rest2), bind_ret;
      [|cbn [app]; by rewrite take_drop|done|rewrite length_take, !length_app, Hk; unfold k; cbn; lia].
    eexists. split; [done|]. exists (bs ++ [rest ++ take k d] ++ bs2), rest2. eexists. cbn [buffer state count0 count1].
    split; [|split; [|split; [|split; [done|split; [done|split; [|done]]]]]].
    + rewrite Ed at 1. rewrite Em, !concat_app. cbn [concat]. rewrite app_nil_r, <- !app_assoc. done.
    + apply Forall_app_2; [done|]. constructor; [rewrite length_app, Hk; unfold k; lia|done].
    + rewrite length_drop, !length_app, Hk. unfold k. cbn. lia.
    + rewrite !foldl_app, Est. done.
  - rewrite bind_ret, Z.sub_0_r, (mem_read_part d [] d []), bind_ret by (try done; by rewrite app_nil_r).
    rewrite (mem_write_part _ rest (take (length d) junk) (drop (length d) junk) d), bind_ret;
      [|by rewrite take_drop|done|rewrite length_take; lia].
    eexists. split; [done|]. exists bs, (rest ++ d), (drop (length d) junk). cbn [buffer state count0 count1].
    split; [by rewrite Em, <- app_assoc|]. split; [done|]. split; [rewrite length_app, length_drop; lia|].
    split; [rewrite length_app; lia|]. split; [by rewrite <- app_assoc|]. done.
Qed.

(** ** Padding and digest *)

Lemma pad_test n : 0 <= n -> Z.land ((8 * n) mod 2^32) 504 = 8 * (n mod 64).
Proof.
  intros Hn. change (2^32) with (8 * 2^29). rewrite Z.mul_mod_distr_l by lia. change 504 with (Z.shiftl 63 3).
  replace (8 * (n mod 2^29)) with (Z.shiftl (n mod 2^29) 3) by (rewrite Z.shiftl_mul_pow2; lia).
  rewrite <- Z.shiftl_land, Z.shiftl_mul_pow2 by lia. change 63 with (2^6 - 1). rewrite land_mask by lia. change (2^6) with 64.
  rewrite Z.mod_mod_divide by (by exists (2^23)). lia.
Qed.

Lemma pad_zeros_after z : forall fuel c m, after c m -> Forall byte m -> (z < fuel)%nat -> (z < 64)%nat -> (lenz m + Z.of_nat z) mod 64 = 56 ->
  lenz m + Z.of_nat z < 2^61 -> exists c', pad_zeros fuel c = Ok c' /\ after c' (m ++ replicate z 0).
Proof.
  induction z as [|z IH]; intros [|fuel] c m Ha Hb Hf Hz Hm Hl; try lia; cbn [pad_zeros].
  - exists c. rewrite app_nil_r. split; [|done]. destruct Ha as (_ & _ & _ & _ & _ & _ & _ & _ & _ & -> & _).
    rewrite pad_test by (unfold lenz; lia). rewrite Z.add_0_r in Hm. by rewrite Hm.
  - assert (Hne : lenz m mod 64 <> 56).
    { intros E. pose proof (Z.div_mod (lenz m) 64 ltac:(lia)). pose proof (Z.div_mod (lenz m + Z.of_nat (S z)) 64 ltac:(lia)). lia. }
    pose proof Ha as (_ & _ & _ & _ & _ & _ & _ & _ & _ & E0 & _). rewrite E0, pad_test by (unfold lenz; lia).
    destruct (Z.eqb_spec (8 * (lenz m mod 64)) 448); [lia|]. cbn [negb].
    destruct (update_after c m [0] Ha Hb) as (c1 & -> & Ha1); [by repeat constructor|done|change (lenz [0]) with 1; lia|].
    assert (El : lenz (m ++ [0]) = lenz m + 1) by (unfold lenz; rewrite length_app; cbn [length]; lia).
    rewrite bind_ret. destruct (IH fuel c1 (m ++ [0]) Ha1) as (c2 & E & Ha2); try lia.
    + apply Forall_app_2; [done|]. by repeat constructor.
    + rewrite El. by replace (lenz m + 1 + Z.of_nat z) with (lenz m + Z.of_nat (S z)) by lia.
    + exists c2. split; [done|]. rewrite <- app_assoc in Ha2. exact Ha2.
Qed.

Lemma be_bytes_rev w : be_bytes w = be4 w.
Proof.
  unfold be_bytes, be4, shr. change 255 with (2^8 - 1). rewrite !land_mask, !Z.shiftr_div_pow2 by lia. cbn [to_le rev app].
  rewrite !Z.div_div by lia. done.
Qed.

Lemma to_le_mod n : forall v, to_le n (v mod 256 ^ Z.of_nat n) = to_le n v.
Proof.
  induction n as [|n IH]; intros v; [done|]. cbn [to_le]. rewrite Nat2Z.inj_succ, Z.pow_succ_r by lia.
  rewrite (Z.rem_mul_r v 256) by lia. f_equal.
  - by rewrite (Z.mul_comm 256), Z.mod_add, Z.mod_mod by lia.
  - rewrite (Z.mul_comm 256), Z.div_add, Z.div_small, Z.add_0_l by (try lia; apply Z.mod_pos_bound; lia). apply IH.
Qed.

Lemma finalcount_bits c m : after c m -> finalcount c = rev (to_le 8 (8 * lenz m)).
Proof.
  intros (_ & _ & _ & _ & _ & _ & _ & _ & _ & E0 & E1). unfold finalcount. rewrite !be_bytes_rev, E0, E1. unfold be4.
  rewrite (to_le_app 4 4), rev_app_distr. change (2^32) with (256 ^ Z.of_nat 4). by rewrite to_le_mod.
Qed.

Lemma blocks_concat bs : Forall (fun b => length b = 64%nat) bs -> blocks (length bs) (concat bs) = bs.
Proof.
  induction 1 as [|b bs Hb _ IH]; [done|]. cbn [length blocks concat]. rewrite take_app_length', drop_app_length' by done. by rewrite IH.
Qed.

Lemma le_bytes n v : Forall byte (to_le n v).
Proof. revert v; induction n as [|n IH]; intros v; constructor; [apply Z.mod_pos_bound; lia|done]. Qed.

(** The digest is the one of the standard. *)
Lemma final_after c m : after c m -> Forall byte m -> lenz m < 2^60 -> sat_SHA1_Final c = Ok (fips_sha1 m).
Proof.
  intros Ha Hb Hl. unfold sat_SHA1_Final. rewrite (finalcount_bits c m Ha).
  destruct (update_after c m [128] Ha Hb) as (c1 & -> & Ha1); [by repeat constructor|done|change (lenz [128]) with 1; lia|]. rewrite bind_ret.
  assert (Hb1 : Forall byte (m ++ [128])) by (apply Forall_app_2; [done|]; by repeat constructor).
  assert (El1 : lenz (m ++ [128]) = lenz m + 1) by (unfold lenz; rewrite length_app; cbn [length]; lia).
  set (z := Z.to_nat ((55 - lenz m) mod 64)). pose proof (Z.mod_pos_bound (55 - lenz m) 64 ltac:(lia)) as Hz.
  destruct (pad_zeros_after z 64 c1 (m ++ [128]) Ha1 Hb1) as (c2 & -> & Ha2); [lia|lia| |lia|].
  { rewrite El1. unfold z. rewrite Z2Nat.id by lia. rewrite Zplus_mod_idemp_r. by replace (lenz m + 1 + (55 - lenz m)) with 56 by lia. }
  rewrite bind_ret. set (fin := rev (to_le 8 (8 * lenz m))).
  assert (Hb2 : Forall byte ((m ++ [128]) ++ replicate z 0)) by (apply Forall_app_2; [done|]; by apply Forall_replicate).
  assert (Hfin : Forall byte fin /\ length fin = 8%nat).
  { split; [apply Forall_rev, le_bytes|]. unfold fin. rewrite length_rev. apply le_length. }
  destruct (update_after c2 _ fin Ha2 Hb2) as (c3 & -> & Ha3); [apply Hfin|unfold lenz; rewrite (proj2 Hfin); lia|unfold lenz in *; rewrite length_app, length_replicate, (proj2 Hfin); lia|].
  rewrite bind_ret. set (p := ((m ++ [128]) ++ replicate z 0) ++ fin) in *.
  assert (Ep : m ++ padding (lenz m) = p) by (unfold p, padding; rewrite <- !app_assoc; done).
  destruct Ha3 as (bs & rest & junk & E & Hbs & _ & Hr & _ & Est & _).
  assert (Hmod : lenz p mod 64 = 0).
  { unfold p, lenz. rewrite !length_app, length_replicate, (proj2 Hfin). cbn [length]. unfold z.
    replace (Z.of_nat (length m + 1 + Z.to_nat ((55 - lenz m) mod 64) + 8)) with ((lenz m + 9) + (55 - lenz m) mod 64) by (unfold lenz in *; lia).
    rewrite Zplus_mod_idemp_r. by replace (lenz m + 9 + (55 - lenz m)) with 64 by lia. }
  pose proof (length_chunks 64 bs Hbs) as Hcl.
  assert (rest = []) as ->.
  { apply length_zero_iff_nil. assert (Hlp : lenz p = 64 * Z.of_nat (length bs) + Z.of_nat (length rest)) by (rewrite E; unfold lenz; rewrite length_app, Hcl; lia).
    rewrite Hlp, (Z.mul_comm 64), Z.add_comm, Z.mod_add, Z.mod_small in Hmod by lia. lia. }
  rewrite app_nil_r in E. unfold fips_sha1. rewrite Ep.
  assert (Hlen : (length p / 64 = length bs)%nat) by (rewrite E, Hcl, Nat.mul_comm, Nat.div_mul; lia).
  rewrite Hlen, E, (blocks_concat bs Hbs), <- Est, !be_bytes_rev. done.
Qed.

Lemma init_after junk : length junk = 64%nat -> after (sat_SHA1_Init junk) [].
Proof. intros Hj. exists [], [], junk. split_and!; try done. cbn. lia. Qed.

(** C30.  [sha1] computes the digest of FIPS 180-1 for every text of less than 2^29
    bytes, whatever the uninitialised buffer holds. *)
Theorem sha1_is_fips junk m :
  length junk = 64%nat -> Forall byte m -> lenz m < 2^29 -> lsha1 junk m = Ok (Pushed (fips_sha1 m)).
Proof.
  intros Hj Hb Hl. unfold lsha1. destruct (update_after _ [] m (init_after junk Hj)) as (c & -> & Ha); [done|done|done|change (lenz []) with 0; lia|].
  rewrite bind_ret, (final_after c m Ha Hb), bind_ret by lia.
  rewrite <- (app_nil_r (fips_sha1 m)) at 1. by rewrite push_ok.
Qed.

Lemma sha1_is_fips_witness : lsha1 (replicate 64 77) [97; 98; 99] = Ok (Pushed (fips_sha1 [97; 98; 99])) /\
  fips_sha1 [97; 98; 99] = [0xA9; 0x99; 0x3E; 0x36; 0x47; 0x06; 0x81; 0x6A; 0xBA; 0x3E; 0x25; 0x71; 0x78; 0x50; 0xC2; 0x6C; 0x9C; 0xD0; 0xD8; 0x9D].
Proof.
  split; [|vm_compute; reflexivity].
  apply (sha1_is_fips (replicate 64 77) [97; 98; 99]); [reflexivity|repeat constructor; done|vm_compute; reflexivity].
Defined.

(** The count goes wrong for a text of 2^29 bytes: [len << 3] is compared as a
    [size_t], which a 32-bit word is always below. *)
Lemma count_wrong : add_count 0 0 (2^29) = (0, 2) /\ (8 * 2^29) / 2^32 = 1.
Proof. by vm_compute. Qed.

(** ** HMAC *)

Lemma lxor_mod a b k : 0 <= k -> Z.lxor a b mod 2^k = Z.lxor (a mod 2^k) (b mod 2^k).
Proof.
  intros Hk. apply Z.bits_inj'. intros n Hn. rewrite Z.lxor_spec. destruct (Z.lt_ge_cases n k).
  - by rewrite !Z.mod_pow2_bits_low, Z.lxor_spec by lia.
  - by rewrite !Z.mod_pow2_bits_high by lia.
Qed.

Lemma to_le_lxor n : forall a b, to_le n (Z.lxor a b) = zip_with Z.lxor (to_le n a) (to_le n b).
Proof.
  induction n as [|n IH]; intros a b; [done|]. cbn [to_le zip_with]. change 256 with (2^8). rewrite lxor_mod by lia. f_equal.
  rewrite <- !Z.shiftr_div_pow2, Z.shiftr_lxor by lia. apply IH.
Qed.

(** The key xored word by word is the key xored byte by byte. *)
Lemma xor_key_bytes x v n : to_le 4 v = [x; x; x; x] -> forall key, Forall byte key -> length key = (4 * n)%nat ->
  xor_key n key v = Z.lxor x <$> key.
Proof.
  intros Ev. induction n as [|n IH]; intros key Hb Hl; [by destruct key|]. do 4 (destruct key as [|? key]; [cbn in Hl; lia|]).
  cbn [xor_key]. cbn [length] in Hl. change (take 4 (z :: z0 :: z1 :: z2 :: key)) with [z; z0; z1; z2]. change (drop 4 (z :: z0 :: z1 :: z2 :: key)) with (drop 0 key).
  rewrite drop_0. pose proof (Forall_take _ 4 _ Hb) as H4. apply (Forall_drop _ 4) in Hb. change (drop 4 (z :: z0 :: z1 :: z2 :: key)) with (drop 0 key) in Hb. rewrite drop_0 in Hb.
  rewrite (IH key Hb) by lia. rewrite to_le_lxor, Ev. change 4%nat with (length [z; z0; z1; z2]). rewrite (to_le_of_le [z; z0; z1; z2] H4).
  cbn [zip_with fmap list_fmap app]. by rewrite !(Z.lxor_comm x).
Qed.

Lemma byte_lxor a b : byte a -> byte b -> byte (Z.lxor a b).
Proof.
  unfold byte. intros Ha Hb. rewrite <- (Z.mod_small a (2^8)), <- (Z.mod_small b (2^8)), <- lxor_mod by lia. apply Z.mod_pos_bound. lia.
Qed.

Lemma fips_bytes m : Forall byte (fips_sha1 m) /\ length (fips_sha1 m) = 20%nat.
Proof. split; [|done]. unfold fips_sha1. repeat (apply Forall_app_2; [apply Forall_rev, le_bytes|]). apply Forall_rev, le_bytes. Qed.

(** Hashing in two pieces. *)
Lemma hash_two junk a b : length junk = 64%nat -> Forall byte a -> Forall byte b -> lenz a < 2^29 -> lenz b < 2^29 ->
  exists c1 c2, sat_SHA1_Update (sat_SHA1_Init junk) a = Ok c1 /\ sat_SHA1_Update c1 b = Ok c2 /\
    sat_SHA1_Final c2 = Ok (fips_sha1 (a ++ b)).
Proof.
  intros Hj Ha Hb Hla Hlb. destruct (update_after _ [] a (init_after junk Hj)) as (c1 & E1 & A1); [done|done|done|change (lenz []) with 0; lia|].
  destruct (update_after c1 a b A1) as (c2 & E2 & A2); [done|done|done|lia|].
  exists c1, c2. split; [done|]. split; [done|]. apply (final_after c2 (a ++ b) A2); [by apply Forall_app_2|]. unfold lenz in *. rewrite length_app. lia.
Qed.

(** C26.  [hmac_sha1] computes the HMAC of RFC 2104 with SHA-1, for keys of any size
    (longer ones are hashed first) and texts below 2^29 bytes. *)
Theorem hmac_sha1_is_rfc2104 junk key text :
  length junk = 64%nat -> Forall byte key -> Forall byte text -> lenz key < 2^29 -> lenz text < 2^29 ->
  lhmac_sha1 junk key text = Ok (Pushed (fips_hmac key text)).
Proof.
  intros Hj Hbk Hbt Hlk Hlt. unfold lhmac_sha1, fips_hmac. change BLOCKSIZE with 64.
  set (k := if 64 <? lenz key then fips_sha1 key else key).
  assert (Hk : Forall byte k /\ (length k <= 64)%nat).
  { unfold k, lenz. destruct (Z.ltb_spec 64 (Z.of_nat (length key))); [|split; [done|lia]]. destruct (fips_bytes key) as [? ->]. split; [done|lia]. }
  destruct Hk as [Hkb Hkl]. set (K := k ++ replicate (64 - length k) 0).
  assert (Hrk : forall d, d = k -> mem_write (replicate 64 0) 0 d = Ok K).
  { intros d ->. rewrite (mem_write_part _ [] (replicate (length k) 0) (replicate (64 - length k) 0) k); [done| |done|by rewrite length_replicate].
    cbn [app]. rewrite <- replicate_add. f_equal. lia. }
  assert (HK : Forall byte K /\ length K = 64%nat).
  { unfold K. split; [apply Forall_app_2; [done|by apply Forall_replicate]|]. rewrite length_app, length_replicate. lia. }
  assert (E : (if 64 <? lenz key then c ← sat_SHA1_Update (sat_SHA1_Init junk) key; digest ← sat_SHA1_Final c; mem_write (replicate 64 0) 0 digest
     else mem_write (replicate 64 0) 0 key) = Ok K).
  { unfold k in Hrk. destruct (64 <? lenz key); [|by apply Hrk].
    destruct (update_after _ [] key (init_after junk Hj)) as (c & -> & A); [done|done|done|change (lenz []) with 0; lia|].
    rewrite bind_ret, (final_after c key A Hbk), bind_ret by lia. by apply Hrk. }
  rewrite E, bind_ret. destruct HK as [HKb HKl].
  rewrite (xor_key_bytes 0x5c 0x5c5c5c5c 16 eq_refl K HKb HKl).
  assert (Hx : forall x, byte x -> Forall byte (Z.lxor x <$> K) /\ length (Z.lxor x <$> K) = 64%nat).
  { intros x Hx. split; [|by rewrite length_fmap]. apply Forall_fmap. eapply Forall_impl; [exact HKb|]. intros b Hb. by apply byte_lxor. }
  destruct (Hx 0x5c ltac:(done)) as [H5b H5l]. destruct (Hx 0x36 ltac:(done)) as [H3b H3l].
  rewrite (xor_key_bytes 0x6a (Z.lxor 0x5c5c5c5c 0x36363636) 16 eq_refl _ H5b H5l).
  replace (Z.lxor 0x6a <$> (Z.lxor 0x5c <$> K)) with (Z.lxor 0x36 <$> K).
  2: { rewrite <- list_fmap_compose. apply list_fmap_ext. intros i b _. unfold compose. by rewrite <- Z.lxor_assoc. }
  destruct (fips_bytes ((Z.lxor 0x36 <$> K) ++ text)) as [Hdb Hdl].
  destruct (hash_two junk (Z.lxor 0x36 <$> K) text Hj H3b Hbt) as (c2 & d2 & E2 & D2 & F2); [unfold lenz; rewrite H3l; lia|done|].
  destruct (hash_two junk (Z.lxor 0x5c <$> K) (fips_sha1 ((Z.lxor 0x36 <$> K) ++ text)) Hj H5b Hdb) as (c1 & d1 & E1 & D1 & F1);
    [unfold lenz; rewrite H5l; lia|unfold lenz; rewrite Hdl; lia|].
  rewrite E1, bind_ret, E2, bind_ret, D2, bind_ret, F2, bind_ret, D1, bind_ret, F1, bind_ret.
  match goal with |- push ?x _ = _ => rewrite <- (app_nil_r x) at 1 end. by rewrite push_ok.
Qed.

Lemma hmac_sha1_is_rfc2104_witness :
  lhmac_sha1 (replicate 64 0) [107; 101; 121] [1; 2; 3] = Ok (Pushed (fips_hmac [107; 101; 121] [1; 2; 3])).
Proof.
  apply (hmac_sha1_is_rfc2104 (replicate 64 0) [107; 101; 121] [1; 2; 3]);
    [reflexivity|repeat constructor; done|repeat constructor; done|vm_compute; reflexivity|vm_compute; reflexivity].
Defined.
