(* ===== verification/SprotoPack.v ===== *)
(** * 0-packing of messages ([lualib-src/sproto/sproto.c], [lsproto.c])

    [sproto_pack] and [sproto_unpack] with the buffers they read and write, and
    the two functions Lua calls, [lpack] and [lunpack].  Every access of a buffer
    checks its offset, so the bytes the code reads past the end of its input are
    faults of the model. *)

From S2P Require Import Prelude.
From Stdlib Require Import ZArith Lia.
From stdpp Require Import base numbers list.
#[local] Open Scope Z_scope.
#[local] Open Scope list_scope.

Module Pack.

(** ** Packing *)

(** One step of the loop of [pack_seg]: the bytes written so far are at [off],
    [sz] is the room left. *)
Record seg := { sg_buf : list Z; sg_off : Z; sg_sz : Z; sg_header : Z; sg_notzero : Z }.

Definition seg_step (w : list Z) (i : Z) (s : seg) : outcome seg :=
  c ← arr_get w i;
  if c =? 0 then Ok s
  else
    let notzero := sg_notzero s + 1 in
    let header := Z.lor (sg_header s) (Z.shiftl 1 i) in
    if 0 <? sg_sz s then
      buf ← mem_write (sg_buf s) (sg_off s) [c];
      Ok {| sg_buf := buf; sg_off := sg_off s + 1; sg_sz := sg_sz s - 1; sg_header := header; sg_notzero := notzero |}
    else Ok {| sg_buf := sg_buf s; sg_off := sg_off s; sg_sz := sg_sz s; sg_header := header; sg_notzero := notzero |}.

(** [pack_seg(src, buffer, sz, n)]: [w] is what [src] points to, [off] is where
    [buffer] points in [buf]. *)
Definition pack_seg (w : list Z) (buf : list Z) (off sz n : Z) : outcome (list Z * Z) :=
  let obuffer := if sz - 1 <? 0 then None else Some off in
  s ← for_loop 8 0 (seg_step w) {| sg_buf := buf; sg_off := off + 1; sg_sz := sz - 1; sg_header := 0; sg_notzero := 0 |};
  let notzero := if ((sg_notzero s =? 7) || (sg_notzero s =? 6)) && (0 <? n) then 8 else sg_notzero s in
  if notzero =? 8 then Ok (sg_buf s, if 0 <? n then 8 else 10)
  else
    buf ← match obuffer with
          | Some o => mem_write (sg_buf s) o [u8 (sg_header s)]
          | None => Ok (sg_buf s)
          end;
    Ok (buf, notzero + 1).

(** [write_ff(src, des, n)] *)
Definition write_ff (src : list Z) (so : Z) (buf : list Z) (des n : Z) : outcome (list Z) :=
  let align8_n := Z.land (n + 7) (Z.lnot 7) in
  bytes ← mem_read src so n;
  mem_write buf des ([0xff; u8 (align8_n / 8 - 1)] ++ bytes ++ replicate (Z.to_nat (align8_n - n)) 0).

(** Where [src] points: into the input, or at the padded copy of its tail. *)
Inductive srcptr := InSrc (o : Z) | InTmp.

Record packing := {
  pk_buf : list Z; pk_buffer : Z; pk_bufsz : Z;
  pk_src : srcptr; pk_tmp : list Z;
  ff_srcstart : option srcptr; ff_desstart : Z; ff_n : Z;
  pk_size : Z }.

(** What a pointer into the input or into [tmp] leads to. *)
Definition src_mem (srcv : list Z) (s : packing) (p : option srcptr) : outcome (list Z * Z) :=
  match p with
  | Some (InSrc o) => Ok (srcv, o)
  | Some InTmp => Ok (pk_tmp s, 0)
  | None => Fault NullPointer
  end.

Definition flush_ff (srcv : list Z) (s : packing) (buf : list Z) (bufsz n : Z) : outcome (list Z) :=
  if 0 <=? bufsz then
    '(m, o) ← src_mem srcv s (ff_srcstart s);
    write_ff m o buf (ff_desstart s) n
  else Ok buf.

(** The loop body of [sproto_pack] once [src] points to the word [w]. *)
Definition pack_word (srcv : list Z) (s : packing) (w : list Z) : outcome packing :=
  '(buf, n) ← pack_seg w (pk_buf s) (pk_buffer s) (pk_bufsz s) (ff_n s);
  let bufsz := pk_bufsz s - n in
  '(buf, start, des, run) ←
    (if n =? 10 then Ok (buf, Some (pk_src s), pk_buffer s, 1)
     else if (n =? 8) && (0 <? ff_n s) then
       let run := ff_n s + 1 in
       if run =? 256 then
         buf ← flush_ff srcv s buf bufsz (256 * 8);
         Ok (buf, ff_srcstart s, ff_desstart s, 0)
       else Ok (buf, ff_srcstart s, ff_desstart s, run)
     else if 0 <? ff_n s then
       buf ← flush_ff srcv s buf bufsz (ff_n s * 8);
       Ok (buf, ff_srcstart s, ff_desstart s, 0)
     else Ok (buf, ff_srcstart s, ff_desstart s, ff_n s));
  Ok {| pk_buf := buf; pk_buffer := pk_buffer s + n; pk_bufsz := bufsz;
        pk_src := match pk_src s with InSrc o => InSrc (o + 8) | InTmp => InTmp end; pk_tmp := pk_tmp s;
        ff_srcstart := start; ff_desstart := des; ff_n := run; pk_size := pk_size s + n |}.

(** The body of the loop of [sproto_pack]; [i] is the loop counter. *)
Definition pack_step (srcv : list Z) (srcsz : Z) (i : Z) (s : packing) : outcome packing :=
  let padding := i + 8 - srcsz in
  s ← (if 0 <? padding then
         match pk_src s with
         | InSrc o =>
             b ← mem_read srcv o (8 - padding);
             Ok {| pk_buf := pk_buf s; pk_buffer := pk_buffer s; pk_bufsz := pk_bufsz s; pk_src := InTmp;
                   pk_tmp := b ++ replicate (Z.to_nat padding) 0;
                   ff_srcstart := ff_srcstart s; ff_desstart := ff_desstart s; ff_n := ff_n s; pk_size := pk_size s |}
         | InTmp => Fault OutOfBounds
         end
       else Ok s);
  '(m, o) ← src_mem srcv s (Some (pk_src s));
  w ← mem_read m o 8;
  pack_word srcv s w.

Fixpoint pack_loop (k : nat) (srcv : list Z) (srcsz i : Z) (s : packing) : outcome packing :=
  match k with
  | O => Ok s
  | S k => s ← pack_step srcv srcsz i s; pack_loop k srcv srcsz (i + 8) s
  end.

(** What [sproto_pack] does after its loop: the run that still waits is written. *)
Definition pack_finish (srcv : list Z) (srcsz : Z) (s : packing) : outcome (list Z * Z) :=
  buf ← (if ff_n s =? 1 then flush_ff srcv s (pk_buf s) (pk_bufsz s) 8
         else if 1 <? ff_n s then
           match ff_srcstart s with
           | Some (InSrc o) => flush_ff srcv s (pk_buf s) (pk_bufsz s) (srcsz - o)
           | _ => Fault DanglingPointer
           end
         else Ok (pk_buf s));
  Ok (buf, pk_size s).

(** [sproto_pack(srcv, srcsz, bufferv, bufsz)]: the buffer afterwards and the
    size returned.  The loop runs once per eight bytes begun. *)
Definition sproto_pack (srcv : list Z) (srcsz : Z) (bufferv : list Z) (bufsz : Z) : outcome (list Z * Z) :=
  s ← pack_loop (Z.to_nat ((srcsz + 7) / 8)) srcv srcsz 0
        {| pk_buf := bufferv; pk_buffer := 0; pk_bufsz := bufsz; pk_src := InSrc 0; pk_tmp := [];
           ff_srcstart := None; ff_desstart := 0; ff_n := 0; pk_size := 0 |};
  pack_finish srcv srcsz s.

(** ** Unpacking *)

Record unpacking := { up_pos : Z; up_srcsz : Z; up_buf : list Z; up_buffer : Z; up_bufsz : Z; up_size : Z }.

(** Writes a byte when there is room for it. *)
Definition put_byte (b : Z) (s : unpacking) : outcome unpacking :=
  if 0 <? up_bufsz s then
    buf ← mem_write (up_buf s) (up_buffer s) [b];
    Ok {| up_pos := up_pos s; up_srcsz := up_srcsz s; up_buf := buf; up_buffer := up_buffer s + 1;
          up_bufsz := up_bufsz s - 1; up_size := up_size s |}
  else Ok s.

(** The code goes on, or it does [return -1] and leaves the buffer as it is. *)
Inductive unpacked := More (s : unpacking) | Bad (buf : list Z).

(** One round of the loop over the bits of a tag. *)
Definition bit_step (src : list Z) (header : Z) (i : Z) (so : unpacked) : outcome unpacked :=
  match so with
  | Bad buf => Ok (Bad buf)
  | More s =>
      if Z.land (Z.shiftr header i) 1 =? 0 then
        s ← put_byte 0 s;
        Ok (More {| up_pos := up_pos s; up_srcsz := up_srcsz s; up_buf := up_buf s; up_buffer := up_buffer s;
                    up_bufsz := up_bufsz s; up_size := up_size s + 1 |})
      else if up_srcsz s <? 0 then Ok (Bad (up_buf s))
      else
        (* the byte is loaded only when there is room to store it *)
        s ← (if 0 <? up_bufsz s then c ← arr_get src (up_pos s); put_byte c s else Ok s);
        Ok (More {| up_pos := up_pos s + 1; up_srcsz := up_srcsz s - 1; up_buf := up_buf s; up_buffer := up_buffer s;
                    up_bufsz := up_bufsz s; up_size := up_size s + 1 |})
  end.

(** One round of the outer loop. *)
Definition unpack_step (src : list Z) (s : unpacking) : outcome unpacked :=
  header ← arr_get src (up_pos s);
  let srcsz := up_srcsz s - 1 in
  let pos := up_pos s + 1 in
  if header =? 0xff then
    if srcsz <? 0 then Ok (Bad (up_buf s))
    else
      c ← arr_get src pos;
      let n := (c + 1) * 8 in
      if srcsz <? n + 1 then Ok (Bad (up_buf s))
      else
        let pos := pos + 1 in
        buf ← (if n <=? up_bufsz s then
                 bytes ← mem_read src pos n;
                 mem_write (up_buf s) (up_buffer s) bytes
               else Ok (up_buf s));
        Ok (More {| up_pos := pos + n; up_srcsz := srcsz - (n + 1); up_buf := buf; up_buffer := up_buffer s + n;
                    up_bufsz := up_bufsz s - n; up_size := up_size s + n |})
  else
    for_loop 8 0 (bit_step src header)
      (More {| up_pos := pos; up_srcsz := srcsz; up_buf := up_buf s; up_buffer := up_buffer s;
               up_bufsz := up_bufsz s; up_size := up_size s |}).

Fixpoint unpack_loop (fuel : nat) (src : list Z) (s : unpacking) : outcome (list Z * Z) :=
  match fuel with
  | O => Fault OutOfFuel
  | S fuel =>
      if 0 <? up_srcsz s then
        r ← unpack_step src s;
        match r with
        | Bad buf => Ok (buf, -1)
        | More s => unpack_loop fuel src s
        end
      else Ok (up_buf s, up_size s)
  end.

(** [sproto_unpack(srcv, srcsz, bufferv, bufsz)]: every round takes at least one
    byte of the input, so [srcsz + 1] rounds are enough. *)
Definition sproto_unpack (srcv : list Z) (srcsz : Z) (bufferv : list Z) (bufsz : Z) : outcome (list Z * Z) :=
  unpack_loop (S (Z.to_nat srcsz)) srcv
    {| up_pos := 0; up_srcsz := srcsz; up_buf := bufferv; up_buffer := 0; up_bufsz := bufsz; up_size := 0 |}.

(** ** The functions of Lua

    [lpack] and [lunpack] keep their output buffer and its size in upvalues. *)

Definition ENCODE_BUFFERSIZE : Z := 2050.
Definition ENCODE_MAXSIZE : Z := 0x1000000.

(** The source argument: a string, which Lua stores with a zero after it, or a
    pointer with a size. *)
Inductive source := LString (s : list Z) | LUserdata (m : list Z) (sz : Z) | LOther.

Inductive reply := Str (s : list Z) | TooLarge | NeedString | PackingError (n : Z) | InvalidStream.

(** Upvalues 1 and 2. *)
Record upvalues := { uv_buffer : list Z; uv_size : Z }.

Definition getbuffer (a : source) : option (list Z * Z) :=
  match a with
  | LString s => Some (s ++ [0], Z.of_nat (length s))
  | LUserdata m sz => Some (m, sz)
  | LOther => None
  end.

(** [do osz *= 2; while (osz < nsz)]: 32 doublings leave the range of [int]. *)
Fixpoint double_until (fuel : nat) (osz nsz : Z) : outcome Z :=
  match fuel with
  | O => Fault OutOfFuel
  | S fuel =>
      osz ← c_int (osz * 2);
      if osz <? nsz then double_until fuel osz nsz else Ok osz
  end.

Section Buffers.
(** What [lua_newuserdata] gives: memory of the size asked for. *)
Context (newuserdata : Z -> list Z).

(** [expand_buffer]; [None] is the error it raises. *)
Definition expand_buffer (osz nsz : Z) : outcome (option upvalues) :=
  osz ← double_until 32 osz nsz;
  if ENCODE_MAXSIZE <? osz then Ok None
  else Ok (Some {| uv_buffer := newuserdata osz; uv_size := osz |}).

(** [lua_pushlstring(L, output, n)] *)
Definition pushlstring (buf : list Z) (n : Z) : outcome reply :=
  b ← mem_read buf 0 n; Ok (Str b).

Definition lpack (uv : upvalues) (a : source) : outcome (upvalues * reply) :=
  match getbuffer a with
  | None => Ok (uv, NeedString)
  | Some (buffer, sz) =>
      let maxsz := (sz + 2047) / 2048 * 2 + sz + 2 in
      let osz := uv_size uv in
      uv' ← (if osz <? maxsz then expand_buffer osz (i32 maxsz) else Ok (Some uv));
      match uv' with
      | None => Ok (uv, TooLarge)
      | Some uv =>
          '(out, bytes) ← sproto_pack buffer (i32 sz) (uv_buffer uv) (i32 maxsz);
          let uv := {| uv_buffer := out; uv_size := uv_size uv |} in
          if maxsz <? bytes then Ok (uv, PackingError bytes)
          else r ← pushlstring out bytes; Ok (uv, r)
      end
  end.

Definition lunpack (uv : upvalues) (a : source) : outcome (upvalues * reply) :=
  match getbuffer a with
  | None => Ok (uv, NeedString)
  | Some (buffer, sz) =>
      let osz := uv_size uv in
      '(out, r) ← sproto_unpack buffer (i32 sz) (uv_buffer uv) osz;
      let uv := {| uv_buffer := out; uv_size := osz |} in
      if r <? 0 then Ok (uv, InvalidStream)
      else if osz <? r then
        uv' ← expand_buffer osz r;
        match uv' with
        | None => Ok (uv, TooLarge)
        | Some uv =>
            '(out, r) ← sproto_unpack buffer (i32 sz) (uv_buffer uv) r;
            let uv := {| uv_buffer := out; uv_size := uv_size uv |} in
            if r <? 0 then Ok (uv, InvalidStream)
            else p ← pushlstring out r; Ok (uv, p)
        end
      else p ← pushlstring out r; Ok (uv, p)
  end.
End Buffers.

End Pack.
