(* ===== verification/SprotoPackProofs.v ===== *)
(** * What 0-packing guarantees

    The packed form as a function of the words of the input, the theorem that
    [sproto_pack] computes it into a large enough buffer, the bound on its size
    [lpack] relies on, and the round trip through [lunpack]. *)

From S2P Require Import Prelude SprotoPack.
From Stdlib Require Import ZArith Lia.
From stdpp Require Import base numbers list.
#[local] Open Scope Z_scope.
#[local] Open Scope list_scope.
Import Pack.

(** ** Writing into a buffer leaves what is before it alone *)

Lemma write_prefix {A} (buf bs : list A) off :
  0 <= off -> off + Z.of_nat (length bs) <= Z.of_nat (length buf) ->
  exists buf', mem_write buf off bs = Ok buf' /\ length buf' = length buf /\
    take (Z.to_nat off) buf' = take (Z.to_nat off) buf /\
    take (Z.to_nat off + length bs) buf' = take (Z.to_nat off) buf ++ bs /\
    drop (Z.to_nat off + length bs) buf' = drop (Z.to_nat off + length bs) buf.
Proof.
  intros H0 H1. unfold mem_write.
  destruct (Z.ltb_spec off 0); [lia|].
  destruct (Z.ltb_spec (Z.of_nat (length buf)) (off + Z.of_nat (length bs))); [lia|]. cbn [orb].
  eexists. split; [done|].
  assert (Hl : length (take (Z.to_nat off) buf) = Z.to_nat off) by (rewrite length_take; lia).
  split_and!.
  - rewrite !length_app, length_drop. lia.
  - rewrite <- Hl at 1. by rewrite take_app_length.
  - rewrite app_assoc. rewrite <- Hl at 1. rewrite <- length_app. by rewrite take_app_length.
  - rewrite app_assoc. rewrite <- Hl at 1. rewrite <- length_app. by rewrite drop_app_length.
Qed.

Lemma take_weaken {A} (n m : nat) (l l' : list A) :
  (n <= m)%nat -> take m l = take m l' -> take n l = take n l'.
Proof.
  intros Hnm E. rewrite <- (Nat.min_l n m) by done. by rewrite <- !take_take, E.
Qed.

(** ** The packed form *)

Definition nonzero (w : list Z) : list Z := filter (fun c => c <> 0) w.

Fixpoint tag (w : list Z) : Z :=
  match w with
  | [] => 0
  | c :: w => Z.b2z (negb (c =? 0)) + 2 * tag w
  end.

(** The words of eight bytes, the last one padded with zeros. *)
Fixpoint words8 (l : list Z) : list (list Z) :=
  match l with
  | a :: b :: c :: d :: e :: f :: g :: h :: l => [a; b; c; d; e; f; g; h] :: words8 l
  | [] => []
  | _ => [l ++ replicate (8 - length l) 0]
  end.

(** Words copied as they are, after the tag 0xff. *)
Definition raw (run : list (list Z)) : list Z :=
  match run with
  | [] => []
  | _ => [0xff; Z.of_nat (length run) - 1] ++ concat run
  end.

(** A word joins a run of [n] raw words when all its bytes are used, or six or
    seven of them and there is a run to join. *)
Definition joins (n : nat) (w : list Z) : bool :=
  bool_decide (length (nonzero w) = 8%nat \/ (6 <= length (nonzero w))%nat /\ n <> 0%nat).

(** The packed form of [ws] after the raw words [run] that wait for their tag. *)
Fixpoint zpack (ws : list (list Z)) (run : list (list Z)) : list Z :=
  match ws with
  | [] => raw run
  | w :: ws =>
      if joins (length run) w then
        if decide (length run = 255%nat) then raw (run ++ [w]) ++ zpack ws [] else zpack ws (run ++ [w])
      else raw run ++ (tag w :: nonzero w) ++ zpack ws []
  end.

(** The size [pack_seg] returns. *)
Definition cost (n : nat) (w : list Z) : Z :=
  if joins n w then (if decide (n = 0%nat) then 10 else 8) else Z.of_nat (length (nonzero w)) + 1.

Lemma nonzero_le w : (length (nonzero w) <= length w)%nat.
Proof. apply length_filter. Qed.

Lemma nonzero_cons c w : nonzero (c :: w) = (if c =? 0 then [] else [c]) ++ nonzero w.
Proof.
  unfold nonzero. destruct (Z.eqb_spec c 0) as [->|].
  - by rewrite filter_cons_False by lia.
  - by rewrite filter_cons_True by lia.
Qed.

Lemma nonzero_zeros k : nonzero (replicate k 0) = [].
Proof. induction k as [|k IH]; [done|]. cbn [replicate]. rewrite nonzero_cons. exact IH. Qed.

Lemma tag_range w : 0 <= tag w < 2 ^ Z.of_nat (length w).
Proof.
  induction w as [|c w IH]; [done|]. cbn [tag length].
  rewrite Nat2Z.inj_succ, Z.pow_succ_r by lia. destruct (c =? 0); cbn; lia.
Qed.

Lemma tag_full w : tag w = 2 ^ Z.of_nat (length w) - 1 -> length (nonzero w) = length w.
Proof.
  induction w as [|c w IH]; [done|]. cbn [tag length]. intros H. pose proof (tag_range w).
  rewrite Nat2Z.inj_succ, Z.pow_succ_r in H by lia. rewrite nonzero_cons.
  destruct (c =? 0); cbn in *; [lia|]. rewrite IH; lia.
Qed.

(** ** [pack_seg] *)

Lemma tag_bits h i c w : 0 <= i ->
  Z.lor (Z.lor h (Z.shiftl (Z.b2z (negb (c =? 0))) i)) (Z.shiftl (tag w) (i + 1))
  = Z.lor h (Z.shiftl (tag (c :: w)) i).
Proof.
  intros Hi. rewrite <- Z.lor_assoc. f_equal. cbn [tag].
  replace (i + 1) with (1 + i) by lia. rewrite <- Z.shiftl_shiftl, <- Z.shiftl_lor by lia. f_equal.
  rewrite Z.shiftl_mul_pow2 by lia. rewrite lor_disjoint by (destruct (c =? 0); cbn; lia). lia.
Qed.

Lemma seg_run suf : forall pre s,
  0 <= sg_off s -> sg_sz s <= Z.of_nat (length (sg_buf s)) - sg_off s ->
  exists s', for_loop (length suf) (Z.of_nat (length pre)) (seg_step (pre ++ suf)) s = Ok s' /\
    sg_notzero s' = sg_notzero s + Z.of_nat (length (nonzero suf)) /\
    sg_header s' = Z.lor (sg_header s) (Z.shiftl (tag suf) (Z.of_nat (length pre))) /\
    length (sg_buf s') = length (sg_buf s) /\
    take (Z.to_nat (sg_off s)) (sg_buf s') = take (Z.to_nat (sg_off s)) (sg_buf s) /\
    (Z.of_nat (length (nonzero suf)) <= sg_sz s ->
     take (Z.to_nat (sg_off s) + length (nonzero suf)) (sg_buf s') = take (Z.to_nat (sg_off s)) (sg_buf s) ++ nonzero suf).
Proof.
  induction suf as [|c suf IH]; intros pre s H0 Hsz; cbn [for_loop length].
  - exists s. cbn [tag]. rewrite Z.shiftl_0_l, Z.lor_0_r. cbn. rewrite Nat.add_0_r, app_nil_r. split_and!; try done. lia.
  - unfold seg_step at 2. rewrite (arr_get_ok _ _ c) by (rewrite ?Nat2Z.id, ?list_lookup_middle; done || lia).
    rewrite bind_ret.
    assert (Happ : pre ++ c :: suf = (pre ++ [c]) ++ suf) by (by rewrite <- app_assoc).
    assert (Hi : Z.of_nat (length pre) + 1 = Z.of_nat (length (pre ++ [c]))) by (rewrite length_app; cbn; lia).
    rewrite nonzero_cons, length_app. pose proof (tag_bits (sg_header s) (Z.of_nat (length pre)) c suf ltac:(lia)) as Ht.
    destruct (Z.eqb_spec c 0) as [->|Hc].
    + rewrite bind_ret, Happ, Hi. destruct (IH (pre ++ [0]) s) as (s' & -> & ? & Hh & ? & ? & ?); [done..|].
      exists s'. split_and!; try done. rewrite Hh, <- Hi, <- Ht. cbn. by rewrite Z.shiftl_0_l, Z.lor_0_r.
    + rewrite Happ, Hi. cbn [app length].
      destruct (Z.ltb_spec 0 (sg_sz s)).
      * destruct (write_prefix (sg_buf s) [c] (sg_off s)) as (buf' & -> & Hl & Hp & Hw & _); [lia|cbn; lia|].
        rewrite !bind_ret. cbn [length] in Hw.
        destruct (IH (pre ++ [c]) {| sg_buf := buf'; sg_off := sg_off s + 1; sg_sz := sg_sz s - 1;
            sg_header := Z.lor (sg_header s) (Z.shiftl 1 (Z.of_nat (length pre)));
            sg_notzero := sg_notzero s + 1 |}) as (s' & -> & Hn & Hh & Hl' & Hp' & Hw'); cbn [sg_off sg_sz sg_buf] in *; [lia..|].
        exists s'. cbn [sg_notzero sg_header] in *.
        replace (Z.to_nat (sg_off s + 1)) with (Z.to_nat (sg_off s) + 1)%nat in * by lia.
        split_and!; [done|lia|by rewrite Hh, <- Hi, <- Ht|congruence| |].
        -- rewrite (take_weaken _ (Z.to_nat (sg_off s) + 1) (sg_buf s') buf'); [done|lia|done].
        -- intros Hle. rewrite <- Nat.add_assoc in Hw'. rewrite Hw' by lia. rewrite Hw, <- app_assoc. done.
      * rewrite bind_ret.
        destruct (IH (pre ++ [c]) {| sg_buf := sg_buf s; sg_off := sg_off s; sg_sz := sg_sz s;
            sg_header := Z.lor (sg_header s) (Z.shiftl 1 (Z.of_nat (length pre)));
            sg_notzero := sg_notzero s + 1 |}) as (s' & -> & Hn & Hh & Hl' & Hp' & Hw'); cbn [sg_off sg_sz sg_buf] in *; [lia..|].
        exists s'. cbn [sg_notzero sg_header] in *.
        split_and!; [done|lia|by rewrite Hh, <- Hi, <- Ht|done|done|lia].
Qed.

Lemma joins_spec n w : joins n w = true <-> (length (nonzero w) = 8%nat \/ (6 <= length (nonzero w))%nat /\ n <> 0%nat).
Proof. unfold joins. by rewrite bool_decide_eq_true. Qed.

Lemma tag_small w : length w = 8%nat -> length (nonzero w) <> 8%nat -> 0 <= tag w < 255.
Proof.
  intros Hw Hn. pose proof (tag_range w) as Hr. rewrite Hw in Hr.
  destruct (Z.eq_dec (tag w) 255) as [E|]; [|lia].
  exfalso. apply Hn. rewrite <- Hw. apply tag_full. by rewrite Hw, E.
Qed.

Lemma pack_seg_ok w buf off sz n :
  length w = 8%nat -> 0 <= off -> sz <= Z.of_nat (length buf) - off ->
  exists buf', pack_seg w buf off sz (Z.of_nat n) = Ok (buf', cost n w) /\ length buf' = length buf /\
    take (Z.to_nat off) buf' = take (Z.to_nat off) buf /\
    (joins n w = false -> cost n w <= sz ->
     take (Z.to_nat off + Z.to_nat (cost n w)) buf' = take (Z.to_nat off) buf ++ tag w :: nonzero w).
Proof.
  intros Hw Hoff Hsz. unfold pack_seg.
  destruct (seg_run w [] {| sg_buf := buf; sg_off := off + 1; sg_sz := sz - 1; sg_header := 0; sg_notzero := 0 |})
    as (s & Hs & Hn & Hh & Hl & Hp & Hc); cbn [sg_off sg_sz sg_buf] in *; [lia..|].
  rewrite Hw in Hs. cbn [app length] in Hs. change (Z.of_nat 0) with 0 in Hs. rewrite Hs, bind_ret. clear Hs.
  cbn [sg_notzero sg_header] in *. rewrite Z.shiftl_0_r, Z.lor_0_l in Hh.
  assert (H8 := nonzero_le w). rewrite Hw in H8. rewrite Hn, Z.add_0_l.
  replace (Z.to_nat (off + 1)) with (Z.to_nat off + 1)%nat in * by lia.
  assert (Hp' : take (Z.to_nat off) (sg_buf s) = take (Z.to_nat off) buf) by (eapply take_weaken; [|done]; lia).
  unfold cost. destruct (joins n w) eqn:J; cbv zeta.
  - apply joins_spec in J. exists (sg_buf s). split; [|by split_and!].
    repeat match goal with |- context [Z.eqb ?a ?b] => destruct (Z.eqb_spec a b) end; cbn [orb andb];
      destruct (Z.ltb_spec 0 (Z.of_nat n)); cbn [orb andb]; repeat case_decide; cbn [orb andb] in *; try done; exfalso; lia.
  - assert (J' : ~ (length (nonzero w) = 8%nat \/ (6 <= length (nonzero w))%nat /\ n <> 0%nat))
      by (rewrite <- joins_spec, J; done).
    replace (if ((Z.of_nat (length (nonzero w)) =? 7) || (Z.of_nat (length (nonzero w)) =? 6)) && (0 <? Z.of_nat n)
      then 8 else Z.of_nat (length (nonzero w))) with (Z.of_nat (length (nonzero w))); [|
      repeat match goal with |- context [Z.eqb ?a ?b] => destruct (Z.eqb_spec a b) end; cbn [orb andb];
      destruct (Z.ltb_spec 0 (Z.of_nat n)); cbn [orb andb]; lia].
    destruct (Z.eqb_spec (Z.of_nat (length (nonzero w))) 8); [lia|].
    pose proof (tag_small w Hw ltac:(lia)).
    destruct (Z.ltb_spec (sz - 1) 0).
    + rewrite bind_ret. exists (sg_buf s). split_and!; [done..|lia].
    + assert (u8 (sg_header s) = tag w) as -> by (rewrite Hh; unfold u8; apply Z.mod_small; lia).
      destruct (write_prefix (sg_buf s) [tag w] off) as (buf' & -> & Hl' & Hq & Hq' & Hd); [lia|cbn; lia|].
      rewrite bind_ret. cbn [length] in *.
      exists buf'. split_and!; [done|congruence|congruence|]. intros _ Hle.
      replace (Z.to_nat off + Z.to_nat (Z.of_nat (length (nonzero w)) + 1))%nat
        with (Z.to_nat off + 1 + length (nonzero w))%nat by lia.
      rewrite <- take_take_drop, Hq', Hd, Hp', <- app_assoc. cbn [app]. do 2 f_equal.
      rewrite take_drop_commute, Hc by lia.
      replace (Z.to_nat off + 1)%nat with (length (take (Z.to_nat off + 1) buf)) at 1 by (rewrite length_take; lia).
      by rewrite drop_app_length.
Qed.

(** [write_ff] of a run whose last word may be short in the input. *)
Lemma write_ff_ok src so buf des n bytes k :
  mem_read src so n = Ok bytes -> Z.of_nat k = (n + 7) / 8 -> (0 < k <= 256)%nat -> 0 <= n -> 0 <= des ->
  des + 2 + 8 * Z.of_nat k <= Z.of_nat (length buf) ->
  exists buf', write_ff src so buf des n = Ok buf' /\ length buf' = length buf /\
    take (Z.to_nat des + (2 + 8 * k)) buf' =
      take (Z.to_nat des) buf ++ [0xff; Z.of_nat k - 1] ++ bytes ++ replicate (Z.to_nat (8 * Z.of_nat k - n)) 0 /\
    drop (Z.to_nat des + (2 + 8 * k)) buf' = drop (Z.to_nat des + (2 + 8 * k)) buf.
Proof.
  intros Hr Hk Hk0 Hn Hdes Hroom. unfold write_ff. rewrite Hr, bind_ret. cbv zeta.
  assert (Ha : Z.land (n + 7) (Z.lnot 7) = 8 * Z.of_nat k).
  { change 7 with (Z.ones 3) at 2. rewrite <- Z.ldiff_land, Z.ldiff_ones_r, Z.shiftr_div_pow2, Z.shiftl_mul_pow2 by lia.
    change (2 ^ 3) with 8. lia. }
  rewrite Ha. replace (8 * Z.of_nat k / 8) with (Z.of_nat k) by (symmetry; rewrite Z.mul_comm; by apply Z.div_mul).
  assert (u8 (Z.of_nat k - 1) = Z.of_nat k - 1) as -> by (unfold u8; apply Z.mod_small; lia).
  apply mem_read_inv in Hr as (a & c & _ & _ & Hlb).
  assert (Z.of_nat k * 8 - 8 < n <= Z.of_nat k * 8) by (pose proof (Z.div_mod (n + 7) 8 ltac:(lia)); pose proof (Z.mod_pos_bound (n + 7) 8 ltac:(lia)); lia).
  set (bs := _ ++ _ ++ _).
  assert (Hbs : length bs = (2 + 8 * k)%nat) by (unfold bs; rewrite !length_app, length_replicate; cbn [length]; lia).
  destruct (write_prefix buf bs des) as (buf' & -> & Hl & _ & Hw & Hd); [lia..|].
  rewrite Hbs in Hw, Hd. exists buf'. by split_and!.
Qed.

(** ** The loop of [sproto_pack] *)

Definition zl {A} (l : list A) : Z := Z.of_nat (length l).

(** The bytes of the tag and of the words that wait for it. *)
Definition waits (run : list (list Z)) : Z := match run with [] => 0 | _ => 2 + 8 * zl run end.

Lemma raw_length run : Forall (fun w => length w = 8%nat) run -> zl (raw run) = waits run.
Proof.
  intros HF. unfold raw, waits, zl. destruct run as [|w run]; [done|]. rewrite length_app, (length_chunks 8) by done. cbn [length]. lia.
Qed.

(** [pre] has been read, [out] is its packed form up to the raw words [run]. *)
Record pinv (blen cap : Z) (pre out : list Z) (run : list (list Z)) (s : packing) : Prop := {
  pi_len : zl (pk_buf s) = blen /\ cap <= blen;
  pi_size : pk_size s = zl out + waits run;
  pi_buffer : pk_buffer s = pk_size s;
  pi_room : pk_bufsz s = cap - pk_size s;
  pi_n : ff_n s = zl run;
  pi_run : (length run < 256)%nat;
  pi_out : pk_size s <= cap -> take (length out) (pk_buf s) = out;
  pi_src : run <> [] -> ff_desstart s = zl out /\ ff_srcstart s = Some (InSrc (zl pre - 8 * zl run)) /\
             exists p0, pre = p0 ++ concat run;
  pi_words : Forall (fun w => length w = 8%nat) run }.

(** Writing a run puts its packed form after [out] and changes nothing behind it. *)
Lemma flush_ok srcv s buf bufsz n out run o bytes :
  run <> [] -> (length run <= 256)%nat -> Forall (fun w => length w = 8%nat) run ->
  ff_srcstart s = Some (InSrc o) -> ff_desstart s = zl out ->
  mem_read srcv o n = Ok bytes -> bytes ++ replicate (Z.to_nat (8 * zl run - n)) 0 = concat run ->
  8 * zl run - 8 < n <= 8 * zl run ->
  (0 <= bufsz -> zl out + waits run <= zl buf /\ take (length out) buf = out) ->
  exists buf', flush_ff srcv s buf bufsz n = Ok buf' /\ length buf' = length buf /\
    (0 <= bufsz -> take (length (out ++ raw run)) buf' = out ++ raw run /\
                   drop (length (out ++ raw run)) buf' = drop (length (out ++ raw run)) buf).
Proof.
  intros Hne H256 HF Hs Hd Hr Hb Hn Hroom. unfold flush_ff. destruct (Z.leb_spec 0 bufsz) as [H0|H0].
  - destruct (Hroom H0) as [Hcap Hout]. rewrite Hs. cbn [src_mem]. rewrite bind_ret.
    assert (Hraw := raw_length run HF). destruct run as [|w0 run0]; [done|]. set (run := w0 :: run0) in *.
    assert (Hlr : (0 < length run)%nat) by (unfold run; cbn; lia).
    change (waits run) with (2 + 8 * zl run) in *. unfold zl in *.
    destruct (write_ff_ok srcv o buf (ff_desstart s) n bytes (length run)) as (buf' & -> & Hl & Hw & Hdr); [done| |lia..|].
    { apply Z.div_unique with (n + 7 - 8 * Z.of_nat (length run)); lia. }
    exists buf'. split_and!; [done..|]. intros _. rewrite Hb, Hd, !Nat2Z.id, Hout in *. rewrite length_app.
    replace (length (raw run)) with (2 + 8 * length run)%nat by lia. done.
  - exists buf. split_and!; [done..|lia].
Qed.

Lemma pack_concat_snoc {A} (l : list (list A)) w : concat (l ++ [w]) = concat l ++ w.
Proof. rewrite concat_app. cbn. by rewrite app_nil_r. Qed.

Lemma pi_start blen cap pre out run s srcv rest n :
  pinv blen cap pre out run s -> run <> [] -> srcv = pre ++ rest -> n = 8 * zl run ->
  mem_read srcv (zl pre - 8 * zl run) n = Ok (concat run).
Proof.
  intros I Hne -> ->. destruct (pi_src _ _ _ _ _ _ I Hne) as (_ & _ & p0 & Hp).
  pose proof (length_chunks 8 run (pi_words _ _ _ _ _ _ I)) as Hc. unfold zl. rewrite Hp at 1 2. rewrite length_app.
  replace (Z.of_nat (length p0 + length (concat run)) - 8 * Z.of_nat (length run)) with (Z.of_nat (length p0)) by lia.
  replace (8 * Z.of_nat (length run)) with (Z.of_nat (length (concat run))) by lia.
  rewrite <- app_assoc. apply mem_read_ok.
Qed.

Lemma waits_snoc run w : waits (run ++ [w]) = waits run + (if decide (length run = 0%nat) then 10 else 8).
Proof.
  unfold waits, zl. destruct run as [|r run]; [done|]. cbn [app length]. rewrite length_app. cbn [length]. destruct (decide _); lia.
Qed.

Lemma waits_nonneg run : 0 <= waits run.
Proof. unfold waits, zl. destruct run; lia. Qed.

Lemma size_nonneg blen cap pre out run s : pinv blen cap pre out run s -> 0 <= waits run /\ 0 <= zl out <= pk_size s.
Proof. intros [? Hs ? ? ? ? ? ? ?]. pose proof (waits_nonneg run). unfold zl in *. lia. Qed.

Section Word.
Context (blen cap : Z) (pre out : list Z) (run : list (list Z)) (s : packing) (w : list Z).
Context (I : pinv blen cap pre out run s) (Hw : length w = 8%nat).

(** The state after a word, for a buffer, a start of the run and its length. *)
Definition moved (n : Z) (buf : list Z) start des r : packing :=
  {| pk_buf := buf; pk_buffer := pk_buffer s + n; pk_bufsz := pk_bufsz s - n;
     pk_src := match pk_src s with InSrc o => InSrc (o + 8) | InTmp => InTmp end; pk_tmp := pk_tmp s;
     ff_srcstart := start; ff_desstart := des; ff_n := r; pk_size := pk_size s + n |}.

Lemma word_seg : exists buf,
  pack_seg w (pk_buf s) (pk_buffer s) (pk_bufsz s) (ff_n s) = Ok (buf, cost (length run) w) /\
  length buf = length (pk_buf s) /\
  take (Z.to_nat (pk_buffer s)) buf = take (Z.to_nat (pk_buffer s)) (pk_buf s) /\
  (joins (length run) w = false -> pk_size s + cost (length run) w <= cap ->
   take (Z.to_nat (pk_buffer s) + Z.to_nat (cost (length run) w)) buf = take (Z.to_nat (pk_buffer s)) (pk_buf s) ++ tag w :: nonzero w).
Proof.
  destruct I as [Hlen Hsize Hbuffer Hroom Hn _ _ _ _]. rewrite Hn.
  destruct (pack_seg_ok w (pk_buf s) (pk_buffer s) (pk_bufsz s) (length run)) as (buf & E & Hl & Hp & Ht);
    [done|pose proof (waits_nonneg run); unfold zl in *; lia..|].
  exists buf. split_and!; [done..|]. intros Hj Hle. apply Ht; [done|lia].
Qed.

Lemma out_kept buf : take (Z.to_nat (pk_buffer s)) buf = take (Z.to_nat (pk_buffer s)) (pk_buf s) ->
  pk_size s <= cap -> take (length out) buf = out.
Proof.
  intros Hp Hle. pose proof (size_nonneg _ _ _ _ _ _ I). destruct I as [? Hs Hb ? ? ? Hout ? ?]. rewrite <- (Hout Hle) at 2.
  eapply take_weaken; [|exact Hp]. unfold zl in *. lia.
Qed.

(** A word that starts a run or joins one that does not become full. *)
Lemma word_joins srcv : joins (length run) w = true -> length run <> 255%nat ->
  (run = [] -> pk_src s = InSrc (zl pre)) ->
  exists n buf start des, pack_word srcv s w = Ok (moved n buf start des (zl run + 1)) /\
    pinv blen cap (pre ++ w) out (run ++ [w]) (moved n buf start des (zl run + 1)).
Proof.
  intros J H255 Hsrc. destruct word_seg as (buf & E & Hl & Hp & _). unfold pack_word. rewrite E, bind_ret. clear E.
  unfold cost. rewrite J.
  assert (Hk : forall n start des,
    n = (if decide (length run = 0%nat) then 10 else 8) -> des = zl out -> start = Some (InSrc (zl pre - 8 * zl run)) ->
    pinv blen cap (pre ++ w) out (run ++ [w]) (moved n buf start des (zl run + 1))).
  { intros n start des -> -> ->. pose proof (size_nonneg _ _ _ _ _ _ I). pose proof out_kept buf Hp as Hk.
    destruct I as [Hlen Hsize Hbuffer Hroom Hn H256 Hout Hstart HF].
    split; cbn [moved pk_buf pk_size pk_buffer pk_bufsz ff_n ff_desstart ff_srcstart]; unfold zl in *; rewrite ?length_app; cbn [length].
    - lia.
    - rewrite waits_snoc. lia.
    - lia.
    - lia.
    - lia.
    - lia.
    - intros Hle. apply Hk. destruct (decide _); lia.
    - intros _. split_and!; [done|do 2 f_equal; lia|]. rewrite pack_concat_snoc.
      destruct run as [|r0 run0] eqn:Er; [by exists pre|].
      destruct Hstart as (_ & _ & p0 & ->); [done|]. exists p0. by rewrite app_assoc.
    - apply Forall_app. split; [done|]. by constructor. }
  destruct I as [Hlen Hsize Hbuffer Hroom Hn H256 Hout Hstart HF].
  destruct (decide (length run = 0%nat)) as [E0|E0].
  - assert (E1 : run = []) by (by apply nil_length_inv).
    exists 10, buf, (Some (pk_src s)), (pk_buffer s). split; [rewrite E1; done|].
    apply Hk; [done| |rewrite Hsrc by done; rewrite E1; do 2 f_equal; unfold zl; cbn; lia].
    rewrite Hbuffer, Hsize, E1. cbn. lia.
  - destruct Hstart as (Hd & Hs & _); [by intros ->|].
    exists 8, buf, (ff_srcstart s), (ff_desstart s). split; [|by apply Hk].
    rewrite Hn. destruct (Z.eqb_spec 8 10); [lia|]. rewrite Z.eqb_refl. cbn [andb].
    destruct (Z.ltb_spec 0 (zl run)); [|unfold zl in *; lia].
    destruct (Z.eqb_spec (zl run + 1) 256); [unfold zl in *; lia|]. done.
Qed.

(** After a run has been written nothing waits. *)
Lemma moved_clean n buf start des out' :
  zl buf = blen -> zl out' = pk_size s + n -> (pk_size s + n <= cap -> take (length out') buf = out') ->
  pinv blen cap (pre ++ w) out' [] (moved n buf start des 0).
Proof.
  intros Hl Ho Ht. destruct I as [Hlen Hsize Hbuffer Hroom Hn H256 Hout Hstart HF].
  split; cbn [moved pk_buf pk_size pk_buffer pk_bufsz ff_n ff_desstart ff_srcstart waits]; try done; try lia.
  cbn. lia.
Qed.

(** The word that makes a run full: the whole run is read from the input again. *)
Lemma word_fills srcv rest : joins (length run) w = true -> length run = 255%nat -> srcv = pre ++ w ++ rest ->
  exists n buf start des, pack_word srcv s w = Ok (moved n buf start des 0) /\
    pinv blen cap (pre ++ w) (out ++ raw (run ++ [w])) [] (moved n buf start des 0).
Proof.
  intros J H255 Hsrc. destruct word_seg as (buf & E & Hl & Hp & _). unfold pack_word. rewrite E, bind_ret. clear E.
  unfold cost. rewrite J, decide_False by lia. cbv zeta. pose proof moved_clean as Hmc.
  pose proof (size_nonneg _ _ _ _ _ _ I) as Hnn. pose proof out_kept buf Hp as Hk.
  destruct I as [Hlen Hsize Hbuffer Hroom Hn H256 Hout Hstart HF].
  destruct Hstart as (Hd & Hs & p0 & Hpre); [by intros ->|].
  assert (HF' : Forall (fun w => length w = 8%nat) (run ++ [w])) by (apply Forall_app; split; [done|by constructor]).
  assert (Hraw := raw_length _ HF'). rewrite waits_snoc, decide_False in Hraw by lia.
  assert (Hcl := length_chunks 8 _ HF'). assert (Hcr := length_chunks 8 _ HF).
  assert (Hzr : zl run = 255) by (unfold zl; lia).
  rewrite Hn, Hzr. cbn -[flush_ff raw moved Z.sub Z.mul Z.add].
  destruct (flush_ok srcv s buf (pk_bufsz s - 8) (256 * 8) out (run ++ [w]) (zl pre - 8 * zl run) (concat (run ++ [w])))
    as (buf' & -> & Hl' & Hb).
  - by destruct run.
  - rewrite length_app. cbn. lia.
  - done.
  - done.
  - done.
  - rewrite Hsrc, Hpre, pack_concat_snoc. unfold zl. rewrite length_app, Hcr, H255.
    replace (256 * 8) with (Z.of_nat (length (concat run ++ w))) by (rewrite length_app, Hcr; lia).
    replace (Z.of_nat (length p0 + 8 * 255) - 8 * Z.of_nat 255) with (Z.of_nat (length p0)) by lia.
    replace ((p0 ++ concat run) ++ w ++ rest) with (p0 ++ (concat run ++ w) ++ rest) by (by rewrite <- !app_assoc).
    apply mem_read_ok.
  - unfold zl. rewrite length_app, H255. cbn [length]. replace (Z.to_nat _) with 0%nat by lia. cbn. by rewrite app_nil_r.
  - unfold zl. rewrite length_app, H255. cbn [length]. lia.
  - intros H0. rewrite waits_snoc, decide_False by lia. split; [unfold zl in *; lia|]. apply Hk. lia.
  - rewrite bind_ret. exists 8, buf', (ff_srcstart s), (ff_desstart s). split; [done|]. apply Hmc.
    + unfold zl in *. lia.
    + unfold zl in *. rewrite length_app. lia.
    + intros Hle. apply Hb. lia.
Qed.

(** A word behind a tag: the run that waits is written, then nothing waits. *)
Lemma word_tagged srcv rest : joins (length run) w = false -> srcv = pre ++ rest ->
  exists n buf start des, pack_word srcv s w = Ok (moved n buf start des 0) /\
    pinv blen cap (pre ++ w) (out ++ raw run ++ tag w :: nonzero w) [] (moved n buf start des 0).
Proof.
  intros J Hsrc. destruct word_seg as (buf & E & Hl & Hp & Ht). unfold pack_word. rewrite E, bind_ret. clear E.
  specialize (Ht J). unfold cost in *. rewrite J in *. cbv zeta. pose proof moved_clean as Hmc.
  pose proof (size_nonneg _ _ _ _ _ _ I) as Hnn. pose proof out_kept buf Hp as Hk.
  assert (Hrd : run <> [] -> mem_read srcv (zl pre - 8 * zl run) (8 * zl run) = Ok (concat run))
    by (intros Hne; by apply (pi_start _ _ _ _ _ _ _ _ _ I Hne Hsrc)).
  destruct I as [Hlen Hsize Hbuffer Hroom Hn H256 Hout Hstart HF].
  assert (Hraw := raw_length _ HF). set (n := Z.of_nat (length (nonzero w)) + 1) in *.
  assert (J' : ~ (length (nonzero w) = 8%nat \/ (6 <= length (nonzero w))%nat /\ length run <> 0%nat))
    by (rewrite <- joins_spec, J; done).
  assert (H8 := nonzero_le w). rewrite Hw in H8.
  destruct (Z.eqb_spec n 10); [lia|].
  assert (((n =? 8) && (0 <? ff_n s)) = false) as ->
    by (rewrite Hn; unfold zl; destruct (Z.eqb_spec n 8), (Z.ltb_spec 0 (Z.of_nat (length run))); lia || done).
  assert (Hlo : zl (out ++ raw run ++ tag w :: nonzero w) = pk_size s + n)
    by (unfold zl in *; rewrite !length_app; cbn [length]; lia).
  assert (Hoff : Z.to_nat (pk_buffer s) = length (out ++ raw run)) by (unfold zl in *; rewrite length_app; lia).
  assert (Hfin : forall buf', length buf' = length buf ->
    (pk_size s + n <= cap -> take (length (out ++ raw run)) buf' = out ++ raw run /\
       drop (length (out ++ raw run)) buf' = drop (length (out ++ raw run)) buf) ->
    pk_size s + n <= cap -> take (length (out ++ raw run ++ tag w :: nonzero w)) buf' = out ++ raw run ++ tag w :: nonzero w).
  { intros buf' Hl' Hb Hle. destruct (Hb Hle) as [Hb1 Hb2]. specialize (Ht Hle).
    rewrite (app_assoc out), length_app, <- take_take_drop, Hb1, Hb2. f_equal.
    rewrite take_drop_commute, <- Hoff. cbn [length].
    replace (S (length (nonzero w))) with (Z.to_nat n) by lia. rewrite Ht, Hoff.
    assert (Hlt : length (take (length (out ++ raw run)) (pk_buf s)) = length (out ++ raw run))
      by (rewrite length_take; unfold zl in *; lia).
    rewrite <- Hlt at 1. by rewrite drop_app_length. }
  rewrite Hn. destruct (Z.ltb_spec 0 (zl run)) as [Hr0|Hr0].
  - destruct Hstart as (Hd & Hs & _); [by intros ->|].
    destruct (flush_ok srcv s buf (pk_bufsz s - n) (zl run * 8) out run (zl pre - 8 * zl run) (concat run))
      as (buf' & -> & Hl' & Hb); try done.
    + by intros ->.
    + lia.
    + rewrite (Z.mul_comm (zl run) 8). apply Hrd. by intros ->.
    + replace (Z.to_nat _) with 0%nat by lia. cbn. by rewrite app_nil_r.
    + lia.
    + intros H0. split; [unfold zl in *; lia|]. apply Hk. lia.
    + rewrite bind_ret. exists n, buf', (ff_srcstart s), (ff_desstart s). split; [done|].
      apply Hmc; [unfold zl in *; lia|done|]. apply Hfin; [done|]. intros Hle. apply Hb. lia.
  - assert (E1 : run = []) by (destruct run; [done|]; unfold zl in Hr0; cbn in Hr0; lia).
    assert (Hz : zl run = 0) by (rewrite E1; done).
    exists n, buf, (ff_srcstart s), (ff_desstart s). split; [by rewrite Hz|].
    apply Hmc; [unfold zl in *; lia|done|]. apply Hfin; [done|]. intros Hle. split; [|done].
    rewrite E1 at 1 2. cbn [raw]. rewrite !app_nil_r. apply Hk. lia.
Qed.
End Word.

(** What is written after the loop. *)
Lemma finish_ok blen cap pre out run s srcv srcsz :
  pinv blen cap pre out run s ->
  (run <> [] -> exists bytes, let n := srcsz - (zl pre - 8 * zl run) in
     mem_read srcv (zl pre - 8 * zl run) n = Ok bytes /\
     bytes ++ replicate (Z.to_nat (8 * zl run - n)) 0 = concat run /\
     8 * zl run - 8 < n <= 8 * zl run /\ (length run = 1%nat -> n = 8)) ->
  exists buf', pack_finish srcv srcsz s = Ok (buf', zl (out ++ raw run)) /\ length buf' = length (pk_buf s) /\
    (zl (out ++ raw run) <= cap -> take (length (out ++ raw run)) buf' = out ++ raw run).
Proof.
  intros I Hrun. assert (Hnn : 0 <= waits run /\ 0 <= zl out <= pk_size s) by (by eapply size_nonneg).
  destruct I as [Hlen Hsize Hbuffer Hroom Hn H256 Hout Hstart HF]. unfold pack_finish.
  assert (Hraw := raw_length _ HF).
  assert (Hz : zl (out ++ raw run) = pk_size s) by (unfold zl in *; rewrite length_app; lia). rewrite Hz.
  destruct (decide (run = [])) as [->|Hne].
  - rewrite Hn. cbn -[raw]. exists (pk_buf s). split_and!; [done..|]. cbn [raw]. by rewrite app_nil_r.
  - destruct (Hrun Hne) as (bytes & Hr & Hb & Hrange & H1). destruct (Hstart Hne) as (Hd & Hs & _).
    destruct (flush_ok srcv s (pk_buf s) (pk_bufsz s) (srcsz - (zl pre - 8 * zl run)) out run (zl pre - 8 * zl run) bytes)
      as (buf' & E & Hl' & Hb'); try done; [lia|intros; split; [unfold zl in *; lia|apply Hout; lia]|].
    exists buf'. split_and!; [|done|intros; apply Hb'; lia].
    rewrite Hn, Hs. destruct (Z.eqb_spec (zl run) 1) as [H2|H2].
    + rewrite <- H1 at 1 by (unfold zl in *; lia). by rewrite E.
    + destruct (Z.ltb_spec 1 (zl run)); [by rewrite E|]. destruct run; [done|]. unfold zl in *; cbn [length] in *; lia.
Qed.

(** ** The whole input *)

Lemma words8_cases l :
  (l = [] /\ words8 l = []) \/
  (exists w l', l = w ++ l' /\ length w = 8%nat /\ words8 l = w :: words8 l') \/
  ((0 < length l < 8)%nat /\ words8 l = [l ++ replicate (8 - length l) 0]).
Proof.
  do 8 (destruct l as [|? l]; [cbn; auto with lia|]). right. left.
  eexists [_; _; _; _; _; _; _; _], l. by cbn.
Qed.

Lemma words8_count l : Z.of_nat (length (words8 l)) = (zl l + 7) / 8.
Proof.
  induction l as [l IH] using (induction_ltof1 _ (@length Z)). unfold ltof in IH.
  destruct (words8_cases l) as [[-> ->]|[(w & l' & -> & Hw & ->)|[Hl ->]]].
  - done.
  - cbn [length]. rewrite Nat2Z.inj_succ, IH by (rewrite length_app; lia). unfold zl. rewrite length_app, Hw.
    replace (Z.of_nat (8 + length l') + 7) with (Z.of_nat (length l') + 7 + 1 * 8) by lia. rewrite Z.div_add by lia. lia.
  - cbn [length]. unfold zl. apply Z.div_unique with (Z.of_nat (length l) - 1); lia.
Qed.

(** The last word of [ws] makes a run full, after a run of [n]. *)
Fixpoint full_at_end (ws : list (list Z)) (n : nat) : bool :=
  match ws with
  | [] => false
  | [w] => joins n w && bool_decide (n = 255%nat)
  | w :: ws => full_at_end ws (if joins n w then (if decide (n = 255%nat) then 0%nat else S n) else 0%nat)
  end.

(** The run that the padded tail completes is read with the bytes after the input. *)
Definition tail_overruns (l : list Z) (n : nat) : bool :=
  negb (length l mod 8 =? 0)%nat && full_at_end (words8 l) n.

Lemma overruns_next w l n : length w = 8%nat -> tail_overruns (w ++ l) n = false ->
  words8 (w ++ l) = w :: words8 l ->
  tail_overruns l (if joins n w then (if decide (n = 255%nat) then 0%nat else S n) else 0%nat) = false.
Proof.
  intros Hw H E. unfold tail_overruns in *. rewrite E in H.
  assert (length (w ++ l) mod 8 = length l mod 8)%nat as Hm.
  { rewrite length_app, Hw, Nat.add_comm. exact (Nat.Div0.mod_add (length l) 1 8). }
  rewrite Hm in H. destruct (words8 l); [by rewrite andb_false_r|done].
Qed.

(** One word of the loop, with the packed form it leads to. *)
Lemma pack_word_ok blen cap pre out run s srcv w rest ws :
  pinv blen cap pre out run s -> length w = 8%nat -> srcv = pre ++ rest ->
  (joins (length run) w = true -> (length run = 255%nat -> exists rest', rest = w ++ rest') /\ (run = [] -> pk_src s = InSrc (zl pre))) ->
  exists s' out' run', pack_word srcv s w = Ok s' /\ pinv blen cap (pre ++ w) out' run' s' /\
    pk_src s' = match pk_src s with InSrc o => InSrc (o + 8) | InTmp => InTmp end /\
    length run' = (if joins (length run) w then (if decide (length run = 255%nat) then 0%nat else S (length run)) else 0%nat) /\
    (run' = [] \/ run' = run ++ [w] /\ out' = out) /\
    out ++ zpack (w :: ws) run = out' ++ zpack ws run'.
Proof.
  intros I Hw Hsrc Hj. cbn [zpack]. destruct (joins (length run) w) eqn:J.
  - destruct (Hj eq_refl) as [H255 H0]. destruct (decide (length run = 255%nat)) as [E|E].
    + destruct (H255 E) as [rest' ->].
      destruct (word_fills blen cap pre out run s w I Hw srcv rest' J E Hsrc) as (n & buf & st & des & HE & HI).
      do 3 eexists. split_and!; [exact HE|exact HI|done|done|by left|by rewrite app_assoc].
    + destruct (word_joins blen cap pre out run s w I Hw srcv J E H0) as (n & buf & st & des & HE & HI).
      do 3 eexists. split_and!; [exact HE|exact HI|done|rewrite length_app; cbn; lia|by right|done].
  - destruct (word_tagged blen cap pre out run s w I Hw srcv rest J Hsrc) as (n & buf & st & des & HE & HI).
    do 3 eexists. split_and!; [exact HE|exact HI|done|done|by left|by rewrite <- !app_assoc].
Qed.

(** The padded tail: it is copied to [tmp], and the last run is read from the input. *)
Lemma pack_tail blen cap pre out run s rem slack :
  (0 < length rem < 8)%nat -> pinv blen cap pre out run s -> pk_src s = InSrc (zl pre) ->
  (joins (length run) (rem ++ replicate (8 - length rem) 0) && bool_decide (length run = 255%nat)) = false ->
  let srcv := pre ++ rem ++ slack in
  exists buf', (s ← pack_step srcv (zl (pre ++ rem)) (zl pre) s; pack_finish srcv (zl (pre ++ rem)) s)
      = Ok (buf', zl (out ++ zpack [rem ++ replicate (8 - length rem) 0] run)) /\
    length buf' = length (pk_buf s) /\
    (zl (out ++ zpack [rem ++ replicate (8 - length rem) 0] run) <= cap ->
     take (length (out ++ zpack [rem ++ replicate (8 - length rem) 0] run)) buf' = out ++ zpack [rem ++ replicate (8 - length rem) 0] run).
Proof.
  intros Hrem I Hsrc Hover srcv. set (w := rem ++ replicate (8 - length rem) 0) in *.
  assert (Hw : length w = 8%nat) by (unfold w; rewrite length_app, length_replicate; lia).
  assert (Hnf : length (nonzero w) <> 8%nat).
  { unfold w, nonzero. rewrite filter_app, length_app. replace (8 - length rem)%nat with (S (7 - length rem)) by lia.
    pose proof (nonzero_le rem). unfold nonzero in *. cbn [replicate].
    rewrite filter_cons_False by lia. pose proof (nonzero_le (replicate (7 - length rem) 0)) as H7.
    rewrite length_replicate in H7. unfold nonzero in H7. lia. }
  unfold pack_step. set (i := zl pre). cbv zeta.
  replace (i + 8 - zl (pre ++ rem)) with (8 - zl rem) by (unfold zl, i; rewrite length_app; unfold zl; lia).
  destruct (Z.ltb_spec 0 (8 - zl rem)); [|unfold zl in *; lia]. rewrite Hsrc.
  replace (8 - (8 - zl rem)) with (zl rem) by lia.
  assert (mem_read srcv (zl pre) (zl rem) = Ok rem) as -> by apply mem_read_ok. rewrite !bind_ret. cbn [pk_src src_mem pk_tmp].
  replace (Z.to_nat (8 - zl rem)) with (8 - length rem)%nat by (unfold zl; lia). fold w. rewrite bind_ret.
  assert (mem_read w 0 8 = Ok w) as ->.
  { pose proof (mem_read_ok [] w []) as Hm. rewrite app_nil_r, Hw in Hm. exact Hm. }
  rewrite bind_ret. fold i. fold srcv.
  set (s1 := {| pk_buf := pk_buf s |}).
  assert (I1 : pinv blen cap pre out run s1) by (destruct I; by split).
  destruct (pack_word_ok blen cap pre out run s1 srcv w (rem ++ slack) [] I1 Hw eq_refl) as (s' & out' & run' & -> & I' & _ & Hlr & Hr & Hz).
  { intros J. rewrite J in Hover. apply bool_decide_eq_false in Hover. split; [done|]. intros ->.
    apply joins_spec in J. cbn in J. lia. }
  rewrite bind_ret, Hz. cbn [zpack].
  destruct (finish_ok blen cap (pre ++ w) out' run' s' srcv (zl (pre ++ rem)) I') as (buf' & -> & Hl & Ht).
  { intros Hne. destruct Hr as [|[-> ->]]; [done|].
    assert (run <> []) as Hrun.
    { intros ->. cbn [length app] in Hlr. destruct (joins 0 w) eqn:J; [|done]. apply joins_spec in J. lia. }
    destruct (pi_src _ _ _ _ _ _ I Hrun) as (_ & _ & p0 & Hp).
    pose proof (length_chunks 8 run (pi_words _ _ _ _ _ _ I)) as Hc.
    exists (concat run ++ rem). cbv zeta. unfold srcv. rewrite Hp. unfold zl. rewrite !length_app, Hw, Hc. cbn [length].
    replace (Z.of_nat (length p0 + 8 * length run + 8) - 8 * Z.of_nat (length run + 1)) with (Z.of_nat (length p0)) by lia.
    replace (Z.of_nat (length p0 + 8 * length run + length rem) - Z.of_nat (length p0))
      with (Z.of_nat (length (concat run ++ rem))) by (rewrite length_app, Hc; lia).
    split_and!.
    - replace ((p0 ++ concat run) ++ rem ++ slack) with (p0 ++ (concat run ++ rem) ++ slack) by (by rewrite <- !app_assoc).
      apply mem_read_ok.
    - rewrite pack_concat_snoc, <- app_assoc. unfold w. do 2 f_equal. rewrite length_app, Hc. f_equal. lia.
    - rewrite length_app, Hc. lia.
    - rewrite length_app, Hc. lia.
    - destruct run; [done|]. cbn. lia. }
  exists buf'. split_and!; [done| |done].
  pose proof (pi_len _ _ _ _ _ _ I) as L. pose proof (pi_len _ _ _ _ _ _ I') as L'. unfold zl in *. lia.
Qed.

(** The loop from any point of the input to the end, with what follows it. *)
Lemma pack_rest rem : forall blen cap pre out run s slack,
  pinv blen cap pre out run s -> pk_src s = InSrc (zl pre) -> tail_overruns rem (length run) = false ->
  let srcv := pre ++ rem ++ slack in
  exists buf', (s ← pack_loop (length (words8 rem)) srcv (zl (pre ++ rem)) (zl pre) s; pack_finish srcv (zl (pre ++ rem)) s)
      = Ok (buf', zl (out ++ zpack (words8 rem) run)) /\ zl buf' = blen /\
    (zl (out ++ zpack (words8 rem) run) <= cap ->
     take (length (out ++ zpack (words8 rem) run)) buf' = out ++ zpack (words8 rem) run).
Proof.
  induction rem as [rem IH] using (induction_ltof1 _ (@length Z)). unfold ltof in IH.
  intros blen cap pre out run s slack I Hsrc Hover srcv.
  pose proof (pi_len _ _ _ _ _ _ I) as [Hbl _].
  destruct (words8_cases rem) as [[-> E]|[(w & rem' & -> & Hw & E)|[Hl E]]]; rewrite E.
  - cbn [length pack_loop zpack]. rewrite bind_ret, app_nil_r.
    destruct (finish_ok blen cap pre out run s srcv (zl pre) I) as (buf' & -> & Hl & Ht).
    { intros Hne. exists (concat run). cbv zeta.
      replace (zl pre - (zl pre - 8 * zl run)) with (8 * zl run) by lia. split_and!.
      - eapply pi_start; [exact I|done|done|done].
      - rewrite Z.sub_diag. cbn. by rewrite app_nil_r.
      - lia.
      - lia.
      - unfold zl. lia. }
    exists buf'. split_and!; [done|unfold zl in *; lia|done].
  - cbn [length pack_loop].
    assert (Hst : pack_step srcv (zl (pre ++ w ++ rem')) (zl pre) s = pack_word srcv s w).
    { unfold pack_step. cbv zeta.
      destruct (Z.ltb_spec 0 (zl pre + 8 - zl (pre ++ w ++ rem'))); [unfold zl in *; rewrite !length_app in *; lia|].
      rewrite bind_ret, Hsrc. cbn [src_mem]. rewrite bind_ret. unfold srcv.
      replace 8 with (Z.of_nat (length w)) by lia. rewrite <- app_assoc. unfold zl. by rewrite mem_read_ok, bind_ret. }
    rewrite Hst.
    destruct (pack_word_ok blen cap pre out run s srcv w ((w ++ rem') ++ slack) (words8 rem') I Hw eq_refl)
      as (s' & out' & run' & -> & I' & Hs' & Hlr & _ & ->).
    { intros _. split; [|done]. intros _. exists (rem' ++ slack). by rewrite app_assoc. }
    rewrite bind_ret.
    assert (Hz : zl pre + 8 = zl (pre ++ w)) by (unfold zl; rewrite length_app; lia).
    replace srcv with ((pre ++ w) ++ rem' ++ slack) by (unfold srcv; by rewrite <- !app_assoc).
    rewrite Hz, (app_assoc pre w rem'). apply IH; [rewrite length_app; lia|done|by rewrite Hs', Hsrc, Hz|].
    rewrite Hlr. by apply overruns_next.
  - cbn [length pack_loop]. rewrite bind_assoc. cbn. unfold tail_overruns in Hover. rewrite E in Hover. cbn [full_at_end] in Hover.
    rewrite Nat.mod_small in Hover by lia. destruct (length rem) eqn:El; [lia|]. rewrite <- El in *. cbn [Nat.eqb negb andb] in Hover.
    destruct (pack_tail blen cap pre out run s rem slack Hl I Hsrc) as (buf' & Hb & Hlb & Ht); [by rewrite El in *|].
    exists buf'. split_and!; [|unfold zl in *; lia|done]. exact Hb.
Qed.

(** The packed form of an input, and the input as the receiver gets it. *)
Definition packed (src : list Z) : list Z := zpack (words8 src) [].
Definition padded (src : list Z) : list Z := concat (words8 src).

Lemma padded_eq src : exists k, (k < 8)%nat /\ padded src = src ++ replicate k 0.
Proof.
  unfold padded. induction src as [l IH] using (induction_ltof1 _ (@length Z)). unfold ltof in IH.
  destruct (words8_cases l) as [[-> ->]|[(w & l' & -> & Hw & ->)|[Hl ->]]].
  - exists 0%nat. by split; [lia|].
  - destruct (IH l') as (k & Hk & E); [rewrite length_app; lia|]. exists k. split; [done|]. cbn [concat]. by rewrite E, app_assoc.
  - exists (8 - length l)%nat. split; [lia|]. cbn. by rewrite app_nil_r.
Qed.

Lemma sproto_pack_ok src slack buf bufsz :
  bufsz <= zl buf -> tail_overruns src 0 = false ->
  exists buf', sproto_pack (src ++ slack) (zl src) buf bufsz = Ok (buf', zl (packed src)) /\ zl buf' = zl buf /\
    (zl (packed src) <= bufsz -> take (length (packed src)) buf' = packed src).
Proof.
  intros Hcap Hover. unfold sproto_pack. rewrite <- words8_count, Nat2Z.id.
  match goal with |- context [pack_loop _ _ _ _ ?s0] => set (s := s0) end.
  assert (I : pinv (zl buf) bufsz [] [] [] s) by (split; cbn; try done; unfold zl; cbn; lia).
  apply (pack_rest src _ _ _ _ _ _ slack I eq_refl Hover).
Qed.

(** ** The size of the packed form *)

Lemma ceil_step a b : a <= b -> (a + 255) / 256 <= (b + 255) / 256.
Proof. intros. apply Z.div_le_mono; lia. Qed.

Lemma zpack_bound rem : forall run,
  (length run < 256)%nat -> Forall (fun w => length w = 8%nat) run ->
  zl (zpack (words8 rem) run) <= 8 * zl run + zl rem + 2 * ((zl run + zl (words8 rem) + 255) / 256)
    + (if (length rem mod 8 =? 0)%nat then 0 else 2).
Proof.
  induction rem as [rem IH] using (induction_ltof1 _ (@length Z)). unfold ltof in IH. intros run H256 HF.
  assert (Hraw := raw_length run HF).
  assert (Hpos : run <> [] -> 1 <= (zl run + zl (words8 rem) + 255) / 256).
  { intros Hne. apply Z.div_le_lower_bound; [lia|]. destruct run; [done|]. unfold zl; cbn [length]; lia. }
  assert (Hwaits : waits run = if decide (run = []) then 0 else 2 + 8 * zl run) by (destruct run; done).
  destruct (words8_cases rem) as [[-> E]|[(w & rem' & -> & Hw & E)|[Hl E]]]; rewrite E in *; cbn [zpack].
  - rewrite Hraw, Hwaits. cbn [length]. change (zl []) with 0 in *. cbn [Nat.modulo Nat.divmod fst snd Nat.sub Nat.eqb].
    destruct (decide (run = [])) as [->|Hne]; [done|]. specialize (Hpos Hne). lia.
  - assert (Hmod : (length (w ++ rem') mod 8 = length rem' mod 8)%nat)
      by (rewrite length_app, Hw, Nat.add_comm; exact (Nat.Div0.mod_add (length rem') 1 8)).
    rewrite Hmod. assert (HF' : Forall (fun w => length w = 8%nat) (run ++ [w])) by (apply Forall_app; split; [done|by constructor]).
    assert (Hlw : zl (w ++ rem') = 8 + zl rem') by (unfold zl; rewrite length_app; lia).
    assert (Hls : zl (w :: words8 rem') = 1 + zl (words8 rem')) by (unfold zl; cbn [length]; lia).
    assert (Hlt : (length rem' < length (w ++ rem'))%nat) by (rewrite length_app; lia).
    rewrite Hlw, Hls in *. destruct (joins (length run) w) eqn:J.
    + assert (Hrs : zl (run ++ [w]) = zl run + 1) by (unfold zl; rewrite length_app; cbn; lia).
      destruct (decide (length run = 255%nat)) as [E5|E5].
      * specialize (IH rem' Hlt [] ltac:(cbn; lia) ltac:(constructor)). unfold zl in *. rewrite length_app, Nat2Z.inj_add.
        pose proof (raw_length _ HF') as Hr'. rewrite waits_snoc, decide_False in Hr' by lia. unfold zl in Hr'. rewrite Hr', Hwaits.
        rewrite decide_False by (intros ->; done). rewrite E5.
        replace (Z.of_nat 255 + (1 + Z.of_nat (length (words8 rem'))) + 255) with (Z.of_nat (length (words8 rem')) + 255 + 1 * 256) by lia.
        rewrite Z.div_add by lia. cbn [length] in IH. change (Z.of_nat 0) with 0 in IH. rewrite !Z.add_0_l in IH. lia.
      * specialize (IH rem' Hlt (run ++ [w])). rewrite Hrs in IH.
        replace (zl run + (1 + zl (words8 rem'))) with (zl run + 1 + zl (words8 rem')) by lia.
        etransitivity; [apply IH; [rewrite length_app; cbn; lia|done]|]. lia.
    + specialize (IH rem' Hlt [] ltac:(cbn; lia) ltac:(constructor)).
      assert (J' : ~ (length (nonzero w) = 8%nat \/ (6 <= length (nonzero w))%nat /\ length run <> 0%nat))
        by (rewrite <- joins_spec, J; done).
      pose proof (nonzero_le w). change (zl []) with 0 in IH.
      pose proof (ceil_step (0 + zl (words8 rem')) (zl run + (1 + zl (words8 rem'))) ltac:(unfold zl; lia)).
      unfold zl in *. rewrite !length_app, !Nat2Z.inj_add. cbn [length]. rewrite Hraw, Hwaits.
      destruct (decide (run = [])) as [->|Hne]; [cbn [length] in *; lia|]. destruct run; [done|]. cbn [length] in *. lia.
  - rewrite Nat.mod_small by lia. destruct (length rem) as [|m] eqn:El; [lia|]. rewrite <- El in *.
    rewrite (proj2 (Nat.eqb_neq (length rem) 0)) by lia.
    set (w := rem ++ replicate (8 - length rem) 0) in *.
    assert (Hn : (length (nonzero w) <= length rem)%nat).
    { unfold w, nonzero. rewrite filter_app, length_app. pose proof (nonzero_le rem).
      pose proof (nonzero_zeros (8 - length rem)) as Hz. unfold nonzero in *. rewrite Hz. cbn; lia. }
    assert (Hw : length w = 8%nat) by (unfold w; rewrite length_app, length_replicate; lia).
    destruct (joins (length run) w) eqn:J.
    + apply joins_spec in J. assert (Hne : run <> []) by (intros ->; cbn in J; lia). specialize (Hpos Hne).
      assert (HF' : Forall (fun w => length w = 8%nat) (run ++ [w])) by (apply Forall_app; split; [done|by constructor]).
      pose proof (raw_length _ HF') as Hr'. rewrite waits_snoc, Hwaits in Hr'.
      destruct (decide (run = [])) as [|_]; [done|]. rewrite decide_False in Hr' by (intros ?%nil_length_inv; done).
      cbn [zpack]. unfold zl in *. destruct (decide _); rewrite ?app_nil_r; cbn [raw length] in *; rewrite ?Hr'; lia.
    + cbn [zpack raw app]. rewrite app_nil_r. unfold zl in *. rewrite length_app, Nat2Z.inj_add. cbn [length]. rewrite Hraw, Hwaits.
      destruct (decide (run = [])) as [->|Hne]; [|specialize (Hpos Hne)]; [|cbn [length] in *; lia].
      cbn [length]. pose proof (Z.div_pos (Z.of_nat 0 + Z.of_nat (length [w]) + 255) 256 ltac:(lia) ltac:(lia)). cbn [length] in *. lia.
Qed.

Lemma packed_bound src : zl (packed src) <= (zl src + 2047) / 2048 * 2 + zl src + 2.
Proof.
  pose proof (zpack_bound src [] ltac:(cbn; lia) ltac:(constructor)) as H. fold (packed src) in H.
  change (zl []) with 0 in H. rewrite !Z.add_0_l in H. unfold zl at 3 in H. rewrite words8_count in H.
  assert (Hd : ((zl src + 7) / 8 + 255) / 256 = (zl src + 2047) / 2048).
  { replace (zl src + 2047) with (zl src + 7 + 255 * 8) by lia. change 2048 with (8 * 256).
    rewrite <- Z.div_div, Z.div_add by lia. done. }
  rewrite Hd in H. destruct (_ =? 0)%nat; lia.
Qed.

(** ** Unpacking *)

(** [out] has been unpacked: it is in the buffer, or there was no room for it. *)
Definition uinv (blen cap : Z) (out : list Z) (s : unpacking) : Prop :=
  zl (up_buf s) = blen /\ cap <= blen /\ up_size s = zl out /\
  (zl out <= cap /\ up_buffer s = zl out /\ up_bufsz s = cap - zl out /\ take (length out) (up_buf s) = out \/
   cap < zl out /\ up_bufsz s <= 0).

Lemma take_lt {A} (buf out : list A) : take (length out) buf = out -> (length out <= length buf)%nat.
Proof. intros E. apply (f_equal length) in E. rewrite length_take in E. lia. Qed.

Lemma put_ok blen cap out s b : uinv blen cap out s ->
  exists s', put_byte b s = Ok s' /\ up_pos s' = up_pos s /\ up_srcsz s' = up_srcsz s /\
    forall p z, uinv blen cap (out ++ [b])
      {| up_pos := p; up_srcsz := z; up_buf := up_buf s'; up_buffer := up_buffer s'; up_bufsz := up_bufsz s'; up_size := up_size s' + 1 |}.
Proof.
  intros (Hl & Hc & Hs & H). unfold put_byte.
  assert (Ho : zl (out ++ [b]) = zl out + 1) by (unfold zl; rewrite length_app; cbn; lia).
  destruct (Z.ltb_spec 0 (up_bufsz s)).
  - destruct H as [(H1 & H2 & H3 & H4)|]; [|lia].
    destruct (write_prefix (up_buf s) [b] (up_buffer s)) as (buf' & -> & Hl' & _ & Hw & _); [unfold zl in *; cbn; lia..|].
    rewrite bind_ret. eexists. split_and!; [done..|]. intros p z. unfold uinv. cbn [up_buf up_size up_buffer up_bufsz].
    rewrite Ho. split_and!; [unfold zl in *; lia|lia..|]. left. split_and!; [lia..|].
    rewrite H2 in Hw. unfold zl in Hw. rewrite Nat2Z.id, H4 in Hw. rewrite length_app. exact Hw.
  - exists s. split_and!; [done..|]. intros p z. unfold uinv. cbn [up_buf up_size up_buffer up_bufsz]. rewrite Ho.
    split_and!; [done|done|lia|]. right. unfold zl in *. destruct H; lia.
Qed.

Lemma bits_run suf : forall p rest h blen cap out s i,
  0 <= i -> h = tag suf * 2 ^ i + h mod 2 ^ i ->
  uinv blen cap out s -> up_pos s = zl p -> Z.of_nat (length (nonzero suf)) <= up_srcsz s ->
  exists s', for_loop (length suf) i (bit_step (p ++ nonzero suf ++ rest) h) (More s) = Ok (More s') /\
    uinv blen cap (out ++ suf) s' /\ up_pos s' = zl (p ++ nonzero suf) /\
    up_srcsz s' = up_srcsz s - Z.of_nat (length (nonzero suf)).
Proof.
  induction suf as [|c suf IH]; intros p rest h blen cap out s i Hi Hh HI Hp Hsz; cbn [for_loop length].
  - exists s. cbn [nonzero filter list_filter app length]. rewrite !app_nil_r. split_and!; [done..|lia].
  - assert (Hbit : (Z.land (Z.shiftr h i) 1 =? 0) = (c =? 0)).
    { rewrite Z.shiftr_div_pow2 by done. change 1 with (Z.ones 1). rewrite Z.land_ones by lia.
      replace (h / 2 ^ i) with (tag (c :: suf)).
      - cbn [tag]. change (2 ^ 1) with 2. rewrite (Z.mul_comm 2), Z.mod_add by lia. by destruct (c =? 0).
      - apply (Z.div_unique_pos h (2 ^ i) _ (h mod 2 ^ i)); [apply Z.mod_pos_bound; lia|lia]. }
    assert (Hnext : h = tag suf * 2 ^ (i + 1) + h mod 2 ^ (i + 1)).
    { assert (Hq : h / 2 ^ (i + 1) = tag suf); [|pose proof (Z.div_mod h (2 ^ (i + 1)) ltac:(lia)); lia].
      rewrite Z.pow_add_r by lia. change (2 ^ 1) with 2. rewrite <- Z.div_div by lia.
      assert (h / 2 ^ i = tag (c :: suf)) as ->
        by (symmetry; apply (Z.div_unique_pos h (2 ^ i) _ (h mod 2 ^ i)); [apply Z.mod_pos_bound; lia|lia]).
      cbn [tag]. rewrite (Z.mul_comm 2), Z.div_add by lia. by destruct (c =? 0). }
    rewrite nonzero_cons in *. unfold bit_step at 2. rewrite Hbit. rewrite length_app in Hsz.
    destruct (Z.eqb_spec c 0) as [->|Hc].
    + cbn [app length] in *. destruct (put_ok blen cap out s 0 HI) as (s1 & -> & Hp1 & Hz1 & HI1). rewrite !bind_ret.
      destruct (IH p rest h blen cap (out ++ [0]) {| up_pos := up_pos s1; up_srcsz := up_srcsz s1; up_buf := up_buf s1;
        up_buffer := up_buffer s1; up_bufsz := up_bufsz s1; up_size := up_size s1 + 1 |} (i + 1))
        as (s' & E & HI' & Hp' & Hz'); [lia|done|done|cbn; lia|cbn; lia|].
      exists s'. cbn [up_srcsz] in Hz'. rewrite <- app_assoc in HI'. split_and!; [exact E|done|done|lia].
    + cbn [app length] in *. destruct (Z.ltb_spec (up_srcsz s) 0); [lia|].
      assert (Hget : arr_get (p ++ c :: nonzero suf ++ rest) (up_pos s) = Ok c)
        by (apply arr_get_ok; [unfold zl in *; lia|rewrite Hp; unfold zl; rewrite Nat2Z.id; by apply list_lookup_middle]).
      assert (Hput : exists s1, (if 0 <? up_bufsz s then c ← arr_get (p ++ c :: nonzero suf ++ rest) (up_pos s); put_byte c s else Ok s) = Ok s1 /\
        up_pos s1 = up_pos s /\ up_srcsz s1 = up_srcsz s /\ forall p' z, uinv blen cap (out ++ [c])
          {| up_pos := p'; up_srcsz := z; up_buf := up_buf s1; up_buffer := up_buffer s1; up_bufsz := up_bufsz s1; up_size := up_size s1 + 1 |}).
      { destruct (put_ok blen cap out s c HI) as (s1 & E1 & ?). exists s1. split; [|done]. rewrite Hget, bind_ret, <- E1.
        unfold put_byte. by destruct (0 <? up_bufsz s). }
      destruct Hput as (s1 & -> & Hp1 & Hz1 & HI1). rewrite !bind_ret.
      replace (p ++ c :: nonzero suf ++ rest) with ((p ++ [c]) ++ nonzero suf ++ rest) by (by rewrite <- app_assoc).
      destruct (IH (p ++ [c]) rest h blen cap (out ++ [c]) {| up_pos := up_pos s1 + 1; up_srcsz := up_srcsz s1 - 1; up_buf := up_buf s1;
        up_buffer := up_buffer s1; up_bufsz := up_bufsz s1; up_size := up_size s1 + 1 |} (i + 1))
        as (s' & E & HI' & Hp' & Hz'); [lia|done|done|cbn; unfold zl in *; rewrite length_app; cbn; lia|cbn; lia|].
      exists s'. cbn [up_srcsz] in Hz'. rewrite <- app_assoc in HI', Hp'. split_and!; [exact E|done|done|lia].
Qed.

(** A tagged word. *)
Lemma unpack_tagged p w rest blen cap out s :
  length w = 8%nat -> length (nonzero w) <> 8%nat ->
  uinv blen cap out s -> up_pos s = zl p -> zl (tag w :: nonzero w) <= up_srcsz s ->
  exists s', unpack_step (p ++ (tag w :: nonzero w) ++ rest) s = Ok (More s') /\ uinv blen cap (out ++ w) s' /\
    up_pos s' = zl (p ++ tag w :: nonzero w) /\ up_srcsz s' = up_srcsz s - zl (tag w :: nonzero w).
Proof.
  intros Hw Hn HI Hp Hsz. unfold unpack_step. pose proof (tag_small w Hw Hn).
  rewrite (arr_get_ok _ (up_pos s) (tag w)); [|unfold zl in *; lia|rewrite Hp; unfold zl; rewrite Nat2Z.id; by apply list_lookup_middle].
  rewrite bind_ret. cbv zeta. destruct (Z.eqb_spec (tag w) 255); [lia|].
  replace (p ++ (tag w :: nonzero w) ++ rest) with ((p ++ [tag w]) ++ nonzero w ++ rest) by (by rewrite <- app_assoc).
  destruct (bits_run w (p ++ [tag w]) rest (tag w) blen cap out
    {| up_pos := up_pos s + 1; up_srcsz := up_srcsz s - 1; up_buf := up_buf s; up_buffer := up_buffer s;
       up_bufsz := up_bufsz s; up_size := up_size s |} 0) as (s' & E & HI' & Hp' & Hz');
    [lia|rewrite Z.mod_1_r; lia|done|cbn; unfold zl in *; rewrite length_app; cbn; lia|unfold zl in *; cbn in *; lia|].
  rewrite Hw in E. exists s'. rewrite <- app_assoc in Hp'. cbn [up_srcsz app] in *. split_and!; [done..|].
  unfold zl in *. cbn [length]. lia.
Qed.

(** A run of raw words. *)
Lemma unpack_raw p run rest blen cap out s :
  run <> [] -> Forall (fun w => length w = 8%nat) run ->
  uinv blen cap out s -> up_pos s = zl p -> zl (raw run) <= up_srcsz s ->
  exists s', unpack_step (p ++ raw run ++ rest) s = Ok (More s') /\ uinv blen cap (out ++ concat run) s' /\
    up_pos s' = zl (p ++ raw run) /\ up_srcsz s' = up_srcsz s - zl (raw run).
Proof.
  intros Hne HF HI Hp Hsz. pose proof (raw_length _ HF) as Hraw. pose proof (length_chunks 8 _ HF) as Hcl.
  assert (Er : raw run = [0xff; Z.of_nat (length run) - 1] ++ concat run) by (by destruct run).
  assert (Hwt : waits run = 2 + 8 * zl run) by (by destruct run). rewrite Hwt in Hraw. rewrite Er in *. clear Er Hwt.
  unfold unpack_step. rewrite <- app_assoc.
  rewrite (arr_get_ok _ (up_pos s) 0xff); [|unfold zl in *; lia|rewrite Hp; unfold zl; rewrite Nat2Z.id; by apply list_lookup_middle].
  rewrite bind_ret. cbv zeta. rewrite Z.eqb_refl.
  destruct (Z.ltb_spec (up_srcsz s - 1) 0); [unfold zl in *; lia|].
  set (n1 := Z.of_nat (length run) - 1) in *.
  replace (p ++ [255; n1] ++ concat run ++ rest) with ((p ++ [255]) ++ n1 :: concat run ++ rest) by (by rewrite <- app_assoc).
  rewrite (arr_get_ok _ _ n1); [|unfold zl in *; lia|].
  2:{ rewrite Hp. unfold zl. replace (Z.to_nat (Z.of_nat (length p) + 1)) with (length (p ++ [255])) by (rewrite length_app; cbn; lia).
      by apply list_lookup_middle. }
  rewrite bind_ret. replace ((n1 + 1) * 8) with (zl (concat run)) by (unfold zl, n1 in *; lia).
  assert (Hz1 : zl ([255; n1] ++ concat run) = zl (concat run) + 2) by (unfold zl; rewrite length_app; cbn; lia).
  destruct (Z.ltb_spec (up_srcsz s - 1) (zl (concat run) + 1)); [lia|].
  replace ((p ++ [255]) ++ n1 :: concat run ++ rest) with ((p ++ [255; n1]) ++ concat run ++ rest) by (by rewrite <- !app_assoc).
  replace (up_pos s + 1 + 1) with (zl (p ++ [255; n1])) by (unfold zl in *; rewrite length_app; cbn; lia).
  assert (Hrd : mem_read ((p ++ [255; n1]) ++ concat run ++ rest) (zl (p ++ [255; n1])) (zl (concat run)) = Ok (concat run)) by apply mem_read_ok.
  rewrite Hrd, bind_ret.
  assert (Ho : zl (out ++ concat run) = zl out + zl (concat run)) by (unfold zl; rewrite length_app; lia).
  assert (Hpp : zl (p ++ [255; n1]) + zl (concat run) = zl (p ++ [255; n1] ++ concat run)) by (unfold zl; rewrite !length_app; lia).
  destruct HI as (Hl & Hc & Hs & H3). destruct (Z.leb_spec (zl (concat run)) (up_bufsz s)).
  - destruct H3 as [(H4 & H5 & H6 & H7)|[? ?]].
    + destruct (write_prefix (up_buf s) (concat run) (up_buffer s)) as (buf' & -> & Hl' & _ & Hw & _); [unfold zl in *; lia..|].
      rewrite bind_ret. eexists. split_and!; [done| |cbn [up_pos up_srcsz]; lia|cbn [up_pos up_srcsz]; lia].
      unfold uinv. cbn [up_buf up_size up_buffer up_bufsz]. rewrite Ho.
      split_and!; [unfold zl in *; lia|done|lia|]. left. split_and!; [lia..|].
      rewrite H5 in Hw. unfold zl in Hw. rewrite Nat2Z.id, H7 in Hw. by rewrite length_app.
    + exfalso. destruct run; [done|]. unfold zl in *. cbn [length] in *. lia.
  - rewrite bind_ret. eexists. split_and!; [done| |cbn [up_pos up_srcsz]; lia|cbn [up_pos up_srcsz]; lia].
    unfold uinv. cbn [up_buf up_size up_buffer up_bufsz]. rewrite Ho. split_and!; [done|done|lia|]. right. unfold zl in *. lia.
Qed.

(** The packed form of words unpacks to the words. *)
Lemma unpack_zpack ws : forall run p slack blen cap out s fuel,
  Forall (fun w => length w = 8%nat) (run ++ ws) ->
  uinv blen cap out s -> up_pos s = zl p -> up_srcsz s = zl (zpack ws run) -> (length (zpack ws run) < fuel)%nat ->
  exists buf', unpack_loop fuel (p ++ zpack ws run ++ slack) s = Ok (buf', zl (out ++ concat (run ++ ws))) /\
    zl buf' = blen /\ (zl (out ++ concat (run ++ ws)) <= cap ->
      take (length (out ++ concat (run ++ ws))) buf' = out ++ concat (run ++ ws)).
Proof.
  assert (Hend : forall fuel src blen cap out s, uinv blen cap out s -> up_srcsz s = 0 -> (0 < fuel)%nat ->
    exists buf', unpack_loop fuel src s = Ok (buf', zl out) /\ zl buf' = blen /\ (zl out <= cap -> take (length out) buf' = out)).
  { intros [|fuel] src blen cap out s (Hl & Hc & Hs & H) Hz Hf; [lia|]. cbn [unpack_loop]. rewrite Hz. cbn.
    exists (up_buf s). rewrite Hs. split_and!; [done..|]. intros. destruct H as [(? & ? & ? & ?)|]; [done|lia]. }
  assert (Hraw : forall run p tail blen cap out s fuel, Forall (fun w => length w = 8%nat) run ->
    uinv blen cap out s -> up_pos s = zl p -> zl (raw run) <= up_srcsz s -> (length (raw run) < fuel)%nat ->
    exists s' fuel', unpack_loop fuel (p ++ raw run ++ tail) s = unpack_loop fuel' (p ++ raw run ++ tail) s' /\
      uinv blen cap (out ++ concat run) s' /\ up_pos s' = zl (p ++ raw run) /\ up_srcsz s' = up_srcsz s - zl (raw run) /\
      (fuel <= fuel' + length (raw run))%nat).
  { intros run p tail blen cap out s fuel HF HI Hp Hz Hf. destruct (decide (run = [])) as [->|Hne].
    - exists s, fuel. cbn [raw concat app length]. rewrite !app_nil_r. change (zl []) with 0. split_and!; [done..|lia|lia].
    - destruct (unpack_raw p run tail blen cap out s Hne HF HI Hp Hz) as (s' & E & HI' & Hp' & Hz').
      destruct fuel as [|fuel]; [lia|]. exists s', fuel.
      assert (2 <= length (raw run))%nat by (destruct run; [done|]; cbn; lia).
      split_and!; [|done..|lia]. cbn [unpack_loop].
      destruct (Z.ltb_spec 0 (up_srcsz s)); [|unfold zl in *; lia]. by rewrite E. }
  induction ws as [|w ws IH]; intros run p slack blen cap out s fuel HF HI Hp Hz Hf; cbn [zpack] in *.
  - rewrite app_nil_r in *. destruct (Hraw run p slack blen cap out s fuel HF HI Hp) as (s' & fuel' & -> & HI' & Hp' & Hz' & Hf'); [lia..|].
    apply Hend; [done|lia|lia].
  - assert (HF2 := HF). apply Forall_app in HF2 as [HFr HFw]. apply Forall_cons in HFw as [Hw HFw].
    destruct (joins (length run) w) eqn:J.
    + assert (HFj : Forall (fun w => length w = 8%nat) (run ++ [w])) by (apply Forall_app; split; [done|by constructor]).
      destruct (decide (length run = 255%nat)) as [E|E].
      * rewrite <- app_assoc. assert (Hzz : zl (raw (run ++ [w]) ++ zpack ws []) = zl (raw (run ++ [w])) + zl (zpack ws [])) by (unfold zl; rewrite length_app; lia).
        rewrite length_app in Hf.
        destruct (Hraw (run ++ [w]) p (zpack ws [] ++ slack) blen cap out s fuel HFj HI Hp) as (s' & fuel' & -> & HI' & Hp' & Hz' & Hf');
          [unfold zl in *; lia|lia|].
        rewrite (app_assoc p (raw _)). replace (run ++ w :: ws) with ((run ++ [w]) ++ ws) by (by rewrite <- app_assoc).
        rewrite concat_app, (app_assoc out). apply (IH [] _ _ _ _ _ _ _ HFw HI' Hp'); [lia|lia].
      * replace (run ++ w :: ws) with ((run ++ [w]) ++ ws) in * by (by rewrite <- app_assoc). by apply IH.
    + assert (J' : ~ (length (nonzero w) = 8%nat \/ (6 <= length (nonzero w))%nat /\ length run <> 0%nat))
        by (rewrite <- joins_spec, J; done).
      rewrite !length_app in Hf. cbn [length] in Hf.
      assert (Hzz : zl (raw run ++ (tag w :: nonzero w) ++ zpack ws []) = zl (raw run) + zl (tag w :: nonzero w) + zl (zpack ws []))
        by (unfold zl; rewrite !length_app; lia).
      rewrite <- !app_assoc.
      destruct (Hraw run p ((tag w :: nonzero w) ++ zpack ws [] ++ slack) blen cap out s fuel HFr HI Hp) as (s' & fuel' & -> & HI' & Hp' & Hz' & Hf');
        [unfold zl in *; lia|lia|].
      destruct fuel' as [|fuel']; [lia|]. cbn [unpack_loop].
      destruct (Z.ltb_spec 0 (up_srcsz s')); [|unfold zl in *; cbn [length] in *; lia].
      rewrite (app_assoc p (raw run)).
      destruct (unpack_tagged (p ++ raw run) w (zpack ws [] ++ slack) blen cap (out ++ concat run) s' Hw) as (s2 & -> & HI2 & Hp2 & Hz2);
        [lia|done|done|unfold zl in *; lia|].
      rewrite bind_ret, concat_app. cbn [concat].
      replace ((p ++ raw run) ++ (tag w :: nonzero w) ++ zpack ws [] ++ slack)
        with ((p ++ raw run ++ tag w :: nonzero w) ++ zpack ws [] ++ slack) by (by rewrite <- !app_assoc).
      replace (out ++ concat run ++ w ++ concat ws) with (((out ++ concat run) ++ w) ++ concat ws) by (by rewrite <- !app_assoc).
      rewrite <- (app_assoc p) in Hp2.
      specialize (IH [] (p ++ raw run ++ tag w :: nonzero w) slack blen cap ((out ++ concat run) ++ w) s2 fuel').
      cbn [app] in IH. apply IH; [done|done|done|lia|lia].
Qed.

Lemma words8_words l : Forall (fun w => length w = 8%nat) (words8 l).
Proof.
  induction l as [l IH] using (induction_ltof1 _ (@length Z)). unfold ltof in IH.
  destruct (words8_cases l) as [[-> ->]|[(w & l' & -> & Hw & ->)|[Hl ->]]]; constructor; try done.
  - apply IH. rewrite length_app. lia.
  - rewrite length_app, length_replicate. lia.
Qed.

Lemma sproto_unpack_ok src slack buf bufsz : bufsz <= zl buf ->
  exists buf', sproto_unpack (packed src ++ slack) (zl (packed src)) buf bufsz = Ok (buf', zl (padded src)) /\
    zl buf' = zl buf /\ (zl (padded src) <= bufsz -> take (length (padded src)) buf' = padded src).
Proof.
  intros Hcap. unfold sproto_unpack, packed, padded.
  match goal with |- context [unpack_loop _ _ ?s0] => set (s := s0) end.
  assert (Hu : uinv (zl buf) (Z.min bufsz (zl buf)) [] s \/ bufsz < 0).
  { destruct (Z.lt_ge_cases bufsz 0); [by right|]. left. unfold uinv. cbn. split_and!; [done|lia|done|].
    left. split_and!; [unfold zl; cbn; lia|done|unfold zl; cbn; unfold zl in *; lia|done]. }
  assert (Hu2 : uinv (zl buf) bufsz [] s).
  { destruct Hu as [Hu|Hneg]; [by rewrite Z.min_l in Hu by done|]. unfold uinv. cbn. split_and!; [done|done|done|].
    right. unfold zl. cbn. lia. }
  destruct (unpack_zpack (words8 src) [] [] slack (zl buf) bufsz [] s (S (Z.to_nat (zl (zpack (words8 src) [])))))
    as (buf' & E & Hl & Ht); [apply words8_words|done|done|done|unfold zl; lia|].
  exists buf'. by split_and!.
Qed.

(** ** The functions of Lua *)

Definition uv_ok (uv : upvalues) : Prop := zl (uv_buffer uv) = uv_size uv /\ 1 <= uv_size uv <= ENCODE_MAXSIZE.

Lemma double_ok fuel : forall osz nsz, 1 <= osz -> osz < nsz <= 2 ^ 23 -> nsz <= osz * 2 ^ Z.of_nat fuel ->
  exists r, double_until fuel osz nsz = Ok r /\ nsz <= r < 2 * nsz.
Proof.
  induction fuel as [|fuel IH]; intros osz nsz H1 H2 H3; [cbn in H3; lia|]. cbn [double_until].
  rewrite c_int_ok by lia. rewrite bind_ret. destruct (Z.ltb_spec (osz * 2) nsz).
  - apply IH; [lia|lia|]. rewrite Nat2Z.inj_succ, Z.pow_succ_r in H3 by lia. lia.
  - exists (osz * 2). split; [done|lia].
Qed.

Section Api.
Context (newuserdata : Z -> list Z).
Hypothesis newuserdata_size : forall n, 0 <= n -> zl (newuserdata n) = n.

Lemma expand_ok osz nsz : 1 <= osz -> osz < nsz <= 2 ^ 23 ->
  exists uv, expand_buffer newuserdata osz nsz = Ok (Some uv) /\ uv_ok uv /\ nsz <= uv_size uv.
Proof.
  intros H1 H2. unfold expand_buffer.
  destruct (double_ok 32 osz nsz H1 H2) as (r & -> & Hr); [cbn; lia|]. rewrite bind_ret.
  destruct (Z.ltb_spec ENCODE_MAXSIZE r); [unfold ENCODE_MAXSIZE in *; lia|].
  eexists. split; [done|]. unfold uv_ok. cbn. rewrite newuserdata_size by lia. lia.
Qed.

Lemma push_prefix buf out : take (length out) buf = out -> pushlstring buf (zl out) = Ok (Str out).
Proof.
  intros E. unfold pushlstring. rewrite <- (take_drop (length out) buf), E.
  pose proof (mem_read_ok [] out (drop (length out) buf)) as H. unfold zl. cbn [app length] in H. change (Z.of_nat 0) with 0 in H. by rewrite H.
Qed.

(** [lpack] answers with the packed form: the buffer it provides is large enough. *)
Lemma lpack_ok uv src :
  uv_ok uv -> zl src <= 2 ^ 22 -> tail_overruns src 0 = false ->
  exists uv', lpack newuserdata uv (LString src) = Ok (uv', Str (packed src)) /\ uv_ok uv'.
Proof.
  intros Huv Hsz Hover. unfold lpack. cbn [getbuffer]. cbv zeta. fold (zl src).
  pose proof (packed_bound src) as Hb. set (maxsz := (zl src + 2047) / 2048 * 2 + zl src + 2) in *.
  assert (Hm : 0 <= zl src /\ 2 <= maxsz <= 2 ^ 22 + 2 ^ 13 + 2).
  { unfold maxsz, zl in *. pose proof (Z.div_pos (Z.of_nat (length src) + 2047) 2048 ltac:(lia) ltac:(lia)).
    assert ((Z.of_nat (length src) + 2047) / 2048 <= 2 ^ 12) by (apply Z.div_le_upper_bound; lia). lia. }
  assert (Hu : exists uv', (if uv_size uv <? maxsz then expand_buffer newuserdata (uv_size uv) (i32 maxsz) else Ok (Some uv)) = Ok (Some uv') /\
    uv_ok uv' /\ maxsz <= uv_size uv').
  { destruct (Z.ltb_spec (uv_size uv) maxsz); [|by exists uv].
    rewrite i32_small by lia. apply expand_ok; unfold uv_ok in Huv; lia. }
  destruct Hu as (uv' & -> & [Hl Hs] & Hbig). rewrite bind_ret, !i32_small by lia.
  destruct (sproto_pack_ok src [0] (uv_buffer uv') maxsz) as (buf' & -> & Hl' & Ht); [lia|done|].
  rewrite bind_ret. destruct (Z.ltb_spec maxsz (zl (packed src))); [lia|].
  rewrite push_prefix by (apply Ht; lia). rewrite bind_ret. eexists. split; [done|]. split; cbn; lia.
Qed.

(** [lunpack] of a packed form gives the input back, padded to whole words. *)
Lemma lunpack_ok uv src :
  uv_ok uv -> zl src <= 2 ^ 22 ->
  exists uv', lunpack newuserdata uv (LString (packed src)) = Ok (uv', Str (padded src)) /\ uv_ok uv'.
Proof.
  intros [Hl Hs] Hsz. unfold lunpack. cbn [getbuffer]. cbv zeta. fold (zl (packed src)).
  assert (Hp : 0 <= zl (packed src) < 2 ^ 31).
  { pose proof (packed_bound src). unfold zl in *.
    assert ((Z.of_nat (length src) + 2047) / 2048 <= 2 ^ 12) by (apply Z.div_le_upper_bound; lia). lia. }
  assert (Hd : 0 <= zl (padded src) <= 2 ^ 22 + 7).
  { destruct (padded_eq src) as (k & Hk & ->). unfold zl in *. rewrite length_app, length_replicate. lia. }
  rewrite i32_small by lia.
  destruct (sproto_unpack_ok src [0] (uv_buffer uv) (uv_size uv)) as (buf' & -> & Hl' & Ht); [lia|]. rewrite bind_ret.
  destruct (Z.ltb_spec (zl (padded src)) 0); [lia|]. destruct (Z.ltb_spec (uv_size uv) (zl (padded src))).
  - destruct (expand_ok (uv_size uv) (zl (padded src))) as (uv' & -> & [Hl2 Hs2] & Hbig); [lia..|]. rewrite bind_ret.
    destruct (sproto_unpack_ok src [0] (uv_buffer uv') (zl (padded src))) as (buf2 & -> & Hl3 & Ht2); [lia|]. rewrite bind_ret.
    destruct (Z.ltb_spec (zl (padded src)) 0); [lia|]. rewrite push_prefix by (apply Ht2; lia). rewrite bind_ret.
    eexists. split; [done|]. split; cbn; lia.
  - rewrite push_prefix by (apply Ht; lia). rewrite bind_ret. eexists. split; [done|]. split; cbn; lia.
Qed.
End Api.

(** Whatever Lua passes to [pack], up to 4 MB, [unpack] gives back, padded
    with less than eight zeros to whole words; the buffers of both functions
    grow as needed and neither call raises an error.  The one exception are
    inputs whose padded last word completes a run of 256 raw words. *)
Theorem pack_roundtrip newuserdata uv uv' src :
  (forall n, 0 <= n -> zl (newuserdata n) = n) -> uv_ok uv -> uv_ok uv' ->
  zl src <= 2 ^ 22 -> tail_overruns src 0 = false ->
  exists p k v v', (k < 8)%nat /\
    lpack newuserdata uv (LString src) = Ok (v, Str p) /\
    lunpack newuserdata uv' (LString p) = Ok (v', Str (src ++ replicate k 0)) /\
    uv_ok v /\ uv_ok v' /\ zl p <= (zl src + 2047) / 2048 * 2 + zl src + 2.
Proof.
  intros Hn Huv Huv' Hsz Hover. destruct (padded_eq src) as (k & Hk & Ek).
  destruct (lpack_ok newuserdata Hn uv src Huv Hsz Hover) as (v & E & Hv).
  destruct (lunpack_ok newuserdata Hn uv' src Huv' Hsz) as (v' & E' & Hv'). rewrite Ek in E'.
  exists (packed src), k, v, v'. split_and!; try done. apply packed_bound.
Qed.

Definition small_upvalues : upvalues := {| uv_buffer := replicate 16 0; uv_size := 16 |}.

Lemma pack_roundtrip_witness :
  exists p k v v', (k < 8)%nat /\
    lpack (fun n => replicate (Z.to_nat n) 0) small_upvalues (LString (replicate 30 138)) = Ok (v, Str p) /\
    lunpack (fun n => replicate (Z.to_nat n) 0) small_upvalues (LString p) = Ok (v', Str (replicate 30 138 ++ replicate k 0)) /\
    uv_ok v /\ uv_ok v' /\ zl p <= (zl (replicate 30 138) + 2047) / 2048 * 2 + zl (replicate 30 138) + 2.
Proof.
  apply (pack_roundtrip (fun n => replicate (Z.to_nat n) 0) small_upvalues small_upvalues (replicate 30 138)).
  - intros n Hn. unfold zl. rewrite length_replicate. lia.
  - by split.
  - by split.
  - by cbv.
  - by vm_compute.
Defined.

(** ** Streams that are not packed forms *)

(** The reads stay within one byte of the end of the stream, the writes in the
    room the buffer has. *)
Definition usafe (len blen : Z) (s : unpacking) : Prop :=
  up_pos s = len - up_srcsz s /\ -1 <= up_srcsz s <= len /\ zl (up_buf s) = blen /\
  0 <= up_buffer s /\ (0 < up_bufsz s -> up_buffer s + up_bufsz s <= blen) /\ 0 <= up_size s.

Definition usafe_r (len blen k : Z) (u : unpacked) : Prop :=
  match u with More s => usafe len blen s /\ up_srcsz s <= k | Bad buf => zl buf = blen end.

Lemma put_safe len blen s b : usafe len blen s ->
  exists s', put_byte b s = Ok s' /\ usafe len blen s' /\ up_srcsz s' = up_srcsz s.
Proof.
  intros (H1 & H2 & H3 & H4 & H5 & H6). unfold put_byte. destruct (Z.ltb_spec 0 (up_bufsz s)) as [Hb|]; [|by exists s].
  specialize (H5 Hb).
  destruct (write_prefix (up_buf s) [b] (up_buffer s)) as (buf' & -> & Hl & _); [unfold zl in *; cbn; lia..|].
  rewrite bind_ret. eexists. split; [done|]. unfold usafe. cbn. unfold zl in *. split_and!; try done; lia.
Qed.

Lemma bit_safe src h len blen k i u : zl src = len + 1 -> usafe_r len blen k u ->
  exists u', bit_step src h i u = Ok u' /\ usafe_r len blen k u'.
Proof.
  intros Hsrc Hu. destruct u as [s|buf]; [|by eexists]. destruct Hu as [Hu Hk]. unfold bit_step.
  destruct (_ =? 0).
  - destruct (put_safe len blen s 0 Hu) as (s' & -> & (? & ? & ? & ? & ? & ?) & Hz). rewrite bind_ret.
    eexists. split; [done|]. split; [|cbn; lia]. unfold usafe. cbn. split_and!; done || lia.
  - destruct (Z.ltb_spec (up_srcsz s) 0) as [|H0]; [eexists; split; [done|]; by destruct Hu as (_ & _ & ? & _)|].
    assert (Hg : exists c, arr_get src (up_pos s) = Ok c).
    { destruct Hu as (H1 & H2 & _). unfold arr_get. destruct (Z.ltb_spec (up_pos s) 0); [lia|].
      destruct (lookup_lt_is_Some_2 src (Z.to_nat (up_pos s))) as [c Hc]; [unfold zl in *; lia|]. exists c. by rewrite Hc. }
    destruct Hg as [c Hc].
    assert (Hp : exists s', (if 0 <? up_bufsz s then c ← arr_get src (up_pos s); put_byte c s else Ok s) = Ok s' /\
      usafe len blen s' /\ up_srcsz s' = up_srcsz s).
    { destruct (0 <? up_bufsz s); [|by exists s]. rewrite Hc, bind_ret. by apply put_safe. }
    destruct Hp as (s' & -> & (? & ? & ? & ? & ? & ?) & Hz). rewrite bind_ret.
    eexists. split; [done|]. split; [|cbn; lia]. unfold usafe. cbn. split_and!; done || lia.
Qed.

Lemma unpack_step_safe src len blen s : Forall (fun b => 0 <= b < 256) src ->
  zl src = len + 1 -> usafe len blen s -> 0 < up_srcsz s ->
  exists u, unpack_step src s = Ok u /\ usafe_r len blen (up_srcsz s - 1) u.
Proof.
  intros HB Hsrc Hu H0.
  assert (Hg : forall i, 0 <= i <= len -> exists c, arr_get src i = Ok c /\ 0 <= c < 256).
  { intros i Hi. unfold arr_get. destruct (Z.ltb_spec i 0); [lia|].
    destruct (lookup_lt_is_Some_2 src (Z.to_nat i)) as [c Hc]; [unfold zl in *; lia|]. exists c. rewrite Hc. split; [done|].
    by apply (Forall_lookup_1 _ _ _ _ HB Hc). }
  pose proof Hu as (H1 & H2 & H3 & H4 & H5 & H6). unfold unpack_step.
  destruct (Hg (up_pos s)) as (h & -> & Hh); [lia|]. rewrite bind_ret. cbv zeta. destruct (h =? 255).
  - destruct (Z.ltb_spec (up_srcsz s - 1) 0); [lia|]. destruct (Hg (up_pos s + 1)) as (c & -> & Hc); [lia|]. rewrite bind_ret.
    destruct (Z.ltb_spec (up_srcsz s - 1) ((c + 1) * 8 + 1)); [by eexists|].
    assert (Hw : exists buf, (if (c + 1) * 8 <=? up_bufsz s then bytes ← mem_read src (up_pos s + 1 + 1) ((c + 1) * 8);
      mem_write (up_buf s) (up_buffer s) bytes else Ok (up_buf s)) = Ok buf /\ zl buf = blen).
    { destruct (Z.leb_spec ((c + 1) * 8) (up_bufsz s)); [|by eexists]. unfold mem_read.
      destruct (Z.ltb_spec (up_pos s + 1 + 1) 0); [lia|]. destruct (Z.ltb_spec ((c + 1) * 8) 0); [lia|].
      destruct (Z.ltb_spec (Z.of_nat (length src)) (up_pos s + 1 + 1 + (c + 1) * 8)); [unfold zl in *; lia|]. cbn [orb]. rewrite bind_ret.
      set (bs := take _ _). assert (zl bs = (c + 1) * 8) as Hbs by (unfold bs, zl in *; rewrite length_take, length_drop; lia).
      destruct (write_prefix (up_buf s) bs (up_buffer s)) as (buf' & -> & Hl & _); [lia|unfold zl in *; lia|].
      eexists. split; [done|]. unfold zl in *. lia. }
    destruct Hw as (buf & -> & Hl). rewrite bind_ret. eexists. split; [done|]. unfold usafe_r, usafe. cbn. split_and!; done || lia.
  - match goal with |- context [for_loop 8 0 _ ?u] => set (u0 := u) end.
    destruct (for_loop_inv (fun _ => usafe_r len blen (up_srcsz s - 1)) (bit_step src h) 8 0 u0) as (u & E & HI).
    + unfold u0, usafe_r, usafe. cbn. split_and!; done || lia.
    + intros j u _ Hju. by apply bit_safe.
    + by exists u.
Qed.

(** C39. Every stream, well-formed or not: [sproto_unpack] returns, it writes only
    where the buffer has room, and it reads at most one byte past the end of the
    stream, which a Lua string always has. *)
Theorem unpack_reads_one_past src x buf bufsz :
  Forall (fun b => 0 <= b < 256) (src ++ [x]) -> bufsz <= zl buf ->
  exists buf' r, sproto_unpack (src ++ [x]) (zl src) buf bufsz = Ok (buf', r) /\ zl buf' = zl buf /\ -1 <= r.
Proof.
  intros HB Hcap. unfold sproto_unpack.
  match goal with |- context [unpack_loop _ _ ?s0] => set (s := s0) end.
  assert (Hl : zl (src ++ [x]) = zl src + 1) by (unfold zl; rewrite length_app; cbn; lia).
  assert (Hs : usafe (zl src) (zl buf) s) by (unfold usafe, s, zl in *; cbn; split_and!; done || lia).
  assert (Hf : Z.max 0 (up_srcsz s) < Z.of_nat (S (Z.to_nat (zl src)))) by (unfold s, zl; cbn [up_srcsz]; lia).
  revert Hs Hf. generalize (S (Z.to_nat (zl src))). clearbody s. intros fuel. revert s.
  induction fuel as [|fuel IH]; intros s Hs Hf; cbn [unpack_loop].
  - lia.
  - destruct (Z.ltb_spec 0 (up_srcsz s)) as [H0|H0].
    + destruct (unpack_step_safe (src ++ [x]) (zl src) (zl buf) s HB Hl Hs H0) as ([s'|b] & -> & Hu); rewrite bind_ret.
      * destruct Hu as [Hu Hk]. apply IH; [done|]. destruct Hu as (_ & ? & _). lia.
      * exists b, (-1). split_and!; [done|done|lia].
    + destruct Hs as (_ & _ & ? & _ & _ & ?). exists (up_buf s), (up_size s). split_and!; [done|done|lia].
Qed.

Lemma unpack_reads_one_past_witness :
  exists buf' r, sproto_unpack ([0x81; 5] ++ [0]) (zl [0x81; 5]) (replicate 16 0) 16 = Ok (buf', r) /\ zl buf' = zl (replicate 16 0) /\ -1 <= r.
Proof. apply (unpack_reads_one_past [0x81; 5] 0 (replicate 16 0) 16); [repeat constructor; lia|by cbv]. Defined.

(** A stream cut off after a tag is accepted: the byte behind its end is read
    as the last byte of the word, and the call returns eight bytes as if the
    stream were whole. *)
Theorem unpack_accepts_truncated x :
  sproto_unpack ([0x80] ++ [x]) 1 (replicate 8 9) 8 = Ok ([0; 0; 0; 0; 0; 0; 0; x], 8) /\
  sproto_unpack [0x80] 1 (replicate 8 9) 8 = Fault OutOfBounds.
Proof. by vm_compute. Qed.

(** A string of 2046 bytes without zeros: its last word, six bytes of it used,
    completes a run of 256, and [write_ff] copies 2048 bytes. *)
Lemma pack_reads_past_string :
  lpack (fun n => replicate (Z.to_nat n) 0) {| uv_buffer := replicate 2050 0; uv_size := 2050 |} (LString (replicate 2046 1))
  = Fault OutOfBounds.
Proof. by vm_compute. Qed.
