(* ===== verification/SprotoSchema.v ===== *)
(** * Schemas of sproto ([lualib-src/sproto/sproto.c])

    The pool a schema is allocated from, the loader that builds it from the
    binary form ([sproto_create]) and the queries on it.  The loader reads the
    binary form through checked accesses, so a read outside of it is a fault of
    the model.  Sums of [uint32_t] wrap as they do in C. *)

From S2P Require Import Prelude.
From Stdlib Require Import ZArith Lia.
From stdpp Require Import base numbers list.
#[local] Open Scope Z_scope.
#[local] Open Scope list_scope.

Module Schema.

Definition SPROTO_TARRAY : Z := 0x80.
Definition CHUNK_SIZE : Z := 1000.
Definition SIZEOF_LENGTH : Z := 4.
Definition SIZEOF_HEADER : Z := 2.
Definition SIZEOF_FIELD : Z := 2.
Definition SPROTO_TINTEGER : Z := 0.
Definition SPROTO_TBOOLEAN : Z := 1.
Definition SPROTO_TSTRING : Z := 2.
Definition SPROTO_TSTRUCT : Z := 3.

(** ** The pool *)

(** An address: a chunk, by the number of its [malloc], and an offset in it. *)
Definition addr : Type := nat * Z.

(** [p_header] is the list of chunks with the sizes asked for, newest first. *)
Record pool := { p_header : list (nat * Z); p_current : option nat; p_current_used : Z; p_mallocs : nat }.

Definition pool_init : pool := {| p_header := []; p_current := None; p_current_used := 0; p_mallocs := 0 |}.

Section Malloc.
(** Whether the n-th [malloc] succeeds. *)
Context (malloc_ok : nat -> bool).

Definition pool_newchunk (p : pool) (sz : Z) : pool * option addr :=
  let id := p_mallocs p in
  if malloc_ok id then
    ({| p_header := (id, sz) :: p_header p; p_current := p_current p; p_current_used := p_current_used p; p_mallocs := S id |},
     Some (id, 0))
  else
    ({| p_header := p_header p; p_current := p_current p; p_current_used := p_current_used p; p_mallocs := S id |}, None).

(** [p->current = p->header] *)
Definition use_header (p : pool) (used : Z) : pool :=
  {| p_header := p_header p; p_current := fst <$> head (p_header p); p_current_used := used; p_mallocs := p_mallocs p |}.

Definition pool_alloc (p : pool) (sz : Z) : pool * option addr :=
  let sz := Z.land (sz + 7) (Z.lnot 7) in
  if CHUNK_SIZE <=? sz then pool_newchunk p sz
  else
    let '(p, ok) :=
      match p_current p with
      | Some _ => (p, true)
      | None =>
          match pool_newchunk p CHUNK_SIZE with
          | (p, None) => (p, false)
          | (p, Some _) => (use_header p (p_current_used p), true)
          end
      end in
    if negb ok then (p, None)
    else if sz + p_current_used p <=? CHUNK_SIZE then
      ({| p_header := p_header p; p_current := p_current p; p_current_used := p_current_used p + sz; p_mallocs := p_mallocs p |},
       (fun c => (c, p_current_used p)) <$> p_current p)
    else if p_current_used p <=? sz then pool_newchunk p sz
    else
      let '(p, ret) := pool_newchunk p CHUNK_SIZE in
      (use_header p sz, ret).

(** [pool_release]: the chunks it frees, in order. *)
Definition pool_release (p : pool) : list nat := fst <$> p_header p.

(** ** The binary form *)

Definition toword (m : list Z) (o : Z) : outcome Z :=
  a ← arr_get m o; b ← arr_get m (o + 1); Ok (Z.lor a (Z.shiftl b 8)).

Definition todword (m : list Z) (o : Z) : outcome Z :=
  a ← arr_get m o; b ← arr_get m (o + 1); c ← arr_get m (o + 2); d ← arr_get m (o + 3);
  Ok (Z.lor (Z.lor (Z.lor a (Z.shiftl b 8)) (Z.shiftl c 16)) (Z.shiftl d 24)).

(** The loop of [count_array].  A round that takes no byte repeats for ever. *)
Fixpoint count_loop (fuel : nat) (m : list Z) (stream length n : Z) : outcome Z :=
  match fuel with
  | O => Fault OutOfFuel
  | S fuel =>
      if 0 <? length then
        if length <? SIZEOF_LENGTH then Ok (-1)
        else
          nsz ← todword m stream;
          let nsz := u32 (nsz + SIZEOF_LENGTH) in
          if length <? nsz then Ok (-1)
          else count_loop fuel m (stream + nsz) (length - nsz) (n + 1)
      else Ok n
  end.

Definition count_array (m : list Z) (stream : Z) : outcome Z :=
  length ← todword m stream;
  count_loop (S (List.length m)) m (stream + SIZEOF_LENGTH) length 0.

Fixpoint fields_loop (k : nat) (m : list Z) (field i stream sz : Z) : outcome bool :=
  match k with
  | O => Ok true
  | S k =>
      value ← toword m (field + i * SIZEOF_FIELD);
      if negb (value =? 0) then fields_loop k m field (i + 1) stream sz
      else if sz <? SIZEOF_LENGTH then Ok false
      else
        dsz ← todword m stream;
        let d := u32 (SIZEOF_LENGTH + dsz) in
        if sz <? d then Ok false
        else fields_loop k m field (i + 1) (stream + d) (sz - d)
  end.

Definition struct_field (m : list Z) (stream sz : Z) : outcome Z :=
  if sz <? SIZEOF_LENGTH then Ok (-1)
  else
    fn ← toword m stream;
    let header := SIZEOF_HEADER + SIZEOF_FIELD * fn in
    if sz <? header then Ok (-1)
    else
      ok ← fields_loop (Z.to_nat fn) m (stream + SIZEOF_HEADER) 0 (stream + header) (sz - header);
      Ok (if (ok : bool) then fn else -1).

(** ** What a schema is *)

(** A string in the pool: where it is and its bytes. *)
Record cname := { nm_ptr : addr; nm_str : list Z }.

(** [f_st] is an index into the array of types. *)
Record field := { f_tag : Z; f_type : Z; f_name : option cname; f_st : option Z; f_key : Z }.
Record sproto_type := { t_name : option cname; t_n : Z; t_base : Z; t_maxn : Z; t_f : list field }.
Record protocol := { pr_name : option cname; pr_tag : Z; pr_request : option Z; pr_response : option Z }.
Record sproto := { sp_memory : pool; sp_type : list sproto_type; sp_proto : list protocol }.

Definition import_string (p : pool) (m : list Z) (stream : Z) : outcome (pool * cname) :=
  sz ← todword m stream;
  let '(p, buffer) := pool_alloc p (u32 (sz + 1)) in
  match buffer with
  | None => Fault NullPointer
  | Some a =>
      b ← mem_read m (stream + SIZEOF_LENGTH) sz;
      if u32 (sz + 1) <? sz + 1 then Fault OutOfBounds
      else Ok (p, {| nm_ptr := a; nm_str := b |})
  end.

(** Either the function goes on, or it returns [NULL]. *)
Inductive step (A : Type) := Go (a : A) | Null.
Arguments Go {_} _.
Arguments Null {_}.

(** The locals of [import_field]. *)
Record ifield := { if_f : field; if_array : Z; if_tag : Z; if_pool : pool }.

Definition set_tag (f : field) v := {| f_tag := v; f_type := f_type f; f_name := f_name f; f_st := f_st f; f_key := f_key f |}.
Definition set_type (f : field) v := {| f_tag := f_tag f; f_type := v; f_name := f_name f; f_st := f_st f; f_key := f_key f |}.
Definition set_name (f : field) v := {| f_tag := f_tag f; f_type := f_type f; f_name := v; f_st := f_st f; f_key := f_key f |}.
Definition set_st (f : field) v := {| f_tag := f_tag f; f_type := f_type f; f_name := f_name f; f_st := v; f_key := f_key f |}.
Definition set_key (f : field) v := {| f_tag := f_tag f; f_type := f_type f; f_name := f_name f; f_st := f_st f; f_key := v |}.

(** The body of the loop of [import_field]; [type_n] is [s->type_n]. *)
Definition import_field_step (type_n : Z) (m : list Z) (stream fn i : Z) (s : ifield) : outcome (step ifield) :=
  let tag := if_tag s + 1 in
  let f := if_f s in
  let upd f array := Ok (Go {| if_f := f; if_array := array; if_tag := tag; if_pool := if_pool s |}) in
  value ← toword m (stream + SIZEOF_FIELD * i);
  if Z.odd value then
    Ok (Go {| if_f := f; if_array := if_array s; if_tag := tag + value / 2; if_pool := if_pool s |})
  else if tag =? 0 then
    if negb (value =? 0) then Ok Null
    else
      '(p, nm) ← import_string (if_pool s) m (stream + fn * SIZEOF_FIELD);
      Ok (Go {| if_f := set_name f (Some nm); if_array := if_array s; if_tag := tag; if_pool := p |})
  else if value =? 0 then Ok Null
  else
    let value := value / 2 - 1 in
    if tag =? 1 then
      if SPROTO_TSTRUCT <=? value then Ok Null else upd (set_type f value) (if_array s)
    else if tag =? 2 then
      if type_n <=? value then Ok Null
      else if 0 <=? f_type f then Ok Null
      else upd (set_st (set_type f SPROTO_TSTRUCT) (Some value)) (if_array s)
    else if tag =? 3 then upd (set_tag f value) (if_array s)
    else if tag =? 4 then upd f (if negb (value =? 0) then SPROTO_TARRAY else if_array s)
    else if tag =? 5 then upd (set_key f value) (if_array s)
    else Ok Null.

Fixpoint import_field_loop (k : nat) (type_n : Z) (m : list Z) (stream fn i : Z) (s : ifield) : outcome (step ifield) :=
  match k with
  | O => Ok (Go s)
  | S k =>
      r ← import_field_step type_n m stream fn i s;
      match r with Null => Ok Null | Go s => import_field_loop k type_n m stream fn (i + 1) s end
  end.

(** [import_field]: the field, the pool and the position behind it. *)
Definition import_field (type_n : Z) (p : pool) (m : list Z) (stream : Z) : outcome (step (field * pool * Z)) :=
  sz ← todword m stream;
  let stream := stream + SIZEOF_LENGTH in
  let result := stream + sz in
  fn ← struct_field m stream sz;
  if fn <? 0 then Ok Null
  else
    let stream := stream + SIZEOF_HEADER in
    r ← import_field_loop (Z.to_nat fn) type_n m stream fn 0
          {| if_f := {| f_tag := -1; f_type := -1; f_name := None; f_st := None; f_key := -1 |};
             if_array := 0; if_tag := -1; if_pool := p |};
    match r with
    | Null => Ok Null
    | Go s =>
        let f := if_f s in
        match f_name f with
        | None => Ok Null
        | Some _ =>
            if (f_tag f <? 0) || (f_type f <? 0) then Ok Null
            else Ok (Go (set_type f (Z.lor (f_type f) (if_array s)), if_pool s, result))
        end
    end.

(** The loop of [import_type] over the fields: [last], [maxn], the fields so far. *)
Fixpoint import_fields (k : nat) (type_n : Z) (p : pool) (m : list Z) (stream last maxn : Z) (acc : list field)
    : outcome (step (list field * pool * Z)) :=
  match k with
  | O => Ok (Go (acc, p, maxn))
  | S k =>
      r ← import_field type_n p m stream;
      match r with
      | Null => Ok Null
      | Go (f, p, stream) =>
          let tag := f_tag f in
          if tag <=? last then Ok Null
          else import_fields k type_n p m stream tag (if last + 1 <? tag then maxn + 1 else maxn) (acc ++ [f])
      end
  end.

Fixpoint zero_fields (k : nat) (m : list Z) (o : Z) : outcome bool :=
  match k with
  | O => Ok true
  | S k => v ← toword m o; if negb (v =? 0) then Ok false else zero_fields k m (o + SIZEOF_FIELD)
  end.

Definition sizeof_field : Z := 32.
Definition sizeof_sproto_type : Z := 32.
Definition sizeof_protocol : Z := 32.
Definition sizeof_sproto : Z := 48.

Definition import_type (type_n : Z) (p : pool) (m : list Z) (stream : Z) : outcome (step (sproto_type * pool * Z)) :=
  sz ← todword m stream;
  let stream := stream + SIZEOF_LENGTH in
  let result := stream + sz in
  fn ← struct_field m stream sz;
  if (fn <=? 0) || (2 <? fn) then Ok Null
  else
    zero ← zero_fields (Z.to_nat fn) m (stream + SIZEOF_HEADER);
    if negb zero then Ok Null
    else
      let stream := stream + SIZEOF_HEADER + fn * SIZEOF_FIELD in
      '(p, nm) ← import_string p m stream;
      if fn =? 1 then
        Ok (Go ({| t_name := Some nm; t_n := 0; t_base := 0; t_maxn := 0; t_f := [] |}, p, result))
      else
        d ← todword m stream;
        let stream := stream + u32 (d + SIZEOF_LENGTH) in
        n ← count_array m stream;
        if n <? 0 then Ok Null
        else
          let stream := stream + SIZEOF_LENGTH in
          let '(p, fa) := pool_alloc p (sizeof_field * n) in
          match fa with
          | None => Fault NullPointer
          | Some _ =>
              r ← import_fields (Z.to_nat n) type_n p m stream (-1) n [];
              match r with
              | Null => Ok Null
              | Go (fs, p, maxn) =>
                  (* the array of no fields has no [f[0]]: what is read was never written *)
                  first ← init_read (head fs);
                  last ← init_read (list.last fs);
                  let base := f_tag first in
                  let base := if negb (f_tag last - base + 1 =? n) then -1 else base in
                  Ok (Go ({| t_name := Some nm; t_n := n; t_base := base; t_maxn := maxn; t_f := fs |}, p, result))
              end
          end.

(** The body of the loop of [import_protocol]; the local [tag] is not read. *)
Definition import_protocol_step (type_n : Z) (m : list Z) (stream fn i : Z) (s : protocol * pool)
    : outcome (step (protocol * pool)) :=
  let '(p, mem) := s in
  value ← toword m (stream + SIZEOF_FIELD * i);
  if Z.odd value then Ok (Go (p, mem))
  else
    let value := value / 2 - 1 in
    if i =? 0 then
      if negb (value =? -1) then Ok Null
      else
        '(mem, nm) ← import_string mem m (stream + SIZEOF_FIELD * fn);
        Ok (Go ({| pr_name := Some nm; pr_tag := pr_tag p; pr_request := pr_request p; pr_response := pr_response p |}, mem))
    else if i =? 1 then
      if value <? 0 then Ok Null
      else Ok (Go ({| pr_name := pr_name p; pr_tag := value; pr_request := pr_request p; pr_response := pr_response p |}, mem))
    else if i =? 2 then
      if (value <? 0) || (type_n <=? value) then Ok Null
      else Ok (Go ({| pr_name := pr_name p; pr_tag := pr_tag p; pr_request := Some value; pr_response := pr_response p |}, mem))
    else if i =? 3 then
      if (value <? 0) || (type_n <=? value) then Ok Null
      else Ok (Go ({| pr_name := pr_name p; pr_tag := pr_tag p; pr_request := pr_request p; pr_response := Some value |}, mem))
    else Ok Null.

Fixpoint import_protocol_loop (k : nat) (type_n : Z) (m : list Z) (stream fn i : Z) (s : protocol * pool)
    : outcome (step (protocol * pool)) :=
  match k with
  | O => Ok (Go s)
  | S k =>
      r ← import_protocol_step type_n m stream fn i s;
      match r with Null => Ok Null | Go s => import_protocol_loop k type_n m stream fn (i + 1) s end
  end.

Definition import_protocol (type_n : Z) (mem : pool) (m : list Z) (stream : Z) : outcome (step (protocol * pool * Z)) :=
  sz ← todword m stream;
  let stream := stream + SIZEOF_LENGTH in
  let result := stream + sz in
  fn ← struct_field m stream sz;
  let stream := stream + SIZEOF_HEADER in
  r ← import_protocol_loop (Z.to_nat fn) type_n m stream fn 0
        ({| pr_name := None; pr_tag := -1; pr_request := None; pr_response := None |}, mem);
  match r with
  | Null => Ok Null
  | Go (p, mem) =>
      match pr_name p with
      | None => Ok Null
      | Some _ => if pr_tag p <? 0 then Ok Null else Ok (Go (p, mem, result))
      end
  end.

(** ** The whole bundle *)

(** What the first loop of [create_from_bundle] finds. *)
Record bundle := { b_pool : pool; b_typedata : option Z; b_type_n : Z; b_protocoldata : option Z; b_protocol_n : Z; b_content : Z }.

Fixpoint bundle_loop (k : nat) (m : list Z) (stream i : Z) (b : bundle) : outcome (step bundle) :=
  match k with
  | O => Ok (Go b)
  | S k =>
      value ← toword m (stream + i * SIZEOF_FIELD);
      if negb (value =? 0) then Ok Null
      else
        let content := b_content b in
        n ← count_array m content;
        if n <? 0 then Ok Null
        else
          d ← todword m content;
          let content' := content + u32 (d + SIZEOF_LENGTH) in
          if i =? 0 then
            let '(p, a) := pool_alloc (b_pool b) (n * sizeof_sproto_type) in
            match a with
            | None => Fault NullPointer
            | Some _ =>
                bundle_loop k m stream (i + 1)
                  {| b_pool := p; b_typedata := Some (content + SIZEOF_LENGTH); b_type_n := n;
                     b_protocoldata := b_protocoldata b; b_protocol_n := b_protocol_n b; b_content := content' |}
            end
          else
            let '(p, a) := pool_alloc (b_pool b) (n * sizeof_protocol) in
            match a with
            | None => Fault NullPointer
            | Some _ =>
                bundle_loop k m stream (i + 1)
                  {| b_pool := p; b_typedata := b_typedata b; b_type_n := b_type_n b;
                     b_protocoldata := Some (content + SIZEOF_LENGTH); b_protocol_n := n; b_content := content' |}
            end
  end.

(** The loops over the types and over the protocols. *)
Fixpoint import_types (k : nat) (type_n : Z) (p : pool) (m : list Z) (typedata : Z) (acc : list sproto_type)
    : outcome (step (list sproto_type * pool)) :=
  match k with
  | O => Ok (Go (acc, p))
  | S k =>
      r ← import_type type_n p m typedata;
      match r with
      | Null => Ok Null
      | Go (t, p, typedata) => import_types k type_n p m typedata (acc ++ [t])
      end
  end.

Fixpoint import_protocols (k : nat) (type_n : Z) (p : pool) (m : list Z) (data : Z) (acc : list protocol)
    : outcome (step (list protocol * pool)) :=
  match k with
  | O => Ok (Go (acc, p))
  | S k =>
      r ← import_protocol type_n p m data;
      match r with
      | Null => Ok Null
      | Go (t, p, data) => import_protocols k type_n p m data (acc ++ [t])
      end
  end.

Definition create_from_bundle (mem : pool) (m : list Z) (sz : Z) : outcome (step sproto) :=
  fn ← struct_field m 0 sz;
  if (fn <? 0) || (2 <? fn) then Ok Null
  else
    let stream := SIZEOF_HEADER in
    r ← bundle_loop (Z.to_nat fn) m stream 0
          {| b_pool := mem; b_typedata := None; b_type_n := 0; b_protocoldata := None; b_protocol_n := 0;
             b_content := stream + fn * SIZEOF_FIELD |};
    match r with
    | Null => Ok Null
    | Go b =>
        r ← match b_typedata b with
            | Some o => import_types (Z.to_nat (b_type_n b)) (b_type_n b) (b_pool b) m o []
            | None => Ok (Go ([], b_pool b))
            end;
        match r with
        | Null => Ok Null
        | Go (types, p) =>
            r ← match b_protocoldata b with
                | Some o => import_protocols (Z.to_nat (b_protocol_n b)) (b_type_n b) p m o []
                | None => Ok (Go ([], p))
                end;
            match r with
            | Null => Ok Null
            | Go (protos, p) => Ok (Go {| sp_memory := p; sp_type := types; sp_proto := protos |})
            end
        end
    end.

(** [sproto_create]: [None] is [NULL]. *)
Definition sproto_create (m : list Z) (sz : Z) : outcome (option sproto) :=
  let '(mem, s) := pool_alloc pool_init sizeof_sproto in
  match s with
  | None => Ok None
  | Some _ =>
      r ← create_from_bundle mem m sz;
      Ok (match r with Null => None | Go s => Some s end)
  end.

Definition sproto_release (s : option sproto) : list nat :=
  match s with None => [] | Some s => pool_release (sp_memory s) end.
End Malloc.
Arguments Go {_} _.
Arguments Null {_}.

(** ** Queries *)

(** What [strcmp] sees of a buffer: the bytes before the first zero. *)
Fixpoint c_str (l : list Z) : list Z :=
  match l with
  | [] => []
  | c :: l => if c =? 0 then [] else c :: c_str l
  end.

(** [strcmp(name, p) == 0] for each name in turn; the index of the first match. *)
Fixpoint find_name (name : list Z) (names : list (option cname)) (i : Z) : outcome (option Z) :=
  match names with
  | [] => Ok None
  | None :: _ => Fault NullPointer
  | Some n :: names => if bool_decide (c_str name = c_str (nm_str n)) then Ok (Some i) else find_name name names (i + 1)
  end.

Definition sproto_prototag (sp : sproto) (name : list Z) : outcome Z :=
  r ← find_name name (pr_name <$> sp_proto sp) 0;
  match r with
  | Some i => p ← arr_get (sp_proto sp) i; Ok (pr_tag p)
  | None => Ok (-1)
  end.

(** [sproto_type()]: the index of the type. *)
Definition sproto_type_query (sp : sproto) (name : list Z) : outcome (option Z) :=
  find_name name (t_name <$> sp_type sp) 0.

(** The binary search of [query_proto] and of [findtag], on the tags of an array. *)
Fixpoint tag_search (fuel : nat) (tags : list Z) (tag begin end_ : Z) : outcome (option Z) :=
  match fuel with
  | O => Fault OutOfFuel
  | S fuel =>
      if begin <? end_ then
        let mid := (begin + end_) / 2 in
        t ← arr_get tags mid;
        if t =? tag then Ok (Some mid)
        else if t <? tag then tag_search fuel tags tag (mid + 1) end_
        else tag_search fuel tags tag begin mid
      else Ok None
  end.

Definition query_proto (sp : sproto) (tag : Z) : outcome (option protocol) :=
  r ← tag_search (S (length (sp_proto sp))) (pr_tag <$> sp_proto sp) tag 0 (Z.of_nat (length (sp_proto sp)));
  match r with
  | None => Ok None
  | Some i => p ← arr_get (sp_proto sp) i; Ok (Some p)
  end.

Definition sproto_protoquery (sp : sproto) (proto what : Z) : outcome (option Z) :=
  if (what <? 0) || (1 <? what) then Ok None
  else
    p ← query_proto sp proto;
    Ok (match p with
        | None => None
        | Some p => if what =? 0 then pr_request p else pr_response p
        end).

Definition sproto_protoname (sp : sproto) (proto : Z) : outcome (option cname) :=
  p ← query_proto sp proto;
  Ok (match p with None => None | Some p => pr_name p end).

Definition sproto_name (t : sproto_type) : option cname := t_name t.

Definition findtag (st : sproto_type) (tag : Z) : outcome (option field) :=
  if 0 <=? t_base st then
    let tag := tag - t_base st in
    if (tag <? 0) || (t_n st <=? tag) then Ok None
    else f ← arr_get (t_f st) tag; Ok (Some f)
  else
    r ← tag_search (S (Z.to_nat (t_n st))) (f_tag <$> t_f st) tag 0 (t_n st);
    match r with
    | None => Ok None
    | Some i => f ← arr_get (t_f st) i; Ok (Some f)
    end.

End Schema.
