(* ===== verification/SprotoSchemaProofs.v ===== *)
(** * Schemas are well formed

    The pool hands out disjoint memory, the loader only returns well-formed
    schemas and stays inside the binary form, the searches find what is there. *)

From S2P Require Import Prelude SprotoSchema.
From Stdlib Require Import ZArith Lia Sorting.Sorted.
From stdpp Require Import base numbers list.
#[local] Open Scope Z_scope.
#[local] Open Scope list_scope.
Import Schema.

(** ** The pool *)

Definition align8 (sz : Z) : Z := Z.land (sz + 7) (Z.lnot 7).

Lemma align8_spec sz : align8 sz = 8 * ((sz + 7) / 8).
Proof.
  unfold align8. change 7 with (Z.ones 3) at 2. rewrite <- Z.ldiff_land, Z.ldiff_ones_r, Z.shiftr_div_pow2, Z.shiftl_mul_pow2 by lia.
  change (2 ^ 3) with 8. lia.
Qed.

Lemma align8_bounds sz : 0 <= sz -> sz <= align8 sz < sz + 8.
Proof. intros. rewrite align8_spec. pose proof (Z.div_mod (sz + 7) 8 ltac:(lia)). pose proof (Z.mod_pos_bound (sz + 7) 8 ltac:(lia)). lia. Qed.

(** A block: its address and its size. *)
Definition blk : Type := addr * Z.

Definition disjoint (a b : blk) : Prop :=
  a.1.1 <> b.1.1 \/ a.1.2 + a.2 <= b.1.2 \/ b.1.2 + b.2 <= a.1.2.

(** [bl] are the blocks handed out.  Chunks that are not the current one are
    never used again. *)
Record pool_ok (p : pool) (bl : list blk) : Prop := {
  po_nodup : NoDup (p_header p).*1;
  po_ids : forall c sz, (c, sz) ∈ p_header p -> (c < p_mallocs p)%nat;
  po_used : 0 <= p_current_used p;
  po_current : forall c, p_current p = Some c -> (c, CHUNK_SIZE) ∈ p_header p /\ p_current_used p <= CHUNK_SIZE;
  po_none : p_current p = None -> p_current_used p = 0;
  po_inside : forall b, b ∈ bl -> exists sz, (b.1.1, sz) ∈ p_header p /\ 0 <= b.1.2 /\ 0 <= b.2 /\ b.1.2 + b.2 <= sz;
  po_behind : forall b, b ∈ bl -> p_current p = Some b.1.1 -> b.1.2 + b.2 <= p_current_used p;
  po_disjoint : ForallOrdPairs disjoint bl }.

Lemma newchunk_eq ok p sz : (forall n, ok n = true) ->
  pool_newchunk ok p sz = ({| p_header := (p_mallocs p, sz) :: p_header p; p_current := p_current p;
     p_current_used := p_current_used p; p_mallocs := S (p_mallocs p) |}, Some (p_mallocs p, 0)).
Proof. intros H. unfold pool_newchunk. by rewrite H. Qed.

(** A chunk of its own for a block. *)
Lemma newchunk_ok p bl sz : pool_ok p bl -> 0 <= sz ->
  pool_ok {| p_header := (p_mallocs p, sz) :: p_header p; p_current := p_current p;
     p_current_used := p_current_used p; p_mallocs := S (p_mallocs p) |} ((p_mallocs p, 0, sz) :: bl).
Proof.
  intros [H1 H2 H3 H4 H5 H6 H7 H8] Hsz. split; cbn [p_header p_current p_current_used p_mallocs].
  - rewrite fmap_cons. constructor; [|done]. intros ([c s] & E & Hc)%list_elem_of_fmap. cbn in E. subst c. apply H2 in Hc. lia.
  - intros c s [[= -> ->]|Hc]%elem_of_cons; [lia|]. apply H2 in Hc. lia.
  - done.
  - intros c Hc. destruct (H4 c Hc). split; [by apply elem_of_cons; right|done].
  - done.
  - intros b [->|Hb]%elem_of_cons; [exists sz; cbn; split; [by apply elem_of_cons; left|lia]|].
    destruct (H6 b Hb) as (s & ? & ?). exists s. split; [by apply elem_of_cons; right|done].
  - intros b [->|Hb]%elem_of_cons; [|auto]. cbn. intros Hc. destruct (H4 _ Hc) as [Hc' _]. apply H2 in Hc'. lia.
  - constructor; [|done]. apply Forall_forall. intros [[c o] k] Hb. left. cbn.
    destruct (H6 _ Hb) as (s & Hs & _). cbn in Hs. apply H2 in Hs. lia.
Qed.

(** The current chunk becomes a new one with one block at its start. *)
Lemma fresh_current p bl sz : pool_ok p bl -> 0 <= sz <= CHUNK_SIZE ->
  pool_ok {| p_header := (p_mallocs p, CHUNK_SIZE) :: p_header p; p_current := Some (p_mallocs p);
     p_current_used := sz; p_mallocs := S (p_mallocs p) |} ((p_mallocs p, 0, sz) :: bl).
Proof.
  intros I Hsz. pose proof (newchunk_ok p bl CHUNK_SIZE I ltac:(done)) as [H1 H2 H3 H4 H5 H6 H7 H8].
  destruct I as [J1 J2 J3 J4 J5 J6 J7 J8].
  split; cbn [p_header p_current p_current_used p_mallocs] in *; try done.
  - lia.
  - intros c [= <-]. split; [by apply elem_of_cons; left|lia].
  - intros b [->|Hb]%elem_of_cons; [exists CHUNK_SIZE; cbn; split; [by apply elem_of_cons; left|lia]|]. apply H6. by apply elem_of_cons; right.
  - intros [[c o] k] [[= -> -> ->]|Hb]%elem_of_cons; [cbn; lia|]. cbn. intros [= Ec].
    destruct (J6 _ Hb) as (s & Hs & _). cbn in Hs. apply J2 in Hs. lia.
  - constructor; [|done]. apply Forall_forall. intros [[c o] k] Hb. left. cbn.
    destruct (J6 _ Hb) as (s & Hs & _). cbn in Hs. apply J2 in Hs. lia.
Qed.

(** A block at the end of what is used of the current chunk. *)
Lemma bump_ok p bl c sz : pool_ok p bl -> p_current p = Some c -> 0 <= sz -> sz + p_current_used p <= CHUNK_SIZE ->
  pool_ok {| p_header := p_header p; p_current := p_current p; p_current_used := p_current_used p + sz; p_mallocs := p_mallocs p |}
    ((c, p_current_used p, sz) :: bl).
Proof.
  intros [H1 H2 H3 H4 H5 H6 H7 H8] Hc Hsz Hle. split; cbn [p_header p_current p_current_used p_mallocs]; try done.
  - lia.
  - intros c' Hc'. destruct (H4 c' Hc'). split; [done|lia].
  - by rewrite Hc.
  - intros b [->|Hb]%elem_of_cons; [|auto]. destruct (H4 c Hc). exists CHUNK_SIZE. cbn. split; [done|lia].
  - intros b [->|Hb]%elem_of_cons; [cbn; lia|]. intros Hbc. specialize (H7 b Hb Hbc). lia.
  - constructor; [|done]. apply Forall_forall. intros [[c' o] k] Hb. unfold disjoint. cbn.
    destruct (decide (c = c')) as [->|]; [|by left]. right. right. apply (H7 _ Hb). by rewrite Hc.
Qed.

Lemma pool_alloc_ok ok p bl sz : (forall n, ok n = true) -> pool_ok p bl -> 0 <= sz ->
  exists p' a, pool_alloc ok p sz = (p', Some a) /\ pool_ok p' ((a, align8 sz) :: bl).
Proof.
  intros Hok I Hsz. unfold pool_alloc. fold (align8 sz). pose proof (align8_bounds sz Hsz) as Ha.
  destruct (Z.leb_spec CHUNK_SIZE (align8 sz)).
  { rewrite newchunk_eq by done. do 2 eexists. split; [done|]. apply newchunk_ok; [done|lia]. }
  destruct (p_current p) as [c|] eqn:Ec; cbn [negb].
  - destruct (Z.leb_spec (align8 sz + p_current_used p) CHUNK_SIZE).
    + rewrite Ec. cbn. do 2 eexists. split; [done|]. rewrite <- Ec. apply bump_ok; [done|done|lia|lia].
    + destruct (Z.leb_spec (p_current_used p) (align8 sz)).
      * rewrite newchunk_eq by done. do 2 eexists. split; [done|]. apply newchunk_ok; [done|lia].
      * rewrite newchunk_eq by done. cbn. do 2 eexists. split; [done|]. apply fresh_current; [done|lia].
  - rewrite newchunk_eq by done. unfold use_header. cbn [p_header p_current p_current_used p_mallocs head fmap option_fmap option_map fst negb].
    rewrite (po_none _ _ I Ec), Z.add_0_r. destruct (Z.leb_spec (align8 sz) CHUNK_SIZE); [|lia].
    cbn. do 2 eexists. split; [done|]. apply fresh_current; [done|lia].
Qed.

(** A run of allocations: the addresses, newest first. *)
Fixpoint alloc_all (ok : nat -> bool) (p : pool) (szs : list Z) (bl : list blk) : option (pool * list blk) :=
  match szs with
  | [] => Some (p, bl)
  | sz :: szs =>
      match pool_alloc ok p sz with
      | (p, Some a) => alloc_all ok p szs ((a, align8 sz) :: bl)
      | (_, None) => None
      end
  end.

Lemma pool_init_ok : pool_ok pool_init [].
Proof. split; cbn; try done; try constructor; by intros ? ?%elem_of_nil || by intros ? ? ?%elem_of_nil. Qed.

(** Whatever is allocated from a pool: the blocks do not overlap, every one is
    large enough and inside a chunk of the pool, and [pool_release] frees every
    chunk once. *)
Theorem pool_blocks_disjoint ok szs :
  (forall n, ok n = true) -> Forall (fun sz => 0 <= sz) szs ->
  exists p bl, alloc_all ok pool_init szs [] = Some (p, bl) /\ length bl = length szs /\
    ForallOrdPairs disjoint bl /\
    (forall b, b ∈ bl -> exists sz, (b.1.1, sz) ∈ p_header p /\ 0 <= b.1.2 /\ b.1.2 + b.2 <= sz) /\
    NoDup (pool_release p) /\ (forall c sz, (c, sz) ∈ p_header p -> c ∈ pool_release p).
Proof.
  intros Hok HF.
  assert (H : forall p bl, pool_ok p bl -> exists p' bl', alloc_all ok p szs bl = Some (p', bl') /\
    length bl' = (length szs + length bl)%nat /\ pool_ok p' bl').
  { induction HF as [|sz szs Hsz _ IH]; intros p bl I; [by exists p, bl|]. cbn [alloc_all].
    destruct (pool_alloc_ok ok p bl sz Hok I Hsz) as (p' & a & -> & I').
    destruct (IH _ _ I') as (p2 & bl2 & -> & Hl & I2). exists p2, bl2. cbn [length] in *. split_and!; [done|lia|done]. }
  destruct (H pool_init [] pool_init_ok) as (p & bl & E & Hl & [H1 H2 H3 H4 H5 H6 H7 H8]).
  exists p, bl. cbn in Hl. split_and!; [done|lia|done| |done|].
  - intros b Hb. destruct (H6 b Hb) as (s & ? & ? & ? & ?). by exists s.
  - intros c s Hc. unfold pool_release. apply list_elem_of_fmap. by exists (c, s).
Qed.

Lemma pool_blocks_disjoint_witness :
  exists p bl, alloc_all (fun _ => true) pool_init [48; 900; 3000; 120] [] = Some (p, bl) /\ length bl = length [48; 900; 3000; 120] /\
    ForallOrdPairs disjoint bl /\
    (forall b, b ∈ bl -> exists sz, (b.1.1, sz) ∈ p_header p /\ 0 <= b.1.2 /\ b.1.2 + b.2 <= sz) /\
    NoDup (pool_release p) /\ (forall c sz, (c, sz) ∈ p_header p -> c ∈ pool_release p).
Proof. apply (pool_blocks_disjoint (fun _ => true) [48; 900; 3000; 120]); [done|repeat constructor; lia]. Defined.

(** ** Addresses are not handed out twice *)

(** [a] was handed out before [p]. *)
Definition behind (p : pool) (a : addr) : Prop :=
  (a.1 < p_mallocs p)%nat /\ (p_current p = Some a.1 -> a.2 < p_current_used p).

Definition pool_wf (p : pool) : Prop :=
  (forall c, p_current p = Some c -> (c < p_mallocs p)%nat) /\ (p_current p = None -> p_current_used p = 0).

(** [p'] comes after [p], and the pool is still in order. *)
Definition ext (p p' : pool) : Prop := pool_wf p' /\ forall b, behind p b -> behind p' b.

Lemma ext_refl p : pool_wf p -> ext p p.
Proof. by split. Qed.
Lemma ext_trans p1 p2 p3 : ext p1 p2 -> ext p2 p3 -> ext p1 p3.
Proof. intros [_ H] [W K]. split; auto. Qed.

Lemma alloc_fresh ok p sz p' a : pool_wf p -> 0 <= sz -> pool_alloc ok p sz = (p', Some a) ->
  ext p p' /\ (1 <= sz -> behind p' a /\ ~ behind p a).
Proof.
  intros [W1 W2] Hsz. pose proof (align8_bounds sz ltac:(lia)) as Ha. unfold pool_alloc. fold (align8 sz).
  assert (Hnew : forall sz' q x, pool_newchunk ok p sz' = (q, Some x) -> ext p q /\ (1 <= sz -> behind q x /\ ~ behind p x)).
  { unfold pool_newchunk. intros sz' q x. destruct (ok _); [|done]. intros [= <- <-]. unfold ext, behind, pool_wf. cbn. split_and!.
    - intros c Hc. specialize (W1 c Hc). lia.
    - done.
    - intros [c o]. cbn. intros [? ?]. split; [lia|done].
    - intros _. split_and!; [lia| |intros [? _]; lia]. intros Hc. specialize (W1 _ Hc). lia. }
  assert (Hfresh : forall q x used, pool_newchunk ok p CHUNK_SIZE = (q, Some x) -> 0 <= used ->
    ext p (use_header q used) /\ x = (p_mallocs p, 0) /\ p_current (use_header q used) = Some (p_mallocs p) /\ p_mallocs (use_header q used) = S (p_mallocs p)).
  { unfold pool_newchunk. intros q x used. destruct (ok _); [|done]. intros [= <- <-] Hu. unfold ext, behind, pool_wf. cbn. split_and!; try done.
    - intros c [= <-]. lia.
    - intros [c o]. cbn. intros [? ?]. split; [lia|]. intros [= E]. lia. }
  destruct (Z.leb_spec CHUNK_SIZE (align8 sz)); [by intros ?%Hnew|].
  destruct (p_current p) as [c|] eqn:Ec; cbn [negb].
  - destruct (Z.leb_spec (align8 sz + p_current_used p) CHUNK_SIZE).
    + rewrite Ec. intros [= <- <-]. unfold ext, behind, pool_wf. cbn. rewrite Ec. split_and!; try done.
      * intros [c' o]. cbn. intros [? Hb]. split; [done|]. intros E. specialize (Hb E). lia.
      * intros H1sz. split_and!; [by apply W1|intros _; lia|]. intros [_ Hb]. specialize (Hb eq_refl). lia.
    + destruct (Z.leb_spec (p_current_used p) (align8 sz)); [by intros ?%Hnew|].
      destruct (pool_newchunk ok p CHUNK_SIZE) as [q [x|]] eqn:E; [|done]. intros [= <- <-].
      destruct (Hfresh q x (align8 sz) eq_refl ltac:(lia)) as (He & -> & Hc & Hm). split; [done|]. intros H1sz. split.
      * unfold behind. rewrite Hm, Hc. cbn. split; [lia|]. intros _. lia.
      * unfold behind. cbn. intros [? _]. lia.
  - destruct (pool_newchunk ok p CHUNK_SIZE) as [q [x|]] eqn:E; cbn [negb]; [|done].
    assert (Hq : p_current_used q = 0).
    { unfold pool_newchunk in E. destruct (ok _); [|done]. injection E as <- <-. cbn. auto. }
    destruct (Hfresh q x (p_current_used q) eq_refl ltac:(lia)) as (He & -> & Hc & Hm).
    cbn [use_header p_current_used]. rewrite Hq, Z.add_0_r. destruct (Z.leb_spec (align8 sz) CHUNK_SIZE); [|lia].
    unfold use_header in Hc, Hm, He. cbn [p_current p_mallocs] in Hc, Hm. cbn [p_current p_header use_header p_mallocs]. rewrite Hc.
    intros [= <- <-]. unfold ext, behind, pool_wf in *. cbn in *. rewrite Hm in *. destruct He as [_ He]. split_and!.
    + intros c [= <-]. lia.
    + done.
    + intros [c o] Hb. specialize (He (c, o) Hb). cbn in *. destruct He as [? He]. split; [done|]. intros Heq. rewrite Hc in He. specialize (He Heq). lia.
    + intros H1sz. split_and!; [lia|lia|]. intros [? _]. lia.
Qed.

(** ** What the loader builds *)

Definition byte_list (m : list Z) : Prop := Forall (fun b => 0 <= b < 256) m.

Lemma get_byte m o b : byte_list m -> arr_get m o = Ok b -> 0 <= b < 256.
Proof. intros HB [_ H]%arr_get_inv. by apply (Forall_lookup_1 _ _ _ _ HB H). Qed.

Lemma lor_bytes a b k : 0 <= k -> 0 <= a < 2 ^ k -> 0 <= b < 256 -> Z.lor a (Z.shiftl b k) = a + b * 2 ^ k /\ 0 <= a + b * 2 ^ k < 2 ^ (k + 8).
Proof.
  intros Hk Ha Hb. rewrite Z.shiftl_mul_pow2, lor_disjoint by lia. split; [done|].
  rewrite Z.pow_add_r by lia. change (2 ^ 8) with 256. nia.
Qed.

Lemma toword_range m o w : byte_list m -> toword m o = Ok w -> 0 <= w < 65536.
Proof.
  intros HB H. unfold toword in H. inv_ok.
  pose proof (get_byte _ _ _ HB E). pose proof (get_byte _ _ _ HB E0).
  destruct (lor_bytes r r0 8) as [-> ?]; [lia..|done].
Qed.

Lemma todword_range m o w : byte_list m -> todword m o = Ok w -> 0 <= w < 2 ^ 32.
Proof.
  intros HB H. unfold todword in H. inv_ok.
  pose proof (get_byte _ _ _ HB E). pose proof (get_byte _ _ _ HB E0). pose proof (get_byte _ _ _ HB E1). pose proof (get_byte _ _ _ HB E2).
  destruct (lor_bytes r r0 8) as [-> ?]; [lia..|]. destruct (lor_bytes (r + r0 * 2 ^ 8) r1 16) as [-> ?]; [lia..|].
  destruct (lor_bytes (r + r0 * 2 ^ 8 + r1 * 2 ^ 16) r2 24) as [-> ?]; [lia..|done].
Qed.

(** A field: a basic type without a subtype or a struct with one, perhaps an array. *)
Definition field_ok (type_n : Z) (f : field) : Prop :=
  (exists nm, f_name f = Some nm) /\ 0 <= f_tag f < 0x7fff /\ -1 <= f_key f /\
  exists b, (f_type f = b \/ f_type f = b + SPROTO_TARRAY) /\
    (0 <= b < SPROTO_TSTRUCT /\ f_st f = None \/ b = SPROTO_TSTRUCT /\ exists v, f_st f = Some v /\ 0 <= v < type_n).

(** Tags go up from [last]. *)
Fixpoint ascending (last : Z) (tags : list Z) : Prop :=
  match tags with
  | [] => True
  | t :: tags => last < t /\ ascending t tags
  end.

(** The tags with a hole before them. *)
Fixpoint gaps (last : Z) (tags : list Z) : Z :=
  match tags with
  | [] => 0
  | t :: tags => (if last + 1 <? t then 1 else 0) + gaps t tags
  end.

Record wf_type (type_n : Z) (t : sproto_type) : Prop := {
  wt_name : exists nm, t_name t = Some nm;
  wt_n : t_n t = Z.of_nat (length (t_f t));
  wt_fields : Forall (field_ok type_n) (t_f t);
  wt_asc : ascending (-1) (f_tag <$> t_f t);
  wt_maxn : t_maxn t = t_n t + gaps (-1) (f_tag <$> t_f t);
  wt_base : 0 <= t_base t -> f_tag <$> t_f t = seqZ (t_base t) (t_n t);
  wt_ptrs : NoDup ((fun f => nm_ptr <$> f_name f) <$> t_f t) }.

Definition wf_protocol (type_n : Z) (p : protocol) : Prop :=
  (exists nm, pr_name p = Some nm) /\ 0 <= pr_tag p /\
  (forall v, pr_request p = Some v -> 0 <= v < type_n) /\ (forall v, pr_response p = Some v -> 0 <= v < type_n).

Definition wf_sproto (s : sproto) : Prop :=
  Forall (wf_type (Z.of_nat (length (sp_type s)))) (sp_type s) /\
  Forall (wf_protocol (Z.of_nat (length (sp_type s)))) (sp_proto s).

Lemma import_string_ext ok p m o p' nm : pool_wf p -> byte_list m -> import_string ok p m o = Ok (p', nm) ->
  ext p p' /\ behind p' (nm_ptr nm) /\ ~ behind p (nm_ptr nm).
Proof.
  intros Hp HB H. unfold import_string in H. inv_ok. pose proof (todword_range _ _ _ HB E).
  destruct (pool_alloc ok p (u32 (r + 1))) as [q [a|]] eqn:Ea; [|done]. inv_ok.
  destruct (Z.ltb_spec (u32 (r + 1)) (r + 1)); [done|]. injection H as <- <-. cbn.
  destruct (alloc_fresh ok p (u32 (r + 1)) _ _ Hp ltac:(lia) Ea) as [He Hf]. split; [done|]. apply Hf. lia.
Qed.

(** The locals of [import_field] during its loop. *)
Definition finv (type_n : Z) (p0 : pool) (s : ifield) : Prop :=
  let f := if_f s in
  (f_type f < 0 /\ f_st f = None \/ 0 <= f_type f < SPROTO_TSTRUCT /\ f_st f = None \/
   f_type f = SPROTO_TSTRUCT /\ 2 <= if_tag s /\ exists v, f_st f = Some v /\ 0 <= v < type_n) /\
  (if_array s = 0 \/ if_array s = SPROTO_TARRAY) /\ (-1 <= f_key f /\ f_tag f < 0x7fff) /\ -1 <= if_tag s /\
  ext p0 (if_pool s) /\ (forall nm, f_name f = Some nm -> behind (if_pool s) (nm_ptr nm) /\ ~ behind p0 (nm_ptr nm)).

Lemma even_value v : 0 <= v -> v <> 0 -> Z.odd v = false -> 0 <= v / 2 - 1.
Proof.
  intros. assert (2 <= v); [|pose proof (Z.div_le_mono 2 v 2 ltac:(lia) ltac:(lia)); change (2 / 2) with 1 in *; lia].
  destruct (Z.eq_dec v 1) as [->|]; [done|lia].
Qed.

Lemma import_field_step_inv ok type_n p0 m stream fn i s s' : byte_list m -> pool_wf p0 ->
  finv type_n p0 s -> import_field_step ok type_n m stream fn i s = Ok (Go s') -> finv type_n p0 s'.
Proof.
  intros HB Hp0 HI H. unfold import_field_step in H. apply bind_Ok in H as (value & Hv & H).
  pose proof (toword_range _ _ _ HB Hv) as Hr. pose proof HI as (I1 & I2 & [I3 I3'] & I4 & I5 & I6).
  destruct (Z.odd value) eqn:Eo.
  { injection H as <-. unfold finv. cbn. pose proof (Z.div_pos value 2 ltac:(lia) ltac:(lia)). split_and!; try done; [|lia].
    destruct I1 as [?|[?|(? & ? & ?)]]; [by left|by right; left|]. right. right. split_and!; [done|lia|done]. }
  destruct (Z.eqb_spec (if_tag s + 1) 0).
  { destruct (negb _); [done|]. apply bind_Ok in H as ([p nm] & Hs & H). injection H as <-.
    destruct (import_string_ext _ _ _ _ _ _ (proj1 I5) HB Hs) as (He & Hb & Hn).
    unfold finv. cbn. split_and!; try done; [destruct I1 as [?|[?|(? & ? & ?)]]; [by left|by right; left|lia]|lia|by eapply ext_trans|]. intros nm' [= <-]. split; [done|]. intros Hp. by apply Hn, I5. }
  destruct (Z.eqb_spec value 0); [done|]. pose proof (even_value value ltac:(lia) ltac:(done) Eo) as H2.
  assert (value / 2 < 32768) by (apply Z.div_lt_upper_bound; lia).
  repeat match type of H with
  | (if ?c =? ?d then _ else _) = _ => destruct (Z.eqb_spec c d)
  | (if ?c <=? ?d then _ else _) = _ => destruct (Z.leb_spec c d)
  end; try done; injection H as <-; unfold finv, set_type, set_st, set_tag, set_key; cbn [if_f f_type f_st if_array f_key if_tag if_pool f_name f_tag].
  all: split_and!; try done; try lia.
  all: try (destruct I1 as [?|[?|(? & ? & ?)]]; [by left|by right; left|]; right; right; split_and!; [done|lia|done]).
  - right. left. split; [lia|]. destruct I1 as [[_ ?]|[[_ ?]|(_ & ? & _)]]; [done..|lia].
  - right. right. split_and!; [done|lia|]. exists (value / 2 - 1). split; [done|lia].
  - destruct (negb _); [by right|done].
Qed.

Lemma import_field_loop_inv ok type_n p0 m stream fn k : forall i s s', byte_list m -> pool_wf p0 ->
  finv type_n p0 s -> import_field_loop ok k type_n m stream fn i s = Ok (Go s') -> finv type_n p0 s'.
Proof.
  induction k as [|k IH]; intros i s s' HB Hp HI H; cbn [import_field_loop] in H; [by injection H as <-|].
  apply bind_Ok in H as ([s1|] & Hs & H); [|done]. eapply IH; [done|done| |done]. by eapply import_field_step_inv.
Qed.

Lemma import_field_inv ok type_n p m o f p' o' : byte_list m -> pool_wf p -> import_field ok type_n p m o = Ok (Go (f, p', o')) ->
  field_ok type_n f /\ ext p p' /\ forall nm, f_name f = Some nm -> behind p' (nm_ptr nm) /\ ~ behind p (nm_ptr nm).
Proof.
  intros HB Hp H. unfold import_field in H. apply bind_Ok in H as (sz & _ & H). apply bind_Ok in H as (fn & _ & H).
  destruct (fn <? 0); [done|]. apply bind_Ok in H as ([s|] & Hl & H); [|done].
  apply (import_field_loop_inv ok type_n p) in Hl as (I1 & I2 & [I3 I3'] & I4 & I5 & I6); [|done|done|].
  2:{ unfold finv. cbn. split_and!; [by left|by left|lia|lia|lia|by apply ext_refl|done]. }
  destruct (f_name (if_f s)) as [nm|] eqn:En; [|done].
  destruct (Z.ltb_spec (f_tag (if_f s)) 0); [done|]. destruct (Z.ltb_spec (f_type (if_f s)) 0); [done|]. cbn in H.
  injection H as <- <- <-. split_and!; [|done|cbn; by rewrite En].
  unfold field_ok, set_type. cbn. split_and!; [by exists nm|done|lia|done|].
  exists (f_type (if_f s)). destruct I2 as [-> | ->]; [rewrite Z.lor_0_r; split; [by left|]|split; [right|]].
  - destruct I1 as [?|[?|(? & ? & ?)]]; [lia|by left|by right].
  - assert (0 <= f_type (if_f s) <= 3) as Hr by (unfold SPROTO_TSTRUCT in *; lia).
    change SPROTO_TARRAY with (1 * 2 ^ 7). rewrite lor_disjoint by lia. lia.
  - destruct I1 as [?|[?|(? & ? & ?)]]; [lia|by left|by right].
Qed.

Lemma import_fields_inv ok type_n m k : forall p o last maxn acc fs p' maxn', byte_list m -> pool_wf p ->
  import_fields ok k type_n p m o last maxn acc = Ok (Go (fs, p', maxn')) ->
  (forall f nm, f ∈ acc -> f_name f = Some nm -> behind p (nm_ptr nm)) ->
  NoDup ((fun f => nm_ptr <$> f_name f) <$> acc) ->
  exists new, fs = acc ++ new /\ length new = k /\ Forall (field_ok type_n) new /\ ascending last (f_tag <$> new) /\
    maxn' = maxn + gaps last (f_tag <$> new) /\ ext p p' /\ NoDup ((fun f => nm_ptr <$> f_name f) <$> fs).
Proof.
  induction k as [|k IH]; intros p o last maxn acc fs p' maxn' HB Hp H Hb Hnd; cbn [import_fields] in H.
  - injection H as <- <- <-. exists []. rewrite app_nil_r. cbn. split_and!; [done|done|by constructor|done|lia|by apply ext_refl|done].
  - apply bind_Ok in H as ([[[f q] o']|] & Hf & H); [|done].
    destruct (import_field_inv _ _ _ _ _ _ _ _ HB Hp Hf) as (Fok & Fe & Fn).
    destruct (Z.leb_spec (f_tag f) last); [done|].
    destruct Fok as ((nm & En) & Ft & Fk & Fb). pose proof (Fn nm En) as [Fb1 Fb2].
    apply IH in H as (new & -> & Hl & HF & Ha & -> & He & Hnd').
    + exists (f :: new). rewrite <- app_assoc in *. cbn. split_and!; [done|by f_equal|constructor; [|done]|lia|done| |by eapply ext_trans|done].
      * unfold field_ok. split_and!; try done; try lia. by exists nm.
      * destruct (Z.ltb_spec (last + 1) (f_tag f)); lia.
    + done.
    + by destruct Fe.
    + intros g nm' [Hg|Hg]%elem_of_app Eg; [apply Fe; by eapply Hb|]. apply list_elem_of_singleton in Hg as ->. by apply Fn.
    + rewrite fmap_app. apply NoDup_app. split_and!; [done| |apply NoDup_singleton].
      intros x (g & -> & Hg)%list_elem_of_fmap Hx. apply list_elem_of_singleton in Hx. rewrite En in Hx. cbn in Hx.
      destruct (f_name g) as [nm'|] eqn:Eg; [|done]. cbn in Hx. injection Hx as Hx. apply Fb2. rewrite <- Hx. by eapply Hb.
Qed.

Lemma asc_last l : forall a t, ascending a l -> last (a :: l) = Some t -> a + Z.of_nat (length l) <= t /\
  (t = a + Z.of_nat (length l) -> l = seqZ (a + 1) (Z.of_nat (length l))).
Proof.
  induction l as [|b l IH]; intros a t Ha Hl.
  - cbn in Hl. injection Hl as <-. cbn. split; [lia|done].
  - destruct Ha as [Hab Ha]. rewrite last_cons_cons in Hl. destruct (IH b t Ha Hl) as [H1 H2].
    cbn [length]. rewrite Nat2Z.inj_succ. split; [lia|]. intros E.
    assert (b = a + 1) as -> by lia. rewrite seqZ_cons by lia. f_equal.
    rewrite Z.pred_succ, <- Z.add_1_r. apply H2. lia.
Qed.

Lemma last_fmap {A B} (g : A -> B) l : last (g <$> l) = g <$> last l.
Proof. induction l as [|a [|b l] IH]; [done|done|]. cbn [fmap list_fmap] in *. rewrite !last_cons_cons. exact IH. Qed.

Lemma import_type_inv ok type_n p m o t p' o' : byte_list m -> pool_wf p -> import_type ok type_n p m o = Ok (Go (t, p', o')) ->
  wf_type type_n t /\ ext p p'.
Proof.
  intros HB Hp H. unfold import_type in H. apply bind_Ok in H as (sz & _ & H). apply bind_Ok in H as (fn & _ & H).
  destruct (_ || _); [done|]. apply bind_Ok in H as (zero & _ & H). destruct (negb zero); [done|].
  apply bind_Ok in H as ([p1 nm] & Hs & H). destruct (import_string_ext _ _ _ _ _ _ Hp HB Hs) as (He & _ & _).
  destruct (fn =? 1).
  { injection H as <- <- <-. split; [|done]. split; cbn; try done; [by exists nm|apply NoDup_nil; exact I]. }
  apply bind_Ok in H as (d & _ & H). apply bind_Ok in H as (n & Hn & H). destruct (Z.ltb_spec n 0); [done|].
  destruct (pool_alloc ok p1 (sizeof_field * n)) as [p2 [fa|]] eqn:Ea; [|done].
  assert (He2 : ext p1 p2) by (apply (alloc_fresh ok p1 (sizeof_field * n)) in Ea; [apply Ea|apply He|unfold sizeof_field; lia]).
  apply bind_Ok in H as ([[[fs p3] maxn]|] & Hf & H); [|done].
  apply bind_Ok in H as (first & Hfirst & H). apply bind_Ok in H as (lst & H1 & H). injection H as <- <- <-.
  destruct fs as [|f0 fs]; [done|].
  assert (1 <= n) as Hn1.
  { destruct (Z.to_nat n) eqn:En; [|lia]. cbn in Hf. by injection Hf. }
  apply import_fields_inv in Hf as (new & Hnew & Hl & HF & Ha & -> & He3 & Hnd);
    [|done|apply He2|by intros ? ? ?%elem_of_nil|constructor].
  cbn [app] in Hnew. subst new. cbn in Hfirst. injection Hfirst as <-.
  split; [|eapply ext_trans; [exact He|]; eapply ext_trans; [exact He2|done]].
  split; cbn [t_name t_n t_f t_maxn t_base]; try done; [by exists nm|lia|].
  unfold init_read in H1. destruct (last (f0 :: fs)) as [lst'|] eqn:El; [|done]. injection H1 as ->.
  intros Hb. destruct (Z.eqb_spec (f_tag lst - f_tag f0 + 1) n); cbn [negb] in *; [|lia].
  rewrite fmap_cons in *. destruct Ha as [_ Ha].
  assert (El2 : last (f_tag f0 :: (f_tag <$> fs)) = Some (f_tag lst)).
  { change (f_tag f0 :: (f_tag <$> fs)) with (f_tag <$> (f0 :: fs)). by rewrite last_fmap, El. }
  destruct (asc_last _ _ _ Ha El2) as [_ H2]. rewrite length_fmap in H2. cbn [length] in Hl.
  rewrite seqZ_cons by lia. f_equal. rewrite H2 by lia. f_equal; lia.
Qed.

Lemma import_types_inv ok type_n m k : forall p o acc ts p', byte_list m -> pool_wf p ->
  import_types ok k type_n p m o acc = Ok (Go (ts, p')) -> Forall (wf_type type_n) acc ->
  Forall (wf_type type_n) ts /\ length ts = (length acc + k)%nat /\ ext p p'.
Proof.
  induction k as [|k IH]; intros p o acc ts p' HB Hp H HF; cbn [import_types] in H.
  - injection H as <- <-. split_and!; [done|lia|by apply ext_refl].
  - apply bind_Ok in H as ([[[t q] o']|] & Ht & H); [|done].
    destruct (import_type_inv _ _ _ _ _ _ _ _ HB Hp Ht) as [Hw He].
    apply IH in H as (H1 & H2 & H3); [|done|apply He|apply Forall_app; split; [done|by constructor]].
    rewrite length_app in H2. cbn in H2. split_and!; [done|lia|by eapply ext_trans].
Qed.

Definition pinv_partial (type_n : Z) (s : protocol * pool) : Prop :=
  (forall v, pr_request s.1 = Some v -> 0 <= v < type_n) /\ (forall v, pr_response s.1 = Some v -> 0 <= v < type_n) /\ pool_wf s.2.

Lemma import_protocol_step_inv ok type_n m stream fn i s s' : byte_list m ->
  pinv_partial type_n s -> import_protocol_step ok type_n m stream fn i s = Ok (Go s') -> pinv_partial type_n s'.
Proof.
  intros HB (I1 & I2 & I3) H. destruct s as [p mem]. unfold import_protocol_step in H. apply bind_Ok in H as (value & Hv & H).
  destruct (Z.odd value); [by injection H as <-|].
  destruct (i =? 0).
  { destruct (value / 2 - 1 =? -1); [|done]. cbn [negb] in H. apply bind_Ok in H as ([mem' nm] & Hs & H). injection H as <-.
    destruct (import_string_ext _ _ _ _ _ _ I3 HB Hs) as ([He _] & _). by split_and!. }
  destruct (i =? 1).
  { destruct (value / 2 - 1 <? 0); [done|]. injection H as <-. by split_and!. }
  destruct (Z.ltb_spec (value / 2 - 1) 0), (Z.leb_spec type_n (value / 2 - 1)); cbn [orb] in H;
    destruct (i =? 2), (i =? 3); try done; injection H as <-; split_and!; try done; cbn; intros v [= <-]; lia.
Qed.

Lemma import_protocols_inv ok type_n m k : forall p o acc ts p', byte_list m -> pool_wf p ->
  import_protocols ok k type_n p m o acc = Ok (Go (ts, p')) -> Forall (wf_protocol type_n) acc -> Forall (wf_protocol type_n) ts.
Proof.
  induction k as [|k IH]; intros p o acc ts p' HB Hp H HF; cbn [import_protocols] in H; [by injection H as <- <-|].
  apply bind_Ok in H as ([[[t q] o']|] & Ht & H); [|done]. unfold import_protocol in Ht.
  apply bind_Ok in Ht as (sz & _ & Ht). apply bind_Ok in Ht as (fn & _ & Ht).
  apply bind_Ok in Ht as ([[pr mem]|] & Hl & Ht); [|done].
  assert (HI : pinv_partial type_n (pr, mem)).
  { revert Hl. generalize 0 at 1. generalize fn at 2. set (s0 := (_, p)).
    assert (H0 : pinv_partial type_n s0) by (by split_and!). revert H0. generalize s0.
    induction (Z.to_nat fn) as [|k' IHk]; intros s H0 fn' i Hl; cbn [import_protocol_loop] in Hl; [by injection Hl as ->|].
    apply bind_Ok in Hl as ([s1|] & Hs & Hl); [|done]. eapply IHk; [|done]. by eapply import_protocol_step_inv. }
  destruct HI as (I1 & I2 & I3). destruct (pr_name pr) as [nm|] eqn:En; [|done]. destruct (Z.ltb_spec (pr_tag pr) 0); [done|].
  injection Ht as <- <- <-. eapply IH; [done|done|done|]. apply Forall_app. split; [done|]. constructor; [|done].
  split_and!; [by exists nm|done|done|done].
Qed.

Definition binv (b : bundle) : Prop := pool_wf (b_pool b) /\ 0 <= b_type_n b /\ (b_typedata b = None -> b_type_n b = 0).

Lemma bundle_loop_inv ok m stream k : forall i b b', binv b -> bundle_loop ok k m stream i b = Ok (Go b') -> binv b'.
Proof.
  induction k as [|k IH]; intros i b b' (H0 & H1 & H2) Hb; cbn [bundle_loop] in Hb; [injection Hb as <-; by split_and!|].
  apply bind_Ok in Hb as (v & _ & Hb). destruct (negb _); [done|]. apply bind_Ok in Hb as (n & _ & Hb). destruct (Z.ltb_spec n 0); [done|].
  apply bind_Ok in Hb as (d & _ & Hb).
  destruct (i =? 0);
    match type of Hb with context [pool_alloc ok ?q ?z] => destruct (pool_alloc ok q z) as [q' [a'|]] eqn:Eq end; try done;
    (eapply IH; [|exact Hb]);
    (apply alloc_fresh in Eq as ([? _] & _); [|done|unfold sizeof_sproto_type, sizeof_protocol; lia]); by split_and!.
Qed.

Lemma create_wf ok m sz s :
  byte_list m -> sproto_create ok m sz = Ok (Some s) -> wf_sproto s.
Proof.
  intros HB H. unfold sproto_create in H.
  destruct (pool_alloc ok pool_init sizeof_sproto) as [mem [a|]] eqn:Ea; [|done].
  apply alloc_fresh in Ea as ([Hw _] & _); [|by split|done].
  apply bind_Ok in H as ([s'|] & Hc & H); [|done]. injection H as <-. unfold create_from_bundle in Hc.
  apply bind_Ok in Hc as (fn & _ & Hc). destruct (_ || _); [done|]. apply bind_Ok in Hc as ([b|] & Hb & Hc); [|done].
  apply bundle_loop_inv in Hb as (Hb1 & Hb2 & Hb3); [|by split_and!].
  apply bind_Ok in Hc as ([[types p]|] & Ht & Hc); [|done]. apply bind_Ok in Hc as ([[protos q]|] & Hpr & Hc); [|done]. injection Hc as <-.
  assert (Hty : Forall (wf_type (b_type_n b)) types /\ Z.of_nat (length types) = b_type_n b /\ pool_wf p).
  { destruct (b_typedata b) as [o|].
    - apply import_types_inv in Ht as (? & Hl & [? _]); [|done|done|constructor]. cbn in Hl. split_and!; [done|lia|done].
    - injection Ht as <- <-. rewrite Hb3 by done. by split_and!. }
  destruct Hty as (H1 & H2 & H3). unfold wf_sproto. cbn [sp_type sp_proto]. rewrite H2. split; [done|].
  destruct (b_protocoldata b) as [o|]; [|injection Hpr as <- <-; constructor].
  apply import_protocols_inv in Hpr; [done|done|done|constructor].
Qed.

(** C36. [sproto_create] accepts only well-formed schemas: every field has a name
    and a type, a struct field refers to a type of the schema, the tags of a type
    go up, [maxn] counts its fields and the holes between their tags, [base] is
    set only when the tags are consecutive, and the names of the fields of a type
    are at different addresses. *)
Theorem sproto_create_wf ok m sz s :
  byte_list m -> sproto_create ok m sz = Ok (Some s) -> wf_sproto s.
Proof. apply create_wf. Qed.

(** ** The searches *)

Lemma asc_lookup l : forall last i j a b, ascending last l -> (i < j)%nat -> l !! i = Some a -> l !! j = Some b -> a < b.
Proof.
  assert (Hlow : forall l' last i a, ascending last l' -> l' !! i = Some a -> last < a).
  { intros l'. induction l' as [|x m IH]; intros last i a Ha Hi; [done|]. destruct Ha as [? Ha]. destruct i as [|i]; [by injection Hi as <-|].
    specialize (IH x i a Ha Hi). lia. }
  induction l as [|x m IH]; intros last i j a b Ha Hij Hi Hj; [done|]. destruct Ha as [? Ha].
  destruct j as [|j]; [lia|]. destruct i as [|i].
  - injection Hi as <-. by eapply Hlow.
  - eapply (IH x i j); [done|lia|done|done].
Qed.

Lemma tag_search_ok tags tag last : ascending last tags -> forall fuel b e,
  0 <= b -> b <= e <= Z.of_nat (length tags) -> e - b < Z.of_nat fuel ->
  (forall i t, tags !! i = Some t -> Z.of_nat i < b -> t < tag) -> (forall i t, tags !! i = Some t -> e <= Z.of_nat i -> tag < t) ->
  exists r, tag_search fuel tags tag b e = Ok r /\
    match r with Some i => 0 <= i /\ tags !! Z.to_nat i = Some tag | None => tag ∉ tags end.
Proof.
  intros Ha. induction fuel as [|fuel IH]; intros b e Hb He Hf Hlo Hhi; [lia|]. cbn [tag_search].
  destruct (Z.ltb_spec b e) as [Hbe|Hbe].
  - assert (Hm : b <= (b + e) / 2 < e) by (split; [apply Z.div_le_lower_bound|apply Z.div_lt_upper_bound]; lia).
    destruct (lookup_lt_is_Some_2 tags (Z.to_nat ((b + e) / 2))) as [t Ht]; [lia|].
    rewrite (arr_get_ok _ _ t) by (done || lia). rewrite bind_ret. destruct (Z.eqb_spec t tag) as [->|Hne].
    + eexists. split; [done|]. split; [lia|done].
    + destruct (Z.ltb_spec t tag).
      * apply IH; [lia|lia|lia| |done]. intros i t' Hi Hlt.
        destruct (decide (i = Z.to_nat ((b + e) / 2))) as [->|]; [rewrite Ht in Hi; injection Hi as <-; lia|].
        pose proof (asc_lookup tags last i (Z.to_nat ((b + e) / 2)) t' t Ha ltac:(lia) Hi Ht). lia.
      * apply IH; [lia|lia|lia|done|]. intros i t' Hi Hge.
        destruct (decide (i = Z.to_nat ((b + e) / 2))) as [->|]; [rewrite Ht in Hi; injection Hi as <-; lia|].
        pose proof (asc_lookup tags last (Z.to_nat ((b + e) / 2)) i t t' Ha ltac:(lia) Ht Hi). lia.
  - eexists. split; [done|]. cbn. intros (i & Hi)%list_elem_of_lookup. destruct (Z.lt_ge_cases (Z.of_nat i) b).
    + specialize (Hlo i tag Hi ltac:(lia)). lia.
    + specialize (Hhi i tag Hi ltac:(lia)). lia.
Qed.

(** The field with a tag, if there is one: the tags of a type are distinct. *)
Definition field_of (t : sproto_type) (tag : Z) : option field := snd <$> list_find (fun f => f_tag f = tag) (t_f t).

Lemma field_of_unique type_n t i f : wf_type type_n t -> t_f t !! i = Some f -> field_of t (f_tag f) = Some f.
Proof.
  intros W Hi. unfold field_of. destruct (list_find (fun g => f_tag g = f_tag f) (t_f t)) as [[j g]|] eqn:E.
  - apply list_find_Some in E as (Hj & Hg & _). cbn. f_equal.
    destruct (decide (i = j)) as [->|Hne]; [congruence|]. exfalso.
    assert (Hti : (f_tag <$> t_f t) !! i = Some (f_tag f)) by (by rewrite list_lookup_fmap, Hi).
    assert (Htj : (f_tag <$> t_f t) !! j = Some (f_tag g)) by (by rewrite list_lookup_fmap, Hj).
    destruct (Nat.lt_ge_cases i j).
    + pose proof (asc_lookup _ _ i j _ _ (wt_asc _ _ W) ltac:(lia) Hti Htj). lia.
    + pose proof (asc_lookup _ _ j i _ _ (wt_asc _ _ W) ltac:(lia) Htj Hti). lia.
  - apply list_find_None in E. rewrite Forall_forall in E. exfalso. apply (E f); [by eapply list_elem_of_lookup_2|done].
Qed.

Lemma field_of_none t tag : tag ∉ f_tag <$> t_f t -> field_of t tag = None.
Proof.
  intros H. unfold field_of. destruct (list_find _ _) as [[j g]|] eqn:E; [|done].
  apply list_find_Some in E as (Hj & Hg & _). exfalso. apply H. apply list_elem_of_fmap. exists g. split; [done|]. by eapply list_elem_of_lookup_2.
Qed.

(** Indexing where the tags are consecutive, bisection where they are not. *)
Lemma findtag_ok type_n t tag : wf_type type_n t -> findtag t tag = Ok (field_of t tag).
Proof.
  intros W. unfold findtag. pose proof (wt_n _ _ W) as Hn. destruct (Z.leb_spec 0 (t_base t)) as [Hb|Hb].
  - pose proof (wt_base _ _ W Hb) as Hs. destruct (Z.ltb_spec (tag - t_base t) 0), (Z.leb_spec (t_n t) (tag - t_base t)); cbn [orb].
    1-3: rewrite field_of_none; [done|]; rewrite Hs, elem_of_seqZ; lia.
    destruct (lookup_lt_is_Some_2 (t_f t) (Z.to_nat (tag - t_base t))) as [f Hf]; [lia|].
    rewrite (arr_get_ok _ _ f) by (done || lia). rewrite bind_ret.
    assert (f_tag f = tag) as Ht.
    { assert (E : (f_tag <$> t_f t) !! Z.to_nat (tag - t_base t) = Some (f_tag f)) by (by rewrite list_lookup_fmap, Hf).
      rewrite Hs in E. apply lookup_seqZ in E. lia. }
    do 2 f_equal. rewrite <- Ht. symmetry. by eapply field_of_unique.
  - destruct (tag_search_ok (f_tag <$> t_f t) tag (-1) (wt_asc _ _ W) (S (Z.to_nat (t_n t))) 0 (t_n t)) as (r & -> & Hr);
      [lia|rewrite length_fmap; lia|lia|lia|intros i x Hi%lookup_lt_Some; rewrite length_fmap in Hi; lia|].
    rewrite bind_ret. destruct r as [i|]; [|by rewrite field_of_none].
    destruct Hr as [Hi Hr]. rewrite list_lookup_fmap in Hr. destruct (t_f t !! Z.to_nat i) as [f|] eqn:Hf; [|done]. injection Hr as <-.
    rewrite (arr_get_ok _ _ f) by done. rewrite bind_ret. do 2 f_equal. symmetry. by eapply field_of_unique.
Qed.

(** [findtag] finds the field of a tag when the type has one and nothing
    otherwise, by indexing where the tags are consecutive and by bisection where
    they are not. *)
Theorem findtag_is_lookup type_n t tag : wf_type type_n t -> findtag t tag = Ok (field_of t tag).
Proof. apply findtag_ok. Qed.

(** Protocols sorted by their tags: [query_proto] finds every one. *)
Lemma query_proto_ok sp tag last : ascending last (pr_tag <$> sp_proto sp) ->
  exists r, query_proto sp tag = Ok r /\
    match r with Some p => p ∈ sp_proto sp /\ pr_tag p = tag | None => tag ∉ pr_tag <$> sp_proto sp end.
Proof.
  intros Ha. unfold query_proto.
  destruct (tag_search_ok _ tag last Ha (S (length (sp_proto sp))) 0 (Z.of_nat (length (sp_proto sp)))) as (r & -> & Hr);
    [lia|rewrite length_fmap; lia|lia|lia|intros i x Hi%lookup_lt_Some; rewrite length_fmap in Hi; lia|].
  rewrite bind_ret. destruct r as [i|]; [|by eexists].
  destruct Hr as [Hi Hr]. rewrite list_lookup_fmap in Hr. destruct (sp_proto sp !! Z.to_nat i) as [p|] eqn:Hp; [|done]. injection Hr as <-.
  rewrite (arr_get_ok _ _ p) by done. rewrite bind_ret. eexists. split; [done|]. split; [by eapply list_elem_of_lookup_2|done].
Qed.

(** ** The loader stays inside the binary form *)

(** It returns, or it reads the first field of a type that declares none. *)
Definition fine {A} (m : outcome A) (P : A -> Prop) : Prop :=
  match m with Ok a => P a | Fault f => f = Uninitialised end.

Lemma fine_bind {A B} (m : outcome A) (k : A -> outcome B) P Q :
  fine m P -> (forall a, P a -> fine (k a) Q) -> fine (m ≫= k) Q.
Proof. destruct m; cbn; auto. Qed.

(** No length in the binary form is within four of [2^32]. *)
Definition no_wrap (m : list Z) : Prop := forall o d, todword m o = Ok d -> d < 2 ^ 32 - 4.

Definition inb (m : list Z) (o n : Z) : Prop := 0 <= o /\ 0 <= n /\ o + n <= Z.of_nat (length m).

(** An array of [n] elements, each behind its length, fills [len] bytes at [o]. *)
Inductive walk (m : list Z) : Z -> Z -> nat -> Prop :=
  | walk_nil o : walk m o 0 0
  | walk_cons o len n d : todword m o = Ok d -> 0 <= d -> 4 + d <= len -> walk m (o + 4 + d) (len - 4 - d) n -> walk m o len (S n).

Section Loader.
Context (ok : nat -> bool) (m : list Z).
Hypothesis Hok : forall n, ok n = true.
Hypothesis HB : byte_list m.
Hypothesis HW : no_wrap m.

Lemma get_in o : 0 <= o < Z.of_nat (length m) -> exists b, arr_get m o = Ok b.
Proof.
  intros Ho. destruct (lookup_lt_is_Some_2 m (Z.to_nat o)) as [b Hb]; [lia|]. exists b. by apply arr_get_ok; [lia|].
Qed.

Lemma word_in o : inb m o 2 -> exists w, toword m o = Ok w /\ 0 <= w < 65536.
Proof.
  intros (H1 & _ & H2). unfold toword. destruct (get_in o) as [a Ea]; [lia|]. destruct (get_in (o + 1)) as [b Eb]; [lia|].
  eexists. split; [by rewrite Ea, Eb|]. apply (toword_range m o); [done|]. unfold toword. by rewrite Ea, Eb.
Qed.

Lemma dword_in o : inb m o 4 -> exists d, todword m o = Ok d /\ 0 <= d < 2 ^ 32 - 4.
Proof.
  intros (H1 & _ & H2). destruct (get_in o) as [a Ea]; [lia|]. destruct (get_in (o + 1)) as [b Eb]; [lia|].
  destruct (get_in (o + 2)) as [c Ec]; [lia|]. destruct (get_in (o + 3)) as [e Ee]; [lia|].
  assert (E : exists d, todword m o = Ok d) by (eexists; unfold todword; by rewrite Ea, Eb, Ec, Ee).
  destruct E as [d E]. exists d. split; [done|]. pose proof (todword_range _ _ _ HB E). pose proof (HW _ _ E). lia.
Qed.

Lemma u32_plus d k : 0 <= d < 2 ^ 32 - 4 -> 0 <= k <= 4 -> u32 (d + k) = d + k.
Proof. intros. unfold u32. apply Z.mod_small. lia. Qed.

Lemma count_loop_in fuel : forall o len n, inb m o len -> len < Z.of_nat fuel -> 0 <= n ->
  exists n', count_loop fuel m o len n = Ok n' /\ (n' = -1 \/ n <= n' /\ walk m o len (Z.to_nat (n' - n))).
Proof.
  induction fuel as [|fuel IH]; intros o len n Hin Hf Hn; [destruct Hin; lia|]. cbn [count_loop].
  destruct (Z.ltb_spec 0 len).
  - destruct (Z.ltb_spec len SIZEOF_LENGTH); [eexists; split; [done|by left]|]. unfold SIZEOF_LENGTH in *.
    destruct Hin as (H1 & H2 & H3). destruct (dword_in o) as (d & Ed & Hd); [split_and!; lia|]. rewrite Ed, bind_ret, u32_plus by lia. cbv zeta.
    destruct (Z.ltb_spec len (d + 4)); [eexists; split; [done|by left]|].
    destruct (IH (o + (d + 4)) (len - (d + 4)) (n + 1)) as (n' & -> & Hn'); [split_and!; lia|lia|lia|].
    exists n'. split; [done|]. destruct Hn' as [?|[? Hw]]; [by left|]. right. split; [lia|].
    replace (Z.to_nat (n' - n)) with (S (Z.to_nat (n' - (n + 1)))) by lia.
    apply walk_cons with d; [done|lia|lia|]. by replace (o + 4 + d) with (o + (d + 4)) by lia; replace (len - 4 - d) with (len - (d + 4)) by lia.
  - exists n. split; [done|]. right. split; [lia|]. destruct Hin. replace len with 0 by lia. rewrite Z.sub_diag. constructor.
Qed.

Lemma count_array_in o d : todword m o = Ok d -> inb m o (4 + d) -> 0 <= d ->
  exists n, count_array m o = Ok n /\ (n = -1 \/ 0 <= n /\ walk m (o + 4) d (Z.to_nat n)).
Proof.
  intros Ed (H1 & H2 & H3) H0. unfold count_array. rewrite Ed, bind_ret. unfold SIZEOF_LENGTH.
  destruct (count_loop_in (S (length m)) (o + 4) d 0) as (n & -> & Hn); [split_and!; lia|lia|lia|]. rewrite Z.sub_0_r in Hn. eauto.
Qed.

Lemma fields_loop_in k : forall field i o sz, 0 <= i -> inb m field (2 * (i + Z.of_nat k)) -> inb m o sz ->
  exists b, fields_loop k m field i o sz = Ok b.
Proof.
  induction k as [|k IH]; intros field i o sz Hi Hf Ho; cbn [fields_loop]; [by eexists|]. unfold SIZEOF_FIELD, SIZEOF_LENGTH.
  destruct Hf as (F1 & F2 & F3). destruct Ho as (H1 & H2 & H3).
  destruct (word_in (field + i * 2)) as (v & -> & Hv); [split_and!; lia|]. rewrite bind_ret.
  destruct (negb _); [apply IH; [lia|split_and!; lia|done]|]. destruct (Z.ltb_spec sz 4); [by eexists|].
  destruct (dword_in o) as (d & -> & Hd); [split_and!; lia|]. rewrite bind_ret, Z.add_comm, u32_plus by lia. cbv zeta.
  destruct (Z.ltb_spec sz (d + 4)); [by eexists|]. apply IH; [lia|split_and!; lia|split_and!; lia].
Qed.

(** The data of a field whose word is zero. *)
Lemma fields_loop_zero k field i o sz : inb m o sz -> fields_loop (S k) m field i o sz = Ok true ->
  toword m (field + i * 2) = Ok 0 ->
  exists d, todword m o = Ok d /\ 0 <= d /\ inb m o (4 + d) /\ inb m (o + 4 + d) (sz - 4 - d) /\
    fields_loop k m field (i + 1) (o + 4 + d) (sz - 4 - d) = Ok true.
Proof.
  intros (H1 & H2 & H3) H Hv. cbn [fields_loop] in H. unfold SIZEOF_FIELD, SIZEOF_LENGTH in H. rewrite Hv, bind_ret in H. cbn [negb Z.eqb] in H.
  destruct (Z.ltb_spec sz 4); [done|]. destruct (dword_in o) as (d & Ed & Hd); [split_and!; lia|].
  rewrite Ed, bind_ret, Z.add_comm, u32_plus in H by lia. cbv zeta in H. destruct (Z.ltb_spec sz (d + 4)); [done|].
  exists d. split_and!; [done|lia|split_and!; lia|split_and!; lia|].
  by replace (o + 4 + d) with (o + (d + 4)) by lia; replace (sz - 4 - d) with (sz - (d + 4)) by lia.
Qed.

Lemma struct_field_in o sz : inb m o sz -> exists fn, struct_field m o sz = Ok fn /\
  (fn = -1 \/ 0 <= fn /\ 2 + 2 * fn <= sz /\ fields_loop (Z.to_nat fn) m (o + 2) 0 (o + (2 + 2 * fn)) (sz - (2 + 2 * fn)) = Ok true).
Proof.
  intros (H1 & H2 & H3). unfold struct_field, SIZEOF_LENGTH, SIZEOF_HEADER, SIZEOF_FIELD.
  destruct (Z.ltb_spec sz 4); [eexists; split; [done|by left]|]. destruct (word_in o) as (fn & -> & Hfn); [split_and!; lia|]. rewrite bind_ret. cbv zeta.
  destruct (Z.ltb_spec sz (2 + 2 * fn)); [eexists; split; [done|by left]|].
  destruct (fields_loop_in (Z.to_nat fn) (o + 2) 0 (o + (2 + 2 * fn)) (sz - (2 + 2 * fn))) as [b Eb]; [lia|split_and!; lia|split_and!; lia|].
  rewrite Eb, bind_ret. destruct b; eexists; (split; [done|]); [right|by left]. split_and!; [lia|lia|done].
Qed.

Lemma alloc_total p sz p' : pool_alloc ok p sz <> (p', None).
Proof.
  unfold pool_alloc. destruct (_ <=? _); [by rewrite newchunk_eq|].
  destruct (p_current p) as [c|] eqn:Ec; cbn [negb].
  - destruct (_ <=? _); [by rewrite Ec|]. destruct (_ <=? _); by rewrite newchunk_eq.
  - rewrite newchunk_eq by done. cbn [negb use_header p_header p_current head fmap option_fmap option_map fst].
    destruct (_ <=? _); [done|]. cbn [p_current_used]. destruct (_ <=? _); by rewrite newchunk_eq.
Qed.

Lemma import_string_in p o d : todword m o = Ok d -> 0 <= d -> inb m o (4 + d) -> pool_wf p ->
  exists p' nm, import_string ok p m o = Ok (p', nm) /\ pool_wf p'.
Proof.
  intros Ed H0 (H1 & H2 & H3) Hp. pose proof (HW _ _ Ed). unfold import_string. rewrite Ed, bind_ret, u32_plus by lia.
  destruct (pool_alloc ok p (d + 1)) as [p' [a|]] eqn:Ea.
  - assert (Hr : exists b, mem_read m (o + SIZEOF_LENGTH) d = Ok b).
    { unfold mem_read, SIZEOF_LENGTH. destruct (Z.ltb_spec (o + 4) 0); [lia|]. destruct (Z.ltb_spec d 0); [lia|].
      destruct (Z.ltb_spec (Z.of_nat (length m)) (o + 4 + d)); [lia|]. by eexists. }
    destruct Hr as [b ->]. rewrite bind_ret. destruct (Z.ltb_spec (d + 1) (d + 1)); [lia|]. do 2 eexists. split; [done|].
    apply alloc_fresh in Ea as ([? _] & _); [done|done|lia].
  - by destruct (alloc_total p (d + 1) p').
Qed.

(** The loop of [import_field]: the name is the first field, and its data the
    first data. *)
Lemma import_field_loop_in type_n p0 o fn d0 k : forall i s,
  0 <= i -> i + Z.of_nat k = fn -> inb m o (2 * fn) -> finv type_n p0 s -> i - 1 <= if_tag s -> pool_wf p0 ->
  (i = 0 -> toword m o = Ok 0 -> todword m (o + fn * 2) = Ok d0 /\ 0 <= d0 /\ inb m (o + fn * 2) (4 + d0)) ->
  exists r, import_field_loop ok k type_n m o fn i s = Ok r.
Proof.
  induction k as [|k IH]; intros i s Hi Hk Hin HI Ht Hp0 Hdata; cbn [import_field_loop]; [by eexists|].
  assert (Hs : exists r, import_field_step ok type_n m o fn i s = Ok r).
  { unfold import_field_step, SIZEOF_FIELD. destruct Hin as (H1 & H2 & H3).
    destruct (word_in (o + 2 * i)) as (v & Ev & Hv); [split_and!; lia|]. rewrite Ev, bind_ret.
    destruct (Z.odd v); [by eexists|]. destruct (Z.eqb_spec (if_tag s + 1) 0).
    - destruct (Z.eqb_spec v 0) as [->|]; [|by eexists]. cbn [negb]. assert (i = 0) as -> by lia.
      rewrite Z.mul_0_r, Z.add_0_r in Ev. destruct (Hdata eq_refl Ev) as (Ed & Hd & Hinb).
      destruct HI as (_ & _ & _ & _ & [Hw _] & _).
      destruct (import_string_in (if_pool s) (o + fn * 2) d0 Ed Hd Hinb Hw) as (p' & nm & -> & _). by eexists.
    - repeat match goal with |- exists r, (if ?c then _ else _) = _ => destruct c end; by eexists. }
  destruct Hs as [[s'|] Es]; rewrite Es, bind_ret; [|by eexists].
  apply IH; [lia|lia|done|by eapply import_field_step_inv| |done|lia].
  unfold import_field_step in Es. apply bind_Ok in Es as (v & Ev & Es). pose proof (toword_range _ _ _ HB Ev).
  pose proof (Z.div_pos v 2 ltac:(lia) ltac:(lia)).
  destruct (Z.odd v); [injection Es as <-; cbn; lia|].
  repeat match type of Es with
  | (if ?c then _ else _) = _ => destruct c
  | (_ ≫= _) = _ => apply bind_Ok in Es as ([? ?] & _ & Es)
  end; try done; injection Es as <-; cbn; lia.
Qed.

Lemma import_field_in type_n p o d : todword m o = Ok d -> 0 <= d -> inb m o (4 + d) -> pool_wf p ->
  exists r, import_field ok type_n p m o = Ok r /\ forall f p' o', r = Go (f, p', o') -> o' = o + 4 + d /\ pool_wf p'.
Proof.
  intros Ed H0 (H1 & H2 & H3) Hp. assert (Hpost : forall f p' o', import_field ok type_n p m o = Ok (Go (f, p', o')) -> o' = o + 4 + d /\ pool_wf p').
  { intros f p' o' H. split; [|by apply (import_field_inv ok type_n p m o f p' o' HB Hp H)].
    unfold import_field in H. rewrite Ed, bind_ret in H. apply bind_Ok in H as (fn & _ & H). destruct (fn <? 0); [done|].
    apply bind_Ok in H as ([s|] & _ & H); [|done]. repeat case_match; try done. unfold SIZEOF_LENGTH in H. injection H as <- <- <-. lia. }
  assert (H : exists r, import_field ok type_n p m o = Ok r); [|destruct H as [r Er]; exists r; split; [done|]; intros; subst r; by eapply Hpost].
  clear Hpost. unfold import_field. rewrite Ed, bind_ret. unfold SIZEOF_LENGTH. cbv zeta.
  destruct (struct_field_in (o + 4) d) as (fn & -> & Hfn); [split_and!; lia|]. rewrite bind_ret.
  destruct (Z.ltb_spec fn 0); [by eexists|]. destruct Hfn as [|(Hf0 & Hf1 & Hf2)]; [lia|]. unfold SIZEOF_HEADER.
  assert (Hdata : toword m (o + 4 + 2) = Ok 0 -> exists d0, 0 < fn -> todword m (o + 4 + 2 + fn * 2) = Ok d0 /\ 0 <= d0 /\ inb m (o + 4 + 2 + fn * 2) (4 + d0)).
  { intros Hz. destruct (Z.to_nat fn) as [|k] eqn:Ek; [exists 0; lia|].
    destruct (fields_loop_zero k (o + 4 + 2) 0 (o + 4 + (2 + 2 * fn)) (d - (2 + 2 * fn))) as (d0 & E0 & Hd0 & Hi0 & _);
      [split_and!; lia|done|by rewrite Z.add_0_r|]. exists d0. intros _. replace (o + 4 + 2 + fn * 2) with (o + 4 + (2 + 2 * fn)) by lia. done. }
  assert (Hl : exists r, import_field_loop ok (Z.to_nat fn) type_n m (o + 4 + 2) fn 0
     {| if_f := {| f_tag := -1; f_type := -1; f_name := None; f_st := None; f_key := -1 |}; if_array := 0; if_tag := -1; if_pool := p |} = Ok r).
  { destruct (Z.to_nat fn) as [|k] eqn:Ek; [by eexists|].
    destruct (word_in (o + 4 + 2)) as (v & Ev & _); [split_and!; lia|].
    assert (Hd0 : exists d0, 0 = 0 -> toword m (o + 4 + 2) = Ok 0 -> todword m (o + 4 + 2 + fn * 2) = Ok d0 /\ 0 <= d0 /\ inb m (o + 4 + 2 + fn * 2) (4 + d0)).
    { destruct (Z.eq_dec v 0) as [->|]; [destruct (Hdata Ev) as [d0 Hd0]; exists d0; intros; apply Hd0; lia|]. exists 0. intros _. rewrite Ev. congruence. }
    destruct Hd0 as [d0 Hd0]. apply (import_field_loop_in type_n p (o + 4 + 2) fn d0); [lia|lia|split_and!; lia| |cbn; lia|done|done].
    unfold finv. cbn. split_and!; [by left|by left|lia|lia|lia|by apply ext_refl|done]. }
  destruct Hl as [[s|] ->]; rewrite bind_ret; [|by eexists]. destruct (f_name _); [|by eexists]. destruct (_ || _); by eexists.
Qed.

Lemma import_fields_in type_n o len k : walk m o len k -> forall p last maxn acc, inb m o len -> pool_wf p ->
  exists r, import_fields ok k type_n p m o last maxn acc = Ok r.
Proof.
  induction 1 as [|o len k d Ed H0 Hle _ IH]; intros p last maxn acc (H1 & H2 & H3) Hp; cbn [import_fields]; [by eexists|].
  destruct (import_field_in type_n p o d Ed H0) as (r & -> & Hr); [split_and!; lia|done|]. rewrite bind_ret.
  destruct r as [[[f q] o']|]; [|by eexists]. destruct (Hr f q o' eq_refl) as [-> Hq]. destruct (_ <=? _); [by eexists|].
  apply IH; [split_and!; lia|done].
Qed.

Lemma import_fields_go type_n p o last maxn k fs q maxn' : pool_wf p -> import_fields ok k type_n p m o last maxn [] = Ok (Go (fs, q, maxn')) ->
  length fs = k /\ pool_wf q.
Proof.
  intros Hp H. apply import_fields_inv in H as (new & -> & Hl & _ & _ & _ & [Hq _] & _); [done|done|done|by intros ? ? ?%elem_of_nil|apply NoDup_nil; exact I].
Qed.

Lemma zero_fields_in k : forall o, inb m o (2 * Z.of_nat k) ->
  exists b, zero_fields k m o = Ok b /\ (b = true -> forall i, (i < k)%nat -> toword m (o + Z.of_nat i * 2) = Ok 0).
Proof.
  induction k as [|k IH]; intros o (H1 & H2 & H3); cbn [zero_fields]; [exists true; split; [done|]; lia|].
  destruct (word_in o) as (v & Ev & _); [split_and!; lia|]. rewrite Ev, bind_ret. destruct (Z.eqb_spec v 0) as [->|]; cbn [negb]; [|by exists false].
  destruct (IH (o + SIZEOF_FIELD)) as (b & -> & Hb); [unfold SIZEOF_FIELD; split_and!; lia|]. exists b. split; [done|].
  intros -> i Hi. destruct i as [|i]; [by rewrite Z.add_0_r|]. replace (o + Z.of_nat (S i) * 2) with (o + SIZEOF_FIELD + Z.of_nat i * 2) by (unfold SIZEOF_FIELD; lia).
  apply Hb; [done|lia].
Qed.

Lemma import_type_in type_n p o d : todword m o = Ok d -> 0 <= d -> inb m o (4 + d) -> pool_wf p ->
  fine (import_type ok type_n p m o) (fun r => forall t p' o', r = Go (t, p', o') -> o' = o + 4 + d /\ pool_wf p').
Proof.
  intros Ed H0 (H1 & H2 & H3) Hp. unfold import_type. rewrite Ed, bind_ret. unfold SIZEOF_LENGTH, SIZEOF_HEADER, SIZEOF_FIELD. cbv zeta.
  destruct (struct_field_in (o + 4) d) as (fn & -> & Hfn); [split_and!; lia|]. rewrite bind_ret.
  destruct (Z.leb_spec fn 0); [done|]. destruct (Z.ltb_spec 2 fn); [done|]. cbn [orb]. destruct Hfn as [|(Hf0 & Hf1 & Hf2)]; [lia|].
  destruct (zero_fields_in (Z.to_nat fn) (o + 4 + 2)) as (b & -> & Hz); [split_and!; lia|]. rewrite bind_ret. destruct b; [|done]. cbn [negb].
  specialize (Hz eq_refl). destruct (Z.to_nat fn) as [|k] eqn:Ek; [lia|].
  destruct (fields_loop_zero k (o + 4 + 2) 0 (o + 4 + (2 + 2 * fn)) (d - (2 + 2 * fn))) as (d0 & E0 & Hd0 & Hi0 & Hi1 & Hl);
    [split_and!; lia|done|by apply (Hz 0%nat); lia|].
  replace (o + 4 + (2 + 2 * fn)) with (o + 4 + 2 + fn * 2) in * by lia.
  destruct (import_string_in p (o + 4 + 2 + fn * 2) d0 E0 Hd0 Hi0 Hp) as (p1 & nm & -> & Hp1). rewrite bind_ret.
  destruct (Z.eqb_spec fn 1) as [|Hfn1]; [intros ? ? ? [= <- <- <-]; split; [lia|done]|].
  destruct k as [|k]; [lia|].
  destruct (fields_loop_zero k (o + 4 + 2) (0 + 1) (o + 4 + 2 + fn * 2 + 4 + d0) (d - (2 + 2 * fn) - 4 - d0)) as (d1 & E1 & Hd1 & Hi2 & _);
    [done|done|by apply (Hz 1%nat); lia|].
  rewrite E0, bind_ret. pose proof (HW _ _ E0). rewrite u32_plus by lia.
  replace (o + 4 + 2 + fn * 2 + (d0 + 4)) with (o + 4 + 2 + fn * 2 + 4 + d0) by lia.
  destruct (count_array_in (o + 4 + 2 + fn * 2 + 4 + d0) d1) as (n & -> & Hn); [done|done|done|]. rewrite bind_ret.
  destruct (Z.ltb_spec n 0); [done|]. destruct Hn as [|[_ Hn]]; [lia|].
  destruct (pool_alloc ok p1 (sizeof_field * n)) as [p2 [fa|]] eqn:Ea; [|by destruct (alloc_total p1 (sizeof_field * n) p2)].
  assert (Hp2 : pool_wf p2) by (apply alloc_fresh in Ea as ([? _] & _); [done|done|unfold sizeof_field; lia]).
  destruct Hi2 as (? & ? & ?).
  destruct (import_fields_in type_n _ _ _ Hn p2 (-1) n []) as [r Er]; [split_and!; lia|done|].
  rewrite Er, bind_ret. destruct r as [[[fs p3] maxn]|]; [|done].
  apply import_fields_go in Er as [Hlen Hp3]; [|done].
  destruct fs as [|f fs]; [done|]. cbn [head init_read]. rewrite bind_ret.
  destruct (last (f :: fs)) as [l|] eqn:El; [|by destruct fs]. cbn [init_read]. rewrite bind_ret.
  intros ? ? ? [= <- <- <-]. split; [lia|done].
Qed.

Lemma import_types_in type_n o len k : walk m o len k -> forall p acc, inb m o len -> pool_wf p ->
  fine (import_types ok k type_n p m o acc) (fun r => forall ts q, r = Go (ts, q) -> pool_wf q).
Proof.
  induction 1 as [|o len k d Ed H0 Hle _ IH]; intros p acc (H1 & H2 & H3) Hp; cbn [import_types]; [by intros ? ? [= <- <-]|].
  eapply fine_bind; [apply (import_type_in type_n p o d); [done|done|split_and!; lia|done]|]. intros r Hr.
  destruct r as [[[t q] o']|]; [|done]. destruct (Hr t q o' eq_refl) as [-> Hq]. apply IH; [split_and!; lia|done].
Qed.

Lemma import_protocol_in type_n p o d : todword m o = Ok d -> 0 <= d -> inb m o (4 + d) -> pool_wf p ->
  exists r, import_protocol ok type_n p m o = Ok r /\ forall t p' o', r = Go (t, p', o') -> o' = o + 4 + d /\ pool_wf p'.
Proof.
  intros Ed H0 (H1 & H2 & H3) Hp. unfold import_protocol. rewrite Ed, bind_ret. unfold SIZEOF_LENGTH, SIZEOF_HEADER. cbv zeta.
  destruct (struct_field_in (o + 4) d) as (fn & -> & Hfn); [split_and!; lia|]. rewrite bind_ret.
  assert (Hl : exists r, import_protocol_loop ok (Z.to_nat fn) type_n m (o + 4 + 2) fn 0
    ({| pr_name := None; pr_tag := -1; pr_request := None; pr_response := None |}, p) = Ok r /\ forall pr q, r = Go (pr, q) -> pool_wf q).
  { destruct Hfn as [->|(Hf0 & Hf1 & Hf2)]; [eexists; split; [done|]; by intros ? ? [= <- <-]|].
    assert (Hgen : forall k i s, 0 <= i -> i + Z.of_nat k = fn -> pinv_partial type_n s ->
      exists r, import_protocol_loop ok k type_n m (o + 4 + 2) fn i s = Ok r /\ forall pr q, r = Go (pr, q) -> pool_wf q).
    { induction k as [|k IH]; intros i s Hi Hik HI; cbn [import_protocol_loop].
      - eexists. split; [done|]. intros pr q [= ->]. by destruct HI as (_ & _ & ?).
      - assert (Hs : exists r, import_protocol_step ok type_n m (o + 4 + 2) fn i s = Ok r).
        { destruct s as [pr q]. destruct HI as (_ & _ & Hq). cbn in Hq. unfold import_protocol_step, SIZEOF_FIELD.
          destruct (word_in (o + 4 + 2 + 2 * i)) as (v & Ev & Hv); [split_and!; lia|]. rewrite Ev, bind_ret.
          destruct (Z.odd v) eqn:Eo; [by eexists|]. destruct (Z.eqb_spec i 0) as [->|].
          - destruct (Z.eqb_spec (v / 2 - 1) (-1)) as [Hm1|]; cbn [negb]; [|by eexists].
            assert (v = 0) as -> by (pose proof (even_value v); destruct (Z.eq_dec v 0); [done|]; specialize (H ltac:(lia) ltac:(done) Eo); lia).
            destruct (Z.to_nat fn) as [|k'] eqn:Ek; [lia|]. rewrite Z.mul_0_r, Z.add_0_r in Ev.
            destruct (fields_loop_zero k' (o + 4 + 2) 0 (o + 4 + (2 + 2 * fn)) (d - (2 + 2 * fn))) as (d0 & E0 & Hd0 & Hi0 & _);
              [split_and!; lia|done|by rewrite Z.add_0_r|]. replace (o + 4 + (2 + 2 * fn)) with (o + 4 + 2 + 2 * fn) in * by lia.
            destruct (import_string_in q (o + 4 + 2 + 2 * fn) d0 E0 Hd0 Hi0 Hq) as (p' & nm & -> & _). by eexists.
          - repeat match goal with |- exists r, (if ?c then _ else _) = _ => destruct c end; by eexists. }
        destruct Hs as [[s'|] Es]; rewrite Es, bind_ret; [|by eexists].
        apply IH; [lia|lia|]. by eapply import_protocol_step_inv. }
    apply Hgen; [lia|lia|by split_and!]. }
  destruct Hl as (r & -> & Hr). rewrite bind_ret. destruct r as [[pr q]|]; [|by eexists].
  destruct (pr_name pr); [|by eexists]. destruct (_ <? _); [by eexists|]. eexists. split; [done|].
  intros ? ? ? [= <- <- <-]. split; [lia|]. by eapply Hr.
Qed.

Lemma import_protocols_in type_n o len k : walk m o len k -> forall p acc, inb m o len -> pool_wf p ->
  exists r, import_protocols ok k type_n p m o acc = Ok r.
Proof.
  induction 1 as [|o len k d Ed H0 Hle _ IH]; intros p acc (H1 & H2 & H3) Hp; cbn [import_protocols]; [by eexists|].
  destruct (import_protocol_in type_n p o d Ed H0) as (r & -> & Hr); [split_and!; lia|done|]. rewrite bind_ret.
  destruct r as [[[t q] o']|]; [|by eexists]. destruct (Hr t q o' eq_refl) as [-> Hq]. apply IH; [split_and!; lia|done].
Qed.

Definition found (o : option Z) (n : Z) : Prop :=
  forall x, o = Some x -> exists len, walk m x len (Z.to_nat n) /\ inb m x len.

Lemma bundle_loop_in stream k : forall i b rem, 0 <= i -> inb m stream (2 * (i + Z.of_nat k)) -> inb m (b_content b) rem ->
  fields_loop k m stream i (b_content b) rem = Ok true ->
  pool_wf (b_pool b) -> found (b_typedata b) (b_type_n b) -> found (b_protocoldata b) (b_protocol_n b) ->
  exists r, bundle_loop ok k m stream i b = Ok r /\ forall b', r = Go b' ->
    pool_wf (b_pool b') /\ found (b_typedata b') (b_type_n b') /\ found (b_protocoldata b') (b_protocol_n b').
Proof.
  induction k as [|k IH]; intros i b rem Hi (S1 & S2 & S3) Hc Hl Hp Ht Hpr; cbn [bundle_loop].
  - eexists. split; [done|]. by intros b' [= <-].
  - unfold SIZEOF_FIELD. destruct (word_in (stream + i * 2)) as (v & Ev & _); [split_and!; lia|]. rewrite Ev, bind_ret.
    destruct (Z.eqb_spec v 0) as [->|]; cbn [negb]; [|by eexists].
    destruct (fields_loop_zero k stream i (b_content b) rem Hc Hl Ev) as (d & Ed & Hd & Hin & Hin' & Hl').
    destruct (count_array_in (b_content b) d Ed Hin Hd) as (n & -> & Hn). rewrite bind_ret.
    destruct (Z.ltb_spec n 0); [by eexists|]. destruct Hn as [|[_ Hn]]; [lia|]. rewrite Ed, bind_ret. pose proof (HW _ _ Ed).
    unfold SIZEOF_LENGTH. rewrite u32_plus by lia. cbv zeta.
    assert (Hf : found (Some (b_content b + 4)) n) by (intros x [= <-]; exists d; split; [done|]; destruct Hin as (? & ? & ?); split_and!; lia).
    replace (b_content b + (d + 4)) with (b_content b + 4 + d) by lia.
    destruct (i =? 0);
      match goal with |- context [pool_alloc ok ?q ?z] => destruct (pool_alloc ok q z) as [q' [a'|]] eqn:Eq end;
      try (by destruct (alloc_total _ _ _ Eq));
      (apply alloc_fresh in Eq as ([? _] & _); [|done|unfold sizeof_sproto_type, sizeof_protocol; lia]);
      (apply IH with (rem - 4 - d); [lia|split_and!; lia|done|done|done|done|done]).
Qed.
End Loader.

(** Loading a schema from any bytes in which no length is within four of
    2^32: every read stays inside the bytes and the call returns, unless a type
    declares an array of no fields, whose first element is then read. *)
Theorem sproto_create_safe ok m :
  (forall n, ok n = true) -> byte_list m -> no_wrap m ->
  fine (sproto_create ok m (Z.of_nat (length m))) (fun r => forall s, r = Some s -> wf_sproto s).
Proof.
  intros Hok HB HW.
  assert (Hfine : fine (sproto_create ok m (Z.of_nat (length m))) (fun _ => True)).
  { unfold sproto_create. destruct (pool_alloc ok pool_init sizeof_sproto) as [mem [a|]] eqn:Ea; [|done].
    apply alloc_fresh in Ea as ([Hmem _] & _); [|by split|done].
    apply fine_bind with (fun _ => True); [|done]. unfold create_from_bundle.
    destruct (struct_field_in m HB HW 0 (Z.of_nat (length m))) as (fn & -> & Hfn); [split_and!; lia|]. rewrite bind_ret.
    destruct (Z.ltb_spec fn 0); [done|]. destruct (Z.ltb_spec 2 fn); [done|]. cbn [orb]. destruct Hfn as [|(Hf0 & Hf1 & Hf2)]; [lia|].
    unfold SIZEOF_HEADER, SIZEOF_FIELD. cbv zeta.
    match goal with |- context [bundle_loop ok _ m 2 0 ?b] => set (b0 := b) end.
    destruct (bundle_loop_in ok m Hok HB HW 2 (Z.to_nat fn) 0 b0 (Z.of_nat (length m) - (2 + 2 * fn))) as (r & -> & Hr);
      [lia|split_and!; lia|unfold b0; cbn [b_content]; split_and!; lia| |done|done|done|].
    { unfold b0. cbn [b_content]. replace (2 + fn * 2) with (0 + (2 + 2 * fn)) by lia. exact Hf2. }
    rewrite bind_ret. destruct r as [b|]; [|done]. destruct (Hr b eq_refl) as (Hp & Ht & Hpr).
    apply fine_bind with (fun r => forall ts q, r = Go (ts, q) -> pool_wf q).
    - destruct (b_typedata b) as [o|]; [|by intros ? ? [= <- <-]]. destruct (Ht o eq_refl) as (len & Hw & Hin).
      by apply import_types_in with len.
    - intros [[ts q]|] Hq; [|done]. specialize (Hq ts q eq_refl). apply fine_bind with (fun _ => True).
      + destruct (b_protocoldata b) as [o|]; [|done]. destruct (Hpr o eq_refl) as (len & Hw & Hin).
        by destruct (import_protocols_in ok m Hok HB HW (b_type_n b) o len _ Hw q [] Hin Hq) as [r ->].
      + by intros [[ps q']|] _. }
  destruct (sproto_create ok m (Z.of_nat (length m))) as [r|f] eqn:E; [|done]. cbn. intros s ->. by eapply create_wf.
Qed.

(** ** A schema

    [Data] (numbers, bools, number, big), [Person] (name, age, marital, children),
    [Gap] (x with tag 2, y with tag 5), [Empty], and two protocols. *)
Definition demo : list Z :=
  [2; 0; 0; 0; 0; 0; 59; 1; 0; 0; 115; 0; 0; 0; 2; 0; 0; 0; 0; 0; 4; 0; 0; 0; 68; 97; 116; 97; 97; 0; 0; 0; 23;
   0; 0; 0; 5; 0; 0; 0; 2; 0; 1; 0; 2; 0; 4; 0; 7; 0; 0; 0; 110; 117; 109; 98; 101; 114; 115; 21; 0; 0; 0; 5; 0;
   0; 0; 4; 0; 1; 0; 4; 0; 4; 0; 5; 0; 0; 0; 98; 111; 111; 108; 115; 20; 0; 0; 0; 4; 0; 0; 0; 2; 0; 1; 0; 6; 0;
   6; 0; 0; 0; 110; 117; 109; 98; 101; 114; 17; 0; 0; 0; 4; 0; 0; 0; 2; 0; 1; 0; 8; 0; 3; 0; 0; 0; 98; 105; 103;
   116; 0; 0; 0; 2; 0; 0; 0; 0; 0; 6; 0; 0; 0; 80; 101; 114; 115; 111; 110; 96; 0; 0; 0; 18; 0; 0; 0; 4; 0; 0; 0;
   6; 0; 1; 0; 2; 0; 4; 0; 0; 0; 110; 97; 109; 101; 17; 0; 0; 0; 4; 0; 0; 0; 2; 0; 1; 0; 4; 0; 3; 0; 0; 0; 97;
   103; 101; 21; 0; 0; 0; 4; 0; 0; 0; 4; 0; 1; 0; 6; 0; 7; 0; 0; 0; 109; 97; 114; 105; 116; 97; 108; 24; 0; 0; 0;
   5; 0; 0; 0; 1; 0; 4; 0; 8; 0; 4; 0; 8; 0; 0; 0; 99; 104; 105; 108; 100; 114; 101; 110; 55; 0; 0; 0; 2; 0; 0;
   0; 0; 0; 3; 0; 0; 0; 71; 97; 112; 38; 0; 0; 0; 15; 0; 0; 0; 4; 0; 0; 0; 2; 0; 1; 0; 6; 0; 1; 0; 0; 0; 120; 15;
   0; 0; 0; 4; 0; 0; 0; 6; 0; 1; 0; 12; 0; 1; 0; 0; 0; 121; 13; 0; 0; 0; 1; 0; 0; 0; 5; 0; 0; 0; 69; 109; 112;
   116; 121; 41; 0; 0; 0; 16; 0; 0; 0; 3; 0; 0; 0; 4; 0; 4; 0; 4; 0; 0; 0; 112; 105; 110; 103; 17; 0; 0; 0; 4; 0;
   0; 0; 10; 0; 2; 0; 4; 0; 3; 0; 0; 0; 115; 101; 116].

Definition demo_sproto : sproto :=
  match sproto_create (fun _ => true) demo (Z.of_nat (length demo)) with
  | Ok (Some s) => s
  | _ => {| sp_memory := pool_init; sp_type := []; sp_proto := [] |}
  end.

Lemma byte_list_check m : forallb (fun b => (0 <=? b) && (b <? 256)) m = true -> byte_list m.
Proof. intros H. apply Forall_forall. intros b Hb. rewrite forallb_forall in H. specialize (H b ltac:(by apply list_elem_of_In)). lia. Qed.

Lemma no_wrap_check m :
  forallb (fun o => match todword m o with Ok d => d <? 2 ^ 32 - 4 | Fault _ => true end) (seqZ 0 (Z.of_nat (length m))) = true -> no_wrap m.
Proof.
  intros H o d E. rewrite forallb_forall in H.
  assert (Ho : o ∈ seqZ 0 (Z.of_nat (length m))).
  { apply elem_of_seqZ. unfold todword in E. apply bind_Ok in E as (b & Eb & _). apply arr_get_inv in Eb as [? Eb].
    apply lookup_lt_Some in Eb. lia. }
  specialize (H o ltac:(by apply list_elem_of_In)). rewrite E in H. lia.
Qed.

Lemma sproto_create_wf_witness : wf_sproto demo_sproto.
Proof. apply (sproto_create_wf (fun _ => true) demo (Z.of_nat (length demo))); [by apply byte_list_check|by vm_compute]. Defined.

Lemma sproto_create_safe_witness :
  fine (sproto_create (fun _ => true) demo (Z.of_nat (length demo))) (fun r => forall s, r = Some s -> wf_sproto s).
Proof. apply sproto_create_safe; [done|by apply byte_list_check|by apply no_wrap_check; vm_compute]. Defined.

(** A type of fields 2 and 5. *)
Definition gap_type : sproto_type :=
  {| t_name := Some {| nm_ptr := (0%nat, 0); nm_str := [71] |}; t_n := 2; t_base := -1; t_maxn := 4;
     t_f := [{| f_tag := 2; f_type := SPROTO_TINTEGER; f_name := Some {| nm_ptr := (0%nat, 8); nm_str := [120] |}; f_st := None; f_key := -1 |};
             {| f_tag := 5; f_type := SPROTO_TSTRING; f_name := Some {| nm_ptr := (0%nat, 16); nm_str := [121] |}; f_st := None; f_key := -1 |}] |}.

Lemma gap_type_wf : wf_type 0 gap_type.
Proof.
  split; cbn; try done.
  - by eexists.
  - repeat constructor; try (by eexists); cbn; try lia; try done; eexists; (split; [by left|]); left; by split.
  - repeat constructor; cbn; rewrite ?list_elem_of_singleton; try done; by intros ?%elem_of_nil.
Qed.

Lemma findtag_is_lookup_witness : findtag gap_type 5 = Ok (field_of gap_type 5).
Proof. apply (findtag_is_lookup 0). apply gap_type_wf. Defined.

(** ** Schemas that break the loader *)

(** An element whose length is 2^32 - 4 takes no bytes off the array, so
    [count_array] counts it for ever. *)
Theorem count_array_hangs m o len n : todword m o = Ok (2 ^ 32 - 4) -> 4 <= len ->
  forall fuel, count_loop fuel m o len n = Fault OutOfFuel.
Proof.
  intros Hd Hlen fuel. revert n. induction fuel as [|fuel IH]; intros n; [done|]. cbn [count_loop].
  destruct (Z.ltb_spec 0 len); [|lia]. unfold SIZEOF_LENGTH. destruct (Z.ltb_spec len 4); [lia|]. rewrite Hd, bind_ret.
  change (u32 (2 ^ 32 - 4 + 4)) with 0. cbv zeta. destruct (Z.ltb_spec len 0); [lia|].
  rewrite Z.add_0_r, Z.sub_0_r. apply IH.
Qed.

Lemma count_array_hangs_witness : forall fuel, count_loop fuel [252; 255; 255; 255; 0; 0; 0; 0] 0 8 0 = Fault OutOfFuel.
Proof. apply count_array_hangs; [by vm_compute|lia]. Defined.

(** A type whose array of fields is there but empty: [t->f[0]] is read. *)
Lemma empty_fields_read :
  sproto_create (fun _ => true) [1; 0; 0; 0; 19; 0; 0; 0; 15; 0; 0; 0; 2; 0; 0; 0; 0; 0; 1; 0; 0; 0; 84; 0; 0; 0; 0] 27 = Fault Uninitialised.
Proof. by vm_compute. Qed.
