(* ===== verification/SprotoCodec.v ===== *)
(** * Messages of sproto ([lualib-src/sproto/sproto.c])

    [sproto_encode] and [sproto_decode] with their callbacks as parameters.  The
    message is memory whose accesses are checked, and the comparisons of [int]
    with [size_t] and [uint32_t] are those of C. *)

From S2P Require Import Prelude SprotoSchema.
From Stdlib Require Import ZArith Lia.
From stdpp Require Import base numbers list.
#[local] Open Scope Z_scope.
#[local] Open Scope list_scope.

Module Codec.
Import Schema.

Definition SPROTO_CB_ERROR : Z := -1.
Definition SPROTO_CB_NIL : Z := -2.
Definition SPROTO_CB_NOARRAY : Z := -3.

(** [struct sproto_arg]: [a_value] is the memory from where [value] points. *)
Record arg := {
  a_tagname : option cname; a_tagid : Z; a_type : Z; a_subtype : option Z;
  a_value : option (list Z); a_length : Z; a_index : Z; a_mainindex : Z }.

Definition at_field (f : field) (type : Z) : arg :=
  {| a_tagname := f_name f; a_tagid := f_tag f; a_type := type; a_subtype := f_st f;
     a_value := None; a_length := 0; a_index := 0; a_mainindex := f_key f |}.

Definition with_value (a : arg) (v : option (list Z)) (len index : Z) : arg :=
  {| a_tagname := a_tagname a; a_tagid := a_tagid a; a_type := a_type a; a_subtype := a_subtype a;
     a_value := v; a_length := len; a_index := index; a_mainindex := a_mainindex a |}.

(** [a < b] for an [int] a and a [size_t] b: [a] is converted. *)
Definition lt_size_t (a b : Z) : bool := u64 a <? b.

Definition bytes4 (v : Z) : list Z :=
  [Z.land v 0xff; Z.land (Z.shiftr v 8) 0xff; Z.land (Z.shiftr v 16) 0xff; Z.land (Z.shiftr v 24) 0xff].
Definition bytes8 (v : Z) : list Z :=
  bytes4 v ++ [Z.land (Z.shiftr v 32) 0xff; Z.land (Z.shiftr v 40) 0xff; Z.land (Z.shiftr v 48) 0xff; Z.land (Z.shiftr v 56) 0xff].

(** [fill_size(data, sz)] *)
Definition fill_size (buf : list Z) (data sz : Z) : outcome (list Z * Z) :=
  buf ← mem_write buf data (bytes4 sz); Ok (buf, sz + SIZEOF_LENGTH).

Definition encode_integer (v : Z) (buf : list Z) (data size : Z) : outcome (list Z * Z) :=
  if lt_size_t size (SIZEOF_LENGTH + 4) then Ok (buf, -1)
  else buf ← mem_write buf (data + 4) (bytes4 v); fill_size buf data 4.

Definition encode_uint64 (v : Z) (buf : list Z) (data size : Z) : outcome (list Z * Z) :=
  if lt_size_t size (SIZEOF_LENGTH + 8) then Ok (buf, -1)
  else buf ← mem_write buf (data + 4) (bytes8 v); fill_size buf data 8.

Definition uint32_to_uint64 (negative : bool) (buf : list Z) (o : Z) : outcome (list Z) :=
  mem_write buf (o + 4) (replicate 4 (if negative then 0xff else 0)).

(** The loop that widens the elements before [i + 1] in place, from the last one. *)
Fixpoint rearrange (i : nat) (buf : list Z) (header : Z) : outcome (list Z) :=
  match i with
  | O => Ok buf
  | S k =>
      let j := Z.of_nat k in
      b ← mem_read buf (header + 1 + j * 4) 4;
      buf ← mem_write buf (header + 1 + j * 8) b;
      sign ← arr_get buf (header + 1 + j * 8 + 3);
      buf ← uint32_to_uint64 (negb (Z.land sign 0x80 =? 0)) buf (header + 1 + j * 8);
      rearrange k buf header
  end.

Section Encode.
(** The callback gives its state back, its result and what it left at [value]. *)
Context {U : Type} (cb : U -> arg -> outcome (U * Z * list Z)).

Definition encode_object (ud : U) (args : arg) (buf : list Z) (data size : Z) : outcome (U * list Z * Z) :=
  if size <? SIZEOF_LENGTH then Ok (ud, buf, -1)
  else
    region ← mem_read buf (data + SIZEOF_LENGTH) (size - SIZEOF_LENGTH);
    '(ud, sz, region) ← cb ud (with_value args (Some region) (size - SIZEOF_LENGTH) (a_index args));
    buf ← mem_write buf (data + SIZEOF_LENGTH) region;
    if sz <? 0 then Ok (ud, buf, if sz =? SPROTO_CB_NIL then 0 else -1)
    else
      _ ← c_assert (sz <=? size - SIZEOF_LENGTH);
      '(buf, r) ← fill_size buf data sz;
      Ok (ud, buf, r).

(** The locals of [encode_integer_array]. *)
Record intarr := { ia_ud : U; ia_buf : list Z; ia_buffer : Z; ia_size : Z; ia_intlen : Z; ia_index : Z }.

(** What the loop ends with: the locals and whether there was no array, or [NULL]. *)
Inductive iaend := IaDone (s : intarr) (noarray : bool) | IaNull (ud : U) (buf : list Z).

Fixpoint int_loop (fuel : nat) (args : arg) (header : Z) (s : intarr) : outcome iaend :=
  match fuel with
  | O => Fault OutOfFuel
  | S fuel =>
      '(ud, sz, u) ← cb (ia_ud s) (with_value args (Some (replicate 8 0)) 8 (ia_index s));
      let s := {| ia_ud := ud; ia_buf := ia_buf s; ia_buffer := ia_buffer s; ia_size := ia_size s; ia_intlen := ia_intlen s; ia_index := ia_index s |} in
      if sz <=? 0 then
        if sz =? SPROTO_CB_NIL then Ok (IaDone s false)
        else if sz =? SPROTO_CB_NOARRAY then Ok (IaDone s true)
        else Ok (IaNull ud (ia_buf s))
      else if lt_size_t (ia_size s) 8 then Ok (IaNull ud (ia_buf s))
      else if sz =? 4 then
        let v := of_le (take 4 u) in
        buf ← mem_write (ia_buf s) (ia_buffer s) (bytes4 v);
        buf ← (if ia_intlen s =? 8 then uint32_to_uint64 (negb (Z.land v 0x80000000 =? 0)) buf (ia_buffer s) else Ok buf);
        int_loop fuel args header
          {| ia_ud := ud; ia_buf := buf; ia_buffer := ia_buffer s + ia_intlen s; ia_size := ia_size s - ia_intlen s;
             ia_intlen := ia_intlen s; ia_index := ia_index s + 1 |}
      else if negb (sz =? 8) then Ok (IaNull ud (ia_buf s))
      else
        let widen := ia_intlen s =? 4 in
        let size := if widen then ia_size s - (ia_index s - 1) * 4 else ia_size s in
        if widen && lt_size_t size 8 then Ok (IaNull ud (ia_buf s))
        else
          let buffer := if widen then ia_buffer s + (ia_index s - 1) * 4 else ia_buffer s in
          buf ← (if widen then rearrange (Z.to_nat (ia_index s - 1)) (ia_buf s) header else Ok (ia_buf s));
          buf ← mem_write buf buffer (bytes8 (of_le (take 8 u)));
          int_loop fuel args header
            {| ia_ud := ud; ia_buf := buf; ia_buffer := buffer + 8; ia_size := size - 8; ia_intlen := 8; ia_index := ia_index s + 1 |}
  end.

(** [encode_integer_array]: [None] is [NULL], [Some] the end and [*noarray].  A
    round takes at least four bytes of room, so [size + 1] rounds are enough. *)
Definition encode_integer_array (ud : U) (args : arg) (buf : list Z) (header size : Z) : outcome (U * list Z * option (Z * bool)) :=
  if size <? 1 then Ok (ud, buf, None)
  else
    r ← int_loop (S (Z.to_nat size)) args header
          {| ia_ud := ud; ia_buf := buf; ia_buffer := header + 1; ia_size := size - 1; ia_intlen := 4; ia_index := 1 |};
    match r with
    | IaNull ud buf => Ok (ud, buf, None)
    | IaDone s noarray =>
        if ia_buffer s =? header + 1 then Ok (ia_ud s, ia_buf s, Some (header, noarray))
        else buf ← mem_write (ia_buf s) header [ia_intlen s]; Ok (ia_ud s, buf, Some (ia_buffer s, noarray))
    end.

(** What an element loop of [encode_array] ends with: the end of the data, or a
    [return] of the function. *)
Inductive arrend := ArrEnd (buffer : Z) | ArrReturn (r : Z).

Fixpoint bool_loop (fuel : nat) (ud : U) (args : arg) (buf : list Z) (buffer size index : Z) : outcome (U * list Z * arrend) :=
  match fuel with
  | O => Fault OutOfFuel
  | S fuel =>
      '(ud, sz, v) ← cb ud (with_value args (Some (replicate 4 0)) 4 index);
      if sz <? 0 then
        Ok (ud, buf, if sz =? SPROTO_CB_NIL then ArrEnd buffer else if sz =? SPROTO_CB_NOARRAY then ArrReturn 0 else ArrReturn (-1))
      else if size <? 1 then Ok (ud, buf, ArrReturn (-1))
      else
        buf ← mem_write buf buffer [if of_le (take 4 v) =? 0 then 0 else 1];
        bool_loop fuel ud args buf (buffer + 1) (size - 1) (index + 1)
  end.

Fixpoint object_loop (fuel : nat) (ud : U) (args : arg) (buf : list Z) (buffer size index : Z) : outcome (U * list Z * arrend) :=
  match fuel with
  | O => Fault OutOfFuel
  | S fuel =>
      if size <? SIZEOF_LENGTH then Ok (ud, buf, ArrReturn (-1))
      else
        let size := size - SIZEOF_LENGTH in
        region ← mem_read buf (buffer + SIZEOF_LENGTH) size;
        '(ud, sz, region) ← cb ud (with_value args (Some region) size index);
        buf ← mem_write buf (buffer + SIZEOF_LENGTH) region;
        if sz <? 0 then
          Ok (ud, buf, if sz =? SPROTO_CB_NIL then ArrEnd buffer else if sz =? SPROTO_CB_NOARRAY then ArrReturn 0 else ArrReturn (-1))
        else
          '(buf, _) ← fill_size buf buffer sz;
          object_loop fuel ud args buf (buffer + SIZEOF_LENGTH + sz) (size - sz) (index + 1)
  end.

Definition encode_array (ud : U) (args : arg) (buf : list Z) (data size : Z) : outcome (U * list Z * Z) :=
  if size <? SIZEOF_LENGTH then Ok (ud, buf, -1)
  else
    let size := size - SIZEOF_LENGTH in
    let buffer := data + SIZEOF_LENGTH in
    '(ud, buf, e) ←
      (if a_type args =? SPROTO_TINTEGER then
         '(ud, buf, r) ← encode_integer_array ud args buf buffer size;
         Ok (ud, buf, match r with None => ArrReturn (-1) | Some (_, true) => ArrReturn 0 | Some (e, false) => ArrEnd e end)
       else if a_type args =? SPROTO_TBOOLEAN then bool_loop (S (Z.to_nat size)) ud args buf buffer size 1
       else object_loop (S (Z.to_nat size)) ud args buf buffer size 1);
    match e with
    | ArrReturn r => Ok (ud, buf, r)
    | ArrEnd e => '(buf, r) ← fill_size buf data (e - (data + SIZEOF_LENGTH)); Ok (ud, buf, r)
    end.

(** What the code for one field gives: [value] and [sz], a [continue], or a
    [return] of [sproto_encode]. *)
Inductive fieldr := FieldSz (value sz : Z) | FieldSkip | FieldReturn (r : Z).

Definition encode_field (ud : U) (f : field) (buf : list Z) (data size : Z) : outcome (U * list Z * fieldr) :=
  if negb (Z.land (f_type f) SPROTO_TARRAY =? 0) then
    '(ud, buf, sz) ← encode_array ud (at_field f (Z.land (f_type f) (Z.lnot SPROTO_TARRAY))) buf data size;
    Ok (ud, buf, FieldSz 0 sz)
  else
    let args := at_field f (f_type f) in
    if (f_type f =? SPROTO_TINTEGER) || (f_type f =? SPROTO_TBOOLEAN) then
      '(ud, sz, u) ← cb ud (with_value args (Some (replicate 8 0)) 8 0);
      if sz <? 0 then
        Ok (ud, buf, if sz =? SPROTO_CB_NIL then FieldSkip else if sz =? SPROTO_CB_NOARRAY then FieldReturn 0 else FieldReturn (-1))
      else if sz =? 4 then
        let u32v := of_le (take 4 u) in
        if u32v <? 0x7fff then Ok (ud, buf, FieldSz ((u32v + 1) * 2) 2)
        else '(buf, sz) ← encode_integer u32v buf data size; Ok (ud, buf, FieldSz 0 sz)
      else if sz =? 8 then
        '(buf, sz) ← encode_uint64 (of_le (take 8 u)) buf data size; Ok (ud, buf, FieldSz 0 sz)
      else Ok (ud, buf, FieldReturn (-1))
    else if (f_type f =? SPROTO_TSTRUCT) || (f_type f =? SPROTO_TSTRING) then
      '(ud, buf, sz) ← encode_object ud args buf data size;
      Ok (ud, buf, FieldSz 0 sz)
    else Ok (ud, buf, FieldSz 0 (-1)).

(** The locals of [sproto_encode] in its loop; [header] is at 0. *)
Record encoding := { en_ud : U; en_buf : list Z; en_data : Z; en_size : Z; en_index : Z; en_lasttag : Z }.

Definition word (v : Z) : list Z := [Z.land v 0xff; Z.land (Z.shiftr v 8) 0xff].

(** The records of a field that was encoded. *)
Definition put_record (f : field) (value sz : Z) (s : encoding) : outcome (encoding + Z) :=
  let data := if value =? 0 then en_data s + sz else en_data s in
  let size := if value =? 0 then en_size s - sz else en_size s in
  let record := SIZEOF_HEADER + SIZEOF_FIELD * en_index s in
  let tag := f_tag f - en_lasttag s - 1 in
  let skip := (tag - 1) * 2 + 1 in
  if (0 <? tag) && (0xffff <? skip) then Ok (inr (-1))
  else
    buf ← (if 0 <? tag then mem_write (en_buf s) record (word skip) else Ok (en_buf s));
    let index := if 0 <? tag then en_index s + 1 else en_index s in
    let record := if 0 <? tag then record + SIZEOF_FIELD else record in
    buf ← mem_write buf record (word value);
    Ok (inl {| en_ud := en_ud s; en_buf := buf; en_data := data; en_size := size; en_index := index + 1; en_lasttag := f_tag f |}).

Fixpoint encode_fields (fs : list field) (s : encoding) : outcome (encoding + (U * list Z * Z)) :=
  match fs with
  | [] => Ok (inl s)
  | f :: fs =>
      '(ud, buf, r) ← encode_field (en_ud s) f (en_buf s) (en_data s) (en_size s);
      let s := {| en_ud := ud; en_buf := buf; en_data := en_data s; en_size := en_size s; en_index := en_index s; en_lasttag := en_lasttag s |} in
      match r with
      | FieldSkip => encode_fields fs s
      | FieldReturn r => Ok (inr (ud, buf, r))
      | FieldSz value sz =>
          if sz <? 0 then Ok (inr (ud, buf, -1))
          else if 0 <? sz then
            r ← put_record f value sz s;
            match r with
            | inl s => encode_fields fs s
            | inr r => Ok (inr (ud, buf, r))
            end
          else encode_fields fs s
      end
  end.

(** [sproto_encode(st, buffer, size, cb, ud)]: [buf] is the memory at [buffer]. *)
Definition sproto_encode (st : sproto_type) (buf : list Z) (size : Z) (ud : U) : outcome (U * list Z * Z) :=
  let header_sz := SIZEOF_HEADER + t_maxn st * SIZEOF_FIELD in
  if size <? header_sz then Ok (ud, buf, -1)
  else
    r ← encode_fields (t_f st)
          {| en_ud := ud; en_buf := buf; en_data := header_sz; en_size := size - header_sz; en_index := 0; en_lasttag := -1 |};
    match r with
    | inr r => Ok r
    | inl s =>
        buf ← mem_write (en_buf s) 0 (word (en_index s));
        let datasz := en_data s - header_sz in
        buf ← (if negb (en_index s =? t_maxn st) then
                 d ← mem_read buf header_sz datasz;
                 mem_write buf (SIZEOF_HEADER + en_index s * SIZEOF_FIELD) d
               else Ok buf);
        Ok (en_ud s, buf, SIZEOF_HEADER + en_index s * SIZEOF_FIELD + datasz)
    end.
End Encode.

(** ** Decoding *)

Definition expand64 (v : Z) : Z := if Z.land v 0x80000000 =? 0 then v else Z.lor v (0xffffffff * 2 ^ 32).

Section Decode.
(** The callback gives its state back and its result. *)
Context {U : Type} (cb : U -> arg -> outcome (U * Z)).

(** Every round takes four bytes, so a round for every byte of [m] is enough. *)
Fixpoint array_object_loop (fuel : nat) (ud : U) (args : arg) (m : list Z) (stream sz index : Z) : outcome (U * Z) :=
  match fuel with
  | O => Fault OutOfFuel
  | S fuel =>
      if 0 <? sz then
        if sz <? SIZEOF_LENGTH then Ok (ud, -1)
        else
          hsz ← todword m stream;
          let stream := stream + SIZEOF_LENGTH in
          let sz := sz - SIZEOF_LENGTH in
          if u32 sz <? hsz then Ok (ud, -1)
          else
            '(ud, r) ← cb ud (with_value args (Some (drop (Z.to_nat stream) m)) (i32 hsz) index);
            if negb (r =? 0) then Ok (ud, -1)
            else array_object_loop fuel ud args m (stream + hsz) (sz - hsz) (index + 1)
      else Ok (ud, 0)
  end.

Definition decode_array_object (ud : U) (args : arg) (m : list Z) (stream sz : Z) : outcome (U * Z) :=
  array_object_loop (S (length m)) ud args m stream sz 1.

(** [for (i = 0; i < n; i++)] with the callback called on the value read at [i];
    the result of the callback is not looked at. *)
Fixpoint values_loop (fuel : nat) (ud : U) (args : arg) (read : Z -> outcome Z) (i n : Z) : outcome U :=
  match fuel with
  | O => Fault OutOfFuel
  | S fuel =>
      if i <? n then
        v ← read i;
        '(ud, _) ← cb ud (with_value args (Some (to_le 8 v)) 8 (i + 1));
        values_loop fuel ud args read (i + 1) n
      else Ok ud
  end.

(** [decode_array(cb, args, stream)] *)
Definition decode_array (ud : U) (args : arg) (m : list Z) (stream : Z) : outcome (U * Z) :=
  sz ← todword m stream;
  if sz =? 0 then
    '(ud, _) ← cb ud (with_value args None 0 (-1)); Ok (ud, 0)
  else
    let stream := stream + SIZEOF_LENGTH in
    if a_type args =? SPROTO_TINTEGER then
      len ← arr_get m stream;
      let stream := stream + 1 in
      let sz := sz - 1 in
      if len =? 4 then
        if negb (sz mod 4 =? 0) then Ok (ud, -1)
        else
          ud ← values_loop (S (length m)) ud args (fun i => v ← todword m (stream + i * 4); Ok (expand64 v)) 0 (sz / 4);
          Ok (ud, 0)
      else if len =? 8 then
        if negb (sz mod 8 =? 0) then Ok (ud, -1)
        else
          ud ← values_loop (S (length m)) ud args
                 (fun i => low ← todword m (stream + i * 8); hi ← todword m (stream + i * 8 + 4); Ok (Z.lor low (Z.shiftl hi 32)))
                 0 (sz / 8);
          Ok (ud, 0)
      else Ok (ud, -1)
    else if a_type args =? SPROTO_TBOOLEAN then
      ud ← values_loop (S (length m)) ud args (fun i => arr_get m (stream + i)) 0 sz;
      Ok (ud, 0)
    else if (a_type args =? SPROTO_TSTRING) || (a_type args =? SPROTO_TSTRUCT) then
      decode_array_object ud args m stream (i32 sz)
    else Ok (ud, -1).

(** The code for a field that was found; [value] is its word decoded, [data]
    where its data is.  [None] is [return -1]. *)
Definition decode_field (ud : U) (f : field) (m : list Z) (value data : Z) : outcome (U * bool) :=
  let args := at_field f (Z.land (f_type f) (Z.lnot SPROTO_TARRAY)) in
  if value <? 0 then
    if negb (Z.land (f_type f) SPROTO_TARRAY =? 0) then
      '(ud, r) ← decode_array ud args m data;
      Ok (ud, r =? 0)
    else if f_type f =? SPROTO_TINTEGER then
      sz ← todword m data;
      if sz =? 4 then
        v ← todword m (data + SIZEOF_LENGTH);
        '(ud, _) ← cb ud (with_value args (Some (to_le 8 (expand64 v))) 8 0);
        Ok (ud, true)
      else if negb (sz =? 8) then Ok (ud, false)
      else
        low ← todword m (data + SIZEOF_LENGTH);
        hi ← todword m (data + SIZEOF_LENGTH + 4);
        '(ud, _) ← cb ud (with_value args (Some (to_le 8 (Z.lor low (Z.shiftl hi 32)))) 8 0);
        Ok (ud, true)
    else if (f_type f =? SPROTO_TSTRING) || (f_type f =? SPROTO_TSTRUCT) then
      sz ← todword m data;
      '(ud, r) ← cb ud (with_value args (Some (drop (Z.to_nat (data + SIZEOF_LENGTH)) m)) (i32 sz) 0);
      Ok (ud, r =? 0)
    else Ok (ud, false)
  else if negb (f_type f =? SPROTO_TINTEGER) && negb (f_type f =? SPROTO_TBOOLEAN) then Ok (ud, false)
  else
    '(ud, _) ← cb ud (with_value args (Some (to_le 8 value)) 8 0);
    Ok (ud, true).

(** The locals of [sproto_decode] in its loop. *)
Record decoding := { de_ud : U; de_data : Z; de_size : Z; de_tag : Z }.

Definition decode_step (st : sproto_type) (m : list Z) (stream i : Z) (s : decoding) : outcome (decoding + U) :=
  value ← toword m (stream + i * SIZEOF_FIELD);
  let tag := de_tag s + 1 in
  if Z.odd value then Ok (inl {| de_ud := de_ud s; de_data := de_data s; de_size := de_size s; de_tag := tag + value / 2 |})
  else
    let value := value / 2 - 1 in
    let currentdata := de_data s in
    next ← (if value <? 0 then
              if de_size s <? SIZEOF_LENGTH then Ok None
              else
                sz ← todword m (de_data s);
                let d := u32 (sz + SIZEOF_LENGTH) in
                if u32 (de_size s) <? d then Ok None
                else Ok (Some (de_data s + d, i32 (u32 (de_size s) - d)))
            else Ok (Some (de_data s, de_size s)));
    match next with
    | None => Ok (inr (de_ud s))
    | Some (datastream, size) =>
        f ← findtag st tag;
        match f with
        | None => Ok (inl {| de_ud := de_ud s; de_data := datastream; de_size := size; de_tag := tag |})
        | Some f =>
            '(ud, ok) ← decode_field (de_ud s) f m value currentdata;
            if (ok : bool) then Ok (inl {| de_ud := ud; de_data := datastream; de_size := size; de_tag := tag |})
            else Ok (inr ud)
        end
    end.

Fixpoint decode_loop (k : nat) (st : sproto_type) (m : list Z) (stream i : Z) (s : decoding) : outcome (decoding + U) :=
  match k with
  | O => Ok (inl s)
  | S k =>
      r ← decode_step st m stream i s;
      match r with
      | inr ud => Ok (inr ud)
      | inl s => decode_loop k st m stream (i + 1) s
      end
  end.

(** [sproto_decode(st, data, size, cb, ud)]: [m] is the memory at [data]. *)
Definition sproto_decode (st : sproto_type) (m : list Z) (size : Z) (ud : U) : outcome (U * Z) :=
  let total := size in
  if size <? SIZEOF_HEADER then Ok (ud, -1)
  else
    fn ← toword m 0;
    let size := size - SIZEOF_HEADER in
    if size <? fn * SIZEOF_FIELD then Ok (ud, -1)
    else
      r ← decode_loop (Z.to_nat fn) st m SIZEOF_HEADER 0
            {| de_ud := ud; de_data := SIZEOF_HEADER + fn * SIZEOF_FIELD; de_size := size - fn * SIZEOF_FIELD; de_tag := -1 |};
      match r with
      | inr ud => Ok (ud, -1)
      | inl s => Ok (de_ud s, total - de_size s)
      end.
End Decode.

End Codec.
