(* ===== verification/SprotoCodecProofs.v ===== *)
(** * The wire format of sproto

    The bytes of a message as a function of its fields; [sproto_encode] writes
    them and never lets the records run into the data. *)

From S2P Require Import Prelude SprotoSchema SprotoSchemaProofs SprotoCodec.
From Stdlib Require Import ZArith Lia.
From stdpp Require Import base numbers list.
#[local] Open Scope Z_scope.
#[local] Open Scope list_scope.
Import Schema Codec.

(** ** Bytes of integers *)

Definition len {A} (l : list A) : Z := Z.of_nat (length l).

Lemma len_app {A} (a b : list A) : len (a ++ b) = len a + len b.
Proof. unfold len. rewrite length_app. lia. Qed.
Lemma len_nonneg {A} (a : list A) : 0 <= len a.
Proof. unfold len. lia. Qed.
Lemma len_cons {A} (x : A) l : len (x :: l) = 1 + len l.
Proof. unfold len. cbn. lia. Qed.
Lemma len_le n v : len (to_le n v) = Z.of_nat n.
Proof. unfold len. by rewrite le_length. Qed.

Lemma bytes4_le v : bytes4 v = to_le 4 v.
Proof.
  unfold bytes4. rewrite !byte_of by lia. change 0xff with (2 ^ 8 - 1). rewrite land_mask by done. cbn [to_le].
  rewrite !Z.div_div by lia. done.
Qed.

Lemma bytes8_le v : bytes8 v = to_le 8 v.
Proof.
  unfold bytes8. rewrite bytes4_le, !byte_of by lia. cbn [to_le app]. rewrite !Z.div_div by lia. done.
Qed.

Lemma word_le v : word v = to_le 2 v.
Proof.
  unfold word. rewrite byte_of by lia. change 0xff with (2 ^ 8 - 1). rewrite land_mask by done. done.
Qed.

Lemma to_le_bytes n : forall v, byte_list (to_le n v).
Proof. induction n as [|n IH]; intros v; constructor; [apply Z.mod_pos_bound; lia|apply IH]. Qed.

Lemma get_at {A} (a c : list A) x o : o = len a -> arr_get (a ++ x :: c) o = Ok x.
Proof. intros ->. apply arr_get_ok; [apply len_nonneg|]. unfold len. rewrite Nat2Z.id. by apply list_lookup_middle. Qed.

Lemma get_at1 {A} (a c : list A) x0 x : arr_get (a ++ x0 :: x :: c) (len a + 1) = Ok x.
Proof. change (a ++ x0 :: x :: c) with (a ++ [x0] ++ x :: c). rewrite app_assoc. apply get_at. by rewrite len_app. Qed.
Lemma get_at2 {A} (a c : list A) x0 x1 x : arr_get (a ++ x0 :: x1 :: x :: c) (len a + 2) = Ok x.
Proof. change (a ++ x0 :: x1 :: x :: c) with (a ++ [x0; x1] ++ x :: c). rewrite app_assoc. apply get_at. by rewrite len_app. Qed.
Lemma get_at3 {A} (a c : list A) x0 x1 x2 x : arr_get (a ++ x0 :: x1 :: x2 :: x :: c) (len a + 3) = Ok x.
Proof. change (a ++ x0 :: x1 :: x2 :: x :: c) with (a ++ [x0; x1; x2] ++ x :: c). rewrite app_assoc. apply get_at. by rewrite len_app. Qed.

Lemma toword_at a c v o : o = len a -> toword (a ++ to_le 2 v ++ c) o = Ok (v mod 65536).
Proof.
  intros ->. unfold toword. cbn [to_le app]. rewrite (get_at a _ _ (len a)), bind_ret by done.
  rewrite get_at1, bind_ret.
  destruct (lor_bytes (v mod 256) (v / 256 mod 256) 8) as [-> _]; [lia|apply Z.mod_pos_bound; lia|apply Z.mod_pos_bound; lia|].
  f_equal. change 65536 with (256 * 256). rewrite Z.rem_mul_r by lia. lia.
Qed.

Lemma todword_at a c v o : o = len a -> todword (a ++ to_le 4 v ++ c) o = Ok (v mod 2 ^ 32).
Proof.
  intros ->. unfold todword. cbn [to_le app]. rewrite (get_at a _ _ (len a)), bind_ret by done.
  rewrite get_at1, bind_ret, get_at2, bind_ret, get_at3, bind_ret.
  pose proof (of_le_le 4 v) as E. cbn [to_le of_le] in E. change (256 ^ Z.of_nat 4) with (2 ^ 32) in E. rewrite <- E.
  pose proof (Z.mod_pos_bound v 256 ltac:(lia)). pose proof (Z.mod_pos_bound (v / 256) 256 ltac:(lia)).
  pose proof (Z.mod_pos_bound (v / 256 / 256) 256 ltac:(lia)). pose proof (Z.mod_pos_bound (v / 256 / 256 / 256) 256 ltac:(lia)).
  destruct (lor_bytes (v mod 256) (v / 256 mod 256) 8) as [-> ?]; [lia..|].
  destruct (lor_bytes (v mod 256 + v / 256 mod 256 * 2 ^ 8) (v / 256 / 256 mod 256) 16) as [-> ?]; [lia..|].
  destruct (lor_bytes (v mod 256 + v / 256 mod 256 * 2 ^ 8 + v / 256 / 256 mod 256 * 2 ^ 16) (v / 256 / 256 / 256 mod 256) 24) as [-> ?]; [lia..|].
  f_equal. lia.
Qed.

(** ** The wire format *)

(** A field on the wire: a small value in its record, or data. *)
Definition wfield : Type := Z * (option Z * list Z).

(** The records, from the tag before them; tags that are missing are skipped. *)
Fixpoint records (last : Z) (l : list wfield) : list Z :=
  match l with
  | [] => []
  | (t, (v, _)) :: l =>
      (if last + 1 <? t then [(t - last - 2) * 2 + 1] else []) ++
      [match v with Some v => (v + 1) * 2 | None => 0 end] ++ records t l
  end.

Lemma len_record last t v b : len (records last [(t, (v, b))]) = if last + 1 <? t then 2 else 1.
Proof. cbn. by destruct (_ <? _). Qed.

Definition data_of (w : wfield) : list Z :=
  match w.2.1 with Some _ => [] | None => to_le 4 (len w.2.2) ++ w.2.2 end.
Definition datas (l : list wfield) : list Z := concat (data_of <$> l).
Definition recs (ws : list Z) : list Z := concat (to_le 2 <$> ws).

Definition wire (l : list wfield) : list Z :=
  to_le 2 (len (records (-1) l)) ++ recs (records (-1) l) ++ datas l.

Lemma recs_app a b : recs (a ++ b) = recs a ++ recs b.
Proof. unfold recs. by rewrite fmap_app, concat_app. Qed.
Lemma recs_cons w ws : recs (w :: ws) = to_le 2 w ++ recs ws.
Proof. done. Qed.
Lemma len_recs ws : len (recs ws) = 2 * len ws.
Proof.
  unfold recs, len. rewrite (length_chunks 2), length_fmap; [lia|]. apply Forall_forall. intros b (w & -> & _)%list_elem_of_fmap. apply le_length.
Qed.

(** A type has a record for every field and every hole. *)
Lemma gaps_bound tags : forall p t, ascending p tags -> (forall x, x ∈ tags -> x <= t) -> p <= t -> len tags + gaps p tags <= t - p.
Proof.
  induction tags as [|x tags IH]; intros p t Ha Ht Hp; [unfold len; cbn; lia|]. destruct Ha as [Hx Ha].
  assert (x <= t) by (apply Ht; by apply elem_of_cons; left).
  specialize (IH x t Ha ltac:(intros; apply Ht; by apply elem_of_cons; right) ltac:(lia)). rewrite len_cons. cbn [gaps].
  destruct (Z.ltb_spec (p + 1) x); lia.
Qed.

Lemma gaps_nonneg tags : forall p, 0 <= gaps p tags.
Proof. induction tags as [|x tags IH]; intros p; [done|]. cbn [gaps]. specialize (IH x). destruct (_ <? _); lia. Qed.

Lemma maxn_bound type_n t : wf_type type_n t -> 0 <= t_maxn t <= 0x7fff.
Proof.
  intros W. rewrite (wt_maxn _ _ W), (wt_n _ _ W). pose proof (gaps_nonneg (f_tag <$> t_f t) (-1)).
  split; [lia|].
  pose proof (gaps_bound (f_tag <$> t_f t) (-1) 0x7ffe (wt_asc _ _ W)) as Hb.
  rewrite <- (length_fmap f_tag). unfold len in Hb. etransitivity; [apply Hb|]; [|lia|lia].
  intros x (f & -> & Hf)%list_elem_of_fmap. pose proof (wt_fields _ _ W) as HF. rewrite Forall_forall in HF.
  destruct (HF f Hf) as (_ & ? & _). lia.
Qed.

(** ** What the code for a field does *)

Definition written (r : option (option Z * list Z)) : list Z :=
  match r with Some (None, b) => to_le 4 (len b) ++ b | _ => [] end.

Definition result_code (res : option (option Z * list Z)) (r : fieldr) : Prop :=
  match res with
  | None => r = FieldSkip \/ r = FieldSz 0 0
  | Some (Some v, _) => 0 <= v /\ r = FieldSz ((v + 1) * 2) 2
  | Some (None, b) => r = FieldSz 0 (len b + 4)
  end.

Definition add_field (f : field) (res : option (option Z * list Z)) (l : list wfield) : list wfield :=
  match res with Some p => (f_tag f, p) :: l | None => l end.

Lemma write_at {A} (a b c b' : list A) o : o = len a -> length b = length b' -> mem_write (a ++ b ++ c) o b' = Ok (a ++ b' ++ c).
Proof. intros -> Hl. by apply mem_write_ok. Qed.

Lemma read_at {A} (a b c : list A) o n : o = len a -> n = len b -> mem_read (a ++ b ++ c) o n = Ok b.
Proof. intros -> ->. apply mem_read_ok. Qed.

Lemma read_tail {A} (a r : list A) o n : o = len a -> n = len r -> mem_read (a ++ r) o n = Ok r.
Proof. intros Ho Hn. pose proof (read_at a r [] o n Ho Hn) as H. by rewrite app_nil_r in H. Qed.
Lemma write_tail {A} (a r r' : list A) o : o = len a -> length r = length r' -> mem_write (a ++ r) o r' = Ok (a ++ r').
Proof. intros Ho Hl. pose proof (write_at a r [] r' o Ho Hl) as H. by rewrite !app_nil_r in H. Qed.

Lemma read_at_parts {A} (a b c d e : list A) o n : o = len a + len b + len c -> n = len d ->
  mem_read (a ++ b ++ c ++ d ++ e) o n = Ok d.
Proof. intros -> ->. rewrite !app_assoc, <- (app_assoc _ d e). apply read_at; [by rewrite !len_app|done]. Qed.

(** The front of a list that is long enough. *)
Lemma split_front {A} (l : list A) n : (n <= length l)%nat -> exists a b, l = a ++ b /\ length a = n.
Proof. intros H. exists (take n l), (drop n l). rewrite take_drop, length_take. split; [done|lia]. Qed.

Section Fields.
Context {U : Type} (cb : U -> arg -> outcome (U * Z * list Z)).

(** Encoding [f] takes at most [room] bytes behind [pre] and changes nothing in it. *)
Definition field_writes (ud : U) (f : field) (room : Z) (ud' : U) (res : option (option Z * list Z)) : Prop :=
  forall pre tail, room <= len tail -> len tail < 2 ^ 31 ->
  exists tail' r, encode_field cb ud f (pre ++ tail) (len pre) (len tail) = Ok (ud', pre ++ written res ++ tail', r) /\
    len (written res ++ tail') = len tail /\ result_code res r.

Inductive fields_write : U -> list field -> Z -> U -> list wfield -> Prop :=
  | fw_nil ud : fields_write ud [] 0 ud []
  | fw_cons ud f room ud1 res fs room' ud2 l :
      field_writes ud f room ud1 res -> 0 <= room -> 0 <= room' ->
      fields_write ud1 fs room' ud2 l -> fields_write ud (f :: fs) (room + room') ud2 (add_field f res l).

Lemma writes_room ud f room ud' res : field_writes ud f room ud' res -> 0 <= room < 2 ^ 31 -> len (written res) <= room.
Proof.
  intros Hw Hr. assert (Hl : len (replicate (Z.to_nat room) 0) = room) by (unfold len; rewrite length_replicate; lia).
  destruct (Hw [] (replicate (Z.to_nat room) 0)) as (tail' & r & _ & E & _); [lia|lia|]. rewrite len_app, Hl in E. pose proof (len_nonneg tail'). lia.
Qed.

(** The buffer during [sproto_encode]: two bytes, the records, what is left of
    their space, the data, what is left of the buffer. *)
Record layout (maxn : Z) (rs ds : list Z) (s : @encoding U) : Prop := {
  la_buf : exists h0 junk tail, en_buf s = h0 ++ recs rs ++ junk ++ ds ++ tail /\
             len h0 = 2 /\ len junk = 2 * (maxn - en_index s) /\ len tail = en_size s;
  la_index : en_index s = len rs;
  la_data : en_data s = 2 + 2 * maxn + len ds }.

Lemma put_record_ok maxn rs ds (s : @encoding U) f v b sz tail' h0 junk :
  en_buf s = h0 ++ recs rs ++ junk ++ ds ++ written (Some (v, b)) ++ tail' -> len h0 = 2 ->
  len junk = 2 * (maxn - en_index s) -> en_index s = len rs -> en_data s = 2 + 2 * maxn + len ds ->
  len (written (Some (v, b)) ++ tail') = en_size s ->
  -1 <= en_lasttag s < f_tag f -> f_tag f < 0x7fff ->
  en_index s + (if en_lasttag s + 1 <? f_tag f then 2 else 1) <= maxn ->
  result_code (Some (v, b)) (FieldSz match v with Some v => (v + 1) * 2 | None => 0 end sz) ->
  exists s', put_record f match v with Some v => (v + 1) * 2 | None => 0 end sz s = Ok (inl s') /\
    layout maxn (rs ++ records (en_lasttag s) [(f_tag f, (v, b))]) (ds ++ data_of (f_tag f, (v, b))) s' /\
    en_lasttag s' = f_tag f /\ en_ud s' = en_ud s /\ en_size s' = en_size s - len (data_of (f_tag f, (v, b))).
Proof.
  intros Hbuf Hh Hj Hi Hd Hsz Ht Htag Hroom Hcode. unfold put_record, SIZEOF_HEADER, SIZEOF_FIELD. cbv zeta.
  set (val := match v with Some v => (v + 1) * 2 | None => 0 end) in *.
  assert (Hlr := len_recs rs). set (skip := (f_tag f - en_lasttag s - 1 - 1) * 2 + 1).
  replace (0 <? f_tag f - en_lasttag s - 1) with (en_lasttag s + 1 <? f_tag f)
    by (destruct (Z.ltb_spec (en_lasttag s + 1) (f_tag f)), (Z.ltb_spec 0 (f_tag f - en_lasttag s - 1)); lia || done).
  assert (Hdata : exists d', d' = data_of (f_tag f, (v, b)) /\ written (Some (v, b)) = d' /\
    (if val =? 0 then en_data s + sz else en_data s) = en_data s + len d' /\ (if val =? 0 then en_size s - sz else en_size s) = en_size s - len d').
  { eexists. split; [done|]. unfold data_of, written, val. cbn [snd fst]. destruct v as [v|]; cbn in Hcode.
    - destruct Hcode as [? _]. destruct (Z.eqb_spec ((v + 1) * 2) 0); [lia|]. unfold len. cbn. split_and!; [done|lia|lia].
    - injection Hcode as ->. rewrite len_app, len_le. cbn [Z.eqb]. split_and!; [done|lia|lia]. }
  destruct Hdata as (d' & Ed' & Hw & -> & ->). rewrite <- Ed'. rewrite Hw in *. rewrite len_app in Hsz.
  cbn [records]. fold val. replace ((f_tag f - en_lasttag s - 2) * 2 + 1) with skip by (unfold skip; lia).
  assert (Hsk : (0xffff <? skip) = false) by (unfold skip; destruct (Z.ltb_spec 0xffff ((f_tag f - en_lasttag s - 1 - 1) * 2 + 1)); [lia|done]). rewrite Hsk.
  destruct (en_lasttag s + 1 <? f_tag f); cbn [andb].
  - destruct (split_front junk 4) as (j & junk' & -> & Hj'); [unfold len in *; lia|]. rewrite len_app in Hj.
    destruct (split_front j 2) as (j1 & j2 & -> & Hj1); [lia|]. rewrite length_app in Hj'.
    rewrite Hbuf, <- !app_assoc. rewrite (app_assoc h0 (recs rs)).
    rewrite (write_at _ j1 _ (word skip)), bind_ret by (rewrite ?word_le, ?le_length, ?len_app; lia). rewrite app_assoc.
    rewrite (write_at _ j2 _ (word val)), bind_ret by (rewrite ?word_le, ?le_length, ?len_app, ?len_le; lia).
    eexists. split; [done|]. split_and!; [|done..]. split; cbn [en_buf en_index en_size en_data en_ud].
    + exists h0, junk', tail'. rewrite recs_app, !word_le. cbn [app]. rewrite !recs_cons. change (recs []) with (@nil Z). rewrite app_nil_r, <- !app_assoc.
      unfold len in *. rewrite length_app in *. split_and!; [done|lia|lia|lia].
    + rewrite len_app. unfold len at 2. cbn. lia.
    + rewrite len_app. lia.
  - destruct (split_front junk 2) as (j1 & junk' & -> & Hj1); [unfold len in *; lia|]. rewrite len_app in Hj.
    rewrite bind_ret, Hbuf, <- !app_assoc. rewrite (app_assoc h0 (recs rs)).
    rewrite (write_at _ j1 _ (word val)), bind_ret by (rewrite ?word_le, ?le_length, ?len_app; lia).
    eexists. split; [done|]. split_and!; [|done..]. split; cbn [en_buf en_index en_size en_data en_ud].
    + exists h0, junk', tail'. rewrite recs_app, !word_le. cbn [app]. rewrite !recs_cons. change (recs []) with (@nil Z). rewrite app_nil_r, <- !app_assoc.
      unfold len in *. split_and!; [done|lia|lia|lia].
    + rewrite len_app. unfold len at 2. cbn. lia.
    + rewrite len_app. lia.
Qed.

(** The records stay in their space: [p] is the last tag declared so far. *)
Definition records_fit (maxn p : Z) (fs : list field) (s : @encoding U) : Prop :=
  -1 <= en_lasttag s <= p /\ ascending p (f_tag <$> fs) /\ Forall (fun f => f_tag f < 0x7fff) fs /\
  en_index s + len fs + gaps p (f_tag <$> fs) + (if en_lasttag s <? p then 1 else 0) <= maxn.

Lemma encode_fields_ok ud fs room ud' l : fields_write ud fs room ud' l -> forall maxn p rs ds s,
  en_ud s = ud -> layout maxn rs ds s -> records_fit maxn p fs s -> room <= en_size s -> en_size s < 2 ^ 31 ->
  exists s', encode_fields cb fs s = Ok (inl s') /\ en_ud s' = ud' /\ layout maxn (rs ++ records (en_lasttag s) l) (ds ++ datas l) s' /\
    en_size s' = en_size s - len (datas l).
Proof.
  induction 1 as [ud|ud f room ud1 res fs room' ud2 l Hw Hroom0 Hroom' _ IH]; intros maxn p rs ds s Hud L F Hroom H31.
  - exists s. cbn. rewrite !app_nil_r. split_and!; [done..|]. unfold len. cbn. lia.
  - pose proof (writes_room _ _ _ _ _ Hw ltac:(lia)) as Hlen. destruct L as [(h0 & junk & tail & Hbuf & Hh & Hj & Ht) Hi Hd]. destruct F as (F1 & F2 & F3 & F4).
    cbn [fmap list_fmap] in F2, F4. destruct F2 as [Fp Fa]. apply Forall_cons in F3 as [Ff F3]. rewrite len_cons in F4. cbn [gaps] in F4.
    assert (Hpre : h0 ++ recs rs ++ junk ++ ds ++ tail = (h0 ++ recs rs ++ junk ++ ds) ++ tail) by (by rewrite <- !app_assoc).
    assert (Hlp : len (h0 ++ recs rs ++ junk ++ ds) = en_data s) by (rewrite !len_app, len_recs; lia).
    destruct (Hw (h0 ++ recs rs ++ junk ++ ds) tail) as (tail' & r & E & Hl & Hc); [lia|lia|].
    cbn [encode_fields]. rewrite Hbuf, Hpre, Hud, <- Ht, <- Hlp, E, bind_ret. cbv zeta. clear E.
    set (s1 := {| en_ud := ud1 |}). pose proof (len_nonneg (written res)) as Hw0.
    pose proof (gaps_nonneg (f_tag <$> fs) (f_tag f)) as Hg.
    assert (Habs : res = None -> exists s', encode_fields cb fs s1 = Ok (inl s') /\ en_ud s' = ud2 /\
      layout maxn (rs ++ records (en_lasttag s) (add_field f res l)) (ds ++ datas (add_field f res l)) s' /\
      en_size s' = len tail - len (datas (add_field f res l))).
    { intros ->. cbn [add_field]. apply (IH maxn (f_tag f) rs ds s1); unfold s1.
      - done.
      - split; cbn [en_buf en_index en_size en_data en_ud]; [|done|lia].
        exists h0, junk, tail'. cbn [written app] in *. rewrite <- !app_assoc. split_and!; [done|done|done|lia].
      - unfold records_fit. cbn [en_lasttag en_index]. split_and!; [lia|lia|done|done|].
        destruct (Z.ltb_spec (en_lasttag s) (f_tag f)); [|lia].
        destruct (Z.ltb_spec (p + 1) (f_tag f)), (Z.ltb_spec (en_lasttag s) p); lia.
      - cbn [en_size]. lia.
      - cbn [en_size]. lia. }
    destruct res as [[v b]|].
    + assert (Hsz : exists sz, r = FieldSz match v with Some v => (v + 1) * 2 | None => 0 end sz /\ 0 < sz).
      { destruct v as [v|]; cbn in Hc; [destruct Hc as [? ->]; exists 2; split; [done|lia]|]. exists (len b + 4). split; [done|]. pose proof (len_nonneg b). lia. }
      destruct Hsz as (sz & -> & Hpos). destruct (Z.ltb_spec sz 0); [lia|]. destruct (Z.ltb_spec 0 sz); [|lia].
      destruct (put_record_ok maxn rs ds s1 f v b sz tail' h0 junk) as (s2 & -> & L2 & Hlt & Hu2 & Hs2); unfold s1; cbn [en_buf en_index en_size en_data en_lasttag].
      * by rewrite <- !app_assoc.
      * done.
      * done.
      * done.
      * rewrite Hlp. done.
      * lia.
      * lia.
      * done.
      * destruct (Z.ltb_spec (en_lasttag s + 1) (f_tag f)), (Z.ltb_spec (p + 1) (f_tag f)), (Z.ltb_spec (en_lasttag s) p); unfold len in F4; lia.
      * done.
      * rewrite bind_ret. cbn [en_lasttag s1] in L2.
        assert (Hdw : len (data_of (f_tag f, (v, b))) = len (written (Some (v, b)))) by (by destruct v).
        destruct (IH maxn (f_tag f) _ _ s2 Hu2 L2) as (s3 & E3 & Hu3 & L3 & Hs3).
        -- unfold records_fit. rewrite Hlt. destruct L2 as [_ Hi2 _]. rewrite Hi2, len_app. split_and!; [lia|lia|done|done|].
           rewrite Z.ltb_irrefl, len_record.
           destruct (Z.ltb_spec (en_lasttag s + 1) (f_tag f)), (Z.ltb_spec (p + 1) (f_tag f)), (Z.ltb_spec (en_lasttag s) p); lia.
        -- rewrite Hs2. unfold s1. cbn [en_size]. lia.
        -- rewrite Hs2. unfold s1. cbn [en_size]. pose proof (len_nonneg (data_of (f_tag f, (v, b)))). lia.
        -- exists s3. cbn [add_field]. change (datas ((f_tag f, (v, b)) :: l)) with (data_of (f_tag f, (v, b)) ++ datas l).
           split_and!; [done|done| |rewrite Hs3, Hs2, len_app; cbn [en_size s1]; lia]. rewrite Hlt, <- !app_assoc in L3.
           cbn [records] in *. rewrite <- !app_assoc in L3. exact L3.
    + destruct (Habs eq_refl) as (s' & E' & ? & ? & ?). exists s'. cbn in Hc. by destruct Hc as [-> | ->].
Qed.

(** A message of a well-formed type is its wire format, at the start of the
    buffer, when there is room for it. *)
Lemma sproto_encode_ok type_n st buf size ud ud' room l :
  wf_type type_n st -> fields_write ud (t_f st) room ud' l ->
  size = len buf -> 2 + 2 * t_maxn st + room <= size -> 0 <= room -> size < 2 ^ 31 ->
  exists rest, sproto_encode cb st buf size ud = Ok (ud', wire l ++ rest, len (wire l)) /\ len (wire l ++ rest) = len buf.
Proof.
  intros W Hw -> Hroom Hr0 H31. unfold sproto_encode, SIZEOF_HEADER, SIZEOF_FIELD. cbv zeta.
  pose proof (maxn_bound _ _ W) as Hmx. destruct (Z.ltb_spec (len buf) (2 + t_maxn st * 2)); [lia|].
  set (s0 := {| en_ud := ud |}).
  destruct (split_front buf (Z.to_nat (2 + t_maxn st * 2))) as (hd & tail & -> & Hhd); [unfold len in *; lia|].
  destruct (split_front hd 2) as (h0 & junk & -> & Hh0); [lia|]. rewrite length_app in Hhd. rewrite !len_app in *.
  destruct (encode_fields_ok ud (t_f st) room ud' l Hw (t_maxn st) (-1) [] [] s0) as (s & -> & Hu & L & Hsz).
  - done.
  - split; cbn [en_buf en_index en_size en_data en_ud s0]; [|done|unfold len; cbn; lia].
    exists h0, junk, tail. cbn [recs fmap list_fmap concat app]. rewrite <- app_assoc. unfold len in *. rewrite !length_app. split_and!; [done|lia|lia|lia].
  - unfold records_fit. cbn [en_lasttag en_index s0]. split_and!; [lia|lia|apply (wt_asc _ _ W)| |].
    + eapply Forall_impl; [apply (wt_fields _ _ W)|]. intros f (_ & ? & _). lia.
    + rewrite Z.ltb_irrefl. rewrite (wt_maxn _ _ W), (wt_n _ _ W). unfold len. lia.
  - unfold s0. cbn [en_size]. rewrite !len_app. unfold len in *. lia.
  - unfold s0. cbn [en_size]. rewrite !len_app. unfold len in *. lia.
  - rewrite bind_ret. cbn [app s0 en_lasttag] in L. destruct L as [(h & j & t & Hbuf & Hh & Hj & Ht) Hi Hd].
    set (rs := records (-1) l) in *. set (ds := datas l) in *. rewrite Hbuf.
    pose proof (mem_write_ok [] h (recs rs ++ j ++ ds ++ t) (word (en_index s))) as Hw0. cbn [app length] in Hw0. change (Z.of_nat 0) with 0 in Hw0.
    rewrite Hw0, bind_ret by (rewrite word_le, le_length; unfold len in Hh; lia).
    assert (Hlr := len_recs rs). assert (Hwl : len (word (en_index s)) = 2) by (rewrite word_le; apply len_le).
    assert (Hres : len (wire l) = 2 + en_index s * 2 + (en_data s - (2 + t_maxn st * 2)))
      by (unfold wire; fold rs ds; rewrite !len_app, len_le, len_recs, Hd; lia).
    cbn [en_size s0] in Hsz. fold ds in Hsz. rewrite !len_app in Hsz.
    destruct (Z.eqb_spec (en_index s) (t_maxn st)) as [He|He]; cbn [negb].
    + rewrite bind_ret, <- Hres, Hu. assert (j = []) as -> by (destruct j; [done|]; unfold len in Hj; cbn in Hj; lia).
      exists t. unfold wire. fold rs ds. rewrite word_le, Hi, <- !app_assoc. cbn [app]. split; [done|].
      rewrite !len_app, len_le, len_recs. unfold len in *. lia.
    + rewrite (read_at_parts (word (en_index s)) (recs rs) j ds t) by lia. rewrite bind_ret.
      destruct (split_front (j ++ ds ++ t) (length ds)) as (x & y & Exy & Hx); [rewrite !length_app; lia|].
      rewrite Exy. rewrite (app_assoc (word _) (recs rs)). rewrite (write_at _ x y ds) by (rewrite ?len_app; lia). rewrite bind_ret, <- Hres, Hu.
      exists y. unfold wire. fold rs ds. rewrite word_le, Hi, <- !app_assoc. split; [done|].
      apply (f_equal len) in Exy. rewrite !len_app in Exy. rewrite !len_app, len_le, len_recs. unfold len in *. lia.
Qed.
End Fields.
