(* ===== verification/SprotoArrays.v ===== *)
(** * Arrays on the wire of sproto

    [encode_integer_array] widens its elements in place when the first one comes
    that needs 64 bits; [encode_array] puts the elements the callback delivers
    one after another. *)

From S2P Require Import Prelude SprotoSchema SprotoSchemaProofs SprotoCodec SprotoCodecProofs.
From Stdlib Require Import ZArith Lia.
From stdpp Require Import base numbers list.
#[local] Open Scope Z_scope.
#[local] Open Scope list_scope.
Import Schema Codec.

(** ** Signed integers *)

Definition fits32 (z : Z) : bool := (- 2 ^ 31 <=? z) && (z <? 2 ^ 31).

Lemma fits32_spec z : fits32 z = true <-> - 2 ^ 31 <= z < 2 ^ 31.
Proof. unfold fits32. rewrite andb_true_iff, Z.leb_le, Z.ltb_lt. done. Qed.

Lemma sign_extend z : fits32 z = true -> to_le 8 z = to_le 4 z ++ replicate 4 (if z <? 0 then 255 else 0).
Proof.
  intros H%fits32_spec. rewrite (to_le_app 4 4). f_equal. change (256 ^ Z.of_nat 4) with (2 ^ 32).
  destruct (Z.ltb_spec z 0).
  - by rewrite <- (Z.div_unique z (2 ^ 32) (-1) (z + 2 ^ 32)) by lia.
  - by rewrite Z.div_small by lia.
Qed.

(** The top bit of an unsigned number of [k + 1] bits. *)
Lemma land_top v k : 0 <= k -> 0 <= v < 2 ^ (k + 1) -> (Z.land v (2 ^ k) =? 0) = (v <? 2 ^ k).
Proof.
  intros Hk Hv. rewrite Z.pow_add_r in Hv by lia. change (2 ^ 1) with 2 in Hv.
  assert (Hb : Z.testbit v k = (2 ^ k <=? v)).
  { rewrite Z.testbit_eqb by done. destruct (Z.leb_spec (2 ^ k) v).
    - by rewrite <- (Z.div_unique v (2 ^ k) 1 (v - 2 ^ k)) by lia.
    - by rewrite Z.div_small by lia. }
  destruct (Z.ltb_spec v (2 ^ k)) as [Hlt|Hge].
  - apply Z.eqb_eq. apply Z.bits_inj'. intros n Hn. rewrite Z.land_spec, Z.bits_0, Z.pow2_bits_eqb by done.
    destruct (Z.eqb_spec k n) as [->|]; [|by rewrite andb_false_r]. rewrite Hb.
    destruct (Z.leb_spec (2 ^ n) v); [lia|done].
  - apply Z.eqb_neq. intros E. apply (f_equal (fun z => Z.testbit z k)) in E.
    rewrite Z.land_spec, Z.bits_0, Z.pow2_bits_true, Hb, andb_true_r in E by done. destruct (Z.leb_spec (2 ^ k) v); [done|lia].
Qed.

Lemma negative_word z : fits32 z = true -> negb (Z.land (z mod 2 ^ 32) 0x80000000 =? 0) = (z <? 0).
Proof.
  intros H%fits32_spec. change 0x80000000 with (2 ^ 31). rewrite land_top by (lia || apply Z.mod_pos_bound; lia).
  destruct (Z.ltb_spec z 0).
  - rewrite <- (Z.mod_unique z (2 ^ 32) (-1) (z + 2 ^ 32)) by lia. destruct (Z.ltb_spec (z + 2 ^ 32) (2 ^ 31)); [lia|done].
  - rewrite Z.mod_small by lia. destruct (Z.ltb_spec z (2 ^ 31)); [done|lia].
Qed.

Lemma negative_byte z : fits32 z = true -> negb (Z.land (z / 2 ^ 24 mod 256) 0x80 =? 0) = (z <? 0).
Proof.
  intros H%fits32_spec. change 0x80 with (2 ^ 7). rewrite land_top by (lia || apply Z.mod_pos_bound; lia).
  assert (-128 <= z / 2 ^ 24 < 128) by (split; [apply Z.div_le_lower_bound|apply Z.div_lt_upper_bound]; lia).
  destruct (Z.ltb_spec z 0).
  - assert (z / 2 ^ 24 < 0) by (apply Z.div_lt_upper_bound; lia).
    rewrite <- (Z.mod_unique (z / 2 ^ 24) 256 (-1) (z / 2 ^ 24 + 256)) by lia. destruct (Z.ltb_spec (z / 2 ^ 24 + 256) (2 ^ 7)); [lia|done].
  - pose proof (Z.div_pos z (2 ^ 24) ltac:(lia) ltac:(lia)). rewrite Z.mod_small by lia. destruct (Z.ltb_spec (z / 2 ^ 24) (2 ^ 7)); [done|lia].
Qed.

(** ** Widening in place *)

Definition ints (w : nat) (zs : list Z) : list Z := concat (to_le w <$> zs).

Lemma ints_app w a b : ints w (a ++ b) = ints w a ++ ints w b.
Proof. unfold ints. by rewrite fmap_app, concat_app. Qed.
Lemma ints_cons w z zs : ints w (z :: zs) = to_le w z ++ ints w zs.
Proof. done. Qed.
Lemma length_ints w zs : length (ints w zs) = (w * length zs)%nat.
Proof.
  unfold ints. rewrite (length_chunks w), length_fmap; [done|]. apply Forall_forall. intros b (z & -> & _)%list_elem_of_fmap. apply le_length.
Qed.

Lemma rearrange_ok zs : forall pre rest header, Forall (fun z => fits32 z = true) zs -> header + 1 = len pre ->
  (4 * length zs <= length rest)%nat ->
  rearrange (length zs) (pre ++ ints 4 zs ++ rest) header = Ok (pre ++ ints 8 zs ++ drop (4 * length zs) rest).
Proof.
  induction zs as [|z zs IH] using rev_ind; intros pre rest header HF Hh Hl; [done|].
  apply Forall_app in HF as [HF Hz]. apply Forall_cons in Hz as [Hz _]. rewrite length_app in *. cbn [length] in *.
  replace (length zs + 1)%nat with (S (length zs)) by lia. cbn [rearrange]. cbv zeta.
  rewrite !ints_app, !ints_cons. cbn [ints fmap list_fmap concat]. rewrite !app_nil_r, <- !app_assoc.
  pose proof (length_ints 4 zs) as H4.
  rewrite (app_assoc pre), (read_at _ (to_le 4 z)), bind_ret by (rewrite ?len_app, ?len_le; unfold len in *; lia).
  destruct (split_front (to_le 4 z ++ rest) (4 * length zs)) as (r1 & r' & Er & Hr1); [rewrite length_app, le_length; lia|].
  assert (Hr' : length r' = (length rest + 4 - 4 * length zs)%nat) by (apply (f_equal length) in Er; rewrite !length_app, le_length in Er; lia).
  destruct (split_front r' 8) as (r2 & r3 & -> & Hr2); [lia|]. destruct (split_front r2 4) as (ra & rb & -> & Hra); [lia|]. rewrite length_app in Hr2.
  rewrite Er, <- (app_assoc pre), <- !app_assoc.
  rewrite (app_assoc pre), (app_assoc (pre ++ _)), (write_at _ ra _ (to_le 4 z)), bind_ret by (rewrite ?le_length, ?len_app; unfold len in *; lia).
  assert (Hs : arr_get (((pre ++ ints 4 zs) ++ r1) ++ to_le 4 z ++ rb ++ r3) (header + 1 + Z.of_nat (length zs) * 8 + 3) = Ok (z / 2 ^ 24 mod 256)).
  { replace (header + 1 + Z.of_nat (length zs) * 8 + 3) with (len ((pre ++ ints 4 zs) ++ r1) + 3) by (rewrite !len_app; unfold len in *; lia).
    cbn [to_le app]. rewrite get_at3, !Z.div_div by lia. done. }
  rewrite Hs, bind_ret, negative_byte by done. unfold uint32_to_uint64.
  rewrite (app_assoc _ (to_le 4 z)), (write_at _ rb r3), bind_ret by (rewrite ?length_replicate, ?len_app, ?len_le; unfold len in *; lia).
  rewrite <- !app_assoc. rewrite (app_assoc (to_le 4 z)), <- sign_extend by done.
  rewrite (IH pre (r1 ++ to_le 8 z ++ r3) header HF Hh) by (rewrite !length_app, le_length; lia).
  do 3 f_equal. rewrite drop_app_ge, Hr1, Nat.sub_diag, drop_0 by lia. f_equal.
  assert (Hd : drop (4 * length zs + 8) (to_le 4 z ++ rest) = r3).
  { rewrite Er. rewrite !app_assoc, <- (app_assoc r1), drop_app_ge by (rewrite !length_app; lia). rewrite !length_app.
    by replace (4 * length zs + 8 - (length r1 + (length ra + length rb)))%nat with 0%nat by lia. }
  rewrite <- Hd, drop_app_ge by (rewrite le_length; lia). rewrite le_length. f_equal. lia.
Qed.

(** ** Integer arrays *)

Definition wide (zs : list Z) : bool := negb (forallb fits32 zs).
Definition width (zs : list Z) : nat := if wide zs then 8 else 4.

(** The data of an array of integers. *)
Definition int_body (zs : list Z) : list Z :=
  match zs with [] => [] | _ => Z.of_nat (width zs) :: ints (width zs) zs end.

Lemma wide_app a b : wide (a ++ b) = wide a || wide b.
Proof. unfold wide. by rewrite forallb_app, negb_andb. Qed.

Lemma not_wide zs : wide zs = false -> Forall (fun z => fits32 z = true) zs.
Proof. intros H%negb_false_iff. apply Forall_forall. intros z Hz. rewrite forallb_forall in H. apply H. by apply list_elem_of_In. Qed.

Lemma le_value n z u : take n u = to_le n z -> of_le (take n u) = z mod 256 ^ Z.of_nat n.
Proof. intros ->. apply of_le_le. Qed.

Lemma to_le_mod4 z : to_le 4 (z mod 2 ^ 32) = to_le 4 z.
Proof.
  assert (H : forall n v k, (n <= k)%nat -> to_le n (v mod 256 ^ Z.of_nat k) = to_le n v).
  { induction n as [|n IH]; intros v k Hk; [done|]. destruct k as [|k]; [lia|]. cbn [to_le].
    rewrite Nat2Z.inj_succ, Z.pow_succ_r by lia. f_equal.
    - rewrite Z.rem_mul_r by lia. rewrite (Z.mul_comm 256), Z.mod_add, Z.mod_mod by lia. done.
    - rewrite Z.rem_mul_r by lia. rewrite (Z.mul_comm 256), Z.div_add, Z.div_small by (lia || apply Z.mod_pos_bound; lia).
      rewrite Z.add_0_l. apply IH. lia. }
  apply (H 4%nat z 4%nat). lia.
Qed.

Lemma to_le_mod8 z : to_le 8 (z mod 2 ^ 64) = to_le 8 z.
Proof.
  rewrite !(to_le_app 4 4). change (256 ^ Z.of_nat 4) with (2 ^ 32).
  assert (E : z mod 2 ^ 64 = z mod 2 ^ 32 + 2 ^ 32 * (z / 2 ^ 32 mod 2 ^ 32)) by (change (2 ^ 64) with (2 ^ 32 * 2 ^ 32); by rewrite Z.rem_mul_r).
  pose proof (Z.mod_pos_bound z (2 ^ 32) ltac:(lia)). f_equal.
  - rewrite <- to_le_mod4, E, (Z.mul_comm (2 ^ 32)), Z.mod_add, Z.mod_mod by lia. apply to_le_mod4.
  - rewrite E, (Z.mul_comm (2 ^ 32)), Z.div_add, Z.div_small by lia. rewrite Z.add_0_l. apply to_le_mod4.
Qed.

Section Arrays.
Context {U : Type} (cb : U -> arg -> outcome (U * Z * list Z)) (args : arg).

(** The callback delivers integers, from index [i], and then nil. *)
Inductive delivers_ints : U -> Z -> list Z -> U -> Prop :=
  | di_end ud i ud' u :
      cb ud (with_value args (Some (replicate 8 0)) 8 i) = Ok (ud', SPROTO_CB_NIL, u) -> delivers_ints ud i [] ud'
  | di_next ud i z zs ud1 ud2 (u : list Z) :
      cb ud (with_value args (Some (replicate 8 0)) 8 i) = Ok (ud1, if fits32 z then 4 else 8, u) ->
      take (if fits32 z then 4 else 8) u = to_le (if fits32 z then 4 else 8) z ->
      delivers_ints ud1 (i + 1) zs ud2 -> delivers_ints ud i (z :: zs) ud2.

Lemma lt_size_t_spec a b : 0 <= a < 2 ^ 31 -> lt_size_t a b = (a <? b).
Proof. intros. unfold lt_size_t, u64. by rewrite Z.mod_small by lia. Qed.

Lemma int_loop_ok ud i zs ud' : delivers_ints ud i zs ud' -> forall fuel front done pre x tail,
  i = len done + 1 -> (length zs < fuel)%nat -> len tail < 2 ^ 31 ->
  front = pre ++ [x] -> 8 * len (done ++ zs) <= len (ints (width done) done) + len tail ->
  exists buf tail', int_loop cb fuel args (len pre)
      {| ia_ud := ud; ia_buf := front ++ ints (width done) done ++ tail; ia_buffer := len front + len (ints (width done) done);
         ia_size := len tail; ia_intlen := Z.of_nat (width done); ia_index := i |}
    = Ok (IaDone {| ia_ud := ud'; ia_buf := buf; ia_buffer := len front + len (ints (width (done ++ zs)) (done ++ zs));
         ia_size := len tail'; ia_intlen := Z.of_nat (width (done ++ zs)); ia_index := len (done ++ zs) + 1 |} false) /\
    buf = front ++ ints (width (done ++ zs)) (done ++ zs) ++ tail' /\
    len (ints (width (done ++ zs)) (done ++ zs) ++ tail') = len (ints (width done) done ++ tail).
Proof.
  induction 1 as [ud i ud' u Hcb|ud i z zs ud1 ud2 u Hcb Hu Hd IH]; intros fuel front done pre x tail Hi Hf H31 Hfr Hroom;
    (destruct fuel as [|fuel]; [cbn in Hf; lia|]); cbn [int_loop ia_ud ia_index]; rewrite Hcb, bind_ret; cbn [ia_buf ia_buffer ia_size ia_intlen ia_index ia_ud].
  - change (SPROTO_CB_NIL <=? 0) with true. rewrite Z.eqb_refl, app_nil_r. eexists _, tail. split_and!; [|done|done]. by rewrite Hi.
  - assert (Hlf : len front = len pre + 1) by (rewrite Hfr, len_app; done).
    assert (Hw4 : len (ints (width done) done) = Z.of_nat (width done) * len done) by (unfold len; rewrite length_ints; lia).
    assert (Hwid : width done = 4%nat /\ wide done = false \/ width done = 8%nat /\ wide done = true) by (unfold width; destruct (wide done); auto).
    rewrite len_app, len_cons in Hroom. pose proof (len_nonneg zs) as Hzs. pose proof (len_nonneg done) as Hdn.
    assert (Happ : done ++ z :: zs = (done ++ [z]) ++ zs) by (by rewrite <- app_assoc). rewrite Happ.
    assert (Hln : len (done ++ [z]) = len done + 1) by (rewrite len_app; done).
    cbn [length] in Hf.
    assert (Htl : 8 <= len tail) by (destruct Hwid as [[E _]|[E _]]; rewrite E in *; lia).
    rewrite (lt_size_t_spec (len tail)) by lia. destruct (Z.ltb_spec (len tail) 8); [lia|].
    destruct (fits32 z) eqn:Ez.
    + change (4 <=? 0) with false. rewrite Z.eqb_refl. cbv iota. rewrite (le_value 4 z u Hu), bytes4_le, to_le_mod4.
      destruct (split_front tail (width done)) as (t1 & t2 & -> & Ht1); [unfold len in *; destruct Hwid as [[-> _]|[-> _]]; lia|].
      rewrite (len_app t1) in *.
      assert (Hwd : width (done ++ [z]) = width done) by (unfold width; rewrite wide_app; cbn [wide forallb]; unfold wide at 2; cbn; rewrite Ez; cbn; by rewrite orb_false_r).
      assert (Hwrite : (buf ← mem_write (front ++ ints (width done) done ++ t1 ++ t2) (len front + len (ints (width done) done)) (to_le 4 z);
         (if Z.of_nat (width done) =? 8 then uint32_to_uint64 (negb (Z.land (z mod 256 ^ Z.of_nat 4) 0x80000000 =? 0)) buf (len front + len (ints (width done) done)) else Ok buf))
         = Ok (front ++ ints (width (done ++ [z])) (done ++ [z]) ++ t2)).
      { rewrite Hwd, ints_app, ints_cons. cbn [ints fmap list_fmap concat]. rewrite app_nil_r, <- !app_assoc.
        change (256 ^ Z.of_nat 4) with (2 ^ 32). rewrite negative_word by done.
        destruct Hwid as [[E _]|[E _]]; rewrite E in *.
        - rewrite (app_assoc front), (write_at _ t1 t2), bind_ret by (rewrite ?le_length, ?len_app; lia). cbn [Z.eqb Z.of_nat Pos.of_succ_nat Pos.succ Pos.eqb].
          by rewrite <- !app_assoc.
        - destruct (split_front t1 4) as (ta & tb & -> & Hta); [lia|]. rewrite length_app in Ht1. rewrite <- !app_assoc.
          rewrite (app_assoc front), (write_at _ ta _ (to_le 4 z)), bind_ret by (rewrite ?le_length, ?len_app; lia). cbn [Z.eqb Z.of_nat Pos.of_succ_nat Pos.succ Pos.eqb].
          unfold uint32_to_uint64. rewrite (app_assoc _ (to_le 4 z)), (write_at _ tb t2) by (rewrite ?length_replicate, ?len_app, ?len_le; lia).
          rewrite (sign_extend z Ez), <- !app_assoc. done. }
      rewrite <- bind_assoc, Hwrite, bind_ret.
      replace (len front + len (ints (width done) done) + Z.of_nat (width done)) with (len front + len (ints (width (done ++ [z])) (done ++ [z])))
        by (rewrite Hwd; unfold len; rewrite !length_ints, length_app; cbn; lia).
      replace (len t1 + len t2 - Z.of_nat (width done)) with (len t2) by (unfold len; lia).
      destruct (IH fuel front (done ++ [z]) pre x t2) as (buf & tail' & E & Hb & Hl); [lia|lia|unfold len in *; lia|done| |].
      { rewrite !len_app in *. unfold len in *. rewrite Hwd, !length_ints, length_app in *. cbn [length]. lia. }
      exists buf, tail'. split_and!; [rewrite Hwd in E |- *; exact E|done|]. rewrite Hl, Hwd, ints_app, !len_app.
      unfold len. rewrite !length_ints. cbn [length]. lia.
    + change (8 <=? 0) with false. change (8 =? 4) with false. change (negb (8 =? 8)) with false. cbv iota. rewrite (le_value 8 z u Hu), bytes8_le. change (256 ^ Z.of_nat 8) with (2 ^ 64). rewrite to_le_mod8.
      assert (Hwd : width (done ++ [z]) = 8%nat) by (unfold width; rewrite wide_app; unfold wide at 2; cbn; rewrite Ez; cbn; by rewrite orb_true_r).
      assert (Hwidth : Z.of_nat (width done) = 4 \/ Z.of_nat (width done) = 8) by (destruct Hwid as [[-> _]|[-> _]]; lia).
      assert (Hstep : exists t2 size buffer,
         size = len t2 + 8 /\ buffer = len front + len (ints 8 done) /\
         size = (if Z.of_nat (width done) =? 4 then len tail - (i - 1) * 4 else len tail) /\
         buffer = (if Z.of_nat (width done) =? 4 then len front + len (ints (width done) done) + (i - 1) * 4 else len front + len (ints (width done) done)) /\
         (buf ← (if Z.of_nat (width done) =? 4 then rearrange (Z.to_nat (i - 1)) (front ++ ints (width done) done ++ tail) (len pre) else Ok (front ++ ints (width done) done ++ tail));
          mem_write buf buffer (to_le 8 z)) = Ok (front ++ ints 8 (done ++ [z]) ++ t2) /\
         len (ints 8 (done ++ [z]) ++ t2) = len (ints (width done) done ++ tail)).
      { rewrite ints_app, ints_cons. cbn [ints fmap list_fmap concat]. rewrite app_nil_r.
        destruct Hwid as [[E En]|[E En]]; rewrite E in *.
        - assert (Hl8 : (4 * length done + 8 <= length tail)%nat) by (unfold len in *; lia).
          exists (drop (4 * length done + 8) tail), (len tail - (i - 1) * 4), (len front + len (ints 4 done) + (i - 1) * 4).
          replace (Z.to_nat (i - 1)) with (length done) by (unfold len in *; lia). change (Z.of_nat 4 =? 4) with true. cbv iota.
          unfold len. rewrite !length_app, !length_ints, length_drop, le_length. unfold len in *. split_and!; [lia|lia|done|done| |lia].
          rewrite (rearrange_ok done front tail (Z.of_nat (length pre)) (not_wide _ En)), bind_ret by (unfold len in *; lia).
          destruct (split_front (drop (4 * length done) tail) 8) as (a & b & Eab & Ha); [rewrite length_drop; lia|]. rewrite Eab.
          rewrite (app_assoc front), (write_at _ a b) by (rewrite ?le_length, ?len_app; unfold len; rewrite ?length_ints; lia).
          f_equal. rewrite <- !app_assoc. do 3 f_equal.
          rewrite <- drop_drop, Eab. by rewrite <- Ha, drop_app_length.
        - destruct (split_front tail 8) as (a & b & -> & Ha); [unfold len in *; lia|].
          exists b, (len (a ++ b)), (len front + len (ints 8 done)). change (Z.of_nat 8 =? 4) with false. cbv iota.
          rewrite !len_app, len_le in *. unfold len in *. split_and!; [lia|done|lia|done| |lia].
          rewrite bind_ret, (app_assoc front), (write_at _ a b) by (rewrite ?le_length, ?len_app; unfold len; lia). by rewrite <- !app_assoc. }
      destruct Hstep as (t2 & size & buffer & H1 & H2 & H3 & H4 & H5 & H6). rewrite <- H3, <- H4.
      assert (Hlt : ((Z.of_nat (width done) =? 4) && lt_size_t size 8) = false).
      { rewrite H1, lt_size_t_spec; [destruct (Z.ltb_spec (len t2 + 8) 8); [pose proof (len_nonneg t2); lia|by rewrite andb_false_r]|].
        rewrite !len_app in H6. unfold len in *. rewrite !length_ints, length_app in H6. cbn [length] in H6. lia. }
      rewrite Hlt, <- bind_assoc, H5, bind_ret.
      replace (buffer + 8) with (len front + len (ints (width (done ++ [z])) (done ++ [z]))) by (rewrite Hwd, H2; unfold len; rewrite !length_ints, length_app; cbn; lia).
      replace (size - 8) with (len t2) by lia.
      destruct (IH fuel front (done ++ [z]) pre x t2) as (buf & tail' & E & Hb & Hl); [lia|lia| |done| |].
      { rewrite !len_app in H6. unfold len in *. rewrite !length_ints, length_app in H6. cbn [length] in H6. lia. }
      { rewrite !len_app in *. unfold len in *. rewrite Hwd, !length_ints, length_app in *. cbn [length] in *. lia. }
      exists buf, tail'. split_and!; [rewrite Hwd in E |- *; exact E|done|]. rewrite Hl, Hwd. exact H6.
Qed.

Lemma encode_integer_array_ok ud zs ud' pre tail : delivers_ints ud 1 zs ud' -> 1 + 8 * len zs <= len tail -> len tail < 2 ^ 31 ->
  exists tail', encode_integer_array cb ud args (pre ++ tail) (len pre) (len tail)
      = Ok (ud', pre ++ int_body zs ++ tail', Some (len pre + len (int_body zs), false)) /\ len (int_body zs ++ tail') = len tail.
Proof.
  intros Hd Hroom H31. unfold encode_integer_array. pose proof (len_nonneg zs) as Hz.
  destruct (Z.ltb_spec (len tail) 1); [lia|]. destruct tail as [|x tail]; [unfold len in *; cbn in *; lia|]. rewrite len_cons in *.
  destruct (int_loop_ok ud 1 zs ud' Hd (S (Z.to_nat (1 + len tail))) (pre ++ [x]) [] pre x tail) as (buf & tail' & E & -> & Hl);
    [done|unfold len in *; lia|lia|done|cbn [app]; unfold len in *; cbn; lia|].
  change (ints (width []) []) with (@nil Z) in E, Hl. change (width []) with 4%nat in E. cbn [app] in E, Hl. rewrite <- app_assoc in E. cbn [app] in E.
  change (len []) with 0 in E. rewrite Z.add_0_r, len_app in E. change (len [x]) with 1 in E. change (Z.of_nat 4) with 4 in E.
  replace (1 + len tail - 1) with (len tail) by lia. rewrite E, bind_ret. cbn [ia_buffer ia_ud ia_buf ia_intlen]. clear E.
  assert (Hli : len (ints (width zs) zs) = Z.of_nat (width zs) * len zs) by (unfold len; rewrite length_ints; lia).
  destruct zs as [|z zs].
  - change (len (ints (width []) [])) with 0 in *. rewrite Z.add_0_r, Z.eqb_refl. exists (x :: tail'). cbn [int_body app] in *.
    change (len []) with 0. rewrite Z.add_0_r, <- app_assoc. cbn [app ints fmap list_fmap concat] in *. rewrite !len_cons. split; [done|by rewrite Hl].
  - assert (Hw : (4 <= width (z :: zs))%nat) by (unfold width; destruct (wide _); lia).
    rewrite len_cons in Hli. pose proof (len_nonneg zs).
    destruct (Z.eqb_spec (len pre + 1 + len (ints (width (z :: zs)) (z :: zs))) (len pre + 1)) as [Heq|_]; [exfalso; rewrite Hli in Heq; nia|].
    rewrite <- app_assoc. rewrite (write_at pre [x]) by done. rewrite bind_ret. exists tail'. cbn [int_body].
    rewrite len_cons. cbn [app]. split; [by rewrite Z.add_assoc|]. rewrite len_cons, Hl. done.
Qed.

(** The callback delivers booleans. *)
Inductive delivers_bools : U -> Z -> list bool -> U -> Prop :=
  | db_end ud i ud' u :
      cb ud (with_value args (Some (replicate 4 0)) 4 i) = Ok (ud', SPROTO_CB_NIL, u) -> delivers_bools ud i [] ud'
  | db_next ud i (b : bool) bs ud1 ud2 (u : list Z) :
      cb ud (with_value args (Some (replicate 4 0)) 4 i) = Ok (ud1, 4, u) -> take 4 u = to_le 4 (Z.b2z b) ->
      delivers_bools ud1 (i + 1) bs ud2 -> delivers_bools ud i (b :: bs) ud2.

Lemma bool_loop_ok ud i bs ud' : delivers_bools ud i bs ud' -> forall fuel pre tail,
  (length bs < fuel)%nat -> len bs <= len tail -> 
  exists tail', bool_loop cb fuel ud args (pre ++ tail) (len pre) (len tail) i
      = Ok (ud', pre ++ (Z.b2z <$> bs) ++ tail', ArrEnd (len pre + len bs)) /\ len ((Z.b2z <$> bs) ++ tail') = len tail.
Proof.
  induction 1 as [ud i ud' u Hcb|ud i b bs ud1 ud2 u Hcb Hu _ IH]; intros fuel pre tail Hf Hl;
    (destruct fuel as [|fuel]; [cbn in Hf; lia|]); cbn [bool_loop]; rewrite Hcb, bind_ret.
  - change (SPROTO_CB_NIL <? 0) with true. rewrite Z.eqb_refl. exists tail. cbn [fmap list_fmap app]. split; [|done].
    do 3 f_equal. unfold len. cbn. lia.
  - rewrite len_cons in *. cbn [length] in Hf. pose proof (len_nonneg bs). change (4 <? 0) with false. cbv iota.
    destruct (Z.ltb_spec (len tail) 1); [lia|]. destruct tail as [|x tail]; [unfold len in *; cbn in *; lia|]. rewrite len_cons in *.
    change (pre ++ x :: tail) with (pre ++ [x] ++ tail). rewrite (write_at pre [x]) by done. rewrite bind_ret.
    assert (Hv : (if of_le (take 4 u) =? 0 then 0 else 1) = Z.b2z b) by (rewrite (le_value 4 _ u Hu); by destruct b). rewrite Hv.
    destruct (IH fuel (pre ++ [Z.b2z b]) tail) as (tail' & E & Hlt); [lia|lia|].
    exists tail'. replace (1 + len tail - 1) with (len tail) by lia. rewrite len_app in E. change (len [Z.b2z b]) with 1 in E.
    rewrite <- !app_assoc in E. cbn [app] in E |- *. rewrite E. cbn [fmap list_fmap].
    replace (len pre + 1 + len bs) with (len pre + (1 + len bs)) by lia. split; [done|]. cbn [app]. rewrite len_cons, <- Hlt. done.
Qed.

(** The callback puts [b] at the start of the room it is given. *)
Definition puts (ud : U) (i : Z) (b : list Z) (room : Z) (ud' : U) : Prop :=
  forall region, room <= len region -> len region < 2 ^ 31 ->
  exists rest, cb ud (with_value args (Some region) (len region) i) = Ok (ud', len b, b ++ rest) /\ len (b ++ rest) = len region.

Inductive delivers_objs : U -> Z -> list (list Z) -> Z -> U -> Prop :=
  | do_end ud i ud' :
      (forall region, cb ud (with_value args (Some region) (len region) i) = Ok (ud', SPROTO_CB_NIL, region)) -> delivers_objs ud i [] 4 ud'
  | do_next ud i b bs room room' ud1 ud2 :
      puts ud i b room ud1 -> 0 <= room -> delivers_objs ud1 (i + 1) bs room' ud2 -> delivers_objs ud i (b :: bs) (4 + room + room') ud2.

Definition obj_body (bs : list (list Z)) : list Z := concat ((fun b => to_le 4 (len b) ++ b) <$> bs).

Lemma obj_body_cons b bs : obj_body (b :: bs) = to_le 4 (len b) ++ b ++ obj_body bs.
Proof. change (obj_body (b :: bs)) with ((to_le 4 (len b) ++ b) ++ obj_body bs). by rewrite <- app_assoc. Qed.

Lemma puts_room ud i b room ud' : puts ud i b room ud' -> 0 <= room < 2 ^ 31 -> len b <= room.
Proof.
  intros Hp Hr. assert (Hl : len (replicate (Z.to_nat room) 0) = room) by (unfold len; rewrite length_replicate; lia).
  destruct (Hp (replicate (Z.to_nat room) 0)) as (rest & _ & E); [lia|lia|]. rewrite len_app, Hl in E. pose proof (len_nonneg rest). lia.
Qed.

Lemma delivers_room ud i bs room ud' : delivers_objs ud i bs room ud' -> 4 + 4 * len bs <= room /\ (room < 2 ^ 31 -> len (obj_body bs) + 4 <= room).
Proof.
  induction 1 as [|ud i b bs room room' ud1 ud2 Hp Hb _ IH]; [unfold len; cbn; lia|]. rewrite obj_body_cons, !len_app, len_le, len_cons.
  pose proof (len_nonneg bs). split; [lia|]. intros H31. pose proof (puts_room _ _ _ _ _ Hp ltac:(lia)). lia.
Qed.

Lemma object_loop_ok ud i bs room ud' : delivers_objs ud i bs room ud' -> forall fuel pre tail,
  (length bs < fuel)%nat -> room <= len tail -> len tail < 2 ^ 31 ->
  exists tail', object_loop cb fuel ud args (pre ++ tail) (len pre) (len tail) i
      = Ok (ud', pre ++ obj_body bs ++ tail', ArrEnd (len pre + len (obj_body bs))) /\ len (obj_body bs ++ tail') = len tail.
Proof.
  induction 1 as [ud i ud' Hcb|ud i b bs room room' ud1 ud2 Hp Hb Hd IH]; intros fuel pre tail Hf Hroom H31;
    (destruct fuel as [|fuel]; [cbn in Hf; lia|]); cbn [object_loop]; unfold SIZEOF_LENGTH.
  - destruct (Z.ltb_spec (len tail) 4); [lia|]. destruct (split_front tail 4) as (h & r & -> & Hh); [unfold len in *; lia|].
    assert (Hh4 : len h = 4) by (unfold len; lia). rewrite !len_app, Hh4 in *. cbv zeta. replace (4 + len r - 4) with (len r) by lia.
    rewrite app_assoc, read_tail, bind_ret, Hcb, bind_ret, write_tail, bind_ret by (rewrite ?len_app; done || lia). rewrite <- app_assoc. change (SPROTO_CB_NIL <? 0) with true. rewrite Z.eqb_refl. exists (h ++ r). cbn [obj_body fmap list_fmap concat app].
    change (len []) with 0. rewrite Z.add_0_r, len_app, Hh4. done.
  - cbn [length] in Hf. pose proof (delivers_room _ _ _ _ _ Hd) as [Hr2 Hr1]. pose proof (puts_room _ _ _ _ _ Hp) as Hpb. pose proof (len_nonneg b). pose proof (len_nonneg bs). pose proof (len_nonneg (obj_body bs)).
    destruct (Z.ltb_spec (len tail) 4); [lia|]. destruct (split_front tail 4) as (h & r & -> & Hh); [unfold len in *; lia|].
    assert (Hh4 : len h = 4) by (unfold len; lia). rewrite !len_app, Hh4 in *. cbv zeta. replace (4 + len r - 4) with (len r) by lia.
    rewrite app_assoc, read_tail, bind_ret by (rewrite ?len_app; done || lia). destruct (Hp r) as (rest & -> & Hrest); [lia|lia|]. rewrite bind_ret.
    rewrite write_tail, bind_ret by (rewrite ?len_app; unfold len in *; lia). rewrite <- app_assoc. destruct (Z.ltb_spec (len b) 0); [lia|].
    unfold fill_size. rewrite bytes4_le, (write_at pre h) by (rewrite ?le_length; lia || done). rewrite !bind_ret.
    rewrite len_app in Hrest.
    destruct (IH fuel (pre ++ to_le 4 (len b) ++ b) rest) as (tail' & E & Hlt); [lia|lia|lia|].
    exists tail'. rewrite !len_app, len_le in E. change (Z.of_nat 4) with 4 in E. replace (len r - len b) with (len rest) by lia.
    replace (len pre + 4 + len b) with (len pre + (4 + len b)) by lia. rewrite <- !app_assoc in E. rewrite E, obj_body_cons, <- !app_assoc.
    rewrite !len_app, len_le in *. split; [do 3 f_equal; lia|lia].
Qed.
End Arrays.
