(* ===== verification/SprotoFields.v ===== *)
(** * Fields on the wire of sproto

    What the code for one field of [sproto_encode] writes, for every type of
    field and for what the callback delivers, and what [sproto_decode] passes to
    its callback when it reads that. *)

From S2P Require Import Prelude SprotoSchema SprotoSchemaProofs SprotoCodec SprotoCodecProofs SprotoArrays.
From Stdlib Require Import ZArith Lia.
From stdpp Require Import base numbers list.
#[local] Open Scope Z_scope.
#[local] Open Scope list_scope.
Import Schema Codec.

Definition is_array (f : field) : bool := negb (Z.land (f_type f) SPROTO_TARRAY =? 0).
Definition base_type (f : field) : Z := Z.land (f_type f) (Z.lnot SPROTO_TARRAY).

Lemma type_cases n f : field_ok n f ->
  (is_array f = true \/ is_array f = false /\ f_type f = base_type f) /\
  (base_type f = SPROTO_TINTEGER \/ base_type f = SPROTO_TBOOLEAN \/ base_type f = SPROTO_TSTRING \/ base_type f = SPROTO_TSTRUCT).
Proof.
  intros (_ & _ & _ & b & Hb & Hr). unfold is_array, base_type.
  assert (b = 0 \/ b = 1 \/ b = 2 \/ b = 3) as Hc by (unfold SPROTO_TSTRUCT in Hr; lia).
  destruct Hb as [-> | ->], Hc as [-> | [-> | [-> | ->]]]; (split; [by (left; done) || (right; done)|]); auto.
Qed.

(** The word of a record holds integers from 0 on. *)
Definition small_int (z : Z) : option Z := if (0 <=? z) && (z <? 0x7fff) then Some z else None.
Definition int_bytes (z : Z) : list Z := to_le (if fits32 z then 4 else 8) z.

Lemma mod_small_int z : fits32 z = true -> (z mod 2 ^ 32 <? 0x7fff) = (0 <=? z) && (z <? 0x7fff).
Proof.
  intros H%fits32_spec. destruct (Z.leb_spec 0 z); cbn [andb].
  - by rewrite Z.mod_small by lia.
  - rewrite <- (Z.mod_unique z (2 ^ 32) (-1) (z + 2 ^ 32)) by lia. destruct (Z.ltb_spec (z + 2 ^ 32) 0x7fff); [lia|done].
Qed.

Lemma small_int_wide z : fits32 z = false -> small_int z = None.
Proof.
  intros H. unfold small_int. destruct (Z.leb_spec 0 z), (Z.ltb_spec z 0x7fff); try done.
  assert (fits32 z = true) by (apply fits32_spec; lia). congruence.
Qed.

Section Fields.
Context {U : Type} (cb : U -> arg -> outcome (U * Z * list Z)).

(** ** Writing a field *)

(** The switch of [encode_array]. *)
Definition elements (args : arg) (ud : U) (buf : list Z) (buffer size : Z) : outcome (U * list Z * arrend) :=
  if a_type args =? SPROTO_TINTEGER then
    '(ud, buf, r) ← encode_integer_array cb ud args buf buffer size;
    Ok (ud, buf, match r with None => ArrReturn (-1) | Some (_, true) => ArrReturn 0 | Some (e, false) => ArrEnd e end)
  else if a_type args =? SPROTO_TBOOLEAN then bool_loop cb (S (Z.to_nat size)) ud args buf buffer size 1
  else object_loop cb (S (Z.to_nat size)) ud args buf buffer size 1.

Definition elements_write (args : arg) (ud : U) (body : list Z) (room : Z) (ud' : U) : Prop :=
  forall pre tail, room <= len tail -> len tail < 2 ^ 31 -> exists tail',
    elements args ud (pre ++ tail) (len pre) (len tail) = Ok (ud', pre ++ body ++ tail', ArrEnd (len pre + len body)) /\
    len (body ++ tail') = len tail.

Lemma elements_ints args ud zs ud' : a_type args = SPROTO_TINTEGER -> delivers_ints cb args ud 1 zs ud' ->
  elements_write args ud (int_body zs) (1 + 8 * len zs) ud'.
Proof.
  intros Ht Hd pre tail Hr H31. unfold elements. rewrite Ht, Z.eqb_refl.
  destruct (encode_integer_array_ok cb args ud zs ud' pre tail Hd Hr H31) as (tail' & -> & Hl). rewrite bind_ret. by exists tail'.
Qed.

Lemma elements_bools args ud bs ud' : a_type args = SPROTO_TBOOLEAN -> delivers_bools cb args ud 1 bs ud' ->
  elements_write args ud (Z.b2z <$> bs) (len bs) ud'.
Proof.
  intros Ht Hd pre tail Hr H31. unfold elements. rewrite Ht. change (SPROTO_TBOOLEAN =? SPROTO_TINTEGER) with false. rewrite Z.eqb_refl.
  destruct (bool_loop_ok cb args ud 1 bs ud' Hd (S (Z.to_nat (len tail))) pre tail) as (tail' & -> & Hl); [unfold len in *; lia|done|].
  exists tail'. split; [|done]. do 3 f_equal. unfold len. by rewrite length_fmap.
Qed.

Lemma elements_objs args ud bs room ud' : a_type args <> SPROTO_TINTEGER -> a_type args <> SPROTO_TBOOLEAN ->
  delivers_objs cb args ud 1 bs room ud' -> elements_write args ud (obj_body bs) room ud'.
Proof.
  intros H1%Z.eqb_neq H2%Z.eqb_neq Hd pre tail Hr H31. unfold elements. rewrite H1, H2.
  pose proof (delivers_room _ _ _ _ _ _ _ Hd) as [Hl _]. apply (object_loop_ok cb args ud 1 bs room ud' Hd); [|done|done]. unfold len in *. lia.
Qed.

Lemma array_writes ud f body room ud' : is_array f = true -> 0 <= room ->
  elements_write (at_field f (base_type f)) ud body room ud' -> field_writes cb ud f (4 + room) ud' (Some (None, body)).
Proof.
  intros Ha Hb Hw pre tail Hroom H31. unfold encode_field. unfold is_array in Ha. rewrite Ha. unfold encode_array, SIZEOF_LENGTH. pose proof (len_nonneg body).
  destruct (Z.ltb_spec (len tail) 4); [lia|]. destruct (split_front tail 4) as (h & r & -> & Hh); [unfold len in *; lia|].
  assert (Hh4 : len h = 4) by (unfold len; lia). rewrite len_app, Hh4 in *. replace (4 + len r - 4) with (len r) by lia.
  destruct (Hw (pre ++ h) r) as (tail' & E & Hl); [lia|lia|]. rewrite <- !app_assoc, len_app, Hh4 in E.
  unfold elements, base_type in E. cbv zeta. rewrite E, bind_ret. unfold fill_size.
  replace (len pre + 4 + len body - (len pre + 4)) with (len body) by lia.
  rewrite bytes4_le, (write_at pre h) by (rewrite ?le_length; done || lia). rewrite !bind_ret.
  exists tail'. eexists. cbn [written result_code]. rewrite !len_app, len_le in *. rewrite <- app_assoc. split_and!; [done|lia|done].
Qed.

Lemma array_absent ud f ud' : is_array f = true ->
  (forall v n, cb ud (with_value (at_field f (base_type f)) (Some v) n 1) = Ok (ud', SPROTO_CB_NOARRAY, v)) -> field_writes cb ud f 8 ud' None.
Proof.
  intros Ha Hcb pre tail Hroom H31. unfold encode_field. unfold is_array in Ha. rewrite Ha. unfold encode_array, SIZEOF_LENGTH.
  destruct (Z.ltb_spec (len tail) 4); [lia|]. exists tail, (FieldSz 0 0). cbn [written app result_code]. split_and!; [|done|by right].
  fold (base_type f). cbv zeta. cbn [a_type at_field]. destruct (base_type f =? SPROTO_TINTEGER); [|destruct (base_type f =? SPROTO_TBOOLEAN)].
  - unfold encode_integer_array. destruct (Z.ltb_spec (len tail - 4) 1); [lia|]. cbn [int_loop ia_ud ia_index]. rewrite Hcb, !bind_ret.
    change (SPROTO_CB_NOARRAY <=? 0) with true. change (SPROTO_CB_NOARRAY =? SPROTO_CB_NIL) with false. rewrite Z.eqb_refl. cbv iota.
    rewrite !bind_ret. cbn [ia_buffer ia_ud ia_buf]. rewrite Z.eqb_refl. by rewrite !bind_ret.
  - cbn [bool_loop]. rewrite Hcb, !bind_ret. done.
  - cbn [object_loop]. unfold SIZEOF_LENGTH. destruct (Z.ltb_spec (len tail - 4) 4); [lia|].
    destruct (split_front tail 8) as (h & r & -> & Hh); [unfold len in *; lia|]. rewrite len_app. cbv zeta.
    rewrite app_assoc, read_tail, bind_ret, Hcb, bind_ret, write_tail, !bind_ret by (rewrite ?len_app; done || unfold len in *; lia).
    done.
Qed.

Lemma word_writes ud f v u ud' : is_array f = false -> f_type f = SPROTO_TINTEGER \/ f_type f = SPROTO_TBOOLEAN ->
  cb ud (with_value (at_field f (f_type f)) (Some (replicate 8 0)) 8 0) = Ok (ud', 4, u) -> take 4 u = to_le 4 v -> 0 <= v < 0x7fff ->
  forall b, field_writes cb ud f 0 ud' (Some (Some v, b)).
Proof.
  intros Ha Ht Hcb Hu Hv b pre tail Hroom H31. unfold encode_field. unfold is_array in Ha. rewrite Ha.
  assert (Hif : (f_type f =? SPROTO_TINTEGER) || (f_type f =? SPROTO_TBOOLEAN) = true) by (destruct Ht as [-> | ->]; done). rewrite Hif, Hcb, bind_ret.
  change (4 <? 0) with false. rewrite Z.eqb_refl, (le_value 4 v u Hu). change (256 ^ Z.of_nat 4) with (2 ^ 32). rewrite Z.mod_small by lia.
  destruct (Z.ltb_spec v 0x7fff); [|lia]. exists tail. eexists. cbn [written app result_code]. split_and!; [done|done|lia|done].
Qed.

Lemma int_writes ud f z u ud' : is_array f = false -> f_type f = SPROTO_TINTEGER ->
  cb ud (with_value (at_field f (f_type f)) (Some (replicate 8 0)) 8 0) = Ok (ud', if fits32 z then 4 else 8, u) ->
  take (if fits32 z then 4 else 8) u = int_bytes z -> field_writes cb ud f 12 ud' (Some (small_int z, int_bytes z)).
Proof.
  intros Ha Ht Hcb Hu. unfold int_bytes in *. destruct (fits32 z) eqn:Ez.
  - destruct (small_int z) as [v|] eqn:Es.
    + unfold small_int in Es. destruct (Z.leb_spec 0 z), (Z.ltb_spec z 0x7fff); cbn in Es; try done. injection Es as <-.
      intros pre tail Hroom H31. by apply (word_writes ud f z u ud' Ha (or_introl Ht) Hcb Hu); [lia|lia|].
    + intros pre tail Hroom H31. unfold encode_field. unfold is_array in Ha. rewrite Ha, Ht, Z.eqb_refl. cbn [orb]. rewrite Ht in Hcb. rewrite Hcb, bind_ret.
      change (4 <? 0) with false. rewrite Z.eqb_refl, (le_value 4 z u Hu). change (256 ^ Z.of_nat 4) with (2 ^ 32). rewrite mod_small_int by done.
      assert (Hc : (0 <=? z) && (z <? 0x7fff) = false) by (unfold small_int in Es; by destruct (_ && _)). rewrite Hc. unfold encode_integer, SIZEOF_LENGTH, fill_size.
      rewrite lt_size_t_spec by (split; [apply len_nonneg|done]). destruct (Z.ltb_spec (len tail) (4 + 4)); [lia|].
      destruct (split_front tail 8) as (h & r & -> & Hh); [unfold len in *; lia|]. destruct (split_front h 4) as (a & b & -> & Ha4); [lia|].
      rewrite length_app in Hh. rewrite !bytes4_le, to_le_mod4, <- app_assoc, (app_assoc pre a), (write_at _ b r) by (rewrite ?le_length, ?len_app; unfold len; lia).
      rewrite bind_ret, <- app_assoc, (write_at pre a) by (rewrite ?le_length; done || lia). rewrite !bind_ret.
      exists r. eexists. cbn [written result_code]. rewrite !len_app, !len_le, <- !app_assoc. unfold len. split_and!; [done|lia|done].
  - intros pre tail Hroom H31. unfold encode_field. unfold is_array in Ha. rewrite Ha, Ht, Z.eqb_refl. cbn [orb]. rewrite Ht in Hcb. rewrite Hcb, bind_ret.
    change (8 <? 0) with false. change (8 =? 4) with false. rewrite Z.eqb_refl, (le_value 8 z u Hu). unfold encode_uint64, SIZEOF_LENGTH, fill_size.
    rewrite lt_size_t_spec by (split; [apply len_nonneg|done]). destruct (Z.ltb_spec (len tail) (4 + 8)); [lia|].
    destruct (split_front tail 12) as (h & r & -> & Hh); [unfold len in *; lia|]. destruct (split_front h 4) as (a & b & -> & Ha4); [lia|].
    rewrite length_app in Hh. change (256 ^ Z.of_nat 8) with (2 ^ 64). rewrite bytes8_le, bytes4_le, to_le_mod8, <- app_assoc, (app_assoc pre a), (write_at _ b r) by (rewrite ?le_length, ?len_app; unfold len; lia).
    rewrite bind_ret, <- app_assoc, (write_at pre a) by (rewrite ?le_length; done || lia). rewrite !bind_ret, small_int_wide by done.
    exists r. eexists. cbn [written result_code]. rewrite !len_app, !len_le, <- !app_assoc. unfold len. split_and!; [done|lia|done].
Qed.

Lemma object_writes ud f b room ud' : is_array f = false -> f_type f = SPROTO_TSTRUCT \/ f_type f = SPROTO_TSTRING ->
  puts cb (at_field f (f_type f)) ud 0 b room ud' -> 0 <= room -> field_writes cb ud f (4 + room) ud' (Some (None, b)).
Proof.
  intros Ha Ht Hp Hb pre tail Hroom H31. unfold encode_field. unfold is_array in Ha. rewrite Ha. pose proof (len_nonneg b).
  assert (Hif : (f_type f =? SPROTO_TINTEGER) || (f_type f =? SPROTO_TBOOLEAN) = false /\ (f_type f =? SPROTO_TSTRUCT) || (f_type f =? SPROTO_TSTRING) = true)
    by (destruct Ht as [-> | ->]; done). destruct Hif as [-> ->]. unfold encode_object, SIZEOF_LENGTH.
  destruct (Z.ltb_spec (len tail) 4); [lia|]. destruct (split_front tail 4) as (h & r & -> & Hh); [unfold len in *; lia|].
  assert (Hh4 : len h = 4) by (unfold len; lia). rewrite len_app, Hh4 in *. replace (4 + len r - 4) with (len r) by lia.
  rewrite app_assoc, read_tail, bind_ret by (rewrite ?len_app; done || lia). cbn [a_index at_field].
  destruct (Hp r) as (rest & -> & Hrest); [lia|lia|]. rewrite bind_ret, write_tail, bind_ret by (rewrite ?len_app; unfold len in *; lia).
  destruct (Z.ltb_spec (len b) 0); [lia|]. rewrite len_app in Hrest. unfold c_assert. pose proof (len_nonneg rest).
  destruct (Z.leb_spec (len b) (len r)); [|lia]. rewrite bind_ret. unfold fill_size. rewrite bytes4_le, <- app_assoc, (write_at pre h) by (rewrite ?le_length; done || lia).
  rewrite !bind_ret. exists rest. eexists. cbn [written result_code]. rewrite !len_app, len_le, <- !app_assoc. split_and!; [done|lia|done].
Qed.

Lemma scalar_absent n ud f ud' : field_ok n f -> is_array f = false ->
  (forall v n, cb ud (with_value (at_field f (f_type f)) (Some v) n 0) = Ok (ud', SPROTO_CB_NIL, v)) -> field_writes cb ud f 8 ud' None.
Proof.
  intros Hf Ha Hcb pre tail Hroom H31. destruct (type_cases _ _ Hf) as [[?|[_ Ht]] Hc]; [congruence|]. rewrite <- Ht in Hc.
  unfold encode_field. unfold is_array in Ha. rewrite Ha, Hcb, bind_ret. unfold encode_object, SIZEOF_LENGTH.
  destruct (Z.ltb_spec (len tail) 4); [lia|].
  destruct (split_front tail 4) as (h & r & -> & Hh); [unfold len in *; lia|]. rewrite len_app.
  rewrite app_assoc, read_tail, bind_ret by (rewrite ?len_app; done || unfold len in *; lia). cbn [a_index at_field].
  rewrite Hcb, bind_ret, write_tail, bind_ret by (rewrite ?len_app; done || unfold len in *; lia).
  exists (h ++ r). rewrite <- app_assoc. cbn [written app].
  destruct Hc as [-> | [-> | [-> | ->]]]; (eexists; split_and!; [done|by rewrite len_app|by (left; done) || (right; done)]).
Qed.
End Fields.
