(* ===== verification/SprotoDecode.v ===== *)
(** * Reading messages of sproto

    [sproto_decode] on the wire format passes to its callback, field by field,
    what was written, and finds where each field's data is. *)

From S2P Require Import Prelude SprotoSchema SprotoSchemaProofs SprotoCodec SprotoCodecProofs SprotoArrays SprotoFields.
From Stdlib Require Import ZArith Lia.
From stdpp Require Import base numbers list.
#[local] Open Scope Z_scope.
#[local] Open Scope list_scope.
Import Schema Codec.

(** ** Integers read back *)

Lemma lor_shift a b k : 0 <= k -> 0 <= a < 2 ^ k -> Z.lor a (Z.shiftl b k) = a + b * 2 ^ k.
Proof.
  intros Hk Ha. rewrite Z.shiftl_mul_pow2 by done. rewrite <- Z.lxor_lor; [symmetry; apply Z.add_nocarry_lxor|].
  all: apply Z.bits_inj'; intros n Hn; rewrite Z.land_spec, Z.bits_0; destruct (Z.lt_ge_cases n k).
  all: try (rewrite Z.mul_pow2_bits_low by lia; apply andb_false_r).
  all: rewrite <- (Z.mod_small a (2 ^ k)) by done; by rewrite Z.mod_pow2_bits_high by lia.
Qed.

Lemma to_le_8 z : to_le 8 z = to_le 4 z ++ to_le 4 (z / 2 ^ 32).
Proof. apply (to_le_app 4 4). Qed.

Lemma expand64_le z : fits32 z = true -> to_le 8 (expand64 (z mod 2 ^ 32)) = to_le 8 z.
Proof.
  intros Hz. pose proof (Z.mod_pos_bound z (2 ^ 32) ltac:(lia)) as Hm. unfold expand64. pose proof (negative_word z Hz) as Hn.
  rewrite (sign_extend z Hz). destruct (Z.land (z mod 2 ^ 32) 0x80000000 =? 0) eqn:E; cbn [negb] in Hn; rewrite <- Hn, (to_le_app 4 4).
  - rewrite to_le_mod4. f_equal. change (256 ^ Z.of_nat 4) with (2 ^ 32). by rewrite Z.div_small by done.
  - rewrite <- Z.shiftl_mul_pow2, lor_shift by lia. change (256 ^ Z.of_nat 4) with (2 ^ 32).
    rewrite Z.div_add, Z.div_small, Z.add_0_l by lia. f_equal. rewrite <- (to_le_mod4 (_ + _)), Z.mod_add, Z.mod_mod, to_le_mod4 by lia. done.
Qed.

Lemma join64_le z : to_le 8 (Z.lor (z mod 2 ^ 32) (Z.shiftl (z / 2 ^ 32 mod 2 ^ 32) 32)) = to_le 8 z.
Proof.
  rewrite lor_shift by (lia || apply Z.mod_pos_bound; lia). rewrite <- (to_le_mod8 z). change (2 ^ 64) with (2 ^ 32 * 2 ^ 32).
  rewrite Z.rem_mul_r by lia. f_equal. lia.
Qed.

Lemma len_ints w zs : len (ints w zs) = Z.of_nat w * len zs.
Proof. unfold len. rewrite length_ints. lia. Qed.

Section Reading.
Context {U : Type} (cb : U -> arg -> outcome (U * Z)).

(** ** Reading a field *)

Definition value_of (res : option Z * list Z) : Z := match res.1 with Some v => v | None => -1 end.

(** Decoding [f] where it was written as [res] takes the callback to [ud']. *)
Definition field_reads (ud : U) (f : field) (res : option Z * list Z) (ud' : U) : Prop :=
  forall pre tail, len (written (Some res)) < 2 ^ 31 ->
  decode_field cb ud f (pre ++ written (Some res) ++ tail) (value_of res) (len pre) = Ok (ud', true).

Lemma word_reads ud f v b ud' r : 0 <= v -> f_type f = SPROTO_TINTEGER \/ f_type f = SPROTO_TBOOLEAN ->
  cb ud (with_value (at_field f (base_type f)) (Some (to_le 8 v)) 8 0) = Ok (ud', r) -> field_reads ud f (Some v, b) ud'.
Proof.
  intros Hv Ht Hcb pre tail _. unfold decode_field. cbn [value_of fst]. fold (base_type f). destruct (Z.ltb_spec v 0); [lia|].
  assert (Hif : negb (f_type f =? SPROTO_TINTEGER) && negb (f_type f =? SPROTO_TBOOLEAN) = false) by (destruct Ht as [-> | ->]; done).
  by rewrite Hif, Hcb, bind_ret.
Qed.

Lemma int_reads ud f z ud' r : is_array f = false -> f_type f = SPROTO_TINTEGER ->
  cb ud (with_value (at_field f (base_type f)) (Some (to_le 8 z)) 8 0) = Ok (ud', r) -> field_reads ud f (small_int z, int_bytes z) ud'.
Proof.
  intros Ha Ht Hcb. destruct (small_int z) as [v|] eqn:Es.
  { unfold small_int in Es. destruct (Z.leb_spec 0 z), (Z.ltb_spec z 0x7fff); cbn in Es; try done. injection Es as <-.
    eapply word_reads; [done|by left|done]. }
  intros pre tail _. unfold decode_field. cbn [value_of fst written]. change (-1 <? 0) with true. cbv iota. fold (base_type f).
  unfold is_array in Ha. rewrite Ha. rewrite Ht, Z.eqb_refl. unfold int_bytes. rewrite <- !app_assoc, (todword_at pre _ _ (len pre)) by done. rewrite bind_ret, len_le.
  destruct (fits32 z) eqn:Ez; change (Z.of_nat 4 mod 2 ^ 32 =? 4) with true; change (Z.of_nat 8 mod 2 ^ 32 =? 4) with false;
    change (negb (Z.of_nat 8 mod 2 ^ 32 =? 8)) with false; cbv iota; rewrite app_assoc.
  - rewrite (todword_at (pre ++ _) _ _ (len pre + SIZEOF_LENGTH)), bind_ret, expand64_le, Hcb by (done || rewrite len_app, len_le; done). by rewrite bind_ret.
  - rewrite (to_le_8 z), <- (app_assoc (to_le 4 z)), (todword_at (pre ++ _) _ _ (len pre + SIZEOF_LENGTH)), bind_ret by (rewrite len_app, len_le; done).
    rewrite app_assoc, (todword_at (_ ++ _) _ _ (len pre + SIZEOF_LENGTH + 4)), bind_ret by (rewrite !len_app, !len_le; unfold SIZEOF_LENGTH; lia).
    rewrite join64_le, Hcb. by rewrite bind_ret.
Qed.

(** The callback takes the bytes [b], whatever is behind them. *)
Definition takes (args : arg) (ud : U) (i : Z) (b : list Z) (ud' : U) : Prop :=
  len b < 2 ^ 31 -> forall tail, cb ud (with_value args (Some (b ++ tail)) (len b) i) = Ok (ud', 0).

Lemma drop_at {A} (a b : list A) o : o = len a -> drop (Z.to_nat o) (a ++ b) = b.
Proof. intros ->. unfold len. rewrite Nat2Z.id. apply drop_app_length. Qed.

Lemma object_reads ud f b ud' : is_array f = false -> f_type f = SPROTO_TSTRUCT \/ f_type f = SPROTO_TSTRING ->
  takes (at_field f (base_type f)) ud 0 b ud' -> field_reads ud f (None, b) ud'.
Proof.
  intros Ha Ht Hcb pre tail Hl. cbn [written] in *. rewrite len_app, len_le in Hl. pose proof (len_nonneg b).
  unfold decode_field. cbn [value_of fst]. change (-1 <? 0) with true. cbv iota. fold (base_type f). unfold is_array in Ha. rewrite Ha.
  assert (Hif : (f_type f =? SPROTO_TINTEGER) = false /\ (f_type f =? SPROTO_TSTRING) || (f_type f =? SPROTO_TSTRUCT) = true) by (destruct Ht as [-> | ->]; done).
  destruct Hif as [-> ->]. rewrite <- !app_assoc, (todword_at pre _ _ (len pre)), bind_ret by done. rewrite Z.mod_small, i32_small by lia.
  rewrite app_assoc, drop_at by (by rewrite len_app, len_le). rewrite Hcb by lia. by rewrite bind_ret.
Qed.

(** ** Reading an array *)

(** The callback takes values one after another from index [i]. *)
Inductive receives (args : arg) : U -> Z -> list Z -> U -> Prop :=
  | re_end ud i : receives args ud i [] ud
  | re_next ud i v vs ud1 ud2 r :
      cb ud (with_value args (Some (to_le 8 v)) 8 i) = Ok (ud1, r) -> receives args ud1 (i + 1) vs ud2 -> receives args ud i (v :: vs) ud2.

Inductive receives_objs (args : arg) : U -> Z -> list (list Z) -> U -> Prop :=
  | ro_end ud i : receives_objs args ud i [] ud
  | ro_next ud i b bs ud1 ud2 : takes args ud i b ud1 -> receives_objs args ud1 (i + 1) bs ud2 -> receives_objs args ud i (b :: bs) ud2.

Lemma values_loop_ok args read ud j vs ud' : receives args ud j vs ud' -> forall fuel i, j = i + 1 -> (length vs < fuel)%nat ->
  (forall a v b, vs = a ++ v :: b -> exists v', read (i + len a) = Ok v' /\ to_le 8 v' = to_le 8 v) ->
  values_loop cb fuel ud args read i (i + len vs) = Ok ud'.
Proof.
  induction 1 as [ud j|ud j v vs ud1 ud2 r Hcb _ IH]; intros fuel i -> Hf Hr; (destruct fuel as [|fuel]; [cbn in Hf; lia|]); cbn [values_loop].
  - change (len []) with 0. by rewrite Z.add_0_r, Z.ltb_irrefl.
  - rewrite len_cons. pose proof (len_nonneg vs). destruct (Z.ltb_spec i (i + (1 + len vs))); [|lia].
    destruct (Hr [] v vs eq_refl) as (v' & Hv & He). change (len []) with 0 in Hv. rewrite Z.add_0_r in Hv. rewrite Hv, bind_ret, He, Hcb, bind_ret.
    replace (i + (1 + len vs)) with (i + 1 + len vs) by lia. apply IH; [lia|cbn in Hf; lia|]. intros a w b ->.
    destruct (Hr (v :: a) w b eq_refl) as (w' & Hw & Hew). exists w'. rewrite len_cons in Hw. by replace (i + 1 + len a) with (i + (1 + len a)) by lia.
Qed.

Lemma array_object_loop_ok args ud i bs ud' : receives_objs args ud i bs ud' -> forall fuel pre tail, (length bs < fuel)%nat -> len (obj_body bs) < 2 ^ 31 ->
  array_object_loop cb fuel ud args (pre ++ obj_body bs ++ tail) (len pre) (len (obj_body bs)) i = Ok (ud', 0).
Proof.
  induction 1 as [ud i|ud i b bs ud1 ud2 Ht _ IH]; intros fuel pre tail Hf H31; (destruct fuel as [|fuel]; [cbn in Hf; lia|]); cbn [array_object_loop]; [done|].
  rewrite obj_body_cons, !len_app, len_le in *. unfold SIZEOF_LENGTH. pose proof (len_nonneg b). pose proof (len_nonneg (obj_body bs)).
  destruct (Z.ltb_spec 0 (Z.of_nat 4 + (len b + len (obj_body bs)))); [|lia]. destruct (Z.ltb_spec (Z.of_nat 4 + (len b + len (obj_body bs))) 4); [lia|].
  rewrite <- !app_assoc, (todword_at pre _ _ (len pre)), bind_ret by done. rewrite (Z.mod_small (len b)), i32_small by lia. unfold u32. rewrite Z.mod_small by lia.
  destruct (Z.ltb_spec (Z.of_nat 4 + (len b + len (obj_body bs)) - 4) (len b)); [lia|].
  rewrite (app_assoc pre), drop_at by (by rewrite len_app, len_le). rewrite Ht, bind_ret by lia. cbn [negb Z.eqb].
  specialize (IH fuel ((pre ++ to_le 4 (len b)) ++ b) tail). rewrite !len_app, len_le, <- !app_assoc in IH.
  replace (len pre + 4 + len b) with (len pre + Z.of_nat 4 + len b) by lia.
  replace (Z.of_nat 4 + (len b + len (obj_body bs)) - 4 - len b) with (len (obj_body bs)) by lia. rewrite <- app_assoc. apply IH; [cbn in Hf; lia|lia].
Qed.

(** What [decode_array] does with an array whose data is [body]. *)
Definition array_reads (args : arg) (ud : U) (body : list Z) (ud' : U) : Prop :=
  forall pre tail, len body + 4 < 2 ^ 31 -> decode_array cb ud args (pre ++ to_le 4 (len body) ++ body ++ tail) (len pre) = Ok (ud', 0).

Lemma empty_reads args ud ud' r : cb ud (with_value args None 0 (-1)) = Ok (ud', r) -> array_reads args ud [] ud'.
Proof.
  intros Hcb pre tail _. unfold decode_array. rewrite (todword_at pre _ _ (len pre)), bind_ret by done. change (len [] mod 2 ^ 32 =? 0) with true. cbv iota.
  by rewrite Hcb, bind_ret.
Qed.

Lemma objs_read args ud b bs ud' : a_type args = SPROTO_TSTRING \/ a_type args = SPROTO_TSTRUCT ->
  receives_objs args ud 1 (b :: bs) ud' -> array_reads args ud (obj_body (b :: bs)) ud'.
Proof.
  intros Ht Hr pre tail H31. pose proof (len_nonneg (obj_body (b :: bs))). unfold decode_array. rewrite (todword_at pre _ _ (len pre)), bind_ret by done. rewrite Z.mod_small by lia.
  assert (Hpos : 4 + 4 * len bs <= len (obj_body (b :: bs))).
  { clear. revert b. induction bs as [|c bs IH]; intros b; rewrite obj_body_cons, !len_app, len_le; pose proof (len_nonneg b).
    - unfold len. cbn. lia.
    - specialize (IH c). rewrite len_cons. lia. }
  pose proof (len_nonneg bs). destruct (Z.eqb_spec (len (obj_body (b :: bs))) 0); [lia|].
  assert (Hif : (a_type args =? SPROTO_TINTEGER) = false /\ (a_type args =? SPROTO_TBOOLEAN) = false /\
    (a_type args =? SPROTO_TSTRING) || (a_type args =? SPROTO_TSTRUCT) = true) by (destruct Ht as [-> | ->]; done).
  destruct Hif as (-> & -> & ->). unfold decode_array_object. rewrite i32_small by lia. unfold SIZEOF_LENGTH.
  rewrite app_assoc. replace (len pre + 4) with (len (pre ++ to_le 4 (len (obj_body (b :: bs))))) by (by rewrite len_app, len_le).
  apply (array_object_loop_ok args ud 1 (b :: bs) ud' Hr); [|lia]. rewrite !length_app. unfold len in *. cbn [length]. lia.
Qed.

Lemma bools_read args ud b bs ud' : a_type args = SPROTO_TBOOLEAN -> receives args ud 1 (Z.b2z <$> b :: bs) ud' ->
  array_reads args ud (Z.b2z <$> b :: bs) ud'.
Proof.
  intros Ht Hr pre tail H31. set (vs := Z.b2z <$> b :: bs) in *. assert (Hp : 0 < len vs) by (unfold vs, len; cbn; lia).
  unfold decode_array. rewrite (todword_at pre _ _ (len pre)), bind_ret by done. rewrite Z.mod_small by lia.
  destruct (Z.eqb_spec (len vs) 0); [lia|]. rewrite Ht. change (SPROTO_TBOOLEAN =? SPROTO_TINTEGER) with false. rewrite Z.eqb_refl. cbv iota zeta.
  rewrite (values_loop_ok args _ ud 1 vs ud' Hr _ 0), bind_ret; [done|done|rewrite !length_app; lia|]. intros a v c E. exists v. split; [|done]. rewrite E.
  rewrite <- app_assoc. cbn [app]. rewrite !app_assoc. apply get_at. rewrite !len_app, len_le. unfold SIZEOF_LENGTH. lia.
Qed.

Lemma ints_read args ud z zs ud' : a_type args = SPROTO_TINTEGER -> receives args ud 1 (z :: zs) ud' -> array_reads args ud (int_body (z :: zs)) ud'.
Proof.
  intros Ht Hr pre tail H31. cbn [int_body] in *. set (w := width (z :: zs)) in *. pose proof (length_ints w (z :: zs)) as Hl.
  assert (Hw : w = 4%nat /\ wide (z :: zs) = false \/ w = 8%nat) by (unfold w, width; destruct (wide (z :: zs)); auto).
  unfold decode_array. rewrite (todword_at pre _ _ (len pre)), bind_ret by done. rewrite len_cons in *.
  assert (Hli : len (ints w (z :: zs)) = Z.of_nat w * len (z :: zs)) by (unfold len; lia). pose proof (len_nonneg (z :: zs)). rewrite Z.mod_small by lia.
  destruct (Z.eqb_spec (1 + len (ints w (z :: zs))) 0); [lia|]. rewrite Ht, Z.eqb_refl. unfold SIZEOF_LENGTH.
  change ((?x :: ?l) ++ ?k) with ([x] ++ l ++ k). rewrite (app_assoc pre). cbn [app].
  rewrite (get_at (pre ++ _) _ _ (len pre + 4)), bind_ret by (by rewrite len_app, len_le). cbv zeta.
  replace (1 + len (ints w (z :: zs)) - 1) with (Z.of_nat w * len (z :: zs)) by lia. set (m := (_ ++ _) ++ _).
  assert (Hm : forall a v b, z :: zs = a ++ v :: b -> m = ((pre ++ to_le 4 (1 + len (ints w (z :: zs)))) ++ [Z.of_nat w] ++ ints w a) ++ to_le w v ++ ints w b ++ tail).
  { intros a v b E. assert (Hi : ints w (z :: zs) = ints w a ++ to_le w v ++ ints w b) by (by rewrite E, ints_app, ints_cons).
    unfold m. generalize (to_le 4 (1 + len (ints w (z :: zs)))). intros h. rewrite Hi, <- !app_assoc. done. }
  assert (Hfuel : (length (z :: zs) < S (length m))%nat) by (unfold m; rewrite !length_app; cbn [length]; rewrite length_app; destruct Hw as [[E _]|E]; rewrite E in *; cbn [length] in *; lia).
  destruct Hw as [[E En]|E]; rewrite E in *.
  - change (Z.of_nat 4 =? 4) with true. cbv iota. rewrite (Z.mul_comm (Z.of_nat 4)), Z_mod_mult, Z.eqb_refl, Z.div_mul by done. cbn [negb].
    rewrite (values_loop_ok args _ ud 1 (z :: zs) ud' Hr _ 0), bind_ret; [done|done|done|]. intros a v b Ev. eexists. split.
    + rewrite (Hm a v b Ev), (todword_at _ _ v), bind_ret; [done|]. rewrite !len_app, len_le. rewrite len_ints. change (len [Z.of_nat 4]) with 1. lia.
    + apply expand64_le. apply not_wide in En. rewrite Forall_forall in En. apply En. rewrite Ev. apply elem_of_app. right. by apply elem_of_cons; left.
  - change (Z.of_nat 8 =? 4) with false. change (Z.of_nat 8 =? 8) with true. cbv iota. rewrite (Z.mul_comm (Z.of_nat 8)), Z_mod_mult, Z.eqb_refl, Z.div_mul by done. cbn [negb].
    rewrite (values_loop_ok args _ ud 1 (z :: zs) ud' Hr _ 0), bind_ret; [done|done|done|]. intros a v b Ev. eexists. split; [|apply join64_le].
    rewrite (Hm a v b Ev), (to_le_8 v), <- !(app_assoc (to_le 4 v)). set (p := (pre ++ _) ++ [_] ++ _).
    assert (Hp : len p = len pre + 4 + 1 + len a * 8) by (unfold p; rewrite !len_app, len_le, len_ints; change (len [Z.of_nat 8]) with 1; lia).
    rewrite (todword_at p _ _ (len pre + 4 + 1 + (0 + len a) * 8)), bind_ret by lia.
    rewrite app_assoc, (todword_at (p ++ _) _ _ (len pre + 4 + 1 + (0 + len a) * 8 + 4)), bind_ret by (rewrite len_app, len_le; lia). done.
Qed.

Lemma array_field_reads ud f body ud' : is_array f = true -> array_reads (at_field f (base_type f)) ud body ud' -> field_reads ud f (None, body) ud'.
Proof.
  intros Ha Hr pre tail Hl. cbn [written] in *. rewrite len_app, len_le in Hl. unfold decode_field. cbn [value_of fst]. change (-1 <? 0) with true. cbv iota.
  fold (base_type f). unfold is_array in Ha. rewrite Ha, <- app_assoc, Hr by lia. by rewrite bind_ret.
Qed.

(** ** Reading a message *)

(** The word of a record. *)
Definition record_word (res : option Z * list Z) : Z := match res.1 with Some v => (v + 1) * 2 | None => 0 end.

Lemma skip_step st m i s A B k : 0 <= k < 0x7fff -> m = A ++ to_le 2 (k * 2 + 1) ++ B -> len A = 2 + i * 2 ->
  decode_step cb st m 2 i s = Ok (inl {| de_ud := de_ud s; de_data := de_data s; de_size := de_size s; de_tag := de_tag s + 1 + k |}).
Proof.
  intros Hk -> HA. unfold decode_step, SIZEOF_FIELD. rewrite (toword_at A _ _ (2 + i * 2)), bind_ret by done. rewrite Z.mod_small by lia.
  rewrite Z.add_comm, (Z.mul_comm k 2), Z.odd_add_mul_2. cbn [Z.odd]. rewrite (Z.mul_comm 2 k), Z.div_add, Z.div_small, Z.add_0_l by lia. done.
Qed.

Lemma value_step n st m i s A B P T f res ud' : wf_type n st -> f ∈ t_f st -> de_tag s + 1 = f_tag f ->
  match res.1 with Some v => 0 <= v < 0x7fff | None => True end ->
  m = A ++ to_le 2 (record_word res) ++ B -> len A = 2 + i * 2 ->
  m = P ++ written (Some res) ++ T -> len P = de_data s -> len (written (Some res)) <= de_size s -> de_size s < 2 ^ 31 ->
  field_reads (de_ud s) f res ud' ->
  decode_step cb st m 2 i s = Ok (inl {| de_ud := ud'; de_data := de_data s + len (written (Some res));
    de_size := de_size s - len (written (Some res)); de_tag := f_tag f |}).
Proof.
  intros W Hf Htag Hres HA HlA HP HlP Hsz H31 Hr.
  assert (Hfind : findtag st (f_tag f) = Ok (Some f)).
  { rewrite (findtag_ok n) by done. apply list_elem_of_lookup in Hf as [j Hj]. by rewrite (field_of_unique n st j f). }
  assert (Hword : toword m (2 + i * SIZEOF_FIELD) = Ok (record_word res)).
  { rewrite HA. unfold SIZEOF_FIELD. rewrite (toword_at A _ _ (2 + i * 2)) by done. f_equal. apply Z.mod_small. unfold record_word. destruct (res.1); lia. }
  unfold decode_step. rewrite Hword, bind_ret. cbv zeta. rewrite Htag. clear Hword HA.
  assert (Hv : record_word res / 2 - 1 = value_of res /\ Z.odd (record_word res) = false).
  { unfold record_word, value_of. destruct (res.1) as [v|]; [|done]. rewrite Z.div_mul by done. split; [lia|].
    rewrite Z.mul_comm, Z.odd_mul. done. }
  destruct Hv as [-> ->].
  assert (Hnext : (if value_of res <? 0 then if de_size s <? SIZEOF_LENGTH then Ok None else
      sz ← todword m (de_data s); let d := u32 (sz + SIZEOF_LENGTH) in
      if u32 (de_size s) <? d then Ok None else Ok (Some (de_data s + d, i32 (u32 (de_size s) - d))) else Ok (Some (de_data s, de_size s)))
    = Ok (Some (de_data s + len (written (Some res)), de_size s - len (written (Some res))))).
  { destruct res as [[v|] b]; cbn [value_of fst written] in *.
    - destruct (Z.ltb_spec v 0); [lia|]. change (len []) with 0. by rewrite Z.add_0_r, Z.sub_0_r.
    - change (-1 <? 0) with true. cbv iota. rewrite len_app, len_le in *. unfold SIZEOF_LENGTH. pose proof (len_nonneg b).
      destruct (Z.ltb_spec (de_size s) 4); [lia|]. rewrite HP, <- app_assoc, (todword_at P), bind_ret by done. unfold u32.
      rewrite (Z.mod_small (len b)), !Z.mod_small by lia. destruct (Z.ltb_spec (de_size s) (len b + 4)); [lia|]. rewrite i32_small by lia.
      do 3 f_equal; lia. }
  cbv zeta in Hnext. rewrite Hnext, bind_ret, Hfind, bind_ret. rewrite HP, <- HlP, Hr by lia. by rewrite bind_ret.
Qed.

Definition tagged (l : list (field * (option Z * list Z))) : list wfield := (fun p => (f_tag p.1, p.2)) <$> l.

Inductive fields_read : U -> list (field * (option Z * list Z)) -> U -> Prop :=
  | fr_nil ud : fields_read ud [] ud
  | fr_cons ud f res ud1 l ud2 : field_reads ud f res ud1 -> fields_read ud1 l ud2 -> fields_read ud ((f, res) :: l) ud2.

(** The fields are those of the type, and small values fit in a record. *)
Definition fields_of (st : sproto_type) (l : list (field * (option Z * list Z))) : Prop :=
  Forall (fun p => p.1 ∈ t_f st /\ match p.2.1 with Some v => 0 <= v < 0x7fff | None => True end) l.

Lemma written_data t res : data_of (t, res) = written (Some res).
Proof. by destruct res as [[v|] b]. Qed.

Lemma decode_loop_ok ud l ud' : fields_read ud l ud' -> forall n st m hd rs ds rest s,
  wf_type n st -> fields_of st l -> ascending (de_tag s) (f_tag <$> l.*1) -> -1 <= de_tag s -> de_ud s = ud ->
  m = hd ++ recs (rs ++ records (de_tag s) (tagged l)) ++ ds ++ datas (tagged l) ++ rest -> len hd = 2 ->
  de_data s = 2 + 2 * len (rs ++ records (de_tag s) (tagged l)) + len ds ->
  len (datas (tagged l)) <= de_size s -> de_size s < 2 ^ 31 ->
  exists s', decode_loop cb (length (records (de_tag s) (tagged l))) st m 2 (len rs) s = Ok (inl s') /\
    de_ud s' = ud' /\ de_size s' = de_size s - len (datas (tagged l)).
Proof.
  induction 1 as [ud|ud f res ud1 l ud2 Hr Hfs IH]; intros n st m hd rs ds rest s W HF Ha Htag Hud Hm Hhd Hdata Hsz H31.
  { exists s. split_and!; [done|done|]. change (len (datas (tagged []))) with 0. lia. }
  apply Forall_cons in HF as [[Hf Hres] HF]. cbn [fst snd] in Hf, Hres. cbn [fmap list_fmap fst ascending] in Ha. destruct Ha as [Hlt Ha].
  pose proof (wt_fields _ _ W) as HFF. rewrite Forall_forall in HFF. destruct (HFF f Hf) as (_ & Hft & _).
  change (tagged ((f, res) :: l)) with ((f_tag f, res) :: tagged l) in *.
  assert (Hd : datas ((f_tag f, res) :: tagged l) = written (Some res) ++ datas (tagged l)) by (change (datas ((f_tag f, res) :: tagged l)) with (data_of (f_tag f, res) ++ datas (tagged l)); by rewrite written_data).
  rewrite Hd, len_app in *. pose proof (len_nonneg (written (Some res))). pose proof (len_nonneg (datas (tagged l))).
  assert (Hrec : records (de_tag s) ((f_tag f, res) :: tagged l)
    = (if de_tag s + 1 <? f_tag f then [(f_tag f - de_tag s - 2) * 2 + 1] else []) ++ record_word res :: records (f_tag f) (tagged l)).
  { cbn [records]. by destruct res as [[v|] b]. }
  rewrite Hrec in *. clear Hrec Hd.
  set (sk := if de_tag s + 1 <? f_tag f then [(f_tag f - de_tag s - 2) * 2 + 1] else []) in *.
  set (s1 := {| de_ud := ud; de_data := de_data s; de_size := de_size s; de_tag := f_tag f - 1 |}).
  set (s2 := {| de_ud := ud1; de_data := de_data s + len (written (Some res)); de_size := de_size s - len (written (Some res)); de_tag := f_tag f |}).
  assert (Hm2 : m = hd ++ recs ((rs ++ sk ++ [record_word res]) ++ records (f_tag f) (tagged l)) ++ (ds ++ written (Some res)) ++ datas (tagged l) ++ rest).
  { rewrite Hm, <- !app_assoc. done. }
  assert (Hval : forall s0, de_tag s0 = f_tag f - 1 -> de_ud s0 = ud -> de_data s0 = de_data s -> de_size s0 = de_size s ->
    decode_step cb st m 2 (len (rs ++ sk)) s0 = Ok (inl s2)).
  { intros s0 E1 E2 E3 E4.
    rewrite (value_step n st m (len (rs ++ sk)) s0 (hd ++ recs (rs ++ sk)) (recs (records (f_tag f) (tagged l)) ++ (ds ++ written (Some res)) ++ datas (tagged l) ++ rest)
      (hd ++ recs (rs ++ sk ++ record_word res :: records (f_tag f) (tagged l)) ++ ds) (datas (tagged l) ++ rest) f res ud1); try done.
    - unfold s2. by rewrite E3, E4.
    - lia.
    - rewrite Hm2, !recs_app, recs_cons, <- !app_assoc. change (recs []) with (@nil Z). done.
    - rewrite len_app, len_recs. lia.
    - rewrite Hm, <- !app_assoc. done.
    - rewrite E3, Hdata, !len_app, !len_recs, !len_app. lia.
    - lia.
    - lia.
    - by rewrite E2. }
  destruct (IH n st m hd (rs ++ sk ++ [record_word res]) (ds ++ written (Some res)) rest s2) as (s' & E & Hu & Hs'); try done.
  - cbn. lia.
  - unfold s2. cbn [de_data de_tag]. rewrite Hdata, !len_app, len_cons. change (len [record_word res]) with 1. lia.
  - cbn [s2 de_size]. lia.
  - cbn [s2 de_size]. lia.
  - exists s'. split_and!; [|done|cbn [s2 de_size] in Hs'; lia]. cbn [s2 de_tag] in E. rewrite !len_app in E. change (len [record_word res]) with 1 in E.
    unfold sk in *. destruct (Z.ltb_spec (de_tag s + 1) (f_tag f)) as [Hsk|Hsk]; cbn [app length decode_loop].
    + rewrite (skip_step st m (len rs) s (hd ++ recs rs) (recs (record_word res :: records (f_tag f) (tagged l)) ++ ds ++ (written (Some res) ++ datas (tagged l)) ++ rest)
        (f_tag f - de_tag s - 2)), bind_ret; [|lia| |rewrite len_app, len_recs; lia].
      * cbn [decode_loop]. change (len [(f_tag f - de_tag s - 2) * 2 + 1]) with 1 in *. rewrite len_app in Hval. change (len [(f_tag f - de_tag s - 2) * 2 + 1]) with 1 in Hval.
        rewrite Hval, bind_ret by (cbn; lia || done). replace (len rs + 1 + 1) with (len rs + (1 + 1)) by lia. exact E.
      * rewrite Hm, recs_app. cbn [app]. rewrite recs_cons, <- !app_assoc. done.
    + change (len []) with 0 in *. rewrite app_nil_r in Hval. rewrite Hval, bind_ret by (done || lia). rewrite Z.add_0_l in E. exact E.
Qed.

Lemma len_records l : forall p, len (records p l) = len l + gaps p l.*1.
Proof.
  induction l as [|[t [v b]] l IH]; intros p; [done|]. cbn [records fmap list_fmap fst gaps]. rewrite len_app, len_cons.
  change ([?x] ++ ?r) with (x :: r). rewrite len_cons, IH. unfold fmap. destruct (p + 1 <? t); [change (len [_]) with 1|change (len []) with 0]; lia.
Qed.

Lemma tagged_tags l : (tagged l).*1 = f_tag <$> l.*1.
Proof. unfold tagged. rewrite <- !list_fmap_compose. done. Qed.

Lemma sproto_decode_ok n st ud l ud' rest : wf_type n st -> fields_of st l -> ascending (-1) (f_tag <$> l.*1) -> fields_read ud l ud' ->
  len (wire (tagged l)) < 2 ^ 31 ->
  sproto_decode cb st (wire (tagged l) ++ rest) (len (wire (tagged l))) ud = Ok (ud', len (wire (tagged l))).
Proof.
  intros W HF Ha Hr H31. unfold sproto_decode, SIZEOF_HEADER, SIZEOF_FIELD.
  set (rs := records (-1) (tagged l)). assert (Hlw : len (wire (tagged l)) = 2 + 2 * len rs + len (datas (tagged l))) by (unfold wire; rewrite !len_app, len_le, len_recs; fold rs; lia).
  pose proof (len_nonneg rs). pose proof (len_nonneg (datas (tagged l))). destruct (Z.ltb_spec (len (wire (tagged l))) 2); [lia|].
  assert (Hn : len rs < 65536).
  { pose proof (len_records (tagged l) (-1)) as Hlr. fold rs in Hlr. rewrite Hlr, tagged_tags.
    assert (E : len (tagged l) = len (f_tag <$> l.*1)) by (unfold len; by rewrite <- tagged_tags, length_fmap). rewrite E.
    pose proof (gaps_bound (f_tag <$> l.*1) (-1) 0x7ffe Ha) as Hg. enough (forall x, x ∈ f_tag <$> l.*1 -> x <= 0x7ffe) as Hx by (specialize (Hg Hx); lia).
    intros x (f & -> & ([f' res] & -> & Hin)%list_elem_of_fmap)%list_elem_of_fmap. unfold fields_of in HF. rewrite Forall_forall in HF. destruct (HF _ Hin) as [Hf _].
    pose proof (wt_fields _ _ W) as HFF. rewrite Forall_forall in HFF. destruct (HFF _ Hf) as (_ & Hft & _). cbn in *. lia. }
  assert (Hwire : wire (tagged l) ++ rest = to_le 2 (len rs) ++ (recs rs ++ datas (tagged l)) ++ rest) by (unfold wire; fold rs; by rewrite <- app_assoc).
  rewrite Hwire. pose proof (toword_at [] ((recs rs ++ datas (tagged l)) ++ rest) (len rs) 0 eq_refl) as Hw. cbn [app] in Hw.
  rewrite Hw, bind_ret, Z.mod_small by lia. clear Hw. destruct (Z.ltb_spec (len (wire (tagged l)) - 2) (len rs * 2)); [lia|].
  set (s0 := {| de_ud := ud; de_data := 2 + len rs * 2; de_size := len (wire (tagged l)) - 2 - len rs * 2; de_tag := -1 |}).
  destruct (decode_loop_ok ud l ud' Hr n st (to_le 2 (len rs) ++ (recs rs ++ datas (tagged l)) ++ rest) (to_le 2 (len rs)) [] [] rest s0) as (s' & E & Hu & Hs); try done.
  - cbn [app s0 de_tag]. fold rs. by rewrite <- !app_assoc.
  - cbn [app s0 de_tag de_data]. fold rs. change (len []) with 0. lia.
  - cbn [s0 de_size]. lia.
  - cbn [s0 de_size]. lia.
  - cbn [s0 de_tag] in E. fold rs in E. change (len []) with 0 in E. replace (Z.to_nat (len rs)) with (length rs) by (unfold len; lia).
    rewrite E, bind_ret. cbn [s0 de_size] in Hs. rewrite Hu. do 2 f_equal. lia.
Qed.
End Reading.
