(* ===== verification/Lsproto.v ===== *)
(** * sproto for Lua ([lualib-src/sproto/lsproto.c])

    The callbacks that walk Lua tables, and the functions Lua calls.

    A table is the list of its entries in the order [lua_next] visits them.  The
    callbacks address values by stack slots ([tbl_index], [array_index],
    [iter_index], [key_index]); the model keeps the values of these slots.  While
    a message is decoded an array is both in its slot and in the table of the
    result, under the name of its field, and the result is not written between
    the first element of the array and its last: writing to the slot is writing
    to the entry of the result. *)

From S2P Require Import Prelude SprotoPack SprotoSchema SprotoCodec.
From Stdlib Require Import ZArith Lia String.
From stdpp Require Import base numbers list.
#[local] Open Scope Z_scope.
#[local] Open Scope list_scope.

Module Lsproto.
Import Schema Codec.

Definition ENCODE_DEEPLEVEL : Z := 64.

(** ** Lua values *)

Inductive lval :=
  | LNil | LBool (b : bool) | LInt (z : Z) | LStr (s : list Z)
  | LTable (t : list (lval * lval))
  | LOther (k : Z). (** a float, a function, ... *)

(** How Lua turns values into integers and strings. *)
Record coercions := { tointegerx : lval -> option Z; tolstring : lval -> option (list Z) }.

(** Whether two keys are the same; tables have no identity here and are not. *)
Definition key_eqb (a b : lval) : bool :=
  match a, b with
  | LBool a, LBool b => eqb a b
  | LInt a, LInt b => a =? b
  | LStr a, LStr b => bool_decide (a = b)
  | LOther a, LOther b => a =? b
  | _, _ => false
  end.

Definition table := list (lval * lval).

Fixpoint gettable (t : table) (k : lval) : lval :=
  match t with
  | [] => LNil
  | (k', v) :: t => if key_eqb k k' then v else gettable t k
  end.

(** Assigning to a key that is there keeps its place; [nil] takes the entry out. *)
Fixpoint settable (t : table) (k v : lval) : table :=
  match t with
  | [] => match v with LNil => [] | _ => [(k, v)] end
  | (k', v') :: t =>
      if key_eqb k k' then match v with LNil => t | _ => (k', v) :: t end else (k', v') :: settable t k v
  end.

(** [lua_next]: the entry after the key, [None] behind the last one. *)
Fixpoint next_after (t : table) (k : lval) : outcome (option (lval * lval)) :=
  match t with
  | [] => Fault (LuaError "invalid key to 'next'")
  | (k', _) :: t => if key_eqb k k' then Ok (head t) else next_after t k
  end.

Definition lua_next (t : table) (k : lval) : outcome (option (lval * lval)) :=
  match k with LNil => Ok (head t) | _ => next_after t k end.

(** [const char *] arguments of the API. *)
Definition name_key (n : option cname) : outcome lval :=
  match n with Some n => Ok (LStr (c_str (nm_str n))) | None => Fault NullPointer end.
Definition name_ptr (n : option cname) : option addr := nm_ptr <$> n.

Section Callbacks.
Context (C : coercions) (types : list sproto_type).

Definition get_type (i : option Z) : outcome sproto_type :=
  match i with Some i => arr_get types i | None => Fault NullPointer end.

(** ** Encoding *)

Record encode_ud := { e_tbl : table; e_array_tag : option addr; e_array : option table; e_deep : Z; e_iter : lval }.

Definition set_array (u : encode_ud) (tag : option addr) (a : option table) : encode_ud :=
  {| e_tbl := e_tbl u; e_array_tag := tag; e_array := a; e_deep := e_deep u; e_iter := e_iter u |}.
Definition set_iter (u : encode_ud) (k : lval) : encode_ud :=
  {| e_tbl := e_tbl u; e_array_tag := e_array_tag u; e_array := e_array u; e_deep := e_deep u; e_iter := k |}.

(** The value the callback is to encode, or what it returns at once. *)
Definition fetch (self : encode_ud) (args : arg) : outcome (encode_ud * (lval + Z)) :=
  k ← name_key (a_tagname args);
  if 0 <? a_index args then
    r ← (if bool_decide (name_ptr (a_tagname args) = e_array_tag self) then Ok (self, true)
         else
           let tag := name_ptr (a_tagname args) in
           match gettable (e_tbl self) k with
           | LNil => Ok (set_array self tag None, false)
           | LTable t => Ok (set_array self tag (Some t), true)
           | _ => Fault (LuaError "should be a table")
           end);
    match r with
    | (self, false) => Ok (self, inr SPROTO_CB_NOARRAY)
    | (self, true) =>
        match e_array self with
        | None => Fault NullPointer (* [array_index] is 0 *)
        | Some t =>
            if 0 <=? a_mainindex args then
              n ← lua_next t (e_iter self);
              match n with
              | None => Ok (set_iter self LNil, inr SPROTO_CB_NIL)
              | Some (k, v) => Ok (set_iter self k, inl v)
              end
            else Ok (self, inl (gettable t (LInt (a_index args))))
        end
    end
  else Ok (self, inl (gettable (e_tbl self) k)).

(** A store through [args->value]. *)
Definition store (args : arg) (b : list Z) : outcome (list Z) :=
  match a_value args with Some v => mem_write v 0 b | None => Fault NullPointer end.

Fixpoint encode (fuel : nat) (self : encode_ud) (args : arg) : outcome (encode_ud * Z * list Z) :=
  match fuel with
  | O => Fault OutOfFuel
  | S fuel =>
      let value := default [] (a_value args) in
      if ENCODE_DEEPLEVEL <=? e_deep self then Fault (LuaError "The table is too deep")
      else
        '(self, r) ← fetch self args;
        match r with
        | inr r => Ok (self, r, value)
        | inl LNil => Ok (self, SPROTO_CB_NIL, value)
        | inl v =>
            if a_type args =? SPROTO_TINTEGER then
              match tointegerx C v with
              | None => Fault (LuaError "is not an integer")
              | Some v =>
                  let vh := Z.shiftr v 31 in
                  if (vh =? 0) || (vh =? -1) then b ← store args (to_le 4 v); Ok (self, 4, b)
                  else b ← store args (to_le 8 v); Ok (self, 8, b)
              end
            else if a_type args =? SPROTO_TBOOLEAN then
              match v with
              | LBool v => b ← store args (to_le 4 (if v then 1 else 0)); Ok (self, 4, b)
              | _ => Fault (LuaError "is not a boolean")
              end
            else if a_type args =? SPROTO_TSTRING then
              match tolstring C v with
              | None => Fault (LuaError "is not a string")
              | Some str =>
                  let sz := Z.of_nat (List.length str) in
                  if u64 (a_length args) <? sz then Ok (self, SPROTO_CB_ERROR, value)
                  else b ← store args str; Ok (self, sz, b)
              end
            else if a_type args =? SPROTO_TSTRUCT then
              match v with
              | LTable t =>
                  st ← get_type (a_subtype args);
                  let sub := {| e_tbl := t; e_array_tag := None; e_array := None; e_deep := e_deep self + 1; e_iter := LNil |} in
                  '(_, b, r) ← sproto_encode (encode fuel) st value (a_length args) sub;
                  Ok (self, if r <? 0 then SPROTO_CB_ERROR else r, b)
              | _ => Fault (LuaError "is not a table")
              end
            else Fault (LuaError "Invalid field type")
        end
  end.

(** The callback checks [deep] first, so it nests at most 65 deep. *)
Definition encode_fuel : nat := 66.

(** ** Decoding *)

(** [d_result] is the table at [result_index], [d_array] the key under which the
    table at [array_index] is in it. *)
Record decode_ud := { d_array_tag : option addr; d_array : option lval; d_result : table; d_deep : Z; d_mainindex_tag : Z; d_key : lval }.

Definition with_result (u : decode_ud) (t : table) : decode_ud :=
  {| d_array_tag := d_array_tag u; d_array := d_array u; d_result := t; d_deep := d_deep u; d_mainindex_tag := d_mainindex_tag u; d_key := d_key u |}.

(** Assigning to a key of the array. *)
Definition set_in_array (u : decode_ud) (k v : lval) : outcome decode_ud :=
  match d_array u with
  | None => Fault NullPointer (* [array_index] is 0 *)
  | Some a =>
      match gettable (d_result u) a with
      | LTable t => Ok (with_result u (settable (d_result u) a (LTable (settable t k v))))
      | _ => Fault NullPointer
      end
  end.

Definition i64 (z : Z) : Z := (z + 2 ^ 63) mod 2 ^ 64 - 2 ^ 63.

(** The 64-bit integer at [args->value]. *)
Definition load (args : arg) : outcome Z :=
  match a_value args with Some v => b ← mem_read v 0 8; Ok (of_le b) | None => Fault NullPointer end.

(** What the switch gives: a value to store, or a [return]. *)
Fixpoint decode (fuel : nat) (self : decode_ud) (args : arg) : outcome (decode_ud * Z) :=
  match fuel with
  | O => Fault OutOfFuel
  | S fuel =>
      if ENCODE_DEEPLEVEL <=? d_deep self then Fault (LuaError "The table is too deep")
      else
        k ← name_key (a_tagname args);
        let fresh := negb (a_index args =? 0) && negb (bool_decide (name_ptr (a_tagname args) = d_array_tag self)) in
        let self :=
          if fresh then
            {| d_array_tag := name_ptr (a_tagname args); d_array := Some k; d_result := settable (d_result self) k (LTable []);
               d_deep := d_deep self; d_mainindex_tag := d_mainindex_tag self; d_key := d_key self |}
          else self in
        if fresh && (a_index args <? 0) then Ok (self, 0)
        else
          r ← (if a_type args =? SPROTO_TINTEGER then v ← load args; Ok (inl (LInt (i64 v)))
               else if a_type args =? SPROTO_TBOOLEAN then v ← load args; Ok (inl (LBool (negb (i32 v =? 0))))
               else if a_type args =? SPROTO_TSTRING then
                 match a_value args with
                 | None => Fault NullPointer
                 | Some v => s ← mem_read v 0 (a_length args); Ok (inl (LStr s))
                 end
               else if a_type args =? SPROTO_TSTRUCT then
                 st ← get_type (a_subtype args);
                 let sub := {| d_array_tag := None; d_array := None; d_result := []; d_deep := d_deep self + 1;
                               d_mainindex_tag := if 0 <=? a_mainindex args then a_mainindex args else -1; d_key := LNil |} in
                 m ← match a_value args with Some m => Ok m | None => Fault NullPointer end;
                 '(sub, r) ← sproto_decode (decode fuel) st m (a_length args) sub;
                 if r <? 0 then Ok (inr (self, SPROTO_CB_ERROR))
                 else if negb (r =? a_length args) then Ok (inr (self, r))
                 else if 0 <=? a_mainindex args then
                   match d_key sub with
                   | LNil => Fault (LuaError "Can't find main index")
                   | key => self ← set_in_array self key (LTable (d_result sub)); Ok (inr (self, 0))
                   end
                 else Ok (inl (LTable (d_result sub)))
               else Fault (LuaError "Invalid type"));
          match r with
          | inr (self, r) => Ok (self, r)
          | inl v =>
              if 0 <? a_index args then self ← set_in_array self (LInt (a_index args)) v; Ok (self, 0)
              else
                let key := if d_mainindex_tag self =? a_tagid args then v else d_key self in
                Ok ({| d_array_tag := d_array_tag self; d_array := d_array self; d_result := settable (d_result self) k v;
                       d_deep := d_deep self; d_mainindex_tag := d_mainindex_tag self; d_key := key |}, 0)
          end
  end.

(** ** The functions of Lua *)

(** [lencode] tries with a buffer twice as large until the message fits; the
    buffer has at most [ENCODE_MAXSIZE] bytes, so 32 tries are enough. *)
Fixpoint lencode_loop (fuel : nat) (newuserdata : Z -> list Z) (uv : Pack.upvalues) (sz : Z) (st : sproto_type) (t : table)
    : outcome (Pack.upvalues * list Z) :=
  match fuel with
  | O => Fault OutOfFuel
  | S fuel =>
      let self := {| e_tbl := t; e_array_tag := None; e_array := None; e_deep := 0; e_iter := LNil |} in
      '(_, buf, r) ← sproto_encode (encode encode_fuel) st (Pack.uv_buffer uv) sz self;
      let uv := {| Pack.uv_buffer := buf; Pack.uv_size := Pack.uv_size uv |} in
      if r <? 0 then
        uv' ← Pack.expand_buffer newuserdata sz (sz * 2);
        match uv' with
        | None => Fault (LuaError "object is too large")
        | Some uv => lencode_loop fuel newuserdata uv (sz * 2) st t
        end
      else s ← mem_read buf 0 r; Ok (uv, s)
  end.

Definition lencode (newuserdata : Z -> list Z) (uv : Pack.upvalues) (st : option sproto_type) (v : lval) : outcome (Pack.upvalues * list Z) :=
  match st with
  | None => Fault (LuaError "Need a sproto_type object")
  | Some st =>
      match v with
      | LTable t => lencode_loop 32 newuserdata uv (Pack.uv_size uv) st t
      | _ => Fault (LuaError "table expected")
      end
  end.

(** [ldecode]: the table of the result and the bytes read.  [into] is a table
    passed as the last argument. *)
Definition ldecode (st : option sproto_type) (a : Pack.source) (into : option table) : outcome (table * Z) :=
  match st with
  | None => Fault (LuaError "Need a sproto_type object")
  | Some st =>
      match Pack.getbuffer a with
      | None => Fault (LuaError "Need a string or userdata")
      | Some (m, sz) =>
          let self := {| d_array_tag := None; d_array := None; d_result := default [] into; d_deep := 0; d_mainindex_tag := -1; d_key := LNil |} in
          '(self, r) ← sproto_decode (decode encode_fuel) st m (i32 sz) self;
          if r <? 0 then Fault (LuaError "decode error") else Ok (d_result self, r)
      end
  end.
End Callbacks.

(** ** The table of default values *)

Definition encode_default (types : list sproto_type) (t : table) (args : arg) : outcome (table * Z * list Z) :=
  let value := default [] (a_value args) in
  k ← name_key (a_tagname args);
  if 0 <? a_index args then Ok (settable t k (LTable []), SPROTO_CB_NOARRAY, value)
  else if a_type args =? SPROTO_TINTEGER then Ok (settable t k (LInt 0), SPROTO_CB_NIL, value)
  else if a_type args =? SPROTO_TBOOLEAN then Ok (settable t k (LBool false), SPROTO_CB_NIL, value)
  else if a_type args =? SPROTO_TSTRING then Ok (settable t k (LStr []), SPROTO_CB_NIL, value)
  else if a_type args =? SPROTO_TSTRUCT then
    st ← get_type types (a_subtype args);
    n ← name_key (sproto_name st);
    Ok (settable t k (LTable [(LStr [95; 95; 116; 121; 112; 101], n)]), SPROTO_CB_NIL, value)
  else Fault DanglingPointer (* [lua_rawset] with nothing pushed *).

Fixpoint ldefault_loop (fuel : nat) (types : list sproto_type) (st : sproto_type) (sz : Z) (t : table) : outcome table :=
  match fuel with
  | O => Fault OutOfFuel
  | S fuel =>
      '(t, _, ret) ← sproto_encode (encode_default types) st (replicate (Z.to_nat sz) 0) sz t;
      if 0 <=? ret then Ok t else ldefault_loop fuel types st (sz * 2) t
  end.

(** [ldefault]: 64 bytes, then twice as many while they are too few.  A type has
    less than [2^17] bytes of header. *)
Definition ldefault (types : list sproto_type) (st : option sproto_type) : outcome table :=
  match st with
  | None => Fault (LuaError "Need a sproto_type object")
  | Some st => ldefault_loop 32 types st 64 []
  end.

(** ** Schemas for Lua *)

Definition lnewproto (malloc_ok : nat -> bool) (s : list Z) : outcome (option sproto) :=
  sproto_create malloc_ok (s ++ [0]) (Z.of_nat (List.length s)).

Definition ldeleteproto (sp : option sproto) : outcome (list nat) :=
  match sp with None => Fault (LuaError "Need a sproto object") | Some s => Ok (sproto_release (Some s)) end.

Definition lquerytype (sp : option sproto) (name : list Z) : outcome (option Z) :=
  match sp with None => Fault (LuaError "Need a sproto object") | Some s => sproto_type_query s name end.

(** What [lprotocol] is asked for: a tag, a name, or something else. *)
Inductive protokey := ByTag (tag : Z) | ByName (name : list Z) | ByOther.

(** The name or the tag, the request and the response type. *)
Definition lprotocol (sp : option sproto) (k : protokey) : outcome (option (lval * option Z * option Z)) :=
  match sp with
  | None => Fault (LuaError "Need a sproto_type object")
  | Some sp =>
      r ← match k with
          | ByTag tag =>
              name ← sproto_protoname sp (i32 tag);
              Ok (match name with None => None | Some n => Some (LStr (c_str (nm_str n)), i32 tag) end)
          | ByName name =>
              tag ← sproto_prototag sp name;
              Ok (if tag <? 0 then None else Some (LInt tag, tag))
          | ByOther => Fault (LuaError "Should be number or string")
          end;
      match r with
      | None => Ok None
      | Some (v, tag) =>
          request ← sproto_protoquery sp tag 0;
          response ← sproto_protoquery sp tag 1;
          Ok (Some (v, request, response))
      end
  end.

(** ** Schemas shared by all Lua states *)

Definition MAX_GLOBALSPROTO : Z := 16.

Definition lsaveproto (G_sproto : list (option sproto)) (sp : option sproto) (index : Z) : outcome (list (option sproto)) :=
  if (index <? 0) || (MAX_GLOBALSPROTO <=? index) then Fault (LuaError "Invalid global slot index")
  else arr_set G_sproto index sp.

Definition lloadproto (G_sproto : list (option sproto)) (index : Z) : outcome sproto :=
  if (index <? 0) || (MAX_GLOBALSPROTO <=? index) then Fault (LuaError "Invalid global slot index")
  else
    sp ← arr_get G_sproto index;
    match sp with None => Fault (LuaError "nil sproto at index") | Some sp => Ok sp end.

End Lsproto.
