(* ===== verification/LsprotoEncode.v ===== *)
(** * Lua tables as messages

    The message a Lua table stands for under a type, its bytes, the room
    [sproto_encode] needs for it and the table that comes back; then the proof
    that [encode] writes those bytes. *)

From S2P Require Import Prelude SprotoPack SprotoSchema SprotoSchemaProofs SprotoCodec SprotoCodecProofs SprotoArrays SprotoFields SprotoDecode Lsproto.
From Stdlib Require Import ZArith Lia String.
From stdpp Require Import base numbers list.
#[local] Open Scope Z_scope.
#[local] Open Scope list_scope.
Import Schema Codec Lsproto.

(** ** Messages *)

(** A value on the wire; records keep the fields that are there, arrays the type
    of their elements and the main index of their field. *)
Inductive sval :=
  | SNum (z : Z) | SBit (b : bool) | SText (s : list Z)
  | SRec (T : sproto_type) (fs : list (field * sval))
  | SArr (ty key : Z) (l : list sval).

Definition num (x : sval) : Z := match x with SNum z => z | _ => 0 end.
Definition bit (x : sval) : bool := match x with SBit b => b | _ => false end.

Definition small (x : sval) : option Z :=
  match x with SNum z => small_int z | SBit b => Some (Z.b2z b) | _ => None end.

Fixpoint body (x : sval) : list Z :=
  match x with
  | SNum z => int_bytes z
  | SBit b => []
  | SText s => s
  | SRec _ fs => wire ((fun p => (f_tag p.1, (small p.2, body p.2))) <$> fs)
  | SArr ty _ l =>
      if ty =? SPROTO_TINTEGER then int_body (num <$> l)
      else if ty =? SPROTO_TBOOLEAN then (fun x => Z.b2z (bit x)) <$> l
      else obj_body (body <$> l)
  end.

(** The room for the data of a field. *)
Fixpoint room (x : sval) : Z :=
  match x with
  | SNum _ => 12
  | SBit _ => 0
  | SText s => 4 + len s
  | SRec T fs => 6 + 2 * t_maxn T + 8 * len (t_f T) + foldr (fun p n => room p.2 + n) 0 fs
  | SArr ty _ l =>
      if ty =? SPROTO_TINTEGER then 5 + 8 * len l
      else if ty =? SPROTO_TBOOLEAN then 4 + len l
      else 8 + foldr (fun x n => room x + n) 0 l
  end.

(** ** From Lua *)

Definition key_of (f : field) : list Z := match f_name f with Some n => c_str (nm_str n) | None => [] end.
Definition ptr_of (f : field) : option addr := name_ptr (f_name f).

(** Records in a table with a main index, and the field that is their key. *)
Definition keyed (ty key : Z) : bool := (ty =? SPROTO_TSTRUCT) && (0 <=? key).

Definition key_field (k : Z) (fs : list (field * sval)) : option field :=
  match list_find (fun p => f_tag p.1 = k /\ is_array p.1 = false) fs with Some (_, p) => Some p.1 | None => None end.

Definition has_key (k : Z) (x : sval) : bool :=
  match x with SRec _ fs => match key_field k fs with Some _ => true | None => false end | _ => false end.

Section Image.
Context (C : coercions) (types : list sproto_type).

Definition value_image (rec : sproto_type -> table -> option (list (field * sval))) (ty : Z) (sub : option Z) (v : lval) : option sval :=
  if ty =? SPROTO_TINTEGER then
    z ← tointegerx C v; if (- 2 ^ 63 <=? z) && (z <? 2 ^ 63) then Some (SNum z) else None
  else if ty =? SPROTO_TBOOLEAN then match v with LBool b => Some (SBit b) | _ => None end
  else if ty =? SPROTO_TSTRING then s ← tolstring C v; Some (SText s)
  else match v, sub with
       | LTable t, Some i => T ← types !! Z.to_nat i; fs ← rec T t; Some (SRec T fs)
       | _, _ => None
       end.

(** The elements [1], [2], ... up to the first that is nil. *)
Fixpoint sequence (fuel : nat) (a : table) (i : Z) : option (list lval) :=
  match fuel with
  | O => None
  | S fuel => match gettable a (LInt i) with LNil => Some [] | v => l ← sequence fuel a (i + 1); Some (v :: l) end
  end.

(** Keys that [lua_next] finds again. *)
Fixpoint keys_found (ks : list lval) : bool :=
  match ks with [] => true | k :: ks => key_eqb k k && forallb (fun k' => negb (key_eqb k' k)) ks && keys_found ks end.

(** With a main index the values of the table in its own order. *)
Definition elements_of (f : field) (a : table) : option (list lval) :=
  if 0 <=? f_key f then
    if keys_found a.*1 && forallb (fun p => match p.2 with LNil => false | _ => true end) a then Some a.*2 else None
  else sequence (S (length a)) a 1.

Definition field_image (rec : sproto_type -> table -> option (list (field * sval))) (f : field) (v : lval) : option sval :=
  if is_array f then
    match v with
    | LTable a =>
        els ← elements_of f a;
        l ← mapM (value_image rec (base_type f) (f_st f)) els;
        if keyed (base_type f) (f_key f) && negb (forallb (has_key (f_key f)) l) then None
        else Some (SArr (base_type f) (f_key f) l)
    | _ => None
    end
  else if keyed (base_type f) (f_key f) then None else value_image rec (base_type f) (f_st f) v.

Fixpoint fields_image (rec : sproto_type -> table -> option (list (field * sval))) (t : table) (fs : list field) : option (list (field * sval)) :=
  match fs with
  | [] => Some []
  | f :: fs =>
      match gettable t (LStr (key_of f)) with
      | LNil => fields_image rec t fs
      | v => x ← field_image rec f v; l ← fields_image rec t fs; Some ((f, x) :: l)
      end
  end.

(** The fields of a table, [n] levels deep. *)
Fixpoint record_image (n : nat) (T : sproto_type) (t : table) : option (list (field * sval)) :=
  match n with
  | O => None
  | S n => fields_image (record_image n) t (t_f T)
  end.
End Image.

(** ** Back to Lua *)

(** The value of the main index in the table of a record. *)
Definition main_key (k : Z) (x : sval) (v : lval) : lval :=
  match x, v with
  | SRec _ fs, LTable rows => match key_field k fs with Some f => gettable rows (LStr (key_of f)) | None => LNil end
  | _, _ => LNil
  end.

(** Assignments in order. *)
Definition assign (t : table) (ps : list (lval * lval)) : table := foldl (fun t p => settable t p.1 p.2) t ps.

(** The key under which element [i] of an array is stored. *)
Definition slot (ty key : Z) (i : Z) (x : sval) (v : lval) : lval :=
  if keyed ty key then main_key key x v else LInt i.

Fixpoint slots (ty key : Z) (tbl : sval -> lval) (i : Z) (l : list sval) : list (lval * lval) :=
  match l with [] => [] | x :: l => (slot ty key i x (tbl x), tbl x) :: slots ty key tbl (i + 1) l end.

Fixpoint tbl (x : sval) : lval :=
  match x with
  | SNum z => LInt z
  | SBit b => LBool b
  | SText s => LStr s
  | SRec _ fs => LTable ((fun p => (LStr (key_of p.1), tbl p.2)) <$> fs)
  | SArr ty key l => LTable (assign [] (slots ty key tbl 1 l))
  end.

(** ** The callback of the encoder *)

Section Encoding.
Context (C : coercions) (types : list sproto_type).

(** What [encode] does with a value that is not nil. *)
Definition emit (fuel : nat) (self : encode_ud) (args : arg) (v : lval) : outcome (encode_ud * Z * list Z) :=
  let value := default [] (a_value args) in
  if a_type args =? SPROTO_TINTEGER then
    match tointegerx C v with
    | None => Fault (LuaError "is not an integer")
    | Some v =>
        let vh := Z.shiftr v 31 in
        if (vh =? 0) || (vh =? -1) then b ← store args (to_le 4 v); Ok (self, 4, b)
        else b ← store args (to_le 8 v); Ok (self, 8, b)
    end
  else if a_type args =? SPROTO_TBOOLEAN then
    match v with
    | LBool v => b ← store args (to_le 4 (if v then 1 else 0)); Ok (self, 4, b)
    | _ => Fault (LuaError "is not a boolean")
    end
  else if a_type args =? SPROTO_TSTRING then
    match tolstring C v with
    | None => Fault (LuaError "is not a string")
    | Some str =>
        let sz := len str in
        if u64 (a_length args) <? sz then Ok (self, SPROTO_CB_ERROR, value)
        else b ← store args str; Ok (self, sz, b)
    end
  else if a_type args =? SPROTO_TSTRUCT then
    match v with
    | LTable t =>
        st ← get_type types (a_subtype args);
        let sub := {| e_tbl := t; e_array_tag := None; e_array := None; e_deep := e_deep self + 1; e_iter := LNil |} in
        '(_, b, r) ← sproto_encode (encode C types fuel) st value (a_length args) sub;
        Ok (self, if r <? 0 then SPROTO_CB_ERROR else r, b)
    | _ => Fault (LuaError "is not a table")
    end
  else Fault (LuaError "Invalid field type").

Lemma encode_value fuel self args self' v : e_deep self < ENCODE_DEEPLEVEL -> fetch self args = Ok (self', inl v) -> v <> LNil ->
  encode C types (S fuel) self args = emit fuel self' args v.
Proof.
  intros Hd Hf Hv. cbn [encode]. destruct (Z.leb_spec ENCODE_DEEPLEVEL (e_deep self)); [lia|]. rewrite Hf, bind_ret. by destruct v.
Qed.

Lemma encode_none fuel self args self' r : e_deep self < ENCODE_DEEPLEVEL -> fetch self args = Ok (self', r) ->
  r = inl LNil \/ r = inr SPROTO_CB_NIL \/ r = inr SPROTO_CB_NOARRAY ->
  encode C types (S fuel) self args = Ok (self', match r with inl _ => SPROTO_CB_NIL | inr c => c end, default [] (a_value args)).
Proof.
  intros Hd Hf Hr. cbn [encode]. destruct (Z.leb_spec ENCODE_DEEPLEVEL (e_deep self)); [lia|]. rewrite Hf, bind_ret.
  by destruct Hr as [-> | [-> | ->]].
Qed.

Lemma shiftr_31 z : (Z.shiftr z 31 =? 0) || (Z.shiftr z 31 =? -1) = fits32 z.
Proof.
  rewrite Z.shiftr_div_pow2 by done. pose proof (Z.div_mod z (2 ^ 31) ltac:(lia)). pose proof (Z.mod_pos_bound z (2 ^ 31) ltac:(lia)).
  apply eq_true_iff_eq. rewrite fits32_spec, orb_true_iff, !Z.eqb_eq. lia.
Qed.

Lemma store_front args b v tail : a_value args = Some (v ++ tail) -> length v = length b -> store args b = Ok (b ++ tail).
Proof. intros E Hl. unfold store. rewrite E. by apply (write_at [] v tail b 0). Qed.

Lemma emit_int fuel self args v z n : a_type args = SPROTO_TINTEGER -> tointegerx C v = Some z ->
  emit fuel self (with_value args (Some (replicate 8 0)) 8 n) v
    = Ok (self, if fits32 z then 4 else 8, if fits32 z then to_le 4 z ++ replicate 4 0 else to_le 8 z).
Proof.
  intros Ht Hz. unfold emit. cbn [with_value a_type a_value]. rewrite Ht, Z.eqb_refl, Hz, shiftr_31. destruct (fits32 z).
  - rewrite (store_front _ _ (replicate 4 0) (replicate 4 0)) by done. by rewrite bind_ret.
  - rewrite (store_front _ _ (replicate 8 0) []) by done. by rewrite bind_ret, app_nil_r.
Qed.

Lemma emit_bool fuel self args (b : bool) m len n : a_type args = SPROTO_TBOOLEAN ->
  emit fuel self (with_value args (Some (replicate 4 0 ++ m)) len n) (LBool b) = Ok (self, 4, to_le 4 (Z.b2z b) ++ m).
Proof.
  intros Ht. unfold emit. cbn [with_value a_type a_value]. rewrite Ht. change (SPROTO_TBOOLEAN =? SPROTO_TINTEGER) with false. rewrite Z.eqb_refl.
  rewrite (store_front _ _ (replicate 4 0) m) by (done || by rewrite le_length). by destruct b.
Qed.

Lemma emit_string fuel self args v s n region : a_type args = SPROTO_TSTRING -> tolstring C v = Some s -> len s <= len region -> len region < 2 ^ 31 ->
  exists rest, emit fuel self (with_value args (Some region) (len region) n) v = Ok (self, len s, s ++ rest) /\ len (s ++ rest) = len region.
Proof.
  intros Ht Hs Hl H31. unfold emit. cbn [with_value a_type a_value a_length]. rewrite Ht. change (SPROTO_TSTRING =? SPROTO_TINTEGER) with false.
  change (SPROTO_TSTRING =? SPROTO_TBOOLEAN) with false. rewrite Z.eqb_refl, Hs. cbv zeta.
  pose proof (len_nonneg region). unfold u64. rewrite Z.mod_small by lia. destruct (Z.ltb_spec (len region) (len s)); [lia|].
  destruct (split_front region (length s)) as (a & b & -> & Ha); [unfold len in *; lia|].
  rewrite (store_front _ s a b), bind_ret by done. exists b. rewrite !len_app. split; [done|]. unfold len. lia.
Qed.

(** A record is written by [sproto_encode] with a callback of its own. *)
Lemma emit_record fuel self args t T i fs n region self' : a_type args = SPROTO_TSTRUCT -> a_subtype args = Some i -> 0 <= i -> types !! Z.to_nat i = Some T ->
  wf_type (len types) T ->
  fields_write (encode C types fuel) {| e_tbl := t; e_array_tag := None; e_array := None; e_deep := e_deep self + 1; e_iter := LNil |}
    (t_f T) n self' fs -> 2 + 2 * t_maxn T + n <= len region -> 0 <= n -> len region < 2 ^ 31 -> forall k,
  exists rest, emit fuel self (with_value args (Some region) (len region) k) (LTable t) = Ok (self, len (wire fs), wire fs ++ rest) /\ len (wire fs ++ rest) = len region.
Proof.
  intros Ht Hsub Hi HT W Hw Hroom Hn H31 k. unfold emit. cbn [with_value a_type a_value a_length a_subtype default]. rewrite Ht, Hsub.
  change (SPROTO_TSTRUCT =? SPROTO_TINTEGER) with false. change (SPROTO_TSTRUCT =? SPROTO_TBOOLEAN) with false. change (SPROTO_TSTRUCT =? SPROTO_TSTRING) with false.
  rewrite Z.eqb_refl. unfold get_type. rewrite (arr_get_ok types i T), bind_ret by done. change (id region) with region.
  destruct (sproto_encode_ok _ _ T region (len region) _ self' n fs W Hw eq_refl Hroom Hn H31) as (rest & -> & Hl). rewrite bind_ret.
  pose proof (len_nonneg (wire fs)). destruct (Z.ltb_spec (len (wire fs)) 0); [lia|]. by exists rest.
Qed.

(** ** Fetching the elements of an array *)

Lemma name_key_of f : f_name f <> None -> name_key (f_name f) = Ok (LStr (key_of f)).
Proof. unfold name_key, key_of. by destruct (f_name f). Qed.

Lemma fetch_scalar f ty self v n : f_name f <> None ->
  fetch self (with_value (at_field f ty) v n 0) = Ok (self, inl (gettable (e_tbl self) (LStr (key_of f)))).
Proof. intros Hn. unfold fetch. cbn [with_value at_field a_tagname a_index]. by rewrite name_key_of, bind_ret by done. Qed.

#[local] Instance nil_dec (v : lval) : Decision (v = LNil).
Proof. refine match v with LNil => left eq_refl | _ => right _ end; done. Defined.

(** [fetch] delivers the values [vs] at the indices from [i] on, and then nothing. *)
Inductive fetches (args : arg) : encode_ud -> Z -> list lval -> encode_ud -> Prop :=
  | fe_end self i self' r : e_deep self < ENCODE_DEEPLEVEL -> (forall v n, fetch self (with_value args v n i) = Ok (self', r)) ->
      r = inl LNil \/ r = inr SPROTO_CB_NIL -> fetches args self i [] self'
  | fe_next self i x xs self1 self2 : e_deep self < ENCODE_DEEPLEVEL -> (forall v n, fetch self (with_value args v n i) = Ok (self1, inl x)) -> x <> LNil ->
      fetches args self1 (i + 1) xs self2 -> fetches args self i (x :: xs) self2.

Lemma fetches_same args self self1 xs self2 i : e_deep self < ENCODE_DEEPLEVEL ->
  (forall v n, fetch self (with_value args v n i) = fetch self1 (with_value args v n i)) ->
  fetches args self1 i xs self2 -> fetches args self i xs self2.
Proof.
  intros Hd He H. inversion H; subst.
  - eapply fe_end; [done| |done]. intros v n. by rewrite He.
  - eapply fe_next; [done| |done|done]. intros v n. by rewrite He.
Qed.

(** In an array that was opened before. *)
Lemma fetch_open f ty self a v n i : f_name f <> None -> 0 < i -> e_array_tag self = ptr_of f -> e_array self = Some a ->
  fetch self (with_value (at_field f ty) v n i) =
    (if 0 <=? f_key f then
       r ← lua_next a (e_iter self);
       match r with None => Ok (set_iter self LNil, inr SPROTO_CB_NIL) | Some (k, v) => Ok (set_iter self k, inl v) end
     else Ok (self, inl (gettable a (LInt i)))).
Proof.
  intros Hn Hi Ht Ha. unfold fetch. cbn [with_value at_field a_tagname a_index a_mainindex]. rewrite name_key_of, bind_ret by done.
  destruct (Z.ltb_spec 0 i); [|lia]. rewrite Ht. unfold ptr_of. rewrite bool_decide_eq_true_2, bind_ret, Ha by done. done.
Qed.

Lemma fetch_fresh f ty self a v n i : f_name f <> None -> 0 < i -> e_array_tag self <> ptr_of f -> gettable (e_tbl self) (LStr (key_of f)) = LTable a ->
  fetch self (with_value (at_field f ty) v n i) = fetch (set_array self (ptr_of f) (Some a)) (with_value (at_field f ty) v n i).
Proof.
  intros Hn Hi Ht Ha. rewrite (fetch_open f ty (set_array self (ptr_of f) (Some a)) a) by done.
  unfold fetch. cbn [with_value at_field a_tagname a_index a_mainindex]. rewrite name_key_of, bind_ret by done.
  destruct (Z.ltb_spec 0 i); [|lia]. unfold ptr_of in Ht. rewrite bool_decide_eq_false_2 by congruence. rewrite Ha, bind_ret. done.
Qed.

Lemma fetch_noarray f ty self v n : f_name f <> None -> e_array_tag self <> ptr_of f -> gettable (e_tbl self) (LStr (key_of f)) = LNil ->
  fetch self (with_value (at_field f ty) v n 1) = Ok (set_array self (ptr_of f) None, inr SPROTO_CB_NOARRAY).
Proof.
  intros Hn Ht Ha. unfold fetch. cbn [with_value at_field a_tagname a_index a_mainindex]. rewrite name_key_of, bind_ret by done.
  change (0 <? 1) with true. cbv iota. unfold ptr_of in Ht. rewrite bool_decide_eq_false_2 by congruence. rewrite Ha, bind_ret. done.
Qed.

Lemma fetches_sequence f ty a self fuel : f_name f <> None -> (0 <=? f_key f) = false -> e_array_tag self = ptr_of f -> e_array self = Some a ->
  e_deep self < ENCODE_DEEPLEVEL -> forall i els, 0 < i -> sequence fuel a i = Some els -> fetches (at_field f ty) self i els self.
Proof.
  intros Hn Hk Ht Ha Hd. induction fuel as [|fuel IH]; intros i els Hi H; [done|]. cbn [sequence] in H.
  destruct (decide (gettable a (LInt i) = LNil)) as [E|E].
  - rewrite E in H. injection H as <-. eapply fe_end; [done| |by left]. intros v n. rewrite (fetch_open f ty self a), Hk, E by done. done.
  - assert (Hs : exists l, sequence fuel a (i + 1) = Some l /\ els = gettable a (LInt i) :: l).
    { destruct (gettable a (LInt i)) eqn:E'; try done; (destruct (sequence fuel a (i + 1)) as [l|]; [|done]; injection H as <-; by exists l). }
    destruct Hs as (l & Hs & ->). apply (fe_next _ _ _ _ _ self); [done| |done|apply IH; [lia|done]].
    intros v n. by rewrite (fetch_open f ty self a), Hk by done.
Qed.

Lemma next_after_ok pre k v post : keys_found (pre ++ (k, v) :: post).*1 = true -> next_after (pre ++ (k, v) :: post) k = Ok (head post).
Proof.
  induction pre as [|[k' v'] pre IH]; intros H.
  - change (keys_found (k :: post.*1) = true) in H. cbn [keys_found] in H. apply andb_true_iff in H as [[Hk _]%andb_true_iff _]. cbn [app next_after]. by rewrite Hk.
  - change (keys_found (k' :: (pre ++ (k, v) :: post).*1) = true) in H. cbn [keys_found] in H. apply andb_true_iff in H as [[_ Hk]%andb_true_iff H].
    rewrite forallb_forall in Hk. specialize (Hk k). cbn [app next_after]. rewrite (proj1 (negb_true_iff _) (Hk ltac:(apply list_elem_of_In; rewrite fmap_app; apply elem_of_app; right; by apply elem_of_cons; left))).
    by apply IH.
Qed.

(** The iterator: [nil] before the first entry, the key of the last one after. *)
Definition iter_after (pre : table) : lval := match last pre with Some p => p.1 | None => LNil end.

Lemma lua_next_ok pre post : keys_found (pre ++ post).*1 = true -> lua_next (pre ++ post) (iter_after pre) = Ok (head post).
Proof.
  intros H. unfold iter_after. destruct pre as [|[k v] pre _] using rev_ind; [done|]. rewrite last_snoc. cbn [fst].
  rewrite <- app_assoc in *. cbn [app] in *. unfold lua_next. rewrite (next_after_ok pre k v post H).
  destruct k; try done. exfalso. clear -H. induction pre as [|[k' v'] pre IH].
  - change (keys_found (LNil :: post.*1) = true) in H. done.
  - change (keys_found (k' :: (pre ++ (LNil, v) :: post).*1) = true) in H. cbn [keys_found] in H. apply andb_true_iff in H as [_ H]. by apply IH.
Qed.

Lemma fetches_keyed f ty a self : f_name f <> None -> (0 <=? f_key f) = true -> e_array_tag self = ptr_of f -> e_array self = Some a ->
  e_deep self < ENCODE_DEEPLEVEL -> keys_found a.*1 = true -> forallb (fun p => match p.2 with LNil => false | _ => true end) a = true ->
  forall post pre i, a = pre ++ post -> 0 < i -> e_iter self = LNil ->
  fetches (at_field f ty) (set_iter self (iter_after pre)) i post.*2 self.
Proof.
  intros Hn Hk Ht Ha Hd Hkeys Hnil. induction post as [|[k v] post IH]; intros pre i E Hi Hit.
  - eapply fe_end; [done| |by right]. intros w n. rewrite (fetch_open f ty _ a), Hk by done. cbn [set_iter e_iter].
    rewrite E, lua_next_ok, bind_ret by (by rewrite <- E). cbn [head]. do 2 f_equal. destruct self. cbn in *. by rewrite Hit.
  - change (((k, v) :: post).*2) with (v :: post.*2). apply (fe_next _ _ _ _ _ (set_iter self k)); [done| | |].
    + intros w n. rewrite (fetch_open f ty _ a), Hk by done. cbn [set_iter e_iter]. rewrite E, lua_next_ok, bind_ret by (by rewrite <- E). done.
    + rewrite E, forallb_app in Hnil. apply andb_true_iff in Hnil as [_ Hnil]. cbn [forallb snd] in Hnil. apply andb_true_iff in Hnil as [Hnil _]. by destruct v.
    + replace (set_iter self k) with (set_iter self (iter_after (pre ++ [(k, v)]))) by (unfold iter_after; by rewrite last_snoc).
      apply IH; [by rewrite <- app_assoc|lia|done].
Qed.

(** The table is read, the iterator is at its start and no array of the fields
    in [rest] is open. *)
Definition ready (t : table) (d : Z) (rest : list field) (self : encode_ud) : Prop :=
  e_tbl self = t /\ e_deep self = d /\ e_iter self = LNil /\ e_array_tag self ∉ ptr_of <$> rest.

Lemma fetches_array f ty t d rest self a els : f_name f <> None -> NoDup (ptr_of <$> f :: rest) -> d < ENCODE_DEEPLEVEL ->
  ready t d (f :: rest) self -> gettable t (LStr (key_of f)) = LTable a -> elements_of f a = Some els ->
  exists self', fetches (at_field f ty) self 1 els self' /\ ready t d rest self'.
Proof.
  intros Hn Hnd Hd (R1 & R2 & R3 & R4) Ht He. rewrite fmap_cons in Hnd, R4. apply NoDup_cons in Hnd as [Hf _]. apply not_elem_of_cons in R4 as [Hp _].
  exists (set_array self (ptr_of f) (Some a)). split; [|done].
  apply (fetches_same _ _ (set_array self (ptr_of f) (Some a))); [lia|intros v n; apply fetch_fresh; [done|done|done|by rewrite R1]|].
  unfold elements_of in He. destruct (0 <=? f_key f) eqn:Hk.
  - destruct (keys_found a.*1 && _) eqn:Hg; [|done]. apply andb_true_iff in Hg as [Hg1 Hg2]. injection He as <-.
    replace (set_array self (ptr_of f) (Some a)) with (set_iter (set_array self (ptr_of f) (Some a)) (iter_after [])) at 1 by (destruct self; cbn in *; by rewrite R3).
    apply (fetches_keyed f ty a); try done. cbn [set_array e_deep]. lia.
  - apply (fetches_sequence f ty a _ (S (length a))); try done. cbn [set_array e_deep]. lia.
Qed.

(** ** Values written *)

Lemma image_int rec sub v x : value_image C types rec SPROTO_TINTEGER sub v = Some x ->
  exists z, x = SNum z /\ tointegerx C v = Some z /\ - 2 ^ 63 <= z < 2 ^ 63.
Proof.
  unfold value_image. rewrite Z.eqb_refl. destruct (tointegerx C v) as [z|]; [|done]. cbn [mbind option_bind].
  destruct (Z.leb_spec (- 2 ^ 63) z), (Z.ltb_spec z (2 ^ 63)); cbn [andb]; try done. intros [= <-]. by exists z.
Qed.

Lemma image_bool rec sub v x : value_image C types rec SPROTO_TBOOLEAN sub v = Some x -> exists b, v = LBool b /\ x = SBit b.
Proof. cbn. destruct v as [|b| | | |]; try done. intros [= <-]. by exists b. Qed.

Lemma image_string rec sub v x : value_image C types rec SPROTO_TSTRING sub v = Some x -> exists s, x = SText s /\ tolstring C v = Some s.
Proof. cbn. destruct (tolstring C v) as [s|]; [|done]. intros [= <-]. by exists s. Qed.

Lemma image_record rec sub v x : value_image C types rec SPROTO_TSTRUCT sub v = Some x ->
  exists t i T fs, v = LTable t /\ sub = Some i /\ types !! Z.to_nat i = Some T /\ rec T t = Some fs /\ x = SRec T fs.
Proof.
  cbn. destruct v as [| | | |t|], sub as [i|]; try done. destruct (types !! Z.to_nat i) as [T|] eqn:E; [|done]. cbn [mbind option_bind].
  destruct (rec T t) as [fs|] eqn:E2; [|done]. intros [= <-]. by exists t, i, T, fs.
Qed.

Lemma fetches_end fuel args self i self' r v n : e_deep self < ENCODE_DEEPLEVEL -> (forall v n, fetch self (with_value args v n i) = Ok (self', r)) ->
  r = inl LNil \/ r = inr SPROTO_CB_NIL -> encode C types (S fuel) self (with_value args (Some v) n i) = Ok (self', SPROTO_CB_NIL, v).
Proof.
  intros Hd Hf Hr. rewrite (encode_none fuel self _ self' r) by (done || (destruct Hr; auto)). by destruct Hr as [-> | ->].
Qed.

Lemma fetched_ints rec sub fuel args self i els self' : a_type args = SPROTO_TINTEGER -> fetches args self i els self' -> forall xs,
  Forall2 (fun v x => value_image C types rec SPROTO_TINTEGER sub v = Some x) els xs ->
  delivers_ints (encode C types (S fuel)) args self i (num <$> xs) self'.
Proof.
  intros Ht. induction 1 as [self i self' r Hd Hf Hr|self i v vs self1 self2 Hd Hf Hv _ IH]; intros xs HF; inversion HF; subst.
  - eapply di_end. by apply (fetches_end fuel args self i self' r).
  - destruct (image_int _ _ _ _ H1) as (z & -> & Hz & _). cbn [fmap list_fmap num].
    eapply (di_next _ _ self i z _ self1); [rewrite (encode_value fuel self _ self1 v) by done; apply emit_int; done| |by apply IH].
    by destruct (fits32 z).
Qed.

Lemma fetched_bools rec sub fuel args self i els self' : a_type args = SPROTO_TBOOLEAN -> fetches args self i els self' -> forall xs,
  Forall2 (fun v x => value_image C types rec SPROTO_TBOOLEAN sub v = Some x) els xs ->
  delivers_bools (encode C types (S fuel)) args self i (bit <$> xs) self'.
Proof.
  intros Ht. induction 1 as [self i self' r Hd Hf Hr|self i v vs self1 self2 Hd Hf Hv _ IH]; intros xs HF; inversion HF; subst.
  - eapply db_end. by apply (fetches_end fuel args self i self' r).
  - destruct (image_bool _ _ _ _ H1) as (b & -> & ->). cbn [fmap list_fmap bit].
    eapply (db_next _ _ self i b _ self1); [rewrite (encode_value fuel self _ self1 (LBool b)) by done; by apply (emit_bool _ _ _ b [])| |by apply IH].
    by rewrite app_nil_r.
Qed.

Definition spec_fields (fs : list (field * sval)) : list wfield := (fun p => (f_tag p.1, (small p.2, body p.2))) <$> fs.
Definition rooms (fs : list (field * sval)) : Z := foldr (fun p n => room p.2 + n) 0 fs.

(** Records are written, [n] levels deep. *)
Definition records_write (n fuel : nat) : Prop := forall T t fs d, T ∈ types -> record_image C types n T t = Some fs -> d + Z.of_nat n <= ENCODE_DEEPLEVEL ->
  exists R self', fields_write (encode C types fuel) {| e_tbl := t; e_array_tag := None; e_array := None; e_deep := d; e_iter := LNil |} (t_f T) R self' (spec_fields fs) /\
    0 <= R <= 8 * len (t_f T) + rooms fs.

Hypothesis Htypes : Forall (wf_type (len types)) types.

Definition object_type (ty : Z) : Prop := ty = SPROTO_TSTRUCT \/ ty = SPROTO_TSTRING.

Lemma value_puts n fuel self args v x k : object_type (a_type args) -> (forall i, a_subtype args = Some i -> 0 <= i) -> records_write n fuel ->
  e_deep self + 1 + Z.of_nat n <= ENCODE_DEEPLEVEL -> value_image C types (record_image C types n) (a_type args) (a_subtype args) v = Some x ->
  4 <= room x /\ forall region, room x - 4 <= len region -> len region < 2 ^ 31 ->
  exists rest, emit fuel self (with_value args (Some region) (len region) k) v = Ok (self, len (body x), body x ++ rest) /\ len (body x ++ rest) = len region.
Proof.
  intros Ht Hsub Hrec Hd Hx. destruct Ht as [Ht|Ht]; rewrite Ht in Hx.
  - destruct (image_record _ _ _ _ Hx) as (t & i & T & fs & -> & Hi & HT & Hfs & ->). specialize (Hsub _ Hi).
    assert (Hin : T ∈ types) by (by eapply list_elem_of_lookup_2). rewrite Forall_forall in Htypes. pose proof (Htypes _ Hin) as W.
    pose proof (maxn_bound _ _ W). pose proof (len_nonneg (t_f T)).
    destruct (Hrec T t fs (e_deep self + 1) Hin Hfs ltac:(lia)) as (R & self' & Hw & HR).
    change (room (SRec T fs)) with (6 + 2 * t_maxn T + 8 * len (t_f T) + rooms fs).
    split; [lia|]. intros region Hroom H31. apply (emit_record fuel self args t T i (spec_fields fs) R region self'); try done; lia.
  - destruct (image_string _ _ _ _ Hx) as (s & -> & Hs). cbn [room body]. pose proof (len_nonneg s). split; [lia|]. intros region Hroom H31.
    apply emit_string; [done|done|lia|done].
Qed.

Lemma fetch_deep self args self' r : fetch self args = Ok (self', r) -> e_deep self' = e_deep self.
Proof.
  unfold fetch. destruct (name_key (a_tagname args)) as [k|]; [|done]. rewrite bind_ret. destruct (0 <? a_index args); [|intros [= <- <-]; done].
  assert (H : forall m : outcome (encode_ud * bool), (forall s b, m = Ok (s, b) -> e_deep s = e_deep self) ->
    (r ← m; match r with (s, false) => Ok (s, inr SPROTO_CB_NOARRAY) | (s, true) => match e_array s with None => Fault NullPointer | Some t =>
       if 0 <=? a_mainindex args then n ← lua_next t (e_iter s); match n with None => Ok (set_iter s LNil, inr SPROTO_CB_NIL) | Some (k, v) => Ok (set_iter s k, inl v) end
       else Ok (s, inl (gettable t (LInt (a_index args)))) end end) = Ok (self', r) -> e_deep self' = e_deep self).
  { intros [[s b]|] Hm; [|done]. specialize (Hm s b eq_refl). rewrite bind_ret. destruct b; [|intros [= <- <-]; done].
    destruct (e_array s) as [t|]; [|done]. destruct (0 <=? a_mainindex args); [|intros [= <- <-]; done].
    destruct (lua_next t (e_iter s)) as [[[k' v]|]|]; [| |done]; rewrite bind_ret; intros [= <- <-]; done. }
  apply H. intros s b. destruct (bool_decide _); [intros [= <- <-]; done|]. destruct (gettable (e_tbl self) k); try done; intros [= <- <-]; done.
Qed.

Lemma fetched_objs n fuel args self i els self' : object_type (a_type args) -> (forall i, a_subtype args = Some i -> 0 <= i) -> records_write n fuel ->
  fetches args self i els self' -> forall xs d, e_deep self = d -> d + 1 + Z.of_nat n <= ENCODE_DEEPLEVEL ->
  Forall2 (fun v x => value_image C types (record_image C types n) (a_type args) (a_subtype args) v = Some x) els xs ->
  delivers_objs (encode C types (S fuel)) args self i (body <$> xs) (4 + foldr (fun x n => room x + n) 0 xs) self'.
Proof.
  intros Ht Hsub Hrec. induction 1 as [self i self' r Hd Hf Hr|self i v vs self1 self2 Hd Hf Hv _ IH]; intros xs d Ed Hn HF; inversion HF; subst.
  - rewrite Z.add_0_r. eapply do_end. intros region. by apply (fetches_end fuel args self i self' r).
  - cbn [fmap list_fmap foldr]. pose proof (fetch_deep _ _ _ _ (Hf None 0)) as E1.
    destruct (value_puts n fuel self1 args v y i Ht Hsub Hrec ltac:(lia) H1) as [Hy Hp].
    replace (4 + (room y + foldr (fun x n => room x + n) 0 l')) with (4 + (room y - 4) + (4 + foldr (fun x n => room x + n) 0 l')) by lia.
    apply (do_next _ _ self i (body y) (body <$> l') (room y - 4) _ self1); [|lia|by apply (IH l' (e_deep self1)); [|lia|]].
    intros region Hroom H31. rewrite (encode_value fuel self _ self1 v) by done. by apply Hp.
Qed.

(** ** Fields written *)

Lemma value_cases f : field_ok (len types) f ->
  f_name f <> None /\ (forall i, f_st f = Some i -> 0 <= i) /\ (base_type f = SPROTO_TINTEGER \/ base_type f = SPROTO_TBOOLEAN \/ object_type (base_type f)).
Proof.
  intros Hf. destruct (type_cases _ _ Hf) as [_ Hc]. destruct Hf as ((nm & ->) & _ & _ & b & _ & Hb). split; [done|]. split.
  - intros i Hi. destruct Hb as [[_ E]|(_ & v & E & Hv)]; rewrite E in Hi; [done|]. injection Hi as <-. lia.
  - unfold object_type. destruct Hc as [?|[?|[?|?]]]; auto.
Qed.

Lemma scalar_writes n fuel f self v x : field_ok (len types) f -> is_array f = false -> records_write n fuel ->
  e_deep self + 1 + Z.of_nat n <= ENCODE_DEEPLEVEL -> gettable (e_tbl self) (LStr (key_of f)) = v -> v <> LNil ->
  value_image C types (record_image C types n) (base_type f) (f_st f) v = Some x ->
  0 <= room x /\ field_writes (encode C types (S fuel)) self f (room x) self (Some (small x, body x)).
Proof.
  intros Hf Ha Hrec Hd Hv Hnil Hx. destruct (value_cases f Hf) as (Hn & Hsub & Hc). destruct (type_cases _ _ Hf) as [[?|[_ Ht]] _]; [congruence|].
  assert (He : forall w k, encode C types (S fuel) self (with_value (at_field f (f_type f)) w k 0) = emit fuel self (with_value (at_field f (f_type f)) w k 0) v).
  { intros w k. apply encode_value; [lia| |done]. rewrite <- Hv. by apply fetch_scalar. }
  destruct Hc as [Hc|[Hc|Hc]].
  - rewrite Hc in Hx, Ht. destruct (image_int _ _ _ _ Hx) as (z & -> & Hz & _). split; [done|].
    eapply (int_writes _ self f z); [done|done|rewrite He; by apply emit_int|]. unfold int_bytes. by destruct (fits32 z).
  - rewrite Hc in Hx, Ht. destruct (image_bool _ _ _ _ Hx) as (b & -> & ->). split; [done|].
    eapply (word_writes _ self f (Z.b2z b)); [done|by right|rewrite He; by apply (emit_bool _ _ _ b (replicate 4 0))|done|destruct b; cbn; lia].
  - destruct (value_puts n fuel self (at_field f (f_type f)) v x 0) as [Hr Hp]; cbn [at_field a_type a_subtype]; rewrite ?Ht; try done. split; [lia|].
    replace (room x) with (4 + (room x - 4)) by lia. replace (small x) with (@None Z); [|].
    + apply object_writes; [done|by rewrite Ht| |lia]. intros region Hroom H31. rewrite He. by apply Hp.
    + destruct Hc as [Hc|Hc]; rewrite Hc in Hx; [destruct (image_record _ _ _ _ Hx) as (?&?&?&?&_&_&_&_&->)|destruct (image_string _ _ _ _ Hx) as (?&->&_)]; done.
Qed.

Lemma array_field_writes n fuel f t d rest self a x : field_ok (len types) f -> is_array f = true -> records_write n fuel ->
  d + 1 + Z.of_nat n <= ENCODE_DEEPLEVEL -> NoDup (ptr_of <$> f :: rest) -> ready t d (f :: rest) self -> gettable t (LStr (key_of f)) = LTable a ->
  field_image C types (record_image C types n) f (LTable a) = Some x ->
  0 <= room x /\ exists self', field_writes (encode C types (S fuel)) self f (room x) self' (Some (small x, body x)) /\ ready t d rest self'.
Proof.
  intros Hf Ha Hrec Hd Hnd Hready Ht Hx. destruct (value_cases f Hf) as (Hn & Hsub & Hc). unfold field_image in Hx. rewrite Ha in Hx.
  destruct (elements_of f a) as [els|] eqn:He; [|done]. cbn [mbind option_bind] in Hx.
  destruct (mapM _ els) as [xs|] eqn:Hm; [|done]. cbn [mbind option_bind] in Hx. destruct (keyed _ _ && _); [done|]. injection Hx as <-.
  apply mapM_Some in Hm. destruct (fetches_array f (base_type f) t d rest self a els Hn Hnd ltac:(lia) Hready Ht He) as (self' & Hfe & Hr').
  destruct Hready as (_ & Hde & _). cbn [room small body]. pose proof (len_nonneg xs).
  destruct Hc as [Hc|[Hc|Hc]].
  - rewrite Hc in *. rewrite Z.eqb_refl. split; [lia|]. exists self'. split; [|done]. replace (5 + 8 * len xs) with (4 + (1 + 8 * len (num <$> xs))) by (unfold len; rewrite length_fmap; lia).
    apply array_writes; [done|unfold len; lia|]. rewrite Hc. apply elements_ints; [done|]. by eapply fetched_ints.
  - rewrite Hc in *. change (SPROTO_TBOOLEAN =? SPROTO_TINTEGER) with false. rewrite Z.eqb_refl. split; [lia|]. exists self'. split; [|done].
    replace (4 + len xs) with (4 + len (bit <$> xs)) by (unfold len; by rewrite length_fmap).
    replace ((fun x => Z.b2z (bit x)) <$> xs) with (Z.b2z <$> (bit <$> xs)) by (by rewrite <- list_fmap_compose).
    apply array_writes; [done|apply len_nonneg|]. rewrite Hc. apply elements_bools; [done|]. by eapply fetched_bools.
  - assert (Hty : (base_type f =? SPROTO_TINTEGER) = false /\ (base_type f =? SPROTO_TBOOLEAN) = false) by (destruct Hc as [-> | ->]; done). destruct Hty as [E1 E2]. rewrite E1, E2.
    pose proof (fetched_objs n fuel (at_field f (base_type f)) self 1 els self' Hc Hsub Hrec Hfe xs d Hde Hd Hm) as Hdel.
    pose proof (delivers_room _ _ _ _ _ _ _ Hdel) as [Hr0 _]. pose proof (len_nonneg (body <$> xs)). split; [lia|]. exists self'. split; [|done].
    replace (8 + foldr (fun x n => room x + n) 0 xs) with (4 + (4 + foldr (fun x n => room x + n) 0 xs)) by lia.
    apply array_writes; [done|lia|]. apply elements_objs; [by apply Z.eqb_neq|by apply Z.eqb_neq|done].
Qed.

Lemma absent_writes n f t d rest self fuel : field_ok (len types) f -> d + 1 + Z.of_nat n <= ENCODE_DEEPLEVEL -> NoDup (ptr_of <$> f :: rest) ->
  ready t d (f :: rest) self -> gettable t (LStr (key_of f)) = LNil ->
  exists self', field_writes (encode C types (S fuel)) self f 8 self' None /\ ready t d rest self'.
Proof.
  intros Hf Hd Hnd (R1 & R2 & R3 & R4) Hv. destruct (value_cases f Hf) as (Hn & _ & _).
  rewrite fmap_cons in Hnd, R4. apply NoDup_cons in Hnd as [Hp _]. apply not_elem_of_cons in R4 as [Hp1 Hp2].
  destruct (is_array f) eqn:Ha.
  - exists (set_array self (ptr_of f) None). split; [|done]. apply array_absent; [done|]. intros v k.
    rewrite (encode_none fuel self _ (set_array self (ptr_of f) None) (inr SPROTO_CB_NOARRAY)); [done|lia| |auto].
    apply fetch_noarray; [done|done|by rewrite R1].
  - exists self. split; [|done]. apply (scalar_absent _ (len types)); [done|done|]. intros v k.
    rewrite (encode_none fuel self _ self (inl LNil)); [done|lia| |auto]. rewrite fetch_scalar, R1, Hv by done. done.
Qed.

Lemma fields_image_cons rec t f fs l : fields_image C types rec t (f :: fs) = Some l ->
  gettable t (LStr (key_of f)) = LNil /\ fields_image C types rec t fs = Some l \/
  exists v x l', gettable t (LStr (key_of f)) = v /\ v <> LNil /\ field_image C types rec f v = Some x /\ fields_image C types rec t fs = Some l' /\ l = (f, x) :: l'.
Proof.
  intros H. cbn [fields_image] in H. destruct (decide (gettable t (LStr (key_of f)) = LNil)) as [E|E]; [left; by rewrite E in H|right].
  destruct (field_image C types rec f (gettable t (LStr (key_of f)))) as [x|] eqn:Ex;
    [|destruct (gettable t (LStr (key_of f))) eqn:E'; try done; by rewrite Ex in H].
  destruct (fields_image C types rec t fs) as [l'|] eqn:El;
    [|destruct (gettable t (LStr (key_of f))) eqn:E'; try done; by rewrite Ex in H].
  exists (gettable t (LStr (key_of f))), x, l'. split_and!; [done|done|done|done|].
  destruct (gettable t (LStr (key_of f))); try done; rewrite Ex in H; by injection H as <-.
Qed.

Lemma fields_image_write n fuel t d : records_write n fuel -> d + 1 + Z.of_nat n <= ENCODE_DEEPLEVEL -> forall fs l self,
  Forall (field_ok (len types)) fs -> NoDup (ptr_of <$> fs) -> ready t d fs self -> fields_image C types (record_image C types n) t fs = Some l ->
  exists R self', fields_write (encode C types (S fuel)) self fs R self' (spec_fields l) /\ 0 <= R <= 8 * len fs + rooms l.
Proof.
  intros Hrec Hd. induction fs as [|f fs IH]; intros l self HF Hnd Hready Hl.
  { injection Hl as <-. exists 0, self. split; [constructor|]. cbn. unfold len. cbn. lia. }
  apply Forall_cons in HF as [Hf HF]. rewrite len_cons. pose proof Hnd as Hnd'. rewrite fmap_cons in Hnd'. apply NoDup_cons in Hnd' as [_ Hnd'].
  destruct (fields_image_cons _ _ _ _ _ Hl) as [[Hv Hl']|(v & x & l' & Hv & Hnil & Hx & Hl' & ->)].
  - destruct (absent_writes n f t d fs self fuel Hf Hd Hnd Hready Hv) as (self1 & Hw & Hr1).
    destruct (IH l self1 HF Hnd' Hr1 Hl') as (R & self2 & Hws & HR). exists (8 + R), self2. split; [|lia].
    change (spec_fields l) with (add_field f None (spec_fields l)). eapply fw_cons; [done|lia|lia|done].
  - assert (Hw : 0 <= room x /\ exists self1, field_writes (encode C types (S fuel)) self f (room x) self1 (Some (small x, body x)) /\ ready t d fs self1).
    { destruct (is_array f) eqn:Ha.
      - assert (exists a, v = LTable a) as [a ->] by (unfold field_image in Hx; rewrite Ha in Hx; destruct v; try done; by eexists).
        by apply (array_field_writes n fuel f t d fs self a x).
      - pose proof Hready as (R1 & R2 & R3 & R4). destruct (scalar_writes n fuel f self v x) as [Hr Hw]; try done.
        + by rewrite R2.
        + by rewrite R1.
        + unfold field_image in Hx. rewrite Ha in Hx. by destruct (keyed _ _).
        + split; [done|]. exists self. split; [done|]. split_and!; try done. rewrite fmap_cons in R4. by apply not_elem_of_cons in R4 as [_ R4]. }
    destruct Hw as (Hr & self1 & Hw & Hr1). destruct (IH l' self1 HF Hnd' Hr1 Hl') as (R & self2 & Hws & HR). exists (room x + R), self2.
    split; [|cbn [rooms foldr snd]; unfold rooms in HR; lia].
    change (spec_fields ((f, x) :: l')) with (add_field f (Some (small x, body x)) (spec_fields l')). eapply fw_cons; [done|lia|lia|done].
Qed.

Lemma record_image_write n : forall fuel, (n <= fuel)%nat -> records_write n fuel.
Proof.
  induction n as [|n IH]; intros fuel Hf T t fs d HT Hfs Hd; [done|]. destruct fuel as [|fuel]; [lia|].
  pose proof (proj1 (Forall_forall _ _) Htypes _ HT) as W. cbn [record_image] in Hfs.
  apply (fields_image_write n fuel t d (IH fuel ltac:(lia))); [lia|apply (wt_fields _ _ W)|apply (wt_ptrs _ _ W)| |done].
  split_and!; try done. cbn. intros (f & Hp & Hin)%list_elem_of_fmap. pose proof (wt_fields _ _ W) as HF. rewrite Forall_forall in HF.
  destruct (HF f Hin) as ((nm & E) & _). unfold ptr_of in Hp. by rewrite E in Hp.
Qed.

(** [lencode] writes the message, in a buffer with room for it. *)
Lemma lencode_ok newuserdata uv st t fs : st ∈ types -> record_image C types 64 st t = Some fs ->
  len (Pack.uv_buffer uv) = Pack.uv_size uv -> 2 + 2 * t_maxn st + 8 * len (t_f st) + rooms fs <= Pack.uv_size uv -> Pack.uv_size uv < 2 ^ 31 ->
  exists buf, lencode C types newuserdata uv (Some st) (LTable t) = Ok ({| Pack.uv_buffer := buf; Pack.uv_size := Pack.uv_size uv |}, wire (spec_fields fs)) /\
    len (wire (spec_fields fs)) <= Pack.uv_size uv.
Proof.
  intros Hst Hfs Hbuf Hroom H31. unfold lencode. pose proof (proj1 (Forall_forall _ _) Htypes _ Hst) as W.
  destruct (record_image_write 64 encode_fuel ltac:(unfold encode_fuel; lia) st t fs 0 Hst Hfs ltac:(done)) as (R & self' & Hw & HR).
  cbn [lencode_loop]. cbv zeta.
  destruct (sproto_encode_ok _ _ st (Pack.uv_buffer uv) (Pack.uv_size uv) _ self' R (spec_fields fs) W Hw) as (rest & -> & Hl); [done|lia|lia|done|].
  rewrite bind_ret. pose proof (len_nonneg (wire (spec_fields fs))). destruct (Z.ltb_spec (len (wire (spec_fields fs))) 0); [lia|].
  pose proof (read_at [] (wire (spec_fields fs)) rest 0 (len (wire (spec_fields fs))) eq_refl eq_refl) as Hr. cbn [app] in Hr. rewrite Hr, bind_ret.
  exists (wire (spec_fields fs) ++ rest). split; [done|]. rewrite len_app in Hl. pose proof (len_nonneg rest). lia.
Qed.
End Encoding.
