(* ===== verification/LsprotoDecode.v ===== *)
(** * Messages read back into Lua tables

    [decode] rebuilds the table of a message, and so what [lencode] wrote is what
    [ldecode] gives. *)

From S2P Require Import Prelude SprotoPack SprotoSchema SprotoSchemaProofs SprotoCodec SprotoCodecProofs SprotoArrays SprotoFields SprotoDecode Lsproto LsprotoEncode.
From Stdlib Require Import ZArith Lia String.
From stdpp Require Import base numbers list.
#[local] Open Scope Z_scope.
#[local] Open Scope list_scope.
Import Schema Codec Lsproto.

(** ** Tables *)

Definition rows (fs : list (field * sval)) : table := (fun p => (LStr (key_of p.1), tbl p.2)) <$> fs.

Lemma rows_snoc fs f x : rows (fs ++ [(f, x)]) = rows fs ++ [(LStr (key_of f), tbl x)].
Proof. unfold rows. by rewrite fmap_app. Qed.

Lemma tbl_not_nil x : tbl x <> LNil.
Proof. by destruct x. Qed.

Lemma key_eqb_str a b : key_eqb (LStr a) (LStr b) = bool_decide (a = b).
Proof. done. Qed.

(** A key that is not among those of the rows before it. *)
Lemma get_past fs k v : k ∉ key_of <$> fs.*1 -> gettable (rows fs ++ v) (LStr k) = gettable v (LStr k).
Proof.
  induction fs as [|[f x] fs IH]; intros Hk; [done|]. rewrite !fmap_cons in Hk. apply not_elem_of_cons in Hk as [Hk1 Hk2].
  change (rows ((f, x) :: fs)) with ((LStr (key_of f), tbl x) :: rows fs). cbn [app gettable]. rewrite key_eqb_str, bool_decide_eq_false_2 by done. by apply IH.
Qed.

Lemma set_past fs k t v : k ∉ key_of <$> fs.*1 -> settable (rows fs ++ t) (LStr k) v = rows fs ++ settable t (LStr k) v.
Proof.
  induction fs as [|[f x] fs IH]; intros Hk; [done|]. rewrite !fmap_cons in Hk. apply not_elem_of_cons in Hk as [Hk1 Hk2].
  change (rows ((f, x) :: fs)) with ((LStr (key_of f), tbl x) :: rows fs). cbn [app settable]. rewrite key_eqb_str, bool_decide_eq_false_2 by done. by rewrite IH.
Qed.

Lemma set_new fs k v : k ∉ key_of <$> fs.*1 -> v <> LNil -> settable (rows fs) (LStr k) v = rows fs ++ [(LStr k, v)].
Proof. intros Hk Hv. rewrite <- (app_nil_r (rows fs)) at 1. rewrite set_past by done. cbn [settable]. by destruct v. Qed.

Lemma get_row fs k v : k ∉ key_of <$> fs.*1 -> gettable (rows fs ++ [(LStr k, v)]) (LStr k) = v.
Proof. intros Hk. rewrite get_past by done. cbn [gettable]. by rewrite key_eqb_str, bool_decide_eq_true_2. Qed.

Lemma set_row fs k v w : k ∉ key_of <$> fs.*1 -> w <> LNil -> settable (rows fs ++ [(LStr k, v)]) (LStr k) w = rows fs ++ [(LStr k, w)].
Proof. intros Hk Hw. rewrite set_past by done. cbn [settable]. rewrite key_eqb_str, bool_decide_eq_true_2 by done. by destruct w. Qed.

Lemma get_known fs k v : k ∈ key_of <$> fs.*1 -> gettable (rows fs ++ v) (LStr k) = gettable (rows fs) (LStr k).
Proof.
  induction fs as [|[f x] fs IH]; intros Hk; [by apply not_elem_of_nil in Hk|]. rewrite !fmap_cons in Hk.
  change (rows ((f, x) :: fs)) with ((LStr (key_of f), tbl x) :: rows fs). cbn [app gettable]. rewrite key_eqb_str.
  case_bool_decide as E; [done|]. apply IH. apply elem_of_cons in Hk as [Hk|Hk]; [done|done].
Qed.

(** The value of the main index [mk] among the fields read so far. *)
Definition key_value (mk : Z) (fs : list (field * sval)) : lval :=
  match key_field mk fs with Some f => gettable (rows fs) (LStr (key_of f)) | None => LNil end.

Lemma key_field_snoc mk fs f x : f_tag f ∉ f_tag <$> fs.*1 ->
  key_field mk (fs ++ [(f, x)]) = if (mk =? f_tag f) && negb (is_array f) then Some f else key_field mk fs.
Proof.
  intros Hf. unfold key_field. destruct (list_find _ fs) as [[i p]|] eqn:E.
  - rewrite (list_find_app_l _ _ _ i p) by done. apply list_find_Some in E as (Hi & [Hp _] & _).
    destruct (Z.eqb_spec mk (f_tag f)) as [Hm|]; [|done]. exfalso. apply Hf. rewrite <- Hm, <- Hp. apply list_elem_of_fmap. exists p.1. split; [done|].
    apply list_elem_of_fmap. exists p. split; [done|]. by eapply list_elem_of_lookup_2.
  - rewrite list_find_app_r by done. cbn [list_find fst]. destruct (decide _) as [[Hm Ha]|Hn]; cbn [fmap option_fmap option_map].
    + cbn [fst] in *. by rewrite Hm, Z.eqb_refl, Ha.
    + cbn [fst] in *. destruct (Z.eqb_spec mk (f_tag f)) as [->|]; [|done]. destruct (is_array f) eqn:Ha; [done|]. exfalso. by apply Hn.
Qed.

Lemma key_field_in mk fs f : key_field mk fs = Some f -> f ∈ fs.*1.
Proof.
  unfold key_field. destruct (list_find _ fs) as [[i p]|] eqn:E; [|done]. intros [= <-]. apply list_find_Some in E as (Hi & _).
  apply list_elem_of_fmap. exists p. split; [done|]. by eapply list_elem_of_lookup_2.
Qed.

Lemma key_value_snoc mk fs f x : f_tag f ∉ f_tag <$> fs.*1 -> key_of f ∉ key_of <$> fs.*1 ->
  key_value mk (fs ++ [(f, x)]) = if (mk =? f_tag f) && negb (is_array f) then tbl x else key_value mk fs.
Proof.
  intros Hf Hk. unfold key_value. rewrite key_field_snoc, rows_snoc by done. destruct (_ && _); [by apply get_row|].
  destruct (key_field mk fs) as [g|] eqn:E; [|done]. apply get_known. apply list_elem_of_fmap. exists g. split; [done|]. by eapply key_field_in.
Qed.

Lemma key_value_found mk fs : key_field mk fs <> None -> key_value mk fs <> LNil.
Proof.
  unfold key_value. destruct (key_field mk fs) as [f|] eqn:E; [|done]. intros _. apply key_field_in in E.
  assert (Hk : key_of f ∈ key_of <$> fs.*1) by (apply list_elem_of_fmap; by exists f). revert Hk. clear. induction fs as [|[g x] fs IH]; intros Hk; [by apply not_elem_of_nil in Hk|].
  change (rows ((g, x) :: fs)) with ((LStr (key_of g), tbl x) :: rows fs). cbn [gettable]. rewrite key_eqb_str. case_bool_decide as E; [apply tbl_not_nil|].
  apply IH. rewrite !fmap_cons in Hk. apply elem_of_cons in Hk as [Hk|Hk]; done.
Qed.

(** ** The callback of the decoder *)

(** What the callback is given for a value. *)
Definition payload (x : sval) (tail : list Z) : list Z * Z :=
  match x with
  | SNum z => (to_le 8 z, 8)
  | SBit b => (to_le 8 (Z.b2z b), 8)
  | _ => (body x ++ tail, len (body x))
  end.

Section Decoding.
Context (C : coercions) (types : list sproto_type).

(** The switch of [decode]. *)
Definition read_value (fuel : nat) (self : decode_ud) (args : arg) : outcome (lval + decode_ud * Z) :=
  if a_type args =? SPROTO_TINTEGER then v ← load args; Ok (inl (LInt (i64 v)))
  else if a_type args =? SPROTO_TBOOLEAN then v ← load args; Ok (inl (LBool (negb (i32 v =? 0))))
  else if a_type args =? SPROTO_TSTRING then
    match a_value args with
    | None => Fault NullPointer
    | Some v => s ← mem_read v 0 (a_length args); Ok (inl (LStr s))
    end
  else if a_type args =? SPROTO_TSTRUCT then
    st ← get_type types (a_subtype args);
    let sub := {| d_array_tag := None; d_array := None; d_result := []; d_deep := d_deep self + 1;
                  d_mainindex_tag := if 0 <=? a_mainindex args then a_mainindex args else -1; d_key := LNil |} in
    m ← match a_value args with Some m => Ok m | None => Fault NullPointer end;
    '(sub, r) ← sproto_decode (decode types fuel) st m (a_length args) sub;
    if r <? 0 then Ok (inr (self, SPROTO_CB_ERROR))
    else if negb (r =? a_length args) then Ok (inr (self, r))
    else if 0 <=? a_mainindex args then
      match d_key sub with
      | LNil => Fault (LuaError "Can't find main index")
      | key => self ← set_in_array self key (LTable (d_result sub)); Ok (inr (self, 0))
      end
    else Ok (inl (LTable (d_result sub)))
  else Fault (LuaError "Invalid type").

(** The record read at [self] holds [done]; arrays of the fields in [rest] are
    not open. *)
Definition holding (d mk : Z) (done : list (field * sval)) (rest : list field) (self : decode_ud) : Prop :=
  d_result self = rows done /\ d_deep self = d /\ d_mainindex_tag self = mk /\ d_key self = key_value mk done /\ d_array_tag self ∉ ptr_of <$> rest.

Definition spec_pairs (fs : list (field * sval)) : list (field * (option Z * list Z)) := (fun p => (p.1, (small p.2, body p.2))) <$> fs.

Definition records_read (n fuel : nat) : Prop := forall T t fs d mk, T ∈ types -> record_image C types n T t = Some fs ->
  d + Z.of_nat n <= ENCODE_DEEPLEVEL -> len (wire (spec_fields fs)) < 2 ^ 31 ->
  exists self', fields_read (decode types fuel) {| d_array_tag := None; d_array := None; d_result := []; d_deep := d; d_mainindex_tag := mk; d_key := LNil |}
    (spec_pairs fs) self' /\ d_result self' = rows fs /\ d_key self' = key_value mk fs.

Hypothesis Htypes : Forall (wf_type (len types)) types.

Lemma small_range x : match small x with Some v => 0 <= v < 0x7fff | None => True end.
Proof.
  destruct x as [z|b| | |]; cbn [small]; try done; [|destruct b; cbn; lia]. unfold small_int.
  destruct (Z.leb_spec 0 z), (Z.ltb_spec z 0x7fff); cbn [andb]; done || lia.
Qed.

Lemma image_sublist rec t fs l : fields_image C types rec t fs = Some l -> l.*1 `sublist_of` fs.
Proof.
  revert l. induction fs as [|f fs IH]; intros l H; [injection H as <-; constructor|].
  destruct (fields_image_cons _ _ _ _ _ _ _ H) as [[_ H']|(v & x & l' & _ & _ & _ & H' & ->)]; [apply sublist_cons|apply sublist_skip]; by apply IH.
Qed.

Lemma asc_weaken l : forall a b, a <= b -> ascending b l -> ascending a l.
Proof. destruct l as [|x l]; intros a b Hab; [done|]. intros [H1 H2]. split; [lia|done]. Qed.

Lemma asc_sublist l k : l `sublist_of` k -> forall a, ascending a k -> ascending a l.
Proof.
  induction 1 as [|x l k _ IH|x l k _ IH]; intros a; [done|intros [H1 H2]; split; [done|by apply IH]|]. intros [H1 H2]. apply IH. eapply asc_weaken; [|done]. lia.
Qed.

Lemma spec_tagged fs : tagged (spec_pairs fs) = spec_fields fs.
Proof. unfold tagged, spec_pairs, spec_fields. rewrite <- list_fmap_compose. done. Qed.

Lemma spec_firsts fs : (spec_pairs fs).*1 = fs.*1.
Proof. unfold spec_pairs. rewrite <- list_fmap_compose. done. Qed.

Lemma record_reads n T t fs : T ∈ types -> record_image C types n T t = Some fs ->
  fs.*1 `sublist_of` t_f T /\ fields_of T (spec_pairs fs) /\ ascending (-1) (f_tag <$> (spec_pairs fs).*1).
Proof.
  intros HT Hfs. destruct n as [|n]; [done|]. cbn [record_image] in Hfs. pose proof (image_sublist _ _ _ _ Hfs) as Hs.
  pose proof (proj1 (Forall_forall _ _) Htypes _ HT) as W. split_and!; [done| |].
  - unfold fields_of, spec_pairs. rewrite Forall_fmap. apply Forall_forall. intros p Hp. cbn. split; [|apply small_range].
    eapply sublist_subseteq; [done|]. apply list_elem_of_fmap. by exists p.
  - rewrite spec_firsts. eapply asc_sublist; [|apply (wt_asc _ _ W)]. by apply fmap_sublist.
Qed.

Lemma record_decodes n fuel T t fs d mk tail : records_read n fuel -> T ∈ types -> record_image C types n T t = Some fs ->
  d + Z.of_nat n <= ENCODE_DEEPLEVEL -> len (wire (spec_fields fs)) < 2 ^ 31 ->
  exists self', sproto_decode (decode types fuel) T (wire (spec_fields fs) ++ tail) (len (wire (spec_fields fs)))
      {| d_array_tag := None; d_array := None; d_result := []; d_deep := d; d_mainindex_tag := mk; d_key := LNil |} = Ok (self', len (wire (spec_fields fs))) /\
    d_result self' = rows fs /\ d_key self' = key_value mk fs.
Proof.
  intros Hrec HT Hfs Hd H31. destruct (Hrec T t fs d mk HT Hfs Hd H31) as (self' & Hfr & Hres & Hkey).
  destruct (record_reads n T t fs HT Hfs) as (_ & Hof & Ha). pose proof (proj1 (Forall_forall _ _) Htypes _ HT) as W.
  exists self'. split_and!; [|done|done]. rewrite <- spec_tagged in H31 |- *. by apply (sproto_decode_ok _ (len types)).
Qed.

Lemma i64_id z : - 2 ^ 63 <= z < 2 ^ 63 -> i64 (z mod 2 ^ 64) = z.
Proof. intros. unfold i64. rewrite Zplus_mod_idemp_l, Z.mod_small by lia. lia. Qed.

Lemma read_value_ok n fuel self args v x tail i : records_read n fuel -> d_deep self + 1 + Z.of_nat n <= ENCODE_DEEPLEVEL ->
  a_type args = SPROTO_TINTEGER \/ a_type args = SPROTO_TBOOLEAN \/ object_type (a_type args) -> (forall i, a_subtype args = Some i -> 0 <= i) ->
  value_image C types (record_image C types n) (a_type args) (a_subtype args) v = Some x -> len (body x) < 2 ^ 31 ->
  (keyed (a_type args) (a_mainindex args) = true -> has_key (a_mainindex args) x = true) ->
  read_value fuel self (with_value args (Some (payload x tail).1) (payload x tail).2 i) =
    if keyed (a_type args) (a_mainindex args) then s ← set_in_array self (main_key (a_mainindex args) x (tbl x)) (tbl x); Ok (inr (s, 0))
    else Ok (inl (tbl x)).
Proof.
  intros Hrec Hd Ht Hsub Hx H31 Hkey. unfold read_value, load. cbn [with_value a_type a_value a_length a_subtype a_mainindex]. unfold keyed in *.
  destruct Ht as [Ht|[Ht|[Ht|Ht]]]; rewrite Ht in *.
  - destruct (image_int _ _ _ _ _ _ Hx) as (z & -> & _ & Hz). cbn [payload fst]. rewrite Z.eqb_refl. cbn [andb Z.eqb SPROTO_TINTEGER SPROTO_TSTRUCT].
    rewrite (read_tail [] (to_le 8 z)), !bind_ret by (done || by rewrite len_le). rewrite of_le_le. change (256 ^ Z.of_nat 8) with (2 ^ 64). by rewrite i64_id.
  - destruct (image_bool _ _ _ _ _ _ Hx) as (b & _ & ->). cbn [payload fst]. change (SPROTO_TBOOLEAN =? SPROTO_TINTEGER) with false. change (SPROTO_TBOOLEAN =? SPROTO_TSTRUCT) with false.
    rewrite Z.eqb_refl. cbn [andb]. rewrite (read_tail [] (to_le 8 (Z.b2z b))), !bind_ret by (done || by rewrite len_le). rewrite of_le_le. by destruct b.
  - destruct (image_record _ _ _ _ _ _ Hx) as (t & j & T & fs & -> & Hj & HT & Hfs & ->). rewrite Hj.
    change (SPROTO_TSTRUCT =? SPROTO_TINTEGER) with false. change (SPROTO_TSTRUCT =? SPROTO_TBOOLEAN) with false. change (SPROTO_TSTRUCT =? SPROTO_TSTRING) with false.
    rewrite Z.eqb_refl in *. cbn [andb] in *. cbv iota. cbn [get_type]. rewrite (arr_get_ok types j T), !bind_ret by (done || by apply Hsub).
    change (payload (SRec T fs) tail) with (wire (spec_fields fs) ++ tail, len (wire (spec_fields fs))) in *. cbn [fst snd].
    change (body (SRec T fs)) with (wire (spec_fields fs)) in H31.
    assert (Hin : T ∈ types) by (by eapply list_elem_of_lookup_2).
    destruct (record_decodes n fuel T t fs (d_deep self + 1) (if 0 <=? a_mainindex args then a_mainindex args else -1) tail Hrec Hin Hfs) as (sub & -> & Hres & Hk); [lia|done|].
    rewrite bind_ret, Hres, Hk. pose proof (len_nonneg (wire (spec_fields fs))). destruct (Z.ltb_spec (len (wire (spec_fields fs))) 0); [lia|].
    rewrite Z.eqb_refl. cbn [negb]. change (tbl (SRec T fs)) with (LTable (rows fs)). destruct (0 <=? a_mainindex args); [|done].
    specialize (Hkey eq_refl). cbn [has_key] in Hkey. change (main_key (a_mainindex args) (SRec T fs) (LTable (rows fs))) with (key_value (a_mainindex args) fs).
    assert (Hnn : key_value (a_mainindex args) fs <> LNil) by (apply key_value_found; by destruct (key_field _ fs)).
    by destruct (key_value (a_mainindex args) fs).
  - destruct (image_string _ _ _ _ _ _ Hx) as (s & -> & _). change (SPROTO_TSTRING =? SPROTO_TINTEGER) with false. change (SPROTO_TSTRING =? SPROTO_TBOOLEAN) with false.
    change (SPROTO_TSTRING =? SPROTO_TSTRUCT) with false. rewrite Z.eqb_refl. cbn [andb payload body fst snd].
    pose proof (read_at [] s tail 0 (len s) eq_refl eq_refl) as Hr. cbn [app] in Hr. rewrite Hr, bind_ret. done.
Qed.

(** ** A value stored *)

Definition open_array (self : decode_ud) (f : field) : decode_ud :=
  {| d_array_tag := ptr_of f; d_array := Some (LStr (key_of f)); d_result := settable (d_result self) (LStr (key_of f)) (LTable []);
     d_deep := d_deep self; d_mainindex_tag := d_mainindex_tag self; d_key := d_key self |}.

Definition put_field (self : decode_ud) (f : field) (v : lval) : decode_ud :=
  {| d_array_tag := d_array_tag self; d_array := d_array self; d_result := settable (d_result self) (LStr (key_of f)) v;
     d_deep := d_deep self; d_mainindex_tag := d_mainindex_tag self; d_key := if d_mainindex_tag self =? f_tag f then v else d_key self |}.

Lemma decode_scalar fuel self f ty v n : f_name f <> None -> d_deep self < ENCODE_DEEPLEVEL -> forall w,
  read_value fuel self (with_value (at_field f ty) v n 0) = Ok (inl w) ->
  decode types (S fuel) self (with_value (at_field f ty) v n 0) = Ok (put_field self f w, 0).
Proof.
  intros Hn Hd w Hr. cbn [decode]. destruct (Z.leb_spec ENCODE_DEEPLEVEL (d_deep self)); [lia|].
  change (a_tagname (with_value (at_field f ty) v n 0)) with (f_name f). rewrite name_key_of, bind_ret by done.
  change (a_index (with_value (at_field f ty) v n 0)) with 0. cbn [Z.eqb negb andb]. cbv zeta.
  unfold read_value in Hr. rewrite Hr, bind_ret. done.
Qed.

Lemma decode_open fuel self f ty v n i : f_name f <> None -> 0 < i -> d_array_tag self <> ptr_of f -> d_deep self < ENCODE_DEEPLEVEL ->
  decode types (S fuel) self (with_value (at_field f ty) v n i) = decode types (S fuel) (open_array self f) (with_value (at_field f ty) v n i).
Proof.
  intros Hn Hi Ht Hd. cbn [decode]. destruct (Z.leb_spec ENCODE_DEEPLEVEL (d_deep self)); [lia|].
  change (d_deep (open_array self f)) with (d_deep self). destruct (Z.leb_spec ENCODE_DEEPLEVEL (d_deep self)); [lia|].
  change (a_tagname (with_value (at_field f ty) v n i)) with (f_name f). rewrite name_key_of, !bind_ret by done.
  change (a_index (with_value (at_field f ty) v n i)) with i. unfold ptr_of in Ht. rewrite (bool_decide_eq_false_2 (name_ptr (f_name f) = d_array_tag self)) by congruence.
  change (d_array_tag (open_array self f)) with (name_ptr (f_name f)). rewrite bool_decide_eq_true_2 by done.
  destruct (Z.eqb_spec i 0); [lia|]. destruct (Z.ltb_spec i 0); [lia|]. reflexivity.
Qed.

Lemma decode_empty fuel self f ty : f_name f <> None -> d_array_tag self <> ptr_of f -> d_deep self < ENCODE_DEEPLEVEL ->
  decode types (S fuel) self (with_value (at_field f ty) None 0 (-1)) = Ok (open_array self f, 0).
Proof.
  intros Hn Ht Hd. cbn [decode]. destruct (Z.leb_spec ENCODE_DEEPLEVEL (d_deep self)); [lia|].
  change (a_tagname (with_value (at_field f ty) None 0 (-1))) with (f_name f). rewrite name_key_of, !bind_ret by done.
  unfold ptr_of in Ht. rewrite (bool_decide_eq_false_2 (name_ptr (f_name f) = d_array_tag self)) by congruence. reflexivity.
Qed.

Lemma decode_element fuel self f ty v n i : f_name f <> None -> 0 < i -> d_array_tag self = ptr_of f -> d_deep self < ENCODE_DEEPLEVEL ->
  decode types (S fuel) self (with_value (at_field f ty) v n i) =
    (r ← read_value fuel self (with_value (at_field f ty) v n i);
     match r with inr (self, r) => Ok (self, r) | inl v => self ← set_in_array self (LInt i) v; Ok (self, 0) end).
Proof.
  intros Hn Hi Ht Hd. cbn [decode]. destruct (Z.leb_spec ENCODE_DEEPLEVEL (d_deep self)); [lia|].
  change (a_tagname (with_value (at_field f ty) v n i)) with (f_name f). rewrite name_key_of, !bind_ret by done.
  change (a_index (with_value (at_field f ty) v n i)) with i. rewrite Ht. unfold ptr_of. rewrite bool_decide_eq_true_2 by done.
  destruct (Z.eqb_spec i 0); [lia|]. destruct (Z.ltb_spec 0 i); [|lia]. cbn [negb andb]. cbv zeta. reflexivity.
Qed.

(** ** Arrays read *)

(** The array of [f] is open and holds [a]. *)
Definition opened (d mk : Z) (done : list (field * sval)) (f : field) (a : table) (self : decode_ud) : Prop :=
  d_result self = rows done ++ [(LStr (key_of f), LTable a)] /\ d_deep self = d /\ d_mainindex_tag self = mk /\ d_key self = key_value mk done /\
  d_array_tag self = ptr_of f /\ d_array self = Some (LStr (key_of f)).

Lemma opened_set d mk done f a self k v : key_of f ∉ key_of <$> done.*1 -> opened d mk done f a self ->
  exists self', set_in_array self k v = Ok self' /\ opened d mk done f (settable a k v) self'.
Proof.
  intros Hk (H1 & H2 & H3 & H4 & H5 & H6). unfold set_in_array. rewrite H6, H1, get_row by done. eexists. split; [done|].
  rewrite set_row by done. by split_and!.
Qed.

Definition element_ok (n : nat) (f : field) (x : sval) : Prop :=
  (exists v, value_image C types (record_image C types n) (base_type f) (f_st f) v = Some x) /\ (keyed (base_type f) (f_key f) = true -> has_key (f_key f) x = true).

Section Elements.
Context (n fuel : nat) (d mk : Z) (done : list (field * sval)) (f : field).
Hypothesis Hrec : records_read n fuel.
Hypothesis Hd : d + 1 + Z.of_nat n <= ENCODE_DEEPLEVEL.
Hypothesis Hf : field_ok (len types) f.
Hypothesis Hkey : key_of f ∉ key_of <$> done.*1.

Lemma element_step a self x i : opened d mk done f a self -> element_ok n f x -> len (body x) < 2 ^ 31 -> 0 < i ->
  exists self', (forall tail, decode types (S fuel) self (with_value (at_field f (base_type f)) (Some (payload x tail).1) (payload x tail).2 i) = Ok (self', 0)) /\
    opened d mk done f (settable a (slot (base_type f) (f_key f) i x (tbl x)) (tbl x)) self'.
Proof.
  intros Ho [[v Hv] Hx] H31 Hi. pose proof Ho as (_ & H2 & _ & _ & H5 & _). destruct (value_cases types f Hf) as (Hn & Hsub & Hc).
  destruct (opened_set d mk done f a self (slot (base_type f) (f_key f) i x (tbl x)) (tbl x) Hkey Ho) as (self' & Hset & Ho').
  exists self'. split; [|done]. intros tail. rewrite decode_element by (done || lia).
  rewrite (read_value_ok n fuel self (at_field f (base_type f)) v x tail i Hrec) by (cbn [at_field a_type a_subtype a_mainindex]; done || lia).
  cbn [at_field a_type a_mainindex]. unfold slot in Hset. destruct (keyed (base_type f) (f_key f)); rewrite ?Hset, ?bind_ret; cbn; by rewrite ?Hset.
Qed.

Lemma values_received vs xs : Forall2 (fun v x => forall tail, payload x tail = (to_le 8 v, 8)) vs xs -> Forall (element_ok n f) xs ->
  Forall (fun x => len (body x) < 2 ^ 31) xs -> forall a self i, opened d mk done f a self -> 0 < i ->
  exists self', receives (decode types (S fuel)) (at_field f (base_type f)) self i vs self' /\
    opened d mk done f (assign a (slots (base_type f) (f_key f) tbl i xs)) self'.
Proof.
  induction 1 as [|v x vs xs Hp _ IH]; intros Hok Hl a self i Ho Hi; [exists self; split; [constructor|done]|].
  apply Forall_cons in Hok as [Hx Hok]. apply Forall_cons in Hl as [Hlx Hl].
  destruct (element_step a self x i Ho Hx Hlx Hi) as (self1 & E & Ho1). specialize (E []). rewrite Hp in E. cbn [fst snd] in E.
  destruct (IH Hok Hl _ self1 (i + 1) Ho1 ltac:(lia)) as (self2 & Hr & Ho2). exists self2. split; [by eapply re_next|done].
Qed.

Lemma objects_received xs : object_type (base_type f) -> Forall (element_ok n f) xs -> Forall (fun x => len (body x) < 2 ^ 31) xs ->
  forall a self i, opened d mk done f a self -> 0 < i ->
  exists self', receives_objs (decode types (S fuel)) (at_field f (base_type f)) self i (body <$> xs) self' /\
    opened d mk done f (assign a (slots (base_type f) (f_key f) tbl i xs)) self'.
Proof.
  intros Ht. induction xs as [|x xs IH]; intros Hok Hl a self i Ho Hi; [exists self; split; [constructor|done]|].
  apply Forall_cons in Hok as [Hx Hok]. apply Forall_cons in Hl as [Hlx Hl].
  assert (Hp : forall tail, payload x tail = (body x ++ tail, len (body x))).
  { destruct Hx as [[v Hv] _]. intros tail. destruct Ht as [Ht|Ht]; rewrite Ht in Hv;
      [destruct (image_record _ _ _ _ _ _ Hv) as (?&?&?&?&_&_&_&_&->)|destruct (image_string _ _ _ _ _ _ Hv) as (?&->&_)]; done. }
  destruct (element_step a self x i Ho Hx Hlx Hi) as (self1 & E & Ho1).
  destruct (IH Hok Hl _ self1 (i + 1) Ho1 ltac:(lia)) as (self2 & Hr & Ho2). exists self2. split; [|done]. rewrite fmap_cons. apply (ro_next _ _ self i (body x) _ self1); [|done].
  intros _ tail. specialize (E tail). by rewrite Hp in E.
Qed.
End Elements.

(** ** Lengths of the parts *)

Lemma len_part {A} (b : list A) l : b ∈ l -> len b <= len (concat l).
Proof.
  induction l as [|c l IH]; intros Hb; [by apply not_elem_of_nil in Hb|]. cbn [concat]. rewrite len_app. pose proof (len_nonneg c). pose proof (len_nonneg (concat l)).
  apply elem_of_cons in Hb as [->|Hb]; [lia|]. specialize (IH Hb). lia.
Qed.

Lemma small_body x : small x <> None -> len (body x) < 2 ^ 31.
Proof.
  destruct x as [z|b| | |]; try done; intros _; cbn [body]. unfold int_bytes. rewrite len_le. destruct (fits32 z); lia.
Qed.

Lemma field_body fs f x : (f, x) ∈ fs -> len (wire (spec_fields fs)) < 2 ^ 31 -> len (body x) < 2 ^ 31.
Proof.
  intros Hin H31. destruct (small x) as [v|] eqn:Es; [apply small_body; by rewrite Es|].
  assert (Hp : data_of (f_tag f, (small x, body x)) ∈ data_of <$> spec_fields fs).
  { apply list_elem_of_fmap. eexists. split; [done|]. apply list_elem_of_fmap. by exists (f, x). }
  apply len_part in Hp. unfold data_of in Hp. cbn [fst snd] in Hp. rewrite Es, len_app, len_le in Hp. unfold wire in H31. rewrite !len_app, len_le in H31.
  pose proof (len_nonneg (recs (records (-1) (spec_fields fs)))). unfold datas in H31. unfold data_of in H31. lia.
Qed.

Lemma element_body n f xs : field_ok (len types) f -> Forall (element_ok n f) xs -> len (body (SArr (base_type f) (f_key f) xs)) < 2 ^ 31 ->
  Forall (fun x => len (body x) < 2 ^ 31) xs.
Proof.
  intros Hf Hok H31. destruct (value_cases types f Hf) as (_ & _ & Hc). rewrite Forall_forall in Hok. apply Forall_forall. intros x Hx. destruct (Hok x Hx) as [[v Hv] _].
  destruct Hc as [Hc|[Hc|Hc]].
  - rewrite Hc in Hv. destruct (image_int _ _ _ _ _ _ Hv) as (z & -> & _). cbn [body]. unfold int_bytes. rewrite len_le. destruct (fits32 z); lia.
  - rewrite Hc in Hv. destruct (image_bool _ _ _ _ _ _ Hv) as (b & _ & ->). done.
  - assert (Hty : (base_type f =? SPROTO_TINTEGER) = false /\ (base_type f =? SPROTO_TBOOLEAN) = false) by (destruct Hc as [-> | ->]; done). destruct Hty as [E1 E2].
    cbn [body] in H31. rewrite E1, E2 in H31. unfold obj_body in H31.
    assert (Hp : to_le 4 (len (body x)) ++ body x ∈ (fun b => to_le 4 (len b) ++ b) <$> (body <$> xs)).
    { apply list_elem_of_fmap. exists (body x). split; [done|]. apply list_elem_of_fmap. by exists x. }
    apply len_part in Hp. rewrite len_app, len_le in Hp. lia.
Qed.

(** ** Fields read *)

Section Fields.
Context (n fuel : nat) (d mk : Z) (done : list (field * sval)) (f : field) (rest : list field).
Hypothesis Hrec : records_read n fuel.
Hypothesis Hd : d + 1 + Z.of_nat n <= ENCODE_DEEPLEVEL.
Hypothesis Hf : field_ok (len types) f.
Hypothesis Hkey : key_of f ∉ key_of <$> done.*1.
Hypothesis Htag : f_tag f ∉ f_tag <$> done.*1.
Hypothesis Hptr : NoDup (ptr_of <$> f :: rest).

Lemma scalar_field_reads self v x : holding d mk done (f :: rest) self -> is_array f = false -> keyed (base_type f) (f_key f) = false ->
  value_image C types (record_image C types n) (base_type f) (f_st f) v = Some x -> len (body x) < 2 ^ 31 ->
  field_reads (decode types (S fuel)) self f (small x, body x) (put_field self f (tbl x)) /\ holding d mk (done ++ [(f, x)]) rest (put_field self f (tbl x)).
Proof.
  intros (H1 & H2 & H3 & H4 & H5) Ha Hk Hx H31. destruct (value_cases types f Hf) as (Hn & Hsub & Hc). destruct (type_cases _ _ Hf) as [[?|[_ Ht]] _]; [congruence|].
  assert (E : forall tail, decode types (S fuel) self (with_value (at_field f (base_type f)) (Some (payload x tail).1) (payload x tail).2 0) = Ok (put_field self f (tbl x), 0)).
  { intros tail. apply decode_scalar; [done|lia|]. rewrite (read_value_ok n fuel self (at_field f (base_type f)) v x tail 0 Hrec) by (cbn [at_field a_type a_subtype a_mainindex]; done || lia || by rewrite Hk).
    cbn [at_field a_type a_mainindex]. by rewrite Hk. }
  split.
  - destruct Hc as [Hc|[Hc|Hc]].
    + rewrite Hc in Hx. destruct (image_int _ _ _ _ _ _ Hx) as (z & -> & _). eapply int_reads; [done|congruence|apply (E [])].
    + rewrite Hc in Hx. destruct (image_bool _ _ _ _ _ _ Hx) as (b & _ & ->). eapply word_reads; [destruct b; cbn; lia|right; congruence|apply (E [])].
    + assert (Hs : small x = None /\ forall tail, payload x tail = (body x ++ tail, len (body x))).
      { destruct Hc as [Hc|Hc]; rewrite Hc in Hx; [destruct (image_record _ _ _ _ _ _ Hx) as (?&?&?&?&_&_&_&_&->)|destruct (image_string _ _ _ _ _ _ Hx) as (?&->&_)]; done. }
      destruct Hs as [-> Hp]. apply object_reads; [done|by rewrite Ht|]. intros _ tail. specialize (E tail). by rewrite Hp in E.
  - unfold holding. cbn [put_field d_result d_deep d_mainindex_tag d_key d_array_tag].
    rewrite rows_snoc, H1, set_new, key_value_snoc, Ha, H3, H4 by (done || apply tbl_not_nil). split_and!; try done.
    + cbn [negb]. by rewrite andb_true_r.
    + rewrite fmap_cons in H5. by apply not_elem_of_cons in H5 as [_ H5].
Qed.

Lemma open_ok self : holding d mk done (f :: rest) self -> d_array_tag self <> ptr_of f /\ opened d mk done f [] (open_array self f).
Proof.
  intros (H1 & H2 & H3 & H4 & H5). rewrite fmap_cons in H5. apply not_elem_of_cons in H5 as [H5 _]. split; [done|].
  unfold opened. cbn [open_array d_result d_deep d_mainindex_tag d_key d_array_tag d_array]. rewrite H1, set_new by done. by split_and!.
Qed.

Lemma opened_holding xs self : is_array f = true -> opened d mk done f (assign [] (slots (base_type f) (f_key f) tbl 1 xs)) self ->
  holding d mk (done ++ [(f, SArr (base_type f) (f_key f) xs)]) rest self.
Proof.
  intros Ha (H1 & H2 & H3 & H4 & H5 & H6). unfold holding. rewrite rows_snoc, key_value_snoc, Ha by done. cbn [negb]. rewrite andb_false_r. split_and!; try done.
  rewrite H5. rewrite fmap_cons in Hptr. by apply NoDup_cons in Hptr as [? _].
Qed.

Lemma array_reads_back self xs : holding d mk done (f :: rest) self -> is_array f = true -> Forall (element_ok n f) xs ->
  len (body (SArr (base_type f) (f_key f) xs)) < 2 ^ 31 ->
  exists self', field_reads (decode types (S fuel)) self f (None, body (SArr (base_type f) (f_key f) xs)) self' /\
    holding d mk (done ++ [(f, SArr (base_type f) (f_key f) xs)]) rest self'.
Proof.
  intros Hh Ha Hok H31. destruct (open_ok self Hh) as [Hfresh Ho]. pose proof Hh as (_ & H2 & _). pose proof (element_body n f xs Hf Hok H31) as Hl.
  destruct (value_cases types f Hf) as (Hn & _ & Hc). destruct xs as [|x xs].
  { exists (open_array self f). split; [|by apply opened_holding]. apply array_field_reads; [done|].
    replace (body (SArr (base_type f) (f_key f) [])) with (@nil Z) by (cbn [body]; destruct (base_type f =? SPROTO_TINTEGER); [done|]; by destruct (base_type f =? SPROTO_TBOOLEAN)).
    eapply empty_reads. by apply decode_empty; [|done|lia]. }
  assert (Hsame : forall w k, decode types (S fuel) self (with_value (at_field f (base_type f)) w k 1) = decode types (S fuel) (open_array self f) (with_value (at_field f (base_type f)) w k 1))
    by (intros; apply decode_open; done || lia).
  assert (Hre : forall vs self', receives (decode types (S fuel)) (at_field f (base_type f)) (open_array self f) 1 vs self' -> vs <> [] ->
    receives (decode types (S fuel)) (at_field f (base_type f)) self 1 vs self').
  { intros vs self' H Hv. inversion H; subst; [done|]. eapply re_next; [|done]. by rewrite Hsame. }
  assert (Hvals : forall vs, Forall2 (fun v x => forall tail, payload x tail = (to_le 8 v, 8)) vs (x :: xs) ->
    exists self', receives (decode types (S fuel)) (at_field f (base_type f)) self 1 vs self' /\ holding d mk (done ++ [(f, SArr (base_type f) (f_key f) (x :: xs))]) rest self').
  { intros vs HF2. destruct (values_received n fuel d mk done f Hrec Hd Hf Hkey vs (x :: xs) HF2 Hok Hl [] _ 1 Ho ltac:(done)) as (self' & Hr & Ho').
    exists self'. split; [|by apply opened_holding]. apply Hre; [done|]. by inversion HF2. }
  destruct Hc as [Hc|[Hc|Hc]].
  - destruct (Hvals (num <$> x :: xs)) as (self' & Hr & Hh').
    { clear -Hok Hc. induction (x :: xs) as [|y ys IH]; [constructor|]. apply Forall_cons in Hok as [[[v Hv] _] Hok]. rewrite Hc in Hv.
      destruct (image_int _ _ _ _ _ _ Hv) as (z & -> & _). constructor; [done|by apply IH]. }
    exists self'. split; [|done]. apply array_field_reads; [done|]. cbn [body]. rewrite Hc in *. rewrite Z.eqb_refl. by apply ints_read.
  - destruct (Hvals (Z.b2z <$> (bit <$> x :: xs))) as (self' & Hr & Hh').
    { clear -Hok Hc. induction (x :: xs) as [|y ys IH]; [constructor|]. apply Forall_cons in Hok as [[[v Hv] _] Hok]. rewrite Hc in Hv.
      destruct (image_bool _ _ _ _ _ _ Hv) as (b & _ & ->). constructor; [done|by apply IH]. }
    exists self'. split; [|done]. apply array_field_reads; [done|]. cbn [body]. rewrite Hc in *. change (SPROTO_TBOOLEAN =? SPROTO_TINTEGER) with false. rewrite Z.eqb_refl.
    replace ((fun x => Z.b2z (bit x)) <$> x :: xs) with (Z.b2z <$> (bit <$> x :: xs)) by (by rewrite <- list_fmap_compose). by apply bools_read.
  - destruct (objects_received n fuel d mk done f Hrec Hd Hf Hkey (x :: xs) Hc Hok Hl [] _ 1 Ho ltac:(done)) as (self' & Hr & Ho').
    exists self'. split; [|by apply opened_holding]. apply array_field_reads; [done|].
    assert (Hty : (base_type f =? SPROTO_TINTEGER) = false /\ (base_type f =? SPROTO_TBOOLEAN) = false) by (destruct Hc as [-> | ->]; done). destruct Hty as [E1 E2].
    cbn [body]. rewrite E1, E2. rewrite fmap_cons in *. apply objs_read; [by destruct Hc as [-> | ->]; auto|]. inversion Hr; subst. eapply ro_next; [|done].
    intros Hb tail. rewrite Hsame. match goal with H : takes _ _ _ _ (body x) _ |- _ => by apply H end.
Qed.
End Fields.

Hypothesis Hnames : Forall (fun T => NoDup (key_of <$> t_f T)) types.

Lemma holding_weaken d mk done f rest self : holding d mk done (f :: rest) self -> holding d mk done rest self.
Proof. intros (H1 & H2 & H3 & H4 & H5). split_and!; try done. rewrite fmap_cons in H5. by apply not_elem_of_cons in H5 as [_ H5]. Qed.

Lemma snoc_firsts (done : list (field * sval)) f x fs : (done ++ [(f, x)]).*1 ++ fs = done.*1 ++ f :: fs.
Proof. rewrite (fmap_app fst), <- app_assoc. done. Qed.

Lemma fields_image_read n fuel t d mk : records_read n fuel -> d + 1 + Z.of_nat n <= ENCODE_DEEPLEVEL -> forall fs l done self,
  Forall (field_ok (len types)) fs -> NoDup (ptr_of <$> fs) -> NoDup (key_of <$> done.*1 ++ fs) -> NoDup (f_tag <$> done.*1 ++ fs) ->
  holding d mk done fs self -> fields_image C types (record_image C types n) t fs = Some l -> (forall f x, (f, x) ∈ l -> len (body x) < 2 ^ 31) ->
  exists self', fields_read (decode types (S fuel)) self (spec_pairs l) self' /\ holding d mk (done ++ l) [] self'.
Proof.
  intros Hrec Hd. induction fs as [|f fs IH]; intros l done self HF Hp Hk Ht Hh Hl H31.
  { injection Hl as <-. exists self. rewrite app_nil_r. split; [constructor|done]. }
  apply Forall_cons in HF as [Hf HF]. pose proof Hp as Hp'. rewrite fmap_cons in Hp'. apply NoDup_cons in Hp' as [_ Hp'].
  assert (Hnot : forall (g : field -> list Z) , NoDup (g <$> done.*1 ++ f :: fs) -> g f ∉ g <$> done.*1) by (intros g Hg; rewrite fmap_app in Hg; apply NoDup_app in Hg as (_ & Hg & _); intros Hin; apply (Hg _ Hin); rewrite fmap_cons; by apply elem_of_cons; left).
  assert (Hnot' : forall (g : field -> Z) , NoDup (g <$> done.*1 ++ f :: fs) -> g f ∉ g <$> done.*1) by (intros g Hg; rewrite fmap_app in Hg; apply NoDup_app in Hg as (_ & Hg & _); intros Hin; apply (Hg _ Hin); rewrite fmap_cons; by apply elem_of_cons; left).
  destruct (fields_image_cons _ _ _ _ _ _ _ Hl) as [[Hv Hl']|(v & x & l' & Hv & Hnil & Hx & Hl' & ->)].
  - apply (IH l done self); try done.
    + eapply sublist_NoDup; [exact Hk|]. apply fmap_sublist, sublist_app; [done|by apply sublist_cons].
    + eapply sublist_NoDup; [exact Ht|]. apply fmap_sublist, sublist_app; [done|by apply sublist_cons].
    + by eapply holding_weaken.
  - assert (Hb : len (body x) < 2 ^ 31) by (apply (H31 f); by apply elem_of_cons; left).
    assert (Hr : exists self1, field_reads (decode types (S fuel)) self f (small x, body x) self1 /\ holding d mk (done ++ [(f, x)]) fs self1).
    { unfold field_image in Hx. destruct (is_array f) eqn:Ha.
      - destruct v as [| | | |a|]; try done. destruct (elements_of f a) as [els|]; [|done]. cbn [mbind option_bind] in Hx.
        destruct (mapM _ els) as [xs|] eqn:Hm; [|done]. cbn [mbind option_bind] in Hx. destruct (keyed (base_type f) (f_key f) && negb (forallb (has_key (f_key f)) xs)) eqn:Hg; [done|].
        injection Hx as <-. apply mapM_Some in Hm. apply (array_reads_back n fuel d mk done f fs Hrec Hd Hf (Hnot _ Hk) (Hnot' _ Ht) Hp self xs Hh Ha); [|done].
        apply Forall_forall. intros x Hin. apply list_elem_of_lookup in Hin as [j Hj]. destruct (Forall2_lookup_r _ _ _ _ _ Hm Hj) as (v & _ & Hv'). split; [by exists v|].
        intros E. rewrite E in Hg. cbn [andb] in Hg. apply negb_false_iff in Hg. rewrite forallb_forall in Hg. apply Hg. apply list_elem_of_In. by eapply list_elem_of_lookup_2.
      - destruct (keyed (base_type f) (f_key f)) eqn:E; [done|]. eexists. by apply (scalar_field_reads n fuel d mk done f fs Hrec Hd Hf (Hnot _ Hk) (Hnot' _ Ht) self v x). }
    destruct Hr as (self1 & Hr & Hh1).
    destruct (IH l' (done ++ [(f, x)]) self1) as (self2 & Hrs & Hh2); try done.
    + by rewrite snoc_firsts.
    + by rewrite snoc_firsts.
    + intros g y Hin. apply (H31 g). by apply elem_of_cons; right.
    + exists self2. rewrite <- app_assoc in Hh2. split; [|done]. change (spec_pairs ((f, x) :: l')) with ((f, (small x, body x)) :: spec_pairs l'). by eapply fr_cons.
Qed.

Lemma asc_NoDup l : forall a, ascending a l -> NoDup l /\ forall x, x ∈ l -> a < x.
Proof.
  induction l as [|x l IH]; intros a; [split; [apply NoDup_nil_2|intros x Hx; by apply not_elem_of_nil in Hx]|]. intros [H1 H2]. destruct (IH x H2) as [Hn Hx]. split.
  - apply NoDup_cons. split; [|done]. intros Hin. specialize (Hx x Hin). lia.
  - intros y [->|Hy]%elem_of_cons; [done|]. specialize (Hx y Hy). lia.
Qed.

Lemma record_image_read n : forall fuel, (n <= fuel)%nat -> records_read n fuel.
Proof.
  induction n as [|n IH]; intros fuel Hfu T t fs d mk HT Hfs Hd H31; [done|]. destruct fuel as [|fuel]; [lia|].
  pose proof (proj1 (Forall_forall _ _) Htypes _ HT) as W. pose proof (proj1 (Forall_forall _ _) Hnames _ HT) as Hk. cbn [record_image] in Hfs.
  destruct (fields_image_read n fuel t d mk (IH fuel ltac:(lia)) ltac:(lia) (t_f T) fs []
    {| d_array_tag := None; d_array := None; d_result := []; d_deep := d; d_mainindex_tag := mk; d_key := LNil |}) as (self' & Hr & Hh); try done.
  - apply (wt_fields _ _ W).
  - apply (wt_ptrs _ _ W).
  - cbn. by destruct (asc_NoDup _ _ (wt_asc _ _ W)).
  - split_and!; try done. cbn. intros (f & Hp & Hin)%list_elem_of_fmap. destruct (proj1 (Forall_forall _ _) (wt_fields _ _ W) f Hin) as ((nm & E) & _).
    unfold ptr_of in Hp. by rewrite E in Hp.
  - intros f x Hin. by apply (field_body fs f).
  - exists self'. destruct Hh as (H1 & _ & _ & H4 & _). done.
Qed.

(** [ldecode] rebuilds the table of the message. *)
Lemma ldecode_ok st t fs : st ∈ types -> record_image C types 64 st t = Some fs -> len (wire (spec_fields fs)) < 2 ^ 31 ->
  ldecode types (Some st) (Pack.LString (wire (spec_fields fs))) None = Ok (rows fs, len (wire (spec_fields fs))).
Proof.
  intros Hst Hfs H31. unfold ldecode. cbn [Pack.getbuffer default]. pose proof (len_nonneg (wire (spec_fields fs))). fold (len (wire (spec_fields fs))). rewrite i32_small by lia.
  destruct (record_decodes 64 encode_fuel st t fs 0 (-1) [0] (record_image_read 64 encode_fuel ltac:(unfold encode_fuel; lia)) Hst Hfs ltac:(done) H31) as (self' & E & Hres & _).
  cbn [from_option id]. rewrite E, bind_ret. destruct (Z.ltb_spec (len (wire (spec_fields fs))) 0); [lia|]. by rewrite Hres.
Qed.
End Decoding.

(** ** The round trip *)

(** The fields of a type have different names. *)
Definition distinct_names (T : sproto_type) : Prop := NoDup (key_of <$> t_f T).

(** Enough room for a message: the records, eight bytes per field and the data. *)
Definition message_room (st : sproto_type) (fs : list (field * sval)) : Z := 2 + 2 * t_maxn st + 8 * len (t_f st) + rooms fs.

(** C35. What [lencode] makes of a table [ldecode] turns into the table of the
    message: all fields of the type that the table has, nested records, arrays
    and maps included, up to 64 levels. *)
Theorem sproto_roundtrip C types newuserdata uv st t fs : Forall (wf_type (len types)) types -> Forall distinct_names types -> st ∈ types ->
  record_image C types 64 st t = Some fs -> len (Pack.uv_buffer uv) = Pack.uv_size uv -> message_room st fs <= Pack.uv_size uv -> Pack.uv_size uv < 2 ^ 31 ->
  exists uv' s, lencode C types newuserdata uv (Some st) (LTable t) = Ok (uv', s) /\ s = wire (spec_fields fs) /\
    ldecode types (Some st) (Pack.LString s) None = Ok (rows fs, len s).
Proof.
  intros Ht Hn Hst Hfs Hb Hroom H31. destruct (lencode_ok C types Ht newuserdata uv st t fs Hst Hfs Hb Hroom H31) as (buf & E & Hl).
  eexists _, _. split_and!; [exact E|done|]. apply (ldecode_ok C types Ht Hn st t fs Hst Hfs). lia.
Qed.

(** ** An address book

    [Book] (owner, person: a map of [Person] by id) and [Person] (name, id, nums,
    flags, best). *)
Definition book_schema : list Z :=
  [1; 0; 0; 0; 210; 0; 0; 0; 69; 0; 0; 0; 2; 0; 0; 0; 0; 0; 4; 0; 0; 0; 66; 111; 111; 107; 51; 0; 0; 0; 19; 0;
   0; 0; 4; 0; 0; 0; 6; 0; 1; 0; 2; 0; 5; 0; 0; 0; 111; 119; 110; 101; 114; 24; 0; 0; 0; 6; 0; 0; 0; 1; 0; 4; 0;
   6; 0; 4; 0; 4; 0; 6; 0; 0; 0; 112; 101; 114; 115; 111; 110; 133; 0; 0; 0; 2; 0; 0; 0; 0; 0; 6; 0; 0; 0; 80;
   101; 114; 115; 111; 110; 113; 0; 0; 0; 18; 0; 0; 0; 4; 0; 0; 0; 6; 0; 1; 0; 2; 0; 4; 0; 0; 0; 110; 97; 109;
   101; 16; 0; 0; 0; 4; 0; 0; 0; 2; 0; 1; 0; 4; 0; 2; 0; 0; 0; 105; 100; 20; 0; 0; 0; 5; 0; 0; 0; 2; 0; 1; 0; 8;
   0; 4; 0; 4; 0; 0; 0; 110; 117; 109; 115; 21; 0; 0; 0; 5; 0; 0; 0; 4; 0; 1; 0; 10; 0; 4; 0; 5; 0; 0; 0; 102;
   108; 97; 103; 115; 18; 0; 0; 0; 4; 0; 0; 0; 1; 0; 4; 0; 12; 0; 4; 0; 0; 0; 98; 101; 115; 116].

Definition book_types : list sproto_type :=
  match sproto_create (fun _ => true) book_schema (len book_schema) with Ok (Some s) => sp_type s | _ => [] end.
Definition book_type : sproto_type := default {| t_name := None; t_n := 0; t_base := 0; t_maxn := 0; t_f := [] |} (head book_types).

(** Integers and strings as they are. *)
Definition plain : coercions :=
  {| tointegerx := fun v => match v with LInt z => Some z | _ => None end; tolstring := fun v => match v with LStr s => Some s | _ => None end |}.

Definition book : table :=
  [(LStr [111; 119; 110; 101; 114], LStr [109; 101]);
   (LStr [112; 101; 114; 115; 111; 110], LTable
     [(LInt 10000, LTable [(LStr [110; 97; 109; 101], LStr [65]); (LStr [105; 100], LInt 10000);
        (LStr [110; 117; 109; 115], LTable [(LInt 1, LInt (-1)); (LInt 2, LInt 1099511627776)]);
        (LStr [98; 101; 115; 116], LTable [(LStr [110; 97; 109; 101], LStr [67])])]);
      (LInt (-2), LTable [(LStr [110; 97; 109; 101], LStr []); (LStr [105; 100], LInt (-2));
        (LStr [102; 108; 97; 103; 115], LTable [(LInt 1, LBool true); (LInt 2, LBool false)])])])].

Definition book_fields : list (field * sval) := default [] (record_image plain book_types 64 book_type book).

(** This book has its fields in the order of their tags and comes back as it is. *)
Lemma book_comes_back : rows book_fields = book.
Proof. vm_compute. reflexivity. Qed.

Lemma sproto_roundtrip_witness : exists uv' s,
  lencode plain book_types (fun n => replicate (Z.to_nat n) 0) {| Pack.uv_buffer := replicate 2050 0; Pack.uv_size := 2050 |} (Some book_type) (LTable book) = Ok (uv', s) /\
  s = wire (spec_fields book_fields) /\ ldecode book_types (Some book_type) (Pack.LString s) None = Ok (rows book_fields, len s).
Proof.
  assert (HB : byte_list book_schema) by (apply byte_list_check; vm_compute; reflexivity).
  assert (W : Forall (wf_type (len book_types)) book_types).
  { unfold book_types. destruct (sproto_create (fun _ => true) book_schema (len book_schema)) as [[s|]|] eqn:E; [|constructor..].
    destruct (create_wf _ _ _ _ HB E) as [W _]. exact W. }
  apply sproto_roundtrip; [exact W| | | |by vm_compute|by vm_compute|done].
  - unfold distinct_names. apply (bool_decide_eq_true_1 _). by vm_compute.
  - apply (list_elem_of_lookup_2 _ 0). by vm_compute.
  - by vm_compute.
Defined.

(** ** An array that does not fit *)

Definition person_type : sproto_type := default book_type (book_types !! 1%nat).

(** 300 small integers and one of 41 bits. *)
Definition crowd : table :=
  [(LStr [110; 117; 109; 115], LTable (((fun i => (LInt (Z.of_nat i), LInt 1)) <$> seq 1 300) ++ [(LInt 301, LInt 1099511627776)]))].

(** An array of integers that no longer fits once its elements are widened is
    written past the end of the buffer: [size] is negative by then and
    [size < sizeof(uint64_t)] compares it as unsigned, so [NULL], on which
    [lencode] would take a larger buffer, is not returned. *)
Example int_array_overflows newuserdata :
  lencode plain book_types newuserdata {| Pack.uv_buffer := replicate 2050 0; Pack.uv_size := Pack.ENCODE_BUFFERSIZE |} (Some person_type) (LTable crowd)
    = Fault OutOfBounds.
Proof. vm_compute. reflexivity. Qed.

(** A length of [2^32 - 4] passes [size < sz + SIZEOF_LENGTH], which wraps to 0,
    and reaches [lua_pushlstring] as a negative number. *)
Lemma decode_length_wraps :
  ldecode book_types (Some book_type) (Pack.LString [1; 0; 0; 0; 252; 255; 255; 255]) None = Fault OutOfBounds.
Proof. vm_compute. reflexivity. Qed.
