(* ===== verification/Cluster.v ===== *)
(** * Packets between clusters ([lualib-src/lua-cluster.c])

    Requests and responses as strings.  A message of 32K or more is cut into parts,
    each a string of its own.  Arguments and results that go through the Lua stack
    are arguments and results here; a message is the bytes of its block, which the
    functions that take it over free on every way out.  The node that gets the packets
    is [command.socket] of [service/clusterd.lua], translated up to the call of the
    service the request is for. *)

From S2P Require Import Prelude Netpack WsNetpack.
From stdpp Require Import base numbers list gmap.
From Stdlib Require Import ZArith Lia String.
#[local] Open Scope Z_scope.
#[local] Open Scope list_scope.

Module Cluster.
Import Netpack.

Definition TEMP_LENGTH : Z := 0x8200.
Definition MULTI_PART : Z := 0x8000.

(** The packet under construction: an array on the stack. *)
Definition buf_t : Type := list (option Z).
Definition fresh_buf : buf_t := malloc_bytes TEMP_LENGTH.

(** [memcpy(buf + off, bytes, n)] *)
Definition fill (buf : buf_t) (off : Z) (bytes : list Z) : outcome buf_t := mem_write buf off (Some <$> bytes).

Definition fill_uint32 (buf : buf_t) (off n : Z) : outcome buf_t :=
  fill buf off [Z.land n 0xff; Z.land (Z.shiftr n 8) 0xff; Z.land (Z.shiftr n 16) 0xff; Z.land (Z.shiftr n 24) 0xff].

Definition fill_header (buf : buf_t) (sz : Z) : outcome buf_t :=
  _ ← c_assert (sz <? 0x10000);
  fill buf 0 [Z.land (Z.shiftr sz 8) 0xff; Z.land sz 0xff].

(** [lua_pushlstring(L, buf, n)] *)
Definition lua_pushlstring (buf : buf_t) (n : Z) : outcome (list Z) :=
  b ← mem_read buf 0 n; mapM init_read b.

(** ** Requests *)

(** The address of a request. *)
Inductive address := ANumber (n : Z) | AString (name : list Z) | AOther.

Definition parts (sz : Z) : Z := i32 ((sz - 1) / MULTI_PART + 1).

(** The string and the number of parts that follow. *)
Definition packreq_number (addr session : Z) (msg : list Z) (sz : Z) (is_push : bool) : outcome (list Z * Z) :=
  let addr := u32 addr in
  let buf := fresh_buf in
  if sz <? MULTI_PART then
    buf ← fill_header buf (sz + 9);
    buf ← fill buf 2 [0];
    buf ← fill_uint32 buf 3 addr;
    buf ← fill_uint32 buf 7 (if is_push then 0 else u32 session);
    m ← mem_read msg 0 sz;
    buf ← fill buf 11 m;
    r ← lua_pushlstring buf (sz + 11);
    Ok (r, 0)
  else
    buf ← fill_header buf 13;
    buf ← fill buf 2 [if is_push then 0x41 else 1];
    buf ← fill_uint32 buf 3 addr;
    buf ← fill_uint32 buf 7 (u32 session);
    buf ← fill_uint32 buf 11 sz;
    r ← lua_pushlstring buf 15;
    Ok (r, parts sz).

Definition packreq_string (addr : address) (session : Z) (msg : list Z) (sz : Z) (is_push : bool) : outcome (list Z * Z) :=
  name ← match addr with AString name => Ok name | _ => Fault (LuaError "name is too long") end;
  let namelen := Z.of_nat (List.length name) in
  if (namelen <? 1) || (255 <? namelen) then Fault (LuaError "name is too long")
  else
    let buf := fresh_buf in
    if sz <? MULTI_PART then
      buf ← fill_header buf (sz + 6 + namelen);
      buf ← fill buf 2 [0x80];
      buf ← fill buf 3 [u8 namelen];
      buf ← fill buf 4 name;
      buf ← fill_uint32 buf (4 + namelen) (if is_push then 0 else u32 session);
      m ← mem_read msg 0 sz;
      buf ← fill buf (8 + namelen) m;
      r ← lua_pushlstring buf (sz + 8 + namelen);
      Ok (r, 0)
    else
      buf ← fill_header buf (10 + namelen);
      buf ← fill buf 2 [if is_push then 0xc1 else 0x81];
      buf ← fill buf 3 [u8 namelen];
      buf ← fill buf 4 name;
      buf ← fill_uint32 buf (4 + namelen) (u32 session);
      buf ← fill_uint32 buf (8 + namelen) sz;
      r ← lua_pushlstring buf (12 + namelen);
      Ok (r, parts sz).

(** The state of the loop: the buffer, the bytes that are left with their number, and
    the strings so far. *)
Definition packreq_multi (session : Z) (msg : list Z) (sz : Z) : outcome (list (list Z)) :=
  '(_, _, _, out) ← for_loop (Z.to_nat (parts sz)) 0
    (fun _ '(buf, ptr, sz, out) =>
       let '(s, t) := if MULTI_PART <? sz then (MULTI_PART, 2) else (sz, 3) in
       buf ← fill buf 2 [t];
       buf ← fill_header buf (s + 5);
       buf ← fill_uint32 buf 3 (u32 session);
       m ← mem_read ptr 0 s;
       buf ← fill buf 7 m;
       r ← lua_pushlstring buf (s + 7);
       Ok (buf, drop (Z.to_nat s) ptr, u32 (sz - s), out ++ [r]))
    (fresh_buf, msg, sz, []);
  Ok out.

(** The string, the next session, and the parts if there are any. *)
Definition packrequest (addr : address) (session : Z) (msg : option (list Z)) (sz : Z) (is_push : bool)
    : outcome (list Z * Z * option (list (list Z))) :=
  match msg with
  | None => Fault (LuaError "Invalid request message")
  | Some msg =>
      let sz := u32 sz in
      let session := i32 session in
      if session <=? 0 then Fault (LuaError "Invalid request session")
      else
        '(r, multipak) ← match addr with
                         | ANumber n => packreq_number n session msg sz is_push
                         | _ => packreq_string addr session msg sz is_push
                         end;
        let current_session := session in
        session ← c_int (session + 1);
        let session := if session <? 0 then 1 else session in
        if negb (multipak =? 0) then
          ps ← packreq_multi current_session msg sz;
          Ok (r, session, Some ps)
        else Ok (r, session, None)
  end.

Definition lpackrequest (addr : address) (session : Z) (msg : option (list Z)) (sz : Z) := packrequest addr session msg sz false.
Definition lpackpush (addr : address) (session : Z) (msg : option (list Z)) (sz : Z) := packrequest addr session msg sz true.

(** ** Reading requests *)

Inductive result := RInteger (n : Z) | RString (bytes : list Z) | RBoolean (b : bool) | RNil.

Definition unpack_uint32 (buf : list Z) (off : Z) : outcome Z :=
  b ← mem_read buf off 4;
  match b with
  | [b0; b1; b2; b3] => Ok (u32 (Z.lor (Z.lor (Z.lor b0 (Z.shiftl b1 8)) (Z.shiftl b2 16)) (Z.shiftl b3 24)))
  | _ => Fault OutOfBounds
  end.

Definition unpackreq_number (buf : list Z) (sz : Z) : outcome (list result) :=
  if sz <? 9 then Fault (LuaError "Invalid cluster message")
  else
    address ← unpack_uint32 buf 1;
    session ← unpack_uint32 buf 5;
    msg ← mem_read buf 9 (sz - 9);
    let r := [RInteger address; RInteger session; RString msg] in
    Ok (if session =? 0 then r ++ [RNil; RBoolean true] else r).

Definition unpackmreq_number (buf : list Z) (sz : Z) (is_push : bool) : outcome (list result) :=
  if negb (sz =? 13) then Fault (LuaError "Invalid cluster message size")
  else
    address ← unpack_uint32 buf 1;
    session ← unpack_uint32 buf 5;
    size ← unpack_uint32 buf 9;
    Ok [RInteger address; RInteger session; RInteger size; RBoolean true; RBoolean is_push].

Definition unpackmreq_part (buf : list Z) (sz : Z) : outcome (list result) :=
  if sz <? 5 then Fault (LuaError "Invalid cluster multi part message")
  else
    t ← arr_get buf 0;
    session ← unpack_uint32 buf 1;
    msg ← mem_read buf 5 (sz - 5);
    Ok [RBoolean false; RInteger session; RString msg; RBoolean (t =? 2)].

Definition unpackreq_string (buf : list Z) (sz : Z) : outcome (list result) :=
  if sz <? 2 then Fault (LuaError "Invalid cluster message")
  else
    namesz ← arr_get buf 1;
    if sz <? namesz + 6 then Fault (LuaError "Invalid cluster message")
    else
      name ← mem_read buf 2 namesz;
      session ← unpack_uint32 buf (namesz + 2);
      msg ← mem_read buf (2 + namesz + 4) (sz - namesz - 6);
      let r := [RString name; RInteger session; RString msg] in
      Ok (if session =? 0 then r ++ [RNil; RBoolean true] else r).

Definition unpackmreq_string (buf : list Z) (sz : Z) (is_push : bool) : outcome (list result) :=
  if sz <? 2 then Fault (LuaError "Invalid cluster message")
  else
    namesz ← arr_get buf 1;
    if sz <? namesz + 10 then Fault (LuaError "Invalid cluster message")
    else
      name ← mem_read buf 2 namesz;
      session ← unpack_uint32 buf (namesz + 2);
      size ← unpack_uint32 buf (namesz + 6);
      Ok [RString name; RInteger session; RInteger size; RBoolean true; RBoolean is_push].

(** A string has a zero behind its last byte. *)
Definition lunpackrequest (msg : list Z) : outcome (list result) :=
  let sz := i32 (Z.of_nat (List.length msg)) in
  let t := default 0 (List.head msg) in
  if t =? 0 then unpackreq_number msg sz
  else if t =? 1 then unpackmreq_number msg sz false
  else if t =? 0x41 then unpackmreq_number msg sz true
  else if (t =? 2) || (t =? 3) then unpackmreq_part msg sz
  else if t =? 0x80 then unpackreq_string msg sz
  else if t =? 0x81 then unpackmreq_string msg sz false
  else if t =? 0xc1 then unpackmreq_string msg sz true
  else Fault (LuaError "Invalid req package type").

(** ** Responses *)

(** One string, or a table of them. *)
Inductive response := One (packet : list Z) | Many (packets : list (list Z)).

Definition response_parts (session : Z) (buf : buf_t) (msg : list Z) (sz : Z) (out : list (list Z)) : outcome (list (list Z)) :=
  '(_, _, _, out) ← for_loop (Z.to_nat (parts sz)) 0
    (fun _ '(buf, ptr, sz, out) =>
       let '(s, t) := if MULTI_PART <? sz then (MULTI_PART, 3) else (sz, 4) in
       buf ← fill buf 6 [t];
       buf ← fill_header buf (s + 5);
       buf ← fill_uint32 buf 2 session;
       m ← mem_read ptr 0 s;
       buf ← fill buf 7 m;
       r ← lua_pushlstring buf (s + 7);
       Ok (buf, drop (Z.to_nat s) ptr, sz - s, out ++ [r]))
    (buf, msg, sz, out);
  Ok out.

Definition lpackresponse (session : Z) (ok : bool) (msg : list Z) (sz : Z) : outcome response :=
  let session := u32 session in
  let single (sz : Z) :=
    buf ← fill_header fresh_buf (sz + 5);
    buf ← fill_uint32 buf 2 session;
    buf ← fill buf 6 [if ok then 1 else 0];
    m ← mem_read msg 0 sz;
    buf ← fill buf 7 m;
    r ← lua_pushlstring buf (sz + 7);
    Ok (One r) in
  if negb ok then single (if MULTI_PART <? sz then MULTI_PART else sz)
  else if MULTI_PART <? sz then
    buf ← fill_header fresh_buf 9;
    buf ← fill_uint32 buf 2 session;
    buf ← fill buf 6 [2];
    buf ← fill_uint32 buf 7 (u32 sz);
    r ← lua_pushlstring buf 11;
    out ← response_parts session buf msg sz [r];
    Ok (Many out)
  else single sz.

Definition lunpackresponse (buf : list Z) : outcome (list result) :=
  let sz := Z.of_nat (List.length buf) in
  if sz <? 5 then Ok []
  else
    session ← unpack_uint32 buf 0;
    t ← arr_get buf 4;
    if t =? 0 then msg ← mem_read buf 5 (sz - 5); Ok [RInteger session; RBoolean false; RString msg]
    else if (t =? 1) || (t =? 4) then msg ← mem_read buf 5 (sz - 5); Ok [RInteger session; RBoolean true; RString msg]
    else if t =? 2 then
      if negb (sz =? 9) then Ok []
      else size ← unpack_uint32 buf 5; Ok [RInteger session; RBoolean true; RInteger size; RBoolean true]
    else if t =? 3 then msg ← mem_read buf 5 (sz - 5); Ok [RInteger session; RBoolean true; RString msg; RBoolean true]
    else Ok [].

(** ** Parts to a message *)

(** The strings at the front of a table. *)
Fixpoint concat_loop (buff : list (option Z)) (sz offset : Z) (entries : list result) : outcome (option (list (option Z) * Z)) :=
  match entries with
  | RString str :: entries =>
      let s := Z.of_nat (List.length str) in
      if u64 sz <? s + offset then Ok None
      else
        buff ← copy_bytes buff offset str s;
        concat_loop buff sz (i32 (offset + s)) entries
  | _ => if negb (offset =? sz) then Ok None else Ok (Some (buff, sz))
  end.

(** The table from its index 1 on; the result is the block and its size. *)
Definition lconcat (table : list result) : outcome (option (list (option Z) * Z)) :=
  match table with
  | RInteger n :: entries =>
      let sz := i32 n in
      buff ← WsNetpack.ws_malloc sz;
      concat_loop buff sz 0 entries
  | _ => Ok None
  end.

(** ** The node that gets the packets ([service/clusterd.lua]) *)

(** An entry of [large_request]: a table with the fields [addr] and [is_push] and the
    messages from the index 1 on. *)
Record large := Large { l_addr : result; l_is_push : result; l_parts : list result }.

(** What [command.socket] does with a packet: it waits for more, has the request, or
    answers that it could not be put together. *)
Inductive arrival :=
  | Waiting
  | Request (addr : result) (session : Z) (is_push : bool) (msg : list Z)
  | InvalidLarge (session : Z).

Definition truthy (r : result) : bool := match r with RNil | RBoolean false => false | _ => true end.

(** The [i]th result of a call, [nil] if there are fewer. *)
Definition result_at (i : nat) (r : list result) : result := List.nth i r RNil.

(** [unpackrequest] returns an integer as the session and, without padding, a string as
    the message, whatever the packet. *)
Definition socket_data (packet : list Z) (large_request : gmap Z large) : outcome (arrival * gmap Z large) :=
  r ← lunpackrequest packet;
  let addr := result_at 0 r in
  let session := match result_at 1 r with RInteger s => s | _ => 0 end in
  let msg := result_at 2 r in
  let padding := result_at 3 r in
  let is_push := result_at 4 r in
  if truthy padding then
    let req := default (Large addr is_push []) (large_request !! session) in
    Ok (Waiting, <[session := Large (l_addr req) (l_is_push req) (l_parts req ++ [msg])]> large_request)
  else
    match large_request !! session with
    | Some req =>
        let large_request := delete session large_request in
        c ← lconcat (l_parts req ++ [msg]);
        match c with
        | Some (block, sz) =>
            m ← lua_pushlstring block sz;
            Ok (Request (l_addr req) session (truthy (l_is_push req)) m, large_request)
        | None => Ok (InvalidLarge session, large_request)
        end
    | None =>
        match msg with
        | RString m => Ok (Request addr session (truthy is_push) m, large_request)
        | _ => Ok (InvalidLarge session, large_request)
        end
    end.

(** Packets one after the other. *)
Fixpoint socket_all (packets : list (list Z)) (large_request : gmap Z large) : outcome (list arrival * gmap Z large) :=
  match packets with
  | [] => Ok ([], large_request)
  | p :: ps =>
      '(a, large_request) ← socket_data p large_request;
      '(rest, large_request) ← socket_all ps large_request;
      Ok (a :: rest, large_request)
  end.

End Cluster.
