(* ===== verification/ClusterProofs.v ===== *)
(** * Correctness of the packets between clusters *)

From S2P Require Import Prelude Netpack PackStream WsNetpack Cluster.
From stdpp Require Import base numbers list gmap.
From Stdlib Require Import ZArith Lia.
From Stdlib Require String.
Import String.StringSyntax.
#[local] Open Scope Z_scope.
#[local] Open Scope list_scope.
Import Cluster.

(** ** Buffers *)

Lemma fresh_length : Z.of_nat (List.length fresh_buf) = TEMP_LENGTH.
Proof. unfold fresh_buf, Netpack.malloc_bytes. rewrite length_replicate. unfold TEMP_LENGTH. lia. Qed.

(** Bytes behind those that are there. *)
Lemma fill_next (a : list Z) (j : buf_t) off x : off = Z.of_nat (List.length a) -> Z.of_nat (List.length a + List.length j) = TEMP_LENGTH ->
  Z.of_nat (List.length a + List.length x) <= TEMP_LENGTH ->
  exists j', fill ((Some <$> a) ++ j) off x = Ok ((Some <$> (a ++ x)) ++ j') /\ Z.of_nat (List.length (a ++ x) + List.length j') = TEMP_LENGTH.
Proof.
  intros -> Hj Hx. exists (drop (List.length x) j). split; [|rewrite length_app, length_drop; lia]. unfold fill.
  rewrite <- (take_drop (List.length x) j) at 1. rewrite <- (length_fmap Some a), mem_write_ok by (rewrite length_take, length_fmap; lia).
  by rewrite fmap_app, <- app_assoc.
Qed.

Lemma pushed_prefix (a : list Z) (j : buf_t) n : n = Z.of_nat (List.length a) -> lua_pushlstring ((Some <$> a) ++ j) n = Ok a.
Proof.
  intros ->. unfold lua_pushlstring. pose proof (mem_read_ok [] (Some <$> a) j) as E. cbn [app List.length] in E. rewrite length_fmap in E. change (Z.of_nat 0) with 0 in E.
  rewrite E, bind_ret. apply mapM_init.
Qed.

Lemma read_first (msg : list Z) n : 0 <= n <= Z.of_nat (List.length msg) -> mem_read msg 0 n = Ok (take (Z.to_nat n) msg).
Proof.
  intros Hn. pose proof (mem_read_ok [] (take (Z.to_nat n) msg) (drop (Z.to_nat n) msg)) as E. cbn [app List.length] in E.
  rewrite take_drop, length_take_le, Z2Nat.id in E by lia. exact E.
Qed.

(** Two bytes, the larger first. *)
Definition be16 (n : Z) : list Z := [n / 256; n mod 256].

Lemma header_bytes n : 0 <= n < 0x10000 -> [Z.land (Z.shiftr n 8) 0xff; Z.land n 0xff] = be16 n.
Proof.
  intros Hn. change 0xff with (2^8 - 1). rewrite !land_mask, Z.shiftr_div_pow2 by lia. unfold be16. f_equal. apply Z.mod_small.
  split; [apply Z.div_pos; lia|apply Z.div_lt_upper_bound; lia].
Qed.

Lemma fill_header_eq buf n : 0 <= n < 0x10000 -> fill_header buf n = fill buf 0 (be16 n).
Proof. intros Hn. unfold fill_header. destruct (Z.ltb_spec n 0x10000); [|lia]. cbn [c_assert]. rewrite bind_ret. by rewrite header_bytes. Qed.

Lemma word_le_bytes n : [Z.land n 0xff; Z.land (Z.shiftr n 8) 0xff; Z.land (Z.shiftr n 16) 0xff; Z.land (Z.shiftr n 24) 0xff] = to_le 4 n.
Proof.
  change 0xff with (2^8 - 1). rewrite !land_mask, !Z.shiftr_div_pow2 by lia. cbn [to_le]. rewrite !Z.div_div by lia. done.
Qed.

Lemma fill_uint32_eq buf off n : fill_uint32 buf off n = fill buf off (to_le 4 n).
Proof. unfold fill_uint32. by rewrite word_le_bytes. Qed.

Lemma lor_reverse a b c d : Z.lor (Z.lor (Z.lor a b) c) d = Z.lor (Z.lor (Z.lor d c) b) a.
Proof. by rewrite (Z.lor_comm a b), (Z.lor_comm (Z.lor b a) c), (Z.lor_comm (Z.lor c (Z.lor b a)) d), !Z.lor_assoc. Qed.

Lemma le_word n : 0 <= n < 2^32 -> exists b0 b1 b2 b3, to_le 4 n = [b0; b1; b2; b3] /\
  u32 (Z.lor (Z.lor (Z.lor b0 (Z.shiftl b1 8)) (Z.shiftl b2 16)) (Z.shiftl b3 24)) = n.
Proof.
  intros Hn. do 4 eexists. split; [reflexivity|]. rewrite !Z.div_div by lia. change (256 * 256 * 256) with (2^24). change (256 * 256) with (2^16).
  rewrite lor_reverse, word_of_bytes by done. unfold u32. by rewrite Z.mod_small.
Qed.

Lemma unpack_uint32_ok (a c : list Z) n off : off = Z.of_nat (List.length a) -> 0 <= n < 2^32 -> unpack_uint32 (a ++ to_le 4 n ++ c) off = Ok n.
Proof.
  intros -> Hn. unfold unpack_uint32. destruct (le_word n Hn) as (b0 & b1 & b2 & b3 & E & Eu). rewrite E. change 4 with (Z.of_nat (List.length [b0; b1; b2; b3])).
  rewrite mem_read_ok, bind_ret. by rewrite Eu.
Qed.

(** ** Parts *)

(** The pieces of a message, all of [MULTI_PART] bytes but the last; the last is
    marked. *)
Fixpoint pieces (k : nat) (msg : list Z) : list (bool * list Z) :=
  match k with
  | O => []
  | 1%nat => [(true, msg)]
  | S k => (false, take (Z.to_nat MULTI_PART) msg) :: pieces k (drop (Z.to_nat MULTI_PART) msg)
  end.

Lemma pieces_concat k : (0 < k)%nat -> forall msg, concat (snd <$> pieces k msg) = msg.
Proof.
  induction k as [|[|k] IH]; intros Hk msg; [lia|cbn; by rewrite app_nil_r|].
  change (pieces (S (S k)) msg) with ((false, take (Z.to_nat MULTI_PART) msg) :: pieces (S k) (drop (Z.to_nat MULTI_PART) msg)).
  cbn [fmap list_fmap concat snd].
  cbn [fmap list_fmap] in IH. rewrite IH by lia. apply take_drop.
Qed.

(** [k] pieces are what a message has. *)
Definition fits (k : nat) (sz : Z) : Prop := (0 < k)%nat /\ (Z.of_nat k - 1) * MULTI_PART < sz <= Z.of_nat k * MULTI_PART.

Lemma pieces_size k : forall msg, fits k (Z.of_nat (List.length msg)) -> Forall (fun p => 0 < Z.of_nat (List.length p.2) <= MULTI_PART) (pieces k msg).
Proof.
  unfold fits, MULTI_PART. induction k as [|[|k] IH]; intros msg [Hk Hm]; [lia|constructor; [cbn; lia|constructor]|].
  change (pieces (S (S k)) msg) with ((false, take (Z.to_nat MULTI_PART) msg) :: pieces (S k) (drop (Z.to_nat MULTI_PART) msg)). unfold MULTI_PART in *.
  constructor; [cbn [snd]; rewrite length_take; lia|]. apply IH. rewrite length_drop. lia.
Qed.

Section Cut.
(** A loop whose body makes a packet of the next piece. *)
Context (body : Z -> buf_t * list Z * Z * list (list Z) -> outcome (buf_t * list Z * Z * list (list Z))).
Context (packet : bool * list Z -> list Z).
Hypothesis body_ok : forall i buf ptr sz out, Z.of_nat (List.length buf) = TEMP_LENGTH -> sz = Z.of_nat (List.length ptr) -> sz < 2^32 ->
  let s := Z.min sz MULTI_PART in
  exists buf', body i (buf, ptr, sz, out) = Ok (buf', drop (Z.to_nat s) ptr, sz - s, out ++ [packet (bool_decide (sz <= MULTI_PART), take (Z.to_nat s) ptr)]) /\
    Z.of_nat (List.length buf') = TEMP_LENGTH.

Lemma cut_loop k : forall i buf ptr sz out, Z.of_nat (List.length buf) = TEMP_LENGTH -> sz = Z.of_nat (List.length ptr) -> sz < 2^32 -> fits k sz ->
  exists st, for_loop k i body (buf, ptr, sz, out) = Ok (st, out ++ (packet <$> pieces k ptr)).
Proof.
  induction k as [|k IH]; intros i buf ptr sz out Hb Hs H32 [Hk Hf]; [lia|]. cbn [for_loop]. destruct (body_ok i buf ptr sz out Hb Hs H32) as (buf' & -> & Hb'). rewrite bind_ret.
  unfold fits, MULTI_PART in *. destruct k as [|k].
  - cbn [for_loop]. rewrite bool_decide_true, Z.min_l by lia. eexists. rewrite take_ge by lia. reflexivity.
  - rewrite bool_decide_false, Z.min_r by lia. destruct (IH (i + 1) buf' (drop (Z.to_nat 0x8000) ptr) (sz - 0x8000) (out ++ [packet (false, take (Z.to_nat 0x8000) ptr)])) as (st & E);
      [done|rewrite length_drop; lia|lia|lia|]. exists st. etransitivity; [exact E|]. do 2 f_equal. by rewrite <- app_assoc.
Qed.
End Cut.

(** ** Packets *)

(** A packet: the length in two bytes, and what it is the length of. *)
Definition framed (b : list Z) : list Z := be16 (Z.of_nat (List.length b)) ++ b.

Ltac lens := repeat (progress (cbn [List.length be16 app]; rewrite ?length_app, ?le_length, ?length_take)); unfold TEMP_LENGTH, MULTI_PART in *; lia.

Lemma framed_eq n b : n = Z.of_nat (List.length b) -> be16 n ++ b = framed b.
Proof. by intros ->. Qed.

(** The next write of a packet under construction. *)
Ltac fill_step :=
  try rewrite fill_uint32_eq;
  match goal with |- context [fill ((Some <$> ?a) ++ ?j) ?off ?x] =>
    let j' := fresh "j" in let E := fresh "E" in let H := fresh "Hj" in
    destruct (fill_next a j off x) as (j' & E & H); [lens|assumption|lens|rewrite E, bind_ret; clear E]
  end.

Lemma fresh_start : fresh_buf = (Some <$> []) ++ fresh_buf.
Proof. done. Qed.

Lemma fresh_room : Z.of_nat (List.length (@nil Z) + List.length fresh_buf) = TEMP_LENGTH.
Proof. rewrite <- fresh_length. done. Qed.

Definition body_number (addr session : Z) (msg : list Z) : list Z := [0] ++ to_le 4 addr ++ to_le 4 session ++ msg.
Definition body_multi_number (is_push : bool) (addr session sz : Z) : list Z :=
  [if is_push then 0x41 else 1] ++ to_le 4 addr ++ to_le 4 session ++ to_le 4 sz.
Definition body_string (name : list Z) (session : Z) (msg : list Z) : list Z :=
  [0x80; Z.of_nat (List.length name)] ++ name ++ to_le 4 session ++ msg.
Definition body_multi_string (is_push : bool) (name : list Z) (session sz : Z) : list Z :=
  [if is_push then 0xc1 else 0x81; Z.of_nat (List.length name)] ++ name ++ to_le 4 session ++ to_le 4 sz.
Definition body_part (session : Z) (p : bool * list Z) : list Z := [if p.1 then 3 else 2] ++ to_le 4 session ++ p.2.

Lemma packreq_number_one addr session msg is_push : 0 <= addr < 2^32 -> 0 <= session < 2^32 -> Z.of_nat (List.length msg) < MULTI_PART ->
  packreq_number addr session msg (Z.of_nat (List.length msg)) is_push = Ok (framed (body_number addr (if is_push then 0 else session) msg), 0).
Proof.
  intros Ha Hs Hm. unfold packreq_number. cbv zeta. destruct (Z.ltb_spec (Z.of_nat (List.length msg)) MULTI_PART); [|lia]. unfold MULTI_PART in *.
  rewrite fresh_start, fill_header_eq by lia. pose proof fresh_room as H0. do 4 fill_step. rewrite read_whole, bind_ret. fill_step.
  rewrite pushed_prefix by lens. rewrite bind_ret. do 2 f_equal. unfold framed, body_number. rewrite <- !app_assoc. cbn [app].
  unfold u32. rewrite (Z.mod_small addr), (Z.mod_small session) by lia. apply framed_eq. lens.
Qed.

Lemma packreq_number_multi addr session msg sz is_push : 0 <= addr < 2^32 -> 0 <= session < 2^32 -> MULTI_PART <= sz ->
  packreq_number addr session msg sz is_push = Ok (framed (body_multi_number is_push addr session sz), parts sz).
Proof.
  intros Ha Hs Hm. unfold packreq_number. cbv zeta. destruct (Z.ltb_spec sz MULTI_PART); [lia|].
  rewrite fresh_start, fill_header_eq by lia. pose proof fresh_room as H0. do 5 fill_step.
  rewrite pushed_prefix by lens. rewrite bind_ret. do 2 f_equal. unfold body_multi_number. rewrite <- !app_assoc. cbn [app].
  unfold u32. rewrite (Z.mod_small addr), (Z.mod_small session) by lia. apply framed_eq. lens.
Qed.

(** A name that has a length. *)
Definition cluster_name (name : list Z) : Prop := (1 <= List.length name <= 255)%nat.

Lemma packreq_string_one name session msg is_push : cluster_name name -> 0 <= session < 2^32 -> Z.of_nat (List.length msg) < MULTI_PART ->
  packreq_string (AString name) session msg (Z.of_nat (List.length msg)) is_push = Ok (framed (body_string name (if is_push then 0 else session) msg), 0).
Proof.
  unfold cluster_name. intros Hn Hs Hm. unfold packreq_string. rewrite bind_ret. cbv zeta.
  destruct (Z.ltb_spec (Z.of_nat (List.length name)) 1), (Z.ltb_spec 255 (Z.of_nat (List.length name))); try lia. cbn [orb].
  destruct (Z.ltb_spec (Z.of_nat (List.length msg)) MULTI_PART); [|lia]. unfold MULTI_PART in *.
  rewrite fresh_start, fill_header_eq by lia. pose proof fresh_room as H0'. do 5 fill_step. rewrite read_whole, bind_ret. fill_step.
  rewrite pushed_prefix by lens. rewrite bind_ret. do 2 f_equal. unfold body_string. rewrite <- !app_assoc. cbn [app].
  unfold u8, u32. rewrite (Z.mod_small (Z.of_nat (List.length name))), (Z.mod_small session) by lia. apply framed_eq. lens.
Qed.

Lemma packreq_string_multi name session msg sz is_push : cluster_name name -> 0 <= session < 2^32 -> MULTI_PART <= sz ->
  packreq_string (AString name) session msg sz is_push = Ok (framed (body_multi_string is_push name session sz), parts sz).
Proof.
  unfold cluster_name. intros Hn Hs Hm. unfold packreq_string. rewrite bind_ret. cbv zeta.
  destruct (Z.ltb_spec (Z.of_nat (List.length name)) 1), (Z.ltb_spec 255 (Z.of_nat (List.length name))); try lia. cbn [orb].
  destruct (Z.ltb_spec sz MULTI_PART); [lia|].
  rewrite fresh_start, fill_header_eq by lia. pose proof fresh_room as H0'. do 6 fill_step.
  rewrite pushed_prefix by lens. rewrite bind_ret. do 2 f_equal. unfold body_multi_string. rewrite <- !app_assoc. cbn [app].
  unfold u8, u32. rewrite (Z.mod_small (Z.of_nat (List.length name))), (Z.mod_small session) by lia. apply framed_eq. lens.
Qed.

(** The number of parts is the number of pieces. *)
Lemma parts_fit sz : 0 < sz < 2^45 -> fits (Z.to_nat (parts sz)) sz.
Proof.
  intros Hs. unfold fits, parts, MULTI_PART. pose proof (Z.div_mod (sz - 1) 0x8000 ltac:(lia)). pose proof (Z.mod_pos_bound (sz - 1) 0x8000 ltac:(lia)).
  assert (0 <= (sz - 1) / 0x8000 < 2^30) by (split; [apply Z.div_pos; lia|apply Z.div_lt_upper_bound; lia]). rewrite i32_small by lia. lia.
Qed.

(** A write inside the buffer. *)
Lemma fill_inside (a b c : buf_t) off x : off = Z.of_nat (List.length a) -> List.length b = List.length x -> fill (a ++ b ++ c) off x = Ok (a ++ (Some <$> x) ++ c).
Proof. intros -> Hl. unfold fill. apply mem_write_ok. by rewrite length_fmap. Qed.

Lemma packreq_multi_ok session msg : 0 <= session < 2^32 -> 0 < Z.of_nat (List.length msg) < 2^32 ->
  packreq_multi session msg (Z.of_nat (List.length msg)) = Ok ((fun p => framed (body_part session p)) <$> pieces (Z.to_nat (parts (Z.of_nat (List.length msg)))) msg).
Proof.
  intros Hs Hm. unfold packreq_multi. edestruct (cut_loop) as (st & E).
  6:{ rewrite E. destruct st as [[? ?] ?]. rewrite bind_ret. reflexivity. }
  - intros i buf ptr sz out Hb Hsz H32 s. cbv beta iota.
    assert (Es : (if MULTI_PART <? sz then (MULTI_PART, 2) else (sz, 3)) = (s, if bool_decide (sz <= MULTI_PART) then 3 else 2)).
    { unfold s. destruct (Z.ltb_spec MULTI_PART sz); [rewrite bool_decide_false, Z.min_r by lia|rewrite bool_decide_true, Z.min_l by lia]; done. }
    rewrite Es. cbv beta iota. set (last := bool_decide (sz <= MULTI_PART)). assert (H0 : 0 <= s <= MULTI_PART /\ s <= sz) by (unfold s, MULTI_PART; lia).
    destruct buf as [|x0 [|x1 [|x2 j]]]; try (cbn in Hb; unfold TEMP_LENGTH in Hb; lia). cbn [List.length] in Hb.
    rewrite (fill_inside [x0; x1] [x2] j 2) by done. rewrite bind_ret, fill_header_eq by (unfold MULTI_PART in *; lia).
    pose proof (fill_inside [] [x0; x1] ((Some <$> [if last then 3 else 2]) ++ j) 0 (be16 (s + 5)) eq_refl eq_refl) as Eh.
    cbn [app] in Eh |- *. rewrite Eh, bind_ret. clear Eh.
    change ((Some <$> be16 (s + 5)) ++ (Some <$> [if last then 3 else 2]) ++ j) with ((Some <$> be16 (s + 5) ++ [if last then 3 else 2]) ++ j).
    assert (Hj : Z.of_nat (List.length (be16 (s + 5) ++ [if last then 3 else 2]) + List.length j) = TEMP_LENGTH) by (cbn [be16 app List.length]; lia).
    fill_step. rewrite read_first, bind_ret by lia. fill_step.
    rewrite pushed_prefix by lens. rewrite bind_ret. 
    unfold u32. rewrite (Z.mod_small (sz - s)), (Z.mod_small session), <- !app_assoc by lia. cbn [app].
    rewrite (framed_eq (s + 5)) by lens. eexists. split; [reflexivity|]. rewrite <- Hj1, length_app, length_fmap. f_equal.
  - apply fresh_length.
  - reflexivity.
  - lia.
  - apply parts_fit. lia.
Qed.

(** ** Reading *)

Lemma read_rest (a c : list Z) off n : off = Z.of_nat (List.length a) -> n = Z.of_nat (List.length c) -> mem_read (a ++ c) off n = Ok c.
Proof. intros -> ->. pose proof (mem_read_ok a c []) as E. by rewrite app_nil_r in E. Qed.

Lemma read_middle (a b c : list Z) off n : off = Z.of_nat (List.length a) -> n = Z.of_nat (List.length b) -> mem_read (a ++ b ++ c) off n = Ok b.
Proof. intros -> ->. apply mem_read_ok. Qed.

(** The word behind [a]. *)
Lemma word_at (l a c : list Z) n off : l = a ++ to_le 4 n ++ c -> off = Z.of_nat (List.length a) -> 0 <= n < 2^32 -> unpack_uint32 l off = Ok n.
Proof. intros ->. apply unpack_uint32_ok. Qed.

Lemma unpack_number addr session msg : 0 <= addr < 2^32 -> 0 <= session < 2^32 -> Z.of_nat (List.length msg) < MULTI_PART ->
  lunpackrequest (body_number addr session msg)
    = Ok ([RInteger addr; RInteger session; RString msg] ++ if session =? 0 then [RNil; RBoolean true] else []).
Proof.
  intros Ha Hs Hm. unfold lunpackrequest. cbv zeta. change (default 0 (List.head (body_number addr session msg))) with 0. change (0 =? 0) with true. cbv iota.
  unfold MULTI_PART in Hm. rewrite i32_small by (unfold body_number; lens). unfold unpackreq_number.
  destruct (Z.ltb_spec (Z.of_nat (List.length (body_number addr session msg))) 9) as [Hlt|_]; [revert Hlt; unfold body_number; lens|].
  rewrite (word_at _ [0] (to_le 4 session ++ msg) addr 1), bind_ret by done.
  rewrite (word_at _ ([0] ++ to_le 4 addr) msg session 5), bind_ret by (done || (unfold body_number; by rewrite <- !app_assoc) || lens).
  assert (Er : mem_read (body_number addr session msg) 9 (Z.of_nat (List.length (body_number addr session msg)) - 9) = Ok msg).
  { unfold body_number. rewrite !app_assoc. apply read_rest; lens. }
  rewrite Er, bind_ret. by destruct (session =? 0).
Qed.

Lemma unpack_multi_number is_push addr session sz : 0 <= addr < 2^32 -> 0 <= session < 2^32 -> 0 <= sz < 2^32 ->
  lunpackrequest (body_multi_number is_push addr session sz) = Ok [RInteger addr; RInteger session; RInteger sz; RBoolean true; RBoolean is_push].
Proof.
  intros Ha Hs Hz. assert (El : Z.of_nat (List.length (body_multi_number is_push addr session sz)) = 13) by (unfold body_multi_number; lens).
  assert (Eu : unpackmreq_number (body_multi_number is_push addr session sz) 13 is_push = Ok [RInteger addr; RInteger session; RInteger sz; RBoolean true; RBoolean is_push]).
  { unfold unpackmreq_number. change (negb (13 =? 13)) with false. cbv iota. unfold body_multi_number. set (t := if is_push then 0x41 else 1).
    rewrite (word_at _ [t] (to_le 4 session ++ to_le 4 sz) addr 1), bind_ret by done.
    rewrite (word_at _ ([t] ++ to_le 4 addr) (to_le 4 sz) session 5), bind_ret by (done || lens || by rewrite <- !app_assoc).
    rewrite (word_at _ ([t] ++ to_le 4 addr ++ to_le 4 session) [] sz 9), bind_ret by (done || lens || by rewrite app_nil_r, <- !app_assoc). done. }
  unfold lunpackrequest. rewrite El. cbv zeta. change (i32 13) with 13. change (default 0 (List.head (body_multi_number is_push addr session sz))) with (if is_push then 0x41 else 1). by destruct is_push.
Qed.

Lemma unpack_string name session msg : cluster_name name -> 0 <= session < 2^32 -> Z.of_nat (List.length msg) < MULTI_PART ->
  lunpackrequest (body_string name session msg)
    = Ok ([RString name; RInteger session; RString msg] ++ if session =? 0 then [RNil; RBoolean true] else []).
Proof.
  unfold cluster_name. intros Hn Hs Hm. unfold MULTI_PART in Hm. set (n := Z.of_nat (List.length name)). assert (Hn' : 1 <= n <= 255) by (unfold n; lia).
  assert (El : Z.of_nat (List.length (body_string name session msg)) = n + 6 + Z.of_nat (List.length msg)) by (unfold body_string; lens).
  unfold lunpackrequest. rewrite El, i32_small by lia. cbv zeta. change (default 0 (List.head (body_string name session msg))) with 0x80. cbv iota. cbn [Z.eqb Pos.eqb orb].
  unfold unpackreq_string. destruct (Z.ltb_spec (n + 6 + Z.of_nat (List.length msg)) 2); [lia|].
  rewrite (arr_get_ok _ 1 n), bind_ret by (lia || done). destruct (Z.ltb_spec (n + 6 + Z.of_nat (List.length msg)) (n + 6)); [lia|]. unfold body_string. fold n.
  rewrite (read_middle [0x80; n] name _ 2 n) by (done || lia). rewrite bind_ret.
  rewrite (word_at _ ([0x80; n] ++ name) msg session (n + 2)), bind_ret by (done || lens || by rewrite <- app_assoc).
  assert (Er : mem_read ([0x80; n] ++ name ++ to_le 4 session ++ msg) (2 + n + 4) (n + 6 + Z.of_nat (List.length msg) - n - 6) = Ok msg).
  { rewrite !app_assoc. apply read_rest; lens. }
  rewrite Er, bind_ret. by destruct (session =? 0).
Qed.

Lemma unpack_multi_string is_push name session sz : cluster_name name -> 0 <= session < 2^32 -> 0 <= sz < 2^32 ->
  lunpackrequest (body_multi_string is_push name session sz) = Ok [RString name; RInteger session; RInteger sz; RBoolean true; RBoolean is_push].
Proof.
  unfold cluster_name. intros Hn Hs Hz. set (n := Z.of_nat (List.length name)). assert (Hn' : 1 <= n <= 255) by (unfold n; lia).
  assert (El : Z.of_nat (List.length (body_multi_string is_push name session sz)) = n + 10) by (unfold body_multi_string; lens).
  assert (Eu : unpackmreq_string (body_multi_string is_push name session sz) (n + 10) is_push = Ok [RString name; RInteger session; RInteger sz; RBoolean true; RBoolean is_push]).
  { unfold unpackmreq_string. destruct (Z.ltb_spec (n + 10) 2); [lia|].
    rewrite (arr_get_ok _ 1 n), bind_ret by (lia || done). rewrite Z.ltb_irrefl. unfold body_multi_string. fold n. set (t := if is_push then 0xc1 else 0x81).
    rewrite (read_middle [t; n] name _ 2 n) by (done || lia). rewrite bind_ret.
    rewrite (word_at _ ([t; n] ++ name) (to_le 4 sz) session (n + 2)), bind_ret by (done || lens || by rewrite <- app_assoc).
    rewrite (word_at _ ([t; n] ++ name ++ to_le 4 session) [] sz (n + 6)), bind_ret by (done || lens || by rewrite app_nil_r, <- !app_assoc). done. }
  unfold lunpackrequest. rewrite El, i32_small by lia. cbv zeta.
  change (default 0 (List.head (body_multi_string is_push name session sz))) with (if is_push then 0xc1 else 0x81). by destruct is_push.
Qed.

Lemma unpack_part session p : 0 <= session < 2^32 -> Z.of_nat (List.length p.2) <= MULTI_PART ->
  lunpackrequest (body_part session p) = Ok [RBoolean false; RInteger session; RString p.2; RBoolean (negb p.1)].
Proof.
  intros Hs Hm. destruct p as [last d]. cbn [fst snd] in *. unfold MULTI_PART in Hm. set (t := if last then 3 else 2).
  assert (El : Z.of_nat (List.length (body_part session (last, d))) = 5 + Z.of_nat (List.length d)) by (unfold body_part; cbn [fst snd]; lens).
  assert (Eu : unpackmreq_part (body_part session (last, d)) (5 + Z.of_nat (List.length d)) = Ok [RBoolean false; RInteger session; RString d; RBoolean (negb last)]).
  { unfold unpackmreq_part. destruct (Z.ltb_spec (5 + Z.of_nat (List.length d)) 5); [lia|]. rewrite (arr_get_ok _ 0 t), bind_ret by (lia || done).
    unfold body_part. cbn [fst snd]. fold t. rewrite (word_at _ [t] d session), bind_ret by done.
    assert (Er : mem_read ([t] ++ to_le 4 session ++ d) 5 (5 + Z.of_nat (List.length d) - 5) = Ok d) by (rewrite app_assoc; apply read_rest; lens).
    rewrite Er, bind_ret. unfold t. by destruct last. }
  unfold lunpackrequest. rewrite El, i32_small by lia. cbv zeta. change (default 0 (List.head (body_part session (last, d)))) with t.
  unfold t. by destruct last.
Qed.

(** ** The parts put together *)

Lemma concat_loop_ok strs : forall a j sz, 0 <= sz < 2^31 -> Z.of_nat (List.length a + List.length j) = sz -> Z.of_nat (List.length (a ++ concat strs)) = sz ->
  concat_loop ((Some <$> a) ++ j) sz (Z.of_nat (List.length a)) (RString <$> strs) = Ok (Some (Some <$> a ++ concat strs, sz)).
Proof.
  induction strs as [|x strs IH]; intros a j sz Hz Hj Hl; cbn [fmap list_fmap concat_loop concat] in *.
  - rewrite app_nil_r in *. destruct (Z.eqb_spec (Z.of_nat (List.length a)) sz); [|lia]. cbn [negb]. do 3 f_equal.
    assert (j = []) as -> by (apply nil_length_inv; lia). by rewrite app_nil_r.
  - rewrite !length_app in Hl. unfold u64. rewrite (Z.mod_small sz) by lia. destruct (Z.ltb_spec sz (Z.of_nat (List.length x) + Z.of_nat (List.length a))); [lia|].
    unfold Netpack.copy_bytes. rewrite read_whole, bind_ret. rewrite <- (take_drop (List.length x) j) at 1.
    rewrite <- (length_fmap Some a) at 1. rewrite mem_write_ok by (rewrite length_take, length_fmap; lia). rewrite bind_ret, i32_small by lia.
    replace (Z.of_nat (List.length a) + Z.of_nat (List.length x)) with (Z.of_nat (List.length (a ++ x))) by (rewrite length_app; lia).
    rewrite app_assoc, <- fmap_app. cbn [fmap list_fmap] in IH. rewrite IH; [by rewrite <- app_assoc|done|rewrite length_app, length_drop; lia|rewrite !length_app; lia].
Qed.

Lemma lconcat_ok strs : Z.of_nat (List.length (concat strs)) < 2^31 ->
  lconcat (RInteger (Z.of_nat (List.length (concat strs))) :: (RString <$> strs)) = Ok (Some (Some <$> concat strs, Z.of_nat (List.length (concat strs)))).
Proof.
  intros Hl. unfold lconcat. rewrite i32_small by lia. unfold WsNetpack.ws_malloc, WsNetpack.PREFIX_SIZE. destruct (Z.ltb_spec (Z.of_nat (List.length (concat strs)) + 4) 0); [lia|].
  rewrite bind_ret. apply (concat_loop_ok strs [] (Netpack.malloc_bytes (Z.of_nat (List.length (concat strs))))); [lia| |done].
  unfold Netpack.malloc_bytes. cbn [List.length]. rewrite length_replicate. lia.
Qed.

(** ** Requests *)

Definition address_ok (addr : address) : Prop :=
  match addr with ANumber n => 0 <= n < 2^32 | AString name => cluster_name name | AOther => False end.
Definition address_result (addr : address) : result :=
  match addr with ANumber n => RInteger n | AString name => RString name | AOther => RNil end.

Lemma mapM_ok {A B} (f : A -> outcome B) (g : A -> B) l : Forall (fun x => f x = Ok (g x)) l -> mapM f l = Ok (g <$> l).
Proof. induction 1 as [|x l Hx _ IH]; [done|]. cbn [mapM]. rewrite Hx. cbn. by rewrite IH. Qed.

Lemma part_sizes msg : MULTI_PART <= Z.of_nat (List.length msg) < 2^32 ->
  Forall (fun p : bool * list Z => 0 < Z.of_nat (List.length p.2) <= MULTI_PART) (pieces (Z.to_nat (parts (Z.of_nat (List.length msg)))) msg).
Proof. intros Hm. apply pieces_size, parts_fit. unfold MULTI_PART in Hm. lia. Qed.

Lemma part_count (msg : list Z) : MULTI_PART <= Z.of_nat (List.length msg) < 2^32 -> (0 < Z.to_nat (parts (Z.of_nat (List.length msg))))%nat.
Proof. intros Hm. unfold MULTI_PART in Hm. destruct (parts_fit (Z.of_nat (List.length msg))); lia. Qed.

(** The pieces are all unmarked but the last. *)
Lemma pieces_split k : (0 < k)%nat -> forall msg, exists ds d, pieces k msg = ((fun d => (false, d)) <$> ds) ++ [(true, d)].
Proof.
  induction k as [|[|k] IH]; intros Hk msg; [lia|by exists [], msg|]. destruct (IH ltac:(lia) (drop (Z.to_nat MULTI_PART) msg)) as (ds & d & E).
  exists (take (Z.to_nat MULTI_PART) msg :: ds), d. change (pieces (S (S k)) msg) with ((false, take (Z.to_nat MULTI_PART) msg) :: pieces (S k) (drop (Z.to_nat MULTI_PART) msg)).
  by rewrite E.
Qed.

Lemma socket_all_app ps qs : forall m, socket_all (ps ++ qs) m = ('(a, m) ← socket_all ps m; '(b, m) ← socket_all qs m; Ok (a ++ b, m)).
Proof.
  induction ps as [|p ps IH]; intros m; cbn [app socket_all].
  - rewrite bind_ret. by destruct (socket_all qs m) as [[b m']|].
  - destruct (socket_data p m) as [[a m1]|f]; [|done]. rewrite !bind_ret, IH. destruct (socket_all ps m1) as [[rest m2]|f]; [|done]. rewrite !bind_ret.
    by destruct (socket_all qs m2) as [[b m3]|f].
Qed.

(** Parts that are not the last are put to the request they belong to. *)
Lemma parts_wait session ds : 0 <= session < 2^32 -> Forall (fun d : list Z => Z.of_nat (List.length d) <= MULTI_PART) ds -> forall m req, m !! session = Some req ->
  socket_all ((fun d => body_part session (false, d)) <$> ds) m
    = Ok (replicate (List.length ds) Waiting, <[session := Large (l_addr req) (l_is_push req) (l_parts req ++ (RString <$> ds))]> m).
Proof.
  intros Hs. induction 1 as [|d ds Hd _ IH]; intros m req Hm; cbn [fmap list_fmap socket_all List.length replicate].
  - rewrite app_nil_r. destruct req. by rewrite insert_id.
  - unfold socket_data. rewrite unpack_part by done. rewrite bind_ret. cbn [result_at List.nth truthy negb fst snd]. rewrite Hm. cbn [default from_option id].
    rewrite bind_ret. specialize (IH (<[session := Large (l_addr req) (l_is_push req) (l_parts req ++ [RString d])]> m) _ (lookup_insert_eq _ _ _)).
    cbn [fmap list_fmap l_addr l_is_push l_parts] in IH. rewrite IH, bind_ret, insert_insert_eq. by rewrite <- app_assoc.
Qed.

(** The last part: the request is taken out and put together. *)
Lemma last_part session d m req : 0 <= session < 2^32 -> Z.of_nat (List.length d) <= MULTI_PART -> m !! session = Some req ->
  socket_data (body_part session (true, d)) m =
    (c ← lconcat (l_parts req ++ [RString d]);
     match c with
     | Some (block, sz) => b ← lua_pushlstring block sz; Ok (Request (l_addr req) session (truthy (l_is_push req)) b, delete session m)
     | None => Ok (InvalidLarge session, delete session m)
     end).
Proof. intros Hs Hd Hm. unfold socket_data. rewrite unpack_part by done. rewrite bind_ret. cbn [result_at List.nth truthy negb fst snd]. by rewrite Hm. Qed.

(** The first packet of a request, for both kinds of address. *)
Definition body_one (addr : address) (session : Z) (msg : list Z) : list Z :=
  match addr with ANumber n => body_number n session msg | AString name => body_string name session msg | AOther => [] end.
Definition body_multi (is_push : bool) (addr : address) (session sz : Z) : list Z :=
  match addr with ANumber n => body_multi_number is_push n session sz | AString name => body_multi_string is_push name session sz | AOther => [] end.
Definition pack_first (addr : address) (session : Z) (msg : list Z) (sz : Z) (is_push : bool) : outcome (list Z * Z) :=
  match addr with ANumber n => packreq_number n session msg sz is_push | _ => packreq_string addr session msg sz is_push end.

Lemma first_one addr session msg (is_push : bool) : address_ok addr -> 0 < session < 2^31 -> Z.of_nat (List.length msg) < MULTI_PART ->
  let s := if is_push then 0 else session in
  pack_first addr session msg (Z.of_nat (List.length msg)) is_push = Ok (framed (body_one addr s msg), 0) /\
  Z.of_nat (List.length (body_one addr s msg)) < 0x10000 /\
  lunpackrequest (body_one addr s msg) = Ok ([address_result addr; RInteger s; RString msg] ++ if is_push then [RNil; RBoolean true] else []).
Proof.
  intros Ha Hs Hm s. assert (Ez : (s =? 0) = is_push) by (unfold s; destruct is_push; [done|]; apply Z.eqb_neq; lia).
  assert (Hz : 0 <= s < 2^32) by (unfold s; destruct is_push; lia). unfold MULTI_PART in Hm.
  destruct addr as [n|name|]; cbn [address_ok address_result pack_first body_one] in *; [| |done].
  - rewrite packreq_number_one by (done || (unfold MULTI_PART; lia)). split; [done|]. split; [unfold body_number; lens|]. by rewrite unpack_number, Ez by (done || (unfold MULTI_PART; lia)).
  - rewrite packreq_string_one by (done || (unfold MULTI_PART; lia)). split; [done|]. split; [unfold cluster_name in Ha; unfold body_string; lens|]. by rewrite unpack_string, Ez by (done || (unfold MULTI_PART; lia)).
Qed.

Lemma first_multi addr session msg sz is_push : address_ok addr -> 0 < session < 2^31 -> MULTI_PART <= sz < 2^32 ->
  pack_first addr session msg sz is_push = Ok (framed (body_multi is_push addr session sz), parts sz) /\
  Z.of_nat (List.length (body_multi is_push addr session sz)) < 0x10000 /\
  lunpackrequest (body_multi is_push addr session sz) = Ok [address_result addr; RInteger session; RInteger sz; RBoolean true; RBoolean is_push].
Proof.
  intros Ha Hs Hm. unfold MULTI_PART in Hm. destruct addr as [n|name|]; cbn [address_ok address_result pack_first body_multi] in *; [| |done].
  - rewrite packreq_number_multi by (done || (unfold MULTI_PART; lia)). split; [done|]. split; [unfold body_multi_number; lens|]. apply unpack_multi_number; lia.
  - rewrite packreq_string_multi by (done || (unfold MULTI_PART; lia)). split; [done|]. split; [unfold cluster_name in Ha; unfold body_multi_string; lens|]. apply unpack_multi_string; [done|lia|lia].
Qed.

(** The first packet of a request in parts, and the parts but the last. *)
Lemma parts_begin addr session sz is_push ds m : address_ok addr -> 0 < session < 2^31 -> MULTI_PART <= sz < 2^32 ->
  Forall (fun d : list Z => Z.of_nat (List.length d) <= MULTI_PART) ds -> m !! session = None ->
  socket_all (body_multi is_push addr session sz :: ((fun d => body_part session (false, d)) <$> ds)) m
    = Ok (replicate (S (List.length ds)) Waiting, <[session := Large (address_result addr) (RBoolean is_push) (RInteger sz :: (RString <$> ds))]> m).
Proof.
  intros Ha Hs Hz Hds Hm. cbn [socket_all]. unfold socket_data. destruct (first_multi addr session [] sz is_push Ha Hs Hz) as (_ & _ & ->). rewrite bind_ret.
  cbn [result_at List.nth truthy]. rewrite Hm. cbn [default from_option id l_addr l_is_push l_parts app]. rewrite bind_ret.
  rewrite (parts_wait session ds ltac:(lia) Hds _ _ (lookup_insert_eq _ _ _)), bind_ret, insert_insert_eq. done.
Qed.

(** C18.  Requests between clusters: whatever message below 2^31 bytes is packed, for a
    number or a name and as a request or a push, with a session below 2^31 - 1, the
    packets have their length in their first two bytes.  The node that gets what is
    behind these, while other requests are under way ([large]), waits until the last of
    the packets and then has the request: the address, the kind and the message, and
    the session, which is 0 for a push of one packet.  Nothing of it is left in [large].
    (A request under way with the same session, of any connection, must not be there:
    the node would take the packets for more of that one.) *)
Theorem request_roundtrip addr session msg is_push large :
  address_ok addr -> 0 < session < 2^31 - 1 -> Z.of_nat (List.length msg) < 2^31 ->
  let one := bool_decide (Z.of_nat (List.length msg) < MULTI_PART) in
  let session' := if one && is_push then 0 else session in
  large !! session' = None ->
  exists b bs, packrequest addr session (Some msg) (Z.of_nat (List.length msg)) is_push
      = Ok (framed b, session + 1, if one then None else Some (framed <$> bs)) /\
    Forall (fun b => Z.of_nat (List.length b) < 0x10000) (b :: bs) /\ (one = true -> bs = []) /\
    socket_all (b :: bs) large
      = Ok (replicate (List.length bs) Waiting ++ [Request (address_result addr) session' is_push msg], large).
Proof.
  intros Ha Hs Hm one session' Hl. unfold packrequest. cbv zeta. assert (Eu : u32 (Z.of_nat (List.length msg)) = Z.of_nat (List.length msg)) by (unfold u32; apply Z.mod_small; lia).
  rewrite Eu, i32_small by lia. destruct (Z.leb_spec session 0); [lia|]. fold (pack_first addr session msg (Z.of_nat (List.length msg)) is_push). revert Hl. unfold session', one. case_bool_decide as Hone; intros Hl.
  - destruct (first_one addr session msg is_push Ha ltac:(lia) Hone) as (E & Hlen & Er). rewrite E, bind_ret, c_int_ok, bind_ret by lia. destruct (Z.ltb_spec (session + 1) 0); [lia|].
    eexists _, []. split; [done|]. split; [by constructor|]. split; [done|]. cbn [andb socket_all List.length replicate app] in *. unfold socket_data. rewrite Er, bind_ret.
    destruct is_push; cbn [app result_at List.nth truthy] in *; by rewrite Hl, !bind_ret.
  - unfold MULTI_PART in Hone. cbn [andb] in *. destruct (first_multi addr session msg (Z.of_nat (List.length msg)) is_push Ha ltac:(lia) ltac:(unfold MULTI_PART; lia)) as (E & Hlen & _).
    rewrite E, bind_ret, c_int_ok, bind_ret by lia. destruct (Z.ltb_spec (session + 1) 0); [lia|].
    pose proof (part_count msg ltac:(unfold MULTI_PART; lia)) as Hc. destruct (Z.eqb_spec (parts (Z.of_nat (List.length msg))) 0); [lia|]. cbn [negb]. rewrite packreq_multi_ok, bind_ret by lia.
    set (k := Z.to_nat (parts (Z.of_nat (List.length msg)))) in *. eexists _, (body_part session <$> pieces k msg). split; [by rewrite <- list_fmap_compose|].
    pose proof (part_sizes msg ltac:(unfold MULTI_PART; lia)) as Hps. fold k in Hps. split; [|split; [done|]].
    { constructor; [done|]. apply Forall_fmap. eapply Forall_impl; [exact Hps|]. intros p Hp. cbv beta in Hp |- *. cbn. unfold body_part. lens. }
    destruct (pieces_split k Hc msg) as (ds & d & Ep). pose proof (pieces_concat k Hc msg) as Ec. rewrite Ep in *. rewrite fmap_app in Ec. cbn [fmap list_fmap snd] in Ec.
    apply Forall_app in Hps as [Hds Hd]. apply Forall_cons in Hd as [Hd _]. cbn [snd] in Hd.
    assert (Ed : snd <$> ((fun d : list Z => (false, d)) <$> ds) = ds) by (rewrite <- list_fmap_compose; apply list_fmap_id).
    assert (Hds' : Forall (fun d : list Z => Z.of_nat (List.length d) <= MULTI_PART) ds).
    { apply Forall_fmap in Hds. eapply Forall_impl; [exact Hds|]. intros x Hx. cbn in Hx. lia. }
    change (list_fmap _ _ snd ((fun d : list Z => (false, d)) <$> ds)) with (snd <$> ((fun d : list Z => (false, d)) <$> ds)) in Ec. rewrite Ed in Ec.
    rewrite fmap_app, <- list_fmap_compose, length_app, length_fmap. cbn [fmap list_fmap List.length].
    change (list_fmap _ _ (body_part session ∘ (fun d : list Z => (false, d))) ds) with ((fun d => body_part session (false, d)) <$> ds).
    rewrite app_comm_cons, socket_all_app, parts_begin by (done || lia || (unfold MULTI_PART; lia)). rewrite bind_ret. cbn [socket_all].
    rewrite (last_part session d _ _ ltac:(lia) ltac:(lia) (lookup_insert_eq _ _ _)). cbn [l_addr l_is_push l_parts truthy].
    change ((RInteger (Z.of_nat (List.length msg)) :: (RString <$> ds)) ++ [RString d]) with (RInteger (Z.of_nat (List.length msg)) :: ((RString <$> ds) ++ (RString <$> [d]))).
    rewrite <- fmap_app, <- Ec, lconcat_ok by (rewrite Ec; lia). rewrite !bind_ret. rewrite <- (app_nil_r (Some <$> concat (ds ++ [d]))), pushed_prefix by done.
    rewrite !bind_ret, delete_insert_id by done. rewrite Nat.add_1_r. by destruct is_push.
Qed.

(** A request of three parts while another of session 9 is under way, and a short push
    to a name. *)
Lemma request_roundtrip_witness :
  (exists b bs, packrequest (ANumber 0x01000009) 7 (Some (replicate (Z.to_nat 70000) 65)) 70000 false = Ok (framed b, 8, Some (framed <$> bs)) /\
     socket_all (b :: bs) {[9 := Large (RInteger 3) RNil []]}
       = Ok (replicate (List.length bs) Waiting ++ [Request (RInteger 0x01000009) 7 false (replicate (Z.to_nat 70000) 65)], {[9 := Large (RInteger 3) RNil []]})) /\
  (exists b, packrequest (AString [100; 98]) 7 (Some [1; 2; 3]) 3 true = Ok (framed b, 8, None) /\
     socket_all [b] ∅ = Ok ([Request (RString [100; 98]) 0 true [1; 2; 3]], ∅)).
Proof.
  split.
  - assert (El : Z.of_nat (List.length (replicate (Z.to_nat 70000) 65)) = 70000) by (rewrite length_replicate; lia).
    destruct (request_roundtrip (ANumber 0x01000009) 7 (replicate (Z.to_nat 70000) 65) false {[9 := Large (RInteger 3) RNil []]}) as (b & bs & E & _ & _ & Er);
      [cbn; lia|lia|rewrite El; lia|rewrite El; reflexivity|].
    rewrite El in E, Er. exists b, bs. split; [exact E|exact Er].
  - destruct (request_roundtrip (AString [100; 98]) 7 [1; 2; 3] true ∅) as (b & bs & E & _ & Eb & Er); [cbn; unfold cluster_name; cbn; lia|lia|cbn; lia|reflexivity|].
    rewrite (Eb eq_refl) in Er. exists b. split; [exact E|exact Er].
Defined.

(** ** Responses *)

Definition body_response (session t : Z) (d : list Z) : list Z := to_le 4 session ++ [t] ++ d.

(** What a node does with the packets of a response: the first is the whole, or says how
    many bytes the parts behind it have. *)
Definition third (r : list result) : result := default RNil (r !! 2%nat).
Definition join (size : Z) (rs : list (list result)) : outcome (option (list Z)) :=
  c ← lconcat (RInteger size :: (third <$> rs));
  match c with None => Ok None | Some (block, _) => m ← mapM init_read block; Ok (Some m) end.

Lemma join_ok (strs : list (list Z)) (rs : list (list result)) : third <$> rs = RString <$> strs -> Z.of_nat (List.length (concat strs)) < 2^31 ->
  join (Z.of_nat (List.length (concat strs))) rs = Ok (Some (concat strs)).
Proof. intros E Hl. unfold join. rewrite E, lconcat_ok, bind_ret by done. by rewrite mapM_init, bind_ret. Qed.

Definition receive_response (packets : list (list Z)) : outcome (option (Z * bool * list Z)) :=
  match packets with
  | [] => Ok None
  | p :: ps =>
      r ← lunpackresponse p;
      match r with
      | [RInteger s; RBoolean ok; RString msg] => Ok (Some (s, ok, msg))
      | [RInteger s; RBoolean ok; RInteger size; RBoolean true] =>
          rs ← mapM lunpackresponse ps;
          m ← join size rs;
          Ok (option_map (fun m => (s, ok, m)) m)
      | _ => Ok None
      end
  end.

Lemma unpack_response session t d : 0 <= session < 2^32 -> t = 0 \/ t = 1 \/ t = 3 \/ t = 4 ->
  lunpackresponse (body_response session t d) = Ok ([RInteger session; RBoolean (negb (t =? 0)); RString d] ++ if t =? 3 then [RBoolean true] else []).
Proof.
  intros Hs Ht. assert (El : Z.of_nat (List.length (body_response session t d)) = 5 + Z.of_nat (List.length d)) by (unfold body_response; lens).
  unfold lunpackresponse. rewrite El. cbv zeta. destruct (Z.ltb_spec (5 + Z.of_nat (List.length d)) 5); [lia|].
  rewrite (word_at _ [] ([t] ++ d) session 0), bind_ret by done.
  assert (Et : arr_get (body_response session t d) 4 = Ok t) by (apply arr_get_ok; [lia|done]). rewrite Et, bind_ret.
  assert (Er : mem_read (body_response session t d) 5 (5 + Z.of_nat (List.length d) - 5) = Ok d) by (unfold body_response; rewrite app_assoc; apply read_rest; lens).
  destruct Ht as [-> | [-> | [-> | ->]]]; cbn [Z.eqb Pos.eqb orb negb]; by rewrite Er.
Qed.

Lemma unpack_response_begin session sz : 0 <= session < 2^32 -> 0 <= sz < 2^32 ->
  lunpackresponse (body_response session 2 (to_le 4 sz)) = Ok [RInteger session; RBoolean true; RInteger sz; RBoolean true].
Proof.
  intros Hs Hz. assert (El : Z.of_nat (List.length (body_response session 2 (to_le 4 sz))) = 9) by done.
  unfold lunpackresponse. rewrite El. cbv zeta. change (9 <? 5) with false. cbv iota. rewrite (word_at _ [] ([2] ++ to_le 4 sz) session 0), bind_ret by done.
  assert (Et : arr_get (body_response session 2 (to_le 4 sz)) 4 = Ok 2) by (apply arr_get_ok; [lia|done]). rewrite Et, bind_ret. cbn [Z.eqb Pos.eqb orb negb].
  unfold body_response. by rewrite (word_at _ (to_le 4 session ++ [2]) [] sz 5), bind_ret by (done || (rewrite app_nil_r, <- app_assoc; done)).
Qed.

Definition part_response (session : Z) (p : bool * list Z) : list Z := body_response session (if p.1 then 4 else 3) p.2.

Lemma response_parts_ok session buf msg out : 0 <= session < 2^32 -> 0 < Z.of_nat (List.length msg) < 2^32 -> Z.of_nat (List.length buf) = TEMP_LENGTH ->
  response_parts session buf msg (Z.of_nat (List.length msg)) out
    = Ok (out ++ ((fun p => framed (part_response session p)) <$> pieces (Z.to_nat (parts (Z.of_nat (List.length msg)))) msg)).
Proof.
  intros Hs Hm Hbuf. unfold response_parts. edestruct (cut_loop) as (st & E).
  6:{ rewrite E. destruct st as [[? ?] ?]. rewrite bind_ret. reflexivity. }
  - intros i b ptr sz o Hb Hsz H32 s. cbv beta iota.
    assert (Es : (if MULTI_PART <? sz then (MULTI_PART, 3) else (sz, 4)) = (s, if bool_decide (sz <= MULTI_PART) then 4 else 3)).
    { unfold s. destruct (Z.ltb_spec MULTI_PART sz); [rewrite bool_decide_false, Z.min_r by lia|rewrite bool_decide_true, Z.min_l by lia]; done. }
    rewrite Es. cbv beta iota. set (last := bool_decide (sz <= MULTI_PART)). set (t := if last then 4 else 3). assert (H0 : 0 <= s <= MULTI_PART /\ s <= sz) by (unfold s, MULTI_PART; lia).
    destruct b as [|x0 [|x1 [|x2 [|x3 [|x4 [|x5 [|x6 j]]]]]]]; try (cbn in Hb; unfold TEMP_LENGTH in Hb; lia). cbn [List.length] in Hb.
    rewrite (fill_inside [x0; x1; x2; x3; x4; x5] [x6] j 6) by done. rewrite bind_ret, fill_header_eq by (unfold MULTI_PART in *; lia).
    pose proof (fill_inside [] [x0; x1] ([x2; x3; x4; x5] ++ (Some <$> [t]) ++ j) 0 (be16 (s + 5)) eq_refl eq_refl) as Eh.
    cbn [app] in Eh |- *. rewrite Eh, bind_ret, fill_uint32_eq. clear Eh.
    pose proof (fill_inside (Some <$> be16 (s + 5)) [x2; x3; x4; x5] ((Some <$> [t]) ++ j) 2 (to_le 4 session) eq_refl eq_refl) as Eh.
    cbn [app] in Eh |- *. rewrite Eh, bind_ret. clear Eh. rewrite !app_assoc, <- !fmap_app.
    assert (Hj : Z.of_nat (List.length ((be16 (s + 5) ++ to_le 4 session) ++ [t]) + List.length j) = TEMP_LENGTH) by (repeat rewrite length_app; rewrite le_length; cbn [be16 List.length]; lia).
    rewrite read_first, bind_ret by lia. fill_step. rewrite pushed_prefix by lens. rewrite bind_ret, <- !app_assoc. rewrite (framed_eq (s + 5)) by lens.
    eexists. split; [reflexivity|]. rewrite <- Hj0, length_app, length_fmap. f_equal.
  - exact Hbuf.
  - reflexivity.
  - lia.
  - apply parts_fit. lia.
Qed.

Lemma response_one session (ok : bool) (msg : list Z) n : 0 <= session < 2^32 -> 0 <= n <= MULTI_PART -> n <= Z.of_nat (List.length msg) ->
  (buf ← fill_header fresh_buf (n + 5); buf ← fill_uint32 buf 2 session; buf ← fill buf 6 [if ok then 1 else 0]; m ← mem_read msg 0 n; buf ← fill buf 7 m;
   r ← lua_pushlstring buf (n + 7); Ok (One r)) = Ok (One (framed (body_response session (if ok then 1 else 0) (take (Z.to_nat n) msg)))).
Proof.
  intros Hs Hn Hl. unfold MULTI_PART in Hn. rewrite fresh_start, fill_header_eq by lia. pose proof fresh_room as H0. do 3 fill_step. rewrite read_first, bind_ret by lia. fill_step.
  rewrite pushed_prefix by lens. rewrite bind_ret, <- !app_assoc. cbn [app]. by rewrite (framed_eq (n + 5)) by (unfold body_response; lens).
Qed.

(** The parts of a response, read and put together. *)
Lemma response_joined session msg : 0 <= session < 2^32 -> MULTI_PART <= Z.of_nat (List.length msg) < 2^31 ->
  exists rs, mapM lunpackresponse (part_response session <$> pieces (Z.to_nat (parts (Z.of_nat (List.length msg)))) msg) = Ok rs /\
    join (Z.of_nat (List.length msg)) rs = Ok (Some msg).
Proof.
  intros Hs Hm. set (ps := pieces _ msg). assert (Ec : concat (snd <$> ps) = msg) by (apply pieces_concat, part_count; lia).
  exists ((fun p : bool * list Z => [RInteger session; RBoolean true; RString p.2] ++ if p.1 then [] else [RBoolean true]) <$> ps). split.
  - clear Ec. induction ps as [|[last d] ps IH]; [done|]. cbn [fmap list_fmap mapM] in *. change (part_response session (last, d)) with (body_response session (if last then 4 else 3) d).
    rewrite unpack_response by (destruct last; tauto). cbn [fst snd] in *. destruct last; cbn in IH |- *; by rewrite IH.
  - rewrite <- Ec. apply join_ok; [|by rewrite Ec; lia]. by rewrite <- !list_fmap_compose.
Qed.

(** Responses between clusters: a good answer of any size below 2^31 is read back
    with its session, in one packet or from its parts; an error is read back as an
    error, with the first 32K of its text. *)
Theorem response_roundtrip session (ok : bool) msg : 0 <= session < 2^32 -> Z.of_nat (List.length msg) < 2^31 ->
  exists bs, lpackresponse session ok msg (Z.of_nat (List.length msg))
      = Ok (match bs with [b] => One (framed b) | _ => Many (framed <$> bs) end) /\
    Forall (fun b => Z.of_nat (List.length b) < 0x10000) bs /\
    receive_response bs = Ok (Some (session, ok, if ok then msg else take (Z.to_nat MULTI_PART) msg)).
Proof.
  intros Hs Hm. unfold lpackresponse. cbv zeta. assert (Eu : u32 session = session) by (unfold u32; by apply Z.mod_small). rewrite Eu.
  assert (Hone : forall n, 0 <= n <= MULTI_PART -> n <= Z.of_nat (List.length msg) ->
    let bs := [body_response session (if ok then 1 else 0) (take (Z.to_nat n) msg)] in
    Forall (fun b => Z.of_nat (List.length b) < 0x10000) bs /\ receive_response bs = Ok (Some (session, ok, take (Z.to_nat n) msg))).
  { intros n Hn Hl bs. unfold MULTI_PART in Hn. split; [constructor; [unfold body_response; lens|constructor]|]. unfold receive_response, bs. rewrite unpack_response by (done || destruct ok; tauto).
    by destruct ok. }
  destruct ok; cbn [negb].
  - destruct (Z.ltb_spec MULTI_PART (Z.of_nat (List.length msg))) as [Hmul|Hle].
    + rewrite fresh_start, fill_header_eq by lia. pose proof fresh_room as H0. unfold u32. rewrite (Z.mod_small (Z.of_nat (List.length msg))) by lia. do 4 fill_step.
      rewrite pushed_prefix by lens. rewrite bind_ret. set (buf := (Some <$> _) ++ j2). assert (Hbuf : Z.of_nat (List.length buf) = TEMP_LENGTH) by (unfold buf; rewrite length_app, length_fmap; exact Hj2).
      rewrite (response_parts_ok session buf msg _ Hs ltac:(unfold MULTI_PART in *; lia) Hbuf), bind_ret.
      exists (body_response session 2 (to_le 4 (Z.of_nat (List.length msg))) :: (part_response session <$> pieces (Z.to_nat (parts (Z.of_nat (List.length msg)))) msg)).
      pose proof (part_count msg ltac:(lia)) as Hc. split; [|split].
      * destruct (pieces (Z.to_nat (parts (Z.of_nat (List.length msg)))) msg) as [|p ps] eqn:Ep; [apply (f_equal (fun x => concat (snd <$> x))) in Ep; rewrite pieces_concat in Ep by done; subst msg; cbn in Hmul; unfold MULTI_PART in Hmul; lia|].
        cbn [fmap list_fmap app]. by rewrite <- list_fmap_compose, <- !app_assoc.
      * constructor; [done|]. apply Forall_fmap. eapply Forall_impl; [apply part_sizes; lia|]. intros p Hp. cbv beta in Hp |- *. cbn. unfold part_response, body_response. lens.
      * unfold receive_response. rewrite unpack_response_begin by lia. rewrite bind_ret. cbv beta iota. destruct (response_joined session msg Hs ltac:(lia)) as (rs & -> & Ej).
        by rewrite bind_ret, Ej, bind_ret.
    + exists [body_response session 1 (take (Z.to_nat (Z.of_nat (List.length msg))) msg)]. rewrite (response_one session true msg) by lia. split; [done|].
      destruct (Hone (Z.of_nat (List.length msg))) as [H1 H2]; [lia|lia|]. split; [done|]. rewrite H2. do 4 f_equal. rewrite Nat2Z.id. by apply take_ge.
  - set (n := if MULTI_PART <? Z.of_nat (List.length msg) then MULTI_PART else Z.of_nat (List.length msg)).
    assert (Hn : 0 <= n <= MULTI_PART /\ n <= Z.of_nat (List.length msg) /\ take (Z.to_nat n) msg = take (Z.to_nat MULTI_PART) msg).
    { unfold n. destruct (Z.ltb_spec MULTI_PART (Z.of_nat (List.length msg))); unfold MULTI_PART in *; [split; [lia|]; split; [lia|done]|]. split; [lia|]. split; [lia|]. rewrite !take_ge by lia. done. }
    destruct Hn as (Hn1 & Hn2 & Et). exists [body_response session 0 (take (Z.to_nat n) msg)]. rewrite (response_one session false msg) by done. split; [done|].
    destruct (Hone n Hn1 Hn2) as [H1 H2]. split; [done|]. by rewrite <- Et.
Qed.

Lemma response_roundtrip_witness :
  (exists bs, lpackresponse 9 true (replicate (Z.to_nat 40000) 66) 40000 = Ok (match bs with [b] => One (framed b) | _ => Many (framed <$> bs) end) /\
     receive_response bs = Ok (Some (9, true, replicate (Z.to_nat 40000) 66))) /\
  (exists bs, lpackresponse 9 false [110; 111] 2 = Ok (match bs with [b] => One (framed b) | _ => Many (framed <$> bs) end) /\
     receive_response bs = Ok (Some (9, false, [110; 111]))).
Proof.
  split.
  - assert (El : Z.of_nat (List.length (replicate (Z.to_nat 40000) 66)) = 40000) by (rewrite length_replicate; lia).
    destruct (response_roundtrip 9 true (replicate (Z.to_nat 40000) 66)) as (bs & E & _ & Er); [lia|rewrite El; lia|]. rewrite El in E. exists bs. split; [exact E|exact Er].
  - destruct (response_roundtrip 9 false [110; 111]) as (bs & E & _ & Er); [lia|cbn; lia|]. exists bs. split; [exact E|exact Er].
Defined.

(** ** Any bytes *)

Lemma i32_le z : 0 <= z -> i32 z <= z.
Proof.
  intros Hz. unfold i32. pose proof (Z.mod_le (z + 2^31) (2^32) ltac:(lia) ltac:(lia)). lia.
Qed.

Lemma word_total (msg : list Z) off : 0 <= off -> off + 4 <= Z.of_nat (List.length msg) -> exists n, unpack_uint32 msg off = Ok n.
Proof.
  intros Ho Hl. unfold unpack_uint32, mem_read. destruct (Z.ltb_spec off 0), (Z.ltb_spec 4 0), (Z.ltb_spec (Z.of_nat (List.length msg)) (off + 4)); try lia. cbn [orb]. rewrite bind_ret.
  assert (Hl4 : List.length (take (Z.to_nat 4) (drop (Z.to_nat off) msg)) = 4%nat) by (rewrite length_take, length_drop; lia).
  destruct (take _ _) as [|b0 [|b1 [|b2 [|b3 [|? ?]]]]]; try done. by eexists.
Qed.

Lemma read_total (msg : list Z) off n : 0 <= off -> 0 <= n -> off + n <= Z.of_nat (List.length msg) -> exists b, mem_read msg off n = Ok b.
Proof.
  intros Ho Hn Hl. unfold mem_read. destruct (Z.ltb_spec off 0), (Z.ltb_spec n 0), (Z.ltb_spec (Z.of_nat (List.length msg)) (off + n)); try lia. by eexists.
Qed.

Lemma byte_total (msg : list Z) i : Forall (fun b => 0 <= b < 256) msg -> 0 <= i < Z.of_nat (List.length msg) -> exists b, arr_get msg i = Ok b /\ 0 <= b < 256.
Proof.
  intros Hb Hi. destruct (lookup_lt_is_Some_2 msg (Z.to_nat i)) as [b E]; [lia|]. exists b. split; [by apply arr_get_ok; [lia|]|]. exact (Forall_lookup_1 _ _ _ _ Hb E).
Qed.

(** It returned, or raised an error of Lua. *)
Definition answers {A} (o : outcome A) : Prop := match o with Ok _ | Fault (LuaError _) => True | _ => False end.

Ltac next_read :=
  match goal with
  | |- context [unpack_uint32 ?m ?o ≫= _] => let E := fresh in destruct (word_total m o) as [? E]; [lia|lia|rewrite E, bind_ret; clear E]
  | |- context [mem_read ?m ?o ?n ≫= _] => let E := fresh in destruct (read_total m o n) as [? E]; [lia|lia|lia|rewrite E, bind_ret; clear E]
  end.

(** Packets from anywhere: whatever bytes another node sends, reading them as a
    request or as a response stays inside them and returns or raises an error. *)
Theorem cluster_reads_safely msg : Forall (fun b => 0 <= b < 256) msg -> answers (lunpackrequest msg) /\ answers (lunpackresponse msg).
Proof.
  intros Hb. pose proof (i32_le (Z.of_nat (List.length msg)) ltac:(lia)) as Hi. split.
  - unfold lunpackrequest. cbv zeta. set (sz := i32 (Z.of_nat (List.length msg))) in *.
    assert (Hnum : answers (unpackreq_number msg sz)) by (unfold unpackreq_number; destruct (Z.ltb_spec sz 9); [done|]; do 3 next_read; done).
    assert (Hmnum : forall p, answers (unpackmreq_number msg sz p)) by (intros p; unfold unpackmreq_number; destruct (Z.eqb_spec sz 13); [|done]; cbn [negb]; do 3 next_read; done).
    assert (Hpart : answers (unpackmreq_part msg sz)).
    { unfold unpackmreq_part. destruct (Z.ltb_spec sz 5); [done|]. destruct (byte_total msg 0 Hb) as (t & -> & _); [lia|]. rewrite bind_ret. do 2 next_read. done. }
    assert (Hstr : answers (unpackreq_string msg sz)).
    { unfold unpackreq_string. destruct (Z.ltb_spec sz 2); [done|]. destruct (byte_total msg 1 Hb) as (n & -> & Hn); [lia|]. rewrite bind_ret. destruct (Z.ltb_spec sz (n + 6)); [done|]. do 3 next_read. done. }
    assert (Hmstr : forall p, answers (unpackmreq_string msg sz p)).
    { intros p. unfold unpackmreq_string. destruct (Z.ltb_spec sz 2); [done|]. destruct (byte_total msg 1 Hb) as (n & -> & Hn); [lia|]. rewrite bind_ret. destruct (Z.ltb_spec sz (n + 10)); [done|]. do 3 next_read. done. }
    repeat match goal with |- context [if ?b then _ else _] => destruct b end; done.
  - unfold lunpackresponse. cbv zeta. destruct (Z.ltb_spec (Z.of_nat (List.length msg)) 5); [done|]. next_read. destruct (byte_total msg 4 Hb) as (t & -> & _); [lia|]. rewrite bind_ret.
    destruct (t =? 0); [next_read; done|]. destruct ((t =? 1) || (t =? 4)); [next_read; done|]. destruct (t =? 2).
    + destruct (Z.eqb_spec (Z.of_nat (List.length msg)) 9); [|done]. cbn [negb]. next_read. done.
    + destruct (t =? 3); [next_read; done|done].
Qed.

Lemma cluster_reads_safely_witness : answers (lunpackrequest [0x80; 200; 1; 2; 3]) /\ answers (lunpackresponse [1; 2; 3; 4; 2; 5]).
Proof.
  split.
  - apply (cluster_reads_safely [0x80; 200; 1; 2; 3]). repeat (constructor; [lia|]). constructor.
  - apply (cluster_reads_safely [1; 2; 3; 4; 2; 5]). repeat (constructor; [lia|]). constructor.
Defined.

(** Strings that are not all empty do not fit into a block of no bytes. *)
Lemma concat_no_room strs sz : 2^64 - 4 <= u64 sz -> Forall (fun s : list Z => Z.of_nat (List.length s) < 2^31) strs -> concat strs <> [] ->
  concat_loop [] sz 0 (RString <$> strs) = Fault OutOfBounds.
Proof.
  intros Hz. induction 1 as [|x strs Hx _ IH]; intros Hne; [done|]. cbn [fmap list_fmap concat_loop concat] in *.
  destruct (Z.ltb_spec (u64 sz) (Z.of_nat (List.length x) + 0)); [lia|]. unfold Netpack.copy_bytes. rewrite read_whole, bind_ret. destruct x as [|b x].
  - cbn in IH |- *. by apply IH.
  - unfold mem_write. cbn [List.length fmap list_fmap]. rewrite length_fmap. destruct (Z.ltb_spec (Z.of_nat 0) (0 + Z.of_nat (S (List.length x)))); [|lia].
    by rewrite orb_true_r.
Qed.

(** C40.  A request in parts that says they have 2^31 bytes or more: the node keeps the
    parts, and at the one that ends the request [lconcat] takes the size for an [int].
    It asks for a block of negative size, and the process ends, however few bytes came (one at least);
    for the four largest sizes the sum with the prefix wraps, the block has no room, and
    the first byte is written outside it. *)
Theorem large_request_aborts is_push addr session sz ds d large :
  address_ok addr -> 0 < session < 2^31 -> 2^31 <= sz < 2^32 -> large !! session = None ->
  Forall (fun d : list Z => Z.of_nat (List.length d) <= MULTI_PART) (ds ++ [d]) -> concat (ds ++ [d]) <> [] ->
  exists large', 
    socket_all (body_multi is_push addr session sz :: ((fun d => body_part session (false, d)) <$> ds)) large = Ok (replicate (S (List.length ds)) Waiting, large') /\
    socket_data (body_part session (true, d)) large' = Fault (if sz <? 2^32 - 4 then Exited else OutOfBounds).
Proof.
  intros Ha Hs Hz Hl Hd Hne. pose proof Hd as [Hds [Hd1 _]%Forall_cons]%Forall_app.
  eexists. split; [apply parts_begin; (done || (unfold MULTI_PART; lia))|]. rewrite (last_part session d _ _ ltac:(lia) ltac:(lia) (lookup_insert_eq _ _ _)). cbn [l_addr l_is_push l_parts].
  change ((RInteger sz :: (RString <$> ds)) ++ [RString d]) with (RInteger sz :: ((RString <$> ds) ++ (RString <$> [d]))). rewrite <- fmap_app. unfold lconcat.
  assert (Ei : i32 sz = sz - 2^32).
  { unfold i32. assert (Em : (sz + 2^31) mod 2^32 = sz + 2^31 - 2^32) by (symmetry; apply (Zmod_unique _ _ 1); lia). lia. }
  rewrite Ei. unfold WsNetpack.ws_malloc, WsNetpack.PREFIX_SIZE. destruct (Z.ltb_spec (sz - 2^32 + 4) 0), (Z.ltb_spec sz (2^32 - 4)); try lia; [done|]. rewrite bind_ret.
  replace (Netpack.malloc_bytes (sz - 2^32)) with (@nil (option Z)) by (unfold Netpack.malloc_bytes; by rewrite Z2Nat.nonpos by lia).
  rewrite concat_no_room; [done| | |done].
  - unfold u64. replace ((sz - 2^32) mod 2^64) with (sz - 2^32 + 2^64) by (apply (Zmod_unique _ _ (-1)); lia). lia.
  - eapply Forall_impl; [exact Hd|]. unfold MULTI_PART. intros x Hx. cbv beta in Hx. lia.
Qed.

Lemma large_request_aborts_witness : exists large,
  socket_all [body_multi false (ANumber 9) 1 0x80000000; body_part 1 (false, [65])] ∅ = Ok ([Waiting; Waiting], large) /\
  socket_data (body_part 1 (true, [66])) large = Fault Exited.
Proof.
  apply (large_request_aborts false (ANumber 9) 1 0x80000000 [[65]] [66] ∅).
  - cbn. lia.
  - lia.
  - lia.
  - reflexivity.
  - repeat (constructor; [unfold MULTI_PART; cbn; lia|]). constructor.
  - discriminate.
Defined.
