(* ===== verification/Stm.v ===== *)
(** * Shared snapshots ([lualib-src/lua-stm.c])

    A writer publishes messages, readers in other services take the newest one.  The
    services run on different threads, so that the model is a step relation: one
    step is one access to what they share, a lock taken or given back included
    (taking a lock is one step here; that it excludes is the subject of [Locks]).
    A step that has to wait for a lock is not possible yet.

    Memory is explicit: the object and the copies are there or were freed, and an
    access to what was freed is a fault.  Copies are numbered in the order of their
    allocation. *)

From S2P Require Import Prelude.
From stdpp Require Import base numbers list gmap.
From Stdlib Require Import ZArith Lia.
#[local] Open Scope Z_scope.
#[local] Open Scope list_scope.

Module Stm.

Record stm_copy := Copy { c_reference : Z; c_sz : Z; c_msg : list Z }.

(** [lock] is the number of readers inside and whether the writer is. *)
Record stm_object := Object { lock_read : Z; lock_write : bool; reference : Z; copy : option nat }.

Definition set_read x o := Object x (lock_write o) (reference o) (copy o).
Definition set_write x o := Object (lock_read o) x (reference o) (copy o).
Definition set_reference x o := Object (lock_read o) (lock_write o) x (copy o).
Definition set_copy x o := Object (lock_read o) (lock_write o) (reference o) x.

(** Where the service of the writer is. *)
Inductive wpc :=
  | WIdle
  | WUpdate (c : nat)           (** [stm_update]: at [rwlock_wlock] with the new copy *)
  | WSwap (c : nat)             (** at [oldcopy = obj->copy; obj->copy = copy] *)
  | WUnlock (old : option nat)  (** at [rwlock_wunlock] *)
  | WDrop (old : option nat)    (** at [stm_releasecopy(oldcopy)] *)
  | WGrab                       (** [stm_grab]: at [rwlock_rlock] *)
  | WGrabInc                    (** at [ATOM_FINC(&obj->reference)] *)
  | WGrabUnlock (ref : Z)       (** at [rwlock_runlock], then [assert(ref > 0)] *)
  | WRelease                    (** [stm_release]: at [rwlock_wlock] *)
  | WRelCopy                    (** at [stm_releasecopy(obj->copy)] *)
  | WRelClear                   (** at [obj->copy = NULL] *)
  | WRelDec                     (** at [--obj->reference] *)
  | WRelUnlock                  (** at [rwlock_wunlock] *)
  | WGone.

(** Where the service of a reader is. *)
Inductive rpc :=
  | RIdle
  | RLock                       (** [stm_copy]: at [rwlock_rlock] *)
  | RGet                        (** at [ret = obj->copy] *)
  | RInc (ret : option nat)     (** at [ATOM_FINC(&ret->reference)] *)
  | RUnlock (ret : option nat)  (** at [rwlock_runlock] *)
  | RCompare (ret : option nat) (** [lread]: at [copy == box->lastcopy], with the release that follows *)
  | RDeliver (ret : option nat) (** at [box->lastcopy = copy] *)
  | RRelease                    (** [stm_releasereader]: at [rwlock_rlock] *)
  | RRelDec                     (** at [ATOM_DEC(&obj->reference)] *)
  | RRelUnlock                  (** at [rwlock_runlock] *)
  | RRelCopy                    (** [ldeletereader]: at [stm_releasecopy(box->lastcopy)] *)
  | RGone.

(** [struct boxreader] and the place its service is at. *)
Record boxreader := Reader { pc : rpc; lastcopy : option nat }.

(** [next] is the number of copies so far. *)
Record world := World {
  obj : option stm_object; copies : gmap nat stm_copy; next : nat; writer : wpc; readers : list boxreader }.

Definition set_obj x w := World x (copies w) (next w) (writer w) (readers w).
Definition set_copies x w := World (obj w) x (next w) (writer w) (readers w).
Definition set_writer x w := World (obj w) (copies w) (next w) x (readers w).
Definition set_readers x w := World (obj w) (copies w) (next w) (writer w) x.

(** What can be seen: a message is published, a reader is called with one, a reader
    is told that there is nothing new. *)
Inductive event := EPublish (c : nat) (msg : list Z) | ERead (i c : nat) (msg : list Z) (sz : Z) | ENothing (i : nat).

Definition get_obj (w : world) : outcome stm_object :=
  match obj w with Some o => Ok o | None => Fault DanglingPointer end.
Definition get_copy (w : world) (c : nat) : outcome stm_copy :=
  match copies w !! c with Some x => Ok x | None => Fault DanglingPointer end.

Definition stm_newcopy (w : world) (msg : list Z) : nat * world :=
  (next w, World (obj w) (<[next w := Copy 1 (u32 (Z.of_nat (length msg))) msg]> (copies w)) (S (next w)) (writer w) (readers w)).

Definition stm_releasecopy (c : option nat) (w : world) : outcome world :=
  match c with
  | None => Ok w
  | Some c =>
      x ← get_copy w c;
      if c_reference x - 1 =? 0 then Ok (set_copies (delete c (copies w)) w)
      else Ok (set_copies (<[c := Copy (c_reference x - 1) (c_sz x) (c_msg x)]> (copies w)) w)
  end.

(** [stm_new], and the box of the writer. *)
Definition lnewwriter (msg : list Z) : world :=
  let '(c, w) := stm_newcopy (World None ∅ 0 WIdle []) msg in
  set_obj (Some (Object 0 false 1 (Some c))) w.

(** The locks: [None] is to wait. *)
Definition rwlock_rlock (w : world) : option (outcome world) :=
  match get_obj w with
  | Fault f => Some (Fault f)
  | Ok o => if lock_write o then None else Some (Ok (set_obj (Some (set_read (lock_read o + 1) o)) w))
  end.
Definition rwlock_wlock (w : world) : option (outcome world) :=
  match get_obj w with
  | Fault f => Some (Fault f)
  | Ok o => if lock_write o || negb (lock_read o =? 0) then None else Some (Ok (set_obj (Some (set_write true o)) w))
  end.
Definition rwlock_runlock (w : world) : outcome world :=
  o ← get_obj w; Ok (set_obj (Some (set_read (lock_read o - 1) o)) w).
Definition rwlock_wunlock (w : world) : outcome world :=
  o ← get_obj w; Ok (set_obj (Some (set_write false o)) w).

Abbreviation move := (option (outcome (world * list event))).

(** A step that goes on at [p]. *)
Definition at_writer (p : wpc) (w : outcome world) : outcome (world * list event) := w ← w; Ok (set_writer p w, []).
Definition at_reader (i : nat) (r : boxreader) (w : outcome world) : outcome (world * list event) :=
  w ← w; Ok (set_readers (<[i := r]> (readers w)) w, []).

(** ** The writer *)

Definition lupdate (msg : list Z) (w : world) : move :=
  match writer w with
  | WIdle => let '(c, w) := stm_newcopy w msg in Some (Ok (set_writer (WUpdate c) w, []))
  | _ => None
  end.

Definition lcopy (w : world) : move :=
  match writer w with WIdle => Some (Ok (set_writer WGrab w, [])) | _ => None end.

(** [ldeletewriter] calls [stm_release], which starts with an assertion. *)
Definition ldeletewriter (w : world) : move :=
  match writer w with
  | WIdle => Some (o ← get_obj w; _ ← c_assert (bool_decide (is_Some (copy o))); Ok (set_writer WRelease w, []))
  | _ => None
  end.

Definition writer_step (w : world) : move :=
  match writer w with
  | WIdle | WGone => None
  | WUpdate c => at_writer (WSwap c) <$> rwlock_wlock w
  | WSwap c => Some (o ← get_obj w;
      x ← get_copy w c;
      Ok (set_writer (WUnlock (copy o)) (set_obj (Some (set_copy (Some c) o)) w), [EPublish c (c_msg x)]))
  | WUnlock old => Some (at_writer (WDrop old) (rwlock_wunlock w))
  | WDrop old => Some (at_writer WIdle (stm_releasecopy old w))
  | WGrab => at_writer WGrabInc <$> rwlock_rlock w
  | WGrabInc => Some (o ← get_obj w; Ok (set_writer (WGrabUnlock (reference o)) (set_obj (Some (set_reference (reference o + 1) o)) w), []))
  | WGrabUnlock ref => Some (w ← rwlock_runlock w; _ ← c_assert (0 <? ref);
      Ok (set_writer WIdle (set_readers (readers w ++ [Reader RIdle None]) w), []))
  | WRelease => at_writer WRelCopy <$> rwlock_wlock w
  | WRelCopy => Some (o ← get_obj w; at_writer WRelClear (stm_releasecopy (copy o) w))
  | WRelClear => Some (o ← get_obj w; Ok (set_writer WRelDec (set_obj (Some (set_copy None o)) w), []))
  | WRelDec => Some (o ← get_obj w;
      if 0 <? reference o - 1 then Ok (set_writer WRelUnlock (set_obj (Some (set_reference (reference o - 1) o)) w), [])
      else Ok (set_writer WGone (set_obj None w), []))
  | WRelUnlock => Some (at_writer WGone (rwlock_wunlock w))
  end.

(** ** The readers *)

Definition lread (i : nat) (w : world) : move :=
  match readers w !! i with
  | Some (Reader RIdle last) => Some (at_reader i (Reader RLock last) (Ok w))
  | _ => None
  end.

Definition ldeletereader (i : nat) (w : world) : move :=
  match readers w !! i with
  | Some (Reader RIdle last) => Some (at_reader i (Reader RRelease last) (Ok w))
  | _ => None
  end.

Definition reader_step (i : nat) (w : world) : move :=
  match readers w !! i with
  | None => None
  | Some (Reader p last) =>
      match p with
      | RIdle | RGone => None
      | RLock => at_reader i (Reader RGet last) <$> rwlock_rlock w
      | RGet => Some (o ← get_obj w;
          at_reader i (Reader (match copy o with Some _ => RInc (copy o) | None => RUnlock None end) last) (Ok w))
      | RInc None => None
      | RInc (Some c) => Some (x ← get_copy w c;
          let w := set_copies (<[c := Copy (c_reference x + 1) (c_sz x) (c_msg x)]> (copies w)) w in
          _ ← c_assert (0 <? c_reference x);
          at_reader i (Reader (RUnlock (Some c)) last) (Ok w))
      | RUnlock ret => Some (at_reader i (Reader (RCompare ret) last) (rwlock_runlock w))
      | RCompare ret =>
          if bool_decide (ret = last) then
            Some ('(w, _) ← at_reader i (Reader RIdle last) (stm_releasecopy ret w); Ok (w, [ENothing i]))
          else Some (at_reader i (Reader (RDeliver ret) last) (stm_releasecopy last w))
      | RDeliver ret =>
          Some ('(w, _) ← at_reader i (Reader RIdle ret) (Ok w);
                match ret with
                | None => Ok (w, [ENothing i])
                | Some c => x ← get_copy w c; Ok (w, [ERead i c (c_msg x) (c_sz x)])
                end)
      | RRelease => at_reader i (Reader RRelDec last) <$> rwlock_rlock w
      | RRelDec => Some (o ← get_obj w;
          if reference o - 1 =? 0 then
            _ ← c_assert (bool_decide (copy o = None));
            at_reader i (Reader RRelCopy last) (Ok (set_obj None w))
          else at_reader i (Reader RRelUnlock last) (Ok (set_obj (Some (set_reference (reference o - 1) o)) w)))
      | RRelUnlock => Some (at_reader i (Reader RRelCopy last) (rwlock_runlock w))
      | RRelCopy => Some (at_reader i (Reader RGone None) (stm_releasecopy last w))
      end
  end.

(** ** All services *)

Inductive label :=
  | LUpdate (msg : list Z) | LCopy | LDelete | LWriter
  | LRead (i : nat) | LDeleteReader (i : nat) | LReader (i : nat).

Definition step (l : label) (w : world) : move :=
  match l with
  | LUpdate msg => lupdate msg w
  | LCopy => lcopy w
  | LDelete => ldeletewriter w
  | LWriter => writer_step w
  | LRead i => lread i w
  | LDeleteReader i => ldeletereader i w
  | LReader i => reader_step i w
  end.

(** A run: the steps one after the other, with what was seen. *)
Fixpoint run (ls : list label) (w : world) : move :=
  match ls with
  | [] => Some (Ok (w, []))
  | l :: ls =>
      match step l w with
      | None => None
      | Some (Fault f) => Some (Fault f)
      | Some (Ok (w, evs)) =>
          match run ls w with
          | None => None
          | Some r => Some ('(w, evs') ← r; Ok (w, evs ++ evs'))
          end
      end
  end.

End Stm.
