(* ===== verification/StmProofs.v ===== *)
(** * Safety of the shared snapshots

    Whatever the services of the writer and of the readers do, in any interleaving,
    no memory that was freed is touched and nothing is lost, provided that readers
    are released one at a time; what a reader gets was published, and it never gets
    anything older than what it got before.  Two readers that are released at the
    same time may touch the object after it was freed. *)

From S2P Require Import Prelude Stm.
From stdpp Require Import base numbers list gmap option.
From Stdlib Require Import ZArith Lia.
#[local] Open Scope Z_scope.
#[local] Open Scope list_scope.
Import Stm.

(** ** Who holds what *)

Definition opt (o : option nat) : list nat := match o with Some c => [c] | None => [] end.

(** How often a copy is in a list. *)
Definition occ (c : nat) (l : list nat) : Z := sumZ (fun d => if decide (c = d) then 1 else 0) l.

Lemma occ_app c l k : occ c (l ++ k) = occ c l + occ c k.
Proof. apply sumZ_app. Qed.

Lemma occ_cons c d l : occ c (d :: l) = (if decide (c = d) then 1 else 0) + occ c l.
Proof. done. Qed.

Lemma occ_pos c l : 0 <= occ c l.
Proof. apply sumZ_pos. intros d. by destruct (decide _). Qed.

Lemma occ_one c d : occ c [d] = if decide (c = d) then 1 else 0.
Proof. unfold occ, sumZ. cbn. lia. Qed.

(** The writer: whether it is inside the lock, what it counts for in [reference], whether
    it has cleared [copy], and the copies it and the object stand for. *)
Definition w_read (p : wpc) : Z := match p with WGrabInc | WGrabUnlock _ => 1 | _ => 0 end.
Definition w_write (p : wpc) : bool := match p with WSwap _ | WUnlock _ | WRelCopy | WRelClear | WRelDec | WRelUnlock => true | _ => false end.
Definition w_ref (p : wpc) : Z := match p with WRelUnlock | WGone => 0 | WGrabUnlock _ => 2 | _ => 1 end.
Definition w_cleared (p : wpc) : bool := match p with WRelDec | WRelUnlock | WGone => true | _ => false end.
Definition w_holds (cur : nat) (p : wpc) : list nat :=
  match p with
  | WUpdate c | WSwap c => [cur; c]
  | WUnlock old | WDrop old => cur :: opt old
  | WRelClear | WRelDec | WRelUnlock | WGone => []
  | _ => [cur]
  end.

(** The same for a reader. *)
Definition r_read (r : boxreader) : Z := match pc r with RGet | RInc _ | RUnlock _ | RRelDec | RRelUnlock => 1 | _ => 0 end.
Definition r_ref (r : boxreader) : Z := match pc r with RRelUnlock | RRelCopy | RGone => 0 | _ => 1 end.
Definition r_releasing (r : boxreader) : Z := match pc r with RRelease | RRelDec | RRelUnlock => 1 | _ => 0 end.
Definition r_over (r : boxreader) : Prop := pc r = RRelCopy \/ pc r = RGone.
Definition r_ret (r : boxreader) : option nat := match pc r with RUnlock ret | RCompare ret | RDeliver ret => ret | _ => None end.
Definition r_holds (r : boxreader) : list nat :=
  match pc r with
  | RUnlock ret | RCompare ret => opt ret ++ opt (lastcopy r)
  | RDeliver ret => opt ret
  | RGone => []
  | _ => opt (lastcopy r)
  end.

(** A copy is there as long as somebody has it, and counts them. *)
Definition copies_ok (m : gmap nat stm_copy) (f : nat -> Z) : Prop :=
  forall c, match m !! c with Some x => c_reference x = f c /\ 0 < f c | None => f c = 0 end.

Definition holders (cur : nat) (w : world) (c : nat) : Z := occ c (w_holds cur (writer w)) + sumZ (fun r => occ c (r_holds r)) (readers w).

(** What a reader has seen, when [cur] was published last. *)
Definition reader_ok (cur : nat) (cleared : bool) (r : boxreader) : Prop :=
  (forall a, lastcopy r = Some a -> (a <= cur)%nat) /\
  match pc r with
  | RInc ret => ret = Some cur /\ cleared = false
  | RUnlock (Some b) | RCompare (Some b) => (b <= cur)%nat /\ forall a, lastcopy r = Some a -> (a <= b)%nat
  | RDeliver (Some b) => (b <= cur)%nat /\ forall a, lastcopy r = Some a -> (a < b)%nat
  | RUnlock None | RCompare None | RDeliver None => cleared = true
  | _ => True
  end.

(** Every read is of something that was published, and is newer than the reads before
    it. *)
Definition trace_ok (evs : list event) : Prop :=
  forall a b i c msg sz, evs = a ++ ERead i c msg sz :: b ->
    EPublish c msg ∈ a /\ sz = u32 (Z.of_nat (length msg)) /\ forall c' msg' sz', ERead i c' msg' sz' ∈ a -> (c' < c)%nat.

Record inv (evs : list event) (cur : nat) (w : world) : Prop := {
  i_object :
    match obj w with
    | Some o =>
        lock_read o = w_read (writer w) + sumZ r_read (readers w) /\ lock_write o = w_write (writer w) /\
        (w_write (writer w) = true -> sumZ r_read (readers w) = 0) /\
        reference o = w_ref (writer w) + sumZ r_ref (readers w) /\ 1 <= reference o /\
        copy o = (if w_cleared (writer w) then None else Some cur) /\
        (forall r, writer w = WGrabUnlock r -> 0 < r)
    | None => writer w = WGone /\ Forall r_over (readers w)
    end;
  i_serial : sumZ r_releasing (readers w) <= 1;
  i_count : copies_ok (copies w) (holders cur w);
  i_next : (cur < next w)%nat /\ (forall c, is_Some (copies w !! c) -> (c < next w)%nat) /\
    (forall c, writer w = WUpdate c \/ writer w = WSwap c -> (cur < c)%nat) /\
    (forall c, is_Some (copies w !! c) -> (c <= cur)%nat \/ writer w = WUpdate c \/ writer w = WSwap c);
  i_readers : Forall (reader_ok cur (w_cleared (writer w))) (readers w);
  i_content : forall c x, copies w !! c = Some x -> c_sz x = u32 (Z.of_nat (length (c_msg x))) /\ ((c <= cur)%nat -> EPublish c (c_msg x) ∈ evs);
  i_reads : forall i c msg sz, ERead i c msg sz ∈ evs -> exists r, readers w !! i = Some r /\
    (pc r = RGone \/ match lastcopy r with Some a => (c <= a)%nat | None => w_cleared (writer w) = true /\ r_ret r = None end);
  i_trace : trace_ok evs
}.

(** ** Counting *)

Definition keeps (m' m : gmap nat stm_copy) : Prop :=
  forall c x', m' !! c = Some x' -> exists x, m !! c = Some x /\ c_msg x' = c_msg x /\ c_sz x' = c_sz x.

Lemma keeps_refl m : keeps m m.
Proof. intros c x E. by exists x. Qed.

Lemma copies_ext m f g : (forall c, f c = g c) -> copies_ok m f -> copies_ok m g.
Proof. intros H Hm c. specialize (Hm c). by rewrite <- H. Qed.

Lemma copies_get m f c : copies_ok m f -> 0 < f c -> exists x, m !! c = Some x /\ c_reference x = f c.
Proof. intros Hm Hf. specialize (Hm c). destruct (m !! c) as [x|]; [by exists x; destruct Hm|lia]. Qed.

(** [stm_releasecopy] gives one reference back. *)
Lemma release_ok o w f : copies_ok (copies w) f -> (forall c, o = Some c -> 0 < f c) ->
  exists m, stm_releasecopy o w = Ok (set_copies m w) /\ copies_ok m (fun d => f d - occ d (opt o)) /\ keeps m (copies w).
Proof.
  intros Hm Ho. destruct o as [c|]; cbn [stm_releasecopy opt].
  - destruct (copies_get _ _ c Hm (Ho c eq_refl)) as (x & E & Er). unfold get_copy. rewrite E, bind_ret.
    destruct (Z.eqb_spec (c_reference x - 1) 0) as [E1|E1]; eexists; (split; [done|]); split.
    + intros d. cbv beta. rewrite occ_one. destruct (decide (d = c)) as [->|Hne]; [rewrite lookup_delete_eq; lia|]. rewrite lookup_delete_ne by done. specialize (Hm d). destruct (copies w !! d); [by rewrite Z.sub_0_r|lia].
    + intros d x' E'. apply lookup_delete_Some in E' as [_ E']. by exists x'.
    + intros d. cbv beta. rewrite occ_one. specialize (Ho c eq_refl). destruct (decide (d = c)) as [->|Hne]; [rewrite lookup_insert_eq; cbn; lia|].
      rewrite lookup_insert_ne by done. specialize (Hm d). destruct (copies w !! d); [by rewrite Z.sub_0_r|lia].
    + intros d x' E'. destruct (decide (d = c)) as [->|Hne]; [rewrite lookup_insert_eq in E'; injection E' as <-; by exists x|].
      rewrite lookup_insert_ne in E' by done. by exists x'.
  - exists (copies w). split; [by destruct w|]. split; [|apply keeps_refl]. eapply copies_ext; [|exact Hm]. intros d. cbn. lia.
Qed.

(** [ATOM_FINC] of a copy that is there takes one. *)
Lemma increment_ok m f c x : copies_ok m f -> m !! c = Some x ->
  copies_ok (<[c := Copy (c_reference x + 1) (c_sz x) (c_msg x)]> m) (fun d => f d + occ d [c]) /\ keeps (<[c := Copy (c_reference x + 1) (c_sz x) (c_msg x)]> m) m.
Proof.
  intros Hm E. split.
  - intros d. cbv beta. rewrite occ_one. pose proof (Hm c) as Hc. rewrite E in Hc. destruct (decide (d = c)) as [->|Hne]; [rewrite lookup_insert_eq; cbn; lia|].
    rewrite lookup_insert_ne by done. specialize (Hm d). destruct (m !! d); [by rewrite Z.add_0_r|lia].
  - intros d x' E'. destruct (decide (d = c)) as [->|Hne]; [rewrite lookup_insert_eq in E'; injection E' as <-; by exists x|].
    rewrite lookup_insert_ne in E' by done. by exists x'.
Qed.

(** A new copy has one. *)
Lemma new_ok m f c sz msg : copies_ok m f -> m !! c = None -> copies_ok (<[c := Copy 1 sz msg]> m) (fun d => f d + occ d [c]).
Proof.
  intros Hm E d. cbv beta. rewrite occ_one. pose proof (Hm c) as Hc. rewrite E in Hc. destruct (decide (d = c)) as [->|Hne]; [rewrite lookup_insert_eq; cbn; lia|].
  rewrite lookup_insert_ne by done. specialize (Hm d). destruct (m !! d); [by rewrite Z.add_0_r|lia].
Qed.

(** ** Traces *)

Definition quiet (evs : list event) : Prop := forall i c msg sz, ERead i c msg sz ∉ evs.

Lemma quiet_nil : quiet [].
Proof. intros i c msg sz H. by apply elem_of_nil in H. Qed.

Lemma quiet_one e : (match e with ERead _ _ _ _ => False | _ => True end) -> quiet [e].
Proof. intros He i c msg sz H. apply list_elem_of_singleton in H. by subst e. Qed.

Lemma trace_app evs evs' : trace_ok evs ->
  (forall a b i c msg sz, evs' = a ++ ERead i c msg sz :: b -> EPublish c msg ∈ evs ++ a /\ sz = u32 (Z.of_nat (length msg)) /\
     forall c' msg' sz', ERead i c' msg' sz' ∈ evs ++ a -> (c' < c)%nat) -> trace_ok (evs ++ evs').
Proof.
  intros Ht H a b i c msg sz E. symmetry in E. apply app_eq_inv in E as [(k & Ea & Eb)|(k & Ea & Eb)].
  - subst a. by eapply H.
  - destruct k as [|e k]; [rewrite app_nil_r in Ea; subst a; destruct (H [] b i c msg sz) as (H1 & H2 & H3); [by rewrite Eb|rewrite app_nil_r in *; done]|].
    injection Eb as <- ->. by eapply Ht.
Qed.

Lemma trace_quiet evs evs' : trace_ok evs -> quiet evs' -> trace_ok (evs ++ evs').
Proof.
  intros Ht Hq. apply trace_app; [done|]. intros a b i c msg sz ->. exfalso. apply (Hq i c msg sz). apply elem_of_app. right. by left.
Qed.

(** What a reader has to show for the copies it read. *)
Definition seen (cleared : bool) (c : nat) (r : boxreader) : Prop :=
  pc r = RGone \/ match lastcopy r with Some a => (c <= a)%nat | None => cleared = true /\ r_ret r = None end.

(** ** One reader moves *)

Lemma r_read_pos r : 0 <= r_read r.
Proof. unfold r_read. by destruct (pc r). Qed.
Lemma r_ref_pos r : 0 <= r_ref r.
Proof. unfold r_ref. by destruct (pc r). Qed.
Lemma r_releasing_pos r : 0 <= r_releasing r.
Proof. unfold r_releasing. by destruct (pc r). Qed.

(** How the object may change with the reader. *)
Definition object_moves (w : world) (i : nat) (r r' : boxreader) (o' : option stm_object) : Prop :=
  match obj w, o' with
  | Some o, Some o' => lock_read o' = lock_read o - r_read r + r_read r' /\ lock_write o' = lock_write o /\
      reference o' = reference o - r_ref r + r_ref r' /\ 1 <= reference o' /\ copy o' = copy o /\ (lock_write o = true -> r_read r' <= r_read r)
  | None, None => r_over r'
  | Some _, None => writer w = WGone /\ r_over r' /\ forall j x, readers w !! j = Some x -> j <> i -> r_over x
  | None, Some _ => False
  end.

Lemma reader_moves evs cur w i r r' o' m' evs' : inv evs cur w -> readers w !! i = Some r -> object_moves w i r r' o' ->
  sumZ r_releasing (readers w) - r_releasing r + r_releasing r' <= 1 ->
  copies_ok m' (fun c => holders cur w c - occ c (r_holds r) + occ c (r_holds r')) -> keeps m' (copies w) ->
  reader_ok cur (w_cleared (writer w)) r' -> (forall c, seen (w_cleared (writer w)) c r -> seen (w_cleared (writer w)) c r') -> quiet evs' ->
  inv (evs ++ evs') cur (World o' m' (next w) (writer w) (<[i := r']> (readers w))).
Proof.
  intros Hi Er Ho Hs Hc Hk Hr Hseen Hq. pose proof (lookup_lt_Some _ _ _ Er) as Hlt. split; cbn [obj copies next writer readers].
  - pose proof (i_object _ _ _ Hi) as Hobj. unfold object_moves in Ho. rewrite !(sumZ_insert _ _ _ r) by done. pose proof (r_read_pos r'). destruct (obj w) as [o|], o' as [o'|]; [| |done|].
    + destruct Hobj as (H1 & H2 & H3 & H4 & H5 & H6 & H7), Ho as (G1 & G2 & G3 & G4 & G5 & G6). split; [lia|]. split; [congruence|]. split; [|split; [lia|split; [lia|split; [congruence|done]]]].
      intros Hw. specialize (H3 Hw). rewrite H2 in G6. specialize (G6 Hw). pose proof (sumZ_ge _ _ _ _ r_read_pos Er). lia.
    + destruct Ho as (Hw & Ho & Hall). split; [done|]. apply Forall_lookup. intros j x Ej. destruct (decide (j = i)) as [->|Hne].
      * rewrite list_lookup_insert_eq in Ej by done. by injection Ej as <-.
      * rewrite list_lookup_insert_ne in Ej by done. by eapply Hall.
    + destruct Hobj as [Hw Hall]. split; [done|]. by apply Forall_insert.
  - by rewrite (sumZ_insert _ _ _ r).
  - eapply copies_ext; [|exact Hc]. intros c. unfold holders. cbn [writer readers]. rewrite (sumZ_insert _ _ _ r) by done. lia.
  - destruct (i_next _ _ _ Hi) as (H1 & H2 & H3 & H4). assert (Hin : forall c, is_Some (m' !! c) -> is_Some (copies w !! c)) by (intros c [x Ex]; destruct (Hk c x Ex) as (x0 & E0 & _); by exists x0).
    split; [done|]. split; [intros c Hx; by apply H2, Hin|]. split; [done|]. intros c Hx. by apply H4, Hin.
  - apply Forall_insert; [apply (i_readers _ _ _ Hi)|done].
  - intros c x Ex. destruct (Hk c x Ex) as (x0 & E0 & Em & Esz). destruct (i_content _ _ _ Hi c x0 E0) as [H1 H2]. rewrite Em, Esz. split; [done|].
    intros Hle. apply elem_of_app. left. by apply H2.
  - intros j c msg sz Hin. apply elem_of_app in Hin as [Hin|Hin]; [|by destruct (Hq j c msg sz)]. destruct (i_reads _ _ _ Hi j c msg sz Hin) as (x & Ej & Hx).
    destruct (decide (j = i)) as [->|Hne].
    + exists r'. rewrite list_lookup_insert_eq by done. split; [done|]. apply Hseen. rewrite Er in Ej. by injection Ej as <-.
    + exists x. by rewrite list_lookup_insert_ne.
  - apply trace_quiet; [apply (i_trace _ _ _ Hi)|done].
Qed.

Lemma object_live evs cur w i r : inv evs cur w -> readers w !! i = Some r -> ~ r_over r -> exists o, obj w = Some o.
Proof.
  intros Hi Er Hn. pose proof (i_object _ _ _ Hi) as Ho. destruct (obj w) as [o|]; [by exists o|]. destruct Ho as [_ Ho]. destruct Hn. exact (Forall_lookup_1 _ _ _ _ Ho Er).
Qed.

Lemma reader_get evs cur w i r : inv evs cur w -> readers w !! i = Some r -> reader_ok cur (w_cleared (writer w)) r.
Proof. intros Hi Er. exact (Forall_lookup_1 _ _ _ _ (i_readers _ _ _ Hi) Er). Qed.

(** A copy that a reader has is there. *)
Lemma holds_there evs cur w i r c : inv evs cur w -> readers w !! i = Some r -> 0 < occ c (r_holds r) -> 0 < holders cur w c.
Proof.
  intros Hi Er Hc. unfold holders. pose proof (occ_pos c (w_holds cur (writer w))).
  pose proof (sumZ_ge (fun r => occ c (r_holds r)) _ _ _ (fun r => occ_pos c (r_holds r)) Er). cbv beta in *. lia.
Qed.

Lemma occ_opt_self c : 0 < occ c (opt (Some c)).
Proof. cbn [opt]. rewrite occ_one, decide_True by done. lia. Qed.

(** The conditions of [reader_moves] that only look at where the reader is. *)
Ltac same_copies Hi := eapply copies_ext; [|apply (i_count _ _ _ Hi)]; intros ?; cbv beta; unfold r_holds; cbn [pc lastcopy opt app]; lia.
Ltac same_serial Hi := pose proof (i_serial _ _ _ Hi); cbn [r_releasing pc]; lia.
Ltac not_over := unfold r_over; cbn [pc]; intros [|]; discriminate.
Ltac moves o Eo := unfold object_moves; rewrite Eo; unfold r_read, r_ref, r_over; cbn [pc obj set_obj]; cbn [set_read set_reference lock_read lock_write reference copy].
Ltac as_seen := let c := fresh "c" in let G := fresh "G" in intros c [?|G]; [discriminate|right; cbn [lastcopy r_ret pc] in *; try done].

Lemma reader_lock evs cur w i p p' last o : inv evs cur w -> readers w !! i = Some (Reader p last) -> obj w = Some o -> lock_write o = false ->
  (p = RLock /\ p' = RGet) \/ (p = RRelease /\ p' = RRelDec) ->
  inv (evs ++ []) cur (World (Some (set_read (lock_read o + 1) o)) (copies w) (next w) (writer w) (<[i := Reader p' last]> (readers w))).
Proof.
  intros Hi Er Eo Hw Hp. pose proof (reader_get _ _ _ _ _ Hi Er) as [Hr _]. pose proof (i_object _ _ _ Hi) as Hobj. rewrite Eo in Hobj. destruct Hobj as (_ & _ & _ & _ & H1 & _).
  apply (reader_moves evs cur w i (Reader p last)); try done; [| | |apply keeps_refl| | |apply quiet_nil].
  - destruct Hp as [[-> ->]|[-> ->]]; moves o Eo; repeat split; try (intros; lia); congruence.
  - destruct Hp as [[-> ->]|[-> ->]]; same_serial Hi.
  - destruct Hp as [[-> ->]|[-> ->]]; same_copies Hi.
  - split; [done|]. by destruct Hp as [[-> ->]|[-> ->]].
  - destruct Hp as [[-> ->]|[-> ->]]; as_seen.
Qed.

Lemma reader_unlock evs cur w i p p' last o : inv evs cur w -> readers w !! i = Some (Reader p last) -> obj w = Some o ->
  (exists ret, p = RUnlock ret /\ p' = RCompare ret) \/ (p = RRelUnlock /\ p' = RRelCopy) ->
  inv (evs ++ []) cur (World (Some (set_read (lock_read o - 1) o)) (copies w) (next w) (writer w) (<[i := Reader p' last]> (readers w))).
Proof.
  intros Hi Er Eo Hp. pose proof (reader_get _ _ _ _ _ Hi Er) as Hr. pose proof (i_object _ _ _ Hi) as Hobj. rewrite Eo in Hobj. destruct Hobj as (_ & _ & _ & _ & H1 & _).
  apply (reader_moves evs cur w i (Reader p last)); try done; [| | |apply keeps_refl| | |apply quiet_nil].
  - destruct Hp as [(ret & -> & ->)|[-> ->]]; moves o Eo; repeat split; try (intros; lia); done.
  - destruct Hp as [(ret & -> & ->)|[-> ->]]; same_serial Hi.
  - destruct Hp as [(ret & -> & ->)|[-> ->]]; same_copies Hi.
  - destruct Hp as [(ret & -> & ->)|[-> ->]]; [exact Hr|split; [apply Hr|done]].
  - destruct Hp as [(ret & -> & ->)|[-> ->]]; as_seen.
Qed.

(** [ret = obj->copy] *)
Lemma reader_copy evs cur w i last o : inv evs cur w -> readers w !! i = Some (Reader RGet last) -> obj w = Some o ->
  inv (evs ++ []) cur (World (obj w) (copies w) (next w) (writer w)
    (<[i := Reader (match copy o with Some _ => RInc (copy o) | None => RUnlock None end) last]> (readers w))).
Proof.
  intros Hi Er Eo. pose proof (reader_get _ _ _ _ _ Hi Er) as [Hr _]. pose proof (i_object _ _ _ Hi) as Hobj. rewrite Eo in Hobj. destruct Hobj as (_ & _ & _ & _ & H1 & H2 & _).
  apply (reader_moves evs cur w i (Reader RGet last)); try done; [| | |apply keeps_refl| | |apply quiet_nil]; destruct (copy o) as [c|] eqn:Ec.
  1, 2: moves o Eo; repeat split; try (intros; lia); congruence.
  1, 2: same_serial Hi.
  1, 2: same_copies Hi.
  - split; [done|]. cbn [pc]. destruct (w_cleared (writer w)); [done|]. by injection H2 as ->.
  - split; [done|]. cbn [pc]. by destruct (w_cleared (writer w)).
  - as_seen.
  - as_seen.
Qed.

(** While a reader is inside the lock, the newest copy is there. *)
Lemma current_there evs cur w i r o : inv evs cur w -> readers w !! i = Some r -> obj w = Some o -> r_read r = 1 -> w_cleared (writer w) = false ->
  exists x, copies w !! cur = Some x /\ 0 < c_reference x.
Proof.
  intros Hi Er Eo Hr Hcl. pose proof (i_object _ _ _ Hi) as Hobj. rewrite Eo in Hobj. destruct Hobj as (_ & _ & H3 & _). pose proof (sumZ_ge _ _ _ _ r_read_pos Er).
  assert (Hw : w_write (writer w) = false) by (destruct (w_write (writer w)); [specialize (H3 eq_refl); lia|done]).
  assert (Hpos : 0 < holders cur w cur).
  { unfold holders. pose proof (sumZ_pos (fun r => occ cur (r_holds r)) (readers w) (fun r => occ_pos cur (r_holds r))).
    assert (0 < occ cur (w_holds cur (writer w))); [|lia]. revert Hw Hcl. destruct (writer w); cbn [w_write w_cleared w_holds]; try discriminate; intros _ _;
      rewrite occ_cons, decide_True by done; match goal with |- context [occ cur ?l] => pose proof (occ_pos cur l); lia end. }
  destruct (copies_get _ _ cur (i_count _ _ _ Hi) Hpos) as (x & Ex & Erx). exists x. split; [done|]. by rewrite Erx.
Qed.

(** [ATOM_FINC(&ret->reference)] *)
Lemma reader_increment evs cur w i c last : inv evs cur w -> readers w !! i = Some (Reader (RInc (Some c)) last) ->
  exists x, copies w !! c = Some x /\ 0 < c_reference x /\
    inv (evs ++ []) cur (World (obj w) (<[c := Copy (c_reference x + 1) (c_sz x) (c_msg x)]> (copies w)) (next w) (writer w) (<[i := Reader (RUnlock (Some c)) last]> (readers w))).
Proof.
  intros Hi Er. destruct (object_live _ _ _ _ _ Hi Er) as [o Eo]; [not_over|]. pose proof (reader_get _ _ _ _ _ Hi Er) as [Hr [Hc Hcl]]. injection Hc as ->.
  destruct (current_there _ _ _ _ _ _ Hi Er Eo eq_refl Hcl) as (x & Ex & Hx). exists x. split; [done|]. split; [done|].
  pose proof (i_object _ _ _ Hi) as Hobj. rewrite Eo in Hobj. destruct Hobj as (_ & _ & _ & _ & H1 & _). destruct (increment_ok _ _ cur x (i_count _ _ _ Hi) Ex) as [Hcnt Hk].
  apply (reader_moves evs cur w i (Reader (RInc (Some cur)) last)); [done|done| | | |done| | |apply quiet_nil].
  - moves o Eo. repeat split; try (intros; lia); done.
  - same_serial Hi.
  - eapply copies_ext; [|exact Hcnt]. intros d. cbv beta. unfold r_holds. cbn [pc lastcopy opt]. rewrite occ_app. lia.
  - split; [done|]. cbn [pc lastcopy]. split; [lia|done].
  - intros d [?|G]; [discriminate|]. right. cbn [lastcopy] in *. destruct last; [done|]. destruct G. congruence.
Qed.

(** [stm_releasecopy] by a reader, which goes on as [r']. *)
Lemma reader_drop evs cur w i r r' o evs' : inv evs cur w -> readers w !! i = Some r -> r_read r = r_read r' -> r_ref r = r_ref r' -> r_releasing r = r_releasing r' ->
  (r_over r -> r_over r') -> (forall d, occ d (r_holds r) = occ d (opt o) + occ d (r_holds r')) -> reader_ok cur (w_cleared (writer w)) r' ->
  (forall c, seen (w_cleared (writer w)) c r -> seen (w_cleared (writer w)) c r') -> quiet evs' ->
  exists m, stm_releasecopy o w = Ok (set_copies m w) /\ inv (evs ++ evs') cur (World (obj w) m (next w) (writer w) (<[i := r']> (readers w))).
Proof.
  intros Hi Er E1 E2 E3 Hov Hh Hr Hs Hq. destruct (release_ok o w (holders cur w) (i_count _ _ _ Hi)) as (m & E & Hm & Hk).
  { intros c ->. apply (holds_there _ _ _ _ _ c Hi Er). rewrite Hh. pose proof (occ_opt_self c). pose proof (occ_pos c (r_holds r')). lia. }
  exists m. split; [done|]. apply (reader_moves evs cur w i r); try done.
  - pose proof (i_object _ _ _ Hi) as Hobj. unfold object_moves. destruct (obj w) as [ob|]; [|apply Hov; exact (Forall_lookup_1 _ _ _ _ (proj2 Hobj) Er)].
    destruct Hobj as (_ & _ & _ & _ & H1 & _). repeat split; try (intros; lia); done.
  - pose proof (i_serial _ _ _ Hi). lia.
  - eapply copies_ext; [|exact Hm]. intros d. cbv beta. rewrite Hh. lia.
Qed.

(** The reader is called with what it got. *)
Lemma add_read evs cur w i c x : inv evs cur w -> readers w !! i = Some (Reader RIdle (Some c)) -> copies w !! c = Some x ->
  (forall c' msg sz, ERead i c' msg sz ∈ evs -> (c' < c)%nat) -> inv (evs ++ [ERead i c (c_msg x) (c_sz x)]) cur w.
Proof.
  intros Hi Er Ex Hlt. pose proof (reader_get _ _ _ _ _ Hi Er) as [Hr _]. specialize (Hr c eq_refl). destruct (i_content _ _ _ Hi c x Ex) as [Hsz Hpub]. destruct Hi as [H1 H2 H3 H4 H5 H6 H7 H8].
  split; try done.
  - intros d y Ey. destruct (H6 d y Ey) as [G1 G2]. split; [done|]. intros Hd. apply elem_of_app. left. by apply G2.
  - intros j d msg sz Hin. apply elem_of_app in Hin as [Hin|Hin]; [by eapply H7|]. apply list_elem_of_singleton in Hin. injection Hin as -> -> _ _.
    eexists. split; [exact Er|]. right. cbn. done.
  - apply trace_app; [done|]. intros a b j d msg sz E. destruct a as [|e a]; [|injection E as _ E; destruct a; discriminate]. injection E as <- <- <- <- _. rewrite app_nil_r.
    split; [by apply Hpub|]. split; [done|exact Hlt].
Qed.

(** [ATOM_DEC(&obj->reference)]: the last reader frees the object. *)
Lemma reader_release evs cur w i last o : inv evs cur w -> readers w !! i = Some (Reader RRelDec last) -> obj w = Some o ->
  exists w', (if reference o - 1 =? 0 then
      _ ← c_assert (bool_decide (copy o = None));
      at_reader i (Reader RRelCopy last) (Ok (set_obj None w))
    else at_reader i (Reader RRelUnlock last) (Ok (set_obj (Some (set_reference (reference o - 1) o)) w))) = Ok (w', []) /\ inv (evs ++ []) cur w'.
Proof.
  intros Hi Er Eo. pose proof (reader_get _ _ _ _ _ Hi Er) as [Hr _]. pose proof (i_object _ _ _ Hi) as Hobj. rewrite Eo in Hobj. destruct Hobj as (_ & _ & H3 & H4 & H5 & H6 & _).
  pose proof (sumZ_ge _ _ _ _ r_ref_pos Er) as Hge. cbn [r_ref pc] in Hge. destruct (Z.eqb_spec (reference o - 1) 0) as [E0|E0].
  - assert (Hw0 : w_ref (writer w) = 0) by (assert (0 <= w_ref (writer w)) by (by destruct (writer w)); lia).
    assert (Hg : writer w = WGone).
    { destruct (writer w) eqn:Ew; try discriminate; [|done]. specialize (H3 eq_refl). pose proof (sumZ_ge _ _ _ _ r_read_pos Er) as Hr1. cbn [r_read pc] in Hr1. lia. }
    rewrite Hg in H6. cbn in H6. rewrite H6, bool_decide_true by done. cbn [c_assert]. rewrite bind_ret. eexists. split; [reflexivity|].
    apply (reader_moves evs cur w i (Reader RRelDec last)); [done|done| | | |apply keeps_refl| | |apply quiet_nil].
    + unfold object_moves. rewrite Eo. split; [done|]. split; [by left|]. intros j x Ej Hne. rewrite Hw0 in H4.
      pose proof (sumZ_rest r_ref _ _ _ _ _ r_ref_pos Er ltac:(cbn [r_ref pc]; lia) Ej Hne) as Hx.
      pose proof (sumZ_rest r_releasing _ _ _ _ _ r_releasing_pos Er ltac:(pose proof (i_serial _ _ _ Hi); cbn [r_releasing pc]; lia) Ej Hne) as Hx2.
      unfold r_over. unfold r_ref in Hx. unfold r_releasing in Hx2. destruct (pc x); try discriminate; auto.
    + same_serial Hi.
    + same_copies Hi.
    + by split.
    + as_seen.
  - eexists. split; [reflexivity|]. apply (reader_moves evs cur w i (Reader RRelDec last)); [done|done| | | |apply keeps_refl| | |apply quiet_nil].
    + moves o Eo. repeat split; try (intros; lia); done.
    + same_serial Hi.
    + same_copies Hi.
    + by split.
    + as_seen.
Qed.

Lemma reader_progress evs cur w i res : inv evs cur w -> reader_step i w = Some res -> exists w' evs', res = Ok (w', evs') /\ inv (evs ++ evs') cur w'.
Proof.
  intros Hi E. unfold reader_step in E. destruct (readers w !! i) as [[p last]|] eqn:Er; [|done].
  assert (Hlive : ~ r_over (Reader p last) -> exists o, obj w = Some o) by by apply (object_live _ _ _ _ _ Hi Er). pose proof (reader_get _ _ _ _ _ Hi Er) as [Hr Hp]. cbn [pc lastcopy] in Hr, Hp.
  destruct p as [| | |[c|]|ret|ret|ret| | | | |]; try discriminate.
  - destruct Hlive as [o Eo]; [not_over|]. unfold rwlock_rlock, get_obj in E. rewrite Eo in E. destruct (lock_write o) eqn:Hw; [done|]. injection E as <-. eexists _, []. split; [reflexivity|].
    by apply (reader_lock evs cur w i RLock RGet last o); [| | | |left].
  - destruct Hlive as [o Eo]; [not_over|]. unfold get_obj in E. rewrite Eo in E. injection E as <-. eexists _, []. split; [reflexivity|]. by apply (reader_copy evs cur w i last o).
  - destruct (reader_increment _ _ _ _ _ _ Hi Er) as (x & Ex & Hx & Hinv). injection E as <-. unfold get_copy. rewrite Ex, bind_ret. cbv zeta. destruct (Z.ltb_spec 0 (c_reference x)); [|lia].
    cbn [c_assert]. rewrite bind_ret. eexists _, []. split; [reflexivity|]. exact Hinv.
  - destruct Hlive as [o Eo]; [not_over|]. injection E as <-. unfold rwlock_runlock, get_obj. rewrite Eo. eexists _, []. split; [reflexivity|].
    apply (reader_unlock evs cur w i (RUnlock ret) (RCompare ret) last o); try done. left. by exists ret.
  - case_bool_decide as Eq.
    + injection E as <-. edestruct (reader_drop evs cur w i (Reader (RCompare ret) last) (Reader RIdle last) ret [ENothing i]) as (m & -> & Hinv); try done.
      * intros []; discriminate.
      * intros d. unfold r_holds. cbn [pc lastcopy]. apply occ_app.
      * as_seen. destruct last; [done|]. by destruct G.
      * by apply quiet_one.
      * eexists _, _. split; [reflexivity|]. exact Hinv.
    + injection E as <-. edestruct (reader_drop evs cur w i (Reader (RCompare ret) last) (Reader (RDeliver ret) last) last []) as (m & -> & Hinv); try done.
      * intros []; discriminate.
      * intros d. unfold r_holds. cbn [pc lastcopy]. rewrite occ_app. lia.
      * split; [done|]. cbn [pc lastcopy]. destruct ret as [b|]; [|done]. destruct Hp as [H1 H2]. split; [done|]. intros a Ha. specialize (H2 a Ha). assert (a <> b) by congruence. lia.
      * as_seen.
      * apply quiet_nil.
      * eexists _, []. split; [reflexivity|]. exact Hinv.
  - injection E as <-. set (w1 := set_readers (<[i := Reader RIdle ret]> (readers w)) w).
    assert (Hinv : inv (evs ++ []) cur w1).
    { destruct (reader_drop evs cur w i (Reader (RDeliver ret) last) (Reader RIdle ret) None []) as (m & Em & Hinv); try done.
      - intros []; discriminate.
      - split; [|done]. cbn [lastcopy]. intros a ->. by destruct Hp.
      - intros c [?|G]; [discriminate|]. right. cbn [lastcopy r_ret pc] in *. destruct ret as [b|]; [|by destruct last].
        destruct last as [a|]; [|by destruct G]. destruct Hp as [_ Hp]. specialize (Hp a eq_refl). lia.
      - apply quiet_nil.
      - cbn in Em. injection Em as Em. assert (m = copies w) as -> by (by destruct w; injection Em). exact Hinv. }
    destruct ret as [c|].
    + assert (Hpos : 0 < holders cur w c) by (apply (holds_there _ _ _ _ _ c Hi Er); apply occ_opt_self). destruct (copies_get _ _ c (i_count _ _ _ Hi) Hpos) as (x & Ex & _).
      unfold get_copy. change (copies w1) with (copies w). rewrite Ex, bind_ret. eexists _, _. split; [reflexivity|]. rewrite app_nil_r in Hinv. apply add_read; try done.
      * apply list_lookup_insert_eq. by eapply lookup_lt_Some.
      * intros c' msg sz Hin. destruct (i_reads _ _ _ Hi i c' msg sz Hin) as (r & Er' & Hs). rewrite Er in Er'. injection Er' as <-. destruct Hs as [|Hs]; [discriminate|]. cbn [lastcopy r_ret pc] in Hs.
        destruct last as [a|]; [|by destruct Hs]. destruct Hp as [_ Hp]. specialize (Hp a eq_refl). lia.
    + eexists _, _. split; [reflexivity|]. rewrite app_nil_r in Hinv. destruct Hinv as [H1 H2 H3 H4 H5 H6 H7 H8]. split; try done.
      * intros d y Ey. destruct (H6 d y Ey) as [G1 G2]. split; [done|]. intros Hd. apply elem_of_app. left. by apply G2.
      * intros j d msg sz Hin. apply elem_of_app in Hin as [Hin|Hin]; [by eapply H7|]. by apply list_elem_of_singleton in Hin.
      * apply trace_quiet; [done|]. by apply quiet_one.
  - destruct Hlive as [o Eo]; [not_over|]. unfold rwlock_rlock, get_obj in E. rewrite Eo in E. destruct (lock_write o) eqn:Hw; [done|]. injection E as <-. eexists _, []. split; [reflexivity|].
    by apply (reader_lock evs cur w i RRelease RRelDec last o); [| | | |right].
  - destruct Hlive as [o Eo]; [not_over|]. injection E as <-. unfold get_obj. rewrite Eo, bind_ret.
    destruct (reader_release _ _ _ _ _ _ Hi Er Eo) as (w' & Ew & Hinv). exists w', []. split; [exact Ew|exact Hinv].
  - destruct Hlive as [o Eo]; [not_over|]. injection E as <-. unfold rwlock_runlock, get_obj. rewrite Eo. eexists _, []. split; [reflexivity|].
    apply (reader_unlock evs cur w i RRelUnlock RRelCopy last o); try done. by right.
  - injection E as <-. edestruct (reader_drop evs cur w i (Reader RRelCopy last) (Reader RGone None) last []) as (m & -> & Hinv); try done.
    + by right.
    + intros d. unfold r_holds. cbn [pc lastcopy]. unfold occ. cbn. lia.
    + intros c _. by left.
    + apply quiet_nil.
    + eexists _, []. split; [reflexivity|]. exact Hinv.
Qed.

(** ** The writer moves *)

Lemma object_of_writer evs cur w : inv evs cur w -> writer w <> WGone -> exists o, obj w = Some o.
Proof. intros Hi Hn. pose proof (i_object _ _ _ Hi) as Ho. destruct (obj w) as [o|]; [by exists o|]. by destruct Ho. Qed.

(** How the object may change with the writer. *)
Definition object_turns (cur : nat) (w : world) (p' : wpc) (o' : option stm_object) : Prop :=
  match obj w, o' with
  | Some o, Some o' => lock_read o' = lock_read o - w_read (writer w) + w_read p' /\ lock_write o' = w_write p' /\
      (w_write p' = true -> w_write (writer w) = true \/ lock_read o = w_read (writer w)) /\
      reference o' = reference o - w_ref (writer w) + w_ref p' /\ 1 <= reference o' /\ copy o' = (if w_cleared p' then None else Some cur) /\
      (forall r, p' = WGrabUnlock r -> 0 < r)
  | Some _, None => p' = WGone /\ Forall r_over (readers w)
  | None, _ => False
  end.

Lemma reader_ok_cleared cur r : reader_ok cur false r -> r_read r = 0 -> reader_ok cur true r.
Proof.
  intros [H1 H2] Hr. split; [done|]. unfold r_read in Hr. destruct (pc r) as [| | | |[b|]|[b|]|[b|]| | | | |]; done.
Qed.

Lemma no_readers evs cur w o : inv evs cur w -> obj w = Some o -> w_write (writer w) = true -> Forall (fun r => r_read r = 0) (readers w).
Proof.
  intros Hi Eo Hw. pose proof (i_object _ _ _ Hi) as Ho. rewrite Eo in Ho. destruct Ho as (_ & _ & H3 & _). specialize (H3 Hw).
  apply Forall_lookup. intros j x Ej. pose proof (sumZ_ge _ _ _ _ r_read_pos Ej). pose proof (r_read_pos x). lia.
Qed.

Lemma writer_moves evs cur w p' o' m' evs' : inv evs cur w -> object_turns cur w p' o' ->
  copies_ok m' (fun c => holders cur w c - occ c (w_holds cur (writer w)) + occ c (w_holds cur p')) -> keeps m' (copies w) ->
  (forall c, p' = WUpdate c \/ p' = WSwap c <-> writer w = WUpdate c \/ writer w = WSwap c) ->
  w_cleared p' = w_cleared (writer w) \/ (w_cleared (writer w) = false /\ w_cleared p' = true /\ w_write (writer w) = true) -> quiet evs' ->
  inv (evs ++ evs') cur (World o' m' (next w) p' (readers w)).
Proof.
  intros Hi Ho Hc Hk Hn Hcl Hq. split; cbn [obj copies next writer readers].
  - pose proof (i_object _ _ _ Hi) as Hobj. unfold object_turns in Ho. destruct (obj w) as [o|]; [|done]. destruct o' as [o'|]; [|done].
    destruct Hobj as (H1 & H2 & H3 & H4 & H5 & H6 & H7), Ho as (G1 & G2 & G3 & G4 & G5 & G6 & G7). split; [lia|]. split; [done|]. split; [|split; [lia|by split]].
    intros Hw. destruct (G3 Hw) as [Hw'|Hl]; [by apply H3|]. lia.
  - apply (i_serial _ _ _ Hi).
  - eapply copies_ext; [|exact Hc]. intros c. unfold holders. cbn [writer readers]. lia.
  - destruct (i_next _ _ _ Hi) as (H1 & H2 & H3 & H4). assert (Hin : forall c, is_Some (m' !! c) -> is_Some (copies w !! c)) by (intros c [x Ex]; destruct (Hk c x Ex) as (x0 & E0 & _); by exists x0).
    split; [done|]. split; [intros c Hx; by apply H2, Hin|]. split; [intros c Hx; by apply H3, Hn|]. intros c Hx. destruct (H4 c (Hin c Hx)) as [|Hp]; [by left|right; by apply Hn].
  - pose proof (i_readers _ _ _ Hi) as Hr. destruct Hcl as [->|(E1 & E2 & E3)]; [done|]. rewrite E1 in Hr. rewrite E2. pose proof (i_object _ _ _ Hi) as Hobj. unfold object_turns in Ho.
    destruct (obj w) as [o|] eqn:Eo; [|done]. pose proof (no_readers _ _ _ _ Hi Eo E3) as Hz. apply Forall_lookup. intros j x Ej.
    apply reader_ok_cleared; [exact (Forall_lookup_1 _ _ _ _ Hr Ej)|exact (Forall_lookup_1 _ _ _ _ Hz Ej)].
  - intros c x Ex. destruct (Hk c x Ex) as (x0 & E0 & Em & Esz). destruct (i_content _ _ _ Hi c x0 E0) as [H1 H2]. rewrite Em, Esz. split; [done|].
    intros Hle. apply elem_of_app. left. by apply H2.
  - intros j c msg sz Hin. apply elem_of_app in Hin as [Hin|Hin]; [|by destruct (Hq j c msg sz)]. destruct (i_reads _ _ _ Hi j c msg sz Hin) as (x & Ej & Hx). exists x. split; [done|].
    destruct Hx as [Hx|Hx]; [by left|]. right. destruct (lastcopy x); [done|]. destruct Hx as [Hx1 Hx2]. split; [|done]. destruct Hcl as [->|(E1 & E2 & E3)]; done.
  - apply trace_quiet; [apply (i_trace _ _ _ Hi)|done].
Qed.

Ltac turns Eo Ew := unfold object_turns; rewrite Eo, Ew; cbn [obj set_obj set_copies]; cbn [w_read w_write w_ref w_cleared set_read set_write set_reference set_copy lock_read lock_write reference copy].
Ltac w_copies Hi Ew := eapply copies_ext; [|apply (i_count _ _ _ Hi)]; intros ?; cbv beta; rewrite Ew; cbn [w_holds]; lia.

(** A step of the writer that does not touch the copies. *)
Lemma writer_turns evs cur w p' o' : inv evs cur w -> object_turns cur w p' o' -> (forall c, occ c (w_holds cur p') = occ c (w_holds cur (writer w))) ->
  (forall c, p' = WUpdate c \/ p' = WSwap c <-> writer w = WUpdate c \/ writer w = WSwap c) ->
  w_cleared p' = w_cleared (writer w) \/ (w_cleared (writer w) = false /\ w_cleared p' = true /\ w_write (writer w) = true) ->
  inv (evs ++ []) cur (World o' (copies w) (next w) p' (readers w)).
Proof.
  intros Hi Ho Hh Hn Hcl. apply writer_moves; try done; [|apply keeps_refl|apply quiet_nil].
  eapply copies_ext; [|apply (i_count _ _ _ Hi)]. intros c. cbv beta. rewrite Hh. lia.
Qed.

(** [stm_releasecopy] by the writer. *)
Lemma writer_drop evs cur w p' o ob : inv evs cur w -> obj w = Some ob -> object_turns cur w p' (Some ob) ->
  (forall d, occ d (w_holds cur (writer w)) = occ d (opt o) + occ d (w_holds cur p')) ->
  (forall c, p' = WUpdate c \/ p' = WSwap c <-> writer w = WUpdate c \/ writer w = WSwap c) -> w_cleared p' = w_cleared (writer w) ->
  exists m, stm_releasecopy o w = Ok (set_copies m w) /\ inv (evs ++ []) cur (World (Some ob) m (next w) p' (readers w)).
Proof.
  intros Hi Eo Ht Hh Hn Hcl. destruct (release_ok o w (holders cur w) (i_count _ _ _ Hi)) as (m & E & Hm & Hk).
  { intros c ->. unfold holders. rewrite Hh. pose proof (occ_opt_self c). pose proof (occ_pos c (w_holds cur p')).
    pose proof (sumZ_pos (fun r => occ c (r_holds r)) (readers w) (fun r => occ_pos c (r_holds r))). lia. }
  exists m. split; [done|]. apply writer_moves; try done; [|by left|apply quiet_nil]. eapply copies_ext; [|exact Hm]. intros d. cbv beta. rewrite Hh. lia.
Qed.

(** The new copy becomes the newest. *)
Lemma publish evs cur w c o : inv evs cur w -> writer w = WSwap c -> obj w = Some o ->
  exists x, copies w !! c = Some x /\
    inv (evs ++ [EPublish c (c_msg x)]) c (World (Some (set_copy (Some c) o)) (copies w) (next w) (WUnlock (copy o)) (readers w)).
Proof.
  intros Hi Ew Eo. pose proof (i_object _ _ _ Hi) as Hobj. rewrite Eo, Ew in Hobj. cbn [w_read w_write w_ref w_cleared] in Hobj. destruct Hobj as (H1 & H2 & H3 & H4 & H5 & H6 & _).
  destruct (i_next _ _ _ Hi) as (N1 & N2 & N3 & N4). rewrite Ew in N3, N4. specialize (N3 c (or_intror eq_refl)).
  assert (Hpos : 0 < holders cur w c).
  { unfold holders. rewrite Ew. cbn [w_holds]. rewrite !occ_cons. rewrite (decide_True (P := c = c)) by done. pose proof (occ_pos c []). pose proof (sumZ_pos (fun r => occ c (r_holds r)) (readers w) (fun r => occ_pos c (r_holds r))).
    destruct (decide (c = cur)); lia. }
  destruct (copies_get _ _ c (i_count _ _ _ Hi) Hpos) as (x & Ex & _). exists x. split; [done|].
  assert (Hz : Forall (fun r => r_read r = 0) (readers w)) by (apply (no_readers evs cur w o); [done|done|by rewrite Ew]).
  split; cbn [obj copies next writer readers].
  - cbn [set_copy lock_read lock_write reference copy w_read w_write w_ref w_cleared]. repeat split; try done; lia.
  - apply (i_serial _ _ _ Hi).
  - eapply copies_ext; [|apply (i_count _ _ _ Hi)]. intros d. unfold holders. cbn [writer readers]. rewrite Ew, H6. cbn [w_holds opt]. rewrite !occ_cons. lia.
  - split; [apply N2; by exists x|]. split; [done|]. split; [intros d [|]; discriminate|]. intros d Hd. left. destruct (N4 d Hd) as [|[[=]|[= ->]]]; lia.
  - pose proof (i_readers _ _ _ Hi) as Hr. rewrite Ew in Hr. cbn [w_cleared] in *. apply Forall_lookup. intros j r Ej. pose proof (Forall_lookup_1 _ _ _ _ Hr Ej) as [R1 R2].
    pose proof (Forall_lookup_1 _ _ _ _ Hz Ej) as Hr0. cbv beta in Hr0. unfold r_read in Hr0. split; [intros a Ha; specialize (R1 a Ha); lia|].
    destruct (pc r) as [| | | |[b|]|[b|]|[b|]| | | | |]; try done; destruct R2 as [R2 R3]; (split; [lia|done]).
  - intros d y Ey. destruct (i_content _ _ _ Hi d y Ey) as [C1 C2]. split; [done|]. intros Hd. apply elem_of_app. destruct (N4 d ltac:(by exists y)) as [Hle|[[=]|[= ->]]]; [left; by apply C2|].
    right. rewrite Ex in Ey. injection Ey as <-. by left.
  - intros j d msg sz Hin. apply elem_of_app in Hin as [Hin|Hin]; [|by apply list_elem_of_singleton in Hin]. destruct (i_reads _ _ _ Hi j d msg sz Hin) as (r & Ej & Hr). rewrite Ew in Hr. by exists r.
  - apply trace_quiet; [apply (i_trace _ _ _ Hi)|]. by apply quiet_one.
Qed.

(** A copy is made. *)
Lemma new_copy evs cur w msg : inv evs cur w -> writer w = WIdle ->
  inv (evs ++ []) cur (World (obj w) (<[next w := Copy 1 (u32 (Z.of_nat (length msg))) msg]> (copies w)) (S (next w)) (WUpdate (next w)) (readers w)).
Proof.
  intros Hi Ew. destruct (i_next _ _ _ Hi) as (N1 & N2 & N3 & N4). rewrite app_nil_r.
  assert (En : copies w !! next w = None) by (destruct (copies w !! next w) as [x|] eqn:E; [specialize (N2 (next w) ltac:(by exists x)); lia|done]).
  split; cbn [obj copies next writer readers].
  - pose proof (i_object _ _ _ Hi) as Hobj. rewrite Ew in Hobj. destruct (obj w) as [o|]; [|by destruct Hobj]. cbn in *. by destruct Hobj as (H1 & H2 & H3 & H4 & H5 & H6 & _).
  - apply (i_serial _ _ _ Hi).
  - eapply copies_ext; [|apply (new_ok _ _ _ _ _ (i_count _ _ _ Hi) En)]. intros d. unfold holders. cbn [writer readers]. rewrite Ew. cbn [w_holds]. rewrite !occ_cons. cbn. lia.
  - split; [lia|]. assert (Hin : forall c, is_Some (<[next w := Copy 1 (u32 (Z.of_nat (length msg))) msg]> (copies w) !! c) -> c = next w \/ is_Some (copies w !! c)).
    { intros c. destruct (decide (c = next w)) as [->|Hne]; [by left|]. rewrite lookup_insert_ne by done. by right. }
    split; [intros c Hc; destruct (Hin c Hc) as [->|Hc']; [lia|]; specialize (N2 c Hc'); lia|]. split; [intros c [[= <-]|[=]]; lia|].
    intros c Hc. destruct (Hin c Hc) as [->|Hc']; [by right; left|]. destruct (N4 c Hc') as [|[E|E]]; [by left|congruence|congruence].
  - pose proof (i_readers _ _ _ Hi) as Hr. by rewrite Ew in Hr.
  - intros c x. destruct (decide (c = next w)) as [->|Hne]; [rewrite lookup_insert_eq; intros [= <-]; cbn; split; [done|lia]|]. rewrite lookup_insert_ne by done. apply (i_content _ _ _ Hi).
  - intros j d m sz Hin. destruct (i_reads _ _ _ Hi j d m sz Hin) as (r & Ej & Hr). rewrite Ew in Hr. by exists r.
  - apply (i_trace _ _ _ Hi).
Qed.

(** A reader is made. *)
Lemma new_reader evs cur w ref o : inv evs cur w -> writer w = WGrabUnlock ref -> obj w = Some o ->
  inv (evs ++ []) cur (World (Some (set_read (lock_read o - 1) o)) (copies w) (next w) WIdle (readers w ++ [Reader RIdle None])).
Proof.
  intros Hi Ew Eo. pose proof (i_object _ _ _ Hi) as Hobj. rewrite Eo, Ew in Hobj. cbn [w_read w_write w_ref w_cleared] in Hobj. destruct Hobj as (H1 & H2 & _ & H4 & H5 & H6 & _).
  destruct (i_next _ _ _ Hi) as (N1 & N2 & N3 & N4). rewrite app_nil_r. split; cbn [obj copies next writer readers].
  - cbn [set_read lock_read lock_write reference copy w_read w_write w_ref w_cleared]. rewrite !sumZ_app. cbn [sumZ foldr r_read r_ref pc]. repeat split; try done; lia.
  - rewrite sumZ_app. cbn [sumZ foldr r_releasing pc]. pose proof (i_serial _ _ _ Hi). lia.
  - eapply copies_ext; [|apply (i_count _ _ _ Hi)]. intros d. unfold holders. cbn [writer readers]. rewrite Ew, sumZ_app. cbn [w_holds sumZ foldr r_holds pc lastcopy opt occ]. lia.
  - split; [done|]. split; [done|]. split; [intros c [|]; discriminate|]. intros c Hc. destruct (N4 c Hc) as [|[E|E]]; [by left|congruence|congruence].
  - pose proof (i_readers _ _ _ Hi) as Hr. rewrite Ew in Hr. apply Forall_app. split; [done|]. by repeat constructor.
  - apply (i_content _ _ _ Hi).
  - intros j d m sz Hin. destruct (i_reads _ _ _ Hi j d m sz Hin) as (r & Ej & Hr). rewrite Ew in Hr. exists r. split; [by apply lookup_app_l_Some|done].
  - apply (i_trace _ _ _ Hi).
Qed.

Ltac turn Eo Ew := turns Eo Ew; repeat split; first [done | lia | (intros; discriminate) | (intros _; first [by left | right; lia]) | idtac].
Ltac same_pending Ew := let G := fresh in intros ?; rewrite Ew; split; (intros [G|G]; inversion G; subst; auto).

Lemma writer_progress evs cur w res : inv evs cur w -> writer_step w = Some res -> exists w' evs' cur', res = Ok (w', evs') /\ inv (evs ++ evs') cur' w'.
Proof.
  intros Hi E. unfold writer_step in E. assert (Hlive : writer w <> WGone -> exists o, obj w = Some o) by apply (object_of_writer _ _ _ Hi).
  pose proof (i_object _ _ _ Hi) as Hobj. unfold rwlock_wlock, rwlock_rlock, rwlock_runlock, rwlock_wunlock, get_obj in E.
  destruct (writer w) as [|c|c|old|old| | |ref| | | | | |] eqn:Ew; try discriminate; destruct Hlive as [o Eo]; try discriminate; (try rewrite Eo in E); rewrite Eo in Hobj;
    cbn [w_read w_write w_ref w_cleared] in Hobj; destruct Hobj as (H1 & H2 & H3 & H4 & H5 & H6 & H7).
  - destruct (lock_write o) eqn:Hw; [done|]. destruct (Z.eqb_spec (lock_read o) 0) as [Hz|]; [|done]. injection E as <-. eexists _, [], cur. split; [reflexivity|].
    apply (writer_turns evs cur w); [done| | |same_pending Ew|rewrite Ew; by left]; [turn Eo Ew|by rewrite Ew].
  - destruct (publish _ _ _ _ _ Hi Ew Eo) as (x & Ex & Hinv). injection E as <-. unfold get_copy. rewrite Ex. eexists _, _, c. split; [reflexivity|]. exact Hinv.
  - injection E as <-. eexists _, [], cur. split; [reflexivity|].
    apply (writer_turns evs cur w); [done| | |same_pending Ew|rewrite Ew; by left]; [turn Eo Ew|by rewrite Ew].
  - injection E as <-. destruct (writer_drop evs cur w WIdle old o) as (m & -> & Hinv); [done|done|turn Eo Ew| |same_pending Ew|by rewrite Ew|].
    + intros d. rewrite Ew. cbn [w_holds]. rewrite !occ_cons. cbn. lia.
    + eexists _, [], cur. split; [reflexivity|]. rewrite <- Eo in Hinv. exact Hinv.
  - destruct (lock_write o) eqn:Hw; [done|]. injection E as <-. eexists _, [], cur. split; [reflexivity|].
    apply (writer_turns evs cur w); [done| | |same_pending Ew|rewrite Ew; by left]; [turn Eo Ew|by rewrite Ew].
  - injection E as <-. eexists _, [], cur. split; [reflexivity|].
    apply (writer_turns evs cur w); [done| | |same_pending Ew|rewrite Ew; by left]; [turn Eo Ew; intros r [= <-]; lia|by rewrite Ew].
  - specialize (H7 ref eq_refl). injection E as <-. rewrite (proj2 (Z.ltb_lt 0 ref)) by lia. eexists _, [], cur. split; [reflexivity|]. by apply (new_reader evs cur w ref o).
  - destruct (lock_write o) eqn:Hw; [done|]. destruct (Z.eqb_spec (lock_read o) 0) as [Hz|]; [|done]. injection E as <-. eexists _, [], cur. split; [reflexivity|].
    apply (writer_turns evs cur w); [done| | |same_pending Ew|rewrite Ew; by left]; [turn Eo Ew|by rewrite Ew].
  - injection E as <-. destruct (writer_drop evs cur w WRelClear (copy o) o) as (m & -> & Hinv); [done|done|turn Eo Ew| |same_pending Ew|by rewrite Ew|].
    + intros d. rewrite Ew, H6. cbn [w_holds opt]. rewrite !occ_cons. cbn. lia.
    + eexists _, [], cur. split; [reflexivity|]. rewrite <- Eo in Hinv. exact Hinv.
  - injection E as <-. eexists _, [], cur. split; [reflexivity|].
    apply (writer_turns evs cur w); [done| | |same_pending Ew|rewrite Ew; by right]; [turn Eo Ew|by rewrite Ew].
  - injection E as <-. destruct (Z.ltb_spec 0 (reference o - 1)) as [Hgt|Hle]; eexists _, [], cur; (split; [reflexivity|]).
    + apply (writer_turns evs cur w); [done| | |same_pending Ew|rewrite Ew; by left]; [turn Eo Ew|by rewrite Ew].
    + apply (writer_turns evs cur w); [done| | |same_pending Ew|rewrite Ew; by left]; [|by rewrite Ew]. unfold object_turns. rewrite Eo. split; [done|]. specialize (H3 eq_refl).
      apply Forall_lookup. intros j r Ej. pose proof (sumZ_ge _ _ _ _ r_ref_pos Ej) as G1. pose proof (sumZ_ge _ _ _ _ r_read_pos Ej) as G2. unfold r_ref in G1. unfold r_read in G2. unfold r_over.
      cbv beta in *. fold r_ref in G1. fold r_read in G2. destruct (pc r); try lia; auto.
  - injection E as <-. eexists _, [], cur. split; [reflexivity|].
    apply (writer_turns evs cur w); [done| | |same_pending Ew|rewrite Ew; by left]; [turn Eo Ew|by rewrite Ew].
Qed.

(** ** All services *)

(** Readers are released one at a time. *)
Definition serial (l : label) (w : world) : Prop :=
  match l with LDeleteReader _ => sumZ r_releasing (readers w) = 0 | _ => True end.

Lemma stm_step_progress evs cur w l res : inv evs cur w -> serial l w -> step l w = Some res -> exists w' evs' cur', res = Ok (w', evs') /\ inv (evs ++ evs') cur' w'.
Proof.
  intros Hi Hs E. destruct l as [msg| | | |i|i|i]; cbn [step] in E.
  - unfold lupdate in E. destruct (writer w) eqn:Ew; try discriminate. injection E as <-. eexists _, [], cur. split; [reflexivity|]. exact (new_copy evs cur w msg Hi Ew).
  - unfold lcopy in E. destruct (writer w) eqn:Ew; try discriminate. injection E as <-. destruct (object_of_writer _ _ _ Hi) as [o Eo]; [by rewrite Ew|].
    pose proof (i_object _ _ _ Hi) as Hobj. rewrite Eo, Ew in Hobj. destruct Hobj as (H1 & H2 & H3 & H4 & H5 & H6 & H7). eexists _, [], cur. split; [reflexivity|].
    apply (writer_turns evs cur w); [done| | |same_pending Ew|rewrite Ew; by left]; [turn Eo Ew|by rewrite Ew].
  - unfold ldeletewriter in E. destruct (writer w) eqn:Ew; try discriminate. destruct (object_of_writer _ _ _ Hi) as [o Eo]; [by rewrite Ew|].
    pose proof (i_object _ _ _ Hi) as Hobj. rewrite Eo, Ew in Hobj. destruct Hobj as (H1 & H2 & H3 & H4 & H5 & H6 & H7). injection E as <-. unfold get_obj. rewrite Eo, bind_ret.
    rewrite bool_decide_true by (rewrite H6; by eexists). eexists _, [], cur. split; [reflexivity|].
    apply (writer_turns evs cur w); [done| | |same_pending Ew|rewrite Ew; by left]; [turn Eo Ew|by rewrite Ew].
  - by eapply writer_progress.
  - unfold lread in E. destruct (readers w !! i) as [[[] last]|] eqn:Er; try discriminate. injection E as <-. destruct (object_live _ _ _ _ _ Hi Er) as [o Eo]; [not_over|].
    pose proof (reader_get _ _ _ _ _ Hi Er) as [Hr _]. pose proof (i_object _ _ _ Hi) as Hobj. rewrite Eo in Hobj. destruct Hobj as (_ & _ & _ & _ & H5 & _). eexists _, [], cur. split; [reflexivity|].
    apply (reader_moves evs cur w i (Reader RIdle last)); [done|done| | | |apply keeps_refl| | |apply quiet_nil].
    + moves o Eo. repeat split; try (intros; lia); done.
    + same_serial Hi.
    + same_copies Hi.
    + by split.
    + as_seen.
  - unfold ldeletereader in E. destruct (readers w !! i) as [[[] last]|] eqn:Er; try discriminate. injection E as <-. destruct (object_live _ _ _ _ _ Hi Er) as [o Eo]; [not_over|].
    pose proof (reader_get _ _ _ _ _ Hi Er) as [Hr _]. pose proof (i_object _ _ _ Hi) as Hobj. rewrite Eo in Hobj. destruct Hobj as (_ & _ & _ & _ & H5 & _). eexists _, [], cur. split; [reflexivity|].
    cbn [serial] in Hs. apply (reader_moves evs cur w i (Reader RIdle last)); [done|done| | | |apply keeps_refl| | |apply quiet_nil].
    + moves o Eo. repeat split; try (intros; lia); done.
    + cbn [r_releasing pc]. lia.
    + same_copies Hi.
    + by split.
    + as_seen.
  - destruct (reader_progress _ _ _ _ _ Hi E) as (w' & evs' & -> & Hinv). by exists w', evs', cur.
Qed.

(** What the services get to, with what was seen on the way: the first message was
    published when the object was made. *)
Inductive reached (msg : list Z) : list event -> world -> Prop :=
  | reached_start : reached msg [EPublish 0 msg] (lnewwriter msg)
  | reached_step evs w l w' evs' : reached msg evs w -> serial l w -> step l w = Some (Ok (w', evs')) -> reached msg (evs ++ evs') w'.

Lemma stm_start_inv msg : inv [EPublish 0 msg] 0 (lnewwriter msg).
Proof.
  split; cbn [lnewwriter stm_newcopy set_obj obj copies next writer readers].
  - repeat split; done.
  - done.
  - intros c. unfold holders. cbn [lnewwriter stm_newcopy set_obj writer readers w_holds]. rewrite occ_cons. destruct (decide (c = 0%nat)) as [->|Hne].
    + rewrite lookup_insert_eq. done.
    + by rewrite lookup_insert_ne, lookup_empty by done.
  - split; [lia|]. split; [|split; [intros c [|]; discriminate|]]; intros c [x Ex]; (destruct (decide (c = 0%nat)) as [->|Hne]; [|by rewrite lookup_insert_ne, lookup_empty in Ex by done]); [lia|by left].
  - constructor.
  - intros c x Ex. destruct (decide (c = 0%nat)) as [->|Hne]; [|by rewrite lookup_insert_ne, lookup_empty in Ex by done]. rewrite lookup_insert_eq in Ex. injection Ex as <-. split; [done|]. intros _. by left.
  - intros i c m sz Hin. by apply list_elem_of_singleton in Hin.
  - intros a b i c m sz E. destruct a as [|e a]; [discriminate|]. injection E as _ E. destruct a; discriminate.
Qed.

Lemma stm_reached_inv msg evs w : reached msg evs w -> exists cur, inv evs cur w.
Proof.
  induction 1 as [|evs w l w' evs' _ [cur Hi] Hs E]; [exists 0%nat; apply stm_start_inv|]. destruct (stm_step_progress _ _ _ _ _ Hi Hs E) as (w2 & evs2 & cur' & E2 & Hi2). injection E2 as <- <-. by exists cur'.
Qed.

(** C17.  Shared snapshots, in every interleaving of the writer and the readers in which
    readers are released one at a time: no step touches memory that was freed or fails
    an assertion; every message a reader is called with was published before, whole,
    and after everything it was called with earlier; and when all boxes are gone, the
    object and all copies have been freed. *)
Theorem stm_is_safe msg evs w : reached msg evs w ->
  (forall l f, serial l w -> step l w <> Some (Fault f)) /\
  (forall a b i c m sz, evs = a ++ ERead i c m sz :: b ->
     EPublish c m ∈ a /\ sz = u32 (Z.of_nat (length m)) /\ forall c' m' sz', ERead i c' m' sz' ∈ a -> (c' < c)%nat) /\
  (writer w = WGone -> Forall (fun r => pc r = RGone) (readers w) -> obj w = None /\ copies w = ∅).
Proof.
  intros Hr. destruct (stm_reached_inv _ _ _ Hr) as [cur Hi]. split; [|split].
  - intros l f Hs E. destruct (stm_step_progress _ _ _ _ _ Hi Hs E) as (? & ? & ? & E2 & _). discriminate.
  - exact (i_trace _ _ _ Hi).
  - intros Hw Hall. assert (Hz : forall f : boxreader -> Z, (forall r, pc r = RGone -> f r = 0) -> sumZ f (readers w) = 0).
    { intros f Hf. induction Hall as [|r rs Hp _ IH]; [done|]. cbn [sumZ foldr]. fold (sumZ f rs). rewrite IH, Hf by done. done. }
    split.
    + pose proof (i_object _ _ _ Hi) as Ho. destruct (obj w) as [o|]; [|done]. destruct Ho as (_ & _ & _ & H4 & H5 & _). rewrite Hw, Hz in H4; [cbn in H4; lia|]. intros r Hp. unfold r_ref. by rewrite Hp.
    + apply map_eq. intros c. rewrite lookup_empty. pose proof (i_count _ _ _ Hi c) as Hc. destruct (copies w !! c) as [x|]; [|done]. destruct Hc as [_ Hc]. unfold holders in Hc. rewrite Hw, Hz in Hc; [cbn in Hc; lia|].
      intros r Hp. unfold r_holds. by rewrite Hp.
Qed.

(** One step of a run, when it is seen by nobody. *)
Lemma run_quiet l ls w w1 w2 : step l w = Some (Ok (w1, [])) -> run ls w1 = Some (Ok (w2, [])) -> run (l :: ls) w = Some (Ok (w2, [])).
Proof. intros E1 E2. cbn [run]. rewrite E1, E2. done. Qed.

(** The step of a reader whose place is known. *)
Ltac reader_at :=
  eapply run_quiet;
  [ cbn [step]; unfold ldeletereader, reader_step, rwlock_rlock, at_reader, get_obj, set_readers, set_obj, set_read, set_reference;
    cbn [obj readers];
    repeat first [ rewrite list_lookup_insert_eq by (rewrite ?length_insert; eapply lookup_lt_Some; eassumption)
                 | rewrite list_lookup_insert_ne by congruence
                 | match goal with H : _ !! _ = Some (Reader _ _) |- _ => rewrite H end ];
    cbn -[insert lookup]; reflexivity
  | cbn [obj copies next writer readers] ].

(** C39.  Any two readers that are released at the same time after the writer, when
    theirs are the last two references: both take the lock of the object, the one that
    counts down first goes on, the other one brings the count to zero and frees the
    object, and then the first gives back the lock of an object that is gone. *)
Theorem reader_releases_race msg evs w o i j li lj : reached msg evs w ->
  writer w = WGone -> obj w = Some o -> reference o = 2 ->
  i <> j -> readers w !! i = Some (Reader RIdle li) -> readers w !! j = Some (Reader RIdle lj) ->
  exists w',
    run [LDeleteReader i; LDeleteReader j; LReader i; LReader j; LReader i; LReader j] w = Some (Ok (w', [])) /\
    readers w' !! i = Some (Reader RRelUnlock li) /\ readers w' !! j = Some (Reader RRelCopy lj) /\
    obj w' = None /\ step (LReader i) w' = Some (Fault DanglingPointer).
Proof.
  intros Hr Hw Ho H2 Hij Hi Hj. destruct (stm_reached_inv _ _ _ Hr) as [cur Hinv]. pose proof (i_object _ _ _ Hinv) as Hobj. rewrite Ho, Hw in Hobj.
  destruct Hobj as (_ & Hlw & _ & _ & _ & Hcopy & _). cbn [w_write w_cleared] in Hlw, Hcopy. clear Hr Hinv.
  destruct w as [ob cs nx wr rs]. cbn [writer obj readers] in *. subst ob wr. destruct o as [lr lw rf cp]. cbn [lock_write reference copy] in *. subst lw rf cp.
  eexists. split.
  { reader_at. reader_at. reader_at. reader_at. reader_at. reader_at. reflexivity. }
  assert (Li := lookup_lt_Some _ _ _ Hi). assert (Lj := lookup_lt_Some _ _ _ Hj).
  assert (Ei : forall (x y : boxreader) (l : list boxreader), length l = length rs -> <[j:=x]> (<[i:=y]> l) !! i = Some y).
  { intros x y l El. rewrite list_lookup_insert_ne by done. apply list_lookup_insert_eq. by rewrite El. }
  assert (Ej : forall (x : boxreader) (l : list boxreader), length l = length rs -> <[j:=x]> l !! j = Some x) by (intros x l El; apply list_lookup_insert_eq; by rewrite El).
  cbn [readers obj]. split; [apply Ei; by rewrite !length_insert|]. split; [apply Ej; by rewrite !length_insert|]. split; [done|].
  cbn [step]. unfold reader_step. cbn [readers]. rewrite Ei by (by rewrite !length_insert). done.
Qed.

(** Two readers in the Lua boxes of two services; the writer is deleted first. *)
Definition race_start : list label :=
  [LCopy; LWriter; LWriter; LWriter; LCopy; LWriter; LWriter; LWriter; LDelete; LWriter; LWriter; LWriter; LWriter; LWriter].


(** A reader that reads, reads again after an update, and is released before the writer. *)
Fixpoint go (ls : list label) (w : world) : option (world * list event) :=
  match ls with
  | [] => Some (w, [])
  | l :: ls =>
      match (match l with LDeleteReader _ => sumZ r_releasing (readers w) =? 0 | _ => true end), step l w with
      | true, Some (Ok (w, evs)) => match go ls w with Some (w', evs') => Some (w', evs ++ evs') | None => None end
      | _, _ => None
      end
  end.

Lemma go_reached msg ls : forall evs w w' evs', reached msg evs w -> go ls w = Some (w', evs') -> reached msg (evs ++ evs') w'.
Proof.
  induction ls as [|l ls IH]; intros evs w w' evs' Hr E; cbn [go] in E; [injection E as <- <-; by rewrite app_nil_r|].
  destruct (match l with LDeleteReader _ => _ | _ => true end) eqn:Es; [|done]. destruct (step l w) as [[[w1 evs1]|f]|] eqn:E1; [|done|done].
  destruct (go ls w1) as [[w2 evs2]|] eqn:E2; [|done]. injection E as <- <-. rewrite app_assoc. eapply IH; [|exact E2]. eapply reached_step; [exact Hr| |exact E1].
  destruct l; try done. by apply Z.eqb_eq.
Qed.

Definition sample_run : list label :=
  [LCopy; LWriter; LWriter; LWriter; LRead 0] ++ replicate 6 (LReader 0) ++ [LUpdate [66; 67]; LWriter; LWriter; LWriter; LWriter; LRead 0] ++ replicate 6 (LReader 0)
  ++ [LDeleteReader 0; LDelete; LReader 0; LReader 0; LReader 0; LWriter; LWriter; LReader 0; LWriter; LWriter].

Lemma stm_is_safe_witness : exists w,
  reached [65] [EPublish 0 [65]; ERead 0 0 [65] 1; EPublish 1 [66; 67]; ERead 0 1 [66; 67] 2] w /\
  (forall f, step LWriter w <> Some (Fault f)) /\ obj w = None /\ copies w = ∅.
Proof.
  assert (E : exists w, go sample_run (lnewwriter [65]) = Some (w, [ERead 0 0 [65] 1; EPublish 1 [66; 67]; ERead 0 1 [66; 67] 2]) /\ writer w = WGone /\ Forall (fun r => pc r = RGone) (readers w)).
  { eexists. split; [vm_compute; reflexivity|]. split; [reflexivity|]. repeat constructor. }
  destruct E as (w & E & Hw & Hall). exists w. pose proof (go_reached [65] sample_run _ _ _ _ (reached_start [65]) E) as Hr. split; [exact Hr|].
  destruct (stm_is_safe [65] _ w Hr) as (H1 & _ & H3). split; [intros f; by apply H1|]. by apply H3.
Defined.

Lemma reader_releases_race_witness : exists w w',
  reached [65] [EPublish 0 [65]] w /\
  run [LDeleteReader 0; LDeleteReader 1; LReader 0; LReader 1; LReader 0; LReader 1] w = Some (Ok (w', [])) /\
  step (LReader 0) w' = Some (Fault DanglingPointer).
Proof.
  assert (E : exists w o, go race_start (lnewwriter [65]) = Some (w, []) /\ writer w = WGone /\ obj w = Some o /\ reference o = 2 /\
    readers w = [Reader RIdle None; Reader RIdle None]).
  { eexists _, _. split; [vm_compute; reflexivity|]. repeat split. }
  destruct E as (w & o & E & Hw & Ho & H2 & Hrs). exists w. pose proof (go_reached [65] race_start _ _ _ _ (reached_start [65]) E) as Hr.
  destruct (reader_releases_race [65] _ w o 0 1 None None Hr Hw Ho H2) as (w' & H & _ & _ & _ & Hf); [done|by rewrite Hrs..|].
  exists w'. by repeat split.
Defined.
