(* ===== verification/Sharedata.v ===== *)
(** * Shared configuration tables ([lualib-src/lua-sharedata.c])

    A table of Lua becomes a tree of C structures that services on all threads read:
    an array part and a hash part with its collisions chained through the slots.  The
    strings of keys and values are numbered; they live on the stack of a Lua state of
    their own, from index 2 on ([strs] here).

    A Lua table is its border ([lua_rawlen]) and its entries in the order of
    [lua_next].  A call of [convtable] in another one is a call of C from Lua from C,
    of which Lua allows a certain number ([depth]). *)

From S2P Require Import Prelude.
From stdpp Require Import base numbers list.
From Stdlib Require Import ZArith Lia String.
#[local] Open Scope Z_scope.
#[local] Open Scope list_scope.

Module Sharedata.

Definition KEYTYPE_INTEGER : Z := 0.
Definition KEYTYPE_STRING : Z := 1.

(** ** Tables of Lua *)

Inductive lkey := KInt (n : Z) | KFloat | KStr (s : list Z) | KTable | KOther.

Inductive lvalue :=
  | VReal (bits : Z) | VInt (n : Z) | VStr (s : list Z) | VBool (b : bool)
  | VTable (len : Z) (entries : list (lkey * lvalue)) | VOther.

#[export] Instance lkey_eq_dec : EqDecision lkey.
Proof. solve_decision. Defined.

(** [lua_rawgeti], [nil] being [None]. *)
Fixpoint rawget (k : lkey) (entries : list (lkey * lvalue)) : option lvalue :=
  match entries with
  | [] => None
  | (k', v) :: entries => if decide (k = k') then Some v else rawget k entries
  end.

(** ** [struct table] and [struct node] *)

(** What is not set before a node is used. *)
Record node_key := NodeKey { key : Z; next : Z; keyhash : Z; keytype : Z }.

(** A value with its type; a table is its array and its nodes: the key, [nocolliding]
    and the value. *)
Inductive value :=
  | VALUETYPE_NIL | VALUETYPE_REAL (bits : Z) | VALUETYPE_INTEGER (d : Z) | VALUETYPE_STRING (index : Z) | VALUETYPE_BOOLEAN (b : bool)
  | VALUETYPE_TABLE (array : list value) (hash : list (option node_key * Z * value)).

Abbreviation node := (option node_key * Z * value)%type.

Definition is_nil (v : value) : bool := match v with VALUETYPE_NIL => true | _ => false end.

(** ** Conversion *)

Fixpoint countsize (entries : list (lkey * lvalue)) (sizearray n : Z) : outcome Z :=
  match entries with
  | [] => Ok n
  | (k, _) :: entries =>
      match k with
      | KFloat => Fault (LuaError "Invalid key")
      | KInt nkey =>
          n ← c_int (n + 1);
          countsize entries sizearray (if (0 <? nkey) && (nkey <=? sizearray) then n - 1 else n)
      | KStr _ | KTable => n ← c_int (n + 1); countsize entries sizearray n
      | KOther => Fault (LuaError "Invalid key type")
      end
  end.

(** [l1] goes down to 0 in steps. *)
Fixpoint hash_loop (fuel : nat) (str : list Z) (step l1 h : Z) : outcome Z :=
  match fuel with
  | O => Fault OutOfFuel
  | S fuel =>
      if step <=? l1 then
        c ← arr_get str (l1 - 1);
        hash_loop fuel str step (l1 - step) (Z.lxor h (u32 (u32 (Z.shiftl h 5) + Z.shiftr h 2 + u8 c)))
      else Ok h
  end.
Definition calchash (str : list Z) : outcome Z :=
  let l := Z.of_nat (List.length str) in
  hash_loop (S (List.length str)) str (Z.shiftr l 5 + 1) l (u32 l).

(** The strings so far; index 1 is taken. *)
Fixpoint find_string (s : list Z) (i : Z) (strs : list (list Z)) : option Z :=
  match strs with
  | [] => None
  | x :: strs => if decide (s = x) then Some i else find_string s (i + 1) strs
  end.
Definition stringindex (strs : list (list Z)) (s : list Z) : Z * list (list Z) :=
  match find_string s 2 strs with
  | Some i => (i, strs)
  | None => (Z.of_nat (List.length strs) + 2, strs ++ [s])
  end.

Section Convert.
(** [convtable] for a table inside. *)
Context (conv : Z -> list (lkey * lvalue) -> list (list Z) -> outcome (value * list (list Z))).

Definition setvalue (strs : list (list Z)) (v : option lvalue) : outcome (value * list (list Z)) :=
  match v with
  | None => Ok (VALUETYPE_NIL, strs)
  | Some (VInt n) => Ok (VALUETYPE_INTEGER n, strs)
  | Some (VReal n) => Ok (VALUETYPE_REAL n, strs)
  | Some (VStr s) => let '(i, strs) := stringindex strs s in Ok (VALUETYPE_STRING i, strs)
  | Some (VBool b) => Ok (VALUETYPE_BOOLEAN b, strs)
  | Some (VTable len entries) => conv len entries strs
  | Some VOther => Fault (LuaError "Unsupport value type")
  end.

Definition setarray (array : list value) (strs : list (list Z)) (v : option lvalue) (k : Z) : outcome (list value * list (list Z)) :=
  '(x, strs) ← setvalue strs v;
  array ← arr_set array (k - 1) x;
  Ok (array, strs).

(** A key of the array, or what a node needs of a key. *)
Definition ishashkey (sizearray : Z) (strs : list (list Z)) (k : lkey) : outcome (Z + Z * Z * Z) * list (list Z) :=
  match k with
  | KInt _ | KFloat =>
      let key := match k with KInt n => i32 n | _ => 0 end in
      (Ok (if (0 <? key) && (key <=? sizearray) then inl key else inr (key, u32 key, KEYTYPE_INTEGER)), strs)
  | _ =>
      let s := match k with KStr s => s | _ => [] end in
      let '(i, strs) := stringindex strs s in
      (h ← calchash s; Ok (inr (i, h, KEYTYPE_STRING)), strs)
  end.

Fixpoint fillnocolliding (entries : list (lkey * lvalue)) (array : list value) (hash : list node) (strs : list (list Z))
    : outcome (list value * list node * list (list Z)) :=
  match entries with
  | [] => Ok (array, hash, strs)
  | (k, v) :: entries =>
      let '(r, strs) := ishashkey (Z.of_nat (List.length array)) strs k in
      r ← r;
      match r with
      | inl key =>
          '(array, strs) ← setarray array strs (Some v) key;
          fillnocolliding entries array hash strs
      | inr (key, keyhash, keytype) =>
          let pos := keyhash mod Z.of_nat (List.length hash) in
          '(_, _, old) ← arr_get hash pos;
          if is_nil old then
            '(x, strs) ← setvalue strs (Some v);
            hash ← arr_set hash pos (Some (NodeKey key (-1) keyhash keytype), 1, x);
            fillnocolliding entries array hash strs
          else fillnocolliding entries array hash strs
      end
  end.

(** The first slot that is empty. *)
Fixpoint find_empty (i : Z) (hash : list node) : option Z :=
  match hash with
  | [] => None
  | (_, _, v) :: hash => if is_nil v then Some i else find_empty (i + 1) hash
  end.

Fixpoint fillcolliding (entries : list (lkey * lvalue)) (sizearray : Z) (hash : list node) (strs : list (list Z))
    : outcome (list node * list (list Z)) :=
  match entries with
  | [] => Ok (hash, strs)
  | (k, v) :: entries =>
      let '(r, strs) := ishashkey sizearray strs k in
      r ← r;
      match r with
      | inl _ => fillcolliding entries sizearray hash strs
      | inr (ky, kh, kt) =>
          let pos := kh mod Z.of_nat (List.length hash) in
          '(mainkey, _, mainvalue) ← arr_get hash pos;
          mainpos ← init_read mainkey;
          if (keytype mainpos =? kt) && (key mainpos =? ky) then fillcolliding entries sizearray hash strs
          else
            match find_empty 0 hash with
            | None => Fault AssertFailed
            | Some n =>
                hash ← arr_set hash pos (Some (NodeKey (key mainpos) n (keyhash mainpos) (keytype mainpos)), 0, mainvalue);
                '(x, strs) ← setvalue strs (Some v);
                hash ← arr_set hash n (Some (NodeKey ky (next mainpos) kh kt), 0, x);
                fillcolliding entries sizearray hash strs
            end
      end
  end.

Definition convert (len : Z) (entries : list (lkey * lvalue)) (strs : list (list Z)) : outcome (value * list (list Z)) :=
  let sizearray := i32 len in
  if sizearray <? 0 then Fault (LuaError "memory error") else
  let array := replicate (Z.to_nat sizearray) VALUETYPE_NIL in
  sizehash ← countsize entries sizearray 0;
  if negb (sizehash =? 0) then
    let hash := replicate (Z.to_nat sizehash) (None, 0, VALUETYPE_NIL) in
    '(array, hash, strs) ← fillnocolliding entries array hash strs;
    '(hash, strs) ← fillcolliding entries sizearray hash strs;
    Ok (VALUETYPE_TABLE array hash, strs)
  else
    '(array, strs) ← for_loop (Z.to_nat sizearray) 1
      (fun i '(array, strs) => setarray array strs (rawget (KInt i) entries) i) (array, strs);
    Ok (VALUETYPE_TABLE array [], strs).
End Convert.

Fixpoint convtable (depth : nat) (len : Z) (entries : list (lkey * lvalue)) (strs : list (list Z)) : outcome (value * list (list Z)) :=
  match depth with
  | O => Fault (LuaError "C stack overflow")
  | S depth => convert (convtable depth) len entries strs
  end.

(** The strings are put on the stack at the end, at the indices they have; [room] is
    what [luaL_checkstack] can give. *)
Definition pconv (depth : nat) (room len : Z) (entries : list (lkey * lvalue)) : outcome (value * list (list Z)) :=
  '(tbl, strs) ← convtable depth len entries [];
  let string_index := Z.of_nat (List.length strs) + 1 in
  if room <? string_index + 3 then Fault (LuaError "stack overflow") else Ok (tbl, strs).

(** [struct state] of a table: a flag and a count. *)
Record state := State { dirty : bool; ref : Z }.

Definition convert_stringmap : state := State false 0.

(** The table with its strings and its state. *)
Definition lnewconf (depth : nat) (room len : Z) (entries : list (lkey * lvalue)) : outcome (value * list (list Z) * state) :=
  '(tbl, strs) ← pconv depth room len entries;
  Ok (tbl, strs, convert_stringmap).

(** ** Reading *)

(** What is pushed for a value; a table stands for its address. *)
Inductive result := RNil | RReal (bits : Z) | RInteger (d : Z) | RString (s : list Z) | RBoolean (b : bool) | RTable (array : list value) (hash : list node).

Section Read.
Context (strs : list (list Z)).

(** [lua_tolstring(tbl->L, index)] *)
Definition lua_tolstring (index : Z) : outcome (list Z) := arr_get strs (index - 2).

Definition pushvalue (v : value) : outcome result :=
  match v with
  | VALUETYPE_NIL => Ok RNil
  | VALUETYPE_REAL n => Ok (RReal n)
  | VALUETYPE_INTEGER d => Ok (RInteger d)
  | VALUETYPE_STRING i => s ← lua_tolstring i; Ok (RString s)
  | VALUETYPE_BOOLEAN b => Ok (RBoolean b)
  | VALUETYPE_TABLE array hash => Ok (RTable array hash)
  end.

(** The loop of [lookup_key] from the slot [i]; a chain has no more nodes than there
    are slots. *)
Fixpoint lookup_loop (fuel : nat) (hash : list node) (kh ky kt : Z) (str : list Z) (i : Z) : outcome (option Z) :=
  match fuel with
  | O => Fault OutOfFuel
  | S fuel =>
      '(nk, _, _) ← arr_get hash i;
      n ← init_read nk;
      found ← (if keyhash n =? kh then
                 if keytype n =? KEYTYPE_INTEGER then Ok ((kt =? KEYTYPE_INTEGER) && (key n =? ky))
                 else if kt =? KEYTYPE_STRING then str2 ← lua_tolstring (key n); Ok (bool_decide (str = str2))
                 else Ok false
               else Ok false);
      if (found : bool) then Ok (Some i)
      else if next n <? 0 then Ok None
      else lookup_loop fuel hash kh ky kt str (next n)
  end.

(** The slot of a key. *)
Definition lookup_key (hash : list node) (kh ky kt : Z) (str : list Z) : outcome (option Z) :=
  let sizehash := Z.of_nat (List.length hash) in
  if sizehash =? 0 then Ok None
  else
    let i := kh mod sizehash in
    '(nk, nocolliding, _) ← arr_get hash i;
    n ← init_read nk;
    if negb (kh =? keyhash n) && negb (nocolliding =? 0) then Ok None
    else lookup_loop (List.length hash) hash kh ky kt str i.

(** The result is [None] when nothing is returned. *)
Definition lindexconf (array : list value) (hash : list node) (k : lkey) : outcome (option result) :=
  let by_node kh ky kt str :=
    n ← lookup_key hash kh ky kt str;
    match n with
    | None => Ok None
    | Some i => '(_, _, v) ← arr_get hash i; r ← pushvalue v; Ok (Some r)
    end in
  match k with
  | KFloat => Fault (LuaError "Invalid key")
  | KInt n =>
      let key := i32 n in
      if (0 <? key) && (key <=? Z.of_nat (List.length array)) then
        v ← arr_get array (key - 1); r ← pushvalue v; Ok (Some r)
      else by_node (u32 key) key KEYTYPE_INTEGER []
  | KStr s => h ← calchash s; by_node h 0 KEYTYPE_STRING s
  | KTable | KOther => Fault (LuaError "string expected")
  end.

Definition pushkey (n : node_key) : outcome lkey :=
  if keytype n =? KEYTYPE_INTEGER then Ok (KInt (key n)) else s ← lua_tolstring (key n); Ok (KStr s).

Definition pushfirsthash (hash : list node) : outcome (option lkey) :=
  match hash with
  | [] => Ok None
  | (nk, _, _) :: _ => n ← init_read nk; k ← pushkey n; Ok (Some k)
  end.

(** The first key of the array from the index [i] on (counted from 0). *)
Fixpoint next_in_array (i : Z) (array : list value) : option Z :=
  match array with
  | [] => None
  | v :: array => if is_nil v then next_in_array (i + 1) array else Some (i + 1)
  end.

Definition lnextkey (array : list value) (hash : list node) (k : option lkey) : outcome (option lkey) :=
  let by_node kh ky kt str :=
    n ← lookup_key hash kh ky kt str;
    match n with
    | None => Ok None
    | Some i =>
        let index := i + 1 in
        if index =? Z.of_nat (List.length hash) then Ok None
        else '(nk, _, _) ← arr_get hash index; n ← init_read nk; k ← pushkey n; Ok (Some k)
    end in
  match k with
  | None =>
      match next_in_array 0 array with
      | Some i => Ok (Some (KInt i))
      | None => pushfirsthash hash
      end
  | Some KFloat => Ok None
  | Some (KInt n) =>
      let key := i32 n in
      if (0 <? key) && (key <=? Z.of_nat (List.length array)) then
        match next_in_array key (drop (Z.to_nat key) array) with
        | Some i => Ok (Some (KInt i))
        | None => pushfirsthash hash
        end
      else by_node (u32 key) key KEYTYPE_INTEGER []
  | Some (KStr s) => h ← calchash s; by_node h 0 KEYTYPE_STRING s
  | Some (KTable | KOther) => Fault (LuaError "string expected")
  end.

Definition llen (array : list value) : Z := Z.of_nat (List.length array).
Definition lhashlen (hash : list node) : Z := Z.of_nat (List.length hash).
End Read.

(** ** References and updates *)

(** [struct ctrl] of a service that uses a table; tables are known by their
    addresses. *)
Record ctrl := Ctrl { root : option Z; update : option Z }.

Definition lmarkdirty (s : state) : state := State true (ref s).
Definition lisdirty (s : state) : bool := dirty s.
Definition lgetref (s : state) : Z := ref s.
Definition lincref (s : state) : Z * state := (i32 (ref s + 1), State (dirty s) (i32 (ref s + 1))).
Definition ldecref (s : state) : Z * state := (i32 (ref s - 1), State (dirty s) (i32 (ref s - 1))).
Definition lboxconf (tbl : Z) (s : state) : ctrl * state := (Ctrl (Some tbl) None, State (dirty s) (i32 (ref s + 1))).
Definition releaseobj (c : ctrl) (s : state) : ctrl * state := (Ctrl None None, State (dirty s) (i32 (ref s - 1))).
Definition lneedupdate (c : ctrl) : option Z := update c.
Definition lupdate (c : ctrl) (n : Z) : outcome ctrl :=
  if decide (root c = Some n) then Fault (LuaError "You should update a new object") else Ok (Ctrl (root c) (Some n)).

End Sharedata.
