(* ===== verification/SharedataFill.v ===== *)
(** * Shared tables: strings, keys and the conversion of one table

    A table is laid out when each slot of its hash part holds an entry of the Lua table
    and the slots make chains, one for each main position in use; the chain starts at
    that position.  [fillnocolliding] makes the heads, [fillcolliding] puts the rest of
    the entries in the slots that are left, behind their heads. *)

From S2P Require Import Prelude Sharedata.
From stdpp Require Import base numbers list.
From Stdlib Require Import ZArith Lia.
From Stdlib Require String.
Import String.StringSyntax.
#[local] Open Scope Z_scope.
#[local] Open Scope list_scope.
Import Sharedata.

(** ** Strings *)

(** The strings after some steps: the ones there were keep their numbers. *)
Definition grows (strs strs' : list (list Z)) : Prop := strs `prefix_of` strs' /\ NoDup strs'.

Lemma grows_refl strs : NoDup strs -> grows strs strs.
Proof. by split. Qed.
Lemma grows_trans a b c : grows a b -> grows b c -> grows a c.
Proof. intros [? _] [? ?]. split; [by etrans|done]. Qed.
Lemma grows_nodup a b : grows a b -> NoDup b.
Proof. by intros []. Qed.

Create HintDb grow.
#[export] Hint Resolve grows_refl grows_trans grows_nodup : grow.

Lemma tolstring_grows a b i s : grows a b -> lua_tolstring a i = Ok s -> lua_tolstring b i = Ok s.
Proof.
  intros [[c ->] _] (Hi & E)%arr_get_inv. apply arr_get_ok; [done|]. by apply lookup_app_l_Some.
Qed.

Lemma tolstring_inj strs i j s : NoDup strs -> lua_tolstring strs i = Ok s -> lua_tolstring strs j = Ok s -> i = j.
Proof.
  intros Hn (? & Ei)%arr_get_inv (? & Ej)%arr_get_inv. pose proof (NoDup_lookup _ _ _ _ Hn Ei Ej). lia.
Qed.

Lemma find_string_spec s strs : forall i,
  match find_string s i strs with
  | Some j => i <= j /\ strs !! Z.to_nat (j - i) = Some s
  | None => s ∉ strs
  end.
Proof.
  induction strs as [|x strs IH]; intros i; cbn [find_string]; [apply not_elem_of_nil|].
  destruct (decide (s = x)) as [->|Hne]; [split; [lia|]; by rewrite Z.sub_diag|].
  specialize (IH (i + 1)). destruct (find_string s (i + 1) strs) as [j|].
  - destruct IH as [? E]. split; [lia|]. by replace (Z.to_nat (j - i)) with (S (Z.to_nat (j - (i + 1)))) by lia.
  - by apply not_elem_of_cons.
Qed.

Lemma stringindex_spec strs s : NoDup strs ->
  exists i strs', stringindex strs s = (i, strs') /\ grows strs strs' /\ lua_tolstring strs' i = Ok s.
Proof.
  intros Hn. unfold stringindex. pose proof (find_string_spec s strs 2) as F. destruct (find_string s 2 strs) as [j|].
  - exists j, strs. destruct F as [? E]. split; [done|]. split; [auto with grow|]. apply arr_get_ok; [lia|done].
  - eexists _, _. split; [done|]. split.
    + split; [by apply prefix_app_r|]. apply NoDup_app. split; [done|]. split; [|apply NoDup_singleton].
      by intros x Hx ->%list_elem_of_singleton.
    + apply arr_get_ok; [lia|]. apply list_lookup_middle. lia.
Qed.

(** ** Hash values *)

Lemma hash_loop_ends str step : 0 < step -> forall fuel l1 h, 0 <= l1 <= Z.of_nat (length str) -> l1 < Z.of_nat fuel ->
  exists h', hash_loop fuel str step l1 h = Ok h'.
Proof.
  intros Hs. induction fuel as [|fuel IH]; intros l1 h Hl Hf; [lia|]. cbn [hash_loop].
  destruct (Z.leb_spec step l1); [|by eexists].
  destruct (lookup_lt_is_Some_2 str (Z.to_nat (l1 - 1))) as [c Hc]; [lia|].
  rewrite (arr_get_ok _ _ c) by (done || lia). rewrite bind_ret. apply IH; lia.
Qed.

(** The hash of a key. *)
Definition hash_of (k : lkey) : Z :=
  match k with
  | KInt n => u32 n
  | KStr s => match calchash s with Ok h => h | Fault _ => 0 end
  | _ => 0
  end.

Lemma calchash_ok s : calchash s = Ok (hash_of (KStr s)).
Proof.
  cbn [hash_of]. unfold calchash.
  assert (0 <= Z.shiftr (Z.of_nat (length s)) 5) by (apply Z.shiftr_nonneg; lia).
  edestruct (hash_loop_ends s (Z.shiftr (Z.of_nat (length s)) 5 + 1)) as [h E]; [lia| | |by rewrite E]; lia.
Qed.

(** ** Keys *)

Definition wf_key (k : lkey) : Prop :=
  match k with KInt n => - 2^31 <= n < 2^31 | KStr _ => True | _ => False end.

(** The key belongs to the array part. *)
Definition in_array (sizearray : Z) (k : lkey) : bool :=
  match k with KInt n => (0 <? n) && (n <=? sizearray) | _ => false end.
Definition int_of (k : lkey) : Z := match k with KInt n => n | _ => 0 end.

(** What a node says of its key. *)
Definition key_is (strs : list (list Z)) (k : lkey) (n : node_key) : Prop :=
  keyhash n = hash_of k /\
  match k with
  | KInt i => keytype n = KEYTYPE_INTEGER /\ key n = i
  | KStr s => keytype n = KEYTYPE_STRING /\ lua_tolstring strs (key n) = Ok s
  | _ => False
  end.

Lemma key_is_grows a b k n : grows a b -> key_is a k n -> key_is b k n.
Proof. intros G [? Hk]. split; [done|]. destruct k; try done. destruct Hk. eauto using tolstring_grows. Qed.

Lemma i32_int n : - 2^31 <= n < 2^31 -> i32 n = n.
Proof. intros. unfold i32. rewrite Z.mod_small by lia. lia. Qed.

Lemma ishashkey_spec sz strs k : wf_key k -> NoDup strs ->
  exists strs', grows strs strs' /\
  if in_array sz k then ishashkey sz strs k = (Ok (inl (int_of k)), strs')
  else exists ky kt, ishashkey sz strs k = (Ok (inr (ky, hash_of k, kt)), strs') /\
       forall nx, key_is strs' k (NodeKey ky nx (hash_of k) kt).
Proof.
  intros Hk Hn. destruct k as [n| |s| |]; try done; cbn [wf_key] in Hk.
  - exists strs. split; [auto with grow|]. cbn [in_array ishashkey int_of]. rewrite i32_int by done.
    destruct ((0 <? n) && (n <=? sz)); [done|]. by exists n, KEYTYPE_INTEGER.
  - destruct (stringindex_spec strs s Hn) as (i & strs' & E & G & Ei). exists strs'. split; [done|].
    cbn [in_array ishashkey]. rewrite E, calchash_ok, bind_ret. by exists i, KEYTYPE_STRING.
Qed.

(** Two nodes with the same type and number have the same key. *)
Lemma same_key strs k k' n n' : NoDup strs -> key_is strs k n -> key_is strs k' n' ->
  (keytype n =? keytype n') && (key n =? key n') = bool_decide (k = k').
Proof.
  intros Hn [_ Hk] [_ Hk']. destruct k as [i| |s| |], k' as [i'| |s'| |]; try done; destruct Hk as [-> Hk], Hk' as [-> Hk']; cbn [Z.eqb KEYTYPE_INTEGER KEYTYPE_STRING Pos.eqb andb].
  - subst. case_bool_decide as E; [injection E as ->; apply Z.eqb_refl|]. apply Z.eqb_neq. congruence.
  - by rewrite bool_decide_eq_false_2.
  - by rewrite bool_decide_eq_false_2.
  - destruct (Z.eqb_spec (key n) (key n')) as [E|E].
    + rewrite E in Hk. rewrite bool_decide_eq_true_2; [done|]. congruence.
    + rewrite bool_decide_eq_false_2; [done|]. intros [= <-]. apply E. eauto using tolstring_inj.
Qed.

(** ** Entries *)

Lemma rawget_elem k v es : NoDup es.*1 -> (k, v) ∈ es -> rawget k es = Some v.
Proof.
  induction es as [|[k' v'] es IH]; intros Hn; [by intros ?%elem_of_nil|]. cbn [fmap list_fmap fst] in Hn. apply NoDup_cons in Hn as [Hk Hn].
  cbn [rawget]. intros [[= -> ->]|H]%elem_of_cons; [by rewrite decide_True|].
  destruct (decide (k = k')) as [->|]; [|auto]. destruct Hk. apply list_elem_of_fmap. by exists (k', v).
Qed.

Lemma rawget_in k v es : rawget k es = Some v -> (k, v) ∈ es.
Proof.
  induction es as [|[k' v'] es IH]; cbn [rawget]; [done|].
  destruct (decide (k = k')) as [->|]; [intros [= ->]; left|]. right. auto.
Qed.

Lemma same_entry k v v' (es : list (lkey * lvalue)) : NoDup es.*1 -> (k, v) ∈ es -> (k, v') ∈ es -> v = v'.
Proof. intros Hn ?%rawget_elem ?%rawget_elem; [congruence|done..]. Qed.

Definition hashed (sz : Z) (es : list (lkey * lvalue)) : list (lkey * lvalue) := filter (fun e => in_array sz e.1 = false) es.

Lemma elem_hashed sz e es : e ∈ hashed sz es <-> e ∈ es /\ in_array sz e.1 = false.
Proof. unfold hashed. rewrite list_elem_of_filter. tauto. Qed.

Lemma countsize_spec sz es : Forall wf_key es.*1 -> forall n, 0 <= n -> n + Z.of_nat (length es) < 2^31 ->
  countsize es sz n = Ok (n + Z.of_nat (length (hashed sz es))).
Proof.
  induction es as [|[k v] es IH]; intros Hk n H0 Hn; [cbn; f_equal; lia|]. cbn [fmap list_fmap fst] in Hk. apply Forall_cons in Hk as [Hk Hes].
  cbn [length] in Hn. cbn [countsize]. unfold hashed in *. rewrite filter_cons. cbn [fst].
  destruct k as [i| |s| |]; try done; cbn [in_array]; rewrite c_int_ok, bind_ret by lia.
  - destruct ((0 <? i) && (i <=? sz)); rewrite IH by (done || lia).
    + rewrite decide_False by done. f_equal. lia.
    + rewrite decide_True by done. cbn [length]. f_equal. lia.
  - rewrite IH by (done || lia). rewrite decide_True by done. cbn [length]. f_equal. lia.
Qed.

(** ** The layout of a table *)

Section Layout.
(** The relation of values; [N] slots. *)
Context (R : list (list Z) -> lvalue -> value -> Prop).
Context (R_grows : forall a b v x, grows a b -> R a v x -> R b v x) (R_nil : forall a v x, R a v x -> is_nil x = false).
Context (sz : Z) (N : nat).

Definition main_of (k : lkey) : nat := Z.to_nat (hash_of k mod Z.of_nat N).

(** A slot and the entry it holds. *)
Definition slot_ok (strs : list (list Z)) (e : option (lkey * lvalue)) (n : node) : Prop :=
  match e with
  | None => is_nil n.2 = true
  | Some (k, v) => R strs v n.2 /\ exists nk, n.1.1 = Some nk /\ key_is strs k nk
  end.

Lemma slot_ok_grows a b e n : grows a b -> slot_ok a e n -> slot_ok b e n.
Proof.
  intros G. destruct e as [[k v]|]; [|done]. intros (Hr & nk & E & Hk). split; [eauto|]. exists nk. eauto using key_is_grows.
Qed.

(** The array part holds the entries of [es] with its keys. *)
Definition array_ok (strs : list (list Z)) (es : list (lkey * lvalue)) (array : list value) : Prop :=
  forall i x, array !! i = Some x ->
    (x = VALUETYPE_NIL /\ forall v, (KInt (Z.of_nat i + 1), v) ∉ es) \/ exists v, (KInt (Z.of_nat i + 1), v) ∈ es /\ R strs v x.

Lemma array_ok_grows a b es array : grows a b -> array_ok a es array -> array_ok b es array.
Proof. intros G Ha i x E. destruct (Ha i x E) as [?|(v & ? & ?)]; eauto 6. Qed.

Lemma array_ok_set strs es array k v x : in_array sz k = true -> length array = Z.to_nat sz ->
  R strs v x -> array_ok strs es array -> array_ok strs (es ++ [(k, v)]) (<[Z.to_nat (int_of k - 1) := x]> array).
Proof.
  intros Hk Hl Hr Ha i y E. destruct k as [n| |s| |]; try done. cbn [int_of in_array] in *.
  apply list_lookup_insert_Some in E as [(Ei & -> & _)|(Hne & E)].
  - right. exists v. split; [|done]. replace (Z.of_nat i + 1) with n by lia. apply elem_of_app. right. by left.
  - destruct (Ha i y E) as [(-> & Hn)|(v' & Hv & ?)].
    + left. split; [done|]. intros v' [?|[= ? ?]%list_elem_of_singleton]%elem_of_app; [by destruct (Hn v')|lia].
    + right. exists v'. split; [|done]. apply elem_of_app. by left.
Qed.

Lemma array_ok_skip strs es array k v : in_array sz k = false -> length array = Z.to_nat sz ->
  array_ok strs es array -> array_ok strs (es ++ [(k, v)]) array.
Proof.
  intros Hk Hl Ha i y E. destruct (Ha i y E) as [(-> & Hn)|(v' & Hv & ?)].
  - left. split; [done|]. intros v' [?|[= <- <-]%list_elem_of_singleton]%elem_of_app; [by destruct (Hn v')|].
    apply lookup_lt_Some in E. cbn [in_array] in Hk. lia.
  - right. exists v'. split; [|done]. apply elem_of_app. by left.
Qed.

(** [setvalue] for the values of the table. *)
Context (conv : Z -> list (lkey * lvalue) -> list (list Z) -> outcome (value * list (list Z))) (wf : lvalue -> Prop).
Context (setvalue_ok : forall v strs, wf v -> NoDup strs ->
  exists x strs', setvalue conv strs (Some v) = Ok (x, strs') /\ grows strs strs' /\ R strs' v x).

Definition wf_entry (e : lkey * lvalue) : Prop := wf_key e.1 /\ wf e.2.

(** *** The heads of the chains *)

(** A head with nothing behind it. *)
Definition single (n : node) : Prop := exists nk, n.1.1 = Some nk /\ next nk = -1.

Record heads (strs : list (list Z)) (es : list (lkey * lvalue)) (g : list (option (lkey * lvalue))) (hash : list node) : Prop := {
  heads_slots : Forall2 (slot_ok strs) g hash;
  heads_entry : forall i k v, g !! i = Some (Some (k, v)) -> (k, v) ∈ hashed sz es /\ main_of k = i /\ exists n, hash !! i = Some n /\ single n;
  heads_all : forall k v, (k, v) ∈ hashed sz es -> exists e, g !! main_of k = Some (Some e)
}.

Lemma heads_grows a b es g hash : grows a b -> heads a es g hash -> heads b es g hash.
Proof. intros G [H1 H2 H3]. split; [|done..]. eapply Forall2_impl; [exact H1|]. eauto using slot_ok_grows. Qed.

Lemma hashed_snoc es e : hashed sz (es ++ [e]) = hashed sz es ++ (if in_array sz e.1 then [] else [e]).
Proof. unfold hashed. rewrite filter_app, filter_cons, filter_nil. by destruct (in_array sz e.1). Qed.

Lemma main_of_lt k : (0 < N)%nat -> (main_of k < N)%nat.
Proof. intros HN. unfold main_of. pose proof (Z.mod_pos_bound (hash_of k) (Z.of_nat N)). lia. Qed.

Lemma heads_skip strs es g hash k v e : g !! main_of k = Some (Some e) -> heads strs es g hash -> heads strs (es ++ [(k, v)]) g hash.
Proof.
  intros E [H1 H2 H3]. split; [done| |].
  - intros i k' v' Ei. destruct (H2 i k' v' Ei) as (? & ? & ?). split; [|done]. rewrite hashed_snoc. apply elem_of_app. by left.
  - intros k' v'. rewrite hashed_snoc. intros [?|H]%elem_of_app; [eauto|].
    destruct (in_array sz (k, v).1); [by apply elem_of_nil in H|]. apply list_elem_of_singleton in H as [= -> ->]. eauto.
Qed.

Lemma heads_array strs es g hash k v : in_array sz k = true -> heads strs es g hash -> heads strs (es ++ [(k, v)]) g hash.
Proof.
  intros E [H1 H2 H3]. assert (Eh : hashed sz (es ++ [(k, v)]) = hashed sz es) by (rewrite hashed_snoc; cbn [fst]; by rewrite E, app_nil_r).
  split; [done|..]; rewrite Eh; [apply H2|apply H3].
Qed.

Lemma heads_add strs es g hash k v n : in_array sz k = false -> (main_of k < length g)%nat ->
  slot_ok strs (Some (k, v)) n -> single n -> g !! main_of k = Some None -> heads strs es g hash ->
  heads strs (es ++ [(k, v)]) (<[main_of k := Some (k, v)]> g) (<[main_of k := n]> hash).
Proof.
  intros E Hlt Hs H1 Hg [F Hent Hall]. pose proof (Forall2_length _ _ _ F) as Hlen. split.
  - by apply Forall2_insert.
  - intros i k' v' [(<- & [= <- <-] & _)|(Hne & Ei)]%list_lookup_insert_Some.
    + split; [|split; [done|]; exists n; split; [by apply list_lookup_insert_eq; lia|done]].
      rewrite hashed_snoc. cbn [fst]. rewrite E. apply elem_of_app. right. by left.
    + destruct (Hent i k' v' Ei) as (? & ? & n' & ? & ?). split; [rewrite hashed_snoc; apply elem_of_app; by left|]. split; [done|].
      exists n'. by rewrite list_lookup_insert_ne.
  - intros k' v'. rewrite hashed_snoc. cbn [fst]. rewrite E. intros H. destruct (decide (main_of k' = main_of k)) as [->|Hne].
    + exists (k, v). by apply list_lookup_insert_eq.
    + rewrite list_lookup_insert_ne by done. apply elem_of_app in H as [H|[= -> ->]%list_elem_of_singleton]; [eauto|done].
Qed.

Lemma slot_get strs g hash i e : Forall2 (slot_ok strs) g hash -> g !! i = Some e ->
  exists n, hash !! i = Some n /\ slot_ok strs e n /\ is_nil n.2 = match e with None => true | Some _ => false end.
Proof.
  intros F Hg. destruct (Forall2_lookup_l _ _ _ _ _ F Hg) as (n & ? & Hs). exists n. split; [done|]. split; [done|].
  destruct e as [[k v]|]; [|done]. destruct Hs. eauto.
Qed.

Lemma fillnocolliding_ok todo : forall es array hash strs g, (0 < N)%nat -> Forall wf_entry todo -> NoDup strs ->
  length array = Z.to_nat sz -> length g = N -> 0 <= sz -> array_ok strs es array -> heads strs es g hash ->
  exists array' hash' strs' g', fillnocolliding conv todo array hash strs = Ok (array', hash', strs') /\ grows strs strs' /\
    length array' = Z.to_nat sz /\ length g' = N /\ array_ok strs' (es ++ todo) array' /\ heads strs' (es ++ todo) g' hash'.
Proof.
  induction todo as [|[k v] todo IH]; intros es array hash strs g HN Hw Hn Hla Hlg Hsz Ha Hh.
  { exists array, hash, strs, g. rewrite app_nil_r. split_and!; auto with grow. }
  apply Forall_cons in Hw as [[Hk Hv] Hw]. cbn [fst snd] in Hk, Hv. cbn [fillnocolliding].
  rewrite Hla, Z2Nat.id by done. destruct (ishashkey_spec sz strs k Hk Hn) as (s1 & G1 & E1).
  replace (es ++ (k, v) :: todo) with ((es ++ [(k, v)]) ++ todo) by by rewrite <- app_assoc.
  pose proof (Forall2_length _ _ _ (heads_slots _ _ _ _ Hh)) as Hlh. destruct (in_array sz k) eqn:Hin.
  - rewrite E1, bind_ret. unfold setarray. destruct (setvalue_ok v s1 Hv) as (x & s2 & E2 & G2 & Hr); [eauto with grow|].
    assert (1 <= int_of k <= sz) by (destruct k; try done; cbn [in_array int_of] in *; lia).
    rewrite E2, bind_ret, arr_set_ok, !bind_ret by lia.
    edestruct (IH (es ++ [(k, v)]) (<[Z.to_nat (int_of k - 1) := x]> array) hash s2 g) as (a' & h' & s' & g' & -> & G & ?);
      [done|done|eauto with grow|by rewrite length_insert|done|done| | |].
    + apply array_ok_set; [done..|]. eapply array_ok_grows; [|done]. eauto with grow.
    + apply heads_array; [done|]. eapply heads_grows; [|done]. eauto with grow.
    + exists a', h', s', g'. split; [done|]. split; [eauto with grow|done].
  - destruct E1 as (ky & kt & -> & Hkey). rewrite bind_ret. rewrite <- Hlh, Hlg.
    assert (Hpos : 0 <= hash_of k mod Z.of_nat N) by (apply Z.mod_pos_bound; lia).
    pose proof (main_of_lt k HN) as Hlt. destruct (lookup_lt_is_Some_2 g (main_of k)) as [e Hg]; [lia|].
    destruct (slot_get _ _ _ _ _ (heads_slots _ _ _ _ Hh) Hg) as ([[onk nc] old] & Hslot & Hs & Hnil). cbn [snd] in Hnil.
    rewrite (arr_get_ok _ _ (onk, nc, old) Hpos Hslot), bind_ret, Hnil. destruct e as [e|].
    + destruct (IH (es ++ [(k, v)]) array hash s1 g) as (a' & h' & s' & g' & -> & G & ?); [done|done|eauto with grow|done|done|done| | |].
      * apply array_ok_skip; [done..|]. eapply array_ok_grows; [|done]. eauto with grow.
      * eapply heads_skip; [done|]. eapply heads_grows; [|done]. eauto with grow.
      * exists a', h', s', g'. split; [done|]. split; [eauto with grow|done].
    + destruct (setvalue_ok v s1 Hv) as (x & s2 & E2 & G2 & Hr); [eauto with grow|].
      rewrite E2, bind_ret, arr_set_ok, !bind_ret by (unfold main_of in Hlt; lia). fold (main_of k).
      edestruct (IH (es ++ [(k, v)]) array (<[main_of k := (Some (NodeKey ky (-1) (hash_of k) kt), 1, x)]> hash) s2 (<[main_of k := Some (k, v)]> g)) as (a' & h' & s' & g' & E & G & ?);
        [done|done|eauto with grow|done|by rewrite length_insert|done| | |].
      * apply array_ok_skip; [done..|]. eapply array_ok_grows; [|done]. eauto with grow.
      * apply heads_add; [done|lia| | |done|eapply heads_grows; [|done]; eauto with grow].
        -- split; [done|]. eexists. split; [done|]. eauto using key_is_grows.
        -- eexists. done.
      * exists a', h', s', g'. split; [exact E|]. split; [eauto with grow|done].
Qed.

(** *** The chains *)

Definition next_of (l : list nat) : Z := match l with [] => -1 | i :: _ => Z.of_nat i end.

(** The slots [l] follow one another. *)
Fixpoint linked (hash : list node) (l : list nat) : Prop :=
  match l with
  | [] => True
  | i :: l => (exists n nk, hash !! i = Some n /\ n.1.1 = Some nk /\ next nk = next_of l) /\ linked hash l
  end.

Definition colliding (hash : list node) (i : nat) : Prop := exists n, hash !! i = Some n /\ n.1.2 = 0.

Definition chain_ok (g : list (option (lkey * lvalue))) (hash : list node) (c : list nat) : Prop :=
  match c with
  | [] => False
  | h :: rest =>
      linked hash c /\ Forall (fun i => exists k v, g !! i = Some (Some (k, v)) /\ main_of k = h) c /\
      (rest <> [] -> colliding hash h) /\ Forall (colliding hash) rest
  end.

(** The slots hold entries of [es]; [placed] ones have been given their slots. *)
Record chains (strs : list (list Z)) (es placed : list (lkey * lvalue)) (g : list (option (lkey * lvalue))) (cs : list (list nat)) (hash : list node) : Prop := {
  ch_slots : Forall2 (slot_ok strs) g hash;
  ch_nodup : NoDup (concat cs);
  ch_filled : forall i, i ∈ concat cs <-> exists e, g !! i = Some (Some e);
  ch_chain : Forall (chain_ok g hash) cs;
  ch_entry : forall i k v, g !! i = Some (Some (k, v)) -> (k, v) ∈ hashed sz es /\ (main_of k = i \/ (k, v) ∈ placed);
  ch_unique : forall i j k v v', g !! i = Some (Some (k, v)) -> g !! j = Some (Some (k, v')) -> i = j;
  ch_main : forall k v, (k, v) ∈ hashed sz es -> exists rest, (main_of k :: rest) ∈ cs;
  ch_placed : forall k v, (k, v) ∈ hashed sz placed -> exists i, g !! i = Some (Some (k, v))
}.

Lemma chains_grows a b es placed g cs hash : grows a b -> chains a es placed g cs hash -> chains b es placed g cs hash.
Proof. intros G []. split; [|done..]. eapply Forall2_impl; [done|]. eauto using slot_ok_grows. Qed.

(** The heads are chains of one slot each. *)
Definition singles (g : list (option (lkey * lvalue))) : list (list nat) :=
  (fun i => [i]) <$> filter (fun i => is_Some (mjoin (g !! i))) (seq 0 (length g)).

Lemma elem_concat {A} (x : A) ll : x ∈ concat ll <-> exists l, x ∈ l /\ l ∈ ll.
Proof. setoid_rewrite list_elem_of_In. rewrite in_concat. naive_solver. Qed.

Lemma concat_singles {A} (l : list A) : concat ((fun i => [i]) <$> l) = l.
Proof. induction l as [|i l IH]; [done|]. cbn. by f_equal. Qed.

Lemma filled_iff (g : list (option (lkey * lvalue))) i : is_Some (mjoin (g !! i)) <-> exists e, g !! i = Some (Some e).
Proof.
  destruct (g !! i) as [[e|]|]; cbn; split; try (intros [? ?]; done). intros _. by exists e.
Qed.

Lemma heads_chains strs es g hash : heads strs es g hash -> chains strs es [] g (singles g) hash.
Proof.
  intros [F Hent Hall]. assert (Hc : forall i, i ∈ concat (singles g) <-> exists e, g !! i = Some (Some e)).
  { intros i. unfold singles. rewrite concat_singles, list_elem_of_filter, filled_iff. split; [by intros []|].
    intros [e He]. split; [by exists e|]. apply elem_of_seq. apply lookup_lt_Some in He. lia. }
  split; [done| |done| | | | |].
  - unfold singles. rewrite concat_singles. apply NoDup_filter, NoDup_seq.
  - apply Forall_forall. intros c [i [-> Hi]]%list_elem_of_fmap. apply list_elem_of_filter in Hi as [Hi _]. apply filled_iff in Hi as [[k v] Hi].
    destruct (Hent i k v Hi) as (_ & Hm & n & Hn & nk & Hnk & Hnx). split; [split; [by exists n, nk|done]|]. split; [|done].
    apply Forall_singleton. eauto.
  - intros i k v Hi. destruct (Hent i k v Hi) as (? & ? & _). auto.
  - intros i j k v v' Hi Hj. destruct (Hent i k v Hi) as (_ & <- & _). by destruct (Hent j k v' Hj) as (_ & <- & _).
  - intros k v Hk. destruct (Hall k v Hk) as [e He]. exists []. unfold singles. apply list_elem_of_fmap. eexists. split; [done|].
    apply list_elem_of_filter. split; [apply filled_iff; by exists e|]. apply elem_of_seq. apply lookup_lt_Some in He. lia.
  - intros k v H. by apply elem_of_nil in H.
Qed.

(** *** There is a slot for each entry *)

Lemma find_empty_spec strs g hash : Forall2 (slot_ok strs) g hash -> forall i, None ∈ g ->
  exists j, find_empty i hash = Some (i + Z.of_nat j) /\ g !! j = Some None.
Proof.
  induction 1 as [|e [[nk nc] x] g hash Hs F IH]; intros i He; [by apply elem_of_nil in He|]. cbn [find_empty].
  destruct e as [[k v]|].
  - destruct Hs as [Hr _]. apply R_nil in Hr. cbn [snd] in Hr. rewrite Hr. apply elem_of_cons in He as [?|He]; [done|].
    destruct (IH (i + 1) He) as (j & -> & Hj). exists (S j). split; [f_equal; lia|done].
  - cbn [slot_ok snd] in Hs. rewrite Hs. exists O. split; [f_equal; lia|done].
Qed.

(** The entries in the slots. *)
Definition held (g : list (option (lkey * lvalue))) : list (lkey * lvalue) := omap id g.

Lemma elem_held e g : e ∈ held g <-> exists i, g !! i = Some (Some e).
Proof.
  unfold held. rewrite list_elem_of_omap. split.
  - intros (o & Ho & E). cbn in E. subst o. by apply list_elem_of_lookup in Ho.
  - intros [i Hi]. exists (Some e). split; [by apply list_elem_of_lookup_2 in Hi|done].
Qed.

Lemma held_length g : (None ∉ g -> length (held g) = length g) /\ (None ∈ g -> (length (held g) < length g)%nat) /\ (length (held g) <= length g)%nat.
Proof.
  unfold held. induction g as [|[e|] g (I1 & I2 & I3)]; cbn [omap list_omap id length].
  - split; [done|]. split; [by intros ?%elem_of_nil|lia].
  - split; [intros [_ H]%not_elem_of_cons; cbn; f_equal; auto|]. split; [|lia]. intros [?|H]%elem_of_cons; [done|]. apply I2 in H. lia.
  - split; [intros H; destruct H; left|]. split; lia.
Qed.

Lemma held_nodup g : (forall i j k v v', g !! i = Some (Some (k, v)) -> g !! j = Some (Some (k, v')) -> i = j) -> NoDup (held g).*1.
Proof.
  unfold held. induction g as [|[[k v]|] g IH]; intros Hu; cbn [omap list_omap id fmap list_fmap]; [constructor| |].
  - constructor.
    + intros [[k' v'] [E H]]%list_elem_of_fmap. cbn in E. subst k'. apply elem_held in H as [i Hi]. by specialize (Hu O (S i) k v v' eq_refl Hi).
    + apply IH. intros i j k' v1 v2 Hi Hj. specialize (Hu (S i) (S j) k' v1 v2 Hi Hj). lia.
  - apply IH. intros i j k' v1 v2 Hi Hj. specialize (Hu (S i) (S j) k' v1 v2 Hi Hj). lia.
Qed.

Lemma empty_or_full (g : list (option (lkey * lvalue))) : None ∈ g \/ None ∉ g.
Proof.
  induction g as [|[e|] g [H|H]]; [right; apply not_elem_of_nil|left; by right|right; by apply not_elem_of_cons|left; left|left; left].
Qed.

Lemma slots_suffice strs es placed g cs hash e : chains strs es placed g cs hash -> NoDup es.*1 -> length g = length (hashed sz es) ->
  e ∈ hashed sz es -> (forall i, g !! i <> Some (Some e)) -> None ∈ g.
Proof.
  intros C Hn Hl He Hno. destruct (empty_or_full g) as [|Hf]; [done|]. exfalso.
  assert (Hs : e :: held g ⊆+ hashed sz es).
  { apply NoDup_submseteq.
    - constructor; [intros [i Hi]%elem_held; by destruct (Hno i)|]. eapply NoDup_fmap_1, held_nodup, ch_unique, C.
    - intros x [->|Hx]%elem_of_cons; [done|]. apply elem_held in Hx as [i Hi]. destruct x as [k v]. by apply (ch_entry _ _ _ _ _ _ C) in Hi as [? _]. }
  apply submseteq_length in Hs. cbn [length] in Hs. rewrite (proj1 (held_length g) Hf) in Hs. lia.
Qed.

Lemma slots_full strs es g cs hash : chains strs es es g cs hash -> NoDup es.*1 -> length g = length (hashed sz es) -> None ∉ g.
Proof.
  intros C Hn Hl He. apply (proj1 (proj2 (held_length g))) in He.
  assert (Hs : hashed sz es ⊆+ held g).
  { apply NoDup_submseteq; [apply NoDup_filter; by eapply NoDup_fmap_1|]. intros [k v] Hx. apply elem_held. by eapply ch_placed. }
  apply submseteq_length in Hs. lia.
Qed.

(** *** A slot behind a head *)

Lemma linked_insert_ne hash j n l : j ∉ l -> linked hash l -> linked (<[j := n]> hash) l.
Proof.
  induction l as [|i l IH]; [done|]. intros [Hij Hj]%not_elem_of_cons [Hi Hl]. split; [by rewrite list_lookup_insert_ne|auto].
Qed.

Lemma colliding_insert hash j n i : n.1.2 = 0 -> colliding hash i -> colliding (<[j := n]> hash) i.
Proof.
  intros Hn (m & Hm & ?). destruct (decide (i = j)) as [->|]; [|exists m; by rewrite list_lookup_insert_ne].
  exists n. split; [|done]. apply list_lookup_insert_eq. by eapply lookup_lt_Some.
Qed.

Lemma colliding_eq hash j n : (j < length hash)%nat -> n.1.2 = 0 -> colliding (<[j := n]> hash) j.
Proof. intros. exists n. split; [by apply list_lookup_insert_eq|done]. Qed.

Lemma chain_insert_ne g hash c j e n : j ∉ c -> chain_ok g hash c -> chain_ok (<[j := e]> g) (<[j := n]> hash) c /\ chain_ok g (<[j := n]> hash) c.
Proof.
  intros Hj. destruct c as [|h rest]; [done|]. intros (Hl & Hf & Hc & Hr).
  assert (Hcol : forall i, i ∈ h :: rest -> colliding hash i -> colliding (<[j := n]> hash) i).
  { intros i Hi (m & Hm & ?). exists m. split; [|done]. rewrite list_lookup_insert_ne; [done|]. by intros ->. }
  assert (Hl' : linked (<[j := n]> hash) (h :: rest)) by by apply linked_insert_ne.
  assert (Hc' : rest <> [] -> colliding (<[j := n]> hash) h) by (intros; apply Hcol; [left|auto]).
  assert (Hr' : Forall (colliding (<[j := n]> hash)) rest).
  { rewrite Forall_forall in *. intros i Hi. apply Hcol; [by right|auto]. }
  split; (split; [done|]; split; [|done]); [|done]. eapply Forall_impl; [apply Forall_forall; intros i Hi; exact (conj Hi (proj1 (Forall_forall _ _) Hf i Hi))|].
  intros i [Hi (k & v & ? & ?)]. exists k, v. split; [|done]. rewrite list_lookup_insert_ne; [done|]. by intros ->.
Qed.

Lemma chain_extend g hash h rest n k v mk nc mv x nk : chain_ok g hash (h :: rest) -> NoDup (h :: rest) -> n ∉ h :: rest -> (n < length g)%nat -> length g = length hash ->
  hash !! h = Some (Some mk, nc, mv) -> main_of k = h -> next nk = next mk -> forall mk', next mk' = Z.of_nat n ->
  chain_ok (<[n := Some (k, v)]> g) (<[n := (Some nk, 0, x)]> (<[h := (Some mk', 0, mv)]> hash)) (h :: n :: rest).
Proof.
  intros (Hl & Hf & Hc & Hr) Hd Hn Hlt Hlen Hh Hm Enx mk' Emk. apply not_elem_of_cons in Hn as [Hne Hn]. apply NoDup_cons in Hd as [Hhr Hd].
  destruct Hl as [(n0 & nk0 & E0 & E1 & E2) Hl]. rewrite Hh in E0. injection E0 as <-. cbn in E1. injection E1 as <-. split; [|split; [|split]].
  - cbn [linked next_of]. split; [|split].
    + exists (Some mk', 0, mv), mk'. split; [|done]. rewrite list_lookup_insert_ne by done. apply list_lookup_insert_eq. by eapply lookup_lt_Some.
    + exists (Some nk, 0, x), nk. split; [|split; [done|by rewrite Enx]]. apply list_lookup_insert_eq. rewrite length_insert. lia.
    + by apply linked_insert_ne, linked_insert_ne.
  - apply Forall_cons in Hf as [Hf0 Hf].
    assert (Hg : forall i, i <> n -> (exists k v, g !! i = Some (Some (k, v)) /\ main_of k = h) -> exists k' v', <[n := Some (k, v)]> g !! i = Some (Some (k', v')) /\ main_of k' = h).
    { intros i Hi (k' & v' & ? & ?). exists k', v'. by rewrite list_lookup_insert_ne. }
    repeat apply Forall_cons; split; [apply Hg; [congruence|done]|]. apply Forall_cons. split; [exists k, v; split; [by apply list_lookup_insert_eq|done]|].
    rewrite Forall_forall in *. intros i Hi. apply Hg; [by intros ->|auto].
  - intros _. apply colliding_insert; [done|]. apply colliding_eq; [by eapply lookup_lt_Some|done].
  - apply Forall_cons. split; [apply colliding_eq; [rewrite length_insert; lia|done]|].
    eapply Forall_impl; [exact Hr|]. intros i Hi. by apply colliding_insert, colliding_insert.
Qed.

Lemma hashed_snoc_in es e e' : e' ∈ hashed sz (es ++ [e]) -> e' ∈ hashed sz es \/ e' = e.
Proof.
  rewrite hashed_snoc. intros [?|H]%elem_of_app; [by left|]. right. destruct (in_array sz e.1); [by apply elem_of_nil in H|].
  by apply list_elem_of_singleton in H.
Qed.

(** An entry that has its slot. *)
Lemma chains_skip strs es placed g cs hash k v : (in_array sz k = true \/ exists i, g !! i = Some (Some (k, v))) ->
  chains strs es placed g cs hash -> chains strs es (placed ++ [(k, v)]) g cs hash.
Proof.
  intros He [H1 H2 H3 H4 H5 H6 H7 H8]. split; [done..| |done|done|].
  - intros i k' v' Hi. destruct (H5 i k' v' Hi) as [? [?|?]]; split; auto. right. apply elem_of_app. by left.
  - intros k' v' Hk. destruct (hashed_snoc_in _ _ _ Hk) as [?|E]; [eauto|]. injection E as -> ->. destruct He as [He|He]; [|done].
    apply elem_hashed in Hk as [_ Hk]. cbn [fst] in Hk. congruence.
Qed.

(** The other chains stay as they are. *)
Lemma chains_relink g hash c1 c2 h rest n k v mk nc mv x nk mk' : NoDup (concat (c1 ++ (h :: rest) :: c2)) -> n ∉ concat (c1 ++ (h :: rest) :: c2) ->
  Forall (chain_ok g hash) (c1 ++ (h :: rest) :: c2) -> (n < length g)%nat -> length g = length hash ->
  hash !! h = Some (Some mk, nc, mv) -> main_of k = h -> next nk = next mk -> next mk' = Z.of_nat n ->
  Forall (chain_ok (<[n := Some (k, v)]> g) (<[n := (Some nk, 0, x)]> (<[h := (Some mk', 0, mv)]> hash))) (c1 ++ (h :: n :: rest) :: c2).
Proof.
  intros Hd Hn Hf Hlt Hlen Hh Hm Enx Emk. rewrite concat_app in Hd, Hn. cbn [concat] in Hd, Hn. rewrite !not_elem_of_app in Hn. destruct Hn as (Hn1 & Hnh & Hn2).
  rewrite !NoDup_app in Hd. destruct Hd as (_ & Hd1 & Hdh & Hd2 & _).
  assert (Hother : forall c, chain_ok g hash c -> n ∉ c -> h ∉ c -> chain_ok (<[n := Some (k, v)]> g) (<[n := (Some nk, 0, x)]> (<[h := (Some mk', 0, mv)]> hash)) c).
  { intros c Hc Hnc Hhc. refine (proj1 (chain_insert_ne _ _ _ _ _ _ Hnc _)). exact (proj2 (chain_insert_ne g hash c h None _ Hhc Hc)). }
  rewrite Forall_app, Forall_cons in *. destruct Hf as (Hf1 & Hfh & Hf2). split; [|split].
  - rewrite Forall_forall in *. intros c Hc. apply Hother; [auto|intros H; apply Hn1, elem_concat; eauto|].
    intros H. apply (Hd1 h); [apply elem_concat; eauto|]. apply elem_of_app. left. left.
  - by eapply chain_extend.
  - rewrite Forall_forall in *. intros c Hc. apply Hother; [auto|intros H; apply Hn2, elem_concat; eauto|].
    intros H. apply (Hd2 h); [left|]. apply elem_concat; eauto.
Qed.

Lemma chains_extend strs es placed g cs hash k v n mk nc mv x nk mk' : chains strs es placed g cs hash ->
  (k, v) ∈ hashed sz es -> (forall i v', g !! i <> Some (Some (k, v'))) -> g !! n = Some None ->
  hash !! main_of k = Some (Some mk, nc, mv) -> next nk = next mk -> next mk' = Z.of_nat n ->
  key mk' = key mk -> keyhash mk' = keyhash mk -> keytype mk' = keytype mk -> slot_ok strs (Some (k, v)) (Some nk, 0, x) ->
  exists cs', chains strs es (placed ++ [(k, v)]) (<[n := Some (k, v)]> g) cs' (<[n := (Some nk, 0, x)]> (<[main_of k := (Some mk', 0, mv)]> hash)).
Proof.
  intros [H1 H2 H3 H4 H5 H6 H7 H8] Hk Hno Hn Hmain Enx Emk Eky Ekh Ekt Hs.
  destruct (H7 k v Hk) as [rest Hc]. apply list_elem_of_split in Hc as (c1 & c2 & ->). set (h := main_of k) in *.
  assert (Hlen : length g = length hash) by by eapply Forall2_length.
  assert (Hlt : (n < length g)%nat) by by eapply lookup_lt_Some.
  assert (Hnc : n ∉ concat (c1 ++ (h :: rest) :: c2)) by (intros [e He]%H3; congruence).
  assert (Hperm : concat (c1 ++ (h :: n :: rest) :: c2) ≡ₚ n :: concat (c1 ++ (h :: rest) :: c2)).
  { rewrite !concat_app. cbn [concat app]. rewrite (Permutation_middle (concat c1)). apply Permutation_app_head, perm_swap. }
  assert (Hh : h ∈ concat (c1 ++ (h :: rest) :: c2)) by (apply elem_concat; eexists; split; [left|apply elem_of_app; right; left]).
  destruct (proj1 (H3 h) Hh) as [e He].
  exists (c1 ++ (h :: n :: rest) :: c2). split.
  - apply Forall2_insert; [|done]. rewrite <- (list_insert_id g h (Some e) He). apply Forall2_insert; [done|].
    destruct (slot_get _ _ _ _ _ H1 He) as (n0 & E0 & Hs0 & _). rewrite Hmain in E0. injection E0 as <-.
    destruct e as [k0 v0], Hs0 as (? & nk0 & E0 & Hki). cbn in E0. injection E0 as <-. split; [done|]. exists mk'. split; [done|].
    unfold key_is in *. by rewrite Eky, Ekh, Ekt.
  - rewrite Hperm. by constructor.
  - intros i. rewrite Hperm, elem_of_cons, H3. destruct (decide (i = n)) as [->|Hi].
    + split; [intros _|by left]. exists (k, v). by apply list_lookup_insert_eq.
    + rewrite list_lookup_insert_ne by done. naive_solver.
  - by eapply chains_relink.
  - intros i k' v' [(<- & [= <- <-] & _)|(Hi & E)]%list_lookup_insert_Some.
    + split; [done|]. right. apply elem_of_app. right. by left.
    + destruct (H5 i k' v' E) as [? [?|?]]; split; auto. right. apply elem_of_app. by left.
  - intros i j k' v1 v2 [(<- & [= <- <-] & _)|(Hi & E)]%list_lookup_insert_Some [(<- & E' & _)|(Hj & E')]%list_lookup_insert_Some; [done|naive_solver..].
  - intros k' v' Hk'. destruct (H7 k' v' Hk') as [r Hr]. setoid_rewrite elem_of_app. setoid_rewrite elem_of_cons.
    apply elem_of_app in Hr as [Hr|[[= -> ->]|Hr]%elem_of_cons]; eauto.
  - intros k' v' [Hk'|E]%hashed_snoc_in.
    + destruct (H8 k' v' Hk') as [i Hi]. exists i. rewrite list_lookup_insert_ne; [done|]. intros <-. congruence.
    + injection E as -> ->. exists n. by apply list_lookup_insert_eq.
Qed.

Lemma head_slot strs es placed g cs hash k v : chains strs es placed g cs hash -> (k, v) ∈ hashed sz es ->
  exists k0 v0 mk nc mv, g !! main_of k = Some (Some (k0, v0)) /\ (k0, v0) ∈ hashed sz es /\ hash !! main_of k = Some (Some mk, nc, mv) /\ key_is strs k0 mk.
Proof.
  intros C Hk. destruct (ch_main _ _ _ _ _ _ C k v Hk) as [rest Hc].
  destruct (proj1 (ch_filled _ _ _ _ _ _ C (main_of k))) as [[k0 v0] Hg]; [apply elem_concat; eexists; split; [left|done]|].
  destruct (slot_get _ _ _ _ _ (ch_slots _ _ _ _ _ _ C) Hg) as ([[onk nc] mv] & Hh & (_ & mk & E & Hki) & _). cbn in E. subst onk.
  exists k0, v0, mk, nc, mv. split; [done|]. split; [by apply (ch_entry _ _ _ _ _ _ C) in Hg as [? _]|done].
Qed.

Lemma fillcolliding_ok es todo : forall placed hash strs g cs, (0 < N)%nat -> es = placed ++ todo -> NoDup es.*1 -> Forall wf_entry todo -> NoDup strs ->
  length g = N -> length (hashed sz es) = N -> chains strs es placed g cs hash ->
  exists hash' strs' g' cs', fillcolliding conv todo sz hash strs = Ok (hash', strs') /\ grows strs strs' /\ length g' = N /\ chains strs' es es g' cs' hash'.
Proof.
  induction todo as [|[k v] todo IH]; intros placed hash strs g cs HN Ees Hnd Hw Hn Hlg Hle C.
  { rewrite app_nil_r in Ees. subst placed. exists hash, strs, g, cs. split_and!; auto with grow. }
  apply Forall_cons in Hw as [[Hk Hv] Hw]. cbn [fst snd] in Hk, Hv. cbn [fillcolliding].
  assert (Ees' : es = (placed ++ [(k, v)]) ++ todo) by by rewrite <- app_assoc.
  destruct (ishashkey_spec sz strs k Hk Hn) as (s1 & G1 & E1). assert (C1 := chains_grows _ _ _ _ _ _ _ G1 C).
  assert (Hn1 : NoDup s1) by eauto with grow. pose proof (Forall2_length _ _ _ (ch_slots _ _ _ _ _ _ C)) as Hlh.
  assert (Hnext : forall s2 hash2 g2 cs2, grows s1 s2 -> length g2 = N -> chains s2 es (placed ++ [(k, v)]) g2 cs2 hash2 ->
    exists hash' strs' g' cs', fillcolliding conv todo sz hash2 s2 = Ok (hash', strs') /\ grows strs strs' /\ length g' = N /\ chains strs' es es g' cs' hash').
  { intros s2 hash2 g2 cs2 G2 Hl2 C2. destruct (IH (placed ++ [(k, v)]) hash2 s2 g2 cs2) as (h' & s' & g' & cs' & E & G & ?); [done..|eauto with grow|done|done|done|].
    exists h', s', g', cs'. split; [done|]. split; [eauto with grow|done]. }
  destruct (in_array sz k) eqn:Hin.
  { rewrite E1, bind_ret. eapply Hnext; [eauto with grow|done|]. apply chains_skip; [by left|done]. }
  destruct E1 as (ky & kt & -> & Hkey). rewrite bind_ret, <- Hlh, Hlg.
  assert (Hpos : 0 <= hash_of k mod Z.of_nat N) by (apply Z.mod_pos_bound; lia).
  assert (Hkv : (k, v) ∈ hashed sz es) by (apply elem_hashed; split; [subst es; apply elem_of_app; right; left|done]).
  destruct (head_slot _ _ _ _ _ _ _ _ C1 Hkv) as (k0 & v0 & mk & nc & mv & Hg0 & Hkv0 & Hslot & Hmk).
  rewrite (arr_get_ok _ _ _ Hpos Hslot), bind_ret. cbn [init_read]. rewrite bind_ret.
  pose proof (same_key s1 k0 k mk (NodeKey ky (-1) (hash_of k) kt) Hn1 Hmk (Hkey _)) as Hsame. cbn [keytype key] in Hsame. rewrite Hsame.
  assert (Hval : forall v', (k, v') ∈ hashed sz es -> v' = v).
  { intros v' [Hv' _]%elem_hashed. apply elem_hashed in Hkv as [Hkv _]. by eapply same_entry. }
  case_bool_decide as E0.
  { subst k0. rewrite (Hval v0 Hkv0) in Hg0. eapply Hnext; [eauto with grow|done|]. apply chains_skip; [eauto|done]. }
  assert (Hno : forall i v', g !! i <> Some (Some (k, v'))).
  { intros i v' Hi. destruct (ch_entry _ _ _ _ _ _ C1 _ _ _ Hi) as [Hkv' [Hm|Hp]]; [congruence|]. rewrite (Hval v' Hkv') in Hp.
    rewrite Ees, fmap_app, NoDup_app in Hnd. destruct Hnd as (_ & Hnd & _). apply (Hnd k); [apply list_elem_of_fmap; by exists (k, v)|left]. }
  destruct (find_empty_spec s1 g hash (ch_slots _ _ _ _ _ _ C1) 0) as (n & -> & Hgn); [by eapply slots_suffice; [exact C1|done|lia|exact Hkv|]|].
  assert (Hltn : (n < length g)%nat) by by eapply lookup_lt_Some. assert (Hltm := lookup_lt_Some _ _ _ Hslot). unfold main_of in Hltm.
  rewrite arr_set_ok, bind_ret by lia. destruct (setvalue_ok v s1 Hv Hn1) as (x & s2 & -> & G2 & Hr). rewrite bind_ret, arr_set_ok, bind_ret by (rewrite ?length_insert; lia).
  rewrite Z.add_0_l, Nat2Z.id. fold (main_of k).
  destruct (chains_extend s2 es placed g cs hash k v n mk nc mv x (NodeKey ky (next mk) (hash_of k) kt) (NodeKey (key mk) (Z.of_nat n) (keyhash mk) (keytype mk))) as [cs' C2]; try done.
  - eauto using chains_grows with grow.
  - split; [done|]. eexists. split; [done|]. eauto using key_is_grows.
  - eapply Hnext; [exact G2| |exact C2]. by rewrite length_insert.
Qed.

(** ** One table *)

(** The array and the [N] slots hold the entries of [es], and only them. *)
Definition laid_out (strs : list (list Z)) (es : list (lkey * lvalue)) (array : list value) (hash : list node) : Prop :=
  Z.of_nat (length array) = sz /\ array_ok strs es array /\
  exists g cs, length g = N /\ (None ∉ g) /\ chains strs es es g cs hash.

End Layout.

Section Convert.
Context (R : list (list Z) -> lvalue -> value -> Prop).
Context (R_grows : forall a b v x, grows a b -> R a v x -> R b v x) (R_nil : forall a v x, R a v x -> is_nil x = false).
Context (conv : Z -> list (lkey * lvalue) -> list (list Z) -> outcome (value * list (list Z))) (wf : lvalue -> Prop).
Context (setvalue_ok : forall v strs, wf v -> NoDup strs ->
  exists x strs', setvalue conv strs (Some v) = Ok (x, strs') /\ grows strs strs' /\ R strs' v x).

Lemma laid_out_grows sz N a b es array hash : grows a b -> laid_out R sz N a es array hash -> laid_out R sz N b es array hash.
Proof.
  intros G (Hl & Ha & g & cs & Hg & Hf & C). split; [done|]. split; [by eapply array_ok_grows|]. exists g, cs. split_and!; [done..|]. by eapply chains_grows.
Qed.

(** What Lua guarantees of a table, and what the conversion takes. *)
Definition wf_table (len : Z) (es : list (lkey * lvalue)) : Prop :=
  0 <= len < 2^31 /\ Z.of_nat (length es) < 2^31 /\ NoDup es.*1 /\ Forall (wf_entry wf) es.

(** The array part alone, filled by index. *)
Lemma array_loop len es strs : wf_table len es -> NoDup strs ->
  exists array strs', for_loop (Z.to_nat len) 1 (fun i '(array, strs) => setarray conv array strs (rawget (KInt i) es) i) (replicate (Z.to_nat len) VALUETYPE_NIL, strs) = Ok (array, strs') /\
    grows strs strs' /\ length array = Z.to_nat len /\ array_ok R strs' es array.
Proof.
  intros (Hlen & _ & Hnd & Hw) Hn.
  pose (inv := fun (j : Z) (st : list value * list (list Z)) => grows strs st.2 /\ length st.1 = Z.to_nat len /\
    forall i x, st.1 !! i = Some x -> Z.of_nat i + 1 < j ->
      (x = VALUETYPE_NIL /\ forall v, (KInt (Z.of_nat i + 1), v) ∉ es) \/ exists v, (KInt (Z.of_nat i + 1), v) ∈ es /\ R st.2 v x).
  edestruct (for_loop_inv inv) as ([array strs'] & E & Hi).
  3: { exists array, strs'. split; [exact E|]. destruct Hi as (G & Hl & Ha). cbn [fst snd] in *. split; [done|]. split; [done|].
       intros i x Hx. apply Ha; [done|]. apply lookup_lt_Some in Hx. lia. }
  - split; [by apply grows_refl|]. cbn [fst snd]. split; [apply length_replicate|]. intros; lia.
  - intros j [a s] Hj (G & Hl & Ha). cbn [fst snd] in *. unfold setarray.
    assert (exists x s', setvalue conv s (rawget (KInt j) es) = Ok (x, s') /\ grows s s' /\
      ((x = VALUETYPE_NIL /\ forall v, (KInt j, v) ∉ es) \/ exists v, (KInt j, v) ∈ es /\ R s' v x)) as (x & s' & -> & G' & Hx).
    { destruct (rawget (KInt j) es) as [v|] eqn:Ev.
      - apply rawget_in in Ev. destruct (setvalue_ok v s) as (x & s' & ? & ? & ?); [exact (proj2 (proj1 (Forall_forall _ _) Hw _ Ev))|by eauto with grow|].
        exists x, s'. split; [done|]. split; [done|]. right. by exists v.
      - exists VALUETYPE_NIL, s. split; [done|]. split; [eauto with grow|]. left. split; [done|]. intros v Hv%rawget_elem; [congruence|done]. }
    rewrite bind_ret, arr_set_ok, bind_ret by lia. eexists. split; [done|]. split; [cbn; eauto with grow|]. cbn [fst snd]. split; [by rewrite length_insert|].
    intros i y [(Ei & -> & _)|(Hne & E)]%list_lookup_insert_Some Hlt.
    + replace (Z.of_nat i + 1) with j by lia. done.
    + destruct (Ha i y E) as [?|(v & ? & ?)]; [lia|by left|]. right. eauto.
Qed.

Lemma convert_ok len es strs : wf_table len es -> NoDup strs ->
  exists array hash strs', convert conv len es strs = Ok (VALUETYPE_TABLE array hash, strs') /\ grows strs strs' /\ laid_out R len (length hash) strs' es array hash.
Proof.
  intros Hw Hn. pose proof Hw as (Hlen & Hes & Hnd & Hf). unfold convert. rewrite i32_small by done. destruct (Z.ltb_spec len 0); [lia|].
  assert (Hk : Forall wf_key es.*1) by (apply Forall_fmap; eapply Forall_impl; [done|]; by intros ? []).
  rewrite countsize_spec, bind_ret by (done || lia). rewrite Z.add_0_l, Nat2Z.id. set (N := length (hashed len es)).
  destruct (Z.eqb_spec (Z.of_nat N) 0) as [E0|E0]; cbn [negb].
  - destruct (array_loop len es strs Hw Hn) as (a & s' & -> & G & Hl & Ha). rewrite bind_ret. exists a, [], s'. split; [done|]. split; [done|].
    split; [lia|]. split; [done|]. exists [], []. split; [done|]. split; [apply not_elem_of_nil|].
    assert (Eh : hashed len es = []) by (apply nil_length_inv; unfold N in E0; lia).
    split; [constructor|constructor| |constructor|done|done|..]; [|rewrite Eh; intros ? ? H0; by apply elem_of_nil in H0..].
    intros i. cbn. split; [by intros ?%elem_of_nil|]. by intros [].
  - destruct (fillnocolliding_ok R R_grows R_nil len N conv wf setvalue_ok es [] (replicate (Z.to_nat len) VALUETYPE_NIL) (replicate N (None, 0, VALUETYPE_NIL)) strs (replicate N None))
      as (a & h & s1 & g & -> & G1 & Hla & Hlg & Ha & Hh); [lia|done|done|apply length_replicate|apply length_replicate|lia| | |].
    + intros i x [-> _]%lookup_replicate. left. split; [done|]. intros v Hv. by apply elem_of_nil in Hv.
    + split.
      * apply Forall2_replicate. done.
      * intros i k v [[=] _]%lookup_replicate.
      * intros k v Hv. by apply elem_of_nil in Hv.
    + rewrite bind_ret. cbn [app] in *. apply heads_chains in Hh.
      destruct (fillcolliding_ok R R_grows R_nil len N conv wf setvalue_ok es es [] h s1 g (singles g)) as (h' & s' & g' & cs & -> & G2 & Hlg' & C); [lia|done|done|done|eauto with grow|done|done|exact Hh|].
      rewrite bind_ret. exists a, h', s'. split; [done|]. split; [eauto with grow|].
      assert (length h' = N) as -> by (rewrite <- Hlg'; symmetry; eapply Forall2_length, ch_slots, C).
      split; [lia|]. split; [by eapply array_ok_grows|]. exists g', cs. split; [done|]. split; [|done]. eapply slots_full; [exact C|done|done].
Qed.
End Convert.
