(* ===== verification/SharedataProofs.v ===== *)
(** * Shared tables: reading them

    A shared table answers like the Lua table it was made from, at any depth, and its
    keys can be enumerated. *)

From S2P Require Import Prelude Sharedata SharedataFill.
From stdpp Require Import base numbers list.
From Stdlib Require Import ZArith Lia.
From Stdlib Require String.
Import String.StringSyntax.
#[local] Open Scope Z_scope.
#[local] Open Scope list_scope.
Import Sharedata.

(** ** Looking up a key *)

Definition type_of (k : lkey) : Z := match k with KStr _ => KEYTYPE_STRING | _ => KEYTYPE_INTEGER end.
Definition str_of (k : lkey) : list Z := match k with KStr s => s | _ => [] end.

(** The test of [lookup_key] on one node. *)
Lemma node_test strs k k' n : wf_key k -> key_is strs k' n ->
  (if keyhash n =? hash_of k then
     if keytype n =? KEYTYPE_INTEGER then Ok ((type_of k =? KEYTYPE_INTEGER) && (key n =? int_of k))
     else if type_of k =? KEYTYPE_STRING then str2 ← lua_tolstring strs (key n); Ok (bool_decide (str_of k = str2))
     else Ok false
   else Ok false) = Ok (bool_decide (k' = k)).
Proof.
  intros Hk [Hh Hn]. rewrite Hh. destruct (Z.eqb_spec (hash_of k') (hash_of k)) as [_|Hne].
  2: { rewrite bool_decide_eq_false_2; [done|]. congruence. }
  destruct k' as [i'| |s'| |], k as [i| |s| |]; try done; destruct Hn as [-> Hn]; cbn [type_of str_of int_of Z.eqb KEYTYPE_INTEGER KEYTYPE_STRING Pos.eqb andb].
  - rewrite Hn. f_equal. case_bool_decide as E; [injection E as ->; apply Z.eqb_refl|]. apply Z.eqb_neq. congruence.
  - by rewrite bool_decide_eq_false_2.
  - by rewrite bool_decide_eq_false_2.
  - rewrite Hn, bind_ret. f_equal. apply bool_decide_ext. naive_solver.
Qed.

Section Lookup.
Context (R : list (list Z) -> lvalue -> value -> Prop) (R_nil : forall a v x, R a v x -> is_nil x = false).
Context (strs : list (list Z)) (sz : Z) (es : list (lkey * lvalue)) (hash : list node) (g : list (option (lkey * lvalue))) (cs : list (list nat)).
Context (C : chains R sz (length hash) strs es es g cs hash) (Hfull : None ∉ g).
Context (k : lkey) (Hk : wf_key k).

(** The slot that was found holds the key; when none is found no slot of [l] does. *)
Definition found_in (l : list nat) (r : option Z) : Prop :=
  match r with
  | Some j => exists i v, j = Z.of_nat i /\ g !! i = Some (Some (k, v))
  | None => forall i v, i ∈ l -> g !! i <> Some (Some (k, v))
  end.

Lemma filled_node i : is_Some (g !! i) -> exists k' v' nk nc x, g !! i = Some (Some (k', v')) /\ hash !! i = Some (Some nk, nc, x) /\ key_is strs k' nk /\ R strs v' x.
Proof.
  intros [[[k' v']|] Hg]; [|by apply list_elem_of_lookup_2 in Hg].
  destruct (slot_get R R_nil _ _ _ _ _ (ch_slots _ _ _ _ _ _ _ _ _ C) Hg) as ([[onk nc] x] & Hh & (? & nk & E & ?) & _). cbn in E. subst onk. eauto 10.
Qed.

Lemma chain_lookup_ok l : forall fuel i, linked hash (i :: l) -> Forall (fun i => is_Some (g !! i)) (i :: l) -> (length l < fuel)%nat ->
  exists r, lookup_loop strs fuel hash (hash_of k) (int_of k) (type_of k) (str_of k) (Z.of_nat i) = Ok r /\ found_in (i :: l) r.
Proof.
  induction l as [|j l IH]; intros fuel i Hl Hf Hfuel; (destruct fuel as [|fuel]; [lia|]); cbn [lookup_loop];
    apply Forall_cons in Hf as [Hi Hf]; destruct (filled_node i Hi) as (k' & v' & nk & nc & x & Hg & Hh & Hki & _);
    destruct Hl as [(n0 & nk0 & E0 & E1 & Enx) Hl]; rewrite Hh in E0; injection E0 as <-; cbn in E1; injection E1 as <-;
    rewrite (arr_get_ok _ _ (Some nk, nc, x)) by (lia || by rewrite Nat2Z.id); rewrite bind_ret; cbn [init_read]; rewrite bind_ret, (node_test _ _ _ _ Hk Hki), bind_ret;
    (case_bool_decide as E; [subst k'; eexists; split; [done|]; by exists i, v'|]); rewrite Enx; cbn [next_of].
  - eexists. split; [done|]. intros i' v ->%list_elem_of_singleton. congruence.
  - destruct (Z.ltb_spec (Z.of_nat j) 0); [lia|]. cbn [length] in Hfuel. destruct (IH fuel j Hl Hf) as (r & -> & Hr); [lia|]. exists r. split; [done|].
    destruct r as [z|]; [done|]. intros i' v [->|Hi']%elem_of_cons; [congruence|by apply Hr].
Qed.

Lemma linked_suffix l l' : linked hash (l ++ l') -> linked hash l'.
Proof. induction l as [|i l IH]; [done|]. intros [_ H]. auto. Qed.

Lemma chain_facts c : c ∈ cs -> linked hash c /\ Forall (fun i => is_Some (g !! i)) c /\ (length c <= length hash)%nat.
Proof.
  intros Hc. pose proof (proj1 (Forall_forall _ _) (ch_chain _ _ _ _ _ _ _ _ _ C) c Hc) as Hok.
  assert (Hf : Forall (fun i => is_Some (g !! i)) c).
  { destruct c as [|h rest]; [done|]. destruct Hok as (_ & Hf & _). eapply Forall_impl; [exact Hf|]. intros j (k1 & v1 & E & _). by eexists. }
  split; [by destruct c as [|h rest]; [|destruct Hok]|]. split; [done|].
  assert (Hsub : c ⊆+ seq 0 (length hash)).
  { apply NoDup_submseteq.
    - pose proof (ch_nodup _ _ _ _ _ _ _ _ _ C) as Hd. apply list_elem_of_split in Hc as (c1 & c2 & ->). rewrite concat_app in Hd. cbn [concat] in Hd.
      apply NoDup_app in Hd as (_ & _ & Hd). by apply NoDup_app in Hd as (? & _).
    - intros j Hj. apply elem_of_seq. rewrite Forall_forall in Hf. destruct (Hf j Hj) as [e He]. apply lookup_lt_Some in He.
      rewrite (Forall2_length _ _ _ (ch_slots _ _ _ _ _ _ _ _ _ C)) in He. lia. }
  apply submseteq_length in Hsub. by rewrite length_seq in Hsub.
Qed.

Lemma in_chain i e : g !! i = Some (Some e) -> exists c, i ∈ c /\ c ∈ cs.
Proof. intros Hg. apply elem_concat, (ch_filled _ _ _ _ _ _ _ _ _ C). by exists e. Qed.

(** An entry with the key is on the chain that starts at the main position, and the
    test of the head does not stop the search. *)
Lemma own_chain i v : g !! i = Some (Some (k, v)) ->
  exists rest, (main_of (length hash) k :: rest) ∈ cs /\ i ∈ main_of (length hash) k :: rest /\
    (i = main_of (length hash) k \/ colliding hash (main_of (length hash) k)).
Proof.
  intros Hi. destruct (in_chain i _ Hi) as (c & Hic & Hc). pose proof (proj1 (Forall_forall _ _) (ch_chain _ _ _ _ _ _ _ _ _ C) c Hc) as Hok.
  destruct c as [|h rest]; [done|]. destruct Hok as (_ & Hmain & Hcol & _).
  destruct (proj1 (Forall_forall _ _) Hmain i Hic) as (k1 & v1 & E1 & <-). rewrite Hi in E1. injection E1 as <- <-.
  exists rest. split; [done|]. split; [done|]. apply elem_of_cons in Hic as [->|Hic]; [by left|]. right. apply Hcol. intros ->. by apply elem_of_nil in Hic.
Qed.

Lemma holds_dec : (exists i v, g !! i = Some (Some (k, v))) \/ (forall i v, g !! i <> Some (Some (k, v))).
Proof.
  destruct (decide (k ∈ (held g).*1)) as [H|H]; [left|right].
  - apply list_elem_of_fmap in H as ([k' v] & -> & Hv). apply elem_held in Hv as [i Hi]. eauto.
  - intros i v Hi. apply H, list_elem_of_fmap. exists (k, v). split; [done|]. apply elem_held. eauto.
Qed.

Lemma lookup_key_ok :
  exists r, lookup_key strs hash (hash_of k) (int_of k) (type_of k) (str_of k) = Ok r /\ found_in (seq 0 (length hash)) r.
Proof.
  unfold lookup_key. destruct (Z.eqb_spec (Z.of_nat (length hash)) 0) as [E|HN].
  { exists None. split; [done|]. intros i v Hi%elem_of_seq. lia. }
  pose proof (Forall2_length _ _ _ (ch_slots _ _ _ _ _ _ _ _ _ C)) as Hlen. pose proof own_chain as Hown.
  set (m := main_of (length hash) k) in *. assert (Hm : Z.of_nat m = hash_of k mod Z.of_nat (length hash)).
  { unfold m, main_of. pose proof (Z.mod_pos_bound (hash_of k) (Z.of_nat (length hash))). lia. }
  destruct (filled_node m) as (k' & v' & nk & nc & x & Hg & Hh & Hki & _).
  { apply lookup_lt_is_Some. rewrite Hlen. apply main_of_lt. lia. }
  rewrite <- Hm, (arr_get_ok _ _ (Some nk, nc, x)) by (lia || by rewrite Nat2Z.id). rewrite bind_ret. cbn [init_read]. rewrite bind_ret.
  destruct holds_dec as [(i & v & Hi)|Hno].
  - destruct (Hown i v Hi) as (rest & Hc & Hic & Hcol). destruct (chain_facts _ Hc) as (Hl & Hf & Hle). cbn [length] in Hle.
    replace (negb (hash_of k =? keyhash nk) && negb (nc =? 0)) with false.
    + destruct (chain_lookup_ok rest (length hash) m Hl Hf) as (r & -> & Hr); [lia|]. exists r. split; [done|]. destruct r; [done|]. by destruct (Hr i v Hic).
    + destruct Hcol as [->|(n0 & E0 & E1)].
      * rewrite Hg in Hi. injection Hi as -> ->. destruct Hki as [-> _]. by rewrite Z.eqb_refl.
      * rewrite Hh in E0. injection E0 as <-. cbn in E1. subst nc. symmetry. apply andb_false_r.
  - destruct (negb (hash_of k =? keyhash nk) && negb (nc =? 0)); [exists None; split; [done|]; intros i v _; apply Hno|].
    destruct (in_chain m _ Hg) as (c & Hmc & Hc). destruct (chain_facts _ Hc) as (Hl & Hf & Hle). apply list_elem_of_split in Hmc as (l1 & l2 & ->).
    rewrite length_app in Hle. cbn [length] in Hle.
    destruct (chain_lookup_ok l2 (length hash) m (linked_suffix _ _ Hl) (proj2 (proj1 (Forall_app _ _ _) Hf))) as (r & -> & Hr); [lia|].
    exists r. split; [done|]. destruct r as [z|]; [done|]. intros i v _. apply Hno.
Qed.
End Lookup.

(** ** Reading one table *)

Section Read.
Context (R : list (list Z) -> lvalue -> value -> Prop) (R_nil : forall a v x, R a v x -> is_nil x = false).
Context (strs : list (list Z)) (sz : Z) (es : list (lkey * lvalue)) (array : list value) (hash : list node).
Context (Hnd : NoDup es.*1) (L : laid_out R sz (length hash) strs es array hash).
Context (push_ok : forall v x, R strs v x -> exists y, pushvalue strs x = Ok y).

Lemma in_array_get n : in_array sz (KInt n) = true ->
  exists x, arr_get array (n - 1) = Ok x /\ ((x = VALUETYPE_NIL /\ rawget (KInt n) es = None) \/ exists v, rawget (KInt n) es = Some v /\ R strs v x).
Proof.
  destruct L as (Hl & Ha & _). cbn [in_array]. intros Hn. destruct (lookup_lt_is_Some_2 array (Z.to_nat (n - 1))) as [x Hx]; [lia|].
  exists x. split; [apply arr_get_ok; [lia|done]|]. destruct (Ha _ _ Hx) as [(-> & Hno)|(v & Hv & ?)];
    replace (Z.of_nat (Z.to_nat (n - 1)) + 1) with n in * by lia.
  - left. split; [done|]. destruct (rawget (KInt n) es) as [v|] eqn:E; [|done]. apply rawget_in in E. by destruct (Hno v).
  - right. exists v. split; [|done]. by apply rawget_elem.
Qed.

(** What [lindexconf] returns for an entry of the Lua table, or for none. *)
Definition answers (v : option lvalue) (r : option result) : Prop :=
  match v with
  | None => r = None \/ r = Some RNil
  | Some v => exists x y, R strs v x /\ pushvalue strs x = Ok y /\ r = Some y
  end.

Lemma node_answers k : wf_key k -> in_array sz k = false ->
  exists r, (n ← lookup_key strs hash (hash_of k) (int_of k) (type_of k) (str_of k);
             match n with None => Ok None | Some i => '(_, _, v) ← arr_get hash i; r ← pushvalue strs v; Ok (Some r) end) = Ok r /\ answers (rawget k es) r.
Proof.
  intros Hk Hin. destruct L as (_ & _ & g & cs & Hlg & Hfull & C). destruct (lookup_key_ok R R_nil _ _ _ _ _ _ C Hfull k Hk) as (r & -> & Hr). rewrite bind_ret.
  destruct r as [j|].
  - destruct Hr as (i & v & -> & Hg). destruct (filled_node R R_nil _ _ _ _ _ _ C Hfull i) as (k' & v' & nk & nc & x & Hg' & Hh & _ & Hx); [by eexists|].
    rewrite Hg in Hg'. injection Hg' as <- <-. rewrite (arr_get_ok _ _ (Some nk, nc, x)) by (lia || by rewrite Nat2Z.id). rewrite bind_ret.
    destruct (push_ok v x Hx) as [y Hy]. rewrite Hy, bind_ret. eexists. split; [done|].
    destruct (ch_entry _ _ _ _ _ _ _ _ _ C _ _ _ Hg) as [[Hv _]%elem_hashed _]. rewrite (rawget_elem _ _ _ Hnd Hv). exists x, y. done.
  - exists None. split; [done|]. destruct (rawget k es) as [v|] eqn:E; [|by left]. exfalso. apply rawget_in in E.
    destruct (ch_placed _ _ _ _ _ _ _ _ _ C k v) as [i Hi]; [by apply elem_hashed|]. apply (Hr i v); [|done]. apply elem_of_seq. apply lookup_lt_Some in Hi. lia.
Qed.

Lemma lindexconf_ok k : wf_key k -> exists r, lindexconf strs array hash k = Ok r /\ answers (rawget k es) r.
Proof.
  intros Hk. pose proof (node_answers k Hk) as Hnode. destruct L as (Hl & _). unfold lindexconf. destruct k as [n| |s| |]; try done; cbn [wf_key] in Hk.
  - rewrite i32_int, Hl by done. change ((0 <? n) && (n <=? sz)) with (in_array sz (KInt n)). destruct (in_array sz (KInt n)) eqn:Hin; [|by apply Hnode].
    destruct (in_array_get n Hin) as (x & -> & Hx). rewrite bind_ret. destruct Hx as [(-> & ->)|(v & -> & Hx)].
    + eexists. split; [done|]. by right.
    + destruct (push_ok v x Hx) as [y Hy]. rewrite Hy, bind_ret. eexists. split; [done|]. exists x, y. done.
  - rewrite calchash_ok, bind_ret. by apply Hnode.
Qed.
End Read.

(** ** The conversion at any depth *)

(** Tables nested to a depth of at most [d], with keys and values that are taken. *)
Fixpoint wf_value (d : nat) (v : lvalue) : Prop :=
  match v with
  | VTable len es => match d with O => False | S d => wf_table (wf_value d) len es end
  | VOther => False
  | _ => True
  end.

(** A value and what stands for it. *)
Fixpoint repr (d : nat) (strs : list (list Z)) (v : lvalue) (x : value) : Prop :=
  match v, x with
  | VReal n, VALUETYPE_REAL m => m = n
  | VInt n, VALUETYPE_INTEGER m => m = n
  | VBool b, VALUETYPE_BOOLEAN b' => b' = b
  | VStr s, VALUETYPE_STRING i => lua_tolstring strs i = Ok s
  | VTable len es, VALUETYPE_TABLE array hash =>
      match d with
      | O => False
      | S d => 0 <= len < 2^31 /\ NoDup es.*1 /\ Forall wf_key es.*1 /\ laid_out (repr d) len (length hash) strs es array hash
      end
  | _, _ => False
  end.

Lemma repr_grows d : forall a b v x, grows a b -> repr d a v x -> repr d b v x.
Proof.
  induction d as [|d IH]; intros a b v x G; destruct v, x; try done; cbn [repr]; eauto using tolstring_grows.
  intros (? & ? & ? & ?). split; [done|]. split; [done|]. split; [done|]. by eapply laid_out_grows.
Qed.

Lemma repr_nil d a v x : repr d a v x -> is_nil x = false.
Proof. by destruct d, v, x. Qed.

Lemma repr_push d strs v x : repr d strs v x -> exists y, pushvalue strs x = Ok y.
Proof. destruct d, v, x; try done; try (by eexists); cbn [repr pushvalue]; intros ->; by eexists. Qed.

Lemma convtable_ok d : forall len es strs, wf_value d (VTable len es) -> NoDup strs ->
  exists array hash strs', convtable d len es strs = Ok (VALUETYPE_TABLE array hash, strs') /\ grows strs strs' /\ repr d strs' (VTable len es) (VALUETYPE_TABLE array hash).
Proof.
  induction d as [|d IH]; intros len es strs Hw Hn; [done|]. cbn [wf_value] in Hw. cbn [convtable repr].
  destruct (convert_ok (repr d) (repr_grows d) (repr_nil d) (convtable d) (wf_value d)) with (len := len) (es := es) (strs := strs) as (a & h & s' & E & G & HL); [|done..|].
  - intros v s Hv Hs. destruct v as [n|n|t|b|len' es'|]; cbn [setvalue].
    + eexists _, _. split; [done|]. split; [auto with grow|]. by destruct d.
    + eexists _, _. split; [done|]. split; [auto with grow|]. by destruct d.
    + destruct (stringindex_spec s t Hs) as (i & s' & -> & G & Hi). eexists _, _. split; [done|]. split; [done|]. by destruct d.
    + eexists _, _. split; [done|]. split; [auto with grow|]. by destruct d.
    + destruct (IH len' es' s Hv Hs) as (a & h & s' & ? & ? & ?). eauto.
    + by destruct d.
  - exists a, h, s'. split; [done|]. split; [done|]. destruct Hw as (? & _ & ? & Hf). split; [done|]. split; [done|]. split; [|done].
    apply Forall_fmap. eapply Forall_impl; [exact Hf|]. by intros ? [].
Qed.

(** ** Indexing along a path *)

(** [t[k1][k2]...] of Lua. *)
Fixpoint get_path (v : option lvalue) (ks : list lkey) : option lvalue :=
  match ks with
  | [] => v
  | k :: ks => match v with Some (VTable _ es) => get_path (rawget k es) ks | _ => None end
  end.

(** The same by calls of [lindexconf]. *)
Fixpoint index_path (strs : list (list Z)) (r : option result) (ks : list lkey) : outcome (option result) :=
  match ks with
  | [] => Ok r
  | k :: ks => match r with Some (RTable array hash) => r ← lindexconf strs array hash k; index_path strs r ks | _ => Ok None end
  end.

Definition shown (strs : list (list Z)) (v : option lvalue) (r : option result) : Prop :=
  match v with
  | None => r = None \/ r = Some RNil
  | Some v => exists d x y, repr d strs v x /\ pushvalue strs x = Ok y /\ r = Some y
  end.

Lemma shown_table strs len es r : shown strs (Some (VTable len es)) r ->
  exists d array hash, r = Some (RTable array hash) /\ 0 <= len < 2^31 /\ NoDup es.*1 /\ Forall wf_key es.*1 /\ laid_out (repr d) len (length hash) strs es array hash.
Proof.
  intros (d & x & y & Hr & Hy & ->). destruct d, x as [| | | | |array hash]; try done. injection Hy as <-. exists d, array, hash. done.
Qed.

Lemma index_shown strs array hash d len es k : NoDup es.*1 -> laid_out (repr d) len (length hash) strs es array hash -> wf_key k ->
  exists r, lindexconf strs array hash k = Ok r /\ shown strs (rawget k es) r.
Proof.
  intros Hnd HL Hk. destruct (lindexconf_ok (repr d) (repr_nil d) strs len es array hash Hnd HL (repr_push d strs) k Hk) as (r & -> & Hr).
  exists r. split; [done|]. destruct (rawget k es); [|done]. destruct Hr as (x & y & ?). by exists d, x, y.
Qed.

(** What a reader sees of a value of Lua; a table by its address. *)
Definition reads_as (v : option lvalue) (r : option result) : Prop :=
  match v with
  | None => r = None \/ r = Some RNil
  | Some (VReal n) => r = Some (RReal n)
  | Some (VInt n) => r = Some (RInteger n)
  | Some (VStr s) => r = Some (RString s)
  | Some (VBool b) => r = Some (RBoolean b)
  | Some (VTable _ _) => exists array hash, r = Some (RTable array hash)
  | Some VOther => False
  end.

Lemma shown_reads strs v r : shown strs v r -> reads_as v r.
Proof.
  destruct v as [v|]; [|done]. intros (d & x & y & Hr & Hy & ->).
  destruct d, v, x; try done; cbn [repr pushvalue reads_as] in *; subst; rewrite ?Hr in Hy; cbn in Hy; injection Hy as <-; eauto.
Qed.

Lemma path_shown strs ks : Forall wf_key ks -> forall v r, shown strs v r -> exists r', index_path strs r ks = Ok r' /\ shown strs (get_path v ks) r'.
Proof.
  induction 1 as [|k ks Hk Hks IH]; intros v r Hs; cbn [index_path get_path]; [by exists r|]. destruct v as [v|].
  2: { exists None. split; [by destruct Hs as [->| ->]|by left]. }
  pose proof (shown_reads _ _ _ Hs) as Hv. destruct v as [| | | |len es|]; cbn [reads_as] in Hv; try (subst r; exists None; split; [done|by left]); [|done].
  destruct (shown_table _ _ _ _ Hs) as (d & a & h & -> & _ & Hnd & _ & HL). destruct (index_shown _ _ _ _ _ _ _ Hnd HL Hk) as (r & -> & Hr). rewrite bind_ret. by apply IH.
Qed.

(** The root of a shared table. *)
Lemma lnewconf_ok depth room len es : wf_value depth (VTable len es) ->
  exists array hash strs, NoDup strs /\ shown strs (Some (VTable len es)) (Some (RTable array hash)) /\
  lnewconf depth room len es =
    if room <? Z.of_nat (length strs) + 4 then Fault (LuaError "stack overflow") else Ok (VALUETYPE_TABLE array hash, strs, State false 0).
Proof.
  intros Hw. destruct (convtable_ok depth len es [] Hw) as (a & h & strs & E & G & Hr); [constructor|]. exists a, h, strs.
  split; [eauto with grow|]. split; [by exists depth, (VALUETYPE_TABLE a h), (RTable a h)|].
  unfold lnewconf, pconv. rewrite E, bind_ret. replace (Z.of_nat (length strs) + 1 + 3) with (Z.of_nat (length strs) + 4) by lia.
  by destruct (room <? Z.of_nat (length strs) + 4).
Qed.

(** ** The contract *)

(** C19. A table that is shared reads like the Lua table it was made from, at any depth,
    if it is one of [wf_value]: its keys, and those of the tables inside, are strings and
    integers that fit 32 signed bits, no key twice, its values numbers, booleans, strings
    and tables, fewer than 2^31 entries in a table, and nested at most [depth] tables
    deep, as deep as Lua's stack allows.  The conversion succeeds unless the stack of
    strings overflows, and then indexing along any path of such keys returns the value
    that is there, or nothing where there is none.  (A key of more than 32 bits is taken
    by the code and overwrites another: [wide_key_overwrites].) *)
Theorem shared_table_reads_like_lua depth room len es : wf_value depth (VTable len es) ->
  exists array hash strs,
    lnewconf depth room len es =
      (if room <? Z.of_nat (length strs) + 4 then Fault (LuaError "stack overflow") else Ok (VALUETYPE_TABLE array hash, strs, State false 0)) /\
    forall ks, Forall wf_key ks ->
      exists r, index_path strs (Some (RTable array hash)) ks = Ok r /\ reads_as (get_path (Some (VTable len es)) ks) r.
Proof.
  intros Hw. destruct (lnewconf_ok depth room len es Hw) as (a & h & strs & _ & Hs & E). exists a, h, strs. split; [exact E|].
  intros ks Hks. destruct (path_shown strs ks Hks _ _ Hs) as (r & Er & Hr). exists r. split; [done|]. by eapply shown_reads.
Qed.

(** A table with an array, two keys in one chain and a table inside. *)
Definition sample : list (lkey * lvalue) :=
  [(KInt 1, VInt 10); (KInt 2, VStr [97]); (KInt 7, VBool true); (KInt 9, VReal 5); (KStr [97; 98], VTable 1 [(KInt 1, VStr [97])])].

Lemma sample_wf : wf_value 2 (VTable 2 sample).
Proof.
  assert (Hw : forall d v, match v with VTable _ _ | VOther => False | _ => True end -> wf_value d v) by (by intros [] []).
  assert (Hin : wf_value 1 (VTable 1 [(KInt 1, VStr [97])])).
  { cbn [wf_value]. repeat split; try lia; try (cbn; lia); [apply NoDup_singleton|]. apply Forall_singleton. split; [cbn; lia|done]. }
  cbn [wf_value]. split; [lia|]. split; [cbn; lia|]. split; [apply (bool_decide_unpack (NoDup _)); by vm_compute|].
  unfold sample. repeat (apply Forall_cons; split; [split; [cbn; lia || done|by try apply Hw]|]). constructor.
Qed.

Lemma shared_table_reads_like_lua_witness : exists array hash strs,
  lnewconf 2 100 2 sample = Ok (VALUETYPE_TABLE array hash, strs, State false 0) /\
  index_path strs (Some (RTable array hash)) [KStr [97; 98]; KInt 1] = Ok (Some (RString [97])).
Proof.
  destruct (shared_table_reads_like_lua 2 100 2 sample sample_wf) as (a & h & strs & E & Hp).
  destruct (Hp [KStr [97; 98]; KInt 1]) as (r & Er & Hr); [repeat constructor; cbn; lia|].
  exists a, h, strs. split.
  - assert (E0 : exists t, lnewconf 2 100 2 sample = Ok t) by (eexists; vm_compute; reflexivity). destruct E0 as [t E0].
    destruct (100 <? Z.of_nat (length strs) + 4); [rewrite E0 in E; discriminate E|exact E].
  - rewrite Er. cbv in Hr. by rewrite Hr.
Defined.
