(* ===== verification/SharedataNext.v ===== *)
(** * Shared tables: enumerating the keys *)

From S2P Require Import Prelude Sharedata SharedataFill SharedataProofs.
From stdpp Require Import base numbers list.
From Stdlib Require Import ZArith Lia.
From Stdlib Require String.
Import String.StringSyntax.
#[local] Open Scope Z_scope.
#[local] Open Scope list_scope.
Import Sharedata.

(** The loop of a reader: [lnextkey] from [nil] on, until it returns nothing. *)
Fixpoint iterate (strs : list (list Z)) (fuel : nat) (array : list value) (hash : list node) (k : option lkey) : outcome (list lkey) :=
  match fuel with
  | O => Fault OutOfFuel
  | S fuel =>
      r ← lnextkey strs array hash k;
      match r with
      | None => Ok []
      | Some k => ks ← iterate strs fuel array hash (Some k); Ok (k :: ks)
      end
  end.

(** When [lnextkey] goes through a list, the loop collects it. *)
Lemma iterate_list strs array hash L : forall k fuel, lnextkey strs array hash k = Ok (head L) ->
  (forall i k', L !! i = Some k' -> lnextkey strs array hash (Some k') = Ok (L !! S i)) -> (length L < fuel)%nat ->
  iterate strs fuel array hash k = Ok L.
Proof.
  induction L as [|k' L IH]; intros k fuel Hk Hnext Hf; (destruct fuel as [|fuel]; [lia|]); cbn [iterate]; rewrite Hk, bind_ret; cbn [head]; [done|].
  cbn [length] in Hf. rewrite (IH (Some k') fuel); [done| | |lia].
  - rewrite (Hnext O k') by done. by destruct L.
  - intros i. apply (Hnext (S i)).
Qed.

(** ** The keys of the array part *)

Fixpoint array_keys (i : Z) (array : list value) : list lkey :=
  match array with
  | [] => []
  | v :: array => (if is_nil v then [] else [KInt (i + 1)]) ++ array_keys (i + 1) array
  end.

Lemma array_keys_app a b : forall i, array_keys i (a ++ b) = array_keys i a ++ array_keys (i + Z.of_nat (length a)) b.
Proof.
  induction a as [|v a IH]; intros i; cbn [app array_keys length]; [by rewrite Z.add_0_r|]. rewrite IH, <- app_assoc. do 3 f_equal. lia.
Qed.

Lemma next_keys array : forall i,
  match next_in_array i array with
  | Some j => head (array_keys i array) = Some (KInt j)
  | None => array_keys i array = []
  end.
Proof.
  induction array as [|v array IH]; intros i; cbn [next_in_array array_keys]; [done|]. destruct (is_nil v); [apply IH|done].
Qed.

Lemma array_keys_lookup array : forall i0 i k, array_keys i0 array !! i = Some k ->
  exists pre x post, array = pre ++ x :: post /\ is_nil x = false /\ k = KInt (i0 + Z.of_nat (length pre) + 1) /\ i = length (array_keys i0 pre).
Proof.
  induction array as [|v array IH]; intros i0 i k; cbn [array_keys]; [done|].
  assert (Hrest : forall j, array_keys (i0 + 1) array !! j = Some k -> i = (length (if is_nil v then [] else [KInt (i0 + 1)]) + j)%nat ->
    exists pre x post, v :: array = pre ++ x :: post /\ is_nil x = false /\ k = KInt (i0 + Z.of_nat (length pre) + 1) /\ i = length (array_keys i0 pre)).
  { intros j Hj ->. destruct (IH _ _ _ Hj) as (pre & x & post & -> & ? & -> & ->). exists (v :: pre), x, post. split; [done|]. split; [done|].
    split; [f_equal; cbn [length]; lia|]. cbn [array_keys]. by rewrite length_app. }
  destruct (is_nil v) eqn:Ev; [intros H; by apply (Hrest i)|]. destruct i as [|i]; cbn [app].
  - intros [= <-]. exists [], v, array. split; [done|]. split; [done|]. split; [f_equal; cbn; lia|done].
  - intros H. by apply (Hrest i).
Qed.

Lemma elem_array_keys array k : k ∈ array_keys 0 array <-> exists i x, array !! i = Some x /\ is_nil x = false /\ k = KInt (Z.of_nat i + 1).
Proof.
  split.
  - intros [i Hi]%list_elem_of_lookup. apply array_keys_lookup in Hi as (pre & x & post & -> & ? & -> & _). exists (length pre), x. split; [|done]. by apply list_lookup_middle.
  - intros (i & x & Hi & Hx & ->). apply list_elem_of_split_length in Hi as (pre & post & -> & ->).
    rewrite array_keys_app. cbn [array_keys]. rewrite Hx. apply elem_of_app. right. left.
Qed.

Lemma array_keys_above array : forall i k, k ∈ array_keys i array -> exists j, k = KInt j /\ i < j.
Proof.
  intros i k [j Hj]%list_elem_of_lookup. apply array_keys_lookup in Hj as (pre & _ & _ & _ & _ & -> & _). eexists. split; [done|]. lia.
Qed.

Lemma array_keys_nodup array : forall i, NoDup (array_keys i array).
Proof.
  induction array as [|v array IH]; intros i; cbn [array_keys]; [constructor|]. destruct (is_nil v); [apply IH|]. cbn [app]. constructor; [|apply IH].
  intros (j & [= <-] & ?)%array_keys_above. lia.
Qed.

(** ** The keys of one table *)

Lemma pushfirst_get strs hash :
  pushfirsthash strs hash = match hash !! O with None => Ok None | Some (nk, _, _) => n ← init_read nk; k ← pushkey strs n; Ok (Some k) end.
Proof. by destruct hash as [|[[? ?] ?] ?]. Qed.

Section Keys.
Context (R : list (list Z) -> lvalue -> value -> Prop) (R_nil : forall a v x, R a v x -> is_nil x = false).
Context (strs : list (list Z)) (sz : Z) (es : list (lkey * lvalue)) (array : list value) (hash : list node).
Context (Hsz : 0 <= sz < 2^31) (Hnd : NoDup es.*1) (Hwf : Forall wf_key es.*1) (Hl : Z.of_nat (length array) = sz) (Ha : array_ok R strs es array).
Context (gl : list (lkey * lvalue)) (cs : list (list nat)) (C : chains R sz (length hash) strs es es (Some <$> gl) cs hash).

Lemma full_slots : None ∉ Some <$> gl.
Proof. intros (? & ? & _)%list_elem_of_fmap. done. Qed.

Lemma slot_key i k v : gl !! i = Some (k, v) -> exists nk nc x, hash !! i = Some (Some nk, nc, x) /\ pushkey strs nk = Ok k.
Proof.
  intros Hg. destruct (filled_node R R_nil _ _ _ _ _ _ C full_slots i) as (k' & v' & nk & nc & x & Hg' & Hh & [_ Hki] & _); [by rewrite list_lookup_fmap, Hg|].
  rewrite list_lookup_fmap, Hg in Hg'. injection Hg' as <- <-. exists nk, nc, x. split; [done|]. unfold pushkey.
  destruct k as [n| |s| |]; try done; destruct Hki as [-> Hk]; cbn [Z.eqb KEYTYPE_INTEGER KEYTYPE_STRING]; [by rewrite Hk|]. by rewrite Hk.
Qed.

Lemma slots_length : length gl = length hash.
Proof. rewrite <- (length_fmap Some gl). eapply Forall2_length, ch_slots, C. Qed.

Lemma pushfirsthash_ok : pushfirsthash strs hash = Ok (head gl.*1).
Proof.
  pose proof slots_length as Hlen. rewrite pushfirst_get, head_lookup, list_lookup_fmap. destruct (gl !! O) as [[k v]|] eqn:Eg.
  - destruct (slot_key O k v Eg) as (nk & nc & x & -> & Hp). cbn [init_read]. by rewrite bind_ret, Hp.
  - apply lookup_ge_None_1 in Eg. by rewrite (lookup_ge_None_2 hash) by lia.
Qed.

Lemma gl_entry i k v : gl !! i = Some (k, v) -> (k, v) ∈ es /\ in_array sz k = false /\ wf_key k.
Proof.
  intros Hg. destruct (ch_entry _ _ _ _ _ _ _ _ _ C i k v) as [[He Hin]%elem_hashed _]; [by rewrite list_lookup_fmap, Hg|]. split; [done|]. split; [done|].
  rewrite Forall_forall in Hwf. apply Hwf, list_elem_of_fmap. by exists (k, v).
Qed.

Lemma next_of_node i k v : gl !! i = Some (k, v) ->
  (n ← lookup_key strs hash (hash_of k) (int_of k) (type_of k) (str_of k);
   match n with
   | None => Ok None
   | Some i =>
       let index := i + 1 in
       if index =? Z.of_nat (length hash) then Ok None
       else '(nk, _, _) ← arr_get hash index; n ← init_read nk; k ← pushkey strs n; Ok (Some k)
   end) = Ok (gl.*1 !! S i).
Proof.
  intros Hg. destruct (gl_entry i k v Hg) as (_ & _ & Hk). destruct (lookup_key_ok R R_nil _ _ _ _ _ _ C full_slots k Hk) as (r & -> & Hr). rewrite bind_ret.
  assert (Hlt := lookup_lt_Some _ _ _ Hg). pose proof slots_length as Hlen. destruct r as [j|]; [|destruct (Hr i v); [apply elem_of_seq; lia|by rewrite list_lookup_fmap, Hg]].
  destruct Hr as (j' & v' & -> & Hj). assert (j' = i) as -> by (eapply (ch_unique _ _ _ _ _ _ _ _ _ C); [exact Hj|by rewrite list_lookup_fmap, Hg]).
  cbn zeta. rewrite list_lookup_fmap. destruct (Z.eqb_spec (Z.of_nat i + 1) (Z.of_nat (length hash))).
  - by rewrite lookup_ge_None_2 by lia.
  - destruct (lookup_lt_is_Some_2 gl (S i)) as [[k2 v2] Hg2]; [lia|]. destruct (slot_key (S i) k2 v2 Hg2) as (nk & nc & x & Hh & Hp).
    rewrite (arr_get_ok _ _ (Some nk, nc, x)) by (lia || by replace (Z.to_nat (Z.of_nat i + 1)) with (S i) by lia).
    rewrite bind_ret. cbn [init_read]. by rewrite bind_ret, Hp, Hg2.
Qed.

Lemma next_after_array i : match next_in_array i (drop (Z.to_nat i) array) with Some j => Ok (Some (KInt j)) | None => pushfirsthash strs hash end
  = Ok (head (array_keys i (drop (Z.to_nat i) array) ++ gl.*1)).
Proof.
  pose proof (next_keys (drop (Z.to_nat i) array) i) as H. destruct (next_in_array i (drop (Z.to_nat i) array)) as [j|].
  - destruct (array_keys i (drop (Z.to_nat i) array)); [done|]. cbn in *. congruence.
  - rewrite H. apply pushfirsthash_ok.
Qed.

Definition all_keys : list lkey := array_keys 0 array ++ gl.*1.

Lemma lnextkey_first : lnextkey strs array hash None = Ok (head all_keys).
Proof. apply (next_after_array 0). Qed.

Lemma lnextkey_next i k : all_keys !! i = Some k -> lnextkey strs array hash (Some k) = Ok (all_keys !! S i).
Proof.
  unfold all_keys. intros [Hi|[Hge Hi]]%lookup_app_Some.
  - destruct (array_keys_lookup _ _ _ _ Hi) as (pre & x & post & E & Hx & -> & ->). set (n := length pre) in *. unfold lnextkey.
    assert (n < length array)%nat by (rewrite E, length_app; cbn; lia). rewrite i32_int, Hl by lia.
    destruct (Z.ltb_spec 0 (0 + Z.of_nat n + 1)), (Z.leb_spec (0 + Z.of_nat n + 1) sz); try lia. cbn [andb]. rewrite next_after_array. f_equal.
    replace (drop _ array) with post by (rewrite E; replace (Z.to_nat _) with (length (pre ++ [x])) by (rewrite length_app; cbn; lia);
      change (pre ++ x :: post) with (pre ++ [x] ++ post); rewrite app_assoc; by rewrite drop_app_length).
    rewrite E at 1. rewrite array_keys_app. cbn [array_keys]. rewrite Hx. cbn [app]. rewrite <- app_assoc, lookup_app_r by lia.
    rewrite Nat.sub_succ_l, Nat.sub_diag by lia. cbn [lookup list_lookup app]. fold n. by destruct (array_keys _ post ++ gl.*1).
  - rewrite lookup_app_r by lia. rewrite Nat.sub_succ_l by lia. apply list_lookup_fmap_Some in Hi as ([k' v] & -> & Hi). cbn [fst].
    destruct (gl_entry _ _ _ Hi) as (_ & Hin & Hk). pose proof (next_of_node _ _ _ Hi) as Hnext. unfold lnextkey. destruct k' as [n| |s| |]; try done; cbn [wf_key] in Hk.
    + rewrite i32_int, Hl by done. cbn [in_array] in Hin. rewrite Hin. exact Hnext.
    + rewrite calchash_ok, bind_ret. exact Hnext.
Qed.

Lemma all_keys_perm : all_keys ≡ₚ es.*1.
Proof.
  apply NoDup_Permutation; [|done|].
  - unfold all_keys. apply NoDup_app. split; [apply array_keys_nodup|]. split.
    + intros k (i & x & Hi & Hx & ->)%elem_array_keys ([k' v] & E & Hg)%list_elem_of_fmap. cbn in E. subst k'. apply list_elem_of_lookup in Hg as [j Hj].
      destruct (gl_entry _ _ _ Hj) as (_ & Hin & _). cbn [in_array] in Hin. apply lookup_lt_Some in Hi. lia.
    + replace gl with (held (Some <$> gl)) by (unfold held; clear; induction gl as [|e l IH]; [done|]; cbn; f_equal; exact IH). apply held_nodup, (ch_unique _ _ _ _ _ _ _ _ _ C).
  - intros k. unfold all_keys. rewrite elem_of_app, elem_array_keys. split.
    + intros [(i & x & Hi & Hx & ->)|([k' v] & -> & [j Hj]%list_elem_of_lookup)%list_elem_of_fmap].
      * destruct (Ha i x Hi) as [(-> & _)|(v & Hv & _)]; [done|]. apply list_elem_of_fmap. by exists (KInt (Z.of_nat i + 1), v).
      * apply list_elem_of_fmap. eexists. split; [done|]. by apply gl_entry in Hj as (? & _).
    + intros ([k' v] & -> & He)%list_elem_of_fmap. cbn [fst]. destruct (in_array sz k') eqn:Hin.
      * left. destruct k' as [n| | | |]; try done. cbn [in_array] in Hin. destruct (lookup_lt_is_Some_2 array (Z.to_nat (n - 1))) as [x Hx]; [lia|].
        exists (Z.to_nat (n - 1)), x. split; [done|]. split; [|f_equal; lia]. destruct (Ha _ _ Hx) as [(-> & Hno)|(v' & _ & Hr)]; [|by eapply R_nil].
        destruct (Hno v). replace (Z.of_nat (Z.to_nat (n - 1)) + 1) with n by lia. done.
      * right. destruct (ch_placed _ _ _ _ _ _ _ _ _ C k' v) as [i Hi]; [by apply elem_hashed|]. rewrite list_lookup_fmap in Hi.
        destruct (gl !! i) as [e|] eqn:Eg; [|done]. injection Hi as ->. apply list_elem_of_fmap. exists (k', v). split; [done|]. by eapply list_elem_of_lookup_2.
Qed.

Lemma iterate_ok fuel : (length es < fuel)%nat -> exists ks, iterate strs fuel array hash None = Ok ks /\ ks ≡ₚ es.*1.
Proof.
  intros Hf. exists all_keys. split; [|apply all_keys_perm]. apply iterate_list; [apply lnextkey_first|apply lnextkey_next|].
  rewrite all_keys_perm, length_fmap. done.
Qed.
End Keys.

(** ** The contract *)

(** A list of which no slot is empty. *)
Lemma full_list {A} (g : list (option A)) : None ∉ g -> exists l, g = Some <$> l.
Proof.
  induction g as [|[a|] g IH]; intros H; [by exists []| |destruct H; left]. apply not_elem_of_cons in H as [_ H]. destruct (IH H) as [l ->]. by exists (a :: l).
Qed.

Lemma shown_keys strs len es r fuel : shown strs (Some (VTable len es)) r -> (length es < fuel)%nat ->
  exists array hash ks, r = Some (RTable array hash) /\ iterate strs fuel array hash None = Ok ks /\ ks ≡ₚ es.*1.
Proof.
  intros Hs Hf. destruct (shown_table _ _ _ _ Hs) as (d & a & h & -> & Hlen & Hnd & Hk & Hl & Ha & g & cs & _ & Hfull & C).
  destruct (full_list g Hfull) as [gl ->]. destruct (iterate_ok (repr d) (repr_nil d) strs len es a h Hlen Hnd Hk Hl Ha gl cs C fuel Hf) as (ks & ? & ?).
  by exists a, h, ks.
Qed.

(** C20. The keys of a shared table can be enumerated, if it is one of [wf_value] (string
    keys and integer keys of 32 bits, values of the types that are taken, no deeper than
    [depth]) and was converted: at the end of any path of such keys that leads to a table
    of Lua, going on from [nil] by [lnextkey] gives each key of that table once and ends.
    (With a key of more than 32 bits [lnextkey] reads what was never written:
    [wide_key_overwrites].) *)
Theorem shared_keys_are_enumerated depth room len es array hash strs st ks len' es' : wf_value depth (VTable len es) ->
  lnewconf depth room len es = Ok (VALUETYPE_TABLE array hash, strs, st) -> Forall wf_key ks ->
  get_path (Some (VTable len es)) ks = Some (VTable len' es') ->
  exists array' hash' keys, index_path strs (Some (RTable array hash)) ks = Ok (Some (RTable array' hash')) /\
    iterate strs (S (length es')) array' hash' None = Ok keys /\ keys ≡ₚ es'.*1.
Proof.
  intros Hw E Hks Hp. destruct (lnewconf_ok depth room len es Hw) as (a & h & strs' & _ & Hs & E'). rewrite E in E'.
  destruct (room <? Z.of_nat (length strs') + 4); [done|]. injection E' as <- <- <- _.
  destruct (path_shown strs ks Hks _ _ Hs) as (r & Er & Hr). rewrite Hp in Hr.
  destruct (shown_keys strs len' es' r (S (length es')) Hr) as (a' & h' & keys & -> & ? & ?); [lia|]. by exists a', h', keys.
Qed.

Lemma shared_keys_are_enumerated_witness : exists array hash strs st array' hash' keys,
  lnewconf 2 100 2 sample = Ok (VALUETYPE_TABLE array hash, strs, st) /\
  index_path strs (Some (RTable array hash)) [] = Ok (Some (RTable array' hash')) /\
  iterate strs 6 array' hash' None = Ok keys /\ keys ≡ₚ sample.*1.
Proof.
  destruct (lnewconf 2 100 2 sample) as [[[tbl strs] st]|f] eqn:E; [|vm_compute in E; discriminate E].
  destruct tbl as [| | | | |array hash]; try (vm_compute in E; discriminate E).
  destruct (shared_keys_are_enumerated 2 100 2 sample array hash strs st [] 2 sample sample_wf E) as (a' & h' & keys & ? & ? & ?); [constructor|reflexivity|].
  exists array, hash, strs, st, a', h', keys. split; [reflexivity|]. split; [assumption|]. split; assumption.
Defined.

(** ** Keys of more than 32 bits *)

(** An integer key is counted with its 64 bits and stored with 32 of them: with a key
    that is larger by 2^32 than one of the array, the value of the array is replaced, the
    slot that was counted stays empty, and a reader that enumerates the keys reads what
    was never written. *)
Theorem wide_key_overwrites (x y : Z) : exists array hash strs,
  lnewconf 1 100 1 [(KInt 1, VInt x); (KInt (2^32 + 1), VInt y)] = Ok (VALUETYPE_TABLE array hash, strs, State false 0) /\
  lindexconf strs array hash (KInt 1) = Ok (Some (RInteger y)) /\
  lnextkey strs array hash None = Ok (Some (KInt 1)) /\
  lnextkey strs array hash (Some (KInt 1)) = Fault Uninitialised /\
  lindexconf strs array hash (KInt 2) = Fault Uninitialised.
Proof. eexists _, _, _. split; [vm_compute; reflexivity|]. vm_compute. done. Qed.
