(* ===== verification/Multicast.v ===== *)
(** * Packets for many receivers ([lualib-src/lua-multicast.c])

    A message that goes to all subscribers of a channel is kept once, in a
    [mc_package] with a count; what is sent is a cell that holds its address.  The
    service of the channel binds the count to the number of subscribers, and each
    subscriber closes the package when it has read the message.  Memory is explicit:
    blocks of bytes, packages and cells by their addresses. *)

From S2P Require Import Prelude.
From stdpp Require Import base numbers list gmap.
From Stdlib Require Import ZArith Lia.
From Stdlib Require String.
Import String.StringSyntax.
#[local] Open Scope Z_scope.
#[local] Open Scope list_scope.

Module Multicast.

Record mc_package := Package { reference : Z; size : Z; data : Z }.

(** [brk] is the next address [skynet_malloc] gives. *)
Record heap := Heap { blocks : gmap Z (list Z); packages : gmap Z mc_package; cells : gmap Z Z; brk : Z }.

(** A function of Lua returns values or raises an error. *)
Inductive ret (A : Type) := Ret (a : A) | Raise (e : fault).
Arguments Ret {_} _.
Arguments Raise {_} _.

Definition sizeof_pointer : Z := 8.

Definition get {A} (m : gmap Z A) (p : Z) : outcome A := match m !! p with Some a => Ok a | None => Fault DanglingPointer end.

Definition free_block (h : heap) (p : Z) : outcome heap :=
  _ ← get (blocks h) p; Ok (Heap (delete p (blocks h)) (packages h) (cells h) (brk h)).
Definition free_package (h : heap) (p : Z) : outcome heap :=
  _ ← get (packages h) p; Ok (Heap (blocks h) (delete p (packages h)) (cells h) (brk h)).
Definition free_cell (h : heap) (p : Z) : outcome heap :=
  _ ← get (cells h) p; Ok (Heap (blocks h) (packages h) (delete p (cells h)) (brk h)).

Definition pack (h : heap) (d sz : Z) : heap * (Z * Z) :=
  let p := brk h in
  let c := brk h + 1 in
  (Heap (blocks h) (<[p := Package 0 (u32 sz) d]> (packages h)) (<[c := p]> (cells h)) (brk h + 2), (c, sizeof_pointer)).

Definition mc_packlocal (h : heap) (d sz : Z) : heap * ret (Z * Z) :=
  if u64 sz =? u32 sz then let '(h, r) := pack h d (u64 sz) in (h, Ret r) else (h, Raise (LuaError "Size should be 32bit integer")).

Definition mc_packremote (h : heap) (d sz : Z) : outcome (heap * ret (Z * Z)) :=
  if u64 sz =? u32 sz then
    block ← get (blocks h) d;
    msg ← mem_read block 0 (u64 sz);
    let h := Heap (<[brk h := msg]> (blocks h)) (packages h) (cells h) (brk h + 1) in
    let '(h, r) := pack h (brk h - 1) (u64 sz) in
    Ok (h, Ret r)
  else Ok (h, Raise (LuaError "Size should be 32bit integer")).

(** The package, the message and its size. *)
Definition mc_unpacklocal (h : heap) (c sz : Z) : outcome (ret (Z * Z * Z)) :=
  if i32 sz =? sizeof_pointer then
    p ← get (cells h) c;
    k ← get (packages h) p;
    Ok (Ret (p, data k, size k))
  else Ok (Raise (LuaError "Invalid multicast package size")).

Definition mc_bindrefer (h : heap) (c ref : Z) : outcome (heap * ret Z) :=
  p ← get (cells h) c;
  k ← get (packages h) p;
  if negb (reference k =? 0) then Ok (h, Raise (LuaError "Can't bind a multicast package more than once"))
  else
    let h := Heap (blocks h) (<[p := Package (i32 ref) (size k) (data k)]> (packages h)) (cells h) (brk h) in
    h ← free_cell h c;
    Ok (h, Ret p).

(** [ATOM_DEC(&pack->reference)], and what follows. *)
Definition close_dec (h : heap) (p : Z) : outcome (heap * Z) :=
  k ← get (packages h) p;
  let ref := i32 (reference k - 1) in
  Ok (Heap (blocks h) (<[p := Package ref (size k) (data k)]> (packages h)) (cells h) (brk h), ref).
Definition close_free (h : heap) (p ref : Z) : outcome (heap * ret unit) :=
  if ref <=? 0 then
    k ← get (packages h) p;
    h ← free_block h (data k);
    h ← free_package h p;
    Ok (h, if ref <? 0 then Raise (LuaError "Invalid multicast package reference") else Ret tt)
  else Ok (h, Ret tt).
Definition mc_closelocal (h : heap) (p : Z) : outcome (heap * ret unit) := '(h, ref) ← close_dec h p; close_free h p ref.

Definition mc_remote (h : heap) (c : Z) : outcome (heap * (Z * Z)) :=
  p ← get (cells h) c;
  k ← get (packages h) p;
  h ← free_package h p;
  Ok (h, (data k, size k)).

Definition mc_nextid (id : Z) : Z := u32 (u32 id + 256).

End Multicast.
Import Multicast.

(** ** Channels *)

(** The node of a channel is in its low 8 bits; the next channel is one of the same
    node. *)
Lemma nextid_keeps_node id : mc_nextid id mod 256 = id mod 256.
Proof.
  assert (Hd : (256 | 2^32)) by (by exists (2^24)). unfold mc_nextid, u32. rewrite Z.mod_mod_divide by done.
  replace (id mod 2^32 + 256) with (id mod 2^32 + 1 * 256) by lia. rewrite Z_mod_plus_full. by apply Z.mod_mod_divide.
Qed.

(** A channel comes back after 2^24 others. *)
Lemma nextid_iter id n : 0 <= id < 2^32 -> Nat.iter n mc_nextid id = u32 (id + 256 * Z.of_nat n).
Proof.
  intros Hid. induction n as [|n IH]; cbn [Nat.iter nat_rect]; [unfold u32; rewrite Z.mod_small; lia|]. change (nat_rect _ id (fun _ => mc_nextid) n) with (Nat.iter n mc_nextid id).
  rewrite IH. unfold mc_nextid, u32. rewrite Z.mod_mod, Zplus_mod_idemp_l by lia. f_equal. lia.
Qed.

(** ** A package and its receivers *)

(** A subscriber: it unpacks the cell it was sent, reads the message, closes the
    package.  The threads of the subscribers interleave at each of these steps; the
    counter is atomic. *)
Inductive sub := SUnpack (c : Z) | SRead (p d sz : Z) | SDec (p : Z) (msg : list Z) | SFree (p ref : Z) (msg : list Z) | SDone (msg : list Z).

Record world := World { mem : heap; subs : list sub }.

Definition sub_step (w : world) (i : nat) : outcome world :=
  match subs w !! i with
  | Some (SUnpack c) =>
      r ← mc_unpacklocal (mem w) c sizeof_pointer;
      match r with
      | Ret (p, d, sz) => Ok (World (mem w) (<[i := SRead p d sz]> (subs w)))
      | Raise e => Fault e
      end
  | Some (SRead p d sz) =>
      block ← get (blocks (mem w)) d;
      msg ← mem_read block 0 sz;
      Ok (World (mem w) (<[i := SDec p msg]> (subs w)))
  | Some (SDec p msg) =>
      '(h, ref) ← close_dec (mem w) p;
      Ok (World h (<[i := SFree p ref msg]> (subs w)))
  | Some (SFree p ref msg) =>
      '(h, r) ← close_free (mem w) p ref;
      match r with
      | Ret _ => Ok (World h (<[i := SDone msg]> (subs w)))
      | Raise e => Fault e
      end
  | _ => Ok w
  end.

Definition step (w w' : world) : Prop := exists i, sub_step w i = Ok w'.

Section Safe.
Context (p d : Z) (bytes : list Z).

(** Subscribers that have not counted down, and the one that frees. *)
Definition active (s : sub) : Z := match s with SUnpack _ | SRead _ _ _ | SDec _ _ => 1 | _ => 0 end.
Definition last_one (s : sub) : Z := match s with SFree _ ref _ => if ref <=? 0 then 1 else 0 | _ => 0 end.

Definition sub_ok (h : heap) (s : sub) : Prop :=
  match s with
  | SUnpack c => cells h !! c = Some p
  | SRead p' d' sz => p' = p /\ d' = d /\ sz = Z.of_nat (length bytes)
  | SDec p' msg => p' = p /\ msg = bytes
  | SFree p' ref msg => p' = p /\ 0 <= ref /\ msg = bytes
  | SDone msg => msg = bytes
  end.

Definition package_inv (w : world) : Prop :=
  Forall (sub_ok (mem w)) (subs w) /\ sumZ active (subs w) < 2^31 /\
  ((packages (mem w) !! p = Some (Package (sumZ active (subs w)) (Z.of_nat (length bytes)) d) /\ blocks (mem w) !! d = Some bytes /\
    ((0 < sumZ active (subs w) /\ sumZ last_one (subs w) = 0) \/ (sumZ active (subs w) = 0 /\ sumZ last_one (subs w) = 1))) \/
   (packages (mem w) !! p = None /\ blocks (mem w) !! d = None /\ sumZ active (subs w) = 0 /\ sumZ last_one (subs w) = 0)).

Lemma active_nonneg s : 0 <= active s. Proof. by destruct s. Qed.
Lemma last_nonneg s : 0 <= last_one s. Proof. destruct s; try done. cbn. by destruct (_ <=? _). Qed.

Lemma others_ok (h h' : heap) l i s : cells h' = cells h -> Forall (sub_ok h) l -> sub_ok h' s -> Forall (sub_ok h') (<[i := s]> l).
Proof.
  intros E Hf Hs. apply Forall_insert; [|done]. eapply Forall_impl; [exact Hf|]. intros [] ; cbn [sub_ok]; by rewrite ?E.
Qed.

(** Every step of a subscriber succeeds and keeps the invariant. *)
Lemma sub_step_ok w i : package_inv w -> exists w', sub_step w i = Ok w' /\ package_inv w' /\ length (subs w') = length (subs w).
Proof.
  intros (Hf & Hlt & Hp). unfold sub_step. destruct (subs w !! i) as [s|] eqn:Ei; [|by exists w].
  assert (Hs := proj1 (Forall_lookup _ _) Hf i s Ei). pose proof (sumZ_ge active _ i s active_nonneg Ei) as Hact. pose proof (sumZ_ge last_one _ i s last_nonneg Ei) as Hlast.
  pose proof (fun y => sumZ_insert active _ i s y Ei) as Ea. pose proof (fun y => sumZ_insert last_one _ i s y Ei) as El.
  destruct s as [c|p' d' sz|p' msg|p' ref msg|msg]; cbn [sub_ok active last_one] in *.
  - destruct Hp as [(Hk & Hb & Hc)|(_ & _ & ? & _)]; [|lia]. unfold mc_unpacklocal, get. cbn [i32]. change (i32 sizeof_pointer =? sizeof_pointer) with true. cbv iota.
    rewrite Hs, bind_ret, Hk, !bind_ret. eexists. split; [done|]. cbn [mem subs data size]. split; [|by rewrite length_insert].
    split; [by apply others_ok with (mem w)|]. cbn [mem subs]. rewrite Ea, El. cbn [active last_one]. split; [lia|]. left. split; [rewrite Hk; do 2 f_equal; lia|]. split; [done|]. lia.
  - destruct Hs as (-> & -> & ->). destruct Hp as [(Hk & Hb & Hc)|(_ & _ & ? & _)]; [|lia]. unfold get. rewrite Hb, bind_ret, read_whole, bind_ret.
    eexists. split; [done|]. split; [|by cbn [subs]; rewrite length_insert].
    split; [by apply others_ok with (mem w)|]. cbn [mem subs]. rewrite Ea, El. cbn [active last_one]. split; [lia|]. left. split; [rewrite Hk; do 2 f_equal; lia|]. split; [done|]. lia.
  - destruct Hs as (-> & ->). destruct Hp as [(Hk & Hb & Hc)|(_ & _ & ? & _)]; [|lia]. unfold close_dec, get. rewrite Hk, !bind_ret. cbn [reference size data].
    rewrite i32_small by lia. eexists. split; [done|]. split; [|by cbn [subs]; rewrite length_insert].
    split; [apply others_ok with (mem w); [done..|]; cbn [sub_ok]; split; [done|]; split; [lia|done]|].
    cbn [mem subs packages blocks]. rewrite Ea, El. cbn [active last_one]. split; [lia|]. left. split; [rewrite lookup_insert_eq; do 2 f_equal; lia|]. split; [done|].
    destruct (Z.leb_spec (sumZ active (subs w) - 1) 0); lia.
  - destruct Hs as (-> & Href & ->). unfold close_free. destruct (Z.leb_spec ref 0) as [H0|H0].
    + destruct Hp as [(Hk & Hb & Hc)|(_ & _ & _ & ?)]; [|lia]. unfold free_block, free_package, get. rewrite Hk, bind_ret. cbn [data]. rewrite Hb, !bind_ret. cbn [packages]. rewrite Hk, !bind_ret.
      destruct (Z.ltb_spec ref 0); [lia|]. eexists. split; [done|]. split; [|by cbn [subs]; rewrite length_insert].
      split; [by apply others_ok with (mem w)|]. cbn [mem subs packages blocks]. rewrite Ea, El. cbn [active last_one]. split; [lia|]. right. rewrite !lookup_delete_eq. split; [done|]. split; [done|]. lia.
    + rewrite bind_ret. eexists. split; [done|]. split; [|by cbn [subs]; rewrite length_insert].
      split; [by apply others_ok with (mem w)|]. cbn [mem subs packages blocks]. rewrite Ea, El. cbn [active last_one]. split; [lia|].
      destruct Hp as [(Hk & Hb & Hc)|Hd]; [left|right; destruct Hd as (? & ? & ? & ?); split_and!; try done; lia]. split; [rewrite Hk; do 2 f_equal; lia|]. split; [done|]. lia.
  - exists w. done.
Qed.
End Safe.

Lemma package_reached p d bytes w w' : package_inv p d bytes w -> rtc step w w' -> package_inv p d bytes w'.
Proof.
  intros Hi. induction 1 as [|w w1 w2 [i Hs] _ IH]; [done|]. apply IH. destruct (sub_step_ok p d bytes w i Hi) as (w' & E & ? & _). rewrite Hs in E. by injection E as ->.
Qed.

Lemma sum_const {A} (f : A -> Z) z l : (forall x, x ∈ l -> f x = z) -> sumZ f l = z * Z.of_nat (length l).
Proof.
  induction l as [|x l IH]; intros H; [cbn; lia|]. cbn [sumZ foldr length]. fold (sumZ f l). rewrite (H x) by left. rewrite IH; [lia|]. intros y Hy. apply H. by right.
Qed.

(** C37.  A message of less than 2^32 bytes that is packed and bound to [n] subscribers,
    each of which gets a cell with the address: in every interleaving of the
    subscribers' reads and closes no step touches what was freed, what each of them
    reads is the message, and when all have closed the package it is freed with the
    message. *)
Theorem multicast_delivers h d bytes n : 0 < Z.of_nat n < 2^31 -> Z.of_nat (length bytes) < 2^32 -> blocks h !! d = Some bytes ->
  exists c p h1 h2, mc_packlocal h d (Z.of_nat (length bytes)) = (h1, Ret (c, sizeof_pointer)) /\ mc_bindrefer h1 c (Z.of_nat n) = Ok (h2, Ret p) /\ cells h2 !! c = None /\
  forall h3 cs w, blocks h3 = blocks h2 -> packages h3 = packages h2 -> length cs = n -> Forall (fun c => cells h3 !! c = Some p) cs ->
    rtc step (World h3 (SUnpack <$> cs)) w ->
    (forall i, exists w', sub_step w i = Ok w') /\
    (forall i msg, subs w !! i = Some (SDone msg) -> msg = bytes) /\
    (Forall (fun s => exists msg, s = SDone msg) (subs w) -> blocks (mem w) !! d = None /\ packages (mem w) !! p = None).
Proof.
  intros Hn Hl Hb. set (p := brk h). set (c := brk h + 1).
  assert (E64 : u64 (Z.of_nat (length bytes)) = Z.of_nat (length bytes)) by (unfold u64; apply Z.mod_small; lia).
  assert (E32 : u32 (Z.of_nat (length bytes)) = Z.of_nat (length bytes)) by (unfold u32; apply Z.mod_small; lia).
  exists c, p. eexists _, _. split; [unfold mc_packlocal, pack; rewrite E64, E32, Z.eqb_refl; reflexivity|].
  split; [unfold mc_bindrefer, get; cbn [cells packages]; rewrite lookup_insert_eq, bind_ret, lookup_insert_eq, bind_ret; cbn [reference Z.eqb negb];
    unfold free_cell, get; cbn [cells]; rewrite lookup_insert_eq, !bind_ret; cbn [blocks packages cells brk size data]; reflexivity|].
  cbn [cells blocks packages]. split; [apply lookup_delete_eq|]. intros h3 cs w Eb Ep Hcs Hcells Hr.
  assert (Hi : package_inv p d bytes w).
  { eapply package_reached; [|exact Hr]. unfold package_inv. cbn [mem subs]. rewrite (sum_const active 1), (sum_const last_one 0), length_fmap, Hcs by (intros s (x & -> & _)%list_elem_of_fmap; done).
    split; [apply Forall_fmap; exact Hcells|]. split; [lia|]. left. rewrite Eb, Ep, lookup_insert_eq, i32_small by lia. split; [do 2 f_equal; lia|]. split; [done|]. lia. }
  split; [intros i; destruct (sub_step_ok p d bytes w i Hi) as (w' & ? & _); by exists w'|]. destruct Hi as (Hf & _ & Hp). split.
  - intros i msg E. exact (proj1 (Forall_lookup _ _) Hf i _ E).
  - intros Hdone. rewrite Forall_forall in Hdone. rewrite (sum_const active 0), (sum_const last_one 0) in Hp by (intros s Hs; by destruct (Hdone s Hs) as [? ->]).
    destruct Hp as [(_ & _ & Hp)|(? & ? & _)]; [lia|done].
Qed.

(** Two subscribers that interleave; the second to close frees the package. *)
Definition sample_heap : heap := Heap {[7 := [1; 2; 3]]} ∅ ∅ 100.
Definition sample_bound : heap := Heap {[7 := [1; 2; 3]]} {[100 := Package 2 3 7]} (<[200 := 100]> {[201 := 100]}) 102.

Definition order : list nat := [0; 1; 0; 1; 0; 1; 0; 1]%nat.

Fixpoint follow (is_ : list nat) (w : world) : outcome world :=
  match is_ with [] => Ok w | i :: is_ => w ← sub_step w i; follow is_ w end.

Lemma follow_steps is_ : forall w w', follow is_ w = Ok w' -> rtc step w w'.
Proof.
  induction is_ as [|i is_ IH]; intros w w' E; cbn [follow] in E; [injection E as ->; apply rtc_refl|].
  apply bind_Ok in E as (w1 & E1 & E2). eapply rtc_l; [by exists i|]. by apply IH.
Qed.

Lemma multicast_delivers_witness : exists w,
  follow order (World sample_bound [SUnpack 200; SUnpack 201]) = Ok w /\
  subs w = [SDone [1; 2; 3]; SDone [1; 2; 3]] /\ blocks (mem w) !! 7 = None /\ packages (mem w) !! 100 = None.
Proof.
  assert (E : exists w, follow order (World sample_bound [SUnpack 200; SUnpack 201]) = Ok w /\ subs w = [SDone [1; 2; 3]; SDone [1; 2; 3]])
    by (eexists; split; [vm_compute; reflexivity|reflexivity]).
  destruct E as (w & E & Es). exists w. split; [exact E|]. split; [exact Es|].
  destruct (multicast_delivers sample_heap 7 [1; 2; 3] 2 ltac:(split; reflexivity) ltac:(reflexivity) ltac:(reflexivity)) as (c & p & h1 & h2 & E1 & E2 & _ & H).
  vm_compute in E1. injection E1 as <- <-. vm_compute in E2. injection E2 as <- <-.
  destruct (H sample_bound [200; 201] w) as (_ & _ & H3); [reflexivity..|repeat constructor|exact (follow_steps _ _ _ E)|].
  apply H3. rewrite Es. repeat constructor; by eexists.
Defined.

(** [mc_remote] takes the message out of its package and frees the package; the cell
    that led to it stays, and nothing leads to the cell. *)
Lemma remote_leaks_cell h c p k : cells h !! c = Some p -> packages h !! p = Some k ->
  exists h', mc_remote h c = Ok (h', (data k, size k)) /\ packages h' !! p = None /\ cells h' !! c = Some p.
Proof.
  intros Hc Hk. unfold mc_remote, get. rewrite Hc, bind_ret, Hk, bind_ret. unfold free_package, get. rewrite Hk, !bind_ret. eexists. split; [done|]. cbn [packages cells].
  split; [apply lookup_delete_eq|done].
Qed.
