(* ===== verification/Bson.v ===== *)
(** * Documents of the database ([lualib-src/lua-bson.c])

    Lua tables are written as BSON documents into a buffer that grows, and read back.
    The memory of the buffer is explicit: a cell that was not written is [None].  A
    document that is read is a block of bytes and a position in it; the lengths in it are
    those the other side wrote, negative ones included, so that a reader can go
    backwards.

    Values of BSON that Lua does not have are strings of Lua: a zero byte, the type and
    the data. *)

From S2P Require Import Prelude Text.
From stdpp Require Import base numbers list.
From Stdlib Require Import ZArith Lia.
From Stdlib Require String.
Import String.StringSyntax.
#[local] Open Scope Z_scope.
#[local] Open Scope list_scope.

Module Bson.

Definition DEFAULT_CAP : Z := 64.
Definition MAX_DEPTH : Z := 128.

Definition BSON_REAL : Z := 1.
Definition BSON_STRING : Z := 2.
Definition BSON_DOCUMENT : Z := 3.
Definition BSON_ARRAY : Z := 4.
Definition BSON_BINARY : Z := 5.
Definition BSON_OBJECTID : Z := 7.
Definition BSON_BOOLEAN : Z := 8.
Definition BSON_DATE : Z := 9.
Definition BSON_NULL : Z := 10.
Definition BSON_REGEX : Z := 11.
Definition BSON_DBPOINTER : Z := 12.
Definition BSON_JSCODE : Z := 13.
Definition BSON_SYMBOL : Z := 14.
Definition BSON_CODEWS : Z := 15.
Definition BSON_INT32 : Z := 16.
Definition BSON_TIMESTAMP : Z := 17.
Definition BSON_INT64 : Z := 18.
Definition BSON_MINKEY : Z := 255.
Definition BSON_MAXKEY : Z := 127.
Definition BSON_TYPE_SHIFT : Z := 5.

(** ** Values of Lua *)

(** A number that is not an integer has a text as a key. *)
Inductive bkey := KInt (n : Z) | KReal (text : list Z) | KStr (s : list Z) | KOther.

(** A table: what [__len] returns ([Some None] for what is not an integer), what
    [__pairs] enumerates, the border, and the entries in the order of [lua_next], as
    [lua_geti] finds them. *)
Inductive bval :=
  | VInt (n : Z) | VReal (bits : Z) | VStr (s : list Z) | VBool (b : bool) | VUser (doc : list Z)
  | VTable (m_len : option (option Z)) (m_pairs : option (list (bkey * bval))) (len : Z) (entries : list (bkey * bval))
  | VOther.

#[export] Instance bkey_eq_dec : EqDecision bkey.
Proof. solve_decision. Defined.

Fixpoint rawget (k : bkey) (entries : list (bkey * bval)) : option bval :=
  match entries with
  | [] => None
  | (k', v) :: entries => if decide (k = k') then Some v else rawget k entries
  end.

(** ** Writing *)

Definition i64 (z : Z) : Z := (z + 2^63) mod 2^64 - 2^63.

Record bson := BSON { size : Z; cap : Z; ptr : list (option Z) }.

Definition bson_create : bson := BSON 0 DEFAULT_CAP (replicate (Z.to_nat DEFAULT_CAP) None).

(** [do cap *= 2 while (cap <= n)] *)
Fixpoint grow (fuel : nat) (c n : Z) : outcome Z :=
  match fuel with
  | O => Fault OutOfFuel
  | S fuel => c ← c_int (c * 2); if c <=? n then grow fuel c n else Ok c
  end.

Definition bson_reserve (b : bson) (sz : Z) : outcome bson :=
  n ← c_int (size b + sz);
  if n <=? cap b then Ok b
  else
    c ← grow 32 (cap b) n;
    Ok (BSON (size b) c (take (Z.to_nat (size b)) (ptr b) ++ replicate (Z.to_nat c - Z.to_nat (size b)) None)).

(** [bytes] behind what is there. *)
Definition put (b : bson) (bytes : list Z) : outcome bson :=
  p ← mem_write (ptr b) (size b) (Some <$> bytes);
  n ← c_int (size b + Z.of_nat (length bytes));
  Ok (BSON n (cap b) p).

Definition write_byte (b : bson) (v : Z) : outcome bson := b ← bson_reserve b 1; put b [u8 v].

Definition bytes32 (v : Z) : list Z :=
  let uv := u32 v in [Z.land uv 255; Z.land (Z.shiftr uv 8) 255; Z.land (Z.shiftr uv 16) 255; Z.land (Z.shiftr uv 24) 255].
Definition write_int32 (b : bson) (v : Z) : outcome bson := b ← bson_reserve b 4; put b (bytes32 v).
Definition write_length (b : bson) (v off : Z) : outcome bson :=
  p ← mem_write (ptr b) off (Some <$> bytes32 v);
  Ok (BSON (size b) (cap b) p).

Definition bytes64 (v : Z) : list Z := (fun i => Z.land (Z.shiftr (u64 v) i) 255) <$> [0; 8; 16; 24; 32; 40; 48; 56].
Definition write_int64 (b : bson) (v : Z) : outcome bson := b ← bson_reserve b 8; put b (bytes64 v).
(** A double is its bits. *)
Definition write_double (b : bson) (d : Z) : outcome bson := b ← bson_reserve b 8; put b (bytes64 d).

Definition reserve_length (b : bson) : outcome (Z * bson) :=
  let sz := size b in
  b ← bson_reserve b 4;
  n ← c_int (size b + 4);
  Ok (sz, BSON n (cap b) (ptr b)).

(** *** Text *)

(** A string of Lua ends in a zero. *)
Definition getc (s : list Z) (i : Z) : outcome Z := if i =? Z.of_nat (length s) then Ok 0 else arr_get s i.

Definition MAXUNICODE : Z := 1114111.
Definition limits : list Z := [255; 127; 2047; 65535].

(** [None] is [return 0].  [c] has at most 7 leading ones. *)
Fixpoint utf8_loop (fuel : nat) (s : list Z) (off limit c count res : Z) : outcome (option (Z * Z * Z)) :=
  match fuel with
  | O => Fault OutOfFuel
  | S fuel =>
      if Z.land c 64 =? 0 then Ok (Some (c, count, res))
      else
        let count := count + 1 in
        cc ← getc s (off + count);
        if (limit <=? count) || negb (Z.land cc 192 =? 128) then Ok None
        else utf8_loop fuel s off limit (u32 (Z.shiftl c 1)) count (u32 (Z.lor (Z.shiftl res 6) (Z.land cc 63)))
  end.

(** The number of bytes of the character at [off], 0 when there is none; [char] has a
    sign, and a shift by 32 and more is undefined. *)
Definition utf8_copy (s : list Z) (off limit : Z) : outcome Z :=
  c ← getc s off;
  let c := if c <? 128 then c else c + (2^32 - 256) in
  if limit <? 1 then Ok 0
  else if c <? 128 then Ok 1
  else
    r ← utf8_loop 9 s off limit c 0 0;
    match r with
    | None => Ok 0
    | Some (c, count, res) =>
        if 32 <=? count * 5 then Fault SignedOverflow
        else
          let res := u32 (Z.lor res (Z.shiftl (Z.land c 127) (count * 5))) in
          if (3 <? count) || (MAXUNICODE <? res) then Ok 0
          else lim ← arr_get limits count; Ok (if res <=? lim then 0 else count + 1)
    end.

(** [n] more characters from [src] to [dst]; [src] is left after at most as many steps
    as it has bytes. *)
Fixpoint string_loop (fuel : nat) (p : list (option Z)) (dst : Z) (s : list Z) (src n : Z) : outcome (list (option Z)) :=
  match fuel with
  | O => Fault OutOfFuel
  | S fuel =>
      if 0 <? n then
        c ← utf8_copy s src n;
        if c =? 0 then Fault (LuaError "Invalid utf8 string")
        else
          bytes ← mem_read s src c;
          p ← mem_write p dst (Some <$> bytes);
          string_loop fuel p (dst + c) s (src + c) (n - c)
      else Ok p
  end.

(** [sz] bytes of [s] from [off] on, and a zero. *)
Definition write_string (b : bson) (s : list Z) (off sz : Z) : outcome bson :=
  b ← bson_reserve b (i32 (sz + 1));
  p ← string_loop (S (length s)) (ptr b) (size b) s off sz;
  p ← mem_write p (size b + sz) [Some 0];
  Ok (BSON (i32 (size b + (sz + 1))) (cap b) p).

Definition append_key (bs : bson) (type : Z) (key : list Z) : outcome bson :=
  bs ← write_byte bs type;
  write_string bs key 0 (Z.of_nat (length key)).

Definition is_32bit (v : Z) : bool := (- 2^31 <=? v) && (v <=? 2^31 - 1).

Definition append_integer (bs : bson) (i : Z) (key : list Z) : outcome bson :=
  if is_32bit i then bs ← append_key bs BSON_INT32 key; write_int32 bs i
  else bs ← append_key bs BSON_INT64 key; write_int64 bs i.
Definition append_real (bs : bson) (d : Z) (key : list Z) : outcome bson :=
  bs ← append_key bs BSON_REAL key; write_double bs d.

(** [memcpy] of [sz] bytes of [s] from [off] on behind what is there. *)
Definition write_bytes (b : bson) (s : list Z) (off sz : Z) : outcome bson :=
  b ← bson_reserve b (i32 sz);
  bytes ← mem_read s off sz;
  put b bytes.

Definition write_binary (b : bson) (s : list Z) (off sz : Z) : outcome bson :=
  '(length, b) ← reserve_length b;
  b ← write_bytes b s off sz;
  write_length b (i32 (sz - 1)) length.

(** The search for a zero from the end: [str[len-i-1]], the indices of [size_t]. *)
Fixpoint last_zero (fuel : nat) (s : list Z) (len i : Z) : outcome Z :=
  match fuel with
  | O => Fault OutOfFuel
  | S fuel =>
      if i <? len then
        c ← getc s (2 + i64 (len - i - 1));
        if c =? 0 then Ok i else last_zero fuel s len (i + 1)
      else Ok i
  end.

(** A string that stands for a value of another type. *)
Definition object_body (bs : bson) (s : list Z) (subt : Z) : outcome bson :=
  let len := Z.of_nat (length s) in
  if subt =? BSON_BINARY then write_binary bs s 2 (len - 2)
  else if subt =? BSON_OBJECTID then
    if negb (len =? 2 + 12) then Fault (LuaError "Invalid object id") else write_bytes bs s 2 (len - 2)
  else if (subt =? BSON_JSCODE) || (subt =? BSON_DBPOINTER) || (subt =? BSON_SYMBOL) || (subt =? BSON_CODEWS) then write_bytes bs s 2 (len - 2)
  else if subt =? BSON_DATE then
    if negb (len =? 2 + 4) then Fault (LuaError "Invalid date")
    else ts ← mem_read s 2 4; write_int64 bs (of_le ts * 1000)
  else if subt =? BSON_TIMESTAMP then
    if negb (len =? 2 + 8) then Fault (LuaError "Invalid timestamp")
    else
      inc ← mem_read s 2 4;
      ts ← mem_read s 6 4;
      bs ← write_int32 bs (of_le inc);
      write_int32 bs (of_le ts)
  else if subt =? BSON_REGEX then
    let len := u64 (len - 3) in
    i ← last_zero (S (length s)) s len 0;
    bs ← write_string bs s 2 (u64 (len - i - 1));
    write_string bs s (2 + i64 (len - i)) i
  else if (subt =? BSON_MINKEY) || (subt =? BSON_MAXKEY) || (subt =? BSON_NULL) then Ok bs
  else Fault (LuaError "Invalid subtype").
Definition append_object (bs : bson) (s : list Z) (key : list Z) : outcome bson :=
  subt ← arr_get s 1;
  bs ← append_key bs subt key;
  object_body bs s subt.

Definition append_string (bs : bson) (s : list Z) (key : list Z) : outcome bson :=
  bs ← append_key bs BSON_STRING key;
  '(off, bs) ← reserve_length bs;
  bs ← write_string bs s 0 (Z.of_nat (length s));
  write_length bs (i32 (Z.of_nat (length s) + 1)) off.

(** The document another call made. *)
Definition append_userdata (bs : bson) (doc : list Z) (key : list Z) : outcome bson :=
  bs ← append_key bs BSON_DOCUMENT key;
  head ← mem_read doc 0 4;
  write_bytes bs doc 0 (i32 (of_le head)).

(** *** Tables *)

(** [bson_numstrs] and [bson_numstr_len] hold the texts of the numbers below 1024. *)
Definition bson_numstr (i : Z) : list Z := fmt_u (u32 i).

Definition is_object (s : list Z) : bool := (1 <? Z.of_nat (length s)) && bool_decide (head s = Some 0).

Section Tables.
(** [append_one] at the depth of the values. *)
Context (append_one : bson -> list Z -> bval -> outcome bson).

(** What is between the length and the end of a document. *)
Definition framed (b : bson) (body : bson -> outcome bson) : outcome bson :=
  '(length, b) ← reserve_length b;
  b ← body b;
  b ← write_byte b 0;
  n ← c_int (size b - length);
  write_length b n length.

Definition pack_array (b : bson) (entries : list (bkey * bval)) (len : Z) : outcome bson :=
  framed b (fun b => for_loop (Z.to_nat len) 1
    (fun i b => append_one b (bson_numstr (i - 1)) (default VOther (rawget (KInt i) entries))) b).

Definition pack_dict_data (b : bson) (k : bkey) (v : bval) : outcome bson :=
  match k with
  | KInt n => append_one b (fmt_d n) v
  | KReal s | KStr s => append_one b s v
  | KOther => Fault (LuaError "Invalid key type")
  end.

Fixpoint pack_each (b : bson) (entries : list (bkey * bval)) : outcome bson :=
  match entries with
  | [] => Ok b
  | (k, v) :: entries => b ← pack_dict_data b k v; pack_each b entries
  end.

Definition pack_simple_dict (b : bson) (entries : list (bkey * bval)) : outcome bson := framed b (fun b => pack_each b entries).
(** The pairs the iterator returns. *)
Definition pack_meta_dict (b : bson) (pairs : list (bkey * bval)) : outcome bson := framed b (fun b => pack_each b pairs).

(** There is no key behind the last one of the array. *)
Definition is_rawarray (len : Z) (entries : list (bkey * bval)) : bool :=
  (0 <? len) && bool_decide (fst <$> last entries = Some (KInt len)).

Definition append_fields (bs : bson) (key : list Z) (m_len : option (option Z)) (m_pairs : option (list (bkey * bval))) (len : Z) (entries : list (bkey * bval)) : outcome bson :=
  match m_len with
  | Some None => Fault (LuaError "__len should return integer")
  | Some (Some n) => bs ← append_key bs BSON_ARRAY key; pack_array bs entries (u64 n)
  | None =>
      match m_pairs with
      | Some pairs => bs ← append_key bs BSON_DOCUMENT key; pack_meta_dict bs pairs
      | None =>
          if is_rawarray len entries then bs ← append_key bs BSON_ARRAY key; pack_array bs entries len
          else bs ← append_key bs BSON_DOCUMENT key; pack_simple_dict bs entries
      end
  end.

(** Keys and values in turns, as arguments, at least one of each. *)
Fixpoint pack_ordered (b : bson) (args : list (bkey * bval)) : outcome bson :=
  match args with
  | [] => Ok b
  | (k, v) :: args =>
      match k with
      | KInt n => b ← append_one b (fmt_d n) v; pack_ordered b args
      | KReal s | KStr s => b ← append_one b s v; pack_ordered b args
      | KOther => Fault (LuaError "Argument need a string")
      end
  end.
Definition pack_ordered_dict (b : bson) (args : list (bkey * bval)) : outcome bson := framed b (fun b => pack_ordered b args).
End Tables.

(** The depth of the tables is bounded, and with it that of the calls. *)
Fixpoint append_one (fuel : nat) (depth : Z) (bs : bson) (key : list Z) (v : bval) : outcome bson :=
  match v with
  | VInt i => append_integer bs i key
  | VReal d => append_real bs d key
  | VUser doc => append_userdata bs doc key
  | VStr s => if is_object s then append_object bs s key else append_string bs s key
  | VTable m_len m_pairs len entries =>
      match fuel with
      | O => Fault OutOfFuel
      | S fuel =>
          if MAX_DEPTH <? depth + 1 then Fault (LuaError "Too depth while encoding bson")
          else append_fields (append_one fuel (depth + 1)) bs key m_len m_pairs len entries
      end
  | VBool b => bs ← append_key bs BSON_BOOLEAN key; write_byte bs (if b then 1 else 0)
  | VOther => Fault (LuaError "Invalid value type")
  end.

Definition depth_fuel : nat := 130.

(** The bytes of the document. *)
Definition result (b : bson) : outcome (list Z) :=
  p ← mem_read (ptr b) 0 (size b);
  mapM init_read p.

Definition lencode (m_pairs : option (list (bkey * bval))) (entries : list (bkey * bval)) : outcome (list Z) :=
  b ← match m_pairs with
      | Some pairs => pack_meta_dict (append_one depth_fuel 0) bson_create pairs
      | None => pack_simple_dict (append_one depth_fuel 0) bson_create entries
      end;
  result b.

Definition lencode_order (args : list (bkey * bval)) : outcome (list Z) :=
  b ← pack_ordered_dict (append_one depth_fuel 0) bson_create args;
  result b.

(** ** Reading *)

(** What [ldecode] returns: a table is its entries. *)
Inductive lval := LInt (n : Z) | LReal (bits : Z) | LBool (b : bool) | LStr (s : list Z) | LTable (entries : list (bkey * lval)).

Fixpoint rawset (k : bkey) (v : lval) (entries : list (bkey * lval)) : list (bkey * lval) :=
  match entries with
  | [] => [(k, v)]
  | (k', v') :: entries => if decide (k = k') then (k, v) :: entries else (k', v') :: rawset k v entries
  end.

Record bson_reader := Reader { r_ptr : Z; r_size : Z }.

Section Read.
(** The block the reader is in. *)
Context (data : list Z).

Definition get_length : outcome Z := b ← mem_read data 0 4; Ok (i32 (of_le b)).

Definition check_reader (br : bson_reader) (sz : Z) : outcome unit :=
  if r_size br <? sz then Fault (LuaError "Invalid bson block") else Ok tt.

Definition advance (br : bson_reader) (sz : Z) : outcome bson_reader :=
  n ← c_int (r_size br - sz); Ok (Reader (r_ptr br + sz) n).

Definition read_byte (br : bson_reader) : outcome (Z * bson_reader) :=
  _ ← check_reader br 1;
  r ← arr_get data (r_ptr br);
  br ← advance br 1;
  Ok (r, br).

Definition read_int32 (br : bson_reader) : outcome (Z * bson_reader) :=
  _ ← check_reader br 4;
  b ← mem_read data (r_ptr br) 4;
  br ← advance br 4;
  Ok (i32 (of_le b), br).

Definition read_word64 (br : bson_reader) : outcome (Z * bson_reader) :=
  _ ← check_reader br 8;
  b ← mem_read data (r_ptr br) 8;
  br ← advance br 8;
  Ok (of_le b, br).
Definition read_int64 (br : bson_reader) : outcome (Z * bson_reader) := '(v, br) ← read_word64 br; Ok (i64 v, br).
Definition read_double (br : bson_reader) : outcome (Z * bson_reader) := read_word64 br.

(** The place of [sz] bytes, where [sz] may be negative. *)
Definition read_bytes (br : bson_reader) (sz : Z) : outcome (Z * bson_reader) :=
  _ ← check_reader br sz;
  br' ← advance br sz;
  Ok (r_ptr br, br').

Fixpoint cstring_loop (fuel : nat) (br : bson_reader) (i : Z) : outcome Z :=
  match fuel with
  | O => Fault OutOfFuel
  | S fuel =>
      if i =? r_size br then Fault (LuaError "Invalid bson block : cstring")
      else c ← arr_get data (r_ptr br + i); if c =? 0 then Ok i else cstring_loop fuel br (i + 1)
  end.
(** The text; the block ends before the fuel does. *)
Definition read_cstring (br : bson_reader) : outcome (list Z * bson_reader) :=
  i ← cstring_loop (S (length data)) br 0;
  s ← mem_read data (r_ptr br) i;
  br ← advance br (i + 1);
  Ok (s, br).

(** A string of Lua from [len] bytes of the block; one that is too large is refused. *)
Definition addlstring (p len : Z) : outcome (list Z) :=
  if 2^62 <? u64 len then Fault (LuaError "not enough memory") else mem_read data p len.
Definition make_object (type p len : Z) : outcome lval := s ← addlstring p len; Ok (LStr (0 :: u8 type :: s)).

(** The document at the reader: the reader of its elements, and behind it. *)
Definition open_dict (br : bson_reader) : outcome (bson_reader * bson_reader) :=
  '(sz, br) ← read_int32 br;
  n ← c_int (sz - 5);
  '(bytes, br) ← read_bytes br n;
  '(e, br) ← read_byte br;
  if negb (e =? 0) then Fault (LuaError "Invalid document end") else Ok (Reader bytes n, br).

(** [strtol(key, NULL, 10) + 1] as an [int]. *)
Definition array_key (key : list Z) : bkey := KInt (i32 (strtol10 key + 1)).

(** A value that is neither a document nor an array. *)
Definition unpack_value (bt : Z) (t : bson_reader) : outcome (lval * bson_reader) :=
  if bt =? BSON_REAL then '(d, t) ← read_double t; Ok (LReal d, t)
  else if bt =? BSON_BOOLEAN then '(b, t) ← read_byte t; Ok (LBool (negb (b =? 0)), t)
  else if bt =? BSON_STRING then
    '(sz, t) ← read_int32 t;
    if sz <=? 0 then Fault (LuaError "Invalid bson string")
    else '(p, t) ← read_bytes t sz; s ← mem_read data p (sz - 1); Ok (LStr s, t)
  else if bt =? BSON_BINARY then
    '(sz, t) ← read_int32 t;
    '(subtype, t) ← read_byte t;
    '(p, t) ← read_bytes t sz;
    s ← addlstring p sz;
    Ok (LStr (0 :: BSON_BINARY :: subtype :: s), t)
  else if bt =? BSON_OBJECTID then '(p, t) ← read_bytes t 12; v ← make_object BSON_OBJECTID p 12; Ok (v, t)
  else if bt =? BSON_DATE then '(date, t) ← read_int64 t; Ok (LStr (0 :: BSON_DATE :: to_le 4 (u32 (Z.quot date 1000))), t)
  else if (bt =? BSON_MINKEY) || (bt =? BSON_MAXKEY) || (bt =? BSON_NULL) then Ok (LStr [0; bt], t)
  else if bt =? BSON_REGEX then
    '(r1, t) ← read_cstring t;
    '(r2, t) ← read_cstring t;
    Ok (LStr (0 :: BSON_REGEX :: r1 ++ 0 :: r2 ++ [0]), t)
  else if bt =? BSON_INT32 then '(n, t) ← read_int32 t; Ok (LInt n, t)
  else if bt =? BSON_TIMESTAMP then
    '(inc, t) ← read_int32 t;
    '(ts, t) ← read_int32 t;
    Ok (LStr (0 :: BSON_TIMESTAMP :: to_le 4 (u32 inc) ++ to_le 4 (u32 ts)), t)
  else if bt =? BSON_INT64 then '(n, t) ← read_int64 t; Ok (LInt n, t)
  else if bt =? BSON_DBPOINTER then
    let p := r_ptr t in
    '(sz, t) ← read_int32 t;
    n ← c_int (sz + 12);
    '(_, t) ← read_bytes t n;
    n ← c_int (sz + 16);
    v ← make_object BSON_DBPOINTER p n;
    Ok (v, t)
  else if (bt =? BSON_JSCODE) || (bt =? BSON_SYMBOL) then
    let p := r_ptr t in
    '(sz, t) ← read_int32 t;
    '(_, t) ← read_bytes t sz;
    n ← c_int (sz + 4);
    v ← make_object bt p n;
    Ok (v, t)
  else if bt =? BSON_CODEWS then
    let p := r_ptr t in
    '(sz, t) ← read_int32 t;
    n ← c_int (sz - 4);
    '(_, t) ← read_bytes t n;
    v ← make_object bt p sz;
    Ok (v, t)
  else Fault (LuaError "Invalid bson type").

(** The loop of [unpack_dict] over the elements. *)
Fixpoint unpack_loop (fuel : nat) (t : bson_reader) (array : bool) (tbl : list (bkey * lval)) : outcome (list (bkey * lval)) :=
  match fuel with
  | O => Fault OutOfFuel
  | S fuel =>
      if r_size t =? 0 then Ok tbl
      else
        '(bt, t) ← read_byte t;
        '(key, t) ← read_cstring t;
        let k := if array then array_key key else KStr key in
        '(v, t) ← (if (bt =? BSON_DOCUMENT) || (bt =? BSON_ARRAY) then
                     '(inner, t) ← open_dict t;
                     sub ← unpack_loop fuel inner (bt =? BSON_ARRAY) [];
                     Ok (LTable sub, t)
                   else unpack_value bt t);
        unpack_loop fuel t array (rawset k v tbl)
  end.

(** The elements of a document are inside it, and each is shorter than what is left. *)
Definition unpack_dict (br : bson_reader) (array : bool) : outcome lval :=
  '(t, _) ← open_dict br;
  tbl ← unpack_loop (S (Z.to_nat (r_size t))) t array [];
  Ok (LTable tbl).

Definition ldecode : outcome lval := len ← get_length; unpack_dict (Reader 0 len) false.

(** ** Replacing values in a document *)

(** The fields whose size is known, by the place of the value. *)
Definition field_size (bt : Z) : Z :=
  if (bt =? BSON_INT64) || (bt =? BSON_TIMESTAMP) || (bt =? BSON_DATE) || (bt =? BSON_REAL) then 8
  else if bt =? BSON_BOOLEAN then 1
  else if bt =? BSON_OBJECTID then 12
  else if bt =? BSON_INT32 then 4
  else 0.

(** What is behind a value of another type. *)
Definition skip_value (bt : Z) (br : bson_reader) : outcome bson_reader :=
  if (bt =? BSON_JSCODE) || (bt =? BSON_SYMBOL) || (bt =? BSON_STRING) then
    '(sz, br) ← read_int32 br; '(_, br) ← read_bytes br sz; Ok br
  else if (bt =? BSON_CODEWS) || (bt =? BSON_ARRAY) || (bt =? BSON_DOCUMENT) then
    '(sz, br) ← read_int32 br; n ← c_int (sz - 4); '(_, br) ← read_bytes br n; Ok br
  else if bt =? BSON_BINARY then
    '(sz, br) ← read_int32 br; n ← c_int (sz + 1); '(_, br) ← read_bytes br n; Ok br
  else if (bt =? BSON_MINKEY) || (bt =? BSON_MAXKEY) || (bt =? BSON_NULL) then Ok br
  else if bt =? BSON_REGEX then '(_, br) ← read_cstring br; '(_, br) ← read_cstring br; Ok br
  else if bt =? BSON_DBPOINTER then
    '(sz, br) ← read_int32 br; n ← c_int (sz + 12); '(_, br) ← read_bytes br n; Ok br
  else Fault (LuaError "Invalid bson type").

Fixpoint index_set (k : list Z) (id : Z) (index : list (list Z * Z)) : list (list Z * Z) :=
  match index with
  | [] => [(k, id)]
  | (k', id') :: index => if decide (k = k') then (k, id) :: index else (k', id') :: index_set k id index
  end.

Fixpoint makeindex_loop (fuel : nat) (br : bson_reader) (index : list (list Z * Z)) : outcome (list (list Z * Z)) :=
  match fuel with
  | O => Fault OutOfFuel
  | S fuel =>
      if r_size br =? 0 then Ok index
      else
        '(bt, br) ← read_byte br;
        '(key, br) ← read_cstring br;
        if 0 <? field_size bt then
          let id := Z.lor bt (Z.shiftl (r_ptr br) BSON_TYPE_SHIFT) in
          '(_, br) ← read_bytes br (field_size bt);
          makeindex_loop fuel br (index_set key id index)
        else
          br ← skip_value bt br;
          makeindex_loop fuel br index
  end.

Definition lmakeindex (fuel : nat) : outcome (list (list Z * Z)) :=
  len ← get_length;
  n ← c_int (len - 5);
  makeindex_loop fuel (Reader 4 n) [].
End Read.

Definition find_index (key : list Z) (index : list (list Z * Z)) : option Z :=
  match list_find (fun e => e.1 = key) index with Some (_, e) => Some e.2 | None => None end.

(** [memcpy] into the document. *)
Definition replace_object (type : Z) (v : option bval) (bs : bson) : outcome bson :=
  match v with
  | Some (VStr s) =>
      let len := Z.of_nat (length s) in
      if (len <? 6) || negb (bool_decide (s !! 0%nat = Some 0)) || negb (bool_decide (s !! 1%nat = Some type)) then Fault (LuaError "Type mismatch")
      else if type =? BSON_OBJECTID then
        if negb (len =? 2 + 12) then Fault (LuaError "Invalid object id")
        else bytes ← mem_read s 2 12; p ← mem_write (ptr bs) 0 (Some <$> bytes); Ok (BSON (size bs) (cap bs) p)
      else if type =? BSON_DATE then
        if negb (len =? 2 + 4) then Fault (LuaError "Invalid date") else ts ← mem_read s 2 4; write_int64 bs (of_le ts * 1000)
      else if type =? BSON_TIMESTAMP then
        if negb (len =? 2 + 8) then Fault (LuaError "Invalid timestamp")
        else inc ← mem_read s 2 4; ts ← mem_read s 6 4; bs ← write_int32 bs (of_le inc); write_int32 bs (of_le ts)
      else Ok bs
  | _ => Fault (LuaError "string expected")
  end.

(** The document after a replacement: [struct bson] is laid over it at the value.
    [checknumber] is [luaL_checknumber], which converts integers and texts. *)
Definition lreplace (checknumber : bval -> option Z) (data : list Z) (index : list (list Z * Z)) (key : list Z) (v : option bval) : outcome (list Z) :=
  match find_index key index with
  | None => Fault (LuaError "Can't replace key")
  | Some id =>
      let type := Z.land id (Z.shiftl 1 BSON_TYPE_SHIFT - 1) in
      let offset := Z.shiftr id BSON_TYPE_SHIFT in
      let b := BSON 0 16 (Some <$> drop (Z.to_nat offset) data) in
      b ← (if type =? BSON_REAL then match v ≫= checknumber with Some d => write_double b d | None => Fault (LuaError "number expected") end
           else if type =? BSON_BOOLEAN then write_byte b (match v with None | Some (VBool false) => 0 | _ => 1 end)
           else if (type =? BSON_OBJECTID) || (type =? BSON_DATE) || (type =? BSON_TIMESTAMP) then replace_object type v b
           else if type =? BSON_INT32 then match v with Some (VInt i) => write_int32 b i | _ => Fault (LuaError "must be a 32bit integer") end
           else if type =? BSON_INT64 then match v with Some (VInt i) => write_int64 b i | _ => Fault (LuaError "must be a 64bit integer") end
           else Fault (LuaError "Can't replace type"));
      tail ← mapM init_read (ptr b);
      Ok (take (Z.to_nat offset) data ++ tail)
  end.

(** ** Values of the other types *)

Definition ldate (d : Z) : list Z := 0 :: BSON_DATE :: to_le 4 (u32 d).

(** [inc] is a counter of the process. *)
Definition ltimestamp (inc d : Z) (i : option Z) : Z * list Z :=
  match i with
  | None => (u32 (inc + 1), 0 :: BSON_TIMESTAMP :: to_le 4 inc ++ to_le 4 (u32 d))
  | Some i => (inc, 0 :: BSON_TIMESTAMP :: to_le 4 (u32 i) ++ to_le 4 (u32 d))
  end.

Definition lregex (r o : list Z) : list Z := 0 :: BSON_REGEX :: r ++ 0 :: o ++ [0].
Definition lbinary (s : list Z) : list Z := 0 :: BSON_BINARY :: 0 :: s.

(** What a value is, for a program. *)
Inductive btype :=
  | TNumber | TBoolean | TTable | TNil | TString | TBinary (s : list Z) (subtype : Z) | TObjectid (hex : list Z) | TTimestamp (ts inc : Z)
  | TDate (d : Z) | TRegex (r o : list Z) | TMinkey | TMaxkey | TUnsupported (s : list Z).

Definition hex_digit (d : Z) : Z := if d <? 10 then 48 + d else 87 + d.

Fixpoint zero_from_end (fuel : nat) (buf : list Z) (sz i : Z) : outcome Z :=
  match fuel with
  | O => Fault OutOfFuel
  | S fuel =>
      if i <? sz then c ← arr_get buf (sz - i - 1); if c =? 0 then Ok i else zero_from_end fuel buf sz (i + 1) else Ok i
  end.

(** [buf] is what is behind the type, [sz] bytes. *)
Definition lsubtype (subtype : Z) (buf : list Z) : outcome btype :=
  let sz := Z.of_nat (length buf) in
  if subtype =? BSON_BINARY then
    match buf with [] => Fault (LuaError "not enough memory") | b :: s => Ok (TBinary s b) end
  else if subtype =? BSON_OBJECTID then
    if negb (sz =? 12) then Fault (LuaError "Invalid object id")
    else Ok (TObjectid (mjoin ((fun b => [hex_digit (Z.shiftr b 4); hex_digit (Z.land b 15)]) <$> buf)))
  else if subtype =? BSON_DATE then
    if negb (sz =? 4) then Fault (LuaError "Invalid date") else Ok (TDate (i32 (of_le buf)))
  else if subtype =? BSON_TIMESTAMP then
    if negb (sz =? 8) then Fault (LuaError "Invalid timestamp") else Ok (TTimestamp (of_le (drop 4 buf)) (of_le (take 4 buf)))
  else if subtype =? BSON_REGEX then
    match buf with
    | [] => Fault (LuaError "not enough memory")
    | _ =>
        let sz := sz - 1 in
        i ← zero_from_end (S (length buf)) buf sz 0;
        if i =? sz then Fault (LuaError "Invalid regex")
        else Ok (TRegex (take (Z.to_nat (sz - i - 1)) buf) (take (Z.to_nat i) (drop (Z.to_nat (sz - i)) buf)))
    end
  else if subtype =? BSON_MINKEY then Ok TMinkey
  else if subtype =? BSON_MAXKEY then Ok TMaxkey
  else if subtype =? BSON_NULL then Ok TNil
  else if (subtype =? BSON_JSCODE) || (subtype =? BSON_DBPOINTER) || (subtype =? BSON_SYMBOL) || (subtype =? BSON_CODEWS) then Ok (TUnsupported buf)
  else Fault (LuaError "Invalid subtype").

(** [None] is [nil]. *)
Definition ltype (v : option bval) : outcome btype :=
  match v with
  | None => Ok TNil
  | Some (VInt _ | VReal _) => Ok TNumber
  | Some (VBool _) => Ok TBoolean
  | Some (VTable _ _ _ _) => Ok TTable
  | Some (VStr s) => match s with 0 :: subtype :: buf => lsubtype subtype buf | _ => Ok TString end
  | Some (VUser _ | VOther) => Fault (LuaError "Invalid type")
  end.

(** *** Object ids *)

Definition hextoint (c : Z) : Z :=
  if (48 <=? c) && (c <=? 57) then c - 48
  else if (97 <=? c) && (c <=? 122) then c - 97 + 10
  else if (65 <=? c) && (c <=? 90) then c - 65 + 10
  else 0.

(** [oid_header] and [oid_counter]. *)
Record oid_state := Oid { oid_header : list Z; oid_counter : Z }.

(** [hostname] is the text before its zero ([None] when [gethostname] fails); [addr] is
    the address of a local variable. *)
Definition init_oid_header (st : oid_state) (pid : Z) (hostname : option (list Z)) (time addr : Z) : oid_state :=
  if negb (oid_counter st =? 0) then st
  else
    let h := match hostname with
             | Some name =>
                 Z.lxor (foldl (fun h c => Z.lxor h (u32 (u32 (Z.shiftl h 5) + Z.shiftr h 2 + (if c <? 128 then c else c - 256)))) 0 name) (Z.of_nat (length name))
             | None => 0
             end in
    let c := u32 (Z.lxor (Z.lxor h time) addr) in
    Oid [Z.land h 255; Z.land (Z.shiftr h 8) 255; Z.land (Z.shiftr h 16) 255; Z.land pid 255; Z.land (Z.shiftr pid 8) 255] (if c =? 0 then 1 else c).

Fixpoint hex_pairs (s : list Z) : list Z :=
  match s with
  | a :: b :: s => u8 (Z.lor (Z.shiftl (hextoint a) 4) (hextoint b)) :: hex_pairs s
  | _ => []
  end.

Definition lobjectid (st : oid_state) (s : option (list Z)) (time : Z) : outcome (oid_state * list Z) :=
  match s with
  | Some str =>
      if negb (Z.of_nat (length str) =? 24) then Fault (LuaError "Invalid objectid") else Ok (st, 0 :: BSON_OBJECTID :: hex_pairs str)
  | None =>
      let id := oid_counter st in
      Ok (Oid (oid_header st) (u32 (id + 1)),
          [0; BSON_OBJECTID; Z.land (Z.shiftr time 24) 255; Z.land (Z.shiftr time 16) 255; Z.land (Z.shiftr time 8) 255; Z.land time 255]
          ++ oid_header st ++ [Z.land (Z.shiftr id 16) 255; Z.land (Z.shiftr id 8) 255; Z.land id 255])
  end.

End Bson.
