(* ===== verification/BsonWrite.v ===== *)
(** * Writing BSON

    Every writer appends the bytes of the format to what the buffer holds, and the
    buffer grows in time. *)

From S2P Require Import Prelude Text Bson.
From stdpp Require Import base numbers list.
From Stdlib Require Import ZArith Lia.
From Stdlib Require String.
Import String.StringSyntax.
#[local] Open Scope Z_scope.
#[local] Open Scope list_scope.
Import Bson.

(** ** The buffer *)

Abbreviation zlen l := (Z.of_nat (List.length l)).

(** The buffer has [w] in it. *)
Definition holds (b : bson) (w : list (option Z)) : Prop :=
  exists junk, ptr b = w ++ junk /\ size b = zlen w /\ cap b = zlen (ptr b) /\ 64 <= cap b.

Lemma holds_create : holds bson_create [].
Proof. exists (replicate (Z.to_nat DEFAULT_CAP) None). cbn [ptr bson_create size cap app]. rewrite length_replicate. done. Qed.

Lemma grow_ok n : 0 <= n < 2^30 -> forall fuel c, 0 < c <= n -> n < c * 2 ^ Z.of_nat fuel -> exists c', grow fuel c n = Ok c' /\ n < c'.
Proof.
  intros Hn. induction fuel as [|fuel IH]; intros c Hc Hf; [change (2 ^ Z.of_nat 0) with 1 in Hf; lia|]. cbn [grow].
  rewrite c_int_ok, bind_ret by lia. destruct (Z.leb_spec (c * 2) n); [|by eexists].
  rewrite Nat2Z.inj_succ, Z.pow_succ_r in Hf by lia. apply IH; lia.
Qed.

Lemma reserve_ok b w sz : holds b w -> 0 <= sz -> zlen w + sz < 2^30 ->
  exists b', bson_reserve b sz = Ok b' /\ holds b' w /\ zlen w + sz <= cap b'.
Proof.
  intros (junk & Ep & Es & Ec & Hc) Hsz Hlt. unfold bson_reserve. rewrite Es, c_int_ok, bind_ret by lia.
  destruct (Z.leb_spec (zlen w + sz) (cap b)); [exists b; split; [done|]; split; [by exists junk|done]|].
  destruct (grow_ok (zlen w + sz) ltac:(lia) 32 (cap b)) as (c' & -> & Hc'); [lia|change (Z.of_nat 32) with 32; lia|]. rewrite bind_ret.
  eexists. split; [done|]. unfold holds. cbn [ptr size cap]. rewrite Nat2Z.id, Ep, take_app_length. split; [|lia].
  eexists. split; [done|]. split; [done|]. rewrite length_app, length_replicate. lia.
Qed.

Lemma bson_put_ok b w bytes : holds b w -> zlen w + zlen bytes <= cap b -> zlen w + zlen bytes < 2^30 ->
  exists b', put b bytes = Ok b' /\ holds b' (w ++ (Some <$> bytes)).
Proof.
  intros (junk & Ep & Es & Ec & Hc) Hle Hlt. unfold put. rewrite Es, Ep. rewrite Ep, length_app in Ec.
  replace (w ++ junk) with (w ++ take (List.length bytes) junk ++ drop (List.length bytes) junk) by (by rewrite take_drop). rewrite mem_write_ok by (rewrite length_take, length_fmap; lia).
  rewrite bind_ret, c_int_ok, bind_ret by lia. eexists. split; [done|]. exists (drop (List.length bytes) junk). cbn [ptr size cap].
  split; [by rewrite <- app_assoc|]. split; [rewrite length_app, length_fmap; lia|]. rewrite !length_app, length_drop, length_fmap. lia.
Qed.

(** [m] writes [bytes]. *)
Definition emits (m : bson -> outcome bson) (bytes : list Z) : Prop :=
  forall b w, holds b w -> zlen w + zlen bytes < 2^30 -> exists b', m b = Ok b' /\ holds b' (w ++ (Some <$> bytes)).

Lemma emits_then m1 m2 x y : emits m1 x -> emits m2 y -> emits (fun b => b ← m1 b; m2 b) (x ++ y).
Proof.
  intros H1 H2 b w Hb Hlt. rewrite length_app in Hlt. destruct (H1 b w Hb) as (b1 & -> & Hb1); [lia|]. rewrite bind_ret.
  destruct (H2 b1 _ Hb1) as (b2 & -> & Hb2); [rewrite length_app, length_fmap; lia|]. exists b2. split; [done|]. by rewrite fmap_app, app_assoc.
Qed.

Lemma emits_eq m x y : x = y -> emits m x -> emits m y.
Proof. by intros ->. Qed.

Lemma emits_bounded m x : (zlen x < 2^30 -> emits m x) -> emits m x.
Proof. intros H b w Hb Hlt. apply H; [lia|done..]. Qed.

Lemma emits_nothing : emits (fun b => Ok b) [].
Proof. intros b w Hb _. exists b. by rewrite app_nil_r. Qed.

Lemma emits_put bytes sz : sz = zlen bytes -> emits (fun b => b ← bson_reserve b sz; put b bytes) bytes.
Proof.
  intros -> b w Hb Hlt. destruct (reserve_ok b w (zlen bytes) Hb) as (b1 & -> & Hb1 & Hc); [lia..|]. rewrite bind_ret. by apply bson_put_ok.
Qed.

(** ** Numbers *)

Lemma bytes32_le v : bytes32 v = to_le 4 (u32 v).
Proof.
  unfold bytes32. rewrite <- (Z.shiftr_0_r (u32 v)) at 1. rewrite !byte_of by lia. cbn [to_le]. rewrite !Z.div_div by lia.
  change (2^0) with 1. by rewrite Z.div_1_r.
Qed.

Lemma bytes64_le v : bytes64 v = to_le 8 (u64 v).
Proof.
  unfold bytes64. cbn [fmap list_fmap]. rewrite !byte_of by lia. cbn [to_le]. rewrite !Z.div_div by lia. change (2^0) with 1. by rewrite Z.div_1_r.
Qed.

Lemma emits_byte v : emits (fun b => write_byte b v) [u8 v].
Proof. by apply emits_put. Qed.
Lemma emits_int32 v : emits (fun b => write_int32 b v) (to_le 4 (u32 v)).
Proof. unfold write_int32. rewrite bytes32_le. apply emits_put. by rewrite le_length. Qed.
Lemma emits_int64 v : emits (fun b => write_int64 b v) (to_le 8 (u64 v)).
Proof. unfold write_int64. rewrite bytes64_le. apply emits_put. by rewrite le_length. Qed.
Lemma emits_double v : emits (fun b => write_double b v) (to_le 8 (u64 v)).
Proof. exact (emits_int64 v). Qed.

(** ** Text *)

(** [utf8_copy] goes through the text to its end. *)
Fixpoint utf8_steps (fuel : nat) (s : list Z) (src n : Z) : bool :=
  match fuel with
  | O => false
  | S fuel =>
      if 0 <? n then
        match utf8_copy s src n with
        | Ok c => negb (c =? 0) && utf8_steps fuel s (src + c) (n - c)
        | Fault _ => false
        end
      else true
  end.

(** The text of [n] bytes in [s] from [off] on is made of characters. *)
Definition utf8_at (s : list Z) (off n : Z) : bool := utf8_steps (S (List.length s)) s off n.
Definition utf8 (s : list Z) : bool := utf8_at s 0 (zlen s).

Lemma utf8_loop_count s off limit fuel : forall c count res c' count' res', utf8_loop fuel s off limit c count res = Ok (Some (c', count', res')) ->
  0 <= count < limit -> 0 <= count' < limit.
Proof.
  induction fuel as [|fuel IH]; intros c count res c' count' res'; cbn [utf8_loop]; [done|]. destruct (Z.land c 64 =? 0); [intros [= <- <- <-]; done|].
  intros H Hc. apply bind_Ok in H as (cc & _ & H). destruct (Z.leb_spec limit (count + 1)); [done|]. cbn [orb] in H. destruct (negb _); [done|]. eapply IH; [exact H|]. lia.
Qed.

Lemma utf8_copy_range s off limit c : utf8_copy s off limit = Ok c -> 0 <= c <= Z.max 0 limit.
Proof.
  unfold utf8_copy. intros H. apply bind_Ok in H as (c0 & _ & H). destruct (Z.ltb_spec limit 1); [injection H as <-; lia|].
  destruct ((if c0 <? 128 then c0 else c0 + (2 ^ 32 - 256)) <? 128); [injection H as <-; lia|]. apply bind_Ok in H as ([[[c1 count] res]|] & E & H); [|injection H as <-; lia].
  apply utf8_loop_count in E; [|lia]. destruct (32 <=? count * 5); [done|]. destruct (_ || _); [injection H as <-; lia|]. apply bind_Ok in H as (lim & _ & H).
  destruct (_ <=? lim); injection H as <-; lia.
Qed.

Lemma string_loop_ok s fuel : forall src n a c dst, utf8_steps fuel s src n = true -> 0 <= src -> 0 <= n -> src + n <= zlen s -> dst = zlen a -> n <= zlen c ->
  string_loop fuel (a ++ c) dst s src n = Ok (a ++ (Some <$> take (Z.to_nat n) (drop (Z.to_nat src) s)) ++ drop (Z.to_nat n) c).
Proof.
  induction fuel as [|fuel IH]; intros src n a c dst Hs Hsrc Hn Hle -> Hc; [done|]. cbn [utf8_steps string_loop] in *.
  destruct (Z.ltb_spec 0 n); [|replace n with 0 by lia; cbn; by rewrite drop_0].
  destruct (utf8_copy s src n) as [k|] eqn:Ek; [|done]. apply andb_prop in Hs as [Hk Hs]. apply utf8_copy_range in Ek as Hr. rewrite bind_ret.
  destruct (Z.eqb_spec k 0); [done|]. set (chunk := take (Z.to_nat k) (drop (Z.to_nat src) s)).
  assert (Hl : zlen chunk = k) by (unfold chunk; rewrite length_take, length_drop; lia).
  assert (Er : mem_read s src k = Ok chunk).
  { unfold mem_read. destruct (Z.ltb_spec src 0), (Z.ltb_spec k 0), (Z.ltb_spec (zlen s) (src + k)); try lia. done. }
  assert (Ew : mem_write (a ++ c) (zlen a) (Some <$> chunk) = Ok ((a ++ (Some <$> chunk)) ++ drop (Z.to_nat k) c)).
  { replace (a ++ c) with (a ++ take (Z.to_nat k) c ++ drop (Z.to_nat k) c) by (by rewrite take_drop). rewrite <- app_assoc. apply mem_write_ok. rewrite length_fmap, length_take. lia. }
  rewrite Er, bind_ret, Ew, bind_ret, IH by (done || (rewrite ?length_app, ?length_fmap, ?length_drop; lia)).
  rewrite drop_drop, <- app_assoc, (app_assoc (Some <$> chunk)), <- fmap_app. do 4 f_equal; [|lia].
  unfold chunk. replace (Z.to_nat (src + k)) with (Z.to_nat src + Z.to_nat k)%nat by lia. rewrite <- drop_drop.
  rewrite <- (take_drop (Z.to_nat k) (drop (Z.to_nat src) s)) at 3. rewrite take_app. rewrite length_take, length_drop.
  rewrite (take_ge (take _ _)) by (rewrite length_take; lia). do 2 f_equal. lia.
Qed.

Lemma emits_string s off sz : utf8_at s off sz = true -> 0 <= off -> 0 <= sz -> off + sz <= zlen s ->
  emits (fun b => write_string b s off sz) (take (Z.to_nat sz) (drop (Z.to_nat off) s) ++ [0]).
Proof.
  intros Hu Hoff Hsz Hle b w Hb Hlt. set (text := take (Z.to_nat sz) (drop (Z.to_nat off) s)) in *.
  assert (Hl : zlen text = sz) by (unfold text; rewrite length_take, length_drop; lia). rewrite length_app in Hlt. cbn [List.length] in Hlt.
  unfold write_string. rewrite (i32_small (sz + 1)) by lia. destruct (reserve_ok b w (sz + 1) Hb) as (b1 & -> & (junk & Ep & Es & Ec & Hc) & Hcap); [lia..|].
  rewrite bind_ret, Ep, Es. rewrite Ep, length_app in Ec. rewrite (string_loop_ok s _ off sz w junk (zlen w) Hu) by lia. fold text. rewrite bind_ret.
  assert (Ew : forall j, (1 <= List.length j)%nat -> mem_write (w ++ (Some <$> text) ++ j) (zlen w + sz) [Some 0] = Ok (w ++ (Some <$> text ++ [0]) ++ drop 1 j)).
  { intros [|x j] Hj; cbn in Hj; [lia|]. rewrite app_assoc, fmap_app. replace (zlen w + sz) with (zlen (w ++ (Some <$> text))) by (rewrite length_app, length_fmap; lia).
    rewrite <- (app_assoc (Some <$> text)), (app_assoc w). exact (mem_write_ok (w ++ (Some <$> text)) [x] j [Some 0] eq_refl). }
  rewrite Ew, bind_ret by (rewrite length_drop; lia). eexists. split; [done|]. exists (drop 1 (drop (Z.to_nat sz) junk)). cbn [ptr size cap].
  split; [by rewrite <- app_assoc|]. split; [rewrite i32_small by lia; rewrite length_app, length_fmap, length_app; cbn; lia|].
  rewrite !length_app, !length_fmap, !length_drop, length_app. cbn [List.length]. lia.
Qed.

(** ** Lengths in front *)

Lemma length_ok b w body bytes : holds b w -> emits body bytes -> zlen w + 4 + zlen bytes < 2^30 ->
  exists b1 b2, reserve_length b = Ok (zlen w, b1) /\ body b1 = Ok b2 /\ size b2 = zlen w + 4 + zlen bytes /\
    forall v, exists b3, write_length b2 v (zlen w) = Ok b3 /\ holds b3 (w ++ (Some <$> to_le 4 (u32 v) ++ bytes)).
Proof.
  intros Hb Hbody Hlt. unfold reserve_length. assert (Es : size b = zlen w) by (by destruct Hb as (? & _ & -> & _)). rewrite Es.
  destruct (reserve_ok b w 4 Hb) as (b1 & -> & (junk & Ep & Es1 & Ec & Hc) & Hcap); [lia..|]. rewrite bind_ret, Es1, c_int_ok, bind_ret by lia.
  eexists. destruct (Hbody (BSON (zlen w + 4) (cap b1) (ptr b1)) (w ++ take 4 junk)) as (b2 & E2 & (j2 & Ep2 & Es2 & Ec2 & Hc2)).
  - exists (drop 4 junk). cbn [ptr size cap]. rewrite Ep, <- app_assoc, take_drop. split; [done|]. rewrite Ep, length_app in Ec. split; [rewrite length_app, length_take; lia|].
    rewrite length_app. lia.
  - rewrite Ep, length_app in Ec. rewrite length_app, length_take. lia.
  - exists b2. split; [done|]. split; [exact E2|]. rewrite Ep, length_app in Ec. assert (H4 : List.length (take 4 junk) = 4%nat) by (rewrite length_take; lia).
    split; [rewrite Es2, !length_app, length_fmap, H4; lia|]. intros v. unfold write_length. rewrite Ep2, bytes32_le, <- !app_assoc.
    rewrite mem_write_ok by (rewrite length_fmap, le_length; lia). rewrite bind_ret. eexists. split; [done|]. exists j2. cbn [ptr size cap].
    split; [by rewrite fmap_app, <- !app_assoc|]. split; [rewrite Es2, fmap_app, !length_app, !length_fmap, le_length, H4; lia|]. split; [|done].
    rewrite Ec2, Ep2, !length_app, !length_fmap, le_length, H4. lia.
Qed.

Lemma emits_framed body bytes : emits body bytes -> emits (fun b => framed b body) (to_le 4 (zlen bytes + 5) ++ bytes ++ [0]).
Proof.
  intros Hbody b w Hb Hlt. rewrite !length_app, le_length in Hlt. cbn [List.length] in Hlt. unfold framed.
  destruct (length_ok b w (fun b => b ← body b; write_byte b 0) (bytes ++ [0]) Hb) as (b1 & b2 & -> & E2 & Es & Hl).
  - exact (emits_then _ _ _ _ Hbody (emits_byte 0)).
  - rewrite length_app. cbn [List.length]. lia.
  - rewrite bind_ret. apply bind_Ok in E2 as (b1' & -> & E2). rewrite bind_ret, E2, bind_ret, Es, length_app. cbn [List.length]. rewrite c_int_ok, bind_ret by lia.
    destruct (Hl (zlen bytes + 5)) as (b3 & E3 & H3). exists b3. split; [rewrite <- E3; f_equal; lia|].
    unfold u32 in H3. rewrite Z.mod_small in H3 by lia. done.
Qed.

Lemma emits_prefixed body bytes v : emits body bytes -> 0 <= v < 2^31 ->
  emits (fun b => '(off, b) ← reserve_length b; b ← body b; write_length b (i32 v) off) (to_le 4 v ++ bytes).
Proof.
  intros Hbody Hv b w Hb Hlt. rewrite length_app, le_length in Hlt. destruct (length_ok b w body bytes Hb Hbody) as (b1 & b2 & -> & E2 & _ & Hl); [lia|].
  rewrite bind_ret, E2, bind_ret, i32_small by done. destruct (Hl v) as (b3 & E3 & H3). exists b3. split; [done|].
  unfold u32 in H3. rewrite Z.mod_small in H3 by lia. done.
Qed.

Lemma emits_bytes s off sz : 0 <= off -> 0 <= sz -> off + sz <= zlen s -> emits (fun b => write_bytes b s off sz) (take (Z.to_nat sz) (drop (Z.to_nat off) s)).
Proof.
  intros Hoff Hsz Hle b w Hb Hlt. set (text := take (Z.to_nat sz) (drop (Z.to_nat off) s)) in *.
  assert (Hl : zlen text = sz) by (unfold text; rewrite length_take, length_drop; lia). unfold write_bytes. rewrite i32_small by lia.
  destruct (reserve_ok b w sz Hb) as (b1 & -> & Hb1 & Hc); [lia..|]. rewrite bind_ret.
  assert (Er : mem_read s off sz = Ok text).
  { unfold mem_read. destruct (Z.ltb_spec off 0), (Z.ltb_spec sz 0), (Z.ltb_spec (zlen s) (off + sz)); try lia. done. }
  rewrite Er, bind_ret. apply bson_put_ok; [done|lia..].
Qed.

(** ** The format *)

Definition field (type : Z) (key data : list Z) : list Z := type :: key ++ 0 :: data.
Definition document (body : list Z) : list Z := to_le 4 (zlen body + 5) ++ body ++ [0].

(** The data of a string that stands for a value of another type. *)
Definition object_data (type : Z) (rest : list Z) : list Z :=
  if type =? BSON_BINARY then to_le 4 (zlen rest - 1) ++ rest
  else if type =? BSON_DATE then to_le 8 (of_le rest * 1000)
  else rest.

Definition byte (c : Z) : Prop := 0 <= c < 256.

(** For the types. *)
Ltac byte := unfold byte; split; by vm_compute.

(** Which strings stand for such values: [0 :: type :: rest]. *)
Inductive object_ok : list Z -> Prop :=
  | ok_binary subtype rest : object_ok (0 :: BSON_BINARY :: subtype :: rest)
  | ok_objectid rest : length rest = 12%nat -> object_ok (0 :: BSON_OBJECTID :: rest)
  | ok_date rest : length rest = 4%nat -> object_ok (0 :: BSON_DATE :: rest)
  | ok_timestamp rest : length rest = 8%nat -> object_ok (0 :: BSON_TIMESTAMP :: rest)
  | ok_constant type : type ∈ [BSON_MINKEY; BSON_MAXKEY; BSON_NULL] -> object_ok [0; type]
  | ok_regex r o s : s = lregex r o -> 0 ∉ r -> 0 ∉ o -> utf8_at s 2 (zlen r) = true -> utf8_at s (3 + zlen r) (zlen o) = true -> object_ok s
  | ok_code type payload : type ∈ [BSON_JSCODE; BSON_SYMBOL] -> object_ok (0 :: type :: to_le 4 (zlen payload) ++ payload)
  | ok_dbpointer payload : (12 <= length payload)%nat -> object_ok (0 :: BSON_DBPOINTER :: to_le 4 (zlen payload - 12) ++ payload)
  | ok_codews payload : object_ok (0 :: BSON_CODEWS :: to_le 4 (zlen payload + 4) ++ payload).

Definition string_ok (s : list Z) : Prop := Forall byte s /\ if is_object s then object_ok s else utf8 s = true.
Definition key_ok (s : list Z) : Prop := utf8 s = true /\ 0 ∉ s.

Definition key_text (k : bkey) : list Z := match k with KInt n => fmt_d n | KReal s | KStr s => s | KOther => [] end.

(** The fields of a table: the text of the key, the key that is read back, the value. *)
Definition array_fields (entries : list (bkey * bval)) (n : Z) : list (list Z * bkey * bval) :=
  (fun i => (bson_numstr (i - 1), KInt i, default VOther (rawget (KInt i) entries))) <$> seqZ 1 n.
Definition dict_fields (entries : list (bkey * bval)) : list (list Z * bkey * bval) :=
  (fun e => (key_text e.1, KStr (key_text e.1), e.2)) <$> entries.

(** Whether a table is an array, and its fields. *)
Definition table_fields (m_len : option (option Z)) (m_pairs : option (list (bkey * bval))) (len : Z) (entries : list (bkey * bval)) : bool * list (list Z * bkey * bval) :=
  match m_len, m_pairs with
  | Some n, _ => (true, array_fields entries (default 0 n))
  | None, Some pairs => (false, dict_fields pairs)
  | None, None => if is_rawarray len entries then (true, array_fields entries len) else (false, dict_fields entries)
  end.

(** The type of a value and its data. *)
Fixpoint enc (d : nat) (v : bval) : Z * list Z :=
  match v with
  | VInt i => if is_32bit i then (BSON_INT32, to_le 4 (u32 i)) else (BSON_INT64, to_le 8 (u64 i))
  | VReal r => (BSON_REAL, to_le 8 (u64 r))
  | VBool b => (BSON_BOOLEAN, [if b then 1 else 0])
  | VStr s =>
      if is_object s then (nth 1 s 0, object_data (nth 1 s 0) (drop 2 s))
      else (BSON_STRING, to_le 4 (zlen s + 1) ++ s ++ [0])
  | VTable m_len m_pairs len entries =>
      match d with
      | O => (0, [])
      | S d =>
          let '(array, fs) := table_fields m_len m_pairs len entries in
          (if array then BSON_ARRAY else BSON_DOCUMENT, document (concat ((fun f => field (enc d f.2).1 f.1.1 (enc d f.2).2) <$> fs)))
      end
  | _ => (0, [])
  end.

Definition enc_fields (d : nat) (fs : list (list Z * bkey * bval)) : list Z := concat ((fun f => field (enc d f.2).1 f.1.1 (enc d f.2).2) <$> fs).

(** The keys of an array are numbers an [int] can hold; those of a document are texts
    without a zero, each used once. *)
Definition keys_ok (array : bool) (m_len : option (option Z)) (len : Z) (entries : list (bkey * bval)) (fs : list (list Z * bkey * bval)) : Prop :=
  if array then match m_len with Some n => exists n', n = Some n' /\ 0 <= n' < 2^31 | None => 0 <= len < 2^31 end
  else NoDup fs.*1.*1 /\ Forall (fun f => key_ok f.1.1) fs.

(** Values that are taken, with tables nested to a depth of at most [d]. *)
Fixpoint wf (d : nat) (v : bval) : Prop :=
  match v with
  | VInt i => - 2^63 <= i < 2^63
  | VReal r => 0 <= r < 2^64
  | VBool _ => True
  | VStr s => string_ok s
  | VTable m_len m_pairs len entries =>
      match d with
      | O => False
      | S d =>
          let '(array, fs) := table_fields m_len m_pairs len entries in
          keys_ok array m_len len entries fs /\ Forall (fun f => wf d f.2) fs /\
          (m_len = None -> Forall (fun e => e.1 <> KOther) (default entries m_pairs))
      end
  | _ => False
  end.

(** What is read back. *)
Fixpoint view (d : nat) (v : bval) : lval :=
  match v with
  | VInt i => LInt i
  | VReal r => LReal r
  | VBool b => LBool b
  | VStr s => LStr s
  | VTable m_len m_pairs len entries =>
      match d with
      | O => LTable []
      | S d => LTable ((fun f => (f.1.2, view d f.2)) <$> (table_fields m_len m_pairs len entries).2)
      end
  | _ => LTable []
  end.

(** ** Keys *)

Lemma emits_text s : utf8 s = true -> emits (fun b => write_string b s 0 (zlen s)) (s ++ [0]).
Proof.
  intros Hu. eapply emits_eq; [|apply (emits_string s 0 (zlen s) Hu); lia]. change (Z.to_nat 0) with O. rewrite drop_0, Nat2Z.id, take_ge by lia. done.
Qed.

Lemma emits_key type key : byte type -> utf8 key = true -> emits (fun b => append_key b type key) (type :: key ++ [0]).
Proof.
  intros Ht Hu. unfold append_key. eapply emits_eq; [|exact (emits_then _ _ _ _ (emits_byte type) (emits_text key Hu))].
  unfold u8. by rewrite Z.mod_small.
Qed.

(** A key and what follows. *)
Lemma emits_field type key m data : byte type -> utf8 key = true -> emits m data -> emits (fun b => b ← append_key b type key; m b) (field type key data).
Proof.
  intros Ht Hu Hm. eapply emits_eq; [|exact (emits_then _ _ _ _ (emits_key type key Ht Hu) Hm)]. unfold field. cbn [app]. by rewrite <- app_assoc.
Qed.

Lemma utf8_ascii s : Forall (fun c => 0 <= c < 128) s -> utf8 s = true.
Proof.
  intros Hs. unfold utf8, utf8_at. assert (H : forall fuel src n, 0 <= src -> src + n = zlen s -> 0 <= n < Z.of_nat fuel -> utf8_steps fuel s src n = true).
  { induction fuel as [|fuel IH]; intros src n Hsrc Hn Hf; [lia|]. cbn [utf8_steps]. destruct (Z.ltb_spec 0 n); [|done].
    destruct (lookup_lt_is_Some_2 s (Z.to_nat src)) as [c Hc]; [lia|]. pose proof (proj1 (Forall_lookup _ _) Hs _ _ Hc). cbn in H0.
    unfold utf8_copy, getc. destruct (Z.eqb_spec src (zlen s)); [lia|]. rewrite (arr_get_ok _ _ c) by done. rewrite bind_ret.
    destruct (Z.ltb_spec c 128); [|lia]. destruct (Z.ltb_spec n 1); [lia|]. destruct (Z.ltb_spec c 128); [|lia]. cbn [Z.eqb negb andb]. apply IH; lia. }
  apply H; lia.
Qed.

Lemma fmt_u_digits n : 0 <= n < 2^64 -> Forall (fun c => 48 <= c < 58) (fmt_u n).
Proof.
  intros Hn. unfold fmt_u, print_base. assert (2^64 <= 10^64) by (apply Z.pow_le_mono_l; lia).
  destruct (digits_spec 10 64 ltac:(lia) n []) as [H1 _]; [cbn; lia|constructor|]. apply Forall_fmap. eapply Forall_impl; [exact H1|]. cbn. lia.
Qed.

Lemma numstr_ok i : key_ok (bson_numstr i).
Proof.
  unfold bson_numstr. pose proof (u32_range i) as Hi. unfold is_u32 in Hi. pose proof (fmt_u_digits (u32 i) ltac:(lia)) as Hd. split.
  - apply utf8_ascii. eapply Forall_impl; [exact Hd|]. cbn. lia.
  - intros H. rewrite Forall_forall in Hd. apply Hd in H. lia.
Qed.

(** ** Values *)

Lemma emits_number i key : utf8 key = true -> emits (fun b => append_integer b i key) (let '(t, w) := enc 0 (VInt i) in field t key w).
Proof.
  intros Hu. unfold append_integer. cbn [enc]. destruct (is_32bit i); (apply emits_field; [byte|done|]); [apply emits_int32|apply emits_int64].
Qed.

Lemma emits_append_string s key : utf8 key = true -> utf8 s = true ->
  emits (fun b => append_string b s key) (field BSON_STRING key (to_le 4 (zlen s + 1) ++ s ++ [0])).
Proof.
  intros Hk Hs. unfold append_string. apply emits_field; [byte|done|]. apply emits_bounded. rewrite !length_app. intros Hl. apply emits_prefixed; [by apply emits_text|lia].
Qed.

Lemma emits_rest s : (2 <= List.length s)%nat -> emits (fun b => write_bytes b s 2 (zlen s - 2)) (drop 2 s).
Proof.
  intros H. eapply emits_eq; [|apply (emits_bytes s 2 (zlen s - 2)); lia]. change (Z.to_nat 2) with 2%nat. apply take_ge. rewrite length_drop. lia.
Qed.

Lemma read_slice (s a m c : list Z) off n : s = a ++ m ++ c -> off = zlen a -> n = zlen m -> mem_read s off n = Ok m.
Proof. intros -> -> ->. apply mem_read_ok. Qed.

Lemma le_bytes_range bs : Forall byte bs -> 0 <= of_le bs < 256 ^ zlen bs.
Proof.
  intros H. pose proof (to_le_of_le bs H) as E. rewrite <- E. rewrite of_le_le, le_length. apply Z.mod_pos_bound. lia.
Qed.

Lemma le_bytes_word bs : Forall byte bs -> List.length bs = 4%nat -> bs = to_le 4 (of_le bs mod 2^32).
Proof.
  intros Hb Hl. pose proof (le_bytes_range bs Hb) as Hr. rewrite Hl in Hr. change (256 ^ Z.of_nat 4) with (2^32) in Hr. rewrite Z.mod_small by done.
  rewrite <- Hl. symmetry. by apply to_le_of_le.
Qed.

(** The zero in front of the options. *)
Lemma last_zero_ok r o : 0 ∉ o -> forall k fuel, (k <= List.length o)%nat -> (List.length o - k < fuel)%nat -> zlen r + zlen o < 2^62 ->
  last_zero fuel (lregex r o) (zlen r + 1 + zlen o) (Z.of_nat k) = Ok (zlen o).
Proof.
  intros Ho k fuel Hk Hf Hl. revert k Hk Hf. induction fuel as [|fuel IH]; intros k Hk Hf; [lia|]. cbn [last_zero]. destruct (Z.ltb_spec (Z.of_nat k) (zlen r + 1 + zlen o)); [|lia].
  unfold i64. rewrite Z.mod_small by lia. unfold getc.
  assert (Hlen : zlen (lregex r o) = zlen r + zlen o + 4) by (unfold lregex; cbn [List.length]; rewrite length_app; cbn [List.length]; rewrite length_app; cbn [List.length]; lia).
  destruct (Z.eqb_spec (2 + (zlen r + 1 + zlen o - Z.of_nat k - 1 + 2 ^ 63 - 2 ^ 63)) (zlen (lregex r o))); [lia|].
  destruct (decide (k = List.length o)) as [->|Hne].
  - rewrite (arr_get_ok _ _ 0); [by rewrite bind_ret|lia|]. apply (list_lookup_middle (0 :: BSON_REGEX :: r) (o ++ [0]) 0). cbn [List.length]. lia.
  - destruct (lookup_lt_is_Some_2 o (List.length o - k - 1)) as [c Hc]; [lia|]. rewrite (arr_get_ok _ _ c); [|lia|].
    + rewrite bind_ret. destruct (Z.eqb_spec c 0) as [->|]; [by apply list_elem_of_lookup_2 in Hc|]. replace (Z.of_nat k + 1) with (Z.of_nat (S k)) by lia. apply IH; lia.
    + replace (lregex r o) with ((0 :: BSON_REGEX :: r ++ [0]) ++ o ++ [0]) by (unfold lregex; cbn [app]; by rewrite <- app_assoc).
      rewrite lookup_app_r by (cbn [List.length]; rewrite length_app; cbn [List.length]; lia). apply lookup_app_l_Some. rewrite <- Hc. f_equal.
      cbn [List.length]. rewrite length_app. cbn [List.length]. lia.
Qed.

Lemma emits_object_body s : object_ok s -> Forall byte s -> zlen s < 2^31 -> emits (fun b => object_body b s (nth 1 s 0)) (object_data (nth 1 s 0) (drop 2 s)).
Proof.
  intros [subtype rest|rest Hl|rest Hl|rest Hl|type Ht|r o s' -> Hr Ho Hu1 Hu2|type payload Ht|payload Hl|payload] Hb Hlen; cbn [nth drop].
  - change (emits (fun b => write_binary b (0 :: BSON_BINARY :: subtype :: rest) 2 (zlen (0 :: BSON_BINARY :: subtype :: rest) - 2)) (to_le 4 (zlen (subtype :: rest) - 1) ++ subtype :: rest)).
    unfold write_binary. cbn [List.length] in *. replace (Z.of_nat (S (S (S (length rest)))) - 2 - 1) with (Z.of_nat (S (length rest)) - 1) by lia.
    apply emits_prefixed; [|lia]. exact (emits_rest (0 :: BSON_BINARY :: subtype :: rest) ltac:(cbn; lia)).
  - unfold object_body. change (emits (fun b => if negb (zlen (0 :: BSON_OBJECTID :: rest) =? 14) then Fault (LuaError "Invalid object id") else write_bytes b (0 :: BSON_OBJECTID :: rest) 2 (zlen (0 :: BSON_OBJECTID :: rest) - 2)) rest).
    destruct (Z.eqb_spec (zlen (0 :: BSON_OBJECTID :: rest)) 14) as [_|]; [|cbn [List.length] in *; lia]. exact (emits_rest (0 :: BSON_OBJECTID :: rest) ltac:(cbn; lia)).
  - change (emits (fun b => if negb (zlen (0 :: BSON_DATE :: rest) =? 6) then Fault (LuaError "Invalid date") else ts ← mem_read (0 :: BSON_DATE :: rest) 2 4; write_int64 b (of_le ts * 1000)) (to_le 8 (of_le rest * 1000))).
    destruct (Z.eqb_spec (zlen (0 :: BSON_DATE :: rest)) 6) as [_|]; [|cbn [List.length] in *; lia]. cbn [negb].
    rewrite (read_slice _ [0; BSON_DATE] rest [] 2 4) by (rewrite ?app_nil_r; done || lia).
    apply Forall_cons in Hb as [_ [_ Hb]%Forall_cons]. apply le_bytes_range in Hb. rewrite Hl in Hb. change (256 ^ Z.of_nat 4) with (2^32) in Hb.
    eapply emits_eq; [|exact (emits_int64 (of_le rest * 1000))]. unfold u64. rewrite Z.mod_small by lia. done.
  - change (emits (fun b => if negb (zlen (0 :: BSON_TIMESTAMP :: rest) =? 10) then Fault (LuaError "Invalid timestamp") else
      inc ← mem_read (0 :: BSON_TIMESTAMP :: rest) 2 4; ts ← mem_read (0 :: BSON_TIMESTAMP :: rest) 6 4; bs ← write_int32 b (of_le inc); write_int32 bs (of_le ts)) rest).
    destruct (Z.eqb_spec (zlen (0 :: BSON_TIMESTAMP :: rest)) 10) as [_|]; [|cbn [List.length] in *; lia]. cbn [negb].
    apply Forall_cons in Hb as [_ [_ Hb]%Forall_cons]. rewrite <- (take_drop 4 rest) in Hb |- *. apply Forall_app in Hb as [H1 H2].
    rewrite (read_slice _ [0; BSON_TIMESTAMP] (take 4 rest) (drop 4 rest) 2 4) by (done || rewrite length_take; lia).
    rewrite (read_slice _ (0 :: BSON_TIMESTAMP :: take 4 rest) (drop 4 rest) [] 6 4) by (rewrite ?app_nil_r; done || (cbn [List.length]; rewrite ?length_take, ?length_drop; lia)).
    eapply emits_eq; [|exact (emits_then _ _ _ _ (emits_int32 (of_le (take 4 rest))) (emits_int32 (of_le (drop 4 rest))))]. f_equal; unfold u32; symmetry; apply le_bytes_word; try done; rewrite ?length_take, ?length_drop; lia.
  - change (emits (fun b => object_body b [0; type] type) (object_data type [])). rewrite !elem_of_cons, elem_of_nil in Ht.
    destruct Ht as [->|[->|[->|[]]]]; exact emits_nothing.
  - change (emits (fun b => i ← last_zero (S (length (lregex r o))) (lregex r o) (u64 (zlen (lregex r o) - 3)) 0;
      bs ← write_string b (lregex r o) 2 (u64 (u64 (zlen (lregex r o) - 3) - i - 1)); write_string bs (lregex r o) (2 + i64 (u64 (zlen (lregex r o) - 3) - i)) i) (r ++ 0 :: o ++ [0])).
    assert (Hz : zlen (lregex r o) = zlen r + zlen o + 4) by (unfold lregex; cbn [List.length]; rewrite length_app; cbn [List.length]; rewrite length_app; cbn [List.length]; lia).
    replace (u64 (zlen (lregex r o) - 3)) with (zlen r + 1 + zlen o) by (unfold u64; rewrite Z.mod_small; lia).
    rewrite (last_zero_ok r o Ho 0) by lia.
    change (emits (fun b => bs ← write_string b (lregex r o) 2 (u64 (zlen r + 1 + zlen o - zlen o - 1)); write_string bs (lregex r o) (2 + i64 (zlen r + 1 + zlen o - zlen o)) (zlen o)) (r ++ 0 :: o ++ [0])).
    replace (u64 (zlen r + 1 + zlen o - zlen o - 1)) with (zlen r) by (unfold u64; rewrite Z.mod_small; lia).
    replace (2 + i64 (zlen r + 1 + zlen o - zlen o)) with (3 + zlen r) by (unfold i64; rewrite Z.mod_small; lia).
    eapply emits_eq; [|exact (emits_then _ _ _ _ (emits_string _ 2 (zlen r) Hu1 ltac:(lia) ltac:(lia) ltac:(lia)) (emits_string _ (3 + zlen r) (zlen o) Hu2 ltac:(lia) ltac:(lia) ltac:(lia)))].
    assert (E1 : take (length r) (drop 2 (lregex r o)) = r) by apply take_app_length.
    assert (E2 : take (length o) (drop (3 + length r) (lregex r o)) = o).
    { replace (lregex r o) with ((0 :: BSON_REGEX :: r ++ [0]) ++ o ++ [0]) by (unfold lregex; cbn [app]; by rewrite <- app_assoc).
      replace (3 + length r)%nat with (length (0 :: BSON_REGEX :: r ++ [0])) by (cbn; rewrite length_app; cbn; lia). rewrite drop_app_length. apply take_app_length. }
    rewrite !Nat2Z.id. change (Z.to_nat 2) with 2%nat. replace (Z.to_nat (3 + zlen r)) with (3 + length r)%nat by lia. rewrite E1, E2. by rewrite <- !app_assoc.
  - rewrite !elem_of_cons, elem_of_nil in Ht. destruct Ht as [->|[->|[]]]; exact (emits_rest (0 :: _ :: to_le 4 (zlen payload) ++ payload) ltac:(cbn; lia)).
  - exact (emits_rest (0 :: BSON_DBPOINTER :: to_le 4 (zlen payload - 12) ++ payload) ltac:(cbn; lia)).
  - exact (emits_rest (0 :: BSON_CODEWS :: to_le 4 (zlen payload + 4) ++ payload) ltac:(cbn; lia)).
Qed.

Lemma is_object_two s : is_object s = true -> (2 <= List.length s)%nat.
Proof. unfold is_object. intros [H _]%andb_prop. lia. Qed.

Lemma object_data_length s : object_ok s -> is_object s = true -> zlen s <= zlen (object_data (nth 1 s 0) (drop 2 s)) + 2.
Proof.
  intros Ho Hs. pose proof (is_object_two s Hs). assert (Hd : zlen (drop 2 s) = zlen s - 2) by (rewrite length_drop; lia). unfold object_data.
  destruct (Z.eqb_spec (nth 1 s 0) BSON_BINARY); [rewrite length_app; lia|]. destruct (Z.eqb_spec (nth 1 s 0) BSON_DATE) as [E|]; [|lia]. rewrite le_length.
  destruct Ho as [| |rest Hl| |type Ht|r o s' -> | type payload Ht| |]; cbn [nth List.length] in *; try done; try lia.
  rewrite !elem_of_cons, elem_of_nil in Ht. destruct Ht as [->|[->|[]]]; done.
Qed.

Lemma emits_object s key : utf8 key = true -> object_ok s -> is_object s = true -> Forall byte s ->
  emits (fun b => append_object b s key) (field (nth 1 s 0) key (object_data (nth 1 s 0) (drop 2 s))).
Proof.
  intros Hk Ho Hs Hb. pose proof (is_object_two s Hs) as H2. apply emits_bounded. unfold field. cbn [List.length]. rewrite length_app. cbn [List.length]. intros Hlt.
  pose proof (object_data_length s Ho Hs). unfold append_object. rewrite (arr_get_ok s 1 (nth 1 s 0)) by (done || (change (Z.to_nat 1) with 1%nat; apply nth_lookup_Some_length || by destruct s as [|? [|? ?]]; cbn in *; (done || lia))).
  apply emits_field; [|done|apply emits_object_body; [done..|lia]]. rewrite Forall_forall in Hb. apply Hb. destruct s as [|? [|c ?]]; cbn in *; [lia..|]. right. left.
Qed.

Lemma emits_for (f : Z -> bson -> outcome bson) (bytes : Z -> list Z) n : forall i, (forall j, i <= j < i + Z.of_nat n -> emits (f j) (bytes j)) ->
  emits (for_loop n i f) (concat (bytes <$> seqZ i (Z.of_nat n))).
Proof.
  induction n as [|n IH]; intros i H; [exact emits_nothing|]. rewrite seqZ_cons by lia. replace (Z.pred (Z.of_nat (S n))) with (Z.of_nat n) by lia. cbn [fmap list_fmap concat for_loop].
  apply (emits_then (f i)); [apply H; lia|]. apply IH. intros j Hj. apply H. lia.
Qed.

Section Tables.
Context (d : nat) (one : bson -> list Z -> bval -> outcome bson).
Context (one_ok : forall key v, wf d v -> utf8 key = true -> emits (fun b => one b key v) (field (enc d v).1 key (enc d v).2)).

Lemma emits_array entries n : 0 <= n -> Forall (fun f => wf d f.2) (array_fields entries n) ->
  emits (fun b => pack_array one b entries n) (document (enc_fields d (array_fields entries n))).
Proof.
  intros Hn Hw. unfold pack_array, document. apply emits_framed. unfold enc_fields, array_fields. rewrite <- list_fmap_compose.
  pose proof (emits_for (fun i b => one b (bson_numstr (i - 1)) (default VOther (rawget (KInt i) entries)))
    (fun i => field (enc d (default VOther (rawget (KInt i) entries))).1 (bson_numstr (i - 1)) (enc d (default VOther (rawget (KInt i) entries))).2) (Z.to_nat n) 1) as H.
  rewrite Z2Nat.id in H by done. apply H. intros j Hj. apply one_ok; [|apply numstr_ok].
  rewrite Forall_forall in Hw. apply (Hw (bson_numstr (j - 1), KInt j, default VOther (rawget (KInt j) entries))).
  apply list_elem_of_fmap. exists j. split; [done|]. apply elem_of_seqZ. lia.
Qed.

Lemma emits_each entries : Forall (fun e => e.1 <> KOther) entries -> Forall (fun f => key_ok f.1.1) (dict_fields entries) -> Forall (fun f => wf d f.2) (dict_fields entries) ->
  emits (fun b => pack_each one b entries) (enc_fields d (dict_fields entries)).
Proof.
  induction entries as [|[k v] entries IH]; intros Ho Hk Hw; [exact emits_nothing|]. cbn [dict_fields fmap list_fmap] in *. apply Forall_cons in Ho as [Ho1 Ho], Hk as [[Hk1 _] Hk], Hw as [Hw1 Hw].
  unfold enc_fields. cbn [fmap list_fmap concat pack_each]. apply emits_then; [|by apply IH]. cbn [fst snd] in *. pose proof (one_ok (key_text k) v Hw1 Hk1). destruct k; done.
Qed.

Lemma emits_dict entries : Forall (fun e => e.1 <> KOther) entries -> Forall (fun f => key_ok f.1.1) (dict_fields entries) -> Forall (fun f => wf d f.2) (dict_fields entries) ->
  emits (fun b => pack_simple_dict one b entries) (document (enc_fields d (dict_fields entries))).
Proof. intros. unfold pack_simple_dict, document. apply emits_framed. by apply emits_each. Qed.

Lemma emits_fields key m_len m_pairs len entries : utf8 key = true -> wf (S d) (VTable m_len m_pairs len entries) ->
  emits (fun b => append_fields one b key m_len m_pairs len entries)
    (field (enc (S d) (VTable m_len m_pairs len entries)).1 key (enc (S d) (VTable m_len m_pairs len entries)).2).
Proof.
  intros Hk Hw. cbn [wf enc] in *. unfold append_fields, table_fields in *. destruct m_len as [n|].
  - destruct Hw as ((n' & -> & Hn) & Hw & _). cbn [default fst snd] in *. apply emits_field; [byte|done|].
    replace (u64 n') with n' by (unfold u64; rewrite Z.mod_small; lia). apply emits_array; [lia|done].
  - destruct m_pairs as [pairs|]; [|destruct (is_rawarray len entries)]; cbn [fst snd keys_ok] in *.
    + destruct Hw as ((_ & Hkeys) & Hw & Ho). apply emits_field; [byte|done|]. apply emits_dict; [by apply Ho|done|done].
    + destruct Hw as (Hn & Hw & _). apply emits_field; [byte|done|]. apply emits_array; [lia|done].
    + destruct Hw as ((_ & Hkeys) & Hw & Ho). apply emits_field; [byte|done|]. apply emits_dict; [by apply Ho|done|done].
Qed.
End Tables.

Lemma append_one_ok d : forall v fuel depth key, wf d v -> depth + Z.of_nat d <= MAX_DEPTH -> (d <= fuel)%nat -> utf8 key = true ->
  emits (fun b => append_one fuel depth b key v) (field (enc d v).1 key (enc d v).2).
Proof.
  induction d as [|d IH]; intros v fuel depth key Hw Hd Hf Hk; destruct v as [i|r|s|b|doc|m_len m_pairs len entries|]; try done; try (destruct fuel; cbn [append_one]).
  all: try (pose proof (emits_number i key Hk) as Hn; cbn [enc] in *; destruct (is_32bit i); exact Hn).
  all: try (apply emits_field; [byte|done|apply emits_double]).
  all: try (apply (emits_field BSON_BOOLEAN key); [byte|done|destruct b; apply emits_byte]).
  all: try (destruct Hw as [Hb Hs]; cbn [enc]; destruct (is_object s) eqn:Eo; [by apply emits_object|by apply emits_append_string]).
  - lia.
  - destruct (Z.ltb_spec MAX_DEPTH (depth + 1)); [lia|]. apply emits_fields; [|done|done].
    intros key' v' Hv' Hk'. apply IH; [done|lia|lia|done].
Qed.

(** The document a table is encoded to. *)
Definition encoded (d : nat) (entries : list (bkey * bval)) : list Z := document (enc_fields d (dict_fields entries)).

(** A table, or the pairs its metamethod gives. *)
Definition wf_doc (d : nat) (entries : list (bkey * bval)) : Prop :=
  Forall (fun e => e.1 <> KOther) entries /\ NoDup (key_text <$> entries.*1) /\ Forall (fun k => key_ok (key_text k)) entries.*1 /\ Forall (wf d) entries.*2.

Lemma bson_encode_ok d m_pairs entries : (d <= 128)%nat -> wf_doc d (default entries m_pairs) -> zlen (encoded d (default entries m_pairs)) < 2^30 ->
  lencode m_pairs entries = Ok (encoded d (default entries m_pairs)).
Proof.
  intros Hd (Ho & _ & Hk & Hw) Hl. unfold lencode.
  assert (He : emits (fun b => pack_simple_dict (append_one depth_fuel 0) b (default entries m_pairs)) (encoded d (default entries m_pairs))).
  { apply emits_dict; [|done|apply Forall_fmap; exact (proj1 (Forall_fmap fst _ _) Hk)|apply Forall_fmap; exact (proj1 (Forall_fmap snd _ _) Hw)].
    intros key v Hv Hkey. apply append_one_ok; [done|unfold MAX_DEPTH; lia|unfold depth_fuel; lia|done]. }
  destruct (He bson_create [] holds_create) as (b & E & (junk & Ep & Es & _)); [cbn [List.length]; lia|].
  assert (Em : match m_pairs with Some pairs => pack_meta_dict (append_one depth_fuel 0) bson_create pairs | None => pack_simple_dict (append_one depth_fuel 0) bson_create entries end = Ok b).
  { by destruct m_pairs. }
  rewrite Em, bind_ret. unfold result. cbn [app] in Es. rewrite Ep, Es. pose proof (mem_read_ok [] (Some <$> encoded d (default entries m_pairs)) junk) as Er.
  change (zlen (@nil (option Z))) with 0 in Er. cbn [app] in Er |- *. rewrite Er, bind_ret. apply mapM_init.
Qed.
