(* ===== verification/BsonRead.v ===== *)
(** * Reading BSON: what was written is read back *)

From S2P Require Import Prelude Text Bson BsonWrite.
From stdpp Require Import base numbers list.
From Stdlib Require Import ZArith Lia.
From Stdlib Require String.
Import String.StringSyntax.
#[local] Open Scope Z_scope.
#[local] Open Scope list_scope.
Import Bson.

(** ** Places in a block *)

(** The block has [w] at [p]. *)
Definition has (data : list Z) (p : Z) (w : list Z) : Prop := exists pre post, data = pre ++ w ++ post /\ p = zlen pre.

Lemma has_app data p u v : has data p (u ++ v) -> has data p u /\ has data (p + zlen u) v.
Proof.
  intros (pre & post & -> & ->). split.
  - exists pre, (v ++ post). by rewrite <- app_assoc.
  - exists (pre ++ u), post. rewrite <- !app_assoc, length_app. split; [done|lia].
Qed.

Lemma has_cons data p x v : has data p (x :: v) -> has data p [x] /\ has data (p + 1) v.
Proof. apply (has_app data p [x] v). Qed.

Lemma has_pos data p w : has data p w -> 0 <= p.
Proof. intros (pre & post & _ & ->). lia. Qed.

Lemma has_read data p w n : has data p w -> n = zlen w -> mem_read data p n = Ok w.
Proof. intros (pre & post & -> & ->) ->. apply mem_read_ok. Qed.

Lemma has_get data p x : has data p [x] -> arr_get data p = Ok x.
Proof. intros (pre & post & -> & ->). apply arr_get_ok; [lia|]. apply list_lookup_middle. lia. Qed.

Section Reader.
Context (data : list Z).

Lemma check_ok p n k : k <= n -> check_reader (Reader p n) k = Ok tt.
Proof. intros H. unfold check_reader. cbn [r_size]. by destruct (Z.ltb_spec n k); [lia|]. Qed.

Lemma advance_ok p n k : 0 <= k <= n -> n < 2^31 -> advance (Reader p n) k = Ok (Reader (p + k) (n - k)).
Proof. intros. unfold advance. cbn [r_size r_ptr]. by rewrite c_int_ok by lia. Qed.

Lemma read_byte_ok p n x : has data p [x] -> 1 <= n < 2^31 -> read_byte data (Reader p n) = Ok (x, Reader (p + 1) (n - 1)).
Proof. intros H Hn. unfold read_byte. rewrite check_ok, bind_ret by lia. cbn [r_ptr]. by rewrite (has_get _ _ _ H), bind_ret, advance_ok by lia. Qed.

Lemma read_int32_ok p n v : has data p (to_le 4 v) -> 4 <= n < 2^31 -> read_int32 data (Reader p n) = Ok (i32 (v mod 2^32), Reader (p + 4) (n - 4)).
Proof.
  intros H Hn. unfold read_int32. rewrite check_ok, bind_ret by lia. cbn [r_ptr]. rewrite (has_read _ _ _ 4 H) by (by rewrite le_length). rewrite bind_ret, advance_ok, bind_ret by lia.
  by rewrite of_le_le.
Qed.

Lemma read_len_ok p n v : has data p (to_le 4 v) -> 0 <= v < 2^31 -> 4 <= n < 2^31 -> read_int32 data (Reader p n) = Ok (v, Reader (p + 4) (n - 4)).
Proof. intros H Hv Hn. rewrite (read_int32_ok p n v H Hn). rewrite Z.mod_small, i32_small by lia. done. Qed.

Lemma read_word64_ok p n v : has data p (to_le 8 v) -> 8 <= n < 2^31 -> read_word64 data (Reader p n) = Ok (v mod 2^64, Reader (p + 8) (n - 8)).
Proof.
  intros H Hn. unfold read_word64. rewrite check_ok, bind_ret by lia. cbn [r_ptr]. rewrite (has_read _ _ _ 8 H) by (by rewrite le_length). rewrite bind_ret, advance_ok, bind_ret by lia.
  by rewrite of_le_le.
Qed.

Lemma read_bytes_ok p n k : 0 <= k <= n -> n < 2^31 -> read_bytes (Reader p n) k = Ok (p, Reader (p + k) (n - k)).
Proof. intros. unfold read_bytes. by rewrite check_ok, bind_ret, advance_ok by lia. Qed.

Lemma cstring_loop_ok p n s t : forall i fuel, (s ++ [0]) = i ++ t -> has data p (s ++ [0]) -> 0 ∉ s -> zlen s < n -> t <> [] -> (length t <= fuel)%nat ->
  cstring_loop data fuel (Reader p n) (zlen i) = Ok (zlen s).
Proof.
  induction t as [|c t IH]; intros i fuel E H Hs Hn Ht Hf; [done|]. cbn [length] in Hf. destruct fuel as [|fuel]; [lia|]. cbn [cstring_loop r_size r_ptr].
  assert (Hl : zlen s + 1 = zlen i + 1 + zlen t) by (apply (f_equal length) in E; rewrite !length_app in E; cbn [length] in E; lia).
  destruct (Z.eqb_spec (zlen i) n); [lia|]. pose proof H as H'. rewrite E in H'. apply has_app in H' as [_ H']. apply has_cons in H' as [H' _]. rewrite (has_get _ _ _ H'), bind_ret.
  destruct t as [|c' t].
  - apply app_inj_tail in E as [<- <-]. done.
  - destruct (Z.eqb_spec c 0) as [->|_].
    + exfalso. apply Hs. assert (Hz : s !! length i = Some 0); [|by eapply list_elem_of_lookup_2].
      assert (Ho : (s ++ [0]) !! length i = Some 0) by (rewrite E; by apply list_lookup_middle). cbn [length] in Hl. by rewrite lookup_app_l in Ho by lia.
    + replace (zlen i + 1) with (zlen (i ++ [c])) by (rewrite length_app; cbn; lia). apply IH; [by rewrite <- app_assoc|done|done|done|done|cbn [length] in *; lia].
Qed.

Lemma read_cstring_ok p n s : has data p (s ++ [0]) -> 0 ∉ s -> zlen s + 1 <= n < 2^31 -> read_cstring data (Reader p n) = Ok (s, Reader (p + zlen s + 1) (n - zlen s - 1)).
Proof.
  intros H Hs Hn. unfold read_cstring. assert (Hd : zlen (s ++ [0]) <= zlen data) by (destruct H as (pre & post & -> & _); rewrite !length_app; lia).
  rewrite (cstring_loop_ok p n s (s ++ [0]) [] _ eq_refl H Hs) by (lia || (by destruct s)). rewrite bind_ret. cbn [r_ptr].
  apply has_app in H as [H _]. rewrite (has_read _ _ _ _ H), bind_ret, advance_ok, bind_ret by (done || lia). do 3 f_equal; lia.
Qed.

Lemma addlstring_ok p w n : has data p w -> n = zlen w -> zlen w < 2^31 -> addlstring data p n = Ok w.
Proof.
  intros H -> Hn. unfold addlstring. replace (u64 (zlen w)) with (zlen w) by (unfold u64; rewrite Z.mod_small; lia). destruct (Z.ltb_spec (2^62) (zlen w)); [lia|].
  by apply has_read.
Qed.

Lemma make_object_ok type p w n : byte type -> has data p w -> n = zlen w -> zlen w < 2^31 -> make_object data type p n = Ok (LStr (0 :: type :: w)).
Proof.
  intros Ht H -> Hn. unfold make_object. rewrite (addlstring_ok p w _ H eq_refl Hn), bind_ret. unfold u8. by rewrite Z.mod_small.
Qed.
End Reader.

(** ** Values *)

Lemma i32_u32 i : - 2^31 <= i < 2^31 -> i32 (u32 i mod 2^32) = i.
Proof. intros Hi. unfold u32, i32. rewrite Zmod_mod, Zplus_mod_idemp_l, Z.mod_small by lia. lia. Qed.

Lemma i64_u64 i : - 2^63 <= i < 2^63 -> i64 (u64 i mod 2^64) = i.
Proof. intros Hi. unfold u64, i64. rewrite Zmod_mod, Zplus_mod_idemp_l, Z.mod_small by lia. lia. Qed.

(** [unpack_value] reads [w] as [v]. *)
Definition value_reads (type : Z) (w : list Z) (v : lval) : Prop :=
  forall data p n, has data p w -> zlen w <= n < 2^31 -> unpack_value data type (Reader p n) = Ok (v, Reader (p + zlen w) (n - zlen w)).

(** Follows [unpack_value] for a type that is known, with the lemmas of the reader. *)
Ltac reading := cbn [r_ptr]; repeat first
  [ rewrite bind_ret
  | rewrite read_bytes_ok by lia
  | rewrite c_int_ok by lia
  | erewrite read_len_ok by (eassumption || lia)
  | erewrite read_byte_ok by (eassumption || lia) ].

Lemma reads_code type payload : type ∈ [BSON_JSCODE; BSON_SYMBOL] ->
  value_reads type (to_le 4 (zlen payload) ++ payload) (LStr (0 :: type :: to_le 4 (zlen payload) ++ payload)).
Proof.
  intros Ht data p n H Hn. rewrite length_app, le_length in *. pose proof (has_app _ _ _ _ H) as [H1 _].
  assert (Hb : byte type) by (rewrite !elem_of_cons, elem_of_nil in Ht; destruct Ht as [->|[->|[]]]; byte).
  assert (E : unpack_value data type (Reader p n) = ('(sz, t) ← read_int32 data (Reader p n); '(_, t) ← read_bytes t sz; m ← c_int (sz + 4); v ← make_object data type p m; Ok (v, t))).
  { rewrite !elem_of_cons, elem_of_nil in Ht. destruct Ht as [->|[->|[]]]; done. }
  rewrite E. reading. rewrite (make_object_ok data type p _ _ Hb H) by (rewrite ?length_app, ?le_length; lia). rewrite bind_ret. do 3 f_equal; lia.
Qed.

Lemma reads_dbpointer payload : 12 <= zlen payload ->
  value_reads BSON_DBPOINTER (to_le 4 (zlen payload - 12) ++ payload) (LStr (0 :: BSON_DBPOINTER :: to_le 4 (zlen payload - 12) ++ payload)).
Proof.
  intros Hl data p n H Hn. rewrite length_app, le_length in *. pose proof (has_app _ _ _ _ H) as [H1 _].
  change (('(sz, t) ← read_int32 data (Reader p n); m ← c_int (sz + 12); '(_, t) ← read_bytes t m; m ← c_int (sz + 16); v ← make_object data BSON_DBPOINTER p m; Ok (v, t)) = Ok (LStr (0 :: BSON_DBPOINTER :: to_le 4 (zlen payload - 12) ++ payload), Reader (p + Z.of_nat (4 + length payload)) (n - Z.of_nat (4 + length payload)))).
  reading. rewrite (make_object_ok data BSON_DBPOINTER p _ _ ltac:(byte) H) by (rewrite ?length_app, ?le_length; lia). rewrite bind_ret. do 3 f_equal; lia.
Qed.

Lemma reads_codews payload :
  value_reads BSON_CODEWS (to_le 4 (zlen payload + 4) ++ payload) (LStr (0 :: BSON_CODEWS :: to_le 4 (zlen payload + 4) ++ payload)).
Proof.
  intros data p n H Hn. rewrite length_app, le_length in *. pose proof (has_app _ _ _ _ H) as [H1 _].
  change (('(sz, t) ← read_int32 data (Reader p n); m ← c_int (sz - 4); '(_, t) ← read_bytes t m; v ← make_object data BSON_CODEWS p sz; Ok (v, t)) = Ok (LStr (0 :: BSON_CODEWS :: to_le 4 (zlen payload + 4) ++ payload), Reader (p + Z.of_nat (4 + length payload)) (n - Z.of_nat (4 + length payload)))).
  reading. rewrite (make_object_ok data BSON_CODEWS p _ _ ltac:(byte) H) by (rewrite ?length_app, ?le_length; lia). rewrite bind_ret. do 3 f_equal; lia.
Qed.

Lemma reads_binary subtype rest :
  value_reads BSON_BINARY (to_le 4 (zlen (subtype :: rest) - 1) ++ subtype :: rest) (LStr (0 :: BSON_BINARY :: subtype :: rest)).
Proof.
  intros data p n H Hn. rewrite length_app, le_length in *. cbn [length] in *. apply has_app in H as [H1 H]. rewrite le_length in H. apply has_cons in H as [H2 H3].
  change (('(sz, t) ← read_int32 data (Reader p n); '(subtype, t) ← read_byte data t; '(q, t) ← read_bytes t sz; s ← addlstring data q sz; Ok (LStr (0 :: BSON_BINARY :: subtype :: s), t)) =
    Ok (LStr (0 :: BSON_BINARY :: subtype :: rest), Reader (p + Z.of_nat (4 + S (length rest))) (n - Z.of_nat (4 + S (length rest))))).
  reading. rewrite (addlstring_ok data _ rest) by (done || lia). rewrite bind_ret. do 3 f_equal; lia.
Qed.

Lemma reads_objectid rest : length rest = 12%nat -> value_reads BSON_OBJECTID rest (LStr (0 :: BSON_OBJECTID :: rest)).
Proof.
  intros Hl data p n H Hn. rewrite Hl in *.
  change (('(q, t) ← read_bytes (Reader p n) 12; v ← make_object data BSON_OBJECTID q 12; Ok (v, t)) = Ok (LStr (0 :: BSON_OBJECTID :: rest), Reader (p + 12) (n - 12))).
  reading. by rewrite (make_object_ok data BSON_OBJECTID p rest _ ltac:(byte) H) by lia.
Qed.

Lemma reads_date rest : length rest = 4%nat -> Forall byte rest -> value_reads BSON_DATE (to_le 8 (of_le rest * 1000)) (LStr (0 :: BSON_DATE :: rest)).
Proof.
  intros Hl Hb data p n H Hn. rewrite le_length in *. pose proof (le_bytes_range rest Hb) as Hr. rewrite Hl in Hr. change (256 ^ Z.of_nat 4) with (2^32) in Hr.
  change (('(date, t) ← ('(v, t) ← read_word64 data (Reader p n); Ok (i64 v, t)); Ok (LStr (0 :: BSON_DATE :: to_le 4 (u32 (Z.quot date 1000))), t)) = Ok (LStr (0 :: BSON_DATE :: rest), Reader (p + 8) (n - 8))).
  rewrite (read_word64_ok data p n _ H) by lia. rewrite !bind_ret. unfold i64. rewrite (Z.mod_small (of_le rest * 1000)), (Z.mod_small (of_le rest * 1000 + 2^63)) by lia.
  replace (of_le rest * 1000 + 2^63 - 2^63) with (of_le rest * 1000) by lia. rewrite Z.quot_mul by lia. unfold u32. by rewrite <- (le_bytes_word rest Hb Hl).
Qed.

Lemma reads_timestamp rest : length rest = 8%nat -> Forall byte rest -> value_reads BSON_TIMESTAMP rest (LStr (0 :: BSON_TIMESTAMP :: rest)).
Proof.
  intros Hl Hb data p n H Hn. rewrite Hl in *. rewrite <- (take_drop 4 rest) in Hb, H |- *. apply Forall_app in Hb as [B1 B2]. apply has_app in H as [H1 H2].
  assert (L1 : length (take 4 rest) = 4%nat) by (rewrite length_take; lia). assert (L2 : length (drop 4 rest) = 4%nat) by (rewrite length_drop; lia).
  rewrite L1 in H2. pose proof (le_bytes_word _ B1 L1) as E1. pose proof (le_bytes_word _ B2 L2) as E2. set (a := take 4 rest) in *. set (b := drop 4 rest) in *.
  change (('(inc, t) ← read_int32 data (Reader p n); '(ts, t) ← read_int32 data t; Ok (LStr (0 :: BSON_TIMESTAMP :: to_le 4 (u32 inc) ++ to_le 4 (u32 ts)), t)) =
    Ok (LStr (0 :: BSON_TIMESTAMP :: a ++ b), Reader (p + 8) (n - 8))).
  rewrite E1 in H1. rewrite E2 in H2. rewrite (read_int32_ok data p n _ H1), bind_ret, (read_int32_ok data _ _ _ H2), bind_ret by lia.
  assert (Eu : forall x, u32 (i32 ((x mod 2^32) mod 2^32)) = x mod 2^32).
  { intros x. unfold u32, i32. rewrite Zmod_mod, Zminus_mod_idemp_l. replace (x mod 2^32 + 2^31 - 2^31) with (x mod 2^32) by lia. apply Zmod_mod. }
  rewrite !Eu, <- E1, <- E2. do 3 f_equal; lia.
Qed.

Lemma reads_regex r o : 0 ∉ r -> 0 ∉ o -> value_reads BSON_REGEX (r ++ 0 :: o ++ [0]) (LStr (lregex r o)).
Proof.
  intros Hr Ho data p n H Hn. rewrite length_app in *. cbn [length] in *. rewrite length_app in *. cbn [length] in *.
  change (r ++ 0 :: o ++ [0]) with (r ++ [0] ++ o ++ [0]) in H. rewrite app_assoc in H. apply has_app in H as [H1 H2]. rewrite length_app in H2. cbn [length] in H2.
  change (('(r1, t) ← read_cstring data (Reader p n); '(r2, t) ← read_cstring data t; Ok (LStr (0 :: BSON_REGEX :: r1 ++ 0 :: r2 ++ [0]), t)) =
    Ok (LStr (lregex r o), Reader (p + Z.of_nat (length r + S (length o + 1))) (n - Z.of_nat (length r + S (length o + 1))))).
  rewrite (read_cstring_ok data p n r H1 Hr), bind_ret by lia. replace (p + zlen r + 1) with (p + Z.of_nat (length r + 1)) by lia.
  rewrite (read_cstring_ok data _ _ o H2 Ho), bind_ret by lia. unfold lregex. do 3 f_equal; lia.
Qed.

Lemma reads_object s : object_ok s -> Forall byte s -> value_reads (nth 1 s 0) (object_data (nth 1 s 0) (drop 2 s)) (LStr s).
Proof.
  intros [subtype rest|rest Hl|rest Hl|rest Hl|type Ht|r o s' -> Hr Ho _ _|type payload Ht|payload Hl|payload] Hb; cbn [nth drop].
  - apply reads_binary.
  - by apply reads_objectid.
  - apply reads_date; [done|]. by do 2 apply Forall_cons in Hb as [_ Hb].
  - apply reads_timestamp; [done|]. by do 2 apply Forall_cons in Hb as [_ Hb].
  - intros data p n H Hn. change (nth 0 [type] 0) with type in *. rewrite !elem_of_cons, elem_of_nil in Ht.
    destruct Ht as [->|[->|[->|[]]]]; cbn [length object_data] in *; rewrite Z.add_0_r, Z.sub_0_r; done.
  - exact (reads_regex r o Hr Ho).
  - pose proof (reads_code type payload Ht) as H. rewrite !elem_of_cons, elem_of_nil in Ht. destruct Ht as [->|[->|[]]]; exact H.
  - apply reads_dbpointer. lia.
  - apply reads_codews.
Qed.

Lemma bson_reads_string s : value_reads BSON_STRING (to_le 4 (zlen s + 1) ++ s ++ [0]) (LStr s).
Proof.
  intros data p n H Hn. rewrite !length_app, le_length in *. cbn [length] in *. apply has_app in H as [H1 H]. rewrite le_length in H. apply has_app in H as [H2 _].
  change (('(sz, t) ← read_int32 data (Reader p n); if sz <=? 0 then Fault (LuaError "Invalid bson string") else '(q, t) ← read_bytes t sz; s ← mem_read data q (sz - 1); Ok (LStr s, t)) =
    Ok (LStr s, Reader (p + Z.of_nat (4 + (length s + 1))) (n - Z.of_nat (4 + (length s + 1))))).
  reading. destruct (Z.leb_spec (zlen s + 1) 0); [lia|]. reading. rewrite (has_read _ _ s) by (done || lia). rewrite bind_ret. do 3 f_equal; lia.
Qed.

(** A value that is not a table. *)
Lemma reads_scalar d v : wf d v -> (forall m_len m_pairs len entries, v <> VTable m_len m_pairs len entries) ->
  value_reads (enc d v).1 (enc d v).2 (view d v) /\ (enc d v).1 <> BSON_DOCUMENT /\ (enc d v).1 <> BSON_ARRAY.
Proof.
  intros Hw Hv. destruct v as [i|r|s|b|doc|m_len m_pairs len entries|]; try (by destruct d); [| | | |by destruct (Hv m_len m_pairs len entries)].
  - assert (Hi : - 2^63 <= i < 2^63) by by destruct d. replace (enc d (VInt i)) with (enc 0 (VInt i)) by by destruct d. replace (view d (VInt i)) with (LInt i) by by destruct d.
    cbn [enc]. destruct (is_32bit i) eqn:Ei; (split; [|done]); intros data p n H Hn; cbn [fst snd] in *; rewrite le_length in *.
    + change (('(n, t) ← read_int32 data (Reader p n); Ok (LInt n, t)) = Ok (LInt i, Reader (p + 4) (n - 4))). rewrite (read_int32_ok data p n _ H), bind_ret by lia.
      unfold is_32bit in Ei. by rewrite i32_u32 by lia.
    + change (('(n, t) ← ('(v, t) ← read_word64 data (Reader p n); Ok (i64 v, t)); Ok (LInt n, t)) = Ok (LInt i, Reader (p + 8) (n - 8))).
      rewrite (read_word64_ok data p n _ H), !bind_ret by lia. by rewrite i64_u64.
  - assert (Hr : 0 <= r < 2^64) by by destruct d. replace (enc d (VReal r)) with (enc 0 (VReal r)) by by destruct d. replace (view d (VReal r)) with (LReal r) by by destruct d.
    split; [|done]. intros data p n H Hn. cbn [enc fst snd] in *. rewrite le_length in *.
    change (('(x, t) ← read_word64 data (Reader p n); Ok (LReal x, t)) = Ok (LReal r, Reader (p + 8) (n - 8))). rewrite (read_word64_ok data p n _ H), bind_ret by lia.
    unfold u64. by rewrite Zmod_mod, Z.mod_small.
  - assert (Hs : string_ok s) by by destruct d. destruct Hs as [Hb Hs]. replace (enc d (VStr s)) with (enc 0 (VStr s)) by by destruct d. replace (view d (VStr s)) with (LStr s) by by destruct d.
    cbn [enc]. destruct (is_object s) eqn:Eo; cbn [fst snd]; [|split; [apply bson_reads_string|done]]. split; [by apply reads_object|].
    destruct Hs as [| | | |type Ht|r o s' -> | type payload Ht| |]; try done; rewrite !elem_of_cons, elem_of_nil in Ht; naive_solver.
  - replace (enc d (VBool b)) with (enc 0 (VBool b)) by by destruct d. replace (view d (VBool b)) with (LBool b) by by destruct d. split; [|done].
    intros data p n H Hn. cbn [enc fst snd length] in *. change (('(x, t) ← read_byte data (Reader p n); Ok (LBool (negb (x =? 0)), t)) = Ok (LBool b, Reader (p + 1) (n - 1))).
    rewrite (read_byte_ok data p n _ H), bind_ret by lia. by destruct b.
Qed.

(** ** Documents *)

Lemma open_dict_ok data p n body : has data p (document body) -> zlen (document body) <= n < 2^31 ->
  open_dict data (Reader p n) = Ok (Reader (p + 4) (zlen body), Reader (p + zlen (document body)) (n - zlen (document body))) /\ has data (p + 4) body.
Proof.
  unfold document. intros H Hn. rewrite !length_app, le_length in *. cbn [length] in *. apply has_app in H as [H1 H]. rewrite le_length in H. pose proof (has_app _ _ _ _ H) as [H2 H3].
  split; [|done]. unfold open_dict. reading. rewrite (read_byte_ok data _ _ 0) by (lia || by replace (p + 4 + (zlen body + 5 - 5)) with (p + Z.of_nat 4 + zlen body) by lia).
  rewrite bind_ret. cbn [Z.eqb negb]. do 3 f_equal; lia.
Qed.

Lemma rawset_fresh k v tbl : k ∉ tbl.*1 -> rawset k v tbl = tbl ++ [(k, v)].
Proof.
  induction tbl as [|[k' v'] tbl IH]; intros H; [done|]. cbn [fmap list_fmap fst] in H. apply not_elem_of_cons in H as [Hne H]. cbn [rawset app]. rewrite decide_False by done. by rewrite IH.
Qed.

#[export] Instance KInt_inj : Inj eq eq KInt.
Proof. by intros ? ? [=]. Qed.
#[export] Instance KStr_inj : Inj eq eq KStr.
Proof. by intros ? ? [=]. Qed.

Definition read_key (array : bool) (key : list Z) : bkey := if array then array_key key else KStr key.

(** The keys of the fields are read back, and are different. *)
Definition keys_back (array : bool) (fs : list (list Z * bkey * bval)) : Prop :=
  Forall (fun f => (0 ∉ f.1.1) /\ read_key array f.1.1 = f.1.2) fs /\ NoDup fs.*1.*2.

Lemma elements_ok d array fs : (forall v, wf d v -> forall data p n fuel, has data p (enc d v).2 -> zlen (enc d v).2 <= n < 2^31 -> n < Z.of_nat fuel ->
    (if ((enc d v).1 =? BSON_DOCUMENT) || ((enc d v).1 =? BSON_ARRAY) then '(inner, t) ← open_dict data (Reader p n); sub ← unpack_loop data fuel inner ((enc d v).1 =? BSON_ARRAY) []; Ok (LTable sub, t)
     else unpack_value data (enc d v).1 (Reader p n)) = Ok (view d v, Reader (p + zlen (enc d v).2) (n - zlen (enc d v).2))) ->
  Forall (fun f => wf d f.2) fs -> forall data p fuel tbl, Forall (fun f => (0 ∉ f.1.1) /\ read_key array f.1.1 = f.1.2) fs -> NoDup (tbl.*1 ++ fs.*1.*2) ->
  has data p (enc_fields d fs) -> zlen (enc_fields d fs) < 2^31 -> zlen (enc_fields d fs) < Z.of_nat fuel ->
  unpack_loop data fuel (Reader p (zlen (enc_fields d fs))) array tbl = Ok (tbl ++ ((fun f => (f.1.2, view d f.2)) <$> fs)).
Proof.
  intros Hval. induction fs as [|[[key k] v] fs IH]; intros Hw data p fuel tbl Hk Hd H Hn Hf.
  { destruct fuel as [|fuel]; [cbn in Hf; lia|]. cbn. by rewrite app_nil_r. }
  apply Forall_cons in Hw as [Hw1 Hw], Hk as [[Hz Hk1] Hk]. cbn [fst snd] in *. unfold enc_fields in *. cbn [fmap list_fmap concat fst snd] in *. fold (enc_fields d fs) in *.
  set (t := (enc d v).1) in *. set (w := (enc d v).2) in *. unfold field in *. rewrite length_app in *. cbn [length] in *. rewrite length_app in *. cbn [length] in *.
  destruct fuel as [|fuel]; [lia|]. cbn [unpack_loop r_size]. destruct (Z.eqb_spec (Z.of_nat (S (length key + S (length w)) + length (enc_fields d fs))) 0); [lia|].
  apply has_app in H as [H Hrest]. cbn [length] in Hrest. rewrite length_app in Hrest. cbn [length] in Hrest. apply has_cons in H as [H1 H].
  change (key ++ 0 :: w) with (key ++ [0] ++ w) in H. rewrite app_assoc in H. apply has_app in H as [H2 H3]. rewrite length_app in H3. cbn [length] in H3.
  rewrite (read_byte_ok data p _ t H1), bind_ret, (read_cstring_ok data _ _ key H2 Hz), bind_ret by lia. fold (read_key array key). rewrite Hk1.
  pose proof (Hval v Hw1) as Hv. fold t w in Hv. rewrite Hv by (lia || (by replace (p + 1 + zlen key + 1) with (p + 1 + Z.of_nat (length key + 1)) by lia)). rewrite bind_ret.
  change (NoDup (tbl.*1 ++ k :: fs.*1.*2)) in Hd. assert (Hfresh : k ∉ tbl.*1) by (apply NoDup_app in Hd as (_ & Hd & _); intros Hin; apply (Hd k Hin); left).
  rewrite rawset_fresh by done.
  replace (p + 1 + zlen key + 1 + zlen w) with (p + Z.of_nat (S (length key + S (length w)))) by lia.
  replace (Z.of_nat (S (length key + S (length w)) + length (enc_fields d fs)) - 1 - zlen key - 1 - zlen w) with (zlen (enc_fields d fs)) by lia.
  rewrite IH by (done || lia || (rewrite fmap_app, <- app_assoc; exact Hd)). by rewrite <- app_assoc.
Qed.

Lemma strtol10_fmt_u n : 0 <= n < 2^31 -> strtol10 (fmt_u n) = n.
Proof.
  intros Hn. assert (Er : read_digits 10 (fmt_u n) 0 = n).
  { unfold fmt_u. apply print_read; [lia| |lia]. intros d Hd. unfold digit_value. destruct (Z.leb_spec 48 (48 + d)), (Z.leb_spec (48 + d) 57); try lia. cbn [andb]. f_equal. lia. }
  unfold strtol10. pose proof (fmt_u_digits n ltac:(lia)) as Hd. assert (Es : skip_spaces (fmt_u n) = fmt_u n /\ read_sign (fmt_u n) = (false, fmt_u n)).
  { destruct (fmt_u n) as [|c s]; [done|]. apply Forall_cons in Hd as [Hc _]. cbn in Hc. cbn [skip_spaces read_sign].
    unfold is_space. replace (c =? 32) with false by lia. replace ((9 <=? c) && (c <=? 13)) with false by lia. cbn [orb]. split; [done|].
    replace (c =? 45) with false by lia. by replace (c =? 43) with false by lia. }
  destruct Es as [-> ->]. rewrite Er, Z.min_l by lia. apply i32_small. lia.
Qed.

Lemma array_keys_back entries n : 0 <= n < 2^31 -> keys_back true (array_fields entries n).
Proof.
  intros Hn. split.
  - unfold array_fields. apply Forall_fmap, Forall_forall. intros i Hi%elem_of_seqZ. split; [exact (proj2 (numstr_ok _))|]. change (array_key (bson_numstr (i - 1)) = KInt i). unfold array_key, bson_numstr.
    replace (u32 (i - 1)) with (i - 1) by (unfold u32; rewrite Z.mod_small; lia). rewrite strtol10_fmt_u by lia. f_equal. rewrite i32_small; lia.
  - unfold array_fields. rewrite <- !list_fmap_compose. apply (NoDup_fmap_2 KInt), NoDup_seqZ.
Qed.

Lemma dict_keys_back fs entries : fs = dict_fields entries -> NoDup fs.*1.*1 -> Forall (fun f => key_ok f.1.1) fs -> keys_back false fs.
Proof.
  intros -> Hd Hk. split.
  - rewrite Forall_forall in *. intros f Hf. split; [apply (Hk f Hf)|]. by apply list_elem_of_fmap in Hf as (e & -> & _).
  - unfold dict_fields in *. rewrite <- !list_fmap_compose in *. change (NoDup ((KStr ∘ (fun e : bkey * bval => key_text e.1)) <$> entries)). rewrite list_fmap_compose. by apply NoDup_fmap_2; [apply _|].
Qed.

Lemma table_keys_back d m_len m_pairs len entries array fs : table_fields m_len m_pairs len entries = (array, fs) -> wf (S d) (VTable m_len m_pairs len entries) -> keys_back array fs.
Proof.
  intros E Hw. cbn [wf] in Hw. rewrite E in Hw. destruct Hw as (Hk & _). unfold table_fields in E. destruct m_len as [n|].
  - injection E as <- <-. destruct Hk as (n' & -> & Hn). by apply array_keys_back.
  - destruct m_pairs as [pairs|]; [|destruct (is_rawarray len entries)]; injection E as <- <-; cbn [keys_ok] in Hk.
    + destruct Hk. by eapply dict_keys_back.
    + by apply array_keys_back.
    + destruct Hk. by eapply dict_keys_back.
Qed.

Lemma value_ok d : forall v, wf d v -> forall data p n fuel, has data p (enc d v).2 -> zlen (enc d v).2 <= n < 2^31 -> n < Z.of_nat fuel ->
  (if ((enc d v).1 =? BSON_DOCUMENT) || ((enc d v).1 =? BSON_ARRAY) then '(inner, t) ← open_dict data (Reader p n); sub ← unpack_loop data fuel inner ((enc d v).1 =? BSON_ARRAY) []; Ok (LTable sub, t)
   else unpack_value data (enc d v).1 (Reader p n)) = Ok (view d v, Reader (p + zlen (enc d v).2) (n - zlen (enc d v).2)).
Proof.
  induction d as [|d IH]; intros v Hw data p n fuel H Hn Hf.
  - destruct (reads_scalar 0 v Hw) as (Hr & Hd & Ha); [by intros ? ? ? ? ->|]. destruct (Z.eqb_spec (enc 0 v).1 BSON_DOCUMENT), (Z.eqb_spec (enc 0 v).1 BSON_ARRAY); try done. by apply Hr.
  - destruct v as [| | | | |m_len m_pairs len entries|]; try (destruct (reads_scalar (S d) _ Hw) as (Hr & Hd & Ha); [done|];
      match goal with |- context [(enc (S d) ?v).1 =? BSON_DOCUMENT] => destruct (Z.eqb_spec (enc (S d) v).1 BSON_DOCUMENT), (Z.eqb_spec (enc (S d) v).1 BSON_ARRAY) end; try done; by apply Hr).
    destruct (table_fields m_len m_pairs len entries) as [array fs] eqn:E. pose proof (table_keys_back d m_len m_pairs len entries array fs E Hw) as [Hk Hd].
    cbn [wf enc view] in *. rewrite E in *. cbn [fst snd] in *. fold (enc_fields d fs) in *. destruct Hw as (_ & Hw & _).
    replace (((if array then BSON_ARRAY else BSON_DOCUMENT) =? BSON_DOCUMENT) || ((if array then BSON_ARRAY else BSON_DOCUMENT) =? BSON_ARRAY)) with true by by destruct array.
    replace ((if array then BSON_ARRAY else BSON_DOCUMENT) =? BSON_ARRAY) with array by by destruct array.
    destruct (open_dict_ok data p n _ H Hn) as [-> Hb]. rewrite bind_ret. assert (Hl : zlen (document (enc_fields d fs)) = zlen (enc_fields d fs) + 5) by (unfold document; rewrite !length_app, le_length; cbn; lia).
    rewrite (elements_ok d array fs IH Hw data _ fuel [] Hk Hd Hb) by lia. done.
Qed.

(** ** The contract

    What is taken and what comes back, said of the Lua values alone; [wf] and [view]
    above follow the encoder. *)

(** The keys are 1, 2, ... to the number of entries, and [lua_next] visits them in this
    order. *)
Definition sequence (entries : list (bkey * bval)) : Prop :=
  List.length entries <> 0%nat /\ entries.*1 = KInt <$> seqZ 1 (zlen entries).

#[global] Instance sequence_dec entries : Decision (sequence entries).
Proof. unfold sequence. apply _. Defined.

(** A table that is written as a document: texts without zeros and numbers as keys, no
    two of them with the same text. *)
Definition document_ok (good : bval -> Prop) (entries : list (bkey * bval)) : Prop :=
  Forall (fun e => e.1 <> KOther) entries /\ NoDup (key_text <$> entries.*1) /\ Forall (fun k => key_ok (key_text k)) entries.*1 /\ Forall good entries.*2.

(** Values that can be written, with tables nested to a depth of at most [d].  A table
    without metamethods is a sequence, whose border [len] is its length, or is a
    document and has the border 0: others, sequences with further keys among them, are
    not what this is about. *)
Fixpoint plain (d : nat) (v : bval) : Prop :=
  match v with
  | VInt i => - 2^63 <= i < 2^63
  | VReal r => 0 <= r < 2^64
  | VBool _ => True
  | VStr s => string_ok s
  | VTable m_len m_pairs len entries =>
      match d with
      | O => False
      | S d =>
          match m_len, m_pairs with
          | Some n, _ => exists n', n = Some n' /\ 0 <= n' < 2^31 /\ forall i, 1 <= i <= n' -> exists v, rawget (KInt i) entries = Some v /\ plain d v
          | None, Some pairs => document_ok (plain d) pairs
          | None, None =>
              if decide (sequence entries) then len = zlen entries /\ len < 2^31 /\ Forall (plain d) entries.*2
              else len = 0 /\ document_ok (plain d) entries
          end
      end
  | _ => False
  end.

(** What comes back: a sequence as it was; a document with its keys as texts; of a table
    with [__len] the entries from 1 to the number it gives; of one with [__pairs] the
    pairs. *)
Fixpoint meaning (d : nat) (v : bval) : lval :=
  match v with
  | VInt i => LInt i
  | VReal r => LReal r
  | VBool b => LBool b
  | VStr s => LStr s
  | VTable m_len m_pairs len entries =>
      match d with
      | O => LTable []
      | S d =>
          let texts es := LTable ((fun e : bkey * bval => (KStr (key_text e.1), meaning d e.2)) <$> es) in
          match m_len, m_pairs with
          | Some n, _ => LTable ((fun i => (KInt i, meaning d (default VOther (rawget (KInt i) entries)))) <$> seqZ 1 (default 0 n))
          | None, Some pairs => texts pairs
          | None, None => if decide (sequence entries) then LTable ((fun e => (e.1, meaning d e.2)) <$> entries) else texts entries
          end
      end
  | _ => LTable []
  end.

Lemma rawget_nodup entries : NoDup entries.*1 -> forall i k v, entries !! i = Some (k, v) -> rawget k entries = Some v.
Proof.
  induction entries as [|[k0 v0] entries IH]; intros Hn i k v Hi; [done|]. cbn [fmap list_fmap] in Hn. apply NoDup_cons in Hn as [Hk0 Hn]. cbn [rawget].
  destruct i as [|i]; [injection Hi as -> ->; by rewrite decide_True|]. case_decide as E; [|by eapply IH].
  destruct Hk0. cbn [fst]. rewrite <- E. apply list_elem_of_fmap. exists (k, v). split; [done|]. by eapply list_elem_of_lookup_2.
Qed.

(** The entries of a sequence, by their positions. *)
Lemma sequence_entries entries : sequence entries -> (fun i => (KInt i, default VOther (rawget (KInt i) entries))) <$> seqZ 1 (zlen entries) = entries.
Proof.
  intros [_ E]. assert (Hn : NoDup entries.*1) by (rewrite E; apply NoDup_fmap_2; [by intros x y [= ->]|apply NoDup_seqZ]).
  apply list_eq. intros i. rewrite list_lookup_fmap. destruct (entries !! i) as [[k v]|] eqn:Ei.
  - assert (Ek : entries.*1 !! i = Some k) by by rewrite list_lookup_fmap, Ei. rewrite E, list_lookup_fmap in Ek. destruct (seqZ 1 (zlen entries) !! i) as [j|]; [|done]. injection Ek as <-.
    cbn. by rewrite (rawget_nodup _ Hn _ _ _ Ei).
  - apply lookup_ge_None in Ei. by rewrite (proj2 (lookup_ge_None _ _)) by (rewrite length_seqZ; lia).
Qed.

Lemma rawarray_sequence len entries : (if decide (sequence entries) then len = zlen entries else len = 0) -> is_rawarray len entries = bool_decide (sequence entries).
Proof.
  unfold is_rawarray. destruct (decide (sequence entries)) as [Hs|Hs]; intros ->; [|by rewrite (bool_decide_false (sequence entries))].
  rewrite (bool_decide_true (sequence entries)) by done. destruct Hs as [H0 E]. destruct (Z.ltb_spec 0 (zlen entries)); [|lia]. apply bool_decide_eq_true.
  rewrite <- fmap_last, E, last_lookup, length_fmap, length_seqZ, list_lookup_fmap. rewrite (proj2 (lookup_seqZ _ _ _ (zlen entries))) by lia. done.
Qed.

Lemma document_wf d entries : (forall v, plain d v -> wf d v) -> document_ok (plain d) entries ->
  (NoDup (dict_fields entries).*1.*1 /\ Forall (fun f => key_ok f.1.1) (dict_fields entries)) /\ Forall (fun f => wf d f.2) (dict_fields entries) /\
  Forall (fun e => e.1 <> KOther) entries.
Proof.
  intros IH (Ho & Hn & Hk & Hv). unfold dict_fields. split; [split|split]; [| | |done].
  - rewrite <- !list_fmap_compose in *. exact Hn.
  - apply Forall_fmap. exact (proj1 (Forall_fmap fst _ _) Hk).
  - apply Forall_fmap. eapply Forall_impl; [exact (proj1 (Forall_fmap snd _ _) Hv)|]. intros e. apply IH.
Qed.

Lemma array_wf d entries n : (forall i, 1 <= i <= n -> exists v, rawget (KInt i) entries = Some v /\ wf d v) -> Forall (fun f => wf d f.2) (array_fields entries n).
Proof.
  intros H. apply Forall_fmap, Forall_forall. intros i Hi%elem_of_seqZ. destruct (H i) as (v & E & Hv); [lia|]. cbn. by rewrite E.
Qed.

Lemma sequence_get entries i : sequence entries -> 1 <= i <= zlen entries -> exists v, rawget (KInt i) entries = Some v /\ v ∈ entries.*2.
Proof.
  intros [_ E] Hi. assert (Hn : NoDup entries.*1) by (rewrite E; apply NoDup_fmap_2; [by intros x y [= ->]|apply NoDup_seqZ]).
  destruct (lookup_lt_is_Some_2 entries (Z.to_nat (i - 1))) as [[k v] Ei]; [lia|]. assert (Ek : entries.*1 !! Z.to_nat (i - 1) = Some k) by by rewrite list_lookup_fmap, Ei.
  rewrite E, list_lookup_fmap in Ek. rewrite (proj2 (lookup_seqZ _ _ _ i)) in Ek by lia. injection Ek as <-. exists v. split; [by eapply rawget_nodup|].
  apply list_elem_of_fmap. exists (KInt i, v). split; [done|]. by eapply list_elem_of_lookup_2.
Qed.

Lemma plain_wf d : forall v, plain d v -> wf d v.
Proof.
  induction d as [|d IH]; intros v Hp; destruct v as [| | | | |m_len m_pairs len entries|]; try done. cbn [plain wf] in *. unfold table_fields.
  destruct m_len as [n|].
  - destruct Hp as (n' & -> & Hn & Hv). split; [by exists n'|]. split; [|done]. apply array_wf. intros i Hi. destruct (Hv i) as (v & E & Hpv); [done|]. exists v. split; [done|by apply IH].
  - destruct m_pairs as [pairs|].
    + destruct (document_wf d pairs IH Hp) as (Hk & Hv & Ho). by split.
    + rewrite (rawarray_sequence len entries) by (destruct (decide (sequence entries)); apply Hp). destruct (decide (sequence entries)) as [Hs|Hs].
      * rewrite bool_decide_true by done. destruct Hp as (Hl & Hb & Hv). split; [cbn; lia|]. split.
        -- apply array_wf. intros i Hi. destruct (sequence_get entries i Hs) as (v & E & Hin); [lia|]. exists v. split; [done|]. apply IH. by eapply Forall_forall in Hv.
        -- intros _. destruct Hs as [_ E]. apply (Forall_fmap fst (fun k => k <> KOther)). cbn [default from_option]. rewrite E. apply Forall_fmap, Forall_forall. done.
      * rewrite bool_decide_false by done. destruct Hp as [_ Hp]. destruct (document_wf d entries IH Hp) as (Hk & Hv & Ho). by split.
Qed.

Lemma texts_view d entries : (forall v, plain d v -> view d v = meaning d v) -> document_ok (plain d) entries ->
  (fun f => (f.1.2, view d f.2)) <$> dict_fields entries = (fun e => (KStr (key_text e.1), meaning d e.2)) <$> entries.
Proof.
  intros IH (_ & _ & _ & Hv). unfold dict_fields. rewrite <- list_fmap_compose. apply list_fmap_ext. intros i [k v] Hi. cbn. f_equal. apply IH.
  rewrite Forall_forall in Hv. apply Hv. apply list_elem_of_fmap. exists (k, v). split; [done|]. by eapply list_elem_of_lookup_2.
Qed.

Lemma plain_view d : forall v, plain d v -> view d v = meaning d v.
Proof.
  induction d as [|d IH]; intros v Hp; destruct v as [| | | | |m_len m_pairs len entries|]; try done. cbn [plain view meaning] in *. unfold table_fields.
  destruct m_len as [n|].
  - destruct Hp as (n' & -> & Hn & Hv). cbn [default from_option id snd]. f_equal. unfold array_fields. rewrite <- list_fmap_compose. apply list_fmap_ext.
    intros i j Hj%lookup_seqZ. cbn. f_equal. destruct (Hv j) as (v & E & Hpv); [lia|]. rewrite E. by apply IH.
  - destruct m_pairs as [pairs|]; [f_equal; by apply texts_view|].
    rewrite (rawarray_sequence len entries) by (destruct (decide (sequence entries)); apply Hp). destruct (decide (sequence entries)) as [Hs|Hs].
    + rewrite bool_decide_true by done. destruct Hp as (El & _ & Hv). subst len. cbn [snd]. f_equal. rewrite <- (sequence_entries entries Hs) at 3. unfold array_fields.
      rewrite <- !list_fmap_compose. apply list_fmap_ext. intros i j Hj%lookup_seqZ. cbn. f_equal. destruct (sequence_get entries j Hs) as (v & E & Hin); [lia|]. rewrite E. apply IH.
      by eapply Forall_forall in Hv.
    + rewrite bool_decide_false by done. cbn [snd]. f_equal. apply texts_view; [done|apply Hp].
Qed.

(** C33. Decoding undoes encoding.  A table (or the pairs its metamethod gives) is taken
    whose keys are texts without zeros or numbers, with different texts, and whose values
    are [plain]: of the types of BSON, the tables inside being sequences or documents,
    nested up to 128 levels.  It is encoded, if that takes less than 2^30 bytes, and
    decoding gives it back as [meaning] says: every entry under the text of its key (a
    number comes back as a text), and the tables inside likewise, sequences with their
    numbers. *)
Theorem bson_roundtrip d m_pairs entries : (d <= 128)%nat -> document_ok (plain d) (default entries m_pairs) -> zlen (encoded d (default entries m_pairs)) < 2^30 ->
  exists bytes, lencode m_pairs entries = Ok bytes /\
    ldecode bytes = Ok (LTable ((fun e => (KStr (key_text e.1), meaning d e.2)) <$> default entries m_pairs)).
Proof.
  intros Hd Hw Hl. exists (encoded d (default entries m_pairs)). set (es := default entries m_pairs) in *. pose proof Hw as (Ho & Hn & Hk & Hp).
  destruct (document_wf d es (plain_wf d) Hw) as ((Hn1 & Hk1) & Hv1 & _).
  assert (Hwf : wf_doc d es) by (do 3 (split; [done|]); eapply Forall_impl; [exact Hp|apply plain_wf]). split; [by apply bson_encode_ok|].
  unfold ldecode, get_length, unpack_dict. assert (H : has (encoded d es) 0 (encoded d es)) by (exists [], []; by rewrite app_nil_r).
  assert (Hlen : zlen (encoded d es) = zlen (enc_fields d (dict_fields es)) + 5) by (unfold encoded, document; rewrite !length_app, le_length; cbn; lia).
  pose proof (has_app _ _ _ _ H) as [H1 _]. rewrite (has_read _ _ _ 4 H1) by (by rewrite le_length). rewrite !bind_ret, of_le_le. change (256 ^ Z.of_nat 4) with (2^32).
  rewrite Z.mod_small, i32_small, <- Hlen by lia. destruct (open_dict_ok (encoded d es) 0 (zlen (encoded d es)) _ H) as [E Hb]; [fold (encoded d es); lia|].
  fold (encoded d es) in E. rewrite E, bind_ret. cbn [r_size]. destruct (dict_keys_back (dict_fields es) es eq_refl Hn1 Hk1) as [Hk2 Hk3].
  rewrite (elements_ok d false (dict_fields es) (value_ok d)) by (done || lia). rewrite bind_ret. cbn [app]. by rewrite (texts_view d es (plain_view d) Hw).
Qed.

(** A table with an array, a date, a table inside and a number as a key. *)
Definition sample_doc : list (bkey * bval) :=
  [(KStr [97], VStr [104; 105]); (KStr [98], VTable None None 2 [(KInt 1, VInt (-3)); (KInt 2, VReal 7)]);
   (KInt 7, VStr (ldate 1000)); (KStr [99], VTable None None 0 [(KStr [120], VBool true); (KStr [121], VInt (2^40))])].

Ltac each t := repeat (apply Forall_cons_2; [t|]); apply Forall_nil_2.

Lemma sample_doc_plain : document_ok (plain 1) sample_doc.
Proof.
  assert (Hk : forall s, Forall (fun c => 0 < c < 128) s -> key_ok s).
  { intros s Hs. split; [apply utf8_ascii; eapply Forall_impl; [exact Hs|]; cbn; lia|]. intros H. rewrite Forall_forall in Hs. apply Hs in H. lia. }
  assert (Hs : string_ok [104; 105]) by (split; [each ltac:(byte)|by vm_compute]).
  assert (Hd : string_ok (ldate 1000)).
  { split; [each ltac:(byte)|]. change (object_ok (ldate 1000)). by apply ok_date. }
  split; [by repeat constructor|]. split; [apply (bool_decide_unpack (NoDup _)); by vm_compute|]. split.
  - each ltac:(apply Hk; each ltac:(split; by vm_compute)).
  - apply Forall_cons_2; [exact Hs|]. apply Forall_cons_2; [|apply Forall_cons_2; [exact Hd|apply Forall_cons_2; [|apply Forall_nil_2]]].
    + cbn [snd plain]. rewrite decide_True by (apply (bool_decide_unpack (sequence _)); by vm_compute). split; [by vm_compute|]. split; [lia|].
      apply Forall_cons_2; [change (- 2^63 <= -3 < 2^63); lia|]. apply Forall_cons_2; [change (0 <= 7 < 2^64); lia|]. apply Forall_nil_2.
    + cbn [snd plain]. rewrite decide_False by (intros H; by apply (bool_decide_pack (sequence _)) in H). split; [done|].
      split; [by repeat constructor|]. split; [apply (bool_decide_unpack (NoDup _)); by vm_compute|]. split; [each ltac:(apply Hk; each ltac:(split; by vm_compute))|].
      each ltac:(cbn; lia || done).
Qed.

Lemma bson_roundtrip_witness : exists bytes, lencode None sample_doc = Ok bytes /\
  ldecode bytes = Ok (LTable [(KStr [97], LStr [104; 105]); (KStr [98], LTable [(KInt 1, LInt (-3)); (KInt 2, LReal 7)]);
    (KStr [55], LStr (ldate 1000)); (KStr [99], LTable [(KStr [120], LBool true); (KStr [121], LInt (2^40))])]).
Proof.
  destruct (bson_roundtrip 1 None sample_doc) as (bytes & E & Hd); [lia|exact sample_doc_plain|by vm_compute|]. exists bytes. split; [exact E|]. rewrite Hd. vm_compute. reflexivity.
Defined.

(** ** Where the code does not do what it means to *)

(** [lmakeindex] trusts the length of a string: a negative one takes it back to the
    beginning of the element, and it reads the same element for ever. *)
Theorem makeindex_never_ends fuel : lmakeindex [11; 0; 0; 0; 2; 0; 250; 255; 255; 255; 0] fuel = Fault OutOfFuel.
Proof.
  change (lmakeindex _ fuel) with (makeindex_loop [11; 0; 0; 0; 2; 0; 250; 255; 255; 255; 0] fuel (Reader 4 6) []).
  induction fuel as [|fuel IH]; [done|].
  change (makeindex_loop [11; 0; 0; 0; 2; 0; 250; 255; 255; 255; 0] (S fuel) (Reader 4 6) []) with (makeindex_loop [11; 0; 0; 0; 2; 0; 250; 255; 255; 255; 0] fuel (Reader 4 6) []).
  exact IH.
Qed.

(** A string that begins like a regular expression and has no second zero makes the
    encoder copy from behind its end. *)
Lemma regex_overruns : lencode None [(KStr [97], VStr [0; BSON_REGEX])] = Fault OutOfBounds /\ lencode None [(KStr [97], VStr [0; BSON_REGEX; 98; 99])] = Fault OutOfBounds.
Proof. split; vm_compute; reflexivity. Qed.

(** A table whose last key in the order of [lua_next] is its border is written as an
    array; its other keys are lost. *)
Lemma mixed_table_loses_keys : exists bytes,
  lencode None [(KStr [97], VTable None None 1 [(KStr [120], VInt 5); (KInt 1, VInt 6)])] = Ok bytes /\
  ldecode bytes = Ok (LTable [(KStr [97], LTable [(KInt 1, LInt 6)])]).
Proof. eexists. split; [vm_compute; reflexivity|]. vm_compute. reflexivity. Qed.

(** A sequence whose keys [lua_next] visits in another order, as it may when they are in
    the hash part of the table, is written as a document: its numbers come back as
    texts. *)
Lemma unordered_sequence_is_document : exists bytes,
  lencode None [(KStr [97], VTable None None 2 [(KInt 2, VInt 5); (KInt 1, VInt 6)])] = Ok bytes /\
  ldecode bytes = Ok (LTable [(KStr [97], LTable [(KStr [50], LInt 5); (KStr [49], LInt 6)])]).
Proof. eexists. split; [vm_compute; reflexivity|]. vm_compute. reflexivity. Qed.

(** A zero in a key ends it for the reader. *)
Lemma zero_in_key : exists bytes, lencode None [(KStr [97; 0; 16; 98], VInt 5)] = Ok bytes /\ ldecode bytes <> Ok (LTable [(KStr [97; 0; 16; 98], LInt 5)]).
Proof. eexists. split; [vm_compute; reflexivity|]. vm_compute. discriminate. Qed.
