(* ===== verification/BsonUtf8.v ===== *)
(** * The texts BSON takes

    [utf8_copy] accepts every character up to U+10FFFF in its shortest form, so that any
    text of such characters can be a key or a string. *)

From S2P Require Import Prelude Text Bson BsonWrite.
From stdpp Require Import base numbers list.
From Stdlib Require Import ZArith Lia.
#[local] Open Scope Z_scope.
#[local] Open Scope list_scope.
Import Bson.

(** The bytes of a character. *)
Definition utf8_encode (u : Z) : list Z :=
  if u <? 128 then [u]
  else if u <? 2048 then [192 + u / 64; 128 + u mod 64]
  else if u <? 65536 then [224 + u / 4096; 128 + (u / 64) mod 64; 128 + u mod 64]
  else [240 + u / 262144; 128 + (u / 4096) mod 64; 128 + (u / 64) mod 64; 128 + u mod 64].

(** ** Bits *)

Lemma cont_bits m : 0 <= m < 64 -> Z.land (128 + m) 192 = 128 /\ Z.land (128 + m) 63 = m.
Proof.
  intros Hm. assert (T : Forall (fun m => Z.land (128 + m) 192 = 128 /\ Z.land (128 + m) 63 = m) (seqZ 0 64)) by (apply (bool_decide_unpack (Forall _ _)); by vm_compute).
  rewrite Forall_forall in T. apply T, elem_of_seqZ. lia.
Qed.

(** The first byte of a character of [k + 1] bytes, shifted [j] times. *)
Definition shifted (b : Z) (j : nat) : Z := Nat.iter j (fun c => u32 (Z.shiftl c 1)) (b + (2^32 - 256)).

Lemma lead_bits b k n : (b, k, n) ∈ [(192, 1%nat, 32); (224, 2%nat, 16); (240, 3%nat, 8)] -> forall h, 0 <= h < n ->
  (forall j, (j < k)%nat -> Z.land (shifted (b + h) j) 64 <> 0) /\ Z.land (shifted (b + h) k) 64 = 0 /\
  Z.shiftl (Z.land (shifted (b + h) k) 127) (Z.of_nat k * 5) = h * 2 ^ (6 * Z.of_nat k).
Proof.
  intros Hb h Hh. assert (T : Forall (fun h => Forall (fun j => Z.land (shifted (b + h) j) 64 <> 0) (seq 0 k) /\ Z.land (shifted (b + h) k) 64 = 0 /\
    Z.shiftl (Z.land (shifted (b + h) k) 127) (Z.of_nat k * 5) = h * 2 ^ (6 * Z.of_nat k)) (seqZ 0 n)).
  { rewrite !elem_of_cons, elem_of_nil in Hb. destruct Hb as [[= -> -> ->]|[[= -> -> ->]|[[= -> -> ->]|[]]]]; apply (bool_decide_unpack (Forall _ _)); by vm_compute. }
  rewrite Forall_forall in T. destruct (T h) as (H1 & H2 & H3); [apply elem_of_seqZ; lia|]. split; [|done]. intros j Hj. rewrite Forall_forall in H1. apply H1, elem_of_seq. lia.
Qed.

(** ** The loop *)

(** The number made of the bytes that follow. *)
Definition value (ms : list Z) (res : Z) : Z := foldl (fun r m => r * 64 + m) res ms.

Lemma loop_step s off limit ms : forall fuel b j res, (forall i, (j <= i < j + length ms)%nat -> Z.land (shifted b i) 64 <> 0) ->
  (forall i m, ms !! i = Some m -> 0 <= m < 64 /\ s !! Z.to_nat (off + Z.of_nat (j + i) + 1) = Some (128 + m)) -> 0 <= off -> 0 <= res < 2 ^ (6 * Z.of_nat j) -> (j + length ms <= 3)%nat ->
  Z.of_nat (j + length ms) < limit ->
  utf8_loop (length ms + fuel) s off limit (shifted b j) (Z.of_nat j) res = utf8_loop fuel s off limit (shifted b (j + length ms)) (Z.of_nat (j + length ms)) (value ms res).
Proof.
  induction ms as [|m ms IH]; intros fuel b j res Hc Hs Hoff Hres Hj Hlim; [cbn [length plus value foldl]; by rewrite Nat.add_0_r|]. cbn [length plus] in *. cbn [utf8_loop].
  destruct (Z.eqb_spec (Z.land (shifted b j) 64) 0) as [E|_]; [destruct (Hc j); [lia|done]|].
  destruct (Hs O m eq_refl) as [Hm Hget]. rewrite Nat.add_0_r in Hget. assert (Hlt := lookup_lt_Some _ _ _ Hget).
  unfold getc. destruct (Z.eqb_spec (off + (Z.of_nat j + 1)) (zlen s)); [lia|]. rewrite (arr_get_ok _ _ (128 + m)) by (lia || by rewrite Z.add_assoc). rewrite bind_ret.
  destruct (cont_bits m Hm) as [-> ->]. destruct (Z.leb_spec limit (Z.of_nat j + 1)); [lia|]. cbn [orb Z.eqb Pos.eqb negb].
  assert (Hpow : 2 ^ (6 * Z.of_nat j) * 64 = 2 ^ (6 * Z.of_nat (S j))) by (rewrite Nat2Z.inj_succ, <- Z.add_1_r, Z.mul_add_distr_l, Z.pow_add_r by lia; lia).
  assert (Hle : 2 ^ (6 * Z.of_nat (S j)) <= 2 ^ 18) by (apply Z.pow_le_mono_r; lia).
  rewrite shiftl_lor by (lia || (change (2^6) with 64; lia)). change (2^6) with 64. replace (u32 (res * 64 + m)) with (res * 64 + m) by (unfold u32; rewrite Z.mod_small; lia).
  change (u32 (Z.shiftl (shifted b j) 1)) with (shifted b (S j)). replace (Z.of_nat j + 1) with (Z.of_nat (S j)) by lia.
  rewrite IH; [replace (S j + length ms)%nat with (j + S (length ms))%nat by lia; done|intros i Hi; apply Hc; lia| |done|lia|lia|lia].
  intros i m' Hi. destruct (Hs (S i) m' Hi) as [? E]. split; [done|]. by replace (S j + i)%nat with (j + S i)%nat by lia.
Qed.

Lemma copy_long s off limit b k n h ms : (b, k, n) ∈ [(192, 1%nat, 32); (224, 2%nat, 16); (240, 3%nat, 8)] -> 0 <= h < n -> length ms = k -> 0 <= off ->
  s !! Z.to_nat off = Some (b + h) -> (forall i m, ms !! i = Some m -> 0 <= m < 64 /\ s !! Z.to_nat (off + Z.of_nat i + 1) = Some (128 + m)) -> Z.of_nat k < limit ->
  0 <= value ms 0 < 2 ^ (6 * Z.of_nat k) -> nth k limits 0 < value ms 0 + h * 2 ^ (6 * Z.of_nat k) <= MAXUNICODE -> utf8_copy s off limit = Ok (Z.of_nat k + 1).
Proof.
  intros Hb Hh Hk Hoff H0 Hs Hlim Hv Hr. destruct (lead_bits b k n Hb h Hh) as (B1 & B2 & B3).
  assert (Hbk : 192 <= b <= 240 /\ (1 <= k <= 3)%nat /\ b + n <= 248) by (rewrite !elem_of_cons, elem_of_nil in Hb; destruct Hb as [[= -> -> ->]|[[= -> -> ->]|[[= -> -> ->]|[]]]]; lia).
  unfold utf8_copy, getc. assert (Hlt := lookup_lt_Some _ _ _ H0). destruct (Z.eqb_spec off (zlen s)); [lia|]. rewrite (arr_get_ok _ _ _ Hoff H0), bind_ret.
  destruct (Z.ltb_spec (b + h) 128); [lia|]. destruct (Z.ltb_spec limit 1); [lia|]. destruct (Z.ltb_spec (b + h + (2^32 - 256)) 128); [lia|].
  change (b + h + (2^32 - 256)) with (shifted (b + h) 0). replace 9%nat with (length ms + S (8 - k))%nat by lia.
  pose proof (loop_step s off limit ms (S (8 - k)) (b + h) 0 0) as E. cbn [plus] in E. change (Z.of_nat 0) with 0 in E.
  rewrite E; [|intros i Hi; apply B1; lia|done|done|cbn; lia|lia|lia]. rewrite Hk. cbn [utf8_loop].
  rewrite B2. cbn [Z.eqb]. rewrite bind_ret. destruct (Z.leb_spec 32 (Z.of_nat k * 5)); [lia|]. rewrite B3, lor_disjoint by lia.
  assert (Hm : MAXUNICODE = 1114111) by done. replace (u32 (value ms 0 + h * 2 ^ (6 * Z.of_nat k))) with (value ms 0 + h * 2 ^ (6 * Z.of_nat k)) by (unfold u32; rewrite Z.mod_small; lia).
  destruct (Z.ltb_spec 3 (Z.of_nat k)), (Z.ltb_spec MAXUNICODE (value ms 0 + h * 2 ^ (6 * Z.of_nat k))); try lia. cbn [orb].
  rewrite (arr_get_ok limits (Z.of_nat k) (nth k limits 0)) by (lia || (rewrite Nat2Z.id; destruct k as [|[|[|[|]]]]; done || lia)). rewrite bind_ret.
  destruct (Z.leb_spec (value ms 0 + h * 2 ^ (6 * Z.of_nat k)) (nth k limits 0)); [lia|done].
Qed.

(** ** Characters and texts *)

Lemma at_place (pre w post : list Z) i : (i < length w)%nat -> (pre ++ w ++ post) !! Z.to_nat (zlen pre + Z.of_nat i) = w !! i.
Proof. intros Hi. rewrite lookup_app_r by lia. rewrite lookup_app_l by lia. f_equal. lia. Qed.

(** [lia] with quotients and remainders. *)
Ltac dlia := Z.to_euclidean_division_equations; lia.

(** The byte at a place, by [at_place]. *)
Ltac at_byte H i := etrans; [|exact (H i ltac:(lia))]; f_equal; lia.

Lemma copy_char pre u post limit : 0 <= u <= MAXUNICODE -> zlen (utf8_encode u) <= limit ->
  utf8_copy (pre ++ utf8_encode u ++ post) (zlen pre) limit = Ok (zlen (utf8_encode u)).
Proof.
  intros Hu Hl. assert (Hm : MAXUNICODE = 1114111) by done. pose proof (at_place pre (utf8_encode u) post) as Hat. unfold utf8_encode in *.
  destruct (Z.ltb_spec u 128); [|destruct (Z.ltb_spec u 2048); [|destruct (Z.ltb_spec u 65536)]]; cbn [length] in Hl, Hat |- *.
  - unfold utf8_copy, getc. rewrite !length_app. cbn [length]. destruct (Z.eqb_spec (zlen pre) (Z.of_nat (length pre + (1 + length post)))); [lia|].
    rewrite (arr_get_ok _ _ u) by (lia || at_byte Hat O). rewrite bind_ret. destruct (Z.ltb_spec u 128); [|lia]. destruct (Z.ltb_spec limit 1); [lia|]. by destruct (Z.ltb_spec u 128); [|lia].
  - apply (copy_long _ _ _ 192 1 32 (u / 64) [u mod 64]); try done; try lia; [left|dlia|at_byte Hat O| |cbn; dlia|cbn; dlia].
    intros [|i] m [= <-]. split; [dlia|]. at_byte Hat 1%nat.
  - apply (copy_long _ _ _ 224 2 16 (u / 4096) [(u / 64) mod 64; u mod 64]); try done; try lia; [right; left|dlia|at_byte Hat O| |cbn; dlia|cbn; dlia].
    intros [|[|i]] m [= <-]; (split; [dlia|]); [at_byte Hat 1%nat|at_byte Hat 2%nat].
  - apply (copy_long _ _ _ 240 3 8 (u / 262144) [(u / 4096) mod 64; (u / 64) mod 64; u mod 64]); try done; try lia; [do 2 right; left|dlia|at_byte Hat O| |cbn; dlia|cbn; dlia].
    intros [|[|[|i]]] m [= <-]; (split; [dlia|]); [at_byte Hat 1%nat|at_byte Hat 2%nat|at_byte Hat 3%nat].
Qed.

Lemma encode_nonempty u : 1 <= zlen (utf8_encode u).
Proof. unfold utf8_encode. destruct (u <? 128), (u <? 2048), (u <? 65536); cbn; lia. Qed.

(** Every text of characters is accepted. *)
Theorem utf8_accepts us : Forall (fun u => 0 <= u <= MAXUNICODE) us -> utf8 (concat (utf8_encode <$> us)) = true.
Proof.
  intros Hus. unfold utf8, utf8_at. set (s := concat (utf8_encode <$> us)).
  assert (H : forall todo pre fuel, Forall (fun u => 0 <= u <= MAXUNICODE) todo -> s = pre ++ concat (utf8_encode <$> todo) -> (length (concat (utf8_encode <$> todo)) < fuel)%nat ->
    utf8_steps fuel s (zlen pre) (zlen (concat (utf8_encode <$> todo))) = true).
  { induction todo as [|u todo IH]; intros pre fuel Ht Es Hf; (destruct fuel as [|fuel]; [lia|]); cbn [utf8_steps]; [done|].
    apply Forall_cons in Ht as [Hu Ht]. cbn [fmap list_fmap concat] in *. rewrite length_app in *. pose proof (encode_nonempty u) as Hne.
    destruct (Z.ltb_spec 0 (Z.of_nat (length (utf8_encode u) + length (concat (utf8_encode <$> todo))))); [|lia].
    rewrite Es, copy_char by (done || lia). destruct (Z.eqb_spec (zlen (utf8_encode u)) 0); [lia|]. cbn [negb andb]. rewrite <- Es.
    replace (zlen pre + zlen (utf8_encode u)) with (zlen (pre ++ utf8_encode u)) by (rewrite length_app; lia).
    replace (Z.of_nat (length (utf8_encode u) + length (concat (utf8_encode <$> todo))) - zlen (utf8_encode u)) with (zlen (concat (utf8_encode <$> todo))) by lia.
    apply IH; [done|by rewrite <- app_assoc|lia]. }
  exact (H us [] (S (length s)) Hus eq_refl (Nat.lt_succ_diag_r _)).
Qed.
