(* ===== verification/BsonEnds.v ===== *)
(** * Reading BSON comes to an end

    Whatever the bytes and the lengths in them, negative ones included: what a reader
    goes back by, it has read before. *)

From S2P Require Import Prelude Text Bson.
From stdpp Require Import base numbers list.
From Stdlib Require Import ZArith Lia.
From Stdlib Require String.
Import String.StringSyntax.
#[local] Open Scope Z_scope.
#[local] Open Scope list_scope.
Import Bson.

Section Ends.
Context (data : list Z).

(** ** No reader runs out of fuel *)

Lemma ends_check br k : ends (check_reader br k).
Proof. unfold check_reader. by destruct (_ <? _). Qed.
Lemma ends_advance br k : ends (advance br k).
Proof. unfold advance. ending. Qed.
#[local] Hint Resolve ends_check ends_advance : ends.

Lemma ends_byte br : ends (read_byte data br).
Proof. unfold read_byte. ending. Qed.
Lemma ends_int32 br : ends (read_int32 data br).
Proof. unfold read_int32. ending. Qed.
Lemma ends_word64 br : ends (read_word64 data br).
Proof. unfold read_word64. ending. Qed.
Lemma ends_bytes br k : ends (read_bytes br k).
Proof. unfold read_bytes. ending. Qed.
#[local] Hint Resolve ends_byte ends_int32 ends_word64 ends_bytes : ends.

Lemma ends_cstring_loop br : forall fuel i, Z.max 0 (Z.of_nat (length data) - Z.max 0 (r_ptr br + i)) < Z.of_nat fuel -> ends (cstring_loop data fuel br i).
Proof.
  induction fuel as [|fuel IH]; intros i Hf; [lia|]. cbn [cstring_loop]. destruct (i =? r_size br); [done|].
  apply ends_bind; [auto with ends|]. intros c Hc. apply arr_get_inv in Hc as [Hp Hc]. apply lookup_lt_Some in Hc. destruct (c =? 0); [done|]. apply IH. lia.
Qed.

Lemma ends_cstring br : ends (read_cstring data br).
Proof. unfold read_cstring. apply ends_bind; [apply ends_cstring_loop; lia|]. intros. ending. Qed.
#[local] Hint Resolve ends_cstring : ends.

Lemma ends_addlstring p n : ends (addlstring data p n).
Proof. unfold addlstring. ending. Qed.
Lemma ends_object type p n : ends (make_object data type p n).
Proof. unfold make_object. apply ends_bind; [apply ends_addlstring|]. done. Qed.
#[local] Hint Resolve ends_addlstring ends_object : ends.

Lemma ends_value bt t : ends (unpack_value data bt t).
Proof. unfold unpack_value, read_double, read_int64. ending. Qed.

Lemma ends_open br : ends (open_dict data br).
Proof. unfold open_dict. ending. Qed.
#[local] Hint Resolve ends_value ends_open : ends.

(** ** No value takes the reader back behind its beginning *)

Lemma advance_size br k br' : advance br k = Ok br' -> r_size br' = r_size br - k.
Proof. unfold advance, c_int. destruct (is_int _); [|done]. intros H. cbn in H. by injection H as <-. Qed.

Lemma byte_size br x br' : read_byte data br = Ok (x, br') -> r_size br' = r_size br - 1 /\ 1 <= r_size br.
Proof. unfold read_byte, check_reader. intros H. inv_ok. destruct (Z.ltb_spec (r_size br) 1); [done|]. split; [by apply advance_size|lia]. Qed.
Lemma int32_size br x br' : read_int32 data br = Ok (x, br') -> r_size br' = r_size br - 4.
Proof. unfold read_int32. intros H. inv_ok. by apply advance_size. Qed.
Lemma word64_size br x br' : read_word64 data br = Ok (x, br') -> r_size br' = r_size br - 8.
Proof. unfold read_word64. intros H. inv_ok. by apply advance_size. Qed.
Lemma bytes_size br k x br' : read_bytes br k = Ok (x, br') -> r_size br' = r_size br - k /\ k <= r_size br.
Proof. unfold read_bytes, check_reader. intros H. inv_ok. destruct (Z.ltb_spec (r_size br) k); [done|]. split; [by apply advance_size|lia]. Qed.

Lemma cstring_loop_pos br : forall fuel i j, cstring_loop data fuel br i = Ok j -> i <= j.
Proof.
  induction fuel as [|fuel IH]; intros i j; cbn [cstring_loop]; [done|]. destruct (i =? r_size br); [done|]. intros H. apply bind_Ok in H as (c & _ & H).
  destruct (c =? 0); [injection H as <-; lia|]. apply IH in H. lia.
Qed.
Lemma cstring_size br s br' : read_cstring data br = Ok (s, br') -> r_size br' < r_size br.
Proof. unfold read_cstring. intros H. inv_ok. apply cstring_loop_pos in E. apply advance_size in E1. lia. Qed.

Lemma addlstring_len p n s : addlstring data p n = Ok s -> - 2^31 <= n < 2^31 -> 0 <= n.
Proof.
  unfold addlstring. intros H Hn. destruct (Z.ltb_spec (2^62) (u64 n)); [done|].
  destruct (decide (0 <= n)); [done|]. unfold u64 in *. replace (n mod 2^64) with (n + 2^64) in * by (rewrite <- (Z_mod_plus_full n 1); rewrite Z.mod_small; lia). lia.
Qed.

Lemma object_len type p n v : make_object data type p n = Ok v -> - 2^31 <= n < 2^31 -> 0 <= n.
Proof. unfold make_object. intros H Hn. apply bind_Ok in H as (s & H & _). by eapply addlstring_len. Qed.

Lemma int32_range br x br' : read_int32 data br = Ok (x, br') -> - 2^31 <= x < 2^31.
Proof. unfold read_int32. intros H. inv_ok. unfold i32. pose proof (Z.mod_pos_bound (of_le r0 + 2^31) (2^32)). lia. Qed.

Lemma c_int_inv z z' : c_int z = Ok z' -> z' = z /\ - 2^31 <= z < 2^31.
Proof. unfold c_int, is_int. destruct (Z.leb_spec (-2^31) z), (Z.ltb_spec z (2^31)); try done. intros [= <-]. lia. Qed.

(** Facts about the sizes after each call. *)
Ltac sizes :=
  repeat match goal with
  | H : (_ ≫= _) = Ok _ |- _ => let a := fresh "r" in let E := fresh "E" in apply bind_Ok in H as (a & E & H)
  | H : (let (_, _) := ?x in _) = Ok _ |- _ => destruct x
  | H : (match ?x with (_, _) => _ end) = Ok _ |- _ => destruct x
  | H : Ok _ = Ok _ |- _ => injection H as H; subst
  | H : Fault _ = Ok _ |- _ => discriminate H
  | H : read_byte _ _ = Ok _ |- _ => apply byte_size in H as [? ?]
  | H : read_int32 _ _ = Ok _ |- _ => pose proof (int32_range _ _ _ H); apply int32_size in H
  | H : addlstring _ _ _ = Ok _ |- _ => apply addlstring_len in H; [|lia]
  | H : make_object _ _ _ _ = Ok _ |- _ => apply object_len in H; [|lia]
  | H : read_word64 _ _ = Ok _ |- _ => apply word64_size in H
  | H : read_cstring _ _ = Ok _ |- _ => apply cstring_size in H
  | H : read_bytes _ _ = Ok _ |- _ => apply bytes_size in H as [? ?]
  | H : c_int _ = Ok _ |- _ => apply c_int_inv in H as [? ?]; subst
  end.

Lemma value_size bt t v t' : unpack_value data bt t = Ok (v, t') -> r_size t' <= r_size t.
Proof.
  unfold unpack_value, read_double, read_int64. intros H.
  repeat match type of H with (if ?b then _ else _) = _ => destruct b end; sizes; try lia.
  destruct (Z.leb_spec z 0); sizes; lia.
Qed.

Lemma loop_nonneg fuel t array tbl tbl' : unpack_loop data fuel t array tbl = Ok tbl' -> 0 <= r_size t.
Proof.
  destruct fuel as [|fuel]; cbn [unpack_loop]; [done|]. destruct (Z.eqb_spec (r_size t) 0) as [->|]; [done|]. intros H. apply bind_Ok in H as ([bt t1] & E & _). sizes. lia.
Qed.

Lemma open_size br inner br' : open_dict data br = Ok (inner, br') -> r_size inner < r_size br /\ r_size br' = r_size br - (r_size inner + 5).
Proof. unfold open_dict. intros H. sizes. destruct (negb _); sizes. cbn [r_size]. lia. Qed.

Lemma loop_ends fuel : forall t array tbl, Z.max 0 (r_size t) < Z.of_nat fuel -> ends (unpack_loop data fuel t array tbl).
Proof.
  induction fuel as [|fuel IH]; intros t array tbl Hf; [lia|].
  cbn [unpack_loop]. destruct (r_size t =? 0); [done|]. apply ends_bind; [auto with ends|]. intros [bt t1] E1. apply ends_bind; [auto with ends|]. intros [key t2] E2. sizes. apply ends_bind.
  - destruct (_ || _); [|auto with ends]. apply ends_bind; [auto with ends|]. intros [inner t3] E3. apply open_size in E3 as [? ?]. apply ends_bind; [apply IH; lia|]. done.
  - intros [v t3] E3. apply IH. destruct (_ || _); [|apply value_size in E3; lia].
    apply bind_Ok in E3 as ([inner t4] & E4 & E3). apply bind_Ok in E3 as (sub & E5 & E3). injection E3 as _ <-. apply open_size in E4 as [? ?]. apply loop_nonneg in E5. lia.
Qed.

Lemma dict_ends br array : ends (unpack_dict data br array).
Proof. unfold unpack_dict. apply ends_bind; [auto with ends|]. intros [t br'] _. apply ends_bind; [apply loop_ends; lia|]. done. Qed.
End Ends.

(** Decoding ends for every block: with the documents, the array or an error, never in a
    loop. *)
Theorem decode_ends data : ends (ldecode data).
Proof. unfold ldecode, get_length. apply ends_bind; [ending|]. intros len _. apply dict_ends. Qed.
